(* ===== verification/_CoqProject ===== *)
-Q . S2P
Prelude.v
Ebpf.v
Program.v
X86.v
Jit.v
JitLayout.v
InsnBuilder.v
InsnBuilderFacts.v
Verifier.v
VerifierFacts.v
Error.v
Vm.v
Interpreter.v
InterpreterFacts.v
MemoryRegion.v
Eytzinger.v
MemoryFacts.v
MappingFacts.v
AlignedMemory.v
ElfParser.v
ElfParserFacts.v
Text.v
Elf.v
ElfFacts.v
ElfLoadFacts.v
Assembler.v
AssemblerFacts.v
Disassembler.v
DisassemblerFacts.v
BTree.v
StaticAnalysis.v
StaticFacts.v
X86Isa.v
X86Decode.v
JitSim.v
JitCorrect.v
JitInterp.v
JitInterpRun.v
TestContext.v
JitWitnesses.v
Witnesses.v
ElfWitnesses.v
AsmWitnesses.v
PageAllocator.v
PageFacts.v
JitProgram.v
X86Emit.v
X86EmitFacts.v
JitCompiler.v
JitEmitFacts.v
JitMethodFacts.v
JitCompilerFacts.v
JitSafety.v
JitCompileFacts.v
JitVerified.v
CompilerWitnesses.v
Components.v
ComponentsInv.v
ComponentsFacts.v
ComponentsSpec.v
Dominance.v
DominanceFacts.v
DataFlow.v
DataFlowFacts.v
AnalysisFacts.v
Aarch64.v
A64Isa.v
A64Encode.v
A64Facts.v
AnalysisOutput.v
AnalysisWitnesses.v
TestUtils.v
TestUtilsFacts.v
TestWitnesses.v
Debugger.v
DebuggerFacts.v
DebuggerWitnesses.v
AsmParser.v
AsmParserFacts.v
ParserWitnesses.v
