(* ===== verification/Prelude.v ===== *)
(** * A verified model of the sBPF virtual machine of the case study

    The repository carries, under [src/casestudy/sbpf], the Solana sBPF virtual
    machine: a Rust library that loads programs for a 64-bit register machine,
    checks them with a static verifier, and runs them in an interpreter or
    through a just-in-time compiler.  This library models its core and proves
    what makes it correct.  File names below are relative to
    [src/casestudy/sbpf/src] unless they start with another directory.

    ** The parts and how they interact

    - [ebpf.rs] names the opcodes and decodes an 8-byte slot into an [Insn]; the
      verifier, the interpreter and both compilers read programs through it.
    - [program.rs] holds the versions of the instruction set, the registries
      that map a key to an internal function or a syscall, and the loader.
    - [verifier.rs] accepts or rejects a program before it may run.
    - [vm.rs] owns the machine: registers, call frames, instruction meter and
      program result; [execute_program] runs a program in it.
    - [interpreter.rs] is the step function of that machine.
    - [memory_region.rs] translates guest addresses to host addresses for every
      load and store, through sorted or indexed regions.
    - [elf_parser/] reads the tables of an ELF file, [elf.rs] makes an
      [Executable] of one: it checks the file, copies its read-only sections
      into [aligned_memory.rs] buffers and relocates its code.
    - [insn_builder.rs] and [assembler.rs] produce programs, from method calls
      and from text, which [asm_parser.rs] reads; [disassembler.rs] prints them,
      and [static_analysis.rs] finds their basic blocks, control flow, dominators
      and data flow.
    - [debugger.rs] lets a remote client drive the interpreter;
      [test_utils/] builds virtual machines for the tests and has their syscalls.
    - [safe_mode/x86.rs] encodes x86-64 instructions and [safe_mode/jit.rs] is
      the compiler that uses it, both without raw pointers.
    - [jit.rs] is the production compiler, [x86.rs] its encoder; it writes
      through raw pointers into pages of [memory_management.rs].  [aarch64.rs]
      encodes AArch64 instructions for a compiler that is not there yet.

    ** Files

    - [Prelude]: outcomes of Rust code ([Ok], [Err], [Panic]), machine integers
      of a width kept as [Z] with their wrap-around written out, little-endian
      bytes, checked accesses, the tactics and hints the other files use.
    - [Ebpf] ([ebpf.rs]): constants, [Insn], [to_array], [get_insn],
      [augment_lddw_unchecked], and their round trips.
    - [Program] ([program.rs], and [Config] of [vm.rs]): [SBPFVersion],
      [FunctionRegistry], [BuiltinProgram].
    - [X86] ([safe_mode/x86.rs]): the instruction record, one constructor per
      instruction, [encode].
    - [Jit] ([safe_mode/jit.rs]): lowering of sBPF to model instructions, their
      emission, the program-counter table and jump resolution, in a state and
      error monad over [JitCompilerModel].  [JitLayout] holds the reference
      assembler and the proof that the compiler implements it.
    - [X86Isa]: a reference decoder and semantics of the x86-64 subset the
      compiler emits, written from the architecture and independent of [X86].
      [X86Decode] shows that every form the compiler encodes decodes to the
      instruction meant, for all registers and immediates.
    - [JitSim]: the reference semantics of the model instructions, the relation
      between sBPF registers and processor state, and the forward simulation of
      each instruction; [JitCorrect] the simulation of whole programs;
      [JitInterp] the opcodes on which compiler and interpreter agree, with the
      arm of the interpreter and the lowering of each, [JitInterpRun] the run.
    - [PageAllocator] ([memory_management.rs]): rounding, system calls, free
      lists and the pool, over an operating system that is a class with laws;
      [PageFacts] that the blocks in use are exclusive.
    - [JitProgram], [JitCompiler] ([jit.rs]): the buffers, the state, every
      emission method, the subroutines, the main loop, construction and sealing,
      in a state and error monad where an access outside a buffer is the outcome
      [Undefined].  [X86Emit] ([x86.rs]): the constructors and [emit].
      [X86EmitFacts] relates it to [X86].  [JitEmitFacts] is a program logic for
      byte counts, anchors and jumps; [JitMethodFacts] applies it to the
      methods, [JitCompilerFacts] to the subroutines and the arms, [JitSafety] to
      the forward jumps and the loop, [JitCompileFacts] to construction and
      sealing, [JitVerified] to verified programs.
    - [Verifier] ([verifier.rs]): [RequisiteVerifier::verify], arm by arm.
      [VerifierFacts] holds the safety predicate on programs and its proofs.
    - [Error] ([error.rs]), [Vm] ([vm.rs], and [Executable] of [elf.rs]):
      errors, results, call frames, the machine, and the interfaces it is
      generic in: [ContextObject] (the meter), [VmMemory] (loads and stores) and
      [Builtins] (syscalls), each with a class of laws.
    - [Interpreter] ([interpreter.rs]): [step], arm by arm, [push_frame],
      [dispatch_syscall], [run_interpreter] and [execute_program].
      [InterpreterFacts] proves them safe against the interfaces of [Vm].
    - [MemoryRegion] ([memory_region.rs]): regions, the Eytzinger-ordered
      mapping and its cache, the aligned mapping, loads and stores on a host
      memory that is a finite map of bytes.  [Eytzinger] has the theory of the
      implicit search tree, [MemoryFacts] the regions and both mappings,
      [MappingFacts] loads and stores.
    - [TestContext] ([test_utils/src/lib.rs]): the context object of the tests,
      with a memory mapping; it discharges the laws of [Vm].
    - [AlignedMemory] ([aligned_memory.rs]): the buffers, over an allocator that
      is a class with laws, and that they are bounded vectors.
    - [ElfParser] ([elf_parser/]): [Elf64::parse] with its tables, sections,
      dynamic information and strings; [ElfParserFacts] the theorems.
    - [Text]: what the code uses of strings, UTF-8 and number formatting.
    - [Elf] ([elf.rs]): [Executable::load], the strict and the lenient loader,
      validation, read-only sections, relocation, accessors.  [ElfFacts] is
      about relocation, [ElfLoadFacts] about both loaders and running what they
      load.
    - [InsnBuilder] ([insn_builder.rs]): [BpfCode], the trait [Instruction] as a
      class and its ten instances; [InsnBuilderFacts] the programs they build.
    - [Assembler] ([assembler.rs], and the data of [asm_parser.rs]): the table of
      mnemonics and the two passes; [AssemblerFacts] the layout they implement.
    - [Disassembler] ([disassembler.rs], and [CfgNode] of [static_analysis.rs]):
      the text of an instruction; [DisassemblerFacts] that it assembles back.
    - [AsmParser] ([asm_parser.rs]): the grammar, over the interface [Combine] of
      the parser combinators and its laws; [AsmParserFacts] that it reads what is
      printed; [ParserWitnesses] an implementation of the interface, and texts
      parsed and assembled with it.
    - [BTree]: ordered maps and their iteration order.
    - [StaticAnalysis] ([static_analysis.rs]): decoding, basic blocks, edges,
      labels and the listing of an executable; [StaticFacts] the graph they make.
      [Components] is the pass that finds strongly connected components;
      [ComponentsInv] the invariant of its search, on sets and lists of indices,
      [ComponentsFacts] that the search refines it, [ComponentsSpec] the result.
      [Dominance] is the dominance pass and the fixed point of its iteration on
      ranks, [DominanceFacts] the parents it finds.  [DataFlow] holds
      both data-flow passes and [from_executable]; [DataFlowFacts] says what the
      edges are, [AnalysisFacts] that the whole analysis returns.
      [AnalysisOutput] holds the trace, its counts ([DynamicAnalysis] of [vm.rs]),
      the iteration by function and the picture, and what they show.
      [AnalysisWitnesses]: programs analysed and drawn.
    - [Aarch64] ([aarch64.rs]): formats, constructors and [emit]; [A64Isa] a
      reference decoder and semantics written from the architecture,
      [A64Encode] and [A64Facts] the proofs against it.
    - [TestUtils] ([test_utils/]): the syscalls of the tests, the memory and the
      machine the harness builds, and its run in the interpreter;
      [TestUtilsFacts] that the syscalls keep the laws of [Vm], all but one, and
      that the harness returns; [TestWitnesses].
    - [Debugger] ([debugger.rs], and the debugger fields of [interpreter.rs]):
      the methods the client reaches, the descriptions and the loop [execute];
      [DebuggerFacts] what continuing does and what the client can do,
      [DebuggerWitnesses].
    - [JitWitnesses]: a compiled loop, run, the theorems on it, and concrete
      behaviours that differ from the documentation;
      [CompilerWitnesses]: a small operating system and programs compiled on it.
    - [Witnesses], [ElfWitnesses], [AsmWitnesses]: every theorem with hypotheses
      applied at a concrete input, sample ELF files and assembled programs; the
      other parts have a file of witnesses of their own.

    ** What the theorems show

    - The verifier reaches a verdict on every input ([verify_total]), and an
      accepted program has only safe slots ([verify_sound]).
    - A verified program runs in the interpreter without a panic, keeps the
      machine invariant ([step_safe]) and stops within its meter
      ([execute_program_terminates]), for every context, memory and set of
      syscalls that satisfy the laws of the interfaces.
    - Address translation is the documented arithmetic, stays inside the host
      memory of the region and is injective; the branchless search with its
      cache is the linear search; loads and stores touch only permitted bytes
      and a stored value is loaded back.
    - The compiler is a two-pass assembler: it succeeds exactly when every
      instruction can be selected and every branch resolved, and its text is the
      concatenation of the encodings with their final displacements
      ([compile_spec], [compile_sbpf_spec]).
    - The bytes the compiler emits, decoded and run by the reference processor,
      compute what the model instructions mean ([compile_correct]) and, for
      programs of agreeing opcodes, the value the interpreter returns
      ([compile_sbpf_matches_interpreter]); the scratch slot below the stack is
      the only memory they write.  Both speak of runs that return a value; a
      program that runs out of meter or past its end has an error in the
      interpreter and no counterpart in the compiled code, which has no meter.
    - The production compiler stays inside its buffers for every program and
      every random choice ([jit_compile_in_bounds]): the 220 bytes its capacity
      check keeps free are enough for any instruction with its checkpoint, its
      tracing and its noops, provided no key that resolves calls names both a
      syscall and an internal function, and the hooks that generate the code of
      syscall calls, a parameter ([Codegen]), generate no more than the default
      one.  Files that load and verify compile without a panic
      ([loaded_program_compiles]) and forward jumps reach their targets
      ([compile_resolves_jumps]).  Its encoder writes the bytes of the safe-mode
      one ([emit_equals_encode], [constructors_mirror]), and the pages it gets
      are its own ([pool_exclusive]).
    - Decoding and encoding of instruction slots are inverse; registries keep
      their bindings and report collisions.
    - The ELF parser never panics and what it accepts is well formed
      ([parse_sound]); both loaders return an executable or an error, without a
      panic unless strict headers meet symbol labels ([load_no_panic]), what they load is where the accessors look
      ([load_strict_sound], [load_lenient_sound]), relocation resolves calls and
      addresses, and a file that loads and verifies runs to its end in the
      interpreter ([loaded_program_returns]).
    - The builder's programs decode to the instructions pushed, with the named
      opcodes, for fields in range ([built_program_decodes]); the assembler's
      labels are reached by the jumps and calls that name them and its text
      decodes to what it emitted ([labels_reached], [assembled_text_decodes]);
      the parser reads what is printed ([parse_print]), and what the disassembler
      prints parses and assembles back to the instruction ([disassembly_parses]).
    - The static analysis makes a control-flow graph of basic blocks
      ([analysis_graph], against a reference of jump targets by opcode and address;
      calls by distance behind a 64-bit load, and the step from the first block of
      a function to the next, are left open); its components are the strongly connected ones
      ([components_spec]), the parents of blocks their immediate dominators
      ([dominance_spec]), the edges of the data-flow graph the last writers of what
      an instruction accesses ([intra_block_edges]) and those handed on to
      predecessors ([inter_block_edges], which leaves the source field of a handed
      edge open), between instructions and blocks that exist
      ([data_flow_well_formed]), and it returns
      ([analysis_returns]).  The dominators, and hence the last theorem, are for
      graphs whose blocks are reached from an entry that does not come after them;
      [parent_not_immediate] shows what happens otherwise.
    - The words of the AArch64 encoder decode to the instructions meant, for
      fields in range ([emit_decodes]) and compute what their names say ([constructors_compute],
      [compare_and_branch]).
    - The machine the tests build runs verified programs with the tests' syscalls
      to a result ([test_program_returns]); [memfrob] undoes itself
      ([mem_frob_twice]).
    - Under the debugger a program reaches the states it reaches without it: it
      stops at the first breakpoint or at its end ([continue_stops],
      [debugger_refines]); the client changes only registers, breakpoints and mode
      ([client_keeps_program]), and as long as it keeps the program counter in the
      text no turn of the loop panics but at an unwrap of a failed call into the
      protocol ([turn_safe]).  Registers and the target
      description survive the wire ([gdb_registers_roundtrip], [xml_transfer]).

    ** Panics, integers and fuel

    A panic of the Rust code (index out of range, failed assertion, division by
    zero, overflow in a checked build) is the value [Panic]; the class [Profile]
    says whether debug assertions and overflow checks are on, and every theorem
    holds in both profiles.  The verifier's loop runs on one unit of fuel per
    slot and one more; the region search on one unit per tree level at most;
    the interpreter's loop on one unit per instruction left on the meter and one
    more; the production compiler's loops on one unit per byte and one more; the
    decoding of the static analysis on one unit per byte and one more, its search
    on two units per block, its dominance pass on one unit for every rank every
    parent may rise, its propagation on one for every edge every node may get; a run under the debugger on one unit per instruction left on the meter
    and one more.  That this is enough is part of the theorems: running out is [Panic]
    or [None], which they exclude.

    ** Not modelled

    [JitProgram::invoke], which runs the code of the production compiler through
    inline assembly, and what that code computes: a semantics of its
    instructions, of the calling convention and of the host functions it calls
    is the step that remains.  The variants for Windows; the half of the test
    harness that runs compiled code; [mem_size], [Debug] and [PartialEq]
    implementations; what is printed to a console; the command line, tests, fuzz
    targets and benches.  Code outside the repository is a parameter with named
    laws: the hash of symbol names, the byte-order crate, the parser combinators
    ([Combine]), the protocol of the remote debugger ([GdbStub]), the random
    number generator, the operating system, the global allocator, the addresses
    the linker chooses, the access-violation handler, the native functions, the
    iteration order of a hash set, the text of a floating-point number and of
    [Debug].  The OCaml, Lean, F*, HOL4 and Isabelle sources of the translator
    at the root of the repository are outside the Rust implementation. *)

From Stdlib Require Export ZArith Lia.
From stdpp Require Export base tactics numbers list option sorting.
#[global] Open Scope Z_scope.

(** ** Outcomes of Rust code

    [Ok]/[Err] are the two variants of [Result]; [Panic] is an unwinding
    panic (index out of range, division by zero, failed assertion, checked
    arithmetic overflow). *)
Inductive result (E A : Type) : Type :=
| Ok (a : A)
| Err (e : E)
| Panic.
Arguments Ok {E A} a.
Arguments Err {E A} e.
Arguments Panic {E A}.

#[global] Instance result_ret E : MRet (result E) := fun A a => Ok a.
#[global] Instance result_bind E : MBind (result E) := fun A B f m =>
  match m with Ok a => f a | Err e => Err e | Panic => Panic end.
#[global] Instance result_eq_dec E A `{EqDecision E, EqDecision A} :
  EqDecision (result E A).
Proof. solve_decision. Defined.

(** [opt.ok_or(e)] *)
Definition ok_or {E A} (o : option A) (e : E) : result E A :=
  match o with Some a => Ok a | None => Err e end.

(** An expression that panics when it has no value ([v[i]], [.unwrap()]). *)
Definition or_panic {E A} (o : option A) : result E A :=
  match o with Some a => Ok a | None => Panic end.

(** [r.map_err(f)] *)
Definition map_error {E F A} (f : E -> F) (r : result E A) : result F A :=
  match r with Ok a => Ok a | Err e => Err (f e) | Panic => Panic end.

(** The build profile: whether [debug_assert!] and the overflow checks of
    [+], [-], [*] and [<<] are compiled in. *)
Class Profile := { debug_assertions : bool }.

Definition debug_assert {E} `{Profile} (b : bool) : result E unit :=
  if debug_assertions && negb b then Panic else Ok tt.

(** ** Machine integers

    A [w]-bit integer is the [Z] it denotes; [as_u w] and [as_i w] are the
    casts [as u<w>] and [as i<w>] from any integer type. *)
Definition as_u (w z : Z) : Z := z mod 2 ^ w.
Definition as_i (w z : Z) : Z :=
  let r := z mod 2 ^ w in if r <? 2 ^ (w - 1) then r else r - 2 ^ w.

Definition is_u (w z : Z) : Prop := 0 <= z < 2 ^ w.
Definition is_i (w z : Z) : Prop := - 2 ^ (w - 1) <= z < 2 ^ (w - 1).

Definition u64_max : Z := 2 ^ 64 - 1.
Definition i64_max : Z := 2 ^ 63 - 1.
Definition i64_min : Z := - 2 ^ 63.
Definition i32_max : Z := 2 ^ 31 - 1.
Definition i32_min : Z := - 2 ^ 31.
Definition u32_max : Z := 2 ^ 32 - 1.

(** Arithmetic with the standard library's overflow policies. [usize] is
    64 bits wide on every target the code supports. *)
Definition wrapping_shl (w a n : Z) : Z := as_u w (Z.shiftl a (n mod w)).
Definition wrapping_shr (w a n : Z) : Z := Z.shiftr a (n mod w).
Definition saturating_add_u64 (a b : Z) : Z := Z.min (a + b) u64_max.
Definition saturating_sub_u64 (a b : Z) : Z := Z.max (a - b) 0.
Definition saturating_mul_u64 (a b : Z) : Z := Z.min (a * b) u64_max.
Definition saturating_i64 (z : Z) : Z := Z.max i64_min (Z.min z i64_max).
Definition checked_add_u64 (a b : Z) : option Z :=
  if a + b <=? u64_max then Some (a + b) else None.
Definition checked_sub_u64 (a b : Z) : option Z :=
  if 0 <=? a - b then Some (a - b) else None.

(** [a + b], [a - b], [a * b] on [u64]/[usize] and on [i64]: overflow panics
    when the checks are compiled in and wraps otherwise. *)
Definition arith_u64 {E} `{Profile} (z : Z) : result E Z :=
  if (0 <=? z) && (z <=? u64_max) then Ok z
  else if debug_assertions then Panic else Ok (as_u 64 z).
Definition arith_i64 {E} `{Profile} (z : Z) : result E Z :=
  if (i64_min <=? z) && (z <=? i64_max) then Ok z
  else if debug_assertions then Panic else Ok (as_i 64 z).

(** Division and remainder of [u<w>] and [i<w>]: a zero divisor and the
    signed overflow [MIN / -1] panic in every profile. *)
Definition div_u {E} (a b : Z) : result E Z := if b =? 0 then Panic else Ok (a / b).
Definition rem_u {E} (a b : Z) : result E Z := if b =? 0 then Panic else Ok (a mod b).
Definition div_i {E} (w a b : Z) : result E Z :=
  if (b =? 0) || ((a =? - 2 ^ (w - 1)) && (b =? -1)) then Panic else Ok (Z.quot a b).
Definition rem_i {E} (w a b : Z) : result E Z :=
  if (b =? 0) || ((a =? - 2 ^ (w - 1)) && (b =? -1)) then Panic else Ok (Z.rem a b).

(** ** Bytes *)
Abbreviation byte := Z (only parsing).
Definition is_bytes (l : list byte) : Prop := Forall (is_u 8) l.

(** [is_bytes] by computation. *)
Lemma is_bytes_compute (l : list byte) :
  forallb (fun b => (0 <=? b) && (b <? 256)) l = true -> is_bytes l.
Proof.
  unfold is_bytes. rewrite forallb_forall. intros Hl. apply List.Forall_forall.
  intros b Hb. specialize (Hl b Hb). unfold is_u. lia.
Qed.

Ltac solve_bytes :=
  unfold is_bytes; repeat (apply List.Forall_cons || apply List.Forall_nil); done.

Fixpoint le_bytes (n : nat) (z : Z) : list byte :=
  match n with O => [] | S n => z mod 256 :: le_bytes n (z / 256) end.
Fixpoint le_val (l : list byte) : Z :=
  match l with [] => 0 | b :: l => b + 256 * le_val l end.

(** [x.to_be()] on a little-endian host for an [8*n]-bit [x]. *)
Definition swap_bytes (n : nat) (z : Z) : Z := le_val (rev (le_bytes n z)).

(** [&v[i..]]; panics when [i > v.len()]. *)
Definition slice_from {A} (v : list A) (i : Z) : option (list A) :=
  if (0 <=? i) && (i <=? Z.of_nat (length v)) then Some (drop (Z.to_nat i) v) else None.

(** [v.get(i)] for a [usize] index. *)
Definition get {A} (v : list A) (i : Z) : option A :=
  if i <? 0 then None else v !! Z.to_nat i.

(** [v[i] = x]; [None] when out of range. *)
Definition set {A} (v : list A) (i : Z) (x : A) : option (list A) :=
  if (0 <=? i) && (i <? Z.of_nat (length v))
  then Some (<[Z.to_nat i := x]> v) else None.

(** [v[i..i + new.len()].copy_from_slice(new)], in range. *)
Definition splice {A} (v : list A) (i : nat) (new : list A) : list A :=
  take i v ++ new ++ drop (i + length new) v.

(** ** Lemmas on machine integers *)
Lemma pow2_pos (w : Z) : 0 <= w -> 0 < 2 ^ w.
Proof. intros. lia. Qed.

Lemma as_u_range (w z : Z) : 0 <= w -> is_u w (as_u w z).
Proof. intros. unfold is_u, as_u. apply Z.mod_pos_bound. lia. Qed.

Lemma as_u_small (w z : Z) : is_u w z -> as_u w z = z.
Proof. unfold is_u, as_u. apply Z.mod_small. Qed.

Lemma pow2_pred (w : Z) : 0 < w -> 2 ^ w = 2 * 2 ^ (w - 1).
Proof. intros. rewrite <- Z.pow_succ_r by lia. f_equal. lia. Qed.

Lemma as_i_range (w z : Z) : 0 < w -> is_i w (as_i w z).
Proof.
  intros Hw. unfold is_i, as_i. pose proof (pow2_pred w Hw).
  pose proof (pow2_pos (w - 1) ltac:(lia)).
  pose proof (Z.mod_pos_bound z (2 ^ w) ltac:(lia)).
  destruct (Z.ltb_spec (z mod 2 ^ w) (2 ^ (w - 1))); lia.
Qed.

Lemma as_i_eq (w z : Z) : 0 < w -> exists k, as_i w z = z + k * 2 ^ w.
Proof.
  intros Hw. unfold as_i. pose proof (Z.div_mod z (2 ^ w) ltac:(lia)).
  destruct (_ <? _); [exists (- (z / 2 ^ w)) | exists (- (z / 2 ^ w) - 1)]; lia.
Qed.

Lemma as_u_as_i (w z : Z) : 0 < w -> as_u w (as_i w z) = as_u w z.
Proof.
  intros Hw. destruct (as_i_eq w z Hw) as [k ->]. unfold as_u.
  apply Z.mod_add. lia.
Qed.

Lemma as_u_add_mul (w z k : Z) : 0 <= w -> as_u w (z + k * 2 ^ w) = as_u w z.
Proof. intros. unfold as_u. apply Z.mod_add. lia. Qed.

Lemma as_i_congr (w a b : Z) : as_u w a = as_u w b -> as_i w a = as_i w b.
Proof. unfold as_u, as_i. by intros ->. Qed.

Lemma as_i_small (w z : Z) : 0 < w -> is_i w z -> as_i w z = z.
Proof.
  intros Hw Hz. unfold is_i in Hz. pose proof (pow2_pred w Hw).
  pose proof (as_i_range w z Hw) as Hr. unfold is_i in Hr.
  destruct (as_i_eq w z Hw) as [k Hk]. assert (k = 0) by nia. lia.
Qed.

Lemma as_i_as_u (w z : Z) : 0 < w -> as_i w (as_u w z) = as_i w z.
Proof.
  intros. apply as_i_congr. apply as_u_small, as_u_range. lia.
Qed.

Lemma as_u_as_u (v w z : Z) : 0 <= v <= w -> as_u v (as_u w z) = as_u v z.
Proof.
  intros. unfold as_u. replace w with (v + (w - v)) by lia.
  rewrite Z.pow_add_r by lia. rewrite Z.rem_mul_r by lia.
  rewrite Z.mul_comm, Z.mod_add by lia. apply Z.mod_mod. lia.
Qed.

Lemma is_u_mono (v w z : Z) : 0 <= v <= w -> is_u v z -> is_u w z.
Proof.
  unfold is_u. intros. pose proof (Z.pow_le_mono_r 2 v w ltac:(lia) ltac:(lia)). lia.
Qed.

(** ** Bit operations as arithmetic *)
Lemma land_ones_mod (z n : Z) : 0 <= n -> Z.land z (2 ^ n - 1) = z mod 2 ^ n.
Proof.
  intros. rewrite <- Z.land_ones by lia. f_equal. rewrite Z.ones_equiv. lia.
Qed.

Lemma lor_disjoint_add (a b n : Z) :
  0 <= n -> 0 <= b < 2 ^ n -> Z.lor (a * 2 ^ n) b = a * 2 ^ n + b.
Proof.
  intros Hn Hb. rewrite Z.add_nocarry_lxor, Z.lxor_lor; try done.
  all: apply Z.bits_inj'; intros i Hi; rewrite Z.land_spec, Z.bits_0.
  all: destruct (Z.lt_ge_cases i n);
    [rewrite Z.mul_pow2_bits_low by lia; done |].
  all: apply andb_false_intro2; destruct (Z.eq_dec b 0) as [->|];
    [apply Z.bits_0 | apply Z.bits_above_log2; [lia |]].
  all: pose proof (Z.log2_lt_pow2 b n ltac:(lia)); lia.
Qed.

(** ** Bytes *)
Lemma testbit_is_u w z k : is_u w z -> w <= k -> Z.testbit z k = false.
Proof.
  intros [Hz Hw] Hk. destruct (decide (z = 0)) as [->|]; [apply Z.bits_0|].
  apply Z.bits_above_log2; [done|].
  assert (Z.log2 z < w); [|lia]. apply Z.log2_lt_pow2; lia.
Qed.

Lemma is_u_testbit w z : 0 <= w -> 0 <= z -> (forall k, w <= k -> Z.testbit z k = false) -> is_u w z.
Proof.
  intros Hw Hz Hk. split; [done|]. destruct (decide (z < 2 ^ w)) as [|Hge]; [done|].
  assert (Hpos : 0 < z) by lia.
  specialize (Hk (Z.log2 z) (proj1 (Z.log2_le_pow2 z w Hpos) ltac:(lia))).
  by rewrite Z.bit_log2 in Hk.
Qed.

Lemma lor_is_u w a b : 0 <= w -> is_u w a -> is_u w b -> is_u w (Z.lor a b).
Proof.
  intros Hw Ha Hb. apply is_u_testbit; [done|apply Z.lor_nonneg; unfold is_u in *; lia|].
  intros k Hk. by rewrite Z.lor_spec, (testbit_is_u w a), (testbit_is_u w b).
Qed.

Lemma length_le_bytes n z : length (le_bytes n z) = n.
Proof. revert z. induction n; intros; simpl; auto. Qed.

Lemma is_bytes_le_bytes n z : is_bytes (le_bytes n z).
Proof.
  revert z. induction n as [|n IH]; intros z; constructor; [|apply IH].
  unfold is_u. apply Z.mod_pos_bound. lia.
Qed.

Lemma le_val_le_bytes n z : le_val (le_bytes n z) = z mod 2 ^ (8 * Z.of_nat n).
Proof.
  revert z. induction n as [|n IH]; intros z; simpl le_val.
  - by rewrite Z.mod_1_r.
  - rewrite IH. replace (8 * Z.of_nat (S n)) with (8 + 8 * Z.of_nat n) by lia.
    rewrite Z.pow_add_r by lia. change (2 ^ 8) with 256.
    by rewrite Z.rem_mul_r by lia.
Qed.

Lemma as_i_le_bytes n z :
  (0 < n)%nat -> is_i (8 * Z.of_nat n) z ->
  as_i (8 * Z.of_nat n) (le_val (le_bytes n z)) = z.
Proof.
  intros Hn Hz. rewrite le_val_le_bytes. change (_ mod _) with (as_u (8 * Z.of_nat n) z).
  rewrite as_i_as_u by lia. apply as_i_small; [lia | done].
Qed.

Lemma le_val_bound l : is_bytes l -> 0 <= le_val l < 2 ^ (8 * Z.of_nat (length l)).
Proof.
  induction 1 as [|b l Hb _ IH]; simpl le_val; simpl length; [lia|].
  replace (8 * Z.of_nat (S (length l))) with (8 + 8 * Z.of_nat (length l)) by lia.
  rewrite Z.pow_add_r by lia. change (2 ^ 8) with 256. unfold is_u in Hb. lia.
Qed.

Lemma le_bytes_le_val l : is_bytes l -> le_bytes (length l) (le_val l) = l.
Proof.
  induction 1 as [|b l Hb _ IH]; simpl; [done|]. unfold is_u in Hb.
  rewrite (Z.mul_comm 256), Z.mod_add, Z.mod_small by lia. f_equal.
  rewrite Z.div_add, Z.div_small by lia. exact IH.
Qed.

Lemma le_bytes_congr n a b :
  as_u (8 * Z.of_nat n) a = as_u (8 * Z.of_nat n) b -> le_bytes n a = le_bytes n b.
Proof.
  intros H. rewrite <- (le_bytes_le_val (le_bytes n a)) by apply is_bytes_le_bytes.
  rewrite <- (le_bytes_le_val (le_bytes n b)) by apply is_bytes_le_bytes.
  rewrite !length_le_bytes, !le_val_le_bytes. unfold as_u in H. by rewrite H.
Qed.

Lemma take_le_bytes k n z : (k <= n)%nat -> take k (le_bytes n z) = le_bytes k z.
Proof.
  revert n z. induction k; intros [|n] z H; simpl; try done; try lia.
  f_equal. apply IHk. lia.
Qed.

Lemma swap_bytes_range n z : is_u (8 * Z.of_nat n) (swap_bytes n z).
Proof.
  unfold swap_bytes, is_u. rewrite <- (length_le_bytes n z) at 3.
  rewrite <- length_rev. apply le_val_bound.
  apply Forall_rev, is_bytes_le_bytes.
Qed.

(** ** Indexing *)
Lemma get_lookup {A} (v : list A) (n : nat) : get v (Z.of_nat n) = v !! n.
Proof. unfold get. destruct (Z.ltb_spec (Z.of_nat n) 0); [lia|]. by rewrite Nat2Z.id. Qed.

Lemma get_Some {A} (v : list A) (i : Z) :
  0 <= i < Z.of_nat (length v) -> exists x, get v i = Some x.
Proof.
  intros. unfold get. destruct (Z.ltb_spec i 0); [lia|].
  apply lookup_lt_is_Some_2. lia.
Qed.

Lemma get_Some_lt {A} (v : list A) (i : Z) x :
  get v i = Some x -> 0 <= i < Z.of_nat (length v).
Proof.
  unfold get. destruct (Z.ltb_spec i 0); [done|]. intros Hx%lookup_lt_Some. lia.
Qed.

Lemma set_Some {A} (v : list A) (i : Z) x :
  0 <= i < Z.of_nat (length v) -> set v i x = Some (<[Z.to_nat i := x]> v).
Proof.
  intros. unfold set.
  destruct (Z.leb_spec 0 i), (Z.ltb_spec i (Z.of_nat (length v))); simpl; lia || done.
Qed.

Lemma slice_from_Some {A} (v : list A) i :
  0 <= i <= Z.of_nat (length v) -> slice_from v i = Some (drop (Z.to_nat i) v).
Proof.
  intros. unfold slice_from.
  destruct (Z.leb_spec 0 i), (Z.leb_spec i (Z.of_nat (length v))); simpl; lia || done.
Qed.

Lemma arith_u64_ok {E} `{Profile} (z : Z) : is_u 64 z -> arith_u64 (E := E) z = Ok z.
Proof.
  unfold is_u, arith_u64, u64_max. intros.
  destruct (Z.leb_spec 0 z), (Z.leb_spec z (2 ^ 64 - 1)); simpl; lia || done.
Qed.

Lemma arith_i64_ok {E} `{Profile} (z : Z) : is_i 64 z -> arith_i64 (E := E) z = Ok z.
Proof.
  unfold is_i, arith_i64, i64_min, i64_max. intros.
  destruct (Z.leb_spec (- 2 ^ 63) z), (Z.leb_spec z (2 ^ 63 - 1)); simpl; lia || done.
Qed.

(** ** Sorted lists *)
Lemma sorted_lookup {A} (R : relation A) (l : list A) (i j : nat) x y :
  StronglySorted R l -> l !! i = Some x -> l !! j = Some y -> (i < j)%nat -> R x y.
Proof.
  intros Hs. revert i j. induction Hs as [|a l Hs IH Ha]; intros [|i] [|j] Hi Hj Hlt;
    simplify_eq/=; try lia.
  - rewrite Forall_lookup in Ha. eauto.
  - eapply (IH i j); eauto with lia.
Qed.

(** ** Splices *)
Lemma length_splice {A} (v : list A) i new :
  (i + length new <= length v)%nat -> length (splice v i new) = length v.
Proof. intros. unfold splice. rewrite !length_app, length_take, length_drop. lia. Qed.

Lemma splice_append {A} (l new rest : list A) :
  splice (l ++ rest) (length l) new = l ++ new ++ drop (length new) rest.
Proof.
  unfold splice. rewrite take_app_length. do 2 f_equal.
  rewrite drop_app_ge by lia. f_equal. lia.
Qed.

Lemma lookup_splice_outside {A} (v : list A) i new j :
  (i + length new <= length v)%nat -> (j < i \/ i + length new <= j)%nat ->
  splice v i new !! j = v !! j.
Proof.
  intros Hlen Hj. unfold splice. destruct (decide (j < i)%nat).
  - rewrite lookup_app_l by (rewrite length_take; lia). by apply lookup_take_lt.
  - rewrite lookup_app_r, length_take by (rewrite length_take; lia).
    rewrite lookup_app_r by lia. rewrite lookup_drop. f_equal. lia.
Qed.

Lemma take_drop_splice {A} (v : list A) i new :
  (i + length new <= length v)%nat -> take (length new) (drop i (splice v i new)) = new.
Proof.
  intros. unfold splice. rewrite drop_app_length' by (rewrite length_take; lia).
  by rewrite take_app_length.
Qed.

(** ** Results

    A result is taken apart along the operations that produced it
    ([result_inv]); that a computation does not panic is shown by the hints of
    [nopanic], one per operation. *)
Lemma result_bind_ok {E A B} (m : result E A) (f : A -> result E B) b :
  (m ≫= f) = Ok b <-> exists a, m = Ok a /\ f a = Ok b.
Proof. unfold mbind, result_bind. destruct m; naive_solver. Qed.

Lemma ok_or_ok {E A} (o : option A) (e : E) a : ok_or o e = Ok a <-> o = Some a.
Proof. destruct o; simpl; naive_solver. Qed.

Lemma or_panic_ok {E A} (o : option A) a : or_panic (E := E) o = Ok a <-> o = Some a.
Proof. destruct o; simpl; naive_solver. Qed.

Ltac result_inv :=
  repeat match goal with
    | H : Ok _ = Ok _ |- _ => injection H as H
    | H : Err _ = Ok _ |- _ => discriminate H
    | H : Panic = Ok _ |- _ => discriminate H
    | H : (_ ≫= _) = Ok _ |- _ => apply result_bind_ok in H as (? & ? & H)
    | H : ok_or _ _ = Ok _ |- _ => apply ok_or_ok in H
    | H : or_panic _ = Ok _ |- _ => apply or_panic_ok in H
    | H : (if ?b then _ else _) = Ok _ |- _ => destruct b eqn:?
    | H : (match ?x with _ => _ end) = Ok _ |- _ => destruct x eqn:?
    end.

Lemma bind_no_panic {E A B} (m : result E A) (f : A -> result E B) :
  m <> Panic -> (forall a, m = Ok a -> f a <> Panic) -> (m ≫= f) <> Panic.
Proof. unfold mbind, result_bind. destruct m; naive_solver. Qed.

Lemma ok_or_no_panic {E A} (o : option A) (e : E) : ok_or o e <> Panic.
Proof. by destruct o. Qed.

Lemma or_panic_no_panic {E A} (o : option A) : is_Some o -> or_panic (E := E) o <> Panic.
Proof. by intros [? ->]. Qed.

Create HintDb nopanic.
#[export] Hint Resolve bind_no_panic ok_or_no_panic or_panic_no_panic : nopanic.
#[export] Hint Extern 1 (Ok _ <> Panic) => discriminate : nopanic.
#[export] Hint Extern 1 (Err _ <> Panic) => discriminate : nopanic.
#[export] Hint Extern 2 ((if ?b then _ else _) <> Panic) => destruct b eqn:? : nopanic.
#[export] Hint Extern 3 ((match ?x with _ => _ end) <> Panic) => destruct x eqn:? : nopanic.

#[global] Arguments le_bytes : simpl never.
#[global] Arguments le_val : simpl never.
