(* ===== verification/Ebpf.v ===== *)
(** * The eBPF instruction format: [src/casestudy/sbpf/src/ebpf.rs]

    The opcode constants, the [Insn] record, its byte encoding ([to_array],
    [to_vec]) and the decoder ([get_insn], [get_insn_unchecked],
    [augment_lddw_unchecked]).  The [byteorder] and [hash32] crates the file
    calls are parameters, given by the classes [ByteOrder] and [Murmur3]. *)

From S2P Require Import Prelude.

(** ** Constants *)
Definition PROG_MAX_INSNS : Z := 65536.
Definition INSN_SIZE : Z := 8.
Definition FRAME_PTR_REG : Z := 10.
Definition FIRST_SCRATCH_REG : Z := 6.
Definition SCRATCH_REGS : Z := 4.
Definition HOST_ALIGN : Z := 16.
Definition VIRTUAL_ADDRESS_BITS : Z := 32.
Definition MM_REGION_SIZE : Z := Z.shiftl 1 VIRTUAL_ADDRESS_BITS.
Definition MM_RODATA_START : Z := 0.
Definition MM_BYTECODE_START : Z := MM_REGION_SIZE.
Definition MM_STACK_START : Z := MM_REGION_SIZE * 2.
Definition MM_HEAP_START : Z := MM_REGION_SIZE * 3.
Definition MM_INPUT_START : Z := MM_REGION_SIZE * 4.
Definition BPF_LD : Z := 0x00.
Definition BPF_LDX : Z := 0x01.
Definition BPF_ST : Z := 0x02.
Definition BPF_STX : Z := 0x03.
Definition BPF_ALU32_LOAD : Z := 0x04.
Definition BPF_JMP64 : Z := 0x05.
Definition BPF_JMP32 : Z := 0x06.
Definition BPF_PQR : Z := 0x06.
Definition BPF_ALU64_STORE : Z := 0x07.
Definition BPF_W : Z := 0x00.
Definition BPF_H : Z := 0x08.
Definition BPF_B : Z := 0x10.
Definition BPF_DW : Z := 0x18.
Definition BPF_1B : Z := 0x20.
Definition BPF_2B : Z := 0x30.
Definition BPF_4B : Z := 0x80.
Definition BPF_8B : Z := 0x90.
Definition BPF_IMM : Z := 0x00.
Definition BPF_ABS : Z := 0x20.
Definition BPF_IND : Z := 0x40.
Definition BPF_MEM : Z := 0x60.
Definition BPF_K : Z := 0x00.
Definition BPF_X : Z := 0x08.
Definition BPF_ADD : Z := 0x00.
Definition BPF_SUB : Z := 0x10.
Definition BPF_MUL : Z := 0x20.
Definition BPF_DIV : Z := 0x30.
Definition BPF_OR : Z := 0x40.
Definition BPF_AND : Z := 0x50.
Definition BPF_LSH : Z := 0x60.
Definition BPF_RSH : Z := 0x70.
Definition BPF_NEG : Z := 0x80.
Definition BPF_MOD : Z := 0x90.
Definition BPF_XOR : Z := 0xa0.
Definition BPF_MOV : Z := 0xb0.
Definition BPF_ARSH : Z := 0xc0.
Definition BPF_END : Z := 0xd0.
Definition BPF_HOR : Z := 0xf0.
Definition BPF_UHMUL : Z := 0x20.
Definition BPF_UDIV : Z := 0x40.
Definition BPF_UREM : Z := 0x60.
Definition BPF_LMUL : Z := 0x80.
Definition BPF_SHMUL : Z := 0xA0.
Definition BPF_SDIV : Z := 0xC0.
Definition BPF_SREM : Z := 0xE0.
Definition BPF_JA : Z := 0x00.
Definition BPF_JEQ : Z := 0x10.
Definition BPF_JGT : Z := 0x20.
Definition BPF_JGE : Z := 0x30.
Definition BPF_JSET : Z := 0x40.
Definition BPF_JNE : Z := 0x50.
Definition BPF_JSGT : Z := 0x60.
Definition BPF_JSGE : Z := 0x70.
Definition BPF_CALL : Z := 0x80.
Definition BPF_EXIT : Z := 0x90.
Definition BPF_JLT : Z := 0xa0.
Definition BPF_JLE : Z := 0xb0.
Definition BPF_JSLT : Z := 0xc0.
Definition BPF_JSLE : Z := 0xd0.
Definition LD_DW_IMM : Z := Z.lor (Z.lor BPF_LD BPF_IMM) BPF_DW.
Definition LD_B_REG : Z := Z.lor (Z.lor BPF_LDX BPF_MEM) BPF_B.
Definition LD_H_REG : Z := Z.lor (Z.lor BPF_LDX BPF_MEM) BPF_H.
Definition LD_W_REG : Z := Z.lor (Z.lor BPF_LDX BPF_MEM) BPF_W.
Definition LD_DW_REG : Z := Z.lor (Z.lor BPF_LDX BPF_MEM) BPF_DW.
Definition ST_B_IMM : Z := Z.lor (Z.lor BPF_ST BPF_MEM) BPF_B.
Definition ST_H_IMM : Z := Z.lor (Z.lor BPF_ST BPF_MEM) BPF_H.
Definition ST_W_IMM : Z := Z.lor (Z.lor BPF_ST BPF_MEM) BPF_W.
Definition ST_DW_IMM : Z := Z.lor (Z.lor BPF_ST BPF_MEM) BPF_DW.
Definition ST_B_REG : Z := Z.lor (Z.lor BPF_STX BPF_MEM) BPF_B.
Definition ST_H_REG : Z := Z.lor (Z.lor BPF_STX BPF_MEM) BPF_H.
Definition ST_W_REG : Z := Z.lor (Z.lor BPF_STX BPF_MEM) BPF_W.
Definition ST_DW_REG : Z := Z.lor (Z.lor BPF_STX BPF_MEM) BPF_DW.
Definition LD_1B_REG : Z := Z.lor (Z.lor BPF_ALU32_LOAD BPF_X) BPF_1B.
Definition LD_2B_REG : Z := Z.lor (Z.lor BPF_ALU32_LOAD BPF_X) BPF_2B.
Definition LD_4B_REG : Z := Z.lor (Z.lor BPF_ALU32_LOAD BPF_X) BPF_4B.
Definition LD_8B_REG : Z := Z.lor (Z.lor BPF_ALU32_LOAD BPF_X) BPF_8B.
Definition ST_1B_IMM : Z := Z.lor (Z.lor BPF_ALU64_STORE BPF_K) BPF_1B.
Definition ST_2B_IMM : Z := Z.lor (Z.lor BPF_ALU64_STORE BPF_K) BPF_2B.
Definition ST_4B_IMM : Z := Z.lor (Z.lor BPF_ALU64_STORE BPF_K) BPF_4B.
Definition ST_8B_IMM : Z := Z.lor (Z.lor BPF_ALU64_STORE BPF_K) BPF_8B.
Definition ST_1B_REG : Z := Z.lor (Z.lor BPF_ALU64_STORE BPF_X) BPF_1B.
Definition ST_2B_REG : Z := Z.lor (Z.lor BPF_ALU64_STORE BPF_X) BPF_2B.
Definition ST_4B_REG : Z := Z.lor (Z.lor BPF_ALU64_STORE BPF_X) BPF_4B.
Definition ST_8B_REG : Z := Z.lor (Z.lor BPF_ALU64_STORE BPF_X) BPF_8B.
Definition ADD32_IMM : Z := Z.lor (Z.lor BPF_ALU32_LOAD BPF_K) BPF_ADD.
Definition ADD32_REG : Z := Z.lor (Z.lor BPF_ALU32_LOAD BPF_X) BPF_ADD.
Definition SUB32_IMM : Z := Z.lor (Z.lor BPF_ALU32_LOAD BPF_K) BPF_SUB.
Definition SUB32_REG : Z := Z.lor (Z.lor BPF_ALU32_LOAD BPF_X) BPF_SUB.
Definition MUL32_IMM : Z := Z.lor (Z.lor BPF_ALU32_LOAD BPF_K) BPF_MUL.
Definition MUL32_REG : Z := Z.lor (Z.lor BPF_ALU32_LOAD BPF_X) BPF_MUL.
Definition DIV32_IMM : Z := Z.lor (Z.lor BPF_ALU32_LOAD BPF_K) BPF_DIV.
Definition DIV32_REG : Z := Z.lor (Z.lor BPF_ALU32_LOAD BPF_X) BPF_DIV.
Definition OR32_IMM : Z := Z.lor (Z.lor BPF_ALU32_LOAD BPF_K) BPF_OR.
Definition OR32_REG : Z := Z.lor (Z.lor BPF_ALU32_LOAD BPF_X) BPF_OR.
Definition AND32_IMM : Z := Z.lor (Z.lor BPF_ALU32_LOAD BPF_K) BPF_AND.
Definition AND32_REG : Z := Z.lor (Z.lor BPF_ALU32_LOAD BPF_X) BPF_AND.
Definition LSH32_IMM : Z := Z.lor (Z.lor BPF_ALU32_LOAD BPF_K) BPF_LSH.
Definition LSH32_REG : Z := Z.lor (Z.lor BPF_ALU32_LOAD BPF_X) BPF_LSH.
Definition RSH32_IMM : Z := Z.lor (Z.lor BPF_ALU32_LOAD BPF_K) BPF_RSH.
Definition RSH32_REG : Z := Z.lor (Z.lor BPF_ALU32_LOAD BPF_X) BPF_RSH.
Definition NEG32 : Z := Z.lor BPF_ALU32_LOAD BPF_NEG.
Definition MOD32_IMM : Z := Z.lor (Z.lor BPF_ALU32_LOAD BPF_K) BPF_MOD.
Definition MOD32_REG : Z := Z.lor (Z.lor BPF_ALU32_LOAD BPF_X) BPF_MOD.
Definition XOR32_IMM : Z := Z.lor (Z.lor BPF_ALU32_LOAD BPF_K) BPF_XOR.
Definition XOR32_REG : Z := Z.lor (Z.lor BPF_ALU32_LOAD BPF_X) BPF_XOR.
Definition MOV32_IMM : Z := Z.lor (Z.lor BPF_ALU32_LOAD BPF_K) BPF_MOV.
Definition MOV32_REG : Z := Z.lor (Z.lor BPF_ALU32_LOAD BPF_X) BPF_MOV.
Definition ARSH32_IMM : Z := Z.lor (Z.lor BPF_ALU32_LOAD BPF_K) BPF_ARSH.
Definition ARSH32_REG : Z := Z.lor (Z.lor BPF_ALU32_LOAD BPF_X) BPF_ARSH.
Definition LMUL32_IMM : Z := Z.lor (Z.lor BPF_PQR BPF_K) BPF_LMUL.
Definition LMUL32_REG : Z := Z.lor (Z.lor BPF_PQR BPF_X) BPF_LMUL.
Definition UDIV32_IMM : Z := Z.lor (Z.lor BPF_PQR BPF_K) BPF_UDIV.
Definition UDIV32_REG : Z := Z.lor (Z.lor BPF_PQR BPF_X) BPF_UDIV.
Definition UREM32_IMM : Z := Z.lor (Z.lor BPF_PQR BPF_K) BPF_UREM.
Definition UREM32_REG : Z := Z.lor (Z.lor BPF_PQR BPF_X) BPF_UREM.
Definition SDIV32_IMM : Z := Z.lor (Z.lor BPF_PQR BPF_K) BPF_SDIV.
Definition SDIV32_REG : Z := Z.lor (Z.lor BPF_PQR BPF_X) BPF_SDIV.
Definition SREM32_IMM : Z := Z.lor (Z.lor BPF_PQR BPF_K) BPF_SREM.
Definition SREM32_REG : Z := Z.lor (Z.lor BPF_PQR BPF_X) BPF_SREM.
Definition LE : Z := Z.lor (Z.lor BPF_ALU32_LOAD BPF_K) BPF_END.
Definition BE : Z := Z.lor (Z.lor BPF_ALU32_LOAD BPF_X) BPF_END.
Definition ADD64_IMM : Z := Z.lor (Z.lor BPF_ALU64_STORE BPF_K) BPF_ADD.
Definition ADD64_REG : Z := Z.lor (Z.lor BPF_ALU64_STORE BPF_X) BPF_ADD.
Definition SUB64_IMM : Z := Z.lor (Z.lor BPF_ALU64_STORE BPF_K) BPF_SUB.
Definition SUB64_REG : Z := Z.lor (Z.lor BPF_ALU64_STORE BPF_X) BPF_SUB.
Definition MUL64_IMM : Z := Z.lor (Z.lor BPF_ALU64_STORE BPF_K) BPF_MUL.
Definition MUL64_REG : Z := Z.lor (Z.lor BPF_ALU64_STORE BPF_X) BPF_MUL.
Definition DIV64_IMM : Z := Z.lor (Z.lor BPF_ALU64_STORE BPF_K) BPF_DIV.
Definition DIV64_REG : Z := Z.lor (Z.lor BPF_ALU64_STORE BPF_X) BPF_DIV.
Definition OR64_IMM : Z := Z.lor (Z.lor BPF_ALU64_STORE BPF_K) BPF_OR.
Definition OR64_REG : Z := Z.lor (Z.lor BPF_ALU64_STORE BPF_X) BPF_OR.
Definition AND64_IMM : Z := Z.lor (Z.lor BPF_ALU64_STORE BPF_K) BPF_AND.
Definition AND64_REG : Z := Z.lor (Z.lor BPF_ALU64_STORE BPF_X) BPF_AND.
Definition LSH64_IMM : Z := Z.lor (Z.lor BPF_ALU64_STORE BPF_K) BPF_LSH.
Definition LSH64_REG : Z := Z.lor (Z.lor BPF_ALU64_STORE BPF_X) BPF_LSH.
Definition RSH64_IMM : Z := Z.lor (Z.lor BPF_ALU64_STORE BPF_K) BPF_RSH.
Definition RSH64_REG : Z := Z.lor (Z.lor BPF_ALU64_STORE BPF_X) BPF_RSH.
Definition NEG64 : Z := Z.lor BPF_ALU64_STORE BPF_NEG.
Definition MOD64_IMM : Z := Z.lor (Z.lor BPF_ALU64_STORE BPF_K) BPF_MOD.
Definition MOD64_REG : Z := Z.lor (Z.lor BPF_ALU64_STORE BPF_X) BPF_MOD.
Definition XOR64_IMM : Z := Z.lor (Z.lor BPF_ALU64_STORE BPF_K) BPF_XOR.
Definition XOR64_REG : Z := Z.lor (Z.lor BPF_ALU64_STORE BPF_X) BPF_XOR.
Definition MOV64_IMM : Z := Z.lor (Z.lor BPF_ALU64_STORE BPF_K) BPF_MOV.
Definition MOV64_REG : Z := Z.lor (Z.lor BPF_ALU64_STORE BPF_X) BPF_MOV.
Definition ARSH64_IMM : Z := Z.lor (Z.lor BPF_ALU64_STORE BPF_K) BPF_ARSH.
Definition ARSH64_REG : Z := Z.lor (Z.lor BPF_ALU64_STORE BPF_X) BPF_ARSH.
Definition HOR64_IMM : Z := Z.lor (Z.lor BPF_ALU64_STORE BPF_K) BPF_HOR.
Definition LMUL64_IMM : Z := Z.lor (Z.lor (Z.lor BPF_PQR BPF_B) BPF_K) BPF_LMUL.
Definition LMUL64_REG : Z := Z.lor (Z.lor (Z.lor BPF_PQR BPF_B) BPF_X) BPF_LMUL.
Definition UHMUL64_IMM : Z := Z.lor (Z.lor (Z.lor BPF_PQR BPF_B) BPF_K) BPF_UHMUL.
Definition UHMUL64_REG : Z := Z.lor (Z.lor (Z.lor BPF_PQR BPF_B) BPF_X) BPF_UHMUL.
Definition UDIV64_IMM : Z := Z.lor (Z.lor (Z.lor BPF_PQR BPF_B) BPF_K) BPF_UDIV.
Definition UDIV64_REG : Z := Z.lor (Z.lor (Z.lor BPF_PQR BPF_B) BPF_X) BPF_UDIV.
Definition UREM64_IMM : Z := Z.lor (Z.lor (Z.lor BPF_PQR BPF_B) BPF_K) BPF_UREM.
Definition UREM64_REG : Z := Z.lor (Z.lor (Z.lor BPF_PQR BPF_B) BPF_X) BPF_UREM.
Definition SHMUL64_IMM : Z := Z.lor (Z.lor (Z.lor BPF_PQR BPF_B) BPF_K) BPF_SHMUL.
Definition SHMUL64_REG : Z := Z.lor (Z.lor (Z.lor BPF_PQR BPF_B) BPF_X) BPF_SHMUL.
Definition SDIV64_IMM : Z := Z.lor (Z.lor (Z.lor BPF_PQR BPF_B) BPF_K) BPF_SDIV.
Definition SDIV64_REG : Z := Z.lor (Z.lor (Z.lor BPF_PQR BPF_B) BPF_X) BPF_SDIV.
Definition SREM64_IMM : Z := Z.lor (Z.lor (Z.lor BPF_PQR BPF_B) BPF_K) BPF_SREM.
Definition SREM64_REG : Z := Z.lor (Z.lor (Z.lor BPF_PQR BPF_B) BPF_X) BPF_SREM.
Definition JEQ32_IMM : Z := Z.lor (Z.lor BPF_JMP32 BPF_K) BPF_JEQ.
Definition JEQ32_REG : Z := Z.lor (Z.lor BPF_JMP32 BPF_X) BPF_JEQ.
Definition JGT32_IMM : Z := Z.lor (Z.lor BPF_JMP32 BPF_K) BPF_JGT.
Definition JGT32_REG : Z := Z.lor (Z.lor BPF_JMP32 BPF_X) BPF_JGT.
Definition JGE32_IMM : Z := Z.lor (Z.lor BPF_JMP32 BPF_K) BPF_JGE.
Definition JGE32_REG : Z := Z.lor (Z.lor BPF_JMP32 BPF_X) BPF_JGE.
Definition JLT32_IMM : Z := Z.lor (Z.lor BPF_JMP32 BPF_K) BPF_JLT.
Definition JLT32_REG : Z := Z.lor (Z.lor BPF_JMP32 BPF_X) BPF_JLT.
Definition JLE32_IMM : Z := Z.lor (Z.lor BPF_JMP32 BPF_K) BPF_JLE.
Definition JLE32_REG : Z := Z.lor (Z.lor BPF_JMP32 BPF_X) BPF_JLE.
Definition JSET32_IMM : Z := Z.lor (Z.lor BPF_JMP32 BPF_K) BPF_JSET.
Definition JSET32_REG : Z := Z.lor (Z.lor BPF_JMP32 BPF_X) BPF_JSET.
Definition JNE32_IMM : Z := Z.lor (Z.lor BPF_JMP32 BPF_K) BPF_JNE.
Definition JNE32_REG : Z := Z.lor (Z.lor BPF_JMP32 BPF_X) BPF_JNE.
Definition JSGT32_IMM : Z := Z.lor (Z.lor BPF_JMP32 BPF_K) BPF_JSGT.
Definition JSGT32_REG : Z := Z.lor (Z.lor BPF_JMP32 BPF_X) BPF_JSGT.
Definition JSGE32_IMM : Z := Z.lor (Z.lor BPF_JMP32 BPF_K) BPF_JSGE.
Definition JSGE32_REG : Z := Z.lor (Z.lor BPF_JMP32 BPF_X) BPF_JSGE.
Definition JSLT32_IMM : Z := Z.lor (Z.lor BPF_JMP32 BPF_K) BPF_JSLT.
Definition JSLT32_REG : Z := Z.lor (Z.lor BPF_JMP32 BPF_X) BPF_JSLT.
Definition JSLE32_IMM : Z := Z.lor (Z.lor BPF_JMP32 BPF_K) BPF_JSLE.
Definition JSLE32_REG : Z := Z.lor (Z.lor BPF_JMP32 BPF_X) BPF_JSLE.
Definition JA : Z := Z.lor BPF_JMP64 BPF_JA.
Definition JEQ64_IMM : Z := Z.lor (Z.lor BPF_JMP64 BPF_K) BPF_JEQ.
Definition JEQ64_REG : Z := Z.lor (Z.lor BPF_JMP64 BPF_X) BPF_JEQ.
Definition JGT64_IMM : Z := Z.lor (Z.lor BPF_JMP64 BPF_K) BPF_JGT.
Definition JGT64_REG : Z := Z.lor (Z.lor BPF_JMP64 BPF_X) BPF_JGT.
Definition JGE64_IMM : Z := Z.lor (Z.lor BPF_JMP64 BPF_K) BPF_JGE.
Definition JGE64_REG : Z := Z.lor (Z.lor BPF_JMP64 BPF_X) BPF_JGE.
Definition JLT64_IMM : Z := Z.lor (Z.lor BPF_JMP64 BPF_K) BPF_JLT.
Definition JLT64_REG : Z := Z.lor (Z.lor BPF_JMP64 BPF_X) BPF_JLT.
Definition JLE64_IMM : Z := Z.lor (Z.lor BPF_JMP64 BPF_K) BPF_JLE.
Definition JLE64_REG : Z := Z.lor (Z.lor BPF_JMP64 BPF_X) BPF_JLE.
Definition JSET64_IMM : Z := Z.lor (Z.lor BPF_JMP64 BPF_K) BPF_JSET.
Definition JSET64_REG : Z := Z.lor (Z.lor BPF_JMP64 BPF_X) BPF_JSET.
Definition JNE64_IMM : Z := Z.lor (Z.lor BPF_JMP64 BPF_K) BPF_JNE.
Definition JNE64_REG : Z := Z.lor (Z.lor BPF_JMP64 BPF_X) BPF_JNE.
Definition JSGT64_IMM : Z := Z.lor (Z.lor BPF_JMP64 BPF_K) BPF_JSGT.
Definition JSGT64_REG : Z := Z.lor (Z.lor BPF_JMP64 BPF_X) BPF_JSGT.
Definition JSGE64_IMM : Z := Z.lor (Z.lor BPF_JMP64 BPF_K) BPF_JSGE.
Definition JSGE64_REG : Z := Z.lor (Z.lor BPF_JMP64 BPF_X) BPF_JSGE.
Definition JSLT64_IMM : Z := Z.lor (Z.lor BPF_JMP64 BPF_K) BPF_JSLT.
Definition JSLT64_REG : Z := Z.lor (Z.lor BPF_JMP64 BPF_X) BPF_JSLT.
Definition JSLE64_IMM : Z := Z.lor (Z.lor BPF_JMP64 BPF_K) BPF_JSLE.
Definition JSLE64_REG : Z := Z.lor (Z.lor BPF_JMP64 BPF_X) BPF_JSLE.
Definition CALL_IMM : Z := Z.lor BPF_JMP64 BPF_CALL.
Definition CALL_REG : Z := Z.lor (Z.lor BPF_JMP64 BPF_X) BPF_CALL.
Definition EXIT : Z := Z.lor BPF_JMP64 BPF_EXIT.
Definition BPF_CLS_MASK : Z := 0x07.
Definition BPF_ALU_OP_MASK : Z := 0xf0.

(** ** Third-party crates *)

(** [byteorder::LittleEndian]: the readers panic ([None]) on a short slice. *)
Class ByteOrder := {
  read_i16 : list byte -> option Z;
  read_i32 : list byte -> option Z
}.

(** What the crate documents about them. *)
Class ByteOrderLaws `{ByteOrder} := {
  read_i16_spec : forall v, (2 <= length v)%nat ->
    read_i16 v = Some (as_i 16 (le_val (take 2 v)));
  read_i32_spec : forall v, (4 <= length v)%nat ->
    read_i32 v = Some (as_i 32 (le_val (take 4 v)));
  read_i16_short : forall v, (length v < 2)%nat -> read_i16 v = None;
  read_i32_short : forall v, (length v < 4)%nat -> read_i32 v = None
}.

(** [hash32::Murmur3Hasher], fed with a byte slice. *)
Class Murmur3 := { murmur3_hash : list byte -> Z }.

(** ** Instructions *)
Record Insn := mkInsn {
  ptr : Z;
  opc : Z;
  dst : Z;
  src : Z;
  off : Z;
  imm : Z
}.

#[export] Instance Insn_eq_dec : EqDecision Insn.
Proof. solve_decision. Defined.

(** [Insn::default()] *)
Definition Insn_default : Insn := mkInsn 0 0 0 0 0 0.

Definition with_ptr (i : Insn) (p : Z) : Insn :=
  mkInsn p (opc i) (dst i) (src i) (off i) (imm i).
Definition with_imm (i : Insn) (v : Z) : Insn :=
  mkInsn (ptr i) (opc i) (dst i) (src i) (off i) v.

Definition to_array (i : Insn) : list byte :=
  [ opc i;
    Z.lor (wrapping_shl 8 (src i) 4) (dst i);
    as_u 8 (Z.land (off i) 0xff);
    as_u 8 (wrapping_shr 16 (off i) 8);
    as_u 8 (Z.land (imm i) 0xff);
    as_u 8 (wrapping_shr 64 (Z.land (imm i) 0xff00) 8);
    as_u 8 (wrapping_shr 32 (Z.land (as_u 32 (imm i)) 0xff0000) 16);
    as_u 8 (wrapping_shr 32 (Z.land (as_u 32 (imm i)) 0xff000000) 24) ].

Definition to_vec (i : Insn) : list byte := to_array i.

Definition is_pc_in_program (prog : list byte) (pc : Z) : bool :=
  saturating_mul_u64 (saturating_add_u64 pc 1) INSN_SIZE <=? Z.of_nat (length prog).

Section Decode.
Context {E : Type} `{Profile, ByteOrder}.

Definition get_insn_unchecked (prog : list byte) (pc : Z) : result E Insn :=
  base ← arith_u64 (INSN_SIZE * pc);
  i1 ← arith_u64 (base + 1);
  i2 ← arith_u64 (base + 2);
  i4 ← arith_u64 (base + 4);
  b0 ← or_panic (get prog base);
  b1 ← or_panic (get prog i1);
  s2 ← or_panic (slice_from prog i2);
  o ← or_panic (read_i16 s2);
  s4 ← or_panic (slice_from prog i4);
  v ← or_panic (read_i32 s4);
  Ok (mkInsn pc b0 (Z.land b1 0x0f) (Z.shiftr (Z.land b1 0xf0) 4) o v).

Definition get_insn (prog : list byte) (pc : Z) : result E Insn :=
  _ ← debug_assert (is_pc_in_program prog pc);
  get_insn_unchecked prog pc.

Definition augment_lddw_unchecked (prog : list byte) (insn : Insn) : result E Insn :=
  p ← arith_u64 (ptr insn + 1);
  q ← arith_u64 (p * INSN_SIZE);
  r ← arith_u64 (q + 4);
  s ← or_panic (slice_from prog r);
  more_significant_half ← or_panic (read_i32 s);
  Ok (with_imm insn
        (as_i 64 (Z.lor (Z.land (as_u 64 (imm insn)) 0xffffffff)
                        (as_u 64 (Z.shiftl (as_u 64 more_significant_half) 32))))).
End Decode.

Definition hash_symbol_name `{Murmur3} (name : list byte) : Z := murmur3_hash name.

(** ** The fields an 8-byte slot can hold *)
Record wf_insn (i : Insn) : Prop := {
  wf_opc : is_u 8 (opc i);
  wf_dst : is_u 4 (dst i);
  wf_src : is_u 4 (src i);
  wf_off : is_i 16 (off i);
  wf_imm : is_i 32 (imm i)
}.

(** The instruction in slot [pc], without bounds checks. *)
Definition slot (prog : list byte) (pc : Z) : Insn :=
  let bs := take 8 (drop (Z.to_nat (8 * pc)) prog) in
  mkInsn pc (bs !!! 0%nat) (Z.land (bs !!! 1%nat) 0x0f)
    (Z.shiftr (Z.land (bs !!! 1%nat) 0xf0) 4)
    (as_i 16 (le_val (take 2 (drop 2 bs)))) (as_i 32 (le_val (drop 4 bs))).

(** Bit-field extraction as division. *)
Lemma mask_shift_byte (z n : Z) :
  0 <= n -> Z.shiftr (Z.land z (255 * 2 ^ n)) n = z / 2 ^ n mod 256.
Proof.
  intros Hn. rewrite Z.shiftr_land.
  replace (Z.shiftr (255 * 2 ^ n) n) with (2 ^ 8 - 1)
    by (rewrite Z.shiftr_div_pow2, Z.div_mul by lia; done).
  rewrite land_ones_mod by lia. by rewrite Z.shiftr_div_pow2 by lia.
Qed.

Lemma to_array_le (i : Insn) :
  wf_insn i ->
  to_array i = opc i :: (src i * 2 ^ 4 + dst i) :: le_bytes 2 (off i) ++ le_bytes 4 (imm i).
Proof.
  intros [_ Hd Hs _ _]. unfold to_array, wrapping_shl, wrapping_shr. unfold is_u in *.
  change (4 mod 8) with 4. rewrite Z.shiftl_mul_pow2 by lia.
  rewrite (as_u_small 8 (src i * 2 ^ 4)) by (unfold is_u; lia).
  rewrite lor_disjoint_add by lia.
  change 255 with (2 ^ 8 - 1). rewrite !land_ones_mod by lia.
  change 65280 with (255 * 2 ^ 8). change 16711680 with (255 * 2 ^ 16).
  change 4278190080 with (255 * 2 ^ 24).
  change (8 mod 16) with 8. change (8 mod 64) with 8.
  change (16 mod 32) with 16. change (24 mod 32) with 24.
  rewrite !mask_shift_byte by lia. rewrite Z.shiftr_div_pow2 by lia.
  unfold as_u. simpl app. rewrite !Z.mod_mod by lia.
  repeat (apply (f_equal2 cons)); try done; clear; Z.to_euclidean_division_equations; lia.
Qed.

Section DecodeFacts.
Context {E : Type} {P : Profile} {B : ByteOrder} {BL : ByteOrderLaws}.

Lemma is_pc_in_program_spec (prog : list byte) (pc : Z) :
  0 <= pc -> Z.of_nat (length prog) < 2 ^ 63 ->
  is_pc_in_program prog pc = true <-> 8 * pc + 8 <= Z.of_nat (length prog).
Proof.
  intros. unfold is_pc_in_program, saturating_mul_u64, saturating_add_u64, u64_max, INSN_SIZE.
  rewrite Z.leb_le. lia.
Qed.

(** Decoding inside the program does not panic and reads the eight bytes of
    the slot. *)
Lemma get_insn_unchecked_ok (pre post bs : list byte) (pc : Z) :
  0 <= pc -> Z.of_nat (length pre) = 8 * pc -> length bs = 8%nat ->
  Z.of_nat (length (pre ++ bs ++ post)) < 2 ^ 63 ->
  get_insn_unchecked (E := E) (pre ++ bs ++ post) pc =
    Ok (mkInsn pc (bs !!! 0%nat) (Z.land (bs !!! 1%nat) 0x0f)
          (Z.shiftr (Z.land (bs !!! 1%nat) 0xf0) 4)
          (as_i 16 (le_val (take 2 (drop 2 bs)))) (as_i 32 (le_val (drop 4 bs)))).
Proof.
  intros Hpc Hpre Hbs Hlen. rewrite !length_app in Hlen.
  do 8 (destruct bs as [|? bs]; [done|]). destruct bs; [|done].
  unfold get_insn_unchecked, INSN_SIZE. simpl in Hlen.
  rewrite !arith_u64_ok by (unfold is_u; lia). unfold mbind, result_bind.
  rewrite !arith_u64_ok by (unfold is_u; lia).
  assert (Hget : forall k x, [z; z0; z1; z2; z3; z4; z5; z6] !! k = Some x ->
    get (pre ++ [z; z0; z1; z2; z3; z4; z5; z6] ++ post) (8 * pc + Z.of_nat k) = Some x).
  { intros k x Hk. replace (8 * pc + Z.of_nat k) with (Z.of_nat (length pre + k)) by lia.
    rewrite get_lookup, lookup_app_r by lia.
    replace (length pre + k - length pre)%nat with k by lia.
    by apply lookup_app_l_Some. }
  assert (Hsl : forall k, (k <= 8)%nat ->
    slice_from (pre ++ [z; z0; z1; z2; z3; z4; z5; z6] ++ post) (8 * pc + Z.of_nat k)
    = Some (drop k [z; z0; z1; z2; z3; z4; z5; z6] ++ post)).
  { intros k Hk. rewrite slice_from_Some by (rewrite !length_app; simpl; lia).
    replace (Z.to_nat (8 * pc + Z.of_nat k)) with (length pre + k)%nat by lia.
    rewrite <- drop_drop, drop_app_length. by rewrite drop_app_le by done. }
  pose proof (Hget 0%nat z eq_refl) as G0. rewrite Z.add_0_r in G0.
  pose proof (Hget 1%nat z0 eq_refl : get _ (8 * pc + 1) = _) as G1.
  pose proof (Hsl 2%nat ltac:(lia) : slice_from _ (8 * pc + 2) = _) as S2.
  pose proof (Hsl 4%nat ltac:(lia) : slice_from _ (8 * pc + 4) = _) as S4.
  rewrite G0, G1, S2, S4. simpl. rewrite read_i16_spec, read_i32_spec by (simpl; lia). done.
Qed.

Lemma get_insn_eq (prog : list byte) (pc : Z) :
  is_pc_in_program prog pc = true -> get_insn (E := E) prog pc = get_insn_unchecked prog pc.
Proof. intros Hpc. unfold get_insn, debug_assert. by rewrite Hpc, andb_false_r. Qed.

Lemma nibble_fields (s d : Z) :
  is_u 4 s -> is_u 4 d ->
  Z.land (s * 2 ^ 4 + d) 15 = d /\ Z.shiftr (Z.land (s * 2 ^ 4 + d) 240) 4 = s.
Proof.
  unfold is_u. intros. split.
  - change 15 with (2 ^ 4 - 1). rewrite land_ones_mod by lia.
    Z.to_euclidean_division_equations; lia.
  - rewrite Z.shiftr_land. change (Z.shiftr 240 4) with (2 ^ 4 - 1).
    rewrite land_ones_mod, Z.shiftr_div_pow2 by lia.
    Z.to_euclidean_division_equations; lia.
Qed.

(** Decoding undoes the encoding. *)
Lemma get_insn_encoded (i : Insn) (pre post : list byte) (pc : Z) :
  wf_insn i -> 0 <= pc -> Z.of_nat (length pre) = 8 * pc ->
  Z.of_nat (length (pre ++ to_array i ++ post)) < 2 ^ 63 ->
  get_insn (E := E) (pre ++ to_array i ++ post) pc = Ok (with_ptr i pc).
Proof.
  intros Hwf Hpc Hpre Hlen. rewrite get_insn_eq.
  2:{ apply is_pc_in_program_spec; [lia..|]. rewrite !length_app. simpl. lia. }
  rewrite get_insn_unchecked_ok by done. rewrite (to_array_le i Hwf).
  destruct Hwf as [_ Hd Hs Ho Hi]. unfold with_ptr. simpl.
  destruct (nibble_fields (src i) (dst i) Hs Hd) as [Hl Hr]. simpl in Hl, Hr.
  rewrite Hl, Hr. f_equal. f_equal.
  - apply (as_i_le_bytes 2); [lia | done].
  - apply (as_i_le_bytes 4); [lia | done].
Qed.

(** decoding the bytes [to_array] produced, wherever they sit in a
    program, gives the instruction back with its index as [ptr]. *)
Theorem get_insn_to_array (i : Insn) (pre post : list byte) (pc : Z) :
  wf_insn i -> 0 <= pc -> Z.of_nat (length pre) = 8 * pc ->
  Z.of_nat (length (pre ++ to_array i ++ post)) < 2 ^ 63 ->
  get_insn (E := E) (pre ++ to_array i ++ post) pc = Ok (with_ptr i pc).
Proof. apply get_insn_encoded. Qed.

Lemma decoded_fields (b : Z) :
  is_u 8 b -> is_u 4 (Z.land b 0x0f) /\ is_u 4 (Z.shiftr (Z.land b 0xf0) 4) /\
    b = Z.shiftr (Z.land b 0xf0) 4 * 2 ^ 4 + Z.land b 0x0f.
Proof.
  unfold is_u. intros. change 15 with (2 ^ 4 - 1). change 240 with (15 * 2 ^ 4).
  rewrite Z.shiftr_land. change (Z.shiftr (15 * 2 ^ 4) 4) with (2 ^ 4 - 1).
  rewrite !land_ones_mod, Z.shiftr_div_pow2 by lia.
  split_and!; Z.to_euclidean_division_equations; lia.
Qed.

Lemma slot_bytes (prog : list byte) (pc : Z) :
  0 <= pc -> 8 * pc + 8 <= Z.of_nat (length prog) ->
  length (take 8 (drop (Z.to_nat (8 * pc)) prog)) = 8%nat.
Proof. intros. rewrite length_take, length_drop. lia. Qed.

(** Decoding inside the program returns the slot, whatever the error type. *)
Lemma get_insn_slot (prog : list byte) (pc : Z) :
  0 <= pc -> 8 * pc + 8 <= Z.of_nat (length prog) < 2 ^ 63 ->
  get_insn_unchecked (E := E) prog pc = Ok (slot prog pc) /\
  get_insn (E := E) prog pc = Ok (slot prog pc).
Proof.
  intros Hpc Hlen.
  assert (Hg : get_insn_unchecked (E := E) prog pc = Ok (slot prog pc)).
  { set (n := Z.to_nat (8 * pc)).
    pose proof (get_insn_unchecked_ok (take n prog) (drop 8 (drop n prog))
                  (take 8 (drop n prog)) pc) as Hg.
    rewrite !take_drop, length_take in Hg.
    apply Hg; [lia| lia |by apply slot_bytes; lia | lia]. }
  split; [done|]. rewrite get_insn_eq; [done|]. apply is_pc_in_program_spec; lia.
Qed.

Lemma slot_wf (prog : list byte) (pc : Z) :
  is_bytes prog -> 0 <= pc -> 8 * pc + 8 <= Z.of_nat (length prog) ->
  wf_insn (slot prog pc) /\
  to_array (slot prog pc) = take 8 (drop (Z.to_nat (8 * pc)) prog).
Proof.
  intros Hb Hpc Hlen. pose proof (slot_bytes prog pc Hpc Hlen) as Hl. unfold slot.
  set (bs := take 8 (drop (Z.to_nat (8 * pc)) prog)) in *.
  assert (Hbs : is_bytes bs) by (by apply Forall_take, Forall_drop).
  clearbody bs. do 8 (destruct bs as [|? bs]; [done|]). destruct bs; [|done].
  unfold is_bytes in Hbs. decompose_Forall_hyps.
  destruct (decoded_fields z0) as (Hd & Hs & He); [done|].
  assert (Hwf : wf_insn (mkInsn pc z (Z.land z0 15) (Z.shiftr (Z.land z0 240) 4)
    (as_i 16 (le_val [z1; z2])) (as_i 32 (le_val [z3; z4; z5; z6])))).
  { split; simpl; try done; apply as_i_range; lia. }
  split; [exact Hwf|]. simpl. rewrite to_array_le by done. simpl opc. simpl dst.
  simpl src. rewrite <- He. simpl off. simpl imm. do 2 f_equal.
  change [z1; z2; z3; z4; z5; z6] with ([z1; z2] ++ [z3; z4; z5; z6]).
  apply (f_equal2 app); (etrans; [|apply le_bytes_le_val; solve_bytes]);
    apply le_bytes_congr; by apply as_u_as_i.
Qed.

(** Inside the program [get_insn] neither panics nor loses information:
    it returns a well-formed instruction whose encoding is the slot read. *)
Theorem get_insn_in_program (prog : list byte) (pc : Z) :
  is_bytes prog -> 0 <= pc -> Z.of_nat (length prog) < 2 ^ 63 ->
  is_pc_in_program prog pc = true ->
  exists i, get_insn (E := E) prog pc = Ok i /\ wf_insn i /\ ptr i = pc /\
    to_array i = take 8 (drop (Z.to_nat (8 * pc)) prog).
Proof.
  intros Hb Hpc Hlen Hin. apply is_pc_in_program_spec in Hin; [|lia..].
  exists (slot prog pc). destruct (get_insn_slot prog pc) as [_ Hg]; [lia..|].
  destruct (slot_wf prog pc) as [Hwf Hs]; [done|lia..|]. split_and!; auto.
Qed.

(** Merging inside the program does not panic. *)
Lemma augment_lddw_ok (prog : list byte) (i : Insn) :
  0 <= ptr i -> 8 * ptr i + 16 <= Z.of_nat (length prog) < 2 ^ 63 ->
  exists z, augment_lddw_unchecked (E := E) prog i = Ok (with_imm i z).
Proof.
  intros Hp Hl. unfold augment_lddw_unchecked, INSN_SIZE.
  repeat (rewrite arith_u64_ok by (unfold is_u; lia); cbn [mbind result_bind]).
  rewrite slice_from_Some by lia. cbn [or_panic mbind result_bind].
  rewrite read_i32_spec by (rewrite length_drop; lia). cbn [or_panic mbind result_bind]. eauto.
Qed.

(** on a well-formed [lddw] pair the merged immediate is the 64-bit value
    whose low and high halves are the two slots' immediates. *)
Theorem augment_lddw_merges (lo hi : Insn) (pre post : list byte) :
  wf_insn lo -> wf_insn hi -> 0 <= ptr lo -> Z.of_nat (length pre) = 8 * ptr lo ->
  Z.of_nat (length (pre ++ to_array lo ++ to_array hi ++ post)) < 2 ^ 63 ->
  augment_lddw_unchecked (E := E) (pre ++ to_array lo ++ to_array hi ++ post) lo =
    Ok (with_imm lo (as_i 64 (imm lo mod 2 ^ 32 + imm hi * 2 ^ 32))).
Proof.
  intros Hlo Hhi Hp Hpre Hlen. unfold augment_lddw_unchecked, INSN_SIZE.
  rewrite !length_app in Hlen. change (length (to_array lo)) with 8%nat in Hlen.
  change (length (to_array hi)) with 8%nat in Hlen.
  unfold mbind, result_bind. rewrite !arith_u64_ok by (unfold is_u; lia).
  repeat (rewrite !arith_u64_ok by (unfold is_u; lia); simpl).
  rewrite slice_from_Some by (rewrite !length_app; simpl; lia).
  replace (Z.to_nat ((ptr lo + 1) * 8 + 4)) with (length pre + (8 + 4))%nat by lia.
  rewrite <- drop_drop, drop_app_length. rewrite (to_array_le hi Hhi).
  cbn [drop app to_array or_panic]. rewrite read_i32_spec by (simpl; lia).
  cbn [or_panic]. do 2 f_equal.
  change (as_i 32 _) with (as_i (8 * Z.of_nat 4) (le_val (le_bytes 4 (imm hi)))).
  rewrite as_i_le_bytes by (lia || apply Hhi).
  apply as_i_congr. change 4294967295 with (2 ^ 32 - 1). rewrite land_ones_mod by lia.
  change (as_u 64 (imm lo) mod 2 ^ 32) with (as_u 32 (as_u 64 (imm lo))).
  rewrite as_u_as_u by lia. rewrite Z.shiftl_mul_pow2, Z.lor_comm by lia.
  replace (as_u 64 (as_u 64 (imm hi) * 2 ^ 32)) with (as_u 32 (imm hi) * 2 ^ 32)
    by (unfold as_u; Z.to_euclidean_division_equations; lia).
  rewrite lor_disjoint_add by (lia || by apply as_u_range).
  unfold as_u. Z.to_euclidean_division_equations; lia.
Qed.
End DecodeFacts.

(** A reader that satisfies the documented laws. *)
Definition le_reader : ByteOrder := {|
  read_i16 v := if (2 <=? length v)%nat then Some (as_i 16 (le_val (take 2 v))) else None;
  read_i32 v := if (4 <=? length v)%nat then Some (as_i 32 (le_val (take 4 v))) else None
|}.

Lemma le_reader_laws : @ByteOrderLaws le_reader.
Proof.
  split; intros v Hv; cbn [read_i16 read_i32 le_reader].
  - destruct (Nat.leb_spec 2 (length v)); [done | lia].
  - destruct (Nat.leb_spec 4 (length v)); [done | lia].
  - destruct (Nat.leb_spec 2 (length v)); [lia | done].
  - destruct (Nat.leb_spec 4 (length v)); [lia | done].
Qed.
