(* ===== verification/Program.v ===== *)
(** * Versions, registries and configuration

    [src/casestudy/sbpf/src/program.rs]: [SBPFVersion] and its feature
    predicates, [FunctionRegistry], [BuiltinProgram];
    [src/casestudy/sbpf/src/vm.rs]: [Config];
    [src/casestudy/sbpf/src/elf.rs] and [error.rs]: the error types.

    A [BTreeMap<u32, _>] is a [gmap Z _]; iteration in key order is the sorted
    list of its bindings. *)

From stdpp Require Import gmap sorting strings.
From S2P Require Import Prelude Ebpf.

(** ** Versions *)
Inductive SBPFVersion := V0 | V1 | V2 | V3 | V4 | Reserved.

#[export] Instance SBPFVersion_eq_dec : EqDecision SBPFVersion.
Proof. solve_decision. Defined.

(** The derived [PartialOrd]: declaration order. *)
Definition version_rank (v : SBPFVersion) : Z :=
  match v with V0 => 0 | V1 => 1 | V2 => 2 | V3 => 3 | V4 => 4 | Reserved => 5 end.
Definition version_eqb (v w : SBPFVersion) : bool := version_rank v =? version_rank w.
Definition version_geb (v w : SBPFVersion) : bool := version_rank w <=? version_rank v.

Definition manual_stack_frame_bump (v : SBPFVersion) : bool := version_eqb v V1 || version_eqb v V2.
Definition stack_frame_gaps (v : SBPFVersion) : bool := version_eqb v V0.
Definition enable_pqr (v : SBPFVersion) : bool := version_eqb v V2.
Definition explicit_sign_extension_of_results (v : SBPFVersion) : bool := version_eqb v V2.
Definition swap_sub_reg_imm_operands (v : SBPFVersion) : bool := version_eqb v V2.
Definition disable_neg (v : SBPFVersion) : bool := version_eqb v V2.
Definition callx_uses_src_reg (v : SBPFVersion) : bool := version_eqb v V2.
Definition disable_lddw (v : SBPFVersion) : bool := version_eqb v V2.
Definition disable_le (v : SBPFVersion) : bool := version_eqb v V2.
Definition move_memory_instruction_classes (v : SBPFVersion) : bool := version_eqb v V2.
Definition static_syscalls (v : SBPFVersion) : bool := version_geb v V3.
Definition enable_stricter_elf_headers (v : SBPFVersion) : bool := version_geb v V3.
Definition enable_lower_rodata_vaddr (v : SBPFVersion) : bool := version_geb v V3.
Definition enable_jmp32 (v : SBPFVersion) : bool := version_geb v V3.
Definition callx_uses_dst_reg (v : SBPFVersion) : bool := version_geb v V3.

Definition calculate_call_imm_target_pc (v : SBPFVersion) (pc imm : Z) : Z :=
  if static_syscalls v
  then as_u 32 (saturating_i64 (saturating_i64 (as_i 64 pc + imm) + 1))
  else as_u 32 imm.

(** ** Errors *)
Inductive ElfError :=
| FailedToParse (s : string)
| EntrypointOutOfBounds
| InvalidEntrypoint
| FailedToGetSection (s : string)
| UnresolvedSymbol (s : string) (insn offset : Z)
| SectionNotFound (s : string)
| RelativeJumpOutOfBounds (insn : Z)
| SymbolHashCollision (key : Z)
| WrongEndianess
| WrongAbi
| WrongMachine
| WrongClass
| NotOneTextSection
| WritableSectionNotSupported (s : string)
| AddressOutsideLoadableSection (addr : Z)
| InvalidVirtualAddress (addr : Z)
| UnknownRelocation (kind : Z)
| FailedToReadRelocationInfo
| WrongType
| UnknownSymbol (index : Z)
| ValueOutOfBounds
| UnsupportedSBPFVersion
| InvalidProgramHeader.

(** ** Configuration *)
Record Config := mkConfig {
  max_call_depth : Z;
  stack_frame_size : Z;
  enable_address_translation : bool;
  enable_stack_frame_gaps : bool;
  instruction_meter_checkpoint_distance : Z;
  enable_instruction_meter : bool;
  enable_register_tracing : bool;
  enable_symbol_and_section_labels : bool;
  reject_broken_elfs : bool;
  noop_instruction_rate : Z;
  sanitize_user_provided_values : bool;
  optimize_rodata : bool;
  allow_memory_region_zero : bool;
  aligned_memory_mapping : bool;
  enabled_sbpf_versions : SBPFVersion * SBPFVersion
}.

(** [Config::stack_size] *)
Definition stack_size {E} `{Profile} (c : Config) : result E Z :=
  arith_u64 (stack_frame_size c * max_call_depth c).

(** [Config::default()] *)
Definition Config_default : Config := {|
  max_call_depth := 64;
  stack_frame_size := 4096;
  enable_address_translation := true;
  enable_stack_frame_gaps := true;
  instruction_meter_checkpoint_distance := 10000;
  enable_instruction_meter := true;
  enable_register_tracing := false;
  enable_symbol_and_section_labels := false;
  reject_broken_elfs := false;
  noop_instruction_rate := 256;
  sanitize_user_provided_values := true;
  optimize_rodata := true;
  allow_memory_region_zero := true;
  aligned_memory_mapping := false;
  enabled_sbpf_versions := (V0, V4)
|}.

(** ** Function registries *)
Record FunctionRegistry (T : Type) := mkRegistry { registry_map : gmap Z (list byte * T) }.
Arguments mkRegistry {T} _.
Arguments registry_map {T} _.

(** ["entrypoint".as_bytes()] *)
Definition entrypoint_name : list byte := [101; 110; 116; 114; 121; 112; 111; 105; 110; 116].

Section Registry.
Context {T : Type} `{EqDecision T}.

Definition registry_default : FunctionRegistry T := mkRegistry ∅.

Definition register_function (r : FunctionRegistry T) (key : Z) (name : list byte) (value : T)
    : result ElfError (FunctionRegistry T) :=
  match registry_map r !! key with
  | None => Ok (mkRegistry (<[key := (name, value)]> (registry_map r)))
  | Some (_, v) => if decide (v = value) then Ok r else Err (SymbolHashCollision key)
  end.

Definition unregister_function (r : FunctionRegistry T) (key : Z) : FunctionRegistry T * bool :=
  (mkRegistry (delete key (registry_map r)), bool_decide (is_Some (registry_map r !! key))).

(** Bindings in ascending key order. *)
Definition key_le (a b : Z * (list byte * T)) : Prop := a.1 <= b.1.
#[global] Instance key_le_dec a b : Decision (key_le a b) := Z.le_dec a.1 b.1.
Definition iter (r : FunctionRegistry T) : list (Z * (list byte * T)) :=
  merge_sort key_le (map_to_list (registry_map r)).

Definition keys (r : FunctionRegistry T) : list Z := (iter r).*1.

Definition lookup_by_key (r : FunctionRegistry T) (key : Z) : option (list byte * T) :=
  registry_map r !! key.

Definition lookup_by_name (r : FunctionRegistry T) (name : list byte) : option (list byte * T) :=
  snd <$> list_find (fun nv => nv.1 = name) (iter r).*2.
End Registry.

(** ** Built-in programs (loaders)

    [V] is the type of the registered [(BuiltinFunction, BuiltinCodegen)]
    function pointers. *)
Record BuiltinProgram (V : Type) := mkBuiltin {
  config : option Config;
  sparse_registry : FunctionRegistry V
}.
Arguments mkBuiltin {V} _ _.
Arguments config {V} _.
Arguments sparse_registry {V} _.

Section Builtin.
Context {V : Type} `{EqDecision V} `{Murmur3}.

Definition new_loader (c : Config) : BuiltinProgram V := mkBuiltin (Some c) registry_default.
Definition new_builtin : BuiltinProgram V := mkBuiltin None registry_default.
Definition new_mock : BuiltinProgram V := mkBuiltin (Some Config_default) registry_default.

Definition get_config {E} (p : BuiltinProgram V) : result E Config := or_panic (config p).

Definition builtin_register_function (p : BuiltinProgram V) (name : list byte) (entry : V)
    : result ElfError (BuiltinProgram V) :=
  r ← register_function (sparse_registry p) (hash_symbol_name name) name entry;
  Ok (mkBuiltin (config p) r).

Definition builtin_unregister_function (p : BuiltinProgram V) (name : list byte)
    : BuiltinProgram V * bool :=
  let (r, b) := unregister_function (sparse_registry p) (hash_symbol_name name) in
  (mkBuiltin (config p) r, b).

Context {T : Type} `{EqDecision T} (usize_from : T -> Z).

Definition register_function_hashed_legacy (r : FunctionRegistry T) (loader : BuiltinProgram V)
    (hash_symbol : bool) (name : list byte) (value : T)
    : result ElfError (FunctionRegistry T * Z) :=
  config ← get_config loader;
  key ← (if hash_symbol then
           let hash := if decide (name = entrypoint_name)
                       then hash_symbol_name entrypoint_name
                       else hash_symbol_name (le_bytes 8 (usize_from value)) in
           match lookup_by_key (sparse_registry loader) hash with
           | Some _ => Err (SymbolHashCollision hash)
           | None => Ok hash
           end
         else Ok (as_u 32 (usize_from value)));
  r' ← register_function r key
         (if enable_symbol_and_section_labels config || bool_decide (name = entrypoint_name)
          then name else []) value;
  Ok (r', key).
End Builtin.

(** ** Facts about registries *)
Section RegistryFacts.
Context {T : Type} `{EqDecision T}.
Implicit Types (r : FunctionRegistry T).

#[local] Instance key_le_trans : Transitive (key_le (T := T)).
Proof. intros ???. unfold key_le. lia. Qed.
#[local] Instance key_le_total : Total (key_le (T := T)).
Proof. intros a b. unfold key_le. lia. Qed.

Lemma elem_of_iter r k b : (k, b) ∈ iter r <-> lookup_by_key r k = Some b.
Proof. unfold iter, lookup_by_key. by rewrite merge_sort_Permutation, elem_of_map_to_list. Qed.

Lemma iter_sorted r : StronglySorted key_le (iter r).
Proof. apply StronglySorted_merge_sort; apply _. Qed.

(** A found entry, with the key it is stored under. *)
Lemma lookup_by_name_Some r name n v :
  lookup_by_name r name = Some (n, v) ->
  n = name /\ exists i k, iter r !! i = Some (k, (name, v)) /\
    forall j b, (j < i)%nat -> iter r !! j = Some b -> b.2.1 <> name.
Proof.
  unfold lookup_by_name. intros (ib & Hf & Hib)%fmap_Some. destruct ib as [i b].
  simpl in Hib. subst b. apply list_find_Some in Hf as (Hl & Hn & Hj).
  simpl in Hn. subst n.
  split; [done|]. rewrite list_lookup_fmap in Hl. apply fmap_Some in Hl as ([k b] & Hi & Hb).
  simpl in Hb. subst b. exists i, k. split; [done|]. intros j b Hlt Hb.
  eapply (Hj j b.2); [|done]. by rewrite list_lookup_fmap, Hb.
Qed.

(** The complete behaviour of [register_function]: it succeeds exactly
    when the key is free or already bound to the same value, keeps every
    earlier binding, touches no other key, and otherwise reports a hash
    collision on that key. *)
Theorem register_function_spec r key name value :
  match register_function r key name value with
  | Ok r' =>
      (exists n, lookup_by_key r' key = Some (n, value) /\
         (lookup_by_key r key = None -> n = name)) /\
      (forall k b, lookup_by_key r k = Some b -> lookup_by_key r' k = Some b) /\
      (forall k, k <> key -> lookup_by_key r' k = lookup_by_key r k)
  | Err e => e = SymbolHashCollision key /\
      exists n v, lookup_by_key r key = Some (n, v) /\ v <> value
  | Panic => False
  end.
Proof.
  unfold register_function, lookup_by_key.
  destruct (registry_map r !! key) as [[n v]|] eqn:Hk.
  - destruct (decide (v = value)) as [->|]; [|naive_solver].
    split; [by exists n; rewrite Hk|]. split; naive_solver.
  - simpl. split; [exists name; by rewrite lookup_insert_eq|]. split; intros k.
    + intros b Hb. rewrite lookup_insert_ne; [done|]. congruence.
    + intros. by rewrite lookup_insert_ne.
Qed.

(** [lookup_by_name] finds the entry of that name with the least key, and
    fails only when no entry has the name. *)
Theorem lookup_by_name_spec r name :
  match lookup_by_name r name with
  | Some (n, v) => n = name /\ exists k, lookup_by_key r k = Some (name, v) /\
      forall k' v', lookup_by_key r k' = Some (name, v') -> k <= k'
  | None => forall k v, lookup_by_key r k <> Some (name, v)
  end.
Proof.
  destruct (lookup_by_name r name) as [[n v]|] eqn:Hf.
  - apply lookup_by_name_Some in Hf as (-> & i & k & Hi & Hj). split; [done|].
    exists k. split; [apply elem_of_iter, (list_elem_of_lookup_2 _ i), Hi|].
    intros k' v' [i' Hi']%elem_of_iter%list_elem_of_lookup.
    destruct (decide (i' < i)%nat) as [Hlt|]; [by destruct (Hj i' _ Hlt Hi')|].
    destruct (decide (i = i')) as [<-|]; [naive_solver lia|].
    apply (sorted_lookup _ _ i i' _ _ (iter_sorted r) Hi Hi'). lia.
  - intros k v Hkv%elem_of_iter. unfold lookup_by_name in Hf.
    apply fmap_None, list_find_None in Hf. rewrite Forall_forall in Hf.
    apply (Hf (name, v)); [|done]. apply list_elem_of_fmap. by exists (k, (name, v)).
Qed.
End RegistryFacts.

Section BuiltinFacts.
Context {V T : Type} `{EqDecision V, EqDecision T, Murmur3} (usize_from : T -> Z).

(** an internal function registered under a hash never shadows a syscall
    of the loader, is found under the returned key, and leaves the other keys
    alone; without hashing the key is the program counter itself. *)
Theorem register_function_hashed_legacy_spec (r r' : FunctionRegistry T)
    (loader : BuiltinProgram V) hash name value key :
  register_function_hashed_legacy usize_from r loader hash name value = Ok (r', key) ->
  (exists n, lookup_by_key r' key = Some (n, value)) /\
  (forall k, k <> key -> lookup_by_key r' k = lookup_by_key r k) /\
  (if hash then lookup_by_key (sparse_registry loader) key = None
   else key = as_u 32 (usize_from value)).
Proof.
  unfold register_function_hashed_legacy, get_config, lookup_by_key.
  destruct (config loader) as [c|]; simpl; [|done].
  set (k := hash_symbol_name _). intros Hr.
  assert (exists n, register_function r key n value = Ok r' /\
    (if hash then registry_map (sparse_registry loader) !! key = None
     else key = as_u 32 (usize_from value))) as (n & Hreg & Hh).
  { destruct hash; simpl in Hr.
    - destruct (registry_map (sparse_registry loader) !! _) eqn:Hl; simpl in Hr; [done|].
      destruct (register_function r _ _ value) eqn:Hreg; simpl in Hr; naive_solver.
    - destruct (register_function r _ _ value) eqn:Hreg; simpl in Hr; naive_solver. }
  unfold register_function in Hreg.
  destruct (registry_map r !! key) as [[n' v]|] eqn:Hk.
  - destruct (decide (v = value)) as [->|]; [|done]. injection Hreg as <-. naive_solver.
  - injection Hreg as <-. simpl. split; [exists n; by rewrite lookup_insert_eq|].
    split; [|done]. intros. by rewrite lookup_insert_ne.
Qed.
End BuiltinFacts.
