(* ===== verification/X86.v ===== *)
(** * The safe x86-64 encoder: [src/casestudy/sbpf/src/safe_mode/x86.rs]

    [X86Instruction] with its constructors and [encode], which turns an
    instruction into bytes.  A constructor or [encode] returns [Panic] where
    the Rust code panics: in [bswap], and in the [debug_assert!]s when the
    profile has them. *)

From S2P Require Import Prelude.

(** [OperandSize] of [safe_mode/jit.rs]. *)
Inductive OperandSize := S0 | S8 | S16 | S32 | S64.

#[export] Instance OperandSize_eq_dec : EqDecision OperandSize.
Proof. solve_decision. Defined.

Definition size_eqb (a b : OperandSize) : bool := bool_decide (a = b).

Inductive X86Register :=
| RAX | RCX | RDX | RBX | RSP | RBP | RSI | RDI
| R8 | R9 | R10 | R11 | R12 | R13 | R14 | R15
| MM0 | MM1 | MM2 | MM3 | MM4 | MM5 | MM6 | MM7.

#[export] Instance X86Register_eq_dec : EqDecision X86Register.
Proof. solve_decision. Defined.

(** [register as u8] *)
Definition reg_u8 (r : X86Register) : Z :=
  match r with
  | RAX => 0 | RCX => 1 | RDX => 2 | RBX => 3 | RSP => 4 | RBP => 5 | RSI => 6 | RDI => 7
  | R8 => 8 | R9 => 9 | R10 => 10 | R11 => 11 | R12 => 12 | R13 => 13 | R14 => 14 | R15 => 15
  | MM0 => 16 | MM1 => 17 | MM2 => 18 | MM3 => 19 | MM4 => 20 | MM5 => 21 | MM6 => 22 | MM7 => 23
  end.

Definition ARGUMENT_REGISTERS : list X86Register := [RDI; RSI; RDX; RCX; R8; R9].
Definition CALLER_SAVED_REGISTERS : list X86Register :=
  [RAX; RCX; RDX; RSI; RDI; R8; R9; R10; R11].
Definition CALLEE_SAVED_REGISTERS : list X86Register := [RBP; RBX; R12; R13; R14; R15].

Record X86Rex := mkRex { rex_w : bool; rex_r : bool; rex_x : bool; rex_b : bool }.
Record X86ModRm := mkModRm { modrm_mode : Z; modrm_r : Z; modrm_m : Z }.
Record X86Sib := mkSib { sib_scale : Z; sib_index : Z; sib_base : Z }.

Inductive X86IndirectAccess :=
| Offset (offset : Z)
| OffsetIndexShift (offset : Z) (index : X86Register) (shift : Z).

#[export] Instance X86IndirectAccess_eq_dec : EqDecision X86IndirectAccess.
Proof. solve_decision. Defined.

Inductive FenceType := Fence_Load | Fence_All | Fence_Store.
Definition fence_u8 (f : FenceType) : Z :=
  match f with Fence_Load => 5 | Fence_All => 6 | Fence_Store => 7 end.

Record X86Instruction := mkX86 {
  size : OperandSize;
  opcode_escape_sequence : Z;
  opcode : Z;
  modrm : bool;
  indirect : option X86IndirectAccess;
  first_operand : Z;
  second_operand : Z;
  immediate_size : OperandSize;
  immediate : Z
}.

Definition DEFAULT : X86Instruction := {|
  size := S0; opcode_escape_sequence := 0; opcode := 0; modrm := true; indirect := None;
  first_operand := 0; second_operand := 0; immediate_size := S0; immediate := 0 |}.

(** [emit_variable_length]: the bytes appended to the output. *)
Definition emit_variable_length (sz : OperandSize) (data : Z) : list byte :=
  let bytes := le_bytes 8 data in
  match sz with
  | S0 => []
  | S8 => take 1 bytes
  | S16 => take 2 bytes
  | S32 => take 4 bytes
  | S64 => bytes
  end.

Section Encode.
Context {E : Type} `{Profile}.

(** The [ModRM]/[SIB]/displacement selection of [encode]:
    (rex, modrm, sib, displacement_size, displacement). *)
Definition encode_operands (i : X86Instruction)
    : result E (X86Rex * X86ModRm * X86Sib * OperandSize * Z) :=
  let w := size_eqb (size i) S64 in
  let r := negb (Z.land (first_operand i) 8 =? 0) in
  let b := negb (Z.land (second_operand i) 8 =? 0) in
  let mr := Z.land (first_operand i) 7 in
  let mm := Z.land (second_operand i) 7 in
  if modrm i then
    match indirect i with
    | Some (Offset offset) =>
        _ ← debug_assert (negb (mm =? 4));
        if ((-128 <=? offset) && (offset <=? 127)) || ((offset =? 0) && (mm =? 5))
        then Ok (mkRex w r false b, mkModRm 1 mr mm, mkSib 0 0 0, S8, offset)
        else Ok (mkRex w r false b, mkModRm 2 mr mm, mkSib 0 0 0, S32, offset)
    | Some (OffsetIndexShift offset index shift) =>
        let x := negb (Z.land (reg_u8 index) 8 =? 0) in
        let sib := mkSib (Z.land shift 3) (Z.land (reg_u8 index) 7) mm in
        if (-128 <=? offset) && (offset <=? 127)
        then Ok (mkRex w r x b, mkModRm 1 mr 4, sib, S8, offset)
        else Ok (mkRex w r x b, mkModRm 2 mr 4, sib, S32, offset)
    | None => Ok (mkRex w r false b, mkModRm 3 mr mm, mkSib 0 0 0, S0, 0)
    end
  else Ok (mkRex w r false b, mkModRm 0 mr mm, mkSib 0 0 0, S0, 0).

(** [b as u8] *)
Definition bool_u8 (b : bool) : Z := if b then 1 else 0.

Definition rex_byte (r : X86Rex) : Z :=
  Z.lor (Z.lor (Z.lor (Z.shiftl (bool_u8 (rex_w r)) 3) (Z.shiftl (bool_u8 (rex_r r)) 2))
               (Z.shiftl (bool_u8 (rex_x r)) 1)) (bool_u8 (rex_b r)).

Definition escape_bytes (e : Z) : list byte :=
  if e =? 1 then [0x0f]
  else if e =? 2 then le_bytes 2 0x0f38
  else if e =? 3 then le_bytes 2 0x0f3a
  else [].

Definition encode (i : X86Instruction) : result E (list byte) :=
  _ ← debug_assert (negb (size_eqb (size i) S0));
  '(rex, mrm, sib, displacement_size, displacement) ← encode_operands i;
  let prefix := if size_eqb (size i) S16 then [0x66] else [] in
  let rex_b := if rex_byte rex =? 0 then [] else [Z.lor 0x40 (rex_byte rex)] in
  let sib_byte := Z.lor (Z.lor (Z.shiftl (sib_scale sib) 6) (Z.shiftl (sib_index sib) 3))
                        (sib_base sib) in
  let operands :=
    if modrm i then
      [Z.lor (Z.lor (Z.shiftl (modrm_mode mrm) 6) (Z.shiftl (modrm_r mrm) 3)) (modrm_m mrm)]
      ++ (if sib_byte =? 0 then [] else [sib_byte])
      ++ emit_variable_length displacement_size (as_u 64 displacement)
    else [] in
  Ok (prefix ++ rex_b ++ escape_bytes (opcode_escape_sequence i) ++ [opcode i] ++ operands
      ++ emit_variable_length (immediate_size i) (as_u 64 (immediate i))).
End Encode.

(** ** Constructors *)
Section Constructors.
Context {E : Type} `{Profile}.
Abbreviation R := (result E X86Instruction).

(** [exclude_operand_sizes!] *)
Definition exclude_operand_sizes (sz : OperandSize) (l : list OperandSize) : result E unit :=
  debug_assert (negb (existsb (size_eqb sz) l)).

(** The sizes most two-operand forms exclude. *)
Abbreviation narrow := [S0; S8; S16].

Definition alu_escaped (sz : OperandSize) (esc op : Z) (source destination : X86Register)
    (ind : option X86IndirectAccess) : R :=
  _ ← exclude_operand_sizes sz narrow;
  Ok (mkX86 sz esc op true ind (reg_u8 source) (reg_u8 destination) S0 0).

Definition alu_immediate_escaped (sz : OperandSize) (esc op opcode_extension : Z)
    (destination : X86Register) (imm : Z) (ind : option X86IndirectAccess) : R :=
  _ ← exclude_operand_sizes sz narrow;
  let isz := if op =? 0xc1 then S8
             else if op =? 0x81 then S32
             else if (op =? 0xf7) && (opcode_extension =? 0) then S32
             else S0 in
  Ok (mkX86 sz esc op true ind opcode_extension (reg_u8 destination) isz imm).

Definition alu (sz : OperandSize) (op : Z) (source destination : X86Register)
    (ind : option X86IndirectAccess) : R :=
  alu_escaped sz 0 op source destination ind.

Definition alu_immediate (sz : OperandSize) (op opcode_extension : Z)
    (destination : X86Register) (imm : Z) (ind : option X86IndirectAccess) : R :=
  alu_immediate_escaped sz 0 op opcode_extension destination imm ind.

Definition mov (sz : OperandSize) (source destination : X86Register) : R :=
  _ ← exclude_operand_sizes sz narrow;
  Ok (mkX86 sz 0 0x89 true None (reg_u8 source) (reg_u8 destination) S0 0).

Definition mov_with_sign_extension (sz : OperandSize) (source destination : X86Register) : R :=
  _ ← exclude_operand_sizes sz narrow;
  Ok (mkX86 sz 0 0x63 true None (reg_u8 destination) (reg_u8 source) S0 0).

Definition mov_mmx (sz : OperandSize) (source destination : X86Register) : R :=
  _ ← exclude_operand_sizes sz [S0; S8; S16; S32];
  if negb (Z.land (reg_u8 destination) 16 =? 0)
  then Ok (mkX86 sz 1 (if negb (Z.land (reg_u8 source) 16 =? 0) then 0x6f else 0x6e) true None
             (Z.land (reg_u8 destination) 0xf) (Z.land (reg_u8 source) 0xf) S0 0)
  else Ok (mkX86 sz 1 0x7e true None
             (Z.land (reg_u8 source) 0xf) (Z.land (reg_u8 destination) 0xf) S0 0).

Definition cmov (sz : OperandSize) (condition : Z) (source destination : X86Register) : R :=
  _ ← exclude_operand_sizes sz narrow;
  Ok (mkX86 sz 1 condition true None (reg_u8 destination) (reg_u8 source) S0 0).

Definition xchg (sz : OperandSize) (source destination : X86Register)
    (ind : option X86IndirectAccess) : R :=
  _ ← exclude_operand_sizes sz [S0; S8; S16; S32];
  Ok (mkX86 sz 0 0x87 true ind (reg_u8 source) (reg_u8 destination) S0 0).

Definition bswap (sz : OperandSize) (destination : X86Register) : R :=
  _ ← exclude_operand_sizes sz [S0; S8];
  match sz with
  | S16 => Ok (mkX86 sz 0 0xc1 true None 0 (reg_u8 destination) S8 8)
  | S32 | S64 =>
      Ok (mkX86 sz 1 (Z.lor 0xc8 (Z.land (reg_u8 destination) 7)) false None
            0 (reg_u8 destination) S0 0)
  | _ => Panic
  end.

Definition test (sz : OperandSize) (source destination : X86Register)
    (ind : option X86IndirectAccess) : R :=
  _ ← exclude_operand_sizes sz [S0];
  Ok (mkX86 sz 0 (if size_eqb sz S8 then 0x84 else 0x85) true ind
        (reg_u8 source) (reg_u8 destination) S0 0).

(** The immediate of a 64-bit operation is 32 bits wide. *)
Definition imm_size (sz : OperandSize) : OperandSize := if size_eqb sz S64 then S32 else sz.

Definition test_immediate (sz : OperandSize) (destination : X86Register) (imm : Z)
    (ind : option X86IndirectAccess) : R :=
  _ ← exclude_operand_sizes sz [S0];
  Ok (mkX86 sz 0 (if size_eqb sz S8 then 0xf6 else 0xf7) true ind
        0 (reg_u8 destination) (imm_size sz) imm).

Definition cmp (sz : OperandSize) (source destination : X86Register)
    (ind : option X86IndirectAccess) : R :=
  _ ← exclude_operand_sizes sz [S0];
  Ok (mkX86 sz 0 (if size_eqb sz S8 then 0x38 else 0x39) true ind
        (reg_u8 source) (reg_u8 destination) S0 0).

Definition cmp_immediate (sz : OperandSize) (destination : X86Register) (imm : Z)
    (ind : option X86IndirectAccess) : R :=
  _ ← exclude_operand_sizes sz [S0];
  Ok (mkX86 sz 0 (if size_eqb sz S8 then 0x80 else 0x81) true ind
        7 (reg_u8 destination) (imm_size sz) imm).

Definition lea (sz : OperandSize) (source destination : X86Register)
    (ind : option X86IndirectAccess) : R :=
  _ ← exclude_operand_sizes sz [S0; S8; S16; S32];
  Ok (mkX86 sz 0 0x8d true ind (reg_u8 destination) (reg_u8 source) S0 0).

Definition sign_extend_rax_rdx (sz : OperandSize) : R :=
  _ ← exclude_operand_sizes sz narrow;
  Ok (mkX86 sz 0 0x99 false None 0 0 S0 0).

Definition load (sz : OperandSize) (source destination : X86Register)
    (ind : X86IndirectAccess) : R :=
  _ ← exclude_operand_sizes sz [S0];
  Ok (mkX86 (if size_eqb sz S64 then S64 else S32)
        (match sz with S8 | S16 => 1 | _ => 0 end)
        (match sz with S8 => 0xb6 | S16 => 0xb7 | _ => 0x8b end) true (Some ind)
        (reg_u8 destination) (reg_u8 source) S0 0).

Definition store (sz : OperandSize) (source destination : X86Register)
    (ind : X86IndirectAccess) : R :=
  _ ← exclude_operand_sizes sz [S0];
  Ok (mkX86 sz 0 (if size_eqb sz S8 then 0x88 else 0x89) true (Some ind)
        (reg_u8 source) (reg_u8 destination) S0 0).

Definition load_immediate (destination : X86Register) (imm : Z) : X86Instruction :=
  let short sz := mkX86 sz 0 (Z.lor 0xb8 (Z.land (reg_u8 destination) 7)) false None
                    0 (reg_u8 destination) sz imm in
  if 0 <=? imm then
    if imm <=? u32_max then short S32 else short S64
  else if i32_min <=? imm then
    mkX86 S64 0 0xc7 true None 0 (reg_u8 destination) S32 imm
  else short S64.

Definition store_immediate (sz : OperandSize) (destination : X86Register)
    (ind : X86IndirectAccess) (imm : Z) : R :=
  _ ← exclude_operand_sizes sz [S0];
  Ok (mkX86 sz 0 (if size_eqb sz S8 then 0xc6 else 0xc7) true (Some ind)
        0 (reg_u8 destination) (imm_size sz) imm).

Definition push_immediate (sz : OperandSize) (imm : Z) : R :=
  _ ← exclude_operand_sizes sz [S0; S16];
  Ok (mkX86 sz 0 (if size_eqb sz S8 then 0x6a else 0x68) false None 0 0 (imm_size sz) imm).

Definition push (source : X86Register) (ind : option X86IndirectAccess) : X86Instruction :=
  match ind with
  | None => mkX86 S32 0 (Z.lor 0x50 (Z.land (reg_u8 source) 7)) false None
              0 (reg_u8 source) S0 0
  | Some _ => mkX86 S64 0 0xff true ind 6 (reg_u8 source) S0 0
  end.

Definition pop (destination : X86Register) : X86Instruction :=
  mkX86 S32 0 (Z.lor 0x58 (Z.land (reg_u8 destination) 7)) false None
    0 (reg_u8 destination) S0 0.

Definition conditional_jump_immediate (op relative_destination : Z) : X86Instruction :=
  mkX86 S32 1 op false None 0 0 S32 relative_destination.

Definition jump_immediate (relative_destination : Z) : X86Instruction :=
  mkX86 S32 0 0xe9 false None 0 0 S32 relative_destination.

Definition jump_reg (destination : X86Register) (ind : option X86IndirectAccess)
    : X86Instruction := mkX86 S64 0 0xff true ind 4 (reg_u8 destination) S0 0.

Definition call_immediate (relative_destination : Z) : X86Instruction :=
  mkX86 S32 0 0xe8 false None 0 0 S32 relative_destination.

Definition call_reg (destination : X86Register) (ind : option X86IndirectAccess)
    : X86Instruction := mkX86 S64 0 0xff true ind 2 (reg_u8 destination) S0 0.

Definition return_near : X86Instruction := mkX86 S32 0 0xc3 false None 0 0 S0 0.
Definition noop : X86Instruction := mkX86 S32 0 0x90 false None 0 0 S0 0.

Definition interrupt (imm : Z) : X86Instruction :=
  if imm =? 3 then mkX86 S32 0 0xcc false None 0 0 S0 0
  else mkX86 S32 0 0xcd false None 0 0 S8 imm.

Definition cycle_count : X86Instruction := mkX86 S32 1 0x31 false None 0 0 S0 0.
Definition fence (f : FenceType) : X86Instruction :=
  mkX86 S32 1 0xae true None (fence_u8 f) 0 S0 0.
End Constructors.
