(* ===== verification/Jit.v ===== *)
(** * The safe JIT compiler: [src/casestudy/sbpf/src/safe_mode/jit.rs]

    [JitCompilerModel] and its methods as state-passing functions: a method
    taking [&mut self] and returning [Result<T, JitModelError>] has type
    [jit T], so that the state a failing call leaves behind is modelled too. *)

From S2P Require Import Prelude Ebpf X86.

Definition REGISTER_MAP : list X86Register :=
  [RAX; RSI; RDX; RCX; R8; R9; RBX; R12; R13; R14; R15].
Definition REGISTER_SCRATCH : X86Register := R11.

Inductive AluOperation := Add | Subtract | Or | And | Xor.
Inductive ShiftOperation := Left | Right | ArithmeticRight.
Inductive JumpCondition :=
| Equal | NotEqual | Greater | GreaterOrEqual | Less | LessOrEqual
| SignedGreater | SignedGreaterOrEqual | SignedLess | SignedLessOrEqual.

Inductive JitInstruction :=
| LoadImmediate (size : OperandSize) (destination value : Z)
| MoveRegister (size : OperandSize) (source destination : Z)
| AluImmediate (size : OperandSize) (operation : AluOperation) (destination value : Z)
| AluRegister (size : OperandSize) (operation : AluOperation) (source destination : Z)
| ShiftImmediate (size : OperandSize) (operation : ShiftOperation) (destination amount : Z)
| ShiftRegister (size : OperandSize) (operation : ShiftOperation) (source destination : Z)
| Jump (target_pc : Z)
| JumpImmediate (size : OperandSize) (condition : JumpCondition)
    (destination value target_pc : Z)
| JumpRegister (size : OperandSize) (condition : JumpCondition)
    (source destination target_pc : Z)
| JumpTestImmediate (size : OperandSize) (destination value target_pc : Z)
| JumpTestRegister (size : OperandSize) (source destination target_pc : Z)
| Return.

Record JumpModel := mkJump { location : Z; jump_target_pc : Z }.

Inductive JitModelError :=
| InvalidRegister
| InvalidJumpTarget
| InvalidOperandSize
| UnsupportedInstruction
| InvalidAnchor
| InvalidProgramCounter
| AnchorNotSet
| ProgramCounterNotSet
| RelativeOffsetOutOfRange
| InvalidRelocation.

#[export] Instance JitModelError_eq_dec : EqDecision JitModelError.
Proof. solve_decision. Defined.
#[export] Instance JumpModel_eq_dec : EqDecision JumpModel.
Proof. solve_decision. Defined.
#[export] Instance AluOperation_eq_dec : EqDecision AluOperation.
Proof. solve_decision. Defined.
#[export] Instance ShiftOperation_eq_dec : EqDecision ShiftOperation.
Proof. solve_decision. Defined.
#[export] Instance JumpCondition_eq_dec : EqDecision JumpCondition.
Proof. solve_decision. Defined.
#[export] Instance JitInstruction_eq_dec : EqDecision JitInstruction.
Proof. solve_decision. Defined.

Record JitCompilerModel := mkJit {
  text_section : list byte;
  pc_section : list (option Z);
  text_section_jumps : list JumpModel;
  anchors : list (option Z)
}.

(** ** Methods on [&mut self] *)
Definition jit (A : Type) : Type := JitCompilerModel -> result JitModelError A * JitCompilerModel.

#[export] Instance jit_ret : MRet jit := fun A a s => (Ok a, s).
#[export] Instance jit_bind : MBind jit := fun A B f m s =>
  match m s with
  | (Ok a, s') => f a s'
  | (Err e, s') => (Err e, s')
  | (Panic, s') => (Panic, s')
  end.

(** A computation that does not touch the state ([?] on a plain [Result]). *)
Definition lift {A} (r : result JitModelError A) : jit A := fun s => (r, s).

Definition new (program_counter_count anchor_count : nat) : JitCompilerModel :=
  mkJit [] (replicate program_counter_count None) [] (replicate anchor_count None).

Definition offset_in_text_section (s : JitCompilerModel) : Z := Z.of_nat (length (text_section s)).

Definition emit_bytes (bytes : list byte) : jit unit := fun s =>
  (Ok tt, mkJit (text_section s ++ bytes) (pc_section s) (text_section_jumps s) (anchors s)).

Definition emit_byte (b : byte) : jit unit := emit_bytes [b].

Definition emit_variable_length (sz : OperandSize) (data : Z) : jit unit :=
  let bytes := le_bytes 8 data in
  match sz with
  | S0 => mret tt
  | S8 => emit_bytes (take 1 bytes)
  | S16 => emit_bytes (take 2 bytes)
  | S32 => emit_bytes (take 4 bytes)
  | S64 => emit_bytes bytes
  end.

(** ** Free functions *)
Definition mapped_register (index : Z) : result JitModelError X86Register :=
  match get REGISTER_MAP index with
  | Some register => Ok register
  | None => Err InvalidRegister
  end.

Definition alu_encoding (operation : AluOperation) : Z * Z :=
  match operation with
  | Add => (0x01, 0)
  | Or => (0x09, 1)
  | And => (0x21, 4)
  | Subtract => (0x29, 5)
  | Xor => (0x31, 6)
  end.

Definition shift_opcode_extension (operation : ShiftOperation) : Z :=
  match operation with Left => 4 | Right => 5 | ArithmeticRight => 7 end.

Definition jump_opcode (condition : JumpCondition) : Z :=
  match condition with
  | Equal => 0x84
  | NotEqual => 0x85
  | Greater => 0x87
  | GreaterOrEqual => 0x83
  | Less => 0x82
  | LessOrEqual => 0x86
  | SignedGreater => 0x8f
  | SignedGreaterOrEqual => 0x8d
  | SignedLess => 0x8c
  | SignedLessOrEqual => 0x8e
  end.

Definition relative_offset (destination instruction_end : Z) : result JitModelError Z :=
  let difference := destination - instruction_end in
  if (i32_min <=? difference) && (difference <=? i32_max)
  then Ok difference else Err RelativeOffsetOutOfRange.

Definition branch_target (pc offset : Z) : result JitModelError Z :=
  let target := pc + offset + 1 in
  if (target <? 0) || (u64_max <? target) then Err InvalidJumpTarget else Ok target.

Definition jump_condition_from_operation (operation : Z) : result JitModelError JumpCondition :=
  if operation =? BPF_JEQ then Ok Equal
  else if operation =? BPF_JNE then Ok NotEqual
  else if operation =? BPF_JGT then Ok Greater
  else if operation =? BPF_JGE then Ok GreaterOrEqual
  else if operation =? BPF_JLT then Ok Less
  else if operation =? BPF_JLE then Ok LessOrEqual
  else if operation =? BPF_JSGT then Ok SignedGreater
  else if operation =? BPF_JSGE then Ok SignedGreaterOrEqual
  else if operation =? BPF_JSLT then Ok SignedLess
  else if operation =? BPF_JSLE then Ok SignedLessOrEqual
  else Err UnsupportedInstruction.

(** ** Lowering sBPF instructions *)
Definition lower_alu_instruction (size : OperandSize) (instruction : Insn)
    : result JitModelError JitInstruction :=
  let operation := Z.land (opc instruction) BPF_ALU_OP_MASK in
  let register_source := negb (Z.land (opc instruction) BPF_X =? 0) in
  let source := src instruction in
  let destination := dst instruction in
  let alu op :=
    if register_source then Ok (AluRegister size op source destination)
    else Ok (AluImmediate size op destination (imm instruction)) in
  let shift op :=
    if register_source then Ok (ShiftRegister size op source destination)
    else Ok (ShiftImmediate size op destination (as_u 8 (imm instruction))) in
  if operation =? BPF_MOV then
    if register_source then Ok (MoveRegister size source destination)
    else Ok (LoadImmediate size destination (imm instruction))
  else if operation =? BPF_ADD then alu Add
  else if operation =? BPF_SUB then alu Subtract
  else if operation =? BPF_OR then alu Or
  else if operation =? BPF_AND then alu And
  else if operation =? BPF_XOR then alu Xor
  else if operation =? BPF_LSH then shift Left
  else if operation =? BPF_RSH then shift Right
  else if operation =? BPF_ARSH then shift ArithmeticRight
  else Err UnsupportedInstruction.

Definition lower_jump_instruction (size : OperandSize) (pc : Z) (instruction : Insn)
    : result JitModelError JitInstruction :=
  let operation := Z.land (opc instruction) BPF_ALU_OP_MASK in
  if size_eqb size S64 && (operation =? BPF_EXIT) then Ok Return
  else
    target_pc ← branch_target pc (off instruction);
    if size_eqb size S64 && (operation =? BPF_JA) then Ok (Jump target_pc)
    else
      let register_source := negb (Z.land (opc instruction) BPF_X =? 0) in
      let source := src instruction in
      let destination := dst instruction in
      if operation =? BPF_JSET then
        if register_source then Ok (JumpTestRegister size source destination target_pc)
        else Ok (JumpTestImmediate size destination (imm instruction) target_pc)
      else
        condition ← jump_condition_from_operation operation;
        if register_source then Ok (JumpRegister size condition source destination target_pc)
        else Ok (JumpImmediate size condition destination (imm instruction) target_pc).

Definition lower_sbpf_instruction (pc : Z) (instruction : Insn)
    : result JitModelError JitInstruction :=
  let class := Z.land (opc instruction) BPF_CLS_MASK in
  if class =? BPF_ALU32_LOAD then lower_alu_instruction S32 instruction
  else if class =? BPF_ALU64_STORE then lower_alu_instruction S64 instruction
  else if class =? BPF_JMP32 then lower_jump_instruction S32 pc instruction
  else if class =? BPF_JMP64 then lower_jump_instruction S64 pc instruction
  else Err UnsupportedInstruction.

(** ** Tables and relocations *)
Definition set_program_counter (pc : Z) : jit unit := fun s =>
  match set (pc_section s) pc (Some (offset_in_text_section s)) with
  | Some t => (Ok tt, mkJit (text_section s) t (text_section_jumps s) (anchors s))
  | None => (Err InvalidProgramCounter, s)
  end.

Definition set_anchor (anchor : Z) : jit unit := fun s =>
  match set (anchors s) anchor (Some (offset_in_text_section s)) with
  | Some t => (Ok tt, mkJit (text_section s) (pc_section s) (text_section_jumps s) t)
  | None => (Err InvalidAnchor, s)
  end.

Definition relative_to_anchor (anchor instruction_length : Z) (s : JitCompilerModel)
    : result JitModelError Z :=
  slot ← ok_or (get (anchors s) anchor) InvalidAnchor;
  destination ← ok_or slot AnchorNotSet;
  instruction_end ← ok_or (checked_add_u64 (offset_in_text_section s) instruction_length)
                      RelativeOffsetOutOfRange;
  relative_offset destination instruction_end.

Definition relative_to_target_pc (target_pc instruction_length : Z) : jit Z := fun s =>
  match get (pc_section s) target_pc with
  | None => (Err InvalidProgramCounter, s)
  | Some destination =>
      match checked_add_u64 (offset_in_text_section s) instruction_length with
      | None => (Err RelativeOffsetOutOfRange, s)
      | Some instruction_end =>
          match destination with
          | Some destination => (relative_offset destination instruction_end, s)
          | None =>
              match checked_sub_u64 instruction_end 4 with
              | None => (Err InvalidRelocation, s)
              | Some location =>
                  (Ok 0, mkJit (text_section s) (pc_section s)
                           (text_section_jumps s ++ [mkJump location target_pc]) (anchors s))
              end
          end
      end
  end.

(** [text.get_mut(a..b)] followed by [copy_from_slice]. *)
Definition patch (text : list byte) (a b : Z) (bytes : list byte) : option (list byte) :=
  if (0 <=? a) && (a <=? b) && (b <=? Z.of_nat (length text))
  then Some (take (Z.to_nat a) text ++ bytes ++ drop (Z.to_nat b) text)
  else None.

(** One iteration of the loop of [resolve_jumps]. *)
Definition resolve_jump (pcs : list (option Z)) (text : list byte) (jump : JumpModel)
    : result JitModelError (list byte) :=
  slot ← ok_or (get pcs (jump_target_pc jump)) InvalidProgramCounter;
  destination ← ok_or slot ProgramCounterNotSet;
  instruction_end ← ok_or (checked_add_u64 (location jump) 4) InvalidRelocation;
  displacement ← relative_offset destination instruction_end;
  ok_or (patch text (location jump) instruction_end (le_bytes 4 displacement)) InvalidRelocation.

Fixpoint resolve_loop (pcs : list (option Z)) (jumps : list JumpModel) (text : list byte)
    : result JitModelError unit * list byte :=
  match jumps with
  | [] => (Ok tt, text)
  | jump :: jumps =>
      match resolve_jump pcs text jump with
      | Ok text' => resolve_loop pcs jumps text'
      | Err e => (Err e, text)
      | Panic => (Panic, text)
      end
  end.

Definition resolve_jumps : jit unit := fun s =>
  match resolve_loop (pc_section s) (text_section_jumps s) (text_section s) with
  | (Ok tt, text) => (Ok tt, mkJit text (pc_section s) [] (anchors s))
  | (r, text) => (r, mkJit text (pc_section s) (text_section_jumps s) (anchors s))
  end.

(** ** Code generation *)
Section Emit.
Context `{Profile}.

(** [self.emit_ins(&ins)] where the constructor of [ins] may panic. *)
Definition emit_ins (ins : result JitModelError X86Instruction) : jit unit :=
  instruction ← lift ins;
  bytes ← lift (encode instruction);
  emit_bytes bytes.

Definition emit_register_shift (size : OperandSize) (operation : ShiftOperation)
    (source destination : X86Register) : jit unit :=
  let opcode_extension := shift_opcode_extension operation in
  _ ← (if size_eqb size S32 then emit_ins (mov size destination destination) else mret tt);
  if decide (source = RCX) then
    emit_ins (alu_immediate size 0xd3 opcode_extension destination 0 None)
  else if decide (destination = RCX) then
    _ ← emit_ins (Ok (push source None));
    _ ← emit_ins (xchg S64 source RCX None);
    _ ← emit_ins (alu_immediate size 0xd3 opcode_extension source 0 None);
    _ ← emit_ins (mov S64 source RCX);
    emit_ins (Ok (pop source))
  else
    _ ← emit_ins (Ok (push RCX None));
    _ ← emit_ins (mov S64 source RCX);
    _ ← emit_ins (alu_immediate size 0xd3 opcode_extension destination 0 None);
    emit_ins (Ok (pop RCX)).

(** The branch a compare or test is followed by. *)
Definition emit_branch (condition : JumpCondition) (target_pc : Z) : jit unit :=
  displacement ← relative_to_target_pc target_pc 6;
  emit_ins (Ok (conditional_jump_immediate (jump_opcode condition) displacement)).

Definition emit_jit_instruction (instruction : JitInstruction) : jit unit :=
  match instruction with
  | LoadImmediate size destination value =>
      destination ← lift (mapped_register destination);
      value ← lift (match size with
                    | S32 => Ok (as_u 32 value)
                    | S64 => Ok value
                    | _ => Err InvalidOperandSize
                    end);
      emit_ins (Ok (load_immediate destination value))
  | MoveRegister size source destination =>
      source ← lift (mapped_register source);
      destination ← lift (mapped_register destination);
      emit_ins (mov size source destination)
  | AluImmediate size operation destination value =>
      destination ← lift (mapped_register destination);
      let '(opcode, opcode_extension) := alu_encoding operation in
      if (i32_min <=? value) && (value <=? i32_max) then
        emit_ins (alu_immediate size 0x81 opcode_extension destination value None)
      else
        _ ← emit_ins (Ok (load_immediate REGISTER_SCRATCH value));
        emit_ins (alu size opcode REGISTER_SCRATCH destination None)
  | AluRegister size operation source destination =>
      source ← lift (mapped_register source);
      destination ← lift (mapped_register destination);
      emit_ins (alu size (alu_encoding operation).1 source destination None)
  | ShiftImmediate size operation destination amount =>
      destination ← lift (mapped_register destination);
      emit_ins (alu_immediate size 0xc1 (shift_opcode_extension operation) destination amount None)
  | ShiftRegister size operation source destination =>
      source ← lift (mapped_register source);
      destination ← lift (mapped_register destination);
      emit_register_shift size operation source destination
  | Jump target_pc =>
      displacement ← relative_to_target_pc target_pc 5;
      emit_ins (Ok (jump_immediate displacement))
  | JumpImmediate size condition destination value target_pc =>
      destination ← lift (mapped_register destination);
      _ ← emit_ins (cmp_immediate size destination value None);
      emit_branch condition target_pc
  | JumpRegister size condition source destination target_pc =>
      source ← lift (mapped_register source);
      destination ← lift (mapped_register destination);
      _ ← emit_ins (cmp size source destination None);
      emit_branch condition target_pc
  | JumpTestImmediate size destination value target_pc =>
      destination ← lift (mapped_register destination);
      _ ← emit_ins (test_immediate size destination value None);
      emit_branch NotEqual target_pc
  | JumpTestRegister size source destination target_pc =>
      source ← lift (mapped_register source);
      destination ← lift (mapped_register destination);
      _ ← emit_ins (test size source destination None);
      emit_branch NotEqual target_pc
  | Return => emit_ins (Ok return_near)
  end.

(** The loop [while pc < program.len()] of [compile] and [compile_sbpf], by
    recursion on [n = program.len() - pc]; [lower] is the identity in
    [compile] and [lower_sbpf_instruction] in [compile_sbpf]. *)
Fixpoint compile_loop {I} (lower : Z -> I -> result JitModelError JitInstruction)
    (program : list I) (n : nat) (pc : Z) : jit unit :=
  match n with
  | O => mret tt
  | S n =>
      _ ← set_program_counter pc;
      instruction ← lift (ok_or (get program pc) InvalidProgramCounter);
      instruction ← lift (lower pc instruction);
      _ ← emit_jit_instruction instruction;
      compile_loop lower program n (pc + 1)
  end.

(** [let mut compiler = Self::new(program.len(), 0); ...; compiler.resolve_jumps()?;
    Ok(compiler.text_section)] *)
Definition compile_with {I} (lower : Z -> I -> result JitModelError JitInstruction)
    (program : list I) : result JitModelError (list byte) :=
  match (_ ← compile_loop lower program (length program) 0; resolve_jumps)
          (new (length program) 0) with
  | (Ok _, compiler) => Ok (text_section compiler)
  | (Err e, _) => Err e
  | (Panic, _) => Panic
  end.

Definition compile (program : list JitInstruction) : result JitModelError (list byte) :=
  compile_with (fun _ i => Ok i) program.

Definition compile_sbpf (program : list Insn) : result JitModelError (list byte) :=
  compile_with lower_sbpf_instruction program.
End Emit.
