(* ===== verification/JitLayout.v ===== *)
(** * The one-pass compiler against a two-pass reference

    [Jit.compile] emits code in one pass, filling backward displacements as it
    goes and patching forward ones in [resolve_jumps].  The reference below
    selects a [chunk] of bytes for each instruction, lays the chunks out, and
    only then computes every displacement.  The two agree. *)

From stdpp Require Import sets.
From S2P Require Import Prelude Ebpf X86 Jit.

(** ** Instruction selection without a buffer *)

(** The bytes of one instruction, up to the four displacement bytes of the
    branch it may end with. *)
Record chunk := mkChunk { head : list byte; target : option Z }.

Definition chunk_len (c : chunk) : Z :=
  Z.of_nat (length (head c)) + match target c with Some _ => 4 | None => 0 end.

Definition chunk_bytes (c : chunk) (d : Z) : list byte :=
  head c ++ match target c with Some _ => le_bytes 4 d | None => [] end.

Definition branch_head (c : option JumpCondition) : list byte :=
  match c with None => [0xe9] | Some c => [0x0f; jump_opcode c] end.

Section Select.
Context {P : Profile}.
Abbreviation R := (result JitModelError).
Abbreviation branch := (option (option JumpCondition * Z)).

Definition select_shift (size : OperandSize) (operation : ShiftOperation)
    (s d : X86Register) : R (list X86Instruction) :=
  let ext := shift_opcode_extension operation in
  pre ← (if size_eqb size S32 then i ← mov size d d; Ok [i] else Ok []);
  body ← (if decide (s = RCX) then
            i ← alu_immediate size 0xd3 ext d 0 None; Ok [i]
          else if decide (d = RCX) then
            x ← xchg S64 s RCX None;
            i ← alu_immediate size 0xd3 ext s 0 None;
            m ← mov S64 s RCX;
            Ok [push s None; x; i; m; pop s]
          else
            m ← mov S64 s RCX;
            i ← alu_immediate size 0xd3 ext d 0 None;
            Ok [push RCX None; m; i; pop RCX]);
  Ok (pre ++ body).

Definition select (i : JitInstruction) : R (list X86Instruction * branch) :=
  match i with
  | LoadImmediate size d v =>
      d ← mapped_register d;
      v ← (match size with S32 => Ok (as_u 32 v) | S64 => Ok v
           | _ => Err InvalidOperandSize end);
      Ok ([load_immediate d v], None)
  | MoveRegister size s d =>
      s ← mapped_register s; d ← mapped_register d;
      x ← mov size s d; Ok ([x], None)
  | AluImmediate size op d v =>
      d ← mapped_register d;
      if (i32_min <=? v) && (v <=? i32_max) then
        x ← alu_immediate size 0x81 (alu_encoding op).2 d v None; Ok ([x], None)
      else
        x ← alu size (alu_encoding op).1 REGISTER_SCRATCH d None;
        Ok ([load_immediate REGISTER_SCRATCH v; x], None)
  | AluRegister size op s d =>
      s ← mapped_register s; d ← mapped_register d;
      x ← alu size (alu_encoding op).1 s d None; Ok ([x], None)
  | ShiftImmediate size op d n =>
      d ← mapped_register d;
      x ← alu_immediate size 0xc1 (shift_opcode_extension op) d n None; Ok ([x], None)
  | ShiftRegister size op s d =>
      s ← mapped_register s; d ← mapped_register d;
      l ← select_shift size op s d; Ok (l, None)
  | Jump t => Ok ([], Some (None, t))
  | JumpImmediate size c d v t =>
      d ← mapped_register d;
      x ← cmp_immediate size d v None; Ok ([x], Some (Some c, t))
  | JumpRegister size c s d t =>
      s ← mapped_register s; d ← mapped_register d;
      x ← cmp size s d None; Ok ([x], Some (Some c, t))
  | JumpTestImmediate size d v t =>
      d ← mapped_register d;
      x ← test_immediate size d v None; Ok ([x], Some (Some NotEqual, t))
  | JumpTestRegister size s d t =>
      s ← mapped_register s; d ← mapped_register d;
      x ← test size s d None; Ok ([x], Some (Some NotEqual, t))
  | Return => Ok ([return_near], None)
  end.

Fixpoint encode_all (l : list X86Instruction) : R (list byte) :=
  match l with
  | [] => Ok []
  | i :: l => b ← encode i; bs ← encode_all l; Ok (b ++ bs)
  end.

Definition assemble (sel : list X86Instruction * branch) : R chunk :=
  bs ← encode_all sel.1;
  Ok (match sel.2 with
      | None => mkChunk bs None
      | Some (c, t) => mkChunk (bs ++ branch_head c) (Some t)
      end).

Definition chunk_of (i : JitInstruction) : R chunk := select i ≫= assemble.
End Select.

(** ** Layout *)

(** Offset of chunk [k]: the lengths of the chunks before it. *)
Definition offset (cs : list chunk) (k : nat) : Z := foldr (fun c n => chunk_len c + n) 0 (take k cs).

(** Displacement of the branch of chunk [k] to program counter [t]. *)
Definition disp (cs : list chunk) (k : nat) (t : Z) : Z :=
  offset cs (Z.to_nat t) - offset cs (S k).

(** The chunks from [k] on, with branch [k'] displaced by [d k']. *)
Fixpoint chunks_text (d : nat -> Z) (k : nat) (cs : list chunk) : list byte :=
  match cs with
  | [] => []
  | c :: cs => chunk_bytes c (d k) ++ chunks_text d (S k) cs
  end.

Definition final_disp (cs : list chunk) (k : nat) : Z :=
  match cs !! k with
  | Some c => match target c with Some t => disp cs k t | None => 0 end
  | None => 0
  end.

Definition ref_text (cs : list chunk) : list byte := chunks_text (final_disp cs) 0 cs.

(** A branch that can be resolved: its target is an instruction and the
    displacement fits an [i32]. *)
Definition branch_ok (cs : list chunk) (k : nat) (c : chunk) : Prop :=
  match target c with
  | None => True
  | Some t => 0 <= t < Z.of_nat (length cs) /\ offset cs (S k) <= u64_max /\
              is_i 32 (disp cs k t)
  end.

(** ** What one call of [emit_jit_instruction] does *)
Section Emission.
Context {P : Profile}.
Implicit Types (s : JitCompilerModel) (c : chunk).

Definition append (b : list byte) s : JitCompilerModel :=
  mkJit (text_section s ++ b) (pc_section s) (text_section_jumps s) (anchors s).
Definition add_jump (j : JumpModel) s : JitCompilerModel :=
  mkJit (text_section s) (pc_section s) (text_section_jumps s ++ [j]) (anchors s).

(** [emits c s s']: appending chunk [c] to [s] succeeds and gives [s']. *)
Definition emits c s s' : Prop :=
  match target c with
  | None => s' = append (head c) s
  | Some t =>
      let fin := offset_in_text_section s + chunk_len c in
      fin <= u64_max /\
      match get (pc_section s) t with
      | None => False
      | Some (Some dest) => is_i 32 (dest - fin) /\ s' = append (chunk_bytes c (dest - fin)) s
      | Some None => s' = add_jump (mkJump (fin - 4) t) (append (chunk_bytes c 0) s)
      end
  end.

Lemma append_append a b s : append b (append a s) = append (a ++ b) s.
Proof. unfold append. simpl. by rewrite app_assoc. Qed.

Lemma append_nil s : append [] s = s.
Proof. destruct s. unfold append. simpl. by rewrite app_nil_r. Qed.

Lemma offset_append b s :
  offset_in_text_section (append b s) = offset_in_text_section s + Z.of_nat (length b).
Proof. unfold offset_in_text_section, append. simpl. rewrite length_app. lia. Qed.

Lemma emit_ins_eq ins s :
  emit_ins ins s = match (i ← ins; encode i) with
                   | Ok b => (Ok tt, append b s)
                   | Err e => (Err e, s)
                   | Panic => (Panic, s)
                   end.
Proof.
  unfold emit_ins, lift, mbind, jit_bind, result_bind.
  by destruct ins.
Qed.

(** The success of a monadic sequence. *)
Lemma jit_bind_ok {A B} (m : jit A) (f : A -> jit B) s x s' :
  (m ≫= f) s = (Ok x, s') <-> exists a s1, m s = (Ok a, s1) /\ f a s1 = (Ok x, s').
Proof.
  unfold mbind, jit_bind. destruct (m s) as [[] s1]; naive_solver.
Qed.

Lemma lift_ok {A} (r : result JitModelError A) s a s' :
  lift r s = (Ok a, s') <-> r = Ok a /\ s' = s.
Proof. unfold lift. naive_solver. Qed.

Lemma emit_ins_ok ins s x s' :
  emit_ins ins s = (Ok x, s') <-> exists i b, ins = Ok i /\ encode (E := JitModelError) i = Ok b /\ s' = append b s.
Proof.
  rewrite emit_ins_eq. unfold mbind, result_bind. destruct x, ins as [i| |]; [|naive_solver..].
  destruct (encode i) as [a|e|] eqn:Hi.
  - split; [intros [= <-]; eauto | intros (? & ? & [= <-] & ? & ->); congruence].
  - split; [done | intros (? & ? & [= <-] & ? & ->); congruence].
  - split; [done | intros (? & ? & [= <-] & ? & ->); congruence].
Qed.

Lemma emits_append b h t s s' :
  emits (mkChunk h (Some t)) (append b s) s' <-> emits (mkChunk (b ++ h) (Some t)) s s'.
Proof.
  unfold emits, chunk_len, chunk_bytes. simpl. rewrite offset_append, length_app.
  replace (offset_in_text_section s + Z.of_nat (length b) + (Z.of_nat (length h) + 4))
    with (offset_in_text_section s + (Z.of_nat (length b + length h) + 4)) by lia.
  destruct (get (pc_section s) t) as [[dest|]|]; by rewrite ?append_append, ?app_assoc.
Qed.

Lemma encode_branch (c : option JumpCondition) d :
  encode (E := JitModelError)
    (match c with None => jump_immediate d
     | Some c => conditional_jump_immediate (jump_opcode c) d end)
  = Ok (branch_head c ++ le_bytes 4 d).
Proof.
  assert (le_bytes 4 (as_u 64 d) = le_bytes 4 d) as Hd
    by (apply le_bytes_congr; rewrite as_u_as_u by lia; done).
  destruct c as [c|]; unfold encode, debug_assert; rewrite andb_false_r; simpl;
    unfold X86.emit_variable_length; rewrite <- (take_le_bytes 4 8) in Hd by lia;
    simpl in *; by rewrite Hd.
Qed.

Lemma relative_offset_ok a b d :
  relative_offset a b = Ok d <-> d = a - b /\ is_i 32 (a - b).
Proof.
  unfold relative_offset, is_i, i32_min, i32_max.
  destruct (Z.leb_spec (- 2 ^ 31) (a - b)), (Z.leb_spec (a - b) (2 ^ 31 - 1)); simpl;
    split; naive_solver lia.
Qed.

Lemma length_branch_head (c : option JumpCondition) :
  length (branch_head c) = match c with None => 1%nat | Some _ => 2%nat end.
Proof. by destruct c. Qed.

(** The jump emitters are [emits] of a branch-only chunk. *)
Lemma emit_branch_ok (c : option JumpCondition) t s x s' :
  (displacement ← relative_to_target_pc t (match c with None => 5 | Some _ => 6 end);
   emit_ins (Ok (match c with None => jump_immediate displacement
                 | Some c => conditional_jump_immediate (jump_opcode c) displacement end))) s
    = (Ok x, s') <-> emits (mkChunk (branch_head c) (Some t)) s s'.
Proof.
  set (len := match c with None => 5 | Some _ => 6 end).
  assert (Hlen : chunk_len (mkChunk (branch_head c) (Some t)) = len)
    by (unfold chunk_len; simpl; rewrite length_branch_head; by destruct c).
  assert (Hpos : 0 <= offset_in_text_section s) by (unfold offset_in_text_section; lia).
  unfold emits. simpl. rewrite Hlen. rewrite jit_bind_ok.
  unfold relative_to_target_pc, checked_add_u64, checked_sub_u64.
  destruct (get (pc_section s) t) as [slot|]; [|naive_solver].
  destruct (Z.leb_spec (offset_in_text_section s + len) u64_max); [|naive_solver lia].
  assert (4 <= len) by (unfold len; destruct c; lia).
  destruct slot as [dest|].
  - setoid_rewrite emit_ins_ok. split.
    + intros (d & s1 & [= Hd <-] & i & b & [= <-] & Hb & ->).
      apply relative_offset_ok in Hd as [-> Hd]. rewrite encode_branch in Hb.
      injection Hb as <-. done.
    + intros (_ & Hd & ->). eexists _, s. split; [f_equal; by apply relative_offset_ok|].
      eexists _, _. split; [done|]. by rewrite encode_branch.
  - destruct (Z.leb_spec 0 (offset_in_text_section s + len - 4)); [|lia].
    setoid_rewrite emit_ins_ok. split.
    + intros (d & s1 & [= <- <-] & i & b & [= <-] & Hb & ->).
      rewrite encode_branch in Hb. injection Hb as <-. done.
    + intros [_ ->]. eexists 0, _. split; [done|]. eexists _, _. split; [done|].
      by rewrite encode_branch.
Qed.
Lemma encode_all_cons i l b :
  encode_all (i :: l) = Ok b <->
  exists b1 b2, encode (E := JitModelError) i = Ok b1 /\ encode_all l = Ok b2 /\ b = b1 ++ b2.
Proof.
  simpl. rewrite result_bind_ok. setoid_rewrite result_bind_ok. naive_solver.
Qed.

(** A sequence of emitted instructions is one straight-line chunk. *)
Fixpoint emit_all (l : list X86Instruction) : jit unit :=
  match l with [] => mret tt | i :: l => _ ← emit_ins (Ok i); emit_all l end.

Lemma emit_all_ok l s x s' :
  emit_all l s = (Ok x, s') <-> exists b, encode_all l = Ok b /\ s' = append b s.
Proof.
  destruct x. revert s. induction l as [|i l IH]; intros s.
  - simpl. split; [intros [= <-]; eexists; by rewrite append_nil|].
    intros (b & [= <-] & ->). by rewrite append_nil.
  - setoid_rewrite encode_all_cons. simpl. rewrite jit_bind_ok.
    setoid_rewrite emit_ins_ok. split.
    + intros (? & s1 & (j & b1 & [= <-] & Hb1 & ->) & (b2 & Hb2 & ->)%IH).
      rewrite append_append. eauto 10.
    + intros (? & (b1 & b2 & Hb1 & Hb2 & ->) & Hs').
      eexists tt, (append b1 s). split; [eauto|]. apply IH. exists b2.
      by rewrite append_append.
Qed.

Lemma jit_bind_ret (m : jit unit) s : (_ ← m; mret tt) s = m s.
Proof. unfold mbind, jit_bind. by destruct (m s) as [[[]| |] ?]. Qed.

Lemma jit_bind_ext {A B} (m : jit A) (f g : A -> jit B) s :
  (forall a s, f a s = g a s) -> (m ≫= f) s = (m ≫= g) s.
Proof. intros Hfg. unfold mbind, jit_bind. destruct (m s) as [[] ?]; auto. Qed.

Lemma straight_ok l s x s' :
  emit_all l s = (Ok x, s') <-> exists c, assemble (l, None) = Ok c /\ emits c s s'.
Proof.
  rewrite emit_all_ok. unfold assemble. setoid_rewrite result_bind_ok. simpl.
  split; [intros (b & Hb & ->); exists (mkChunk b None); split; [by exists b | done]|].
  intros (c & (b' & Hb & Hc) & He). injection Hc as <-. eauto.
Qed.

Lemma branching_ok l (c : option JumpCondition) t s x s' :
  (_ ← emit_all l;
   displacement ← relative_to_target_pc t (match c with None => 5 | Some _ => 6 end);
   emit_ins (Ok (match c with None => jump_immediate displacement
                 | Some c => conditional_jump_immediate (jump_opcode c) displacement end))) s
    = (Ok x, s')
  <-> exists k, assemble (l, Some (c, t)) = Ok k /\ emits k s s'.
Proof.
  rewrite jit_bind_ok. setoid_rewrite emit_all_ok. setoid_rewrite emit_branch_ok.
  unfold assemble. setoid_rewrite result_bind_ok. simpl. split.
  - intros (? & s1 & (b & Hb & ->) & He%emits_append). eauto 10.
  - intros (k & (b & Hb & [= <-]) & He%emits_append). eexists tt, _. eauto.
Qed.
Lemma seq_iff {A} (a b c : A) : a = b -> a = c <-> b = c.
Proof. by intros ->. Qed.

Lemma lift_bind {A B} (a : A) (f : A -> jit B) s : (lift (Ok a) ≫= f) s = f a s.
Proof. done. Qed.

(** A sequence of emissions in the source is [emit_all] of the same list. *)
Ltac same_seq :=
  apply seq_iff; cbn [emit_all];
  try match goal with |- (mret tt ≫= ?f) ?s = _ => change ((mret tt ≫= f) s) with (f tt s) end;
  repeat (apply jit_bind_ext; intros ? ?); symmetry; apply jit_bind_ret.

(** Neither side of the equivalence can succeed. *)
Ltac no_ok :=
  split; [intros | intros (? & Hc & _); discriminate Hc];
  repeat match goal with
    | H : (_ ≫= _) _ = (Ok _, _) |- _ => apply jit_bind_ok in H as (? & ? & ? & ?)
    end; discriminate.

Lemma emit_register_shift_ok size op sr ds s x s' :
  emit_register_shift size op sr ds s = (Ok x, s') <->
  exists c, (select_shift size op sr ds ≫= fun l => assemble (l, None)) = Ok c /\ emits c s s'.
Proof.
  unfold emit_register_shift, select_shift, mov, xchg, alu_immediate, alu_immediate_escaped.
  unfold exclude_operand_sizes, debug_assert.
  change (negb (negb (existsb (size_eqb S64) [S0; S8; S16; S32]))) with false.
  change (negb (negb (existsb (size_eqb S64) [S0; S8; S16]))) with false.
  rewrite !andb_false_r.
  destruct (debug_assertions && negb (negb (existsb (size_eqb size) [S0; S8; S16]))) eqn:Hd.
  - destruct size; simpl in Hd; try (rewrite andb_false_r in Hd; done).
    all: destruct (decide (sr = RCX)), (decide (ds = RCX)); no_ok.
  - destruct (size_eqb size S32), (decide (sr = RCX)), (decide (ds = RCX));
      cbn [mbind result_bind app]; rewrite <- (straight_ok _ s x); same_seq.
Qed.

Lemma single_ok ins s x s' :
  emit_ins ins s = (Ok x, s') <->
  exists c, ((i ← ins; Ok ([i], None)) ≫= assemble) = Ok c /\ emits c s s'.
Proof.
  destruct ins as [i| |]; [|no_ok..]. cbn [mbind result_bind].
  rewrite <- (straight_ok _ s x). same_seq.
Qed.

Lemma compare_ok ins (c : JumpCondition) t s x s' :
  (_ ← emit_ins ins; emit_branch c t) s = (Ok x, s') <->
  exists k, ((i ← ins; Ok ([i], Some (Some c, t))) ≫= assemble) = Ok k /\ emits k s s'.
Proof.
  destruct ins as [i| |]; [|no_ok..]. cbn [mbind result_bind].
  rewrite <- (branching_ok _ (Some c) t s x). apply seq_iff.
  unfold emit_branch. unfold mbind, jit_bind. cbn [emit_all].
  unfold mbind, jit_bind. by destruct (emit_ins (Ok i) s) as [[[]| |] ?].
Qed.

(** Emission of an instruction succeeds exactly when its chunk exists and can
    be appended. *)
Lemma emit_jit_instruction_ok i s x s' :
  emit_jit_instruction i s = (Ok x, s') <-> exists c, chunk_of i = Ok c /\ emits c s s'.
Proof.
  unfold chunk_of. destruct i; cbn [emit_jit_instruction select];
    repeat match goal with
      | |- context [mapped_register ?r] =>
          destruct (mapped_register r) as [?r|?e|]; [|no_ok..];
          rewrite lift_bind; cbn [mbind result_bind]
      end.
  - destruct size; try no_ok; rewrite lift_bind; cbn [mbind result_bind];
      rewrite <- (straight_ok _ s x); same_seq.
  - apply single_ok.
  - destruct (alu_encoding operation) as [o e]. cbn [fst snd].
    destruct (_ && _); [apply single_ok|].
    destruct (alu size o REGISTER_SCRATCH _ None); [|no_ok..]. cbn [mbind result_bind].
    rewrite <- (straight_ok _ s x). same_seq.
  - apply single_ok.
  - apply single_ok.
  - rewrite emit_register_shift_ok. by destruct (select_shift _ _ _ _).
  - rewrite <- (branching_ok [] None target_pc s x). done.
  - apply compare_ok.
  - apply compare_ok.
  - apply compare_ok.
  - apply compare_ok.
  - rewrite <- (straight_ok [return_near] s x). same_seq.
Qed.
End Emission.

(** ** Layout arithmetic *)
Section Layout.
Implicit Types (cs : list chunk) (c : chunk) (d : nat -> Z).

Lemma length_chunk_bytes c z : Z.of_nat (length (chunk_bytes c z)) = chunk_len c.
Proof.
  unfold chunk_bytes, chunk_len. rewrite length_app. destruct (target c); [|simpl; lia].
  rewrite length_le_bytes. lia.
Qed.

Lemma chunk_len_nonneg c : 0 <= chunk_len c.
Proof. rewrite <- (length_chunk_bytes c 0). lia. Qed.

Lemma chunks_text_app d k cs1 cs2 :
  chunks_text d k (cs1 ++ cs2) = chunks_text d k cs1 ++ chunks_text d (k + length cs1) cs2.
Proof.
  revert k. induction cs1 as [|c cs1 IH]; intros k; simpl; [by rewrite Nat.add_0_r|].
  rewrite IH, app_assoc. do 2 f_equal. lia.
Qed.

Lemma chunks_text_ext d d' k cs :
  (forall j c, cs !! j = Some c -> target c <> None -> d (k + j)%nat = d' (k + j)%nat) ->
  chunks_text d k cs = chunks_text d' k cs.
Proof.
  revert k. induction cs as [|c cs IH]; intros k Hd; simpl; [done|]. f_equal.
  - unfold chunk_bytes. destruct (target c) eqn:Ht; [|done].
    specialize (Hd 0%nat c eq_refl ltac:(congruence)). rewrite Nat.add_0_r in Hd. by rewrite Hd.
  - apply IH. intros j c' Hj. replace (S k + j)%nat with (k + S j)%nat by lia. by apply Hd.
Qed.

Lemma length_chunks_text d k cs :
  Z.of_nat (length (chunks_text d k cs)) = foldr (fun c n => chunk_len c + n) 0 cs.
Proof.
  revert k. induction cs as [|c cs IH]; intros k; simpl; [done|].
  rewrite length_app, Nat2Z.inj_add, length_chunk_bytes, IH. done.
Qed.

Lemma length_text_take d cs k :
  Z.of_nat (length (chunks_text d 0 (take k cs))) = offset cs k.
Proof. apply length_chunks_text. Qed.

Lemma length_text d cs : Z.of_nat (length (chunks_text d 0 cs)) = offset cs (length cs).
Proof. rewrite <- (length_text_take d). by rewrite take_ge by lia. Qed.

Lemma chunks_text_take_S d cs k c :
  cs !! k = Some c ->
  chunks_text d 0 (take (S k) cs) = chunks_text d 0 (take k cs) ++ chunk_bytes c (d k).
Proof.
  intros Hc. rewrite (take_S_r _ _ c Hc), chunks_text_app. simpl. rewrite app_nil_r.
  do 2 f_equal. rewrite length_take. apply lookup_lt_Some in Hc. f_equal. lia.
Qed.

Lemma offset_S cs k c : cs !! k = Some c -> offset cs (S k) = offset cs k + chunk_len c.
Proof.
  intros Hc. rewrite <- !(length_text_take (fun _ => 0)).
  rewrite (chunks_text_take_S _ _ _ c Hc), length_app, Nat2Z.inj_add.
  by rewrite length_chunk_bytes.
Qed.

Lemma offset_nonneg cs k : 0 <= offset cs k.
Proof. rewrite <- (length_text_take (fun _ => 0)). lia. Qed.

(** The bytes around chunk [j]. *)
Lemma chunks_text_split d cs j c :
  cs !! j = Some c ->
  chunks_text d 0 cs =
    chunks_text d 0 (take j cs) ++ chunk_bytes c (d j) ++ chunks_text d (S j) (drop (S j) cs).
Proof.
  intros Hc. rewrite <- (take_drop_middle _ _ _ Hc) at 1. rewrite chunks_text_app. simpl.
  rewrite length_take. apply lookup_lt_Some in Hc.
  replace (j `min` length cs)%nat with j by lia. done.
Qed.

Lemma splice (p b b' e : list byte) :
  take (length p) (p ++ b ++ e) ++ b' ++ drop (length (p ++ b)) (p ++ b ++ e) = p ++ b' ++ e.
Proof. rewrite take_app_length. by rewrite (app_assoc p b e), drop_app_length. Qed.

(** Patching the displacement of branch [j]. *)
Lemma patch_chunk d cs j c t z :
  cs !! j = Some c -> target c = Some t ->
  patch (chunks_text d 0 cs) (offset cs (S j) - 4) (offset cs (S j)) (le_bytes 4 z) =
    Some (chunks_text (fun k => if decide (k = j) then z else d k) 0 cs).
Proof.
  intros Hc Ht. rewrite (chunks_text_split _ _ _ _ Hc).
  rewrite (chunks_text_split (fun k => if decide (k = j) then z else d k) _ _ _ Hc).
  set (pre := chunks_text d 0 (take j cs)).
  set (post := chunks_text d (S j) (drop (S j) cs)).
  replace (chunks_text _ 0 (take j cs)) with pre; cycle 1.
  { apply chunks_text_ext. intros k c' Hk _. case_decide; [|done].
    apply lookup_lt_Some in Hk. rewrite length_take in Hk. lia. }
  replace (chunks_text _ (S j) (drop (S j) cs)) with post; cycle 1.
  { apply chunks_text_ext. intros k c' Hk _. case_decide; [lia|done]. }
  rewrite decide_True by done.
  assert (Hpre : Z.of_nat (length pre) = offset cs j) by apply length_text_take.
  assert (Hlen : chunk_len c = Z.of_nat (length (head c)) + 4)
    by (unfold chunk_len; by rewrite Ht).
  rewrite (offset_S _ _ _ Hc), Hlen. unfold patch, chunk_bytes. rewrite Ht.
  rewrite !length_app, length_le_bytes.
  rewrite !(proj2 (Z.leb_le _ _)) by lia. cbn [andb]. f_equal.
  replace (Z.to_nat (offset cs j + (Z.of_nat (length (head c)) + 4) - 4))
    with (length (pre ++ head c)) by (rewrite length_app; lia).
  replace (Z.to_nat (offset cs j + (Z.of_nat (length (head c)) + 4)))
    with (length ((pre ++ head c) ++ le_bytes 4 (d j)))
    by (rewrite !length_app, length_le_bytes; lia).
  replace (pre ++ (head c ++ le_bytes 4 (d j)) ++ post)
    with ((pre ++ head c) ++ le_bytes 4 (d j) ++ post) by (by rewrite <- !app_assoc).
  rewrite splice. by rewrite <- !app_assoc.
Qed.
End Layout.

(** ** The state after compiling a prefix *)
Section Prefix.
Context {P : Profile}.
Implicit Types (cs : list chunk) (c : chunk) (s : JitCompilerModel).

Definition target_at cs (k : nat) : option Z := c ← cs !! k; target c.

(** A forward branch, whose displacement [resolve_jumps] fills. *)
Definition is_late cs (k : nat) : bool :=
  match target_at cs k with Some t => Z.of_nat k <? t | None => false end.

Definition early_disp cs (k : nat) : Z := if is_late cs k then 0 else final_disp cs k.
Definition late cs : list nat := List.filter (is_late cs) (seq 0 (length cs)).
Definition jump_at cs (k : nat) : JumpModel :=
  mkJump (offset cs (S k) - 4) (default 0 (target_at cs k)).

(** The compiler state once the chunks [cs] of an [n]-instruction program
    have been emitted. *)
Definition state_of (n : nat) cs : JitCompilerModel :=
  mkJit (chunks_text (early_disp cs) 0 cs)
    ((Some ∘ offset cs <$> seq 0 (length cs)) ++ replicate (n - length cs) None)
    (jump_at cs <$> late cs) [].

(** The same after [set_program_counter]. *)
Definition marked (n : nat) cs : JitCompilerModel :=
  mkJit (chunks_text (early_disp cs) 0 cs)
    ((Some ∘ offset cs <$> seq 0 (S (length cs))) ++ replicate (n - S (length cs)) None)
    (jump_at cs <$> late cs) [].

(** What the emission of [c] after [cs] checks. *)
Definition early_ok (n : nat) cs c : Prop :=
  match target c with
  | None => True
  | Some t =>
      let k := length cs in
      0 <= t < Z.of_nat n /\ offset (cs ++ [c]) (S k) <= u64_max /\
      (t <= Z.of_nat k -> is_i 32 (disp (cs ++ [c]) k t))
  end.

Lemma offset_app cs cs' k : (k <= length cs)%nat -> offset (cs ++ cs') k = offset cs k.
Proof. intros. unfold offset. by rewrite take_app_le. Qed.

Lemma disp_app cs cs' k t :
  (k < length cs)%nat -> t <= Z.of_nat (length cs) -> disp (cs ++ cs') k t = disp cs k t.
Proof. intros. unfold disp. rewrite !offset_app by lia. done. Qed.

Lemma is_late_app cs cs' k : (k < length cs)%nat -> is_late (cs ++ cs') k = is_late cs k.
Proof. intros. unfold is_late, target_at. by rewrite lookup_app_l. Qed.

Lemma jump_at_app cs cs' k : (k < length cs)%nat -> jump_at (cs ++ cs') k = jump_at cs k.
Proof.
  intros. unfold jump_at, target_at. rewrite lookup_app_l by done. by rewrite offset_app by lia.
Qed.

Lemma early_disp_app cs cs' k :
  (k < length cs)%nat -> early_disp (cs ++ cs') k = early_disp cs k.
Proof.
  intros Hk. unfold early_disp. rewrite is_late_app by done. unfold is_late, final_disp, target_at.
  rewrite lookup_app_l by done. destruct (cs !! k) as [c|]; [|done]. simpl.
  destruct (target c) as [t|]; [|done]. destruct (Z.ltb_spec (Z.of_nat k) t); [done|].
  apply disp_app; lia.
Qed.

Lemma is_late_bound cs k : is_late cs k = true -> (k < length cs)%nat.
Proof.
  unfold is_late, target_at. intros H. apply lookup_lt_is_Some.
  destruct (cs !! k); [by eexists|done].
Qed.

Lemma late_snoc cs c :
  late (cs ++ [c]) = late cs ++ if is_late (cs ++ [c]) (length cs) then [length cs] else [].
Proof.
  unfold late. rewrite length_app. simpl. rewrite seq_app, List.filter_app. f_equal.
  apply List.filter_ext_in. intros k Hk%in_seq. apply is_late_app. lia.
Qed.

Lemma fmap_ext_seq {A} (f g : nat -> A) n :
  (forall k, (k < n)%nat -> f k = g k) -> f <$> seq 0 n = g <$> seq 0 n.
Proof. intros H. apply list_fmap_ext. intros i k Hk%lookup_seq. apply H. lia. Qed.

Lemma set_program_counter_state n cs :
  (length cs < n)%nat ->
  set_program_counter (Z.of_nat (length cs)) (state_of n cs) = (Ok tt, marked n cs).
Proof.
  intros Hn. unfold set_program_counter, state_of, marked. cbn [pc_section text_section anchors text_section_jumps].
  rewrite set_Some; cycle 1.
  { rewrite length_app, length_fmap, length_seq, length_replicate. lia. }
  do 2 f_equal. rewrite Nat2Z.id. unfold offset_in_text_section. cbn [text_section].
  rewrite length_text.
  replace (n - length cs)%nat with (S (n - S (length cs))) by lia. cbn [replicate].
  rewrite seq_S, fmap_app, <- app_assoc.
  replace (length cs) with (length (Some ∘ offset cs <$> seq 0 (length cs)) + 0)%nat at 1
    by (rewrite length_fmap, length_seq; lia).
  rewrite insert_app_r. done.
Qed.

Lemma get_marked n cs t :
  (length cs < n)%nat ->
  get (pc_section (marked n cs)) t =
    if decide (0 <= t < Z.of_nat n)
    then Some (if decide (t <= Z.of_nat (length cs)) then Some (offset cs (Z.to_nat t)) else None)
    else None.
Proof.
  intros Hn. unfold marked, get. cbn [pc_section]. destruct (Z.ltb_spec t 0).
  { by rewrite decide_False by lia. }
  repeat case_decide; try lia.
  - rewrite lookup_app_l by (rewrite length_fmap, length_seq; lia).
    rewrite list_lookup_fmap, lookup_seq_lt by lia. done.
  - rewrite lookup_app_r by (rewrite length_fmap, length_seq; lia).
    rewrite length_fmap, length_seq. apply lookup_replicate. split; [done|lia].
  - apply lookup_ge_None. rewrite length_app, length_fmap, length_seq, length_replicate. lia.
Qed.

Lemma state_of_snoc n cs c :
  (length cs < n)%nat ->
  state_of n (cs ++ [c]) =
    (if is_late (cs ++ [c]) (length cs) then add_jump (jump_at (cs ++ [c]) (length cs)) else id)
      (append (chunk_bytes c (early_disp (cs ++ [c]) (length cs))) (marked n cs)).
Proof.
  intros Hn. unfold state_of, marked, append, add_jump.
  cbn [pc_section text_section anchors text_section_jumps].
  assert (Ht : chunks_text (early_disp (cs ++ [c])) 0 (cs ++ [c]) =
            chunks_text (early_disp cs) 0 cs ++ chunk_bytes c (early_disp (cs ++ [c]) (length cs))).
  { rewrite chunks_text_app. simpl. rewrite app_nil_r. f_equal. apply chunks_text_ext.
    intros j c' Hj%lookup_lt_Some _. by apply early_disp_app. }
  assert (Hp : Some ∘ offset (cs ++ [c]) <$> seq 0 (length (cs ++ [c])) =
               Some ∘ offset cs <$> seq 0 (S (length cs))).
  { rewrite length_app, Nat.add_1_r. apply fmap_ext_seq. intros k Hk. simpl.
    by rewrite offset_app by lia. }
  assert (Hj : jump_at (cs ++ [c]) <$> late cs = jump_at cs <$> late cs).
  { apply list_fmap_ext. intros i k Hk%list_elem_of_lookup_2. apply jump_at_app.
    apply list_elem_of_In, List.filter_In in Hk as [_ Hk]. by apply is_late_bound. }
  rewrite Ht, Hp, late_snoc, fmap_app, Hj, length_app, Nat.add_1_r.
  destruct (is_late _ _); simpl; [done|]. by rewrite app_nil_r.
Qed.

Lemma target_at_snoc cs c : target_at (cs ++ [c]) (length cs) = target c.
Proof. unfold target_at. by rewrite lookup_app_r, Nat.sub_diag by lia. Qed.

Lemma final_disp_snoc cs c t :
  target c = Some t -> final_disp (cs ++ [c]) (length cs) = disp (cs ++ [c]) (length cs) t.
Proof. intros Ht. unfold final_disp. rewrite lookup_app_r, Nat.sub_diag by lia. simpl. by rewrite Ht. Qed.

Lemma offset_snoc cs c :
  offset (cs ++ [c]) (S (length cs)) = offset cs (length cs) + chunk_len c.
Proof.
  rewrite (offset_S _ _ c) by (by rewrite lookup_app_r, Nat.sub_diag by lia).
  by rewrite offset_app by lia.
Qed.

Lemma emits_marked n cs c s' :
  (length cs < n)%nat ->
  emits c (marked n cs) s' <-> early_ok n cs c /\ s' = state_of n (cs ++ [c]).
Proof.
  intros Hn. rewrite (state_of_snoc n cs c Hn). unfold emits, early_ok.
  unfold is_late. rewrite target_at_snoc.
  destruct (target c) as [t|] eqn:Ht; cycle 1.
  { unfold chunk_bytes. rewrite Ht, app_nil_r. simpl. naive_solver. }
  cbv zeta. replace (offset_in_text_section (marked n cs)) with (offset cs (length cs)); cycle 1.
  { unfold offset_in_text_section. simpl. by rewrite length_text. }
  rewrite <- offset_snoc. rewrite (get_marked n cs t Hn).
  unfold early_disp, is_late. rewrite target_at_snoc, Ht, (final_disp_snoc _ _ _ Ht).
  unfold jump_at. rewrite target_at_snoc, Ht. simpl default.
  destruct (decide (0 <= t < Z.of_nat n)); [|naive_solver].
  destruct (decide (t <= Z.of_nat (length cs))) as [Hle|Hle].
  - rewrite (proj2 (Z.ltb_ge _ _)) by lia. unfold disp.
    rewrite (offset_app cs [c] (Z.to_nat t)) by lia. simpl. naive_solver.
  - rewrite (proj2 (Z.ltb_lt _ _)) by lia. naive_solver lia.
Qed.
End Prefix.

(** ** The compiler against the reference *)
Section Refinement.
Context {P : Profile} {I : Type} (lower : Z -> I -> result JitModelError JitInstruction).
Implicit Types (cs : list chunk) (c : chunk) (s : JitCompilerModel).

(** [c] is the chunk of the instruction at [k]. *)
Definition selects (k : nat) (i : I) c : Prop :=
  exists j, lower (Z.of_nat k) i = Ok j /\ chunk_of j = Ok c.

Definition selected (program : list I) cs : Prop :=
  length cs = length program /\
  forall k i c, program !! k = Some i -> cs !! k = Some c -> selects k i c.

Lemma compile_loop_step program n m cs x s' :
  (length cs < n)%nat ->
  compile_loop lower program (S m) (Z.of_nat (length cs)) (state_of n cs) = (Ok x, s') <->
  exists i c, program !! length cs = Some i /\ selects (length cs) i c /\ early_ok n cs c /\
    compile_loop lower program m (Z.of_nat (length (cs ++ [c]))) (state_of n (cs ++ [c])) = (Ok x, s').
Proof.
  intros Hn. cbn [compile_loop]. rewrite jit_bind_ok, set_program_counter_state by done.
  setoid_rewrite jit_bind_ok. setoid_rewrite lift_ok.
  setoid_rewrite jit_bind_ok. setoid_rewrite lift_ok. setoid_rewrite jit_bind_ok.
  setoid_rewrite emit_jit_instruction_ok. rewrite get_lookup.
  rewrite ?length_app. replace (Z.of_nat (length cs) + 1) with (Z.of_nat (length cs + 1)) by lia.
  split.
  - intros (? & ? & [_ ->] & i & ? & [Hi ->] & j & ? & [Hj ->] & ? & s2 & (c & Hc & Hem) & Hl).
    apply (emits_marked _ _ _ _ Hn) in Hem as [Hok ->].
    exists i, c. unfold selects. rewrite length_app.
    destruct (program !! length cs); naive_solver.
  - intros (i & c & Hi & (j & Hj & Hc) & Hok & Hl). rewrite length_app in Hl. rewrite Hi.
    do 2 eexists. split; [done|]. do 2 eexists. split; [done|]. do 2 eexists. split; [done|].
    exists tt. eexists. split; [|done]. exists c. split; [done|]. by apply emits_marked.
Qed.

Lemma compile_loop_ok program m cs x s' :
  (length cs + m = length program)%nat ->
  compile_loop lower program m (Z.of_nat (length cs)) (state_of (length program) cs) = (Ok x, s') <->
  exists cs', length cs' = m /\
    (forall k c, cs' !! k = Some c ->
       early_ok (length program) (cs ++ take k cs') c /\
       exists i, program !! (length cs + k)%nat = Some i /\ selects (length cs + k) i c) /\
    s' = state_of (length program) (cs ++ cs').
Proof.
  revert cs. induction m as [|m IH]; intros cs Hm.
  { unfold compile_loop, mret, jit_ret. destruct x. split.
    - intros [= <-]. exists []. rewrite app_nil_r. naive_solver.
    - intros ([|] & Hl & _ & ->); [|done]. by rewrite app_nil_r. }
  rewrite compile_loop_step by lia. split.
  - intros (i & c & Hi & Hs & Hok & Hl).
    apply IH in Hl as (cs' & Hlen & Hcs & ->); [|rewrite length_app; simpl; lia].
    exists (c :: cs'). split_and!; [simpl; lia| |by rewrite <- app_assoc].
    intros [|k] c'; simpl.
    + intros [= <-]. rewrite app_nil_r, Nat.add_0_r. eauto.
    + intros Hk. destruct (Hcs k c' Hk) as [Hok' Hsel].
      rewrite <- app_assoc, length_app, <- Nat.add_assoc in *. eauto.
  - intros ([|c cs'] & Hlen & Hcs & ->); [done|].
    destruct (Hcs 0%nat c eq_refl) as [Hok (i & Hi & Hs)].
    simpl in Hok. rewrite app_nil_r, ?Nat.add_0_r in *.
    exists i, c. split_and!; [done..|]. apply IH; [rewrite length_app; simpl; lia|].
    exists cs'. split_and!; [simpl in Hlen; lia| |by rewrite <- app_assoc].
    intros k c' Hk. destruct (Hcs (S k) c' Hk) as [Hok' Hsel].
    rewrite <- app_assoc, length_app, <- Nat.add_assoc. simpl in *. done.
Qed.

(** Resolving the forward branches at positions [ks]. *)
Lemma resolve_loop_ok cs ks d text' :
  (forall k, k ∈ ks -> exists c t, cs !! k = Some c /\ target c = Some t /\
     0 <= t < Z.of_nat (length cs) /\ offset cs (S k) <= u64_max) ->
  resolve_loop (Some ∘ offset cs <$> seq 0 (length cs)) (jump_at cs <$> ks) (chunks_text d 0 cs) = (Ok tt, text') <->
  (forall k, k ∈ ks -> is_i 32 (final_disp cs k)) /\
  text' = chunks_text (fun k => if decide (k ∈ ks) then final_disp cs k else d k) 0 cs.
Proof.
  revert d. induction ks as [|k ks IH]; intros d Hks.
  { simpl. split; [intros [= <-]|by intros [_ ->]]. split; [by intros k Hk%elem_of_nil|done]. }
  cbn [fmap list_fmap resolve_loop].
  destruct (Hks k ltac:(left)) as (c & t & Hc & Ht & Hrange & Hmax).
  assert (Hfin : final_disp cs k = offset cs (Z.to_nat t) - offset cs (S k))
    by (unfold final_disp; by rewrite Hc, Ht).
  unfold resolve_jump, jump_at, target_at. cbn [location jump_target_pc].
  rewrite Hc. cbn [mbind option_bind]. rewrite Ht. cbn [default].
  replace (get _ (default 0 (Some t))) with (Some (Some (offset cs (Z.to_nat t)))); cycle 1.
  { simpl. unfold get. rewrite (proj2 (Z.ltb_ge _ _)) by lia.
    rewrite list_lookup_fmap, lookup_seq_lt by lia. done. }
  cbn [ok_or mbind result_bind]. unfold checked_add_u64.
  replace (offset cs (S k) - 4 + 4) with (offset cs (S k)) by lia.
  rewrite (proj2 (Z.leb_le _ _)) by done. cbn [ok_or mbind result_bind].
  unfold relative_offset. rewrite <- Hfin.
  destruct ((i32_min <=? final_disp cs k) && (final_disp cs k <=? i32_max)) eqn:Hi.
  2: { cbn [mbind result_bind]. split; [done|]. intros [Hall _].
       specialize (Hall k ltac:(left)). unfold is_i in Hall. unfold i32_min, i32_max in Hi. lia. }
  cbn [mbind result_bind]. rewrite (patch_chunk d cs k c t _ Hc Ht). cbn [ok_or].
  rewrite IH by (intros; apply Hks; by right).
  split.
  - intros [Hall ->]. split.
    + intros k' [->|?]%elem_of_cons; [|auto]. unfold is_i. unfold i32_min, i32_max in Hi. lia.
    + apply chunks_text_ext. intros j c' _ _. simpl. repeat case_decide; set_solver.
  - intros [Hall ->]. split; [intros; apply Hall; by right|].
    apply chunks_text_ext. intros j c' _ _. simpl. repeat case_decide; set_solver.
Qed.

Lemma resolve_jumps_ok s x s' :
  resolve_jumps s = (Ok x, s') <->
  exists text, resolve_loop (pc_section s) (text_section_jumps s) (text_section s) = (Ok tt, text) /\
    s' = mkJit text (pc_section s) [] (anchors s).
Proof.
  unfold resolve_jumps. destruct (resolve_loop _ _ _) as [[[]| |] text], x; naive_solver.
Qed.

Lemma early_ok_at n cs k c :
  n = length cs -> cs !! k = Some c ->
  early_ok n (take k cs) c <->
    match target c with
    | None => True
    | Some t => 0 <= t < Z.of_nat n /\ offset cs (S k) <= u64_max /\
                (t <= Z.of_nat k -> is_i 32 (disp cs k t))
    end.
Proof.
  intros -> Hc. pose proof (lookup_lt_Some _ _ _ Hc). unfold early_ok.
  rewrite length_take_le by lia. destruct (target c) as [t|]; [|done].
  cbv zeta. rewrite <- (take_S_r _ _ _ Hc).
  assert (Ho : forall j, (j <= S k)%nat -> offset (take (S k) cs) j = offset cs j).
  { intros j Hj. unfold offset. rewrite take_take. do 2 f_equal. lia. }
  rewrite Ho by lia. unfold disp.
  split; intros (Ht & Hm & Hd); (split; [done|split; [done|]]); intros Hle; specialize (Hd Hle);
    rewrite ?Ho in * by lia; done.
Qed.

(** Early and late checks together are [branch_ok]. *)
Lemma branch_ok_split cs :
  (forall k c, cs !! k = Some c -> branch_ok cs k c) <->
  (forall k c, cs !! k = Some c -> early_ok (length cs) (take k cs) c) /\
  (forall k, k ∈ late cs -> is_i 32 (final_disp cs k)).
Proof.
  assert (Hlate : forall k, k ∈ late cs <-> exists c t, cs !! k = Some c /\ target c = Some t /\ Z.of_nat k < t).
  { intros k. unfold late. rewrite list_elem_of_In, List.filter_In, in_seq.
    unfold is_late, target_at. split.
    - intros [_ Hk]. destruct (cs !! k) as [c|]; [|done]. simpl in Hk.
      destruct (target c) as [t|] eqn:?; [|done]. exists c, t. split_and!; auto; lia.
    - intros (c & t & Hc & Ht & Hlt). pose proof (lookup_lt_Some _ _ _ Hc).
      rewrite Hc. simpl. rewrite Ht. lia. }
  split.
  - intros Hok. split.
    + intros k c Hc. apply early_ok_at; [done..|]. specialize (Hok k c Hc). unfold branch_ok in Hok.
      destruct (target c); naive_solver.
    + intros k (c & t & Hc & Ht & _)%Hlate. specialize (Hok k c Hc). unfold branch_ok in Hok.
      unfold final_disp. rewrite Hc, Ht in *. naive_solver.
  - intros [He Hl] k c Hc. specialize (He k c Hc). apply (early_ok_at _ _ _ _ eq_refl Hc) in He.
    unfold branch_ok. destruct (target c) as [t|] eqn:Ht; [|done].
    destruct He as (Hr & Hm & He). split; [done|split; [done|]].
    destruct (decide (t <= Z.of_nat k)); [auto|].
    specialize (Hl k). unfold final_disp in Hl. rewrite Hc, Ht in Hl. apply Hl, Hlate.
    exists c, t. split_and!; [done..|lia].
Qed.

Lemma resolve_state_of cs x s' :
  (forall k c, cs !! k = Some c -> early_ok (length cs) (take k cs) c) ->
  resolve_jumps (state_of (length cs) cs) = (Ok x, s') <->
  (forall k, k ∈ late cs -> is_i 32 (final_disp cs k)) /\
  s' = mkJit (ref_text cs) (pc_section (state_of (length cs) cs)) [] [].
Proof.
  intros Hok. rewrite resolve_jumps_ok. unfold state_of. simpl.
  rewrite Nat.sub_diag. simpl. rewrite app_nil_r.
  assert (Hks : forall k, k ∈ late cs -> exists c t, cs !! k = Some c /\ target c = Some t /\
     0 <= t < Z.of_nat (length cs) /\ offset cs (S k) <= u64_max).
  { intros k Hk. unfold late in Hk. apply list_elem_of_In, List.filter_In in Hk as [_ Hk].
    unfold is_late, target_at in Hk. destruct (cs !! k) as [c|] eqn:Hc; [|done]. simpl in Hk.
    destruct (target c) as [t|] eqn:Ht; [|done].
    pose proof (Hok k c Hc) as He. apply (early_ok_at _ _ _ _ eq_refl Hc) in He. rewrite Ht in He.
    exists c, t. naive_solver. }
  assert (Hfill : chunks_text (fun k => if decide (k ∈ late cs) then final_disp cs k else early_disp cs k) 0 cs
            = ref_text cs).
  { apply chunks_text_ext. intros k c Hc _. simpl. case_decide as Hk; [done|].
    unfold early_disp. destruct (is_late cs k) eqn:Hl; [|done]. exfalso. apply Hk.
    unfold late. apply list_elem_of_In, List.filter_In. rewrite in_seq.
    apply is_late_bound in Hl as ?. split; [lia|done]. }
  setoid_rewrite (resolve_loop_ok cs (late cs) _ _ Hks). rewrite Hfill. naive_solver.
Qed.

(** Compilation succeeds exactly when every instruction has a chunk and every
    branch can be resolved, and then the text is the reference layout. *)
Lemma compile_with_ok program text :
  compile_with lower program = Ok text <->
  exists cs, selected program cs /\
    (forall k c, cs !! k = Some c -> branch_ok cs k c) /\ text = ref_text cs.
Proof.
  assert (Hnew : new (length program) 0 = state_of (length program) []).
  { unfold new, state_of. simpl. by rewrite Nat.sub_0_r. }
  assert (Hrun : compile_with lower program = Ok text <->
    exists s, (_ ← compile_loop lower program (length program) 0; resolve_jumps)
                (new (length program) 0) = (Ok tt, s) /\ text = text_section s).
  { unfold compile_with. set (run := (_ ← compile_loop _ _ _ _; _) _). destruct run as [[[]| |] s]; naive_solver. }
  rewrite Hrun. setoid_rewrite jit_bind_ok. rewrite Hnew.
  pose proof (compile_loop_ok program (length program) []) as Hloop. simpl in Hloop.
  setoid_rewrite (fun x s' => Hloop x s' eq_refl). clear Hrun Hloop Hnew. split.
  - intros (s & (? & ? & (cs & Hlen & Hcs & ->) & Hres) & ->).
    assert (He : forall k c, cs !! k = Some c -> early_ok (length cs) (take k cs) c).
    { intros k c Hc. rewrite Hlen. by apply Hcs. }
    rewrite <- Hlen in Hres. apply (resolve_state_of _ _ _ He) in Hres as [Hl ->].
    exists cs. split_and!; [|by apply branch_ok_split|done].
    split; [done|]. intros k i c Hi Hc. destruct (Hcs k c Hc) as [_ (i' & Hi' & Hs)]. naive_solver.
  - intros (cs & [Hlen Hsel] & Hok & ->). apply branch_ok_split in Hok as [He Hl].
    exists (mkJit (ref_text cs) (pc_section (state_of (length cs) cs)) [] []). split; [|done].
    exists tt, (state_of (length cs) cs). split; [|by apply resolve_state_of].
    exists cs. rewrite <- Hlen. split_and!; [done| |done].
    intros k c Hc. split; [auto|].
    destruct (lookup_lt_is_Some_2 program k) as [i Hi].
    { rewrite <- Hlen. by eapply lookup_lt_Some. }
    eauto.
Qed.
End Refinement.

Section Specification.
Context {P : Profile}.

(** [compile] on model instructions is the two-pass reference: it
    succeeds exactly when every instruction can be selected and every branch
    resolved to an instruction start with a 32-bit displacement, and the text
    is the concatenation of the chunks with their final displacements. *)
Theorem compile_spec (program : list JitInstruction) (text : list byte) :
  compile program = Ok text <->
  exists cs, selected (fun _ i => Ok i) program cs /\
    (forall k c, cs !! k = Some c -> branch_ok cs k c) /\ text = ref_text cs.
Proof. exact (compile_with_ok (fun _ i => Ok i) program text). Qed.

(** the same for [compile_sbpf], which first lowers each sBPF
    instruction at its program counter. *)
Theorem compile_sbpf_spec (program : list Insn) (text : list byte) :
  compile_sbpf program = Ok text <->
  exists cs, selected lower_sbpf_instruction program cs /\
    (forall k c, cs !! k = Some c -> branch_ok cs k c) /\ text = ref_text cs.
Proof. exact (compile_with_ok lower_sbpf_instruction program text). Qed.
End Specification.
