(* ===== verification/InsnBuilder.v ===== *)
(** * The instruction builder: [src/casestudy/sbpf/src/insn_builder.rs]

    [BpfCode] is the program under construction.  A method of it returns a
    builder record that borrows the program and carries an [Insn] with the
    fields set so far; [push] appends the eight bytes of the instruction and
    gives the program back.  The borrow is the record's [_bpf_code] field.  The
    trait [Instruction] is a type class with one instance per record.

    The theorems, in [InsnBuilderFacts], show that the decoder of [ebpf.rs] reads
    back the instructions meant, with the opcodes [ebpf.rs] names. *)

From S2P Require Import Prelude Ebpf Program.

(** ** The enums, with the opcode bits they stand for *)
(** The operand is the immediate or the source register. *)
Inductive Source := Source_Imm | Source_Reg.

Definition Source_u8 (self : Source) : Z :=
  match self with
  | Source_Imm => BPF_IMM
  | Source_Reg => BPF_X
  end.

(** The operation of an arithmetic instruction. *)
Inductive OpBits := Op_Add | Op_Sub | Op_Mul | Op_Div | Op_BitOr | Op_BitAnd | Op_LShift | Op_RShift | Op_Negate | Op_Mod | Op_BitXor | Op_Mov | Op_SignRShift.

Definition OpBits_u8 (self : OpBits) : Z :=
  match self with
  | Op_Add => BPF_ADD
  | Op_Sub => BPF_SUB
  | Op_Mul => BPF_MUL
  | Op_Div => BPF_DIV
  | Op_BitOr => BPF_OR
  | Op_BitAnd => BPF_AND
  | Op_LShift => BPF_LSH
  | Op_RShift => BPF_RSH
  | Op_Negate => BPF_NEG
  | Op_Mod => BPF_MOD
  | Op_BitXor => BPF_XOR
  | Op_Mov => BPF_MOV
  | Op_SignRShift => BPF_ARSH
  end.

(** The operations of the PQR class. *)
Inductive PqrOp := Pqr_Lmul | Pqr_Uhmul | Pqr_Udiv | Pqr_Urem | Pqr_Shmul | Pqr_Sdiv | Pqr_Srem.

Definition PqrOp_u8 (self : PqrOp) : Z :=
  match self with
  | Pqr_Lmul => BPF_LMUL
  | Pqr_Uhmul => BPF_UHMUL
  | Pqr_Udiv => BPF_UDIV
  | Pqr_Urem => BPF_UREM
  | Pqr_Shmul => BPF_SHMUL
  | Pqr_Sdiv => BPF_SDIV
  | Pqr_Srem => BPF_SREM
  end.

(** The width of an arithmetic instruction. *)
Inductive Arch := X64 | X32.

Definition Arch_u8 (self : Arch) : Z :=
  match self with
  | X64 => BPF_ALU64_STORE
  | X32 => BPF_ALU32_LOAD
  end.

(** The byte order of a byte swap. *)
Inductive Endian := Endian_Little | Endian_Big.

Definition Endian_u8 (self : Endian) : Z :=
  match self with
  | Endian_Little => LE
  | Endian_Big => BE
  end.

(** The width of a load or a store. *)
Inductive MemSize := Byte | HalfWord | Word | DoubleWord.

Definition MemSize_u8 (self : MemSize) : Z :=
  match self with
  | Byte => BPF_B
  | HalfWord => BPF_H
  | Word => BPF_W
  | DoubleWord => BPF_DW
  end.

(** The addressing mode of a load. *)
Inductive Addressing := Addr_Imm | Addr_Abs | Addr_Ind | Addr_Mem.

Definition Addressing_u8 (self : Addressing) : Z :=
  match self with
  | Addr_Imm => BPF_IMM
  | Addr_Abs => BPF_ABS
  | Addr_Ind => BPF_IND
  | Addr_Mem => BPF_MEM
  end.

(** The condition of a jump. *)
Inductive Cond := Cond_Abs | Cond_Equals | Cond_Greater | Cond_GreaterEquals | Cond_Lower | Cond_LowerEquals | Cond_BitAnd | Cond_NotEquals | Cond_GreaterSigned | Cond_GreaterEqualsSigned | Cond_LowerSigned | Cond_LowerEqualsSigned.

Definition Cond_u8 (self : Cond) : Z :=
  match self with
  | Cond_Abs => BPF_JA
  | Cond_Equals => BPF_JEQ
  | Cond_Greater => BPF_JGT
  | Cond_GreaterEquals => BPF_JGE
  | Cond_Lower => BPF_JLT
  | Cond_LowerEquals => BPF_JLE
  | Cond_BitAnd => BPF_JSET
  | Cond_NotEquals => BPF_JNE
  | Cond_GreaterSigned => BPF_JSGT
  | Cond_GreaterEqualsSigned => BPF_JSGE
  | Cond_LowerSigned => BPF_JSLT
  | Cond_LowerEqualsSigned => BPF_JSLE
  end.

#[export] Instance Addressing_eq_dec : EqDecision Addressing.
Proof. solve_decision. Defined.

Definition to_v2_encoding (self : MemSize) : Z :=
  match self with
  | Byte => BPF_1B
  | HalfWord => BPF_2B
  | Word => BPF_4B
  | DoubleWord => BPF_8B
  end.

(** ** The program under construction *)
Record BpfCode := mkBpfCode {
  instructions : list byte;
  sbpf_version : SBPFVersion
}.

Definition new (version : SBPFVersion) : BpfCode := mkBpfCode [] version.

(** [into_bytes] of a [BpfCode]: its instructions. *)
Definition code_into_bytes (self : BpfCode) : list byte := instructions self.

(** ** The trait [Instruction] *)
Class Instruction (Self : Type) := {
  opt_code_byte : Self -> Z;
  builder_insn : Self -> Insn;
  with_builder_insn : Self -> Insn -> Self;
  get_dst : Self -> Z;
  get_src : Self -> Z
}.

Section Trait.
Context {Self : Type} `{Instruction Self}.

Definition get_off (self : Self) : Z := off (builder_insn self).
Definition get_imm (self : Self) : Z := imm (builder_insn self).

Definition set_dst (self : Self) (d : Z) : Self :=
  let i := builder_insn self in
  with_builder_insn self (mkInsn (ptr i) (opc i) d (src i) (off i) (imm i)).
Definition set_src (self : Self) (s : Z) : Self :=
  let i := builder_insn self in
  with_builder_insn self (mkInsn (ptr i) (opc i) (dst i) s (off i) (imm i)).
Definition set_off (self : Self) (o : Z) : Self :=
  let i := builder_insn self in
  with_builder_insn self (mkInsn (ptr i) (opc i) (dst i) (src i) o (imm i)).
Definition set_imm (self : Self) (v : Z) : Self :=
  let i := builder_insn self in
  with_builder_insn self (mkInsn (ptr i) (opc i) (dst i) (src i) (off i) v).

(** [into_bytes] of an instruction; [>>] on signed integers is arithmetic. *)
Definition into_bytes (self : Self) : list byte :=
  [ opt_code_byte self;
    Z.lor (as_u 8 (Z.shiftl (get_src self) 4)) (get_dst self);
    as_u 8 (get_off self);
    as_u 8 (Z.shiftr (get_off self) 8);
    as_u 8 (get_imm self);
    as_u 8 (Z.shiftr (get_imm self) 8);
    as_u 8 (Z.shiftr (get_imm self) 16);
    as_u 8 (Z.shiftr (get_imm self) 24) ].

(** The body every [push] has: [Vec::append] on the borrowed program. *)
Definition append_insn (code : BpfCode) (self : Self) : BpfCode :=
  mkBpfCode (instructions code ++ into_bytes self) (sbpf_version code).
End Trait.

(** ** The builder records *)
(** *** Move: [MOV ALU] instructions *)
Record Move := mkMove {
  Move_bpf_code : BpfCode;
  Move_src_bit : Source;
  Move_op_bits : OpBits;
  Move_arch_bits : Arch;
  Move_insn : Insn
}.

Definition Move_opt_code_byte (self : Move) : Z :=
  Z.lor (Z.lor (OpBits_u8 (Move_op_bits self)) (Source_u8 (Move_src_bit self)))
        (Arch_u8 (Move_arch_bits self)).

Definition Move_with_insn (self : Move) (i : Insn) : Move :=
  mkMove (Move_bpf_code self) (Move_src_bit self) (Move_op_bits self) (Move_arch_bits self) i.

#[export] Instance Move_Instruction : Instruction Move := {|
  opt_code_byte := Move_opt_code_byte;
  builder_insn := Move_insn;
  with_builder_insn := Move_with_insn;
  get_dst := (fun self => dst (Move_insn self));
  get_src := (fun self => src (Move_insn self))
|}.

Definition Move_push (self : Move) : BpfCode :=
  append_insn (Move_bpf_code self) self.

(** *** Pqr: product, quotient and remainder instructions *)
Record Pqr := mkPqr {
  Pqr_bpf_code : BpfCode;
  Pqr_src_bit : Source;
  Pqr_op : PqrOp;
  Pqr_arch_bits : Arch;
  Pqr_insn : Insn
}.

Definition Pqr_opt_code_byte (self : Pqr) : Z :=
  let arch_size_bit := match Pqr_arch_bits self with X64 => BPF_B | X32 => 0 end in
  Z.lor (Z.lor (Z.lor BPF_PQR (PqrOp_u8 (Pqr_op self))) (Source_u8 (Pqr_src_bit self)))
        arch_size_bit.

Definition Pqr_with_insn (self : Pqr) (i : Insn) : Pqr :=
  mkPqr (Pqr_bpf_code self) (Pqr_src_bit self) (Pqr_op self) (Pqr_arch_bits self) i.

#[export] Instance Pqr_Instruction : Instruction Pqr := {|
  opt_code_byte := Pqr_opt_code_byte;
  builder_insn := Pqr_insn;
  with_builder_insn := Pqr_with_insn;
  get_dst := (fun self => dst (Pqr_insn self));
  get_src := (fun self => src (Pqr_insn self))
|}.

Definition Pqr_push (self : Pqr) : BpfCode :=
  append_insn (Pqr_bpf_code self) self.

(** *** SwapBytes: byte swaps *)
Record SwapBytes := mkSwapBytes {
  SwapBytes_bpf_code : BpfCode;
  SwapBytes_endian : Endian;
  SwapBytes_insn : Insn
}.

Definition SwapBytes_opt_code_byte (self : SwapBytes) : Z :=
  Endian_u8 (SwapBytes_endian self).

Definition SwapBytes_with_insn (self : SwapBytes) (i : Insn) : SwapBytes :=
  mkSwapBytes (SwapBytes_bpf_code self) (SwapBytes_endian self) i.

#[export] Instance SwapBytes_Instruction : Instruction SwapBytes := {|
  opt_code_byte := SwapBytes_opt_code_byte;
  builder_insn := SwapBytes_insn;
  with_builder_insn := SwapBytes_with_insn;
  get_dst := (fun self => dst (SwapBytes_insn self));
  get_src := (fun self => src (SwapBytes_insn self))
|}.

Definition SwapBytes_push (self : SwapBytes) : BpfCode :=
  append_insn (SwapBytes_bpf_code self) self.

(** *** Load: loads *)
Record Load := mkLoad {
  Load_bpf_code : BpfCode;
  Load_addressing : Addressing;
  Load_mem_size : MemSize;
  Load_source : Z;
  Load_insn : Insn
}.

Definition Load_opt_code_byte (self : Load) : Z :=
  if move_memory_instruction_classes (sbpf_version (Load_bpf_code self)) &&
     bool_decide (Load_addressing self = Addr_Mem) && (Load_source self =? BPF_LDX)
  then Z.lor (Z.lor BPF_ALU32_LOAD BPF_X) (to_v2_encoding (Load_mem_size self))
  else Z.lor (Z.lor (Addressing_u8 (Load_addressing self)) (MemSize_u8 (Load_mem_size self)))
             (Load_source self).

Definition Load_with_insn (self : Load) (i : Insn) : Load :=
  mkLoad (Load_bpf_code self) (Load_addressing self) (Load_mem_size self) (Load_source self) i.

#[export] Instance Load_Instruction : Instruction Load := {|
  opt_code_byte := Load_opt_code_byte;
  builder_insn := Load_insn;
  with_builder_insn := Load_with_insn;
  get_dst := (fun self => dst (Load_insn self));
  get_src := (fun self => src (Load_insn self))
|}.

Definition Load_push (self : Load) : BpfCode :=
  append_insn (Load_bpf_code self) self.

(** *** Store: stores *)
Record Store := mkStore {
  Store_bpf_code : BpfCode;
  Store_mem_size : MemSize;
  Store_source : Z;
  Store_insn : Insn
}.

Definition Store_opt_code_byte (self : Store) : Z :=
  if move_memory_instruction_classes (sbpf_version (Store_bpf_code self))
  then let v2_source := if Store_source self =? BPF_IMM then BPF_K else BPF_X in
       Z.lor (Z.lor BPF_ALU64_STORE v2_source) (to_v2_encoding (Store_mem_size self))
  else Z.lor (Z.lor (Z.lor BPF_MEM BPF_ST) (MemSize_u8 (Store_mem_size self)))
             (Store_source self).

Definition Store_with_insn (self : Store) (i : Insn) : Store :=
  mkStore (Store_bpf_code self) (Store_mem_size self) (Store_source self) i.

#[export] Instance Store_Instruction : Instruction Store := {|
  opt_code_byte := Store_opt_code_byte;
  builder_insn := Store_insn;
  with_builder_insn := Store_with_insn;
  get_dst := (fun self => dst (Store_insn self));
  get_src := (fun self => src (Store_insn self))
|}.

Definition Store_push (self : Store) : BpfCode :=
  append_insn (Store_bpf_code self) self.

(** *** Jump: 64-bit jumps *)
Record Jump := mkJump {
  Jump_bpf_code : BpfCode;
  Jump_cond : Cond;
  Jump_src_bit : Source;
  Jump_insn : Insn
}.

Definition Jump_opt_code_byte (self : Jump) : Z :=
  Z.lor (Z.lor (Cond_u8 (Jump_cond self)) (Source_u8 (Jump_src_bit self))) BPF_JMP64.

Definition Jump_with_insn (self : Jump) (i : Insn) : Jump :=
  mkJump (Jump_bpf_code self) (Jump_cond self) (Jump_src_bit self) i.

#[export] Instance Jump_Instruction : Instruction Jump := {|
  opt_code_byte := Jump_opt_code_byte;
  builder_insn := Jump_insn;
  with_builder_insn := Jump_with_insn;
  get_dst := (fun self => dst (Jump_insn self));
  get_src := (fun self => src (Jump_insn self))
|}.

Definition Jump_push (self : Jump) : BpfCode :=
  append_insn (Jump_bpf_code self) self.

(** *** Jump32: 32-bit jumps *)
Record Jump32 := mkJump32 {
  Jump32_bpf_code : BpfCode;
  Jump32_cond : Cond;
  Jump32_src_bit : Source;
  Jump32_insn : Insn
}.

Definition Jump32_opt_code_byte (self : Jump32) : Z :=
  Z.lor (Z.lor (Cond_u8 (Jump32_cond self)) (Source_u8 (Jump32_src_bit self))) BPF_JMP32.

Definition Jump32_with_insn (self : Jump32) (i : Insn) : Jump32 :=
  mkJump32 (Jump32_bpf_code self) (Jump32_cond self) (Jump32_src_bit self) i.

#[export] Instance Jump32_Instruction : Instruction Jump32 := {|
  opt_code_byte := Jump32_opt_code_byte;
  builder_insn := Jump32_insn;
  with_builder_insn := Jump32_with_insn;
  get_dst := (fun self => dst (Jump32_insn self));
  get_src := (fun self => src (Jump32_insn self))
|}.

Definition Jump32_push (self : Jump32) : BpfCode :=
  append_insn (Jump32_bpf_code self) self.

(** *** Hor64: [HOR64_IMM] *)
Record Hor64 := mkHor64 {
  Hor64_bpf_code : BpfCode;
  Hor64_insn : Insn
}.

Definition Hor64_opt_code_byte (self : Hor64) : Z :=
  HOR64_IMM.

Definition Hor64_with_insn (self : Hor64) (i : Insn) : Hor64 :=
  mkHor64 (Hor64_bpf_code self) i.

#[export] Instance Hor64_Instruction : Instruction Hor64 := {|
  opt_code_byte := Hor64_opt_code_byte;
  builder_insn := Hor64_insn;
  with_builder_insn := Hor64_with_insn;
  get_dst := (fun self => dst (Hor64_insn self));
  get_src := (fun self => src (Hor64_insn self))
|}.

Definition Hor64_push (self : Hor64) : BpfCode :=
  append_insn (Hor64_bpf_code self) self.

(** *** FunctionCall: calls *)
Record FunctionCall := mkFunctionCall {
  FunctionCall_bpf_code : BpfCode;
  FunctionCall_is_reg : bool;
  FunctionCall_insn : Insn
}.

Definition FunctionCall_opt_code_byte (self : FunctionCall) : Z :=
  if FunctionCall_is_reg self
  then Z.lor (Z.lor BPF_CALL BPF_X) BPF_JMP64
  else Z.lor BPF_CALL BPF_JMP64.

Definition FunctionCall_with_insn (self : FunctionCall) (i : Insn) : FunctionCall :=
  mkFunctionCall (FunctionCall_bpf_code self) (FunctionCall_is_reg self) i.

Definition FunctionCall_get_src (self : FunctionCall) : Z :=
  let version := sbpf_version (FunctionCall_bpf_code self) in
  if FunctionCall_is_reg self
  then if callx_uses_src_reg version then src (FunctionCall_insn self)
       else if callx_uses_dst_reg version then 0
       else 0
  else if static_syscalls version then src (FunctionCall_insn self)
       else 0.

Definition FunctionCall_get_dst (self : FunctionCall) : Z :=
  let version := sbpf_version (FunctionCall_bpf_code self) in
  if FunctionCall_is_reg self
  then if callx_uses_dst_reg version then dst (FunctionCall_insn self) else 0
  else 0.

#[export] Instance FunctionCall_Instruction : Instruction FunctionCall := {|
  opt_code_byte := FunctionCall_opt_code_byte;
  builder_insn := FunctionCall_insn;
  with_builder_insn := FunctionCall_with_insn;
  get_dst := FunctionCall_get_dst;
  get_src := FunctionCall_get_src
|}.

Definition FunctionCall_push (self : FunctionCall) : BpfCode :=
  append_insn (FunctionCall_bpf_code self) self.

(** *** Exit: [EXIT] *)
Record Exit := mkExit {
  Exit_bpf_code : BpfCode;
  Exit_insn : Insn
}.

Definition Exit_opt_code_byte (self : Exit) : Z :=
  Z.lor BPF_EXIT BPF_JMP64.

Definition Exit_with_insn (self : Exit) (i : Insn) : Exit :=
  mkExit (Exit_bpf_code self) i.

#[export] Instance Exit_Instruction : Instruction Exit := {|
  opt_code_byte := Exit_opt_code_byte;
  builder_insn := Exit_insn;
  with_builder_insn := Exit_with_insn;
  get_dst := (fun self => dst (Exit_insn self));
  get_src := (fun self => src (Exit_insn self))
|}.

Definition Exit_push (self : Exit) : BpfCode :=
  append_insn (Exit_bpf_code self) self.

(** ** The methods of [BpfCode] *)
Definition mov_internal (self : BpfCode) (source : Source) (arch_bits : Arch)
    (op_bits : OpBits) : Move :=
  mkMove self source op_bits arch_bits Insn_default.

Definition add (self : BpfCode) (source : Source) (arch : Arch) : Move :=
  mov_internal self source arch Op_Add.

Definition sub (self : BpfCode) (source : Source) (arch : Arch) : Move :=
  mov_internal self source arch Op_Sub.

Definition mul (self : BpfCode) (source : Source) (arch : Arch) : Move :=
  mov_internal self source arch Op_Mul.

Definition div (self : BpfCode) (source : Source) (arch : Arch) : Move :=
  mov_internal self source arch Op_Div.

Definition bit_or (self : BpfCode) (source : Source) (arch : Arch) : Move :=
  mov_internal self source arch Op_BitOr.

Definition bit_and (self : BpfCode) (source : Source) (arch : Arch) : Move :=
  mov_internal self source arch Op_BitAnd.

Definition left_shift (self : BpfCode) (source : Source) (arch : Arch) : Move :=
  mov_internal self source arch Op_LShift.

Definition right_shift (self : BpfCode) (source : Source) (arch : Arch) : Move :=
  mov_internal self source arch Op_RShift.

Definition modulo (self : BpfCode) (source : Source) (arch : Arch) : Move :=
  mov_internal self source arch Op_Mod.

Definition bit_xor (self : BpfCode) (source : Source) (arch : Arch) : Move :=
  mov_internal self source arch Op_BitXor.

Definition mov (self : BpfCode) (source : Source) (arch : Arch) : Move :=
  mov_internal self source arch Op_Mov.

Definition signed_right_shift (self : BpfCode) (source : Source) (arch : Arch) : Move :=
  mov_internal self source arch Op_SignRShift.

Definition negate (self : BpfCode) (arch : Arch) : Move :=
  mov_internal self Source_Imm arch Op_Negate.

Definition builder_swap_bytes (self : BpfCode) (endian : Endian) : SwapBytes :=
  mkSwapBytes self endian Insn_default.

Definition load_internal (self : BpfCode) (mem_size : MemSize) (addressing : Addressing)
    (source : Z) : Load :=
  mkLoad self addressing mem_size source Insn_default.

Definition load (self : BpfCode) (mem_size : MemSize) : Load :=
  load_internal self mem_size Addr_Imm BPF_LD.

Definition load_abs (self : BpfCode) (mem_size : MemSize) : Load :=
  load_internal self mem_size Addr_Abs BPF_LD.

Definition load_ind (self : BpfCode) (mem_size : MemSize) : Load :=
  load_internal self mem_size Addr_Ind BPF_LD.

Definition load_x (self : BpfCode) (mem_size : MemSize) : Load :=
  load_internal self mem_size Addr_Mem BPF_LDX.

Definition store_internal (self : BpfCode) (mem_size : MemSize) (source : Z) : Store :=
  mkStore self mem_size source Insn_default.

Definition store (self : BpfCode) (mem_size : MemSize) : Store :=
  store_internal self mem_size BPF_IMM.

Definition store_x (self : BpfCode) (mem_size : MemSize) : Store :=
  store_internal self mem_size (Z.lor BPF_MEM BPF_STX).

Definition jump_conditional (self : BpfCode) (cond : Cond) (src_bit : Source) : Jump :=
  mkJump self cond src_bit Insn_default.

Definition jump_unconditional (self : BpfCode) : Jump :=
  jump_conditional self Cond_Abs Source_Imm.

Definition call (self : BpfCode) : FunctionCall := mkFunctionCall self false Insn_default.

Definition builder_call_reg (self : BpfCode) : FunctionCall :=
  mkFunctionCall self true Insn_default.

Definition pqr (self : BpfCode) (source : Source) (arch : Arch) (op : PqrOp) : Pqr :=
  mkPqr self source op arch Insn_default.

Definition jump_conditional_32 (self : BpfCode) (cond : Cond) (src_bit : Source) : Jump32 :=
  mkJump32 self cond src_bit Insn_default.

Definition hor64_imm (self : BpfCode) : Hor64 := mkHor64 self Insn_default.

Definition exit (self : BpfCode) : Exit := mkExit self Insn_default.
