(* ===== verification/InsnBuilderFacts.v ===== *)
(** * The instruction builder is faithful to the instruction format

    [pushed] is one method of the builder, a chain of setters and a [push], with
    the instruction meant: the opcode [ebpf.rs] names for the operation and the
    fields set.  [builds] are the programs a sequence of them makes.  The bytes
    of such a program are the [to_array] encodings of those instructions, so the
    decoder reads them back. *)

From S2P Require Import Prelude Ebpf Program InsnBuilder.

(** ** The opcodes [ebpf.rs] names, operation by operation *)
(** The constants [ebpf.rs] names for the 64-bit operations; negation has one form. *)
Definition alu64_opcode (op : OpBits) (s : Source) : Z :=
  match op, s with
  | Op_Add, Source_Imm => ADD64_IMM
  | Op_Add, Source_Reg => ADD64_REG
  | Op_Sub, Source_Imm => SUB64_IMM
  | Op_Sub, Source_Reg => SUB64_REG
  | Op_Mul, Source_Imm => MUL64_IMM
  | Op_Mul, Source_Reg => MUL64_REG
  | Op_Div, Source_Imm => DIV64_IMM
  | Op_Div, Source_Reg => DIV64_REG
  | Op_BitOr, Source_Imm => OR64_IMM
  | Op_BitOr, Source_Reg => OR64_REG
  | Op_BitAnd, Source_Imm => AND64_IMM
  | Op_BitAnd, Source_Reg => AND64_REG
  | Op_LShift, Source_Imm => LSH64_IMM
  | Op_LShift, Source_Reg => LSH64_REG
  | Op_RShift, Source_Imm => RSH64_IMM
  | Op_RShift, Source_Reg => RSH64_REG
  | Op_Mod, Source_Imm => MOD64_IMM
  | Op_Mod, Source_Reg => MOD64_REG
  | Op_BitXor, Source_Imm => XOR64_IMM
  | Op_BitXor, Source_Reg => XOR64_REG
  | Op_Mov, Source_Imm => MOV64_IMM
  | Op_Mov, Source_Reg => MOV64_REG
  | Op_SignRShift, Source_Imm => ARSH64_IMM
  | Op_SignRShift, Source_Reg => ARSH64_REG
  | Op_Negate, _ => NEG64
  end.

(** The constants [ebpf.rs] names for the 32-bit operations; negation has one form. *)
Definition alu32_opcode (op : OpBits) (s : Source) : Z :=
  match op, s with
  | Op_Add, Source_Imm => ADD32_IMM
  | Op_Add, Source_Reg => ADD32_REG
  | Op_Sub, Source_Imm => SUB32_IMM
  | Op_Sub, Source_Reg => SUB32_REG
  | Op_Mul, Source_Imm => MUL32_IMM
  | Op_Mul, Source_Reg => MUL32_REG
  | Op_Div, Source_Imm => DIV32_IMM
  | Op_Div, Source_Reg => DIV32_REG
  | Op_BitOr, Source_Imm => OR32_IMM
  | Op_BitOr, Source_Reg => OR32_REG
  | Op_BitAnd, Source_Imm => AND32_IMM
  | Op_BitAnd, Source_Reg => AND32_REG
  | Op_LShift, Source_Imm => LSH32_IMM
  | Op_LShift, Source_Reg => LSH32_REG
  | Op_RShift, Source_Imm => RSH32_IMM
  | Op_RShift, Source_Reg => RSH32_REG
  | Op_Mod, Source_Imm => MOD32_IMM
  | Op_Mod, Source_Reg => MOD32_REG
  | Op_BitXor, Source_Imm => XOR32_IMM
  | Op_BitXor, Source_Reg => XOR32_REG
  | Op_Mov, Source_Imm => MOV32_IMM
  | Op_Mov, Source_Reg => MOV32_REG
  | Op_SignRShift, Source_Imm => ARSH32_IMM
  | Op_SignRShift, Source_Reg => ARSH32_REG
  | Op_Negate, _ => NEG32
  end.

(** Only the 64-bit class has high multiplications. *)
Definition pqr_opcode (op : PqrOp) (s : Source) (a : Arch) : option Z :=
  match a, op, s with
  | X64, Pqr_Lmul, Source_Imm => Some LMUL64_IMM
  | X64, Pqr_Lmul, Source_Reg => Some LMUL64_REG
  | X64, Pqr_Udiv, Source_Imm => Some UDIV64_IMM
  | X64, Pqr_Udiv, Source_Reg => Some UDIV64_REG
  | X64, Pqr_Urem, Source_Imm => Some UREM64_IMM
  | X64, Pqr_Urem, Source_Reg => Some UREM64_REG
  | X64, Pqr_Sdiv, Source_Imm => Some SDIV64_IMM
  | X64, Pqr_Sdiv, Source_Reg => Some SDIV64_REG
  | X64, Pqr_Srem, Source_Imm => Some SREM64_IMM
  | X64, Pqr_Srem, Source_Reg => Some SREM64_REG
  | X64, Pqr_Uhmul, Source_Imm => Some UHMUL64_IMM
  | X64, Pqr_Uhmul, Source_Reg => Some UHMUL64_REG
  | X64, Pqr_Shmul, Source_Imm => Some SHMUL64_IMM
  | X64, Pqr_Shmul, Source_Reg => Some SHMUL64_REG
  | X32, Pqr_Lmul, Source_Imm => Some LMUL32_IMM
  | X32, Pqr_Lmul, Source_Reg => Some LMUL32_REG
  | X32, Pqr_Udiv, Source_Imm => Some UDIV32_IMM
  | X32, Pqr_Udiv, Source_Reg => Some UDIV32_REG
  | X32, Pqr_Urem, Source_Imm => Some UREM32_IMM
  | X32, Pqr_Urem, Source_Reg => Some UREM32_REG
  | X32, Pqr_Sdiv, Source_Imm => Some SDIV32_IMM
  | X32, Pqr_Sdiv, Source_Reg => Some SDIV32_REG
  | X32, Pqr_Srem, Source_Imm => Some SREM32_IMM
  | X32, Pqr_Srem, Source_Reg => Some SREM32_REG
  | _, _, _ => None
  end.

Definition jump64_opcode (cond : Cond) (s : Source) : option Z :=
  match cond, s with
  | Cond_Equals, Source_Imm => Some JEQ64_IMM
  | Cond_Equals, Source_Reg => Some JEQ64_REG
  | Cond_Greater, Source_Imm => Some JGT64_IMM
  | Cond_Greater, Source_Reg => Some JGT64_REG
  | Cond_GreaterEquals, Source_Imm => Some JGE64_IMM
  | Cond_GreaterEquals, Source_Reg => Some JGE64_REG
  | Cond_Lower, Source_Imm => Some JLT64_IMM
  | Cond_Lower, Source_Reg => Some JLT64_REG
  | Cond_LowerEquals, Source_Imm => Some JLE64_IMM
  | Cond_LowerEquals, Source_Reg => Some JLE64_REG
  | Cond_BitAnd, Source_Imm => Some JSET64_IMM
  | Cond_BitAnd, Source_Reg => Some JSET64_REG
  | Cond_NotEquals, Source_Imm => Some JNE64_IMM
  | Cond_NotEquals, Source_Reg => Some JNE64_REG
  | Cond_GreaterSigned, Source_Imm => Some JSGT64_IMM
  | Cond_GreaterSigned, Source_Reg => Some JSGT64_REG
  | Cond_GreaterEqualsSigned, Source_Imm => Some JSGE64_IMM
  | Cond_GreaterEqualsSigned, Source_Reg => Some JSGE64_REG
  | Cond_LowerSigned, Source_Imm => Some JSLT64_IMM
  | Cond_LowerSigned, Source_Reg => Some JSLT64_REG
  | Cond_LowerEqualsSigned, Source_Imm => Some JSLE64_IMM
  | Cond_LowerEqualsSigned, Source_Reg => Some JSLE64_REG
  | Cond_Abs, Source_Imm => Some JA
  | Cond_Abs, _ => None
  end.

Definition jump32_opcode (cond : Cond) (s : Source) : option Z :=
  match cond, s with
  | Cond_Equals, Source_Imm => Some JEQ32_IMM
  | Cond_Equals, Source_Reg => Some JEQ32_REG
  | Cond_Greater, Source_Imm => Some JGT32_IMM
  | Cond_Greater, Source_Reg => Some JGT32_REG
  | Cond_GreaterEquals, Source_Imm => Some JGE32_IMM
  | Cond_GreaterEquals, Source_Reg => Some JGE32_REG
  | Cond_Lower, Source_Imm => Some JLT32_IMM
  | Cond_Lower, Source_Reg => Some JLT32_REG
  | Cond_LowerEquals, Source_Imm => Some JLE32_IMM
  | Cond_LowerEquals, Source_Reg => Some JLE32_REG
  | Cond_BitAnd, Source_Imm => Some JSET32_IMM
  | Cond_BitAnd, Source_Reg => Some JSET32_REG
  | Cond_NotEquals, Source_Imm => Some JNE32_IMM
  | Cond_NotEquals, Source_Reg => Some JNE32_REG
  | Cond_GreaterSigned, Source_Imm => Some JSGT32_IMM
  | Cond_GreaterSigned, Source_Reg => Some JSGT32_REG
  | Cond_GreaterEqualsSigned, Source_Imm => Some JSGE32_IMM
  | Cond_GreaterEqualsSigned, Source_Reg => Some JSGE32_REG
  | Cond_LowerSigned, Source_Imm => Some JSLT32_IMM
  | Cond_LowerSigned, Source_Reg => Some JSLT32_REG
  | Cond_LowerEqualsSigned, Source_Imm => Some JSLE32_IMM
  | Cond_LowerEqualsSigned, Source_Reg => Some JSLE32_REG
  | Cond_Abs, _ => None
  end.

Definition load_reg_opcode (v : SBPFVersion) (m : MemSize) : Z :=
  match move_memory_instruction_classes v, m with
  | false, Byte => LD_B_REG
  | true, Byte => LD_1B_REG
  | false, HalfWord => LD_H_REG
  | true, HalfWord => LD_2B_REG
  | false, Word => LD_W_REG
  | true, Word => LD_4B_REG
  | false, DoubleWord => LD_DW_REG
  | true, DoubleWord => LD_8B_REG
  end.

Definition store_imm_opcode (v : SBPFVersion) (m : MemSize) : Z :=
  match move_memory_instruction_classes v, m with
  | false, Byte => ST_B_IMM
  | true, Byte => ST_1B_IMM
  | false, HalfWord => ST_H_IMM
  | true, HalfWord => ST_2B_IMM
  | false, Word => ST_W_IMM
  | true, Word => ST_4B_IMM
  | false, DoubleWord => ST_DW_IMM
  | true, DoubleWord => ST_8B_IMM
  end.

Definition store_reg_opcode (v : SBPFVersion) (m : MemSize) : Z :=
  match move_memory_instruction_classes v, m with
  | false, Byte => ST_B_REG
  | true, Byte => ST_1B_REG
  | false, HalfWord => ST_H_REG
  | true, HalfWord => ST_2B_REG
  | false, Word => ST_W_REG
  | true, Word => ST_4B_REG
  | false, DoubleWord => ST_DW_REG
  | true, DoubleWord => ST_8B_REG
  end.

Definition alu_opcode (a : Arch) (op : OpBits) (s : Source) : Z :=
  match a with X64 => alu64_opcode op s | X32 => alu32_opcode op s end.

(** ** What is meant by a push *)
(** The method of an arithmetic operation; negation takes no source. *)
Definition alu_method (op : OpBits) (c : BpfCode) (s : Source) (a : Arch) : Move :=
  match op with
  | Op_Add => add c s a
  | Op_Sub => sub c s a
  | Op_Mul => mul c s a
  | Op_Div => div c s a
  | Op_BitOr => bit_or c s a
  | Op_BitAnd => bit_and c s a
  | Op_LShift => left_shift c s a
  | Op_RShift => right_shift c s a
  | Op_Negate => negate c a
  | Op_Mod => modulo c s a
  | Op_BitXor => bit_xor c s a
  | Op_Mov => mov c s a
  | Op_SignRShift => signed_right_shift c s a
  end.

(** A chain of setters, and the instruction with an opcode it describes: a field
    has the value set last, or zero. *)
Inductive setter := SetDst (d : Z) | SetSrc (s : Z) | SetOff (o : Z) | SetImm (v : Z).

Definition set_field {Self} `{Instruction Self} (self : Self) (f : setter) : Self :=
  match f with SetDst d => set_dst self d | SetSrc s => set_src self s
             | SetOff o => set_off self o | SetImm v => set_imm self v end.
Definition set_fields {Self} `{Instruction Self} (self : Self) (l : list setter) : Self := foldl set_field self l.

Definition described (o : Z) (l : list setter) : Insn :=
  foldl (fun i f => match f with
    | SetDst d => mkInsn 0 o d (src i) (off i) (imm i)
    | SetSrc s => mkInsn 0 o (dst i) s (off i) (imm i)
    | SetOff z => mkInsn 0 o (dst i) (src i) z (imm i)
    | SetImm v => mkInsn 0 o (dst i) (src i) (off i) v
    end) (mkInsn 0 o 0 0 0 0) l.

(** The registers a call has room for: a syscall or call by immediate marks its
    kind in the source register from version 3 on, and the register of a call by
    register is the source in version 2, the destination from version 3 on, and
    before that part of the immediate. *)
Definition call_described (v : SBPFVersion) (l : list setter) : Insn :=
  let i := described CALL_IMM l in
  mkInsn 0 CALL_IMM 0 (match v with V0 | V1 | V2 => 0 | _ => src i end) (off i) (imm i).
Definition call_reg_described (v : SBPFVersion) (l : list setter) : Insn :=
  let i := described CALL_REG l in
  mkInsn 0 CALL_REG (match v with V0 | V1 | V2 => 0 | _ => dst i end)
    (match v with V2 => src i | _ => 0 end) (off i) (imm i).

(** One method, a chain of setters and a [push], with the instruction meant. *)
Inductive pushed (c : BpfCode) : Insn -> BpfCode -> Prop :=
| push_alu op s a l : pushed c (described (alu_opcode a op s) l) (Move_push (set_fields (alu_method op c s a) l))
| push_pqr op s a o l : pqr_opcode op s a = Some o ->
    pushed c (described o l) (Pqr_push (set_fields (pqr c s a op) l))
| push_little l : pushed c (described LE l) (SwapBytes_push (set_fields (builder_swap_bytes c Endian_Little) l))
| push_big l : pushed c (described BE l) (SwapBytes_push (set_fields (builder_swap_bytes c Endian_Big) l))
| push_load_dw l : pushed c (described LD_DW_IMM l) (Load_push (set_fields (load c DoubleWord) l))
| push_load_x m l : pushed c (described (load_reg_opcode (sbpf_version c) m) l) (Load_push (set_fields (load_x c m) l))
| push_store m l : pushed c (described (store_imm_opcode (sbpf_version c) m) l) (Store_push (set_fields (store c m) l))
| push_store_x m l :
    pushed c (described (store_reg_opcode (sbpf_version c) m) l) (Store_push (set_fields (store_x c m) l))
| push_jump cond s o l : jump64_opcode cond s = Some o ->
    pushed c (described o l) (Jump_push (set_fields (jump_conditional c cond s) l))
| push_ja l : pushed c (described JA l) (Jump_push (set_fields (jump_unconditional c) l))
| push_jump32 cond s o l : jump32_opcode cond s = Some o ->
    pushed c (described o l) (Jump32_push (set_fields (jump_conditional_32 c cond s) l))
| push_hor64 l : pushed c (described HOR64_IMM l) (Hor64_push (set_fields (hor64_imm c) l))
| push_call l : pushed c (call_described (sbpf_version c) l) (FunctionCall_push (set_fields (call c) l))
| push_call_reg l : pushed c (call_reg_described (sbpf_version c) l) (FunctionCall_push (set_fields (builder_call_reg c) l))
| push_exit l : pushed c (described EXIT l) (Exit_push (set_fields (exit c) l)).

(** A program made by pushes of instructions in range: registers of four bits,
    an offset of sixteen, an immediate of thirty-two. *)
Inductive builds (v : SBPFVersion) : BpfCode -> list Insn -> Prop :=
| builds_new : builds v (new v) []
| builds_push c l i c' :
    builds v c l -> pushed c i c' -> wf_insn i -> builds v c' (l ++ [i]).

(** ** Builder records *)
(** The instruction in a record is set without touching the rest. *)
Class InstructionLaws (Self : Type) `{Instruction Self} : Prop := {
  with_insn_id : forall self : Self, with_builder_insn self (builder_insn self) = self;
  with_insn_insn : forall (self : Self) i, builder_insn (with_builder_insn self i) = i;
  with_insn_with : forall (self : Self) i j, with_builder_insn (with_builder_insn self i) j = with_builder_insn self j
}.

Ltac builder_laws := split; [by intros []|done..].
#[export] Instance Move_laws : InstructionLaws Move.
Proof. builder_laws. Qed.
#[export] Instance Pqr_laws : InstructionLaws Pqr.
Proof. builder_laws. Qed.
#[export] Instance SwapBytes_laws : InstructionLaws SwapBytes.
Proof. builder_laws. Qed.
#[export] Instance Load_laws : InstructionLaws Load.
Proof. builder_laws. Qed.
#[export] Instance Store_laws : InstructionLaws Store.
Proof. builder_laws. Qed.
#[export] Instance Jump_laws : InstructionLaws Jump.
Proof. builder_laws. Qed.
#[export] Instance Jump32_laws : InstructionLaws Jump32.
Proof. builder_laws. Qed.
#[export] Instance Hor64_laws : InstructionLaws Hor64.
Proof. builder_laws. Qed.
#[export] Instance FunctionCall_laws : InstructionLaws FunctionCall.
Proof. builder_laws. Qed.
#[export] Instance Exit_laws : InstructionLaws Exit.
Proof. builder_laws. Qed.

(** A chain of setters leaves the fields described. *)
Lemma set_fields_described {Self} `{InstructionLaws Self} (self : Self) o l : builder_insn self = Insn_default ->
  exists i, set_fields self l = with_builder_insn self i /\
    dst i = dst (described o l) /\ src i = src (described o l) /\
    off i = off (described o l) /\ imm i = imm (described o l).
Proof.
  intros Hb. unfold set_fields, described. induction l as [|f l IH] using rev_ind.
  - exists Insn_default. rewrite <- Hb at 1. by rewrite with_insn_id.
  - destruct IH as (i & Hi & Hd & Hs & Ho & Him). rewrite !foldl_app. cbn [foldl]. rewrite Hi.
    destruct f as [z|z|z|z]; cbn [set_field]; unfold set_dst, set_src, set_off, set_imm;
      rewrite with_insn_insn, with_insn_with; eexists; (split; [reflexivity|]); cbn; auto.
Qed.

Lemma described_rest o l : ptr (described o l) = 0 /\ opc (described o l) = o.
Proof. unfold described. induction l as [|f l _] using rev_ind; [done|]. rewrite foldl_app. by destruct f. Qed.

(** The instruction a builder record stands for. *)
Definition encoded {Self} `{Instruction Self} (self : Self) : Insn :=
  mkInsn 0 (opt_code_byte self) (get_dst self) (get_src self) (get_off self) (get_imm self).

Lemma described_eq o l : described o l =
  mkInsn 0 o (dst (described o l)) (src (described o l)) (off (described o l)) (imm (described o l)).
Proof. destruct (described_rest o l) as [Hp Ho]. destruct (described o l). cbn in *. by subst. Qed.

(** The bytes [into_bytes] writes are those [to_array] writes. *)
Lemma into_bytes_to_array {Self} `{Instruction Self} (self : Self) :
  wf_insn (encoded self) -> into_bytes self = to_array (encoded self).
Proof.
  intros Hwf. rewrite (to_array_le _ Hwf). destruct Hwf as [_ Hd Hs _ _].
  unfold encoded, is_u in *. cbn [opc dst src off imm] in *. unfold into_bytes.
  rewrite Z.shiftl_mul_pow2 by lia.
  rewrite (as_u_small 8 (get_src self * 2 ^ 4)) by (unfold is_u; lia).
  rewrite lor_disjoint_add by lia. rewrite !Z.shiftr_div_pow2 by lia.
  unfold as_u. cbn [le_bytes app].
  repeat (apply (f_equal2 cons)); try done; clear; Z.to_euclidean_division_equations; lia.
Qed.

(** A push after a chain of setters appends the instruction of the builder. *)
Lemma append_fields {Self} `{InstructionLaws Self} (self : Self) (code : Self -> BpfCode) o l c j :
  builder_insn self = Insn_default -> (forall i, code (with_builder_insn self i) = c) ->
  (forall i, dst i = dst (described o l) -> src i = src (described o l) -> off i = off (described o l) ->
     imm i = imm (described o l) -> encoded (with_builder_insn self i) = j) -> wf_insn j ->
  let c' := append_insn (code (set_fields self l)) (set_fields self l) in
  instructions c' = instructions c ++ to_array j /\ sbpf_version c' = sbpf_version c.
Proof.
  intros Hb Hc Hj Hwf. destruct (set_fields_described self o l Hb) as (i & -> & Hd & Hs & Ho & Hi).
  specialize (Hj i Hd Hs Ho Hi). subst j. cbn. rewrite (Hc i). split; [|done].
  exact (f_equal (app _) (into_bytes_to_array _ Hwf)).
Qed.

(** The methods with room for both registers. *)
Lemma append_described {Self} `{InstructionLaws Self} (self : Self) (code : Self -> BpfCode) o l c :
  builder_insn self = Insn_default -> (forall i, code (with_builder_insn self i) = c) ->
  (forall i, opt_code_byte (with_builder_insn self i) = o /\ get_dst (with_builder_insn self i) = dst i /\
     get_src (with_builder_insn self i) = src i) -> wf_insn (described o l) ->
  let c' := append_insn (code (set_fields self l)) (set_fields self l) in
  instructions c' = instructions c ++ to_array (described o l) /\ sbpf_version c' = sbpf_version c.
Proof.
  intros Hb Hc Hf. apply (append_fields self code o l c (described o l) Hb Hc). intros i Hd Hs Ho Hi.
  rewrite (described_eq o l). unfold encoded, get_off, get_imm.
  rewrite with_insn_insn. destruct (Hf i) as (-> & -> & ->). congruence.
Qed.

Ltac push_described code := apply (append_described _ code); [done|done|].

Lemma pushed_bytes c i c' :
  pushed c i c' -> wf_insn i ->
  instructions c' = instructions c ++ to_array i /\ sbpf_version c' = sbpf_version c.
Proof.
  intros [op s a l|op s a o l Ho|l|l|l|m l|m l|m l|cond s o l Ho|l|cond s o l Ho|l|l|l|l].
  - apply (append_described _ Move_bpf_code); [by destruct op..|]. by destruct op, s, a.
  - push_described Pqr_bpf_code. destruct op, s, a; cbn in Ho; by simplify_eq.
  - by push_described SwapBytes_bpf_code.
  - by push_described SwapBytes_bpf_code.
  - push_described Load_bpf_code. by destruct c as [? []].
  - push_described Load_bpf_code. by destruct c as [? []], m.
  - push_described Store_bpf_code. by destruct c as [? []], m.
  - push_described Store_bpf_code. by destruct c as [? []], m.
  - push_described Jump_bpf_code. destruct cond, s; cbn in Ho; by simplify_eq.
  - by push_described Jump_bpf_code.
  - push_described Jump32_bpf_code. destruct cond, s; cbn in Ho; by simplify_eq.
  - by push_described Hor64_bpf_code.
  - apply (append_fields _ FunctionCall_bpf_code CALL_IMM); [done|done|]. intros j Hd Hs Ho Hi.
    unfold call_described. rewrite <- Hs, <- Ho, <- Hi. by destruct c as [? []].
  - apply (append_fields _ FunctionCall_bpf_code CALL_REG); [done|done|]. intros j Hd Hs Ho Hi.
    unfold call_reg_described. rewrite <- Hd, <- Hs, <- Ho, <- Hi. by destruct c as [? []].
  - by push_described Exit_bpf_code.
Qed.

(** The bytes of a built program, and its version. *)
Lemma builds_bytes v c l :
  builds v c l ->
  instructions c = concat (map to_array l) /\ sbpf_version c = v /\ Forall wf_insn l.
Proof.
  induction 1 as [|c l i c' _ (IHb & IHv & IHw) Hp Hwf]; [done|].
  destruct (pushed_bytes c i c' Hp Hwf) as [-> ->]. rewrite IHb, IHv.
  rewrite map_app, concat_app. cbn [map concat]. rewrite app_nil_r.
  split_and!; auto using Forall_app_2.
Qed.

Lemma length_encodings (l : list Insn) : length (concat (map to_array l)) = (8 * length l)%nat.
Proof. induction l as [|i l IH]; [done|]. cbn [map concat]. rewrite length_app, IH. simpl. lia. Qed.

(** The decoder on a list of encodings. *)
Lemma get_insn_encodings {E} `{Profile, ByteOrderLaws} (l : list Insn) (k : nat) (i : Insn) :
  Forall wf_insn l -> 8 * Z.of_nat (length l) < 2 ^ 63 -> l !! k = Some i ->
  get_insn (E := E) (concat (map to_array l)) (Z.of_nat k) = Ok (with_ptr i (Z.of_nat k)).
Proof.
  intros Hwf Hlen Hk. pose proof (lookup_lt_Some _ _ _ Hk) as Hlt.
  pose proof (take_drop_middle l k i Hk) as Hl.
  assert (Ht : length (take k l) = k) by (rewrite length_take; lia).
  rewrite <- Hl in Hwf |- *. rewrite map_app, concat_app. cbn [map concat].
  rewrite Forall_app, Forall_cons in Hwf.
  apply get_insn_encoded; [tauto | lia | rewrite length_encodings, Ht; lia |].
  rewrite !length_app, !length_encodings, Ht, length_drop. simpl. lia.
Qed.

(** C40: A program built by pushes has exactly the instructions meant.  A push is
    a method of [BpfCode] for which [ebpf.rs] names an opcode, a chain of setters
    and [push]; it means the named opcode with the fields as last set, less the
    registers a call of the version has no room for, each in the range of the
    instruction format.  The indices inside the program are those of the list,
    and each decodes to the instruction meant there. *)
Theorem built_program_decodes {E} `{Profile, ByteOrderLaws}
    (v : SBPFVersion) (c : BpfCode) (l : list Insn) :
  builds v c l -> 8 * Z.of_nat (length l) < 2 ^ 63 ->
  sbpf_version c = v /\
  (forall pc, 0 <= pc ->
    is_pc_in_program (code_into_bytes c) pc = true <-> pc < Z.of_nat (length l)) /\
  (forall k i, l !! k = Some i ->
    get_insn (E := E) (code_into_bytes c) (Z.of_nat k) = Ok (with_ptr i (Z.of_nat k))).
Proof.
  intros Hb Hlen. destruct (builds_bytes v c l Hb) as (Hi & Hv & Hwf).
  unfold code_into_bytes. rewrite Hi. split_and!; [done| |].
  - intros pc Hpc. rewrite is_pc_in_program_spec by (rewrite ?length_encodings; lia).
    rewrite length_encodings. lia.
  - intros k i Hk. by apply get_insn_encodings.
Qed.

(** ** A program built step by step *)
Definition sample_mov : BpfCode := Move_push (set_imm (set_dst (mov (new V3) Source_Imm X64) 3) (-7)).
Definition sample_jump : BpfCode :=
  Jump_push (set_off (set_src (set_dst (jump_conditional sample_mov Cond_LowerSigned Source_Reg) 3) 4) (-2)).
Definition sample_callx : BpfCode := FunctionCall_push (set_dst (builder_call_reg sample_jump) 5).
Definition sample_code : BpfCode := Exit_push (exit sample_callx).

Definition sample_insns : list Insn :=
  [mkInsn 0 MOV64_IMM 3 0 0 (-7); mkInsn 0 JSLT64_REG 3 4 (-2) 0; mkInsn 0 CALL_REG 5 0 0 0; mkInsn 0 EXIT 0 0 0 0].

Lemma sample_builds : builds V3 sample_code sample_insns.
Proof.
  assert (Hwf : Forall wf_insn sample_insns) by (repeat constructor; vm_compute; congruence).
  unfold sample_insns in *. decompose_Forall_hyps.
  eapply (builds_push V3 sample_callx [_; _; _]); [|exact (push_exit sample_callx [])|done].
  eapply (builds_push V3 sample_jump [_; _]); [|exact (push_call_reg sample_jump [SetDst 5])|done].
  eapply (builds_push V3 sample_mov [_]);
    [|exact (push_jump sample_mov Cond_LowerSigned Source_Reg JSLT64_REG [SetDst 3; SetSrc 4; SetOff (-2)] eq_refl)|done].
  eapply (builds_push V3 (new V3) []);
    [constructor|exact (push_alu (new V3) Op_Mov Source_Imm X64 [SetDst 3; SetImm (-7)])|done].
Qed.

Lemma built_program_decodes_witness :
  get_insn (E := unit) (H := Build_Profile true) (H0 := le_reader)
    (code_into_bytes sample_code) 1 = Ok (mkInsn 1 JSLT64_REG 3 4 (-2) 0) /\
  code_into_bytes sample_code =
    [0xb7; 3; 0; 0; 0xf9; 0xff; 0xff; 0xff;
     0xcd; 0x43; 0xfe; 0xff; 0; 0; 0; 0;
     0x8d; 5; 0; 0; 0; 0; 0; 0;
     0x95; 0; 0; 0; 0; 0; 0; 0].
Proof.
  split; [|vm_compute; reflexivity].
  apply (proj2 (proj2 (@built_program_decodes unit (Build_Profile true) le_reader le_reader_laws
    V3 sample_code _ sample_builds ltac:(simpl; lia))) 1%nat _ eq_refl).
Defined.
