(* ===== verification/Verifier.v ===== *)
(** * The verifier: [src/casestudy/sbpf/src/verifier.rs]

    The big [match insn.opc] of [RequisiteVerifier::verify] is a table of arms
    (opcodes, guard, body) in source order; [match_opc] takes the first arm
    whose pattern and guard hold, as Rust does.  The [while] loop runs on fuel;
    [verify_total] shows that the fuel [verify] supplies is enough. *)

From S2P Require Import Prelude Ebpf Program.

Inductive VerifierError :=
| ProgramLengthNotMultiple
| ProgramTooLarge (n : Z)
| NoProgram
| DivisionByZero (insn : Z)
| UnsupportedLEBEArgument (insn : Z)
| LDDWCannotBeLast
| IncompleteLDDW (insn : Z)
| InfiniteLoop (insn : Z)
| JumpOutOfCode (target insn : Z)
| JumpToMiddleOfLDDW (target insn : Z)
| InvalidSourceRegister (insn : Z)
| CannotWriteR10 (insn : Z)
| InvalidDestinationRegister (insn : Z)
| UnknownOpCode (opc insn : Z)
| ShiftWithOverflow (shift bits insn : Z)
| InvalidRegister (insn : Z)
| InvalidFunction (insn : Z)
| InvalidSyscall (code : Z)
| UnalignedImmediate (insn : Z).

#[export] Instance VerifierError_eq_dec : EqDecision VerifierError.
Proof. solve_decision. Defined.

Abbreviation verified A := (result VerifierError A).

(** ** Matching on the opcode byte *)
Record arm (A : Type) := mkArm { arm_opcodes : list Z; arm_guard : bool; arm_body : A }.
Arguments mkArm {A} _ _ _.
Arguments arm_opcodes {A} _.
Arguments arm_guard {A} _.
Arguments arm_body {A} _.

Fixpoint match_opc {A} (opc : Z) (arms : list (arm A)) (default : A) : A :=
  match arms with
  | [] => default
  | a :: arms =>
      if existsb (Z.eqb opc) (arm_opcodes a) && arm_guard a
      then arm_body a else match_opc opc arms default
  end.

Lemma match_opc_ind {A} (Q : A -> Prop) opc arms default :
  Forall (fun a => opc ∈ arm_opcodes a -> arm_guard a = true -> Q (arm_body a)) arms ->
  Q default -> Q (match_opc opc arms default).
Proof.
  intros Harms Hd. induction Harms as [|a arms Ha _ IH]; [done|]. simpl.
  destruct (existsb _ _) eqn:He; [|done]. destruct (arm_guard a) eqn:Hg; [|done].
  apply Ha; [|done]. apply existsb_exists in He as (o & Ho & ->%Z.eqb_eq).
  by apply list_elem_of_In.
Qed.

(** ** Checks *)
Section Checks.
Context `{Profile, ByteOrder}.

Definition check_prog_len (prog : list byte) : verified unit :=
  if negb (Z.of_nat (length prog) mod INSN_SIZE =? 0) then Err ProgramLengthNotMultiple
  else if (length prog =? 0)%nat then Err NoProgram
  else Ok tt.

Definition check_imm_nonzero (insn : Insn) (insn_ptr : Z) : verified unit :=
  if imm insn =? 0 then Err (DivisionByZero insn_ptr) else Ok tt.

Definition check_imm_endian (insn : Insn) (insn_ptr : Z) : verified unit :=
  if (imm insn =? 16) || (imm insn =? 32) || (imm insn =? 64) then Ok tt
  else Err (UnsupportedLEBEArgument insn_ptr).

Definition check_imm_aligned (insn : Insn) (insn_ptr alignment : Z) : verified unit :=
  m ← arith_i64 (alignment - 1);
  if Z.land (imm insn) m =? 0 then Ok tt else Err (UnalignedImmediate insn_ptr).

Definition check_load_dw (prog : list byte) (insn_ptr : Z) : verified unit :=
  next ← arith_u64 (insn_ptr + 1);
  o ← arith_u64 (next * INSN_SIZE);
  if Z.of_nat (length prog) <=? o then Err LDDWCannotBeLast
  else
    next_insn ← get_insn prog next;
    if negb (opc next_insn =? 0) then Err (IncompleteLDDW insn_ptr) else Ok tt.

(** [program_range] is [0..program_len]. *)
Definition check_jmp_offset (prog : list byte) (insn_ptr program_len : Z) : verified unit :=
  insn ← get_insn prog insn_ptr;
  a ← arith_i64 (as_i 64 insn_ptr + 1);
  dst_insn_ptr ← arith_i64 (a + off insn);
  if (dst_insn_ptr <? 0) || negb ((0 <=? as_u 64 dst_insn_ptr) && (as_u 64 dst_insn_ptr <? program_len))
  then Err (JumpOutOfCode (as_u 64 dst_insn_ptr) insn_ptr)
  else
    dst_insn ← get_insn prog (as_u 64 dst_insn_ptr);
    if opc dst_insn =? 0 then Err (JumpToMiddleOfLDDW (as_u 64 dst_insn_ptr) insn_ptr)
    else Ok tt.

Definition check_registers (insn : Insn) (store : bool) (insn_ptr : Z) (v : SBPFVersion)
    : verified unit :=
  if 10 <? src insn then Err (InvalidSourceRegister insn_ptr)
  else if ((0 <=? dst insn) && (dst insn <=? 9)) || ((dst insn =? 10) && store) then Ok tt
  else if (dst insn =? 10) && negb store then
    if manual_stack_frame_bump v && (opc insn =? ADD64_IMM) then Ok tt
    else Err (CannotWriteR10 insn_ptr)
  else Err (InvalidDestinationRegister insn_ptr).

Definition check_imm_shift (insn : Insn) (insn_ptr imm_bits : Z) : verified unit :=
  let shift_by := as_u 64 (imm insn) in
  if (imm insn <? 0) || (imm_bits <=? shift_by)
  then Err (ShiftWithOverflow shift_by imm_bits insn_ptr) else Ok tt.

Definition check_callx_register (insn : Insn) (insn_ptr : Z) (v : SBPFVersion) : verified unit :=
  let reg := if callx_uses_src_reg v then src insn
             else if callx_uses_dst_reg v then dst insn
             else imm insn in
  if negb ((0 <=? reg) && (reg <? 10)) then Err (InvalidRegister insn_ptr) else Ok tt.
End Checks.

(** ** [RequisiteVerifier::verify] *)
Section Verify.
Context `{Profile, ByteOrder}.
Variables (prog : list byte) (v : SBPFVersion) (program_len : Z) (insn : Insn) (insn_ptr : Z).

(** What an arm leaves behind: [store] and the new [insn_ptr]. *)
Abbreviation body := (verified (bool * Z)).
Definition pass (store : bool) : body := Ok (store, insn_ptr).
Definition check (r : verified unit) : body := _ ← r; Ok (false, insn_ptr).
Definition on (opcodes : list Z) (b : body) : arm body := mkArm opcodes true b.
Definition on_if (opcodes : list Z) (guard : bool) (b : body) : arm body := mkArm opcodes guard b.

Definition verify_lddw_arms : list (arm body) := [
  on_if [LD_DW_IMM] (negb (disable_lddw v))
    (_ ← check_load_dw prog insn_ptr; p ← arith_u64 (insn_ptr + 1); Ok (false, p))].

Definition verify_ldx_arms : list (arm body) := [
  on_if [LD_B_REG] (negb (move_memory_instruction_classes v)) (pass false);
  on_if [LD_H_REG] (negb (move_memory_instruction_classes v)) (pass false);
  on_if [LD_W_REG] (negb (move_memory_instruction_classes v)) (pass false);
  on_if [LD_DW_REG] (negb (move_memory_instruction_classes v)) (pass false)].

Definition verify_st_arms : list (arm body) := [
  on_if [ST_B_IMM] (negb (move_memory_instruction_classes v)) (pass true);
  on_if [ST_H_IMM] (negb (move_memory_instruction_classes v)) (pass true);
  on_if [ST_W_IMM] (negb (move_memory_instruction_classes v)) (pass true);
  on_if [ST_DW_IMM] (negb (move_memory_instruction_classes v)) (pass true)].

Definition verify_stx_arms : list (arm body) := [
  on_if [ST_B_REG] (negb (move_memory_instruction_classes v)) (pass true);
  on_if [ST_H_REG] (negb (move_memory_instruction_classes v)) (pass true);
  on_if [ST_W_REG] (negb (move_memory_instruction_classes v)) (pass true);
  on_if [ST_DW_REG] (negb (move_memory_instruction_classes v)) (pass true)].

Definition verify_alu32_arms : list (arm body) := [
  on [ADD32_IMM] (pass false);
  on [ADD32_REG] (pass false);
  on [SUB32_IMM] (pass false);
  on [SUB32_REG] (pass false);
  on_if [MUL32_IMM] (negb (enable_pqr v)) (pass false);
  on_if [MUL32_REG] (negb (enable_pqr v)) (pass false);
  on_if [LD_1B_REG] (move_memory_instruction_classes v) (pass false);
  on_if [DIV32_IMM] (negb (enable_pqr v)) (check (check_imm_nonzero insn insn_ptr));
  on_if [DIV32_REG] (negb (enable_pqr v)) (pass false);
  on_if [LD_2B_REG] (move_memory_instruction_classes v) (pass false);
  on [OR32_IMM] (pass false);
  on [OR32_REG] (pass false);
  on [AND32_IMM] (pass false);
  on [AND32_REG] (pass false);
  on [LSH32_IMM] (check (check_imm_shift insn insn_ptr 32));
  on [LSH32_REG] (pass false);
  on [RSH32_IMM] (check (check_imm_shift insn insn_ptr 32));
  on [RSH32_REG] (pass false);
  on_if [NEG32] (negb (disable_neg v)) (pass false);
  on_if [LD_4B_REG] (move_memory_instruction_classes v) (pass false);
  on_if [MOD32_IMM] (negb (enable_pqr v)) (check (check_imm_nonzero insn insn_ptr));
  on_if [MOD32_REG] (negb (enable_pqr v)) (pass false);
  on_if [LD_8B_REG] (move_memory_instruction_classes v) (pass false);
  on [XOR32_IMM] (pass false);
  on [XOR32_REG] (pass false);
  on [MOV32_IMM] (pass false);
  on [MOV32_REG] (pass false);
  on [ARSH32_IMM] (check (check_imm_shift insn insn_ptr 32));
  on [ARSH32_REG] (pass false);
  on_if [LE] (negb (disable_le v)) (check (check_imm_endian insn insn_ptr));
  on [BE] (check (check_imm_endian insn insn_ptr))].

Definition verify_alu64_arms : list (arm body) := [
  on_if [ADD64_IMM] ((dst insn =? FRAME_PTR_REG) && manual_stack_frame_bump v) (check (check_imm_aligned insn insn_ptr 64));
  on [ADD64_IMM] (pass false);
  on [ADD64_REG] (pass false);
  on [SUB64_IMM] (pass false);
  on [SUB64_REG] (pass false);
  on_if [MUL64_IMM] (negb (enable_pqr v)) (pass false);
  on_if [ST_1B_IMM] (move_memory_instruction_classes v) (pass true);
  on_if [MUL64_REG] (negb (enable_pqr v)) (pass false);
  on_if [ST_1B_REG] (move_memory_instruction_classes v) (pass true);
  on_if [DIV64_IMM] (negb (enable_pqr v)) (check (check_imm_nonzero insn insn_ptr));
  on_if [ST_2B_IMM] (move_memory_instruction_classes v) (pass true);
  on_if [DIV64_REG] (negb (enable_pqr v)) (pass false);
  on_if [ST_2B_REG] (move_memory_instruction_classes v) (pass true);
  on [OR64_IMM] (pass false);
  on [OR64_REG] (pass false);
  on [AND64_IMM] (pass false);
  on [AND64_REG] (pass false);
  on [LSH64_IMM] (check (check_imm_shift insn insn_ptr 64));
  on [LSH64_REG] (pass false);
  on [RSH64_IMM] (check (check_imm_shift insn insn_ptr 64));
  on [RSH64_REG] (pass false);
  on_if [ST_4B_IMM] (move_memory_instruction_classes v) (pass true);
  on_if [NEG64] (negb (disable_neg v)) (pass false);
  on_if [ST_4B_REG] (move_memory_instruction_classes v) (pass true);
  on_if [MOD64_IMM] (negb (enable_pqr v)) (check (check_imm_nonzero insn insn_ptr));
  on_if [ST_8B_IMM] (move_memory_instruction_classes v) (pass true);
  on_if [MOD64_REG] (negb (enable_pqr v)) (pass false);
  on_if [ST_8B_REG] (move_memory_instruction_classes v) (pass true);
  on [XOR64_IMM] (pass false);
  on [XOR64_REG] (pass false);
  on [MOV64_IMM] (pass false);
  on [MOV64_REG] (pass false);
  on [ARSH64_IMM] (check (check_imm_shift insn insn_ptr 64));
  on [ARSH64_REG] (pass false);
  on_if [HOR64_IMM] (disable_lddw v) (pass false)].

Definition verify_pqr_arms : list (arm body) := [
  on_if [LMUL32_IMM] (enable_pqr v) (pass false);
  on_if [LMUL32_REG] (enable_pqr v) (pass false);
  on_if [LMUL64_IMM] (enable_pqr v) (pass false);
  on_if [LMUL64_REG] (enable_pqr v) (pass false);
  on_if [UHMUL64_IMM] (enable_pqr v) (pass false);
  on_if [UHMUL64_REG] (enable_pqr v) (pass false);
  on_if [SHMUL64_IMM] (enable_pqr v) (pass false);
  on_if [SHMUL64_REG] (enable_pqr v) (pass false);
  on_if [UDIV32_IMM] (enable_pqr v) (check (check_imm_nonzero insn insn_ptr));
  on_if [UDIV32_REG] (enable_pqr v) (pass false);
  on_if [UDIV64_IMM] (enable_pqr v) (check (check_imm_nonzero insn insn_ptr));
  on_if [UDIV64_REG] (enable_pqr v) (pass false);
  on_if [UREM32_IMM] (enable_pqr v) (check (check_imm_nonzero insn insn_ptr));
  on_if [UREM32_REG] (enable_pqr v) (pass false);
  on_if [UREM64_IMM] (enable_pqr v) (check (check_imm_nonzero insn insn_ptr));
  on_if [UREM64_REG] (enable_pqr v) (pass false);
  on_if [SDIV32_IMM] (enable_pqr v) (check (check_imm_nonzero insn insn_ptr));
  on_if [SDIV32_REG] (enable_pqr v) (pass false);
  on_if [SDIV64_IMM] (enable_pqr v) (check (check_imm_nonzero insn insn_ptr));
  on_if [SDIV64_REG] (enable_pqr v) (pass false);
  on_if [SREM32_IMM] (enable_pqr v) (check (check_imm_nonzero insn insn_ptr));
  on_if [SREM32_REG] (enable_pqr v) (pass false);
  on_if [SREM64_IMM] (enable_pqr v) (check (check_imm_nonzero insn insn_ptr));
  on_if [SREM64_REG] (enable_pqr v) (pass false)].

Definition verify_jmp32_arms : list (arm body) := [
  on_if [JEQ32_IMM; JEQ32_REG; JGT32_IMM; JGT32_REG; JGE32_IMM; JGE32_REG; JLT32_IMM;
     JLT32_REG; JLE32_IMM; JLE32_REG; JSET32_IMM; JSET32_REG; JNE32_IMM; JNE32_REG;
     JSGT32_IMM; JSGT32_REG; JSGE32_IMM; JSGE32_REG; JSLT32_IMM; JSLT32_REG; JSLE32_IMM;
     JSLE32_REG] (enable_jmp32 v) (check (check_jmp_offset prog insn_ptr program_len))].

Definition verify_jmp64_arms : list (arm body) := [
  on [JA; JEQ64_IMM; JEQ64_REG; JGT64_IMM; JGT64_REG; JGE64_IMM; JGE64_REG; JLT64_IMM;
     JLT64_REG; JLE64_IMM; JLE64_REG; JSET64_IMM; JSET64_REG; JNE64_IMM; JNE64_REG;
     JSGT64_IMM; JSGT64_REG; JSGE64_IMM; JSGE64_REG; JSLT64_IMM; JSLT64_REG; JSLE64_IMM;
     JSLE64_REG] (check (check_jmp_offset prog insn_ptr program_len));
  on [CALL_IMM] (pass false);
  on [CALL_REG] (check (check_callx_register insn insn_ptr v));
  on [EXIT] (pass false)].

Definition verify_arms : list (arm body) :=
  verify_lddw_arms ++ verify_ldx_arms ++ verify_st_arms ++ verify_stx_arms ++
  verify_alu32_arms ++ verify_alu64_arms ++ verify_pqr_arms ++
  verify_jmp32_arms ++ verify_jmp64_arms.
End Verify.

Section Loop.
Context `{Profile, ByteOrder}.
Variables (prog : list byte) (v : SBPFVersion).

(** The body of the loop, from [get_insn] to the last [insn_ptr += 1]. *)
Definition verify_insn (insn_ptr : Z) : verified Z :=
  insn ← get_insn prog insn_ptr;
  r ← match_opc (opc insn)
        (verify_arms prog v (Z.of_nat (length prog) / INSN_SIZE) insn insn_ptr)
        (Err (UnknownOpCode (opc insn) insn_ptr));
  _ ← check_registers insn r.1 r.2 v;
  arith_u64 (r.2 + 1).

(** [while (insn_ptr + 1) * INSN_SIZE <= prog.len()], then the final test. *)
Fixpoint verify_loop (fuel : nat) (insn_ptr : Z) : verified unit :=
  match fuel with
  | O => Panic
  | S fuel =>
      next ← arith_u64 (insn_ptr + 1);
      o ← arith_u64 (next * INSN_SIZE);
      if o <=? Z.of_nat (length prog) then
        insn_ptr' ← verify_insn insn_ptr;
        verify_loop fuel insn_ptr'
      else if negb (insn_ptr =? Z.of_nat (length prog) / INSN_SIZE)
      then Err (JumpOutOfCode insn_ptr insn_ptr) else Ok tt
  end.

(** Every iteration advances [insn_ptr], so one unit of fuel per slot and one
    for the last test are enough. *)
Definition verify : verified unit :=
  _ ← check_prog_len prog;
  verify_loop (S (length prog / 8)) 0.
End Loop.
