(* ===== verification/VerifierFacts.v ===== *)
(** * What the verifier guarantees

    Totality of [Verifier.verify] and the properties of every slot of an
    accepted program, stated slot by slot rather than along the loop. *)

From stdpp Require Import sets.
From S2P Require Import Prelude Ebpf Program Verifier.

Section Facts.
Context {P : Profile} {B : ByteOrder} {BL : ByteOrderLaws}.
Variables (prog : list byte) (v : SBPFVersion).
Hypothesis prog_bytes : is_bytes prog.
Hypothesis prog_short : Z.of_nat (length prog) < 2 ^ 63.

Definition slots : Z := Z.of_nat (length prog) / 8.

Lemma slots_bound : 0 <= slots /\ 8 * slots <= Z.of_nat (length prog) < 8 * slots + 8.
Proof. unfold slots. Z.to_euclidean_division_equations; lia. Qed.

Lemma slot_get {E} pc :
  0 <= pc < slots -> get_insn (E := E) prog pc = Ok (slot prog pc).
Proof. intros. pose proof slots_bound. apply get_insn_slot; lia. Qed.

Lemma slot_get_unchecked {E} pc :
  0 <= pc < slots -> get_insn_unchecked (E := E) prog pc = Ok (slot prog pc).
Proof. intros. pose proof slots_bound. apply get_insn_slot; lia. Qed.

Lemma slot_well_formed pc : 0 <= pc < slots -> wf_insn (slot prog pc).
Proof. intros. pose proof slots_bound. apply slot_wf; [done|lia..]. Qed.

(** The target of the jump in slot [pc]. *)
Definition jump_target (pc : Z) : Z := pc + 1 + off (slot prog pc).

Hypothesis prog_aligned : Z.of_nat (length prog) = 8 * slots.

(** ** The checks, on decoded slots *)
Lemma check_load_dw_eq pc :
  0 <= pc < slots ->
  check_load_dw prog pc =
    if pc + 1 <? slots
    then if opc (slot prog (pc + 1)) =? 0 then Ok tt else Err (IncompleteLDDW pc)
    else Err LDDWCannotBeLast.
Proof.
  intros Hpc. unfold check_load_dw, INSN_SIZE.
  rewrite arith_u64_ok by (unfold is_u; lia). cbn [mbind result_bind].
  rewrite arith_u64_ok by (unfold is_u; lia). cbn [mbind result_bind].
  destruct (Z.ltb_spec (pc + 1) slots).
  - rewrite (proj2 (Z.leb_gt _ _)) by lia. rewrite slot_get by lia. cbn [mbind result_bind].
    by destruct (opc _ =? 0).
  - by rewrite (proj2 (Z.leb_le _ _)) by lia.
Qed.

Lemma check_jmp_offset_eq pc :
  0 <= pc < slots ->
  check_jmp_offset prog pc slots =
    let t := jump_target pc in
    if (0 <=? t) && (t <? slots)
    then if opc (slot prog t) =? 0 then Err (JumpToMiddleOfLDDW t pc) else Ok tt
    else Err (JumpOutOfCode (as_u 64 t) pc).
Proof.
  intros Hpc. unfold check_jmp_offset. rewrite slot_get by done. cbn [mbind result_bind].
  pose proof (wf_off _ (slot_well_formed pc Hpc)) as Ho. unfold is_i in Ho.
  rewrite as_i_small by (unfold is_i; lia).
  rewrite arith_i64_ok by (unfold is_i; lia). cbn [mbind result_bind].
  rewrite arith_i64_ok by (unfold is_i; lia). cbn [mbind result_bind].
  cbv zeta. fold (jump_target pc).
  destruct (Z.leb_spec 0 (jump_target pc)); cycle 1.
  { by rewrite (proj2 (Z.ltb_lt _ _)) by lia. }
  rewrite (proj2 (Z.ltb_ge _ _)) by lia. cbn [orb andb].
  assert (jump_target pc < 2 ^ 64) by (unfold jump_target; lia).
  rewrite as_u_small by (unfold is_u; lia). rewrite (proj2 (Z.leb_le _ _)) by lia. cbn [andb].
  destruct (Z.ltb_spec (jump_target pc) slots); cbn [negb]; [|done].
  rewrite slot_get by lia. done.
Qed.

(** ** One iteration of the loop *)
Definition arms_at (pc : Z) := verify_arms prog v slots (slot prog pc) pc.
Definition verdict_at (pc : Z) : verified (bool * Z) :=
  match_opc (opc (slot prog pc)) (arms_at pc) (Err (UnknownOpCode (opc (slot prog pc)) pc)).

(** Slot [pc] holds the first half of an [lddw] and [pc + 1] the second. *)
Definition lddw_at (pc : Z) : Prop :=
  disable_lddw v = false /\ opc (slot prog pc) = LD_DW_IMM /\
  pc + 1 < slots /\ opc (slot prog (pc + 1)) = 0.

(** The outcomes an arm can have: an error, staying on the instruction, or
    skipping the second half of an [lddw]. *)
Definition arm_outcome (pc : Z) (b : verified (bool * Z)) : Prop :=
  match b with
  | Panic => False
  | Err _ => True
  | Ok (_, p) => p = pc \/ (p = pc + 1 /\ lddw_at pc)
  end.

Lemma check_outcome pc r : r <> Panic -> arm_outcome pc (check pc r).
Proof. destruct r; simpl; auto. Qed.

Lemma check_jmp_no_panic pc : 0 <= pc < slots -> check_jmp_offset prog pc slots <> Panic.
Proof. intros. rewrite check_jmp_offset_eq by done. simpl. by repeat case_match. Qed.

Lemma verdict_outcome pc : 0 <= pc < slots -> arm_outcome pc (verdict_at pc).
Proof.
  intros Hpc. unfold verdict_at. apply match_opc_ind; [|done]. unfold arms_at, verify_arms.
  pose proof (check_jmp_no_panic pc Hpc) as Hj.
  repeat apply Forall_app_2; unfold verify_lddw_arms, verify_ldx_arms, verify_st_arms,
    verify_stx_arms, verify_alu32_arms, verify_alu64_arms, verify_pqr_arms, verify_jmp32_arms,
    verify_jmp64_arms, on, on_if;
    repeat (apply List.Forall_cons || apply List.Forall_nil); cbn [arm_opcodes arm_guard arm_body];
    try (intros _ _; simpl; auto; fail);
    try (intros _ _; apply check_outcome; first [done
      | unfold check_imm_nonzero, check_imm_endian, check_imm_shift, check_callx_register,
          check_imm_aligned; simpl; by repeat case_match]).
  intros Ho%list_elem_of_singleton Hg%negb_true_iff.
  rewrite check_load_dw_eq by done. destruct (Z.ltb_spec (pc + 1) slots); [|done].
  destruct (Z.eqb_spec (opc (slot prog (pc + 1))) 0); [|done]. cbn [mbind result_bind].
  rewrite arith_u64_ok by (unfold is_u; lia). right. split; [done|]. split_and!; done.
Qed.

Lemma check_registers_no_panic i store p : check_registers i store p v <> Panic.
Proof. unfold check_registers. by repeat case_match. Qed.

Lemma verify_insn_eq pc :
  0 <= pc < slots ->
  verify_insn prog v pc =
    (r ← verdict_at pc; _ ← check_registers (slot prog pc) r.1 r.2 v; Ok (r.2 + 1)).
Proof.
  intros Hpc. unfold verify_insn, verdict_at, INSN_SIZE. rewrite slot_get by done.
  cbn [mbind result_bind]. fold slots. fold (arms_at pc). fold (verdict_at pc).
  pose proof (verdict_outcome pc Hpc) as Ho. unfold lddw_at in Ho.
  destruct (verdict_at pc) as [[st p]| |]; [|done..]. cbn [mbind result_bind fst snd].
  destruct (check_registers _ _ _ _); [|done..]. apply arith_u64_ok. simpl in Ho.
  unfold is_u. lia.
Qed.

(** One iteration succeeds with [p] past the instruction, or fails. *)
Lemma verify_insn_outcome pc :
  0 <= pc < slots ->
  match verify_insn prog v pc with
  | Panic => False
  | Err _ => True
  | Ok p => p = pc + 1 \/ (p = pc + 2 /\ lddw_at pc)
  end.
Proof.
  intros Hpc. rewrite verify_insn_eq by done. pose proof (verdict_outcome pc Hpc) as Ho.
  destruct (verdict_at pc) as [[st p]| |]; [|done..]. cbn [mbind result_bind fst snd].
  pose proof (check_registers_no_panic (slot prog pc) st p) as Hr.
  destruct (check_registers _ _ _ _); [|done..]. simpl in Ho |- *.
  destruct Ho as [->|[-> ?]]; [by left|right]. split; [lia|done].
Qed.

(** A slot of an accepted program was checked itself or is the second half
    of an [lddw] that was. *)
Definition slot_accepted (pc : Z) : Prop :=
  exists p, verify_insn prog v pc = Ok p.
Definition slot_covered (pc : Z) : Prop :=
  slot_accepted pc \/ (0 < pc /\ lddw_at (pc - 1) /\ slot_accepted (pc - 1)).

Lemma verify_loop_total fuel pc :
  0 <= pc <= slots -> slots - pc < Z.of_nat fuel -> verify_loop prog v fuel pc <> Panic.
Proof.
  revert pc. induction fuel as [|fuel IH]; intros pc Hpc Hf; [lia|]. simpl. unfold INSN_SIZE.
  rewrite !arith_u64_ok by (unfold is_u; lia). cbn [mbind result_bind].
  rewrite !arith_u64_ok by (unfold is_u; lia). cbn [mbind result_bind].
  destruct (Z.leb_spec ((pc + 1) * 8) (Z.of_nat (length prog))); [|by case_match].
  pose proof (verify_insn_outcome pc ltac:(lia)) as Ho. unfold lddw_at in Ho.
  destruct (verify_insn prog v pc); [|done..]. simpl. apply IH; lia.
Qed.

Lemma verify_loop_sound fuel pc :
  0 <= pc <= slots -> verify_loop prog v fuel pc = Ok tt ->
  forall k, pc <= k < slots -> slot_covered k.
Proof.
  revert pc. induction fuel as [|fuel IH]; intros pc Hpc; [done|]. simpl. unfold INSN_SIZE.
  rewrite !arith_u64_ok by (unfold is_u; lia). cbn [mbind result_bind].
  rewrite !arith_u64_ok by (unfold is_u; lia). cbn [mbind result_bind].
  destruct (Z.leb_spec ((pc + 1) * 8) (Z.of_nat (length prog))); [|lia].
  pose proof (verify_insn_outcome pc ltac:(lia)) as Ho.
  destruct (verify_insn prog v pc) as [p| |] eqn:Hv; [|done..]. simpl. intros Hl k Hk.
  assert (Hacc : slot_accepted pc) by (by eexists).
  destruct (decide (k = pc)) as [->|]; [by left|].
  assert (Hp : p <= slots) by (unfold lddw_at in Ho; lia).
  destruct Ho as [->|[-> Hdw]]; [apply (IH (pc + 1)); [lia|done|lia]|].
  destruct (decide (k = pc + 1)) as [->|]; [|apply (IH (pc + 2)); [lia|done|lia]].
  right. rewrite Z.add_simpl_r. split; [lia|done].
Qed.

(** ** Which check an accepted opcode passed *)
Definition jump_opcodes : list Z :=
  (if enable_jmp32 v then
     [JEQ32_IMM; JEQ32_REG; JGT32_IMM; JGT32_REG; JGE32_IMM; JGE32_REG; JLT32_IMM; JLT32_REG;
      JLE32_IMM; JLE32_REG; JSET32_IMM; JSET32_REG; JNE32_IMM; JNE32_REG; JSGT32_IMM; JSGT32_REG;
      JSGE32_IMM; JSGE32_REG; JSLT32_IMM; JSLT32_REG; JSLE32_IMM; JSLE32_REG] else []) ++
  [JA; JEQ64_IMM; JEQ64_REG; JGT64_IMM; JGT64_REG; JGE64_IMM; JGE64_REG; JLT64_IMM; JLT64_REG;
   JLE64_IMM; JLE64_REG; JSET64_IMM; JSET64_REG; JNE64_IMM; JNE64_REG; JSGT64_IMM; JSGT64_REG;
   JSGE64_IMM; JSGE64_REG; JSLT64_IMM; JSLT64_REG; JSLE64_IMM; JSLE64_REG].
Definition division_opcodes : list Z :=
  if enable_pqr v then
    [UDIV32_IMM; UDIV64_IMM; UREM32_IMM; UREM64_IMM; SDIV32_IMM; SDIV64_IMM; SREM32_IMM; SREM64_IMM]
  else [DIV32_IMM; MOD32_IMM; DIV64_IMM; MOD64_IMM].
Definition shift_bits (o : Z) : option Z :=
  if existsb (Z.eqb o) [LSH32_IMM; RSH32_IMM; ARSH32_IMM] then Some 32
  else if existsb (Z.eqb o) [LSH64_IMM; RSH64_IMM; ARSH64_IMM] then Some 64
  else None.
Definition store_opcodes : list Z :=
  if move_memory_instruction_classes v then
    [ST_1B_IMM; ST_1B_REG; ST_2B_IMM; ST_2B_REG; ST_4B_IMM; ST_4B_REG; ST_8B_IMM; ST_8B_REG]
  else [ST_B_IMM; ST_H_IMM; ST_W_IMM; ST_DW_IMM; ST_B_REG; ST_H_REG; ST_W_REG; ST_DW_REG].
Definition callx_register (pc : Z) : Z :=
  let i := slot prog pc in
  if callx_uses_src_reg v then src i else if callx_uses_dst_reg v then dst i else imm i.

(** Case analysis on the version and the opcode; the arm taken is computed. *)
Ltac by_opcode :=
  unfold verdict_at, arms_at; destruct v; cbn;
  let Ho := fresh in
  intros Ho; repeat (apply elem_of_cons in Ho as [->|Ho]; [reflexivity|]);
  by apply elem_of_nil in Ho.

Lemma verdict_jump pc :
  opc (slot prog pc) ∈ jump_opcodes -> verdict_at pc = check pc (check_jmp_offset prog pc slots).
Proof. unfold jump_opcodes. by_opcode. Qed.

Lemma verdict_division pc :
  opc (slot prog pc) ∈ division_opcodes ->
  verdict_at pc = check pc (check_imm_nonzero (slot prog pc) pc).
Proof. unfold division_opcodes. by_opcode. Qed.

Lemma verdict_shift pc bits :
  shift_bits (opc (slot prog pc)) = Some bits ->
  verdict_at pc = check pc (check_imm_shift (slot prog pc) pc bits).
Proof.
  unfold shift_bits. destruct (existsb _ _) eqn:H32; [|destruct (existsb _ [LSH64_IMM; _; _]) eqn:H64; [|done]];
    intros [= <-]; [rename H32 into H|rename H64 into H];
    apply existsb_exists in H as (o & Ho%list_elem_of_In & <-%Z.eqb_eq); revert Ho; by_opcode.
Qed.

Lemma verdict_callx pc :
  opc (slot prog pc) ∈ [CALL_REG] ->
  verdict_at pc = check pc (check_callx_register (slot prog pc) pc v).
Proof. by_opcode. Qed.

Lemma verdict_endian pc :
  opc (slot prog pc) ∈ (BE :: if disable_le v then [] else [LE]) ->
  verdict_at pc = check pc (check_imm_endian (slot prog pc) pc).
Proof. by_opcode. Qed.

Lemma verdict_lddw pc :
  opc (slot prog pc) ∈ (if disable_lddw v then [] else [LD_DW_IMM]) ->
  verdict_at pc = (_ ← check_load_dw prog pc; p ← arith_u64 (pc + 1); Ok (false, p)).
Proof. by_opcode. Qed.

(** Only store instructions may name r10 as their destination. *)
Lemma verdict_store pc p : verdict_at pc = Ok (true, p) -> opc (slot prog pc) ∈ store_opcodes.
Proof.
  unfold verdict_at. revert p.
  apply (match_opc_ind (fun b => forall p, b = Ok (true, p) -> opc (slot prog pc) ∈ store_opcodes)); [|done].
  assert (Hc : forall r p, check pc r <> Ok (true, p)) by (by intros []).
  unfold arms_at, verify_arms, store_opcodes.
  repeat apply Forall_app_2; unfold verify_lddw_arms, verify_ldx_arms, verify_st_arms,
    verify_stx_arms, verify_alu32_arms, verify_alu64_arms, verify_pqr_arms, verify_jmp32_arms,
    verify_jmp64_arms, on, on_if;
    repeat (apply List.Forall_cons || apply List.Forall_nil); cbn [arm_opcodes arm_guard arm_body];
    try (intros _ _ p Hp; first [done | by apply Hc in Hp]; fail).
  { intros _ _ p. destruct (check_load_dw prog pc); [|done..]. cbn [mbind result_bind].
    by destruct (arith_u64 _). }
  all: intros ->%list_elem_of_singleton Hg _ _; destruct (move_memory_instruction_classes v);
    done || by repeat constructor.
Qed.

(** ** The guarantees on one instruction *)
Record slot_safe (pc : Z) : Prop := {
  safe_src : 0 <= src (slot prog pc) <= 10;
  safe_dst : 0 <= dst (slot prog pc) <= 10;
  safe_frame_pointer : dst (slot prog pc) = 10 ->
    opc (slot prog pc) ∈ store_opcodes \/
    (opc (slot prog pc) = ADD64_IMM /\ manual_stack_frame_bump v = true);
  safe_jump : opc (slot prog pc) ∈ jump_opcodes ->
    0 <= jump_target pc < slots /\ opc (slot prog (jump_target pc)) <> 0;
  safe_division : opc (slot prog pc) ∈ division_opcodes -> imm (slot prog pc) <> 0;
  safe_shift : forall bits, shift_bits (opc (slot prog pc)) = Some bits ->
    0 <= imm (slot prog pc) < bits;
  safe_callx : opc (slot prog pc) = CALL_REG -> 0 <= callx_register pc < 10;
  safe_endian : opc (slot prog pc) = BE \/ (opc (slot prog pc) = LE /\ disable_le v = false) ->
    imm (slot prog pc) ∈ [16; 32; 64];
  safe_lddw : opc (slot prog pc) = LD_DW_IMM -> disable_lddw v = false -> lddw_at pc
}.

Lemma check_Ok pc r st p : check pc r = Ok (st, p) -> r = Ok tt.
Proof. by destruct r as [[]| |]. Qed.

Lemma slot_accepted_safe pc : 0 <= pc < slots -> slot_accepted pc -> slot_safe pc.
Proof.
  intros Hpc [p Hp]. rewrite verify_insn_eq in Hp by done.
  destruct (verdict_at pc) as [[st q]| |] eqn:Hv; [|done..]. cbn [mbind result_bind fst snd] in Hp.
  destruct (check_registers (slot prog pc) st q v) as [[]| |] eqn:Hr; [|done..]. clear Hp p.
  pose proof (slot_well_formed pc Hpc) as [_ Hd Hs _ Hi]. unfold is_u in Hd, Hs.
  unfold check_registers in Hr.
  destruct (Z.ltb_spec 10 (src (slot prog pc))); [done|].
  split; [lia| | | | | | | |].
  - repeat case_match; try done; lia.
  - intros Hten. rewrite Hten in Hr.
    change (0 <=? 10) with true in Hr. change (10 <=? 9) with false in Hr.
    change (10 =? 10) with true in Hr. cbn [andb orb] in Hr. destruct st; [left; by eapply verdict_store|right].
    cbn [negb] in Hr. destruct (manual_stack_frame_bump v); [|done]. cbn [andb] in Hr.
    destruct (Z.eqb_spec (opc (slot prog pc)) ADD64_IMM); done.
  - intros Ho. rewrite (verdict_jump pc Ho) in Hv. apply check_Ok in Hv.
    rewrite check_jmp_offset_eq in Hv by done. cbv zeta in Hv.
    destruct (_ && _) eqn:?; [|done]. destruct (Z.eqb_spec (opc (slot prog (jump_target pc))) 0); [done|].
    split; [lia|done].
  - intros Ho. rewrite (verdict_division pc Ho) in Hv. apply check_Ok in Hv.
    unfold check_imm_nonzero in Hv. by destruct (Z.eqb_spec (imm (slot prog pc)) 0).
  - intros bits Ho. rewrite (verdict_shift pc bits Ho) in Hv. apply check_Ok in Hv.
    unfold check_imm_shift in Hv. destruct (_ || _) eqn:Hb; [done|].
    apply orb_false_iff in Hb as [Hn%Z.ltb_ge Hb%Z.leb_gt]. unfold is_i in Hi.
    rewrite as_u_small in Hb by (unfold is_u; lia). lia.
  - intros Ho. rewrite (verdict_callx pc) in Hv by (rewrite Ho; left). apply check_Ok in Hv.
    unfold check_callx_register in Hv. fold (callx_register pc) in Hv.
    destruct (negb _) eqn:?; [done|]. lia.
  - intros Ho. rewrite (verdict_endian pc) in Hv; cycle 1.
    { destruct Ho as [->|[-> Hle]]; [left|rewrite Hle; right; left]. }
    apply check_Ok in Hv. unfold check_imm_endian in Hv. destruct (_ || _) eqn:Hb; [|done].
    apply orb_true_iff in Hb as [[Hb|Hb]%orb_true_iff|Hb];
      apply Z.eqb_eq in Hb; rewrite Hb; by repeat constructor.
  - intros Ho Hd'. rewrite (verdict_lddw pc), check_load_dw_eq in Hv by (done || rewrite Hd', Ho; left).
    destruct (Z.ltb_spec (pc + 1) slots); [|done].
    destruct (Z.eqb_spec (opc (slot prog (pc + 1))) 0); [|done]. done.
Qed.
End Facts.

(** ** The verifier as a whole *)
Section Verified.
Context {P : Profile} {B : ByteOrder} {BL : ByteOrderLaws}.
Variables (prog : list byte) (v : SBPFVersion).

(** Every slot is safe or the second half of a safe [lddw]. *)
Record program_safe : Prop := {
  safe_aligned : Z.of_nat (length prog) = 8 * slots prog;
  safe_nonempty : 0 < slots prog;
  safe_slots : forall pc, 0 <= pc < slots prog ->
    slot_safe prog v pc \/
    (0 < pc /\ lddw_at prog v (pc - 1) /\ slot_safe prog v (pc - 1))
}.

Lemma check_prog_len_eq :
  match check_prog_len prog with
  | Ok _ => Z.of_nat (length prog) = 8 * slots prog /\ 0 < slots prog
  | Err e => e = ProgramLengthNotMultiple \/ e = NoProgram
  | Panic => False
  end.
Proof.
  unfold check_prog_len, INSN_SIZE, slots.
  destruct (Z.eqb_spec (Z.of_nat (length prog) mod 8) 0); [|by left]. cbn [negb].
  destruct (Nat.eqb_spec (length prog) 0); [by right|].
  Z.to_euclidean_division_equations; lia.
Qed.

Lemma fuel_enough : Z.of_nat (length prog / 8) = slots prog.
Proof. unfold slots. by rewrite Nat2Z.inj_div. Qed.

Lemma verify_safe :
  is_bytes prog -> Z.of_nat (length prog) < 2 ^ 63 -> verify prog v = Ok tt -> program_safe.
Proof.
  intros Hb Hl. unfold verify. pose proof check_prog_len_eq as Hc.
  destruct (check_prog_len prog); [|done..]. destruct Hc as [Ha Hn]. cbn [mbind result_bind].
  intros Hv. split; [done..|]. intros pc Hpc.
  destruct (verify_loop_sound prog v Hb Hl Ha _ 0 ltac:(lia) Hv pc ltac:(lia)) as [Hs|(Hp & Hd & Hs)];
    apply slot_accepted_safe in Hs; auto; lia.
Qed.

(** C18: the verifier always reaches a verdict: it neither panics nor runs
    forever, whatever bytes it is given. *)
Theorem verify_total :
  is_bytes prog -> Z.of_nat (length prog) < 2 ^ 63 -> verify prog v <> Panic.
Proof.
  intros Hb Hl. unfold verify. pose proof check_prog_len_eq as Hc.
  destruct (check_prog_len prog); [|done..]. cbn [mbind result_bind].
  apply verify_loop_total; [done|done|tauto|lia|]. pose proof fuel_enough. lia.
Qed.

(** C17: in an accepted program every slot is safe or the second half of an
    [lddw]: registers in range, r10 written only by stores and frame bumps,
    jumps to instructions of the program, no division by a zero immediate,
    shift amounts and callx registers in range, [lddw] complete. *)
Theorem verify_sound :
  is_bytes prog -> Z.of_nat (length prog) < 2 ^ 63 -> verify prog v = Ok tt -> program_safe.
Proof. apply verify_safe. Qed.
End Verified.
