(* ===== verification/Error.v ===== *)
(** * Errors and program results: [src/casestudy/sbpf/src/error.rs]

    [AccessType] is from [memory_region.rs].  A boxed [dyn Error] and the
    strings inside errors are their texts. *)

From stdpp Require Import strings.
From S2P Require Import Prelude Ebpf Program Verifier.

Inductive AccessType := Load | Store.

#[export] Instance AccessType_eq_dec : EqDecision AccessType.
Proof. solve_decision. Defined.

Inductive EbpfError :=
| ElfErr (e : ElfError)
| FunctionAlreadyRegistered (n : Z)
| CallDepthExceeded
| ExitRootCallFrame
| DivideByZero
| DivideOverflow
| ExecutionOverrun
| CallOutsideTextSegment
| ExceededMaxInstructions
| JitNotCompiled
| InvalidMemoryRegion (index : Z)
| AccessViolation (access : AccessType) (addr len : Z) (section : string)
| StackAccessViolation (access : AccessType) (addr len frame : Z)
| InvalidInstruction
| UnsupportedInstruction
| ExhaustedTextSegment (pc : Z)
| LibcInvocationFailed (function : string) (args : list string) (code : Z)
| VerifierErr (e : VerifierError)
| SyscallError (e : string).

(** ** [StableResult] *)
Inductive StableResult (T E : Type) := StOk (value : T) | StErr (error : E).
Arguments StOk {T E} _.
Arguments StErr {T E} _.

Definition ProgramResult : Type := StableResult Z EbpfError.

Module Stable.
Section Methods.
Context {T E : Type}.
Implicit Types (r : StableResult T E).

Definition is_ok r : bool := match r with StOk _ => true | StErr _ => false end.
Definition is_err r : bool := match r with StOk _ => false | StErr _ => true end.
Definition unwrap {X} r : result X T := match r with StOk v => Ok v | StErr _ => Panic end.
Definition unwrap_err {X} r : result X E := match r with StOk _ => Panic | StErr e => Ok e end.
Definition map {U} r (op : T -> U) : StableResult U E :=
match r with StOk v => StOk (op v) | StErr e => StErr e end.
Definition map_err {F} r (op : E -> F) : StableResult T F :=
match r with StOk v => StOk v | StErr e => StErr (op e) end.
Definition discriminant r : Z := match r with StOk _ => 0 | StErr _ => 1 end.

(** [From] in both directions. *)
Definition into_result r : result E T := match r with StOk v => Ok v | StErr e => Err e end.
Definition from_result (r : T + E) : StableResult T E :=
match r with inl v => StOk v | inr e => StErr e end.
End Methods.
End Stable.
