(* ===== verification/Vm.v ===== *)
(** * The virtual machine: [src/casestudy/sbpf/src/vm.rs]

    [EbpfVm] holds a raw pointer to the context object and one to the
    [MemoryMapping] inside it.  Both point into the same object, so the model
    keeps the context [C] once and reaches the active mapping through it.
    [host_stack_pointer] and the stopwatch fields, used only by native code,
    have no counterpart.  [Executable] ([elf.rs]) has the fields execution
    reads.  [BuiltinFunctionDefinition::vm] ([program.rs]) is the wrapper
    around a native function. *)

From stdpp Require Import strings.
From S2P Require Import Prelude Ebpf Program Verifier Error.

(** ** Interfaces *)

(** [trait ContextObject]: the instruction meter. *)
Class ContextObject (C : Type) := {
  consume : C -> Z -> C;
  get_remaining : C -> Z
}.

(** [MemoryMapping::load] and [MemoryMapping::store] on the mapping that
    [active_mapping_ptr] points to, for an access of [n] bytes. *)
Class VmMemory (C : Type) := {
  mem_load : nat -> Z -> C -> result EbpfError Z * C;
  mem_store : nat -> Z -> Z -> C -> result EbpfError Z * C
}.

(** [BuiltinFunctionDefinition::rust] of the native functions named by [V]. *)
Class Builtins (V C : Type) := {
  rust : V -> C -> Z -> Z -> Z -> Z -> Z -> result string Z * C
}.

(** What a context promises: from a valid state the meter is a [u64] and
    [consume] lowers it by at least the amount, as far as it goes. *)
Class ContextObjectLaws (C : Type) `{ContextObject C} := {
  context_valid : C -> Prop;
  get_remaining_range c : context_valid c -> is_u 64 (get_remaining c);
  consume_valid c n : 0 <= n -> context_valid c -> context_valid (consume c n);
  consume_spec c n :
    0 <= n -> context_valid c ->
    get_remaining (consume c n) <= saturating_sub_u64 (get_remaining c) n
}.

(** Accesses of valid memory leave the meter alone, keep the memory valid, do
    not go out of bounds and load [n]-byte values. *)
Class VmMemoryLaws (C : Type) `{ContextObjectLaws C, VmMemory C} := {
  mem_load_remaining n a c : get_remaining (mem_load n a c).2 = get_remaining c;
  mem_store_remaining n x a c : get_remaining (mem_store n x a c).2 = get_remaining c;
  mem_load_valid n a c :
    context_valid c -> n ∈ [1; 2; 4; 8]%nat -> is_u 64 a -> context_valid (mem_load n a c).2;
  mem_store_valid n x a c :
    context_valid c -> n ∈ [1; 2; 4; 8]%nat -> is_u 64 a -> context_valid (mem_store n x a c).2;
  mem_load_value n a c x :
    context_valid c -> n ∈ [1; 2; 4; 8]%nat -> is_u 64 a ->
    (mem_load n a c).1 = Ok x -> is_u (8 * Z.of_nat n) x;
  mem_load_no_panic n a c :
    context_valid c -> n ∈ [1; 2; 4; 8]%nat -> is_u 64 a -> (mem_load n a c).1 <> Panic;
  mem_store_no_panic n x a c :
    context_valid c -> n ∈ [1; 2; 4; 8]%nat -> is_u 64 a -> (mem_store n x a c).1 <> Panic
}.

(** A native function that gets a valid context and [u64] arguments returns a
    [u64] or an error and keeps the memory valid; it never refills the meter. *)
Class BuiltinsLaws (V C : Type) `{ContextObjectLaws C, Builtins V C} := {
  rust_remaining f c r1 r2 r3 r4 r5 :
    get_remaining (rust f c r1 r2 r3 r4 r5).2 <= get_remaining c;
  rust_valid f c r1 r2 r3 r4 r5 :
    context_valid c -> Forall (is_u 64) [r1; r2; r3; r4; r5] -> context_valid (rust f c r1 r2 r3 r4 r5).2;
  rust_value f c r1 r2 r3 r4 r5 x :
    context_valid c -> Forall (is_u 64) [r1; r2; r3; r4; r5] -> (rust f c r1 r2 r3 r4 r5).1 = Ok x -> is_u 64 x;
  rust_no_panic f c r1 r2 r3 r4 r5 :
    context_valid c -> Forall (is_u 64) [r1; r2; r3; r4; r5] -> (rust f c r1 r2 r3 r4 r5).1 <> Panic
}.

(** ** State *)
Record CallFrame := mkFrame {
  caller_saved_registers : list Z;
  frame_pointer : Z;
  target_pc : Z
}.
Definition CallFrame_default : CallFrame := mkFrame (replicate (Z.to_nat SCRATCH_REGS) 0) 0 0.

Inductive Section_ :=
| Owned (offset : Z) (data : list byte)
| Borrowed (offset : Z) (range : Z * Z).

Record Executable (V : Type) := mkExecutable {
  elf_bytes : list byte;
  sbpf_version : SBPFVersion;
  ro_section : Section_;
  text_section_vaddr : Z;
  text_section_range : Z * Z;
  entry_pc : Z;
  function_registry : FunctionRegistry Z;
  exec_loader : BuiltinProgram V
}.
Arguments mkExecutable {V} _ _ _ _ _ _ _ _.
Arguments elf_bytes {V} _.
Arguments sbpf_version {V} _.
Arguments ro_section {V} _.
Arguments text_section_vaddr {V} _.
Arguments text_section_range {V} _.
Arguments entry_pc {V} _.
Arguments function_registry {V} _.
Arguments exec_loader {V} _.

Record EbpfVm (V C : Type) := mkVm {
  call_depth : Z;
  context : C;
  previous_instruction_meter : Z;
  due_insn_count : Z;
  registers : list Z;
  program_result : ProgramResult;
  loader : BuiltinProgram V;
  register_trace : list (list Z)
}.
Arguments mkVm {V C} _ _ _ _ _ _ _ _.
Arguments call_depth {V C} _.
Arguments context {V C} _.
Arguments previous_instruction_meter {V C} _.
Arguments due_insn_count {V C} _.
Arguments registers {V C} _.
Arguments program_result {V C} _.
Arguments loader {V C} _.
Arguments register_trace {V C} _.

Section VmOps.
Context {V C : Type}.
Implicit Types (vm : EbpfVm V C) (e : Executable V).

Definition set_call_depth (d : Z) vm : EbpfVm V C :=
  mkVm d (context vm) (previous_instruction_meter vm) (due_insn_count vm) (registers vm)
    (program_result vm) (loader vm) (register_trace vm).
Definition set_context (c : C) vm : EbpfVm V C :=
  mkVm (call_depth vm) c (previous_instruction_meter vm) (due_insn_count vm) (registers vm)
    (program_result vm) (loader vm) (register_trace vm).
Definition set_previous_meter (n : Z) vm : EbpfVm V C :=
  mkVm (call_depth vm) (context vm) n (due_insn_count vm) (registers vm)
    (program_result vm) (loader vm) (register_trace vm).
Definition set_due (n : Z) vm : EbpfVm V C :=
  mkVm (call_depth vm) (context vm) (previous_instruction_meter vm) n (registers vm)
    (program_result vm) (loader vm) (register_trace vm).
Definition set_registers (r : list Z) vm : EbpfVm V C :=
  mkVm (call_depth vm) (context vm) (previous_instruction_meter vm) (due_insn_count vm) r
    (program_result vm) (loader vm) (register_trace vm).
Definition set_result (r : ProgramResult) vm : EbpfVm V C :=
  mkVm (call_depth vm) (context vm) (previous_instruction_meter vm) (due_insn_count vm)
    (registers vm) r (loader vm) (register_trace vm).
Definition push_trace (r : list Z) vm : EbpfVm V C :=
  mkVm (call_depth vm) (context vm) (previous_instruction_meter vm) (due_insn_count vm)
    (registers vm) (program_result vm) (loader vm) (register_trace vm ++ [r]).

(** [v[a..b]] *)
Definition subslice (v : list byte) (a b : Z) : option (list byte) :=
  if (0 <=? a) && (a <=? b) && (b <=? Z.of_nat (length v))
  then Some (take (Z.to_nat (b - a)) (drop (Z.to_nat a) v)) else None.

(** [Executable::get_text_bytes]; [Range::len] is zero for an empty range. *)
Definition get_text_bytes {E} `{Profile} e : result E (Z * list byte) :=
  let '(lo, hi) := text_section_range e in
  let text_len := saturating_sub_u64 hi lo in
  text_bytes ← (match ro_section e with
                | Owned offset data =>
                    text_offset ← arith_u64 (text_section_vaddr e - offset);
                    fin ← arith_u64 (text_offset + text_len);
                    or_panic (subslice data text_offset fin)
                | Borrowed _ _ => or_panic (subslice (elf_bytes e) lo hi)
                end);
  Ok (text_section_vaddr e, text_bytes).

(** [Executable::new_from_text_bytes] *)
Definition new_from_text_bytes `{Murmur3, EqDecision V} (text_bytes : list byte)
    (loader : BuiltinProgram V) (v : SBPFVersion) (functions : FunctionRegistry Z)
    : result ElfError (Executable V) :=
  rp ← (match lookup_by_name functions entrypoint_name with
        | Some (_, pc) => Ok (functions, pc)
        | None =>
            rk ← register_function_hashed_legacy id functions loader
                   (negb (static_syscalls v)) entrypoint_name 0;
            Ok (rk.1, 0)
        end);
  let n := Z.of_nat (length text_bytes) in
  Ok (mkExecutable text_bytes v
        (Borrowed (if enable_lower_rodata_vaddr v then MM_RODATA_START else MM_BYTECODE_START) (0, n))
        MM_BYTECODE_START (0, n) rp.2 rp.1 loader).

(** [EbpfVm::new] *)
Definition vm_new {E} (loader : BuiltinProgram V) (v : SBPFVersion) (context_object : C)
    (stack_len : Z) : result E (EbpfVm V C) :=
  config ← get_config loader;
  let registers :=
    <[Z.to_nat FRAME_PTR_REG := saturating_add_u64 MM_STACK_START
        (if negb (manual_stack_frame_bump v) then stack_frame_size config else stack_len)]>
      (replicate 12 0) in
  Ok (mkVm 0 context_object 0 0 registers (StOk 0) loader []).

(** [encrypted_host_address] and the address [with_vm] recovers. *)
Definition encrypted_host_address (key addr : Z) : Z := as_u 64 (as_i 64 (as_i 64 addr + key)).
Definition with_vm_address (key enc : Z) : Z := as_u 64 (as_i 64 (as_i 64 enc - key)).

Context `{Profile, ContextObject C, Builtins V C}.

(** [BuiltinFunctionDefinition::vm], the function pointer a syscall is
    registered with. *)
Definition builtin_vm (f : V) (a b c d e : Z) vm : result EbpfError (EbpfVm V C) :=
  config ← get_config (loader vm);
  let enable_insn_meter := enable_instruction_meter config in
  vm ← (if enable_insn_meter then
          used_cus ← arith_u64 (previous_instruction_meter vm - due_insn_count vm);
          Ok (set_context (consume (context vm) used_cus) vm)
        else Ok vm);
  let (r, ctx) := rust f (context vm) a b c d e in
  converted ← (match r with
               | Ok x => Ok (StOk x)
               | Err err => Ok (StErr (SyscallError err))
               | Panic => Panic
               end);
  let vm := set_result converted (set_context ctx vm) in
  Ok (if enable_insn_meter then set_previous_meter (get_remaining (context vm)) vm else vm).

(** [EbpfVm::invoke_function] *)
Definition invoke_function (f : V) vm : result EbpfError (EbpfVm V C) :=
  a ← or_panic (get (registers vm) 1); b ← or_panic (get (registers vm) 2);
  c ← or_panic (get (registers vm) 3); d ← or_panic (get (registers vm) 4);
  e ← or_panic (get (registers vm) 5);
  builtin_vm f a b c d e vm.
End VmOps.
