(* ===== verification/Interpreter.v ===== *)
(** * The interpreter: [src/casestudy/sbpf/src/interpreter.rs]

    [Interpreter::step] as a state-passing computation.  A [return] inside a
    method ends it with [Return]; [Unwind] is a panic.  The [match insn.opc] is
    a table of arms in source order ([Verifier.match_opc]); each arm's body is
    the computation the source writes there and returns the new [next_pc].
    The vector of call frames and the VM are part of the state. *)

From stdpp Require Import strings.
From S2P Require Import Prelude Ebpf Program Verifier Error Vm.

Record Interpreter (V C : Type) := mkInterp {
  vm : EbpfVm V C;
  executable : Executable V;
  program : list byte;
  program_vm_addr : Z;
  call_frames : list CallFrame;
  reg : list Z
}.
Arguments mkInterp {V C} _ _ _ _ _ _.
Arguments vm {V C} _.
Arguments executable {V C} _.
Arguments program {V C} _.
Arguments program_vm_addr {V C} _.
Arguments call_frames {V C} _.
Arguments reg {V C} _.

(** ** Control flow inside a method *)
Inductive flow (A : Type) := Next (a : A) | Return (b : bool) | Unwind.
Arguments Next {A} _.
Arguments Return {A} _.
Arguments Unwind {A}.

Section Monad.
Context {V C : Type}.

Definition interp (A : Type) : Type := Interpreter V C -> flow A * Interpreter V C.

#[global] Instance interp_ret : MRet interp := fun A a s => (Next a, s).
#[global] Instance interp_bind : MBind interp := fun A B f m s =>
  match m s with
  | (Next a, s') => f a s'
  | (Return b, s') => (Return b, s')
  | (Unwind, s') => (Unwind, s')
  end.

Definition gets {A} (f : Interpreter V C -> A) : interp A := fun s => (Next (f s), s).

(** A computation on integers: its [Err] does not occur. *)
Definition lift {A} (r : result False A) : interp A := fun s =>
  match r with Ok a => (Next a, s) | Err e => match e with end | Panic => (Unwind, s) end.

Definition put_vm (f : EbpfVm V C -> EbpfVm V C) : interp unit := fun s =>
  (Next tt, mkInterp (f (vm s)) (executable s) (program s) (program_vm_addr s) (call_frames s) (reg s)).
Definition put_frames (f : list CallFrame -> list CallFrame) : interp unit := fun s =>
  (Next tt, mkInterp (vm s) (executable s) (program s) (program_vm_addr s) (f (call_frames s)) (reg s)).
Definition put_reg (f : list Z -> list Z) : interp unit := fun s =>
  (Next tt, mkInterp (vm s) (executable s) (program s) (program_vm_addr s) (call_frames s) (f (reg s))).

Definition ret_early {A} (b : bool) : interp A := fun s => (Return b, s).

(** A call of a method returning [bool]. *)
Definition call (m : interp bool) : interp bool := fun s =>
  match m s with (Return b, s') => (Next b, s') | r => r end.

(** [self.reg[i]] read and written; an index past the array panics. *)
Definition rd (i : Z) : interp Z := fun s =>
  match get (reg s) i with Some x => (Next x, s) | None => (Unwind, s) end.
Definition wr (i x : Z) : interp unit := fun s =>
  match set (reg s) i x with
  | Some r => put_reg (fun _ => r) s
  | None => (Unwind, s)
  end.

(** [throw_error!] *)
Definition throw_error {A} (e : EbpfError) : interp A :=
  r11 ← rd 11;
  _ ← put_vm (fun vm => set_registers (<[11%nat := r11]> (registers vm)) vm);
  _ ← put_vm (set_result (StErr e));
  ret_early false.
Definition throw_div_by_zero (w src : Z) : interp unit :=
  if as_u w src =? 0 then throw_error DivideByZero else mret tt.
Definition throw_div_overflow (w src dst : Z) : interp unit :=
  if (as_i w dst =? - 2 ^ (w - 1)) && (as_i w src =? -1)
  then throw_error DivideOverflow else mret tt.
End Monad.

(** ** Arithmetic of the arms *)
Section Alu.
Variable v : SBPFVersion.

(** [Interpreter::sign_extension] on an [i32]. *)
Definition sign_extension (value : Z) : Z :=
  if explicit_sign_extension_of_results v then as_u 32 value else as_u 64 value.

Definition wrapping_i32 (z : Z) : Z := as_i 32 z.

Definition add32 (a b : Z) : Z := sign_extension (wrapping_i32 (as_i 32 a + as_i 32 b)).
Definition sub32 (a b : Z) : Z := sign_extension (wrapping_i32 (as_i 32 a - as_i 32 b)).
Definition mul32 (a b : Z) : Z := sign_extension (wrapping_i32 (as_i 32 a * as_i 32 b)).
Definition or32 (a b : Z) : Z := Z.lor (as_u 32 a) (as_u 32 b).
Definition and32 (a b : Z) : Z := Z.land (as_u 32 a) (as_u 32 b).
Definition xor32 (a b : Z) : Z := Z.lxor (as_u 32 a) (as_u 32 b).
Definition lsh32 (a b : Z) : Z := wrapping_shl 32 (as_u 32 a) (as_u 32 b).
Definition rsh32 (a b : Z) : Z := wrapping_shr 32 (as_u 32 a) (as_u 32 b).
Definition arsh32 (a b : Z) : Z := as_u 32 (wrapping_shr 32 (as_i 32 a) (as_u 32 b)).
Definition neg32 (a : Z) : Z := Z.land (as_u 64 (wrapping_i32 (- as_i 32 a))) u32_max.
Definition mov32_reg (b : Z) : Z :=
  if explicit_sign_extension_of_results v then as_u 64 (as_i 32 b) else as_u 32 b.

(** On 64 bits an immediate enters as [insn.imm as u64]. *)
Definition add64 (a b : Z) : Z := as_u 64 (a + as_u 64 b).
Definition sub64 (a b : Z) : Z := as_u 64 (as_u 64 a - as_u 64 b).
Definition mul64 (a b : Z) : Z := as_u 64 (a * as_u 64 b).
Definition or64 (a b : Z) : Z := Z.lor a (as_u 64 b).
Definition and64 (a b : Z) : Z := Z.land a (as_u 64 b).
Definition xor64 (a b : Z) : Z := Z.lxor a (as_u 64 b).
Definition lsh64 (a b : Z) : Z := wrapping_shl 64 a (as_u 32 b).
Definition rsh64 (a b : Z) : Z := wrapping_shr 64 a (as_u 32 b).
Definition arsh64 (a b : Z) : Z := as_u 64 (wrapping_shr 64 (as_i 64 a) (as_u 32 b)).
Definition neg64 (a : Z) : Z := as_u 64 (as_i 64 (- as_i 64 a)).
Definition hor64 (a b : Z) : Z := Z.lor a (wrapping_shl 64 (as_u 64 b) 32).

Definition lmul32 (a b : Z) : Z := as_u 32 (as_u 32 a * as_u 32 b).
(** The high half of a product, computed on 128 bits. *)
Definition uhmul (a b : Z) : Z := as_u 64 (wrapping_shr 128 (as_u 128 (a * b)) 64).
Definition shmul (a b : Z) : Z := as_u 64 (wrapping_shr 128 (as_i 128 (a * b)) 64).

(** The values of the arms [LE] and [BE]; [None] is [InvalidInstruction]. *)
Definition to_le (imm a : Z) : option Z :=
  if imm =? 16 then Some (as_u 16 a) else if imm =? 32 then Some (as_u 32 a)
  else if imm =? 64 then Some a else None.
Definition to_be (imm a : Z) : option Z :=
  if imm =? 16 then Some (swap_bytes 2 (as_u 16 a))
  else if imm =? 32 then Some (swap_bytes 4 (as_u 32 a))
  else if imm =? 64 then Some (swap_bytes 8 a) else None.
End Alu.

(** ** Helpers of [step] *)
Section Methods.
Context {V C : Type} `{Profile, ContextObject C, VmMemory C, Builtins V C}.
Abbreviation I := (@interp V C).

(** [translate_memory_access!] *)
Definition translate_load (n : nat) (vm_addr : Z) : I Z := fun s =>
  let (r, c) := mem_load n vm_addr (context (vm s)) in
  let s' := (put_vm (set_context c) s).2 in
  match r with
  | Ok x => (Next x, s')
  | Err e => throw_error e s'
  | Panic => (Unwind, s')
  end.
Definition translate_store (n : nat) (value vm_addr : Z) : I unit := fun s =>
  let (r, c) := mem_store n (as_u (8 * Z.of_nat n) value) vm_addr (context (vm s)) in
  let s' := (put_vm (set_context c) s).2 in
  match r with
  | Ok _ => (Next tt, s')
  | Err e => throw_error e s'
  | Panic => (Unwind, s')
  end.

(** [check_pc!] *)
Definition check_pc (target_pc : Z) : I Z :=
  prog ← gets program;
  if is_pc_in_program prog target_pc then mret target_pc
  else throw_error CallOutsideTextSegment.

(** [Interpreter::push_frame] *)
Definition push_frame (config : Config) : I bool :=
  depth ← gets (fun s => call_depth (vm s));
  frames ← gets call_frames;
  r ← gets reg;
  fp ← rd FRAME_PTR_REG;
  pc ← rd 11;
  target ← lift (arith_u64 (pc + 1));
  let saved := take (Z.to_nat SCRATCH_REGS) (drop (Z.to_nat FIRST_SCRATCH_REG) r) in
  frames ← lift (or_panic (set frames depth (mkFrame saved fp target)));
  _ ← put_frames (fun _ => frames);
  depth' ← lift (arith_u64 (depth + 1));
  _ ← put_vm (set_call_depth depth');
  _ ← (if depth' =? max_call_depth config then throw_error CallDepthExceeded else mret tt);
  v ← gets (fun s => sbpf_version (executable s));
  _ ← (if negb (manual_stack_frame_bump v) then
         let num_frames := if stack_frame_gaps v && enable_stack_frame_gaps config then 2 else 1 in
         size ← lift (arith_u64 (stack_frame_size config * num_frames));
         wr FRAME_PTR_REG (as_u 64 (fp + size))
       else mret tt);
  mret true.

(** [Interpreter::dispatch_syscall] *)
Definition dispatch_syscall (function : V) : I ProgramResult :=
  m ← gets (fun s => vm s);
  due ← lift (arith_u64 (previous_instruction_meter m - due_insn_count m));
  _ ← put_vm (set_due due);
  r ← gets reg;
  _ ← put_vm (fun m => set_registers (take 6 r ++ drop 6 (registers m)) m);
  m ← gets (fun s => vm s);
  _ ← (match invoke_function function m with
       | Ok m' => put_vm (fun _ => m')
       | Err _ | Panic => fun s => (Unwind, s)
       end);
  _ ← put_vm (set_due 0);
  gets (fun s => program_result (vm s)).
End Methods.

(** ** The arms of [step] *)
Section Arms.
Context {V C : Type} `{Profile, ByteOrder, ContextObject C, VmMemory C, Builtins V C}.
Variables (v : SBPFVersion) (config : Config) (insn : Insn) (next_pc : Z).
Abbreviation I := (@interp V C).
Abbreviation dst := (dst insn).
Abbreviation src := (src insn).
Abbreviation imm := (imm insn).
Abbreviation off := (off insn).

Definition on (opcode : Z) (body : I Z) : arm (I Z) := mkArm [opcode] true body.
Definition on_if (opcode : Z) (guard : bool) (body : I Z) : arm (I Z) := mkArm [opcode] guard body.

(** [self.reg[dst] = f(self.reg[dst], insn.imm)] and so on. *)
Definition dst_imm (f : Z -> Z -> Z) : I Z :=
  a ← rd dst; _ ← wr dst (f a imm); mret next_pc.
Definition dst_src (f : Z -> Z -> Z) : I Z :=
  a ← rd dst; b ← rd src; _ ← wr dst (f a b); mret next_pc.
Definition dst_only (f : Z -> Z) : I Z := a ← rd dst; _ ← wr dst (f a); mret next_pc.

(** Divisions: [f] panics on a divisor the source does not exclude. *)
Definition div_imm (f : Z -> Z -> result False Z) : I Z :=
  a ← rd dst; x ← lift (f a imm); _ ← wr dst x; mret next_pc.
Definition div_src (w : Z) (f : Z -> Z -> result False Z) : I Z :=
  b ← rd src; _ ← throw_div_by_zero w b;
  a ← rd dst; x ← lift (f a b); _ ← wr dst x; mret next_pc.
Definition sdiv_imm (w : Z) (f : Z -> Z -> result False Z) : I Z :=
  a ← rd dst; _ ← throw_div_overflow w imm a;
  x ← lift (f a imm); _ ← wr dst x; mret next_pc.
Definition sdiv_src (w : Z) (f : Z -> Z -> result False Z) : I Z :=
  b ← rd src; _ ← throw_div_by_zero w b;
  a ← rd dst; _ ← throw_div_overflow w b a;
  x ← lift (f a b); _ ← wr dst x; mret next_pc.

Definition udiv32 (a b : Z) : result False Z := div_u (as_u 32 a) (as_u 32 b).
Definition urem32 (a b : Z) : result False Z := rem_u (as_u 32 a) (as_u 32 b).
Definition udiv64 (a b : Z) : result False Z := div_u a (as_u 64 b).
Definition urem64 (a b : Z) : result False Z := rem_u a (as_u 64 b).
(** The [PQR] forms zero-extend the immediate. *)
Definition udiv64_imm (a b : Z) : result False Z := div_u a (as_u 32 b).
Definition urem64_imm (a b : Z) : result False Z := rem_u a (as_u 32 b).
Definition sdiv32 (a b : Z) : result False Z :=
  q ← div_i 32 (as_i 32 a) (as_i 32 b); Ok (as_u 32 q).
Definition srem32 (a b : Z) : result False Z :=
  q ← rem_i 32 (as_i 32 a) (as_i 32 b); Ok (as_u 32 q).
Definition sdiv64 (a b : Z) : result False Z :=
  q ← div_i 64 (as_i 64 a) (as_i 64 b); Ok (as_u 64 q).
Definition srem64 (a b : Z) : result False Z :=
  q ← rem_i 64 (as_i 64 a) (as_i 64 b); Ok (as_u 64 q).

Definition load_op (n : nat) : I Z :=
  b ← rd src;
  let vm_addr := as_u 64 (as_i 64 (as_i 64 b + off)) in
  x ← translate_load n vm_addr; _ ← wr dst x; mret next_pc.
Definition store_imm (n : nat) : I Z :=
  a ← rd dst;
  let vm_addr := as_u 64 (as_i 64 (as_i 64 a + off)) in
  _ ← translate_store n imm vm_addr; mret next_pc.
Definition store_reg (n : nat) : I Z :=
  a ← rd dst;
  let vm_addr := as_u 64 (as_i 64 (as_i 64 a + off)) in
  b ← rd src; _ ← translate_store n b vm_addr; mret next_pc.

(** [next_pc = (next_pc as i64 + insn.off as i64) as u64] *)
Definition jump_if (c : bool) : I Z :=
  if c then t ← lift (arith_i64 (as_i 64 next_pc + off)); mret (as_u 64 t) else mret next_pc.
Definition jump_imm (test : Z -> Z -> bool) : I Z := a ← rd dst; jump_if (test a imm).
Definition jump_src (test : Z -> Z -> bool) : I Z := a ← rd dst; b ← rd src; jump_if (test a b).
Definition u32_test (test : Z -> Z -> bool) (a b : Z) : bool := test (as_u 32 a) (as_u 32 b).
Definition i32_test (test : Z -> Z -> bool) (a b : Z) : bool := test (as_i 32 a) (as_i 32 b).
Definition u64_test (test : Z -> Z -> bool) (a b : Z) : bool := test a (as_u 64 b).
Definition i64_test (test : Z -> Z -> bool) (a b : Z) : bool := test (as_i 64 a) (as_i 64 b).
Definition is_set (a b : Z) : bool := negb (Z.land a b =? 0).
Definition differ (a b : Z) : bool := negb (a =? b).

Definition lddw_arms : list (arm (I Z)) := [
  on_if LD_DW_IMM (negb (disable_lddw v))
    (prog ← gets program;
     i ← lift (augment_lddw_unchecked prog insn);
     _ ← wr dst (as_u 64 (Ebpf.imm i));
     pc ← rd 11; pc' ← lift (arith_u64 (pc + 1)); _ ← wr 11 pc';
     lift (arith_u64 (next_pc + 1)))].

Definition ldx_arms : list (arm (I Z)) :=
  let g := negb (move_memory_instruction_classes v) in [
  on_if LD_B_REG g (load_op 1); on_if LD_H_REG g (load_op 2);
  on_if LD_W_REG g (load_op 4); on_if LD_DW_REG g (load_op 8)].

Definition st_arms : list (arm (I Z)) :=
  let g := negb (move_memory_instruction_classes v) in [
  on_if ST_B_IMM g (store_imm 1); on_if ST_H_IMM g (store_imm 2);
  on_if ST_W_IMM g (store_imm 4); on_if ST_DW_IMM g (store_imm 8)].

Definition stx_arms : list (arm (I Z)) :=
  let g := negb (move_memory_instruction_classes v) in [
  on_if ST_B_REG g (store_reg 1); on_if ST_H_REG g (store_reg 2);
  on_if ST_W_REG g (store_reg 4); on_if ST_DW_REG g (store_reg 8)].

Definition alu32_arms : list (arm (I Z)) :=
  let moved := move_memory_instruction_classes v in
  let legacy := negb (enable_pqr v) in [
  on ADD32_IMM (dst_imm (add32 v));
  on ADD32_REG (dst_src (add32 v));
  on SUB32_IMM (if swap_sub_reg_imm_operands v
                then dst_imm (fun a b => sub32 v b a) else dst_imm (sub32 v));
  on SUB32_REG (dst_src (sub32 v));
  on_if MUL32_IMM legacy (dst_imm (mul32 v));
  on_if MUL32_REG legacy (dst_src (mul32 v));
  on_if LD_1B_REG moved (load_op 1);
  on_if DIV32_IMM legacy (div_imm udiv32);
  on_if DIV32_REG legacy (div_src 32 udiv32);
  on_if LD_2B_REG moved (load_op 2);
  on OR32_IMM (dst_imm or32);
  on OR32_REG (dst_src or32);
  on AND32_IMM (dst_imm and32);
  on AND32_REG (dst_src and32);
  on LSH32_IMM (dst_imm lsh32);
  on LSH32_REG (dst_src lsh32);
  on RSH32_IMM (dst_imm rsh32);
  on RSH32_REG (dst_src rsh32);
  on_if NEG32 (negb (disable_neg v)) (dst_only neg32);
  on_if LD_4B_REG moved (load_op 4);
  on_if MOD32_IMM legacy (div_imm urem32);
  on_if MOD32_REG legacy (div_src 32 urem32);
  on_if LD_8B_REG moved (load_op 8);
  on XOR32_IMM (dst_imm xor32);
  on XOR32_REG (dst_src xor32);
  on MOV32_IMM (_ ← wr dst (as_u 32 imm); mret next_pc);
  on MOV32_REG (b ← rd src; _ ← wr dst (mov32_reg v b); mret next_pc);
  on ARSH32_IMM (dst_imm arsh32);
  on ARSH32_REG (dst_src arsh32);
  on_if LE (negb (disable_le v))
    (a ← rd dst; x ← from_option mret (throw_error InvalidInstruction) (to_le imm a);
     _ ← wr dst x; mret next_pc);
  on BE
    (a ← rd dst; x ← from_option mret (throw_error InvalidInstruction) (to_be imm a);
     _ ← wr dst x; mret next_pc)].

Definition alu64_arms : list (arm (I Z)) :=
  let moved := move_memory_instruction_classes v in
  let legacy := negb (enable_pqr v) in [
  on ADD64_IMM (dst_imm add64);
  on ADD64_REG (dst_src add64);
  on SUB64_IMM (if swap_sub_reg_imm_operands v
                then dst_imm (fun a b => sub64 b a) else dst_imm sub64);
  on SUB64_REG (dst_src sub64);
  on_if MUL64_IMM legacy (dst_imm mul64);
  on_if ST_1B_IMM moved (store_imm 1);
  on_if MUL64_REG legacy (dst_src mul64);
  on_if ST_1B_REG moved (store_reg 1);
  on_if DIV64_IMM legacy (div_imm udiv64);
  on_if ST_2B_IMM moved (store_imm 2);
  on_if DIV64_REG legacy (div_src 64 udiv64);
  on_if ST_2B_REG moved (store_reg 2);
  on OR64_IMM (dst_imm or64);
  on OR64_REG (dst_src or64);
  on AND64_IMM (dst_imm and64);
  on AND64_REG (dst_src and64);
  on LSH64_IMM (dst_imm lsh64);
  on LSH64_REG (dst_src lsh64);
  on RSH64_IMM (dst_imm rsh64);
  on RSH64_REG (dst_src rsh64);
  on_if ST_4B_IMM moved (store_imm 4);
  on_if NEG64 (negb (disable_neg v)) (dst_only neg64);
  on_if ST_4B_REG moved (store_reg 4);
  on_if MOD64_IMM legacy (div_imm urem64);
  on_if ST_8B_IMM moved (store_imm 8);
  on_if MOD64_REG legacy (div_src 64 urem64);
  on_if ST_8B_REG moved (store_reg 8);
  on XOR64_IMM (dst_imm xor64);
  on XOR64_REG (dst_src xor64);
  on MOV64_IMM (_ ← wr dst (as_u 64 imm); mret next_pc);
  on MOV64_REG (b ← rd src; _ ← wr dst b; mret next_pc);
  on ARSH64_IMM (dst_imm arsh64);
  on ARSH64_REG (dst_src arsh64);
  on_if HOR64_IMM (disable_lddw v) (dst_imm hor64)].

Definition pqr_arms : list (arm (I Z)) :=
  let g := enable_pqr v in [
  on_if LMUL32_IMM g (dst_imm lmul32);
  on_if LMUL32_REG g (dst_src lmul32);
  on_if LMUL64_IMM g (dst_imm mul64);
  on_if LMUL64_REG g (dst_src mul64);
  on_if UHMUL64_IMM g (dst_imm (fun a b => uhmul a (as_u 32 b)));
  on_if UHMUL64_REG g (dst_src uhmul);
  on_if SHMUL64_IMM g (dst_imm (fun a b => shmul (as_i 64 a) b));
  on_if SHMUL64_REG g (dst_src (fun a b => shmul (as_i 64 a) (as_i 64 b)));
  on_if UDIV32_IMM g (div_imm udiv32);
  on_if UDIV32_REG g (div_src 32 udiv32);
  on_if UDIV64_IMM g (div_imm udiv64_imm);
  on_if UDIV64_REG g (div_src 64 udiv64);
  on_if UREM32_IMM g (div_imm urem32);
  on_if UREM32_REG g (div_src 32 urem32);
  on_if UREM64_IMM g (div_imm urem64_imm);
  on_if UREM64_REG g (div_src 64 urem64);
  on_if SDIV32_IMM g (sdiv_imm 32 sdiv32);
  on_if SDIV32_REG g (sdiv_src 32 sdiv32);
  on_if SDIV64_IMM g (sdiv_imm 64 sdiv64);
  on_if SDIV64_REG g (sdiv_src 64 sdiv64);
  on_if SREM32_IMM g (sdiv_imm 32 srem32);
  on_if SREM32_REG g (sdiv_src 32 srem32);
  on_if SREM64_IMM g (sdiv_imm 64 srem64);
  on_if SREM64_REG g (sdiv_src 64 srem64)].

Definition jmp32_arms : list (arm (I Z)) :=
  let g := enable_jmp32 v in [
  on_if JEQ32_IMM g (jump_imm (u32_test Z.eqb));
  on_if JEQ32_REG g (jump_src (u32_test Z.eqb));
  on_if JGT32_IMM g (jump_imm (u32_test Z.gtb));
  on_if JGT32_REG g (jump_src (u32_test Z.gtb));
  on_if JGE32_IMM g (jump_imm (u32_test Z.geb));
  on_if JGE32_REG g (jump_src (u32_test Z.geb));
  on_if JLT32_IMM g (jump_imm (u32_test Z.ltb));
  on_if JLT32_REG g (jump_src (u32_test Z.ltb));
  on_if JLE32_IMM g (jump_imm (u32_test Z.leb));
  on_if JLE32_REG g (jump_src (u32_test Z.leb));
  on_if JSET32_IMM g (jump_imm (u32_test is_set));
  on_if JSET32_REG g (jump_src (u32_test is_set));
  on_if JNE32_IMM g (jump_imm (u32_test differ));
  on_if JNE32_REG g (jump_src (u32_test differ));
  on_if JSGT32_IMM g (jump_imm (i32_test Z.gtb));
  on_if JSGT32_REG g (jump_src (i32_test Z.gtb));
  on_if JSGE32_IMM g (jump_imm (i32_test Z.geb));
  on_if JSGE32_REG g (jump_src (i32_test Z.geb));
  on_if JSLT32_IMM g (jump_imm (i32_test Z.ltb));
  on_if JSLT32_REG g (jump_src (i32_test Z.ltb));
  on_if JSLE32_IMM g (jump_imm (i32_test Z.leb));
  on_if JSLE32_REG g (jump_src (i32_test Z.leb))].

Definition jmp64_arms : list (arm (I Z)) := [
  on JA (jump_if true);
  on JEQ64_IMM (jump_imm (u64_test Z.eqb));
  on JEQ64_REG (jump_src (u64_test Z.eqb));
  on JGT64_IMM (jump_imm (u64_test Z.gtb));
  on JGT64_REG (jump_src (u64_test Z.gtb));
  on JGE64_IMM (jump_imm (u64_test Z.geb));
  on JGE64_REG (jump_src (u64_test Z.geb));
  on JLT64_IMM (jump_imm (u64_test Z.ltb));
  on JLT64_REG (jump_src (u64_test Z.ltb));
  on JLE64_IMM (jump_imm (u64_test Z.leb));
  on JLE64_REG (jump_src (u64_test Z.leb));
  on JSET64_IMM (jump_imm (u64_test is_set));
  on JSET64_REG (jump_src (u64_test is_set));
  on JNE64_IMM (jump_imm (u64_test differ));
  on JNE64_REG (jump_src (u64_test differ));
  on JSGT64_IMM (jump_imm (i64_test Z.gtb));
  on JSGT64_REG (jump_src (i64_test Z.gtb));
  on JSGE64_IMM (jump_imm (i64_test Z.geb));
  on JSGE64_REG (jump_src (i64_test Z.geb));
  on JSLT64_IMM (jump_imm (i64_test Z.ltb));
  on JSLT64_REG (jump_src (i64_test Z.ltb));
  on JSLE64_IMM (jump_imm (i64_test Z.leb));
  on JSLE64_REG (jump_src (i64_test Z.leb))].

(** [CALL_REG] *)
Definition callx : I Z :=
  target_pc ← (if callx_uses_src_reg v then rd src
               else if callx_uses_dst_reg v then rd dst
               else rd (as_u 64 imm));
  ok ← call (push_frame config);
  _ ← (if negb ok then ret_early false else mret tt);
  base ← gets program_vm_addr;
  check_pc (as_u 64 (target_pc - base) / INSN_SIZE).

(** [CALL_IMM]: whether the syscall of that key was found and called ... *)
Definition call_external : I bool :=
  e ← gets executable;
  if negb (static_syscalls v) || (src =? 0) then
    match lookup_by_key (sparse_registry (exec_loader e)) (as_u 32 imm) with
    | Some (_, callback) =>
        r ← dispatch_syscall callback;
        match r with
        | StOk value => _ ← wr 0 value; mret true
        | StErr _ => ret_early false
        end
    | None => mret false
    end
  else mret false.

(** ... and the internal call: whether it was resolved, and [next_pc]. *)
Definition call_internal : I (bool * Z) :=
  e ← gets executable;
  prog ← gets program;
  if static_syscalls v then
    let target_pc := saturating_i64 (as_i 64 next_pc + imm) in
    if is_pc_in_program prog (as_u 64 target_pc) && (src =? 1) then
      ok ← call (push_frame config);
      _ ← (if negb ok then ret_early false else mret tt);
      mret (true, as_u 64 target_pc)
    else mret (false, next_pc)
  else
    match lookup_by_key (function_registry e) (as_u 32 imm) with
    | Some (_, target_pc) =>
        ok ← call (push_frame config);
        _ ← (if negb ok then ret_early false else mret tt);
        pc ← check_pc target_pc;
        mret (true, pc)
    | None => mret (false, next_pc)
    end.

Definition call_imm : I Z :=
  external ← call_external;
  internal ← call_internal;
  if negb (external || internal.1) then throw_error UnsupportedInstruction
  else mret internal.2.

(** [EXIT] *)
Definition exit : I Z :=
  m ← gets (fun s => vm s);
  if call_depth m =? 0 then
    _ ← (if enable_instruction_meter config && (previous_instruction_meter m <? due_insn_count m)
         then throw_error ExceededMaxInstructions else mret tt);
    r0 ← rd 0;
    _ ← put_vm (set_result (StOk r0));
    ret_early false
  else
    depth ← lift (arith_u64 (call_depth m - 1));
    _ ← put_vm (set_call_depth depth);
    frames ← gets call_frames;
    frame ← lift (or_panic (get frames depth));
    _ ← wr FRAME_PTR_REG (frame_pointer frame);
    _ ← put_reg (fun r => take (Z.to_nat FIRST_SCRATCH_REG) r ++ caller_saved_registers frame ++
                            drop (Z.to_nat (FIRST_SCRATCH_REG + SCRATCH_REGS)) r);
    mret (target_pc frame).

Definition call_arms : list (arm (I Z)) :=
  [on CALL_REG callx; on CALL_IMM call_imm; on EXIT exit].

Definition step_arms : list (arm (I Z)) :=
  lddw_arms ++ ldx_arms ++ st_arms ++ stx_arms ++ alu32_arms ++ alu64_arms ++ pqr_arms ++
  jmp32_arms ++ jmp64_arms ++ call_arms.
End Arms.

(** ** [Interpreter::step] and the loop around it *)
Section Step.
Context {V C : Type} `{Profile, ByteOrder, ContextObject C, VmMemory C, Builtins V C}.
Abbreviation I := (@interp V C).

Definition step : I bool :=
  e ← gets executable;
  config ← lift (get_config (exec_loader e));
  m ← gets (fun s => vm s);
  _ ← (if enable_instruction_meter config && (previous_instruction_meter m <=? due_insn_count m)
       then throw_error ExceededMaxInstructions else mret tt);
  due ← lift (arith_u64 (due_insn_count m + 1));
  _ ← put_vm (set_due due);
  pc ← rd 11;
  prog ← gets program;
  o ← lift (arith_u64 (pc * INSN_SIZE));
  _ ← (if Z.of_nat (length prog) <=? o then throw_error ExecutionOverrun else mret tt);
  next_pc ← lift (arith_u64 (pc + 1));
  insn ← lift (get_insn_unchecked prog pc);
  r ← gets reg;
  _ ← (if enable_register_tracing config then put_vm (push_trace r) else mret tt);
  next_pc ← match_opc (opc insn) (step_arms (sbpf_version e) config insn next_pc)
              (throw_error UnsupportedInstruction);
  _ ← wr 11 next_pc;
  mret true.

(** [while interpreter.step() {}]; [None] when [fuel] steps were not enough. *)
Fixpoint run_interpreter (fuel : nat) (s : Interpreter V C)
    : option (result False (Interpreter V C)) :=
  match fuel with
  | O => None
  | S fuel =>
      match call step s with
      | (Next true, s') => run_interpreter fuel s'
      | (Next false, s') | (Return _, s') => Some (Ok s')
      | (Unwind, _) => Some Panic
      end
  end.

(** [Interpreter::new] *)
Definition interpreter_new (m : EbpfVm V C) (e : Executable V) (regs : list Z)
    (frames : list CallFrame) : result False (Interpreter V C) :=
  text ← get_text_bytes e;
  config ← get_config (exec_loader e);
  if max_call_depth config <=? Z.of_nat (length frames)
  then Ok (mkInterp m e text.2 text.1 frames regs) else Panic.

Inductive ExecutionMode := Interpreted | JitMode | PreferJit.

(** [execute_program]: the instruction count, the result and the VM left
    behind.  [compiled] is [get_compiled_program], the native code of the
    production JIT; the [debug_assert] on the identity of the loader is left
    out, as the model has no pointers.  [fuel] bounds the interpreter loop. *)
Definition execute_program (fuel : nat) (compiled : option (EbpfVm V C -> EbpfVm V C))
    (m : EbpfVm V C) (e : Executable V) (mode : ExecutionMode) (frames : list CallFrame)
    : option (result False (Z * ProgramResult * ExecutionMode * EbpfVm V C)) :=
  let m := set_registers (<[11%nat := entry_pc e]> (registers m)) m in
  match get_config (E := False) (exec_loader e) with
  | Ok config =>
      let initial_insn_count := get_remaining (context m) in
      let m := set_result (StOk 0) (set_due 0 (set_previous_meter initial_insn_count m)) in
      let finish (mode : ExecutionMode) (m : EbpfVm V C) :=
        let '(count, m) :=
          if enable_instruction_meter config then
            let c := consume (context m) (due_insn_count m) in
            (saturating_sub_u64 initial_insn_count (get_remaining c), set_context c m)
          else (0, m) in
        Some (Ok (count, program_result m, mode, set_result (StOk 0) m)) in
      let interpret :=
        match interpreter_new m e (registers m) frames with
        | Ok i => match run_interpreter fuel i with
                  | Some (Ok i') => finish Interpreted (vm i')
                  | Some _ => Some Panic
                  | None => None
                  end
        | _ => Some Panic
        end in
      match mode, compiled with
      | Interpreted, _ => interpret
      | PreferJit, Some invoke => finish JitMode (invoke m)
      | PreferJit, None => interpret
      | JitMode, Some invoke => finish JitMode (invoke m)
      | JitMode, None => Some (Ok (0, StErr JitNotCompiled, JitMode, m))
      end
  | _ => Some Panic
  end.
End Step.
