(* ===== verification/InterpreterFacts.v ===== *)
(** * Safety of interpretation

    A verified program never makes [Interpreter.step] panic, and the
    instruction meter bounds the number of steps.  Both follow from one
    invariant of the interpreter state, kept by every arm. *)

From stdpp Require Import sets strings.
From S2P Require Import Prelude Ebpf Program Verifier VerifierFacts Error Vm Interpreter.

(** ** Weakest preconditions

    [wp m Q E s]: run from [s], [m] ends in [Q] or returns early in [E]; it
    does not panic. *)
Section Wp.
Context {V C : Type}.
Abbreviation S := (Interpreter V C).

Definition wp {A} (m : interp A) (Q : A -> S -> Prop) (E : S -> Prop) (s : S) : Prop :=
  match m s with
  | (Next a, s') => Q a s'
  | (Return b, s') => b = false /\ E s'
  | (Unwind, _) => False
  end.

Lemma wp_bind {A B} (m : interp A) (f : A -> interp B) Q E s :
  wp m (fun a s' => wp (f a) Q E s') E s -> wp (m ≫= f) Q E s.
Proof. unfold wp, mbind, interp_bind. by destruct (m s) as [[] ?]. Qed.

Lemma wp_ret {A} (a : A) Q E s : Q a s -> wp (mret a) Q E s.
Proof. done. Qed.

Lemma wp_gets {A} (f : S -> A) Q E s : Q (f s) s -> wp (gets f) Q E s.
Proof. done. Qed.

Lemma wp_lift {A} (r : result False A) a Q E s : r = Ok a -> Q a s -> wp (lift r) Q E s.
Proof. by intros ->. Qed.

Lemma wp_put_vm f Q E (s : S) :
  Q tt (mkInterp (f (vm s)) (executable s) (program s) (program_vm_addr s) (call_frames s) (reg s)) ->
  wp (put_vm f) Q E s.
Proof. done. Qed.

Lemma wp_rd i x Q E (s : S) : get (reg s) i = Some x -> Q x s -> wp (rd i) Q E s.
Proof. unfold wp, rd. by intros ->. Qed.

Lemma wp_wr i x Q E (s : S) :
  0 <= i < Z.of_nat (length (reg s)) ->
  Q tt (mkInterp (vm s) (executable s) (program s) (program_vm_addr s) (call_frames s)
          (<[Z.to_nat i := x]> (reg s))) ->
  wp (wr i x) Q E s.
Proof. intros Hi. unfold wp, wr. by rewrite set_Some. Qed.

Lemma wp_mono {A} (m : interp A) (Q Q' : A -> S -> Prop) (E E' : S -> Prop) s :
  wp m Q E s -> (forall a s', Q a s' -> Q' a s') -> (forall s', E s' -> E' s') -> wp m Q' E' s.
Proof. unfold wp. destruct (m s) as [[] ?]; naive_solver. Qed.

Lemma wp_call m Q E (s : S) :
  wp m Q (fun s' => Q false s') s -> wp (call m) Q E s.
Proof. unfold wp, call. destruct (m s) as [[|[]|] ?]; naive_solver. Qed.
End Wp.

(** ** Results are 64-bit values *)
Create HintDb ranges.

Lemma as_u_is_u w z : 0 <= w -> is_u w (as_u w z).
Proof. apply as_u_range. Qed.

Lemma is_u_weaken w w' z : 0 <= w <= w' -> is_u w z -> is_u w' z.
Proof.
  unfold is_u. intros Hw [? Hz]. split; [done|].
  eapply Z.lt_le_trans; [exact Hz|]. apply Z.pow_le_mono_r; lia.
Qed.

Lemma as_u_is_u64 w z : 0 <= w <= 64 -> is_u 64 (as_u w z).
Proof. intros. apply (is_u_weaken w); [lia|]. apply as_u_range. lia. Qed.

(** Bitwise operations stay inside any width. *)
Lemma lxor_is_u w a b : 0 <= w -> is_u w a -> is_u w b -> is_u w (Z.lxor a b).
Proof.
  intros Hw Ha Hb. apply is_u_testbit; [done| |].
  - apply Z.lxor_nonneg. unfold is_u in *. lia.
  - intros k Hk. by rewrite Z.lxor_spec, (testbit_is_u w a), (testbit_is_u w b).
Qed.
Lemma land_is_u w a b : 0 <= w -> is_u w a -> is_u w b -> is_u w (Z.land a b).
Proof.
  intros Hw Ha Hb. apply is_u_testbit; [done|apply Z.land_nonneg; unfold is_u in *; lia|].
  intros k Hk. by rewrite Z.land_spec, (testbit_is_u w a), (testbit_is_u w b).
Qed.
Lemma shr_is_u w a n : 0 < w -> is_u w a -> is_u w (wrapping_shr w a n).
Proof.
  intros Hw [Ha Hb]. unfold wrapping_shr. rewrite Z.shiftr_div_pow2 by (apply Z.mod_pos_bound; lia).
  assert (0 < 2 ^ (n mod w)) by (apply Z.pow_pos_nonneg; [|apply Z.mod_pos_bound]; lia).
  split; [apply Z.div_pos; lia|]. eapply Z.le_lt_trans; [|exact Hb].
  apply Z.div_le_upper_bound; [lia|]. nia.
Qed.

#[export] Hint Resolve lor_is_u lxor_is_u land_is_u shr_is_u : ranges.
#[export] Hint Extern 1 (is_u 64 (as_u _ _)) => apply as_u_is_u64; lia : ranges.
#[export] Hint Extern 2 (_ <= _) => lia : ranges.
#[export] Hint Extern 2 (_ < _) => lia : ranges.

Section AluRanges.
Variable v : SBPFVersion.

Lemma sign_extension_range z : is_u 64 (sign_extension v z).
Proof. unfold sign_extension. case_match; apply as_u_is_u64; lia. Qed.
Lemma bitop32_range f a b :
  (forall a b, is_u 32 a -> is_u 32 b -> is_u 32 (f a b)) -> is_u 64 (f (as_u 32 a) (as_u 32 b)).
Proof. intros Hf. apply (is_u_weaken 32); [lia|]. apply Hf; apply as_u_range; lia. Qed.
Lemma or32_range a b : is_u 64 (or32 a b).
Proof. apply bitop32_range. eauto with ranges. Qed.
Lemma and32_range a b : is_u 64 (and32 a b).
Proof. apply bitop32_range. eauto with ranges. Qed.
Lemma xor32_range a b : is_u 64 (xor32 a b).
Proof. apply bitop32_range. eauto with ranges. Qed.
Lemma rsh32_range a b : is_u 64 (rsh32 a b).
Proof. apply (bitop32_range (wrapping_shr 32)). eauto with ranges. Qed.
Lemma neg32_range a : is_u 64 (neg32 a).
Proof. unfold neg32. apply land_is_u; [lia|apply as_u_is_u64; lia|]. unfold u32_max, is_u. lia. Qed.
Lemma mov32_reg_range b : is_u 64 (mov32_reg v b).
Proof. unfold mov32_reg. case_match; apply as_u_is_u64; lia. Qed.
Lemma or64_range a b : is_u 64 a -> is_u 64 (or64 a b).
Proof. unfold or64. eauto with ranges. Qed.
Lemma and64_range a b : is_u 64 a -> is_u 64 (and64 a b).
Proof. unfold and64. eauto with ranges. Qed.
Lemma xor64_range a b : is_u 64 a -> is_u 64 (xor64 a b).
Proof. unfold xor64. eauto with ranges. Qed.
Lemma rsh64_range a b : is_u 64 a -> is_u 64 (rsh64 a b).
Proof. unfold rsh64. eauto with ranges. Qed.
Lemma hor64_range a b : is_u 64 a -> is_u 64 (hor64 a b).
Proof. unfold hor64, wrapping_shl. eauto with ranges. Qed.

Lemma to_le_range imm a x : is_u 64 a -> to_le imm a = Some x -> is_u 64 x.
Proof. intros Ha. unfold to_le. repeat case_match; intros [= <-]; eauto with ranges. Qed.
Lemma to_be_range imm a x : is_u 64 a -> to_be imm a = Some x -> is_u 64 x.
Proof.
  intros Ha. unfold to_be. repeat case_match; intros [= <-];
    [apply (is_u_weaken 16)|apply (is_u_weaken 32)|]; try lia;
    match goal with |- is_u _ (swap_bytes ?n ?z) => apply (swap_bytes_range n z) end.
Qed.

Lemma div_u_range w a b x : 0 <= w <= 64 -> is_u w a -> 0 <= b -> div_u (E := False) a b = Ok x -> is_u 64 x.
Proof.
  intros Hw Ha Hb. unfold div_u. destruct (Z.eqb_spec b 0); [done|]. intros [= <-].
  apply (is_u_weaken w); [lia|]. destruct Ha as [Ha Hlt]. split; [apply Z.div_pos; lia|].
  eapply Z.le_lt_trans; [|exact Hlt]. apply Z.div_le_upper_bound; [lia|]. nia.
Qed.
Lemma rem_u_range w a b x : 0 <= w <= 64 -> is_u w a -> 0 <= b -> rem_u (E := False) a b = Ok x -> is_u 64 x.
Proof.
  intros Hw Ha Hb. unfold rem_u. destruct (Z.eqb_spec b 0); [done|]. intros [= <-].
  apply (is_u_weaken w); [lia|]. destruct Ha as [Ha Hlt].
  pose proof (Z.mod_le a b Ha ltac:(lia)). pose proof (Z.mod_pos_bound a b ltac:(lia)).
  split; lia.
Qed.
End AluRanges.

(** ** The invariant *)
Section Invariant.
Context {V C : Type} `{P : Profile, B : ByteOrder, !ByteOrderLaws}
  `{CO : ContextObject C, M : VmMemory C, BF : Builtins V C}
  `{CL : !ContextObjectLaws C, !VmMemoryLaws C, !BuiltinsLaws V C}.
Variables (cfg : Config) (e : Executable V) (prog : list byte).

(** A configuration the meter bounds, and a program that was verified. *)
Record setup : Prop := {
  setup_config : config (exec_loader e) = Some cfg;
  setup_metered : enable_instruction_meter cfg = true;
  setup_frame_size : 0 <= stack_frame_size cfg * 2 <= u64_max;
  setup_depth : 0 < max_call_depth cfg <= u64_max;
  setup_bytes : is_bytes prog;
  setup_length : Z.of_nat (length prog) < 2 ^ 63;
  setup_safe : program_safe prog (sbpf_version e);
  setup_functions : forall key name target,
    lookup_by_key (function_registry e) key = Some (name, target) -> is_u 64 target
}.

Definition frame_ok (f : CallFrame) : Prop :=
  length (caller_saved_registers f) = 4%nat /\ Forall (is_u 64) (caller_saved_registers f) /\
  is_u 64 (frame_pointer f) /\ 0 <= target_pc f <= slots prog.

(** [k] bounds what the meter still allows. *)
Record meter_ok (k : Z) (m : EbpfVm V C) : Prop := {
  meter_loader : config (loader m) = Some cfg;
  meter_registers : length (registers m) = 12%nat;
  meter_previous : previous_instruction_meter m = get_remaining (context m);
  meter_due : 0 <= due_insn_count m <= previous_instruction_meter m;
  meter_memory : context_valid (context m);
  meter_left : previous_instruction_meter m - due_insn_count m <= k
}.

Record inv (k : Z) (s : Interpreter V C) : Prop := {
  inv_executable : executable s = e;
  inv_program : program s = prog;
  inv_reg_length : length (reg s) = 12%nat;
  inv_reg : Forall (is_u 64) (reg s);
  inv_pc : exists pc, get (reg s) 11 = Some pc /\ 0 <= pc <= slots prog;
  inv_depth : 0 <= call_depth (vm s) < max_call_depth cfg;
  inv_frames_length : max_call_depth cfg <= Z.of_nat (length (call_frames s));
  inv_frames : forall i f, Z.of_nat i < call_depth (vm s) -> call_frames s !! i = Some f -> frame_ok f;
  inv_meter : meter_ok k (vm s)
}.

(** The executable, and a program counter in its text. *)
Definition placed (s : Interpreter V C) : Prop :=
  executable s = e /\ exists pc, get (reg s) 11 = Some pc /\ 0 <= pc <= slots prog.

Lemma inv_placed k s : inv k s -> placed s.
Proof. intros []. by split. Qed.

(** The state an early return leaves: the meter is still consistent, a
    successful result is a [u64], and the program counter has not moved out of
    the text. *)
Definition stopped (k : Z) (s : Interpreter V C) : Prop :=
  meter_ok k (vm s) /\ match program_result (vm s) with StOk x => is_u 64 x | StErr _ => True end /\ placed s.

Lemma slots_small : setup -> 8 * slots prog < 2 ^ 63.
Proof. intros HS. pose proof (setup_length HS). pose proof (slots_bound prog). lia. Qed.

Lemma inv_get k s i : inv k s -> 0 <= i < 12 -> exists x, get (reg s) i = Some x /\ is_u 64 x.
Proof.
  intros Hs Hi. destruct (get_Some (reg s) i) as [x Hx]; [rewrite (inv_reg_length _ _ Hs); lia|].
  exists x. split; [done|]. unfold get in Hx. destruct (Z.ltb_spec i 0); [lia|].
  eapply Forall_lookup_1; [apply (inv_reg _ _ Hs)|done].
Qed.

Lemma get_insert (l : list Z) i j x :
  0 <= i -> 0 <= j < Z.of_nat (length l) ->
  get (<[Z.to_nat j := x]> l) i = if decide (i = j) then Some x else get l i.
Proof.
  intros Hi Hj. unfold get. destruct (Z.ltb_spec i 0); [lia|]. case_decide.
  - subst. apply list_lookup_insert_eq. lia.
  - apply list_lookup_insert_ne. lia.
Qed.

(** Writing a register other than the program counter. *)
Lemma inv_write k s i x :
  inv k s -> 0 <= i <= 10 -> is_u 64 x ->
  inv k (mkInterp (vm s) (executable s) (program s) (program_vm_addr s) (call_frames s)
           (<[Z.to_nat i := x]> (reg s))).
Proof.
  intros [He Hp Hl Hr Hpc Hd Hfl Hf Hm] Hi Hx. split; simpl; try done.
  - by rewrite length_insert.
  - by apply Forall_insert.
  - rewrite get_insert by (rewrite ?Hl; lia). by rewrite decide_False by lia.
Qed.

(** Writing the program counter. *)
Lemma inv_write_pc k s pc :
  setup -> inv k s -> 0 <= pc <= slots prog ->
  inv k (mkInterp (vm s) (executable s) (program s) (program_vm_addr s) (call_frames s)
           (<[Z.to_nat 11 := pc]> (reg s))).
Proof.
  intros HS [He Hp Hl Hr Hpc Hd Hfl Hf Hm] Hi. pose proof (slots_small HS).
  split; simpl; try done.
  - by rewrite length_insert.
  - apply Forall_insert; [done|]. unfold is_u. lia.
  - rewrite (get_insert (reg s) 11 11) by (rewrite ?Hl; lia). rewrite decide_True by done. eauto.
Qed.

(** Changing the VM without touching the call depth. *)
Lemma inv_vm k k' s m :
  inv k s -> meter_ok k' m -> call_depth m = call_depth (vm s) ->
  inv k' (mkInterp m (executable s) (program s) (program_vm_addr s) (call_frames s) (reg s)).
Proof.
  intros [He Hp Hl Hr Hpc Hd Hfl Hf Hm] Hm' Hc. split; simpl; try done; rewrite Hc; done.
Qed.

Lemma wp_rd_inv k s i Q E :
  inv k s -> 0 <= i < 12 -> (forall x, is_u 64 x -> Q x s) -> wp (rd i) Q E s.
Proof. intros Hs Hi HQ. destruct (inv_get k s i Hs Hi) as (x & Hx & ?). eapply wp_rd; eauto. Qed.

Lemma wp_wr_inv k s i x Q E :
  inv k s -> 0 <= i <= 10 -> is_u 64 x -> (forall s', inv k s' -> Q tt s') -> wp (wr i x) Q E s.
Proof.
  intros Hs Hi Hx HQ. apply wp_wr; [rewrite (inv_reg_length _ _ Hs); lia|].
  apply HQ. by apply inv_write.
Qed.

Lemma wp_throw_meter {A} k s err (Q : A -> _ -> Prop) :
  placed s -> meter_ok k (vm s) -> wp (throw_error err) Q (stopped k) s.
Proof.
  intros [He (pc & Hpc & Hr)] Hm. unfold throw_error. eapply wp_bind, wp_rd; [exact Hpc|].
  split; [done|]. destruct Hm. split; [|split; [done|]; split; [done|]; by exists pc].
  split; simpl; try done. by rewrite length_insert.
Qed.

Lemma wp_throw {A} k s err (Q : A -> _ -> Prop) : inv k s -> wp (throw_error err) Q (stopped k) s.
Proof. intros Hs. apply wp_throw_meter; [by apply (inv_placed k)|apply Hs]. Qed.

(** A [throw_error] under a condition. *)
Lemma wp_throw_if k s (b : bool) err (Q : unit -> Interpreter V C -> Prop) :
  inv k s -> (b = false -> Q tt s) -> wp (if b then throw_error err else mret tt) Q (stopped k) s.
Proof. intros Hs HQ. destruct b; [by apply wp_throw|]. by apply HQ. Qed.

(** ** Memory accesses *)
Lemma meter_context k m c :
  meter_ok k m -> get_remaining c = get_remaining (context m) -> context_valid c ->
  meter_ok k (set_context c m).
Proof. intros [] Hc Hv. split; simpl; try done. by rewrite Hc. Qed.

Lemma wp_translate_load k s n a Q :
  inv k s -> n ∈ [1; 2; 4; 8]%nat -> is_u 64 a ->
  (forall x s', is_u 64 x -> inv k s' -> Q x s') -> wp (translate_load n a) Q (stopped k) s.
Proof.
  intros Hs Hn Ha HQ.
  pose proof (meter_memory _ _ (inv_meter _ _ Hs)) as Hmem.
  pose proof (mem_load_remaining n a (context (vm s))) as Hr.
  pose proof (mem_load_no_panic n a (context (vm s)) Hmem Hn Ha) as Hp.
  pose proof (fun x => mem_load_value n a (context (vm s)) x Hmem Hn Ha) as Hv.
  pose proof (mem_load_valid n a (context (vm s)) Hmem Hn Ha) as Hmv.
  unfold wp, translate_load. destruct (mem_load n a (context (vm s))) as [r c]. simpl in *.
  assert (Hs' : inv k (mkInterp (set_context c (vm s)) (executable s) (program s)
                         (program_vm_addr s) (call_frames s) (reg s))).
  { eapply inv_vm; [done| |done]. apply meter_context; [apply Hs|done|done]. }
  destruct r as [x|err|]; [|by apply (wp_throw k _ err Q)|done]. apply HQ; [|done].
  apply (is_u_weaken (8 * Z.of_nat n)); [|by apply Hv].
  repeat (apply elem_of_cons in Hn as [->|Hn]; [lia|]). by apply elem_of_nil in Hn.
Qed.

Lemma wp_translate_store k s n x a Q :
  inv k s -> n ∈ [1; 2; 4; 8]%nat -> is_u 64 a ->
  (forall s', inv k s' -> Q tt s') -> wp (translate_store n x a) Q (stopped k) s.
Proof.
  intros Hs Hn Ha HQ. set (y := as_u (8 * Z.of_nat n) x).
  pose proof (meter_memory _ _ (inv_meter _ _ Hs)) as Hmem.
  pose proof (mem_store_remaining n y a (context (vm s))) as Hr.
  pose proof (mem_store_no_panic n y a (context (vm s)) Hmem Hn Ha) as Hp.
  pose proof (mem_store_valid n y a (context (vm s)) Hmem Hn Ha) as Hmv.
  unfold wp, translate_store. fold y.
  destruct (mem_store n y a (context (vm s))) as [r c]. simpl in *.
  assert (Hs' : inv k (mkInterp (set_context c (vm s)) (executable s) (program s)
                         (program_vm_addr s) (call_frames s) (reg s))).
  { eapply inv_vm; [done| |done]. apply meter_context; [apply Hs|done|done]. }
  destruct r as [z|err|]; [by apply HQ|by apply (wp_throw k _ err Q)|done].
Qed.
End Invariant.

(** ** Calls *)
Section Calls.
Context {V C : Type} `{P : Profile, B : ByteOrder, !ByteOrderLaws}
  `{CO : ContextObject C, M : VmMemory C, BF : Builtins V C}
  `{CL : !ContextObjectLaws C, !VmMemoryLaws C, !BuiltinsLaws V C}.
Variables (cfg : Config) (e : Executable V) (prog : list byte).
Hypothesis HS : setup cfg e prog.
Abbreviation inv := (inv cfg e prog).
Abbreviation stopped := (stopped cfg e prog).
Implicit Types (s : Interpreter V C).

(** The frame [push_frame] writes. *)
Lemma saved_frame_ok k s pc fp :
  inv k s -> 0 <= pc <= slots prog -> is_u 64 fp ->
  frame_ok prog (mkFrame (take (Z.to_nat SCRATCH_REGS) (drop (Z.to_nat FIRST_SCRATCH_REG) (reg s))) fp pc).
Proof.
  intros Hs Hpc Hfp. split_and!; simpl; try lia; try apply Hfp.
  - rewrite length_take, length_drop, (inv_reg_length _ _ _ _ _ Hs). done.
  - apply Forall_take, Forall_drop, (inv_reg _ _ _ _ _ Hs).
Qed.

(** Pushing a frame for a call at [pc]: success leaves one more frame, failure
    stops with the meter intact. *)
Lemma wp_push_frame k s pc Q E :
  inv k s -> get (reg s) 11 = Some pc -> pc < slots prog ->
  (forall s', inv k s' -> Q true s') -> (forall s', stopped k s' -> Q false s') ->
  wp (call (push_frame cfg)) Q E s.
Proof.
  intros Hs Hpc Hlt HQ HE. apply wp_call.
  apply (wp_mono _ Q Q (stopped k)); [|done|apply HE].
  destruct HS as [_ _ Hsize Hmax _ _ _ _]. pose proof (slots_small cfg e prog HS).
  pose proof (get_Some_lt _ _ _ Hpc) as _.
  assert (Hpc0 : 0 <= pc) by (destruct (inv_pc _ _ _ _ _ Hs) as (pc' & Hpc' & ?); naive_solver).
  pose proof (inv_depth _ _ _ _ _ Hs) as Hd. pose proof (inv_frames_length _ _ _ _ _ Hs) as Hfl.
  unfold push_frame. do 3 apply wp_bind, wp_gets.
  apply wp_bind, (wp_rd_inv cfg e prog k); [done|done|]. intros fp Hfp.
  eapply wp_bind, wp_rd; [exact Hpc|].
  eapply wp_bind, wp_lift; [apply arith_u64_ok; unfold is_u; lia|]. cbv zeta.
  eapply wp_bind, wp_lift; [rewrite set_Some by lia; done|].
  apply wp_bind. unfold put_frames. simpl. unfold wp at 1.
  eapply wp_bind, wp_lift; [apply arith_u64_ok; unfold is_u; unfold u64_max in *; lia|].
  apply wp_bind, wp_put_vm.
  set (frame := mkFrame _ fp (pc + 1)).
  set (s1 := mkInterp _ _ _ _ _ _).
  assert (Hframe : frame_ok prog frame) by (apply (saved_frame_ok k); [done|lia|done]).
  assert (Hm1 : meter_ok cfg k (vm s1)) by (destruct Hs as [????????[]]; by split).
  assert (Hs1 : call_depth (vm s) + 1 <> max_call_depth cfg -> inv k s1).
  { intros Hne. destruct Hs as [He Hp Hl Hr Hpc' Hd' Hfl' Hf Hm]. split; simpl; try done.
    - lia.
    - by rewrite length_insert.
    - intros i f Hi. destruct (decide (i = Z.to_nat (call_depth (vm s)))) as [->|].
      + rewrite list_lookup_insert_eq by lia. by intros [= <-].
      + rewrite list_lookup_insert_ne by done. apply Hf. lia. }
  apply wp_bind. destruct (Z.eqb_spec (call_depth (vm s) + 1) (max_call_depth cfg)) as [|Hne].
  { apply wp_throw_meter; [|done]. apply (inv_placed _ _ _ _ _ Hs). }
  specialize (Hs1 Hne). apply wp_ret, wp_bind, wp_gets, wp_bind.
  destruct (negb _); [|by apply wp_ret, wp_ret, HQ].
  eapply wp_bind, wp_lift; [apply arith_u64_ok; unfold is_u, u64_max in *; case_match; lia|].
  apply (wp_wr_inv cfg e prog k); [done|done|by apply as_u_range|]. intros s' Hs'.
  by apply wp_ret, HQ.
Qed.

Lemma wp_check_pc k s t (Q : Z -> Interpreter V C -> Prop) :
  inv k s -> 0 <= t -> (0 <= t <= slots prog -> Q t s) -> wp (check_pc t) Q (stopped k) s.
Proof.
  intros Hs Ht HQ. unfold check_pc. apply wp_bind, wp_gets.
  rewrite (inv_program _ _ _ _ _ Hs). destruct (is_pc_in_program prog t) eqn:Hin.
  - apply wp_ret, HQ. pose proof (slots_bound prog).
    apply is_pc_in_program_spec in Hin; [lia|done|apply (setup_length _ _ _ HS)].
  - by apply (wp_throw cfg e prog).
Qed.

(** The meter across a native function: what it consumed and what the caller
    owed come off the allowance. *)
Lemma invoke_function_meter k m f :
  meter_ok cfg k m -> Forall (is_u 64) (take 6 (registers m)) ->
  exists m', invoke_function f (set_due (previous_instruction_meter m - due_insn_count m) m) = Ok m' /\
    meter_ok cfg k (set_due 0 m') /\ call_depth m' = call_depth m /\
    match program_result m' with StOk x => is_u 64 x | StErr _ => True end.
Proof.
  intros [Hl Hr Hp Hd Hmem Hk] Hu. unfold invoke_function. cbn [registers set_due].
  destruct (registers m) as [|? [|r1 [|r2 [|r3 [|r4 [|r5 ?]]]]]] eqn:Hregs; try done. simpl.
  assert (Hargs : Forall (is_u 64) [r1; r2; r3; r4; r5]) by (cbn in Hu; by apply Forall_cons in Hu as [_ Hu]).
  unfold builtin_vm, get_config. cbn [loader set_due]. rewrite Hl. cbn [or_panic mbind result_bind].
  rewrite (setup_metered _ _ _ HS). cbn [previous_instruction_meter due_insn_count set_due].
  pose proof (get_remaining_range (context m) Hmem) as Hrange. unfold is_u in Hrange.
  rewrite arith_u64_ok by (unfold is_u; lia). cbn [mbind result_bind].
  cbn [context set_context set_due].
  set (c1 := consume _ _).
  assert (Hc1 : get_remaining c1 <= get_remaining (context m) - due_insn_count m).
  { unfold c1. etrans; [apply consume_spec; [lia|done]|]. unfold saturating_sub_u64. lia. }
  pose proof (rust_remaining f c1 r1 r2 r3 r4 r5) as Hc2.
  assert (Hmem1 : context_valid c1) by (apply consume_valid; [lia|done]).
  pose proof (rust_valid f c1 r1 r2 r3 r4 r5 Hmem1 Hargs) as Hmem2.
  pose proof (fun x => rust_value f c1 r1 r2 r3 r4 r5 x Hmem1 Hargs) as Hx.
  pose proof (rust_no_panic f c1 r1 r2 r3 r4 r5 Hmem1 Hargs) as Hnp.
  destruct (rust f c1 r1 r2 r3 r4 r5) as [res c2]. simpl in Hc2, Hx, Hnp, Hmem2.
  pose proof (get_remaining_range c2 Hmem2) as Hrange2. unfold is_u in Hrange2.
  destruct res as [x|err|]; [| |done]; cbn [mbind result_bind]; eexists; (split; [done|]);
    (split; [split; simpl; rewrite ?Hregs; try done; lia|]); (split; [done|]); simpl; auto.
Qed.

Lemma wp_dispatch_syscall k s f (Q : ProgramResult -> Interpreter V C -> Prop) E :
  inv k s ->
  (forall s', inv k s' -> reg s' = reg s ->
     match program_result (vm s') with StOk x => is_u 64 x | StErr _ => True end ->
     Q (program_result (vm s')) s') ->
  wp (dispatch_syscall f) Q E s.
Proof.
  intros Hs HQ. pose proof (inv_meter _ _ _ _ _ Hs) as [Hl Hr Hp Hd Hmem Hk].
  pose proof (get_remaining_range (context (vm s)) Hmem) as Hrange. unfold is_u in Hrange.
  unfold dispatch_syscall. apply wp_bind, wp_gets.
  eapply wp_bind, wp_lift; [apply arith_u64_ok; unfold is_u; lia|].
  apply wp_bind, wp_put_vm, wp_bind, wp_gets, wp_bind, wp_put_vm, wp_bind, wp_gets, wp_bind.
  cbn [vm reg executable program program_vm_addr call_frames].
  set (m := set_registers (take 6 (reg s) ++ drop 6 (registers (vm s))) (vm s)).
  change (set_registers _ _) with
    (set_due (previous_instruction_meter m - due_insn_count m) m).
  destruct (invoke_function_meter k m f) as (m' & -> & Hm' & Hdepth & Hres).
  { split; simpl; [done| |done|done|done|done].
    rewrite length_app, length_take, length_drop, (inv_reg_length _ _ _ _ _ Hs), Hr. done. }
  { cbn. rewrite take_app_le by (rewrite length_take, (inv_reg_length _ _ _ _ _ Hs); lia).
    rewrite take_take. apply Forall_take, (inv_reg _ _ _ _ _ Hs). }
  apply wp_put_vm, wp_bind, wp_put_vm, wp_gets.
  cbn [vm reg executable program program_vm_addr call_frames].
  apply (HQ (mkInterp (set_due 0 m') (executable s) (program s) (program_vm_addr s)
               (call_frames s) (reg s))); [|done|done].
  by apply (inv_vm cfg e prog k k s).
Qed.

(** ** The arms for calls and exit *)
Variables (pc : Z) (insn : Insn).
Hypothesis Hpc : 0 <= pc < slots prog.
Hypothesis Hinsn : insn = slot prog pc.
Hypothesis Hsafe : slot_safe prog (sbpf_version e) pc.

(** What an arm establishes: the invariant and a program counter in range. *)
Definition arm_post (k : Z) (npc : Z) (s : Interpreter V C) : Prop :=
  inv k s /\ 0 <= npc <= slots prog.

Lemma wp_pushed k s (m : interp Z) Q :
  inv k s -> get (reg s) 11 = Some pc ->
  (forall s', inv k s' -> wp m Q (stopped k) s') ->
  wp (ok ← call (push_frame cfg); _ ← (if negb ok then ret_early false else mret tt); m) Q (stopped k) s.
Proof.
  intros Hs H11 Hm. apply wp_bind, (wp_push_frame k s pc); [done|done|lia| |].
  - intros s' Hs'. by apply wp_bind, wp_ret, Hm.
  - by intros s' Hs'.
Qed.

Lemma callx_ok k s :
  inv k s -> get (reg s) 11 = Some pc -> opc insn = CALL_REG ->
  wp (callx (sbpf_version e) cfg insn) (arm_post k) (stopped k) s.
Proof.
  intros Hs H11 Hopc. unfold callx. apply wp_bind.
  pose proof (safe_callx _ _ _ Hsafe) as Hr. rewrite <- Hinsn in Hr. specialize (Hr Hopc).
  unfold callx_register in Hr. rewrite <- Hinsn in Hr.
  apply (wp_mono _ (fun _ s' => s' = s) _ (stopped k)); [|intros t s' ->|done].
  - repeat case_match; apply (wp_rd_inv cfg e prog k); try done; try lia.
    rewrite as_u_small by (unfold is_u; lia). lia.
  - apply wp_pushed; [done|done|]. intros s' Hs'. apply wp_bind, wp_gets.
    apply (wp_check_pc k); [done|apply Z.div_pos; [by apply as_u_range|done]|done].
Qed.

Lemma call_external_ok k s (Q : bool -> Interpreter V C -> Prop) :
  inv k s -> get (reg s) 11 = Some pc ->
  (forall b s', inv k s' -> get (reg s') 11 = Some pc -> Q b s') ->
  wp (call_external (sbpf_version e) insn) Q (stopped k) s.
Proof.
  intros Hs H11 HQ. unfold call_external. apply wp_bind, wp_gets.
  destruct (_ || _); [|by apply wp_ret, HQ].
  destruct (lookup_by_key _ _) as [[? f]|]; [|by apply wp_ret, HQ].
  apply wp_bind, (wp_dispatch_syscall k); [done|]. intros s' Hs' Hreg Hres.
  destruct (program_result (vm s')) as [x|err] eqn:Hp.
  - apply wp_bind, wp_wr; [rewrite (inv_reg_length _ _ _ _ _ Hs'); lia|].
    apply wp_ret, HQ; [by apply (inv_write _ _ _ k)|]. simpl. rewrite Hreg.
    change 0%nat with (Z.to_nat 0).
    rewrite get_insert by (rewrite ?(inv_reg_length _ _ _ _ _ Hs); lia). done.
  - split; [done|]. split; [apply Hs'|]. split; [by rewrite Hp|exact (inv_placed _ _ _ _ _ Hs')].
Qed.

Lemma call_internal_ok k s (Q : bool * Z -> Interpreter V C -> Prop) :
  inv k s -> get (reg s) 11 = Some pc ->
  (forall b npc s', inv k s' -> 0 <= npc <= slots prog -> Q (b, npc) s') ->
  wp (call_internal (sbpf_version e) cfg insn (pc + 1)) Q (stopped k) s.
Proof.
  intros Hs H11 HQ. unfold call_internal. apply wp_bind, wp_gets, wp_bind, wp_gets.
  rewrite (inv_program _ _ _ _ _ Hs), (inv_executable _ _ _ _ _ Hs).
  destruct (static_syscalls _).
  - destruct (is_pc_in_program prog _ && _) eqn:Hin; [|apply wp_ret, HQ; [done|lia]].
    apply andb_true_iff in Hin as [Hin _].
    apply wp_bind, (wp_push_frame k s pc); [done|done|lia| |by intros s' Hs'].
    intros s' Hs'. apply wp_bind, wp_ret, wp_ret, HQ; [done|]. pose proof (slots_bound prog).
    pose proof (as_u_range 64 (saturating_i64 (as_i 64 (pc + 1) + imm insn)) ltac:(lia)) as Hr.
    unfold is_u in Hr. apply is_pc_in_program_spec in Hin; [lia|lia|apply (setup_length _ _ _ HS)].
  - destruct (lookup_by_key _ _) as [[name t]|] eqn:Hf; [|apply wp_ret, HQ; [done|lia]].
    apply (setup_functions _ _ _ HS) in Hf. unfold is_u in Hf.
    apply wp_bind, (wp_push_frame k s pc); [done|done|lia| |by intros s' Hs'].
    intros s' Hs'. apply wp_bind, wp_ret, wp_bind, (wp_check_pc k); [done|lia|].
    intros Ht. by apply wp_ret, HQ.
Qed.

Lemma call_imm_ok k s :
  inv k s -> get (reg s) 11 = Some pc ->
  wp (call_imm (sbpf_version e) cfg insn (pc + 1)) (arm_post k) (stopped k) s.
Proof.
  intros Hs H11. unfold call_imm. apply wp_bind, (call_external_ok k); [done|done|].
  intros b s' Hs' H11'. apply wp_bind, (call_internal_ok k); [done|done|].
  intros b' npc s'' Hs'' Hnpc. destruct (negb _); [by apply (wp_throw cfg e prog)|done].
Qed.

(** Restoring a saved frame. *)
Lemma inv_restore k s f d :
  inv k s -> frame_ok prog f -> 0 <= d < call_depth (vm s) ->
  inv k (mkInterp (set_call_depth d (vm s)) (executable s) (program s) (program_vm_addr s) (call_frames s)
    (take (Z.to_nat FIRST_SCRATCH_REG) (<[Z.to_nat FRAME_PTR_REG := frame_pointer f]> (reg s)) ++
     caller_saved_registers f ++
     drop (Z.to_nat (FIRST_SCRATCH_REG + SCRATCH_REGS)) (<[Z.to_nat FRAME_PTR_REG := frame_pointer f]> (reg s)))).
Proof.
  intros [He Hp Hl Hr (pc0 & Hpc0 & Hpc0') Hd Hfl Hf Hm] (Hfl4 & Hfr & Hfp & _) Hd'.
  set (r := <[_ := _]> (reg s)).
  assert (Hlr : length r = 12%nat) by (unfold r; by rewrite length_insert).
  assert (Hrr : Forall (is_u 64) r) by (unfold r; by apply Forall_insert).
  split; simpl; try done.
  - rewrite !length_app, length_take, length_drop, Hlr, Hfl4. done.
  - apply Forall_app_2; [by apply Forall_take|]. apply Forall_app_2; [done|by apply Forall_drop].
  - exists pc0. split; [|done].
    assert (Hr11 : r !! 11%nat = Some pc0).
    { unfold r. rewrite list_lookup_insert_ne by done. exact Hpc0. }
    change (get _ 11) with ((take 6 r ++ caller_saved_registers f ++ drop 10 r) !! 11%nat).
    do 12 (destruct r as [|? r]; [done|]). destruct (caller_saved_registers f) as [|? [|? [|? [|? []]]]]; done.
  - lia.
  - intros i f' Hi. apply Hf. lia.
  - by destruct Hm.
Qed.

Lemma exit_ok k s : inv k s -> wp (exit cfg) (arm_post k) (stopped k) s.
Proof.
  intros Hs. unfold exit. apply wp_bind, wp_gets.
  destruct (Z.eqb_spec (call_depth (vm s)) 0) as [Hz|Hz].
  - apply wp_bind, (wp_throw_if cfg e prog); [done|]. intros _.
    apply wp_bind, (wp_rd_inv cfg e prog k); [done|lia|]. intros r0 Hr0.
    split; [done|]. split; [|split; [done|apply (inv_placed _ _ _ _ _ Hs)]]. destruct (inv_meter _ _ _ _ _ Hs). by split.
  - pose proof (inv_depth _ _ _ _ _ Hs) as Hd. pose proof (inv_frames_length _ _ _ _ _ Hs) as Hfl.
    pose proof (setup_depth _ _ _ HS) as Hmax. unfold u64_max in Hmax.
    eapply wp_bind, wp_lift; [apply arith_u64_ok; unfold is_u; lia|].
    apply wp_bind, wp_put_vm, wp_bind, wp_gets. cbn [call_frames].
    destruct (get_Some (call_frames s) (call_depth (vm s) - 1)) as [f Hf]; [lia|].
    eapply wp_bind, wp_lift; [by rewrite Hf|].
    assert (Hfok : frame_ok prog f).
    { unfold get in Hf. destruct (_ <? 0); [done|]. eapply (inv_frames _ _ _ _ _ Hs); [|exact Hf]. lia. }
    apply wp_bind, wp_wr; [simpl; rewrite (inv_reg_length _ _ _ _ _ Hs); done|].
    apply wp_bind. unfold wp at 1, put_reg. simpl. split; [|apply Hfok].
    apply (inv_restore k s f); [done|done|lia].
Qed.

(** ** The other arms *)
Lemma dst_range : 0 <= dst insn <= 10.
Proof. rewrite Hinsn. apply (safe_dst _ _ _ Hsafe). Qed.
Lemma src_range : 0 <= src insn <= 10.
Proof. rewrite Hinsn. apply (safe_src _ _ _ Hsafe). Qed.
Lemma insn_wf : wf_insn insn.
Proof.
  rewrite Hinsn. apply slot_well_formed; [apply (setup_bytes _ _ _ HS)|done].
Qed.

(** [f a b] for register contents [a] and [b] is a register content. *)
Definition reg_op (f : Z -> Z -> Z) : Prop := forall a b, is_u 64 a -> is_u 64 (f a b).

Lemma wp_finish k s i x :
  inv k s -> 0 <= i <= 10 -> is_u 64 x ->
  wp (_ ← wr i x; mret (pc + 1)) (arm_post k) (stopped k) s.
Proof.
  intros Hs Hi Hx. apply wp_bind, (wp_wr_inv cfg e prog k); [done..|].
  intros s' Hs'. split; [done|lia].
Qed.

Lemma wp_read k s i (f : Z -> interp Z) :
  inv k s -> 0 <= i <= 10 -> (forall x, is_u 64 x -> wp (f x) (arm_post k) (stopped k) s) ->
  wp (x ← rd i; f x) (arm_post k) (stopped k) s.
Proof. intros Hs Hi Hf. apply wp_bind, (wp_rd_inv cfg e prog k); [done|lia|done]. Qed.

Lemma dst_imm_ok k s f : inv k s -> reg_op f -> wp (dst_imm insn (pc + 1) f) (arm_post k) (stopped k) s.
Proof.
  intros Hs Hf. pose proof dst_range. apply wp_read; [done..|]. intros a Ha. by apply wp_finish; auto.
Qed.

Lemma dst_src_ok k s f :
  inv k s -> (forall a b, is_u 64 a -> is_u 64 b -> is_u 64 (f a b)) ->
  wp (dst_src insn (pc + 1) f) (arm_post k) (stopped k) s.
Proof.
  intros Hs Hf. pose proof dst_range. pose proof src_range.
  apply wp_read; [done..|]. intros a Ha. apply wp_read; [done..|]. intros b Hb.
  by apply wp_finish; auto.
Qed.

Lemma dst_only_ok k s f :
  inv k s -> (forall a, is_u 64 a -> is_u 64 (f a)) -> wp (dst_only insn (pc + 1) f) (arm_post k) (stopped k) s.
Proof.
  intros Hs Hf. pose proof dst_range. apply wp_read; [done..|]. intros a Ha. by apply wp_finish; auto.
Qed.

(** A division by [b] that does not panic and yields a register content. *)
Definition div_ok (f : Z -> Z -> result False Z) (a b : Z) : Prop :=
  exists x, f a b = Ok x /\ is_u 64 x.

Lemma wp_divide k s f a b :
  inv k s -> div_ok f a b ->
  wp (x ← lift (f a b); _ ← wr (dst insn) x; mret (pc + 1)) (arm_post k) (stopped k) s.
Proof.
  intros Hs (x & Hx & Hr). eapply wp_bind, wp_lift; [done|]. apply wp_finish; [done| |done].
  apply dst_range.
Qed.

Lemma div_imm_ok k s f :
  inv k s -> (forall a, is_u 64 a -> div_ok f a (imm insn)) ->
  wp (div_imm insn (pc + 1) f) (arm_post k) (stopped k) s.
Proof.
  intros Hs Hf. pose proof dst_range. apply wp_read; [done..|]. intros a Ha. by apply wp_divide; auto.
Qed.

Lemma div_src_ok k s w f :
  inv k s -> (forall a b, is_u 64 a -> is_u 64 b -> as_u w b <> 0 -> div_ok f a b) ->
  wp (div_src insn (pc + 1) w f) (arm_post k) (stopped k) s.
Proof.
  intros Hs Hf. pose proof dst_range. pose proof src_range.
  apply wp_read; [done..|]. intros b Hb. apply wp_bind, (wp_throw_if cfg e prog); [done|].
  intros Hz%Z.eqb_neq. apply wp_read; [done..|]. intros a Ha. by apply wp_divide; auto.
Qed.

Definition no_overflow (w a b : Z) : Prop := ~ (as_i w a = - 2 ^ (w - 1) /\ as_i w b = -1).

Lemma no_overflow_test w a b :
  (as_i w a =? - 2 ^ (w - 1)) && (as_i w b =? -1) = false -> no_overflow w a b.
Proof. intros [?%Z.eqb_neq|?%Z.eqb_neq]%andb_false_iff [? ?]; done. Qed.

Lemma sdiv_imm_ok k s w f :
  inv k s -> (forall a, is_u 64 a -> no_overflow w a (imm insn) -> div_ok f a (imm insn)) ->
  wp (sdiv_imm insn (pc + 1) w f) (arm_post k) (stopped k) s.
Proof.
  intros Hs Hf. pose proof dst_range. apply wp_read; [done..|]. intros a Ha.
  apply wp_bind, (wp_throw_if cfg e prog); [done|]. intros Ho%no_overflow_test.
  by apply wp_divide; auto.
Qed.

Lemma sdiv_src_ok k s w f :
  inv k s ->
  (forall a b, is_u 64 a -> is_u 64 b -> as_u w b <> 0 -> no_overflow w a b -> div_ok f a b) ->
  wp (sdiv_src insn (pc + 1) w f) (arm_post k) (stopped k) s.
Proof.
  intros Hs Hf. pose proof dst_range. pose proof src_range.
  apply wp_read; [done..|]. intros b Hb. apply wp_bind, (wp_throw_if cfg e prog); [done|].
  intros Hz%Z.eqb_neq. apply wp_read; [done..|]. intros a Ha.
  apply wp_bind, (wp_throw_if cfg e prog); [done|]. intros Ho%no_overflow_test.
  by apply wp_divide; auto.
Qed.

Lemma load_op_ok k s n :
  inv k s -> n ∈ [1; 2; 4; 8]%nat -> wp (load_op insn (pc + 1) n) (arm_post k) (stopped k) s.
Proof.
  intros Hs Hn. pose proof dst_range. pose proof src_range.
  apply wp_read; [done..|]. intros b Hb.
  apply wp_bind, (wp_translate_load cfg e prog k); [done|done|apply as_u_range; lia|].
  intros x s' Hx Hs'. by apply wp_finish.
Qed.

Lemma store_imm_ok k s n :
  inv k s -> n ∈ [1; 2; 4; 8]%nat -> wp (store_imm insn (pc + 1) n) (arm_post k) (stopped k) s.
Proof.
  intros Hs Hn. pose proof dst_range. apply wp_read; [done..|]. intros a Ha.
  apply wp_bind, (wp_translate_store cfg e prog k); [done|done|apply as_u_range; lia|].
  intros s' Hs'. split; [done|lia].
Qed.

Lemma store_reg_ok k s n :
  inv k s -> n ∈ [1; 2; 4; 8]%nat -> wp (store_reg insn (pc + 1) n) (arm_post k) (stopped k) s.
Proof.
  intros Hs Hn. pose proof dst_range. pose proof src_range.
  apply wp_read; [done..|]. intros a Ha. apply wp_read; [done..|]. intros b Hb.
  apply wp_bind, (wp_translate_store cfg e prog k); [done|done|apply as_u_range; lia|].
  intros s' Hs'. split; [done|lia].
Qed.

Lemma jump_if_ok k s c :
  inv k s -> opc insn ∈ jump_opcodes (sbpf_version e) ->
  wp (jump_if insn (pc + 1) c) (arm_post k) (stopped k) s.
Proof.
  intros Hs Ho. destruct c; [|split; [done|lia]]. unfold jump_if.
  rewrite Hinsn in Ho. destruct (safe_jump _ _ _ Hsafe Ho) as [Ht _]. unfold jump_target in Ht.
  rewrite <- Hinsn in Ht. pose proof (slots_small cfg e prog HS).
  rewrite as_i_small by (unfold is_i; lia).
  eapply wp_bind, wp_lift; [apply arith_i64_ok; unfold is_i; lia|].
  split; [done|]. rewrite as_u_small by (unfold is_u; lia). lia.
Qed.

Lemma jump_imm_ok k s t :
  inv k s -> opc insn ∈ jump_opcodes (sbpf_version e) ->
  wp (jump_imm insn (pc + 1) t) (arm_post k) (stopped k) s.
Proof.
  intros Hs Ho. pose proof dst_range. apply wp_read; [done..|]. intros a Ha. by apply jump_if_ok.
Qed.

Lemma jump_src_ok k s t :
  inv k s -> opc insn ∈ jump_opcodes (sbpf_version e) ->
  wp (jump_src insn (pc + 1) t) (arm_post k) (stopped k) s.
Proof.
  intros Hs Ho. pose proof dst_range. pose proof src_range.
  apply wp_read; [done..|]. intros a Ha. apply wp_read; [done..|]. intros b Hb. by apply jump_if_ok.
Qed.

(** ** Divisions *)
Lemma as_u_nonneg w z : 0 <= w -> 0 <= as_u w z.
Proof. intros Hw. apply (as_u_range w z Hw). Qed.

Lemma as_i_nonzero w z : 0 < w -> as_u w z <> 0 -> as_i w z <> 0.
Proof.
  intros Hw Hz. unfold as_i, as_u in *. pose proof (Z.mod_pos_bound z (2 ^ w) ltac:(lia)).
  case_match; lia.
Qed.

Lemma udiv_ok (f : Z -> Z -> result False Z) w a b :
  0 <= w <= 64 -> (f = div_u \/ f = rem_u) -> is_u w a -> 0 <= b -> b <> 0 ->
  exists x, f a b = Ok x /\ is_u 64 x.
Proof.
  intros Hw Hf Ha Hb Hz. destruct Hf as [-> | ->].
  - exists (a / b). assert (Hd : div_u (E := False) a b = Ok (a / b))
      by (unfold div_u; by destruct (Z.eqb_spec b 0)).
    split; [done|]. by apply (div_u_range w a b).
  - exists (a mod b). assert (Hd : rem_u (E := False) a b = Ok (a mod b))
      by (unfold rem_u; by destruct (Z.eqb_spec b 0)).
    split; [done|]. by apply (rem_u_range w a b).
Qed.

Lemma udiv32_ok a b : as_u 32 b <> 0 -> div_ok udiv32 a b.
Proof. intros. apply (udiv_ok div_u 32); auto using as_u_range, as_u_nonneg with lia. Qed.
Lemma urem32_ok a b : as_u 32 b <> 0 -> div_ok urem32 a b.
Proof. intros. apply (udiv_ok rem_u 32); auto using as_u_range, as_u_nonneg with lia. Qed.
Lemma udiv64_ok a b : is_u 64 a -> as_u 64 b <> 0 -> div_ok udiv64 a b.
Proof. intros. apply (udiv_ok div_u 64); auto using as_u_nonneg with lia. Qed.
Lemma urem64_ok a b : is_u 64 a -> as_u 64 b <> 0 -> div_ok urem64 a b.
Proof. intros. apply (udiv_ok rem_u 64); auto using as_u_nonneg with lia. Qed.
Lemma udiv64_imm_ok a b : is_u 64 a -> as_u 32 b <> 0 -> div_ok udiv64_imm a b.
Proof. intros. apply (udiv_ok div_u 64); auto using as_u_nonneg with lia. Qed.
Lemma urem64_imm_ok a b : is_u 64 a -> as_u 32 b <> 0 -> div_ok urem64_imm a b.
Proof. intros. apply (udiv_ok rem_u 64); auto using as_u_nonneg with lia. Qed.

(** Signed division and remainder have the same guard. *)
Lemma signed_guard w a b :
  0 < w -> as_u w b <> 0 -> no_overflow w a b ->
  (as_i w b =? 0) || ((as_i w a =? - 2 ^ (w - 1)) && (as_i w b =? -1)) = false.
Proof.
  intros Hw Hz Ho. apply orb_false_iff. split; [by apply Z.eqb_neq, as_i_nonzero|].
  destruct (Z.eqb_spec (as_i w a) (- 2 ^ (w - 1))), (Z.eqb_spec (as_i w b) (-1)); try done.
  by destruct Ho.
Qed.

Lemma sdiv32_ok a b : as_u 32 b <> 0 -> no_overflow 32 a b -> div_ok sdiv32 a b.
Proof.
  intros. unfold div_ok, sdiv32, div_i. rewrite signed_guard by (done || lia). eexists.
  split; [done|]. apply as_u_is_u64. lia.
Qed.
Lemma srem32_ok a b : as_u 32 b <> 0 -> no_overflow 32 a b -> div_ok srem32 a b.
Proof.
  intros. unfold div_ok, srem32, rem_i. rewrite signed_guard by (done || lia). eexists.
  split; [done|]. apply as_u_is_u64. lia.
Qed.
Lemma sdiv64_ok a b : as_u 64 b <> 0 -> no_overflow 64 a b -> div_ok sdiv64 a b.
Proof.
  intros. unfold div_ok, sdiv64, div_i. rewrite signed_guard by (done || lia). eexists.
  split; [done|]. apply as_u_is_u64. lia.
Qed.
Lemma srem64_ok a b : as_u 64 b <> 0 -> no_overflow 64 a b -> div_ok srem64 a b.
Proof.
  intros. unfold div_ok, srem64, rem_i. rewrite signed_guard by (done || lia). eexists.
  split; [done|]. apply as_u_is_u64. lia.
Qed.

(** A verified divisor is nonzero at both widths. *)
Lemma imm_nonzero w :
  32 <= w -> opc insn ∈ division_opcodes (sbpf_version e) -> as_u w (imm insn) <> 0.
Proof.
  intros Hw Ho. pose proof (wf_imm _ insn_wf) as Hi. rewrite Hinsn in Ho.
  pose proof (safe_division _ _ _ Hsafe Ho) as Hz. rewrite <- Hinsn in Hz.
  unfold is_i in Hi. unfold as_u. pose proof (Z.pow_le_mono_r 2 32 w ltac:(lia) Hw).
  change (2 ^ (32 - 1)) with 2147483648 in Hi. change (2 ^ 32) with 4294967296 in *.
  generalize dependent (2 ^ w). intros p Hp. intros Hm%Z.mod_divide; [|lia].
  destruct Hm as [q Hq]. assert (q = 0 \/ 1 <= q \/ q <= -1) by lia. nia.
Qed.

Lemma lddw_ok k s :
  inv k s -> get (reg s) 11 = Some pc -> opc insn = LD_DW_IMM ->
  disable_lddw (sbpf_version e) = false ->
  wp (arm_body (List.hd (on 0 (mret 0)) (lddw_arms (sbpf_version e) insn (pc + 1))))
    (arm_post k) (stopped k) s.
Proof.
  intros Hs H11 Ho Hd. cbn [lddw_arms List.hd on_if arm_body].
  pose proof (safe_lddw _ _ _ Hsafe) as Hl. rewrite <- Hinsn in Hl.
  destruct (Hl Ho Hd) as (_ & _ & Hn & _).
  pose proof (slots_small cfg e prog HS). pose proof (slots_bound prog).
  pose proof (setup_length _ _ _ HS).
  apply wp_bind, wp_gets. rewrite (inv_program _ _ _ _ _ Hs).
  destruct (augment_lddw_ok (E := False) prog insn) as [z Hz];
    [rewrite Hinsn; simpl; lia..|].
  eapply wp_bind, wp_lift; [exact Hz|]. pose proof dst_range.
  apply wp_bind, wp_wr; [rewrite (inv_reg_length _ _ _ _ _ Hs); lia|].
  set (s1 := mkInterp _ _ _ _ _ _).
  assert (Hs1 : inv k s1) by (apply (inv_write _ _ _ k); [done|done|by apply as_u_range]).
  assert (Hpc1 : get (reg s1) 11 = Some pc).
  { unfold s1. cbn [reg]. rewrite get_insert by (rewrite ?(inv_reg_length _ _ _ _ _ Hs); lia).
    by rewrite decide_False by lia. }
  eapply wp_bind, wp_rd; [exact Hpc1|].
  eapply wp_bind, wp_lift; [apply arith_u64_ok; unfold is_u; lia|].
  apply wp_bind, wp_wr; [rewrite (inv_reg_length _ _ _ _ _ Hs1); lia|].
  eapply wp_lift; [apply arith_u64_ok; unfold is_u; lia|].
  split; [|lia]. apply (inv_write_pc _ _ _ k); [done|done|lia].
Qed.

(** ** Every arm *)
Lemma reg_op_any f : (forall a b, is_u 64 (f a b)) -> reg_op f.
Proof. intros Hf a b _. apply Hf. Qed.

Ltac arm_range :=
  unfold reg_op; intros; cbv beta; unfold add32, sub32, mul32, lsh32, arsh32, add64, sub64, mul64, lsh64, arsh64, neg64,
    lmul32, uhmul, shmul, wrapping_shl;
  first [ apply sign_extension_range | apply or32_range | apply and32_range | apply xor32_range
        | apply rsh32_range | apply neg32_range | by apply or64_range | by apply and64_range
        | by apply xor64_range | by apply rsh64_range | by apply hor64_range
        | apply as_u_is_u64; lia ].

Ltac arm_division Hs Ho :=
  first
  [ apply (div_imm_ok _ _ _ Hs); intros a Ha;
    first [ apply udiv32_ok | apply urem32_ok | apply udiv64_ok | apply urem64_ok
          | apply udiv64_imm_ok | apply urem64_imm_ok ]; try exact Ha; apply imm_nonzero; [lia|apply Ho]
  | apply (sdiv_imm_ok _ _ _ _ Hs); intros a Ha Hov;
    first [ apply sdiv32_ok | apply srem32_ok | apply sdiv64_ok | apply srem64_ok ];
    try exact Hov; apply imm_nonzero; [lia|apply Ho]
  | apply (div_src_ok _ _ _ _ Hs); intros a b Ha Hb Hz;
    first [ by apply udiv32_ok | by apply urem32_ok | by apply udiv64_ok | by apply urem64_ok ]
  | apply (sdiv_src_ok _ _ _ _ Hs); intros a b Ha Hb Hz Hov;
    first [ by apply sdiv32_ok | by apply srem32_ok | by apply sdiv64_ok | by apply srem64_ok ] ].

Definition arm_ok (k : Z) (s : Interpreter V C) (a : arm (interp Z)) : Prop :=
  opc insn ∈ arm_opcodes a -> arm_guard a = true ->
  wp (arm_body a) (arm_post k) (stopped k) s.

Ltac each_arm :=
  repeat (apply List.Forall_cons || apply List.Forall_nil); unfold arm_ok;
  cbn [on on_if arm_opcodes arm_guard arm_body].

Ltac memory_arm Hs :=
  intros _ _; first [ apply (load_op_ok _ _ _ Hs) | apply (store_imm_ok _ _ _ Hs)
                    | apply (store_reg_ok _ _ _ Hs) ]; by repeat constructor.

Ltac alu_arm Hs :=
  intros _ _; first [ apply (dst_imm_ok _ _ _ Hs); arm_range
                    | apply (dst_src_ok _ _ _ Hs); arm_range
                    | apply (dst_only_ok _ _ _ Hs); arm_range ].

Lemma memory_arms_ok k s :
  inv k s -> Forall (arm_ok k s) (ldx_arms (sbpf_version e) insn (pc + 1)) /\
    Forall (arm_ok k s) (st_arms (sbpf_version e) insn (pc + 1)) /\
    Forall (arm_ok k s) (stx_arms (sbpf_version e) insn (pc + 1)).
Proof. intros Hs. split_and!; each_arm; memory_arm Hs. Qed.

(** The opcode of a division arm is one the verifier checked. *)
Lemma legacy_division o :
  opc insn ∈ [o] -> negb (enable_pqr (sbpf_version e)) = true ->
  o ∈ [DIV32_IMM; MOD32_IMM; DIV64_IMM; MOD64_IMM] -> opc insn ∈ division_opcodes (sbpf_version e).
Proof.
  intros ->%list_elem_of_singleton Hg%negb_true_iff Ho. unfold division_opcodes. by rewrite Hg.
Qed.

Lemma alu32_arms_ok k s : inv k s -> Forall (arm_ok k s) (alu32_arms (sbpf_version e) insn (pc + 1)).
Proof.
  intros Hs. pose proof dst_range. pose proof src_range. each_arm; try (alu_arm Hs); try (memory_arm Hs);
    try (intros Ho Hg; arm_division Hs (legacy_division _ Ho Hg); by repeat constructor).
  - intros _ _. case_match; apply (dst_imm_ok _ _ _ Hs); arm_range.
  - intros _ _. apply wp_finish; [done|done|apply as_u_is_u64; lia].
  - intros _ _. apply wp_read; [done|done|]. intros b Hb. apply wp_finish; [done|done|apply mov32_reg_range].
  - intros _ _. apply wp_read; [done|done|]. intros a Ha. destruct (to_le _ a) as [x|] eqn:Hx;
      [|by apply wp_bind, (wp_throw cfg e prog)]. apply wp_finish; [done|done|by eapply to_le_range].
  - intros _ _. apply wp_read; [done|done|]. intros a Ha. destruct (to_be _ a) as [x|] eqn:Hx;
      [|by apply wp_bind, (wp_throw cfg e prog)]. apply wp_finish; [done|done|by eapply to_be_range].
Qed.

Lemma alu64_arms_ok k s : inv k s -> Forall (arm_ok k s) (alu64_arms (sbpf_version e) insn (pc + 1)).
Proof.
  intros Hs. pose proof dst_range. pose proof src_range. each_arm; try (alu_arm Hs); try (memory_arm Hs);
    try (intros Ho Hg; arm_division Hs (legacy_division _ Ho Hg); by repeat constructor).
  - intros _ _. case_match; apply (dst_imm_ok _ _ _ Hs); arm_range.
  - intros _ _. apply wp_finish; [done|done|apply as_u_is_u64; lia].
  - intros _ _. apply wp_read; [done|done|]. intros b Hb. by apply wp_finish.
Qed.

Lemma pqr_division o :
  opc insn ∈ [o] -> enable_pqr (sbpf_version e) = true ->
  o ∈ [UDIV32_IMM; UDIV64_IMM; UREM32_IMM; UREM64_IMM; SDIV32_IMM; SDIV64_IMM; SREM32_IMM; SREM64_IMM] ->
  opc insn ∈ division_opcodes (sbpf_version e).
Proof. intros ->%list_elem_of_singleton Hg Ho. unfold division_opcodes. by rewrite Hg. Qed.

Lemma pqr_arms_ok k s : inv k s -> Forall (arm_ok k s) (pqr_arms (sbpf_version e) insn (pc + 1)).
Proof.
  intros Hs. each_arm; try (alu_arm Hs);
    intros Ho Hg; arm_division Hs (pqr_division _ Ho Hg); by repeat constructor.
Qed.

Lemma jmp32_arms_ok k s : inv k s -> Forall (arm_ok k s) (jmp32_arms (sbpf_version e) insn (pc + 1)).
Proof.
  intros Hs. each_arm; intros Ho%list_elem_of_singleton Hg;
    first [apply (jump_imm_ok _ _ _ Hs)|apply (jump_src_ok _ _ _ Hs)];
    unfold jump_opcodes; rewrite Hg, Ho; by repeat constructor.
Qed.

Lemma jmp64_arms_ok k s : inv k s -> Forall (arm_ok k s) (jmp64_arms insn (pc + 1)).
Proof.
  intros Hs. each_arm; intros Ho%list_elem_of_singleton _;
    first [apply (jump_imm_ok _ _ _ Hs)|apply (jump_src_ok _ _ _ Hs)|apply (jump_if_ok _ _ _ Hs)];
    unfold jump_opcodes; apply elem_of_app; right; rewrite Ho; by repeat constructor.
Qed.

Lemma step_arms_ok k s :
  inv k s -> get (reg s) 11 = Some pc ->
  wp (match_opc (opc insn) (step_arms (sbpf_version e) cfg insn (pc + 1))
        (throw_error UnsupportedInstruction)) (arm_post k) (stopped k) s.
Proof.
  intros Hs H11. apply match_opc_ind; [|by apply (wp_throw cfg e prog)].
  change (Forall (arm_ok k s) (step_arms (sbpf_version e) cfg insn (pc + 1))).
  destruct (memory_arms_ok k s Hs) as (Hldx & Hst & Hstx). unfold step_arms.
  repeat apply Forall_app_2; auto using alu32_arms_ok, alu64_arms_ok, pqr_arms_ok, jmp32_arms_ok, jmp64_arms_ok.
  - constructor; [|done]. intros Ho%list_elem_of_singleton Hg%negb_true_iff.
    by apply (lddw_ok k s).
  - each_arm; intros Ho%list_elem_of_singleton _; [by apply callx_ok|by apply call_imm_ok|by apply exit_ok].
Qed.
End Calls.

(** ** One step, and the whole run *)
Section Run.
Context {V C : Type} `{P : Profile, B : ByteOrder, !ByteOrderLaws}
  `{CO : ContextObject C, M : VmMemory C, BF : Builtins V C}
  `{CL : !ContextObjectLaws C, !VmMemoryLaws C, !BuiltinsLaws V C}.
Variables (cfg : Config) (e : Executable V) (prog : list byte).
Hypothesis HS : setup cfg e prog.
Abbreviation inv := (inv cfg e prog).
Abbreviation stopped := (stopped cfg e prog).
Implicit Types (s : Interpreter V C).

(** The second half of an [lddw] is no instruction. *)
Lemma no_arm_for_zero v insn npc :
  match_opc 0 (step_arms (V := V) (C := C) v cfg insn npc) (throw_error UnsupportedInstruction)
  = throw_error UnsupportedInstruction.
Proof. reflexivity. Qed.

Lemma wp_fetched k s pc :
  inv k s -> get (reg s) 11 = Some pc -> 0 <= pc < slots prog ->
  wp (match_opc (opc (slot prog pc)) (step_arms (sbpf_version e) cfg (slot prog pc) (pc + 1))
        (throw_error UnsupportedInstruction)) (arm_post cfg e prog k) (stopped k) s.
Proof.
  intros Hs H11 Hpc. destruct (safe_slots _ _ (setup_safe _ _ _ HS) pc Hpc) as [Hsafe|(Hp & Hl & _)].
  - by apply step_arms_ok.
  - destruct Hl as (_ & _ & _ & Hz). rewrite Z.sub_add in Hz. rewrite Hz, no_arm_for_zero.
    by apply (wp_throw cfg e prog).
Qed.

(** One step from a state satisfying the invariant: no panic, and each step
    that continues uses up one unit of the meter. *)
Lemma step_ok k s :
  inv k s -> wp step (fun b s' => b = true /\ inv (k - 1) s' /\ 0 < k) (stopped k) s.
Proof.
  intros Hs. unfold step. apply wp_bind, wp_gets. rewrite (inv_executable _ _ _ _ _ Hs).
  eapply wp_bind, wp_lift; [unfold get_config; by rewrite (setup_config _ _ _ HS)|].
  apply wp_bind, wp_gets, wp_bind, (wp_throw_if cfg e prog); [done|].
  rewrite (setup_metered _ _ _ HS). intros Hlt%Z.leb_gt.
  pose proof (inv_meter _ _ _ _ _ Hs) as [Hl Hr Hp Hd Hmem Hk].
  pose proof (get_remaining_range (context (vm s)) Hmem) as Hrange. unfold is_u in Hrange.
  eapply wp_bind, wp_lift; [apply arith_u64_ok; unfold is_u; lia|].
  apply wp_bind, wp_put_vm. set (s1 := mkInterp _ _ _ _ _ _).
  assert (Hs1 : inv (k - 1) s1).
  { apply (inv_vm cfg e prog k (k - 1) s); [done| |done]. split; simpl; try done; lia. }
  assert (HE : forall s', stopped (k - 1) s' -> stopped k s').
  { intros s' [[] ?]. split; [|done]. split; try done. lia. }
  apply (wp_mono _ (fun b s' => b = true /\ inv (k - 1) s' /\ 0 < k) _ (stopped (k - 1))); [|done|done].
  clear HE. destruct (inv_pc _ _ _ _ _ Hs1) as (pc & Hpc & Hrng).
  pose proof (slots_small cfg e prog HS) as Hsm.
  eapply wp_bind, wp_rd; [exact Hpc|]. apply wp_bind, wp_gets.
  rewrite (inv_program _ _ _ _ _ Hs1).
  eapply wp_bind, wp_lift; [apply arith_u64_ok; unfold is_u, INSN_SIZE; lia|].
  apply wp_bind, (wp_throw_if cfg e prog); [done|]. unfold INSN_SIZE. intros Hin%Z.leb_gt.
  pose proof (safe_aligned _ _ (setup_safe _ _ _ HS)) as Hal.
  eapply wp_bind, wp_lift; [apply arith_u64_ok; unfold is_u; lia|].
  eapply wp_bind, wp_lift; [apply slot_get_unchecked; [apply (setup_length _ _ _ HS)|lia]|].
  apply wp_bind, wp_gets, wp_bind.
  apply (wp_mono _ (fun _ s' => inv (k - 1) s' /\ get (reg s') 11 = Some pc) _ (stopped (k - 1)));
    [|intros _ s2 [Hs2 Hpc2]|done].
  - destruct (enable_register_tracing cfg); [|done]. apply wp_put_vm. split; [|done].
    apply (inv_vm cfg e prog (k - 1) (k - 1) s1); [done| |done].
    destruct (inv_meter _ _ _ _ _ Hs1). by split.
  - apply wp_bind. eapply wp_mono; [apply (wp_fetched (k - 1)); [done|done|lia]| |done].
    intros npc s3 [Hs3 Hnpc]. apply wp_bind, wp_wr; [rewrite (inv_reg_length _ _ _ _ _ Hs3); lia|].
    apply wp_ret. split; [done|]. split; [|lia]. by apply (inv_write_pc cfg e prog (k - 1)).
Qed.

Lemma run_ok fuel k s :
  inv k s -> k < Z.of_nat fuel ->
  exists s', run_interpreter fuel s = Some (Ok s') /\ stopped k s'.
Proof.
  revert k s. induction fuel as [|fuel IH]; intros k s Hs Hk.
  { pose proof (inv_meter _ _ _ _ _ Hs) as []. lia. }
  cbn [run_interpreter]. pose proof (step_ok k s Hs) as Hstep. unfold wp in Hstep. unfold call.
  destruct (step s) as [[b|b|] s']; [|destruct Hstep as [-> Hst]; eauto|done].
  destruct Hstep as (-> & Hs' & Hpos). destruct (IH (k - 1) s' Hs') as (s'' & Hrun & Hst); [lia|].
  exists s''. split; [done|]. destruct Hst as [[] ?]. split; [|done]. split; try done. lia.
Qed.
End Run.

(** ** Execution of a verified program *)
Section Execution.
Context {V C : Type} `{P : Profile, B : ByteOrder, !ByteOrderLaws}
  `{CO : ContextObject C, M : VmMemory C, BF : Builtins V C}
  `{CL : !ContextObjectLaws C, !VmMemoryLaws C, !BuiltinsLaws V C}.
Variables (cfg : Config) (e : Executable V).

(** An executable whose text was verified, under a metered configuration. *)
Record runnable (base : Z) (prog : list byte) : Prop := {
  run_config : config (exec_loader e) = Some cfg;
  run_metered : enable_instruction_meter cfg = true;
  run_frame_size : 0 <= stack_frame_size cfg * 2 <= u64_max;
  run_depth : 0 < max_call_depth cfg <= u64_max;
  run_text : get_text_bytes (E := False) e = Ok (base, prog);
  run_bytes : is_bytes prog;
  run_length : Z.of_nat (length prog) < 2 ^ 63;
  run_verified : verify prog (sbpf_version e) = Ok tt;
  run_functions : forall key name target,
    lookup_by_key (function_registry e) key = Some (name, target) -> is_u 64 target;
  run_entry : 0 <= entry_pc e <= slots prog
}.

Lemma runnable_setup base prog : runnable base prog -> setup cfg e prog.
Proof. intros []. split; try done. by apply verify_safe. Qed.

(** C6: a step of a verified program from any state satisfying the invariant
    does not panic; a step that continues keeps the invariant (64-bit
    registers, program counter inside or just past the text, call depth below
    its limit, saved frames valid) with one unit less on the meter, and a step
    that ends the program leaves the meter consistent. *)
Theorem step_safe base prog k (s : Interpreter V C) :
  runnable base prog -> inv cfg e prog k s ->
  match step s with
  | (Next b, s') => b = true /\ inv cfg e prog (k - 1) s'
  | (Return b, s') => b = false /\ stopped cfg e prog k s'
  | (Unwind, _) => False
  end.
Proof.
  intros HR Hs. pose proof (step_ok cfg e prog (runnable_setup _ _ HR) k s Hs) as Hstep.
  unfold wp in Hstep. destruct (step s) as [[] ?]; naive_solver.
Qed.

(** A VM as [EbpfVm::new] builds it, up to the argument registers. *)
Definition fresh_vm (m : EbpfVm V C) (ctx : C) : Prop :=
  length (registers m) = 12%nat /\ Forall (is_u 64) (registers m) /\ call_depth m = 0 /\
  loader m = exec_loader e /\ context m = ctx.

Lemma registers_of_new v ctx stack_len (m : EbpfVm V C) :
  0 <= stack_frame_size cfg -> 0 <= stack_len -> config (exec_loader e) = Some cfg ->
  vm_new (E := False) (exec_loader e) v ctx stack_len = Ok m -> fresh_vm m ctx.
Proof.
  intros Hf Hl Hc. unfold fresh_vm, vm_new, get_config. rewrite Hc. cbn [or_panic mbind result_bind].
  intros [= <-]. cbn [registers call_depth loader context]. split_and!; [done| |done..].
  repeat (apply List.Forall_cons || apply List.Forall_nil); try (unfold is_u; lia).
  assert (0 <= MM_STACK_START) by done. unfold saturating_add_u64, u64_max, is_u. case_match; lia.
Qed.

(** The state [execute_program] starts the interpreter in. *)
Lemma initial_inv base prog (m : EbpfVm V C) frames :
  runnable base prog -> max_call_depth cfg <= Z.of_nat (length frames) ->
  length (registers m) = 12%nat -> Forall (is_u 64) (registers m) -> call_depth m = 0 ->
  loader m = exec_loader e -> previous_instruction_meter m = get_remaining (context m) ->
  due_insn_count m = 0 -> get (registers m) 11 = Some (entry_pc e) -> context_valid (context m) ->
  inv cfg e prog (get_remaining (context m)) (mkInterp m e prog base frames (registers m)).
Proof.
  intros [Hc Hm Hfs Hd Ht Hb Hl Hv Hfn He] Hfr Hrl Hr Hdep Hlo Hp Hdue H11 Hmem.
  pose proof (get_remaining_range (context m) Hmem) as Hrange. unfold is_u in Hrange.
  split; simpl; try done; try (rewrite Hdep; intros; lia).
  - eauto.
  - split; try done; try lia. by rewrite Hlo.
Qed.

(** Execution from a fresh VM returns within the meter. *)
Lemma fresh_vm_returns base prog (ctx : C) frames m compiled :
  runnable base prog -> context_valid ctx ->
  max_call_depth cfg <= Z.of_nat (length frames) -> fresh_vm m ctx ->
  exists count r m',
    execute_program (S (Z.to_nat (get_remaining ctx))) compiled m e Interpreted frames =
      Some (Ok (count, r, Interpreted, m')) /\
    0 <= count <= get_remaining ctx /\
    match r with StOk x => is_u 64 x | StErr _ => True end /\ length (registers m') = 12%nat.
Proof.
  intros HR Hmem Hfr (Hrl & Hrr & Hdep & Hlo & Hctx).
  pose proof (slots_small cfg e prog (runnable_setup _ _ HR)). pose proof (run_entry _ _ HR) as He.
  unfold execute_program. unfold get_config. rewrite (run_config _ _ HR). cbn [or_panic].
  set (m0 := set_result _ _).
  assert (Hinit : inv cfg e prog (get_remaining ctx) (mkInterp m0 e prog base frames (registers m0))).
  { rewrite <- Hctx. apply (initial_inv base prog m0 frames); try done; simpl.
    - by rewrite length_insert.
    - apply Forall_insert; [done|]. unfold is_u. lia.
    - unfold get. simpl. apply list_lookup_insert_eq. lia.
    - by rewrite Hctx. }
  pose proof (get_remaining_range ctx Hmem) as Hrange. unfold is_u in Hrange.
  destruct (run_ok cfg e prog (runnable_setup _ _ HR) (S (Z.to_nat (get_remaining ctx))) _ _ Hinit
              ltac:(lia)) as (s' & Hrun & Hst & Hres & _).
  unfold interpreter_new, get_config. rewrite (run_text _ _ HR), (run_config _ _ HR).
  cbn [mbind result_bind or_panic fst snd]. rewrite (proj2 (Z.leb_le _ _)) by done.
  cbn iota. rewrite Hrun, (run_metered _ _ HR).
  do 3 eexists. split; [done|]. simpl. split; [|split; [done|apply Hst]]. rewrite Hctx.
  destruct Hst as [_ _ _ Hdue Hmem' _].
  pose proof (get_remaining_range _ (consume_valid (context (vm s')) (due_insn_count (vm s'))
    ltac:(lia) Hmem')) as Hr2.
  unfold saturating_sub_u64, is_u in *. lia.
Qed.

Lemma execute_program_returns base prog (ctx : C) stack_len frames m compiled :
  runnable base prog -> context_valid ctx -> 0 <= stack_len ->
  max_call_depth cfg <= Z.of_nat (length frames) ->
  vm_new (E := False) (exec_loader e) (sbpf_version e) ctx stack_len = Ok m ->
  exists count r m',
    execute_program (S (Z.to_nat (get_remaining ctx))) compiled m e Interpreted frames =
      Some (Ok (count, r, Interpreted, m')) /\
    0 <= count <= get_remaining ctx /\
    match r with StOk x => is_u 64 x | StErr _ => True end.
Proof.
  intros HR Hmem Hsl Hfr Hnew. pose proof (run_frame_size _ _ HR) as Hfs.
  destruct (fresh_vm_returns base prog ctx frames m compiled HR Hmem Hfr) as (n & r & m' & Hx & Hn & Hr & _);
    [apply (registers_of_new _ _ _ _ ltac:(lia) Hsl (run_config _ _ HR) Hnew)|eauto 10].
Qed.

(** C2: executing a verified program in the interpreter terminates within
    the meter: as many steps as the context has instructions left, plus one,
    are enough for [execute_program] to return, without a panic, a count
    within the budget and a 64-bit value or an error. *)
Theorem execute_program_terminates base prog (ctx : C) stack_len frames m compiled :
  runnable base prog -> context_valid ctx -> 0 <= stack_len ->
  max_call_depth cfg <= Z.of_nat (length frames) ->
  vm_new (E := False) (exec_loader e) (sbpf_version e) ctx stack_len = Ok m ->
  exists count r m',
    execute_program (S (Z.to_nat (get_remaining ctx))) compiled m e Interpreted frames =
      Some (Ok (count, r, Interpreted, m')) /\
    0 <= count <= get_remaining ctx /\
    match r with StOk x => is_u 64 x | StErr _ => True end.
Proof. apply execute_program_returns. Qed.
End Execution.
