(* ===== verification/MemoryRegion.v ===== *)
(** * Memory regions and mappings: [src/casestudy/sbpf/src/memory_region.rs]

    The host address space is a finite map from addresses to bytes; reading or
    writing outside it, or an unchecked slice access out of range, is undefined
    behaviour and modelled as [Panic].  Slice lengths and region indices are
    natural numbers: a slice has fewer than [2^60] elements, so that the index
    arithmetic of the Eytzinger search cannot overflow.  The access violation
    handler is a parameter. *)

From stdpp Require Import gmap strings.
From S2P Require Import Prelude Ebpf Program Verifier Error.

Record MemoryRegion := mkRegion {
  host_addr : Z;
  vm_addr : Z;
  len : Z;
  vm_gap_shift : Z;
  writable : bool;
  access_violation_handler_payload : option Z
}.

#[export] Instance MemoryRegion_eq_dec : EqDecision MemoryRegion.
Proof. solve_decision. Defined.

(** ** [MemoryRegion] *)
Definition leading_zeros_u64 (z : Z) : Z := if z =? 0 then 64 else 63 - Z.log2 z.
Definition checked_shr_u64 (a n : Z) : option Z := if n <? 64 then Some (Z.shiftr a n) else None.
Definition checked_shl_u64 (a n : Z) : option Z := if n <? 64 then Some (as_u 64 (Z.shiftl a n)) else None.
Definition not_u64 (a : Z) : Z := Z.lxor a u64_max.

Definition new_internal {E} `{Profile} (address length vm_addr vm_gap_size : Z) (writable : bool)
    : result E MemoryRegion :=
  vm_gap_shift ← (if 0 <? vm_gap_size then
                    let s := Z.max 0 (63 - leading_zeros_u64 vm_gap_size) in
                    _ ← debug_assert (bool_decide (Some vm_gap_size = checked_shl_u64 1 s));
                    Ok s
                  else Ok 63);
  Ok (mkRegion address vm_addr length vm_gap_shift writable None).

(** [MemoryRegion::new] and [new_gapped] for a host object at [address] of
    [byte_length] bytes. *)
Definition region_new {E} `{Profile} (address byte_length vm_addr : Z) (writable : bool)
    : result E MemoryRegion := new_internal address byte_length vm_addr 0 writable.
Definition region_new_gapped {E} `{Profile} (address byte_length vm_addr vm_gap_size : Z)
    (writable : bool) : result E MemoryRegion :=
  new_internal address byte_length vm_addr vm_gap_size writable.

Definition vm_addr_range (r : MemoryRegion) : Z * Z :=
  if vm_gap_shift r =? 63 then (vm_addr r, saturating_add_u64 (vm_addr r) (len r))
  else (vm_addr r, saturating_add_u64 (vm_addr r) (saturating_mul_u64 (len r) 2)).

Definition range_contains (r : Z * Z) (a : Z) : bool := (r.1 <=? a) && (a <? r.2).

Definition vm_to_host (r : MemoryRegion) (access : AccessType) (addr n : Z) : option Z :=
  if bool_decide (access = Store) && negb (writable r) then None
  else if addr <? vm_addr r then None
  else
    let begin_offset := saturating_sub_u64 addr (vm_addr r) in
    if vm_gap_shift r =? 63 then
      match checked_add_u64 begin_offset n with
      | Some end_offset =>
          if end_offset <=? len r then Some (saturating_add_u64 (host_addr r) begin_offset) else None
      | None => None
      end
    else
      let is_in_gap := Z.land (default 0 (checked_shr_u64 begin_offset (vm_gap_shift r))) 1 =? 1 in
      let gap_mask := default 0 (checked_shl_u64 (-1) (vm_gap_shift r)) in
      let gapped_offset :=
        Z.lor (default 0 (checked_shr_u64 (Z.land begin_offset gap_mask) 1))
          (Z.land begin_offset (not_u64 gap_mask)) in
      match checked_add_u64 gapped_offset n with
      | Some end_offset =>
          if (end_offset <=? len r) && negb is_in_gap
          then Some (saturating_add_u64 (host_addr r) gapped_offset) else None
      | None => None
      end.

(** [Ord for MemoryRegion] and the stable [sort]. *)
Fixpoint sort_insert (x : MemoryRegion) (l : list MemoryRegion) : list MemoryRegion :=
  match l with
  | [] => [x]
  | y :: l' => if vm_addr x <=? vm_addr y then x :: l else y :: sort_insert x l'
  end.
Definition sort_regions (l : list MemoryRegion) : list MemoryRegion := foldr sort_insert [] l.

(** ** [MappingCache] *)
Definition CACHE_SIZE : nat := 4.
Record MappingCache := mkCache { entries : list (Z * Z * nat); cache_head : nat }.

Definition cache_new : MappingCache := mkCache (replicate CACHE_SIZE (0, 0, 0%nat)) 0.

(** The scan of [find], from offset [i] on. *)
Fixpoint cache_scan (c : MappingCache) (addr : Z) (i fuel : nat) : option nat :=
  match fuel with
  | O => None
  | S fuel =>
      match entries c !! ((cache_head c + i) mod CACHE_SIZE)%nat with
      | Some (range, index) =>
          if range_contains range addr then Some index else cache_scan c addr (S i) fuel
      | None => cache_scan c addr (S i) fuel
      end
  end.
Definition cache_find (c : MappingCache) (addr : Z) : option nat := cache_scan c addr 0 CACHE_SIZE.

(** [self.head.wrapping_sub(1) % SIZE]: from [0] the head wraps to
    [usize::MAX % 4 = 3]. *)
Definition cache_insert (c : MappingCache) (range : Z * Z) (index : nat) : MappingCache :=
  let head := ((cache_head c + 3) mod CACHE_SIZE)%nat in
  mkCache (<[head := (range, index)]> (entries c)) head.

Definition cache_flush (c : MappingCache) : MappingCache := cache_new.

(** ** [UnalignedMemoryMapping] *)
Record UnalignedMemoryMapping := mkUnaligned {
  u_regions : list MemoryRegion;
  region_addresses : list Z;
  region_index_lookup : list nat;
  cache : MappingCache
}.

Section Unaligned.
Context {E : Type}.

(** The two tables [construct_eytzinger_order] fills; [fuel] bounds the depth. *)
Fixpoint construct_eytzinger_order (regions : list MemoryRegion) (fuel in_index out_index : nat)
    (tables : list Z * list nat) : result E (nat * (list Z * list nat)) :=
  match fuel with
  | O => Panic
  | S fuel =>
      if (length regions <=? out_index)%nat then Ok (in_index, tables)
      else
        r ← construct_eytzinger_order regions fuel in_index (out_index * 2 + 1) tables;
        let '(in_index, (addresses, lookup)) := r in
        region ← or_panic (regions !! in_index);
        _ ← (if (out_index <? length addresses)%nat && (out_index <? length lookup)%nat
             then Ok tt else Panic);
        construct_eytzinger_order regions fuel (in_index + 1) (out_index * 2 + 2)
          (<[out_index := vm_addr region]> addresses, <[out_index := in_index]> lookup)
  end.

Definition u_new_uninitialized (regions : list MemoryRegion) : UnalignedMemoryMapping :=
  mkUnaligned regions (replicate (length regions) 0) (replicate (length regions) 0%nat) cache_new.

(** The index of the first region that starts before the previous one ends. *)
Fixpoint first_overlap (regions : list MemoryRegion) (index : nat) : option nat :=
  match regions with
  | [] => None
  | first :: rest =>
      match rest with
      | [] => None
      | second :: _ =>
          if vm_addr second <? (vm_addr_range first).2 then Some index
          else first_overlap rest (S index)
      end
  end.
End Unaligned.

(** [initialize]: the regions stay sorted when it fails. *)
Definition u_initialize (m : UnalignedMemoryMapping) : result EbpfError unit * UnalignedMemoryMapping :=
  let regions := sort_regions (u_regions m) in
  match first_overlap regions 1 with
  | Some index =>
      (Err (InvalidMemoryRegion (Z.of_nat index)),
       mkUnaligned regions (region_addresses m) (region_index_lookup m) (cache m))
  | None =>
      match construct_eytzinger_order regions (S (length regions)) 0 0
              (region_addresses m, region_index_lookup m) with
      | Ok (_, (addresses, lookup)) => (Ok tt, mkUnaligned regions addresses lookup (cache m))
      | Err e => (Err e, m)
      | Panic => (Panic, m)
      end
  end.

(** [while index <= len { index = (index << 1) + (addresses[index - 1] <= addr) }] *)
Fixpoint eytzinger_search (addresses : list Z) (addr : Z) (fuel index : nat) : result False nat :=
  match fuel with
  | O => Panic
  | S fuel =>
      if (index <=? length addresses)%nat then
        a ← or_panic (addresses !! (index - 1)%nat);
        eytzinger_search addresses addr fuel (2 * index + (if a <=? addr then 1 else 0))
      else Ok index
  end.

(** [index >>= index.trailing_zeros() + 1] *)
Fixpoint drop_trailing (fuel index : nat) : nat :=
  match fuel with
  | O => 0
  | S fuel => if Nat.odd index then Nat.div2 index else drop_trailing fuel (Nat.div2 index)
  end.

(** [find_region]; the cache changes through a shared reference. *)
Definition u_find_region (m : UnalignedMemoryMapping) (addr : Z)
    : result False (option (nat * MemoryRegion)) * UnalignedMemoryMapping :=
  match cache_find (cache m) addr with
  | Some index =>
      (region ← or_panic (u_regions m !! index); Ok (Some (index, region)), m)
  | None =>
      match eytzinger_search (region_addresses m) addr (S (length (region_addresses m))) 1 with
      | Ok index =>
          match drop_trailing index index with
          | O => (Ok None, m)
          | S o =>
              match region_index_lookup m !! o with
              | Some index =>
                  match u_regions m !! index with
                  | Some region =>
                      (Ok (Some (index, region)),
                       mkUnaligned (u_regions m) (region_addresses m) (region_index_lookup m)
                         (cache_insert (cache m) (vm_addr_range region) index))
                  | None => (Panic, m)
                  end
              | None => (Panic, m)
              end
          end
      | _ => (Panic, m)
      end
  end.

Definition u_replace_region (m : UnalignedMemoryMapping) (index : nat) (region : MemoryRegion)
    : result EbpfError UnalignedMemoryMapping :=
  if (index <? length (u_regions m))%nat then
    Ok (mkUnaligned (<[index := region]> (u_regions m)) (region_addresses m)
          (region_index_lookup m) (cache_flush (cache m)))
  else Panic.

(** ** [AlignedMemoryMapping] *)
Record AlignedMemoryMapping := mkAligned {
  a_regions : list MemoryRegion;
  allow_region_zero : bool
}.

Definition region_number (a : Z) : Z := default 0 (checked_shr_u64 a VIRTUAL_ADDRESS_BITS).

(** [MemoryRegion::new(&raw const *EMPTY_SLICE, vm_addr)]; [empty_slice] is the
    address of the empty static slice. *)
Definition empty_region (empty_slice vm_addr : Z) : MemoryRegion :=
  mkRegion empty_slice vm_addr 0 63 false None.

(** [Vec::insert]; panics past the end. *)
Definition vec_insert {A} (i : nat) (x : A) (l : list A) : list A := take i l ++ x :: drop i l.

(** The [while] loop that fills the gaps between regions. *)
Fixpoint fill_gaps (empty_slice : Z) (fuel : nat) (regions : list MemoryRegion) (expected : nat)
    : result EbpfError unit * list MemoryRegion :=
  match fuel with
  | O => (Panic, regions)
  | S fuel =>
      match regions !! expected with
      | None => (Ok tt, regions)
      | Some region =>
          let actual := region_number (vm_addr region) in
          if Z.of_nat expected <? actual then
            fill_gaps empty_slice fuel
              (vec_insert expected
                 (empty_region empty_slice (saturating_mul_u64 (Z.of_nat expected) MM_REGION_SIZE)) regions)
              (S expected)
          else if actual <? Z.of_nat expected
          then (Err (InvalidMemoryRegion actual), regions)
          else fill_gaps empty_slice fuel regions (S expected)
      end
  end.

(** The [for] loop over [regions.iter().enumerate()]. *)
Fixpoint first_misplaced (regions : list MemoryRegion) (index : nat) : option nat :=
  match regions with
  | [] => None
  | r :: regions =>
      if region_number (vm_addr r) =? Z.of_nat index
      then first_misplaced regions (S index) else Some index
  end.

(** [initialize]; after the last insertion the highest region number is the
    last index, so the loop needs one step per number. *)
Definition a_initialize (empty_slice : Z) (m : AlignedMemoryMapping)
    : result EbpfError unit * AlignedMemoryMapping :=
  if allow_region_zero m then
    let regions := sort_regions (a_regions m) in
    let highest := foldr (fun r n => Z.max (region_number (vm_addr r)) n) 0 regions in
    let (r, regions') :=
      fill_gaps empty_slice (Z.to_nat highest + length regions + 2) regions 0 in
    (r, mkAligned regions' true)
  else
    let regions := sort_regions (a_regions m ++ [empty_region empty_slice 0]) in
    (match first_misplaced regions 0 with
     | Some index => Err (InvalidMemoryRegion (Z.of_nat index))
     | None => Ok tt
     end, mkAligned regions false).

Definition a_find_region (m : AlignedMemoryMapping) (addr : Z) : option (nat * MemoryRegion) :=
  let index := wrapping_shr 64 addr VIRTUAL_ADDRESS_BITS in
  if (index <? Z.of_nat (length (a_regions m))) && ((0 <? index) || allow_region_zero m) then
    region ← get (a_regions m) index;
    Some (Z.to_nat index, region)
  else None.

Definition a_replace_region (m : AlignedMemoryMapping) (index : nat) (region : MemoryRegion)
    : result EbpfError AlignedMemoryMapping :=
  let begin_index := region_number (vm_addr region) in
  let end_index := region_number (saturating_add_u64 (vm_addr region) (saturating_sub_u64 (len region) 1)) in
  if negb (begin_index =? Z.of_nat index) || negb (end_index =? Z.of_nat index)
  then Err (InvalidMemoryRegion (Z.of_nat index))
  else if (index <? length (a_regions m))%nat
  then Ok (mkAligned (<[index := region]> (a_regions m)) (allow_region_zero m))
  else Panic.

(** ** [MemoryMapping] *)
Inductive MemoryMappingType :=
| Aligned (inner : AlignedMemoryMapping)
| Unaligned (inner : UnalignedMemoryMapping).

Record MemoryMapping := mkMapping {
  mm_max_call_depth : Z;
  mm_stack_frame_size : Z;
  disable_address_translation : bool;
  mm_sbpf_version : SBPFVersion;
  initialized : bool;
  ty : MemoryMappingType
}.

(** [AccessViolationHandler]: the region it leaves behind. *)
Class AccessViolationHandler := {
  access_violation_handler : MemoryRegion -> Z -> AccessType -> Z -> Z -> MemoryRegion
}.
Definition default_access_violation_handler : AccessViolationHandler :=
  {| access_violation_handler region _ _ _ _ := region |}.

Definition with_type (m : MemoryMapping) (init : bool) (t : MemoryMappingType) : MemoryMapping :=
  mkMapping (mm_max_call_depth m) (mm_stack_frame_size m) (disable_address_translation m)
    (mm_sbpf_version m) init t.

Definition get_regions (m : MemoryMapping) : list MemoryRegion :=
  match ty m with Aligned inner => a_regions inner | Unaligned inner => u_regions inner end.

(** [get_regions_mut] followed by the assignment [*regions = new]. *)
Definition set_regions_mut (m : MemoryMapping) (new : list MemoryRegion) : MemoryMapping :=
  with_type m false
    (match ty m with
     | Aligned inner => Aligned (mkAligned new (allow_region_zero inner))
     | Unaligned inner => Unaligned (mkUnaligned new (region_addresses inner)
                                       (region_index_lookup inner) (cache inner))
     end).

Definition version_leb (v w : SBPFVersion) : bool := version_geb w v.

(** The bytes of the host address space that are allocated. *)
Abbreviation HostMemory := (gmap Z Z).

Section Mapping.
Context `{Profile} (empty_slice : Z).

Definition mm_new_uninitialized {E} (regions : list MemoryRegion) (config : Config)
    (v : SBPFVersion) : result E MemoryMapping :=
  t ← (if version_geb v V4 || aligned_memory_mapping config then
         Ok (Aligned (mkAligned regions (allow_memory_region_zero config)))
       else
         _ ← debug_assert (version_leb v V3);
         Ok (Unaligned (u_new_uninitialized regions)));
  Ok (mkMapping (as_i 64 (max_call_depth config)) (as_i 64 (stack_frame_size config))
        (negb (enable_address_translation config)) v false t).

Definition mm_initialize (m : MemoryMapping) : result EbpfError unit * MemoryMapping :=
  let (r, t) := match ty m with
                | Aligned inner =>
                    let (r, inner) := a_initialize empty_slice inner in (r, Aligned inner)
                | Unaligned inner =>
                    let (r, inner) := u_initialize inner in (r, Unaligned inner)
                end in
  (r, with_type m (match r with Ok _ => true | _ => false end) t).

(** [new_with_access_violation_handler] and [new]. *)
Definition mm_new (regions : list MemoryRegion) (config : Config) (v : SBPFVersion)
    : result EbpfError MemoryMapping :=
  m ← mm_new_uninitialized regions config v;
  match mm_initialize m with
  | (Ok _, m) => Ok m
  | (Err e, _) => Err e
  | (Panic, _) => Panic
  end.

Definition mm_find_region (m : MemoryMapping) (addr : Z)
    : result False (option (nat * MemoryRegion)) * MemoryMapping :=
  match debug_assert (E := False) (initialized m) with
  | Ok _ =>
      match ty m with
      | Aligned inner => (Ok (a_find_region inner addr), m)
      | Unaligned inner =>
          let (r, inner) := u_find_region inner addr in
          (r, with_type m (initialized m) (Unaligned inner))
      end
  | _ => (Panic, m)
  end.

Definition generate_access_violation (m : MemoryMapping) (access : AccessType) (addr n : Z)
    : EbpfError :=
  let d := saturating_i64 (as_i 64 addr - as_i 64 MM_STACK_START) in
  let size := mm_stack_frame_size m in
  let stack_frame := if (size =? 0) || ((d =? i64_min) && (size =? -1)) then 0 else Z.quot d size in
  if negb (manual_stack_frame_bump (mm_sbpf_version m)) &&
     ((-1 <=? stack_frame) && (stack_frame <? saturating_i64 (mm_max_call_depth m + 1)))
  then StackAccessViolation access addr n stack_frame
  else
    let region := Z.land addr (not_u64 (saturating_sub_u64 MM_BYTECODE_START 1)) in
    AccessViolation access addr n
      (if region =? MM_BYTECODE_START then "program"
       else if region =? MM_STACK_START then "stack"
       else if region =? MM_HEAP_START then "heap"
       else if region =? MM_INPUT_START then "input"
       else "unknown").

Definition mm_replace_region (m : MemoryMapping) (index : nat) (region : MemoryRegion)
    : result EbpfError MemoryMapping :=
  _ ← debug_assert (initialized m);
  let regions := get_regions m in
  let next_region_start := from_option vm_addr u64_max (regions !! S index) in
  match regions !! index with
  | None => Err (InvalidMemoryRegion (Z.of_nat index))
  | Some old =>
      if negb (vm_addr old =? vm_addr region) || (next_region_start <? (vm_addr_range region).2)
      then Err (InvalidMemoryRegion (Z.of_nat index))
      else
        t ← (match ty m with
             | Aligned inner => i ← a_replace_region inner index region; Ok (Aligned i)
             | Unaligned inner => i ← u_replace_region inner index region; Ok (Unaligned i)
             end);
        Ok (with_type m (initialized m) t)
  end.

(** [map]: the mapping comes back because of its cache. *)
Definition mm_map (m : MemoryMapping) (access : AccessType) (addr n : Z)
    : result EbpfError Z * MemoryMapping :=
  match debug_assert (E := False) (initialized m) with
  | Ok _ =>
      if disable_address_translation m then (Ok addr, m)
      else
        let (r, m) := mm_find_region m addr in
        match r with
        | Ok (Some (_, region)) =>
            match vm_to_host region access addr n with
            | Some h => (Ok h, m)
            | None => (Err (generate_access_violation m access addr n), m)
            end
        | Ok None => (Err (generate_access_violation m access addr n), m)
        | _ => (Panic, m)
        end
  | _ => (Panic, m)
  end.

Context `{AccessViolationHandler}.

Definition map_with_access_violation_handler (m : MemoryMapping) (access : AccessType) (addr n : Z)
    : result EbpfError Z * MemoryMapping :=
  match debug_assert (E := False) (initialized m) with
  | Ok _ =>
      if disable_address_translation m then (Ok addr, m)
      else
        let (r, m) := mm_find_region m addr in
        match r with
        | Ok (Some (index, region)) =>
            match vm_to_host region access addr n with
            | Some h => (Ok h, m)
            | None =>
                let max_len :=
                  saturating_sub_u64 (from_option vm_addr u64_max (get_regions m !! S index))
                    (vm_addr region) in
                let region := access_violation_handler region max_len access addr n in
                match vm_to_host region access addr n with
                | Some h =>
                    match mm_replace_region m index region with
                    | Ok m => (Ok h, m)
                    | Err e => (Err e, m)
                    | Panic => (Panic, m)
                    end
                | None => (Err (generate_access_violation m access addr n), m)
                end
            end
        | Ok None => (Err (generate_access_violation m access addr n), m)
        | _ => (Panic, m)
        end
  | _ => (Panic, m)
  end.

(** ** Loads and stores on the host memory *)
Definition read_host (h : HostMemory) (a : Z) (n : nat) : option (list byte) :=
  mapM (fun i => h !! (a + Z.of_nat i)) (seq 0 n).
Fixpoint write_host (h : HostMemory) (a : Z) (bytes : list byte) : option HostMemory :=
  match bytes with
  | [] => Some h
  | b :: bytes =>
      _ ← h !! a;
      write_host (<[a := b]> h) (a + 1) bytes
  end.

Definition mm_load (n : nat) (addr : Z) (m : MemoryMapping) (h : HostMemory)
    : result EbpfError Z * MemoryMapping :=
  match debug_assert (E := False) ((n <=? 8)%nat && initialized m) with
  | Ok _ =>
      let (r, m) := map_with_access_violation_handler m Load addr (Z.of_nat n) in
      (host ← r; bytes ← or_panic (read_host h host n); Ok (le_val bytes), m)
  | _ => (Panic, m)
  end.

Definition mm_store (n : nat) (value addr : Z) (m : MemoryMapping) (h : HostMemory)
    : result EbpfError Z * (MemoryMapping * HostMemory) :=
  match debug_assert (E := False) ((n <=? 8)%nat && initialized m) with
  | Ok _ =>
      let (r, m) := map_with_access_violation_handler m Store addr (Z.of_nat n) in
      match r with
      | Ok host =>
          match write_host h host (le_bytes n value) with
          | Some h' => (Ok host, (m, h'))
          | None => (Panic, (m, h))
          end
      | Err e => (Err e, (m, h))
      | Panic => (Panic, (m, h))
      end
  | _ => (Panic, (m, h))
  end.
End Mapping.
