(* ===== verification/Eytzinger.v ===== *)
(** * The Eytzinger layout of [UnalignedMemoryMapping]

    [construct_eytzinger_order] writes the in-order ranks of an implicit binary
    tree (children of [o]: [2 o + 1] and [2 o + 2]) and [find_region] descends
    it without branching.  The result is the last region starting at or before
    the address. *)

From S2P Require Import Prelude Ebpf Program Verifier Error MemoryRegion.

#[local] Open Scope nat_scope.

(** ** Subtrees of the implicit tree *)

(** The nodes [d] levels below [o] are [(o + 1) * 2^d - 1 .. (o + 2) * 2^d - 1]. *)
Definition in_sub (o j : nat) : Prop := exists d, (o + 1) * 2 ^ d <= j + 1 < (o + 2) * 2 ^ d.

(** How many of them are below [n], and how many nodes the subtree has down to
    [fuel] levels. *)
Definition level_size (n o d : nat) : nat := min n ((o + 2) * 2 ^ d - 1) - min n ((o + 1) * 2 ^ d - 1).
Fixpoint levels (n o d fuel : nat) : nat :=
  match fuel with O => 0 | S fuel => level_size n o d + levels n o (S d) fuel end.
Definition sub_size (n o fuel : nat) : nat := levels n o 0 fuel.

Lemma pow2_ge1 d : 1 <= 2 ^ d.
Proof. induction d; simpl; lia. Qed.

Lemma in_sub_self o : in_sub o o.
Proof. exists 0. simpl. lia. Qed.

Lemma in_sub_left o j : in_sub (2 * o + 1) j -> in_sub o j.
Proof. intros [d Hd]. exists (S d). rewrite Nat.pow_succ_r'. lia. Qed.

Lemma in_sub_right o j : in_sub (2 * o + 2) j -> in_sub o j.
Proof. intros [d Hd]. exists (S d). rewrite Nat.pow_succ_r'. lia. Qed.

Lemma in_sub_ge o j : in_sub o j -> o <= j.
Proof. intros [d Hd]. pose proof (pow2_ge1 d). nia. Qed.

Lemma pow2_double d e : d < e -> 2 * 2 ^ d <= 2 ^ e.
Proof.
  intros. replace e with (S d + (e - S d)) by lia. rewrite Nat.pow_add_r, Nat.pow_succ_r'.
  pose proof (pow2_ge1 (e - S d)). nia.
Qed.

Lemma in_sub_disjoint o j : in_sub (2 * o + 1) j -> in_sub (2 * o + 2) j -> False.
Proof.
  intros [d Hd] [e He]. destruct (lt_eq_lt_dec d e) as [[H| ->]|H].
  - apply pow2_double in H. nia.
  - lia.
  - apply pow2_double in H. nia.
Qed.

Lemma sub_size_leaf n o fuel : n <= o -> sub_size n o fuel = 0.
Proof.
  intros Hn. unfold sub_size. generalize 0 at 1. induction fuel as [|fuel IH]; intros k; [done|].
  cbn [levels].
  rewrite IH. unfold level_size. pose proof (pow2_ge1 k). rewrite !Nat.min_l by nia. lia.
Qed.

Lemma level_size_S n o d : level_size n o (S d) = level_size n (2 * o + 1) d + level_size n (2 * o + 2) d.
Proof.
  unfold level_size. rewrite Nat.pow_succ_r'. pose proof (pow2_ge1 d).
  replace ((2 * o + 2 + 2) * 2 ^ d) with ((o + 2) * (2 * 2 ^ d)) by lia.
  replace ((2 * o + 1 + 1) * 2 ^ d) with ((o + 1) * (2 * 2 ^ d)) by lia.
  replace ((2 * o + 1 + 2) * 2 ^ d) with ((2 * o + 2 + 1) * 2 ^ d) by lia.
  assert ((o + 1) * (2 * 2 ^ d) <= (2 * o + 2 + 1) * 2 ^ d <= (o + 2) * (2 * 2 ^ d)) by nia.
  lia.
Qed.

Lemma levels_S n o d fuel : levels n o (S d) fuel = levels n (2 * o + 1) d fuel + levels n (2 * o + 2) d fuel.
Proof.
  revert d. induction fuel as [|fuel IH]; intros d; [done|]. cbn [levels].
  rewrite IH, level_size_S. lia.
Qed.

Lemma sub_size_node n o fuel :
  o < n -> sub_size n o (S fuel) = sub_size n (2 * o + 1) fuel + 1 + sub_size n (2 * o + 2) fuel.
Proof.
  intros Ho. unfold sub_size. cbn [levels]. rewrite levels_S. unfold level_size. simpl. lia.
Qed.

(** All [n] nodes hang below the root. *)
Lemma sub_size_root n : sub_size n 0 (S n) = n.
Proof.
  assert (Hlev : forall fuel d, levels n 0 d fuel = min n (2 ^ (d + fuel) - 1) - min n (2 ^ d - 1)).
  { induction fuel as [|fuel IH]; intros d; cbn [levels].
    - rewrite Nat.add_0_r. lia.
    - rewrite IH. unfold level_size. replace (S d + fuel) with (d + S fuel) by lia.
      replace ((0 + 2) * 2 ^ d) with (2 ^ S d) by (rewrite Nat.pow_succ_r'; lia).
      assert (2 ^ d <= 2 ^ S d) by (apply Nat.pow_le_mono_r; lia).
      assert (2 ^ S d <= 2 ^ (d + S fuel)) by (apply Nat.pow_le_mono_r; lia). lia. }
  unfold sub_size. rewrite Hlev. assert (n < 2 ^ n) by (apply Nat.pow_gt_lin_r; lia).
  rewrite Nat.add_0_l, Nat.pow_succ_r'. simpl. lia.
Qed.

(** ** The tables are in order *)
Section Order.
Variable regions : list MemoryRegion.
Abbreviation n := (length regions).

(** The subtree at [o] holds the ranks [lo .. hi] in order. *)
Inductive ordered (addresses : list Z) (lookup : list nat) : nat -> nat -> nat -> Prop :=
| ord_leaf o lo : n <= o -> ordered addresses lookup o lo lo
| ord_node o lo mid hi r :
    o < n -> lookup !! o = Some mid -> regions !! mid = Some r -> addresses !! o = Some (vm_addr r) ->
    ordered addresses lookup (2 * o + 1) lo mid -> ordered addresses lookup (2 * o + 2) (S mid) hi ->
    ordered addresses lookup o lo hi.

Lemma ordered_ext a l a' l' o lo hi :
  ordered a l o lo hi -> (forall j, in_sub o j -> a' !! j = a !! j /\ l' !! j = l !! j) ->
  ordered a' l' o lo hi.
Proof.
  induction 1 as [o lo Ho|o lo mid hi r Ho Hl Hr Ha _ IH1 _ IH2]; intros Hext; [by constructor|].
  destruct (Hext o (in_sub_self o)) as [Ea El].
  apply (ord_node _ _ _ _ mid _ r); [done|congruence|done|congruence| |].
  - apply IH1. intros j Hj. apply Hext. by apply in_sub_left.
  - apply IH2. intros j Hj. apply Hext. by apply in_sub_right.
Qed.

Lemma ordered_le a l o lo hi : ordered a l o lo hi -> lo <= hi.
Proof. induction 1; lia. Qed.

Lemma construct_ok {E} fuel lo o a l :
  0 < fuel -> n < o + fuel -> lo + sub_size n o fuel <= n -> length a = n -> length l = n ->
  exists a' l',
    construct_eytzinger_order (E := E) regions fuel lo o (a, l) = Ok (lo + sub_size n o fuel, (a', l')) /\
    length a' = n /\ length l' = n /\
    (forall j, ~ in_sub o j -> a' !! j = a !! j /\ l' !! j = l !! j) /\
    ordered a' l' o lo (lo + sub_size n o fuel).
Proof.
  revert lo o a l. induction fuel as [|fuel IH]; intros lo o a l Hpos Hf Hn Ha Hl; [lia|].
  cbn [construct_eytzinger_order]. destruct (Nat.leb_spec n o) as [Ho|Ho].
  { rewrite sub_size_leaf by done. rewrite Nat.add_0_r. exists a, l. split_and!; try done. by constructor. }
  rewrite sub_size_node in Hn |- * by done.
  replace (o * 2) with (2 * o) by lia.
  destruct (IH lo (2 * o + 1) a l) as (a1 & l1 & -> & Ha1 & Hl1 & Hfr1 & Hord1); [lia..|].
  cbn [mbind result_bind]. set (mid := lo + sub_size n (2 * o + 1) fuel) in *.
  destruct (lookup_lt_is_Some_2 regions mid) as [r Hr]; [lia|]. rewrite Hr.
  cbn [or_panic mbind result_bind]. rewrite Ha1, Hl1.
  rewrite (proj2 (Nat.ltb_lt _ _)) by done. cbn [andb mbind result_bind].
  destruct (IH (mid + 1) (2 * o + 2) (<[o := vm_addr r]> a1) (<[o := mid]> l1))
    as (a2 & l2 & -> & Ha2 & Hl2 & Hfr2 & Hord2); [lia|lia|lia|by rewrite length_insert..|].
  assert (Hself2 : ~ in_sub (2 * o + 2) o) by (intros ?%in_sub_ge; lia).
  exists a2, l2. split; [do 2 f_equal; lia|]. split_and!; [done..| |].
  - intros j Hj. destruct (Hfr2 j) as [-> ->]; [by intros ?%in_sub_right|].
    assert (o <> j) by (intros ->; apply Hj, in_sub_self).
    rewrite !list_lookup_insert_ne by done. apply Hfr1. by intros ?%in_sub_left.
  - destruct (Hfr2 o Hself2) as [Ea El].
    replace (lo + (sub_size n (2 * o + 1) fuel + 1 + sub_size n (2 * o + 2) fuel))
      with (mid + 1 + sub_size n (2 * o + 2) fuel) by lia.
    apply (ord_node _ _ _ _ mid _ r); [done| |done| | |].
    + rewrite El. apply list_lookup_insert_eq. lia.
    + rewrite Ea. apply list_lookup_insert_eq. lia.
    + apply (ordered_ext a1 l1); [done|]. intros j Hj.
      destruct (Hfr2 j) as [-> ->]; [by intros ?%(in_sub_disjoint o)|].
      apply in_sub_ge in Hj as ?. by rewrite !list_lookup_insert_ne by lia.
    + by replace (S mid) with (mid + 1) by lia.
Qed.

(** The whole construction, from any tables of the right size. *)
Lemma construct_root {E} a l :
  length a = n -> length l = n ->
  exists a' l', construct_eytzinger_order (E := E) regions (S n) 0 0 (a, l) = Ok (n, (a', l')) /\
    length a' = n /\ length l' = n /\ ordered a' l' 0 0 n.
Proof.
  intros Ha Hl. destruct (construct_ok (E := E) (S n) 0 0 a l) as (a' & l' & Hc & Ha' & Hl' & _ & Ho);
    rewrite ?sub_size_root in *; try lia. rewrite Nat.add_0_l in *. eauto 10.
Qed.
End Order.

(** ** The search *)
Lemma drop_trailing_ok m k fuel : k < fuel -> drop_trailing fuel ((2 * m + 1) * 2 ^ k) = m.
Proof.
  revert fuel. induction k as [|k IH]; intros fuel Hk; (destruct fuel as [|fuel]; [lia|]); cbn [drop_trailing].
  - rewrite Nat.pow_0_r, Nat.mul_1_r, Nat.add_1_r, Nat.odd_succ, Nat.even_even.
    apply Nat.div2_succ_double.
  - rewrite Nat.pow_succ_r'. replace ((2 * m + 1) * (2 * 2 ^ k)) with (2 * ((2 * m + 1) * 2 ^ k)) by lia.
    rewrite Nat.odd_even, Nat.div2_double. apply IH. lia.
Qed.

Section Before.
Variables (regions : list MemoryRegion) (addr : Z).

(** The last region that starts at or before [addr]. *)
Definition region_before (r : option nat) : Prop :=
  match r with
  | None => forall j r, regions !! j = Some r -> (addr < vm_addr r)%Z
  | Some i => (exists r, regions !! i = Some r /\ (vm_addr r <= addr)%Z) /\
              forall j r, i < j -> regions !! j = Some r -> (addr < vm_addr r)%Z
  end.

Lemma region_before_unique r r' : region_before r -> region_before r' -> r = r'.
Proof.
  intros Hr Hr'. destruct r as [i|], r' as [i'|]; simpl in *; try done.
  - destruct Hr as [(x & Hx & Hle) Hgt], Hr' as [(x' & Hx' & Hle') Hgt'].
    destruct (lt_eq_lt_dec i i') as [[H| ->]|H]; [|done|].
    + specialize (Hgt i' x' H Hx'). lia.
    + specialize (Hgt' i x H Hx). lia.
  - destruct Hr as [(x & Hx & Hle) _]. specialize (Hr' i x Hx). lia.
  - destruct Hr' as [(x & Hx & Hle) _]. specialize (Hr i' x Hx). lia.
Qed.
End Before.

Section Search.
Variables (regions : list MemoryRegion) (addresses : list Z) (lookup : list nat) (addr : Z).
Abbreviation n := (length regions).
Hypothesis addresses_length : length addresses = n.

(** The first [c] regions start at or before the address, the others after. *)
Definition upto (c : nat) : Prop :=
  forall i r, regions !! i = Some r -> (vm_addr r <= addr)%Z <-> i < c.

Lemma search_ok c fuel o lo hi :
  upto c -> ordered regions addresses lookup o lo hi -> 0 < fuel -> n < o + fuel ->
  exists final, eytzinger_search addresses addr fuel (o + 1) = Ok final /\
    if decide (lo < min c hi)
    then exists k q, final = (2 * (q + 1) + 1) * 2 ^ k /\ lookup !! q = Some (min c hi - 1)
    else exists k, final = (o + 1) * 2 ^ k.
Proof.
  intros Hc Ho. revert fuel. induction Ho as [o lo Ho|o lo mid hi r Ho Hl Hr Ha H1 IH1 H2 IH2];
    intros fuel Hpos Hf; (destruct fuel as [|fuel]; [lia|]); cbn [eytzinger_search];
    rewrite addresses_length.
  - rewrite (proj2 (Nat.leb_gt _ _)) by lia. exists (o + 1). split; [done|].
    rewrite decide_False by lia. exists 0. simpl. lia.
  - rewrite (proj2 (Nat.leb_le _ _)) by lia. replace (o + 1 - 1) with o by lia.
    rewrite Ha. cbn [or_panic mbind result_bind]. specialize (Hc mid r Hr).
    apply ordered_le in H1, H2. destruct (Z.leb_spec (vm_addr r) addr) as [Hle|Hgt].
    + destruct (IH2 fuel) as (final & Hs & Hfin); [lia..|].
      replace (2 * (o + 1) + 1) with (2 * o + 2 + 1) by lia. exists final. split; [done|].
      rewrite decide_True by lia. case_decide as Hd; [done|].
      destruct Hfin as [k ->]. exists k, o. split; [f_equal; lia|]. rewrite Hl. f_equal. lia.
    + destruct (IH1 fuel) as (final & Hs & Hfin); [lia..|].
      replace (2 * (o + 1) + 0) with (2 * o + 1 + 1) by lia. exists final. split; [done|].
      replace (min c mid) with (min c hi) in Hfin by lia. case_decide; [done|].
      destruct Hfin as [k ->]. exists (S k). rewrite Nat.pow_succ_r'. lia.
Qed.

Lemma search_root c :
  upto c -> c <= n -> ordered regions addresses lookup 0 0 n ->
  exists final, eytzinger_search addresses addr (S (length addresses)) 1 = Ok final /\
    match drop_trailing final final with
    | O => region_before regions addr None
    | S q => exists i, lookup !! q = Some i /\ region_before regions addr (Some i)
    end.
Proof.
  intros Hc Hcn Ho. rewrite addresses_length.
  destruct (search_ok c (S n) 0 0 n Hc Ho) as (final & Hs & Hfin); [lia..|].
  exists final. split; [done|]. case_decide as Hd.
  - destruct Hfin as (k & q & Hf & Hq). assert (k < final).
    { rewrite Hf. assert (k < 2 ^ k) by (apply Nat.pow_gt_lin_r; lia). nia. }
    assert (Hdt : drop_trailing final final = S q).
    { rewrite Hf at 2. rewrite drop_trailing_ok by done. lia. }
    rewrite Hdt. exists (min c n - 1). split; [done|]. split.
    + destruct (lookup_lt_is_Some_2 regions (min c n - 1)) as [r Hr]; [lia|].
      exists r. split; [done|]. apply (Hc _ _ Hr). lia.
    + intros j r Hj Hr. apply Z.nle_gt. rewrite (Hc j r Hr). lia.
  - destruct Hfin as [k Hf]. rewrite Nat.add_0_l, Nat.mul_1_l in Hf. assert (k < final).
    { rewrite Hf. apply Nat.pow_gt_lin_r. lia. }
    assert (Hz : drop_trailing final final = 0).
    { rewrite Hf at 2. pose proof (drop_trailing_ok 0 k final) as Hdt. simpl in Hdt.
      rewrite Nat.add_0_r in Hdt. by apply Hdt. }
    rewrite Hz. intros j r Hr. apply Z.nle_gt. rewrite (Hc j r Hr).
    apply lookup_lt_Some in Hr. lia.
Qed.
End Search.
