(* ===== verification/MemoryFacts.v ===== *)
(** * Address translation and region search are correct

    [vm_to_host] against an arithmetic specification, the Eytzinger search and
    its cache against a linear search, and the safety of loads and stores. *)

From stdpp Require Import gmap sets strings.
From S2P Require Import Prelude Ebpf Program Verifier Error MemoryRegion Eytzinger.

(** ** Translation inside one region *)
Section Translate.
Implicit Types (r : MemoryRegion) (a n h : Z).

(** Fields as the code creates them: 64-bit addresses and a frame size that is
    a power of two. *)
Record region_wf r : Prop := {
  wf_vm_addr : is_u 64 (vm_addr r);
  wf_len : 0 <= len r;
  wf_host : 0 <= host_addr r /\ host_addr r + len r <= u64_max;
  wf_gap : 0 <= vm_gap_shift r <= 63
}.

(** The offset into the host memory of the guest offset [b]: the identity in
    a contiguous region; in a gapped one, frame [p] holds the guest offsets
    [2 p * 2^s .. (2 p + 1) * 2^s] and the odd slices are gaps. *)
Definition host_offset r (b : Z) : option Z :=
  if vm_gap_shift r =? 63 then Some b
  else
    let s := vm_gap_shift r in
    if Z.even (b / 2 ^ s) then Some (b / 2 ^ (s + 1) * 2 ^ s + b mod 2 ^ s) else None.

Definition allowed r (access : AccessType) : Prop := access = Store -> writable r = true.

Lemma high_mask s : 0 <= s < 64 -> as_u 64 (Z.shiftl (-1) s) = 2 ^ 64 - 2 ^ s.
Proof.
  intros Hs. rewrite Z.shiftl_mul_pow2 by lia. unfold as_u.
  assert (2 ^ s < 2 ^ 64) by (apply Z.pow_lt_mono_r; lia). assert (0 < 2 ^ s) by lia.
  rewrite <- (Z.mod_add _ 1) by lia. rewrite Z.mod_small by lia. lia.
Qed.

Lemma low_mask s : 0 <= s < 64 -> not_u64 (2 ^ 64 - 2 ^ s) = 2 ^ s - 1.
Proof.
  intros Hs. unfold not_u64, u64_max. change (2 ^ 64 - 1) with (Z.ones 64).
  apply Z.bits_inj'. intros k Hk.
  replace (2 ^ s - 1) with (Z.ones s) by (rewrite Z.ones_equiv; lia).
  replace (2 ^ 64 - 2 ^ s) with (Z.shiftl (Z.ones (64 - s)) s); cycle 1.
  { rewrite Z.shiftl_mul_pow2, Z.ones_equiv by lia.
    rewrite <- Z.sub_1_r, Z.mul_sub_distr_r, <- Z.pow_add_r by lia.
    replace (64 - s + s) with 64 by lia. lia. }
  rewrite Z.lxor_spec, Z.shiftl_spec by lia.
  destruct (decide (k < s)).
  - rewrite (Z.testbit_neg_r _ (k - s)) by lia. rewrite !Z.ones_spec_low by lia. done.
  - rewrite (Z.ones_spec_high s) by lia. destruct (decide (k < 64)).
    + rewrite !Z.ones_spec_low by lia. done.
    + rewrite !Z.ones_spec_high by lia. done.
Qed.

Lemma land_high_mask b s :
  is_u 64 b -> 0 <= s < 64 -> Z.land b (2 ^ 64 - 2 ^ s) = b / 2 ^ s * 2 ^ s.
Proof.
  intros Hb Hs. rewrite <- (high_mask s Hs). unfold as_u.
  rewrite <- Z.land_ones by lia. rewrite (Z.land_comm (Z.shiftl _ _)), Z.land_assoc.
  rewrite Z.land_ones by lia. rewrite (Z.mod_small b) by (unfold is_u in Hb; lia).
  rewrite <- Z.shiftl_mul_pow2, <- Z.shiftr_div_pow2 by lia.
  apply Z.bits_inj'. intros k Hk. rewrite Z.land_spec, !Z.shiftl_spec by lia.
  destruct (decide (k < s)).
  - rewrite !(Z.testbit_neg_r _ (k - s)) by lia. by rewrite andb_false_r.
  - rewrite Z.bits_m1, andb_true_r, Z.shiftr_spec by lia. f_equal. lia.
Qed.

(** The offset [vm_to_host] computes in a gapped region. *)
Lemma gapped_offset_eq b s :
  is_u 64 b -> 0 <= s < 63 -> Z.even (b / 2 ^ s) = true ->
  Z.lor (Z.shiftr (Z.land b (2 ^ 64 - 2 ^ s)) 1) (Z.land b (2 ^ s - 1)) =
    b / 2 ^ (s + 1) * 2 ^ s + b mod 2 ^ s.
Proof.
  intros Hb Hs He. rewrite land_high_mask by (done || lia).
  rewrite land_ones_mod by lia. rewrite Z.shiftr_div_pow2 by lia.
  apply Z.even_spec in He as [p Hp].
  assert (Hp' : b / 2 ^ (s + 1) = p).
  { rewrite Z.pow_add_r by lia. rewrite <- Z.div_div by lia. rewrite Hp, Z.mul_comm. apply Z.div_mul. lia. }
  rewrite Hp, Hp'. change (2 ^ 1) with 2.
  replace (2 * p * 2 ^ s) with (p * 2 ^ s * 2) by lia. rewrite Z.div_mul by lia.
  apply lor_disjoint_add; [lia|]. apply Z.mod_pos_bound. lia.
Qed.

Lemma odd_test q : (Z.land q 1 =? 1) = negb (Z.even q).
Proof.
  pose proof (land_ones_mod q 1 ltac:(lia)) as Hq.
  change (2 ^ 1 - 1) with 1 in Hq. change (2 ^ 1) with 2 in Hq.
  rewrite Hq, Zmod_even. by destruct (Z.even q).
Qed.

(** [vm_to_host] as a specification: the access is allowed, the address lies in
    a frame, and the bytes fit. *)
Lemma vm_to_host_iff r access a n h :
  region_wf r -> is_u 64 a -> 0 <= n ->
  vm_to_host r access a n = Some h <->
  allowed r access /\ vm_addr r <= a /\
  exists o, host_offset r (a - vm_addr r) = Some o /\ o + n <= len r /\ h = host_addr r + o.
Proof.
  intros [Hv Hl [Hh Hhl] Hg] Ha Hn. unfold is_u, u64_max in *.
  unfold vm_to_host, allowed.
  destruct (bool_decide (access = Store) && negb (writable r)) eqn:Hw.
  { apply andb_true_iff in Hw as [Hs%bool_decide_eq_true Hn'%negb_true_iff].
    split; [done|]. intros (Hall & _). rewrite (Hall Hs) in Hn'. done. }
  assert (Hall : access = Store -> writable r = true).
  { intros ->. rewrite bool_decide_true in Hw by done. by destruct (writable r). }
  destruct (Z.ltb_spec a (vm_addr r)); [split; [done|]; intros (_ & ? & _); lia|].
  cbv zeta. unfold saturating_sub_u64. rewrite Z.max_l by lia.
  set (b := a - vm_addr r) in *. assert (Hb : is_u 64 b) by (unfold is_u, b; lia).
  assert (Hfin : forall o : Z, 0 <= o ->
    match checked_add_u64 o n with
    | Some e => if e <=? len r then Some (saturating_add_u64 (host_addr r) o) else None
    | None => None
    end = Some h <-> o + n <= len r /\ h = host_addr r + o).
  { intros o Ho. unfold checked_add_u64, saturating_add_u64, u64_max.
    destruct (Z.leb_spec (o + n) (2 ^ 64 - 1)); [|split; [done|lia]].
    destruct (Z.leb_spec (o + n) (len r)); [|split; [done|lia]].
    rewrite Z.min_l by lia. naive_solver. }
  unfold host_offset. destruct (Z.eqb_spec (vm_gap_shift r) 63) as [|Hns].
  { rewrite Hfin by (unfold is_u in Hb; lia). naive_solver. }
  set (s := vm_gap_shift r) in *. unfold checked_shr_u64, checked_shl_u64.
  rewrite !(proj2 (Z.ltb_lt s 64)) by lia. change (1 <? 64) with true. cbv iota.
  change (default 0 (Some ?x)) with x.
  rewrite high_mask, low_mask by lia.
  replace (Z.land (Z.shiftr b s) 1 =? 1) with (negb (Z.even (b / 2 ^ s))); cycle 1.
  { rewrite Z.shiftr_div_pow2 by lia. by rewrite odd_test. }
  rewrite negb_involutive.
  destruct (Z.even (b / 2 ^ s)) eqn:He.
  - change (default 0 (Some ?x)) with x. rewrite gapped_offset_eq by (done || lia).
    set (o := b / 2 ^ (s + 1) * 2 ^ s + b mod 2 ^ s).
    assert (Ho : 0 <= o).
    { unfold o, is_u in *. pose proof (Z.mod_pos_bound b (2 ^ s) ltac:(lia)).
      pose proof (Z.div_pos b (2 ^ (s + 1)) ltac:(lia) ltac:(lia)). nia. }
    specialize (Hfin o Ho).
    destruct (checked_add_u64 o n); [rewrite andb_true_r|]; rewrite Hfin; naive_solver.
  - split; [|naive_solver]. case_match; [|done]. by rewrite andb_false_r.
Qed.

Lemma vm_to_host_bounds r access a n h :
  region_wf r -> is_u 64 a -> 0 <= n -> vm_to_host r access a n = Some h ->
  host_addr r <= h /\ h + n <= host_addr r + len r.
Proof.
  intros Hwf Ha Hn (_ & Hle & o & Ho & Hlen & ->)%vm_to_host_iff; [|done..].
  assert (0 <= o); [|lia]. unfold host_offset in Ho. destruct (_ =? 63); [naive_solver lia|].
  destruct (wf_gap r Hwf) as [Hs _]. set (s := vm_gap_shift r) in *.
  destruct (Z.even _); [|done]. injection Ho as <-.
  pose proof (Z.mod_pos_bound (a - vm_addr r) (2 ^ s) ltac:(lia)).
  pose proof (Z.div_pos (a - vm_addr r) (2 ^ (s + 1)) ltac:(lia) ltac:(lia)). nia.
Qed.

Lemma host_offset_inj r b1 b2 o :
  0 <= vm_gap_shift r -> host_offset r b1 = Some o -> host_offset r b2 = Some o -> b1 = b2.
Proof.
  intros Hs. unfold host_offset. destruct (_ =? 63); [naive_solver|]. set (s := vm_gap_shift r) in *.
  assert (Hsplit : forall b, Z.even (b / 2 ^ s) = true -> b = 2 * (b / 2 ^ (s + 1)) * 2 ^ s + b mod 2 ^ s).
  { intros b [p Hp]%Z.even_spec. rewrite Z.pow_add_r by lia. rewrite <- Z.div_div by lia.
    rewrite Hp, (Z.mul_comm 2 p). change (2 ^ 1) with 2. rewrite Z.div_mul by lia.
    rewrite (Z.div_mod b (2 ^ s)) at 1 by lia. rewrite Hp. lia. }
  destruct (Z.even (b1 / _)) eqn:H1, (Z.even (b2 / _)) eqn:H2; try done. intros [= <-] [= Heq].
  rewrite (Hsplit b1 H1), (Hsplit b2 H2).
  pose proof (Z.mod_pos_bound b1 (2 ^ s) ltac:(lia)). pose proof (Z.mod_pos_bound b2 (2 ^ s) ltac:(lia)).
  assert (b1 / 2 ^ (s + 1) = b2 / 2 ^ (s + 1)) by nia. nia.
Qed.

(** The layout of a region, byte by byte: the guest's frame [f], followed by a
    gap of the same size, is the host's frame [f]; without gaps the bytes are
    mapped one to one. *)
Definition mapped r (a h : Z) : Prop :=
  if vm_gap_shift r =? 63 then exists x, 0 <= x < len r /\ a = vm_addr r + x /\ h = host_addr r + x
  else let size := 2 ^ vm_gap_shift r in
    exists f x, 0 <= f /\ 0 <= x < size /\ f * size + x < len r /\
      a = vm_addr r + f * (2 * size) + x /\ h = host_addr r + f * size + x.

(** An access that does not run over the end of the frame it starts in. *)
Definition in_one_frame r (a n : Z) : Prop :=
  vm_gap_shift r = 63 \/ (a - vm_addr r) mod 2 ^ vm_gap_shift r + n <= 2 ^ vm_gap_shift r.

Lemma host_offset_frame r b o :
  0 <= vm_gap_shift r -> vm_gap_shift r <> 63 -> 0 <= b ->
  let size := 2 ^ vm_gap_shift r in
  host_offset r b = Some o <-> exists f, 0 <= f /\ b = f * (2 * size) + b mod size /\ o = f * size + b mod size.
Proof.
  intros Hs Hn Hb size. unfold host_offset. rewrite (proj2 (Z.eqb_neq _ _) Hn). cbv zeta. fold size.
  assert (Hsz : 0 < size) by (unfold size; lia). rewrite Z.pow_add_r by lia. fold size. change (2 ^ 1) with 2.
  rewrite <- Z.div_div by lia. pose proof (Z.div_mod b size ltac:(lia)) as Hdm.
  pose proof (Z.div_pos b size Hb Hsz). pose proof (Z.mod_pos_bound b size Hsz). split.
  - destruct (Z.even (b / size)) eqn:He; [|done]. intros [= <-]. apply Z.even_spec in He as [f Hf].
    exists f. rewrite Hf in Hdm |- *. rewrite (Z.mul_comm 2 f), Z.div_mul by lia. nia.
  - intros (f & Hf & Hbf & ->). assert (Hq : b / size = f * 2).
    { symmetry. apply (Z.div_unique_pos _ _ _ (b mod size)); [done|lia]. }
    rewrite Hq, Z.even_mul, orb_true_r, Z.div_mul by lia. done.
Qed.

Lemma vm_to_host_mapped r access a n h :
  region_wf r -> is_u 64 a -> 1 <= n -> vm_to_host r access a n = Some h -> mapped r a h.
Proof.
  intros Hwf Ha Hn (_ & Hle & o & Ho & Hlen & ->)%vm_to_host_iff; [|done|done|lia]. unfold mapped.
  destruct (Z.eqb_spec (vm_gap_shift r) 63) as [Hg|Hg].
  - unfold host_offset in Ho. rewrite Hg in Ho. injection Ho as <-. exists (a - vm_addr r). lia.
  - apply host_offset_frame in Ho as (f & Hf & Hb & ->); [|apply Hwf|done|lia].
    pose proof (wf_gap r Hwf). pose proof (Z.mod_pos_bound (a - vm_addr r) (2 ^ vm_gap_shift r) ltac:(lia)).
    exists f, ((a - vm_addr r) mod 2 ^ vm_gap_shift r). split_and!; lia.
Qed.

Lemma mapped_next r a h n i :
  region_wf r -> mapped r a h -> in_one_frame r a n -> h + n <= host_addr r + len r -> 0 <= i < n ->
  mapped r (a + i) (h + i).
Proof.
  intros Hwf. unfold mapped, in_one_frame. pose proof (wf_gap r Hwf).
  destruct (Z.eqb_spec (vm_gap_shift r) 63) as [Hg|Hg].
  - intros (x & Hx & -> & ->) _ Hn Hi. exists (x + i). lia.
  - cbv zeta. set (size := 2 ^ vm_gap_shift r). assert (Hsz : 0 < size) by (unfold size; lia).
    intros (f & x & Hf & Hx & Hl & -> & ->) Hone Hn Hi. destruct Hone as [|Hone]; [done|].
    replace (vm_addr r + f * (2 * size) + x - vm_addr r) with (x + (2 * f) * size) in Hone by lia.
    rewrite Z.mod_add, Z.mod_small in Hone by lia. exists f, (x + i). split_and!; lia.
Qed.

Lemma mapped_offset r a h :
  region_wf r -> mapped r a h ->
  vm_addr r <= a /\ exists o, host_offset r (a - vm_addr r) = Some o /\ h = host_addr r + o /\ 0 <= o < len r.
Proof.
  intros Hwf. unfold mapped. pose proof (wf_gap r Hwf). destruct (Z.eqb_spec (vm_gap_shift r) 63) as [Hg|Hg].
  - intros (x & Hx & -> & ->). split; [lia|]. exists x. unfold host_offset. rewrite Hg. split_and!; try lia.
    simpl. f_equal. lia.
  - cbv zeta. set (size := 2 ^ vm_gap_shift r). assert (Hsz : 0 < size) by (unfold size; lia).
    intros (f & x & Hf & Hx & Hl & -> & ->). assert (Hnn : 0 <= f * size) by nia. split; [nia|].
    exists (f * size + x). split_and!; try lia.
    apply host_offset_frame; [lia|done|nia|]. fold size. exists f.
    replace (vm_addr r + f * (2 * size) + x - vm_addr r) with (x + (2 * f) * size) by lia.
    rewrite Z.mod_add, Z.mod_small by lia. split_and!; lia.
Qed.

(** C26: [vm_to_host] translates by the layout of the region: whatever it
    translates starts at a mapped byte, so that an access to a gap is refused,
    and an access that does not run over the end of a frame is translated
    exactly when it is permitted and every byte of it is mapped, to the host
    address of its first byte. *)
Theorem vm_to_host_spec r access a n h :
  region_wf r -> is_u 64 a -> 1 <= n ->
  (vm_to_host r access a n = Some h -> allowed r access /\ mapped r a h) /\
  (in_one_frame r a n ->
    vm_to_host r access a n = Some h <->
    allowed r access /\ forall i, 0 <= i < n -> mapped r (a + i) (h + i)).
Proof.
  intros Hwf Ha Hn. assert (Hn0 : 0 <= n) by lia. split.
  { intros H. split; [|by eapply vm_to_host_mapped]. by apply vm_to_host_iff in H as [? _]; [|done|done|lia]. }
  intros Hone. split.
  - intros H. pose proof (vm_to_host_bounds _ _ _ _ _ Hwf Ha Hn0 H) as [_ Hb].
    pose proof (vm_to_host_mapped _ _ _ _ _ Hwf Ha Hn H) as Hm.
    apply vm_to_host_iff in H as [Hall _]; [|done|done|lia]. split; [done|]. intros i Hi. by eapply mapped_next.
  - intros [Hall Hm]. destruct (mapped_offset r a h Hwf) as (Hle & o & Ho & -> & Hr).
    { specialize (Hm 0 ltac:(lia)). by rewrite !Z.add_0_r in Hm. }
    apply vm_to_host_iff; [done|done|lia|]. split; [done|]. split; [done|]. exists o. split_and!; [done| |done].
    destruct (mapped_offset r _ _ Hwf (Hm (n - 1) ltac:(lia))) as (_ & o' & _ & Heq & Hr'). lia.
Qed.

(** translation stays inside the region's host memory and never maps two
    guest addresses to one host address, gapped or not. *)
Theorem vm_to_host_safe_injective r access access' a a' n n' h :
  region_wf r -> is_u 64 a -> is_u 64 a' -> 0 <= n -> 0 <= n' ->
  vm_to_host r access a n = Some h -> vm_to_host r access' a' n' = Some h ->
  a = a' /\ host_addr r <= h /\ h + n <= host_addr r + len r.
Proof.
  intros Hwf Ha Ha' Hn Hn' H1 H2. pose proof (vm_to_host_bounds _ _ _ _ _ Hwf Ha Hn H1).
  split; [|done]. apply vm_to_host_iff in H1 as (_ & _ & o & Ho & _ & ->); [|done..].
  apply vm_to_host_iff in H2 as (_ & _ & o' & Ho' & _ & Heq); [|done..].
  assert (o' = o) as -> by lia. pose proof (wf_gap r Hwf).
  pose proof (host_offset_inj r _ _ o ltac:(lia) Ho Ho'). lia.
Qed.
End Translate.

(** ** Sorting and overlap *)
Section Sorting.
Implicit Types (l : list MemoryRegion) (r : MemoryRegion).

Definition starts_sorted l : Prop :=
  forall i j r r', (i <= j)%nat -> l !! i = Some r -> l !! j = Some r' -> vm_addr r <= vm_addr r'.

Definition vm_addr_le r r' : Prop := vm_addr r <= vm_addr r'.

Lemma sort_insert_perm r l : sort_insert r l ≡ₚ r :: l.
Proof.
  induction l as [|y l IH]; simpl; [done|]. case_match; [done|]. rewrite IH. apply Permutation_swap.
Qed.

Lemma sort_regions_perm l : sort_regions l ≡ₚ l.
Proof. induction l as [|r l IH]; simpl; [done|]. by rewrite sort_insert_perm, IH. Qed.

Lemma sort_insert_sorted r l :
  StronglySorted vm_addr_le l -> StronglySorted vm_addr_le (sort_insert r l).
Proof.
  induction 1 as [|y l Hs IH Hf]; simpl; [by repeat constructor|].
  destruct (Z.leb_spec (vm_addr r) (vm_addr y)).
  - constructor; [by constructor|]. constructor; [done|].
    eapply Forall_impl; [exact Hf|]. unfold vm_addr_le. lia.
  - constructor; [done|]. rewrite sort_insert_perm. constructor; [unfold vm_addr_le; lia|done].
Qed.

Lemma sort_regions_sorted l : StronglySorted vm_addr_le (sort_regions l).
Proof. induction l as [|r l IH]; simpl; [constructor|]. by apply sort_insert_sorted. Qed.

Lemma sort_starts_sorted l : starts_sorted (sort_regions l).
Proof.
  intros i j r r' Hij Hr Hr'. destruct (decide (i = j)) as [->|]; [simplify_eq; lia|].
  apply (sorted_lookup vm_addr_le (sort_regions l) i j r r'); [apply sort_regions_sorted|done..|lia].
Qed.

(** Every region ends before the next one starts. *)
Definition disjoint_starts l : Prop :=
  forall i r r', l !! i = Some r -> l !! S i = Some r' -> (vm_addr_range r).2 <= vm_addr r'.

Lemma first_overlap_None l k : first_overlap l k = None <-> disjoint_starts l.
Proof.
  revert k. induction l as [|r l IH]; intros k; [split; [done|]; done|].
  cbn [first_overlap]. destruct l as [|r' l].
  { split; [|done]. intros _ [|i] x x'; done. }
  destruct (Z.ltb_spec (vm_addr r') (vm_addr_range r).2) as [Hlt|Hge].
  - split; [done|]. intros Hd. specialize (Hd 0%nat r r' eq_refl eq_refl). lia.
  - rewrite IH. split.
    + intros Hd [|i] x x' Hx Hx'; [simpl in *; simplify_eq; done|]. by apply (Hd i).
    + intros Hd i x x' Hx Hx'. by apply (Hd (S i)).
Qed.

Lemma upto_count l a : starts_sorted l -> exists c, upto l a c /\ (c <= length l)%nat.
Proof.
  intros Hs. induction l as [|r l IH] using rev_ind.
  { exists 0%nat. split; [|done]. intros i r Hr. done. }
  destruct IH as (c & Hc & Hcl).
  { intros i j x x' Hij Hx Hx'. apply (Hs i j x x' Hij); by apply lookup_app_l_Some. }
  rewrite length_app. simpl. destruct (decide (vm_addr r <= a)) as [Hle|Hgt].
  - exists (S (length l)). split; [|lia]. intros i x Hx. pose proof (lookup_lt_Some _ _ _ Hx) as Hi.
    rewrite length_app in Hi. simpl in Hi. split; [lia|]. intros _.
    enough (vm_addr x <= vm_addr r) by lia. apply (Hs i (length l) x r); [lia|done|].
    by rewrite lookup_app_r, Nat.sub_diag by lia.
  - exists c. split; [|lia]. intros i x Hx. destruct (decide (i < length l)%nat) as [Hi|Hi].
    + rewrite lookup_app_l in Hx by done. by apply Hc.
    + rewrite lookup_app_r in Hx by lia. destruct (i - length l)%nat eqn:E; [|done].
      simpl in Hx. simplify_eq. lia.
Qed.
End Sorting.

(** ** The unaligned mapping finds the right region *)
Section UnalignedFacts.
Implicit Types (m : UnalignedMemoryMapping).

Definition cache_entry_ok (regions : list MemoryRegion) (e : Z * Z * nat) : Prop :=
  e.1.2 <= e.1.1 \/ exists r, regions !! e.2 = Some r /\ e.1 = vm_addr_range r.

Record cache_ok (regions : list MemoryRegion) (c : MappingCache) : Prop := {
  cache_size : length (entries c) = CACHE_SIZE;
  cache_entries : Forall (cache_entry_ok regions) (entries c)
}.

Record unaligned_ok m : Prop := {
  u_addresses_length : length (region_addresses m) = length (u_regions m);
  u_lookup_length : length (region_index_lookup m) = length (u_regions m);
  u_ordered : ordered (u_regions m) (region_addresses m) (region_index_lookup m) 0 0 (length (u_regions m));
  u_sorted : starts_sorted (u_regions m);
  u_disjoint : disjoint_starts (u_regions m);
  u_cache : cache_ok (u_regions m) (cache m)
}.

Lemma cache_new_ok regions : cache_ok regions cache_new.
Proof. split; [done|]. apply Forall_replicate. by left. Qed.

Lemma cache_insert_ok regions c i r :
  cache_ok regions c -> regions !! i = Some r -> cache_ok regions (cache_insert c (vm_addr_range r) i).
Proof.
  intros [Hl He] Hr. unfold cache_insert. split; simpl; [by rewrite length_insert|].
  apply Forall_insert; [done|]. right. eauto.
Qed.

Lemma cache_scan_Some regions c a i fuel index :
  cache_ok regions c -> cache_scan c a i fuel = Some index ->
  exists r, regions !! index = Some r /\ range_contains (vm_addr_range r) a = true.
Proof.
  intros [Hl He]. revert i. induction fuel as [|fuel IH]; intros i; cbn [cache_scan]; [done|].
  destruct (entries c !! _) as [[range k]|] eqn:Hk; [|apply IH].
  destruct (range_contains range a) eqn:Hc; [|apply IH]. intros [= <-].
  rewrite Forall_forall in He. apply list_elem_of_lookup_2 in Hk. specialize (He _ Hk).
  destruct He as [He|(r & Hr & He)]; simpl in He; [unfold range_contains in Hc; lia|].
  exists r. subst range. done.
Qed.

Lemma range_start r : (vm_addr_range r).1 = vm_addr r.
Proof. unfold vm_addr_range. by case_match. Qed.

(** A cached hit is the answer the search would give. *)
Lemma contained_before regions i r a :
  starts_sorted regions -> disjoint_starts regions -> regions !! i = Some r ->
  range_contains (vm_addr_range r) a = true -> region_before regions a (Some i).
Proof.
  intros Hs Hd Hr Hc. unfold range_contains in Hc. rewrite range_start in Hc. split; [exists r; split; [done|lia]|].
  intros j r' Hij Hr'. destruct (lookup_lt_is_Some_2 regions (S i)) as [r2 Hr2].
  { apply lookup_lt_Some in Hr'. lia. }
  specialize (Hd i r r2 Hr Hr2). specialize (Hs (S i) j r2 r' Hij Hr2 Hr'). lia.
Qed.

Lemma u_find_region_ok m a :
  unaligned_ok m ->
  exists i m', region_before (u_regions m) a i /\
    u_find_region m a = (Ok (i ≫= fun i => pair i <$> u_regions m !! i), m') /\
    unaligned_ok m' /\ u_regions m' = u_regions m.
Proof.
  intros [Hal Hll Ho Hs Hd Hc]. unfold u_find_region.
  destruct (cache_find (cache m) a) as [i|] eqn:Hf.
  { destruct (cache_scan_Some _ _ _ _ _ _ Hc Hf) as (r & Hr & Hrc).
    exists (Some i), m. split; [by apply (contained_before _ _ r)|]. simpl. rewrite Hr. by split_and!. }
  destruct (upto_count (u_regions m) a Hs) as (c & Hcu & Hcl).
  destruct (search_root (u_regions m) (region_addresses m) (region_index_lookup m) a Hal c Hcu Hcl Ho)
    as (final & -> & Hfin).
  destruct (drop_trailing final final) as [|q].
  { exists None, m. by split_and!. }
  destruct Hfin as (i & -> & Hb). pose proof Hb as [(r & Hr & _) _]. rewrite Hr.
  exists (Some i). eexists. split; [done|]. split; [simpl; by rewrite Hr|]. split; [|done].
  split; simpl; try done. by apply cache_insert_ok.
Qed.

Lemma u_initialize_ok regions c :
  match u_initialize (mkUnaligned regions (replicate (length regions) 0) (replicate (length regions) 0%nat) c) with
  | (Ok _, m) => u_regions m = sort_regions regions /\ cache m = c /\
      (cache_ok (u_regions m) c -> unaligned_ok m)
  | (Err e, m) => ~ disjoint_starts (sort_regions regions)
  | (Panic, _) => False
  end.
Proof.
  unfold u_initialize. cbn [u_regions region_addresses region_index_lookup cache].
  destruct (first_overlap _ 1) eqn:Hf.
  { intros Hd. apply (first_overlap_None _ 1) in Hd. congruence. }
  apply first_overlap_None in Hf.
  assert (Hlen : length (sort_regions regions) = length regions) by (by rewrite sort_regions_perm).
  destruct (construct_root (E := EbpfError) (sort_regions regions) (replicate (length regions) 0)
              (replicate (length regions) 0%nat)) as (a & l & -> & Ha & Hl & Ho);
    [by rewrite length_replicate..|].
  split_and!; [done..|]. intros Hc. split; simpl; try done. apply sort_starts_sorted.
Qed.

(** [UnalignedMemoryMapping::new] accepts exactly the region lists that do
    not overlap once sorted, and the mapping it returns satisfies the invariant
    the search relies on. *)
Theorem unaligned_new_spec regions :
  match u_initialize (u_new_uninitialized regions) with
  | (Ok _, m) => unaligned_ok m /\ u_regions m ≡ₚ regions /\ disjoint_starts (u_regions m)
  | (Err e, _) => ~ disjoint_starts (sort_regions regions)
  | (Panic, _) => False
  end.
Proof.
  pose proof (u_initialize_ok regions cache_new) as H. unfold u_new_uninitialized.
  destruct (u_initialize _) as [[[]| |] m]; try done. destruct H as (Hr & _ & Hok).
  specialize (Hok (cache_new_ok _)). split; [done|]. split; [by rewrite Hr, sort_regions_perm|].
  apply (u_disjoint _ Hok).
Qed.

(** C20: with the invariant, the cached, branchless Eytzinger search returns
    the last region that starts at or before the address (none when all start
    after it) without an out-of-range access, and keeps the invariant. *)
Theorem u_find_region_spec m a :
  unaligned_ok m ->
  exists i m', region_before (u_regions m) a i /\
    u_find_region m a = (Ok (i ≫= fun i => pair i <$> u_regions m !! i), m') /\
    unaligned_ok m' /\ u_regions m' = u_regions m.
Proof. apply u_find_region_ok. Qed.
End UnalignedFacts.

(** ** The aligned mapping *)
Section AlignedFacts.
Variable empty_slice : Z.
Implicit Types (l : list MemoryRegion) (r : MemoryRegion).

Lemma region_number_eq a : region_number a = a / 2 ^ 32.
Proof. unfold region_number, checked_shr_u64, VIRTUAL_ADDRESS_BITS. simpl. by rewrite Z.shiftr_div_pow2. Qed.

Lemma region_number_range a : is_u 64 a -> 0 <= region_number a < 2 ^ 32.
Proof. rewrite region_number_eq. unfold is_u. intros. Z.to_euclidean_division_equations; lia. Qed.

(** Region [i] covers the addresses whose upper half is [i]. *)
Definition aligned_ok l : Prop := forall i r, l !! i = Some r -> region_number (vm_addr r) = Z.of_nat i.

Lemma empty_region_number k :
  0 <= k < 2 ^ 32 -> region_number (vm_addr (empty_region empty_slice (saturating_mul_u64 k MM_REGION_SIZE))) = k.
Proof.
  intros Hk. rewrite region_number_eq. unfold empty_region, saturating_mul_u64, u64_max. cbn [vm_addr].
  change MM_REGION_SIZE with (2 ^ 32). rewrite Z.min_l by lia. apply Z.div_mul. lia.
Qed.

(** The gap-filling loop ends with every region in its slot, keeping the
    regions it was given. *)
Lemma fill_gaps_ok fuel l k high :
  (forall i r, (i < k)%nat -> l !! i = Some r -> region_number (vm_addr r) = Z.of_nat i) ->
  (k <= length l)%nat -> Forall (fun r => is_u 64 (vm_addr r) /\ region_number (vm_addr r) <= high) l ->
  0 <= high < 2 ^ 32 -> high + 2 <= Z.of_nat fuel + Z.of_nat k ->
  match fill_gaps empty_slice fuel l k with
  | (Ok _, l') => aligned_ok l' /\ (forall r, r ∈ l -> r ∈ l')
  | (Err _, _) => True
  | (Panic, _) => False
  end.
Proof.
  revert l k. induction fuel as [|fuel IH]; intros l k Hk Hkl Hl Hh Hf.
  { exfalso. (* past the highest region number only the end of the list is left *)
    destruct k as [|k]; [lia|]. destruct (lookup_lt_is_Some_2 l k) as [r Hr]; [lia|].
    specialize (Hk k r ltac:(lia) Hr). rewrite Forall_forall in Hl.
    destruct (Hl r (list_elem_of_lookup_2 _ _ _ Hr)). lia. }
  cbn [fill_gaps]. destruct (l !! k) as [r|] eqn:Hr.
  2:{ split; [|done]. intros i r Hi. apply Hk; [|done]. apply lookup_ge_None in Hr.
      apply lookup_lt_Some in Hi. lia. }
  pose proof Hl as Hl'. rewrite Forall_forall in Hl'.
  destruct (Hl' r (list_elem_of_lookup_2 _ _ _ Hr)) as [Hu Hhi].
  pose proof (region_number_range _ Hu). pose proof (lookup_lt_Some _ _ _ Hr) as Hlt.
  destruct (Z.ltb_spec (Z.of_nat k) (region_number (vm_addr r))); cycle 1.
  { destruct (Z.ltb_spec (region_number (vm_addr r)) (Z.of_nat k)); [done|].
    apply IH; try done; try lia. intros i x Hi Hx.
    destruct (decide (i = k)) as [->|]; [simplify_eq; lia|]. apply Hk; [lia|done]. }
  set (x := empty_region _ _).
  assert (Hlen : length (vec_insert k x l) = S (length l)).
  { unfold vec_insert. rewrite length_app. simpl. rewrite length_take, length_drop. lia. }
  assert (Hx : region_number (vm_addr x) = Z.of_nat k) by (apply empty_region_number; lia).
  assert (Hmono : forall y, y ∈ l -> y ∈ vec_insert k x l).
  { intros y Hy. unfold vec_insert. rewrite <- (take_drop k l), elem_of_app in Hy.
    rewrite elem_of_app, elem_of_cons. tauto. }
  assert (Hpre : forall i y, (i < S k)%nat -> vec_insert k x l !! i = Some y ->
            region_number (vm_addr y) = Z.of_nat i).
  { intros i y Hi Hy. unfold vec_insert in Hy. destruct (decide (i = k)) as [->|].
    - rewrite lookup_app_r in Hy by (rewrite length_take; lia).
      rewrite length_take, Nat.min_l, Nat.sub_diag in Hy by lia. by injection Hy as <-.
    - rewrite lookup_app_l in Hy by (rewrite length_take; lia).
      rewrite lookup_take_lt in Hy by lia. apply Hk; [lia|done]. }
  assert (Hall : Forall (fun r => is_u 64 (vm_addr r) /\ region_number (vm_addr r) <= high) (vec_insert k x l)).
  { unfold vec_insert. apply Forall_app_2; [by apply Forall_take|]. constructor; [|by apply Forall_drop].
    rewrite Hx. split; [|lia]. unfold x, empty_region, saturating_mul_u64, u64_max. cbn [vm_addr].
    change MM_REGION_SIZE with (2 ^ 32). unfold is_u. lia. }
  specialize (IH (vec_insert k x l) (S k) Hpre ltac:(lia) Hall Hh ltac:(lia)).
  destruct (fill_gaps empty_slice fuel (vec_insert k x l) (S k)) as [[[]| |] l']; [|done|done].
  destruct IH as [Ha Hsub]. split; auto.
Qed.

Lemma first_misplaced_None l k :
  first_misplaced l k = None <-> forall i r, l !! i = Some r -> region_number (vm_addr r) = Z.of_nat (k + i).
Proof.
  revert k. induction l as [|x l IH]; intros k; cbn [first_misplaced].
  { split; [|done]. intros _ i r Hi. by rewrite lookup_nil in Hi. }
  destruct (Z.eqb_spec (region_number (vm_addr x)) (Z.of_nat k)) as [Hx|Hx].
  - rewrite IH. split.
    + intros H [|i] r Hr; simpl in Hr; [simplify_eq; by rewrite Nat.add_0_r|].
      rewrite (H i r Hr). f_equal. lia.
    + intros H i r Hr. rewrite (H (S i) r Hr). f_equal. lia.
  - split; [done|]. intros H. specialize (H 0%nat x eq_refl). rewrite Nat.add_0_r in H. done.
Qed.

Lemma highest_bound l :
  Forall (fun r => is_u 64 (vm_addr r)) l ->
  let high := foldr (fun r n => Z.max (region_number (vm_addr r)) n) 0 l in
  0 <= high < 2 ^ 32 /\ Forall (fun r => is_u 64 (vm_addr r) /\ region_number (vm_addr r) <= high) l.
Proof.
  cbv zeta. induction 1 as [|r l Hr Hl IH]; cbn [foldr]; [split; [lia|constructor]|].
  pose proof (region_number_range _ Hr). destruct IH as [IH1 IH2]. split; [lia|].
  constructor; [split; [done|lia]|]. eapply Forall_impl; [exact IH2|]. intros x [? ?]. split; [done|lia].
Qed.

(** initialising an aligned mapping always terminates, and when it
    succeeds every region sits at the index its address names, with the
    regions it was given among them: the lookup by the upper half of the
    address then returns the region responsible for the address. *)
Theorem a_initialize_spec (m : AlignedMemoryMapping) :
  Forall (fun r => is_u 64 (vm_addr r)) (a_regions m) ->
  match a_initialize empty_slice m with
  | (Ok _, m') =>
      aligned_ok (a_regions m') /\ (forall r, r ∈ a_regions m -> r ∈ a_regions m') /\
      forall a i r, is_u 64 a -> a_find_region m' a = Some (i, r) ->
        a_regions m' !! i = Some r /\ region_number (vm_addr r) = region_number a
  | (Err _, _) => True
  | (Panic, _) => False
  end.
Proof.
  intros Hu.
  assert (Hfind : forall m' a i r, aligned_ok (a_regions m') -> is_u 64 a -> a_find_region m' a = Some (i, r) ->
    a_regions m' !! i = Some r /\ region_number (vm_addr r) = region_number a).
  { intros m' a i r Hok Ha. unfold a_find_region. destruct (_ && _); [|done].
    replace (wrapping_shr 64 a VIRTUAL_ADDRESS_BITS) with (region_number a)
      by (rewrite region_number_eq; unfold wrapping_shr; by rewrite Z.shiftr_div_pow2).
    pose proof (region_number_range a Ha). unfold get.
    rewrite (proj2 (Z.ltb_ge _ _)) by lia.
    destruct (a_regions m' !! Z.to_nat (region_number a)) as [r'|] eqn:Hr; [|done].
    simpl. intros [= <- <-]. split; [done|]. rewrite (Hok _ _ Hr). lia. }
  unfold a_initialize. destruct (allow_region_zero m).
  - set (l := sort_regions (a_regions m)). assert (Hl : Forall (fun r => is_u 64 (vm_addr r)) l)
      by (unfold l; by rewrite sort_regions_perm).
    destruct (highest_bound l Hl) as [Hh Hall].
    pose proof (fill_gaps_ok (Z.to_nat (foldr (fun r n => Z.max (region_number (vm_addr r)) n) 0 l) + length l + 2)
                  l 0 _ ltac:(intros; lia) ltac:(lia) Hall Hh ltac:(lia)) as Hfill.
    destruct (fill_gaps _ _ _ _) as [[[]| |] l']; [|done|done]. destruct Hfill as [Hok Hsub].
    cbn [a_regions]. split; [done|]. split; [|intros a i r Ha; by apply (Hfind (mkAligned l' true))].
    intros r Hr. apply Hsub. unfold l. by rewrite sort_regions_perm.
  - destruct (first_misplaced _ 0) eqn:Hm; [done|].
    assert (Hok : aligned_ok (sort_regions (a_regions m ++ [empty_region empty_slice 0]))).
    { intros i r Hr. by apply (proj1 (first_misplaced_None _ 0) Hm). }
    cbn [a_regions]. split; [done|]. split; [|intros a i r Ha; by apply (Hfind (mkAligned _ false))].
    intros r Hr. rewrite sort_regions_perm, elem_of_app. by left.
Qed.
End AlignedFacts.
