(* ===== verification/MappingFacts.v ===== *)
(** * Loads and stores through a memory mapping are safe

    Every access that succeeds touches only bytes of one mapped region, and
    what was stored is what is loaded back. *)

From stdpp Require Import gmap sets strings.
From S2P Require Import Prelude Ebpf Program Verifier Error MemoryRegion Eytzinger MemoryFacts.

(** ** Host memory *)
Section Host.
Implicit Types (h : HostMemory).

Definition backed h (a n : Z) : Prop := forall i, a <= i < a + n -> is_Some (h !! i).
Definition host_bytes h : Prop := map_Forall (fun _ b => is_u 8 b) h.

Lemma read_host_ok h a n :
  backed h a (Z.of_nat n) -> exists bs, read_host h a n = Some bs /\ length bs = n /\
    forall i, (i < n)%nat -> h !! (a + Z.of_nat i) = bs !! i.
Proof.
  intros Hb.
  destruct (mapM (fun i => h !! (a + Z.of_nat i)) (seq 0 n)) as [bs|] eqn:Hm.
  - exists bs. split; [done|]. apply mapM_Some in Hm. split.
    + apply Forall2_length in Hm. by rewrite length_seq in Hm.
    + intros i Hi. destruct (Forall2_lookup_l _ _ _ i i Hm) as (b & Hb' & Hl).
      { rewrite lookup_seq. lia. }
      congruence.
  - apply mapM_None, Exists_exists in Hm as (i & Hi & Hn). apply list_elem_of_In, in_seq in Hi.
    destruct (Hb (a + Z.of_nat i)) as [x Hx]; [lia|]. congruence.
Qed.

Lemma write_host_ok h a bs :
  backed h a (Z.of_nat (length bs)) -> exists h', write_host h a bs = Some h' /\
    (forall i, (i < length bs)%nat -> h' !! (a + Z.of_nat i) = bs !! i) /\
    (forall i, i < a \/ a + Z.of_nat (length bs) <= i -> h' !! i = h !! i).
Proof.
  revert h a. induction bs as [|b bs IH]; intros h a Hb; cbn [write_host].
  { exists h. split; [done|]. split; [simpl; lia|done]. }
  destruct (Hb a) as [x Hx]; [simpl; lia|]. rewrite Hx. cbn [mbind option_bind].
  destruct (IH (<[a := b]> h) (a + 1)) as (h' & Hw & Hin & Hout).
  { intros i Hi. rewrite lookup_insert_is_Some. destruct (decide (a = i)); [by left|right].
    split; [done|]. apply Hb. simpl. lia. }
  exists h'. split; [done|]. split.
  - intros [|i] Hi.
    + rewrite Z.add_0_r, Hout by lia. by rewrite lookup_insert_eq.
    + replace (a + Z.of_nat (S i)) with (a + 1 + Z.of_nat i) by lia. apply Hin. simpl in Hi. lia.
  - intros i Hi. rewrite Hout by (simpl in Hi; lia). apply lookup_insert_ne. simpl in Hi. lia.
Qed.

Lemma write_host_frame h a bs h' :
  backed h a (Z.of_nat (length bs)) -> write_host h a bs = Some h' ->
  (forall i, is_Some (h' !! i) <-> is_Some (h !! i)) /\
  (host_bytes h -> is_bytes bs -> host_bytes h').
Proof.
  intros Hb Hw. destruct (write_host_ok h a bs Hb) as (h'' & Hw' & Hin & Hout).
  assert (h'' = h') as -> by congruence. clear Hw'.
  assert (Hcase : forall i, (i < a \/ a + Z.of_nat (length bs) <= i) \/
            exists k, (k < length bs)%nat /\ i = a + Z.of_nat k).
  { intros i. destruct (decide (i < a \/ a + Z.of_nat (length bs) <= i)); [by left|right].
    exists (Z.to_nat (i - a)). lia. }
  split.
  - intros i. destruct (Hcase i) as [Ho|(k & Hk & ->)]; [by rewrite Hout|].
    rewrite Hin by done. split; intros _; [apply Hb; lia|by apply lookup_lt_is_Some_2].
  - intros Hh Hbs i x Hx. destruct (Hcase i) as [Ho|(k & Hk & ->)].
    + rewrite Hout in Hx by done. by apply (Hh i).
    + rewrite Hin in Hx by done. unfold is_bytes in Hbs. rewrite Forall_forall in Hbs.
      apply Hbs. by eapply list_elem_of_lookup_2.
Qed.

Lemma read_write h a bs h' :
  backed h a (Z.of_nat (length bs)) -> write_host h a bs = Some h' -> read_host h' a (length bs) = Some bs.
Proof.
  intros Hb Hw. destruct (write_host_ok h a bs Hb) as (h'' & Hw' & Hin & Hout).
  assert (h'' = h') as -> by congruence.
  destruct (read_host_ok h' a (length bs)) as (bs' & Hr & Hl & Hi).
  { intros i Hi. apply (write_host_frame h a bs h' Hb Hw). by apply Hb. }
  rewrite Hr. f_equal. apply list_eq. intros i. destruct (decide (i < length bs)%nat).
  - by rewrite <- Hi, Hin.
  - by rewrite !lookup_ge_None_2 by lia.
Qed.

Lemma le_val_read h a n bs :
  host_bytes h -> read_host h a n = Some bs -> is_bytes bs.
Proof.
  intros Hh Hr. unfold read_host in Hr. apply mapM_Some in Hr. unfold is_bytes.
  apply Forall_forall. intros b [i Hb]%list_elem_of_lookup.
  destruct (Forall2_lookup_r _ _ _ _ _ Hr Hb) as (k & _ & Hk). by apply (Hh _ _ Hk).
Qed.
End Host.

(** [n] zeroed bytes from address [a] on. *)
Fixpoint zeroed (a : Z) (n : nat) : HostMemory :=
  match n with O => ∅ | S n => <[a := 0]> (zeroed (a + 1) n) end.

Lemma zeroed_backed a n : backed (zeroed a n) a (Z.of_nat n).
Proof.
  revert a. induction n as [|n IH]; intros a i Hi; [lia|]. cbn [zeroed].
  apply lookup_insert_is_Some. destruct (decide (a = i)); [by left|right].
  split; [done|]. apply IH. lia.
Qed.

Lemma zeroed_bytes a n : host_bytes (zeroed a n).
Proof.
  revert a. induction n as [|n IH]; intros a; cbn [zeroed]; [apply map_Forall_empty|].
  apply map_Forall_insert_2; [done|apply IH].
Qed.

(** ** The mapping invariant *)
Definition region_valid (h : HostMemory) (r : MemoryRegion) : Prop :=
  region_wf r /\ backed h (host_addr r) (len r).

(** The documented contract of a handler: it leaves the region as it was, or
    describing other memory that is equally valid. *)
Class AccessViolationHandlerLaws `{AccessViolationHandler} := {
  handler_valid h r max_len access a n :
    region_valid h r -> region_valid h (access_violation_handler r max_len access a n)
}.

Lemma default_handler_laws : @AccessViolationHandlerLaws default_access_violation_handler.
Proof. split. done. Qed.

Section MappingFacts.
Context `{P : Profile, AH : AccessViolationHandler, !AccessViolationHandlerLaws}.
Implicit Types (m : MemoryMapping) (h : HostMemory) (r : MemoryRegion).

Record mapping_ok m h : Prop := {
  ok_initialized : initialized m = true;
  ok_translates : disable_address_translation m = false;
  ok_regions : Forall (region_valid h) (get_regions m);
  ok_type : match ty m with Unaligned u => unaligned_ok u | Aligned _ => True end
}.

(** What [find_region] finds. *)
Definition found m (a : Z) (o : option (nat * MemoryRegion)) : Prop :=
  match ty m with
  | Aligned inner => o = a_find_region inner a
  | Unaligned inner => exists i, region_before (u_regions inner) a i /\
                         o = (i ≫= fun i => pair i <$> u_regions inner !! i)
  end.

Lemma found_unique m a o o' : found m a o -> found m a o' -> o = o'.
Proof.
  unfold found. destruct (ty m); [congruence|]. intros (i & Hi & ->) (i' & Hi' & ->).
  by rewrite (region_before_unique _ _ _ _ Hi Hi').
Qed.

Lemma found_region m a i r : found m a (Some (i, r)) -> get_regions m !! i = Some r.
Proof.
  unfold found, get_regions. destruct (ty m) as [inner|inner].
  - unfold a_find_region. destruct (_ && _); [|done]. unfold get. destruct (_ <? 0); [done|].
    destruct (a_regions inner !! _) eqn:Hr; [|done]. simpl. by intros [= -> ->].
  - intros ([k|] & _ & Hk); [|done]. simpl in Hk. destruct (u_regions inner !! k) eqn:Hr; [|done].
    simpl in Hk. by injection Hk as -> ->.
Qed.

Lemma mm_find_ok m h a :
  mapping_ok m h -> exists o m', mm_find_region m a = (Ok o, m') /\ found m a o /\
    mapping_ok m' h /\ get_regions m' = get_regions m /\ (forall o', found m' a o' <-> found m a o').
Proof.
  intros [Hi Ht Hr Hty]. unfold mm_find_region, debug_assert, found. rewrite Hi, andb_false_r.
  unfold get_regions in *. destruct (ty m) as [inner|inner] eqn:Hm.
  - exists (a_find_region inner a), m. rewrite Hm. split_and!; try done.
    split; unfold get_regions; rewrite ?Hm; done.
  - destruct (u_find_region_ok inner a Hty) as (i & inner' & Hb & -> & Hok & Heq).
    do 2 eexists. split; [done|]. split; [by eexists|]. simpl. rewrite Heq.
    split_and!; try done. split; simpl; try done. unfold get_regions. simpl. by rewrite Heq.
Qed.

(** ** Replacing a region by one with the same start *)
Lemma lookup_insert_cases (l : list MemoryRegion) i x j y :
  <[i := x]> l !! j = Some y -> (i = j /\ y = x) \/ (i <> j /\ l !! j = Some y).
Proof.
  intros Hy. destruct (decide (i = j)) as [->|]; [left|right].
  - pose proof (lookup_lt_Some _ _ _ Hy) as Hlt. rewrite length_insert in Hlt.
    rewrite list_lookup_insert_eq in Hy by done. naive_solver.
  - by rewrite list_lookup_insert_ne in Hy.
Qed.

(** The start of every region is the same as before. *)
Definition same_starts (l l' : list MemoryRegion) : Prop :=
  length l = length l' /\
  forall j r r', l !! j = Some r -> l' !! j = Some r' -> vm_addr r = vm_addr r'.

Lemma insert_same_starts l i r r' :
  l !! i = Some r -> vm_addr r' = vm_addr r -> same_starts l (<[i := r']> l).
Proof.
  intros Hr Hv. split; [by rewrite length_insert|]. intros j x x' Hx Hx'.
  apply lookup_insert_cases in Hx' as [[<- ->]|[_ Hx']]; congruence.
Qed.

Lemma same_starts_lookup l l' j r :
  same_starts l l' -> l !! j = Some r -> exists r', l' !! j = Some r' /\ vm_addr r' = vm_addr r.
Proof.
  intros [Hl Hs] Hr. destruct (lookup_lt_is_Some_2 l' j) as [r' Hr'].
  { rewrite <- Hl. by eapply lookup_lt_Some. }
  exists r'. split; [done|]. symmetry. by eapply Hs.
Qed.

Lemma ordered_same_starts l l' a lk o lo hi :
  same_starts l l' -> ordered l a lk o lo hi -> ordered l' a lk o lo hi.
Proof.
  intros Hs. induction 1 as [o lo Ho|o lo mid hi r Ho Hl Hr Ha _ IH1 _ IH2].
  - apply ord_leaf. destruct Hs. lia.
  - destruct (same_starts_lookup _ _ _ _ Hs Hr) as (r' & Hr' & Hv).
    apply (ord_node _ _ _ _ _ mid _ r'); try done; [destruct Hs; lia|congruence].
Qed.

Lemma before_same_starts l l' a i : same_starts l l' -> region_before l a i -> region_before l' a i.
Proof.
  intros Hs. assert (Hs' : same_starts l' l).
  { destruct Hs as [Hl Hs]. split; [done|]. intros. symmetry. by eapply Hs. }
  destruct i as [i|]; simpl.
  - intros [(r & Hr & Hle) Hgt]. split.
    + destruct (same_starts_lookup _ _ _ _ Hs Hr) as (r' & Hr' & Hv). exists r'. split; [done|lia].
    + intros j r' Hj Hr'. destruct (same_starts_lookup _ _ _ _ Hs' Hr') as (x & Hx & Hv).
      specialize (Hgt j x Hj Hx). lia.
  - intros Hgt j r' Hr'. destruct (same_starts_lookup _ _ _ _ Hs' Hr') as (x & Hx & Hv).
    specialize (Hgt j x Hx). lia.
Qed.

Lemma u_replace_ok u i r r' :
  unaligned_ok u -> u_regions u !! i = Some r -> vm_addr r' = vm_addr r ->
  (forall x, u_regions u !! S i = Some x -> (vm_addr_range r').2 <= vm_addr x) ->
  unaligned_ok (mkUnaligned (<[i := r']> (u_regions u)) (region_addresses u) (region_index_lookup u) cache_new).
Proof.
  intros [Hal Hll Ho Hs Hd Hc] Hr Hv Hend.
  pose proof (insert_same_starts _ _ _ r' Hr Hv) as Hss.
  split; simpl; rewrite ?length_insert; try done.
  - by eapply ordered_same_starts.
  - intros j k x y Hjk Hx Hy.
    assert (Hback : forall j x, <[i:=r']> (u_regions u) !! j = Some x ->
              exists z, u_regions u !! j = Some z /\ vm_addr z = vm_addr x).
    { intros j' x' [[<- ->]|[_ ?]]%lookup_insert_cases; eauto. }
    destruct (Hback _ _ Hx) as (x0 & Hx0 & <-), (Hback _ _ Hy) as (y0 & Hy0 & <-). by eapply (Hs j k).
  - intros j x y Hx Hy.
    apply lookup_insert_cases in Hx as [[<- ->]|[Hne Hx]].
    + rewrite list_lookup_insert_ne in Hy by lia. auto.
    + apply lookup_insert_cases in Hy as [[-> ->]|[_ Hy]]; [|by apply (Hd j)].
      rewrite Hv. by apply (Hd j).
  - apply cache_new_ok.
Qed.

Lemma mm_replace_ok m h i r r' a :
  mapping_ok m h -> found m a (Some (i, r)) -> region_valid h r' ->
  match mm_replace_region m i r' with
  | Ok m' => mapping_ok m' h /\ found m' a (Some (i, r'))
  | Err _ => True
  | Panic => False
  end.
Proof.
  intros [Hi Ht Hr Hty] Hf Hv. pose proof (found_region _ _ _ _ Hf) as Hl.
  unfold mm_replace_region, debug_assert. rewrite Hi, andb_false_r. cbn [mbind result_bind].
  rewrite Hl. destruct (Z.eqb_spec (vm_addr r) (vm_addr r')) as [Hva|]; [|done]. cbn [negb orb].
  destruct (Z.ltb_spec (from_option vm_addr u64_max (get_regions m !! S i)) (vm_addr_range r').2) as [|Hend]; [done|].
  assert (Hall : Forall (region_valid h) (<[i := r']> (get_regions m))) by (by apply Forall_insert).
  unfold get_regions, found in *. pose proof (lookup_lt_Some _ _ _ Hl) as Hlt.
  destruct (ty m) as [inner|inner] eqn:Hm.
  - unfold a_replace_region. destruct (_ || _); [done|].
    rewrite (proj2 (Nat.ltb_lt _ _)) by done. cbn [mbind result_bind].
    split; [by split; simpl|]. simpl. unfold a_find_region in *. cbn [a_regions allow_region_zero].
    rewrite length_insert. destruct (_ && _) eqn:Hb; [|done].
    unfold get in *. destruct (Z.ltb_spec (wrapping_shr 64 a VIRTUAL_ADDRESS_BITS) 0); [done|].
    destruct (a_regions inner !! _) as [x|] eqn:Hx; [|done]. simpl in Hf. injection Hf as -> ->.
    rewrite list_lookup_insert_eq by done. done.
  - unfold u_replace_region. rewrite (proj2 (Nat.ltb_lt _ _)) by done. cbn [mbind result_bind].
    split.
    + split; simpl; try done. apply (u_replace_ok _ _ r); try done.
      intros x Hx. rewrite Hx in Hend. done.
    + simpl. destruct Hf as ([k|] & Hb & Hk); [|done]. simpl in Hk.
      destruct (u_regions inner !! k) as [y|] eqn:Hy; [|done]. simpl in Hk. injection Hk as -> ->.
      exists (Some k). split.
      * eapply before_same_starts; [|exact Hb]. by eapply insert_same_starts.
      * simpl. by rewrite list_lookup_insert_eq.
Qed.

(** ** Mapping an access *)
Lemma map_ok m h access a n :
  mapping_ok m h -> is_u 64 a -> 0 <= n ->
  match map_with_access_violation_handler m access a n with
  | (Ok host, m') => mapping_ok m' h /\ exists i r, found m' a (Some (i, r)) /\
      region_valid h r /\ vm_to_host r access a n = Some host
  | (Err _, m') => mapping_ok m' h
  | (Panic, _) => False
  end.
Proof.
  intros Hok Ha Hn. unfold map_with_access_violation_handler, debug_assert.
  rewrite (ok_initialized _ _ Hok), andb_false_r, (ok_translates _ _ Hok).
  destruct (mm_find_ok m h a Hok) as (o & m' & -> & Hf & Hok' & Hreg & Hsame).
  destruct o as [[i r]|]; [|done]. apply Hsame in Hf.
  assert (Hval : region_valid h r).
  { pose proof (found_region _ _ _ _ Hf) as Hl. pose proof (ok_regions _ _ Hok') as Hall.
    rewrite Forall_forall in Hall. apply Hall. by eapply list_elem_of_lookup_2. }
  destruct (vm_to_host r access a n) as [host|] eqn:Hh; [eauto 10|].
  set (r' := access_violation_handler _ _ _ _ _).
  assert (Hval' : region_valid h r') by (by apply handler_valid).
  destruct (vm_to_host r' access a n) as [host|] eqn:Hh'; [|done].
  pose proof (mm_replace_ok m' h i r r' a Hok' Hf Hval') as Hrep.
  destruct (mm_replace_region m' i r') as [m''| |]; [|done|done].
  destruct Hrep as [Hok'' Hf'']. eauto 10.
Qed.

Lemma mapped_backed h r access a n host :
  region_valid h r -> is_u 64 a -> 0 <= n -> vm_to_host r access a n = Some host -> backed h host n.
Proof.
  intros [Hwf Hb] Ha Hn Hh. destruct (vm_to_host_bounds _ _ _ _ _ Hwf Ha Hn Hh).
  intros i Hi. apply Hb. lia.
Qed.

Lemma mm_load_ok n a m h :
  mapping_ok m h -> host_bytes h -> is_u 64 a -> (n <= 8)%nat ->
  match mm_load n a m h with
  | (Ok x, m') => mapping_ok m' h /\ is_u (8 * Z.of_nat n) x
  | (Err _, m') => mapping_ok m' h
  | (Panic, _) => False
  end.
Proof.
  intros Hok Hh Ha Hn. unfold mm_load, debug_assert.
  rewrite (ok_initialized _ _ Hok), (proj2 (Nat.leb_le _ _)) by done. rewrite andb_false_r.
  pose proof (map_ok m h Load a (Z.of_nat n) Hok Ha ltac:(lia)) as Hm.
  destruct (map_with_access_violation_handler m Load a (Z.of_nat n)) as [[host| |] m']; [|done|done].
  destruct Hm as (Hok' & i & r & _ & Hval & Hhost). cbn [mbind result_bind].
  destruct (read_host_ok h host n) as (bs & Hr & Hl & _).
  { by eapply mapped_backed; [|done|lia|]. }
  rewrite Hr. cbn [or_panic mbind result_bind]. split; [done|]. rewrite <- Hl.
  apply le_val_bound. by eapply le_val_read.
Qed.

Lemma mapping_ok_host m h h' :
  (forall i, is_Some (h' !! i) <-> is_Some (h !! i)) -> mapping_ok m h -> mapping_ok m h'.
Proof.
  intros Hd [Hi Ht Hr Hty]. split; try done. eapply Forall_impl; [exact Hr|].
  intros r [Hwf Hb]. split; [done|]. intros j Hj. by apply Hd, Hb.
Qed.

(** A store that succeeds, with the region and the host address it went to. *)
Definition stored_at (n : nat) (value a : Z) h m' h' (host : Z) : Prop :=
  write_host h host (le_bytes n value) = Some h' /\
  exists i r, found m' a (Some (i, r)) /\ region_valid h r /\
    vm_to_host r Store a (Z.of_nat n) = Some host.

Lemma mm_store_ok n value a m h :
  mapping_ok m h -> host_bytes h -> is_u 64 a -> (n <= 8)%nat ->
  match mm_store n value a m h with
  | (Ok host, (m', h')) => mapping_ok m' h' /\ host_bytes h' /\ stored_at n value a h m' h' host
  | (Err _, (m', h')) => mapping_ok m' h /\ h' = h
  | (Panic, _) => False
  end.
Proof.
  intros Hok Hh Ha Hn. unfold mm_store, debug_assert.
  rewrite (ok_initialized _ _ Hok), (proj2 (Nat.leb_le _ _)) by done. rewrite andb_false_r.
  pose proof (map_ok m h Store a (Z.of_nat n) Hok Ha ltac:(lia)) as Hm.
  destruct (map_with_access_violation_handler m Store a (Z.of_nat n)) as [[host| |] m']; [|done|done].
  destruct Hm as (Hok' & i & r & Hf & Hval & Hhost).
  assert (Hb : backed h host (Z.of_nat (length (le_bytes n value)))).
  { rewrite length_le_bytes. by eapply mapped_backed; [|done|lia|]. }
  destruct (write_host_ok h host _ Hb) as (h' & Hw & _). rewrite Hw.
  destruct (write_host_frame h host _ h' Hb Hw) as [Hd Hbytes].
  split_and!; [by eapply mapping_ok_host|by apply Hbytes; [|apply is_bytes_le_bytes]|].
  split; [done|eauto 10].
Qed.

(** a load through a valid mapping never reads memory it must not: it
    returns a value of the access width or an error, and keeps the mapping
    valid. *)
Theorem mm_load_safe n a m h :
  mapping_ok m h -> host_bytes h -> is_u 64 a -> (n <= 8)%nat ->
  match mm_load n a m h with
  | (Ok x, m') => mapping_ok m' h /\ is_u (8 * Z.of_nat n) x
  | (Err _, m') => mapping_ok m' h
  | (Panic, _) => False
  end.
Proof. apply mm_load_ok. Qed.

(** C22: a store through a valid mapping changes only bytes of one writable
    region, within its bounds, or nothing when it fails; the mapping stays
    valid. *)
Theorem mm_store_safe n value a m h :
  mapping_ok m h -> host_bytes h -> is_u 64 a -> (n <= 8)%nat ->
  match mm_store n value a m h with
  | (Ok host, (m', h')) =>
      mapping_ok m' h' /\
      (forall i, i < host \/ host + Z.of_nat n <= i -> h' !! i = h !! i) /\
      exists r, r ∈ get_regions m' /\ writable r = true /\
        host_addr r <= host /\ host + Z.of_nat n <= host_addr r + len r
  | (Err _, (m', h')) => mapping_ok m' h /\ h' = h
  | (Panic, _) => False
  end.
Proof.
  intros Hok Hh Ha Hn. pose proof (mm_store_ok n value a m h Hok Hh Ha Hn) as Hst.
  destruct (mm_store n value a m h) as [[host| |] [m' h']]; [|done|done].
  destruct Hst as (Hok' & _ & Hw & i & r & Hf & Hval & Hhost). split; [done|].
  pose proof (mapped_backed _ _ _ _ _ _ Hval Ha (Nat2Z.is_nonneg n) Hhost) as Hb. split.
  - intros j Hj. rewrite <- (length_le_bytes n value) in Hb.
    destruct (write_host_ok h host _ Hb) as (h'' & Hw' & _ & Hout).
    assert (h'' = h') as -> by congruence. apply Hout. by rewrite length_le_bytes.
  - exists r. split; [eapply list_elem_of_lookup_2, found_region, Hf|]. destruct Hval as [Hwf _].
    split; [|apply (vm_to_host_bounds r Store a (Z.of_nat n) host Hwf Ha ltac:(lia) Hhost)].
    apply vm_to_host_iff in Hhost as (Hall & _); [by apply Hall|done|done|lia].
Qed.

(** C21: a value stored through the mapping is the value loaded back from the
    same address, truncated to the access width. *)
Theorem load_after_store n value a m h host m' h' :
  mapping_ok m h -> host_bytes h -> is_u 64 a -> (n <= 8)%nat ->
  mm_store n value a m h = (Ok host, (m', h')) ->
  (mm_load n a m' h').1 = Ok (as_u (8 * Z.of_nat n) value).
Proof.
  intros Hok Hh Ha Hn Hs. pose proof (mm_store_ok n value a m h Hok Hh Ha Hn) as Hst.
  rewrite Hs in Hst. destruct Hst as (Hok' & _ & Hw & i & r & Hf & Hval & Hhost).
  pose proof (mapped_backed _ _ _ _ _ _ Hval Ha (Nat2Z.is_nonneg n) Hhost) as Hb.
  rewrite <- (length_le_bytes n value) in Hb.
  pose proof (read_write h host _ h' Hb Hw) as Hr. rewrite length_le_bytes in Hr.
  assert (Hload : vm_to_host r Load a (Z.of_nat n) = Some host).
  { destruct Hval as [Hwf _]. apply vm_to_host_iff in Hhost as (_ & Hrest); [|done|done|lia].
    apply vm_to_host_iff; [done|done|lia|]. split; [done|exact Hrest]. }
  unfold mm_load, map_with_access_violation_handler, debug_assert.
  rewrite (ok_initialized _ _ Hok'), (proj2 (Nat.leb_le _ _)), (ok_translates _ _ Hok') by done.
  rewrite !andb_false_r.
  destruct (mm_find_ok m' h' a Hok') as (o & m'' & -> & Hf' & _).
  rewrite (found_unique _ _ _ _ Hf' Hf), Hload. cbn [fst mbind result_bind].
  rewrite Hr. cbn [or_panic mbind result_bind]. by rewrite le_val_le_bytes.
Qed.

(** ** Construction *)
Variable empty_slice : Z.
Hypothesis empty_slice_range : 0 <= empty_slice <= u64_max.

Lemma empty_region_valid h a : is_u 64 a -> region_valid h (empty_region empty_slice a).
Proof.
  intros Ha. split; [|intros i Hi; simpl in Hi; lia].
  split; simpl; try done; try lia; unfold u64_max in *; lia.
Qed.

Lemma fill_gaps_valid h fuel l k res l' :
  Forall (region_valid h) l -> fill_gaps empty_slice fuel l k = (res, l') -> Forall (region_valid h) l'.
Proof.
  revert l k. induction fuel as [|fuel IH]; intros l k Hl; cbn [fill_gaps]; [by intros [= _ <-]|].
  destruct (l !! k) as [x|]; [|by intros [= _ <-]].
  destruct (_ <? region_number (vm_addr x)).
  - apply IH. unfold vec_insert. apply Forall_app_2; [by apply Forall_take|].
    constructor; [|by apply Forall_drop]. apply empty_region_valid.
    unfold saturating_mul_u64, u64_max, is_u. change MM_REGION_SIZE with (2 ^ 32). lia.
  - destruct (_ <? _); [by intros [= _ <-]|]. by apply IH.
Qed.

Lemma mm_new_ok regions config v h :
  enable_address_translation config = true ->
  Forall (region_valid h) regions ->
  match mm_new empty_slice regions config v with
  | Ok m => mapping_ok m h
  | Err _ => True
  | Panic => False
  end.
Proof.
  intros Ht Hr. unfold mm_new, mm_new_uninitialized.
  assert (Hsorted : forall l, Forall (region_valid h) l -> Forall (region_valid h) (sort_regions l))
    by (intros l Hl; by rewrite sort_regions_perm).
  destruct (version_geb v V4 || aligned_memory_mapping config) eqn:Hb.
  - cbn [mbind result_bind]. unfold mm_initialize, a_initialize. cbn [ty a_regions allow_region_zero].
    destruct (allow_memory_region_zero config).
    + set (l := sort_regions regions). set (fuel := (_ + _ + _)%nat).
      assert (Hu : Forall (fun r => is_u 64 (vm_addr r)) l).
      { unfold l. rewrite sort_regions_perm. eapply Forall_impl; [exact Hr|]. by intros r [[] _]. }
      destruct (highest_bound l Hu) as [Hh Hall].
      pose proof (fill_gaps_ok empty_slice fuel l 0 _ ltac:(intros; lia) ltac:(lia) Hall Hh
                    ltac:(unfold fuel; lia)) as Hfill.
      destruct (fill_gaps empty_slice fuel l 0) as [[[]| |] l'] eqn:Hf; [|done|done].
      split; simpl; try done; [by rewrite Ht|].
      unfold get_regions. simpl. by eapply fill_gaps_valid; [|exact Hf]; apply Hsorted.
    + destruct (first_misplaced _ _); [done|]. split; simpl; try done; [by rewrite Ht|].
      unfold get_regions. simpl. apply Hsorted, Forall_app_2; [done|].
      constructor; [|constructor]. apply empty_region_valid. unfold is_u. lia.
  - apply orb_false_iff in Hb as [Hb _].
    assert (version_leb v V3 = true) as -> by (by destruct v).
    unfold debug_assert. rewrite andb_false_r. cbn [mbind result_bind].
    unfold mm_initialize. cbn [ty]. pose proof (u_initialize_ok regions cache_new) as Hu.
    unfold u_new_uninitialized. destruct (u_initialize _) as [[[]| |] u]; [|done|done].
    destruct Hu as (Hur & Huc & Hok). split; simpl; try done; [by rewrite Ht| |].
    + unfold get_regions. simpl. rewrite Hur. by apply Hsorted.
    + apply Hok, cache_new_ok.
Qed.

(** C25: a mapping built from valid regions, with address translation enabled, is
    valid: [MemoryMapping::new] panics on no input, and the mapping it returns, aligned or not, satisfies
    the invariant that makes every later access safe. *)
Theorem mm_new_valid regions config v h :
  enable_address_translation config = true ->
  Forall (region_valid h) regions ->
  match mm_new empty_slice regions config v with
  | Ok m => mapping_ok m h
  | Err _ => True
  | Panic => False
  end.
Proof. apply mm_new_ok. Qed.
End MappingFacts.
