(* ===== verification/AlignedMemory.v ===== *)
(** * Aligned memory: [src/casestudy/sbpf/src/aligned_memory.rs]

    [AlignedVec] owns a block of bytes at an aligned address and grows inside
    it; [AlignedMemory] writes through it.  A byte of the block that was never
    written is [None].  An access that would leave the block or read such a
    byte, undefined in Rust, is [Panic] here, so a theorem that excludes [Panic]
    also shows the unsafe blocks sound.  The global allocator is a parameter. *)

From stdpp Require Import strings.
From S2P Require Import Prelude.

(** [alloc(layout)] for a size and an alignment; [None] is the null pointer. *)
Class Allocator := { alloc : Z -> Z -> option Z }.

(** What the allocator documents: the block has the alignment asked for. *)
Class AllocatorLaws `{Allocator} := {
  alloc_aligned size align p : alloc size align = Some p -> 0 < p /\ p mod align = 0
}.

Inductive IoError := InvalidInput (message : string).

(** ** [AlignedVec] *)
Record AlignedVec := mkVec { av_ptr : Z; av_length : Z; av_cells : list (option byte) }.

Definition av_capacity (v : AlignedVec) : Z := Z.of_nat (length (av_cells v)).

Record AlignedMemory := mkMem { am_mem : AlignedVec; zero_up_to_max_len : bool }.

(** [mem::size_of::<AlignedMemory>()]: a pointer, two integers and a flag. *)
Definition AlignedMemory_size : Z := 32.

Section Aligned.
Context {E : Type} `{Profile, Allocator} (ALIGN : Z).

(** [Layout::from_size_align] succeeds: a power of two, and the size rounded
    up to it fits [isize]. *)
Definition is_power_of_two (a : Z) : bool := (0 <? a) && (a =? 2 ^ Z.log2 a).
Definition layout_ok (size align : Z) : bool :=
  is_power_of_two align && (size <=? i64_max - (align - 1)).

Definition av_empty : AlignedVec := mkVec ALIGN 0 [].

Definition av_new (max_len : Z) (zeroed : bool) : result E AlignedVec :=
  if ALIGN =? 0 then Panic else
  if max_len =? 0 then Ok av_empty else
  if negb (layout_ok max_len ALIGN) then Panic else
  p ← or_panic (alloc max_len ALIGN);
  Ok (mkVec p 0 (replicate (Z.to_nat max_len) (if zeroed then Some 0 else None))).

Definition av_as_slice (v : AlignedVec) : result E (list byte) :=
  if av_capacity v <? av_length v then Panic
  else or_panic (mapM id (take (Z.to_nat (av_length v)) (av_cells v))).

Definition av_write_ptr_for (v : AlignedVec) (bytes : Z) : option (Z * Z) :=
  new_len ← checked_add_u64 (av_length v) bytes;
  if new_len <=? av_capacity v then Some (av_length v, new_len) else None.

Definition av_set_len (v : AlignedVec) (new_len : Z) : result E AlignedVec :=
  _ ← debug_assert (new_len <=? av_capacity v);
  _ ← debug_assert (av_length v <=? new_len);
  Ok (mkVec (av_ptr v) new_len (av_cells v)).

(** [copy_nonoverlapping] and [write_bytes] at an offset of the block. *)
Definition av_copy (v : AlignedVec) (offset : Z) (bytes : list byte) : result E AlignedVec :=
  if offset + Z.of_nat (length bytes) <=? av_capacity v
  then Ok (mkVec (av_ptr v) (av_length v)
             (splice (av_cells v) (Z.to_nat offset) (Some <$> bytes)))
  else Panic.

(** ** [AlignedMemory] *)
Definition am_from_slice (data : list byte) : result E AlignedMemory :=
  let max_len := Z.of_nat (length data) in
  v ← av_new max_len false;
  v ← av_copy v 0 data;
  v ← av_set_len v max_len;
  Ok (mkMem v false).

Definition with_capacity (max_len : Z) : result E AlignedMemory :=
  v ← av_new max_len false; Ok (mkMem v false).

Definition with_capacity_zeroed (max_len : Z) : result E AlignedMemory :=
  v ← av_new max_len true; Ok (mkMem v true).

Definition zero_filled (max_len : Z) : result E AlignedMemory :=
  v ← av_new max_len true;
  v ← av_set_len v max_len;
  Ok (mkMem v true).

Definition am_mem_size (m : AlignedMemory) : Z :=
  saturating_add_u64 (av_capacity (am_mem m)) AlignedMemory_size.
Definition am_len (m : AlignedMemory) : Z := av_length (am_mem m).
Definition am_is_empty (m : AlignedMemory) : bool := av_length (am_mem m) =? 0.
Definition write_index (m : AlignedMemory) : Z := av_length (am_mem m).
Definition am_as_slice (m : AlignedMemory) : result E (list byte) := av_as_slice (am_mem m).

(** The bytes a caller leaves in [as_slice_mut]; a slice keeps its length. *)
Definition am_as_slice_mut (m : AlignedMemory) (new : list byte) : result E AlignedMemory :=
  if negb (Z.of_nat (length new) =? av_length (am_mem m)) then Panic else
  v ← av_copy (am_mem m) 0 new;
  Ok (mkMem v (zero_up_to_max_len m)).

(** [HostMemoryObject] for references to the memory. *)
Definition am_host_address (m : AlignedMemory) : Z := av_ptr (am_mem m).
Definition am_byte_length (m : AlignedMemory) : Z := am_len m.

(** [write_unchecked] of the bytes of a value and [write_all_unchecked]. *)
Definition write_all_unchecked (m : AlignedMemory) (value : list byte) : result E AlignedMemory :=
  let pos := av_length (am_mem m) in
  let new_len := saturating_add_u64 pos (Z.of_nat (length value)) in
  _ ← debug_assert (new_len <=? av_capacity (am_mem m));
  v ← av_copy (am_mem m) pos value;
  v ← av_set_len v new_len;
  Ok (mkMem v (zero_up_to_max_len m)).
Definition write_unchecked (m : AlignedMemory) (size : nat) (value : Z) : result E AlignedMemory :=
  let pos := av_length (am_mem m) in
  let new_len := saturating_add_u64 pos (Z.of_nat size) in
  _ ← debug_assert (new_len <=? av_capacity (am_mem m));
  v ← av_copy (am_mem m) pos (le_bytes size value);
  v ← av_set_len v new_len;
  Ok (mkMem v (zero_up_to_max_len m)).

(** [Clone::clone] *)
Definition am_clone (m : AlignedMemory) : result E AlignedMemory :=
  data ← am_as_slice m; am_from_slice data.
End Aligned.

Section AlignedWrite.
Context `{Profile}.

Definition fill_write_failed : IoError := InvalidInput "aligned memory fill_write failed".

Definition fill_write (m : AlignedMemory) (num : Z) (value : byte) : result IoError AlignedMemory :=
  '(p, new_len) ← ok_or (av_write_ptr_for (am_mem m) num) fill_write_failed;
  v ← (if zero_up_to_max_len m && (value =? 0) then Ok (am_mem m)
       else av_copy (am_mem m) p (replicate (Z.to_nat num) value));
  v ← av_set_len v new_len;
  Ok (mkMem v (zero_up_to_max_len m)).

(** [Write::write] *)
Definition am_write (m : AlignedMemory) (buf : list byte) : result IoError (AlignedMemory * Z) :=
  '(p, new_len) ← ok_or (av_write_ptr_for (am_mem m) (Z.of_nat (length buf))) fill_write_failed;
  v ← av_copy (am_mem m) p buf;
  v ← av_set_len v new_len;
  Ok (mkMem v (zero_up_to_max_len m), Z.of_nat (length buf)).
End AlignedWrite.

(** [is_memory_aligned]; a zero alignment is never met. *)
Definition is_memory_aligned (ptr align : Z) : bool :=
  if align =? 0 then false else ptr mod align =? 0.

(** ** The bounded vector it implements

    The safe operations on a memory, each of which may be refused; the
    reference is a list of bytes and a capacity. *)
Inductive am_build := FromSlice (data : list byte) | WithCapacity (n : Z) | WithCapacityZeroed (n : Z)
| ZeroFilled (n : Z).
Inductive am_op := FillWrite (num : Z) (value : byte) | Write (buf : list byte).

Definition build {E} `{Profile, Allocator} (ALIGN : Z) (b : am_build) : result E AlignedMemory :=
  match b with
  | FromSlice data => am_from_slice ALIGN data
  | WithCapacity n => with_capacity ALIGN n
  | WithCapacityZeroed n => with_capacity_zeroed ALIGN n
  | ZeroFilled n => zero_filled ALIGN n
  end.
Definition run_op `{Profile} (m : AlignedMemory) (o : am_op) : result IoError AlignedMemory :=
  match o with
  | FillWrite num value => fill_write m num value
  | Write buf => r ← am_write m buf; Ok r.1
  end.
(** A refused write is reported and the caller goes on. *)
Fixpoint run_ops `{Profile} (m : AlignedMemory) (ops : list am_op) : result IoError AlignedMemory :=
  match ops with
  | [] => Ok m
  | o :: ops =>
      match run_op m o with
      | Ok m' => run_ops m' ops
      | Err _ => run_ops m ops
      | Panic => Panic
      end
  end.

Definition build_spec (b : am_build) : list byte * Z :=
  match b with
  | FromSlice data => (data, Z.of_nat (length data))
  | WithCapacity n | WithCapacityZeroed n => ([], n)
  | ZeroFilled n => (replicate (Z.to_nat n) 0, n)
  end.
Definition op_bytes (o : am_op) : list byte :=
  match o with
  | FillWrite num value => replicate (Z.to_nat num) value
  | Write buf => buf
  end.
Definition append_spec (cap : Z) (l new : list byte) : option (list byte) :=
  if Z.of_nat (length l + length new) <=? cap then Some (l ++ new) else None.
Definition ops_spec (cap : Z) (l : list byte) (ops : list am_op) : list byte :=
  foldl (fun l o => default l (append_spec cap l (op_bytes o))) l ops.

(** [holds ALIGN m l cap]: [m] is at an aligned address, contains the bytes
    [l] and has room for [cap]; zeroed memory is zero beyond [l]. *)
Record holds (ALIGN : Z) (m : AlignedMemory) (l : list byte) (cap : Z) : Prop := {
  holds_aligned : av_ptr (am_mem m) mod ALIGN = 0;
  holds_length : av_length (am_mem m) = Z.of_nat (length l);
  holds_capacity : av_capacity (am_mem m) = cap;
  holds_cap_range : cap <= i64_max;
  holds_cells : exists rest, av_cells (am_mem m) = (Some <$> l) ++ rest /\
    (zero_up_to_max_len m = true -> Forall (eq (Some 0)) rest)
}.

Lemma mapM_Some_fmap {A} (l : list A) : mapM id (Some <$> l) = Some l.
Proof. by apply mapM_fmap_Some. Qed.

Section Facts.
Context `{P : Profile} (ALIGN : Z).
Implicit Types (m : AlignedMemory) (l : list byte).

Lemma debug_assert_true {E} b : b = true -> debug_assert (E := E) b = Ok tt.
Proof. intros ->. unfold debug_assert. by rewrite andb_false_r. Qed.

Lemma holds_room m l cap : holds ALIGN m l cap -> Z.of_nat (length l) <= cap.
Proof.
  intros [_ _ <- _ (rest & Hc & _)]. unfold av_capacity. rewrite Hc, length_app, length_fmap. lia.
Qed.

Lemma as_slice_holds {E} m l cap : holds ALIGN m l cap -> am_as_slice (E := E) m = Ok l.
Proof.
  intros Hm. pose proof (holds_room m l cap Hm). destruct Hm as [_ Hl Hcap _ (rest & Hc & _)].
  unfold am_as_slice, av_as_slice. rewrite Hcap, Hl, (proj2 (Z.ltb_ge _ _)) by done.
  rewrite Hc, Nat2Z.id, take_app_length' by (by rewrite length_fmap).
  by rewrite mapM_Some_fmap.
Qed.

(** The common end of the writers: [new] lands behind the contents. *)
Lemma append_holds {E} m l cap new :
  holds ALIGN m l cap -> Z.of_nat (length l + length new) <= cap ->
  exists v, av_copy (E := E) (am_mem m) (Z.of_nat (length l)) new = Ok v /\
    exists v', av_set_len (E := E) v (Z.of_nat (length l + length new)) = Ok v' /\
    holds ALIGN (mkMem v' (zero_up_to_max_len m)) (l ++ new) cap.
Proof.
  intros [Ha Hl Hcap Hr (rest & Hc & Hz)] Hroom. unfold av_copy.
  assert (length (av_cells (am_mem m)) = length l + length rest)%nat as Hlen
    by by rewrite Hc, length_app, length_fmap.
  unfold av_capacity in Hcap.
  rewrite (proj2 (Z.leb_le _ _)) by (unfold av_capacity; lia).
  eexists. split; [done|]. unfold av_set_len, av_capacity. simpl.
  rewrite Nat2Z.id, length_splice by (rewrite length_fmap; lia).
  rewrite 2!debug_assert_true by (apply Z.leb_le; rewrite ?Hl; lia). simpl. eexists. split; [done|].
  split; unfold av_capacity; simpl; rewrite ?length_splice by (rewrite length_fmap; lia); try done.
  - rewrite length_app. lia.
  - exists (drop (length new) rest). split.
    + rewrite Hc, <- (length_fmap Some l), splice_append, fmap_app, length_fmap.
      by rewrite <- app_assoc.
    + intros Hb. by apply Forall_drop, Hz.
Qed.

(** Writing through the mutable slice replaces the contents in place. *)
Lemma as_slice_mut_holds {E} m l cap new :
  holds ALIGN m l cap -> length new = length l ->
  exists m', am_as_slice_mut (E := E) m new = Ok m' /\ holds ALIGN m' new cap.
Proof.
  intros [Ha Hl Hcap Hr (rest & Hc & Hz)] Hn. unfold am_as_slice_mut.
  rewrite (proj2 (Z.eqb_eq _ _)) by lia. simpl. unfold av_copy, av_capacity in *.
  assert (length (av_cells (am_mem m)) = length l + length rest)%nat as Hlen
    by by rewrite Hc, length_app, length_fmap.
  rewrite (proj2 (Z.leb_le _ _)) by lia. simpl. eexists. split; [done|].
  split; simpl; [done|by rewrite Hn| |done|].
  - unfold av_capacity. simpl. rewrite length_splice; [done|]. rewrite length_fmap. lia.
  - exists rest. split; [|done]. rewrite Hc. unfold splice. simpl.
    by rewrite drop_app_length' by (by rewrite !length_fmap).
Qed.

(** Growing zeroed memory by zeroes needs no write. *)
Lemma zero_append_holds {E} m l cap n :
  holds ALIGN m l cap -> zero_up_to_max_len m = true -> Z.of_nat (length l + n) <= cap ->
  exists v, av_set_len (E := E) (am_mem m) (Z.of_nat (length l + n)) = Ok v /\
    holds ALIGN (mkMem v (zero_up_to_max_len m)) (l ++ replicate n 0) cap.
Proof.
  intros [Ha Hl Hcap Hr (rest & Hc & Hz)] Hflag Hroom. unfold av_set_len.
  assert (length (av_cells (am_mem m)) = length l + length rest)%nat as Hlen
    by by rewrite Hc, length_app, length_fmap.
  unfold av_capacity in *.
  rewrite 2!debug_assert_true by (apply Z.leb_le; rewrite ?Hl; lia). simpl.
  eexists. split; [done|]. split; simpl; try done.
  - rewrite length_app, length_replicate. lia.
  - specialize (Hz Hflag). exists (drop n rest). split; [|by intros _; apply Forall_drop].
    rewrite Hc, fmap_app, fmap_replicate, <- app_assoc. f_equal.
    rewrite <- (take_drop n rest) at 1. f_equal.
    rewrite <- (length_take_le rest n) at 2 by lia.
    symmetry. apply replicate_as_Forall_2; [done|]. eapply Forall_impl; [by apply Forall_take|done].
Qed.

Lemma write_ptr_for_holds m l cap n :
  holds ALIGN m l cap -> 0 <= n ->
  av_write_ptr_for (am_mem m) n =
  if Z.of_nat (length l) + n <=? cap
  then Some (Z.of_nat (length l), Z.of_nat (length l) + n) else None.
Proof.
  intros [_ Hl Hcap Hr _] Hn. unfold av_write_ptr_for, checked_add_u64. rewrite Hl, Hcap.
  unfold i64_max, u64_max in *.
  destruct (Z.leb_spec (Z.of_nat (length l) + n) (2 ^ 64 - 1)); simpl; [done|].
  destruct (Z.leb_spec (Z.of_nat (length l) + n) cap); [lia|done].
Qed.

Definition op_ok (o : am_op) : Prop :=
  match o with FillWrite num _ => is_u 64 num | Write _ => True end.

Lemma run_op_refines m l cap o :
  holds ALIGN m l cap -> op_ok o ->
  match append_spec cap l (op_bytes o) with
  | Some l' => exists m', run_op m o = Ok m' /\ holds ALIGN m' l' cap /\
                 av_ptr (am_mem m') = av_ptr (am_mem m)
  | None => run_op m o = Err fill_write_failed
  end.
Proof.
  intros Hm Ho. unfold append_spec. destruct o as [num value|buf]; simpl in Ho |- *.
  - unfold is_u in Ho. rewrite length_replicate. unfold fill_write.
    rewrite (write_ptr_for_holds _ _ _ _ Hm) by lia.
    replace (Z.of_nat (length l) + num) with (Z.of_nat (length l + Z.to_nat num)) by lia.
    destruct (Z.leb_spec (Z.of_nat (length l + Z.to_nat num)) cap) as [Hroom|]; simpl; [|done].
    destruct (zero_up_to_max_len m && (value =? 0)) eqn:Hzero; simpl.
    + apply andb_true_iff in Hzero as [Hf ->%Z.eqb_eq].
      destruct (zero_append_holds (E := IoError) _ _ _ _ Hm Hf Hroom) as (v & Hv & Hh).
      rewrite Hv. simpl. eexists. split; [done|]. split; [done|].
      unfold av_set_len in Hv. by result_inv; subst v.
    + destruct (append_holds (E := IoError) _ _ _ (replicate (Z.to_nat num) value) Hm)
        as (v & Hv & v' & Hv' & Hh); [by rewrite length_replicate|].
      rewrite Hv. simpl. rewrite length_replicate in Hv'. rewrite Hv'. simpl.
      eexists. split; [done|]. split; [done|].
      unfold av_set_len, av_copy in *. by result_inv; subst v v'.
  - unfold am_write. rewrite (write_ptr_for_holds _ _ _ _ Hm) by lia.
    rewrite <- Nat2Z.inj_add.
    destruct (Z.leb_spec (Z.of_nat (length l + length buf)) cap) as [Hroom|]; simpl; [|done].
    destruct (append_holds (E := IoError) _ _ _ buf Hm Hroom) as (v & Hv & v' & Hv' & Hh).
    rewrite Hv. simpl. rewrite Hv'. simpl. eexists. split; [done|]. split; [done|].
    unfold av_set_len, av_copy in *. by result_inv; subst v v'.
Qed.

Lemma run_ops_refines m l cap ops :
  holds ALIGN m l cap -> Forall op_ok ops ->
  exists m', run_ops m ops = Ok m' /\ holds ALIGN m' (ops_spec cap l ops) cap /\
    av_ptr (am_mem m') = av_ptr (am_mem m).
Proof.
  intros Hm Hops. revert m l Hm. induction Hops as [|o ops Ho _ IH]; intros m l Hm; [by exists m|].
  simpl. pose proof (run_op_refines m l cap o Hm Ho) as Hr. unfold ops_spec. simpl.
  destruct (append_spec cap l (op_bytes o)) as [l'|]; simpl.
  - destruct Hr as (m' & -> & Hm' & Hp). destruct (IH m' l' Hm') as (m'' & ? & ? & ?).
    exists m''. split_and!; [done..|congruence].
  - rewrite Hr. by apply IH.
Qed.
End Facts.

(** ** Construction *)
Section Build.
Context {E : Type} {P : Profile} {A : Allocator} {AL : AllocatorLaws} (ALIGN : Z).

Lemma av_new_ok n zeroed v :
  0 <= n -> av_new (E := E) ALIGN n zeroed = Ok v ->
  av_ptr v mod ALIGN = 0 /\ av_length v = 0 /\ n <= i64_max /\
  av_cells v = replicate (Z.to_nat n) (if zeroed then Some 0 else None).
Proof.
  unfold av_new. destruct (Z.eqb_spec ALIGN 0) as [|Ha]; [done|].
  destruct (Z.eqb_spec n 0) as [->|Hn0]; intros Hn H.
  { injection H as <-. simpl. rewrite Z.mod_same by done. by destruct zeroed. }
  destruct (layout_ok n ALIGN) eqn:Hlay; simpl in H; [|done]. result_inv. subst v. simpl.
  unfold layout_ok, is_power_of_two in Hlay.
  split_and!; [by eapply alloc_aligned|done| |done].
  destruct (Z.ltb_spec 0 ALIGN); lia.
Qed.

Lemma new_holds n zeroed v :
  0 <= n -> av_new (E := E) ALIGN n zeroed = Ok v -> holds ALIGN (mkMem v zeroed) [] n.
Proof.
  intros Hn (Hp & Hl & Hmax & Hc)%av_new_ok; [|done].
  split; unfold av_capacity; simpl; rewrite ?Hl, ?Hc, ?length_replicate; auto; [lia|].
  eexists. split; [done|]. intros ->. rewrite Hc. by apply Forall_replicate.
Qed.

Definition build_ok (b : am_build) : Prop :=
  match b with FromSlice _ => True | WithCapacity n | WithCapacityZeroed n | ZeroFilled n => 0 <= n end.

Lemma build_holds b m :
  build_ok b -> build (E := E) ALIGN b = Ok m ->
  holds ALIGN m (build_spec b).1 (build_spec b).2.
Proof.
  destruct b as [data|n|n|n]; simpl; intros Hb H.
  - unfold am_from_slice in H. apply result_bind_ok in H as (v & Hv & H).
    apply new_holds in Hv; [|lia].
    destruct (append_holds (E := E) ALIGN _ _ _ data Hv) as (v1 & H1 & v2 & H2 & Hh); [simpl; lia|].
    simpl in H1, H2, Hh. change (Z.of_nat 0) with 0 in H1. rewrite H1 in H. simpl in H. rewrite H2 in H. simpl in H. by injection H as <-.
  - unfold with_capacity in H. result_inv. subst m. by apply new_holds.
  - unfold with_capacity_zeroed in H. result_inv. subst m. by apply new_holds.
  - unfold zero_filled in H. apply result_bind_ok in H as (v & Hv & H).
    apply new_holds in Hv; [|done].
    destruct (zero_append_holds (E := E) ALIGN _ _ _ (Z.to_nat n) Hv eq_refl) as (v1 & H1 & Hh);
      [simpl; lia|].
    simpl in H1, Hh. rewrite Z2Nat.id in H1 by done. rewrite H1 in H. simpl in H. by injection H as <-.
Qed.

(** C16: An aligned memory is a bounded vector. However it is built and
    whatever sequence of writes follows, it does not panic or leave its block,
    a write is refused exactly when it does not fit, the contents are those of
    the reference vector, zeroes that the code skips writing included, and the
    memory stays at one address with the alignment asked for. *)
Theorem aligned_memory_refines b ops m :
  build_ok b -> Forall op_ok ops -> build (E := E) ALIGN b = Ok m ->
  exists m', run_ops m ops = Ok m' /\
    am_as_slice (E := E) m' = Ok (ops_spec (build_spec b).2 (build_spec b).1 ops) /\
    av_ptr (am_mem m') = av_ptr (am_mem m) /\ is_memory_aligned (av_ptr (am_mem m')) ALIGN = true.
Proof.
  intros Hb Hops Hm. assert (ALIGN <> 0) as Ha.
  { intros ->. destruct b; simpl in Hm; unfold am_from_slice, with_capacity, with_capacity_zeroed,
      zero_filled, av_new in Hm; done. }
  apply build_holds in Hm as Hh; [|done].
  destruct (run_ops_refines ALIGN _ _ _ _ Hh Hops) as (m' & Hr & Hh' & Hp).
  exists m'. split_and!; [done|by eapply as_slice_holds|done|].
  unfold is_memory_aligned. rewrite (proj2 (Z.eqb_neq _ _)) by done.
  apply Z.eqb_eq, Hh'.
Qed.
End Build.
