(* ===== verification/ElfParser.v ===== *)
(** * The ELF parser: [src/casestudy/sbpf/src/elf_parser]

    [Elf64::parse] and its accessors.  The file is a list of bytes mapped at
    the address [elf_addr], which matters for alignment only; a reference into
    the file is the value read there.  [usize] is 64 bits wide, so the casts
    between [u64] and [usize] are the identity. *)

From S2P Require Import Prelude.

(** ** Constants ([consts.rs]) *)
Definition ELFMAG : list byte := [0x7f; 0x45; 0x4c; 0x46].
Definition ELFCLASS64 : Z := 2.
Definition ELFDATA2LSB : Z := 1.
Definition EV_CURRENT : Z := 1.
Definition PT_LOAD : Z := 1.
Definition PT_DYNAMIC : Z := 2.
Definition SHT_NULL : Z := 0.
Definition SHT_SYMTAB : Z := 2.
Definition SHT_STRTAB : Z := 3.
Definition SHT_DYNAMIC : Z := 6.
Definition SHT_NOBITS : Z := 8.
Definition SHT_DYNSYM : Z := 11.
Definition SHF_WRITE : Z := 0x1.
Definition SHF_ALLOC : Z := 0x2.
Definition SHN_UNDEF : Z := 0.
Definition DT_NULL : Z := 0.
Definition DT_SYMTAB : Z := 6.
Definition DT_REL : Z := 17.
Definition DT_RELSZ : Z := 18.
Definition DT_RELENT : Z := 19.
Definition DT_NUM : nat := 35.
Definition STT_FUNC : Z := 2.

Definition SECTION_NAME_LENGTH_MAXIMUM : Z := 16.
Definition SYMBOL_NAME_LENGTH_MAXIMUM : Z := 64.

(** The text of [StringTooLong] is kept as the bytes it is decoded from. *)
Inductive ElfParserError :=
| InvalidFileHeader
| InvalidProgramHeader
| InvalidSectionHeader
| InvalidString
| StringTooLong (text : list byte) (maximum : Z)
| OutOfBounds
| InvalidSize
| Overlap
| SectionNotInOrder
| NoSectionNameStringTable
| InvalidDynamicSectionTable
| InvalidRelocationTable
| InvalidAlignment
| NoStringTable
| NoDynamicStringTable.

Abbreviation parsed := (result ElfParserError).

(** [err_checked_*] followed by [?]: an overflow is [OutOfBounds]. *)
Definition err_checked_add (a b : Z) : parsed Z := ok_or (checked_add_u64 a b) OutOfBounds.
Definition err_checked_sub (a b : Z) : parsed Z := ok_or (checked_sub_u64 a b) OutOfBounds.
Definition err_checked_mul (a b : Z) : parsed Z :=
  if a * b <=? u64_max then Ok (a * b) else Err OutOfBounds.

(** ** Structures ([types.rs]), laid out as [repr(C)] *)
Record ElfIdent := mkIdent {
  ei_mag : list byte; ei_class : Z; ei_data : Z; ei_version : Z; ei_osabi : Z;
  ei_abiversion : Z; ei_pad : list byte
}.
Record Elf64Ehdr := mkEhdr {
  e_ident : ElfIdent; e_type : Z; e_machine : Z; e_version : Z; e_entry : Z; e_phoff : Z;
  e_shoff : Z; e_flags : Z; e_ehsize : Z; e_phentsize : Z; e_phnum : Z; e_shentsize : Z;
  e_shnum : Z; e_shstrndx : Z
}.
Record Elf64Phdr := mkPhdr {
  p_type : Z; p_flags : Z; p_offset : Z; p_vaddr : Z; p_paddr : Z; p_filesz : Z; p_memsz : Z;
  p_align : Z
}.
Record Elf64Shdr := mkShdr {
  sh_name : Z; sh_type : Z; sh_flags : Z; sh_addr : Z; sh_offset : Z; sh_size : Z; sh_link : Z;
  sh_info : Z; sh_addralign : Z; sh_entsize : Z
}.
Record Elf64Sym := mkSym {
  st_name : Z; st_info : Z; st_other : Z; st_shndx : Z; st_value : Z; st_size : Z
}.
Record Elf64Dyn := mkDyn { d_tag : Z; d_val : Z }.
Record Elf64Rel := mkRel { r_offset : Z; r_info : Z }.

(** The little-endian integer of [n] bytes at offset [o]. *)
Definition int_at (bs : list byte) (o n : nat) : Z := le_val (take n (drop o bs)).

(** A type whose values are read from memory by a pointer cast. *)
Class Pod (T : Type) := { size_of : Z; align_of : Z; read_pod : list byte -> T }.

#[export] Instance Ehdr_pod : Pod Elf64Ehdr := {|
  size_of := 64; align_of := 8;
  read_pod bs := mkEhdr
    (mkIdent (take 4 bs) (int_at bs 4 1) (int_at bs 5 1) (int_at bs 6 1) (int_at bs 7 1)
       (int_at bs 8 1) (take 7 (drop 9 bs)))
    (int_at bs 16 2) (int_at bs 18 2) (int_at bs 20 4) (int_at bs 24 8) (int_at bs 32 8)
    (int_at bs 40 8) (int_at bs 48 4) (int_at bs 52 2) (int_at bs 54 2) (int_at bs 56 2)
    (int_at bs 58 2) (int_at bs 60 2) (int_at bs 62 2) |}.
#[export] Instance Phdr_pod : Pod Elf64Phdr := {|
  size_of := 56; align_of := 8;
  read_pod bs := mkPhdr (int_at bs 0 4) (int_at bs 4 4) (int_at bs 8 8) (int_at bs 16 8)
    (int_at bs 24 8) (int_at bs 32 8) (int_at bs 40 8) (int_at bs 48 8) |}.
#[export] Instance Shdr_pod : Pod Elf64Shdr := {|
  size_of := 64; align_of := 8;
  read_pod bs := mkShdr (int_at bs 0 4) (int_at bs 4 4) (int_at bs 8 8) (int_at bs 16 8)
    (int_at bs 24 8) (int_at bs 32 8) (int_at bs 40 4) (int_at bs 44 4) (int_at bs 48 8)
    (int_at bs 56 8) |}.
#[export] Instance Sym_pod : Pod Elf64Sym := {|
  size_of := 24; align_of := 8;
  read_pod bs := mkSym (int_at bs 0 4) (int_at bs 4 1) (int_at bs 5 1) (int_at bs 6 2)
    (int_at bs 8 8) (int_at bs 16 8) |}.
#[export] Instance Dyn_pod : Pod Elf64Dyn := {|
  size_of := 16; align_of := 8; read_pod bs := mkDyn (int_at bs 0 8) (int_at bs 8 8) |}.
#[export] Instance Rel_pod : Pod Elf64Rel := {|
  size_of := 16; align_of := 8; read_pod bs := mkRel (int_at bs 0 8) (int_at bs 8 8) |}.

(** ** Header methods; a range is its two ends *)
Abbreviation range := (Z * Z)%type.

Definition phdr_file_range (h : Elf64Phdr) : option range :=
  if p_type h =? PT_LOAD then Some (p_offset h, saturating_add_u64 (p_offset h) (p_filesz h)) else None.
Definition phdr_vm_range (h : Elf64Phdr) : range :=
  (p_vaddr h, saturating_add_u64 (p_vaddr h) (p_memsz h)).
Definition is_writable (h : Elf64Shdr) : bool :=
  Z.land (sh_flags h) (Z.lor SHF_ALLOC SHF_WRITE) =? Z.lor SHF_ALLOC SHF_WRITE.
Definition shdr_file_range (h : Elf64Shdr) : option range :=
  if negb (sh_type h =? SHT_NOBITS)
  then Some (sh_offset h, saturating_add_u64 (sh_offset h) (sh_size h)) else None.
Definition shdr_vm_range (h : Elf64Shdr) : range :=
  (sh_addr h, saturating_add_u64 (sh_addr h) (sh_size h)).
Definition is_function (s : Elf64Sym) : bool := Z.land (st_info s) 0xf =? STT_FUNC.
Definition r_type (r : Elf64Rel) : Z := as_u 32 (Z.land (r_info r) 0xffffffff).
Definition r_sym (r : Elf64Rel) : Z := as_u 32 (Z.shiftr (r_info r) 32).

Definition check_that_there_is_no_overlap (a b : range) : parsed unit :=
  if (a.2 <=? b.1) || (b.2 <=? a.1) then Ok tt else Err Overlap.

(** [bytes.get(start..end)] and [range.len()]. *)
Definition slice_get (bytes : list byte) (r : range) : option (list byte) :=
  if (r.1 <=? r.2) && (r.2 <=? Z.of_nat (length bytes))
  then Some (take (Z.to_nat (r.2 - r.1)) (drop (Z.to_nat r.1) bytes)) else None.
Definition range_len (r : range) : Z := if r.1 <? r.2 then r.2 - r.1 else 0.

Record Elf64 := mkElf {
  elf_bytes : list byte;
  file_header : Elf64Ehdr;
  program_header_table : list Elf64Phdr;
  section_header_table : list Elf64Shdr;
  section_names_section_header : option Elf64Shdr;
  symbol_section_header : option Elf64Shdr;
  symbol_names_section_header : option Elf64Shdr;
  dynamic_table : list Z;
  dynamic_relocations_table : option (list Elf64Rel);
  dynamic_symbol_table : option (list Elf64Sym);
  dynamic_symbol_names_section_header : option Elf64Shdr
}.

(** ** Slices of the file *)

(** [slice::from_raw_parts(ptr.cast(), n)]: [n] consecutive values. *)
Fixpoint from_raw_parts {T} `{Pod T} (bs : list byte) (n : nat) : list T :=
  match n with
  | O => []
  | S n => read_pod (take (Z.to_nat (size_of (T := T))) bs)
           :: from_raw_parts (drop (Z.to_nat (size_of (T := T))) bs) n
  end.

Section Parser.
Context (elf_addr : Z).

Definition slice_from_bytes {T} `{Pod T} (bytes : list byte) (r : range) : parsed (list T) :=
  if negb (range_len r mod size_of (T := T) =? 0) then Err InvalidSize else
  bs ← ok_or (slice_get bytes r) OutOfBounds;
  if negb ((elf_addr + r.1) mod align_of (T := T) =? 0) then Err InvalidAlignment else
  Ok (from_raw_parts bs (Z.to_nat (range_len r / size_of (T := T)))).

Definition slice_from_program_header {T} `{Pod T} (bytes : list byte) (h : Elf64Phdr)
    : parsed (list T) :=
  e ← err_checked_add (p_offset h) (p_filesz h);
  slice_from_bytes bytes (p_offset h, e).

Definition slice_from_section_header {T} `{Pod T} (bytes : list byte) (h : Elf64Shdr)
    : parsed (list T) :=
  e ← err_checked_add (sh_offset h) (sh_size h);
  slice_from_bytes bytes (sh_offset h, e).

(** [iter().position(|byte| *byte == 0)] *)
Fixpoint nul_position (bs : list byte) : option nat :=
  match bs with
  | [] => None
  | b :: bs => if b =? 0 then Some 0%nat else S <$> nul_position bs
  end.

Definition get_string_in_section (bytes : list byte) (h : Elf64Shdr)
    (offset_in_section maximum_length : Z) : parsed (list byte) :=
  if negb (sh_type h =? SHT_STRTAB) then Err InvalidSectionHeader else
  offset_in_file ← err_checked_add (sh_offset h) offset_in_section;
  section_end ← err_checked_add (sh_offset h) (sh_size h);
  string_end ← err_checked_add offset_in_file maximum_length;
  unterminated_string_bytes ←
    ok_or (slice_get bytes (offset_in_file, Z.min section_end string_end)) OutOfBounds;
  ok_or (string_length ← nul_position unterminated_string_bytes;
         slice_get unterminated_string_bytes (0, Z.of_nat string_length))
    (StringTooLong unterminated_string_bytes maximum_length).

(** ** Headers and tables *)
Definition parse_file_header (bytes : list byte) : parsed (range * Elf64Ehdr) :=
  let file_header_range := (0, size_of (T := Elf64Ehdr)) in
  bs ← ok_or (slice_get bytes file_header_range) OutOfBounds;
  if negb (elf_addr mod align_of (T := Elf64Ehdr) =? 0) then Err InvalidAlignment else
  Ok (file_header_range, read_pod bs).

Definition parse_program_header_table (bytes : list byte) (file_header_range : range)
    (hdr : Elf64Ehdr) : parsed (range * list Elf64Phdr) :=
  n ← err_checked_mul (size_of (T := Elf64Phdr)) (e_phnum hdr);
  e ← err_checked_add n (e_phoff hdr);
  let program_header_table_range := (e_phoff hdr, e) in
  _ ← check_that_there_is_no_overlap file_header_range program_header_table_range;
  t ← slice_from_bytes bytes program_header_table_range;
  Ok (program_header_table_range, t).

Definition parse_section_header_table (bytes : list byte) (file_header_range : range)
    (hdr : Elf64Ehdr) (program_header_table_range : range)
    : parsed (range * list Elf64Shdr) :=
  n ← err_checked_mul (size_of (T := Elf64Shdr)) (e_shnum hdr);
  e ← err_checked_add n (e_shoff hdr);
  let section_header_table_range := (e_shoff hdr, e) in
  _ ← check_that_there_is_no_overlap file_header_range section_header_table_range;
  _ ← check_that_there_is_no_overlap program_header_table_range section_header_table_range;
  t ← slice_from_bytes bytes section_header_table_range;
  Ok (section_header_table_range, t).

(** The checks of the file header's fields. *)
Definition file_header_ok (h : Elf64Ehdr) : bool :=
  bool_decide (ei_mag (e_ident h) = ELFMAG) && (ei_class (e_ident h) =? ELFCLASS64)
  && (ei_data (e_ident h) =? ELFDATA2LSB) && (ei_version (e_ident h) =? as_u 8 EV_CURRENT)
  && (e_version h =? EV_CURRENT) && (e_ehsize h =? as_u 16 (size_of (T := Elf64Ehdr)))
  && (e_phentsize h =? as_u 16 (size_of (T := Elf64Phdr)))
  && (e_shentsize h =? as_u 16 (size_of (T := Elf64Shdr)))
  && (e_shstrndx h <? e_shnum h).

(** The loop over the program headers: [vaddr] is the address of the last
    loadable segment. *)
Fixpoint check_program_headers (len vaddr : Z) (l : list Elf64Phdr) : parsed unit :=
  match l with
  | [] => Ok tt
  | h :: l =>
      if negb (p_type h =? PT_LOAD) then check_program_headers len vaddr l else
      if p_vaddr h <? vaddr then Err InvalidProgramHeader else
      e ← err_checked_add (p_offset h) (p_filesz h);
      if len <? e then Err OutOfBounds else
      check_program_headers len (p_vaddr h) l
  end.

(** The loop over the section headers: [offset] is the end of the last
    section that has bytes in the file. *)
Fixpoint check_section_headers (len : Z) (fh ph sh : range) (offset : Z) (l : list Elf64Shdr)
    : parsed unit :=
  match l with
  | [] => Ok tt
  | h :: l =>
      if sh_type h =? SHT_NOBITS then check_section_headers len fh ph sh offset l else
      e ← err_checked_add (sh_offset h) (sh_size h);
      _ ← check_that_there_is_no_overlap (sh_offset h, e) fh;
      _ ← check_that_there_is_no_overlap (sh_offset h, e) ph;
      _ ← check_that_there_is_no_overlap (sh_offset h, e) sh;
      if sh_offset h <? offset then Err SectionNotInOrder else
      if len <? e then Err OutOfBounds else
      check_section_headers len fh ph sh e l
  end.

(** ** The state of the parser *)
Definition set_symbol_section_header (p : Elf64) (h : Elf64Shdr) : Elf64 :=
  mkElf (elf_bytes p) (file_header p) (program_header_table p) (section_header_table p)
    (section_names_section_header p) (Some h) (symbol_names_section_header p) (dynamic_table p)
    (dynamic_relocations_table p) (dynamic_symbol_table p) (dynamic_symbol_names_section_header p).
Definition set_symbol_names_section_header (p : Elf64) (h : Elf64Shdr) : Elf64 :=
  mkElf (elf_bytes p) (file_header p) (program_header_table p) (section_header_table p)
    (section_names_section_header p) (symbol_section_header p) (Some h) (dynamic_table p)
    (dynamic_relocations_table p) (dynamic_symbol_table p) (dynamic_symbol_names_section_header p).
Definition set_dynamic_symbol_names_section_header (p : Elf64) (h : Elf64Shdr) : Elf64 :=
  mkElf (elf_bytes p) (file_header p) (program_header_table p) (section_header_table p)
    (section_names_section_header p) (symbol_section_header p) (symbol_names_section_header p)
    (dynamic_table p) (dynamic_relocations_table p) (dynamic_symbol_table p) (Some h).
Definition set_dynamic_tables (p : Elf64) (t : list Z) (rel : option (list Elf64Rel))
    (sym : option (list Elf64Sym)) : Elf64 :=
  mkElf (elf_bytes p) (file_header p) (program_header_table p) (section_header_table p)
    (section_names_section_header p) (symbol_section_header p) (symbol_names_section_header p)
    t rel sym (dynamic_symbol_names_section_header p).

(** Section names, in ASCII: [.symtab], [.strtab], [.dynstr]. *)
Definition name_symtab : list byte := [46; 115; 121; 109; 116; 97; 98].
Definition name_strtab : list byte := [46; 115; 116; 114; 116; 97; 98].
Definition name_dynstr : list byte := [46; 100; 121; 110; 115; 116; 114].

(** The macro [section_header_by_name!]. *)
Definition section_header_by_name (p : Elf64) (h : Elf64Shdr) (name : list byte) : parsed Elf64 :=
  if bool_decide (name = name_symtab) then
    match symbol_section_header p with
    | Some _ => Err InvalidSectionHeader
    | None => Ok (set_symbol_section_header p h)
    end
  else if bool_decide (name = name_strtab) then
    match symbol_names_section_header p with
    | Some _ => Err InvalidSectionHeader
    | None => Ok (set_symbol_names_section_header p h)
    end
  else if bool_decide (name = name_dynstr) then
    match dynamic_symbol_names_section_header p with
    | Some _ => Err InvalidSectionHeader
    | None => Ok (set_dynamic_symbol_names_section_header p h)
    end
  else Ok p.

Fixpoint parse_sections_loop (names : Elf64Shdr) (p : Elf64) (l : list Elf64Shdr) : parsed Elf64 :=
  match l with
  | [] => Ok p
  | h :: l =>
      section_name ←
        get_string_in_section (elf_bytes p) names (sh_name h) SECTION_NAME_LENGTH_MAXIMUM;
      p' ← section_header_by_name p h section_name;
      parse_sections_loop names p' l
  end.

Definition parse_sections (p : Elf64) : parsed Elf64 :=
  names ← ok_or (section_names_section_header p) NoSectionNameStringTable;
  parse_sections_loop names p (section_header_table p).

(** ** Dynamic linking information *)
Definition get_symbol_table_of_section (p : Elf64) (h : Elf64Shdr) : parsed (list Elf64Sym) :=
  if negb (sh_type h =? SHT_SYMTAB) && negb (sh_type h =? SHT_DYNSYM)
  then Err InvalidSectionHeader
  else slice_from_section_header (elf_bytes p) h.

Fixpoint program_header_for_vaddr_in (l : list Elf64Phdr) (vaddr : Z) : parsed (option Elf64Phdr) :=
  match l with
  | [] => Ok None
  | h :: l =>
      e ← err_checked_add (p_vaddr h) (p_memsz h);
      if (p_vaddr h <=? vaddr) && (vaddr <? e) then Ok (Some h)
      else program_header_for_vaddr_in l vaddr
  end.
Definition program_header_for_vaddr (p : Elf64) (vaddr : Z) : parsed (option Elf64Phdr) :=
  program_header_for_vaddr_in (program_header_table p) vaddr.

(** [iter().find(..)] *)
Definition find_shdr (f : Elf64Shdr -> bool) (l : list Elf64Shdr) : option Elf64Shdr := List.find f l.
Definition find_phdr (f : Elf64Phdr -> bool) (l : list Elf64Phdr) : option Elf64Phdr := List.find f l.

(** [r.map_err(|_| e)] *)
Definition map_parser_err {A} (r : parsed A) (e : ElfParserError) : parsed A :=
  match r with Err _ => Err e | _ => r end.

Definition parse_dynamic_relocations (p : Elf64) (dyn : list Z) : parsed (option (list Elf64Rel)) :=
  vaddr ← or_panic (get dyn DT_REL);
  if vaddr =? 0 then Ok None else
  relent ← or_panic (get dyn DT_RELENT);
  if negb (relent =? size_of (T := Elf64Rel)) then Err InvalidDynamicSectionTable else
  size ← or_panic (get dyn DT_RELSZ);
  if size =? 0 then Err InvalidDynamicSectionTable else
  program_header ← program_header_for_vaddr p vaddr;
  offset ← match program_header with
            | Some h =>
                d ← err_checked_sub vaddr (p_vaddr h);
                err_checked_add d (p_offset h)
            | None =>
                h ← ok_or (find_shdr (fun h => sh_addr h =? vaddr) (section_header_table p))
                       InvalidDynamicSectionTable;
                Ok (sh_offset h)
            end;
  e ← err_checked_add offset size;
  t ← map_parser_err (slice_from_bytes (elf_bytes p) (offset, e)) InvalidDynamicSectionTable;
  Ok (Some t).

Definition parse_dynamic_symbol_table (p : Elf64) (dyn : list Z) : parsed (option (list Elf64Sym)) :=
  vaddr ← or_panic (get dyn DT_SYMTAB);
  if vaddr =? 0 then Ok None else
  h ← ok_or (find_shdr (fun h => sh_addr h =? vaddr) (section_header_table p))
         InvalidDynamicSectionTable;
  t ← get_symbol_table_of_section p h;
  Ok (Some t).

(** The loop that expands the dynamic entries into the table. *)
Fixpoint expand_dynamic (dyn : list Z) (l : list Elf64Dyn) : parsed (list Z) :=
  match l with
  | [] => Ok dyn
  | d :: l =>
      if d_tag d =? DT_NULL then Ok dyn else
      if Z.of_nat DT_NUM <=? d_tag d then expand_dynamic dyn l else
      dyn' ← or_panic (set dyn (d_tag d) (d_val d));
      expand_dynamic dyn' l
  end.

(** The entries of the dynamic segment, or of the dynamic section when there
    is no such segment or it cannot be read. *)
Definition find_dynamic_table (p : Elf64) : parsed (option (list Elf64Dyn)) :=
  let from_segment :=
    match find_phdr (fun h => p_type h =? PT_DYNAMIC) (program_header_table p) with
    | Some h =>
        match slice_from_program_header (T := Elf64Dyn) (elf_bytes p) h with
        | Ok t => Ok (Some t)
        | Err _ => Ok None
        | Panic => Panic
        end
    | None => Ok None
    end in
  t ← from_segment;
  match t with
  | Some t => Ok (Some t)
  | None =>
      match find_shdr (fun h => sh_type h =? SHT_DYNAMIC) (section_header_table p) with
      | Some h =>
          t ← map_parser_err (slice_from_section_header (T := Elf64Dyn) (elf_bytes p) h)
                 InvalidDynamicSectionTable;
          Ok (Some t)
      | None => Ok None
      end
  end.

Definition parse_dynamic (p : Elf64) : parsed Elf64 :=
  t ← find_dynamic_table p;
  match t with
  | None => Ok p
  | Some t =>
      dyn ← expand_dynamic (dynamic_table p) t;
      rel ← parse_dynamic_relocations p dyn;
      sym ← parse_dynamic_symbol_table p dyn;
      Ok (set_dynamic_tables p dyn rel sym)
  end.

(** ** [Elf64::parse]

    Up to the construction of the parser's state, and the whole function. *)
Definition parse_headers (bytes : list byte) : parsed Elf64 :=
  let len := Z.of_nat (length bytes) in
  '(fh_range, hdr) ← parse_file_header bytes;
  if negb (file_header_ok hdr) then Err InvalidFileHeader else
  '(ph_range, phs) ← parse_program_header_table bytes fh_range hdr;
  '(sh_range, shs) ← parse_section_header_table bytes fh_range hdr ph_range;
  match head shs with
  | Some first =>
      if negb (sh_type first =? SHT_NULL) then Err InvalidSectionHeader else
      _ ← check_program_headers len 0 phs;
      _ ← check_section_headers len fh_range ph_range sh_range 0 shs;
      names ← (if negb (e_shstrndx hdr =? SHN_UNDEF) then
                  h ← ok_or (get shs (e_shstrndx hdr)) OutOfBounds;
                  Ok (Some h)
                else Ok None);
      Ok (mkElf bytes hdr phs shs names None None (replicate DT_NUM 0) None None None)
  | None => Err InvalidSectionHeader
  end.

Definition parse (bytes : list byte) : parsed Elf64 :=
  p ← parse_headers bytes;
  p ← parse_sections p;
  parse_dynamic p.

(** ** Accessors *)
Definition section_name (p : Elf64) (sh_name : Z) : parsed (list byte) :=
  h ← ok_or (section_names_section_header p) NoSectionNameStringTable;
  get_string_in_section (elf_bytes p) h sh_name SECTION_NAME_LENGTH_MAXIMUM.
Definition symbol_name (p : Elf64) (st_name : Z) : parsed (list byte) :=
  h ← ok_or (symbol_names_section_header p) NoStringTable;
  get_string_in_section (elf_bytes p) h st_name SYMBOL_NAME_LENGTH_MAXIMUM.
Definition dynamic_symbol_name (p : Elf64) (st_name : Z) : parsed (list byte) :=
  h ← ok_or (dynamic_symbol_names_section_header p) NoDynamicStringTable;
  get_string_in_section (elf_bytes p) h st_name SYMBOL_NAME_LENGTH_MAXIMUM.
Definition symbol_table (p : Elf64) : parsed (option (list Elf64Sym)) :=
  match symbol_section_header p with
  | Some h => t ← get_symbol_table_of_section p h; Ok (Some t)
  | None => Ok None
  end.
End Parser.
