(* ===== verification/ElfParserFacts.v ===== *)
(** * The ELF parser is correct

    What a successful [Elf64::parse] guarantees of the file and of the tables
    it hands out, that it never panics, and what the string and slice readers
    return. *)

From S2P Require Import Prelude ElfParser.

Create HintDb elf.

(** ** Ranges *)
Definition in_file (bytes : list byte) (r : range) : Prop :=
  0 <= r.1 /\ r.1 <= r.2 <= Z.of_nat (length bytes).
Definition disjoint_ranges (a b : range) : Prop := a.2 <= b.1 \/ b.2 <= a.1.

(** The [n] bytes of the file at offset [o]. *)
Definition file_bytes (bytes : list byte) (o n : Z) : list byte :=
  take (Z.to_nat n) (drop (Z.to_nat o) bytes).

(** [l] is the array of [n] values that the file holds at offset [off]. *)
Definition table_at {T} `{Pod T} (elf_addr : Z) (bytes : list byte) (off n : Z) (l : list T) : Prop :=
  Z.of_nat (length l) = n /\ in_file bytes (off, off + n * size_of (T := T)) /\
  (elf_addr + off) mod align_of (T := T) = 0 /\
  forall i x, l !! i = Some x ->
    x = read_pod (file_bytes bytes (off + Z.of_nat i * size_of (T := T)) (size_of (T := T))).

Lemma err_checked_add_ok a b c : err_checked_add a b = Ok c <-> c = a + b /\ a + b <= u64_max.
Proof.
  unfold err_checked_add, checked_add_u64. destruct (Z.leb_spec (a + b) u64_max); simpl; naive_solver lia.
Qed.

Lemma err_checked_sub_ok a b c : err_checked_sub a b = Ok c <-> c = a - b /\ b <= a.
Proof.
  unfold err_checked_sub, checked_sub_u64. destruct (Z.leb_spec 0 (a - b)); simpl; naive_solver lia.
Qed.

Lemma err_checked_mul_ok a b c : err_checked_mul a b = Ok c <-> c = a * b /\ a * b <= u64_max.
Proof.
  unfold err_checked_mul. destruct (Z.leb_spec (a * b) u64_max); naive_solver lia.
Qed.

Lemma no_overlap_ok a b x : check_that_there_is_no_overlap a b = Ok x <-> disjoint_ranges a b.
Proof.
  unfold check_that_there_is_no_overlap, disjoint_ranges. destruct x.
  destruct (Z.leb_spec a.2 b.1), (Z.leb_spec b.2 a.1); simpl; naive_solver lia.
Qed.

Lemma slice_get_Some bytes r bs :
  slice_get bytes r = Some bs <->
  r.1 <= r.2 <= Z.of_nat (length bytes) /\ bs = file_bytes bytes r.1 (r.2 - r.1).
Proof.
  unfold slice_get. destruct (Z.leb_spec r.1 r.2), (Z.leb_spec r.2 (Z.of_nat (length bytes)));
    simpl; naive_solver lia.
Qed.

(** The development's case analysis on a successful step of the parser. *)
Ltac elf_inv :=
  repeat (progress result_inv ||
    match goal with
    | H : err_checked_add _ _ = Ok _ |- _ => apply err_checked_add_ok in H as [? ?]
    | H : err_checked_sub _ _ = Ok _ |- _ => apply err_checked_sub_ok in H as [? ?]
    | H : err_checked_mul _ _ = Ok _ |- _ => apply err_checked_mul_ok in H as [? ?]
    | H : check_that_there_is_no_overlap _ _ = Ok _ |- _ => apply no_overlap_ok in H
    | H : slice_get _ _ = Some _ |- _ => apply slice_get_Some in H as [? ?]
    end).

(** ** Slices *)
Lemma length_from_raw_parts {T} `{Pod T} bs n : length (from_raw_parts (T := T) bs n) = n.
Proof. revert bs. induction n; intros; simpl; auto. Qed.

Lemma from_raw_parts_lookup {T} `{Pod T} bs n i x :
  0 <= size_of (T := T) -> from_raw_parts (T := T) bs n !! i = Some x ->
  x = read_pod (take (Z.to_nat (size_of (T := T))) (drop (i * Z.to_nat (size_of (T := T))) bs)).
Proof.
  intros Hs. revert bs i. induction n as [|n IH]; intros bs [|i] Hi; simplify_eq/=; [done|].
  rewrite (IH _ _ Hi), drop_drop. done.
Qed.

Lemma take_drop_inner {A} (l : list A) o n j k :
  (j + k <= n)%nat -> take k (drop j (take n (drop o l))) = take k (drop (o + j) l).
Proof.
  intros Hn. rewrite take_drop_commute, take_take, Nat.min_l by lia.
  by rewrite <- take_drop_commute, drop_drop.
Qed.

Lemma slice_from_bytes_ok {T} `{Pod T} elf_addr bytes r (l : list T) :
  0 < size_of (T := T) -> 0 <= r.1 -> slice_from_bytes elf_addr bytes r = Ok l ->
  exists n, r.2 = r.1 + n * size_of (T := T) /\ table_at elf_addr bytes r.1 n l.
Proof.
  intros Hs Hr Hl. unfold slice_from_bytes in Hl. elf_inv. subst.
  apply negb_false_iff, Z.eqb_eq in Heqb, Heqb0.
  set (s := size_of (T := T)) in *.
  assert (range_len r = r.2 - r.1) as Hlen by (unfold range_len; destruct (Z.ltb_spec r.1 r.2); lia).
  rewrite Hlen in *. pose proof (Z.div_mod (r.2 - r.1) s ltac:(lia)).
  pose proof (Z.div_pos (r.2 - r.1) s ltac:(lia) Hs).
  exists ((r.2 - r.1) / s). split; [lia|].
  unfold table_at. fold s. rewrite length_from_raw_parts.
  split_and!; [lia| |done|].
  - split; simpl; lia.
  - intros i x Hi. pose proof (lookup_lt_Some _ _ _ Hi) as Hlt.
    rewrite length_from_raw_parts in Hlt.
    rewrite (from_raw_parts_lookup _ _ _ _ (Z.lt_le_incl _ _ Hs) Hi). fold s. f_equal.
    assert (Z.of_nat (i * Z.to_nat s) = Z.of_nat i * s) as Hi' by lia.
    assert ((Z.of_nat i + 1) * s <= r.2 - r.1) by nia.
    unfold file_bytes. rewrite take_drop_inner by lia. do 2 f_equal. lia.
Qed.

(** ** Strings *)
Lemma nul_position_spec bs n :
  nul_position bs = Some n <->
  exists s rest, bs = s ++ 0 :: rest /\ length s = n /\ Forall (fun b => b <> 0) s.
Proof.
  revert n. induction bs as [|b bs IH]; intros n; simpl.
  - split; [done|]. intros (s & rest & Hs & _). by destruct s.
  - destruct (Z.eqb_spec b 0) as [->|Hb].
    + split.
      * intros [= <-]. by exists [], bs.
      * intros ([|a s] & rest & Hs & <- & Hz); simplify_eq/=; [done|].
        by inversion Hz.
    + rewrite fmap_Some. setoid_rewrite IH. split.
      * intros (m & (s & rest & -> & <- & Hz) & ->). exists (b :: s), rest.
        auto using Forall_cons.
      * intros ([|a s] & rest & Hs & <- & Hz); simplify_eq/=.
        exists (length s). inversion Hz. split; [|done]. by exists s, rest.
Qed.

(** The file holds the NUL-terminated string [s] at [start], and the
    terminator lies before [stop]. *)
Definition string_at (bytes : list byte) (start stop : Z) (s : list byte) : Prop :=
  start <= stop <= Z.of_nat (length bytes) /\ Forall (fun b => b <> 0) s /\
  exists rest, file_bytes bytes start (stop - start) = s ++ 0 :: rest.

Lemma nul_slice_spec bs s :
  (n ← nul_position bs; slice_get bs (0, Z.of_nat n)) = Some s <->
  Forall (fun b => b <> 0) s /\ exists rest, bs = s ++ 0 :: rest.
Proof.
  rewrite bind_Some. setoid_rewrite nul_position_spec. setoid_rewrite slice_get_Some. simpl.
  unfold file_bytes. split.
  - intros (n & (s' & rest & -> & <- & Hz) & _ & ->).
    rewrite Z.sub_0_r, Nat2Z.id, drop_0, take_app_length. eauto.
  - intros (Hz & rest & ->). exists (length s). split; [by exists s, rest|].
    rewrite length_app. split; [lia|].
    by rewrite Z.sub_0_r, Nat2Z.id, drop_0, take_app_length.
Qed.

(** The strings of a string table: exactly the NUL-terminated strings that
    start inside the file and end inside the section and within the maximum
    length. *)
Lemma get_string_ok bytes h off max s :
  get_string_in_section bytes h off max = Ok s <->
  sh_type h = SHT_STRTAB /\ sh_offset h + off <= u64_max /\
  sh_offset h + sh_size h <= u64_max /\ sh_offset h + off + max <= u64_max /\
  string_at bytes (sh_offset h + off)
    (Z.min (sh_offset h + sh_size h) (sh_offset h + off + max)) s.
Proof.
  unfold get_string_in_section, string_at. split.
  - intros Hs. destruct (Z.eqb_spec (sh_type h) SHT_STRTAB); simpl in Hs; [|done].
    elf_inv; simplify_eq/=. apply nul_slice_spec in Hs. tauto.
  - intros (Ht & H1 & H2 & H3 & Hr & Hz). rewrite Ht. simpl.
    rewrite (proj2 (err_checked_add_ok _ _ _) (conj eq_refl H1)). simpl.
    rewrite (proj2 (err_checked_add_ok _ _ _) (conj eq_refl H2)). simpl.
    rewrite (proj2 (err_checked_add_ok _ _ _) (conj eq_refl H3)). simpl.
    rewrite (proj2 (slice_get_Some _ (_, _) _) (conj Hr eq_refl)). simpl.
    by rewrite (proj2 (nul_slice_spec _ _) Hz).
Qed.

Lemma string_at_length bytes start stop s : string_at bytes start stop s -> Z.of_nat (length s) < stop - start.
Proof.
  intros (Hr & _ & rest & He). apply (f_equal length) in He.
  unfold file_bytes in He. rewrite length_take, length_app in He. simpl in He. lia.
Qed.

(** ** Integers read from bytes *)
Lemma int_at_u bs o n : is_bytes bs -> is_u (8 * Z.of_nat n) (int_at bs o n).
Proof.
  intros Hb. unfold int_at, is_u.
  assert (is_bytes (take n (drop o bs))) as Ht by (apply Forall_take, Forall_drop, Hb).
  pose proof (le_val_bound _ Ht). rewrite length_take in *.
  split; [lia|]. eapply Z.lt_le_trans; [apply H|]. apply Z.pow_le_mono_r; lia.
Qed.

Lemma int_at_nonneg bs o n : is_bytes bs -> 0 <= int_at bs o n.
Proof. intros. by apply int_at_u. Qed.

Lemma is_bytes_file_bytes bytes o n : is_bytes bytes -> is_bytes (file_bytes bytes o n).
Proof. intros. by apply Forall_take, Forall_drop. Qed.
#[export] Hint Resolve int_at_nonneg is_bytes_file_bytes : elf.

(** ** Field widths

    The values of the file's structures, every field in the range of its
    type; a pointer cast produces nothing else. *)
Class PodTyped (T : Type) `{Pod T} := {
  size_pos : 0 < size_of (T := T);
  well_typed : T -> Prop;
  read_well_typed bs : is_bytes bs -> well_typed (read_pod bs)
}.

Definition phdr_typed (h : Elf64Phdr) : Prop :=
  is_u 32 (p_type h) /\ is_u 32 (p_flags h) /\ is_u 64 (p_offset h) /\ is_u 64 (p_vaddr h) /\
  is_u 64 (p_paddr h) /\ is_u 64 (p_filesz h) /\ is_u 64 (p_memsz h) /\ is_u 64 (p_align h).
Definition shdr_typed (h : Elf64Shdr) : Prop :=
  is_u 32 (sh_name h) /\ is_u 32 (sh_type h) /\ is_u 64 (sh_flags h) /\ is_u 64 (sh_addr h) /\
  is_u 64 (sh_offset h) /\ is_u 64 (sh_size h) /\ is_u 32 (sh_link h) /\ is_u 32 (sh_info h) /\
  is_u 64 (sh_addralign h) /\ is_u 64 (sh_entsize h).
Definition sym_typed (s : Elf64Sym) : Prop :=
  is_u 32 (st_name s) /\ is_u 8 (st_info s) /\ is_u 8 (st_other s) /\ is_u 16 (st_shndx s) /\
  is_u 64 (st_value s) /\ is_u 64 (st_size s).
Definition dyn_typed (d : Elf64Dyn) : Prop := is_u 64 (d_tag d) /\ is_u 64 (d_val d).
Definition rel_typed (r : Elf64Rel) : Prop := is_u 64 (r_offset r) /\ is_u 64 (r_info r).
Definition ehdr_typed (h : Elf64Ehdr) : Prop :=
  is_u 16 (e_type h) /\ is_u 16 (e_machine h) /\ is_u 32 (e_version h) /\ is_u 64 (e_entry h) /\
  is_u 64 (e_phoff h) /\ is_u 64 (e_shoff h) /\ is_u 32 (e_flags h) /\ is_u 16 (e_ehsize h) /\
  is_u 16 (e_phentsize h) /\ is_u 16 (e_phnum h) /\ is_u 16 (e_shentsize h) /\
  is_u 16 (e_shnum h) /\ is_u 16 (e_shstrndx h).

#[export] Program Instance Phdr_typed : PodTyped Elf64Phdr := {| well_typed := phdr_typed |}.
Next Obligation. done. Qed.
Next Obligation. intros bs Hb. repeat split; by apply (int_at_u bs). Qed.
#[export] Program Instance Shdr_typed : PodTyped Elf64Shdr := {| well_typed := shdr_typed |}.
Next Obligation. done. Qed.
Next Obligation. intros bs Hb. repeat split; by apply (int_at_u bs). Qed.
#[export] Program Instance Sym_typed : PodTyped Elf64Sym := {| well_typed := sym_typed |}.
Next Obligation. done. Qed.
Next Obligation. intros bs Hb. repeat split; by apply (int_at_u bs). Qed.
#[export] Program Instance Dyn_typed : PodTyped Elf64Dyn := {| well_typed := dyn_typed |}.
Next Obligation. done. Qed.
Next Obligation. intros bs Hb. repeat split; by apply (int_at_u bs). Qed.
#[export] Program Instance Rel_typed : PodTyped Elf64Rel := {| well_typed := rel_typed |}.
Next Obligation. done. Qed.
Next Obligation. intros bs Hb. repeat split; by apply (int_at_u bs). Qed.
#[export] Program Instance Ehdr_typed : PodTyped Elf64Ehdr := {| well_typed := ehdr_typed |}.
Next Obligation. done. Qed.
Next Obligation. intros bs Hb. repeat split; by apply (int_at_u bs). Qed.

Lemma table_at_typed {T} `{PodTyped T} elf_addr bytes off n (l : list T) :
  is_bytes bytes -> table_at elf_addr bytes off n l -> Forall well_typed l.
Proof.
  intros Hb (_ & _ & _ & Hl). apply Forall_lookup. intros i x Hi. rewrite (Hl i x Hi).
  apply read_well_typed. auto with elf.
Qed.

Definition shdr_range (h : Elf64Shdr) : range := (sh_offset h, sh_offset h + sh_size h).

(** A table read from the range that a header describes. *)
Definition stored_at {T} `{Pod T} (elf_addr : Z) (bytes : list byte) (r : range) (l : list T) : Prop :=
  exists n, r.2 = r.1 + n * size_of (T := T) /\ table_at elf_addr bytes r.1 n l.

Lemma slice_from_program_header_ok {T} `{PodTyped T} elf_addr bytes h (l : list T) :
  phdr_typed h -> slice_from_program_header elf_addr bytes h = Ok l ->
  stored_at elf_addr bytes (p_offset h, p_offset h + p_filesz h) l.
Proof.
  intros Hh Hl. unfold slice_from_program_header in Hl. elf_inv. subst.
  apply slice_from_bytes_ok in Hl; [done|apply size_pos|]. simpl. unfold phdr_typed, is_u in Hh. lia.
Qed.

Lemma slice_from_section_header_ok {T} `{PodTyped T} elf_addr bytes h (l : list T) :
  shdr_typed h -> slice_from_section_header elf_addr bytes h = Ok l ->
  stored_at elf_addr bytes (shdr_range h) l.
Proof.
  intros Hh Hl. unfold slice_from_section_header in Hl. elf_inv. subst.
  apply slice_from_bytes_ok in Hl; [done|apply size_pos|]. simpl. unfold shdr_typed, is_u in Hh. lia.
Qed.

(** ** The loops over the headers *)
Definition is_load (h : Elf64Phdr) : Prop := p_type h = PT_LOAD.
Definition has_bytes (h : Elf64Shdr) : Prop := sh_type h <> SHT_NOBITS.
#[export] Instance is_load_dec h : Decision (is_load h) := decide (p_type h = PT_LOAD).
#[export] Instance has_bytes_dec h : Decision (has_bytes h) := decide (sh_type h <> SHT_NOBITS).

(** Loadable segments end inside the file and their addresses ascend. *)
Definition segments_ok (len : Z) (l : list Elf64Phdr) : Prop :=
  Forall (fun h => p_offset h + p_filesz h <= u64_max /\ p_offset h + p_filesz h <= len)
    (filter is_load l) /\
  StronglySorted (fun a b => p_vaddr a <= p_vaddr b) (filter is_load l).

(** Sections with bytes end inside the file, avoid the three header ranges and
    lie one after the other. *)
Definition sections_ok (len : Z) (fh ph sh : range) (l : list Elf64Shdr) : Prop :=
  Forall (fun h => sh_offset h + sh_size h <= u64_max /\ sh_offset h + sh_size h <= len /\
            disjoint_ranges (shdr_range h) fh /\ disjoint_ranges (shdr_range h) ph /\
            disjoint_ranges (shdr_range h) sh) (filter has_bytes l) /\
  StronglySorted (fun a b => sh_offset a + sh_size a <= sh_offset b) (filter has_bytes l).

Lemma check_program_headers_ok len vaddr l x :
  check_program_headers len vaddr l = Ok x <->
  segments_ok len l /\ Forall (fun h => vaddr <= p_vaddr h) (filter is_load l).
Proof.
  destruct x. revert vaddr. induction l as [|h l IH]; intros vaddr; simpl.
  { unfold segments_ok. rewrite filter_nil. naive_solver auto using Forall_nil, SSorted_nil. }
  unfold segments_ok. rewrite filter_cons.
  destruct (decide (is_load h)) as [Hl|Hl]; unfold is_load in Hl.
  2:{ apply Z.eqb_neq in Hl. rewrite Hl. apply IH. }
  rewrite Hl, Z.eqb_refl. simpl. rewrite !Forall_cons, StronglySorted_cons.
  destruct (Z.ltb_spec (p_vaddr h) vaddr) as [Hv|Hv]; [naive_solver lia|].
  rewrite result_bind_ok. setoid_rewrite err_checked_add_ok. split.
  - intros (e & [-> Hu] & H). destruct (Z.ltb_spec len (p_offset h + p_filesz h)); [done|].
    apply IH in H as [[H1 H2] H3]. split_and!; auto.
    eapply Forall_impl; [exact H3|]. simpl. lia.
  - intros ([[[Hu Hlen] H1] [H2 H3]] & _ & _). eexists. split; [by split|].
    destruct (Z.ltb_spec len (p_offset h + p_filesz h)); [lia|]. by apply IH.
Qed.

Lemma check_section_headers_ok len fh ph sh offset l x :
  Forall (fun h => 0 <= sh_size h) l ->
  check_section_headers len fh ph sh offset l = Ok x <->
  sections_ok len fh ph sh l /\ Forall (fun h => offset <= sh_offset h) (filter has_bytes l).
Proof.
  destruct x. revert offset. induction l as [|h l IH]; intros offset Hsz; simpl.
  { unfold sections_ok. rewrite filter_nil. naive_solver auto using Forall_nil, SSorted_nil. }
  apply Forall_cons in Hsz as [Hs Hsz].
  unfold sections_ok. rewrite filter_cons.
  destruct (decide (has_bytes h)) as [Hl|Hl]; unfold has_bytes in Hl.
  2:{ apply dec_stable in Hl. rewrite Hl, Z.eqb_refl. by apply IH. }
  apply Z.eqb_neq in Hl. rewrite Hl. rewrite !Forall_cons, StronglySorted_cons.
  split.
  - intros H. elf_inv. subst. apply Z.ltb_ge in Heqb, Heqb0.
    apply IH in H as [[H1' H2'] H3']; [|done]. unfold shdr_range. split_and!; auto.
    eapply Forall_impl; [exact H3'|]. simpl. lia.
  - intros ([[(Hu & Hlen & Hf & Hp & Hh) H1] [H2 H3]] & Ho & _).
    unfold shdr_range in Hf, Hp, Hh. rewrite (proj2 (err_checked_add_ok _ _ _) (conj eq_refl Hu)). simpl.
    rewrite (proj2 (no_overlap_ok _ _ tt) Hf). simpl.
    rewrite (proj2 (no_overlap_ok _ _ tt) Hp). simpl.
    rewrite (proj2 (no_overlap_ok _ _ tt) Hh). simpl.
    destruct (Z.ltb_spec (sh_offset h) offset); [lia|].
    destruct (Z.ltb_spec len (sh_offset h + sh_size h)); [lia|]. by apply IH.
Qed.

(** ** Sections by name *)
Definition named (bytes : list byte) (names h : Elf64Shdr) (s : list byte) : Prop :=
  get_string_in_section bytes names (sh_name h) SECTION_NAME_LENGTH_MAXIMUM = Ok s.

(** [f] is the only section of [l] with the name [s], if there is one. *)
Definition the_section (bytes : list byte) (names : Elf64Shdr) (l : list Elf64Shdr) (s : list byte)
    (f : option Elf64Shdr) : Prop :=
  match f with
  | Some h => exists i, l !! i = Some h /\ named bytes names h s /\
                forall j h', l !! j = Some h' -> named bytes names h' s -> j = i
  | None => forall h, h ∈ l -> ~ named bytes names h s
  end.

(** What a scan of [l] makes of the field [f]. *)
Definition scanned (bytes : list byte) (names : Elf64Shdr) (l : list Elf64Shdr) (s : list byte)
    (f f' : option Elf64Shdr) : Prop :=
  match f with
  | Some h => f' = Some h /\ forall h, h ∈ l -> ~ named bytes names h s
  | None => the_section bytes names l s f'
  end.

Section Scan.
Context (bytes : list byte) (names : Elf64Shdr).

Lemma scanned_skip h l s f f' :
  ~ named bytes names h s -> scanned bytes names l s f f' -> scanned bytes names (h :: l) s f f'.
Proof.
  intros Hn. destruct f as [g|]; simpl.
  - intros [-> H]. split; [done|]. intros h'. rewrite elem_of_cons. naive_solver.
  - destruct f' as [g|]; simpl.
    + intros (i & Hi & Hg & Hu). exists (S i). split_and!; [done..|].
      intros [|j] h' Hj Hh'; simplify_eq/=; [done|]. f_equal. eauto.
    + intros H h'. rewrite elem_of_cons. naive_solver.
Qed.

Lemma scanned_take h l s f' :
  named bytes names h s -> scanned bytes names l s (Some h) f' -> scanned bytes names (h :: l) s None f'.
Proof.
  simpl. intros Hn [-> H]. exists 0%nat. split_and!; [done..|].
  intros [|j] h' Hj Hh'; [done|]. simplify_eq/=.
  apply list_elem_of_lookup_2 in Hj. naive_solver.
Qed.

Lemma named_inj h s s' : named bytes names h s -> named bytes names h s' -> s = s'.
Proof. unfold named. congruence. Qed.

(** The fields a scan does not touch. *)
Definition same_frame (p q : Elf64) : Prop :=
  elf_bytes q = elf_bytes p /\ file_header q = file_header p /\
  program_header_table q = program_header_table p /\
  section_header_table q = section_header_table p /\
  section_names_section_header q = section_names_section_header p.

Lemma parse_sections_loop_ok p l q :
  elf_bytes p = bytes -> parse_sections_loop names p l = Ok q ->
  same_frame p q /\ dynamic_table q = dynamic_table p /\
  dynamic_relocations_table q = dynamic_relocations_table p /\
  dynamic_symbol_table q = dynamic_symbol_table p /\
  Forall (fun h => exists s, named bytes names h s) l /\
  scanned bytes names l name_symtab (symbol_section_header p) (symbol_section_header q) /\
  scanned bytes names l name_strtab (symbol_names_section_header p) (symbol_names_section_header q) /\
  scanned bytes names l name_dynstr (dynamic_symbol_names_section_header p)
    (dynamic_symbol_names_section_header q).
Proof.
  revert p. induction l as [|h l IH]; intros p Hb Hq; simpl in Hq.
  { injection Hq as <-. split_and!; try done.
    all: match goal with |- scanned _ _ _ _ ?f _ => destruct f end; simpl; repeat split; by intros ? ?%elem_of_nil. }
  apply result_bind_ok in Hq as (s & Hs & Hq). rewrite Hb in Hs. fold (named bytes names h s) in Hs.
  apply result_bind_ok in Hq as (p' & Hp' & Hq).
  unfold section_header_by_name in Hp'.
  assert (forall s', s <> s' -> ~ named bytes names h s') as Hother
    by (intros s' Hne H'; eauto using named_inj).
  assert (elf_bytes p' = bytes) as Hb'
    by (repeat case_bool_decide; result_inv; by subst p').
  destruct (IH p' Hb' Hq) as (Hf & Hd & Hr & Hy & Hn & H1 & H2 & H3). clear IH Hq.
  assert (same_frame p p' /\ dynamic_table p' = dynamic_table p /\
          dynamic_relocations_table p' = dynamic_relocations_table p /\
          dynamic_symbol_table p' = dynamic_symbol_table p) as (Hf' & <- & <- & <-)
    by (repeat case_bool_decide; result_inv; by subst p').
  split; [unfold same_frame in *; intuition congruence|].
  do 4 (split; [first [done | apply Forall_cons; eauto]|]).
  repeat case_bool_decide; result_inv; subst p'; try subst s; simpl in H1, H2, H3;
    split_and!; repeat match goal with H : ?f = None |- scanned _ _ _ _ ?f _ => rewrite H end;
    solve [apply scanned_take; auto | apply scanned_skip; auto].
Qed.
End Scan.

(** ** No panic *)
Lemma err_checked_add_no_panic a b : err_checked_add a b <> Panic.
Proof. apply ok_or_no_panic. Qed.
Lemma err_checked_sub_no_panic a b : err_checked_sub a b <> Panic.
Proof. apply ok_or_no_panic. Qed.
Lemma err_checked_mul_no_panic a b : err_checked_mul a b <> Panic.
Proof. unfold err_checked_mul. by destruct (_ <=? _). Qed.
Lemma no_overlap_no_panic a b : check_that_there_is_no_overlap a b <> Panic.
Proof. unfold check_that_there_is_no_overlap. by destruct (_ || _). Qed.
#[export] Hint Resolve err_checked_add_no_panic err_checked_sub_no_panic err_checked_mul_no_panic
  no_overlap_no_panic : nopanic.

Section NoPanic.
Context (elf_addr : Z).

Lemma slice_from_bytes_no_panic {T} `{Pod T} bytes r :
  slice_from_bytes (T := T) elf_addr bytes r <> Panic.
Proof. unfold slice_from_bytes. eauto with nopanic. Qed.
#[local] Hint Resolve slice_from_bytes_no_panic : nopanic.

Lemma slice_from_section_header_no_panic {T} `{Pod T} bytes h :
  slice_from_section_header (T := T) elf_addr bytes h <> Panic.
Proof. unfold slice_from_section_header. eauto with nopanic. Qed.
Lemma slice_from_program_header_no_panic {T} `{Pod T} bytes h :
  slice_from_program_header (T := T) elf_addr bytes h <> Panic.
Proof. unfold slice_from_program_header. eauto with nopanic. Qed.
#[local] Hint Resolve slice_from_section_header_no_panic slice_from_program_header_no_panic : nopanic.

Lemma get_string_no_panic bytes h off max : get_string_in_section bytes h off max <> Panic.
Proof. unfold get_string_in_section. eauto 10 with nopanic. Qed.
#[local] Hint Resolve get_string_no_panic : nopanic.

Lemma map_parser_err_no_panic {A} (r : parsed A) e : r <> Panic -> map_parser_err r e <> Panic.
Proof. by destruct r. Qed.
#[local] Hint Resolve map_parser_err_no_panic : nopanic.

Lemma check_program_headers_no_panic len vaddr l : check_program_headers len vaddr l <> Panic.
Proof. revert vaddr. induction l; intros; simpl; eauto 10 with nopanic. Qed.
Lemma check_section_headers_no_panic len fh ph sh o l :
  check_section_headers len fh ph sh o l <> Panic.
Proof. revert o. induction l; intros; simpl; eauto 15 with nopanic. Qed.
Lemma parse_sections_loop_no_panic names p l : parse_sections_loop names p l <> Panic.
Proof.
  revert p. induction l; intros; simpl; [eauto with nopanic|].
  apply bind_no_panic; [eauto with nopanic|]. intros s _.
  apply bind_no_panic; [|eauto]. unfold section_header_by_name. eauto 10 with nopanic.
Qed.
Lemma program_header_for_vaddr_no_panic l vaddr : program_header_for_vaddr_in l vaddr <> Panic.
Proof. induction l; simpl; eauto 10 with nopanic. Qed.
#[local] Hint Resolve check_program_headers_no_panic check_section_headers_no_panic
  parse_sections_loop_no_panic program_header_for_vaddr_no_panic : nopanic.

(** The loop keeps the table's length, so every index it uses is in range. *)
Lemma expand_dynamic_no_panic dyn l :
  length dyn = DT_NUM -> Forall (fun d => 0 <= d_tag d) l -> expand_dynamic dyn l <> Panic.
Proof.
  intros Hlen Hl. revert dyn Hlen. induction Hl as [|d l Hd Hl IH]; intros dyn Hlen; simpl; [done|].
  destruct (_ =? _); [done|]. destruct (Z.leb_spec (Z.of_nat DT_NUM) (d_tag d)); [by apply IH|].
  rewrite set_Some by (rewrite Hlen; lia). simpl. apply IH. by rewrite length_insert.
Qed.

Lemma expand_dynamic_length dyn l dyn' :
  expand_dynamic dyn l = Ok dyn' -> length dyn' = length dyn.
Proof.
  revert dyn. induction l as [|d l IH]; intros dyn H; simpl in H; [by injection H as <-|].
  result_inv; subst; [done|by eauto|].
  rewrite (IH _ H). unfold set in *. case_match; simplify_eq/=. apply length_insert.
Qed.

Lemma dyn_get_Some (dyn : list Z) i :
  length dyn = DT_NUM -> 0 <= i < Z.of_nat DT_NUM -> is_Some (get dyn i).
Proof. intros Hlen Hi. apply get_Some. rewrite Hlen. lia. Qed.
End NoPanic.

(** ** Dynamic linking information *)

(** The entries before the terminator, and the value they leave for a tag:
    the last one wins. *)
Fixpoint until_null (l : list Elf64Dyn) : list Elf64Dyn :=
  match l with
  | [] => []
  | d :: l => if d_tag d =? DT_NULL then [] else d :: until_null l
  end.
Definition last_value (l : list Elf64Dyn) (tag v : Z) : Z :=
  foldl (fun v d => if d_tag d =? tag then d_val d else v) v l.

Lemma expand_dynamic_lookup dyn l dyn' i v :
  length dyn = DT_NUM -> Forall dyn_typed l -> expand_dynamic dyn l = Ok dyn' ->
  dyn !! i = Some v -> dyn' !! i = Some (last_value (until_null l) (Z.of_nat i) v).
Proof.
  intros Hlen Hl. revert dyn v Hlen. induction Hl as [|d l Hd Hl IH]; intros dyn v Hlen H Hi.
  { simpl in *. naive_solver. }
  simpl in H. simpl until_null. pose proof (lookup_lt_Some _ _ _ Hi).
  destruct (Z.eqb_spec (d_tag d) DT_NULL) as [|Hnull]; [naive_solver|]. unfold last_value. simpl.
  fold (last_value (until_null l) (Z.of_nat i) (if d_tag d =? Z.of_nat i then d_val d else v)).
  destruct (Z.leb_spec (Z.of_nat DT_NUM) (d_tag d)).
  { destruct (Z.eqb_spec (d_tag d) (Z.of_nat i)); [lia|]. eauto. }
  unfold dyn_typed, is_u in Hd. rewrite set_Some in H by lia. simpl in H.
  eapply IH; [by rewrite length_insert|done|].
  destruct (Z.eqb_spec (d_tag d) (Z.of_nat i)) as [He|He].
  - rewrite He, Nat2Z.id. by apply list_lookup_insert_eq.
  - rewrite list_lookup_insert_ne by lia. done.
Qed.

Section Dynamic.
Context (elf_addr : Z) (p : Elf64).
Context (Hb : is_bytes (elf_bytes p)) (Hlen : length (dynamic_table p) = DT_NUM).
Context (Hph : Forall phdr_typed (program_header_table p)).
Context (Hsh : Forall shdr_typed (section_header_table p)).

(** The table is read from the dynamic segment or from the dynamic section. *)
Definition dynamic_source (t : list Elf64Dyn) : Prop :=
  (exists h, h ∈ program_header_table p /\ p_type h = PT_DYNAMIC /\
     stored_at elf_addr (elf_bytes p) (p_offset h, p_offset h + p_filesz h) t) \/
  (exists h, h ∈ section_header_table p /\ sh_type h = SHT_DYNAMIC /\
     stored_at elf_addr (elf_bytes p) (shdr_range h) t).

Lemma find_shdr_Some f l h : find_shdr f l = Some h -> h ∈ l /\ f h = true.
Proof. intros H%find_some. by rewrite list_elem_of_In. Qed.
Lemma find_phdr_Some f l h : find_phdr f l = Some h -> h ∈ l /\ f h = true.
Proof. intros H%find_some. by rewrite list_elem_of_In. Qed.

Lemma map_parser_err_ok {A} (r : parsed A) e x : map_parser_err r e = Ok x <-> r = Ok x.
Proof. destruct r; naive_solver. Qed.

Lemma shdr_of_table h : h ∈ section_header_table p -> shdr_typed h.
Proof. intros. by eapply (proj1 (Forall_forall _ _)). Qed.
Lemma phdr_of_table h : h ∈ program_header_table p -> phdr_typed h.
Proof. intros. by eapply (proj1 (Forall_forall _ _)). Qed.
#[local] Hint Resolve shdr_of_table phdr_of_table : elf.

Lemma section_dynamic_table h t :
  find_shdr (fun h => sh_type h =? SHT_DYNAMIC) (section_header_table p) = Some h ->
  map_parser_err (slice_from_section_header (T := Elf64Dyn) elf_addr (elf_bytes p) h)
    InvalidDynamicSectionTable = Ok t -> dynamic_source t.
Proof.
  intros [Hin Hty%Z.eqb_eq]%find_shdr_Some Ht. rewrite map_parser_err_ok in Ht. right. exists h.
  split_and!; [done..|]. apply slice_from_section_header_ok; auto with elf.
Qed.

Lemma find_dynamic_table_ok t : find_dynamic_table elf_addr p = Ok (Some t) -> dynamic_source t.
Proof.
  unfold find_dynamic_table. intros Ht.
  destruct (find_phdr _ _) as [h|] eqn:Hfind; simpl in Ht;
    [destruct (slice_from_program_header _ _ _) as [u| |] eqn:Hu; simpl in Ht|].
  - simplify_eq. apply find_phdr_Some in Hfind as [Hin Hty%Z.eqb_eq]. left. exists h.
    split_and!; [done..|]. apply slice_from_program_header_ok; auto with elf.
  - result_inv; simplify_eq. eauto using section_dynamic_table.
  - done.
  - result_inv; simplify_eq. eauto using section_dynamic_table.
Qed.

Lemma dynamic_source_typed t : dynamic_source t -> Forall dyn_typed t.
Proof.
  intros [(h & _ & _ & n & _ & Ht)|(h & _ & _ & n & _ & Ht)];
    by apply (table_at_typed _ _ _ _ _ Hb) in Ht.
Qed.

(** Where the relocations start: at the file offset of their address. *)
Definition relocations_offset (vaddr off : Z) : Prop :=
  (exists h, h ∈ program_header_table p /\ p_vaddr h <= vaddr < p_vaddr h + p_memsz h /\
     off = vaddr - p_vaddr h + p_offset h) \/
  (exists h, h ∈ section_header_table p /\ sh_addr h = vaddr /\ off = sh_offset h).

Lemma program_header_for_vaddr_ok l vaddr h :
  program_header_for_vaddr_in l vaddr = Ok (Some h) ->
  h ∈ l /\ p_vaddr h <= vaddr < p_vaddr h + p_memsz h.
Proof.
  induction l as [|a l IH]; simpl; intros H; [done|]. elf_inv; subst.
  - simplify_eq. rewrite elem_of_cons. split; [auto|lia].
  - rewrite elem_of_cons. naive_solver.
Qed.

Definition relocations_ok (dyn : list Z) (rel : option (list Elf64Rel)) : Prop :=
  exists vaddr, dyn !! Z.to_nat DT_REL = Some vaddr /\
  match rel with
  | None => vaddr = 0
  | Some l => vaddr <> 0 /\ dyn !! Z.to_nat DT_RELENT = Some (size_of (T := Elf64Rel)) /\
      exists off size, dyn !! Z.to_nat DT_RELSZ = Some size /\ size <> 0 /\
        relocations_offset vaddr off /\ stored_at elf_addr (elf_bytes p) (off, off + size) l
  end.

Lemma relocations_offset_nonneg vaddr off : relocations_offset vaddr off -> 0 <= off.
Proof.
  intros [(h & Hin & Hr & ->)|(h & Hin & _ & ->)].
  - apply phdr_of_table in Hin. unfold phdr_typed, is_u in Hin. lia.
  - apply shdr_of_table in Hin. unfold shdr_typed, is_u in Hin. lia.
Qed.

Lemma parse_dynamic_relocations_ok dyn rel :
  parse_dynamic_relocations elf_addr p dyn = Ok rel -> relocations_ok dyn rel.
Proof.
  unfold parse_dynamic_relocations. intros H.
  apply result_bind_ok in H as (vaddr & Hv & H). apply or_panic_ok in Hv.
  exists vaddr. split; [done|].
  destruct (Z.eqb_spec vaddr 0) as [->|Hv0]; [naive_solver|].
  apply result_bind_ok in H as (relent & Hr & H). apply or_panic_ok in Hr.
  destruct (Z.eqb_spec relent (size_of (T := Elf64Rel))) as [->|]; simpl in H; [|done].
  apply result_bind_ok in H as (size & Hs & H). apply or_panic_ok in Hs.
  destruct (Z.eqb_spec size 0) as [->|Hs0]; [done|].
  apply result_bind_ok in H as (ph & Hp & H).
  apply result_bind_ok in H as (off & Ho & H).
  assert (relocations_offset vaddr off) as Hoff.
  { destruct ph as [h|].
    - apply program_header_for_vaddr_ok in Hp as [Hin Hr']. elf_inv. subst. left. by exists h.
    - result_inv. subst. rename select (find_shdr _ _ = _) into Hf. apply find_shdr_Some in Hf as [Hin Ha%Z.eqb_eq]. right. by eexists. }
  clear Ho Hp. elf_inv. subst. rename select (map_parser_err _ _ = _) into Hm. rewrite map_parser_err_ok in Hm.
  apply slice_from_bytes_ok in Hm; [|done|by apply (relocations_offset_nonneg vaddr)].
  split_and!; [done..|]. by exists off, size.
Qed.

Definition symbols_ok (dyn : list Z) (sym : option (list Elf64Sym)) : Prop :=
  exists vaddr, dyn !! Z.to_nat DT_SYMTAB = Some vaddr /\
  match sym with
  | None => vaddr = 0
  | Some l => vaddr <> 0 /\ exists h, h ∈ section_header_table p /\ sh_addr h = vaddr /\
      (sh_type h = SHT_SYMTAB \/ sh_type h = SHT_DYNSYM) /\
      stored_at elf_addr (elf_bytes p) (shdr_range h) l
  end.

Lemma get_symbol_table_of_section_ok h l :
  shdr_typed h -> get_symbol_table_of_section elf_addr p h = Ok l ->
  (sh_type h = SHT_SYMTAB \/ sh_type h = SHT_DYNSYM) /\
  stored_at elf_addr (elf_bytes p) (shdr_range h) l.
Proof.
  intros Hh. unfold get_symbol_table_of_section.
  destruct (Z.eqb_spec (sh_type h) SHT_SYMTAB), (Z.eqb_spec (sh_type h) SHT_DYNSYM); simpl;
    intros Hl; try discriminate; split; first [by auto | by apply slice_from_section_header_ok].
Qed.

Lemma parse_dynamic_symbol_table_ok dyn sym :
  parse_dynamic_symbol_table elf_addr p dyn = Ok sym -> symbols_ok dyn sym.
Proof.
  unfold parse_dynamic_symbol_table. intros H.
  apply result_bind_ok in H as (vaddr & Hv & H). apply or_panic_ok in Hv.
  exists vaddr. split; [done|].
  destruct (Z.eqb_spec vaddr 0) as [->|Hv0]; [naive_solver|].
  result_inv. subst. rename select (find_shdr _ _ = _) into Hf.
  apply find_shdr_Some in Hf as [Hin Ha%Z.eqb_eq]. split; [done|].
  rename select (get_symbol_table_of_section _ _ _ = _) into Hg.
  apply get_symbol_table_of_section_ok in Hg; [|auto with elf]. naive_solver.
Qed.
End Dynamic.

(** ** [Elf64::parse] *)
Definition fh_range : range := (0, size_of (T := Elf64Ehdr)).
Definition ph_range (h : Elf64Ehdr) : range :=
  (e_phoff h, e_phoff h + e_phnum h * size_of (T := Elf64Phdr)).
Definition sh_range (h : Elf64Ehdr) : range :=
  (e_shoff h, e_shoff h + e_shnum h * size_of (T := Elf64Shdr)).

(** The header and the two tables are stored in the file and do not overlap. *)
Record headers_valid (elf_addr : Z) (bytes : list byte) (p : Elf64) : Prop := {
  hv_bytes : elf_bytes p = bytes;
  hv_header : file_header p = read_pod (file_bytes bytes 0 (size_of (T := Elf64Ehdr)));
  hv_header_in : in_file bytes fh_range;
  hv_checked : file_header_ok (file_header p) = true;
  hv_typed : ehdr_typed (file_header p);
  hv_phdrs : table_at elf_addr bytes (e_phoff (file_header p)) (e_phnum (file_header p))
    (program_header_table p);
  hv_shdrs : table_at elf_addr bytes (e_shoff (file_header p)) (e_shnum (file_header p))
    (section_header_table p);
  hv_fh_ph : disjoint_ranges fh_range (ph_range (file_header p));
  hv_fh_sh : disjoint_ranges fh_range (sh_range (file_header p));
  hv_ph_sh : disjoint_ranges (ph_range (file_header p)) (sh_range (file_header p));
  hv_phdrs_typed : Forall phdr_typed (program_header_table p);
  hv_shdrs_typed : Forall shdr_typed (section_header_table p);
  hv_first : exists h, head (section_header_table p) = Some h /\ sh_type h = SHT_NULL
}.

(** Segments and sections lie in the file, in order. *)
Record layout_valid (p : Elf64) : Prop := {
  lv_segments : segments_ok (Z.of_nat (length (elf_bytes p))) (program_header_table p);
  lv_sections : sections_ok (Z.of_nat (length (elf_bytes p))) fh_range (ph_range (file_header p))
    (sh_range (file_header p)) (section_header_table p)
}.

(** Every section has a name, and the fields hold the sections they are named
    after. *)
Record names_valid (p : Elf64) (names : Elf64Shdr) : Prop := {
  nv_names : section_names_section_header p = Some names;
  nv_index : section_header_table p !! Z.to_nat (e_shstrndx (file_header p)) = Some names;
  nv_named : Forall (fun h => exists s, named (elf_bytes p) names h s) (section_header_table p);
  nv_symtab : the_section (elf_bytes p) names (section_header_table p) name_symtab
    (symbol_section_header p);
  nv_strtab : the_section (elf_bytes p) names (section_header_table p) name_strtab
    (symbol_names_section_header p);
  nv_dynstr : the_section (elf_bytes p) names (section_header_table p) name_dynstr
    (dynamic_symbol_names_section_header p)
}.

(** The dynamic table holds the entries of the file's dynamic segment or
    section, the relocations and symbols are stored where it says. *)
Definition dynamic_valid (elf_addr : Z) (p : Elf64) : Prop :=
  (dynamic_table p = replicate DT_NUM 0 /\ dynamic_relocations_table p = None /\
   dynamic_symbol_table p = None) \/
  exists t, dynamic_source elf_addr p t /\ length (dynamic_table p) = DT_NUM /\
    (forall tag, 0 <= tag < Z.of_nat DT_NUM ->
       dynamic_table p !! Z.to_nat tag = Some (last_value (until_null t) tag 0)) /\
    relocations_ok elf_addr p (dynamic_table p) (dynamic_relocations_table p) /\
    symbols_ok elf_addr p (dynamic_table p) (dynamic_symbol_table p).

Section Parse.
Context (elf_addr : Z) (bytes : list byte) (Hb : is_bytes bytes).

Lemma parse_file_header_ok r h :
  parse_file_header elf_addr bytes = Ok (r, h) ->
  r = fh_range /\ h = read_pod (file_bytes bytes 0 (size_of (T := Elf64Ehdr))) /\
  in_file bytes fh_range.
Proof.
  unfold parse_file_header. intros H. elf_inv. simplify_eq. split_and!; [done..|].
  unfold in_file, fh_range in *. simpl in *. lia.
Qed.

Lemma header_typed : ehdr_typed (read_pod (file_bytes bytes 0 (size_of (T := Elf64Ehdr)))).
Proof. exact (read_well_typed (T := Elf64Ehdr) _ (is_bytes_file_bytes _ _ _ Hb)). Qed.

Lemma parse_program_header_table_ok h r l :
  ehdr_typed h -> parse_program_header_table elf_addr bytes fh_range h = Ok (r, l) ->
  r = ph_range h /\ disjoint_ranges fh_range (ph_range h) /\
  table_at elf_addr bytes (e_phoff h) (e_phnum h) l.
Proof.
  unfold parse_program_header_table. intros Hh H. elf_inv. subst.
  replace (size_of * e_phnum h + e_phoff h) with (e_phoff h + e_phnum h * size_of (T := Elf64Phdr))
    in * by lia.
  rename select (slice_from_bytes _ _ _ = _) into Hs. simplify_eq. split_and!; [done..|].
  apply slice_from_bytes_ok in Hs as (n & Hn & Ht); [|done|unfold ehdr_typed, is_u in Hh; simpl; lia].
  simpl in Hn, Ht. by assert (n = e_phnum h) as <- by lia.
Qed.

Lemma parse_section_header_table_ok h r l :
  ehdr_typed h -> parse_section_header_table elf_addr bytes fh_range h (ph_range h) = Ok (r, l) ->
  r = sh_range h /\ disjoint_ranges fh_range (sh_range h) /\
  disjoint_ranges (ph_range h) (sh_range h) /\
  table_at elf_addr bytes (e_shoff h) (e_shnum h) l.
Proof.
  unfold parse_section_header_table. intros Hh H. elf_inv. subst.
  replace (size_of * e_shnum h + e_shoff h) with (e_shoff h + e_shnum h * size_of (T := Elf64Shdr))
    in * by lia.
  rename select (slice_from_bytes _ _ _ = _) into Hs. simplify_eq. split_and!; [done..|].
  apply slice_from_bytes_ok in Hs as (n & Hn & Ht); [|done|unfold ehdr_typed, is_u in Hh; simpl; lia].
  simpl in Hn, Ht. by assert (n = e_shnum h) as <- by lia.
Qed.

(** The state in which the section loop starts. *)
Lemma parse_headers_ok p :
  parse_headers elf_addr bytes = Ok p ->
  headers_valid elf_addr bytes p /\ layout_valid p /\
  (forall h, section_names_section_header p = Some h ->
     section_header_table p !! Z.to_nat (e_shstrndx (file_header p)) = Some h) /\
  symbol_section_header p = None /\ symbol_names_section_header p = None /\
  dynamic_table p = replicate DT_NUM 0 /\ dynamic_relocations_table p = None /\
  dynamic_symbol_table p = None /\ dynamic_symbol_names_section_header p = None.
Proof.
  unfold parse_headers. intros H. pose proof header_typed as Hty.
  apply result_bind_ok in H as ([r hdr] & Hfh & H).
  apply parse_file_header_ok in Hfh as (-> & -> & Hin).
  set (hdr := read_pod _) in *.
  destruct (file_header_ok hdr) eqn:Hok; simpl in H; [|done].
  apply result_bind_ok in H as ([r phs] & Hpt & H).
  apply parse_program_header_table_ok in Hpt as (-> & Hd1 & Hpt); [|done].
  apply result_bind_ok in H as ([r shs] & Hst & H).
  apply parse_section_header_table_ok in Hst as (-> & Hd2 & Hd3 & Hst); [|done].
  pose proof (table_at_typed _ _ _ _ _ Hb Hpt) as Hpty.
  pose proof (table_at_typed _ _ _ _ _ Hb Hst) as Hsty.
  destruct (head shs) as [h0|] eqn:Hhead; [|done].
  destruct (Z.eqb_spec (sh_type h0) SHT_NULL) as [Hnull|]; simpl in H; [|done].
  apply result_bind_ok in H as (? & Hseg & H).
  apply check_program_headers_ok in Hseg as [Hseg _].
  apply result_bind_ok in H as (? & Hsec & H).
  apply check_section_headers_ok in Hsec as [Hsec _];
    [|eapply Forall_impl; [exact Hsty|]; unfold well_typed, Shdr_typed, shdr_typed, is_u; lia].
  apply result_bind_ok in H as (names & Hn & H).
  injection H as <-. split; [by split; eauto|]. split; [by split|]. split; [|done].
  simpl. intros h ->. result_inv; [|done]. simplify_eq. unfold get in *. by case_match.
Qed.

Lemma parse_sections_ok p q :
  elf_bytes p = bytes -> symbol_section_header p = None -> symbol_names_section_header p = None ->
  dynamic_symbol_names_section_header p = None ->
  (forall h, section_names_section_header p = Some h ->
     section_header_table p !! Z.to_nat (e_shstrndx (file_header p)) = Some h) ->
  parse_sections p = Ok q ->
  same_frame p q /\ dynamic_table q = dynamic_table p /\
  dynamic_relocations_table q = dynamic_relocations_table p /\
  dynamic_symbol_table q = dynamic_symbol_table p /\ exists names, names_valid q names.
Proof.
  intros Hpb H1 H2 H3 Hn H. unfold parse_sections in H. result_inv.
  apply (parse_sections_loop_ok bytes) in H as (Hf & Hd & Hr & Hs & Hnamed & Ha & Hb' & Hc); [|done].
  rewrite H1 in Ha. rewrite H2 in Hb'. rewrite H3 in Hc.
  split_and!; [done..|]. destruct Hf as (E1 & E2 & E3 & E4 & E5).
  eexists. split; rewrite ?E1, ?E2, ?E3, ?E4, ?E5, ?Hpb; eauto.
Qed.

(** [same_frame] transports what depends on the frame. *)
Lemma headers_valid_frame p q :
  same_frame p q -> headers_valid elf_addr bytes p -> headers_valid elf_addr bytes q.
Proof.
  destruct p, q. unfold same_frame. simpl. intros (-> & -> & -> & -> & ->) []. by split.
Qed.

Lemma layout_valid_frame p q : same_frame p q -> layout_valid p -> layout_valid q.
Proof.
  destruct p, q. unfold same_frame. simpl. intros (-> & -> & -> & -> & ->) []. by split.
Qed.

Lemma parse_dynamic_ok p q :
  headers_valid elf_addr bytes p -> dynamic_table p = replicate DT_NUM 0 ->
  dynamic_relocations_table p = None -> dynamic_symbol_table p = None ->
  parse_dynamic elf_addr p = Ok q ->
  same_frame p q /\ dynamic_valid elf_addr q /\
  (forall names, names_valid p names -> names_valid q names).
Proof.
  intros [Hpb _ _ _ _ _ _ _ _ _ Hph Hsh _] Hd Hr Hs H. unfold parse_dynamic in H.
  assert (length (dynamic_table p) = DT_NUM) as Hlen by by rewrite Hd, length_replicate.
  rewrite <- Hpb in Hb.
  apply result_bind_ok in H as ([t|] & Ht & H); [|injection H as <-; split_and!; [done|by left|done]].
  apply find_dynamic_table_ok in Ht; [|done..].
  pose proof (dynamic_source_typed _ _ Hb _ Ht) as Htt.
  apply result_bind_ok in H as (dyn & He & H).
  apply result_bind_ok in H as (rel & Hrel & H).
  apply result_bind_ok in H as (sym & Hsym & H). injection H as <-.
  split; [done|]. split; [|by intros names []].
  right. exists t. simpl. split_and!; [done| | | |].
  - by rewrite (expand_dynamic_length _ _ _ He).
  - intros tag Htag. rewrite <- (Z2Nat.id tag) at 2 by lia.
    apply (expand_dynamic_lookup _ _ _ _ _ Hlen Htt He).
    rewrite Hd. apply lookup_replicate. lia.
  - by apply parse_dynamic_relocations_ok in Hrel.
  - by apply parse_dynamic_symbol_table_ok in Hsym.
Qed.
End Parse.

(** ** Totality *)
#[local] Hint Resolve slice_from_bytes_no_panic slice_from_section_header_no_panic
  slice_from_program_header_no_panic get_string_no_panic map_parser_err_no_panic
  check_program_headers_no_panic check_section_headers_no_panic parse_sections_loop_no_panic
  program_header_for_vaddr_no_panic : nopanic.

Lemma find_dynamic_table_no_panic elf_addr p : find_dynamic_table elf_addr p <> Panic.
Proof.
  unfold find_dynamic_table.
  pose proof (fun h => slice_from_program_header_no_panic (T := Elf64Dyn) elf_addr (elf_bytes p) h) as Hs.
  destruct (find_phdr _ _) as [h|]; [specialize (Hs h); destruct (slice_from_program_header _ _ _)|];
    try done; simpl; eauto 10 with nopanic.
Qed.

Lemma parse_dynamic_relocations_no_panic elf_addr p dyn :
  length dyn = DT_NUM -> parse_dynamic_relocations elf_addr p dyn <> Panic.
Proof.
  intros Hlen. unfold parse_dynamic_relocations, program_header_for_vaddr.
  pose proof (dyn_get_Some dyn DT_REL Hlen ltac:(done)).
  pose proof (dyn_get_Some dyn DT_RELENT Hlen ltac:(done)).
  pose proof (dyn_get_Some dyn DT_RELSZ Hlen ltac:(done)).
  eauto 20 with nopanic.
Qed.

Lemma parse_dynamic_symbol_table_no_panic elf_addr p dyn :
  length dyn = DT_NUM -> parse_dynamic_symbol_table elf_addr p dyn <> Panic.
Proof.
  intros Hlen. unfold parse_dynamic_symbol_table, get_symbol_table_of_section.
  pose proof (dyn_get_Some dyn DT_SYMTAB Hlen ltac:(done)). eauto 20 with nopanic.
Qed.

Lemma parse_dynamic_no_panic elf_addr bytes p :
  is_bytes bytes -> headers_valid elf_addr bytes p -> length (dynamic_table p) = DT_NUM ->
  parse_dynamic elf_addr p <> Panic.
Proof.
  intros Hb [Hpb _ _ _ _ _ _ _ _ _ Hph Hsh _] Hlen. unfold parse_dynamic. rewrite <- Hpb in Hb.
  apply bind_no_panic; [apply find_dynamic_table_no_panic|]. intros [t|] Ht; [|done].
  apply find_dynamic_table_ok in Ht; [|done..].
  pose proof (dynamic_source_typed _ _ Hb _ Ht) as Htt.
  apply bind_no_panic.
  - apply expand_dynamic_no_panic; [done|].
    eapply Forall_impl; [exact Htt|]. unfold dyn_typed, is_u. lia.
  - intros dyn Hd. apply expand_dynamic_length in Hd. rewrite Hlen in Hd.
    eauto 10 using parse_dynamic_relocations_no_panic, parse_dynamic_symbol_table_no_panic
      with nopanic.
Qed.

Lemma parse_headers_no_panic elf_addr bytes : parse_headers elf_addr bytes <> Panic.
Proof.
  unfold parse_headers, parse_file_header, parse_program_header_table, parse_section_header_table.
  repeat (first [apply bind_no_panic; [|intros ? _]
                | progress case_match | discriminate | solve [eauto 2 with nopanic]]).
Qed.

(** The guarantees of a successful parse. *)
Lemma parse_valid elf_addr bytes p :
  is_bytes bytes -> parse elf_addr bytes = Ok p ->
  headers_valid elf_addr bytes p /\ layout_valid p /\ (exists names, names_valid p names) /\
  dynamic_valid elf_addr p.
Proof.
  intros Hb H.
  unfold parse in H. apply result_bind_ok in H as (p0 & H0 & H).
  apply result_bind_ok in H as (p1 & H1 & H2).
  apply (parse_headers_ok _ _ Hb) in H0 as (Hh & Hl & Hn & Hs1 & Hs2 & Hdt & Hrt & Hst & Hs3).
  apply (parse_sections_ok bytes) in H1 as (Hf1 & Hd & Hr & Hs & names' & Hnv); [|apply Hh|done..].
  apply (headers_valid_frame _ _ _ _ Hf1) in Hh. apply (layout_valid_frame _ _ Hf1) in Hl.
  apply (parse_dynamic_ok _ _ Hb _ _ Hh) in H2 as (Hf2 & Hdv & Hnv'); [|congruence..].
  eauto 10 using headers_valid_frame, layout_valid_frame.
Qed.

(** Sections that lie one after the other do not overlap. *)
Lemma sections_disjoint p i j a b :
  layout_valid p -> filter has_bytes (section_header_table p) !! i = Some a ->
  filter has_bytes (section_header_table p) !! j = Some b -> i <> j ->
  disjoint_ranges (shdr_range a) (shdr_range b).
Proof.
  intros [_ [_ Hs]] Ha Hb Hne. unfold disjoint_ranges. simpl.
  destruct (decide (i < j)%nat).
  - left. by apply (sorted_lookup _ _ i j _ _ Hs Ha Hb).
  - right. apply (sorted_lookup _ _ j i _ _ Hs Hb Ha). lia.
Qed.

Lemma parse_no_panic elf_addr bytes : is_bytes bytes -> parse elf_addr bytes <> Panic.
Proof.
  intros Hb. unfold parse. apply bind_no_panic; [apply parse_headers_no_panic|]. intros p0 H0.
  apply (parse_headers_ok _ _ Hb) in H0 as (Hh & _ & Hn & Hs1 & Hs2 & Hdt & _ & _ & Hs3).
  apply bind_no_panic; [unfold parse_sections; eauto with nopanic|]. intros p1 H1.
  apply (parse_sections_ok bytes) in H1 as (Hf & Hd & _); [|apply Hh|done..].
  apply (parse_dynamic_no_panic _ bytes); [done|by apply (headers_valid_frame _ _ _ _ Hf)|].
  by rewrite Hd, Hdt, length_replicate.
Qed.

(** C11: The parser never panics, and what a successful parse guarantees. The file header and the two
    header tables are the values stored in the file, disjoint and aligned;
    loadable segments and sections with bytes end inside the file, sections
    avoid the headers and ascend, so no two of them overlap; every section has a name and
    the symbol and string sections are the only ones of their names; the
    dynamic table holds the last value of each tag, and the relocations and
    dynamic symbols are the values stored where the dynamic table says. *)
Theorem parse_sound elf_addr bytes :
  is_bytes bytes ->
  parse elf_addr bytes <> Panic /\ forall p, parse elf_addr bytes = Ok p ->
  headers_valid elf_addr bytes p /\ layout_valid p /\ (exists names, names_valid p names) /\
  dynamic_valid elf_addr p /\
  forall i j a b, filter has_bytes (section_header_table p) !! i = Some a ->
    filter has_bytes (section_header_table p) !! j = Some b -> i <> j ->
    disjoint_ranges (shdr_range a) (shdr_range b).
Proof.
  intros Hb. split; [by apply parse_no_panic|]. intros p H. destruct (parse_valid _ _ _ Hb H) as (Hh & Hl & Hn & Hd).
  split_and!; try done. intros. by eapply sections_disjoint.
Qed.

(** The strings of a string table. [get_string_in_section] returns [s]
    exactly when the section is a string table, the sums do not overflow and
    the file holds [s] followed by a NUL byte at the offset, the terminator
    inside the section and within the maximum length; [s] has no NUL byte and
    ends inside the section. It never panics. *)
Theorem get_string_in_section_spec bytes h off max :
  get_string_in_section bytes h off max <> Panic /\
  forall s, get_string_in_section bytes h off max = Ok s <->
    sh_type h = SHT_STRTAB /\ sh_offset h + off <= u64_max /\
    sh_offset h + sh_size h <= u64_max /\ sh_offset h + off + max <= u64_max /\
    string_at bytes (sh_offset h + off)
      (Z.min (sh_offset h + sh_size h) (sh_offset h + off + max)) s /\
    Z.of_nat (length s) < max /\ off + Z.of_nat (length s) < sh_size h.
Proof.
  split; [apply get_string_no_panic|]. intros s. rewrite get_string_ok. split.
  - intros (? & ? & ? & ? & Hs). pose proof (string_at_length _ _ _ _ Hs). split_and!; try done; lia.
  - intros (? & ? & ? & ? & ? & _). done.
Qed.
