(* ===== verification/Text.v ===== *)
(** * Text: what the loader uses of [str] and [String]

    A [String] is its UTF-8 bytes.  [String::from_utf8_lossy] replaces every
    maximal invalid prefix of a code point by U+FFFD. *)

From Stdlib Require Import Ascii String.
From stdpp Require Import strings pretty.
From S2P Require Import Prelude.

Definition bytes_of_string (s : string) : list byte :=
  (fun c => Z.of_N (N_of_ascii c)) <$> String.list_ascii_of_string s.
Definition string_of_bytes (l : list byte) : string :=
  String.string_of_list_ascii ((fun b => ascii_of_N (Z.to_N b)) <$> l).

(** [format!("{n}")] for an unsigned integer. *)
Definition decimal (n : Z) : string := pretty (Z.to_N n).

(** [format!("{n}")] for a signed integer. *)
Definition signed_decimal (n : Z) : string :=
  if n <? 0 then String "-"%char (decimal (- n)) else decimal n.

(** [format!("{n:x}")] for an unsigned integer of at most 64 bits. *)
Definition hex_digit (n : Z) : ascii :=
  ascii_of_N (Z.to_N (if n <? 10 then 48 + n else 87 + n)).
Fixpoint hex_digits (fuel : nat) (n : Z) (acc : string) : string :=
  match fuel with
  | O => acc
  | S fuel =>
      let acc := String (hex_digit (n mod 16)) acc in
      if n <? 16 then acc else hex_digits fuel (n / 16) acc
  end.
Definition hex (n : Z) : string := hex_digits 16 n EmptyString.

(** ** UTF-8 *)
Definition between (lo hi b : Z) : bool := (lo <=? b) && (b <=? hi).
Definition continuation (b : Z) : bool := between 0x80 0xbf b.

(** The second bytes a three- or four-byte sequence may have. *)
Definition second_of_three (b0 b1 : Z) : bool :=
  if b0 =? 0xe0 then between 0xa0 0xbf b1
  else if b0 =? 0xed then between 0x80 0x9f b1
  else continuation b1.
Definition second_of_four (b0 b1 : Z) : bool :=
  if b0 =? 0xf0 then between 0x90 0xbf b1
  else if b0 =? 0xf4 then between 0x80 0x8f b1
  else continuation b1.

(** How many of the bytes [l] satisfy the tests, one after the other. *)
Fixpoint matching (tests : list (Z -> bool)) (l : list byte) : nat :=
  match tests, l with
  | t :: tests, b :: l => if t b then S (matching tests l) else 0
  | _, _ => 0
  end.

(** The bytes the next code point takes, and whether it is complete. *)
Definition utf8_step (b0 : byte) (rest : list byte) : nat * bool :=
  let step tests := let n := matching tests rest in (S n, Nat.eqb n (length tests)) in
  if b0 <? 0x80 then (1%nat, true)
  else if between 0xc2 0xdf b0 then step [continuation]
  else if between 0xe0 0xef b0 then step [second_of_three b0; continuation]
  else if between 0xf0 0xf4 b0 then step [second_of_four b0; continuation; continuation]
  else (1%nat, false).

Definition replacement_character : list byte := [0xef; 0xbf; 0xbd].

Fixpoint lossy (fuel : nat) (l : list byte) : list byte :=
  match fuel, l with
  | S fuel, b0 :: rest =>
      let (n, valid) := utf8_step b0 rest in
      (if valid then take n l else replacement_character) ++ lossy fuel (drop n l)
  | _, _ => []
  end.
(** Every step takes at least one byte. *)
Definition from_utf8_lossy (l : list byte) : string := string_of_bytes (lossy (length l) l).

Fixpoint utf8_valid (fuel : nat) (l : list byte) : bool :=
  match fuel, l with
  | S fuel, b0 :: rest => let (n, valid) := utf8_step b0 rest in valid && utf8_valid fuel (drop n l)
  | _, _ => true
  end.
(** [str::from_utf8(l).unwrap_or(default)] *)
Definition from_utf8_or (l : list byte) (default : string) : string :=
  if utf8_valid (length l) l then string_of_bytes l else default.

Lemma append_assoc (a b c : string) : String.append (String.append a b) c = String.append a (String.append b c).
Proof. induction a as [|x a IH]; [done|exact (f_equal (String x) IH)]. Qed.
Lemma append_nil_r (a : string) : String.append a EmptyString = a.
Proof. induction a as [|x a IH]; [done|exact (f_equal (String x) IH)]. Qed.
