(* ===== verification/Elf.v ===== *)
(** * The ELF loader: [src/casestudy/sbpf/src/elf.rs]

    [Executable::load] and both loaders behind it, relocation, read-only
    sections and the accessors.  [Executable] and its text accessor are in
    [Vm.v].  The file is given as its bytes and the address it lies at; copies
    are made by the allocator of [AlignedMemory.v]. *)

From stdpp Require Import gmap strings.
From S2P Require Import Prelude Ebpf Program Verifier Error MemoryRegion.
From S2P Require Import AlignedMemory ElfParser Text Vm.

(** ** Constants *)
Definition ELFOSABI_NONE : Z := 0.
Definition EM_BPF : Z := 247.
Definition EM_SBPF : Z := 263.
Definition ET_DYN : Z := 3.
Definition PF_X : Z := 0x1.
Definition PF_R : Z := 0x4.
Definition R_X86_64_NONE : Z := 0.
Definition R_X86_64_64 : Z := 1.
Definition R_X86_64_RELATIVE : Z := 8.
Definition R_X86_64_32 : Z := 10.
Definition BYTE_OFFSET_IMMEDIATE : Z := 4.
Definition BYTE_LENGTH_IMMEDIATE : Z := 4.

Definition name_text : list byte := bytes_of_string ".text".
Definition name_bss : list byte := bytes_of_string ".bss".
Definition name_data : list byte := bytes_of_string ".data".
Definition name_data_rel : list byte := bytes_of_string ".data.rel".
Definition name_rodata : list byte := bytes_of_string ".rodata".
Definition name_data_rel_ro : list byte := bytes_of_string ".data.rel.ro".
Definition name_eh_frame : list byte := bytes_of_string ".eh_frame".

(** [byteorder::LittleEndian] on [u32] and [u64]; a short slice panics. *)
Class ByteOrderUnsigned := {
  read_u32 : list byte -> option Z;
  write_u32 : list byte -> Z -> option (list byte);
  write_u64 : list byte -> Z -> option (list byte)
}.
(** What the crate documents about them. *)
Class ByteOrderUnsignedLaws `{ByteOrderUnsigned} := {
  read_u32_spec v : (4 <= length v)%nat -> read_u32 v = Some (le_val (take 4 v));
  write_u32_spec v x : (4 <= length v)%nat -> is_u 32 x ->
    write_u32 v x = Some (le_bytes 4 x ++ drop 4 v);
  write_u64_spec v x : (8 <= length v)%nat -> is_u 64 x ->
    write_u64 v x = Some (le_bytes 8 x ++ drop 8 v)
}.

(** [Hasher::finish] of a 32-bit hash is a [u32]. *)
Class Murmur3Laws `{Murmur3} := { murmur3_range l : is_u 32 (murmur3_hash l) }.

(** ** Errors *)

(** [ElfParserError]'s [Display]. *)
Definition parser_error_text (e : ElfParserError) : string :=
  match e with
  | InvalidFileHeader => "invalid file header"
  | ElfParser.InvalidProgramHeader => "invalid program header"
  | InvalidSectionHeader => "invalid section header"
  | InvalidString => "invalid string"
  | StringTooLong text maximum =>
      "Section or symbol name `" +:+ from_utf8_lossy text +:+ "` is longer than `" +:+
      decimal maximum +:+ "` bytes"
  | OutOfBounds => "value out of bounds"
  | InvalidSize => "invalid size"
  | Overlap => "values overlap"
  | SectionNotInOrder => "sections not in ascending order"
  | NoSectionNameStringTable => "no section name string table found"
  | InvalidDynamicSectionTable => "invalid dynamic section table"
  | InvalidRelocationTable => "invalid relocation table"
  | InvalidAlignment => "invalid alignment"
  | NoStringTable => "no string table"
  | NoDynamicStringTable => "no dynamic string table"
  end.

(** [impl From<ElfParserError> for ElfError] *)
Definition from_parser_error (e : ElfParserError) : ElfError :=
  match e with
  | ElfParser.InvalidProgramHeader => Program.InvalidProgramHeader
  | OutOfBounds => ValueOutOfBounds
  | _ => FailedToParse (parser_error_text e)
  end.

Abbreviation loaded := (result ElfError).

(** [r?] on the parser's errors, [r.ok()] and [r.unwrap()]. *)
Definition lift {A} (r : parsed A) : loaded A :=
  match r with Ok a => Ok a | Err e => Err (from_parser_error e) | Panic => Panic end.
Definition result_ok {E F A} (r : result E A) : result F (option A) :=
  match r with Ok a => Ok (Some a) | Err _ => Ok None | Panic => Panic end.
Definition unwrapped {E F A} (r : result E A) : result F A :=
  match r with Ok a => Ok a | _ => Panic end.

(** ** Sections *)
Fixpoint get_section_in (elf : Elf64) (name : list byte) (l : list Elf64Shdr) : loaded Elf64Shdr :=
  match l with
  | [] => Err (SectionNotFound (from_utf8_or name "UTF-8 error"))
  | h :: l =>
      n ← lift (section_name elf (sh_name h));
      if bool_decide (n = name) then Ok h else get_section_in elf name l
  end.
Definition get_section (elf : Elf64) (name : list byte) : loaded Elf64Shdr :=
  get_section_in elf name (section_header_table elf).

Definition starts_with (l prefix : list byte) : bool := bool_decide (take (length prefix) l = prefix).

(** [file_range().unwrap_or_default()] *)
Definition shdr_range_or_default (h : Elf64Shdr) : range := default (0, 0) (shdr_file_range h).
Definition phdr_range_or_default (h : Elf64Phdr) : range := default (0, 0) (phdr_file_range h).

(** ** [Executable::validate] *)
Fixpoint count_text_sections (elf : Elf64) (count : Z) (l : list Elf64Shdr) : loaded Z :=
  match l with
  | [] => Ok count
  | h :: l =>
      n ← result_ok (section_name elf (sh_name h));
      count_text_sections elf
        (if bool_decide (n = Some name_text) then saturating_add_u64 count 1 else count) l
  end.

Fixpoint check_writable_sections (elf : Elf64) (l : list Elf64Shdr) : loaded unit :=
  match l with
  | [] => Ok tt
  | h :: l =>
      n ← result_ok (section_name elf (sh_name h));
      match n with
      | Some name =>
          if starts_with name name_bss
             || (is_writable h && (starts_with name name_data && negb (starts_with name name_data_rel)))
          then Err (WritableSectionNotSupported (from_utf8_lossy name))
          else check_writable_sections elf l
      | None => check_writable_sections elf l
      end
  end.

Fixpoint check_section_bounds (bytes : list byte) (l : list Elf64Shdr) : loaded unit :=
  match l with
  | [] => Ok tt
  | h :: l =>
      fin ← ok_or (checked_add_u64 (sh_offset h) (sh_size h)) ValueOutOfBounds;
      _ ← ok_or (slice_get bytes (sh_offset h, fin)) ValueOutOfBounds;
      check_section_bounds bytes l
  end.

Definition validate (elf : Elf64) (bytes : list byte) : loaded unit :=
  let header := file_header elf in
  if negb (ei_class (e_ident header) =? ELFCLASS64) then Err WrongClass else
  if negb (ei_data (e_ident header) =? ELFDATA2LSB) then Err WrongEndianess else
  if negb (ei_osabi (e_ident header) =? ELFOSABI_NONE) then Err WrongAbi else
  if negb (e_machine header =? EM_BPF) && negb (e_machine header =? EM_SBPF)
  then Err WrongMachine else
  if negb (e_type header =? ET_DYN) then Err WrongType else
  num_text_sections ← count_text_sections elf 0 (section_header_table elf);
  if negb (num_text_sections =? 1) then Err NotOneTextSection else
  _ ← check_writable_sections elf (section_header_table elf);
  _ ← check_section_bounds bytes (section_header_table elf);
  text_section ← get_section elf name_text;
  if negb (range_contains (shdr_vm_range text_section) (e_entry header))
  then Err EntrypointOutOfBounds else Ok tt.

(** ** [Executable::parse_ro_sections] *)
Record RoState := mkRo {
  lowest_addr : Z;
  highest_addr : Z;
  ro_fill_length : Z;
  invalid_offsets : bool;
  first_ro_section : Z;
  last_ro_section : Z;
  n_ro_sections : Z;
  ro_slices : list (Z * list byte)
}.
Definition RoState_init : RoState := mkRo u64_max 0 0 false 0 0 0 [].

Definition is_ro_name (name : option (list byte)) : bool :=
  match name with
  | Some n => bool_decide (n = name_text) || bool_decide (n = name_rodata)
              || bool_decide (n = name_data_rel_ro) || bool_decide (n = name_eh_frame)
  | None => false
  end.

Fixpoint ro_loop (reject_broken : bool) (bytes : list byte) (i : Z) (s : RoState)
    (l : list (option (list byte) * Elf64Shdr)) : loaded RoState :=
  match l with
  | [] => Ok s
  | (name, h) :: l =>
      if negb (is_ro_name name) then ro_loop reject_broken bytes (i + 1) s l else
      let first := if n_ro_sections s =? 0 then i else first_ro_section s in
      let n := saturating_add_u64 (n_ro_sections s) 1 in
      let section_addr := sh_addr h in
      let invalid := invalid_offsets s || negb (section_addr =? sh_offset h) in
      let vaddr_end := saturating_add_u64 section_addr MM_REGION_SIZE in
      if (reject_broken && invalid) || (MM_STACK_START <? vaddr_end) then Err ValueOutOfBounds else
      section_data ← ok_or (slice_get bytes (shdr_range_or_default h)) ValueOutOfBounds;
      let len := Z.of_nat (length section_data) in
      ro_loop reject_broken bytes (i + 1)
        (mkRo (Z.min (lowest_addr s) section_addr)
           (Z.max (highest_addr s) (saturating_add_u64 section_addr len))
           (saturating_add_u64 (ro_fill_length s) len) invalid first i n
           (ro_slices s ++ [(section_addr, section_data)])) l
  end.

(** Copies the slices into the zeroed buffer; a slice outside it panics. *)
Fixpoint copy_ro_slices (buf : list byte) (lowest : Z) (l : list (Z * list byte)) : loaded (list byte) :=
  match l with
  | [] => Ok buf
  | (section_addr, slice) :: l =>
      let start := saturating_sub_u64 section_addr lowest in
      let fin := saturating_add_u64 start (Z.of_nat (length slice)) in
      dst ← or_panic (slice_get buf (start, fin));
      if negb (Nat.eqb (length dst) (length slice)) then Panic else
      copy_ro_slices (splice buf (Z.to_nat start) slice) lowest l
  end.

(** Addresses below the region size are moved into the first region. *)
Definition ro_addr_offset (lowest : Z) : Z :=
  if MM_REGION_SIZE <=? lowest then lowest else saturating_add_u64 lowest MM_REGION_SIZE.

Definition parse_ro_sections (config : Config) (sections : list (option (list byte) * Elf64Shdr))
    (bytes : list byte) : loaded Section_ :=
  s ← ro_loop (reject_broken_elfs config) bytes 0 RoState_init sections;
  if reject_broken_elfs config
     && (highest_addr s <? saturating_add_u64 (lowest_addr s) (ro_fill_length s))
  then Err ValueOutOfBounds else
  let can_borrow := negb (invalid_offsets s)
    && (saturating_sub_u64 (saturating_add_u64 (last_ro_section s) 1) (first_ro_section s)
        =? n_ro_sections s) in
  if optimize_rodata config && can_borrow
  then Ok (Borrowed (ro_addr_offset (lowest_addr s)) (lowest_addr s, highest_addr s))
  else
    let '(lowest, buf_len) :=
      if optimize_rodata config
      then (lowest_addr s, saturating_sub_u64 (highest_addr s) (lowest_addr s))
      else (0, highest_addr s) in
    if Z.of_nat (length bytes) <? buf_len then Err ValueOutOfBounds else
    buf ← copy_ro_slices (replicate (Z.to_nat buf_len) 0) lowest (ro_slices s);
    Ok (Owned (ro_addr_offset lowest) buf).

(** ** [Executable::relocate] *)
Inductive BpfRelocationType := R_Bpf_None | R_Bpf_64_64 | R_Bpf_64_Relative | R_Bpf_64_32.

Definition from_x86_relocation_type (from : Z) : option BpfRelocationType :=
  if from =? R_X86_64_NONE then Some R_Bpf_None
  else if from =? R_X86_64_64 then Some R_Bpf_64_64
  else if from =? R_X86_64_RELATIVE then Some R_Bpf_64_Relative
  else if from =? R_X86_64_32 then Some R_Bpf_64_32
  else None.

Section Relocate.
Context {V : Type} `{Profile, ByteOrder, ByteOrderUnsigned, Murmur3}.
Context (elf_addr : Z) (loader : BuiltinProgram V) (elf : Elf64).

(** [LittleEndian::read_u32] and [write_u32] of the immediate at [o], and
    [write_u64]. *)
Definition read_imm (bytes : list byte) (o : Z) : loaded Z :=
  s ← ok_or (slice_get bytes (o, saturating_add_u64 o BYTE_LENGTH_IMMEDIATE)) ValueOutOfBounds;
  or_panic (read_u32 s).
Definition write_imm (bytes : list byte) (o v : Z) : loaded (list byte) :=
  s ← ok_or (slice_get bytes (o, saturating_add_u64 o BYTE_LENGTH_IMMEDIATE)) ValueOutOfBounds;
  s' ← or_panic (write_u32 s v);
  Ok (splice bytes (Z.to_nat o) s').
Definition write_addr (bytes : list byte) (o v : Z) : loaded (list byte) :=
  s ← ok_or (slice_get bytes (o, saturating_add_u64 o 8)) ValueOutOfBounds;
  s' ← or_panic (write_u64 s v);
  Ok (splice bytes (Z.to_nat o) s').

(** The halves of a relocated address. *)
Definition low_half (a : Z) : Z := as_u 32 (Z.land a 0xffffffff).
Definition high_half (a : Z) : Z := as_u 32 (Z.shiftr a 32).

(** [format!("function_{target_pc}")] *)
Definition function_name (target_pc : Z) : list byte :=
  bytes_of_string ("function_" +:+ decimal target_pc).

(** The loop that turns program counter relative calls into hashed calls: [n]
    instructions from [i] on are left. *)
Fixpoint relocate_calls (config : Config) (instruction_count : Z) (n : nat) (i : Z)
    (r : FunctionRegistry Z) (text : list byte) : loaded (FunctionRegistry Z * list byte) :=
  match n with
  | O => Ok (r, text)
  | S n =>
      insn ← get_insn text i;
      if (opc insn =? CALL_IMM) && negb (imm insn =? -1) then
        let target_pc := saturating_i64 (saturating_i64 (i + 1) + imm insn) in
        if (target_pc <? 0) || (instruction_count <=? target_pc)
        then Err (RelativeJumpOutOfBounds i) else
        let name := if enable_symbol_and_section_labels config
                    then function_name target_pc else [] in
        '(r, key) ← register_function_hashed_legacy id r loader true name target_pc;
        text ← write_imm text (saturating_add_u64 (saturating_mul_u64 i INSN_SIZE) 4) key;
        relocate_calls config instruction_count n (i + 1) r text
      else relocate_calls config instruction_count n (i + 1) r text
  end.

Record RelocState := mkReloc {
  rs_registry : FunctionRegistry Z;
  rs_bytes : list byte;
  rs_syscall_cache : gmap Z Z
}.

(** [table.get(relocation.r_sym()).cloned().ok_or(UnknownSymbol)] *)
Definition relocation_symbol (rel : Elf64Rel) : loaded Elf64Sym :=
  ok_or (t ← dynamic_symbol_table elf; get t (r_sym rel)) (UnknownSymbol (r_sym rel)).

Definition relocate_64_64 (rel : Elf64Rel) (bytes : list byte) : loaded (list byte) :=
  let imm_offset := saturating_add_u64 (r_offset rel) BYTE_OFFSET_IMMEDIATE in
  refd_addr ← read_imm bytes imm_offset;
  symbol ← relocation_symbol rel;
  let addr := saturating_add_u64 (st_value symbol) refd_addr in
  let addr := if addr <? MM_REGION_SIZE then saturating_add_u64 MM_REGION_SIZE addr else addr in
  let imm_high_offset := saturating_add_u64 imm_offset INSN_SIZE in
  bytes ← write_imm bytes imm_offset (low_half addr);
  write_imm bytes imm_high_offset (high_half addr).

Definition relocate_64_relative (text_section : Elf64Shdr) (rel : Elf64Rel) (bytes : list byte)
    : loaded (list byte) :=
  let imm_offset := saturating_add_u64 (r_offset rel) BYTE_OFFSET_IMMEDIATE in
  if range_contains (shdr_range_or_default text_section) (r_offset rel) then
    let imm_high_offset :=
      saturating_add_u64 (saturating_add_u64 (r_offset rel) INSN_SIZE) BYTE_OFFSET_IMMEDIATE in
    va_low ← read_imm bytes imm_offset;
    va_high ← read_imm bytes imm_high_offset;
    let refd_addr := Z.lor (as_u 64 (Z.shiftl va_high 32)) va_low in
    if refd_addr =? 0 then Err (InvalidVirtualAddress refd_addr) else
    let refd_addr := if refd_addr <? MM_REGION_SIZE
                     then saturating_add_u64 MM_REGION_SIZE refd_addr else refd_addr in
    bytes ← write_imm bytes imm_offset (low_half refd_addr);
    write_imm bytes imm_high_offset (high_half refd_addr)
  else
    refd_addr ← read_imm bytes imm_offset;
    write_addr bytes (r_offset rel) (saturating_add_u64 MM_REGION_SIZE refd_addr).

(** The instruction index of an address of the text section. *)
Definition symbol_target_pc (text_section : Elf64Shdr) (value : Z) : Z :=
  saturating_sub_u64 value (sh_addr text_section) / INSN_SIZE.

Definition relocate_64_32 (config : Config) (text_section : Elf64Shdr) (rel : Elf64Rel)
    (s : RelocState) : loaded RelocState :=
  let imm_offset := saturating_add_u64 (r_offset rel) BYTE_OFFSET_IMMEDIATE in
  symbol ← relocation_symbol rel;
  name ← match dynamic_symbol_name elf (st_name symbol) with
         | Ok n => Ok n
         | Err _ => Err (UnknownSymbol (st_name symbol))
         | Panic => Panic
         end;
  '(r, cache, key) ←
    (if is_function symbol && negb (st_value symbol =? 0) then
       if negb (range_contains (shdr_vm_range text_section) (st_value symbol))
       then Err ValueOutOfBounds else
       '(r, key) ← register_function_hashed_legacy id (rs_registry s) loader true name
                     (symbol_target_pc text_section (st_value symbol));
       Ok (r, rs_syscall_cache s, key)
     else
       let hash := match rs_syscall_cache s !! st_name symbol with
                   | Some h => h
                   | None => hash_symbol_name name
                   end in
       let cache := <[st_name symbol := hash]> (rs_syscall_cache s) in
       if reject_broken_elfs config
          && bool_decide (lookup_by_key (sparse_registry loader) hash = None)
       then Err (UnresolvedSymbol (from_utf8_lossy name) (r_offset rel / INSN_SIZE) (r_offset rel))
       else Ok (rs_registry s, cache, hash));
  bytes ← write_imm (rs_bytes s) imm_offset key;
  Ok (mkReloc r bytes cache).

Definition relocate_one (config : Config) (text_section : Elf64Shdr) (rel : Elf64Rel)
    (s : RelocState) : loaded RelocState :=
  match from_x86_relocation_type (r_type rel) with
  | Some R_Bpf_64_64 =>
      b ← relocate_64_64 rel (rs_bytes s); Ok (mkReloc (rs_registry s) b (rs_syscall_cache s))
  | Some R_Bpf_64_Relative =>
      b ← relocate_64_relative text_section rel (rs_bytes s);
      Ok (mkReloc (rs_registry s) b (rs_syscall_cache s))
  | Some R_Bpf_64_32 => relocate_64_32 config text_section rel s
  | _ => Err (UnknownRelocation (r_type rel))
  end.

Fixpoint relocate_all (config : Config) (text_section : Elf64Shdr) (l : list Elf64Rel)
    (s : RelocState) : loaded RelocState :=
  match l with
  | [] => Ok s
  | rel :: l => s ← relocate_one config text_section rel s; relocate_all config text_section l s
  end.

(** Registers the functions of the symbol table, for labels. *)
Fixpoint register_symbols (text_section : Elf64Shdr) (l : list Elf64Sym) (r : FunctionRegistry Z)
    : loaded (FunctionRegistry Z) :=
  match l with
  | [] => Ok r
  | symbol :: l =>
      if negb (Z.land (st_info symbol) 0xef =? 0x02) then register_symbols text_section l r else
      if negb (range_contains (shdr_vm_range text_section) (st_value symbol))
      then Err ValueOutOfBounds else
      name ← match symbol_name elf (st_name symbol) with
             | Ok n => Ok n
             | Err _ => Err (UnknownSymbol (st_name symbol))
             | Panic => Panic
             end;
      '(r, _) ← register_function_hashed_legacy id r loader true name
                  (symbol_target_pc text_section (st_value symbol));
      register_symbols text_section l r
  end.

Definition relocate (r : FunctionRegistry Z) (bytes : list byte)
    : loaded (FunctionRegistry Z * list byte) :=
  text_section ← get_section elf name_text;
  config ← get_config loader;
  let text_range := shdr_range_or_default text_section in
  text_bytes ← ok_or (slice_get bytes text_range) ValueOutOfBounds;
  let instruction_count := Z.of_nat (length text_bytes) / INSN_SIZE in
  '(r, text_bytes) ← relocate_calls config instruction_count (Z.to_nat instruction_count) 0 r text_bytes;
  let bytes := splice bytes (Z.to_nat text_range.1) text_bytes in
  s ← relocate_all config text_section (default [] (dynamic_relocations_table elf)) (mkReloc r bytes ∅);
  r ← (if enable_symbol_and_section_labels config then
         symbols ← result_ok (symbol_table elf_addr elf);
         register_symbols text_section (default [] (mjoin symbols)) (rs_registry s)
       else Ok (rs_registry s));
  Ok (r, rs_bytes s).
End Relocate.

(** ** Loading *)

(** [get_sbpf_version]: [e_flags] is at offset 48. *)
Definition get_sbpf_version `{ByteOrderUnsigned} (bytes : list byte) : parsed SBPFVersion :=
  s ← ok_or (slice_get bytes (48, 52)) OutOfBounds;
  e_flags ← or_panic (read_u32 s);
  Ok (if e_flags =? 0 then V0 else if e_flags =? 1 then V1 else if e_flags =? 2 then V2
      else if e_flags =? 3 then V3 else if e_flags =? 4 then V4 else Reserved).

Definition EXPECTED_PROGRAM_HEADERS : list (Z * Z) := [(PF_R, MM_RODATA_START); (PF_X, MM_BYTECODE_START)].

Definition strict_header_ok (h : Elf64Ehdr) (ph_end len : Z) : bool :=
  bool_decide (ei_mag (e_ident h) = ELFMAG) && (ei_class (e_ident h) =? ELFCLASS64)
  && (ei_data (e_ident h) =? ELFDATA2LSB) && (ei_version (e_ident h) =? as_u 8 EV_CURRENT)
  && (ei_osabi (e_ident h) =? ELFOSABI_NONE) && (ei_abiversion (e_ident h) =? 0)
  && bool_decide (ei_pad (e_ident h) = replicate 7 0)
  && (e_machine h =? EM_BPF) && (e_version h =? EV_CURRENT)
  && (e_phoff h =? size_of (T := Elf64Ehdr)) && (e_ehsize h =? as_u 16 (size_of (T := Elf64Ehdr)))
  && (e_phentsize h =? as_u 16 (size_of (T := Elf64Phdr))) && negb (e_phnum h =? 0)
  && (ph_end <=? len).

(** The checks of one program header against the flags and the address that
    are expected of it. *)
Definition strict_phdr_ok (len expected_offset : Z) (h : Elf64Phdr) (flags vaddr : Z) : bool :=
  (p_type h =? PT_LOAD) && (p_flags h =? flags) && (p_offset h =? expected_offset)
  && (p_offset h <? len) && (p_offset h mod INSN_SIZE =? 0) && (p_vaddr h =? vaddr)
  && (p_paddr h =? vaddr) && (p_filesz h =? p_memsz h)
  && (p_filesz h <=? saturating_sub_u64 len (p_offset h)) && (p_filesz h mod INSN_SIZE =? 0)
  && (p_memsz h <? MM_REGION_SIZE).

Fixpoint strict_check_phdrs (len expected_offset : Z) (l : list (Elf64Phdr * (Z * Z))) : parsed unit :=
  match l with
  | [] => Ok tt
  | (h, (flags, vaddr)) :: l =>
      if negb (strict_phdr_ok len expected_offset h flags vaddr)
      then Err ElfParser.InvalidProgramHeader
      else strict_check_phdrs len (saturating_add_u64 expected_offset (p_filesz h)) l
  end.

(** The last sections named [.strtab] and [.symtab]. *)
Fixpoint strict_find_sections (bytes : list byte) (names : Elf64Shdr) (l : list Elf64Shdr)
    (found : option Elf64Shdr * option Elf64Shdr) : parsed (option Elf64Shdr * option Elf64Shdr) :=
  match l with
  | [] => Ok found
  | h :: l =>
      name ← unwrapped (get_string_in_section bytes names (sh_name h) 64);
      strict_find_sections bytes names l
        (if bool_decide (name = name_strtab) then Some h else found.1,
         if bool_decide (name = name_symtab) then Some h else found.2)
  end.

Fixpoint strict_register_symbols (bytes : list byte) (names : Elf64Shdr) (text_vaddr : Z)
    (l : list Elf64Sym) (r : FunctionRegistry Z) : parsed (FunctionRegistry Z) :=
  match l with
  | [] => Ok r
  | symbol :: l =>
      if Z.land (st_info symbol) STT_FUNC =? 0
      then strict_register_symbols bytes names text_vaddr l r else
      let target_pc := saturating_sub_u64 (st_value symbol) text_vaddr / INSN_SIZE in
      name ← unwrapped (get_string_in_section bytes names (st_name symbol) 255);
      r ← unwrapped (register_function r (as_u 32 target_pc) name target_pc);
      strict_register_symbols bytes names text_vaddr l r
  end.

(** The labels of the strict loader. *)
Definition strict_labels (elf_addr : Z) (bytes : list byte) (fh_range : range) (h : Elf64Ehdr)
    (ph_range : range) (text_vaddr : Z) : parsed (FunctionRegistry Z) :=
  '(_, shs) ← unwrapped (parse_section_header_table elf_addr bytes fh_range h ph_range);
  names ← (if negb (e_shstrndx h =? SHN_UNDEF) then
             n ← ok_or (get shs (e_shstrndx h)) OutOfBounds; Ok (Some n)
           else Ok None);
  names ← or_panic names;
  found ← strict_find_sections bytes names shs (None, None);
  match found with
  | (Some symbol_names, Some symbol_section) =>
      symbols ← unwrapped (slice_from_section_header (T := Elf64Sym) elf_addr bytes symbol_section);
      strict_register_symbols bytes symbol_names text_vaddr symbols registry_default
  | (None, None) => Ok registry_default
  | _ => Err InvalidSectionHeader
  end.

Section Load.
Context {V : Type} `{Profile, ByteOrder, ByteOrderUnsigned, Murmur3, Allocator}.

Definition load_with_strict_parser (bytes : list byte) (loader : BuiltinProgram V)
    : parsed (Executable V) :=
  aligned_memory ← am_from_slice HOST_ALIGN bytes;
  elf_bytes ← am_as_slice aligned_memory;
  let elf_addr := av_ptr (am_mem aligned_memory) in
  let len := Z.of_nat (length elf_bytes) in
  '(fh_range, header) ← parse_file_header elf_addr elf_bytes;
  let ph_range := (size_of (T := Elf64Ehdr),
    saturating_add_u64 (saturating_mul_u64 (size_of (T := Elf64Phdr)) (e_phnum header))
      (size_of (T := Elf64Ehdr))) in
  if negb (strict_header_ok header ph_range.2 len) then Err InvalidFileHeader else
  phs ← slice_from_bytes (T := Elf64Phdr) elf_addr elf_bytes ph_range;
  first ← or_panic (get phs 0);
  let skip := negb (p_flags first =? PF_R) in
  if negb skip && (e_phnum header <? 2) then Err InvalidFileHeader else
  let expected := if skip then drop 1 EXPECTED_PROGRAM_HEADERS else EXPECTED_PROGRAM_HEADERS in
  _ ← strict_check_phdrs len ph_range.2 (zip phs expected);
  '(ro_range, bytecode_header) ←
    (if skip then Ok ((ph_range.2, ph_range.2), first)
     else second ← or_panic (get phs 1); Ok (phdr_range_or_default first, second));
  let text_section_vaddr := p_vaddr bytecode_header in
  let text_section_range := phdr_range_or_default bytecode_header in
  if negb (range_contains (phdr_vm_range bytecode_header)
             (saturating_sub_u64 (saturating_add_u64 (e_entry header) INSN_SIZE) 1))
     || negb (e_entry header mod INSN_SIZE =? 0)
  then Err InvalidFileHeader else
  let entry_pc := saturating_sub_u64 (e_entry header) (p_vaddr bytecode_header) / INSN_SIZE in
  config ← get_config loader;
  function_registry ←
    (if enable_symbol_and_section_labels config
     then strict_labels elf_addr elf_bytes fh_range header ph_range (p_vaddr bytecode_header)
     else Ok registry_default);
  Ok (mkExecutable elf_bytes Reserved (Borrowed MM_RODATA_START ro_range) text_section_vaddr
        text_section_range entry_pc function_registry loader).

(** [elf.section_name(s.sh_name).ok()] of every section. *)
Fixpoint section_names (elf : Elf64) (l : list Elf64Shdr)
    : loaded (list (option (list byte) * Elf64Shdr)) :=
  match l with
  | [] => Ok []
  | h :: l => n ← result_ok (section_name elf (sh_name h)); r ← section_names elf l; Ok ((n, h) :: r)
  end.

Definition section_offset (s : Section_) : Z :=
  match s with Owned offset _ => offset | Borrowed offset _ => offset end.

Definition load_with_lenient_parser (bytes_addr : Z) (bytes : list byte) (loader : BuiltinProgram V)
    : loaded (Executable V) :=
  aligned_memory ← am_from_slice HOST_ALIGN bytes;
  '(elf_memory, elf_addr, unrelocated) ←
    (if is_memory_aligned bytes_addr HOST_ALIGN then Ok (aligned_memory, bytes_addr, bytes)
     else copy ← am_clone HOST_ALIGN aligned_memory;
          u ← am_as_slice aligned_memory;
          Ok (copy, av_ptr (am_mem aligned_memory), u));
  elf_bytes ← am_as_slice elf_memory;
  elf ← lift (parse elf_addr unrelocated);
  config ← get_config loader;
  let header := file_header elf in
  _ ← validate elf elf_bytes;
  text_section ← get_section elf name_text;
  let text_section_vaddr := saturating_add_u64 (sh_addr text_section) MM_REGION_SIZE in
  if (reject_broken_elfs config && negb (sh_addr text_section =? sh_offset text_section))
     || (MM_STACK_START <? text_section_vaddr)
  then Err ValueOutOfBounds else
  '(function_registry, elf_bytes) ← relocate elf_addr loader elf registry_default elf_bytes;
  let offset := saturating_sub_u64 (e_entry header) (sh_addr text_section) in
  if negb (offset mod INSN_SIZE =? 0) then Err InvalidEntrypoint else
  let entry_pc := offset / INSN_SIZE in
  let function_registry :=
    (unregister_function function_registry (hash_symbol_name entrypoint_name)).1 in
  '(function_registry, _) ←
    register_function_hashed_legacy id function_registry loader true entrypoint_name entry_pc;
  sections ← section_names elf (section_header_table elf);
  ro_section ← parse_ro_sections config sections elf_bytes;
  let ro_section_vaddr := section_offset ro_section in
  _ ← (if optimize_rodata config then
         if negb (Z.shiftr ro_section_vaddr VIRTUAL_ADDRESS_BITS =? 1) then Err ValueOutOfBounds
         else Ok tt
       else debug_assert (ro_section_vaddr =? MM_REGION_SIZE));
  Ok (mkExecutable elf_bytes Reserved ro_section text_section_vaddr
        (shdr_range_or_default text_section) entry_pc function_registry loader).

Definition set_sbpf_version (v : SBPFVersion) (e : Executable V) : Executable V :=
  mkExecutable (elf_bytes e) v (ro_section e) (text_section_vaddr e) (text_section_range e)
    (entry_pc e) (function_registry e) (exec_loader e).

(** [config.enabled_sbpf_versions.contains(&v)] *)
Definition version_enabled (c : Config) (v : SBPFVersion) : bool :=
  version_geb v (enabled_sbpf_versions c).1 && version_geb (enabled_sbpf_versions c).2 v.

Definition load (bytes_addr : Z) (bytes : list byte) (loader : BuiltinProgram V)
    : loaded (Executable V) :=
  v ← lift (get_sbpf_version bytes);
  config ← get_config loader;
  if negb (version_enabled config v) then Err UnsupportedSBPFVersion else
  executable ← (if enable_stricter_elf_headers v
                then lift (load_with_strict_parser bytes loader)
                else load_with_lenient_parser bytes_addr bytes loader);
  Ok (set_sbpf_version v executable).

(** ** Accessors *)
Definition get_ro_section {E} (e : Executable V) : result E (list byte) :=
  match ro_section e with
  | Owned _ data => Ok data
  | Borrowed _ r => or_panic (slice_get (elf_bytes e) r)
  end.

(** [get_ro_region] for an owned buffer at [owned_addr] and the file's bytes at
    [elf_addr]. *)
Definition get_ro_region {E} (owned_addr elf_addr : Z) (e : Executable V) : result E MemoryRegion :=
  match ro_section e with
  | Owned offset data => region_new owned_addr (Z.of_nat (length data)) offset false
  | Borrowed offset r =>
      data ← or_panic (slice_get (elf_bytes e) r);
      region_new (elf_addr + r.1) (Z.of_nat (length data)) offset false
  end.

(** [Executable::verify] *)
Definition executable_verify (e : Executable V) : result EbpfError unit :=
  '(_, text) ← get_text_bytes e;
  _ ← get_config (E := EbpfError) (exec_loader e);
  match verify text (sbpf_version e) with
  | Ok _ => Ok tt
  | Err err => Err (VerifierErr err)
  | Panic => Panic
  end.
End Load.
