(* ===== verification/ElfFacts.v ===== *)
(** * The ELF loader is correct

    Relocation and both loaders do not panic, what a loaded executable
    guarantees, and that a loaded and verified program is one the interpreter
    runs to its end. *)

From stdpp Require Import gmap strings.
From S2P Require Import Prelude Ebpf Program Verifier Error MemoryRegion.
From S2P Require Import AlignedMemory ElfParser ElfParserFacts Text Vm Elf.

(** Bytes of a file that fits the address space. *)
Record file_ok (bytes : list byte) : Prop := {
  file_is_bytes : is_bytes bytes;
  file_length : Z.of_nat (length bytes) <= i64_max
}.

Lemma file_ok_splice bytes i new :
  file_ok bytes -> is_bytes new -> (i + length new <= length bytes)%nat -> file_ok (splice bytes i new).
Proof.
  intros [Hb Hl] Hn Hi. split; [|by rewrite length_splice].
  unfold splice, is_bytes in *. rewrite !Forall_app. auto using Forall_take, Forall_drop.
Qed.

Lemma slice_get_bytes bytes r s : is_bytes bytes -> slice_get bytes r = Some s -> is_bytes s.
Proof. intros Hb [_ ->]%slice_get_Some. auto with elf. Qed.

Lemma length_file_bytes bytes o n :
  0 <= o -> 0 <= n -> o + n <= Z.of_nat (length bytes) ->
  Z.of_nat (length (file_bytes bytes o n)) = n.
Proof. intros. unfold file_bytes. rewrite length_take, length_drop. lia. Qed.

(** [bytes.get(o..o.saturating_add(n))] in a file. *)
Lemma slice_get_at bytes o n :
  file_ok bytes -> 0 <= o -> 0 <= n ->
  slice_get bytes (o, saturating_add_u64 o n) =
  if o + n <=? Z.of_nat (length bytes) then Some (file_bytes bytes o n) else None.
Proof.
  intros [_ Hl] Ho Hn. unfold slice_get, saturating_add_u64, file_bytes. simpl.
  unfold i64_max, u64_max in *.
  destruct (Z.leb_spec (o + n) (Z.of_nat (length bytes))).
  - rewrite Z.min_l by lia. replace (o + n - o) with n by lia.
    by rewrite !(proj2 (Z.leb_le _ _)) by lia.
  - rewrite (proj2 (Z.leb_gt (Z.min _ _) _)) by lia. by rewrite andb_false_r.
Qed.

Section Words.
Context {B : ByteOrderUnsigned} {BL : ByteOrderUnsignedLaws}.

Lemma read_imm_eq bytes o :
  file_ok bytes -> 0 <= o ->
  read_imm bytes o = if o + 4 <=? Z.of_nat (length bytes)
                     then Ok (int_at bytes (Z.to_nat o) 4) else Err ValueOutOfBounds.
Proof.
  intros Hf Ho. unfold read_imm. rewrite slice_get_at by (done || unfold BYTE_LENGTH_IMMEDIATE; lia).
  unfold BYTE_LENGTH_IMMEDIATE. destruct (Z.leb_spec (o + 4) (Z.of_nat (length bytes))); [|done].
  simpl. pose proof (length_file_bytes bytes o 4 ltac:(lia) ltac:(lia) ltac:(lia)).
  rewrite read_u32_spec by lia. simpl. unfold int_at, file_bytes.
  by rewrite take_take.
Qed.

Lemma write_imm_eq bytes o v :
  file_ok bytes -> 0 <= o -> is_u 32 v ->
  write_imm bytes o v = if o + 4 <=? Z.of_nat (length bytes)
                        then Ok (splice bytes (Z.to_nat o) (le_bytes 4 v)) else Err ValueOutOfBounds.
Proof.
  intros Hf Ho Hv. unfold write_imm. rewrite slice_get_at by (done || unfold BYTE_LENGTH_IMMEDIATE; lia).
  unfold BYTE_LENGTH_IMMEDIATE. destruct (Z.leb_spec (o + 4) (Z.of_nat (length bytes))); [|done].
  simpl. pose proof (length_file_bytes bytes o 4 ltac:(lia) ltac:(lia) ltac:(lia)).
  rewrite write_u32_spec by (done || lia). rewrite (drop_ge (file_bytes _ _ _)) by lia. by rewrite app_nil_r.
Qed.

Lemma write_addr_eq bytes o v :
  file_ok bytes -> 0 <= o -> is_u 64 v ->
  write_addr bytes o v = if o + 8 <=? Z.of_nat (length bytes)
                         then Ok (splice bytes (Z.to_nat o) (le_bytes 8 v)) else Err ValueOutOfBounds.
Proof.
  intros Hf Ho Hv. unfold write_addr. rewrite slice_get_at by (done || lia).
  destruct (Z.leb_spec (o + 8) (Z.of_nat (length bytes))); [|done].
  simpl. pose proof (length_file_bytes bytes o 8 ltac:(lia) ltac:(lia) ltac:(lia)).
  rewrite write_u64_spec by (done || lia). rewrite (drop_ge (file_bytes _ _ _)) by lia. by rewrite app_nil_r.
Qed.

(** A step on the file's bytes that does not panic and keeps them a file of
    the same length. *)
Definition keeps_file (bytes : list byte) (r : loaded (list byte)) : Prop :=
  r <> Panic /\ forall bytes', r = Ok bytes' -> file_ok bytes' /\ length bytes' = length bytes.

Lemma keeps_file_bind bytes r f :
  keeps_file bytes r ->
  (forall b, file_ok b -> length b = length bytes -> keeps_file b (f b)) ->
  keeps_file bytes (r ≫= f).
Proof.
  intros [Hp Hr] Hf. destruct r as [b|e|]; simpl; [|by split|done].
  destruct (Hr b eq_refl) as [Hb Hl]. destruct (Hf b Hb Hl) as [Hp' Hf']. split; [done|].
  intros b' Hb'. destruct (Hf' _ Hb'). split; [done|congruence].
Qed.

Lemma keeps_file_err bytes e : keeps_file bytes (Err e).
Proof. by split. Qed.

Lemma keeps_file_splice bytes o v n :
  file_ok bytes -> 0 <= o ->
  keeps_file bytes (if o + Z.of_nat n <=? Z.of_nat (length bytes)
                    then Ok (splice bytes (Z.to_nat o) (le_bytes n v)) else Err ValueOutOfBounds).
Proof.
  intros Hf Ho. destruct (Z.leb_spec (o + Z.of_nat n) (Z.of_nat (length bytes))); [|apply keeps_file_err].
  split; [done|]. intros b [= <-].
  split; [apply file_ok_splice; [done|apply is_bytes_le_bytes|]|apply length_splice];
    rewrite length_le_bytes; lia.
Qed.

Lemma write_imm_keeps bytes o v : file_ok bytes -> 0 <= o -> is_u 32 v -> keeps_file bytes (write_imm bytes o v).
Proof. intros. rewrite write_imm_eq by done. by apply (keeps_file_splice _ _ _ 4). Qed.
Lemma write_addr_keeps bytes o v : file_ok bytes -> 0 <= o -> is_u 64 v -> keeps_file bytes (write_addr bytes o v).
Proof. intros. rewrite write_addr_eq by done. by apply (keeps_file_splice _ _ _ 8). Qed.

Lemma low_half_u a : is_u 32 (low_half a).
Proof. by apply as_u_range. Qed.
Lemma high_half_u a : is_u 32 (high_half a).
Proof. by apply as_u_range. Qed.
Lemma saturating_add_nonneg a b : 0 <= a -> 0 <= b -> 0 <= saturating_add_u64 a b.
Proof. unfold saturating_add_u64, u64_max. lia. Qed.
End Words.

Lemma keeps_file_val {A} bytes (r : loaded A) f :
  r <> Panic -> (forall a, r = Ok a -> keeps_file bytes (f a)) -> keeps_file bytes (r ≫= f).
Proof. intros Hp Hf. destruct r as [a|e|]; simpl; [by apply Hf|by split|done]. Qed.

(** ** Registries *)
Definition targets_ok (r : FunctionRegistry Z) : Prop :=
  forall key name t, lookup_by_key r key = Some (name, t) -> is_u 64 t.

Lemma targets_ok_default : targets_ok registry_default.
Proof. intros key name t Hl. unfold lookup_by_key in Hl. simpl in Hl. by rewrite lookup_empty in Hl. Qed.

Lemma register_function_targets r key name value :
  targets_ok r -> is_u 64 value ->
  register_function r key name value <> Panic /\
  forall r', register_function r key name value = Ok r' -> targets_ok r'.
Proof.
  intros Hr Hv. unfold register_function.
  destruct (registry_map r !! key) as [[n v]|] eqn:Hk.
  - destruct (decide (v = value)); split; try done. by intros r' [= <-].
  - split; [done|]. intros r' [= <-] k n t. unfold lookup_by_key. simpl.
    rewrite lookup_insert_Some. intros [[-> [= -> ->]]|[_ Hl]]; [done|by eapply Hr].
Qed.

Lemma unregister_targets r key : targets_ok r -> targets_ok (unregister_function r key).1.
Proof.
  intros Hr k n t. unfold lookup_by_key. simpl. rewrite lookup_delete_Some. intros [_ Hl].
  by eapply Hr.
Qed.

Section Relocation.
Context {V : Type} {P : Profile} {B : ByteOrder} {BL : ByteOrderLaws}.
Context {U : ByteOrderUnsigned} {UL : ByteOrderUnsignedLaws} {M : Murmur3} {ML : Murmur3Laws}.
Context (elf_addr : Z) (loader : BuiltinProgram V) (elf : Elf64) (cfg : Config).
Context (Hcfg : config loader = Some cfg).

Lemma register_hashed_targets r hash name value :
  targets_ok r -> is_u 64 value ->
  register_function_hashed_legacy id r loader hash name value <> Panic /\
  forall r' key, register_function_hashed_legacy id r loader hash name value = Ok (r', key) ->
    targets_ok r' /\ is_u 32 key.
Proof.
  intros Hr Hv. unfold register_function_hashed_legacy, get_config. rewrite Hcfg. simpl.
  set (h := if decide _ then _ else _).
  assert (is_u 32 h) as Hh by (subst h; unfold hash_symbol_name; case_decide; apply murmur3_range).
  assert (is_u 32 (as_u 32 value)) by by apply as_u_range.
  unfold id in *. destruct hash; [destruct (lookup_by_key _ h); [by split|]|]; simpl;
    (edestruct register_function_targets as [Hp Hok]; [exact Hr|exact Hv|]);
    (split; [apply bind_no_panic; [exact Hp|done]|]);
    intros r' key Hk; apply result_bind_ok in Hk as (r1 & H1 & Hk); injection Hk as <- <-; eauto.
Qed.

(** What relocation needs of the parsed file. *)
Context (Hsym : forall t, dynamic_symbol_table elf = Some t -> Forall sym_typed t).

Lemma relocation_symbol_typed rel s : relocation_symbol elf rel = Ok s -> sym_typed s.
Proof.
  unfold relocation_symbol. intros H%ok_or_ok. apply bind_Some in H as (t & Ht & Hs).
  apply Hsym in Ht. unfold get in Hs. case_match; [done|]. by eapply Forall_lookup_1.
Qed.

Lemma relocation_symbol_no_panic rel : relocation_symbol elf rel <> Panic.
Proof. apply ok_or_no_panic. Qed.

Lemma read_imm_no_panic bytes o : file_ok bytes -> 0 <= o -> read_imm bytes o <> Panic.
Proof. intros. rewrite read_imm_eq by done. by case_match. Qed.

Ltac offsets := unfold rel_typed, is_u, BYTE_OFFSET_IMMEDIATE, INSN_SIZE in *;
  repeat apply saturating_add_nonneg; lia.

Lemma relocate_64_64_keeps rel bytes :
  file_ok bytes -> rel_typed rel -> keeps_file bytes (relocate_64_64 elf rel bytes).
Proof.
  intros Hf Hr. unfold relocate_64_64. apply keeps_file_val.
  { apply read_imm_no_panic; [done|offsets]. }
  intros refd _. apply keeps_file_val; [apply relocation_symbol_no_panic|]. intros s _.
  apply keeps_file_bind.
  - apply write_imm_keeps; [done|offsets|apply low_half_u].
  - intros b Hb _. apply write_imm_keeps; [done|offsets|apply high_half_u].
Qed.

Lemma relocate_64_relative_keeps text rel bytes :
  file_ok bytes -> rel_typed rel -> keeps_file bytes (relocate_64_relative text rel bytes).
Proof.
  intros Hf Hr. unfold relocate_64_relative. case_match.
  - apply keeps_file_val; [apply read_imm_no_panic; [done|offsets]|]. intros lo _.
    apply keeps_file_val; [apply read_imm_no_panic; [done|offsets]|]. intros hi _.
    case_match; [apply keeps_file_err|]. apply keeps_file_bind.
    + apply write_imm_keeps; [done|offsets|apply low_half_u].
    + intros b Hb _. apply write_imm_keeps; [done|offsets|apply high_half_u].
  - rewrite read_imm_eq by (done || offsets). case_match; [|apply keeps_file_err]. simpl.
    apply write_addr_keeps; [done|offsets|].
    pose proof (int_at_u bytes (Z.to_nat (saturating_add_u64 (r_offset rel) BYTE_OFFSET_IMMEDIATE)) 4
      (file_is_bytes _ Hf)) as Hi.
    unfold is_u, saturating_add_u64, u64_max, MM_REGION_SIZE, VIRTUAL_ADDRESS_BITS in *.
    change (Z.shiftl 1 32) with (2 ^ 32). lia.
Qed.

(** The state of the relocation loop. *)
Record reloc_ok (n : nat) (s : RelocState) : Prop := {
  reloc_file : file_ok (rs_bytes s);
  reloc_length : length (rs_bytes s) = n;
  reloc_targets : targets_ok (rs_registry s);
  reloc_cache : map_Forall (fun _ h => is_u 32 h) (rs_syscall_cache s)
}.
Definition keeps_reloc (n : nat) (r : loaded RelocState) : Prop :=
  r <> Panic /\ forall s, r = Ok s -> reloc_ok n s.

Lemma keeps_reloc_bytes n s r :
  reloc_ok n s -> keeps_file (rs_bytes s) r ->
  keeps_reloc n (b ← r; Ok (mkReloc (rs_registry s) b (rs_syscall_cache s))).
Proof.
  intros [Hf Hl Ht Hc] [Hp Hr]. split; [apply bind_no_panic; done|].
  intros s' H. apply result_bind_ok in H as (b & Hb & [= <-]). destruct (Hr b Hb).
  split; simpl; [done|congruence|done..].
Qed.

Lemma symbol_target_pc_u text value : shdr_typed text -> is_u 64 value -> is_u 64 (symbol_target_pc text value).
Proof.
  unfold symbol_target_pc, saturating_sub_u64, INSN_SIZE, shdr_typed, is_u. intros Ht Hv.
  split; [apply Z.div_pos; lia|]. apply Z.div_lt_upper_bound; lia.
Qed.

Lemma name_no_panic (r : parsed (list byte)) e : r <> Panic ->
  match r with Ok n => Ok n | Err _ => Err e | Panic => Panic end <> (Panic : loaded _).
Proof. by destruct r. Qed.

Lemma relocate_64_32_keeps n text rel s :
  reloc_ok n s -> rel_typed rel -> shdr_typed text ->
  keeps_reloc n (relocate_64_32 loader elf cfg text rel s).
Proof.
  intros Hs Hr Ht. unfold relocate_64_32.
  assert (0 <= saturating_add_u64 (r_offset rel) BYTE_OFFSET_IMMEDIATE) as Ho by offsets.
  assert (forall r cache key, targets_ok r -> map_Forall (fun _ h => is_u 32 h) cache -> is_u 32 key ->
    keeps_reloc n (b ← write_imm (rs_bytes s) (saturating_add_u64 (r_offset rel) BYTE_OFFSET_IMMEDIATE) key;
                   Ok (mkReloc r b cache))) as Hwrite.
  { intros r cache key Hr' Hc Hk. destruct Hs as [Hf Hl _ _].
    apply (keeps_reloc_bytes n (mkReloc r (rs_bytes s) cache)); [by split|]. by apply write_imm_keeps. }
  destruct (relocation_symbol elf rel) as [sym|e|] eqn:Hsy; simpl; [|by split|];
    [|by apply relocation_symbol_no_panic in Hsy].
  apply relocation_symbol_typed in Hsy.
  destruct (dynamic_symbol_name elf (st_name sym)) as [name|e|] eqn:Hn; simpl; [|by split|].
  2:{ exfalso. revert Hn. unfold dynamic_symbol_name. apply bind_no_panic; [apply ok_or_no_panic|].
      intros. apply get_string_no_panic. }
  destruct (is_function sym && negb (st_value sym =? 0)).
  - case_match; [by split|].
    destruct (register_hashed_targets (rs_registry s) true name
                (symbol_target_pc text (st_value sym))) as [Hp Hok];
      [apply Hs|apply symbol_target_pc_u; [done|apply Hsy]|].
    destruct (register_function_hashed_legacy _ _ _ _ _ _) as [[r key]|e|]; simpl; [|by split|done].
    destruct (Hok r key eq_refl). apply Hwrite; [done|apply Hs|done].
  - assert (forall h, rs_syscall_cache s !! st_name sym = Some h -> is_u 32 h) as Hc
      by (intros h Hh; by apply (reloc_cache _ _ Hs) in Hh).
    assert (is_u 32 (hash_symbol_name name)) by apply murmur3_range.
    destruct (rs_syscall_cache s !! st_name sym) as [h|]; [specialize (Hc h eq_refl)|];
      (case_match; simpl; [by split|]);
      (apply Hwrite; [apply Hs|apply map_Forall_insert_2; [done|apply Hs]|done]).
Qed.

Lemma relocate_all_keeps n text l s :
  reloc_ok n s -> Forall rel_typed l -> shdr_typed text ->
  keeps_reloc n (relocate_all loader elf cfg text l s).
Proof.
  intros Hs Hl Ht. revert s Hs. induction Hl as [|rel l Hr _ IH]; intros s Hs; simpl.
  { split; [done|]. by intros s' [= <-]. }
  assert (keeps_reloc n (relocate_one loader elf cfg text rel s)) as [Hp Hone].
  { unfold relocate_one. destruct (from_x86_relocation_type _) as [[]|]; try by split.
    - apply keeps_reloc_bytes; [done|]. by apply relocate_64_64_keeps; [apply Hs|].
    - apply keeps_reloc_bytes; [done|]. by apply relocate_64_relative_keeps; [apply Hs|].
    - by apply relocate_64_32_keeps. }
  destruct (relocate_one _ _ _ _ _ _) as [s'|e|]; simpl; [|by split|done]. eauto.
Qed.

(** *** Program counter relative calls *)
Lemma slot_ext (t t' : list byte) pc :
  0 <= pc -> (forall j, (Z.to_nat (8 * pc) <= j < Z.to_nat (8 * pc) + 8)%nat -> t !! j = t' !! j) ->
  slot t pc = slot t' pc.
Proof.
  intros Hpc Ht. unfold slot.
  replace (take 8 (drop (Z.to_nat (8 * pc)) t)) with (take 8 (drop (Z.to_nat (8 * pc)) t')); [done|].
  apply list_eq. intros j. destruct (decide (j < 8)%nat).
  - rewrite !lookup_take_lt, !lookup_drop by done. symmetry. apply Ht. lia.
  - by rewrite !lookup_take_ge by lia.
Qed.

Lemma splice_in_slot (t w : list byte) o :
  (o + 8 <= length t)%nat -> length w = 4%nat ->
  take 8 (drop o (splice t (o + 4) w)) = take 4 (drop o t) ++ w.
Proof.
  intros Ho Hw.
  assert (length (take (o + 4) t) = o + 4)%nat by (rewrite length_take; lia).
  unfold splice. rewrite drop_app_le, take_app_ge by (rewrite ?length_drop; lia).
  rewrite length_drop, H. replace (8 - (o + 4 - o))%nat with (length w) by lia.
  by rewrite take_app_length, take_drop_commute.
Qed.

Lemma slot_splice_imm (t : list byte) pc v :
  0 <= pc -> 8 * pc + 8 <= Z.of_nat (length t) -> is_u 32 v ->
  slot (splice t (Z.to_nat (8 * pc + 4)) (le_bytes 4 v)) pc = with_imm (slot t pc) (as_i 32 v).
Proof.
  intros Hpc Hlen Hv. unfold slot, with_imm. simpl.
  set (o := Z.to_nat (8 * pc)). replace (Z.to_nat (8 * pc + 4)) with (o + 4)%nat by lia.
  pose proof (slot_bytes t pc Hpc Hlen) as Hl. fold o in Hl.
  rewrite splice_in_slot by (rewrite ?length_le_bytes; lia).
  replace (take 4 (drop o t)) with (take 4 (take 8 (drop o t))) by by rewrite take_take.
  set (bs := take 8 (drop o t)) in *. clearbody bs.
  do 8 (destruct bs as [|? bs]; [done|]). destruct bs; [|done]. simpl.
  f_equal. f_equal. exact (eq_trans (le_val_le_bytes 4 v) (as_u_small 32 v Hv)).
Qed.

Definition with_key (text : list byte) (pc key : Z) : list byte :=
  splice text (Z.to_nat (8 * pc + 4)) (le_bytes 4 key).

(** A call to another instruction of the program, before relocation. *)
Definition is_relative_call (i : Insn) : bool := (opc i =? CALL_IMM) && negb (imm i =? -1).

(** What relocation makes of slot [pc]: a relative call gets a key under which
    its target is registered, everything else stays. *)
Definition slot_relocated (count : Z) (text text' : list byte) (r' : FunctionRegistry Z) (pc : Z) : Prop :=
  let i := slot text pc in
  if is_relative_call i then
    exists key name, is_u 32 key /\ slot text' pc = with_imm i (as_i 32 key) /\
      lookup_by_key r' key = Some (name, pc + 1 + imm i) /\ 0 <= pc + 1 + imm i < count
  else slot text' pc = i.

Lemma register_hashed_keeps r hash name value r' key :
  register_function_hashed_legacy id r loader hash name value = Ok (r', key) ->
  (exists n, lookup_by_key r' key = Some (n, value)) /\
  (forall k b, lookup_by_key r k = Some b -> lookup_by_key r' k = Some b).
Proof.
  unfold register_function_hashed_legacy. intros H.
  apply result_bind_ok in H as (c & _ & H). apply result_bind_ok in H as (k & _ & H).
  apply result_bind_ok in H as (r1 & Hreg & H). injection H as -> ->.
  unfold register_function in Hreg. unfold lookup_by_key.
  destruct (registry_map r !! key) as [[n v]|] eqn:Hk.
  - destruct (decide (v = value)) as [->|]; [|done]. injection Hreg as <-. eauto.
  - injection Hreg as <-. simpl. split; [eexists; by rewrite lookup_insert_eq|].
    intros k b Hb. rewrite lookup_insert_ne; [done|congruence].
Qed.

Lemma slot_agree (t t' : list byte) pc :
  0 <= pc -> (forall j, (j < Z.to_nat (8 * (pc + 1)))%nat -> t' !! j = t !! j) -> slot t' pc = slot t pc.
Proof. intros Hpc Ht. apply slot_ext; [done|]. intros j Hj. apply Ht. lia. Qed.

Lemma with_key_ok text pc key :
  file_ok text -> 0 <= pc -> 8 * pc + 8 <= Z.of_nat (length text) ->
  file_ok (with_key text pc key) /\ length (with_key text pc key) = length text /\
  (forall j, (j < Z.to_nat (8 * pc))%nat -> with_key text pc key !! j = text !! j) /\
  (forall pc', pc < pc' -> slot (with_key text pc key) pc' = slot text pc').
Proof.
  intros Hf Hpc Hlen. unfold with_key.
  assert (Z.to_nat (8 * pc + 4) + length (le_bytes 4 key) <= length text)%nat as Hw
    by (rewrite length_le_bytes; lia).
  split_and!.
  - apply file_ok_splice; [done|apply is_bytes_le_bytes|done].
  - by apply length_splice.
  - intros j Hj. apply lookup_splice_outside; [done|lia].
  - intros pc' Hpc'. apply slot_ext; [lia|]. intros j Hj.
    apply lookup_splice_outside; [done|]. rewrite length_le_bytes in *. lia.
Qed.

(** The write of a key into the immediate of slot [i]. *)
Lemma write_key_eq text i key :
  file_ok text -> 0 <= i -> 8 * i + 8 <= Z.of_nat (length text) -> is_u 32 key ->
  write_imm text (saturating_add_u64 (saturating_mul_u64 i INSN_SIZE) 4) key = Ok (with_key text i key).
Proof.
  intros Hf Hi Hin Hk. pose proof (file_length _ Hf) as Hl. unfold i64_max in Hl.
  replace (saturating_add_u64 (saturating_mul_u64 i INSN_SIZE) 4) with (8 * i + 4)
    by (unfold saturating_add_u64, saturating_mul_u64, INSN_SIZE, u64_max; lia).
  rewrite write_imm_eq by (done || lia). by rewrite (proj2 (Z.leb_le _ _)) by lia.
Qed.

Definition calls_relocated (count i : Z) (r : FunctionRegistry Z) (text : list byte)
    (r' : FunctionRegistry Z) (text' : list byte) : Prop :=
  file_ok text' /\ length text' = length text /\ targets_ok r' /\
  (forall k b, lookup_by_key r k = Some b -> lookup_by_key r' k = Some b) /\
  (forall j, (j < Z.to_nat (8 * i))%nat -> text' !! j = text !! j) /\
  (forall pc, i <= pc < count -> slot_relocated count text text' r' pc).

Lemma calls_relocated_skip count i r text r' text' :
  0 <= i -> is_relative_call (slot text i) = false ->
  calls_relocated count (i + 1) r text r' text' -> calls_relocated count i r text r' text'.
Proof.
  intros Hi Hc (Hf & Hl & Ht & Hk & Hj & Hs). split_and!; try done.
  - intros j Hlt. apply Hj. lia.
  - intros pc Hpc. destruct (decide (pc = i)) as [->|]; [|apply Hs; lia].
    unfold slot_relocated. rewrite Hc. by apply slot_agree.
Qed.

Lemma calls_relocated_call count i r text r1 key name r' text' :
  let t := i + 1 + imm (slot text i) in
  file_ok text -> 0 <= i -> 8 * i + 8 <= Z.of_nat (length text) -> is_u 32 key -> 0 <= t < count ->
  is_relative_call (slot text i) = true ->
  register_function_hashed_legacy id r loader true name t = Ok (r1, key) ->
  calls_relocated count (i + 1) r1 (with_key text i key) r' text' ->
  calls_relocated count i r text r' text'.
Proof.
  intros t Hf Hi Hin Hkey Ht Hc Hreg (Hf' & Hl & Htg & Hk & Hj & Hs).
  destruct (with_key_ok text i key Hf Hi Hin) as (_ & Hwl & Hwj & Hws).
  apply register_hashed_keeps in Hreg as [[nm Hnm] Hr1].
  split_and!; try done; [congruence|by eauto| |].
  - intros j Hlt. rewrite Hj, Hwj by lia. done.
  - intros pc Hpc. destruct (decide (pc = i)) as [->|].
    + unfold slot_relocated. rewrite Hc. exists key, nm. split_and!; eauto; [|lia..].
      rewrite (slot_agree (with_key text i key) text' i Hi) by done. by apply slot_splice_imm.
    + specialize (Hs pc ltac:(lia)). unfold slot_relocated in *. rewrite Hws in Hs by lia. done.
Qed.

Lemma relocate_calls_ok n i r text :
  let count := Z.of_nat (length text) / INSN_SIZE in
  file_ok text -> targets_ok r -> 0 <= i -> i + Z.of_nat n = count ->
  relocate_calls loader cfg count n i r text <> Panic /\
  forall r' text', relocate_calls loader cfg count n i r text = Ok (r', text') ->
    calls_relocated count i r text r' text'.
Proof.
  intros count. subst count.
  revert i r text. induction n as [|n IH]; intros i r text Hf Hr Hi Hn; cbn [relocate_calls].
  { split; [done|]. intros r' text' [= <- <-]. split_and!; try done. intros. lia. }
  set (count := Z.of_nat (length text) / INSN_SIZE) in *.
  assert (8 * i + 8 <= Z.of_nat (length text)) as Hin.
  { unfold count, INSN_SIZE in Hn. pose proof (Z.mul_div_le (Z.of_nat (length text)) 8). lia. }
  pose proof (file_length _ Hf) as Hlen. unfold i64_max in Hlen.
  destruct (get_insn_slot (E := ElfError) text i Hi) as [_ Hg]; [lia|]. rewrite Hg. cbn [mbind result_bind].
  destruct (slot_wf text i (file_is_bytes _ Hf) Hi Hin) as [Hwf _].
  fold (is_relative_call (slot text i)). destruct (is_relative_call (slot text i)) eqn:Hc.
  2:{ destruct (IH (i + 1) r text Hf Hr ltac:(lia)) as [Hp Hok]; [unfold count in Hn; lia|].
      split; [done|]. intros. apply calls_relocated_skip; [done..|]. by apply Hok. }
  assert (count <= Z.of_nat (length text)) by (apply Z.div_le_upper_bound; unfold INSN_SIZE; lia).
  assert (saturating_i64 (saturating_i64 (i + 1) + imm (slot text i)) = i + 1 + imm (slot text i)) as ->.
  { destruct Hwf as [_ _ _ _ Himm]. unfold is_i in Himm. unfold saturating_i64, i64_min, i64_max. lia. }
  set (t := i + 1 + imm (slot text i)).
  destruct ((t <? 0) || (count <=? t)) eqn:Hb; [by split|].
  set (name := if enable_symbol_and_section_labels cfg then _ else _).
  destruct (register_hashed_targets r true name t Hr) as [Hp Hok]; [unfold is_u; lia|].
  destruct (register_function_hashed_legacy _ _ _ _ _ _) as [[r1 key]|e|] eqn:Hreg; simpl; [|by split|done].
  destruct (Hok r1 key eq_refl) as [Hr1 Hkey].
  rewrite write_key_eq by done. simpl.
  destruct (with_key_ok text i key Hf Hi Hin) as (Hwf' & Hwl & _ & _).
  destruct (IH (i + 1) r1 (with_key text i key) Hwf' Hr1 ltac:(lia)) as [Hp' Hok'];
    [rewrite Hwl; unfold count in Hn; lia|].
  rewrite Hwl in Hp', Hok'. fold count in Hp', Hok'. split; [done|].
  intros r' text' H'. eapply (calls_relocated_call count i r text r1 key name); eauto.
  fold t. lia.
Qed.
End Relocation.

(** ** The parsed file *)
Record elf_ok (elf : Elf64) : Prop := {
  elf_is_bytes : is_bytes (ElfParser.elf_bytes elf);
  elf_header : ehdr_typed (file_header elf);
  elf_sections : Forall shdr_typed (section_header_table elf);
  elf_symtab : forall h, symbol_section_header elf = Some h -> shdr_typed h;
  elf_symbols : forall t, dynamic_symbol_table elf = Some t -> Forall sym_typed t;
  elf_relocations : forall t, dynamic_relocations_table elf = Some t -> Forall rel_typed t
}.

Lemma stored_at_typed {T} `{PodTyped T} elf_addr bytes r (l : list T) :
  is_bytes bytes -> stored_at elf_addr bytes r l -> Forall well_typed l.
Proof. intros Hb (n & _ & Ht). by eapply table_at_typed. Qed.

Lemma parse_elf_ok elf_addr bytes elf :
  is_bytes bytes -> parse elf_addr bytes = Ok elf -> elf_ok elf /\ ElfParser.elf_bytes elf = bytes.
Proof.
  intros Hb H. destruct (parse_valid _ _ _ Hb H) as ([] & _ & [names Hn] & Hd).
  split; [|done]. rewrite <- hv_bytes in Hb. split; try done.
  - intros h Hh. pose proof (nv_symtab _ _ Hn) as Hs. rewrite Hh in Hs.
    destruct Hs as (i & Hi & _). by eapply Forall_lookup_1.
  - intros t Ht. destruct Hd as [(_ & _ & Hd)|(d & _ & _ & _ & _ & Hs)]; [congruence|].
    destruct Hs as (va & _ & Hs). rewrite Ht in Hs. destruct Hs as (_ & h & _ & _ & _ & Hs).
    by apply stored_at_typed in Hs.
  - intros t Ht. destruct Hd as [(_ & Hd & _)|(d & _ & _ & _ & Hr & _)]; [congruence|].
    destruct Hr as (va & _ & Hr). rewrite Ht in Hr. destruct Hr as (_ & _ & off & sz & _ & _ & _ & Hr).
    by apply stored_at_typed in Hr.
Qed.

Lemma section_name_no_panic elf n : section_name elf n <> Panic.
Proof. apply bind_no_panic; [apply ok_or_no_panic|]. intros. apply get_string_no_panic. Qed.

Lemma symbol_name_no_panic elf n : symbol_name elf n <> Panic.
Proof. apply bind_no_panic; [apply ok_or_no_panic|]. intros. apply get_string_no_panic. Qed.

Lemma lift_no_panic {A} (r : parsed A) : r <> Panic -> lift r <> Panic.
Proof. by destruct r. Qed.
Lemma lift_parsed_ok {A} (r : parsed A) a : lift r = Ok a <-> r = Ok a.
Proof. destruct r; naive_solver. Qed.
Lemma result_ok_no_panic {E F A} (r : result E A) : r <> Panic -> result_ok (F := F) r <> Panic.
Proof. by destruct r. Qed.
#[export] Hint Resolve section_name_no_panic symbol_name_no_panic lift_no_panic result_ok_no_panic
  parse_no_panic : nopanic.

Lemma get_section_no_panic elf name : get_section elf name <> Panic.
Proof.
  unfold get_section. induction (section_header_table elf); simpl; eauto 10 with nopanic.
Qed.

Lemma get_section_ok elf name h :
  get_section elf name = Ok h ->
  h ∈ section_header_table elf /\ section_name elf (sh_name h) = Ok name.
Proof.
  unfold get_section. induction (section_header_table elf) as [|a l IH]; simpl; intros H; [done|].
  apply result_bind_ok in H as (n & Hn & H). apply lift_parsed_ok in Hn.
  case_bool_decide; [injection H as <-; subst; split; [apply list_elem_of_here|done]|].
  destruct (IH H). split; [by apply list_elem_of_further|done].
Qed.
#[export] Hint Resolve get_section_no_panic : nopanic.

Section RelocateAll.
Context {V : Type} {P : Profile} {B : ByteOrder} {BL : ByteOrderLaws}.
Context {U : ByteOrderUnsigned} {UL : ByteOrderUnsignedLaws} {M : Murmur3} {ML : Murmur3Laws}.
Context (elf_addr : Z) (loader : BuiltinProgram V) (elf : Elf64) (cfg : Config).
Context (Hcfg : config loader = Some cfg) (Helf : elf_ok elf).

Lemma symbol_table_typed :
  symbol_table elf_addr elf <> Panic /\
  forall t, symbol_table elf_addr elf = Ok (Some t) -> Forall sym_typed t.
Proof.
  unfold symbol_table. destruct (symbol_section_header elf) as [h|] eqn:Hh; [|done]. split.
  - apply bind_no_panic; [|done]. unfold get_symbol_table_of_section.
    case_match; [done|apply slice_from_section_header_no_panic].
  - intros t Ht. apply result_bind_ok in Ht as (l & Hl & [= <-]).
    apply get_symbol_table_of_section_ok in Hl as [_ Hl]; [|by apply (elf_symtab _ Helf)].
    exact (stored_at_typed (T := Elf64Sym) _ _ _ _ (elf_is_bytes _ Helf) Hl).
Qed.

Lemma register_symbols_ok text l r :
  shdr_typed text -> Forall sym_typed l -> targets_ok r ->
  register_symbols loader elf text l r <> Panic /\
  forall r', register_symbols loader elf text l r = Ok r' -> targets_ok r'.
Proof.
  intros Ht Hl. revert r. induction Hl as [|s l Hs _ IH]; intros r Hr; simpl.
  { split; [done|]. by intros r' [= <-]. }
  case_match; [by apply IH|]. case_match; [by split|].
  pose proof (symbol_name_no_panic elf (st_name s)).
  destruct (symbol_name elf (st_name s)) as [name| |]; simpl; [|by split|done].
  destruct (register_hashed_targets loader cfg Hcfg r true name (symbol_target_pc text (st_value s)))
    as [Hp Hok]; [done|apply symbol_target_pc_u; [done|apply Hs]|].
  destruct (register_function_hashed_legacy _ _ _ _ _ _) as [[r1 key]|e|]; simpl; [|by split|done].
  apply IH. by eapply Hok.
Qed.

Lemma relocate_ok r bytes :
  file_ok bytes -> targets_ok r ->
  relocate elf_addr loader elf r bytes <> Panic /\
  forall r' bytes', relocate elf_addr loader elf r bytes = Ok (r', bytes') ->
    file_ok bytes' /\ length bytes' = length bytes /\ targets_ok r'.
Proof.
  intros Hf Hr. unfold relocate.
  pose proof (get_section_no_panic elf name_text) as Hgp.
  destruct (get_section elf name_text) as [text|e|] eqn:Htext; simpl; [|by split|done].
  apply get_section_ok in Htext as [Hin _].
  assert (shdr_typed text) as Htt by (eapply Forall_forall; [apply Helf|done]).
  unfold get_config. rewrite Hcfg. simpl.
  destruct (slice_get bytes (shdr_range_or_default text)) as [tb|] eqn:Htb; simpl; [|by split].
  pose proof (slice_get_bytes _ _ _ (file_is_bytes _ Hf) Htb) as Htbb.
  apply slice_get_Some in Htb as [Hrange ->].
  set (rg := shdr_range_or_default text) in *.
  assert (0 <= rg.1) as Hrg0.
  { subst rg. unfold shdr_range_or_default, shdr_file_range, shdr_typed, is_u in *.
    case_match; simpl; lia. }
  assert (Z.of_nat (length (file_bytes bytes rg.1 (rg.2 - rg.1))) = rg.2 - rg.1) as Hlen
    by (apply length_file_bytes; lia).
  set (tb := file_bytes bytes rg.1 (rg.2 - rg.1)) in *.
  assert (file_ok tb) as Htf by (split; [done|]; pose proof (file_length _ Hf); lia).
  assert (0 <= Z.of_nat (length tb) / INSN_SIZE) by (apply Z.div_pos; unfold INSN_SIZE; lia).
  destruct (relocate_calls_ok loader cfg Hcfg (Z.to_nat (Z.of_nat (length tb) / INSN_SIZE)) 0 r tb
              Htf Hr) as [Hp Hok]; [lia..|].
  destruct (relocate_calls _ _ _ _ _ _ _) as [[r1 t1]|e|]; simpl; [|by split|done].
  destruct (Hok r1 t1 eq_refl) as (Hf1 & Hl1 & Ht1 & _).
  assert (Z.to_nat rg.1 + length t1 <= length bytes)%nat as Hfit by lia.
  destruct (relocate_all_keeps loader elf cfg Hcfg (elf_symbols _ Helf) (length bytes) text
    (default [] (dynamic_relocations_table elf)) (mkReloc r1 (splice bytes (Z.to_nat rg.1) t1) ∅))
    as [Hp2 Hok2]; [|destruct (dynamic_relocations_table elf) eqn:Hrel; simpl;
                     [by apply (elf_relocations _ Helf)|by apply Forall_nil]|done|].
  { split; simpl; [by apply file_ok_splice; [| apply Hf1|]|by apply length_splice|done|].
    apply map_Forall_empty. }
  destruct (relocate_all _ _ _ _ _ _) as [s|e|]; simpl; [|by split|done].
  destruct (Hok2 s eq_refl) as [Hsf Hsl Hst _].
  destruct (enable_symbol_and_section_labels cfg); simpl; [|split; [done|]; by intros r' b' [= <- <-]].
  assert (exists o, result_ok (F := ElfError) (symbol_table elf_addr elf) = Ok o /\
    Forall sym_typed (default [] (mjoin o))) as (o & -> & Ho).
  { destruct symbol_table_typed as [Hsp Hsy].
    destruct (symbol_table elf_addr elf) as [[t|]|e|]; simpl; [by eauto| | |done];
      eexists; (split; [done|by apply Forall_nil]). }
  cbn [mbind result_bind]. destruct (register_symbols_ok text _ _ Htt Ho Hst) as [Hrp Hrok].
  split; [apply bind_no_panic; [exact Hrp|done]|].
  intros r' b' H'. apply result_bind_ok in H' as (r2 & H2 & [= <- <-]). eauto.
Qed.
End RelocateAll.

(** ** The functions that are registered *)
Section Registered.
Context {V : Type} {P : Profile} {B : ByteOrder}.
Context {U : ByteOrderUnsigned} {M : Murmur3}.
Context (elf_addr : Z) (loader : BuiltinProgram V) (elf : Elf64).

(** Every key names one of the first [n] instructions and no native function. *)
Definition registered_in (n : Z) (r : FunctionRegistry Z) : Prop :=
  forall key name t, lookup_by_key r key = Some (name, t) ->
    0 <= t < n /\ lookup_by_key (sparse_registry loader) key = None.

(** The slots of a section, the last one perhaps incomplete. *)
Definition slots_of (h : Elf64Shdr) : Z := (sh_size h + 7) / INSN_SIZE.

Lemma registered_default n : registered_in n registry_default.
Proof. intros key name t Hl. unfold lookup_by_key in Hl. simpl in Hl. by rewrite lookup_empty in Hl. Qed.

Lemma registered_unregister n r key : registered_in n r -> registered_in n (unregister_function r key).1.
Proof.
  intros Hr k nm t. unfold lookup_by_key at 1. simpl. rewrite lookup_delete_Some. intros [_ Hl]. by eapply Hr.
Qed.

Lemma registered_hashed n r name value r' key :
  registered_in n r -> 0 <= value < n ->
  register_function_hashed_legacy id r loader true name value = Ok (r', key) -> registered_in n r'.
Proof.
  intros Hr Hv H. unfold register_function_hashed_legacy, id in H. apply result_bind_ok in H as (c & _ & H).
  set (h := if decide _ then _ else _) in H.
  destruct (lookup_by_key (sparse_registry loader) h) eqn:Hk; [done|]. cbn [mbind result_bind] in H.
  apply result_bind_ok in H as (r1 & H1 & [= -> <-]). unfold register_function in H1.
  destruct (registry_map r !! h) as [[nm v]|]; [destruct (decide (v = value)); [by injection H1 as <-|done]|].
  injection H1 as <-. intros k nm t. unfold lookup_by_key at 1. simpl.
  rewrite lookup_insert_Some. intros [[<- [= _ <-]]|[_ Hl]]; [done|by eapply Hr].
Qed.

Lemma symbol_target_in text value :
  shdr_typed text -> range_contains (shdr_vm_range text) value = true ->
  0 <= symbol_target_pc text value < slots_of text.
Proof.
  unfold range_contains, shdr_vm_range, symbol_target_pc, slots_of, saturating_add_u64, saturating_sub_u64,
    shdr_typed, is_u, INSN_SIZE, u64_max. simpl. intros Ht Hc. Z.to_euclidean_division_equations. lia.
Qed.

Lemma relocate_calls_registered cfg count m i n r text r' text' :
  count <= n -> registered_in n r ->
  relocate_calls loader cfg count m i r text = Ok (r', text') -> registered_in n r'.
Proof.
  intros Hc. revert i r text. induction m as [|m IH]; intros i r text Hr; cbn [relocate_calls].
  { by intros [= <- _]. }
  intros H. apply result_bind_ok in H as (insn & _ & H). destruct (_ && _); [|by eapply IH].
  cbv zeta in H. destruct (_ || _) eqn:Hb; [done|]. apply orb_false_iff in Hb as [H0%Z.ltb_ge H1%Z.leb_gt].
  apply result_bind_ok in H as ([r1 key] & Hreg & H). apply result_bind_ok in H as (t1 & _ & H).
  eapply IH; [|exact H]. eapply registered_hashed; [done| |exact Hreg]. lia.
Qed.

Lemma relocate_all_registered cfg text l s s' :
  shdr_typed text -> registered_in (slots_of text) (rs_registry s) ->
  relocate_all loader elf cfg text l s = Ok s' -> registered_in (slots_of text) (rs_registry s').
Proof.
  intros Ht. revert s. induction l as [|rel l IH]; intros s Hr; simpl; [by intros [= <-]|].
  intros H. apply result_bind_ok in H as (s1 & H1 & H). eapply IH; [|exact H]. clear H IH.
  revert H1. unfold relocate_one. destruct (from_x86_relocation_type _) as [[]|]; try done.
  - intros H. by apply result_bind_ok in H as (b & _ & [= <-]).
  - intros H. by apply result_bind_ok in H as (b & _ & [= <-]).
  - unfold relocate_64_32. intros H. apply result_bind_ok in H as (sym & _ & H).
    apply result_bind_ok in H as (name & _ & H). apply result_bind_ok in H as ([[r cache] key] & Hk & H).
    apply result_bind_ok in H as (b & _ & [= <-]). simpl. destruct (is_function sym && _).
    + destruct (range_contains _ _) eqn:Hc; [|done]. cbn [negb] in Hk.
      apply result_bind_ok in Hk as ([r1 k1] & Hreg & [= <- _ _]).
      eapply registered_hashed; [done|by apply symbol_target_in|exact Hreg].
    + destruct (_ && _) in Hk; [done|by injection Hk as <- _ _].
Qed.

Lemma register_symbols_registered text l r r' :
  shdr_typed text -> registered_in (slots_of text) r ->
  register_symbols loader elf text l r = Ok r' -> registered_in (slots_of text) r'.
Proof.
  intros Ht. revert r. induction l as [|s l IH]; intros r Hr; simpl; [by intros [= <-]|].
  destruct (negb _); [by apply IH|]. destruct (range_contains _ _) eqn:Hc; [|done]. cbn [negb]. intros H.
  apply result_bind_ok in H as (name & _ & H). apply result_bind_ok in H as ([r1 key] & Hreg & H).
  eapply IH; [|exact H]. eapply registered_hashed; [done|by apply symbol_target_in|exact Hreg].
Qed.

Lemma section_slots text bytes tb :
  shdr_typed text -> slice_get bytes (shdr_range_or_default text) = Some tb ->
  Z.of_nat (length tb) / INSN_SIZE <= slots_of text.
Proof.
  intros Ht [Hr ->]%slice_get_Some. apply Z.div_le_mono; [done|].
  assert (Hl : (shdr_range_or_default text).2 - (shdr_range_or_default text).1 <= sh_size text).
  { unfold shdr_range_or_default, shdr_file_range, saturating_add_u64, shdr_typed, is_u in *. case_match; simpl; lia. }
  unfold file_bytes. rewrite length_take, length_drop. unfold shdr_typed, is_u in Ht. lia.
Qed.

(** Relocation registers instructions of the text, under keys of their own. *)
Lemma relocate_registered text bytes r' bytes' :
  get_section elf name_text = Ok text -> shdr_typed text ->
  relocate elf_addr loader elf registry_default bytes = Ok (r', bytes') -> registered_in (slots_of text) r'.
Proof.
  intros Htext Ht H. unfold relocate in H. rewrite Htext in H. cbn [mbind result_bind] in H.
  apply result_bind_ok in H as (cfg & _ & H). apply result_bind_ok in H as (tb & Htb & H).
  apply ok_or_ok in Htb. apply result_bind_ok in H as ([r1 t1] & H1 & H).
  apply relocate_calls_registered with (n := slots_of text) in H1; [|by eapply section_slots|apply registered_default].
  apply result_bind_ok in H as (s & Hs & H). apply relocate_all_registered in Hs; [|done..].
  apply result_bind_ok in H as (r2 & H2 & [= <- _]).
  destruct (enable_symbol_and_section_labels cfg); [|by injection H2 as <-].
  apply result_bind_ok in H2 as (o & _ & H2). by eapply register_symbols_registered.
Qed.
End Registered.

(** ** What relocation computes *)
Section RelocationResult.
Context {V : Type} {P : Profile} {B : ByteOrder} {BL : ByteOrderLaws}.
Context {U : ByteOrderUnsigned} {UL : ByteOrderUnsignedLaws} {M : Murmur3} {ML : Murmur3Laws}.

(** C15: Relocation of calls. Every instruction that calls another one by its
    distance gets as immediate a key under which the registry has exactly that
    target, an instruction of the text; all other instructions stay as they
    are, and functions registered before keep their entries. *)
Theorem relocate_calls_resolved (loader : BuiltinProgram V) cfg r text r' text' :
  let count := Z.of_nat (length text) / INSN_SIZE in
  config loader = Some cfg -> file_ok text -> targets_ok r ->
  relocate_calls loader cfg count (Z.to_nat count) 0 r text = Ok (r', text') ->
  length text' = length text /\
  (forall k b, lookup_by_key r k = Some b -> lookup_by_key r' k = Some b) /\
  forall pc, 0 <= pc < count -> slot_relocated count text text' r' pc.
Proof.
  intros count Hc Hf Hr H. assert (0 <= count) by (apply Z.div_pos; unfold INSN_SIZE; lia).
  destruct (relocate_calls_ok loader cfg Hc (Z.to_nat count) 0 r text Hf Hr) as [_ Hok]; [lia..|].
  destruct (Hok _ _ H) as (_ & ? & _ & ? & _ & ?). done.
Qed.

(** The address an lddw instruction at file offset [o] loads. *)
Definition lddw_address (bytes : list byte) (o : Z) : Z :=
  int_at bytes (Z.to_nat (o + 4)) 4 + 2 ^ 32 * int_at bytes (Z.to_nat (o + 12)) 4.

Lemma int_at_splice bytes i v n :
  (i + n <= length bytes)%nat -> is_u (8 * Z.of_nat n) v ->
  int_at (splice bytes i (le_bytes n v)) i n = v.
Proof.
  intros Hi Hv. unfold int_at.
  pose proof (take_drop_splice bytes i (le_bytes n v)) as Hs. rewrite length_le_bytes in Hs.
  rewrite Hs by done. rewrite le_val_le_bytes. by apply Z.mod_small.
Qed.

Lemma int_at_splice_other bytes i new o n :
  (i + length new <= length bytes)%nat -> (o + n <= i \/ i + length new <= o)%nat ->
  int_at (splice bytes i new) o n = int_at bytes o n.
Proof.
  intros Hi Ho. unfold int_at. f_equal. apply list_eq. intros j. destruct (decide (j < n)%nat).
  - rewrite !lookup_take_lt, !lookup_drop by done. apply lookup_splice_outside; [done|lia].
  - by rewrite !lookup_take_ge by lia.
Qed.

Lemma shiftl_lor_halves lo hi :
  is_u 32 lo -> is_u 32 hi -> Z.lor (as_u 64 (Z.shiftl hi 32)) lo = lo + 2 ^ 32 * hi.
Proof.
  intros Hlo Hhi. unfold is_u in *. rewrite Z.shiftl_mul_pow2 by lia.
  rewrite as_u_small by (unfold is_u; lia). rewrite lor_disjoint_add by lia. lia.
Qed.

Lemma halves_sum a : is_u 64 a -> low_half a + 2 ^ 32 * high_half a = a.
Proof.
  intros Ha. unfold low_half, high_half, is_u in *. change 0xffffffff with (2 ^ 32 - 1).
  rewrite land_ones_mod, Z.shiftr_div_pow2 by lia. unfold as_u.
  Z.to_euclidean_division_equations. lia.
Qed.

(** Relocation of a load of an address in the text: the two immediates
    afterwards hold the address they held before, moved into the first memory
    region unless it was beyond it already, and no other byte of the file
    changes. *)
Theorem relocate_relative_lddw text rel bytes :
  let o := r_offset rel in let old := lddw_address bytes o in
  file_ok bytes -> 0 <= o -> o + 16 <= Z.of_nat (length bytes) ->
  range_contains (shdr_range_or_default text) o = true -> old <> 0 ->
  exists bytes', relocate_64_relative text rel bytes = Ok bytes' /\
    lddw_address bytes' o = (if old <? MM_REGION_SIZE then old + MM_REGION_SIZE else old) /\
    length bytes' = length bytes /\
    forall j, ~ (o + 4 <= Z.of_nat j < o + 8) -> ~ (o + 12 <= Z.of_nat j < o + 16) ->
      bytes' !! j = bytes !! j.
Proof.
  intros o old Hf Ho Hlen Hin Hold. unfold relocate_64_relative. fold o. rewrite Hin.
  pose proof (file_length _ Hf) as Hfl. unfold i64_max in Hfl.
  assert (saturating_add_u64 o BYTE_OFFSET_IMMEDIATE = o + 4) as ->
    by (unfold saturating_add_u64, BYTE_OFFSET_IMMEDIATE, u64_max; lia).
  assert (saturating_add_u64 (saturating_add_u64 o INSN_SIZE) BYTE_OFFSET_IMMEDIATE = o + 12) as ->
    by (unfold saturating_add_u64, BYTE_OFFSET_IMMEDIATE, INSN_SIZE, u64_max; lia).
  rewrite (read_imm_eq bytes (o + 4)), (read_imm_eq bytes (o + 12)) by (done || lia).
  rewrite 2!(proj2 (Z.leb_le _ _)) by lia. cbn [mbind result_bind].
  pose proof (int_at_u bytes (Z.to_nat (o + 4)) 4 (file_is_bytes _ Hf)) as Hlo.
  pose proof (int_at_u bytes (Z.to_nat (o + 12)) 4 (file_is_bytes _ Hf)) as Hhi.
  rewrite shiftl_lor_halves by done. fold (lddw_address bytes o). fold old.
  rewrite (proj2 (Z.eqb_neq _ _)) by done.
  assert (MM_REGION_SIZE = 2 ^ 32) as Hreg by done.
  assert (is_u 64 old) as Hou by (unfold old, lddw_address, is_u in *; lia).
  set (new := if old <? MM_REGION_SIZE then saturating_add_u64 MM_REGION_SIZE old else old).
  assert (new = if old <? MM_REGION_SIZE then old + MM_REGION_SIZE else old) as Hnew.
  { subst new. unfold saturating_add_u64, u64_max, is_u in *. case_match; lia. }
  assert (is_u 64 new) as Hnu by (rewrite Hnew; unfold is_u in *; case_match; lia).
  rewrite <- Hnew. clearbody new.
  rewrite (write_imm_eq bytes (o + 4)) by (done || lia || apply low_half_u).
  rewrite (proj2 (Z.leb_le _ _)) by lia. cbn [mbind result_bind].
  set (b1 := splice bytes (Z.to_nat (o + 4)) (le_bytes 4 (low_half new))).
  assert (length b1 = length bytes) as Hb1 by (apply length_splice; rewrite length_le_bytes; lia).
  assert (file_ok b1) as Hf1.
  { apply file_ok_splice; [done|apply is_bytes_le_bytes|rewrite length_le_bytes; lia]. }
  rewrite (write_imm_eq b1 (o + 12)) by (done || lia || apply high_half_u).
  rewrite Hb1, (proj2 (Z.leb_le _ _)) by lia. eexists. split; [done|]. split_and!.
  - unfold lddw_address. rewrite int_at_splice by (lia || apply high_half_u).
    rewrite int_at_splice_other by (rewrite length_le_bytes; lia). unfold b1.
    rewrite int_at_splice by (lia || apply low_half_u). by apply halves_sum.
  - rewrite length_splice; [done|rewrite length_le_bytes; lia].
  - intros j Hj1 Hj2. rewrite lookup_splice_outside by (rewrite length_le_bytes; lia).
    unfold b1. by rewrite lookup_splice_outside by (rewrite length_le_bytes; lia).
Qed.
End RelocationResult.
