(* ===== verification/ElfLoadFacts.v ===== *)
(** * Loaded executables

    The strict and the lenient loader: what a loaded executable guarantees,
    that loading does not panic, and that a loaded and verified program runs to
    its end in the interpreter. *)

From stdpp Require Import gmap strings.
From S2P Require Import Prelude Ebpf Program Verifier VerifierFacts Error MemoryRegion.
From S2P Require Import AlignedMemory ElfParser ElfParserFacts Text Vm Elf ElfFacts.
From S2P Require Import Interpreter InterpreterFacts.

(** ** Copies of the file *)
Section Copy.
Context {E : Type} {P : Profile} {A : Allocator} {AL : AllocatorLaws}.

Lemma from_slice_ok data m :
  am_from_slice (E := E) HOST_ALIGN data = Ok m ->
  (forall F, am_as_slice (E := F) m = Ok data) /\ av_ptr (am_mem m) mod HOST_ALIGN = 0 /\
  Z.of_nat (length data) <= i64_max.
Proof.
  intros H. apply (build_holds HOST_ALIGN (FromSlice data)) in H; [|done]. simpl in H.
  split_and!; [|apply H|apply H]. intros F. by eapply as_slice_holds.
Qed.

(** The allocator has room for every copy. *)
Definition can_allocate (data : list byte) : Prop :=
  Z.of_nat (length data) <= i64_max - 15 /\ alloc (Z.of_nat (length data)) HOST_ALIGN <> None.

Lemma from_slice_no_panic data :
  can_allocate data -> am_from_slice (E := E) HOST_ALIGN data <> Panic.
Proof.
  intros [Hl Ha]. unfold am_from_slice.
  assert (av_new (E := E) HOST_ALIGN (Z.of_nat (length data)) false <> Panic) as Hn.
  { unfold av_new. simpl. case_match; [done|]. unfold layout_ok, i64_max in *.
    rewrite (proj2 (Z.leb_le _ _)) by (unfold HOST_ALIGN; lia). simpl.
    by destruct (alloc _ _). }
  apply bind_no_panic; [done|]. intros v Hv. apply new_holds in Hv; [|lia].
  destruct (append_holds (E := E) HOST_ALIGN _ _ _ data Hv) as (v1 & H1 & v2 & H2 & _); [simpl; lia|].
  simpl in H1, H2. change (Z.of_nat 0) with 0 in H1. rewrite H1. simpl. by rewrite H2.
Qed.
End Copy.

(** ** The strict loader *)

(** Read-only data and text follow the program headers in the file without a
    gap; the text holds whole instructions, the entry point among them. *)
Record strict_layout (bytes : list byte) (ro text : range) (entry : Z) : Prop := {
  sl_headers : size_of (T := Elf64Ehdr) + size_of (T := Elf64Phdr) <= ro.1;
  sl_ro : ro.1 <= ro.2;
  sl_adjacent : text.1 = ro.2;
  sl_text : text.1 < text.2 <= Z.of_nat (length bytes);
  sl_start : text.1 mod INSN_SIZE = 0;
  sl_whole : (text.2 - text.1) mod INSN_SIZE = 0;
  sl_small : text.2 - text.1 < MM_REGION_SIZE /\ ro.2 - ro.1 < MM_REGION_SIZE;
  sl_entry : 0 <= entry /\ text.1 + entry * INSN_SIZE + INSN_SIZE <= text.2
}.

(** A checked program header, its conditions as propositions. *)
Record phdr_strict (len off : Z) (h : Elf64Phdr) (flags vaddr : Z) : Prop := {
  ps_load : p_type h = PT_LOAD;
  ps_flags : p_flags h = flags;
  ps_offset : p_offset h = off;
  ps_before : off < len;
  ps_aligned : off mod INSN_SIZE = 0;
  ps_vaddr : p_vaddr h = vaddr;
  ps_memsz : p_memsz h = p_filesz h;
  ps_fits : off + p_filesz h <= len;
  ps_whole : p_filesz h mod INSN_SIZE = 0;
  ps_small : p_filesz h < MM_REGION_SIZE
}.

Lemma strict_phdr_ok_spec len off h flags vaddr :
  strict_phdr_ok len off h flags vaddr = true -> phdr_strict len off h flags vaddr.
Proof.
  unfold strict_phdr_ok. rewrite !andb_true_iff, !Z.eqb_eq, !Z.ltb_lt, !Z.leb_le.
  intros H. destruct_and! H.
  unfold saturating_sub_u64 in *. split; try congruence; lia.
Qed.

Lemma phdr_strict_range len off h flags vaddr :
  phdr_strict len off h flags vaddr -> len <= i64_max ->
  phdr_range_or_default h = (off, off + p_filesz h).
Proof.
  intros [Hl _ Ho _ _ _ _ Hf _ _] Hlen. unfold phdr_range_or_default, phdr_file_range.
  rewrite Hl, Z.eqb_refl. simpl. rewrite Ho. f_equal.
  unfold saturating_add_u64, i64_max, u64_max in *. lia.
Qed.

(** The entry point lies in the text segment. *)
Lemma strict_entry h e size :
  p_vaddr h = MM_BYTECODE_START -> p_memsz h = size -> is_u 64 e -> 0 <= size < MM_REGION_SIZE ->
  size mod INSN_SIZE = 0 ->
  negb (range_contains (phdr_vm_range h)
          (saturating_sub_u64 (saturating_add_u64 e INSN_SIZE) 1))
  || negb (e mod INSN_SIZE =? 0) = false ->
  let pc := saturating_sub_u64 e (p_vaddr h) / INSN_SIZE in
  0 <= pc /\ pc * INSN_SIZE + INSN_SIZE <= size.
Proof.
  intros Hv Hm He Hs Hmod Hc. unfold phdr_vm_range, range_contains in Hc. simpl in Hc.
  rewrite Hv, Hm in *. unfold saturating_add_u64, saturating_sub_u64, INSN_SIZE, u64_max, is_u in *.
  assert (MM_BYTECODE_START = 2 ^ 32) as Hb by done. assert (MM_REGION_SIZE = 2 ^ 32) as Hr by done.
  rewrite Hb, Hr in *. apply orb_false_iff in Hc as [Hc1 Hc2].
  apply negb_false_iff in Hc1, Hc2. apply Z.eqb_eq in Hc2.
  simpl. Z.to_euclidean_division_equations. lia.
Qed.

(** Labels of the strict loader keep the registry's targets in range. *)
Lemma unwrapped_ok {E F A} (r : result E A) a : unwrapped (F := F) r = Ok a <-> r = Ok a.
Proof. destruct r; naive_solver. Qed.

Lemma strict_register_symbols_targets bytes names vaddr l r r' :
  Forall sym_typed l -> is_u 64 vaddr -> targets_ok r ->
  strict_register_symbols bytes names vaddr l r = Ok r' -> targets_ok r'.
Proof.
  intros Hl Hv. revert r. induction Hl as [|s l Hs _ IH]; intros r Hr H; simpl in H; [by injection H as <-|].
  case_match; [by eapply IH|].
  apply result_bind_ok in H as (n & _ & H). apply result_bind_ok in H as (r1 & H1 & H).
  rewrite unwrapped_ok in H1.
  eapply IH; [|exact H]. eapply register_function_targets; [exact Hr| |exact H1].
  destruct Hs as (_ & _ & _ & _ & Hs & _). unfold saturating_sub_u64, INSN_SIZE, is_u in *.
  split; [apply Z.div_pos; lia|apply Z.div_lt_upper_bound; lia].
Qed.

Lemma strict_find_sections_typed bytes names l f g :
  Forall shdr_typed l -> (forall h, f.2 = Some h -> shdr_typed h) ->
  strict_find_sections bytes names l f = Ok g -> forall h, g.2 = Some h -> shdr_typed h.
Proof.
  intros Hl. revert f. induction Hl as [|s l Hs _ IH]; intros f Hf H; simpl in H; [by injection H as <-|].
  apply result_bind_ok in H as (n & _ & H). eapply IH; [|exact H].
  simpl. intros h0 Hh0. case_bool_decide; [by simplify_eq|by apply Hf].
Qed.

Lemma strict_labels_targets elf_addr bytes h vaddr r :
  is_bytes bytes -> ehdr_typed h -> is_u 64 vaddr ->
  strict_labels elf_addr bytes fh_range h (ph_range h) vaddr = Ok r -> targets_ok r.
Proof.
  intros Hb Hh Hv H. unfold strict_labels in H.
  apply result_bind_ok in H as ([rg shs] & Hs & H). rewrite unwrapped_ok in Hs.
  apply parse_section_header_table_ok in Hs as (_ & _ & _ & Hs); [|done].
  apply (table_at_typed _ _ _ _ _ Hb) in Hs.
  apply result_bind_ok in H as (nm & _ & H). apply result_bind_ok in H as (names & _ & H).
  apply result_bind_ok in H as ([f g] & Hfg & H).
  assert (forall h', g = Some h' -> shdr_typed h') as Hg
    by exact (strict_find_sections_typed bytes names shs (None, None) (f, g) Hs ltac:(done) Hfg).
  destruct f as [f|], g as [g|]; try done; [|injection H as <-; apply targets_ok_default].
  apply result_bind_ok in H as (syms & Hsy & H). rewrite unwrapped_ok in Hsy.
  apply slice_from_section_header_ok in Hsy; [|by apply Hg].
  apply (stored_at_typed _ _ _ _ Hb) in Hsy.
  by eapply strict_register_symbols_targets; [| |apply targets_ok_default|exact H].
Qed.

Section Strict.
Context {V : Type} {P : Profile} {B : ByteOrder} {U : ByteOrderUnsigned} {M : Murmur3}.
Context {A : Allocator} {AL : AllocatorLaws}.
Implicit Types (loader : BuiltinProgram V).

Record strict_ok (bytes : list byte) loader (e : Executable V) : Prop := {
  so_bytes : elf_bytes e = bytes;
  so_length : Z.of_nat (length bytes) <= i64_max;
  so_loader : exec_loader e = loader;
  so_vaddr : text_section_vaddr e = MM_BYTECODE_START;
  so_ro : exists ro, ro_section e = Borrowed MM_RODATA_START ro /\
    strict_layout bytes ro (text_section_range e) (entry_pc e);
  so_functions : targets_ok (function_registry e)
}.

(** The checks of the file header that the layout depends on. *)
Lemma strict_header_phnum h ph_end len :
  strict_header_ok h ph_end len = true -> e_phoff h = size_of (T := Elf64Ehdr) /\ e_phnum h <> 0 /\ ph_end <= len.
Proof.
  unfold strict_header_ok. rewrite !andb_true_iff, !negb_true_iff, !Z.eqb_eq, Z.eqb_neq, Z.leb_le.
  intros H. by destruct_and! H.
Qed.

(** The two accepted shapes: text alone, or read-only data before the text. *)
Lemma strict_segments len ph_end phs first :
  len <= i64_max -> Forall phdr_typed phs -> get phs 0 = Some first ->
  let skip := negb (p_flags first =? PF_R) in
  strict_check_phdrs len ph_end
    (zip phs (if skip then drop 1 EXPECTED_PROGRAM_HEADERS else EXPECTED_PROGRAM_HEADERS)) = Ok tt ->
  forall ro text,
  (if skip then Ok ((ph_end, ph_end), first)
   else second ← or_panic (get phs 1); Ok (phdr_range_or_default first, second)) = (Ok (ro, text) : parsed _) ->
  exists off, phdr_strict len off text PF_X MM_BYTECODE_START /\ phdr_typed text /\
    ro = (ph_end, off) /\ ph_end <= off /\ off - ph_end < MM_REGION_SIZE.
Proof.
  intros Hlen Hty Hfirst skip Hc ro text Hro. subst skip.
  destruct phs as [|h phs]; [done|]. change (get (h :: phs) 0) with (Some h) in Hfirst.
  injection Hfirst as ->. apply Forall_cons in Hty as [Hty1 Hty].
  destruct (p_flags first =? PF_R) eqn:Hf; simpl negb in *; cbn iota in *.
  - destruct phs as [|h2 phs]; [done|]. change (get (first :: h2 :: phs) 1) with (Some h2) in Hro.
    simpl in Hro. injection Hro as <- <-. simpl in Hc.
    destruct (strict_phdr_ok len ph_end first PF_R MM_RODATA_START) eqn:H1; simpl in Hc; [|done].
    destruct (strict_phdr_ok len _ h2 PF_X MM_BYTECODE_START) eqn:H2; simpl in Hc; [|done].
    apply strict_phdr_ok_spec in H1, H2.
    assert (saturating_add_u64 ph_end (p_filesz first) = ph_end + p_filesz first) as Hs.
    { pose proof (ps_fits _ _ _ _ _ H1). unfold saturating_add_u64, i64_max, u64_max in *. lia. }
    rewrite Hs in H2. rewrite (phdr_strict_range _ _ _ _ _ H1 Hlen).
    apply Forall_cons in Hty as [Hty2 _]. pose proof (ps_small _ _ _ _ _ H1).
    unfold phdr_typed, is_u in Hty1. eexists. split_and!; [done|done|done|lia|lia].
  - injection Hro as <- <-. simpl in Hc.
    assert (forall l : list Elf64Phdr, zip l ([] : list (Z * Z)) = []) as Hz by by intros [].
    rewrite Hz in Hc. simpl in Hc.
    destruct (strict_phdr_ok len ph_end first PF_X MM_BYTECODE_START) eqn:H1; simpl in Hc; [|done].
    apply strict_phdr_ok_spec in H1. assert (0 < MM_REGION_SIZE) by done.
    eexists. split_and!; [done|done|done|lia|lia].
Qed.

Lemma load_strict_ok bytes loader e :
  is_bytes bytes -> load_with_strict_parser bytes loader = Ok e -> strict_ok bytes loader e.
Proof.
  intros Hb H. unfold load_with_strict_parser in H.
  apply result_bind_ok in H as (m & Hm & H).
  destruct (from_slice_ok _ _ Hm) as (Has & Hal & Hlen). rewrite Has in H. cbn [mbind result_bind] in H.
  set (addr := av_ptr (am_mem m)) in *. set (len := Z.of_nat (length bytes)) in *.
  apply result_bind_ok in H as ([fh h] & Hh & H).
  apply parse_file_header_ok in Hh as (-> & -> & Hin). set (h := read_pod _) in *.
  pose proof (header_typed bytes Hb : ehdr_typed h) as Hty. clearbody h.
  set (pr := (_, saturating_add_u64 _ _)) in H.
  assert (pr = (64, 64 + e_phnum h * 56)) as Hpr.
  { subst pr. unfold ehdr_typed, is_u in Hty. unfold saturating_add_u64, saturating_mul_u64, u64_max. simpl.
    f_equal. lia. }
  clearbody pr. subst pr. cbn [snd] in H.
  destruct (strict_header_ok h _ len) eqn:Hok; cbn [negb] in H; [|done].
  apply strict_header_phnum in Hok as (Hpo & Hpn & Hend).
  apply result_bind_ok in H as (phs & Hphs & H).
  apply slice_from_bytes_ok in Hphs as (n & Hn & Hphs); [|done..].
  apply (table_at_typed _ _ _ _ _ Hb) in Hphs.
  apply result_bind_ok in H as (first & Hfirst & H). apply or_panic_ok in Hfirst.
  set (skip := negb (p_flags first =? PF_R)) in *.
  destruct (negb skip && (e_phnum h <? 2)); [done|].
  apply result_bind_ok in H as ([] & Hc & H).
  apply result_bind_ok in H as ([ro text] & Hro & H).
  destruct (strict_segments len (64 + e_phnum h * 56) phs first Hlen Hphs Hfirst Hc ro text Hro)
    as (off & Htext & Htyped & -> & Hoff & Hsmall).
  match type of H with (if ?b then _ else _) = _ => destruct b eqn:Hentry end; [done|].
  apply result_bind_ok in H as (c & _ & H). apply result_bind_ok in H as (r & Hr & H).
  injection H as <-.
  assert (targets_ok r) as Htargets.
  { destruct (enable_symbol_and_section_labels c); [|injection Hr as <-; apply targets_ok_default].
    replace (64, 64 + e_phnum h * 56) with (ph_range h) in Hr
      by (unfold ph_range; rewrite Hpo; done).
    eapply strict_labels_targets; [done|done| |exact Hr]. apply Htyped. }
  destruct (strict_entry text (e_entry h) (p_filesz text) (ps_vaddr _ _ _ _ _ Htext)
    (ps_memsz _ _ _ _ _ Htext)) as [He1 He2]; [apply Hty| |apply Htext|done|].
  { pose proof (ps_small _ _ _ _ _ Htext). unfold phdr_typed, is_u in Htyped. lia. }
  split; simpl; try done; [apply Htext|]. eexists. split; [done|].
  rewrite (phdr_strict_range _ _ _ _ _ Htext Hlen).
  destruct Htext as [_ _ _ Hlt Ha _ _ Hfit Hw Hs]. unfold ehdr_typed, is_u, phdr_typed in *.
  unfold INSN_SIZE in *.
  split; simpl; unfold INSN_SIZE; first [lia | done | by rewrite Z.add_simpl_l].
Qed.
End Strict.

(** ** Read-only sections *)
Definition section_length (h : Elf64Shdr) : Z :=
  (shdr_range_or_default h).2 - (shdr_range_or_default h).1.

(** A section header whose bytes lie in the file. *)
Record section_in (len : Z) (h : Elf64Shdr) : Prop := {
  si_typed : shdr_typed h;
  si_fits : sh_offset h + sh_size h <= len
}.

Lemma section_in_range len h :
  len <= i64_max -> section_in len h ->
  shdr_range_or_default h = (if sh_type h =? SHT_NOBITS then (0, 0)
                             else (sh_offset h, sh_offset h + sh_size h)).
Proof.
  intros Hl [_ Hf]. unfold shdr_range_or_default, shdr_file_range.
  destruct (sh_type h =? SHT_NOBITS); simpl; [done|]. f_equal.
  unfold saturating_add_u64, i64_max, u64_max in *. lia.
Qed.

Section Ro.
Context (bytes : list byte) (Hf : file_ok bytes).
Let len := Z.of_nat (length bytes).

(** What the loop has gathered. *)
Record ro_inv (s : RoState) : Prop := {
  ri_slices : Forall (fun ad => lowest_addr s <= ad.1 /\ 0 <= ad.1 /\ is_bytes ad.2 /\
                ad.1 + Z.of_nat (length ad.2) <= highest_addr s) (ro_slices s);
  ri_low : 0 <= lowest_addr s <= u64_max;
  ri_high : 0 <= highest_addr s <= MM_REGION_SIZE + len;
  ri_borrow : invalid_offsets s = false -> highest_addr s <= len
}.

Definition covers (lo hi : Z) (h : Elf64Shdr) : Prop :=
  lo <= sh_addr h /\ sh_addr h + section_length h <= hi.

(** The bytes of a section, and the slices of the read-only ones. *)
Definition section_bytes (h : Elf64Shdr) : list byte :=
  file_bytes bytes (shdr_range_or_default h).1 (section_length h).
Definition slices_of (l : list (option (list byte) * Elf64Shdr)) : list (Z * list byte) :=
  (fun nh => (sh_addr nh.2, section_bytes nh.2)) <$> filter (fun nh => is_ro_name nh.1 = true) l.

(** A section whose addresses no other read-only section has. *)
Definition ro_alone (sections : list (option (list byte) * Elf64Shdr)) (h : Elf64Shdr) : Prop :=
  Forall (fun nh => is_ro_name nh.1 = true ->
    nh.2 = h \/ sh_addr nh.2 + section_length nh.2 <= sh_addr h \/ sh_addr h + section_length h <= sh_addr nh.2) sections.

Lemma ro_inv_init : ro_inv RoState_init.
Proof. split; simpl; [by apply Forall_nil|done|unfold len; assert (0 < MM_REGION_SIZE) by done; lia|intros; unfold len; lia]. Qed.

Lemma section_data_ok h :
  section_in len h -> 0 <= section_length h /\
  slice_get bytes (shdr_range_or_default h) =
    Some (file_bytes bytes (shdr_range_or_default h).1 (section_length h)) /\
  Z.of_nat (length (file_bytes bytes (shdr_range_or_default h).1 (section_length h))) = section_length h /\
  (sh_addr h = sh_offset h -> sh_addr h + section_length h <= len).
Proof.
  intros Hs. pose proof (section_in_range len h (file_length _ Hf) Hs) as Hr.
  destruct Hs as [Ht Hfit]. unfold shdr_typed, is_u in Ht. unfold section_length. rewrite Hr.
  unfold len in *. destruct (sh_type h =? SHT_NOBITS); simpl.
  - split_and!; [done| |done|lia]. apply slice_get_Some. simpl. split; [lia|done].
  - split_and!; [lia| | |lia].
    + apply slice_get_Some. simpl. split; [lia|done].
    + apply length_file_bytes; lia.
Qed.

Lemma ro_loop_ok reject i s l :
  Forall (fun nh => section_in len nh.2) l -> ro_inv s ->
  ro_loop reject bytes i s l <> Panic /\
  forall s', ro_loop reject bytes i s l = Ok s' -> ro_inv s' /\
    lowest_addr s' <= lowest_addr s /\ highest_addr s <= highest_addr s' /\
    ro_slices s' = ro_slices s ++ slices_of l /\
    Forall (fun nh => is_ro_name nh.1 = true -> covers (lowest_addr s') (highest_addr s') nh.2) l.
Proof.
  intros Hl. revert i s. induction Hl as [|[name h] l Hh _ IH]; intros i s Hs; simpl.
  { split; [done|]. intros s' [= <-]. split_and!; try done. by rewrite app_nil_r. }
  unfold slices_of. rewrite filter_cons. cbn [fst].
  destruct (is_ro_name name) eqn:Hn; simpl.
  2:{ destruct (IH (i + 1) s Hs) as [Hp Hok]. split; [done|]. intros s' H'.
      destruct (Hok s' H') as (? & ? & ? & Hsl & ?). split_and!; [done..|]. apply List.Forall_cons; [by simpl; rewrite Hn|done]. }
  simpl in Hh. destruct (section_data_ok h Hh) as (Hl0 & Hget & Hlen & Hoff). rewrite Hget. simpl.
  set (data := file_bytes bytes _ _) in *.
  match goal with |- (if ?b then _ else _) <> Panic /\ _ => destruct b eqn:Hb end; [by split|].
  apply orb_false_iff in Hb as [_ Hb]. apply Z.ltb_ge in Hb.
  destruct Hh as [Ht Hfit]. unfold shdr_typed, is_u in Ht.
  assert (MM_REGION_SIZE = 2 ^ 32) as Hr32 by done. assert (MM_STACK_START = 2 ^ 33) as Hs33 by done.
  pose proof (file_length _ Hf) as Hfl. fold len in Hfl. unfold i64_max in Hfl.
  assert (section_length h <= len) as Hsl.
  { rewrite <- Hlen. unfold data, file_bytes, len. rewrite length_take, length_drop. lia. }
  assert (sh_addr h <= MM_REGION_SIZE) as Ha by (unfold saturating_add_u64, u64_max in Hb; lia).
  assert (saturating_add_u64 (sh_addr h) (Z.of_nat (length data)) = sh_addr h + section_length h) as Hend.
  { rewrite Hlen. unfold saturating_add_u64, u64_max. lia. }
  rewrite Hend. set (s1 := mkRo _ _ _ _ _ _ _ _).
  assert (ro_inv s1) as Hs1.
  { destruct Hs as [Hsl1 Hlow Hhigh Hbor]. split; simpl; try lia.
    - apply Forall_app. split.
      + eapply Forall_impl; [exact Hsl1|]. intros [a d] (? & ? & ? & ?). simpl in *. split_and!; [lia..|done|lia].
      + apply Forall_singleton. simpl. split_and!; [lia|lia| |lia].
        by apply is_bytes_file_bytes, Hf.
    - intros Hinv. apply orb_false_iff in Hinv as [Hi1 Hi2]. apply negb_false_iff, Z.eqb_eq in Hi2.
      specialize (Hbor Hi1). specialize (Hoff Hi2). lia. }
  destruct (IH (i + 1) s1 Hs1) as [Hp Hok]. split; [done|]. intros s' H'.
  destruct (Hok s' H') as (? & Hlo & Hhi & Hss & ?). simpl in Hlo, Hhi, Hss. split_and!; try lia; try done.
  { rewrite Hss, <- app_assoc. done. }
  apply Forall_cons. split; [|done]. intros _. unfold covers. simpl. lia.
Qed.

(** Every slice lands inside the buffer. *)
Lemma copy_ro_slices_ok lowest buf l :
  is_bytes buf -> 0 <= lowest -> Z.of_nat (length buf) <= i64_max ->
  Forall (fun ad => lowest <= ad.1 /\ is_bytes ad.2 /\
            ad.1 - lowest + Z.of_nat (length ad.2) <= Z.of_nat (length buf)) l ->
  exists buf', copy_ro_slices buf lowest l = Ok buf' /\ is_bytes buf' /\ length buf' = length buf.
Proof.
  intros Hb Hlo Hmax Hl. revert buf Hb Hmax Hl.
  induction l as [|[a d] l IH]; intros buf Hb Hmax Hl; simpl; [by exists buf|].
  apply Forall_cons in Hl as [(Ha & Hd & Hfit) Hl]. simpl in *.
  assert (saturating_sub_u64 a lowest = a - lowest) as -> by (unfold saturating_sub_u64; lia).
  assert (file_ok buf) as Hbuf by by split.
  rewrite slice_get_at by (done || lia). rewrite (proj2 (Z.leb_le _ _)) by lia. simpl.
  pose proof (length_file_bytes buf (a - lowest) (Z.of_nat (length d)) ltac:(lia) ltac:(lia) ltac:(lia)).
  rewrite (proj2 (Nat.eqb_eq _ _)) by lia. simpl.
  assert (length (splice buf (Z.to_nat (a - lowest)) d) = length buf) as Hsl by (apply length_splice; lia).
  destruct (file_ok_splice buf (Z.to_nat (a - lowest)) d Hbuf Hd ltac:(lia)) as [Hb' Hm'].
  destruct (IH _ Hb' Hm') as (buf' & ? & ? & ?); [by rewrite Hsl|].
  exists buf'. split_and!; [done..|congruence].
Qed.

(** A slice that no other one overlaps stays in the buffer. *)
Definition holds_slice (buf : list byte) (lowest : Z) (ad : Z * list byte) : Prop :=
  file_bytes buf (ad.1 - lowest) (Z.of_nat (length ad.2)) = ad.2.
Definition slices_apart (x y : Z * list byte) : Prop :=
  x = y \/ x.1 + Z.of_nat (length x.2) <= y.1 \/ y.1 + Z.of_nat (length y.2) <= x.1.

Lemma splice_holds buf lowest x y :
  lowest <= x.1 -> lowest <= y.1 -> x.1 - lowest + Z.of_nat (length x.2) <= Z.of_nat (length buf) ->
  slices_apart x y -> x = y \/ holds_slice buf lowest y ->
  holds_slice (splice buf (Z.to_nat (x.1 - lowest)) x.2) lowest y.
Proof.
  intros Hx Hy Hb Ha Hold. unfold holds_slice, file_bytes in *. destruct (decide (x = y)) as [->|Hne].
  { rewrite Nat2Z.id. apply take_drop_splice. lia. }
  destruct Hold as [|Hold]; [done|]. destruct Ha as [|Ha]; [done|]. rewrite <- Hold at 2.
  apply list_eq. intros i. rewrite Nat2Z.id, !lookup_take, !lookup_drop. case_decide; [|done].
  apply lookup_splice_outside; lia.
Qed.

Lemma copy_ro_slices_holds lowest buf l buf' y :
  Forall (fun ad => lowest <= ad.1 /\ ad.1 - lowest + Z.of_nat (length ad.2) <= Z.of_nat (length buf)) l ->
  lowest <= y.1 -> Forall (fun x => slices_apart x y) l -> y ∈ l \/ holds_slice buf lowest y ->
  copy_ro_slices buf lowest l = Ok buf' -> holds_slice buf' lowest y.
Proof.
  intros Hl Hy Ha. revert buf Hl. induction Ha as [|[a d] l Hx _ IH]; intros buf Hl Hin; simpl.
  { intros [= <-]. destruct Hin as [Hin|]; [by apply elem_of_nil in Hin|done]. }
  apply Forall_cons in Hl as [[Hlo Hfit] Hl]. simpl in *. intros H.
  apply result_bind_ok in H as (dst & _ & H). destruct (negb _); [done|].
  replace (saturating_sub_u64 a lowest) with (a - lowest) in H by (unfold saturating_sub_u64; lia).
  eapply IH; [| |exact H].
  - by rewrite length_splice by lia.
  - assert (Hsp := splice_holds buf lowest (a, d) y Hlo Hy Hfit Hx). simpl in Hsp.
    destruct Hin as [[->|Hin]%elem_of_cons|Hin]; [right; apply Hsp; by left|by left|right; apply Hsp; by right].
Qed.

(** The read-only section that is built, and where it holds each of the
    sections it is made of. *)
Definition ro_ok (sections : list (option (list byte) * Elf64Shdr)) (sec : Section_) : Prop :=
  match sec with
  | Owned off data =>
      exists lo, 0 <= lo /\ off = ro_addr_offset lo /\ is_bytes data /\ Z.of_nat (length data) <= len /\
        Forall (fun nh => is_ro_name nh.1 = true ->
                  covers lo (lo + Z.of_nat (length data)) nh.2 /\
                  (ro_alone sections nh.2 -> file_bytes data (sh_addr nh.2 - lo) (section_length nh.2) = section_bytes nh.2))
          sections
  | Borrowed off (lo, hi) =>
      0 <= lo /\ off = ro_addr_offset lo /\ 0 <= hi <= len /\
      Forall (fun nh => is_ro_name nh.1 = true -> covers lo hi nh.2) sections
  end.

Lemma alone_apart sections h :
  Forall (fun nh => section_in len nh.2) sections -> section_in len h -> ro_alone sections h ->
  Forall (fun x => slices_apart x (sh_addr h, section_bytes h)) (slices_of sections).
Proof.
  intros Hin Hh Ha. unfold slices_of. apply Forall_fmap, Forall_forall. intros [nm h'] [Hro Hel]%list_elem_of_filter.
  unfold ro_alone in Ha. rewrite Forall_forall in Hin, Ha. specialize (Hin _ Hel). specialize (Ha _ Hel Hro). simpl in *.
  unfold slices_apart. simpl. destruct (section_data_ok h' Hin) as (_ & _ & Hl' & _).
  destruct (section_data_ok h Hh) as (_ & _ & Hl & _). fold (section_bytes h') in Hl'. fold (section_bytes h) in Hl.
  rewrite Hl, Hl'. destruct Ha as [->|Ha]; [by left|by right].
Qed.

Lemma owned_ro_ok sections slices lo n :
  Forall (fun nh => section_in len nh.2) sections -> slices = slices_of sections ->
  0 <= lo -> 0 <= n ->
  Forall (fun ad => lo <= ad.1 /\ is_bytes ad.2 /\ ad.1 - lo + Z.of_nat (length ad.2) <= n) slices ->
  Forall (fun nh => is_ro_name nh.1 = true -> covers lo (lo + n) nh.2) sections ->
  let r := (if len <? n then Err ValueOutOfBounds
            else buf ← copy_ro_slices (replicate (Z.to_nat n) 0) lo slices; Ok (Owned (ro_addr_offset lo) buf)) in
  r <> Panic /\ forall sec, r = Ok sec -> ro_ok sections sec /\ section_offset sec = ro_addr_offset lo.
Proof.
  intros Hin -> Hlo Hn Hsl Hc. destruct (Z.ltb_spec len n) as [|Hfit]; [by split|]. cbv zeta.
  pose proof (file_length _ Hf) as Hfl. fold len in Hfl.
  destruct (copy_ro_slices_ok lo (replicate (Z.to_nat n) 0) (slices_of sections)) as (buf & Hcp & Hbb & Hbl);
    rewrite ?length_replicate, ?Z2Nat.id by done; [apply Forall_replicate; unfold is_u; lia|done|lia|done|].
  rewrite length_replicate in Hbl. rewrite Hcp. simpl. split; [done|]. intros sec [= <-]. split; [|done].
  exists lo. split_and!; [done|done|done|lia|]. rewrite Hbl, Z2Nat.id by done.
  apply Forall_forall. intros [nm h] Hel Hro. rewrite !Forall_forall in Hc, Hin.
  pose proof (Hin _ Hel) as Hh. pose proof (Hc _ Hel Hro) as Hcov. split; [done|]. intros Ha. cbn [snd] in *.
  destruct (section_data_ok h Hh) as (_ & _ & Hl & _). fold (section_bytes h) in Hl. rewrite <- Hl.
  apply (copy_ro_slices_holds lo (replicate (Z.to_nat n) 0) (slices_of sections) buf (sh_addr h, section_bytes h)).
  - rewrite length_replicate, Z2Nat.id by done. eapply Forall_impl; [exact Hsl|]. by intros ad (? & _ & ?).
  - apply Hcov.
  - apply alone_apart; [by apply Forall_forall|done..].
  - left. unfold slices_of. apply list_elem_of_fmap. exists (nm, h). split; [done|]. by apply list_elem_of_filter.
  - done.
Qed.

Lemma parse_ro_sections_ok config sections :
  Forall (fun nh => section_in len nh.2) sections ->
  parse_ro_sections config sections bytes <> Panic /\
  forall sec, parse_ro_sections config sections bytes = Ok sec ->
    ro_ok sections sec /\ (optimize_rodata config = false -> section_offset sec = MM_REGION_SIZE).
Proof.
  intros Hs. unfold parse_ro_sections.
  destruct (ro_loop_ok (reject_broken_elfs config) 0 _ _ Hs ro_inv_init) as [Hp Hok].
  destruct (ro_loop _ _ _ _ _) as [s|e|]; simpl; [|by split|done].
  destruct (Hok s eq_refl) as (Hinv & _ & _ & Hss & Hcov). clear Hok Hp.
  case_match; [by split|]. destruct Hinv as [Hsl Hlow Hhigh Hbor].
  match goal with |- (if ?b then _ else _) <> Panic /\ _ => destruct b eqn:Hb end.
  { split; [done|]. intros sec [= <-]. apply andb_true_iff in Hb as [Ho Hb].
    apply andb_true_iff in Hb as [Hb _]. apply negb_true_iff in Hb. specialize (Hbor Hb).
    split; [|by rewrite Ho]. simpl. split_and!; [lia|done|lia|lia|done]. }
  pose proof (fun lo n => owned_ro_ok sections (ro_slices s) lo n Hs Hss) as Hcopy.
  unfold len in Hcopy. destruct (optimize_rodata config); simpl.
  - assert (Forall (fun nh => is_ro_name nh.1 = true -> covers (lowest_addr s)
      (lowest_addr s + saturating_sub_u64 (highest_addr s) (lowest_addr s)) nh.2) sections) as Hc.
    { eapply Forall_impl; [exact Hcov|]. intros nh Hnh Hro. specialize (Hnh Hro).
      unfold covers, saturating_sub_u64 in *. lia. }
    destruct (Hcopy (lowest_addr s) (saturating_sub_u64 (highest_addr s) (lowest_addr s))) as [Hp Hok];
      [lia|unfold saturating_sub_u64; lia| |done|].
    { eapply Forall_impl; [exact Hsl|]. intros [a d] (? & ? & ? & ?). simpl in *. unfold saturating_sub_u64.
      split_and!; [lia|done|lia]. }
    split; [done|]. intros sec Hsec. by destruct (Hok sec Hsec).
  - destruct (Hcopy 0 (highest_addr s)) as [Hp Hok]; [lia|lia| | |].
    { eapply Forall_impl; [exact Hsl|]. intros [a d] (? & ? & ? & ?). simpl in *. split_and!; [lia|done|lia]. }
    { eapply Forall_impl; [exact Hcov|]. intros nh Hnh Hro. specialize (Hnh Hro).
      unfold covers in *. lia. }
    split; [done|]. intros sec Hsec. destruct (Hok sec Hsec) as [? ->]. done.
Qed.
End Ro.

(** ** The lenient loader *)
Lemma section_names_ok elf l :
  section_names elf l <> Panic /\
  forall r, section_names elf l = Ok r ->
    (forall nh, nh ∈ r -> nh.2 ∈ l /\ forall n, nh.1 = Some n -> section_name elf (sh_name nh.2) = Ok n) /\
    (forall h n, h ∈ l -> section_name elf (sh_name h) = Ok n -> (Some n, h) ∈ r).
Proof.
  induction l as [|h l [IHp IH]]; simpl.
  { split; [done|]. intros r [= <-]. split; by intros ? ?%elem_of_nil || (by intros ? ? ?%elem_of_nil). }
  split.
  - apply bind_no_panic; [auto with nopanic|]. intros. by apply bind_no_panic.
  - intros r H. apply result_bind_ok in H as (n & Hn & H). apply result_bind_ok in H as (r' & Hr' & [= <-]).
    destruct (IH r' Hr') as [H1 H2]. split.
    + intros nh [->|Hin]%elem_of_cons.
      { split; [by apply list_elem_of_here|]. intros m. simpl. intros ->. unfold result_ok in Hn. by case_match; simplify_eq. }
      destruct (H1 _ Hin). split; [by apply list_elem_of_further|done].
    + intros h' m [->|Hin]%elem_of_cons Hm; [|by apply list_elem_of_further, H2].
      rewrite Hm in Hn. injection Hn as <-. apply list_elem_of_here.
Qed.

Lemma count_text_sections_no_panic elf c l : count_text_sections elf c l <> Panic.
Proof. revert c. induction l; intros; simpl; eauto 10 with nopanic. Qed.
Lemma check_writable_sections_no_panic elf l : check_writable_sections elf l <> Panic.
Proof. induction l; simpl; eauto 10 with nopanic. Qed.
Lemma check_section_bounds_no_panic bytes l : check_section_bounds bytes l <> Panic.
Proof. induction l; simpl; eauto 10 with nopanic. Qed.
#[local] Hint Resolve count_text_sections_no_panic check_writable_sections_no_panic
  check_section_bounds_no_panic : nopanic.

Lemma validate_no_panic elf bytes : validate elf bytes <> Panic.
Proof.
  unfold validate. repeat (case_match; [done|]). apply bind_no_panic; [auto with nopanic|]. intros ? _.
  case_match; [done|]. apply bind_no_panic; [auto with nopanic|]. intros ? _.
  apply bind_no_panic; [auto with nopanic|]. intros ? _.
  apply bind_no_panic; [auto with nopanic|]. intros ? _. by case_match.
Qed.

Lemma check_section_bounds_ok bytes l x :
  check_section_bounds bytes l = Ok x ->
  Forall (fun h => sh_offset h + sh_size h <= Z.of_nat (length bytes)) l.
Proof.
  induction l as [|h l IH]; simpl; intros H; [by apply Forall_nil|].
  apply result_bind_ok in H as (e & He & H). apply result_bind_ok in H as (s & Hs & H).
  apply ok_or_ok in He, Hs. apply slice_get_Some in Hs as [Hs _]. simpl in Hs.
  unfold checked_add_u64 in He. case_match; simplify_eq. apply Forall_cons. split; [lia|auto].
Qed.

Lemma validate_ok elf bytes x :
  validate elf bytes = Ok x ->
  Forall (fun h => sh_offset h + sh_size h <= Z.of_nat (length bytes)) (section_header_table elf) /\
  exists text, get_section elf name_text = Ok text /\
    range_contains (shdr_vm_range text) (e_entry (file_header elf)) = true.
Proof.
  unfold validate. intros H.
  repeat match type of H with (if ?b then _ else _) = Ok _ => destruct b; [done|] end.
  apply result_bind_ok in H as (n & _ & H). destruct (negb (n =? 1)); [done|].
  apply result_bind_ok in H as (? & _ & H). apply result_bind_ok in H as (? & Hb & H).
  apply check_section_bounds_ok in Hb. split; [done|].
  apply result_bind_ok in H as (text & Ht & H). exists text. split; [done|].
  by destruct (range_contains _ _).
Qed.

Section Lenient.
Context {V : Type} {P : Profile} {B : ByteOrder} {BL : ByteOrderLaws}.
Context {U : ByteOrderUnsigned} {UL : ByteOrderUnsignedLaws} {M : Murmur3} {ML : Murmur3Laws}.
Context {A : Allocator} {AL : AllocatorLaws}.
Implicit Types (loader : BuiltinProgram V).

Record lenient_ok (bytes : list byte) loader (e : Executable V) (text : Elf64Shdr) : Prop := {
  lo_file : file_ok (elf_bytes e);
  lo_length : length (elf_bytes e) = length bytes;
  lo_loader : exec_loader e = loader;
  lo_text : section_in (Z.of_nat (length bytes)) text;
  lo_vaddr : text_section_vaddr e = sh_addr text + MM_REGION_SIZE;
  lo_vaddr_max : text_section_vaddr e <= MM_STACK_START;
  lo_range : text_section_range e = shdr_range_or_default text;
  lo_entry : 0 <= entry_pc e /\ entry_pc e * INSN_SIZE < sh_size text;
  lo_ro : exists sections, ro_ok (elf_bytes e) sections (ro_section e) /\ (Some name_text, text) ∈ sections;
  lo_functions : targets_ok (function_registry e);
  lo_registered : registered_in loader (slots_of text) (function_registry e);
  lo_entrypoint : lookup_by_key (function_registry e) (hash_symbol_name entrypoint_name) =
    Some (entrypoint_name, entry_pc e)
}.

(** The section of the program, which no other read-only section overlaps. *)
Definition text_alone (elf : Elf64) (text : Elf64Shdr) : Prop :=
  forall h n, h ∈ section_header_table elf -> section_name elf (sh_name h) = Ok n -> is_ro_name (Some n) = true ->
    h = text \/ sh_addr h + section_length h <= sh_addr text \/ sh_addr text + section_length text <= sh_addr h.

(** Where the parts of the executable come from in the file. *)
Record lenient_from (bytes : list byte) loader (e : Executable V) (elf : Elf64) (text : Elf64Shdr) : Prop := {
  lf_text : get_section elf name_text = Ok text;
  lf_relocated : exists addr r, parse addr bytes = Ok elf /\
    relocate addr loader elf registry_default bytes = Ok (r, elf_bytes e);
  lf_entry : e_entry (file_header elf) = sh_addr text + entry_pc e * INSN_SIZE;
  lf_alone : text_alone elf text -> exists sections, ro_ok (elf_bytes e) sections (ro_section e) /\
    (Some name_text, text) ∈ sections /\ ro_alone sections text
}.

(** The copy that is parsed and the copy that is relocated hold the file. *)
Lemma lenient_copies bytes_addr bytes m :
  am_from_slice (E := ElfError) HOST_ALIGN bytes = Ok m ->
  forall elf_memory elf_addr unrelocated,
  (if is_memory_aligned bytes_addr HOST_ALIGN then Ok (m, bytes_addr, bytes)
   else copy ← am_clone HOST_ALIGN m; u ← am_as_slice m; Ok (copy, av_ptr (am_mem m), u))
    = (Ok (elf_memory, elf_addr, unrelocated) : loaded _) ->
  unrelocated = bytes /\ am_as_slice (E := ElfError) elf_memory = Ok bytes.
Proof.
  intros Hm mem addr u H. destruct (from_slice_ok _ _ Hm) as (Has & _ & _).
  destruct (is_memory_aligned _ _); [by injection H as <- <- <-|].
  unfold am_clone in H. rewrite Has in H. simpl in H.
  apply result_bind_ok in H as (c & Hc & H). injection H as <- <- <-.
  by destruct (from_slice_ok _ _ Hc).
Qed.

Lemma lenient_entry text e :
  shdr_typed text -> is_u 64 e -> range_contains (shdr_vm_range text) e = true ->
  saturating_sub_u64 e (sh_addr text) mod INSN_SIZE = 0 ->
  let pc := saturating_sub_u64 e (sh_addr text) / INSN_SIZE in
  is_u 64 pc /\ pc * INSN_SIZE < sh_size text /\ e = sh_addr text + pc * INSN_SIZE.
Proof.
  intros Ht He Hc Hm pc. subst pc. unfold shdr_typed, is_u in *.
  unfold range_contains, shdr_vm_range, saturating_add_u64, saturating_sub_u64, u64_max, INSN_SIZE in *.
  simpl in Hc. Z.to_euclidean_division_equations. lia.
Qed.

(** The entry point is registered under its own name. *)
Lemma entrypoint_registered loader r pc r' key :
  register_function_hashed_legacy id (unregister_function r (hash_symbol_name entrypoint_name)).1 loader true
    entrypoint_name pc = Ok (r', key) ->
  lookup_by_key r' (hash_symbol_name entrypoint_name) = Some (entrypoint_name, pc).
Proof.
  unfold register_function_hashed_legacy, id. intros H. apply result_bind_ok in H as (c & _ & H).
  rewrite decide_True in H by done. destruct (lookup_by_key _ _); [done|]. cbn [mbind result_bind] in H.
  apply result_bind_ok in H as (r1 & H1 & [= -> _]). rewrite bool_decide_true, orb_true_r in H1 by done.
  unfold register_function in H1. simpl in H1. rewrite lookup_delete_eq in H1. injection H1 as <-.
  unfold lookup_by_key. simpl. by rewrite lookup_insert_eq.
Qed.

Lemma load_lenient_ok bytes_addr bytes loader e :
  is_bytes bytes -> load_with_lenient_parser bytes_addr bytes loader = Ok e ->
  exists elf text, lenient_ok bytes loader e text /\ lenient_from bytes loader e elf text.
Proof.
  intros Hb H. unfold load_with_lenient_parser in H.
  apply result_bind_ok in H as (m & Hm & H).
  destruct (from_slice_ok _ _ Hm) as (_ & _ & Hlen).
  apply result_bind_ok in H as ([[mem addr] u] & Hcopy & H).
  apply (lenient_copies _ _ _ Hm) in Hcopy as (-> & Has). rewrite Has in H. cbn [mbind result_bind] in H.
  apply result_bind_ok in H as (elf & Helf & H). apply lift_parsed_ok in Helf.
  destruct (parse_elf_ok _ _ _ Hb Helf) as [Hok Hbytes].
  apply result_bind_ok in H as (cfg & Hcfg & H). apply or_panic_ok in Hcfg.
  apply result_bind_ok in H as ([] & Hv & H).
  apply validate_ok in Hv as (Hbounds & text & Htext & Hentry). rewrite Htext in H. cbn [mbind result_bind] in H.
  destruct (get_section_ok _ _ _ Htext) as [Hin Hname].
  match type of H with (if ?b then _ else _) = _ => destruct b eqn:Hva end; [done|].
  apply orb_false_iff in Hva as [_ Hva]. apply Z.ltb_ge in Hva.
  apply result_bind_ok in H as ([r bytes'] & Hrel & H).
  destruct (relocate_ok addr loader elf cfg Hcfg Hok registry_default bytes) as [_ Hrok];
    [by split|apply targets_ok_default|].
  destruct (Hrok _ _ Hrel) as (Hf' & Hl' & Htg).
  match type of H with (if ?b then _ else _) = _ => destruct b eqn:Hmod end; [discriminate H|].
  apply negb_false_iff, Z.eqb_eq in Hmod.
  assert (shdr_typed text) as Htt by (eapply Forall_forall; [apply Hok|done]).
  assert (is_u 64 (e_entry (file_header elf))) as Hee by apply (elf_header _ Hok).
  destruct (lenient_entry text _ Htt Hee Hentry Hmod) as (Hpc & Hpc' & Hpce).
  apply result_bind_ok in H as ([r2 key] & Hreg & H).
  apply result_bind_ok in H as (sections & Hs & H). apply section_names_ok in Hs as [Hs1 Hs2].
  assert (Forall (fun h => section_in (Z.of_nat (length bytes)) h) (section_header_table elf)) as Hsin.
  { apply Forall_forall. intros h Hh. rewrite Forall_forall in Hbounds.
    pose proof (elf_sections _ Hok) as Hty. rewrite Forall_forall in Hty. split; auto. }
  apply result_bind_ok in H as (ro & Hro & H).
  destruct (parse_ro_sections_ok bytes' Hf' cfg sections) as [_ Hrook].
  { apply Forall_forall. intros nh Hnh. rewrite Hl'. rewrite Forall_forall in Hsin. by apply Hsin, Hs1. }
  destruct (Hrook ro Hro) as [Hroo _].
  apply result_bind_ok in H as (? & _ & H). injection H as <-.
  rewrite Forall_forall in Hsin.
  assert (saturating_add_u64 (sh_addr text) MM_REGION_SIZE = sh_addr text + MM_REGION_SIZE) as Hva'.
  { assert (MM_STACK_START = 2 ^ 33) as Hss by done. unfold saturating_add_u64, u64_max in *. lia. }
  assert (Hpcn : 0 <= saturating_sub_u64 (e_entry (file_header elf)) (sh_addr text) / INSN_SIZE < slots_of text).
  { unfold is_u in Hpc. split; [lia|]. apply Z.le_succ_l, Z.div_le_lower_bound; [done|]. unfold INSN_SIZE in *. lia. }
  pose proof (relocate_registered _ _ _ _ _ _ _ Htext Htt Hrel) as Hrg.
  exists elf, text. split; [split; simpl|split; simpl]; [..|done| |done|].
  - exact Hf'.
  - exact Hl'.
  - reflexivity.
  - by apply Hsin.
  - exact Hva'.
  - exact Hva.
  - reflexivity.
  - unfold is_u in Hpc. split; [apply Hpc|exact Hpc'].
  - exists sections. split; [exact Hroo|]. by apply Hs2.
  - eapply (register_hashed_targets loader cfg Hcfg); [by apply unregister_targets|exact Hpc|exact Hreg].
  - eapply registered_hashed; [by apply registered_unregister|exact Hpcn|exact Hreg].
  - eapply entrypoint_registered, Hreg.
  - by exists addr, r.
  - intros Ha. exists sections. split_and!; [exact Hroo|by apply Hs2|]. apply Forall_forall. intros [nm h] Hel Hrn.
    destruct nm as [nm|]; [|done]. destruct (Hs1 _ Hel) as [Hin' Hnm]. by eapply Ha; [|apply Hnm|].
Qed.
End Lenient.

(** ** Loaded executables *)

(** [subslice] of [get_text_bytes] is the parser's [slice_get]. *)
Lemma subslice_eq bytes lo hi :
  0 <= lo -> lo <= hi <= Z.of_nat (length bytes) -> subslice bytes lo hi = Some (file_bytes bytes lo (hi - lo)).
Proof.
  intros. unfold subslice, file_bytes.
  by rewrite (proj2 (Z.leb_le 0 lo)), (proj2 (Z.leb_le lo hi)), (proj2 (Z.leb_le hi _)) by lia.
Qed.

Lemma subslice_ok bytes lo hi s :
  is_bytes bytes -> subslice bytes lo hi = Some s -> is_bytes s /\ Z.of_nat (length s) = hi - lo.
Proof.
  intros Hb. unfold subslice. case_match eqn:Hc; [|done]. intros [= <-].
  split; [by apply Forall_take, Forall_drop|]. rewrite length_take, length_drop. lia.
Qed.

(** Sums that wrap around end below their start. *)
Lemma arith_u64_range {E} `{Profile} z x : arith_u64 (E := E) z = Ok x -> is_u 64 x.
Proof.
  unfold arith_u64, is_u, u64_max. intros H0. repeat case_match; simplify_eq; [lia|].
  by apply as_u_range.
Qed.

Lemma arith_u64_add {E} `{Profile} a n x :
  is_u 64 a -> 0 <= n < 2 ^ 63 -> a <= x -> arith_u64 (E := E) (a + n) = Ok x -> x = a + n.
Proof.
  unfold arith_u64, is_u, u64_max, as_u. intros Ha Hn Hx H0. repeat case_match; simplify_eq; [done|].
  assert (a + n - 2 ^ 64 = (a + n) mod 2 ^ 64); [|lia].
  apply (Z.mod_unique _ _ 1); lia.
Qed.

Section Loaded.
Context {V : Type} {P : Profile} {B : ByteOrder} {BL : ByteOrderLaws}.
Context {U : ByteOrderUnsigned} {UL : ByteOrderUnsignedLaws} {M : Murmur3} {ML : Murmur3Laws}.
Context {A : Allocator} {AL : AllocatorLaws}.
Implicit Types (loader : BuiltinProgram V) (e : Executable V).

(** The result of [get_text_bytes] does not depend on the error type. *)
Lemma get_text_bytes_any {E F} e x :
  get_text_bytes (E := E) e = Ok x -> get_text_bytes (E := F) e = Ok x.
Proof.
  unfold get_text_bytes, arith_u64. destruct (text_section_range e) as [lo hi].
  destruct (ro_section e); simpl.
  - repeat (case_match; simpl; try done).
    all: destruct (subslice _ _ _); naive_solver.
  - destruct (subslice _ _ _); naive_solver.
Qed.

(** Which of the two loaders made the executable. *)
Lemma load_inv bytes_addr bytes loader e :
  load bytes_addr bytes loader = Ok e ->
  exists v e', get_sbpf_version bytes = Ok v /\ e = set_sbpf_version v e' /\
    (if enable_stricter_elf_headers v then load_with_strict_parser bytes loader = Ok e'
     else load_with_lenient_parser bytes_addr bytes loader = Ok e').
Proof.
  unfold load. intros H. apply result_bind_ok in H as (v & Hv & H). apply lift_parsed_ok in Hv.
  apply result_bind_ok in H as (c & _ & H). destruct (version_enabled c v); simpl in H; [|done].
  apply result_bind_ok in H as (e' & He' & [= <-]). exists v, e'. split_and!; [done..|].
  destruct (enable_stricter_elf_headers v); [by apply lift_parsed_ok|done].
Qed.

Lemma strict_text {E} bytes loader e :
  strict_ok bytes loader e ->
  get_text_bytes (E := E) e =
    Ok (MM_BYTECODE_START, file_bytes bytes (text_section_range e).1
                             ((text_section_range e).2 - (text_section_range e).1)).
Proof.
  intros [Hb _ _ Hv (ro & Hro & Hl) _]. unfold get_text_bytes.
  destruct (text_section_range e) as [lo hi]. rewrite Hro, Hb, Hv. simpl.
  destruct Hl as [H1 H2 H3 H4 _ _ _ _]. simpl in *. by rewrite subslice_eq by lia.
Qed.

Lemma strict_ro {E} bytes loader e ro :
  strict_ok bytes loader e -> ro_section e = Borrowed MM_RODATA_START ro ->
  get_ro_section (E := E) e = Ok (file_bytes bytes ro.1 (ro.2 - ro.1)).
Proof.
  intros [Hb _ _ Hv (ro' & Hro & Hl) _] Hro'. rewrite Hro in Hro'. injection Hro' as ->.
  unfold get_ro_section. rewrite Hro, Hb.
  destruct Hl as [H1 H2 H3 H4 _ _ _ _].
  assert (slice_get bytes ro = Some (file_bytes bytes ro.1 (ro.2 - ro.1))) as ->; [|done].
  apply slice_get_Some. split; [lia|done].
Qed.

(** C13: A file of a version with strict headers, once loaded, is laid out as
    the headers say: the executable holds the file unchanged, read-only data
    and text follow the program headers without a gap and inside the file, the
    text is a whole number of instructions of which the entry point is one,
    and the text and read-only data that the accessors return are those bytes
    of the file, at the addresses fixed for them. *)
Theorem load_strict_sound bytes_addr bytes loader e v :
  is_bytes bytes -> get_sbpf_version bytes = Ok v -> enable_stricter_elf_headers v = true ->
  load bytes_addr bytes loader = Ok e ->
  sbpf_version e = v /\ elf_bytes e = bytes /\
  exists ro, ro_section e = Borrowed MM_RODATA_START ro /\
    strict_layout bytes ro (text_section_range e) (entry_pc e) /\
    get_text_bytes (E := False) e =
      Ok (MM_BYTECODE_START, file_bytes bytes (text_section_range e).1
            ((text_section_range e).2 - (text_section_range e).1)) /\
    get_ro_section (E := False) e = Ok (file_bytes bytes ro.1 (ro.2 - ro.1)).
Proof.
  intros Hb Hv Hs (v' & e' & Hv' & -> & He')%load_inv. rewrite Hv in Hv'. injection Hv' as <-.
  rewrite Hs in He'. apply load_strict_ok in He' as Hok; [|done].
  split; [done|]. split; [apply Hok|]. destruct (so_ro _ _ _ Hok) as (ro & Hro & Hl).
  exists ro. split_and!; [done|done|exact (strict_text _ _ _ Hok)|exact (strict_ro _ _ _ _ Hok Hro)].
Qed.

Lemma ro_addr_offset_low lo : 0 <= lo < MM_REGION_SIZE -> ro_addr_offset lo = lo + MM_REGION_SIZE.
Proof.
  intros H. unfold ro_addr_offset. rewrite (proj2 (Z.leb_gt _ _)) by lia.
  assert (MM_REGION_SIZE = 2 ^ 32) as Hr by done. unfold saturating_add_u64, u64_max. lia.
Qed.

Lemma text_range_ok bytes loader e text :
  lenient_ok bytes loader e text ->
  text_section_range e = shdr_range_or_default text /\
  0 <= (text_section_range e).1 <= (text_section_range e).2 /\
  (text_section_range e).2 <= Z.of_nat (length (elf_bytes e)) /\
  section_length text = (text_section_range e).2 - (text_section_range e).1.
Proof.
  intros Hok. pose proof (lo_range _ _ _ _ Hok) as Hr. pose proof (lo_text _ _ _ _ Hok) as Ht.
  pose proof (file_length _ (lo_file _ _ _ _ Hok)) as Hl. rewrite (lo_length _ _ _ _ Hok) in *.
  split; [done|]. unfold section_length. rewrite Hr, (section_in_range _ _ Hl Ht).
  destruct Ht as [Hty Hf]. unfold shdr_typed, is_u in Hty. case_match; simpl; split_and!; lia.
Qed.

(** Text below the second region is where the accessor looks for it. *)
Lemma lenient_text {E} bytes loader e text :
  lenient_ok bytes loader e text -> sh_addr text < MM_REGION_SIZE ->
  exists prog, get_text_bytes (E := E) e = Ok (text_section_vaddr e, prog) /\
    Z.of_nat (length prog) = section_length text.
Proof.
  intros Hok Ha. destruct (text_range_ok _ _ _ _ Hok) as (_ & H0 & H1 & Hlen).
  unfold get_text_bytes. destruct (text_section_range e) as [lo hi]. simpl in *.
  assert (saturating_sub_u64 hi lo = section_length text) as -> by (unfold saturating_sub_u64; lia).
  destruct (lo_ro _ _ _ _ Hok) as (secs & Hro & Hin).
  destruct (ro_section e) as [off data|off [a b]]; simpl in *.
  - destruct Hro as (l & Hl0 & -> & _ & Hdl & Hcov). rewrite Forall_forall in Hcov.
    specialize (Hcov _ Hin eq_refl). unfold covers in Hcov. simpl in Hcov.
    rewrite ro_addr_offset_low by lia. rewrite (lo_vaddr _ _ _ _ Hok).
    pose proof (file_length _ (lo_file _ _ _ _ Hok)) as Hfl. unfold i64_max in Hfl.
    replace (sh_addr text + MM_REGION_SIZE - (l + MM_REGION_SIZE)) with (sh_addr text - l) by lia.
    rewrite arith_u64_ok by (unfold is_u; lia). simpl.
    rewrite arith_u64_ok by (unfold is_u; lia). simpl.
    rewrite subslice_eq by lia. simpl. eexists. split; [done|].
    rewrite length_file_bytes by lia. lia.
  - rewrite subslice_eq by lia. simpl. eexists. split; [done|]. rewrite length_file_bytes by lia. lia.
Qed.

Lemma lenient_ro {E} bytes loader e text :
  lenient_ok bytes loader e text -> exists data, get_ro_section (E := E) e = Ok data /\ is_bytes data.
Proof.
  intros Hok. destruct (lo_ro _ _ _ _ Hok) as (secs & Hro & Hin). unfold get_ro_section.
  destruct (ro_section e) as [off data|off [a b]]; simpl in *.
  - destruct Hro as (_ & _ & _ & Hb & _). eauto.
  - destruct Hro as (Ha & _ & Hb & Hcov). rewrite Forall_forall in Hcov.
    specialize (Hcov _ Hin eq_refl). unfold covers in Hcov. simpl in Hcov.
    destruct (text_range_ok _ _ _ _ Hok) as (_ & H0 & H1 & Hlen).
    assert (slice_get (elf_bytes e) (a, b) = Some (file_bytes (elf_bytes e) a (b - a))) as ->.
    { apply slice_get_Some. simpl. split; [lia|done]. }
    eexists. split; [done|]. apply is_bytes_file_bytes, Hok.
Qed.

(** Whatever the accessor returns are bytes, as many as the text section has. *)
Lemma lenient_text_bytes {E} bytes loader e text base prog :
  lenient_ok bytes loader e text -> get_text_bytes (E := E) e = Ok (base, prog) ->
  is_bytes prog /\ Z.of_nat (length prog) = section_length text.
Proof.
  intros Hok H. destruct (text_range_ok _ _ _ _ Hok) as (_ & H0 & H1 & Hlen).
  unfold get_text_bytes in H. destruct (text_section_range e) as [lo hi]. simpl in *.
  apply result_bind_ok in H as (t & Ht & H). injection H as <- <-.
  destruct (lo_ro _ _ _ _ Hok) as (secs & Hro & _).
  destruct (ro_section e) as [off data|off [a b]].
  - destruct Hro as (_ & _ & _ & Hb & _ & _).
    apply result_bind_ok in Ht as (o & Ho & Ht). apply result_bind_ok in Ht as (f & Hf & Ht).
    apply or_panic_ok in Ht. apply arith_u64_range in Ho.
    pose proof (file_length _ (lo_file _ _ _ _ Hok)) as Hfl. unfold i64_max in Hfl.
    apply arith_u64_add in Hf; [|done|unfold saturating_sub_u64; lia|].
    2:{ unfold subslice in Ht. case_match; [lia|done]. }
    apply subslice_ok in Ht as [? Hl]; [|done]. split; [done|].
    unfold saturating_sub_u64 in Hf. lia.
  - apply or_panic_ok, subslice_ok in Ht as [? ?]; [|apply Hok]. split; [done|lia].
Qed.

(** Text that no other read-only section overlaps is returned as the relocated
    file has it. *)
Lemma lenient_text_contents {E} bytes loader e elf text prog :
  lenient_ok bytes loader e text -> lenient_from bytes loader e elf text -> sh_addr text < MM_REGION_SIZE ->
  text_alone elf text -> get_text_bytes (E := E) e = Ok (text_section_vaddr e, prog) ->
  prog = section_bytes (elf_bytes e) text.
Proof.
  intros Hok Hfrom Hlow Ha Hp. destruct (text_range_ok _ _ _ _ Hok) as (Hr & H0 & H1 & Hlen).
  destruct (lf_alone _ _ _ _ _ Hfrom Ha) as (secs & Hro & Hin & Hal).
  unfold section_bytes. rewrite <- Hr. unfold get_text_bytes in Hp. destruct (text_section_range e) as [lo hi]. simpl in *.
  rewrite Hlen. destruct (ro_section e) as [off data|off [a b]]; simpl in *.
  - destruct Hro as (l & Hl0 & -> & _ & Hdl & Hcov). rewrite Forall_forall in Hcov.
    destruct (Hcov _ Hin eq_refl) as [Hc Hcont]. specialize (Hcont Hal). unfold covers, section_bytes in *. simpl in *.
    rewrite <- Hr, Hlen in Hcont. simpl in Hcont.
    rewrite ro_addr_offset_low, (lo_vaddr _ _ _ _ Hok) in Hp by lia.
    replace (sh_addr text + MM_REGION_SIZE - (l + MM_REGION_SIZE)) with (sh_addr text - l) in Hp by lia.
    pose proof (file_length _ (lo_file _ _ _ _ Hok)) as Hfl. unfold i64_max in Hfl.
    replace (saturating_sub_u64 hi lo) with (hi - lo) in Hp by (unfold saturating_sub_u64; lia).
    rewrite arith_u64_ok in Hp by (unfold is_u; lia). cbn [mbind result_bind] in Hp.
    rewrite arith_u64_ok in Hp by (unfold is_u; lia). cbn [mbind result_bind] in Hp.
    rewrite subslice_eq in Hp by lia. injection Hp as <-. rewrite <- Hcont. f_equal. lia.
  - rewrite subslice_eq in Hp by lia. by injection Hp as <-.
Qed.

(** C14: A file of an older version, once loaded with its text below the
    second memory region, is the file parsed and relocated: its text section is
    the section of that name, at the address the executable says, and the
    accessor returns as many bytes as the section has, those of the relocated
    file unless another read-only section overlaps it; the entry point is the
    instruction of the section the header names, registered under its name;
    all functions are instructions of the section under keys no native function
    has. *)
Theorem load_lenient_sound bytes_addr bytes loader e v :
  is_bytes bytes -> get_sbpf_version bytes = Ok v -> enable_stricter_elf_headers v = false ->
  load bytes_addr bytes loader = Ok e -> text_section_vaddr e < MM_STACK_START ->
  sbpf_version e = v /\ length (elf_bytes e) = length bytes /\
  exists elf_addr elf text r prog data,
    parse elf_addr bytes = Ok elf /\ get_section elf name_text = Ok text /\
    relocate elf_addr loader elf registry_default bytes = Ok (r, elf_bytes e) /\
    text_section_vaddr e = sh_addr text + MM_REGION_SIZE /\
    get_text_bytes (E := False) e = Ok (text_section_vaddr e, prog) /\
    Z.of_nat (length prog) = section_length text /\
    (text_alone elf text -> prog = section_bytes (elf_bytes e) text) /\
    e_entry (file_header elf) = sh_addr text + entry_pc e * INSN_SIZE /\
    0 <= entry_pc e /\ entry_pc e * INSN_SIZE < sh_size text /\
    lookup_by_key (function_registry e) (hash_symbol_name entrypoint_name) = Some (entrypoint_name, entry_pc e) /\
    registered_in loader (slots_of text) (function_registry e) /\
    get_ro_section (E := False) e = Ok data /\ is_bytes data.
Proof.
  intros Hb Hv Hs (v' & e' & Hv' & -> & He')%load_inv Hva. rewrite Hv in Hv'. injection Hv' as <-.
  rewrite Hs in He'. apply load_lenient_ok in He' as (elf & text & Hok & Hfrom); [|done]. simpl in *.
  assert (sh_addr text < MM_REGION_SIZE) as Ha.
  { rewrite (lo_vaddr _ _ _ _ Hok) in Hva. assert (MM_STACK_START = MM_REGION_SIZE * 2) by done. lia. }
  destruct (lenient_text (E := False) _ _ _ _ Hok Ha) as (prog & Hp & Hpl).
  destruct (lenient_ro (E := False) _ _ _ _ Hok) as (data & Hd & Hdb).
  destruct (lf_relocated _ _ _ _ _ Hfrom) as (addr & r & Hparse & Hrel). destruct (lo_entry _ _ _ _ Hok).
  split; [done|]. split; [apply Hok|]. exists addr, elf, text, r, prog, data.
  split_and!; try done; try apply Hok; try apply Hfrom.
  intros Hal. by eapply lenient_text_contents.
Qed.

(** ** Loading does not panic *)
Lemma strict_check_phdrs_no_panic len off l : strict_check_phdrs len off l <> Panic.
Proof. revert off. induction l as [|[h [f a]] l IH]; intros; simpl; [done|]. case_match; auto. Qed.

Lemma table_get {T} `{Pod T} elf_addr bytes off n (l : list T) i :
  table_at elf_addr bytes off n l -> 0 <= i < n -> is_Some (get l i).
Proof. intros (Hl & _) Hi. apply get_Some. lia. Qed.

Lemma load_strict_no_panic bytes loader cfg :
  is_bytes bytes -> config loader = Some cfg -> enable_symbol_and_section_labels cfg = false ->
  can_allocate bytes -> load_with_strict_parser bytes loader <> Panic.
Proof.
  intros Hb Hcfg Hlab Ha. unfold load_with_strict_parser.
  apply bind_no_panic; [by apply from_slice_no_panic|]. intros m Hm.
  destruct (from_slice_ok _ _ Hm) as (Has & _ & Hlen). rewrite Has. cbn [mbind result_bind].
  apply bind_no_panic; [unfold parse_file_header; eauto with nopanic|]. intros [fh h] Hh.
  apply parse_file_header_ok in Hh as (-> & -> & _). set (h := read_pod _) in *.
  pose proof (header_typed bytes Hb : ehdr_typed h) as Hty. clearbody h.
  set (pr := (_, saturating_add_u64 _ _)).
  assert (pr = (64, 64 + e_phnum h * 56)) as Hpr.
  { subst pr. unfold ehdr_typed, is_u in Hty. unfold saturating_add_u64, saturating_mul_u64, u64_max. simpl.
    f_equal. lia. }
  clearbody pr. subst pr. cbn [snd].
  destruct (strict_header_ok h _ _) eqn:Hok; cbn [negb]; [|done].
  apply strict_header_phnum in Hok as (_ & Hpn & _). unfold ehdr_typed, is_u in Hty.
  apply bind_no_panic; [apply slice_from_bytes_no_panic|]. intros phs Hphs.
  apply slice_from_bytes_ok in Hphs as (n & Hn & Hphs); [|done..]. simpl in Hn.
  assert (n = e_phnum h) as -> by lia.
  apply bind_no_panic; [apply or_panic_no_panic; eapply table_get; [exact Hphs|lia]|]. intros first _.
  set (skip := negb (p_flags first =? PF_R)).
  destruct (negb skip && (e_phnum h <? 2)) eqn:H2; [done|].
  apply bind_no_panic; [apply strict_check_phdrs_no_panic|]. intros [] _.
  apply bind_no_panic.
  { destruct skip; [done|]. apply bind_no_panic; [|done].
    apply or_panic_no_panic. eapply table_get; [exact Hphs|]. simpl in H2. apply Z.ltb_ge in H2. lia. }
  intros [ro text] _. match goal with |- (if ?b then _ else _) <> Panic => destruct b end; [done|].
  unfold get_config. rewrite Hcfg. cbn [or_panic mbind result_bind]. by rewrite Hlab.
Qed.

Lemma lenient_copies_no_panic bytes_addr bytes m :
  can_allocate bytes -> am_from_slice (E := ElfError) HOST_ALIGN bytes = Ok m ->
  (if is_memory_aligned bytes_addr HOST_ALIGN then Ok (m, bytes_addr, bytes)
   else copy ← am_clone HOST_ALIGN m; u ← am_as_slice m; Ok (copy, av_ptr (am_mem m), u))
    <> (Panic : loaded _).
Proof.
  intros Ha Hm. destruct (from_slice_ok _ _ Hm) as (Has & _ & _).
  case_match; [done|]. unfold am_clone. rewrite Has. cbn [mbind result_bind].
  apply bind_no_panic; [by apply from_slice_no_panic|done].
Qed.

Lemma register_hashed_no_panic loader cfg (r : FunctionRegistry Z) h n v :
  config loader = Some cfg -> register_function_hashed_legacy id r loader h n v <> Panic.
Proof.
  intros Hcfg. unfold register_function_hashed_legacy, get_config, register_function. rewrite Hcfg.
  cbn [or_panic mbind result_bind]. eauto 10 with nopanic.
Qed.

Lemma load_lenient_no_panic bytes_addr bytes loader cfg :
  is_bytes bytes -> config loader = Some cfg -> can_allocate bytes ->
  load_with_lenient_parser bytes_addr bytes loader <> Panic.
Proof.
  intros Hb Hcfg Ha. unfold load_with_lenient_parser.
  apply bind_no_panic; [by apply from_slice_no_panic|]. intros m Hm.
  destruct (from_slice_ok _ _ Hm) as (_ & _ & Hlen).
  apply bind_no_panic; [by apply lenient_copies_no_panic|]. intros [[mem addr] u] Hcopy.
  apply (lenient_copies _ _ _ Hm) in Hcopy as (-> & Has). rewrite Has. cbn [mbind result_bind].
  apply bind_no_panic; [by apply lift_no_panic, parse_no_panic|]. intros elf Helf. apply lift_parsed_ok in Helf.
  destruct (parse_elf_ok _ _ _ Hb Helf) as [Hok Hbytes].
  unfold get_config. rewrite Hcfg. cbn [or_panic mbind result_bind].
  apply bind_no_panic; [apply validate_no_panic|]. intros [] Hv.
  apply validate_ok in Hv as (Hbounds & _).
  apply bind_no_panic; [apply get_section_no_panic|]. intros text _.
  match goal with |- (if ?b then _ else _) <> Panic => destruct b end; [done|].
  destruct (relocate_ok addr loader elf cfg Hcfg Hok registry_default bytes) as [Hrp Hrok];
    [by split|apply targets_ok_default|].
  apply bind_no_panic; [exact Hrp|]. intros [r bytes'] Hrel.
  destruct (Hrok _ _ Hrel) as (Hf' & Hl' & _).
  match goal with |- (if ?b then _ else _) <> Panic => destruct b end; [done|].
  apply bind_no_panic; [by eapply register_hashed_no_panic|]. intros [r2 key] _.
  destruct (section_names_ok elf (section_header_table elf)) as [Hsp Hsok].
  apply bind_no_panic; [exact Hsp|]. intros sections Hs. destruct (Hsok _ Hs) as [Hs1 _].
  destruct (parse_ro_sections_ok bytes' Hf' cfg sections) as [Hrop Hrook].
  { apply Forall_forall. intros nh Hnh. rewrite Hl'. apply Hs1 in Hnh as [Hnh _].
    rewrite Forall_forall in Hbounds. pose proof (elf_sections _ Hok) as Hty.
    rewrite Forall_forall in Hty. split; auto. }
  apply bind_no_panic; [exact Hrop|]. intros ro Hro. destruct (Hrook ro Hro) as [_ Hoff].
  apply bind_no_panic; [|done]. destruct (optimize_rodata cfg); [by case_match|].
  rewrite (Hoff eq_refl), Z.eqb_refl. unfold debug_assert. by rewrite andb_false_r.
Qed.

(** C12: Loading does not panic where symbol and section labels are off, or the
    file is of a version without strict headers: on all bytes, at every address,
    a loader with a configuration returns an executable or an error, as long as
    memory for the copies is there.  With labels the strict loader unwraps what it
    parses. *)
Theorem load_no_panic bytes_addr bytes loader cfg :
  is_bytes bytes -> config loader = Some cfg -> can_allocate bytes ->
  (enable_symbol_and_section_labels cfg = true ->
   forall v, get_sbpf_version bytes = Ok v -> enable_stricter_elf_headers v = false) ->
  load bytes_addr bytes loader <> Panic.
Proof.
  intros Hb Hcfg Ha Hlab. unfold load.
  apply bind_no_panic.
  { apply lift_no_panic. unfold get_sbpf_version. destruct (slice_get bytes (48, 52)) as [s|] eqn:Hs; [|done].
    cbn [ok_or mbind result_bind]. apply slice_get_Some in Hs as [Hr ->]. cbn [fst snd] in *.
    pose proof (length_file_bytes bytes 48 (52 - 48) ltac:(lia) ltac:(lia) ltac:(lia)) as Hl.
    rewrite read_u32_spec by lia. done. }
  intros v Hv. apply lift_parsed_ok in Hv. unfold get_config. rewrite Hcfg. cbn [or_panic mbind result_bind].
  case_match; [done|]. apply bind_no_panic; [|done].
  destruct (enable_stricter_elf_headers v) eqn:Hstrict; [|by eapply load_lenient_no_panic].
  apply lift_no_panic. eapply load_strict_no_panic; eauto.
  destruct (enable_symbol_and_section_labels cfg); [|done].
  specialize (Hlab eq_refl v Hv). congruence.
Qed.
End Loaded.

(** ** From the file to the result *)
Section EndToEnd.
Context {V C : Type} {P : Profile} {B : ByteOrder} {BL : ByteOrderLaws}.
Context {U : ByteOrderUnsigned} {UL : ByteOrderUnsignedLaws} {M : Murmur3} {ML : Murmur3Laws}.
Context {A : Allocator} {AL : AllocatorLaws}.
Context `{CO : ContextObject C, Mem : VmMemory C, BF : Builtins V C}
  `{CL : !ContextObjectLaws C, !VmMemoryLaws C, !BuiltinsLaws V C}.
Implicit Types (loader : BuiltinProgram V) (e : Executable V).

(** What both loaders guarantee, as far as execution is concerned. *)
Record loaded_ok loader e : Prop := {
  ld_loader : exec_loader e = loader;
  ld_functions : targets_ok (function_registry e);
  ld_entry : 0 <= entry_pc e;
  ld_text : forall base prog, get_text_bytes (E := False) e = Ok (base, prog) ->
    is_bytes prog /\ Z.of_nat (length prog) < 2 ^ 63 /\
    (prog = [] \/ entry_pc e * INSN_SIZE < Z.of_nat (length prog))
}.

Lemma load_loaded_ok bytes_addr bytes loader e :
  is_bytes bytes -> load bytes_addr bytes loader = Ok e -> loaded_ok loader e.
Proof.
  intros Hb (v & e' & _ & -> & He')%load_inv.
  change (loaded_ok loader (set_sbpf_version v e')).
  destruct (enable_stricter_elf_headers v).
  - apply load_strict_ok in He' as Hok; [|done]. split; simpl; [apply Hok|apply Hok| |].
    + destruct (so_ro _ _ _ Hok) as (ro & _ & Hl). apply (sl_entry _ _ _ _ Hl).
    + intros base prog Hp. change (get_text_bytes (E := False) e' = Ok (base, prog)) in Hp.
      rewrite (strict_text _ _ _ Hok) in Hp. injection Hp as <- <-.
      destruct (so_ro _ _ _ Hok) as (ro & _ & [H1 H2 H3 H4 _ _ _ [H5 H6]]).
      pose proof (so_length _ _ _ Hok) as Hl. unfold i64_max in Hl. simpl in H1.
      split; [by apply is_bytes_file_bytes|]. rewrite length_file_bytes by lia.
      split; [lia|]. right. unfold INSN_SIZE in *. lia.
  - apply load_lenient_ok in He' as (elf & text & Hok & _); [|done]. split; simpl; [apply Hok|apply Hok|apply Hok|].
    intros base prog Hp. change (get_text_bytes (E := False) e' = Ok (base, prog)) in Hp.
    destruct (lenient_text_bytes _ _ _ _ _ _ Hok Hp) as [Hpb Hpl]. split; [done|].
    pose proof (file_length _ (lo_file _ _ _ _ Hok)) as Hl.
    destruct (text_range_ok _ _ _ _ Hok) as (Hr & H0 & H1 & H2). unfold i64_max in *. split; [lia|].
    destruct (lo_entry _ _ _ _ Hok) as [_ He]. rewrite Hpl, H2, Hr.
    rewrite (lo_length _ _ _ _ Hok) in *. rewrite (section_in_range _ _ Hl (lo_text _ _ _ _ Hok)).
    destruct (sh_type text =? SHT_NOBITS) eqn:Hnb; simpl; [left|right; lia].
    apply length_zero_iff_nil. unfold section_length in Hpl.
    rewrite (section_in_range _ _ Hl (lo_text _ _ _ _ Hok)), Hnb in Hpl. simpl in Hpl. lia.
Qed.

Lemma executable_verify_ok e x :
  executable_verify e = Ok x ->
  exists base prog, get_text_bytes (E := False) e = Ok (base, prog) /\ verify prog (sbpf_version e) = Ok tt.
Proof.
  unfold executable_verify. intros H. apply result_bind_ok in H as ([base prog] & Ht & H).
  apply result_bind_ok in H as (c & _ & H). exists base, prog. split; [by eapply get_text_bytes_any|].
  by destruct (verify prog (sbpf_version e)) as [[]| |].
Qed.

(** C7: From the file to the result: a file that loads and verifies, of any
    version, runs to its end. With as many steps as the context has
    instructions left and one more, the interpreter returns, without a panic,
    a count within the budget and a 64-bit value or an error. *)
Theorem loaded_program_returns bytes_addr bytes loader e cfg (ctx : C) stack_len frames m compiled :
  is_bytes bytes -> load bytes_addr bytes loader = Ok e -> executable_verify e = Ok tt ->
  config loader = Some cfg -> enable_instruction_meter cfg = true ->
  0 <= stack_frame_size cfg * 2 <= u64_max -> 0 < max_call_depth cfg <= u64_max ->
  context_valid ctx -> 0 <= stack_len -> max_call_depth cfg <= Z.of_nat (length frames) ->
  vm_new (E := False) loader (sbpf_version e) ctx stack_len = Ok m ->
  exists count r m',
    execute_program (S (Z.to_nat (get_remaining ctx))) compiled m e Interpreted frames =
      Some (Ok (count, r, Interpreted, m')) /\
    0 <= count <= get_remaining ctx /\
    match r with StOk x => is_u 64 x | StErr _ => True end.
Proof.
  intros Hb Hload Hver Hcfg Hmeter Hfs Hdepth Hctx Hsl Hfr Hnew.
  apply (load_loaded_ok _ _ _ _ Hb) in Hload as [Hl Hfn He Htext].
  destruct (executable_verify_ok _ _ Hver) as (base & prog & Ht & Hv).
  destruct (Htext base prog Ht) as (Hpb & Hpl & Hentry).
  apply (execute_program_returns cfg e base prog ctx stack_len frames m compiled);
    [|done..|by rewrite Hl].
  split; try done; [by rewrite Hl|].
  unfold verify in Hv. pose proof (check_prog_len_eq prog) as Hc.
  destruct (check_prog_len prog); [|done..]. destruct Hc as [Hlen Hpos].
  split; [done|]. destruct Hentry as [->|Hentry]; [simpl in Hlen; lia|]. unfold INSN_SIZE in Hentry. lia.
Qed.
End EndToEnd.
