(* ===== verification/Assembler.v ===== *)
(** * The assembler: [src/casestudy/sbpf/src/assembler.rs]

    The statements and operands of [asm_parser.rs], the table of mnemonics, and
    the two passes of [assemble]: the first gives every label its address, the
    second emits the instructions.  The parser is an argument of [assemble]: it
    is written with the combinators of the [combine] crate.  The texts of the
    error messages are the constructors of [AsmError] with their arguments. *)

From Stdlib Require Import String.
From stdpp Require Import gmap strings.
From S2P Require Import Prelude Ebpf Program Verifier Error Text Vm.

(** ** What the parser produces *)
Inductive Operand :=
| Register (r : Z)
| Integer (i : Z)
| Memory (r o : Z)
| Label (l : string).

Inductive Statement :=
| LabelStatement (name : string)
| Directive (name : string) (operands : list Operand)
| Instruction (name : string) (operands : list Operand).

Inductive AsmError :=
| ParseError (message : string)
| InvalidDestinationRegister (dst : Z)
| InvalidSourceRegister (src : Z)
| InvalidOffset (off : Z)
| InvalidImmediate (imm : Z)
| LabelNotFound (label : string)
| LabelHashCollision (name : string)
| InvalidDirective (name : string)
| UnexpectedOperands (operands : list Operand)
| InvalidInstructionName (name : string)
| ExecutableConstructor (e : EbpfError).

(** ** The table of mnemonics *)
Inductive InstructionType :=
| AluBinary
| AluUnary
| LoadDwImm
| LoadReg
| StoreImm
| StoreReg
| JumpUnconditional
| JumpConditional
| Syscall
| CallImm
| CallReg
| Endian (size : Z)
| NoOperand.

#[export] Instance InstructionType_eq_dec : EqDecision InstructionType.
Proof. solve_decision. Defined.

Definition alu_binary_ops : list (string * Z) :=
  [("add", BPF_ADD); ("sub", BPF_SUB); ("mul", BPF_MUL); ("div", BPF_DIV);
   ("or", BPF_OR); ("and", BPF_AND); ("lsh", BPF_LSH); ("rsh", BPF_RSH);
   ("mod", BPF_MOD); ("xor", BPF_XOR); ("mov", BPF_MOV); ("arsh", BPF_ARSH);
   ("hor", BPF_HOR)].

Definition mem_classes : list (string * InstructionType * Z * Z) :=
  [("ldx", LoadReg, Z.lor BPF_MEM BPF_LDX, Z.lor BPF_ALU32_LOAD BPF_X);
   ("st", StoreImm, Z.lor BPF_MEM BPF_ST, Z.lor BPF_ALU64_STORE BPF_K);
   ("stx", StoreReg, Z.lor BPF_MEM BPF_STX, Z.lor BPF_ALU64_STORE BPF_X)].

Definition mem_sizes : list (string * Z * Z) :=
  [("b", BPF_B, BPF_1B); ("h", BPF_H, BPF_2B); ("w", BPF_W, BPF_4B); ("dw", BPF_DW, BPF_8B)].

Definition jump_conditions : list (string * Z) :=
  [("jeq", BPF_JEQ); ("jgt", BPF_JGT); ("jge", BPF_JGE); ("jlt", BPF_JLT); ("jle", BPF_JLE);
   ("jset", BPF_JSET); ("jne", BPF_JNE); ("jsgt", BPF_JSGT); ("jsge", BPF_JSGE);
   ("jslt", BPF_JSLT); ("jsle", BPF_JSLE)].

Definition Entry : Type := string * (InstructionType * Z).
Definition entry (name : string) (inst_type : InstructionType) (opc : Z) : Entry :=
  (name, (inst_type, opc)).

Definition misc_entries : list Entry :=
  [entry "lddw" LoadDwImm LD_DW_IMM;
   entry "ja" JumpUnconditional JA;
   entry "syscall" Syscall CALL_IMM;
   entry "call" CallImm CALL_IMM;
   entry "callx" CallReg CALL_REG;
   entry "exit" NoOperand EXIT;
   entry "neg" AluUnary NEG64;
   entry "neg32" AluUnary NEG32;
   entry "neg64" AluUnary NEG64].

Definition alu_entries : list Entry :=
  '(name, opc) ← alu_binary_ops;
  [entry name AluBinary (Z.lor BPF_ALU64_STORE opc);
   entry (name +:+ "32") AluBinary (Z.lor BPF_ALU32_LOAD opc);
   entry (name +:+ "64") AluBinary (Z.lor BPF_ALU64_STORE opc)].

Definition pqr64 (op : Z) : Z := Z.lor (Z.lor BPF_PQR BPF_B) op.
Definition pqr32 (op : Z) : Z := Z.lor BPF_PQR op.

Definition pqr_entries : list Entry :=
  [entry "lmul" AluBinary (pqr64 BPF_LMUL);
   entry "lmul64" AluBinary (pqr64 BPF_LMUL);
   entry "lmul32" AluBinary (pqr32 BPF_LMUL);
   entry "uhmul" AluBinary (pqr64 BPF_UHMUL);
   entry "uhmul64" AluBinary (pqr64 BPF_UHMUL);
   entry "shmul" AluBinary (pqr64 BPF_SHMUL);
   entry "shmul64" AluBinary (pqr64 BPF_SHMUL);
   entry "udiv" AluBinary (pqr64 BPF_UDIV);
   entry "udiv64" AluBinary (pqr64 BPF_UDIV);
   entry "udiv32" AluBinary (pqr32 BPF_UDIV);
   entry "urem" AluBinary (pqr64 BPF_UREM);
   entry "urem64" AluBinary (pqr64 BPF_UREM);
   entry "urem32" AluBinary (pqr32 BPF_UREM);
   entry "sdiv" AluBinary (pqr64 BPF_SDIV);
   entry "sdiv64" AluBinary (pqr64 BPF_SDIV);
   entry "sdiv32" AluBinary (pqr32 BPF_SDIV);
   entry "srem" AluBinary (pqr64 BPF_SREM);
   entry "srem64" AluBinary (pqr64 BPF_SREM);
   entry "srem32" AluBinary (pqr32 BPF_SREM)].

Definition mem_entries (sbpf_version : SBPFVersion) : list Entry :=
  '(prefix, class, old_opcode, new_opcode) ← mem_classes;
  '(suffix, old_size, new_size) ← mem_sizes;
  if move_memory_instruction_classes sbpf_version
  then [entry (prefix +:+ suffix) class (Z.lor new_opcode new_size)]
  else [entry (prefix +:+ suffix) class (Z.lor old_opcode old_size)].

Definition jump_entries : list Entry :=
  '(name, condition) ← jump_conditions;
  [entry name JumpConditional (Z.lor BPF_JMP64 condition);
   entry (name +:+ "32") JumpConditional (Z.lor BPF_JMP32 condition);
   entry (name +:+ "64") JumpConditional (Z.lor BPF_JMP64 condition)].

Definition endian_entries : list Entry :=
  size ← [16; 32; 64];
  [entry ("be" +:+ decimal size) (Endian size) BE;
   entry ("le" +:+ decimal size) (Endian size) LE].

Definition instruction_entries (sbpf_version : SBPFVersion) : list Entry :=
  misc_entries ++ alu_entries ++ pqr_entries ++ mem_entries sbpf_version ++
  jump_entries ++ endian_entries.

(** [HashMap::insert] of the entries in order. *)
Definition make_instruction_map (sbpf_version : SBPFVersion)
    : gmap string (InstructionType * Z) :=
  foldl (fun m e => <[e.1 := e.2]> m) ∅ (instruction_entries sbpf_version).

(** ** One instruction *)
Definition insn (opc dst src off imm : Z) : result AsmError Insn :=
  if negb ((0 <=? dst) && (dst <? 16)) then Err (InvalidDestinationRegister dst)
  else if negb ((0 <=? src) && (src <? 16)) then Err (InvalidSourceRegister src)
  else if (off <? - 2 ^ 15) || (2 ^ 15 - 1 <? off) then Err (InvalidOffset off)
  else if (imm <? i32_min) || (i32_max <? imm) then Err (InvalidImmediate imm)
  else Ok (mkInsn 0 opc (as_u 8 dst) (as_u 8 src) (as_i 16 off) imm).

Section Assemble.
Context `{Profile, Murmur3}.

Definition resolve_label (insn_ptr : Z) (labels : gmap string Z) (label : string)
    : result AsmError Z :=
  target_pc ← ok_or (labels !! label) (LabelNotFound label);
  distance ← arith_i64 (as_i 64 target_pc - as_i 64 insn_ptr);
  arith_i64 (distance - 1).

(** The match on the kind of an instruction and its operands. *)
Definition assemble_operands (sbpf_version : SBPFVersion) (labels : gmap string Z)
    (insn_ptr : Z) (registry : FunctionRegistry Z) (name : string)
    (inst_type : InstructionType) (opc : Z) (operands : list Operand)
    : result AsmError (FunctionRegistry Z * Insn) :=
  let emit (r : result AsmError Insn) := i ← r; Ok (registry, i) in
  match inst_type, operands with
  | AluBinary, [Register dst; Register src] => emit (insn (Z.lor opc BPF_X) dst src 0 0)
  | AluBinary, [Register dst; Integer imm] =>
      if (dst =? 10) && (opc =? ADD64_IMM) then
        if manual_stack_frame_bump sbpf_version
        then emit (insn (Z.lor opc BPF_K) 10 0 0 imm)
        else emit (insn OR64_IMM 0 0 0 0)
      else emit (insn (Z.lor opc BPF_K) dst 0 0 imm)
  | AluUnary, [Register dst] => emit (insn opc dst 0 0 0)
  | LoadReg, [Register dst; Memory src off] => emit (insn opc dst src off 0)
  | StoreReg, [Memory dst off; Register src] => emit (insn opc dst src off 0)
  | StoreImm, [Memory dst off; Integer imm] => emit (insn opc dst 0 off imm)
  | NoOperand, [] => emit (insn opc 0 0 0 0)
  | JumpUnconditional, [Integer off] => emit (insn opc 0 0 off 0)
  | JumpConditional, [Register dst; Register src; Integer off] =>
      emit (insn (Z.lor opc BPF_X) dst src off 0)
  | JumpConditional, [Register dst; Integer imm; Integer off] =>
      emit (insn (Z.lor opc BPF_K) dst 0 off imm)
  | JumpUnconditional, [Label label] =>
      off ← resolve_label insn_ptr labels label;
      emit (insn opc 0 0 off 0)
  | CallImm, [Integer imm] =>
      sum ← arith_i64 (imm + as_i 64 insn_ptr);
      target_pc ← arith_i64 (sum + 1);
      let label := bytes_of_string ("function_" +:+ decimal (as_u 64 target_pc)) in
      registry ← map_error (fun _ => LabelHashCollision name)
        (register_function registry (as_u 32 target_pc) label (as_u 64 target_pc));
      let instr_imm := if static_syscalls sbpf_version then imm else target_pc in
      i ← insn opc 0 (Z.b2z (static_syscalls sbpf_version)) 0 instr_imm;
      Ok (registry, i)
  | CallImm, [Label label] =>
      target ← ok_or (labels !! label) (LabelNotFound label);
      let target_pc := as_i 64 target in
      target_pc ← (if static_syscalls sbpf_version
                   then distance ← arith_i64 (target_pc - as_i 64 insn_ptr);
                        arith_i64 (distance - 1)
                   else Ok target_pc);
      emit (insn opc 0 (Z.b2z (static_syscalls sbpf_version)) 0 target_pc)
  | Syscall, [Label label] =>
      emit (insn opc 0 0 0 (as_i 32 (hash_symbol_name (bytes_of_string label))))
  | Syscall, [Integer imm] => emit (insn opc 0 0 0 imm)
  | CallReg, [Register dst] =>
      if callx_uses_src_reg sbpf_version then emit (insn opc 0 dst 0 0)
      else if callx_uses_dst_reg sbpf_version then emit (insn opc dst 0 0 0)
      else emit (insn opc 0 0 0 dst)
  | JumpConditional, [Register dst; Register src; Label label] =>
      off ← resolve_label insn_ptr labels label;
      emit (insn (Z.lor opc BPF_X) dst src off 0)
  | JumpConditional, [Register dst; Integer imm; Label label] =>
      off ← resolve_label insn_ptr labels label;
      emit (insn (Z.lor opc BPF_K) dst 0 off imm)
  | Endian size, [Register dst] => emit (insn opc dst 0 0 size)
  | LoadDwImm, [Register dst; Integer imm] =>
      emit (insn opc dst 0 0 (Z.shiftr (as_i 64 (Z.shiftl imm 32)) 32))
  | _, _ => Err (UnexpectedOperands operands)
  end.

(** ** The first pass: addresses of labels *)
Record FirstPass := mkFirstPass {
  first_ptr : Z;
  first_registry : FunctionRegistry Z;
  labels : gmap string Z
}.

Definition first_pass_init : FirstPass :=
  mkFirstPass 0 registry_default (<["entrypoint" := 0]> ∅).

Definition first_pass_step (s : FirstPass) (statement : Statement)
    : result AsmError FirstPass :=
  match statement with
  | LabelStatement name =>
      registry ← (if String.prefix "function_" name || bool_decide (name = "entrypoint")
                  then map_error (fun _ => LabelHashCollision name)
                         (register_function (first_registry s) (as_u 32 (first_ptr s))
                            (bytes_of_string name) (first_ptr s))
                  else Ok (first_registry s));
      Ok (mkFirstPass (first_ptr s) registry (<[name := first_ptr s]> (labels s)))
  | Directive name [Integer repeat; Integer _] =>
      if bool_decide (name = "fill")
      then p ← arith_u64 (first_ptr s + as_u 64 repeat);
           Ok (mkFirstPass p (first_registry s) (labels s))
      else Ok s
  | Directive _ _ => Ok s
  | Instruction name _ =>
      p ← arith_u64 (first_ptr s + (if bool_decide (name = "lddw") then 2 else 1));
      Ok (mkFirstPass p (first_registry s) (labels s))
  end.

Fixpoint first_pass (s : FirstPass) (statements : list Statement) : result AsmError FirstPass :=
  match statements with
  | [] => Ok s
  | st :: rest => s ← first_pass_step s st; first_pass s rest
  end.

(** ** The second pass: instructions *)
Record SecondPass := mkSecondPass {
  insn_ptr : Z;
  registry : FunctionRegistry Z;
  insns : list Insn
}.

Definition push_insn (s : SecondPass) (i : Insn) : result AsmError SecondPass :=
  p ← arith_u64 (insn_ptr s + 1);
  Ok (mkSecondPass p (registry s) (insns s ++ [i])).

Definition fill_insn (ptr value : Z) : Insn :=
  mkInsn ptr (as_u 8 value)
    (Z.land (as_u 8 (Z.shiftr value 8)) 0xF)
    (Z.land (as_u 8 (Z.shiftr value 12)) 0xF)
    (as_i 16 (as_u 16 (Z.shiftr value 16)))
    (as_u 32 (Z.shiftr value 32)).

Fixpoint fill (repeat : nat) (value : Z) (s : SecondPass) : result AsmError SecondPass :=
  match repeat with
  | O => Ok s
  | S n => s ← push_insn s (fill_insn (insn_ptr s) value); fill n value s
  end.

Definition lddw_high (ptr imm : Z) : Insn :=
  mkInsn ptr (opc Insn_default) (dst Insn_default) (src Insn_default) (off Insn_default)
    (Z.shiftr imm 32).

Definition assemble_instruction (sbpf_version : SBPFVersion) (labels : gmap string Z)
    (s : SecondPass) (name : string) (operands : list Operand) : result AsmError SecondPass :=
  match make_instruction_map sbpf_version !! name with
  | None => Err (InvalidInstructionName name)
  | Some (inst_type, opc) =>
      ri ← assemble_operands sbpf_version labels (insn_ptr s) (registry s) name inst_type opc operands;
      s' ← push_insn (mkSecondPass (insn_ptr s) ri.1 (insns s)) (with_ptr ri.2 (insn_ptr s));
      match inst_type, operands with
      | LoadDwImm, [_; Integer imm] => push_insn s' (lddw_high (insn_ptr s') imm)
      | _, _ => Ok s'
      end
  end.

Definition second_pass_step (sbpf_version : SBPFVersion) (labels : gmap string Z)
    (s : SecondPass) (statement : Statement) : result AsmError SecondPass :=
  match statement with
  | LabelStatement _ => Ok s
  | Directive name [Integer repeat; Integer value] =>
      if bool_decide (name = "fill") then fill (Z.to_nat repeat) value s
      else Err (InvalidDirective name)
  | Directive name _ => Err (InvalidDirective name)
  | Instruction name operands => assemble_instruction sbpf_version labels s name operands
  end.

Fixpoint second_pass (sbpf_version : SBPFVersion) (labels : gmap string Z)
    (s : SecondPass) (statements : list Statement) : result AsmError SecondPass :=
  match statements with
  | [] => Ok s
  | st :: rest => s ← second_pass_step sbpf_version labels s st;
                  second_pass sbpf_version labels s rest
  end.

(** ** [assemble] *)
Context {V : Type} `{EqDecision V}.

(** [Executable::from_text_bytes] *)
Definition from_text_bytes (text_bytes : list byte) (loader : BuiltinProgram V)
    (v : SBPFVersion) (functions : FunctionRegistry Z) : result EbpfError (Executable V) :=
  map_error ElfErr (new_from_text_bytes text_bytes loader v functions).

Definition assemble_statements (sbpf_version : SBPFVersion) (statements : list Statement)
    : result AsmError SecondPass :=
  first ← first_pass first_pass_init statements;
  second_pass sbpf_version (labels first)
    (mkSecondPass 0 (first_registry first) []) statements.

Definition assemble (parse : string -> result AsmError (list Statement)) (text : string)
    (loader : BuiltinProgram V) : result AsmError (Executable V) :=
  config ← get_config loader;
  let sbpf_version := (enabled_sbpf_versions config).2 in
  statements ← parse text;
  s ← assemble_statements sbpf_version statements;
  let program := concat (map to_vec (insns s)) in
  map_error ExecutableConstructor (from_text_bytes program loader sbpf_version (registry s)).
End Assemble.
