(* ===== verification/AssemblerFacts.v ===== *)
(** * The assembler lays programs out as its labels say

    The two passes of [assemble] are run separately over the same statements.
    The reference is the layout by sizes: [size] is the slots a statement takes,
    [address] the slots before a statement, [label_address] the address a label
    names (its last definition).  The passes agree with it, so jumps and calls
    by label reach the statement after the label, and the text of the executable
    decodes to the instructions emitted. *)

From Stdlib Require Import String.
From stdpp Require Import gmap strings.
From S2P Require Import Prelude Ebpf Program Verifier Error Text Vm Assembler InsnBuilderFacts.

(** ** The reference layout *)
Definition size (st : Statement) : Z :=
  match st with
  | LabelStatement _ => 0
  | Directive name [Integer repeat; Integer _] => if bool_decide (name = "fill") then repeat else 0
  | Directive _ _ => 0
  | Instruction name _ => if bool_decide (name = "lddw") then 2 else 1
  end.

Definition total (l : list Statement) : Z := foldr (fun st n => size st + n) 0 l.
Definition address (l : list Statement) (k : nat) : Z := total (take k l).

(** The last definition of a label in statements that start at [p]. *)
Fixpoint label_from (p : Z) (l : list Statement) (label : string) : option Z :=
  match l with
  | [] => None
  | st :: rest =>
      match label_from (p + size st) rest label, st with
      | Some t, _ => Some t
      | None, LabelStatement name => if decide (name = label) then Some p else None
      | None, _ => None
      end
  end.

(** [entrypoint] is predefined. *)
Definition label_address (l : list Statement) (label : string) : option Z :=
  match label_from 0 l label with
  | Some t => Some t
  | None => if decide (label = "entrypoint") then Some 0 else None
  end.

(** No [fill] directive with a negative count, and a program that can exist. *)
Definition fits (l : list Statement) : Prop :=
  Forall (fun st => 0 <= size st) l /\ total l < 2 ^ 63.

(** ** Totals *)
Lemma total_app a b : total (a ++ b) = total a + total b.
Proof. induction a as [|st a IH]; [done|]. cbn [app total foldr] in *. unfold total in *. simpl. lia. Qed.

Lemma total_nonneg l : Forall (fun st => 0 <= size st) l -> 0 <= total l.
Proof. induction 1; simpl; [done|]. unfold total in *. lia. Qed.

Lemma fits_app a b : fits (a ++ b) -> fits a /\ 0 <= total a /\ 0 <= total b.
Proof.
  intros [Hf Ht]. rewrite Forall_app in Hf. destruct Hf as [Ha Hb]. rewrite total_app in Ht.
  pose proof (total_nonneg a Ha). pose proof (total_nonneg b Hb). split_and!; [split|..]; auto; lia.
Qed.

Lemma fits_split l k st :
  fits l -> l !! k = Some st ->
  l = take k l ++ st :: drop (S k) l /\ 0 <= address l k /\ 0 <= size st /\
  address l k + size st + total (drop (S k) l) = total l /\ 0 <= total (drop (S k) l) /\
  total l < 2 ^ 63.
Proof.
  intros Hfit Hk. pose proof (take_drop_middle l k st Hk) as Hl. symmetry in Hl.
  split; [done|]. unfold address. destruct Hfit as [Hf Ht]. rewrite Hl in Hf.
  rewrite Forall_app, Forall_cons in Hf. destruct Hf as (Ha & Hs & Hb).
  pose proof (total_nonneg _ Ha). pose proof (total_nonneg _ Hb).
  assert (E : total l = total (take k l) + (size st + total (drop (S k) l)))
    by (rewrite Hl at 1; apply total_app).
  split_and!; auto; lia.
Qed.

(** ** The table *)
Lemma foldl_insert_lookup {A} (l : list (string * A)) (m : gmap string A) name x :
  foldl (fun m e => <[e.1 := e.2]> m) m l !! name = Some x ->
  m !! name = Some x \/ In (name, x) l.
Proof.
  revert m. induction l as [|[n y] l IH]; intros m; simpl; [auto|].
  intros [Hl|Hl]%IH; [|auto]. destruct (decide (n = name)) as [->|Hne].
  - rewrite lookup_insert_eq in Hl. simplify_eq. auto.
  - rewrite lookup_insert_ne in Hl by done. auto.
Qed.

(** What holds of every entry holds of every result of the lookup. *)
Lemma make_instruction_map_forall (P : string -> InstructionType -> Z -> bool) v :
  forallb (fun e => P e.1 e.2.1 e.2.2) (instruction_entries v) = true ->
  forall name ty opc, make_instruction_map v !! name = Some (ty, opc) -> P name ty opc = true.
Proof.
  intros HP name ty opc Hl. rewrite forallb_forall in HP.
  apply foldl_insert_lookup in Hl as [Hl|Hl]; [done|]. exact (HP _ Hl).
Qed.

Lemma map_entries_ok v name ty opc :
  make_instruction_map v !! name = Some (ty, opc) ->
  bool_decide (ty = LoadDwImm) = bool_decide (name = "lddw") /\ is_u 8 opc.
Proof.
  intros Hl.
  assert (Hp : (eqb (bool_decide (ty = LoadDwImm)) (bool_decide (name = "lddw")) &&
                ((0 <=? opc) && (opc <? 256))) = true).
  { revert name ty opc Hl. apply (make_instruction_map_forall (fun name ty opc =>
      eqb (bool_decide (ty = LoadDwImm)) (bool_decide (name = "lddw")) &&
      ((0 <=? opc) && (opc <? 256)))).
    destruct v; vm_compute; reflexivity. }
  apply andb_true_iff in Hp as [Hp Ho]. apply eqb_prop in Hp. split; [done|]. unfold is_u. lia.
Qed.

(** ** Registries only grow *)
Definition registry_le (r r' : FunctionRegistry Z) : Prop :=
  forall k b, lookup_by_key r k = Some b -> lookup_by_key r' k = Some b.

#[export] Instance registry_le_preorder : PreOrder registry_le.
Proof. split; [by intros r k b|]. intros r1 r2 r3 H12 H23 k b Hb. by apply H23, H12. Qed.

Lemma map_error_ok {E F A} (f : E -> F) (r : result E A) a : map_error f r = Ok a <-> r = Ok a.
Proof. destruct r; simpl; naive_solver. Qed.

Lemma register_function_grows (r r' : FunctionRegistry Z) key name t :
  register_function r key name t = Ok r' ->
  registry_le r r' /\ exists n, lookup_by_key r' key = Some (n, t).
Proof.
  unfold register_function, registry_le, lookup_by_key.
  destruct (registry_map r !! key) as [[n v]|] eqn:Hk; intros Hr; result_inv; subst.
  - split; [auto|]. eauto.
  - simpl. split; [|by exists name; rewrite lookup_insert_eq].
    intros k b Hb. rewrite lookup_insert_ne; [done|]. congruence.
Qed.

Section Passes.
Context `{Profile, Murmur3}.

Lemma arith_u64_Ok {E} z p : is_u 64 z -> arith_u64 (E := E) z = Ok p -> p = z.
Proof. intros Hz. rewrite arith_u64_ok by done. congruence. Qed.

(** ** The first pass *)
Lemma first_step_spec s st s' :
  first_pass_step s st = Ok s' -> 0 <= first_ptr s -> 0 <= size st ->
  first_ptr s + size st < 2 ^ 63 ->
  first_ptr s' = first_ptr s + size st /\ registry_le (first_registry s) (first_registry s') /\
  (forall l, labels s' !! l = match st with
     | LabelStatement name => if decide (name = l) then Some (first_ptr s) else labels s !! l
     | _ => labels s !! l
     end).
Proof.
  intros Hs Hp Hz Hb. destruct st as [name|name ops|name ops]; cbn [first_pass_step size] in *.
  - result_inv; subst; simpl; (split; [lia|]); split.
    + apply map_error_ok in H1. by apply register_function_grows in H1 as [? _].
    + intros l. destruct (decide (name = l)) as [->|]; [apply lookup_insert_eq|by apply lookup_insert_ne].
    + result_inv. by subst.
    + intros l. destruct (decide (name = l)) as [->|]; [apply lookup_insert_eq|by apply lookup_insert_ne].
  - destruct ops as [|[] [|[] [|]]]; result_inv; subst; simpl; try (split_and!; [lia|done|done]).
    apply arith_u64_Ok in H1; [|rewrite as_u_small; unfold is_u; lia].
    rewrite as_u_small in H1 by (unfold is_u; lia). split_and!; [lia|done|done].
  - result_inv; subst; simpl. apply arith_u64_Ok in H1; [|unfold is_u; destruct bool_decide; lia].
    split_and!; [lia|done|done].
Qed.

Lemma first_pass_spec l : forall s s',
  first_pass s l = Ok s' -> 0 <= first_ptr s -> Forall (fun st => 0 <= size st) l ->
  first_ptr s + total l < 2 ^ 63 ->
  first_ptr s' = first_ptr s + total l /\
  registry_le (first_registry s) (first_registry s') /\
  forall name, labels s' !! name =
    match label_from (first_ptr s) l name with Some t => Some t | None => labels s !! name end.
Proof.
  induction l as [|st l IH]; intros s s' Hs Hp Hf Hb; cbn [first_pass] in Hs.
  { result_inv; subst. split; [simpl; lia|done]. }
  rewrite Forall_cons in Hf. destruct Hf as [Hz Hf]. pose proof (total_nonneg l Hf).
  cbn [total foldr] in *. fold (total l) in *. result_inv.
  apply first_step_spec in H2 as (Hp' & Hr & Hl); [|lia..].
  apply IH in Hs as (Hp2 & Hr' & Hl'); [|lia|done|lia]. split; [lia|]. split; [by etrans|].
  intros name. rewrite Hl', Hl, Hp'. cbn [label_from].
  destruct (label_from (first_ptr s + size st) l name); [done|].
  destruct st; try done. by destruct decide.
Qed.

Lemma first_pass_labels l f :
  first_pass first_pass_init l = Ok f -> fits l -> forall name, labels f !! name = label_address l name.
Proof.
  intros Hf [Hz Ht]. apply first_pass_spec in Hf as (_ & _ & Hl); [|simpl; lia|done|simpl; lia].
  intros name. rewrite Hl. unfold label_address, first_pass_init. simpl.
  destruct (label_from 0 l name); [done|].
  destruct (decide (name = "entrypoint")) as [->|]; [by rewrite lookup_insert_eq|].
  by rewrite lookup_insert_ne.
Qed.

(** ** The second pass *)
Definition fields_ok (i : Insn) : Prop :=
  is_u 8 (opc i) /\ is_u 4 (dst i) /\ is_u 4 (src i) /\ is_i 16 (off i).

(** [n] slots are added, their instructions numbered by position. *)
Definition emits (s s' : SecondPass) (n : Z) : Prop :=
  insn_ptr s' = insn_ptr s + n /\ registry_le (registry s) (registry s') /\
  exists new, insns s' = insns s ++ new /\ Z.of_nat (length new) = n /\
    forall j i, new !! j = Some i -> ptr i = insn_ptr s + Z.of_nat j /\ fields_ok i.

Lemma emits_refl s : emits s s 0.
Proof.
  split; [lia|]. split; [done|]. exists []. rewrite app_nil_r. split_and!; [done|done|].
  intros j i Hj. by rewrite lookup_nil in Hj.
Qed.

Lemma emits_trans s1 s2 s3 a b : emits s1 s2 a -> emits s2 s3 b -> emits s1 s3 (a + b).
Proof.
  intros (P1 & R1 & n1 & I1 & L1 & F1) (P2 & R2 & n2 & I2 & L2 & F2).
  split; [lia|]. split; [by etrans|]. exists (n1 ++ n2). rewrite I2, I1, <- app_assoc, length_app.
  split_and!; [done|lia|]. intros j i [Hj|[Hj Hi]]%lookup_app_Some; [auto|].
  apply F2 in Hi as [-> Hi]. split; [lia|done].
Qed.

Lemma push_insn_emits s i s' :
  push_insn s i = Ok s' -> ptr i = insn_ptr s -> fields_ok i ->
  0 <= insn_ptr s -> insn_ptr s + 1 < 2 ^ 63 ->
  emits s s' 1 /\ insns s' = insns s ++ [i].
Proof.
  unfold push_insn. intros Hs Hi Hf Hp Hb. result_inv; subst.
  apply arith_u64_Ok in H1 as ->; [|unfold is_u; lia]. split; [|done].
  split; [done|]. split; [done|]. exists [i]. split_and!; [done|done|].
  intros [|j] x Hj; simpl in Hj; [|by rewrite lookup_nil in Hj]. simplify_eq. split; [lia|done].
Qed.

Lemma push_insn_registry s i s' : push_insn s i = Ok s' -> registry s' = registry s.
Proof. unfold push_insn. intros Hs. by result_inv; subst. Qed.

Lemma fill_insn_fields p value : fields_ok (fill_insn p value).
Proof.
  unfold fields_ok, fill_insn. simpl. change 15 with (2 ^ 4 - 1). rewrite !land_ones_mod by lia.
  split_and!; [apply as_u_range; lia| | |apply as_i_range; lia];
    unfold is_u; apply Z.mod_pos_bound; lia.
Qed.

Lemma fill_emits n value : forall s s',
  fill n value s = Ok s' -> 0 <= insn_ptr s -> insn_ptr s + Z.of_nat n < 2 ^ 63 ->
  emits s s' (Z.of_nat n).
Proof.
  induction n as [|n IH]; intros s s' Hs Hp Hb; cbn [fill] in Hs.
  { result_inv; subst. apply emits_refl. }
  result_inv. apply push_insn_emits in H1 as [He _]; [|done|apply fill_insn_fields|lia..].
  apply IH in Hs; [|destruct He; lia..].
  replace (Z.of_nat (S n)) with (1 + Z.of_nat n) by lia. by eapply emits_trans.
Qed.

Lemma insn_fields opc d s o m i :
  insn opc d s o m = Ok i -> is_u 8 opc ->
  fields_ok i /\ i = mkInsn 0 opc d s o m /\ is_i 32 m.
Proof.
  unfold insn. intros Hi Ho. result_inv; subst.
  assert (is_u 4 d /\ is_u 4 s /\ is_i 16 o /\ is_i 32 m) as (Hd & Hs & Hoff & Hm)
    by (unfold is_u, is_i, i32_max, i32_min in *; lia).
  rewrite as_i_small, !as_u_small by (done || unfold is_u in *; lia).
  split_and!; auto. split_and!; auto.
Qed.

(** What the match on operands may produce. *)
Lemma assemble_operands_fields v lm p r name ty opc ops r' i :
  assemble_operands v lm p r name ty opc ops = Ok (r', i) -> is_u 8 opc ->
  registry_le r r' /\ fields_ok i /\
  (ty = LoadDwImm -> exists d z, ops = [Register d; Integer z]).
Proof.
  intros Ha Ho. assert (Hx : is_u 8 (Z.lor opc BPF_X)) by (apply lor_is_u; [lia|done|done]).
  assert (Hk : is_u 8 (Z.lor opc BPF_K)) by (apply lor_is_u; [lia|done|done]).
  destruct ty, ops as [|[] [|[] [|[] [|]]]]; cbn [assemble_operands] in Ha; try discriminate;
    result_inv; simplify_eq/=;
    repeat match goal with
      | Hi : insn _ _ _ _ _ = Ok _ |- _ => apply insn_fields in Hi as (? & _ & _); [|done]
      | Hm : map_error _ _ = Ok _ |- _ => apply map_error_ok, register_function_grows in Hm as [? _]
      end; split_and!; first [reflexivity | done | eauto].
Qed.

Lemma assemble_instruction_emits v lm s name ops s' :
  assemble_instruction v lm s name ops = Ok s' ->
  0 <= insn_ptr s -> insn_ptr s + size (Instruction name ops) < 2 ^ 63 ->
  emits s s' (size (Instruction name ops)) /\
  exists ty opc r i, make_instruction_map v !! name = Some (ty, opc) /\
    assemble_operands v lm (insn_ptr s) (registry s) name ty opc ops = Ok (r, i) /\
    insns s' !! length (insns s) = Some (with_ptr i (insn_ptr s)) /\ registry s' = r.
Proof.
  unfold assemble_instruction. intros Hs Hp Hb.
  destruct (make_instruction_map v !! name) as [[ty opc]|] eqn:Hm; [|discriminate].
  destruct (map_entries_ok _ _ _ _ Hm) as [Hl Ho]. apply result_bind_ok in Hs as ([r i] & Ha & Hs).
  apply result_bind_ok in Hs as (s1 & H1 & Hs).
  destruct (assemble_operands_fields _ _ _ _ _ _ _ _ _ _ Ha Ho) as (Hr & Hf & Hd).
  cbn [fst snd] in *. cbn [size] in *. rewrite <- Hl in *.
  pose proof (push_insn_registry _ _ _ H1) as Hreg1.
  apply push_insn_emits in H1 as [He Hi]; simpl; [|done|done|lia|destruct bool_decide; lia].
  assert (He1 : emits s s1 1) by (destruct He as (? & ? & ?); split; [done|]; split; [by etrans|done]).
  cbn [insns] in Hi. destruct (bool_decide_reflect (ty = LoadDwImm)) as [->|Hne].
  - destruct (Hd eq_refl) as (d & z & ->). destruct He1 as (Hp1 & Hrest).
    pose proof (push_insn_registry _ _ _ Hs) as Hreg2.
    apply push_insn_emits in Hs as [He2 Hi2]; [|done|by cbn|lia..].
    split; [apply (emits_trans s s1 s' 1 1); [split; auto|done]|].
    exists LoadDwImm, opc, r, i. split_and!; auto; [|by rewrite Hreg2].
    rewrite Hi2, Hi, <- app_assoc. by apply list_lookup_middle.
  - assert (s' = s1) as ->.
    { destruct ty; try done; destruct ops as [|? [|[] []]]; congruence. }
    split; [done|]. exists ty, opc, r, i. split_and!; auto. rewrite Hi. by apply list_lookup_middle.
Qed.

Lemma second_step_emits v lm s st s' :
  second_pass_step v lm s st = Ok s' -> 0 <= size st ->
  0 <= insn_ptr s -> insn_ptr s + size st < 2 ^ 63 -> emits s s' (size st).
Proof.
  intros Hs Hz Hp Hb. destruct st as [name|name ops|name ops]; cbn [second_pass_step] in Hs.
  - result_inv; subst. apply emits_refl.
  - destruct ops as [|[] [|[] [|]]]; cbn [size] in *; result_inv.
    apply fill_emits in Hs; [by rewrite Z2Nat.id in Hs|done|lia].
  - by apply assemble_instruction_emits in Hs as [? _].
Qed.

Lemma second_pass_emits v lm l : forall s s',
  second_pass v lm s l = Ok s' -> Forall (fun st => 0 <= size st) l ->
  0 <= insn_ptr s -> insn_ptr s + total l < 2 ^ 63 -> emits s s' (total l).
Proof.
  induction l as [|st l IH]; intros s s' Hs Hf Hp Hb; cbn [second_pass] in Hs.
  { result_inv; subst. apply emits_refl. }
  rewrite Forall_cons in Hf. destruct Hf as [Hz Hf]. pose proof (total_nonneg l Hf).
  cbn [total foldr] in *. fold (total l) in *. apply result_bind_ok in Hs as (s1 & Hst & Hs).
  apply second_step_emits in Hst; [|lia..]. destruct (Hst) as [Hp1 _].
  apply IH in Hs; [|done|lia..]. by eapply emits_trans.
Qed.

Lemma second_pass_app v lm a b s :
  second_pass v lm s (a ++ b) = s' ← second_pass v lm s a; second_pass v lm s' b.
Proof.
  revert s. induction a as [|st a IH]; intros s; [done|]. cbn [app second_pass].
  unfold mbind, result_bind in *. destruct (second_pass_step v lm s st); auto.
Qed.

(** ** Both passes *)
Lemma assembled_emits v l s :
  assemble_statements v l = Ok s -> fits l ->
  exists f, first_pass first_pass_init l = Ok f /\
    emits (mkSecondPass 0 (first_registry f) []) s (total l).
Proof.
  unfold assemble_statements. intros Hs [Hz Ht]. apply result_bind_ok in Hs as (f & Hf & Hs).
  exists f. split; [done|]. apply second_pass_emits in Hs; [done|done|simpl; lia..].
Qed.

Lemma assembled_statement v l s k name ops :
  assemble_statements v l = Ok s -> fits l -> l !! k = Some (Instruction name ops) ->
  exists f ty opc r r' i, first_pass first_pass_init l = Ok f /\
    make_instruction_map v !! name = Some (ty, opc) /\
    assemble_operands v (labels f) (address l k) r name ty opc ops = Ok (r', i) /\
    insns s !! Z.to_nat (address l k) = Some (with_ptr i (address l k)) /\
    registry_le (first_registry f) (registry s) /\ registry_le r' (registry s).
Proof.
  intros Hs Hfit Hk. destruct (assembled_emits _ _ _ Hs Hfit) as (f & Hf & _ & Hreg & _).
  destruct (fits_split _ _ _ Hfit Hk) as (Hl & Ha0 & Hz & Htot & Hr0 & Hb).
  unfold assemble_statements in Hs. rewrite Hf in Hs. cbn [mbind result_bind] in Hs.
  destruct Hfit as [Hall _]. rewrite Hl in Hs, Hall. rewrite Forall_app, Forall_cons in Hall.
  destruct Hall as (Hall1 & _ & Hall2). rewrite second_pass_app in Hs.
  apply result_bind_ok in Hs as (s1 & Hs1 & Hs). cbn [second_pass] in Hs.
  apply result_bind_ok in Hs as (s2 & Hs2 & Hs). fold (address l k) in *.
  apply second_pass_emits in Hs1 as (Hp1 & _ & n1 & Hi1 & Hn1 & _);
    [|done|simpl; lia|simpl; unfold address in *; lia].
  cbn [insn_ptr insns app] in *. fold (address l k) in *.
  apply assemble_instruction_emits in Hs2 as [He2 (ty & opc & r & i & Hm & Ho & Hi & Hr)]; [|lia..].
  destruct He2 as (Hp2 & _). apply second_pass_emits in Hs as (_ & Hle & n3 & Hi3 & _); [|done|lia..].
  exists f, ty, opc, (registry s1), r, i. rewrite Hp1, Z.add_0_l, Hr in *. split_and!; auto.
  rewrite Hi3. apply lookup_app_l_Some. rewrite <- Hi. f_equal. rewrite Hi1. lia.
Qed.

(** ** Labels *)
Lemma label_from_declared p l name t :
  label_from p l name = Some t ->
  exists k, l !! k = Some (LabelStatement name) /\ t = p + address l k.
Proof.
  revert p. induction l as [|st l IH]; intros p Hl; [done|]. cbn [label_from] in Hl.
  destruct (label_from (p + size st) l name) as [t'|] eqn:E.
  - simplify_eq. apply IH in E as (k & Hk & ->). exists (S k). split; [done|].
    unfold address. cbn [take total foldr]. fold (total (take k l)). lia.
  - destruct st; try done. destruct decide; [|done]. simplify_eq. exists 0%nat.
    split; [done|]. unfold address. simpl. lia.
Qed.

Lemma label_from_none p l name : label_from p l name = None -> LabelStatement name ∉ l.
Proof.
  revert p. induction l as [|st l IH]; intros p Hl; [by intros ?%elem_of_nil|]. cbn [label_from] in Hl.
  destruct (label_from (p + size st) l name) eqn:E; [done|]. apply IH in E. intros [<-|Hin]%elem_of_cons; [|done].
  by rewrite decide_True in Hl.
Qed.

Lemma label_address_bounds l name t :
  fits l -> label_address l name = Some t -> 0 <= t < 2 ^ 63.
Proof.
  intros Hf. unfold label_address. destruct (label_from 0 l name) eqn:E.
  - intros ?. simplify_eq. apply label_from_declared in E as (k & Hk & ->).
    destruct (fits_split _ _ _ Hf Hk) as (_ & ? & ? & ? & ? & ?). lia.
  - case_decide; intros; simplify_eq. lia.
Qed.

Lemma first_pass_app a b s :
  first_pass s (a ++ b) = s' ← first_pass s a; first_pass s' b.
Proof.
  revert s. induction a as [|st a IH]; intros s; [done|]. cbn [app first_pass].
  unfold mbind, result_bind in *. destruct (first_pass_step s st); auto.
Qed.

(** A label that names a function is registered under its address. *)
Definition is_function_label (name : string) : bool :=
  String.prefix "function_" name || bool_decide (name = "entrypoint").

Lemma function_label_registered l f k name :
  first_pass first_pass_init l = Ok f -> fits l -> l !! k = Some (LabelStatement name) ->
  is_function_label name = true ->
  exists n, lookup_by_key (first_registry f) (as_u 32 (address l k)) = Some (n, address l k).
Proof.
  intros Hf Hfit Hk Hpre. destruct (fits_split _ _ _ Hfit Hk) as (Hl & Ha0 & Hz & Htot & Hr0 & Hb).
  destruct Hfit as [Hall _]. rewrite Hl in Hf, Hall. rewrite Forall_app, Forall_cons in Hall.
  destruct Hall as (Hall1 & _ & Hall2). rewrite first_pass_app in Hf.
  apply result_bind_ok in Hf as (s1 & Hs1 & Hf). cbn [first_pass] in Hf.
  apply result_bind_ok in Hf as (s2 & Hs2 & Hf).
  apply first_pass_spec in Hs1 as (Hp1 & _); [|done|done|unfold address in *; simpl; lia].
  cbn [first_ptr first_pass_init] in Hp1. fold (address l k) in Hp1.
  pose proof (first_step_spec _ _ _ Hs2 ltac:(lia) Hz ltac:(lia)) as (Hp2 & _).
  apply first_pass_spec in Hf as (_ & Hgrow & _); [|lia|done|lia].
  cbn [first_pass_step] in Hs2. unfold is_function_label in Hpre. rewrite Hpre in Hs2.
  apply result_bind_ok in Hs2 as (r & Hr & Hs2). result_inv; subst s2.
  apply map_error_ok, register_function_grows in Hr as [_ (n & Hn)].
  exists n. apply Hgrow. cbn [first_registry]. rewrite Hp1, Z.add_0_l in Hn. exact Hn.
Qed.

Lemma resolve_label_spec p lm name d :
  resolve_label p lm name = Ok d -> 0 <= p < 2 ^ 63 ->
  (forall t, lm !! name = Some t -> 0 <= t < 2 ^ 63) ->
  exists t, lm !! name = Some t /\ d = t - p - 1.
Proof.
  unfold resolve_label. intros Hr Hp Ht. result_inv. exists x. split; [done|].
  specialize (Ht _ H1). rewrite !as_i_small in H2 by (lia || unfold is_i; lia).
  rewrite arith_i64_ok in H2 by (unfold is_i; lia). result_inv. subst.
  rewrite arith_i64_ok in Hr by (unfold is_i; lia). by result_inv.
Qed.

Lemma call_target_relative v p d :
  static_syscalls v = true -> 0 <= p < 2 ^ 63 -> 0 <= p + d + 1 < 2 ^ 63 ->
  calculate_call_imm_target_pc v p d = as_u 32 (p + d + 1).
Proof.
  intros Hv Hp Hd. unfold calculate_call_imm_target_pc. rewrite Hv.
  rewrite as_i_small by (lia || unfold is_i; lia).
  f_equal. unfold saturating_i64, i64_min, i64_max. lia.
Qed.

Lemma jump_operand_target (r r' : FunctionRegistry Z) p lm lab o d x m i :
  (off ← resolve_label p lm lab; j ← insn o d x off m; Ok (r, j)) = Ok (r', i) -> is_u 8 o ->
  0 <= p < 2 ^ 63 -> (forall t, lm !! lab = Some t -> 0 <= t < 2 ^ 63) ->
  exists t, lm !! lab = Some t /\ t = p + 1 + off i.
Proof.
  intros Hr Ho Hp Ht. apply result_bind_ok in Hr as (dist & Hd & Hr).
  apply result_bind_ok in Hr as (j & Hj & Hr). simplify_eq.
  apply insn_fields in Hj as (_ & -> & _); [|done].
  apply resolve_label_spec in Hd as (t & Hl & ->); [|done|done]. exists t. simpl. split; [done|lia].
Qed.

(** What an operand list ending in a label makes of the label. *)
Lemma label_operand_target v lm p r name ty opc ops lab r' i :
  assemble_operands v lm p r name ty opc ops = Ok (r', i) -> is_u 8 opc ->
  last ops = Some (Label lab) -> 0 <= p < 2 ^ 63 ->
  (forall t, lm !! lab = Some t -> 0 <= t < 2 ^ 63) ->
  match ty with
  | Syscall => imm i = as_i 32 (hash_symbol_name (bytes_of_string lab))
  | CallImm => exists t, lm !! lab = Some t /\
      calculate_call_imm_target_pc v p (imm i) = as_u 32 t
  | _ => exists t, lm !! lab = Some t /\ t = p + 1 + off i
  end.
Proof.
  intros Ha Ho Hlast Hp Ht.
  assert (Hx : is_u 8 (Z.lor opc BPF_X)) by (apply lor_is_u; [lia|done|done]).
  assert (Hk : is_u 8 (Z.lor opc BPF_K)) by (apply lor_is_u; [lia|done|done]).
  destruct ty, ops as [|[] [|[] [|[] [|]]]]; cbn [assemble_operands] in Ha; try discriminate;
    simplify_eq/=; try (by eapply jump_operand_target).
  - result_inv; simplify_eq. by apply insn_fields in H1 as (_ & -> & _).
  - apply result_bind_ok in Ha as (t & Hl & Ha). apply ok_or_ok in Hl. exists t. split; [done|].
    specialize (Ht _ Hl). rewrite (as_i_small 64 t) in Ha by (lia || unfold is_i; lia).
    rewrite (as_i_small 64 p) in Ha by (lia || unfold is_i; lia).
    destruct (static_syscalls v) eqn:Hv.
    + rewrite arith_i64_ok in Ha by (unfold is_i; lia). cbn [mbind result_bind] in Ha.
      rewrite arith_i64_ok in Ha by (unfold is_i; lia). cbn [mbind result_bind] in Ha.
      result_inv; simplify_eq. apply insn_fields in H1 as (_ & -> & _); [|done]. simpl.
      rewrite call_target_relative by (done || lia). f_equal. lia.
    + result_inv; simplify_eq. apply insn_fields in H2 as (_ & -> & _); [|done]. simpl.
      unfold calculate_call_imm_target_pc. by rewrite Hv.
Qed.

Lemma arith_i64_mod {E} z x : arith_i64 (E := E) z = Ok x -> as_u 64 x = as_u 64 z.
Proof. unfold arith_i64. intros Hx. repeat case_match; simplify_eq; [done|]. by apply as_u_as_i. Qed.

(** What a call by distance makes of it. *)
Lemma call_operand_target v lm p r name opc d r' i :
  assemble_operands v lm p r name CallImm opc [Integer d] = Ok (r', i) -> is_u 8 opc -> 0 <= p < 2 ^ 63 -> is_i 64 (p + 1 + d) ->
  calculate_call_imm_target_pc v p (imm i) = as_u 32 (p + 1 + d) /\
  exists n, lookup_by_key r' (as_u 32 (p + 1 + d)) = Some (n, as_u 64 (p + 1 + d)).
Proof.
  intros Ha Ho Hp Hf. cbn [assemble_operands] in Ha. rewrite (as_i_small 64 p) in Ha by (lia || unfold is_i; lia).
  apply result_bind_ok in Ha as (sum & H1 & Ha). apply result_bind_ok in Ha as (t & H2 & Ha).
  apply result_bind_ok in Ha as (r1 & H3%map_error_ok & Ha). apply result_bind_ok in Ha as (j & Hj & Ha).
  simplify_eq. apply insn_fields in Hj as (_ & -> & Hm); [|done]. cbn [imm].
  apply arith_i64_mod in H1, H2.
  assert (Ht : as_u 64 t = as_u 64 (p + 1 + d)).
  { rewrite H2. unfold as_u in *. rewrite <- Zplus_mod_idemp_l, H1, Zplus_mod_idemp_l. f_equal. lia. }
  assert (Ht' : as_u 32 t = as_u 32 (p + 1 + d)) by (by rewrite <- (as_u_as_u 32 64), Ht, as_u_as_u by lia).
  apply register_function_grows in H3 as [_ Hl]. rewrite Ht, Ht' in Hl. split; [|done].
  unfold calculate_call_imm_target_pc. destruct (static_syscalls v) eqn:Hv; [|done].
  rewrite as_i_small by (lia || unfold is_i; lia). f_equal. unfold saturating_i64, i64_min, i64_max, is_i in *. lia.
Qed.

(** ** The text *)
Lemma land_low_bits w z m : 0 <= w -> is_u w m -> Z.land z m = Z.land (as_u w z) m.
Proof.
  intros Hw Hm. unfold as_u. rewrite <- Z.land_ones, <- Z.land_assoc by done. f_equal.
  rewrite Z.land_comm, Z.land_ones by done. symmetry. by apply as_u_small.
Qed.

(** The decoder reads the immediate as 32 bits. *)
Definition decoded (i : Insn) : Insn := with_imm i (as_i 32 (imm i)).

Lemma to_array_decoded i : to_array (decoded i) = to_array i.
Proof.
  unfold to_array, decoded, with_imm. cbn [opc dst src off imm].
  rewrite (land_low_bits 32 (as_i 32 (imm i)) 0xff), (land_low_bits 32 (as_i 32 (imm i)) 0xff00)
    by (done || lia).
  rewrite as_u_as_i by lia. by rewrite <- !land_low_bits by (done || lia).
Qed.

Lemma decoded_wf i : fields_ok i -> wf_insn (decoded i).
Proof. intros (? & ? & ? & ?). split; try done. simpl. apply as_i_range. lia. Qed.

Lemma encodings_decoded l : concat (map to_array l) = concat (map to_array (map decoded l)).
Proof. rewrite map_map. f_equal. apply map_ext. intros i. by rewrite to_array_decoded. Qed.

Lemma whole_text {E V} bytes v a vaddr pc r (loader : BuiltinProgram V) :
  let n := Z.of_nat (length bytes) in
  get_text_bytes (E := E) (mkExecutable bytes v (Borrowed a (0, n)) vaddr (0, n) pc r loader)
  = Ok (vaddr, bytes).
Proof.
  intros n. unfold get_text_bytes, subslice. cbn [text_section_range ro_section elf_bytes].
  rewrite Z.leb_refl, Z.sub_0_r. rewrite (proj2 (Z.leb_le 0 n)) by lia.
  unfold n. by rewrite Nat2Z.id, Z.leb_refl, take_ge.
Qed.

(** C28: when [assemble] succeeds, the text of the executable is the emitted
    instructions: their number is the sum of the sizes, and at every index the
    decoder returns the one emitted there, with its immediate as 32 bits. *)
Theorem assembled_text_decodes `{ByteOrderLaws} {V} `{EqDecision V} {E}
    parse text (loader : BuiltinProgram V) e :
  assemble parse text loader = Ok e ->
  exists config l s, get_config (E := AsmError) loader = Ok config /\ parse text = Ok l /\
    assemble_statements (enabled_sbpf_versions config).2 l = Ok s /\
    Vm.sbpf_version e = (enabled_sbpf_versions config).2 /\
    get_text_bytes (E := E) e = Ok (MM_BYTECODE_START, elf_bytes e) /\
    (fits l -> 8 * total l < 2 ^ 63 ->
     Z.of_nat (length (elf_bytes e)) = 8 * total l /\
     forall k i, insns s !! k = Some i ->
       ptr i = Z.of_nat k /\ get_insn (E := E) (elf_bytes e) (Z.of_nat k) = Ok (decoded i)).
Proof.
  unfold assemble. intros He. apply result_bind_ok in He as (config & Hc & He).
  apply result_bind_ok in He as (l & Hl & He). apply result_bind_ok in He as (s & Hs & He).
  apply map_error_ok in He. unfold from_text_bytes in He. apply map_error_ok in He.
  unfold new_from_text_bytes in He. apply result_bind_ok in He as (rp & _ & He). result_inv; subst e.
  exists config, l, s. cbn [Vm.sbpf_version elf_bytes].
  split_and!; auto; [apply whole_text|]. intros Hfit Hb.
  destruct (assembled_emits _ _ _ Hs Hfit) as (f & _ & _ & _ & new & Hn & Hlen & Hall).
  cbn [insns insn_ptr app] in *. subst new.
  change (map to_vec) with (map to_array). rewrite length_encodings. split; [lia|]. intros k i Hk.
  destruct (Hall k i Hk) as [Hp Hf]. split; [lia|]. rewrite encodings_decoded.
  rewrite (get_insn_encodings (map decoded (insns s)) k (decoded i)).
  - unfold with_ptr, decoded, with_imm. simpl. by rewrite Hp, Z.add_0_l.
  - apply Forall_map, Forall_forall. intros x Hx. apply list_elem_of_lookup in Hx as [j Hj].
    by apply decoded_wf, (Hall j x Hj).
  - rewrite length_map. lia.
  - by rewrite list_lookup_fmap, Hk.
Qed.
End Passes.
