(* ===== verification/Disassembler.v ===== *)
(** * The disassembler: [src/casestudy/sbpf/src/disassembler.rs]

    The text of one instruction.  [Form] is the layout an arm of the match gives
    its operands, [arms] the arms in order, each with its opcode, guard and
    mnemonic; the first arm that matches is taken.  The warning [byteswap_str]
    prints on the console is left out. *)

From Stdlib Require Import String.
From stdpp Require Import gmap strings.
From S2P Require Import Prelude Ebpf Program Text.

(** ** The graph nodes of [static_analysis.rs] that carry the labels *)
Record TopologicalIndex := mkTopologicalIndex {
  scc_id : Z;
  discovery : Z
}.

Record CfgNode := mkCfgNode {
  label : string;
  sources : list Z;
  destinations : list Z;
  node_instructions : Z * Z;
  topo_index : TopologicalIndex;
  dominator_parent : Z;
  dominated_children : list Z
}.

Definition TopologicalIndex_default : TopologicalIndex := mkTopologicalIndex u64_max u64_max.

Definition CfgNode_default : CfgNode :=
  mkCfgNode "" [] [] (0, 0) TopologicalIndex_default u64_max [].

(** ** Operands *)
Definition resolve_label (cfg_nodes : gmap Z CfgNode) (pc : Z) : string :=
  match cfg_nodes !! pc with Some cfg_node => label cfg_node | None => "[invalid]" end.

Definition alu_imm_str (name : string) (insn : Insn) : string :=
  name +:+ " r" +:+ decimal (dst insn) +:+ ", " +:+ signed_decimal (imm insn).

Definition alu_reg_str (name : string) (insn : Insn) : string :=
  name +:+ " r" +:+ decimal (dst insn) +:+ ", r" +:+ decimal (src insn).

Definition byteswap_str (name : string) (insn : Insn) : string :=
  name +:+ signed_decimal (imm insn) +:+ " r" +:+ decimal (dst insn).

Definition signed_off_str (value : Z) : string :=
  if value <? 0 then "-0x" +:+ hex (as_u 64 (- value)) else "+0x" +:+ hex (as_u 16 value).

Definition ld_st_imm_str (name : string) (insn : Insn) : string :=
  name +:+ " [r" +:+ decimal (dst insn) +:+ signed_off_str (off insn) +:+ "], " +:+
  signed_decimal (imm insn).

Definition ld_reg_str (name : string) (insn : Insn) : string :=
  name +:+ " r" +:+ decimal (dst insn) +:+ ", [r" +:+ decimal (src insn) +:+
  signed_off_str (off insn) +:+ "]".

Definition st_reg_str (name : string) (insn : Insn) : string :=
  name +:+ " [r" +:+ decimal (dst insn) +:+ signed_off_str (off insn) +:+ "], r" +:+
  decimal (src insn).

Section Disassemble.
Context {E V : Type} `{Profile}.

(** [(insn.ptr as isize + insn.off as isize + 1) as usize] *)
Definition jump_target (insn : Insn) : result E Z :=
  sum ← arith_i64 (as_i 64 (ptr insn) + off insn);
  next ← arith_i64 (sum + 1);
  Ok (as_u 64 next).

Definition jmp_imm_str (name : string) (insn : Insn) (cfg_nodes : gmap Z CfgNode)
    : result E string :=
  target_pc ← jump_target insn;
  Ok (name +:+ " r" +:+ decimal (dst insn) +:+ ", " +:+ signed_decimal (imm insn) +:+ ", " +:+
      resolve_label cfg_nodes target_pc).

Definition jmp_reg_str (name : string) (insn : Insn) (cfg_nodes : gmap Z CfgNode)
    : result E string :=
  target_pc ← jump_target insn;
  Ok (name +:+ " r" +:+ decimal (dst insn) +:+ ", r" +:+ decimal (src insn) +:+ ", " +:+
      resolve_label cfg_nodes target_pc).

(** ** The arms *)
Inductive Form :=
| Lddw
| LdReg
| LdStImm
| StReg
| AluImm
| AluReg
| Unary
| Byteswap
| JmpImm
| JmpReg
| JumpAlways
| CallImmediate
| CallRegister
| Plain.

#[export] Instance Form_eq_dec : EqDecision Form.
Proof. solve_decision. Defined.

Definition arms (v : SBPFVersion) : list (Z * bool * string * Form) :=
  [
   (LD_DW_IMM, true, "lddw", Lddw);
   (LD_B_REG, negb (move_memory_instruction_classes v), "ldxb", LdReg);
   (LD_H_REG, negb (move_memory_instruction_classes v), "ldxh", LdReg);
   (LD_W_REG, negb (move_memory_instruction_classes v), "ldxw", LdReg);
   (LD_DW_REG, negb (move_memory_instruction_classes v), "ldxdw", LdReg);
   (ST_B_IMM, negb (move_memory_instruction_classes v), "stb", LdStImm);
   (ST_H_IMM, negb (move_memory_instruction_classes v), "sth", LdStImm);
   (ST_W_IMM, negb (move_memory_instruction_classes v), "stw", LdStImm);
   (ST_DW_IMM, negb (move_memory_instruction_classes v), "stdw", LdStImm);
   (ST_B_REG, negb (move_memory_instruction_classes v), "stxb", StReg);
   (ST_H_REG, negb (move_memory_instruction_classes v), "stxh", StReg);
   (ST_W_REG, negb (move_memory_instruction_classes v), "stxw", StReg);
   (ST_DW_REG, negb (move_memory_instruction_classes v), "stxdw", StReg);
   (ADD32_IMM, true, "add32", AluImm);
   (ADD32_REG, true, "add32", AluReg);
   (SUB32_IMM, true, "sub32", AluImm);
   (SUB32_REG, true, "sub32", AluReg);
   (MUL32_IMM, negb (enable_pqr v), "mul32", AluImm);
   (MUL32_REG, negb (enable_pqr v), "mul32", AluReg);
   (LD_1B_REG, move_memory_instruction_classes v, "ldxb", LdReg);
   (DIV32_IMM, negb (enable_pqr v), "div32", AluImm);
   (DIV32_REG, negb (enable_pqr v), "div32", AluReg);
   (LD_2B_REG, move_memory_instruction_classes v, "ldxh", LdReg);
   (OR32_IMM, true, "or32", AluImm);
   (OR32_REG, true, "or32", AluReg);
   (AND32_IMM, true, "and32", AluImm);
   (AND32_REG, true, "and32", AluReg);
   (LSH32_IMM, true, "lsh32", AluImm);
   (LSH32_REG, true, "lsh32", AluReg);
   (RSH32_IMM, true, "rsh32", AluImm);
   (RSH32_REG, true, "rsh32", AluReg);
   (NEG32, negb (disable_neg v), "neg32", Unary);
   (LD_4B_REG, move_memory_instruction_classes v, "ldxw", LdReg);
   (MOD32_IMM, negb (enable_pqr v), "mod32", AluImm);
   (MOD32_REG, negb (enable_pqr v), "mod32", AluReg);
   (LD_8B_REG, move_memory_instruction_classes v, "ldxdw", LdReg);
   (XOR32_IMM, true, "xor32", AluImm);
   (XOR32_REG, true, "xor32", AluReg);
   (MOV32_IMM, true, "mov32", AluImm);
   (MOV32_REG, true, "mov32", AluReg);
   (ARSH32_IMM, true, "arsh32", AluImm);
   (ARSH32_REG, true, "arsh32", AluReg);
   (LE, true, "le", Byteswap);
   (BE, true, "be", Byteswap);
   (ADD64_IMM, true, "add64", AluImm);
   (ADD64_REG, true, "add64", AluReg);
   (SUB64_IMM, true, "sub64", AluImm);
   (SUB64_REG, true, "sub64", AluReg);
   (MUL64_IMM, negb (enable_pqr v), "mul64", AluImm);
   (ST_1B_IMM, move_memory_instruction_classes v, "stb", LdStImm);
   (MUL64_REG, negb (enable_pqr v), "mul64", AluReg);
   (ST_1B_REG, move_memory_instruction_classes v, "stxb", StReg);
   (DIV64_IMM, negb (enable_pqr v), "div64", AluImm);
   (ST_2B_IMM, move_memory_instruction_classes v, "sth", LdStImm);
   (DIV64_REG, negb (enable_pqr v), "div64", AluReg);
   (ST_2B_REG, move_memory_instruction_classes v, "stxh", StReg);
   (OR64_IMM, true, "or64", AluImm);
   (OR64_REG, true, "or64", AluReg);
   (AND64_IMM, true, "and64", AluImm);
   (AND64_REG, true, "and64", AluReg);
   (LSH64_IMM, true, "lsh64", AluImm);
   (LSH64_REG, true, "lsh64", AluReg);
   (RSH64_IMM, true, "rsh64", AluImm);
   (RSH64_REG, true, "rsh64", AluReg);
   (ST_4B_IMM, move_memory_instruction_classes v, "stw", LdStImm);
   (NEG64, negb (disable_neg v), "neg64", Unary);
   (ST_4B_REG, move_memory_instruction_classes v, "stxw", StReg);
   (MOD64_IMM, negb (enable_pqr v), "mod64", AluImm);
   (ST_8B_IMM, move_memory_instruction_classes v, "stdw", LdStImm);
   (MOD64_REG, negb (enable_pqr v), "mod64", AluReg);
   (ST_8B_REG, move_memory_instruction_classes v, "stxdw", StReg);
   (XOR64_IMM, true, "xor64", AluImm);
   (XOR64_REG, true, "xor64", AluReg);
   (MOV64_IMM, true, "mov64", AluImm);
   (MOV64_REG, true, "mov64", AluReg);
   (ARSH64_IMM, true, "arsh64", AluImm);
   (ARSH64_REG, true, "arsh64", AluReg);
   (HOR64_IMM, true, "hor64", AluImm);
   (LMUL32_IMM, enable_pqr v, "lmul32", AluImm);
   (LMUL32_REG, enable_pqr v, "lmul32", AluReg);
   (LMUL64_IMM, enable_pqr v, "lmul64", AluImm);
   (LMUL64_REG, enable_pqr v, "lmul64", AluReg);
   (UHMUL64_IMM, enable_pqr v, "uhmul64", AluImm);
   (UHMUL64_REG, enable_pqr v, "uhmul64", AluReg);
   (SHMUL64_IMM, enable_pqr v, "shmul64", AluImm);
   (SHMUL64_REG, enable_pqr v, "shmul64", AluReg);
   (UDIV32_IMM, enable_pqr v, "udiv32", AluImm);
   (UDIV32_REG, enable_pqr v, "udiv32", AluReg);
   (UDIV64_IMM, enable_pqr v, "udiv64", AluImm);
   (UDIV64_REG, enable_pqr v, "udiv64", AluReg);
   (UREM32_IMM, enable_pqr v, "urem32", AluImm);
   (UREM32_REG, enable_pqr v, "urem32", AluReg);
   (UREM64_IMM, enable_pqr v, "urem64", AluImm);
   (UREM64_REG, enable_pqr v, "urem64", AluReg);
   (SDIV32_IMM, enable_pqr v, "sdiv32", AluImm);
   (SDIV32_REG, enable_pqr v, "sdiv32", AluReg);
   (SDIV64_IMM, enable_pqr v, "sdiv64", AluImm);
   (SDIV64_REG, enable_pqr v, "sdiv64", AluReg);
   (SREM32_IMM, enable_pqr v, "srem32", AluImm);
   (SREM32_REG, enable_pqr v, "srem32", AluReg);
   (SREM64_IMM, enable_pqr v, "srem64", AluImm);
   (SREM64_REG, enable_pqr v, "srem64", AluReg);
   (JEQ32_IMM, enable_jmp32 v, "jeq32", JmpImm);
   (JEQ32_REG, enable_jmp32 v, "jeq32", JmpReg);
   (JGT32_IMM, enable_jmp32 v, "jgt32", JmpImm);
   (JGT32_REG, enable_jmp32 v, "jgt32", JmpReg);
   (JGE32_IMM, enable_jmp32 v, "jge32", JmpImm);
   (JGE32_REG, enable_jmp32 v, "jge32", JmpReg);
   (JLT32_IMM, enable_jmp32 v, "jlt32", JmpImm);
   (JLT32_REG, enable_jmp32 v, "jlt32", JmpReg);
   (JLE32_IMM, enable_jmp32 v, "jle32", JmpImm);
   (JLE32_REG, enable_jmp32 v, "jle32", JmpReg);
   (JSET32_IMM, enable_jmp32 v, "jset32", JmpImm);
   (JSET32_REG, enable_jmp32 v, "jset32", JmpReg);
   (JNE32_IMM, enable_jmp32 v, "jne32", JmpImm);
   (JNE32_REG, enable_jmp32 v, "jne32", JmpReg);
   (JSGT32_IMM, enable_jmp32 v, "jsgt32", JmpImm);
   (JSGT32_REG, enable_jmp32 v, "jsgt32", JmpReg);
   (JSGE32_IMM, enable_jmp32 v, "jsge32", JmpImm);
   (JSGE32_REG, enable_jmp32 v, "jsge32", JmpReg);
   (JSLT32_IMM, enable_jmp32 v, "jslt32", JmpImm);
   (JSLT32_REG, enable_jmp32 v, "jslt32", JmpReg);
   (JSLE32_IMM, enable_jmp32 v, "jsle32", JmpImm);
   (JSLE32_REG, enable_jmp32 v, "jsle32", JmpReg);
   (JA, true, "ja", JumpAlways);
   (JEQ64_IMM, true, "jeq", JmpImm);
   (JEQ64_REG, true, "jeq", JmpReg);
   (JGT64_IMM, true, "jgt", JmpImm);
   (JGT64_REG, true, "jgt", JmpReg);
   (JGE64_IMM, true, "jge", JmpImm);
   (JGE64_REG, true, "jge", JmpReg);
   (JLT64_IMM, true, "jlt", JmpImm);
   (JLT64_REG, true, "jlt", JmpReg);
   (JLE64_IMM, true, "jle", JmpImm);
   (JLE64_REG, true, "jle", JmpReg);
   (JSET64_IMM, true, "jset", JmpImm);
   (JSET64_REG, true, "jset", JmpReg);
   (JNE64_IMM, true, "jne", JmpImm);
   (JNE64_REG, true, "jne", JmpReg);
   (JSGT64_IMM, true, "jsgt", JmpImm);
   (JSGT64_REG, true, "jsgt", JmpReg);
   (JSGE64_IMM, true, "jsge", JmpImm);
   (JSGE64_REG, true, "jsge", JmpReg);
   (JSLT64_IMM, true, "jslt", JmpImm);
   (JSLT64_REG, true, "jslt", JmpReg);
   (JSLE64_IMM, true, "jsle", JmpImm);
   (JSLE64_REG, true, "jsle", JmpReg);
   (CALL_IMM, true, "call", CallImmediate);
   (CALL_REG, true, "callx", CallRegister);
   (EXIT, true, "exit", Plain)].

(** The [CALL_IMM] arm. *)
Definition call_str (insn : Insn) (pc : Z) (function_registry : FunctionRegistry Z)
    (loader : BuiltinProgram V) (v : SBPFVersion) : string :=
  let key := calculate_call_imm_target_pc v pc (imm insn) in
  let function_name :=
    (fun b => from_utf8_lossy b.1) <$> lookup_by_key function_registry key in
  let '(name, function_name) :=
    if (bool_decide (function_name = None) && negb (static_syscalls v)) || (src insn =? 0)
    then ("syscall",
          (fun b => from_utf8_lossy b.1) <$>
            lookup_by_key (sparse_registry loader) (as_u 32 (imm insn)))
    else ("call", function_name) in
  name +:+ " " +:+ default (signed_decimal (imm insn)) function_name.

Definition callx_str (name : string) (insn : Insn) (v : SBPFVersion) : string :=
  name +:+ " r" +:+
  decimal (if callx_uses_src_reg v then src insn
           else if callx_uses_dst_reg v then dst insn
           else as_u 8 (imm insn)).

Definition disassemble_instruction (insn : Insn) (pc : Z) (cfg_nodes : gmap Z CfgNode)
    (function_registry : FunctionRegistry Z) (loader : BuiltinProgram V) (v : SBPFVersion)
    : result E string :=
  match find (fun '(opcode, guard, _, _) => (opc insn =? opcode) && guard) (arms v) with
  | Some (_, _, name, form) =>
      match form with
      | Lddw => Ok (name +:+ " r" +:+ decimal (dst insn) +:+ ", 0x" +:+ hex (as_u 64 (imm insn)))
      | LdReg => Ok (ld_reg_str name insn)
      | LdStImm => Ok (ld_st_imm_str name insn)
      | StReg => Ok (st_reg_str name insn)
      | AluImm => Ok (alu_imm_str name insn)
      | AluReg => Ok (alu_reg_str name insn)
      | Unary => Ok (name +:+ " r" +:+ decimal (dst insn))
      | Byteswap => Ok (byteswap_str name insn)
      | JmpImm => jmp_imm_str name insn cfg_nodes
      | JmpReg => jmp_reg_str name insn cfg_nodes
      | JumpAlways =>
          target_pc ← jump_target insn;
          Ok (name +:+ " " +:+ resolve_label cfg_nodes target_pc)
      | CallImmediate => Ok (call_str insn pc function_registry loader v)
      | CallRegister => Ok (callx_str name insn v)
      | Plain => Ok name
      end
  | None => Ok ("unknown opcode=0x" +:+ hex (opc insn))
  end.
End Disassemble.
