(* ===== verification/DisassemblerFacts.v ===== *)
(** * What the disassembler prints, the assembler reads back

    [shows] is the text of an operand in the grammar of [asm_parser.rs], and
    [render] the text of a statement.  For every instruction in the form the
    assembler gives it ([canonical]), the disassembler returns the text of a
    statement, and assembling that statement at the same address emits the
    instruction again.  [Agreement] says what the label map, the graph nodes and
    the registries must share for the names in the text to be resolvable. *)

From Stdlib Require Import String Ascii.
From stdpp Require Import gmap strings.
From S2P Require Import Prelude Ebpf Program Verifier Error Text Vm Assembler.
From S2P Require Import InsnBuilderFacts AssemblerFacts Disassembler.

(** ** The grammar *)
Definition is_between (lo hi : nat) (c : ascii) : bool :=
  Nat.leb lo (nat_of_ascii c) && Nat.leb (nat_of_ascii c) hi.
Definition is_digit (c : ascii) : bool := is_between 48 57 c.
Definition is_word (c : ascii) : bool :=
  is_digit c || is_between 65 90 c || is_between 97 122 c || Nat.eqb (nat_of_ascii c) 95.

(** A label the operand parser reads as one: it tries a register and an integer
    first, and does not go back once one of them has consumed a character. *)
Definition is_label (s : string) : bool :=
  match s with
  | EmptyString => false
  | String c _ => forallb is_word (list_ascii_of_string s) &&
                  negb (is_digit c) && negb (Ascii.eqb c "r"%char)
  end.

Inductive shows : Operand -> string -> Prop :=
| shows_register r : 0 <= r <= i64_max -> shows (Register r) ("r" +:+ decimal r)
| shows_decimal z : i64_min < z <= i64_max -> shows (Integer z) (signed_decimal z)
| shows_hex z : is_u 64 z -> shows (Integer (as_i 64 z)) ("0x" +:+ hex z)
| shows_memory r o : 0 <= r <= i64_max -> is_i 16 o ->
    shows (Memory r o) ("[r" +:+ decimal r +:+ signed_off_str o +:+ "]")
| shows_label l : is_label l = true -> shows (Label l) l.

Definition render (name : string) (operands : list string) : string :=
  match operands with
  | [] => name
  | _ => name +:+ " " +:+ String.concat ", " operands
  end.

(** ** The form the assembler gives an instruction *)
Definition arm_of (v : SBPFVersion) (opcode : Z) : option (string * Form) :=
  (fun a => (a.1.2, a.2)) <$>
  find (fun '(o, guard, _, _) => (opcode =? o) && guard) (arms v).

Definition canonical (v : SBPFVersion) (i : Insn) : Prop :=
  match arm_of v (opc i) with
  | None => False
  | Some (_, form) =>
      match form with
      | Lddw => src i = 0 /\ off i = 0 /\ is_i 64 (imm i)
      | LdReg | StReg => imm i = 0
      | LdStImm => src i = 0 /\ is_i 32 (imm i)
      | AluImm => src i = 0 /\ off i = 0 /\ is_i 32 (imm i) /\
          ~ (opc i = ADD64_IMM /\ dst i = 10 /\ manual_stack_frame_bump v = false)
      | AluReg => off i = 0 /\ imm i = 0
      | Unary => src i = 0 /\ off i = 0 /\ imm i = 0
      | Byteswap => src i = 0 /\ off i = 0 /\ In (imm i) [16; 32; 64]
      | JmpImm => src i = 0 /\ is_i 32 (imm i)
      | JmpReg => imm i = 0
      | JumpAlways => dst i = 0 /\ src i = 0 /\ imm i = 0
      | CallImmediate => dst i = 0 /\ off i = 0 /\ is_i 32 (imm i) /\
          (src i = 0 \/
           static_syscalls v = true /\ src i = 1 /\ 0 <= ptr i + imm i + 1 < 2 ^ 32)
      | CallRegister => off i = 0 /\
          (if callx_uses_src_reg v then dst i = 0 /\ imm i = 0
           else if callx_uses_dst_reg v then src i = 0 /\ imm i = 0
           else dst i = 0 /\ src i = 0 /\ is_u 4 (imm i))
      | Plain => dst i = 0 /\ src i = 0 /\ off i = 0 /\ imm i = 0
      end
  end.

(** The slots an instruction takes: a 64-bit load has a second one. *)
Definition slots (i : Insn) : list Insn :=
  if opc i =? LD_DW_IMM
  then [with_imm i (as_i 32 (imm i)); lddw_high (ptr i + 1) (imm i)]
  else [i].

(** ** What the names in the text refer to *)
Definition registry_exact (r : FunctionRegistry Z) : Prop :=
  forall k n t, lookup_by_key r k = Some (n, t) -> t = k.

Record Agreement `{Murmur3} {V} (lm : gmap string Z) (cfg_nodes : gmap Z CfgNode)
    (functions : FunctionRegistry Z) (loader : BuiltinProgram V) : Prop := {
  nodes_labelled : forall t node, cfg_nodes !! t = Some node ->
    is_label (label node) = true /\ lm !! label node = Some t;
  functions_exact : registry_exact functions;
  functions_labelled : forall k n t, lookup_by_key functions k = Some (n, t) ->
    is_label (from_utf8_lossy n) = true /\ lm !! from_utf8_lossy n = Some t;
  syscalls_hashed : forall k n f, lookup_by_key (sparse_registry loader) k = Some (n, f) ->
    is_label (from_utf8_lossy n) = true /\
    hash_symbol_name (bytes_of_string (from_utf8_lossy n)) = k
}.

(** ** The arms against the table of mnemonics *)
Definition entry_is (v : SBPFVersion) (name : string) (ty : InstructionType) (opcode : Z) : bool :=
  match make_instruction_map v !! name with
  | Some (ty', opcode') => bool_decide (ty' = ty) && (opcode' =? opcode)
  | None => false
  end.

(** [opcode] is [base] with the bit of a register operand. *)
Definition arm_check (v : SBPFVersion) (a : Z * bool * string * Form) : bool :=
  let '(opcode, guard, name, form) := a in
  let base := opcode - BPF_X in
  negb guard ||
  match form with
  | Lddw => entry_is v name LoadDwImm opcode && (opcode =? LD_DW_IMM)
  | LdReg => entry_is v name LoadReg opcode
  | LdStImm => entry_is v name StoreImm opcode
  | StReg => entry_is v name StoreReg opcode
  | AluImm => entry_is v name AluBinary opcode
  | AluReg => entry_is v name AluBinary base && (Z.lor base BPF_X =? opcode)
  | Unary => entry_is v name AluUnary opcode
  | Byteswap => forallb (fun n => entry_is v (name +:+ signed_decimal n) (Endian n) opcode) [16; 32; 64]
  | JmpImm => entry_is v name JumpConditional opcode
  | JmpReg => entry_is v name JumpConditional base && (Z.lor base BPF_X =? opcode)
  | JumpAlways => entry_is v name JumpUnconditional opcode
  | CallImmediate => entry_is v "call" CallImm opcode && entry_is v "syscall" Syscall opcode
  | CallRegister => entry_is v name CallReg opcode
  | Plain => entry_is v name NoOperand opcode
  end && (bool_decide (form = Lddw) || negb (opcode =? LD_DW_IMM)).

Lemma arms_checked v : forallb (arm_check v) (arms v) = true.
Proof. destruct v; vm_compute; reflexivity. Qed.

Lemma entry_is_spec v name ty opcode :
  entry_is v name ty opcode = true -> make_instruction_map v !! name = Some (ty, opcode).
Proof.
  unfold entry_is. destruct (make_instruction_map v !! name) as [[ty' opcode']|]; [|done].
  intros [->%bool_decide_eq_true ->%Z.eqb_eq]%andb_true_iff. done.
Qed.

Lemma arm_of_check v opcode name form :
  arm_of v opcode = Some (name, form) -> arm_check v (opcode, true, name, form) = true.
Proof.
  unfold arm_of. destruct (find _ (arms v)) as [[[[o g] n] f]|] eqn:Hf; [|done].
  apply find_some in Hf as [Hin [Ho%Z.eqb_eq Hg]%andb_true_iff].
  intros Ha. cbn in Ha. simplify_eq. pose proof (arms_checked v) as Hc.
  rewrite forallb_forall in Hc. exact (Hc _ Hin).
Qed.

Lemma insn_Ok o d s f m :
  is_u 4 d -> is_u 4 s -> is_i 16 f -> is_i 32 m -> insn o d s f m = Ok (mkInsn 0 o d s f m).
Proof.
  intros Hd Hs Hf Hm. unfold insn. unfold is_u, is_i, i32_min, i32_max in *.
  rewrite !as_u_small, as_i_small by (done || unfold is_u; lia).
  repeat match goal with |- context [if ?b then _ else _] =>
    replace b with false by (symmetry; apply not_true_iff_false; lia) end. done.
Qed.

Lemma register_exact_ok (r : FunctionRegistry Z) k n :
  registry_exact r -> exists r', register_function r k n k = Ok r'.
Proof.
  intros He. unfold register_function. destruct (registry_map r !! k) as [[m t]|] eqn:Hk; [|eauto].
  rewrite decide_True; [eauto|]. exact (He _ _ _ Hk).
Qed.

(** The text of an instruction is the rendering of its operands. *)
Ltac solve_words :=
  repeat first [apply Forall2_cons; split | apply Forall2_nil; done];
  first [apply shows_register; unfold is_u, i64_max in *; lia
        | apply shows_decimal; unfold is_i, i64_min, i64_max in *; lia
        | apply shows_memory; [unfold is_u, i64_max in *; lia|done] | by apply shows_label].

Section Reassemble.
Context `{Profile, Murmur3} (v : SBPFVersion) (lm : gmap string Z).

(** Assembling the statement [text] spells emits [i] again. *)
Definition reassembles (s : SecondPass) (i : Insn) (text : string) : Prop :=
  exists name operands words s',
    Forall2 shows operands words /\ text = render name words /\
    assemble_instruction v lm s name operands = Ok s' /\ insns s' = insns s ++ slots i.

Lemma reassembles_one s i name operands words ty o r text :
  make_instruction_map v !! name = Some (ty, o) -> ty <> LoadDwImm -> opc i <> LD_DW_IMM ->
  insn_ptr s = ptr i -> 0 <= ptr i < 2 ^ 62 ->
  assemble_operands v lm (ptr i) (registry s) name ty o operands =
    Ok (r, mkInsn 0 (opc i) (dst i) (src i) (off i) (imm i)) ->
  Forall2 shows operands words -> text = render name words -> reassembles s i text.
Proof.
  intros Hm Hty Hopc Hs Hp Ha Hw Ht. exists name, operands, words. eexists.
  split; [done|]. split; [done|]. unfold assemble_instruction. rewrite Hm, Hs, Ha.
  cbn [mbind result_bind fst snd]. unfold push_insn. cbn [insn_ptr registry insns].
  rewrite arith_u64_ok by (unfold is_u; lia). cbn [mbind result_bind].
  split; [by destruct ty|]. unfold slots. rewrite (proj2 (Z.eqb_neq _ _) Hopc). by destruct i.
Qed.

(** The common case: the operands give the fields of one instruction. *)
Lemma reassembles_fields s i name operands words ty o text :
  make_instruction_map v !! name = Some (ty, o) -> ty <> LoadDwImm -> opc i <> LD_DW_IMM ->
  insn_ptr s = ptr i -> 0 <= ptr i < 2 ^ 62 ->
  is_u 4 (dst i) -> is_u 4 (src i) -> is_i 16 (off i) -> is_i 32 (imm i) ->
  assemble_operands v lm (ptr i) (registry s) name ty o operands =
    (j ← insn (opc i) (dst i) (src i) (off i) (imm i); Ok (registry s, j)) ->
  Forall2 shows operands words -> text = render name words -> reassembles s i text.
Proof.
  intros Hm Hty Hopc Hs Hp Hd Hsr Ho Hi Ha Hw Ht.
  eapply reassembles_one; try eassumption. rewrite Ha, insn_Ok by done. reflexivity.
Qed.

(** A 64-bit load is emitted as two slots. *)
Lemma reassembles_lddw s i name o text :
  make_instruction_map v !! name = Some (LoadDwImm, o) -> opc i = o -> o = LD_DW_IMM ->
  insn_ptr s = ptr i -> 0 <= ptr i < 2 ^ 62 -> is_u 4 (dst i) -> src i = 0 -> off i = 0 ->
  is_i 64 (imm i) ->
  text = name +:+ " r" +:+ decimal (dst i) +:+ ", 0x" +:+ hex (as_u 64 (imm i)) ->
  reassembles s i text.
Proof.
  intros Hm Hopc Ho Hs Hp Hd Hsrc Hoff Himm Ht.
  assert (Hlow : Z.shiftr (as_i 64 (Z.shiftl (imm i) 32)) 32 = as_i 32 (imm i)).
  { rewrite Z.shiftl_mul_pow2, Z.shiftr_div_pow2 by lia. unfold as_i.
    change (2 ^ 64) with (2 ^ 32 * 2 ^ 32). rewrite Zmult_mod_distr_r.
    pose proof (Z.mod_pos_bound (imm i) (2 ^ 32)).
    change (64 - 1) with (31 + 32). change (32 - 1) with 31. rewrite Z.pow_add_r by lia.
    repeat case_match; Z.to_euclidean_division_equations; lia. }
  exists name, [Register (dst i); Integer (imm i)],
    ["r" +:+ decimal (dst i); "0x" +:+ hex (as_u 64 (imm i))]. eexists.
  split; [|split; [|split]].
  - apply Forall2_cons; split; [apply shows_register; unfold is_u, i64_max in *; lia|].
    apply Forall2_cons; split; [|constructor].
    rewrite <- (as_i_small 64 (imm i)) at 1 by (done || lia). rewrite <- as_i_as_u by lia.
    constructor. apply as_u_range. lia.
  - subst text. unfold render. cbn [String.concat]. rewrite !append_assoc. done.
  - unfold assemble_instruction. rewrite Hm, Hs. cbn [assemble_operands]. rewrite Hlow.
    rewrite insn_Ok; [|done|done|done|apply as_i_range; lia].
    cbn [mbind result_bind fst snd]. unfold push_insn. cbn [insn_ptr registry insns].
    rewrite arith_u64_ok by (unfold is_u; lia). cbn [mbind result_bind insn_ptr registry insns].
    rewrite arith_u64_ok by (unfold is_u; lia). reflexivity.
  - cbn [insns]. unfold slots. rewrite Hopc, Ho, Z.eqb_refl, <- app_assoc. cbn [app].
    unfold with_ptr, with_imm. cbn. rewrite <- Ho, <- Hopc, Hsrc, Hoff. done.
Qed.

(** ** The names in the text *)
Lemma resolve_label_ok p l o :
  0 <= p < 2 ^ 62 -> is_i 16 o -> lm !! l = Some (as_u 64 (p + o + 1)) ->
  Assembler.resolve_label p lm l = Ok o.
Proof.
  intros Hp Ho Hl. unfold Assembler.resolve_label. rewrite Hl. cbn [ok_or mbind result_bind].
  unfold is_i in Ho. rewrite as_i_as_u, !as_i_small by (lia || unfold is_i; lia).
  rewrite arith_i64_ok by (unfold is_i; lia). cbn [mbind result_bind].
  rewrite arith_i64_ok by (unfold is_i; lia). f_equal. lia.
Qed.

Lemma jump_target_ok {E} i :
  0 <= ptr i < 2 ^ 62 -> is_i 16 (off i) ->
  jump_target (E := E) i = Ok (as_u 64 (ptr i + off i + 1)).
Proof.
  intros Hp Ho. unfold jump_target. unfold is_i in Ho.
  rewrite as_i_small by (lia || unfold is_i; lia).
  rewrite arith_i64_ok by (unfold is_i; lia). cbn [mbind result_bind].
  rewrite arith_i64_ok by (unfold is_i; lia). done.
Qed.

Context {V : Type} (cfg_nodes : gmap Z CfgNode) (functions : FunctionRegistry Z)
  (loader : BuiltinProgram V) (agree : Agreement lm cfg_nodes functions loader).

(** The target of a jump starts a basic block. *)
Definition target_known (i : Insn) : Prop :=
  match arm_of v (opc i) with
  | Some (_, (JmpImm | JmpReg | JumpAlways)) =>
      is_Some (cfg_nodes !! as_u 64 (ptr i + off i + 1))
  | _ => True
  end.

Lemma target_label i :
  0 <= ptr i < 2 ^ 62 -> is_i 16 (off i) ->
  is_Some (cfg_nodes !! as_u 64 (ptr i + off i + 1)) ->
  let l := resolve_label cfg_nodes (as_u 64 (ptr i + off i + 1)) in
  is_label l = true /\ Assembler.resolve_label (ptr i) lm l = Ok (off i).
Proof.
  intros Hp Ho [node Hn]. unfold resolve_label. rewrite Hn.
  destruct (nodes_labelled _ _ _ _ agree _ _ Hn) as [Hl Hm]. split; [done|].
  by apply resolve_label_ok.
Qed.

(** A call or a syscall. *)
Lemma reassembles_call s i :
  make_instruction_map v !! "call" = Some (CallImm, opc i) ->
  make_instruction_map v !! "syscall" = Some (Syscall, opc i) ->
  opc i <> LD_DW_IMM -> insn_ptr s = ptr i -> 0 <= ptr i < 2 ^ 62 ->
  dst i = 0 -> off i = 0 -> is_i 32 (imm i) -> registry_exact (registry s) ->
  src i = 0 \/ static_syscalls v = true /\ src i = 1 /\ 0 <= ptr i + imm i + 1 < 2 ^ 32 ->
  reassembles s i (call_str i (ptr i) functions loader v).
Proof.
  intros Hc Hsy Hopc Hs Hp Hd Ho Hm Hreg Hcase. unfold call_str.
  destruct Hcase as [Hsrc|(Hv & Hsrc & Ht)]; rewrite Hsrc; cbn [Z.eqb].
  - rewrite orb_true_r.
    destruct (lookup_by_key (sparse_registry loader) (as_u 32 (imm i))) as [[n f]|] eqn:Hk;
      cbn [fmap option_fmap option_map default fst].
    + destruct (syscalls_hashed _ _ _ _ agree _ _ _ Hk) as [Hl Hh].
      eapply (reassembles_one s i "syscall" [Label (from_utf8_lossy n)] [from_utf8_lossy n]);
        [exact Hsy|done|done|done|done| |by repeat constructor|done].
      cbn [assemble_operands]. rewrite Hh, as_i_as_u, as_i_small by (done || lia).
      rewrite insn_Ok by done. rewrite Hd, Hsrc, Ho. reflexivity.
    + eapply (reassembles_one s i "syscall" [Integer (imm i)] [signed_decimal (imm i)]);
        [exact Hsy|done|done|done|done| |solve_words|done].
      cbn [assemble_operands]. rewrite insn_Ok by done. rewrite Hd, Hsrc, Ho. reflexivity.
  - rewrite Hv. cbn [negb]. rewrite andb_false_r. cbn [orb].
    rewrite (call_target_relative v) by (done || lia). rewrite as_u_small by done.
    destruct (lookup_by_key functions (ptr i + imm i + 1)) as [[n t]|] eqn:Hk;
      cbn [fmap option_fmap option_map default fst].
    + destruct (functions_labelled _ _ _ _ agree _ _ _ Hk) as [Hl Hlm].
      apply (functions_exact _ _ _ _ agree) in Hk as ->.
      eapply (reassembles_one s i "call" [Label (from_utf8_lossy n)] [from_utf8_lossy n]);
        [exact Hc|done|done|done|done| |by repeat constructor|done].
      cbn [assemble_operands]. rewrite Hlm, Hv. cbn [ok_or mbind result_bind].
      rewrite !as_i_small by (lia || unfold is_i; lia).
      rewrite arith_i64_ok by (unfold is_i; lia). cbn [mbind result_bind].
      rewrite arith_i64_ok by (unfold is_i; lia). cbn [mbind result_bind].
      replace (ptr i + imm i + 1 - ptr i - 1) with (imm i) by lia.
      rewrite insn_Ok by done. rewrite Hd, Hsrc, Ho. reflexivity.
    + destruct (register_exact_ok (registry s) (ptr i + imm i + 1)
        (bytes_of_string ("function_" +:+ decimal (ptr i + imm i + 1))) Hreg) as [r Hr].
      eapply (reassembles_one s i "call" [Integer (imm i)] [signed_decimal (imm i)]);
        [exact Hc|done|done|done|done| |solve_words|done].
      cbn [assemble_operands]. rewrite (as_i_small 64 (ptr i)) by (lia || unfold is_i; lia).
      rewrite arith_i64_ok by (unfold is_i; lia). cbn [mbind result_bind].
      rewrite arith_i64_ok by (unfold is_i; lia). cbn [mbind result_bind].
      replace (imm i + ptr i + 1) with (ptr i + imm i + 1) by lia.
      rewrite (as_u_small 32), (as_u_small 64) by (done || unfold is_u; lia).
      rewrite Hr, Hv. cbn [map_error mbind result_bind Z.b2z]. rewrite insn_Ok by done.
      rewrite Hd, Hsrc, Ho. reflexivity.
Qed.

(** The facts [arm_check] gives of an arm, and the fields [canonical] fixes. *)
Ltac split_chk :=
  repeat match goal with
    | Hc : _ && _ = true |- _ => apply andb_true_iff in Hc as [? ?]
    | Hc : (_ =? _) = true |- _ => apply Z.eqb_eq in Hc
    | Hc : entry_is _ _ _ _ = true |- _ => apply entry_is_spec in Hc
    | Hc : bool_decide _ || negb (_ =? _) = true |- _ =>
        simpl in Hc; try (apply negb_true_iff, Z.eqb_neq in Hc)
    end.
Ltac decompose_fields := repeat match goal with Hc : _ /\ _ |- _ => destruct Hc as [? ?] end.

Ltac solve_text := unfold render; cbn [String.concat]; rewrite ?append_assoc; reflexivity.

Ltac reassemble s i name operands :=
  try (eexists; split; [reflexivity|]);
  eapply (reassembles_fields s i name operands);
  [eassumption|discriminate|done|done|done|done|done|done
  |first [done | match goal with Hi : imm _ = 0 |- _ => rewrite Hi; done end]
  |cbn [assemble_operands]; change BPF_K with 0; rewrite ?Z.lor_0_r; try congruence
  |solve_words|solve_text].

Lemma reassembles_callx s i name :
  make_instruction_map v !! name = Some (CallReg, opc i) -> opc i <> LD_DW_IMM ->
  insn_ptr s = ptr i -> 0 <= ptr i < 2 ^ 62 -> is_u 4 (dst i) -> is_u 4 (src i) -> off i = 0 ->
  (if callx_uses_src_reg v then dst i = 0 /\ imm i = 0
   else if callx_uses_dst_reg v then src i = 0 /\ imm i = 0
   else dst i = 0 /\ src i = 0 /\ is_u 4 (imm i)) ->
  reassembles s i (callx_str name i v).
Proof.
  intros Hm Hopc Hs Hp Hd Hsr Ho Hcan. unfold callx_str.
  assert (is_i 16 (off i)) by (by rewrite Ho).
  destruct (callx_uses_src_reg v) eqn:Hv1; [|destruct (callx_uses_dst_reg v) eqn:Hv2];
    decompose_fields.
  - reassemble s i name [Register (src i)]. rewrite Hv1. congruence.
  - reassemble s i name [Register (dst i)]. rewrite Hv1, Hv2. congruence.
  - rewrite (as_u_small 8) by (unfold is_u in *; lia).
    assert (is_i 32 (imm i)) by (unfold is_u, is_i in *; lia).
    reassemble s i name [Register (imm i)]. rewrite Hv1, Hv2. congruence.
Qed.

(** disassembling an instruction in the assembler's own form gives the text
    of a statement, and assembling that statement at the same address emits the
    instruction again, both slots of a 64-bit load included. *)
Theorem disassembly_reassembles {E} (s : SecondPass) (i : Insn) :
  canonical v i -> target_known i -> registry_exact (registry s) ->
  insn_ptr s = ptr i -> 0 <= ptr i < 2 ^ 62 ->
  is_u 4 (dst i) -> is_u 4 (src i) -> is_i 16 (off i) ->
  exists text,
    disassemble_instruction (E := E) i (ptr i) cfg_nodes functions loader v = Ok text /\
    reassembles s i text.
Proof.
  intros Hcan Htarget Hreg Hs Hp Hd Hsr Ho. unfold canonical, target_known in *.
  destruct (arm_of v (opc i)) as [[name form]|] eqn:Harm; [|done].
  pose proof (arm_of_check _ _ _ _ Harm) as Hchk. unfold arm_of in Harm.
  unfold disassemble_instruction.
  destruct (find _ (arms v)) as [[[[o g] n] f]|]; [|done]. cbn in Harm. simplify_eq.
  cbn [arm_check negb orb] in Hchk. apply andb_true_iff in Hchk as [Hchk Hdw].
  destruct form; split_chk; decompose_fields.
  - eexists; split; [reflexivity|]. by eapply reassembles_lddw.
  - reassemble s i name [Register (dst i); Memory (src i) (off i)].
  - reassemble s i name [Memory (dst i) (off i); Integer (imm i)].
  - reassemble s i name [Memory (dst i) (off i); Register (src i)].
  - reassemble s i name [Register (dst i); Integer (imm i)].
    destruct ((dst i =? 10) && (opc i =? ADD64_IMM)) eqn:Hb; [|congruence].
    apply andb_true_iff in Hb as [Hb1%Z.eqb_eq Hb2%Z.eqb_eq].
    destruct (manual_stack_frame_bump v); [congruence|tauto].
  - reassemble s i name [Register (dst i); Register (src i)].
  - reassemble s i name [Register (dst i)].
  - assert (is_i 32 (imm i)) by (simpl in *; unfold is_i; lia).
    rewrite forallb_forall in Hchk. specialize (Hchk (imm i) ltac:(assumption)). split_chk.
    reassemble s i (name +:+ signed_decimal (imm i)) [Register (dst i)].
  - unfold jmp_imm_str. rewrite jump_target_ok by done. cbn [mbind result_bind].
    destruct (target_label i ltac:(done) Ho Htarget) as [Hl Hres].
    reassemble s i name [Register (dst i); Integer (imm i);
      Label (resolve_label cfg_nodes (as_u 64 (ptr i + off i + 1)))].
    rewrite Hres. cbn [mbind result_bind]. congruence.
  - unfold jmp_reg_str. rewrite jump_target_ok by done. cbn [mbind result_bind].
    destruct (target_label i ltac:(done) Ho Htarget) as [Hl Hres].
    reassemble s i name [Register (dst i); Register (src i);
      Label (resolve_label cfg_nodes (as_u 64 (ptr i + off i + 1)))].
    rewrite Hres. cbn [mbind result_bind]. congruence.
  - rewrite jump_target_ok by done. cbn [mbind result_bind].
    destruct (target_label i ltac:(done) Ho Htarget) as [Hl Hres].
    reassemble s i name [Label (resolve_label cfg_nodes (as_u 64 (ptr i + off i + 1)))].
    rewrite Hres. cbn [mbind result_bind]. congruence.
  - eexists; split; [reflexivity|]. by apply reassembles_call.
  - eexists; split; [reflexivity|]. by apply reassembles_callx.
  - reassemble s i name (@nil Operand).
Qed.
End Reassemble.
