(* ===== verification/BTree.v ===== *)
(** * Ordered maps

    A [BTreeMap<usize, A>] is a [gmap Z A]; [bindings] is its iteration order,
    ascending in the key.  [entry_or_default] is [map.entry(k).or_default()]. *)

From stdpp Require Import gmap sorting.
From S2P Require Import Prelude.

Section Bindings.
Context {A : Type}.
Implicit Types (m : gmap Z A).

Definition binding_le (a b : Z * A) : Prop := a.1 <= b.1.
#[global] Instance binding_le_dec a b : Decision (binding_le a b) := Z.le_dec a.1 b.1.

Definition bindings m : list (Z * A) := merge_sort binding_le (map_to_list m).

Definition entry_or_default (default : A) m (k : Z) : gmap Z A :=
  match m !! k with Some _ => m | None => <[k := default]> m end.

#[local] Instance binding_le_trans : Transitive binding_le.
Proof. intros ???. unfold binding_le. lia. Qed.
#[local] Instance binding_le_total : Total binding_le.
Proof. intros a b. unfold binding_le. lia. Qed.

Lemma elem_of_bindings m k x : (k, x) ∈ bindings m <-> m !! k = Some x.
Proof. unfold bindings. by rewrite merge_sort_Permutation, elem_of_map_to_list. Qed.

Lemma bindings_NoDup m : NoDup (bindings m).*1.
Proof. unfold bindings. rewrite merge_sort_Permutation. apply NoDup_fst_map_to_list. Qed.

(** Keys ascend strictly. *)
Lemma bindings_sorted m : StronglySorted Z.lt (bindings m).*1.
Proof.
  pose proof (bindings_NoDup m) as Hnd.
  assert (Hs : StronglySorted binding_le (bindings m)) by (apply StronglySorted_merge_sort; apply _).
  induction Hs as [|[k x] l Hs IH Hall]; csimpl in *; [constructor|].
  apply NoDup_cons in Hnd as [Hk Hnd]. constructor; [auto|].
  apply Forall_fmap, Forall_forall. intros [k' x'] Hin. rewrite Forall_forall in Hall.
  specialize (Hall _ Hin). unfold binding_le in Hall. cbn in *.
  assert (k <> k'); [|lia]. intros ->. apply Hk, list_elem_of_fmap. by exists (k', x').
Qed.

Lemma elem_of_binding_keys m k : k ∈ (bindings m).*1 <-> is_Some (m !! k).
Proof.
  rewrite list_elem_of_fmap. split.
  - intros ([k' x] & -> & Hin). apply elem_of_bindings in Hin. by exists x.
  - intros [x Hx]. exists (k, x). split; [done|]. by apply elem_of_bindings.
Qed.

Lemma lookup_entry_or_default d m k j :
  entry_or_default d m k !! j =
  if decide (j = k) then Some (default d (m !! k)) else m !! j.
Proof.
  unfold entry_or_default. destruct (m !! k) eqn:Hk; case_decide; subst; try done.
  - by rewrite lookup_insert_eq.
  - by rewrite lookup_insert_ne.
Qed.
End Bindings.

(** A map is rebuilt from its bindings. *)
Lemma bindings_to_map {A} (m : gmap Z A) : list_to_map (bindings m) = m.
Proof.
  rewrite (list_to_map_proper (M := gmap Z) (bindings m) (map_to_list m));
    [apply list_to_map_to_list|apply bindings_NoDup|apply merge_sort_Permutation].
Qed.

(** The iteration order is determined by the map. *)
Lemma sorted_bindings_unique {A} (l l' : list (Z * A)) :
  StronglySorted Z.lt l.*1 -> StronglySorted Z.lt l'.*1 ->
  (forall b, b ∈ l <-> b ∈ l') -> l = l'.
Proof.
  revert l'. induction l as [|[k x] l IH]; intros l' Hs Hs' Heq.
  { destruct l' as [|b l']; [done|]. exfalso.
    apply (not_elem_of_nil b), Heq. by left. }
  destruct l' as [|[k' x'] l'].
  { exfalso. apply (not_elem_of_nil (k, x)), Heq. by left. }
  csimpl in *. apply StronglySorted_cons in Hs as [Ha Hs]. apply StronglySorted_cons in Hs' as [Ha' Hs'].
  rewrite Forall_fmap, Forall_forall in Ha. rewrite Forall_fmap, Forall_forall in Ha'.
  assert ((k, x) = (k', x')) as [= <- <-].
  { destruct (proj1 (elem_of_cons _ _ _) (proj1 (Heq (k, x)) ltac:(by left))) as [|Hin]; [done|].
    destruct (proj1 (elem_of_cons _ _ _) (proj2 (Heq (k', x')) ltac:(by left))) as [|Hin']; [done|].
    apply Ha' in Hin. apply Ha in Hin'. cbn in *. lia. }
  f_equal. apply IH; [done|done|]. intros b. specialize (Heq b). rewrite !elem_of_cons in Heq.
  split; intros Hin.
  - destruct (proj1 Heq ltac:(auto)) as [->|]; [|done]. apply Ha in Hin. cbn in Hin. lia.
  - destruct (proj2 Heq ltac:(auto)) as [->|]; [|done]. apply Ha' in Hin. cbn in Hin. lia.
Qed.

Lemma bindings_list_to_map {A} (l : list (Z * A)) :
  StronglySorted Z.lt l.*1 -> bindings (list_to_map l : gmap Z A) = l.
Proof.
  intros Hs. assert (Hnd : NoDup l.*1).
  { clear -Hs. induction Hs as [|k ks Hs IH Hall]; constructor; [|done].
    intros Hin. rewrite Forall_forall in Hall. apply Hall in Hin. lia. }
  apply sorted_bindings_unique; [apply bindings_sorted|done|].
  intros [k x]. by rewrite elem_of_bindings, elem_of_list_to_map.
Qed.

(** Changing every value keeps the order. *)
Lemma bindings_map {A B} (f : Z -> A -> B) (m : gmap Z A) (m' : gmap Z B) :
  (forall k, m' !! k = f k <$> m !! k) -> bindings m' = (fun b => (b.1, f b.1 b.2)) <$> bindings m.
Proof.
  intros Hm. apply sorted_bindings_unique; [apply bindings_sorted| |].
  - rewrite <- list_fmap_compose. apply bindings_sorted.
  - intros [k y]. rewrite elem_of_bindings, Hm, fmap_Some, list_elem_of_fmap. split.
    + intros (x & Hx & ->). exists (k, x). split; [done|]. by apply elem_of_bindings.
    + intros ([k' x] & Heq & Hin). cbn in Heq. simplify_eq. exists x. split; [|done].
      by apply elem_of_bindings.
Qed.
