(* ===== verification/StaticAnalysis.v ===== *)
(** * Static analysis: [src/casestudy/sbpf/src/static_analysis.rs]

    The decoding of an executable into a list of instructions, the splitting of
    that list into basic blocks with the edges of the control-flow graph, the
    labels of the blocks and the listing of the program.  [CfgNode] is in
    [Disassembler].  Text written to the output is the string returned. *)

From Stdlib Require Import String.
From stdpp Require Import gmap strings.
From S2P Require Import Prelude Ebpf Program Verifier Error Text Vm BTree Disassembler.

(** [rustc_demangle::demangle(name).to_string()] *)
Class Demangle := { demangle : string -> string }.

(** ** The data-flow graph *)
Inductive DfgNode := InstructionNode (ptr : Z) | PhiNode (block : Z).
Inductive DataResource := Register (r : Z) | Memory.
Inductive DfgEdgeKind := Filled | Empty.
Record DfgEdge := mkDfgEdge {
  source : DfgNode;
  destination : DfgNode;
  kind : DfgEdgeKind;
  resource : DataResource
}.

#[global] Instance DfgNode_eq_dec : EqDecision DfgNode.
Proof. solve_decision. Defined.
#[global] Instance DataResource_eq_dec : EqDecision DataResource.
Proof. solve_decision. Defined.
#[global] Instance DfgEdgeKind_eq_dec : EqDecision DfgEdgeKind.
Proof. solve_decision. Defined.
#[global] Instance DfgEdge_eq_dec : EqDecision DfgEdge.
Proof. solve_decision. Defined.

#[global] Instance DfgNode_countable : Countable DfgNode.
Proof.
  refine (inj_countable' (fun n => match n with InstructionNode p => inl p | PhiNode b => inr b end)
    (fun s => match s with inl p => InstructionNode p | inr b => PhiNode b end) _).
  by intros [].
Defined.
#[global] Instance DataResource_countable : Countable DataResource.
Proof.
  refine (inj_countable' (fun r => match r with Register r => Some r | Memory => None end)
    (fun o => match o with Some r => Register r | None => Memory end) _).
  by intros [].
Defined.
#[global] Instance DfgEdgeKind_countable : Countable DfgEdgeKind.
Proof.
  refine (inj_countable' (fun k => match k with Filled => true | Empty => false end)
    (fun b : bool => if b then Filled else Empty) _).
  by intros [].
Defined.
#[global] Instance DfgEdge_countable : Countable DfgEdge.
Proof.
  refine (inj_countable' (fun e => (source e, destination e, kind e, resource e))
    (fun '(s, d, k, r) => mkDfgEdge s d k r) _).
  by intros [].
Defined.

(** ** The analysis *)
Record Analysis (V : Type) := mkAnalysis {
  executable : Executable V;
  instructions : list Insn;
  functions : gmap Z (Z * string);
  cfg_nodes : gmap Z CfgNode;
  topological_order : list Z;
  entrypoint : Z;
  super_root : Z;
  dfg_forward_edges : gmap DfgNode (gset DfgEdge);
  dfg_reverse_edges : gmap DfgNode (gset DfgEdge)
}.
Arguments mkAnalysis {V} _ _ _ _ _ _ _ _ _.
Arguments executable {V} _.
Arguments instructions {V} _.
Arguments functions {V} _.
Arguments cfg_nodes {V} _.
Arguments topological_order {V} _.
Arguments entrypoint {V} _.
Arguments super_root {V} _.
Arguments dfg_forward_edges {V} _.
Arguments dfg_reverse_edges {V} _.

(** Writes to the fields of a node. *)
Definition set_instructions (n : CfgNode) (r : Z * Z) : CfgNode :=
  mkCfgNode (label n) (sources n) (destinations n) r (topo_index n) (dominator_parent n)
    (dominated_children n).
Definition set_destinations (n : CfgNode) (l : list Z) : CfgNode :=
  mkCfgNode (label n) (sources n) l (node_instructions n) (topo_index n) (dominator_parent n)
    (dominated_children n).
Definition push_source (n : CfgNode) (s : Z) : CfgNode :=
  mkCfgNode (label n) (sources n ++ [s]) (destinations n) (node_instructions n) (topo_index n)
    (dominator_parent n) (dominated_children n).
Definition set_label (n : CfgNode) (l : string) : CfgNode :=
  mkCfgNode l (sources n) (destinations n) (node_instructions n) (topo_index n)
    (dominator_parent n) (dominated_children n).

Definition set_cfg {V} (a : Analysis V) (f : gmap Z (Z * string)) (n : gmap Z CfgNode) : Analysis V :=
  mkAnalysis (executable a) (instructions a) f n (topological_order a) (entrypoint a)
    (super_root a) (dfg_forward_edges a) (dfg_reverse_edges a).

Section StaticAnalysis.
Context {E V : Type} `{Profile, ByteOrder}.

(** ** Decoding *)
(** The [while] loop: one unit of fuel per slot and one to see the end.  It
    returns the instructions and the final [insn_ptr]. *)
Fixpoint decode_loop (fuel : nat) (program : list byte) (insn_ptr : Z) (acc : list Insn)
    : result E (list Insn * Z) :=
  match fuel with
  | O => Panic
  | S fuel =>
      start ← arith_u64 (insn_ptr * INSN_SIZE);
      if negb (start <? Z.of_nat (length program)) then Ok (acc, insn_ptr) else
      insn ← get_insn_unchecked program insn_ptr;
      if opc insn =? LD_DW_IMM then
        insn_ptr ← arith_u64 (insn_ptr + 1);
        second ← arith_u64 (insn_ptr * INSN_SIZE);
        if Z.of_nat (length program) <=? second then Ok (acc, insn_ptr) else
        insn ← augment_lddw_unchecked program insn;
        insn_ptr ← arith_u64 (insn_ptr + 1);
        decode_loop fuel program insn_ptr (acc ++ [insn])
      else
        insn_ptr ← arith_u64 (insn_ptr + 1);
        decode_loop fuel program insn_ptr (acc ++ [insn])
  end.

Definition decode (program : list byte) : result E (list Insn * Z) :=
  decode_loop (S (length program)) program 0 [].

Definition function_starts (r : FunctionRegistry Z) : gmap Z (Z * string) :=
  foldl (fun m '(key, (function_name, pc)) => <[pc := (key, from_utf8_lossy function_name)]> m)
    ∅ (iter r).

(** [from_executable] up to the passes over the graph. *)
Definition analysis_new (executable : Executable V) : result E (Analysis V) :=
  '(_, program) ← get_text_bytes executable;
  let functions := function_starts (function_registry executable) in
  _ ← debug_assert (Z.of_nat (length program) mod INSN_SIZE =? 0);
  '(instructions, insn_ptr) ← decode program;
  Ok (mkAnalysis executable instructions functions ∅ [] (entry_pc executable) insn_ptr ∅ ∅).

(** ** Basic blocks *)
Definition jmp32_opcodes : list Z :=
  [
   JEQ32_IMM; JGT32_IMM; JGE32_IMM; JLT32_IMM; JLE32_IMM; JSET32_IMM; JNE32_IMM;
   JSGT32_IMM; JSGE32_IMM; JSLT32_IMM; JSLE32_IMM; JEQ32_REG; JGT32_REG; JGE32_REG;
   JLT32_REG; JLE32_REG; JSET32_REG; JNE32_REG; JSGT32_REG; JSGE32_REG; JSLT32_REG;
   JSLE32_REG].

Definition jmp64_opcodes : list Z :=
  [
   JEQ64_IMM; JGT64_IMM; JGE64_IMM; JLT64_IMM; JLE64_IMM; JSET64_IMM; JNE64_IMM;
   JSGT64_IMM; JSGE64_IMM; JSLT64_IMM; JSLE64_IMM; JEQ64_REG; JGT64_REG; JGE64_REG;
   JLT64_REG; JLE64_REG; JSET64_REG; JNE64_REG; JSGT64_REG; JSGE64_REG; JSLT64_REG;
   JSLE64_REG].

(** The nodes and, by the address of the jump, its opcode and destinations. *)
Definition Graph : Type := gmap Z CfgNode * gmap Z (Z * list Z).

Definition add_node (nodes : gmap Z CfgNode) (pc : Z) : gmap Z CfgNode :=
  entry_or_default CfgNode_default nodes pc.
Definition add_edge (g : Graph) (insn : Insn) (nodes destinations : list Z) : Graph :=
  (foldl add_node g.1 nodes, <[ptr insn := (opc insn, destinations)]> g.2).

(** One instruction of the first loop; [pc] is its index in the list. *)
Definition scan_insn (flatten_call_graph : bool) (v : SBPFVersion)
    (registry : FunctionRegistry Z) (super_root : Z) (g : Graph) (pc : Z) (insn : Insn)
    : result E Graph :=
  target_pc ← jump_target insn;
  if opc insn =? CALL_IMM then
    match lookup_by_key registry (calculate_call_imm_target_pc v pc (imm insn)) with
    | Some (_, target_pc) =>
        next ← arith_u64 (ptr insn + 1);
        Ok (add_edge g insn [next; target_pc]
              (if flatten_call_graph then [next; target_pc] else [next]))
    | None => Ok g
    end
  else if opc insn =? CALL_REG then
    next ← arith_u64 (ptr insn + 1);
    Ok (add_edge g insn [next] (if flatten_call_graph then [next; super_root] else [next]))
  else if opc insn =? EXIT then
    next ← arith_u64 (ptr insn + 1);
    Ok (add_edge g insn [next] [])
  else if opc insn =? JA then
    next ← arith_u64 (ptr insn + 1);
    Ok (add_edge g insn [next; target_pc] [target_pc])
  else if existsb (Z.eqb (opc insn)) jmp32_opcodes && enable_jmp32 v
          || existsb (Z.eqb (opc insn)) jmp64_opcodes then
    next ← arith_u64 (ptr insn + 1);
    Ok (add_edge g insn [next; target_pc] [next; target_pc])
  else Ok g.

Fixpoint scan (flatten_call_graph : bool) (v : SBPFVersion) (registry : FunctionRegistry Z)
    (super_root : Z) (g : Graph) (pc : Z) (l : list Insn) : result E Graph :=
  match l with
  | [] => Ok g
  | insn :: l =>
      g ← scan_insn flatten_call_graph v registry super_root g pc insn;
      scan flatten_call_graph v registry super_root g (pc + 1) l
  end.

(** [binary_search_by] on the addresses, which ascend. *)
Definition is_instruction (l : list Insn) (pc : Z) : bool := existsb (fun i => ptr i =? pc) l.

(** How many instructions from the front have an address of at most [last]. *)
Fixpoint run_length (last : Z) (l : list Insn) : nat :=
  match l with
  | [] => 0
  | i :: l => if ptr i <=? last then S (run_length last l) else 0
  end.

(** The loop over the nodes, with the edges left to hand out. *)
Fixpoint assign_blocks (insns : list Insn) (functions : gmap Z (Z * string))
    (nodes : list (Z * CfgNode)) (edges : list (Z * (Z * list Z))) (index : nat)
    : result E (list (Z * CfgNode)) :=
  match nodes with
  | [] => Ok []
  | (start, node) :: rest =>
      node_end ← (match rest with
                  | (next, _) :: _ => arith_u64 (next - 1)
                  | [] => i ← or_panic (last insns); Ok (ptr i)
                  end);
      let n := run_length node_end (drop index insns) in
      let fin := if Nat.eqb n 0 then (node_instructions node).2 else Z.of_nat (index + n) in
      let node := set_instructions node (Z.of_nat index, fin) in
      let fallthrough :=
        match rest with
        | (next, _) :: _ =>
            if bool_decide (is_Some (functions !! start)) then node
            else set_destinations node (destinations node ++ [next])
        | [] => node
        end in
      let '(node, edges) :=
        match edges with
        | (edge, (_, targets)) :: edges' =>
            if edge <=? node_end then (set_destinations node targets, edges')
            else (fallthrough, edges)
        | [] => (fallthrough, edges)
        end in
      rest ← assign_blocks insns functions rest edges (index + n);
      Ok ((start, node) :: rest)
  end.

(** [link_cfg_edges] *)
Fixpoint link_destinations (nodes : gmap Z CfgNode) (source : Z) (l : list Z)
    : result E (gmap Z CfgNode) :=
  match l with
  | [] => Ok nodes
  | destination :: l =>
      node ← or_panic (nodes !! destination);
      link_destinations (<[destination := push_source node source]> nodes) source l
  end.

Fixpoint link_cfg_edges (nodes : gmap Z CfgNode) (cfg_edges : list (Z * list Z))
    (both_directions : bool) : result E (gmap Z CfgNode) :=
  match cfg_edges with
  | [] => Ok nodes
  | (source, targets) :: rest =>
      nodes ← (if both_directions then
                 node ← or_panic (nodes !! source);
                 Ok (<[source := set_destinations node targets]> nodes)
               else Ok nodes);
      nodes ← link_destinations nodes source targets;
      link_cfg_edges nodes rest both_directions
  end.

(** The edges from every [EXIT] back to the callers of its function. *)
Fixpoint return_addresses (insns : list Insn) (nodes : gmap Z CfgNode) (l : list Z)
    : result E (list Z) :=
  match l with
  | [] => Ok []
  | caller :: l =>
      node ← or_panic (nodes !! caller);
      insn ← or_panic (get insns (node_instructions node).2);
      rest ← return_addresses insns nodes l;
      Ok (ptr insn :: rest)
  end.

Fixpoint return_edges (insns : list Insn) (functions : gmap Z (Z * string))
    (nodes : gmap Z CfgNode) (l : list (Z * CfgNode)) (targets : list Z)
    : result E (list (Z * list Z)) :=
  match l with
  | [] => Ok []
  | (source, node) :: l =>
      targets ← (if bool_decide (is_Some (functions !! source))
                 then return_addresses insns nodes (sources node) else Ok targets);
      is_exit ← (if bool_decide (destinations node = []) then
                   index ← arith_u64 ((node_instructions node).2 - 1);
                   insn ← or_panic (get insns index);
                   Ok (opc insn =? EXIT)
                 else Ok false);
      rest ← return_edges insns functions nodes l targets;
      Ok (if is_exit : bool then (source, targets) :: rest else rest)
  end.

Definition node_edges (nodes : gmap Z CfgNode) : list (Z * list Z) :=
  (fun b => (b.1, destinations b.2)) <$> bindings nodes.

Definition initial_nodes (nodes : gmap Z CfgNode) (functions : gmap Z (Z * string))
    : gmap Z CfgNode :=
  foldl add_node (<[0 := CfgNode_default]> nodes) (bindings functions).*1.

Definition split_into_basic_blocks (a : Analysis V) (flatten_call_graph : bool)
    (sbpf_version : SBPFVersion) : result E (Analysis V) :=
  g ← scan flatten_call_graph sbpf_version (function_registry (executable a))
     (super_root a) (initial_nodes (cfg_nodes a) (functions a), ∅) 0 (instructions a);
  let (nodes, edges) := g : Graph in
  let nodes := filter (fun b => is_instruction (instructions a) b.1 = true) nodes in
  let edges := (fun e => (e.1, filter (fun d => is_Some (nodes !! d)) e.2)) <$> edges in
  let functions := filter (fun b => is_Some (nodes !! b.1)) (functions a) in
  blocks ← assign_blocks (instructions a) functions (bindings nodes) (bindings edges) 0;
  let nodes : gmap Z CfgNode := list_to_map blocks in
  nodes ← link_cfg_edges nodes (node_edges nodes) false;
  nodes ← (if flatten_call_graph then
             returns ← return_edges (instructions a) functions nodes (bindings nodes) [];
             link_cfg_edges nodes returns true
           else Ok nodes);
  Ok (set_cfg a functions nodes).

(** ** Labels and listing *)
Definition label_basic_blocks `{Demangle} (a : Analysis V) : Analysis V :=
  let nodes := map_imap (fun pc node =>
    Some (set_label node
      match functions a !! pc with
      | Some function => demangle function.2
      | None => "lbb_" +:+ decimal pc
      end)) (cfg_nodes a) in
  let nodes := match nodes !! super_root a with
               | Some node => <[super_root a := set_label node "super_root"]> nodes
               | None => nodes
               end in
  set_cfg a (functions a) nodes.

Definition newline : string := String (Ascii.ascii_of_nat 10) EmptyString.

(** The text written and the new [last_basic_block]. *)
Definition disassemble_label (a : Analysis V) (suppress_extra_newlines : bool) (pc : Z)
    (last_basic_block : Z) : result E (string * Z) :=
  match cfg_nodes a !! pc with
  | None => Ok ("", last_basic_block)
  | Some cfg_node =>
      let is_function := bool_decide (is_Some (functions a !! pc)) in
      let text :=
        if is_function || negb (bool_decide (sources cfg_node = [last_basic_block]))
        then (if is_function && negb suppress_extra_newlines then newline else "") +:+
             label cfg_node +:+ ":" +:+ newline
        else "" in
      index ← arith_u64 ((node_instructions cfg_node).2 - 1);
      last_insn ← or_panic (get (instructions a) index);
      Ok (text, if opc last_insn =? JA then u64_max else pc)
  end.

Definition analysis_disassemble_instruction (a : Analysis V) (insn : Insn) (pc : Z)
    : result E string :=
  disassemble_instruction insn pc (cfg_nodes a) (function_registry (executable a))
    (exec_loader (executable a)) (sbpf_version (executable a)).

Fixpoint disassemble_loop (a : Analysis V) (last_basic_block : Z) (pc : Z) (l : list Insn)
    : result E string :=
  match l with
  | [] => Ok ""
  | insn :: l =>
      '(text, last_basic_block) ← disassemble_label a
         (bool_decide (Some insn = head (instructions a))) (ptr insn) last_basic_block;
      line ← analysis_disassemble_instruction a insn pc;
      rest ← disassemble_loop a last_basic_block (pc + 1) l;
      Ok (text +:+ "    " +:+ line +:+ newline +:+ rest)
  end.

Definition disassemble (a : Analysis V) : result E string :=
  disassemble_loop a u64_max 0 (instructions a).
End StaticAnalysis.
