(* ===== verification/StaticFacts.v ===== *)
(** * The control-flow graph of the static analysis

    The reference is [successors], where control may go after an instruction, by
    the encoding of its opcode and relative to its slot, and [basic_blocks]:
    blocks that partition the instructions in order, with a control transfer only
    at the end of a block, and edges to the targets of that transfer.  The
    splitting follows [transfer_targets], which lists opcodes and counts
    instructions the way the code does; the two agree when calls are at the slot
    they are counted at.  Decoding gives [laid_out] instructions, which follow
    one another slot by slot. *)

From Stdlib Require Import String.
From stdpp Require Import gmap strings.
From S2P Require Import Prelude Ebpf Program Verifier Error Text Vm BTree Disassembler StaticAnalysis.

(** ** References *)
Definition width (i : Insn) : Z := if opc i =? LD_DW_IMM then 2 else 1.

Fixpoint laid_out (p : Z) (l : list Insn) : Prop :=
  match l with
  | [] => True
  | i :: l => ptr i = p /\ is_i 16 (off i) /\ laid_out (p + width i) l
  end.

Definition is_jump (v : SBPFVersion) (i : Insn) : bool :=
  existsb (Z.eqb (opc i)) jmp32_opcodes && enable_jmp32 v
  || existsb (Z.eqb (opc i)) jmp64_opcodes.

(** Where control may go after an instruction that does not just fall through;
    [pc] is its index.  Calls return. *)
Definition transfer_targets (v : SBPFVersion) (registry : FunctionRegistry Z) (pc : Z) (i : Insn)
    : option (list Z) :=
  let next := ptr i + 1 in
  let target := as_u 64 (ptr i + off i + 1) in
  if opc i =? CALL_IMM then
    match lookup_by_key registry (calculate_call_imm_target_pc v pc (imm i)) with
    | Some _ => Some [next]
    | None => None
    end
  else if opc i =? CALL_REG then Some [next]
  else if opc i =? EXIT then Some []
  else if opc i =? JA then Some [target]
  else if is_jump v i then Some [next; target]
  else None.

(** ** Instructions in a row *)
Lemma insn_width_pos i : 1 <= width i <= 2.
Proof. unfold width. case_match; lia. Qed.

Lemma laid_out_ge l : forall p j i, laid_out p l -> l !! j = Some i -> p + Z.of_nat j <= ptr i.
Proof.
  induction l as [|x l IH]; intros p [|j] i Hl Hj; [done|done|..];
    destruct Hl as (Hp & _ & Hl); cbn [lookup list_lookup] in Hj.
  - simplify_eq. lia.
  - apply (IH _ _ _ Hl) in Hj. pose proof (insn_width_pos x). lia.
Qed.

Lemma laid_out_drop l : forall p j i, laid_out p l -> l !! j = Some i -> laid_out (ptr i) (drop j l).
Proof.
  induction l as [|x l IH]; intros p [|j] i Hl Hj; [done|done|..]; cbn in Hj.
  - simplify_eq. destruct (Hl) as (-> & _). done.
  - destruct Hl as (_ & _ & Hl). exact (IH _ _ _ Hl Hj).
Qed.

Lemma laid_out_next p l j i i' :
  laid_out p l -> l !! j = Some i -> l !! S j = Some i' -> ptr i' = ptr i + width i.
Proof.
  intros Hl Hj Hj'. pose proof (laid_out_drop _ _ _ _ Hl Hj) as Hd.
  rewrite (drop_S _ _ _ Hj) in Hd. destruct Hd as (_ & _ & Hd).
  assert (Hh : drop (S j) l !! 0%nat = Some i') by (rewrite lookup_drop, Nat.add_0_r; done).
  destruct (drop (S j) l); [done|]. cbn in Hh. simplify_eq. by destruct Hd.
Qed.

Lemma laid_out_lt p l j k i i' :
  laid_out p l -> l !! j = Some i -> l !! k = Some i' -> (j < k)%nat -> ptr i < ptr i'.
Proof.
  intros Hl Hj Hk Hlt. pose proof (laid_out_drop _ _ _ _ Hl Hj) as Hd.
  replace k with (j + (k - j))%nat in Hk by lia. rewrite <- lookup_drop in Hk.
  apply (laid_out_ge _ _ _ _ Hd) in Hk. lia.
Qed.

Lemma laid_out_inj p l j k i i' :
  laid_out p l -> l !! j = Some i -> l !! k = Some i' -> ptr i = ptr i' -> j = k.
Proof.
  intros Hl Hj Hk He. destruct (Nat.lt_trichotomy j k) as [Hlt|[->|Hlt]]; [|done|].
  - pose proof (laid_out_lt _ _ _ _ _ _ Hl Hj Hk Hlt). lia.
  - pose proof (laid_out_lt _ _ _ _ _ _ Hl Hk Hj Hlt). lia.
Qed.

(** Positions and addresses are in the same order. *)
Lemma laid_out_order p l j k i i' :
  laid_out p l -> l !! j = Some i -> l !! k = Some i' -> ptr i < ptr i' <-> (j < k)%nat.
Proof.
  intros Hl Hj Hk. split; [|by apply (laid_out_lt p l)].
  intros Hlt. destruct (decide (j < k)%nat); [done|].
  destruct (decide (j = k)) as [->|]; [simplify_eq; lia|].
  pose proof (laid_out_lt _ _ _ _ _ _ Hl Hk Hj). lia.
Qed.

Lemma laid_out_off p l j i : laid_out p l -> l !! j = Some i -> is_i 16 (off i).
Proof.
  intros Hl Hj. pose proof (laid_out_drop _ _ _ _ Hl Hj) as Hd.
  rewrite (drop_S _ _ _ Hj) in Hd. by destruct Hd as (_ & ? & _).
Qed.

(** Transfers take one slot. *)
Lemma transfer_width v r pc i t : transfer_targets v r pc i = Some t -> width i = 1.
Proof.
  unfold transfer_targets, is_jump, width. destruct (Z.eqb_spec (opc i) LD_DW_IMM) as [->|]; [|done].
  by rewrite andb_false_l.
Qed.

(** The addresses an instruction list has. *)
Lemma is_instruction_spec l pc :
  is_instruction l pc = true <-> exists j i, l !! j = Some i /\ ptr i = pc.
Proof.
  unfold is_instruction. rewrite existsb_exists. split.
  - intros (i & Hin & He%Z.eqb_eq). apply list_elem_of_In, list_elem_of_lookup in Hin as [j Hj]. eauto.
  - intros (j & i & Hj & He). exists i. split; [|by apply Z.eqb_eq].
    apply list_elem_of_In. by eapply list_elem_of_lookup_2.
Qed.

(** ** The first loop *)
Definition all_default (m : gmap Z CfgNode) : Prop :=
  forall k n, m !! k = Some n -> n = CfgNode_default.

Lemma add_nodes_spec l : forall m,
  (all_default m -> all_default (foldl add_node m l)) /\
  (forall k, is_Some (foldl add_node m l !! k) <-> is_Some (m !! k) \/ In k l).
Proof.
  induction l as [|x l IH]; intros m; cbn [foldl]; [naive_solver|].
  destruct (IH (add_node m x)) as [Hd Hk]. unfold add_node in *. split.
  - intros Hm. apply Hd. intros k n. rewrite lookup_entry_or_default.
    case_decide; subst; [|apply Hm]. intros Hn. destruct (m !! x) eqn:Hx; simplify_eq/=; [|done].
    by apply Hm in Hx.
  - intros k. rewrite Hk, lookup_entry_or_default. simpl. case_decide; subst; [|naive_solver].
    split; [auto|]. intros _. left. eauto.
Qed.

Section Scan.
Context {E : Type} `{Profile} (v : SBPFVersion) (registry : FunctionRegistry Z) (root : Z).

Lemma jump_target_small i :
  0 <= ptr i < 2 ^ 62 -> is_i 16 (off i) ->
  jump_target (E := E) i = Ok (as_u 64 (ptr i + off i + 1)).
Proof.
  intros Hp Ho. unfold jump_target. unfold is_i in Ho.
  rewrite as_i_small by (lia || unfold is_i; lia).
  rewrite arith_i64_ok by (unfold is_i; lia). cbn [mbind result_bind].
  rewrite arith_i64_ok by (unfold is_i; lia). done.
Qed.

Lemma scan_insn_spec g pc i :
  0 <= ptr i < 2 ^ 62 -> is_i 16 (off i) ->
  exists added edges,
    scan_insn (E := E) false v registry root g pc i = Ok (foldl add_node g.1 added, edges) /\
    match transfer_targets v registry pc i with
    | Some t => edges = <[ptr i := (opc i, t)]> g.2 /\ In (ptr i + 1) added /\ Forall (fun d => In d added) t
    | None => edges = g.2
    end.
Proof.
  intros Hp Ho. unfold scan_insn, transfer_targets, add_edge. rewrite jump_target_small by done.
  cbn [mbind result_bind]. rewrite arith_u64_ok by (unfold is_u; lia). cbn [mbind result_bind].
  fold (is_jump v i).
  assert (Hskip : forall r : result E Graph, r = Ok g -> exists added edges,
    r = Ok (foldl add_node g.1 added, edges) /\ edges = g.2)
    by (intros r ->; exists [], g.2; by destruct g).
  destruct (opc i =? CALL_IMM); [destruct (lookup_by_key registry _) as [[n t]|]|
    destruct (opc i =? CALL_REG); [|destruct (opc i =? EXIT); [|destruct (opc i =? JA);
      [|destruct (is_jump v i)]]]];
    first [exact (Hskip _ eq_refl) | eexists _, _; split; [reflexivity|]; split; [done|]; split; [by left|];
      repeat (apply List.Forall_cons; [simpl; auto|]); apply List.Forall_nil].
Qed.

(** What the loop leaves behind: [transfer_targets] of every instruction, the
    node after each transfer, and no other edges. *)
Lemma scan_spec p0 l : forall k g,
  laid_out p0 l -> 0 <= p0 -> Forall (fun i => ptr i < 2 ^ 62) l ->
  (forall j e, g.2 !! j = Some e -> j < p0) ->
  exists g', scan (E := E) false v registry root g k l = Ok g' /\
    (all_default g.1 -> all_default g'.1) /\
    (forall j, is_Some (g.1 !! j) -> is_Some (g'.1 !! j)) /\
    (forall j e, g.2 !! j = Some e -> g'.2 !! j = Some e) /\
    (forall j i t, l !! j = Some i -> transfer_targets v registry (k + Z.of_nat j) i = Some t ->
       (is_Some (g'.1 !! (ptr i + 1)) /\ Forall (fun d => is_Some (g'.1 !! d)) t) /\
       g'.2 !! ptr i = Some (opc i, t)) /\
    (forall q e, g'.2 !! q = Some e -> g.2 !! q = Some e \/
       exists j i, l !! j = Some i /\ ptr i = q /\
         transfer_targets v registry (k + Z.of_nat j) i = Some e.2).
Proof.
  revert p0. induction l as [|i l IH]; intros p0 k g Hl Hp Hb Hlow; cbn [scan].
  { exists g. do 4 (split; [done|]). split; [|auto]. intros j i t Hj. by rewrite lookup_nil in Hj. }
  destruct Hl as (Hpi & Hoff & Hl). rewrite Forall_cons in Hb. destruct Hb as [Hbi Hb].
  destruct (scan_insn_spec g k i ltac:(lia) Hoff) as (added & edges & -> & Ht).
  cbn [mbind result_bind]. pose proof (insn_width_pos i) as Hw.
  destruct (add_nodes_spec added g.1) as [Hd Hn].
  assert (Hnew : forall j e, edges !! j = Some e -> j = ptr i /\ transfer_targets v registry k i = Some e.2 \/ g.2 !! j = Some e).
  { intros j e He. destruct (transfer_targets v registry k i) as [t|]; [|subst edges; auto].
    destruct Ht as [-> _]. apply lookup_insert_Some in He as [[<- <-]|[_ He]]; auto. }
  destruct (IH (p0 + width i) (k + 1) (foldl add_node g.1 added, edges)) as (g' & Hs & A & B & C & D & F).
  { done. } { lia. } { done. }
  { cbn [snd]. intros j e He. apply Hnew in He as [[-> _]|He]; [lia|]. apply Hlow in He. lia. }
  cbn [fst snd] in *. exists g'. split; [done|]. split; [auto|].
  split; [intros j Hj; apply B, Hn; auto|].
  assert (Hold : forall j e, g.2 !! j = Some e -> edges !! j = Some e).
  { intros j e He. destruct (transfer_targets v registry k i) as [t|]; [|by subst edges].
    destruct Ht as [-> _]. rewrite lookup_insert_ne; [done|]. apply Hlow in He. lia. }
  split; [auto|]. split.
  - intros [|j] i' t Hj Htr; cbn in Hj.
    + simplify_eq. rewrite Z.add_0_r in Htr. rewrite Htr in Ht. destruct Ht as (-> & Hin & Hall).
      split; [split; [apply B, Hn; auto|]|].
      { eapply Forall_impl; [exact Hall|]. intros d Hin'. apply B, Hn. auto. }
      apply C. by rewrite lookup_insert_eq.
    + apply (D j); [done|]. rewrite <- Htr. f_equal. lia.
  - intros q e He. apply F in He as [He|(j & i' & Hj & Hq & Htr)].
    + apply Hnew in He as [[-> He]|He]; [|auto]. right. exists 0%nat, i.
      split_and!; [done|done|]. by rewrite Z.add_0_r.
    + right. exists (S j), i'. split_and!; [done|done|]. rewrite <- Htr. f_equal. lia.
Qed.
End Scan.

(** ** The second loop *)
Lemma run_length_exact l : forall n b,
  (forall j i, (j < n)%nat -> l !! j = Some i -> ptr i <= b) ->
  (forall i, l !! n = Some i -> b < ptr i) -> (n <= length l)%nat -> run_length b l = n.
Proof.
  induction l as [|x l IH]; intros [|n] b Hlow Hhigh Hlen; cbn [run_length length] in *; try lia.
  - specialize (Hhigh x eq_refl). rewrite (proj2 (Z.leb_gt _ _)) by lia. done.
  - rewrite (proj2 (Z.leb_le _ _)) by (apply (Hlow 0%nat x); [lia|done]). f_equal.
    apply IH; [|exact Hhigh|lia]. intros j i Hj Hl. apply (Hlow (S j)); [lia|done].
Qed.

(** Blocks that partition the instructions from [index] on, in order: each
    starts at its key, transfers control only at its end, and has the
    destinations [targets] computes from its last instruction. *)
Section BlocksOk.
Context (insns : list Insn) (transfer : nat -> Insn -> option (list Z)).
Context (targets : Z -> nat -> Insn -> option Z -> list Z).

Fixpoint blocks_ok (index : nat) (blocks : list (Z * CfgNode)) : Prop :=
  match blocks with
  | [] => index = length insns
  | (start, node) :: rest =>
      exists fin first_insn last_insn,
        node_instructions node = (Z.of_nat index, Z.of_nat fin) /\ (index < fin)%nat /\
        insns !! index = Some first_insn /\ ptr first_insn = start /\
        insns !! (fin - 1)%nat = Some last_insn /\
        (forall j i, (index <= j)%nat -> (S j < fin)%nat -> insns !! j = Some i -> transfer j i = None) /\
        destinations node = targets start (fin - 1)%nat last_insn (fst <$> head rest) /\
        blocks_ok fin rest
  end.
End BlocksOk.

Section Blocks.
Context {E : Type} `{Profile} (insns : list Insn) (functions : gmap Z (Z * string)).
Context (transfer : nat -> Insn -> option (list Z)) (edge_map : gmap Z (Z * list Z)).
Context (Hlaid : laid_out 0 insns) (Hsmall : Forall (fun i => ptr i < 2 ^ 62) insns).

(** The destinations of a block: those of its last instruction, or the next
    block unless the block starts a function. *)
Definition block_targets (start : Z) (_ : nat) (last_insn : Insn) (next : option Z) : list Z :=
  match edge_map !! ptr last_insn with
  | Some (_, targets) => targets
  | None =>
      match next with
      | Some n => if bool_decide (is_Some (functions !! start)) then [] else [n]
      | None => []
      end
  end.

Context (Hedge : forall k e, edge_map !! k = Some e ->
  exists j i, insns !! j = Some i /\ ptr i = k /\ is_Some (transfer j i)).

(** Where a block that starts at [index] ends. *)
Lemma block_end index first_insn (rest : list (Z * CfgNode)) :
  insns !! index = Some first_insn ->
  (forall k, In k rest.*1 -> ptr first_insn < k /\ exists j i, insns !! j = Some i /\ ptr i = k) ->
  exists fin b,
    match rest with
    | (next, _) :: _ => arith_u64 (E := E) (next - 1)
    | [] => i ← or_panic (last insns); Ok (ptr i)
    end = Ok b /\ (index < fin <= length insns)%nat /\
    (forall j i, insns !! j = Some i -> ptr i <= b <-> (j < fin)%nat) /\
    match rest with
    | (next, _) :: _ => exists i, insns !! fin = Some i /\ ptr i = next
    | [] => fin = length insns
    end.
Proof.
  intros Hfirst Hrest. pose proof (lookup_lt_Some _ _ _ Hfirst) as Hlt.
  destruct rest as [|[next n] rest].
  - destruct (last insns) as [li|] eqn:Hlast.
    2:{ apply last_None in Hlast. subst. simpl in Hlt. lia. }
    exists (length insns), (ptr li). rewrite last_lookup in Hlast. split_and!; [done|lia|lia| |done].
    intros j i Hj. pose proof (lookup_lt_Some _ _ _ Hj). split; [lia|]. intros _.
    destruct (decide (j = pred (length insns))) as [->|]; [by simplify_eq|].
    apply Z.lt_le_incl, (laid_out_lt _ _ _ _ _ _ Hlaid Hj Hlast). lia.
  - destruct (Hrest next) as (Hgt & fin & i & Hi & Hp); [by left|].
    pose proof (lookup_lt_Some _ _ _ Hi). exists fin, (next - 1).
    pose proof (laid_out_ge _ _ _ _ Hlaid Hi). rewrite Forall_forall in Hsmall.
    pose proof (Hsmall _ (list_elem_of_lookup_2 _ _ _ Hi)) as Hsm. cbn in Hsm.
    rewrite arith_u64_ok by (unfold is_u; pose proof (laid_out_ge _ _ _ _ Hlaid Hfirst); lia).
    split; [done|]. pose proof (laid_out_order _ _ _ _ _ _ Hlaid Hfirst Hi) as Ho.
    split; [lia|]. split; [|eauto]. intros j x Hj.
    pose proof (laid_out_order _ _ _ _ _ _ Hlaid Hj Hi). lia.
Qed.

(** The instructions it takes. *)
Lemma block_run index fin b :
  (index < fin <= length insns)%nat ->
  (forall j i, insns !! j = Some i -> ptr i <= b <-> (j < fin)%nat) ->
  run_length b (drop index insns) = (fin - index)%nat.
Proof.
  intros Hfin Hiff. apply run_length_exact.
  - intros j i Hj Hl. rewrite lookup_drop in Hl. apply (Hiff _ _ Hl). lia.
  - intros i Hl. rewrite lookup_drop in Hl. replace (index + (fin - index))%nat with fin in Hl by lia.
    destruct (decide (ptr i <= b)) as [Hle|]; [|lia]. apply (Hiff _ _ Hl) in Hle. lia.
  - rewrite length_drop. lia.
Qed.

(** The blocks still to be made start at transfers' successors, and the edges
    still to be handed out are those of the instructions left. *)
Definition remaining_nodes (index : nat) (keys : list Z) : Prop :=
  StronglySorted Z.lt keys /\
  (forall k, In k keys -> exists j i, insns !! j = Some i /\ ptr i = k) /\
  (forall j i t i', (index <= j)%nat -> insns !! j = Some i -> transfer j i = Some t ->
     insns !! S j = Some i' -> In (ptr i') keys).
Definition remaining_edges (index : nat) (edges : list (Z * (Z * list Z))) : Prop :=
  StronglySorted Z.lt edges.*1 /\
  forall k e, In (k, e) edges <-> edge_map !! k = Some e /\
    exists j i, (index <= j)%nat /\ insns !! j = Some i /\ ptr i = k.

(** [fin] ends the block that starts at [index]: it is the next block's start
    or the end of the list. *)
Definition ends_block (fin : nat) (rest : list (Z * CfgNode)) : Prop :=
  match rest with
  | (next, _) :: _ => exists i, insns !! fin = Some i /\ ptr i = next
  | [] => fin = length insns
  end.

Lemma later_keys fin (rest : list (Z * CfgNode)) :
  StronglySorted Z.lt rest.*1 -> ends_block fin rest ->
  forall j i, insns !! j = Some i -> In (ptr i) rest.*1 -> (fin <= j)%nat.
Proof.
  intros Hs He j i Hj Hin. destruct rest as [|[next n] rest]; [done|].
  destruct He as (i' & Hfin & <-). destruct (decide (fin <= j)%nat); [done|].
  assert (ptr i < ptr i') by (apply (laid_out_lt _ _ _ _ _ _ Hlaid Hj Hfin); lia).
  cbn in Hs. apply StronglySorted_cons in Hs as [Hall _]. rewrite Forall_forall in Hall.
  destruct Hin as [Hin|Hin]; cbn in Hin; [lia|]. apply list_elem_of_In, Hall in Hin. lia.
Qed.

Lemma no_inner_transfer index fin start (node : CfgNode) (rest : list (Z * CfgNode)) first_insn :
  remaining_nodes index ((start, node) :: rest).*1 -> ends_block fin rest ->
  insns !! index = Some first_insn -> ptr first_insn = start -> (index < fin <= length insns)%nat ->
  forall j i, (index <= j)%nat -> (S j < fin)%nat -> insns !! j = Some i -> transfer j i = None.
Proof.
  intros (Hs & _ & Htr) He Hf Hp Hfin j i Hj Hjf Hi.
  destruct (transfer j i) as [t|] eqn:Ht; [exfalso|done].
  destruct (lookup_lt_is_Some_2 insns (S j)) as [i' Hi']; [lia|].
  assert (Hlt : (index < S j)%nat) by lia. pose proof (laid_out_lt _ _ _ _ _ _ Hlaid Hf Hi' Hlt).
  destruct (Htr _ _ _ _ Hj Hi Ht Hi') as [Hin|Hin]; cbn in *; [lia|].
  apply StronglySorted_cons in Hs as [_ Hs].
  pose proof (later_keys _ _ Hs He _ _ Hi' Hin). lia.
Qed.

Lemma remaining_nodes_tail index fin start (node : CfgNode) (rest : list (Z * CfgNode)) first_insn :
  remaining_nodes index ((start, node) :: rest).*1 ->
  insns !! index = Some first_insn -> ptr first_insn = start -> (index < fin)%nat ->
  remaining_nodes fin rest.*1.
Proof.
  intros (Hs & Hk & Htr) Hf Hp Hfin. cbn in Hs. apply StronglySorted_cons in Hs as [_ Hs].
  split; [done|]. split; [intros k Hin; apply Hk; by right|].
  intros j i t i' Hj Hi Ht Hi'. assert (Hge : (index <= j)%nat) by lia.
  destruct (Htr _ _ _ _ Hge Hi Ht Hi') as [Hin|Hin]; [|done].
  cbn in Hin. assert (Hlt : (index < S j)%nat) by lia.
  pose proof (laid_out_lt _ _ _ _ _ _ Hlaid Hf Hi' Hlt). lia.
Qed.

(** A transfer in the block is its last instruction. *)
Lemma edge_in_block index fin edges b last_insn :
  remaining_edges index edges -> (index < fin <= length insns)%nat ->
  (forall j i, insns !! j = Some i -> ptr i <= b <-> (j < fin)%nat) ->
  (forall j i, (index <= j)%nat -> (S j < fin)%nat -> insns !! j = Some i -> transfer j i = None) ->
  insns !! (fin - 1)%nat = Some last_insn ->
  forall k e, In (k, e) edges -> k <= b -> k = ptr last_insn.
Proof.
  intros [_ He] Hfin Hiff Hno Hl k e Hin Hk. apply He in Hin as (Hm & j & i & Hj & Hi & <-).
  apply (Hiff _ _ Hi) in Hk. apply Hedge in Hm as (j' & i' & Hi' & Hp & [t Ht]).
  pose proof (laid_out_inj _ _ _ _ _ _ Hlaid Hi' Hi Hp) as ->.
  rewrite Hi in Hi'. injection Hi' as <-.
  destruct (decide (S j < fin)%nat) as [Hlt|].
  - rewrite (Hno j i Hj Hlt Hi) in Ht. done.
  - replace j with (fin - 1)%nat in Hi by lia. by simplify_eq.
Qed.

(** Handing out the edge of a block, if it has one. *)
Lemma edge_step index fin edges b last_insn :
  remaining_edges index edges -> (index < fin <= length insns)%nat ->
  (forall j i, insns !! j = Some i -> ptr i <= b <-> (j < fin)%nat) ->
  (forall j i, (index <= j)%nat -> (S j < fin)%nat -> insns !! j = Some i -> transfer j i = None) ->
  insns !! (fin - 1)%nat = Some last_insn ->
  match edges with
  | (k, e) :: rest => if k <=? b then edge_map !! ptr last_insn = Some e /\ remaining_edges fin rest
                      else edge_map !! ptr last_insn = None /\ remaining_edges fin edges
  | [] => edge_map !! ptr last_insn = None /\ remaining_edges fin edges
  end.
Proof.
  intros Hrem Hfin Hiff Hno Hl.
  pose proof (edge_in_block _ _ _ _ _ Hrem Hfin Hiff Hno Hl) as Hlast. destruct Hrem as [Hs He].
  assert (Hnone : (forall k e, In (k, e) edges -> b < k) ->
    edge_map !! ptr last_insn = None /\ remaining_edges fin edges).
  { intros Hout. split.
    - destruct (edge_map !! ptr last_insn) as [e|] eqn:Hm; [exfalso|done].
      assert (Hin : In (ptr last_insn, e) edges) by (apply He; split; [done|]; exists (fin - 1)%nat, last_insn; split_and!; [lia|done..]).
      apply Hout in Hin. pose proof (proj2 (Hiff _ _ Hl) ltac:(lia)). lia.
    - split; [done|]. intros k e. rewrite He. split; intros (Hm & j & i & Hj & Hi & Hp);
        (split; [done|]); exists j, i; split_and!; try done; [|lia].
      destruct (decide (fin <= j)%nat); [done|]. assert (Hin : In (k, e) edges) by (apply He; eauto 10).
      apply Hout in Hin. pose proof (proj2 (Hiff _ _ Hi) ltac:(lia)). lia. }
  destruct edges as [|[k e] rest]; [apply Hnone; by intros ?? []|].
  cbn in Hs. apply StronglySorted_cons in Hs as [Hall Hs]. rewrite Forall_forall in Hall.
  destruct (Z.leb_spec k b) as [Hkb|Hkb].
  - pose proof (Hlast k e ltac:(by left) Hkb) as ->.
    split; [apply He; by left|]. split; [done|]. intros k' e'. split.
    + intros Hin. destruct (proj1 (He k' e') ltac:(by right)) as (Hm & j & i & Hj & Hi & Hp).
      split; [done|]. exists j, i. split_and!; try done.
      assert (Hgt : ptr last_insn < k') by (apply Hall, list_elem_of_fmap; exists (k', e'); split; [done|]; by apply list_elem_of_In).
      subst k'. apply (laid_out_order _ _ _ _ _ _ Hlaid Hl Hi) in Hgt. lia.
    + intros (Hm & j & i & Hj & Hi & Hp).
      destruct (proj2 (He k' e')) as [Heq|]; [split; [done|]; exists j, i; split_and!; [lia|done..]| |done].
      simplify_eq. pose proof (laid_out_inj _ _ _ _ _ _ Hlaid Hl Hi ltac:(done)). lia.
  - apply Hnone. intros k' e' [Heq|Hin]; [by simplify_eq|].
    assert (Hgt : k < k') by (apply Hall, list_elem_of_fmap; exists (k', e'); split; [done|]; by apply list_elem_of_In). lia.
Qed.

Lemma assign_blocks_spec nodes : forall index edges,
  Forall (fun b => b.2 = CfgNode_default) nodes ->
  remaining_nodes index nodes.*1 -> remaining_edges index edges -> ends_block index nodes ->
  exists blocks,
    assign_blocks (E := E) insns functions nodes edges index = Ok blocks /\
    blocks.*1 = nodes.*1 /\ Forall (fun b => sources b.2 = []) blocks /\
    blocks_ok insns transfer block_targets index blocks.
Proof.
  induction nodes as [|[start node] rest IH]; intros index edges Hdef Hrn Hre Hend.
  { exists []. split_and!; [done|done|done|exact Hend]. }
  apply Forall_cons in Hdef as [Hd Hdef]. cbn in Hd. subst node.
  destruct Hend as (first_insn & Hfirst & Hstart).
  destruct (block_end index first_insn rest Hfirst) as (fin & b & Hb & Hfin & Hiff & Hnext).
  { intros k Hin. destruct Hrn as (Hs & Hk & _). cbn in Hs.
    apply StronglySorted_cons in Hs as [Hall _]. rewrite Forall_forall in Hall.
    split; [rewrite Hstart; by apply Hall, list_elem_of_In|]. apply Hk. by right. }
  pose proof (no_inner_transfer _ _ _ _ _ _ Hrn Hnext Hfirst Hstart Hfin) as Hno.
  destruct (lookup_lt_is_Some_2 insns (fin - 1)) as [li Hli]; [lia|].
  pose proof (edge_step _ _ _ _ _ Hre Hfin Hiff Hno Hli) as Hedges.
  pose proof (remaining_nodes_tail _ fin _ _ _ _ Hrn Hfirst Hstart ltac:(lia)) as Hrn'.
  cbn [assign_blocks]. rewrite Hb. cbn [mbind result_bind].
  rewrite (block_run index fin b Hfin Hiff).
  rewrite (proj2 (Nat.eqb_neq _ _)) by lia. replace (index + (fin - index))%nat with fin by lia.
  set (plain := set_instructions CfgNode_default (Z.of_nat index, Z.of_nat fin)).
  set (fall := match rest with
    | (next, _) :: _ => if bool_decide (is_Some (functions !! start)) then plain
                        else set_destinations plain (destinations plain ++ [next])
    | [] => plain end).
  assert (Hfall : node_instructions fall = (Z.of_nat index, Z.of_nat fin) /\ sources fall = [] /\
    (edge_map !! ptr li = None -> destinations fall = block_targets start (fin - 1) li (fst <$> head rest))).
  { unfold fall, block_targets. destruct rest as [|[next n] rest'].
    { split_and!; [done|done|]. by intros ->. }
    destruct (bool_decide _); (split_and!; [done|done|]); by intros ->. }
  assert (Hdone : forall node edges', remaining_edges fin edges' ->
    node_instructions node = (Z.of_nat index, Z.of_nat fin) -> sources node = [] ->
    destinations node = block_targets start (fin - 1) li (fst <$> head rest) ->
    exists blocks, (rest' ← assign_blocks (E := E) insns functions rest edges' fin;
      Ok ((start, node) :: rest')) = Ok blocks /\ blocks.*1 = start :: rest.*1 /\
      Forall (fun b => sources b.2 = []) blocks /\ blocks_ok insns transfer block_targets index blocks).
  { intros node edges' Hre' Hi Hs Hdst. destruct (IH fin edges' Hdef Hrn' Hre' Hnext) as (bl & -> & Hk & Hsrc & Hok).
    eexists. split; [reflexivity|]. split; [by cbn; rewrite Hk|]. split; [by constructor|].
    exists fin, first_insn, li. split_and!; try done; [lia|].
    rewrite Hdst. f_equal. destruct rest as [|[]], bl as [|[]]; cbn in *; by simplify_eq. }
  destruct Hfall as (Hf1 & Hf2 & Hf3).
  destruct edges as [|[k [o t]] edges']; [by destruct Hedges as [Hm Hre']; apply Hdone; auto|].
  destruct (k <=? b); destruct Hedges as [Hm Hre']; apply Hdone; auto.
  unfold block_targets. by rewrite Hm.
Qed.
End Blocks.

(** ** Linking *)
Definition add_sources (n : CfgNode) (l : list Z) : CfgNode :=
  mkCfgNode (label n) (sources n ++ l) (destinations n) (node_instructions n) (topo_index n)
    (dominator_parent n) (dominated_children n).

(** The sources of the edges to [k], once per edge. *)
Definition predecessors (cfg_edges : list (Z * list Z)) (k : Z) : list Z :=
  e ← cfg_edges; replicate (length (filter (fun d => d = k) e.2)) e.1.

Lemma elem_of_predecessors cfg_edges k s :
  s ∈ predecessors cfg_edges k <-> exists t, (s, t) ∈ cfg_edges /\ k ∈ t.
Proof.
  unfold predecessors. rewrite list_elem_of_bind. split.
  - intros ([s' t] & Hrep & Hin). cbn in Hrep. apply elem_of_replicate in Hrep as [-> Hne].
    exists t. split; [done|]. destruct (filter (fun d => d = k) t) as [|d l] eqn:Hf; [done|].
    assert (Hd : d ∈ filter (fun d => d = k) t) by (rewrite Hf; by left).
    by apply list_elem_of_filter in Hd as [-> ?].
  - intros (t & Hin & Hk). exists (s, t). split; [|done]. cbn. apply elem_of_replicate. split; [done|].
    assert (Hd : k ∈ filter (fun d => d = k) t) by (by apply list_elem_of_filter).
    destruct (filter (fun d => d = k) t); [by apply not_elem_of_nil in Hd|done].
Qed.

Lemma add_sources_app n a b : add_sources (add_sources n a) b = add_sources n (a ++ b).
Proof. unfold add_sources. cbn. by rewrite app_assoc. Qed.

Lemma link_destinations_spec {E} source l : forall nodes,
  (forall d, d ∈ l -> is_Some (nodes !! d)) ->
  exists nodes', link_destinations (E := E) nodes source l = Ok nodes' /\
    forall k, nodes' !! k =
      (fun n => add_sources n (replicate (length (filter (fun d => d = k) l)) source)) <$> nodes !! k.
Proof.
  induction l as [|d l IH]; intros nodes Hd; cbn [link_destinations].
  { exists nodes. split; [done|]. intros k. destruct (nodes !! k) as [[]|]; [|done].
    cbn. unfold add_sources. cbn. by rewrite app_nil_r. }
  destruct (Hd d) as [n Hn]; [by left|]. rewrite Hn. cbn [or_panic mbind result_bind].
  destruct (IH (<[d := push_source n source]> nodes)) as (nodes' & -> & Hk).
  { intros d' Hin. destruct (decide (d = d')) as [->|]; [by rewrite lookup_insert_eq|].
    rewrite lookup_insert_ne by done. apply Hd. by right. }
  exists nodes'. split; [done|]. intros k. rewrite Hk, filter_cons.
  destruct (decide (d = k)) as [->|].
  - rewrite lookup_insert_eq, Hn. cbn [length replicate fmap option_fmap option_map]. f_equal.
    change (push_source n source) with (add_sources n [source]). by rewrite add_sources_app.
  - by rewrite lookup_insert_ne.
Qed.

Lemma link_cfg_edges_spec {E} cfg_edges : forall nodes,
  (forall s t d, (s, t) ∈ cfg_edges -> d ∈ t -> is_Some (nodes !! d)) ->
  exists nodes', link_cfg_edges (E := E) nodes cfg_edges false = Ok nodes' /\
    forall k, nodes' !! k = (fun n => add_sources n (predecessors cfg_edges k)) <$> nodes !! k.
Proof.
  induction cfg_edges as [|[s t] rest IH]; intros nodes Hd; cbn [link_cfg_edges].
  { exists nodes. split; [done|]. intros k. destruct (nodes !! k) as [[]|]; [|done].
    cbn. unfold add_sources. cbn. by rewrite app_nil_r. }
  cbn [mbind result_bind].
  destruct (link_destinations_spec (E := E) s t nodes) as (nodes1 & -> & H1).
  { intros d Hin. apply (Hd s t); [by left|done]. }
  cbn [mbind result_bind]. destruct (IH nodes1) as (nodes' & -> & Hk).
  { intros s' t' d Hin Hdt. rewrite H1, fmap_is_Some. apply (Hd s' t'); [by right|done]. }
  exists nodes'. split; [done|]. intros k. rewrite Hk, H1. destruct (nodes !! k); [|done].
  cbn [fmap option_fmap option_map]. f_equal. by rewrite add_sources_app.
Qed.

(** ** Moving between block lists *)
Lemma blocks_ok_mono insns transfer tg tg' f blocks : forall index,
  (forall n : Z * CfgNode, (f n).1 = n.1 /\ node_instructions (f n).2 = node_instructions n.2 /\
     destinations (f n).2 = destinations n.2) ->
  (forall start j i next, insns !! j = Some i -> tg start j i next = tg' start j i next) ->
  blocks_ok insns transfer tg index blocks -> blocks_ok insns transfer tg' index (f <$> blocks).
Proof.
  induction blocks as [|[start node] rest IH]; intros index Hf Htg; [done|].
  intros (fin & fi & li & Hn & Hlt & Hfi & Hs & Hli & Hno & Hd & Hrest).
  pose proof (Hf (start, node)) as (Hf1 & Hf2 & Hf3). cbn [fmap list_fmap blocks_ok].
  destruct (f (start, node)) as [start' node']. cbn in *. subst start'.
  exists fin, fi, li. rewrite Hf2, Hf3, Hd. split_and!; auto.
  rewrite (Htg _ _ _ _ Hli). f_equal. destruct rest as [|b rest]; [done|]. cbn. f_equal.
  symmetry. apply (Hf b).
Qed.

(** The destinations of each block, and that the next block is one of them. *)
Lemma blocks_ok_destinations insns transfer tg blocks : forall index s n,
  blocks_ok insns transfer tg index blocks -> (s, n) ∈ blocks ->
  exists j i next, insns !! j = Some i /\ destinations n = tg s j i next /\
    (forall x, next = Some x -> x ∈ blocks.*1).
Proof.
  induction blocks as [|[start node] rest IH]; intros index s n Hok Hin; [by apply not_elem_of_nil in Hin|].
  destruct Hok as (fin & fi & li & _ & _ & _ & _ & Hli & _ & Hd & Hrest).
  apply elem_of_cons in Hin as [Heq|Hin].
  - simplify_eq. exists (fin - 1)%nat, li, (fst <$> head rest). split_and!; [done|done|].
    intros x Hx. destruct rest as [|b rest]; [done|]. cbn in Hx. simplify_eq. cbn. right. by left.
  - destruct (IH fin s n Hrest Hin) as (j & i & next & Hj & Hdst & Hnext).
    exists j, i, next. split_and!; [done|done|]. intros x Hx. cbn. right. auto.
Qed.

(** ** The graph *)
Definition flow (v : SBPFVersion) (registry : FunctionRegistry Z) (functions : gmap Z (Z * string))
    (nodes : gmap Z CfgNode) (start : Z) (j : nat) (last_insn : Insn) (next : option Z) : list Z :=
  match transfer_targets v registry (Z.of_nat j) last_insn with
  | Some t => filter (fun d => is_Some (nodes !! d)) t
  | None =>
      match next with
      | Some n => if bool_decide (is_Some (functions !! start)) then [] else [n]
      | None => []
      end
  end.

Record graph_ok {V} (v : SBPFVersion) (a : Analysis V) : Prop := {
  graph_blocks : let r := function_registry (executable a) in
    blocks_ok (instructions a) (fun j i => transfer_targets v r (Z.of_nat j) i)
      (flow v r (functions a) (cfg_nodes a)) 0 (bindings (cfg_nodes a));
  graph_closed : forall s n d,
    cfg_nodes a !! s = Some n -> d ∈ destinations n -> is_Some (cfg_nodes a !! d);
  graph_sources : forall s d m, cfg_nodes a !! d = Some m ->
    s ∈ sources m <-> exists n, cfg_nodes a !! s = Some n /\ d ∈ destinations n;
  graph_functions : forall f, is_Some (functions a !! f) -> is_Some (cfg_nodes a !! f);
  graph_targets : forall j i t d, instructions a !! j = Some i ->
    transfer_targets v (function_registry (executable a)) (Z.of_nat j) i = Some t -> d ∈ t ->
    is_Some (cfg_nodes a !! d) <-> is_instruction (instructions a) d = true
}.

(** What linking makes of blocks without sources. *)
Lemma linked_graph {E V} v (a : Analysis V) blocks fns (transfer := fun j i =>
    transfer_targets v (function_registry (executable a)) (Z.of_nat j) i) tg :
  StronglySorted Z.lt blocks.*1 -> Forall (fun b => sources b.2 = []) blocks ->
  blocks_ok (instructions a) transfer tg 0 blocks ->
  (forall start j i next, instructions a !! j = Some i ->
     tg start j i next = flow v (function_registry (executable a)) fns (list_to_map blocks) start j i next) ->
  (forall f, is_Some (fns !! f) -> f ∈ blocks.*1) ->
  (forall j i t d, instructions a !! j = Some i -> transfer j i = Some t -> d ∈ t ->
    d ∈ blocks.*1 <-> is_instruction (instructions a) d = true) ->
  let nodes : gmap Z CfgNode := list_to_map blocks in
  exists nodes', link_cfg_edges (E := E) nodes (node_edges nodes) false = Ok nodes' /\
    graph_ok v (set_cfg a fns nodes').
Proof.
  intros Hs Hsrc Hok Htg Hfns Hinst nodes. pose proof (bindings_list_to_map _ Hs) as Hb. fold nodes in Hb, Htg.
  assert (Hkeys : forall k, is_Some (nodes !! k) <-> k ∈ blocks.*1)
    by (intros k; by rewrite <- elem_of_binding_keys, Hb).
  assert (Hclosed : forall s n d, nodes !! s = Some n -> d ∈ destinations n -> is_Some (nodes !! d)).
  { intros s n d Hn Hd. apply elem_of_bindings in Hn. rewrite Hb in Hn.
    destruct (blocks_ok_destinations _ _ _ _ _ _ _ Hok Hn) as (j & i & next & Hj & Hdst & Hnext).
    rewrite Hdst, (Htg _ _ _ _ Hj) in Hd. unfold flow in Hd.
    case_match; [by apply list_elem_of_filter in Hd as [? _]|].
    destruct next as [x|]; [|by apply not_elem_of_nil in Hd].
    case_match; [by apply not_elem_of_nil in Hd|]. apply list_elem_of_singleton in Hd as ->. apply Hkeys; auto. }
  assert (Hedges : forall s t, (s, t) ∈ node_edges nodes <-> exists n, nodes !! s = Some n /\ t = destinations n).
  { intros s t. unfold node_edges. rewrite list_elem_of_fmap. split.
    - intros ([s' n] & Heq & Hin). cbn in Heq. simplify_eq. apply elem_of_bindings in Hin. eauto.
    - intros (n & Hn & ->). exists (s, n). split; [done|]. by apply elem_of_bindings. }
  destruct (link_cfg_edges_spec (E := E) (node_edges nodes) nodes) as (nodes' & Hl & Hk).
  { intros s t d Hin Hd. apply Hedges in Hin as (n & Hn & ->). by apply (Hclosed s n). }
  exists nodes'. split; [done|].
  assert (Hdom : forall k, is_Some (nodes' !! k) <-> is_Some (nodes !! k))
    by (intros k; by rewrite Hk, fmap_is_Some).
  split; cbn [set_cfg cfg_nodes instructions functions executable].
  - cbn zeta. rewrite (bindings_map _ _ _ Hk), Hb. eapply blocks_ok_mono; [|exact (fun s j i n H => eq_refl)|].
    { intros [k n]. done. }
    rewrite <- (list_fmap_id blocks). eapply blocks_ok_mono; [intros []; done| |exact Hok].
    intros start j i next Hj. rewrite (Htg _ _ _ _ Hj). unfold flow. case_match; [|done].
    apply list_filter_iff. intros d. by rewrite Hdom.
  - intros s n d Hn Hd. rewrite Hk in Hn. apply fmap_Some in Hn as (n0 & Hn0 & ->). apply Hdom.
    by apply (Hclosed s n0).
  - intros s d m Hm. rewrite Hk in Hm. apply fmap_Some in Hm as (m0 & Hm0 & ->). cbn [add_sources sources].
    assert (sources m0 = []) as ->.
    { apply elem_of_bindings in Hm0. rewrite Hb in Hm0. rewrite Forall_forall in Hsrc. by apply (Hsrc _ Hm0). }
    cbn [app]. rewrite elem_of_predecessors. split.
    + intros (t & Hin & Hd). apply Hedges in Hin as (n & Hn & ->).
      eexists. rewrite Hk, Hn. split; [done|]. done.
    + intros (n & Hn & Hd). rewrite Hk in Hn. apply fmap_Some in Hn as (n0 & Hn0 & ->).
      exists (destinations n0). split; [apply Hedges; eauto|done].
  - intros f Hf. apply Hdom, Hkeys, Hfns, Hf.
  - intros j i t d Hj Ht Hd. rewrite Hdom, Hkeys. by apply (Hinst j i t).
Qed.

Lemma initial_nodes_spec fns :
  all_default (initial_nodes ∅ fns) /\ is_Some (initial_nodes ∅ fns !! 0) /\
  (forall f, is_Some (fns !! f) -> is_Some (initial_nodes ∅ fns !! f)).
Proof.
  unfold initial_nodes. destruct (add_nodes_spec (bindings fns).*1 (<[0 := CfgNode_default]> ∅)) as [Hd Hk].
  split_and!.
  - apply Hd. intros k n [[<- <-]|[_ Hn]]%lookup_insert_Some; [done|]. by rewrite lookup_empty in Hn.
  - apply Hk. left. by rewrite lookup_insert_eq.
  - intros f Hf. apply Hk. right. by apply list_elem_of_In, elem_of_binding_keys.
Qed.

(** The first block is at address 0. *)
Lemma first_block insns (nodes : gmap Z CfgNode) :
  laid_out 0 insns ->
  (forall k, is_Some (nodes !! k) -> exists j i, insns !! j = Some i /\ ptr i = k) ->
  (forall i, insns !! 0%nat = Some i -> is_Some (nodes !! 0)) ->
  ends_block insns 0 (bindings nodes).
Proof.
  intros Hl Hk H0. pose proof (bindings_sorted nodes) as Hs.
  destruct (bindings nodes) as [|[k n] l] eqn:Hb.
  - destruct insns as [|i insns]; [done|]. destruct (H0 i eq_refl) as [x Hx].
    apply elem_of_bindings in Hx. rewrite Hb in Hx. by apply not_elem_of_nil in Hx.
  - assert (Hin : forall y, y ∈ k :: l.*1 <-> is_Some (nodes !! y))
      by (intros y; rewrite <- elem_of_binding_keys, Hb; done).
    destruct (Hk k) as (j & i & Hj & Hp); [apply Hin; by left|].
    destruct (lookup_lt_is_Some_2 insns 0) as [i0 Hi0]; [pose proof (lookup_lt_Some _ _ _ Hj); lia|].
    assert (Hp0 : ptr i0 = 0).
    { destruct insns; [done|]. cbn in Hi0. simplify_eq. by destruct Hl. }
    exists i0. split; [done|]. rewrite Hp0.
    pose proof (proj2 (Hin 0) (H0 _ Hi0)) as Hz. cbn in Hs. apply StronglySorted_cons in Hs as [Hall _].
    apply elem_of_cons in Hz as [|Hz]; [done|]. rewrite Forall_forall in Hall. apply Hall in Hz.
    pose proof (laid_out_ge _ _ _ _ Hl Hj). lia.
Qed.

(** The nodes kept are those at an instruction. *)
Definition kept (insns : list Insn) (all : gmap Z CfgNode) : gmap Z CfgNode :=
  filter (fun b => is_instruction insns b.1 = true) all.

Lemma kept_spec insns all k :
  is_Some (kept insns all !! k) <->
  is_Some (all !! k) /\ exists j i, insns !! j = Some i /\ ptr i = k.
Proof.
  unfold kept. rewrite <- is_instruction_spec. split.
  - intros [n [Hn Hi]%map_lookup_filter_Some]. eauto.
  - intros [[n Hn] Hi]. exists n. by apply map_lookup_filter_Some.
Qed.

Definition kept_edges (nodes : gmap Z CfgNode) (edges : gmap Z (Z * list Z)) : gmap Z (Z * list Z) :=
  (fun e => (e.1, filter (fun d => is_Some (nodes !! d)) e.2)) <$> edges.

(** The first loop, as what the second one needs. *)
Record scanned (v : SBPFVersion) (reg : FunctionRegistry Z) (insns : list Insn)
    (all : gmap Z CfgNode) (edges : gmap Z (Z * list Z)) : Prop := {
  scanned_default : all_default all;
  scanned_zero : is_Some (all !! 0);
  scanned_transfer : forall j i t, insns !! j = Some i ->
    transfer_targets v reg (Z.of_nat j) i = Some t ->
    (is_Some (all !! (ptr i + 1)) /\ Forall (fun d => is_Some (all !! d)) t) /\ edges !! ptr i = Some (opc i, t);
  scanned_edges : forall q e, edges !! q = Some e -> exists j i, insns !! j = Some i /\ ptr i = q /\
    transfer_targets v reg (Z.of_nat j) i = Some e.2
}.

Section Scanned.
Context (v : SBPFVersion) (reg : FunctionRegistry Z) (insns : list Insn).
Context (all : gmap Z CfgNode) (edges : gmap Z (Z * list Z)).
Context (Hl : laid_out 0 insns) (Hsc : scanned v reg insns all edges).
Let transfer (j : nat) (i : Insn) := transfer_targets v reg (Z.of_nat j) i.
Let nodes := kept insns all.
Let edge_map := kept_edges nodes edges.

Lemma scanned_remaining_nodes : remaining_nodes insns transfer 0 (bindings nodes).*1.
Proof.
  split; [apply bindings_sorted|]. split.
  - intros k Hk%list_elem_of_In%elem_of_binding_keys. by apply kept_spec in Hk as [_ ?].
  - intros j i t i' _ Hi Ht Hi'. apply list_elem_of_In, elem_of_binding_keys, kept_spec.
    pose proof (laid_out_next _ _ _ _ _ Hl Hi Hi') as Hp. rewrite (transfer_width _ _ _ _ _ Ht) in Hp.
    rewrite Hp. split; [by apply (scanned_transfer _ _ _ _ _ Hsc _ _ _ Hi Ht)|eauto].
Qed.

Lemma kept_edges_Some q e :
  edge_map !! q = Some e -> exists j i, insns !! j = Some i /\ ptr i = q /\ is_Some (transfer j i).
Proof.
  unfold edge_map, kept_edges. rewrite lookup_fmap. intros (e0 & He & _)%fmap_Some.
  apply (scanned_edges _ _ _ _ _ Hsc) in He as (j & i & Hj & Hp & Ht). exists j, i. split_and!; eauto.
Qed.

Lemma scanned_remaining_edges : remaining_edges insns edge_map 0 (bindings edge_map).
Proof.
  split; [apply bindings_sorted|]. intros k e. rewrite <- list_elem_of_In, elem_of_bindings.
  split; [|by intros [? _]]. intros He. split; [done|].
  apply kept_edges_Some in He as (j & i & Hj & Hp & _). exists j, i. split_and!; [lia|done|done].
Qed.

(** The edge of an instruction is the reference's, less the missing targets. *)
Lemma block_targets_flow fns all_nodes start j i next :
  (forall k, is_Some (all_nodes !! k) <-> is_Some (nodes !! k)) -> insns !! j = Some i ->
  block_targets fns edge_map start j i next = flow v reg fns all_nodes start j i next.
Proof.
  intros Hdom Hj. unfold block_targets, flow, edge_map, kept_edges. rewrite lookup_fmap.
  destruct (transfer_targets v reg (Z.of_nat j) i) as [t|] eqn:Ht.
  - rewrite (proj2 (scanned_transfer _ _ _ _ _ Hsc _ _ _ Hj Ht)). cbn.
    apply list_filter_iff. intros d. by rewrite Hdom.
  - destruct (edges !! ptr i) as [e|] eqn:He; [exfalso|done].
    apply (scanned_edges _ _ _ _ _ Hsc) in He as (j' & i' & Hj' & Hp & Ht').
    pose proof (laid_out_inj _ _ _ _ _ _ Hl Hj' Hj Hp) as ->. simplify_eq.
Qed.

Lemma scanned_first : ends_block insns 0 (bindings nodes).
Proof.
  apply first_block; [done| |].
  - intros k Hk. by apply kept_spec in Hk as [_ ?].
  - intros i Hi. apply kept_spec. split; [apply Hsc|]. exists 0%nat, i. split; [done|].
    destruct insns; [done|]. cbn in Hi. simplify_eq. by destruct Hl.
Qed.
End Scanned.

Lemma split_graph {E V} `{Profile} (a : Analysis V) v :
  laid_out 0 (instructions a) -> Forall (fun i => ptr i < 2 ^ 62) (instructions a) ->
  cfg_nodes a = ∅ ->
  exists a', split_into_basic_blocks (E := E) a false v = Ok a' /\
    instructions a' = instructions a /\ executable a' = executable a /\ graph_ok v a'.
Proof.
  intros Hl Hsmall Hempty. set (reg := function_registry (executable a)).
  destruct (initial_nodes_spec (functions a)) as (Hid & Hi0 & Hif).
  destruct (scan_spec (E := E) v reg (super_root a) 0 (instructions a) 0
    (initial_nodes (cfg_nodes a) (functions a), ∅)) as ([all edges] & Hscan & Hdef & Hkeep & _ & Htr & Hed);
    [done|lia|done|intros j e He; cbn in He; by rewrite lookup_empty in He|].
  rewrite Hempty in *. cbn [fst snd] in *. unfold split_into_basic_blocks. fold reg.
  rewrite Hempty, Hscan. cbn [mbind result_bind].
  assert (Hsc : scanned v reg (instructions a) all edges).
  { split; [auto|auto|exact Htr|]. intros q e He. apply Hed in He as [He|He]; [by rewrite lookup_empty in He|done]. }
  change (filter _ all) with (kept (instructions a) all). set (nodes := kept (instructions a) all).
  change ((fun e => (e.1, filter (fun d => is_Some (nodes !! d)) e.2)) <$> edges) with (kept_edges nodes edges).
  set (fns := filter (fun b => is_Some (nodes !! b.1)) (functions a)).
  destruct (assign_blocks_spec (E := E) (instructions a) fns
    (fun j i => transfer_targets v reg (Z.of_nat j) i) (kept_edges nodes edges) Hl Hsmall
    (kept_edges_Some v reg _ _ _ Hsc) (bindings nodes) 0 (bindings (kept_edges nodes edges)))
    as (blocks & -> & Hkeys & Hsrc & Hok).
  { apply Forall_forall. intros [k n] Hin%elem_of_bindings. apply map_lookup_filter_Some in Hin as [Hn _].
    by apply (scanned_default _ _ _ _ _ Hsc) in Hn. }
  { exact (scanned_remaining_nodes v reg _ _ edges Hl Hsc). }
  { exact (scanned_remaining_edges v reg _ _ edges Hsc). }
  { exact (scanned_first v reg _ _ edges Hl Hsc). }
  cbn [mbind result_bind]. pose proof (bindings_sorted nodes) as Hs. rewrite <- Hkeys in Hs.
  destruct (linked_graph (E := E) v a blocks fns (block_targets fns (kept_edges nodes edges)) Hs Hsrc Hok)
    as (nodes' & Hlink & Hg).
  - intros start j i next Hj. apply (block_targets_flow v reg _ all edges Hl Hsc); [|done].
    intros k. by rewrite <- !elem_of_binding_keys, bindings_list_to_map, Hkeys.
  - intros f [x [_ Hf]%map_lookup_filter_Some]. rewrite Hkeys. by apply elem_of_binding_keys.
  - intros j i t d Hj Ht Hd. rewrite Hkeys, elem_of_binding_keys, is_instruction_spec. unfold nodes. rewrite kept_spec.
    destruct (scanned_transfer _ _ _ _ _ Hsc _ _ _ Hj Ht) as [[_ Hall] _]. rewrite Forall_forall in Hall.
    split; [by intros [_ ?]|]. split; [by apply Hall|done].
  - cbn zeta in Hlink. rewrite Hlink. eexists. split; [reflexivity|]. done.
Qed.

(** ** The graph, from the encoding of the instructions *)

(** A conditional jump: its class, and an operation that is a comparison. *)
Definition conditional_jump (v : SBPFVersion) (o : Z) : bool :=
  let operation := Z.shiftr o 4 in
  ((Z.land o 7 =? BPF_JMP64) || (Z.land o 7 =? BPF_JMP32) && enable_jmp32 v) &&
  ((1 <=? operation) && (operation <=? 7) || (10 <=? operation) && (operation <=? 13)).

(** Where control may go after an instruction that does not just continue with
    the next one, as slots.  A call to a function returns behind it. *)
Definition successors (v : SBPFVersion) (registry : FunctionRegistry Z) (i : Insn) : option (list Z) :=
  let next := ptr i + 1 in
  let target := as_u 64 (ptr i + 1 + off i) in
  if opc i =? CALL_IMM then
    match lookup_by_key registry (calculate_call_imm_target_pc v (ptr i) (imm i)) with
    | Some _ => Some [next]
    | None => None
    end
  else if opc i =? CALL_REG then Some [next]
  else if opc i =? EXIT then Some []
  else if opc i =? JA then Some [target]
  else if conditional_jump v (opc i) then Some [next; target]
  else None.

Lemma is_jump_conditional v i :
  is_u 8 (opc i) -> is_jump v i = conditional_jump v (opc i).
Proof.
  intros Ho. unfold is_jump.
  assert (Hall : forallb (fun o => eqb (existsb (Z.eqb o) jmp32_opcodes && enable_jmp32 v || existsb (Z.eqb o) jmp64_opcodes)
    (conditional_jump v o)) (seqZ 0 256) = true) by (destruct v; vm_compute; reflexivity).
  rewrite forallb_forall in Hall. apply eqb_prop, Hall, list_elem_of_In, elem_of_seqZ. unfold is_u in Ho. lia.
Qed.

(** Calls by distance are counted at their slot: no 64-bit load before them. *)
Definition calls_counted (v : SBPFVersion) (insns : list Insn) : Prop :=
  static_syscalls v = true -> forall j i, insns !! j = Some i -> opc i = CALL_IMM -> ptr i = Z.of_nat j.

Lemma transfer_successors v reg insns j i :
  calls_counted v insns -> insns !! j = Some i -> is_u 8 (opc i) ->
  transfer_targets v reg (Z.of_nat j) i = successors v reg i.
Proof.
  intros Hc Hj Ho. unfold transfer_targets, successors. rewrite (is_jump_conditional v i Ho).
  replace (ptr i + off i + 1) with (ptr i + 1 + off i) by lia.
  destruct (Z.eqb_spec (opc i) CALL_IMM) as [Hcall|]; [|done].
  assert (Hk : calculate_call_imm_target_pc v (Z.of_nat j) (imm i) = calculate_call_imm_target_pc v (ptr i) (imm i));
    [|by rewrite Hk]. unfold calculate_call_imm_target_pc. destruct (static_syscalls v) eqn:Hv; [|done].
  by rewrite (Hc Hv j i).
Qed.

(** Basic blocks of the instructions from [index] on.  What the first block of a
    function leads to when control just continues is left open. *)
Section BasicBlocks.
Context (v : SBPFVersion) (registry : FunctionRegistry Z) (functions : gmap Z (Z * string)) (insns : list Insn).

Definition leads_to (start : Z) (last_insn : Insn) (next : option Z) (node : CfgNode) : Prop :=
  match successors v registry last_insn with
  | Some t => destinations node = filter (fun d => is_instruction insns d = true) t
  | None => is_Some (functions !! start) \/ destinations node = option_list next
  end.

Fixpoint basic_blocks (index : nat) (blocks : list (Z * CfgNode)) : Prop :=
  match blocks with
  | [] => index = length insns
  | (start, node) :: rest =>
      exists fin first_insn last_insn,
        node_instructions node = (Z.of_nat index, Z.of_nat fin) /\ (index < fin)%nat /\
        insns !! index = Some first_insn /\ ptr first_insn = start /\
        insns !! (fin - 1)%nat = Some last_insn /\
        (forall j i, (index <= j)%nat -> (S j < fin)%nat -> insns !! j = Some i -> successors v registry i = None) /\
        leads_to start last_insn (fst <$> head rest) node /\
        basic_blocks fin rest
  end.
End BasicBlocks.

Record cfg_ok {V} (v : SBPFVersion) (a : Analysis V) : Prop := {
  cfg_blocks : calls_counted v (instructions a) ->
    basic_blocks v (function_registry (executable a)) (functions a) (instructions a) 0 (bindings (cfg_nodes a));
  cfg_closed : forall s n d,
    cfg_nodes a !! s = Some n -> d ∈ destinations n -> is_Some (cfg_nodes a !! d);
  cfg_sources : forall s d m, cfg_nodes a !! d = Some m ->
    s ∈ sources m <-> exists n, cfg_nodes a !! s = Some n /\ d ∈ destinations n;
  cfg_functions : forall f, is_Some (functions a !! f) -> is_Some (cfg_nodes a !! f)
}.

Lemma graph_cfg {V} v (a : Analysis V) :
  graph_ok v a -> Forall (fun i => is_u 8 (opc i)) (instructions a) -> cfg_ok v a.
Proof.
  intros [Hb Hcl Hs Hf Ht] Ho. split; [|done..]. intros Hc. cbn zeta in Hb. rewrite Forall_lookup in Ho.
  set (reg := function_registry (executable a)) in *.
  assert (Heq : forall j i, instructions a !! j = Some i -> transfer_targets v reg (Z.of_nat j) i = successors v reg i)
    by (intros j i Hj; by apply (transfer_successors v reg (instructions a)); [| |eapply Ho]).
  revert Hb. generalize 0%nat. generalize (bindings (cfg_nodes a)). intros blocks.
  induction blocks as [|[start node] rest IH]; intros index; [done|].
  intros (fin & fi & li & Hn & Hlt & Hfi & Hst & Hli & Hno & Hd & Hrest). exists fin, fi, li.
  split_and!; auto.
  - intros j i Hj Hjf Hi. rewrite <- (Heq j i Hi). by apply Hno.
  - unfold leads_to. unfold flow in Hd. rewrite (Heq _ _ Hli) in Hd. destruct (successors v reg li) as [t|] eqn:Hsu.
    + rewrite Hd. rewrite <- (Heq _ _ Hli) in Hsu. pose proof (fun d => Ht _ _ _ d Hli Hsu) as Hin. clear - Hin.
      induction t as [|d t IH]; [done|]. rewrite !filter_cons.
      pose proof (Hin d ltac:(left)) as Hd. rewrite IH by (intros; apply Hin; by right). repeat case_decide; tauto.
    + destruct (fst <$> head rest) as [n|]; [|by right]. case_bool_decide; [by left|by right].
Qed.

(** ** Decoding *)
Section Decode.
Context {E V : Type} {P : Profile} {B : ByteOrder} {BL : ByteOrderLaws}.

(** Instructions read slot by slot from [p] to the end; a 64-bit load without a
    second slot is dropped. *)
Fixpoint decoded_from (program : list byte) (p : Z) (l : list Insn) : Prop :=
  match l with
  | [] => 8 * p = Z.of_nat (length program) \/
      8 * p + 8 = Z.of_nat (length program) /\ opc (slot program p) = LD_DW_IMM
  | i :: l =>
      (if opc (slot program p) =? LD_DW_IMM
       then 8 * p + 16 <= Z.of_nat (length program) /\
            augment_lddw_unchecked (E := E) program (slot program p) = Ok i
       else 8 * p + 8 <= Z.of_nat (length program) /\ i = slot program p) /\
      decoded_from program (p + width i) l
  end.

Lemma slot_fields program p z :
  ptr (with_imm (slot program p) z) = p /\ is_i 16 (off (with_imm (slot program p) z)) /\
  width (with_imm (slot program p) z) = if opc (slot program p) =? LD_DW_IMM then 2 else 1.
Proof. split_and!; [done| |done]. unfold slot. cbn [with_imm off]. apply as_i_range. lia. Qed.

Lemma decoded_laid_out program l : forall p,
  0 <= p -> Z.of_nat (length program) < 2 ^ 63 -> decoded_from program p l ->
  laid_out p l /\ Forall (fun i => 8 * ptr i + 8 <= Z.of_nat (length program)) l.
Proof.
  induction l as [|i l IH]; intros p Hp Hlen Hd; [done|]. destruct Hd as [Hi Hd].
  assert (exists z, i = with_imm (slot program p) z /\ 8 * p + 8 <= Z.of_nat (length program)) as (z & -> & Hb).
  { destruct (opc (slot program p) =? LD_DW_IMM); destruct Hi as [Hb Hi].
    - destruct (augment_lddw_ok (E := E) program (slot program p)) as [z Hz]; [done|cbn; lia|].
      rewrite Hz in Hi. injection Hi as <-. exists z. split; [done|lia].
    - exists (imm (slot program p)). split; [|lia]. subst i. done. }
  destruct (slot_fields program p z) as (Hptr & Hoff & _).
  pose proof (insn_width_pos (with_imm (slot program p) z)) as Hw.
  assert (Hp' : 0 <= p + width (with_imm (slot program p) z)) by lia.
  destruct (IH _ Hp' Hlen Hd) as [Hl Hf]. split; [by split_and!|]. constructor; [cbn; lia|done].
Qed.

Lemma decode_loop_spec program : forall fuel p acc,
  Z.of_nat (length program) mod 8 = 0 -> Z.of_nat (length program) < 2 ^ 62 -> 0 <= p ->
  8 * p <= Z.of_nat (length program) -> Z.of_nat (length program) < 8 * (p + Z.of_nat fuel) ->
  exists l q, decode_loop (E := E) fuel program p acc = Ok (acc ++ l, q) /\ decoded_from program p l /\
    p + Z.of_nat (length l) <= q /\ 8 * q <= Z.of_nat (length program) /\ Forall (fun i => ptr i < q) l.
Proof.
  induction fuel as [|fuel IH]; intros p acc Hmod Hlen Hp Hle Hfuel; [lia|].
  cbn [decode_loop]. unfold INSN_SIZE. rewrite (arith_u64_ok (p * 8)) by (unfold is_u; lia).
  cbn [mbind result_bind]. destruct (Z.ltb_spec (p * 8) (Z.of_nat (length program))) as [Hlt|Hge]; cbn [negb].
  2:{ exists [], p. rewrite app_nil_r. split_and!; [done|left; lia|cbn; lia|lia|constructor]. }
  assert (Hb : 8 * p + 8 <= Z.of_nat (length program)) by (Z.to_euclidean_division_equations; lia).
  destruct (get_insn_slot (E := E) program p Hp ltac:(lia)) as [-> _]. cbn [mbind result_bind].
  rewrite (arith_u64_ok (p + 1)) by (unfold is_u; lia). cbn [mbind result_bind].
  destruct (opc (slot program p) =? LD_DW_IMM) eqn:Hdw.
  - rewrite (arith_u64_ok ((p + 1) * 8)) by (unfold is_u; lia). cbn [mbind result_bind].
    destruct (Z.leb_spec (Z.of_nat (length program)) ((p + 1) * 8)) as [Hend|Hmore].
    { exists [], (p + 1). rewrite app_nil_r. split_and!; [done|right; split; [lia|by apply Z.eqb_eq]|cbn; lia|lia|constructor]. }
    assert (Hb2 : 8 * p + 16 <= Z.of_nat (length program)) by (Z.to_euclidean_division_equations; lia).
    destruct (augment_lddw_ok (E := E) program (slot program p)) as [z Hz]; [done|cbn; lia|].
    rewrite Hz. cbn [mbind result_bind]. rewrite (arith_u64_ok (p + 1 + 1)) by (unfold is_u; lia). cbn [mbind result_bind].
    destruct (IH (p + 1 + 1) (acc ++ [with_imm (slot program p) z])) as (l & q & -> & Hd & Hq & Hq8 & Hf); [done|lia..|].
    exists (with_imm (slot program p) z :: l), q. rewrite <- app_assoc.
    destruct (slot_fields program p z) as (Hptr & _ & Hw).
    split_and!; [done| |cbn [length]; lia|done|constructor; [lia|done]].
    cbn [decoded_from]. rewrite Hdw. split; [done|]. rewrite Hw, Hdw.
    by replace (p + 2) with (p + 1 + 1) by lia.
  - destruct (IH (p + 1) (acc ++ [slot program p])) as (l & q & -> & Hd & Hq & Hq8 & Hf); [done|lia..|].
    exists (slot program p :: l), q. rewrite <- app_assoc.
    split_and!; [done| |cbn [length]; lia|done|constructor; [cbn; lia|done]].
    cbn [decoded_from]. rewrite Hdw. split; [done|]. unfold width. by rewrite Hdw.
Qed.

(** Decoding an executable. *)
Lemma analysis_new_returns (e : Executable V) vaddr program :
  get_text_bytes (E := E) e = Ok (vaddr, program) ->
  Z.of_nat (length program) mod 8 = 0 -> Z.of_nat (length program) < 2 ^ 62 ->
  exists l q, analysis_new (E := E) e =
      Ok (mkAnalysis e l (function_starts (function_registry e)) ∅ [] (entry_pc e) q ∅ ∅) /\
    decoded_from program 0 l /\ laid_out 0 l /\ Forall (fun i => ptr i < 2 ^ 62) l /\
    Z.of_nat (length l) <= q < 2 ^ 62 /\ Forall (fun i => ptr i < q) l.
Proof.
  intros Ht Hmod Hlen. unfold analysis_new. rewrite Ht. cbn [mbind result_bind].
  unfold debug_assert, INSN_SIZE. rewrite Hmod. cbn [Z.eqb negb]. rewrite andb_false_r.
  cbn [mbind result_bind]. unfold decode.
  destruct (decode_loop_spec program (S (length program)) 0 []) as (l & q & -> & Hd & Hq & Hq8 & Hf); [done|lia..|].
  cbn [mbind result_bind app].
  destruct (decoded_laid_out program l 0 ltac:(lia) ltac:(lia) Hd) as [Hlaid Hb].
  exists l, q. split_and!; [done|done|done| |lia|lia|done].
  eapply Forall_impl; [exact Hb|]. cbn. intros. lia.
Qed.

Lemma decoded_opcodes program l : forall p,
  is_bytes program -> 0 <= p -> Z.of_nat (length program) < 2 ^ 63 -> decoded_from program p l ->
  Forall (fun i => is_u 8 (opc i)) l.
Proof.
  induction l as [|i l IH]; intros p Hb Hp Hlen Hd; [constructor|]. destruct Hd as [Hi Hd].
  pose proof (insn_width_pos i). constructor; [|apply (IH (p + width i)); [done|lia|done..]].
  assert (8 * p + 8 <= Z.of_nat (length program) /\ opc i = opc (slot program p)) as [Hr ->].
  { destruct (opc (slot program p) =? LD_DW_IMM); destruct Hi as [Hr Hi]; [|by subst].
    destruct (augment_lddw_ok (E := E) program (slot program p)) as [z Hz]; [done|cbn; lia|].
    rewrite Hz in Hi. injection Hi as <-. split; [lia|done]. }
  apply (slot_wf program p Hb Hp Hr).
Qed.

(** C31: The analysis of an executable whose text is whole instructions makes a
    control-flow graph.  Decoding returns every slot's instruction in order and
    splitting does not panic; edges lead to blocks, a block has as sources
    exactly those that lead to it, and functions start blocks.  When calls by
    distance have no 64-bit load before them, the blocks partition the
    instructions, transfer control only at their end, and lead to the
    successors of their last instruction that are instructions, or else to the
    next block, the first block of a function excepted. *)
Theorem analysis_graph (e : Executable V) v vaddr program :
  is_bytes program -> get_text_bytes (E := E) e = Ok (vaddr, program) ->
  Z.of_nat (length program) mod 8 = 0 -> Z.of_nat (length program) < 2 ^ 62 ->
  exists a a', analysis_new (E := E) e = Ok a /\
    split_into_basic_blocks (E := E) a false v = Ok a' /\
    executable a' = e /\ decoded_from program 0 (instructions a') /\ cfg_ok v a'.
Proof.
  intros Hb Ht Hmod Hlen.
  destruct (analysis_new_returns e vaddr program Ht Hmod Hlen) as (l & q & Hn & Hd & Hlaid & Hsm & _).
  eexists. destruct (split_graph (E := E) (mkAnalysis e l (function_starts (function_registry e)) ∅ []
    (entry_pc e) q ∅ ∅) v) as (a' & Hs & Hi & He & Hg); [done|done|done|].
  exists a'. split; [exact Hn|]. rewrite Hs, He, Hi. split_and!; try done.
  apply graph_cfg; [done|]. rewrite Hi. apply (decoded_opcodes program l 0); [done|lia|lia|done].
Qed.
End Decode.
