(* ===== verification/X86Isa.v ===== *)
(** * A reference for the x86-64 subset the compiler emits

    An executable reading of the architecture, independent of the encoder: a
    decoder of the register forms the compiler uses, and what each instruction
    does to registers, flags, stack and instruction pointer.  32-bit operations
    clear the upper half of their destination.  Flags a shift leaves are
    unspecified ([None]), and a conditional jump on unspecified flags has no
    behaviour, so no result relies on them. *)

From stdpp Require Import gmap.
From S2P Require Import Prelude MemoryRegion MappingFacts.

(** ** Instructions *)
Inductive binop := ADD | OR | AND | SUB | XOR | CMP | TEST | MOV.
Inductive shiftop := SHL | SHR | SAR.
Inductive operand := Reg (r : Z) | Imm (v : Z).

(** [w] is the operand size: 64 bits when true, 32 bits otherwise. *)
Inductive instruction :=
| Bin (w : bool) (op : binop) (d : Z) (s : operand)
| Shift (w : bool) (op : shiftop) (d : Z) (count : operand)
| Xchg (w : bool) (a b : Z)
| Push (r : Z)
| Pop (r : Z)
| Jmp (d : Z)
| Jcc (cc d : Z)
| Ret.

#[export] Instance binop_eq_dec : EqDecision binop.
Proof. solve_decision. Defined.
#[export] Instance shiftop_eq_dec : EqDecision shiftop.
Proof. solve_decision. Defined.
#[export] Instance operand_eq_dec : EqDecision operand.
Proof. solve_decision. Defined.
#[export] Instance instruction_eq_dec : EqDecision instruction.
Proof. solve_decision. Defined.

(** ** Decoding *)
Definition is_rex (b : byte) : bool := (0x40 <=? b) && (b <=? 0x4f).
Definition bit8 (b : bool) (low : Z) : Z := if b then low + 8 else low.

(** An [n]-byte little-endian field, and the bytes after it. *)
Definition field (n : nat) (bs : list byte) : option (Z * list byte) :=
  if (n <=? length bs)%nat then Some (le_val (take n bs), drop n bs) else None.

Definition rm_r_op (op : Z) : option binop :=
  if op =? 0x01 then Some ADD else if op =? 0x09 then Some OR
  else if op =? 0x21 then Some AND else if op =? 0x29 then Some SUB
  else if op =? 0x31 then Some XOR else if op =? 0x39 then Some CMP
  else if op =? 0x85 then Some TEST else if op =? 0x89 then Some MOV else None.

Definition group1_op (ext : Z) : option binop :=
  if ext =? 0 then Some ADD else if ext =? 1 then Some OR
  else if ext =? 4 then Some AND else if ext =? 5 then Some SUB
  else if ext =? 6 then Some XOR else if ext =? 7 then Some CMP else None.

Definition group2_op (ext : Z) : option shiftop :=
  if ext =? 4 then Some SHL else if ext =? 5 then Some SHR
  else if ext =? 7 then Some SAR else None.

(** Instructions with a ModRM byte in register mode; [reg] and [rm] are its
    fields, extended by the REX bits where they name registers. *)
Definition decode_modrm (w r b : bool) (op : Z) (bs : list byte)
    : option (instruction * list byte) :=
  match bs with
  | [] => None
  | m :: bs =>
      if negb (Z.shiftr m 6 =? 3) then None
      else
        let ext := Z.land (Z.shiftr m 3) 7 in
        let reg := bit8 r ext in
        let rm := bit8 b (Z.land m 7) in
        match rm_r_op op with
        | Some o => Some (Bin w o rm (Reg reg), bs)
        | None =>
            if op =? 0x87 then Some (Xchg w rm reg, bs)
            else if op =? 0x81 then
              o ← group1_op ext; '(v, bs) ← field 4 bs; Some (Bin w o rm (Imm (as_i 32 v)), bs)
            else if (op =? 0xf7) && (ext =? 0) then
              '(v, bs) ← field 4 bs; Some (Bin w TEST rm (Imm (as_i 32 v)), bs)
            else if (op =? 0xc7) && (ext =? 0) then
              '(v, bs) ← field 4 bs; Some (Bin w MOV rm (Imm (as_i 32 v)), bs)
            else if op =? 0xc1 then
              o ← group2_op ext; '(v, bs) ← field 1 bs; Some (Shift w o rm (Imm v), bs)
            else if op =? 0xd3 then
              o ← group2_op ext; Some (Shift w o rm (Reg 1), bs)
            else None
        end
  end.

Definition decode_opcode (w r b : bool) (bs : list byte) : option (instruction * list byte) :=
  match bs with
  | [] => None
  | op :: bs =>
      if op =? 0x0f then
        match bs with
        | cc :: bs =>
            if (0x80 <=? cc) && (cc <=? 0x8f)
            then '(v, bs) ← field 4 bs; Some (Jcc cc (as_i 32 v), bs) else None
        | [] => None
        end
      else if (0x50 <=? op) && (op <=? 0x57) then Some (Push (bit8 b (op - 0x50)), bs)
      else if (0x58 <=? op) && (op <=? 0x5f) then Some (Pop (bit8 b (op - 0x58)), bs)
      else if (0xb8 <=? op) && (op <=? 0xbf) then
        '(v, bs) ← field (if w then 8 else 4) bs;
        Some (Bin w MOV (bit8 b (op - 0xb8)) (Imm v), bs)
      else if op =? 0xc3 then Some (Ret, bs)
      else if op =? 0xe9 then '(v, bs) ← field 4 bs; Some (Jmp (as_i 32 v), bs)
      else decode_modrm w r b op bs
  end.

(** The instruction at the head of [bs] and the bytes after it. *)
Definition decode (bs : list byte) : option (instruction * list byte) :=
  match bs with
  | [] => None
  | p :: bs' =>
      if is_rex p then decode_opcode (Z.testbit p 3) (Z.testbit p 2) (Z.testbit p 0) bs'
      else decode_opcode false false false bs
  end.

(** ** Execution *)
Record Flags := mkFlags { CF : bool; ZF : bool; SF : bool; OF : bool }.
Record machine := mkMachine {
  xr : Z -> Z;
  flags : option Flags;
  rip : Z;
  mem : HostMemory
}.

Definition width (w : bool) : Z := if w then 64 else 32.
Definition upd (r v : Z) (f : Z -> Z) : Z -> Z := fun q => if q =? r then v else f q.
Definition with_xr (f : Z -> Z) (s : machine) : machine := mkMachine f (flags s) (rip s) (mem s).
Definition with_flags (f : option Flags) (s : machine) : machine := mkMachine (xr s) f (rip s) (mem s).
Definition with_rip (a : Z) (s : machine) : machine := mkMachine (xr s) (flags s) a (mem s).
Definition with_mem (m : HostMemory) (s : machine) : machine := mkMachine (xr s) (flags s) (rip s) m.

Definition RSP_ : Z := 4.

(** Reading an operand at width [w]; writing a register at width [w]. *)
Definition value (w : bool) (s : machine) (o : operand) : Z :=
  as_u (width w) (match o with Reg r => xr s r | Imm v => v end).
Definition write (w : bool) (d v : Z) (s : machine) : machine := with_xr (upd d (as_u (width w) v) (xr s)) s.

Definition sign_bit (n v : Z) : bool := Z.testbit v (n - 1).
Definition logic_flags (n v : Z) : Flags := mkFlags false (v =? 0) (sign_bit n v) false.
Definition outside (n z : Z) : bool := (z <? - 2 ^ (n - 1)) || (2 ^ (n - 1) - 1 <? z).
Definition add_flags (n a b : Z) : Flags :=
  let v := as_u n (a + b) in
  mkFlags (2 ^ n <=? a + b) (v =? 0) (sign_bit n v) (outside n (as_i n a + as_i n b)).
Definition sub_flags (n a b : Z) : Flags :=
  let v := as_u n (a - b) in
  mkFlags (a <? b) (v =? 0) (sign_bit n v) (outside n (as_i n a - as_i n b)).

(** The result of a two-operand instruction: the value written to the
    destination, if any, and the flags, if changed. *)
Definition binop_result (n : Z) (op : binop) (a b : Z) : option Z * option Flags :=
  match op with
  | ADD => (Some (as_u n (a + b)), Some (add_flags n a b))
  | SUB => (Some (as_u n (a - b)), Some (sub_flags n a b))
  | CMP => (None, Some (sub_flags n a b))
  | AND => (Some (Z.land a b), Some (logic_flags n (Z.land a b)))
  | OR => (Some (Z.lor a b), Some (logic_flags n (Z.lor a b)))
  | XOR => (Some (Z.lxor a b), Some (logic_flags n (Z.lxor a b)))
  | TEST => (None, Some (logic_flags n (Z.land a b)))
  | MOV => (Some b, None)
  end.

(** The count is the low byte, masked to the operand size. *)
Definition shift_result (n : Z) (op : shiftop) (a count : Z) : Z :=
  let c := (count mod 256) mod n in
  match op with
  | SHL => as_u n (Z.shiftl a c)
  | SHR => Z.shiftr a c
  | SAR => as_u n (Z.shiftr (as_i n a) c)
  end.

(** Condition codes; those on the parity flag are left out. *)
Definition condition (cc : Z) (f : Flags) : option bool :=
  if cc =? 0x82 then Some (CF f)
  else if cc =? 0x83 then Some (negb (CF f))
  else if cc =? 0x84 then Some (ZF f)
  else if cc =? 0x85 then Some (negb (ZF f))
  else if cc =? 0x86 then Some (CF f || ZF f)
  else if cc =? 0x87 then Some (negb (CF f || ZF f))
  else if cc =? 0x8c then Some (negb (Bool.eqb (SF f) (OF f)))
  else if cc =? 0x8d then Some (Bool.eqb (SF f) (OF f))
  else if cc =? 0x8e then Some (ZF f || negb (Bool.eqb (SF f) (OF f)))
  else if cc =? 0x8f then Some (negb (ZF f || negb (Bool.eqb (SF f) (OF f))))
  else None.

Definition push_value (v : Z) (s : machine) : option machine :=
  let sp := as_u 64 (xr s RSP_ - 8) in
  m ← write_host (mem s) sp (le_bytes 8 v);
  Some (with_mem m (with_xr (upd RSP_ sp (xr s)) s)).
Definition pop_value (s : machine) : option (Z * machine) :=
  bs ← read_host (mem s) (xr s RSP_) 8;
  Some (le_val bs, with_xr (upd RSP_ (as_u 64 (xr s RSP_ + 8)) (xr s)) s).

(** Execution of one instruction; [rip] already points past it. *)
Definition exec (i : instruction) (s : machine) : option machine :=
  match i with
  | Bin w op d o =>
      let '(v, f) := binop_result (width w) op (value w s (Reg d)) (value w s o) in
      let s := match v with Some v => write w d v s | None => s end in
      Some (match f with Some f => with_flags (Some f) s | None => s end)
  | Shift w op d o =>
      Some (with_flags None
              (write w d (shift_result (width w) op (value w s (Reg d)) (value w s o)) s))
  | Xchg w a b =>
      Some (write w b (value w s (Reg a)) (write w a (value w s (Reg b)) s))
  | Push r => push_value (xr s r) s
  | Pop r =>
      match pop_value s with
      | Some (v, s) => Some (with_xr (upd r v (xr s)) s)
      | None => None
      end
  | Jmp d => Some (with_rip (as_u 64 (rip s + d)) s)
  | Jcc cc d =>
      f ← flags s;
      (fun taken : bool => if taken then with_rip (as_u 64 (rip s + d)) s else s) <$> condition cc f
  | Ret => match pop_value s with Some (v, s) => Some (with_rip v s) | None => None end
  end.

(** One step of the processor on code [text] mapped at [base]. *)
Section Code.
Variables (base : Z) (text : list byte).

Definition cpu_step (s : machine) : option machine :=
  if (base <=? rip s) && (rip s <? base + Z.of_nat (length text)) then
    '(i, rest) ← decode (drop (Z.to_nat (rip s - base)) text);
    exec i (with_rip (base + Z.of_nat (length text) - Z.of_nat (length rest)) s)
  else None.

Fixpoint cpu_steps (n : nat) (s : machine) : option machine :=
  match n with O => Some s | S n => s' ← cpu_step s; cpu_steps n s' end.

Lemma cpu_steps_add n m s s' s'' :
  cpu_steps n s = Some s' -> cpu_steps m s' = Some s'' -> cpu_steps (n + m) s = Some s''.
Proof.
  revert s. induction n as [|n IH]; intros s; simpl; [by intros [= ->]|].
  destruct (cpu_step s); simpl; [apply IH|done].
Qed.
End Code.
