(* ===== verification/X86Decode.v ===== *)
(** * What the encoder emits decodes to the instruction meant

    For every instruction form the compiler uses, on every register and
    immediate, the bytes of [X86.encode] followed by anything decode in the
    reference [X86Isa] to the intended instruction and leave what follows. *)

From stdpp Require Import gmap.
From S2P Require Import Prelude X86 MemoryRegion X86Isa.

(** The general-purpose registers. *)
Definition gprs : list X86Register :=
  [RAX; RCX; RDX; RBX; RSP; RBP; RSI; RDI; R8; R9; R10; R11; R12; R13; R14; R15].
Definition gpr (r : X86Register) : Prop := r ∈ gprs.
Definition wide (sz : OperandSize) : Prop := sz = S32 \/ sz = S64.
Definition w64 (sz : OperandSize) : bool := size_eqb sz S64.

Section Decode.
Context {E : Type} {P : Profile}.

Definition encodes (i : X86Instruction) (x : instruction) : Prop :=
  exists bs, encode (E := E) i = Ok bs /\ forall rest, decode (bs ++ rest) = Some (x, rest).

(** ** Decoding a prefix *)
Lemma field_app n bs v r rest :
  field n bs = Some (v, r) -> field n (bs ++ rest) = Some (v, r ++ rest).
Proof.
  unfold field. destruct (Nat.leb_spec n (length bs)); [|done]. intros [= <- <-].
  rewrite length_app. destruct (Nat.leb_spec n (length bs + length rest)); [|lia].
  by rewrite take_app_le, drop_app_le by lia.
Qed.

Lemma field_le_bytes n v rest :
  field n (le_bytes n v ++ rest) = Some (as_u (8 * Z.of_nat n) v, rest).
Proof.
  unfold field. rewrite length_app, length_le_bytes.
  destruct (Nat.leb_spec n (n + length rest)); [|lia].
  rewrite take_app_length', drop_app_length' by (by rewrite length_le_bytes).
  by rewrite le_val_le_bytes.
Qed.

Ltac step_field :=
  match goal with
  | H : _ ≫= _ = Some _ |- _ => apply bind_Some in H as (? & ? & ?)
  | H : field ?n ?bs = Some (?v, ?r) |- context [field ?n (?bs ++ ?rest)] =>
      rewrite (field_app n bs v r rest H)
  | p : _ * _ |- _ => destruct p
  end.

Lemma decode_modrm_app w r b op bs x rs rest :
  decode_modrm w r b op bs = Some (x, rs) -> decode_modrm w r b op (bs ++ rest) = Some (x, rs ++ rest).
Proof.
  unfold decode_modrm. intros H. destruct bs as [|m bs]; [done|]. cbn [app].
  repeat (case_match; try done); simplify_eq/=; repeat step_field; simplify_eq/=;
    repeat (match goal with E : ?o = Some _ |- context [?o] => rewrite E end); simpl; by repeat step_field.
Qed.

Lemma decode_opcode_app w r b bs x rs rest :
  decode_opcode w r b bs = Some (x, rs) -> decode_opcode w r b (bs ++ rest) = Some (x, rs ++ rest).
Proof.
  unfold decode_opcode. intros H. destruct bs as [|op bs]; [done|]. cbn [app].
  destruct (op =? 0x0f).
  { destruct bs as [|cc bs]; [done|]. cbn [app]. case_match; [|done].
    repeat step_field; simplify_eq/=; repeat step_field; by simpl. }
  repeat (case_match; try done); simplify_eq/=; repeat step_field; simplify_eq/=;
    repeat step_field; simpl; by auto using decode_modrm_app.
Qed.

Lemma decode_app bs x rs rest :
  decode bs = Some (x, rs) -> decode (bs ++ rest) = Some (x, rs ++ rest).
Proof.
  unfold decode. destruct bs as [|p bs]; [done|]. cbn [app].
  destruct (is_rex p); [apply decode_opcode_app|].
  apply (decode_opcode_app _ _ _ (p :: bs)).
Qed.

(** ** Instructions without an immediate, by enumeration *)
Definition decodes_to (i : X86Instruction) (x : instruction) : bool :=
  match encode (E := E) i with
  | Ok bs => bool_decide (decode bs = Some (x, []))
  | _ => false
  end.

Lemma decodes_to_ok i x : decodes_to i x = true -> encodes i x.
Proof.
  unfold decodes_to, encodes. destruct (encode i) as [bs| |]; [|done..].
  intros Hd%bool_decide_eq_true. exists bs. split; [done|]. intros rest.
  by rewrite (decode_app _ _ _ rest Hd).
Qed.

End Decode.

(** [f] holds of both sizes and all pairs of registers. *)
Definition all_operands (f : OperandSize -> X86Register -> X86Register -> bool) : bool :=
  forallb (fun sz => forallb (fun s => forallb (f sz s) gprs) gprs) [S32; S64].

Lemma all_operands_at f sz s d :
  all_operands f = true -> wide sz -> gpr s -> gpr d -> f sz s d = true.
Proof.
  unfold all_operands, wide, gpr. rewrite !list_elem_of_In. intros Hf Hsz Hs Hd.
  rewrite forallb_forall in Hf. specialize (Hf sz ltac:(simpl; intuition)).
  rewrite forallb_forall in Hf. specialize (Hf s Hs).
  rewrite forallb_forall in Hf. exact (Hf d Hd).
Qed.

Section Enumerate.
Context {E : Type} {P : Profile}.
Abbreviation encodes := (encodes (E := E)).

Ltac enumerate f sz s d :=
  apply decodes_to_ok; refine (all_operands_at f sz s d _ _ _ _); try assumption;
  destruct P as [[]]; vm_compute; reflexivity.

(** The two-register forms. *)
Definition rr (sz : OperandSize) (op : Z) (s d : X86Register) : X86Instruction :=
  mkX86 sz 0 op true None (reg_u8 s) (reg_u8 d) S0 0.

Lemma rr_encodes sz op o s d :
  (op, o) ∈ [(0x01, ADD); (0x09, OR); (0x21, AND); (0x29, SUB); (0x31, XOR); (0x39, CMP);
             (0x85, TEST); (0x89, MOV)] ->
  wide sz -> gpr s -> gpr d ->
  encodes (rr sz op s d) (Bin (w64 sz) o (reg_u8 d) (Reg (reg_u8 s))).
Proof.
  intros Ho Hsz Hs Hd.
  repeat (apply elem_of_cons in Ho as [[= -> ->]|Ho];
    [match goal with |- encodes (rr _ ?op _ _) (Bin _ ?o _ _) =>
       enumerate (fun sz s d => decodes_to (E := E) (rr sz op s d) (Bin (w64 sz) o (reg_u8 d) (Reg (reg_u8 s)))) sz s d
     end|]).
  by apply elem_of_nil in Ho.
Qed.

Lemma xchg_encodes sz s d :
  wide sz -> gpr s -> gpr d -> encodes (rr sz 0x87 s d) (Xchg (w64 sz) (reg_u8 d) (reg_u8 s)).
Proof.
  intros. enumerate (fun sz s d => decodes_to (E := E) (rr sz 0x87 s d) (Xchg (w64 sz) (reg_u8 d) (reg_u8 s))) sz s d.
Qed.

(** Shifts by CL. *)
Lemma shift_cl_encodes sz e o d :
  (e, o) ∈ [(4, SHL); (5, SHR); (7, SAR)] -> wide sz -> gpr d ->
  encodes (mkX86 sz 0 0xd3 true None e (reg_u8 d) S0 0) (Shift (w64 sz) o (reg_u8 d) (Reg 1)).
Proof.
  intros Ho Hsz Hd.
  repeat (apply elem_of_cons in Ho as [[= -> ->]|Ho];
    [match goal with |- encodes (mkX86 _ _ _ _ _ ?e _ _ _) (Shift _ ?o _ _) =>
       enumerate (fun sz (_ d : X86Register) => decodes_to (E := E) (mkX86 sz 0 0xd3 true None e (reg_u8 d) S0 0)
                    (Shift (w64 sz) o (reg_u8 d) (Reg 1))) sz d d
     end|]).
  by apply elem_of_nil in Ho.
Qed.

Lemma push_encodes r : gpr r -> encodes (push r None) (Push (reg_u8 r)).
Proof.
  intros. assert (wide S32) by by left.
  enumerate (fun (_ : OperandSize) (_ r : X86Register) =>
               decodes_to (E := E) (push r None) (Push (reg_u8 r))) S32 r r.
Qed.

Lemma pop_encodes r : gpr r -> encodes (pop r) (Pop (reg_u8 r)).
Proof.
  intros. assert (wide S32) by by left.
  enumerate (fun (_ : OperandSize) (_ r : X86Register) =>
               decodes_to (E := E) (pop r) (Pop (reg_u8 r))) S32 r r.
Qed.

Lemma ret_encodes : encodes return_near Ret.
Proof. apply decodes_to_ok. destruct P as [[]]; vm_compute; reflexivity. Qed.
End Enumerate.

(** ** Instructions with an immediate *)
Lemma emit_imm32 v : emit_variable_length S32 (as_u 64 v) = le_bytes 4 v.
Proof.
  unfold emit_variable_length. rewrite take_le_bytes by lia. apply le_bytes_congr.
  apply as_u_as_u. lia.
Qed.

Lemma emit_imm8 v : emit_variable_length S8 (as_u 64 v) = le_bytes 1 v.
Proof.
  unfold emit_variable_length. rewrite take_le_bytes by lia. apply le_bytes_congr.
  apply as_u_as_u. lia.
Qed.

Lemma emit_imm64 v : emit_variable_length S64 (as_u 64 v) = le_bytes 8 v.
Proof. unfold emit_variable_length. apply le_bytes_congr. apply as_u_as_u. lia. Qed.

Section Immediates.
Context {E : Type} {P : Profile}.
Abbreviation encodes := (encodes (E := E)).

(** The bytes before the immediate. *)
Definition head_of (i : X86Instruction) : list byte :=
  match encode (E := E) (mkX86 (size i) (opcode_escape_sequence i) (opcode i) (modrm i) (indirect i)
          (first_operand i) (second_operand i) S0 0) with
  | Ok bs => bs
  | _ => []
  end.

Lemma encode_head i :
  size i <> S0 -> indirect i = None ->
  encode (E := E) i = Ok (head_of i ++ emit_variable_length (immediate_size i) (as_u 64 (immediate i))).
Proof.
  intros Hs Hi. unfold head_of, encode, encode_operands, debug_assert. destruct i as [sz ? ? m ind]; simpl in *.
  subst ind. unfold size_eqb. rewrite (bool_decide_eq_false_2 (sz = S0)) by done. simpl.
  rewrite andb_false_r. destruct m; simpl; by rewrite <- ?app_assoc, ?app_nil_r; simpl.
Qed.

(** An instruction decodes when its head followed by a field does. *)
Lemma encodes_imm i n (x : Z -> instruction) :
  size i <> S0 -> indirect i = None ->
  emit_variable_length (immediate_size i) (as_u 64 (immediate i)) = le_bytes n (immediate i) ->
  (forall rest, decode (head_of i ++ rest) = '(v, bs) ← field n rest; Some (x v, bs)) ->
  encodes i (x (as_u (8 * Z.of_nat n) (immediate i))).
Proof.
  intros Hs Hi Hn Hd. eexists. split; [by apply encode_head|]. intros rest.
  by rewrite <- app_assoc, Hd, Hn, field_le_bytes.
Qed.
End Immediates.

Section Emitted.
Context {E : Type} {P : Profile}.
Abbreviation encodes := (encodes (E := E)).

(** Case analysis on the size and the register, then computation. *)
Ltac by_cases Hsz Hd :=
  destruct P as [[]]; destruct Hsz as [-> | ->];
  repeat (apply elem_of_cons in Hd as [->|Hd]; [with_strategy opaque [field] reflexivity|]);
  by apply elem_of_nil in Hd.

Lemma alu_imm_encodes sz e o d v :
  (e, o) ∈ [(0, ADD); (1, OR); (4, AND); (5, SUB); (6, XOR); (7, CMP)] -> wide sz -> gpr d ->
  encodes (mkX86 sz 0 0x81 true None e (reg_u8 d) S32 v) (Bin (w64 sz) o (reg_u8 d) (Imm (as_i 32 v))).
Proof.
  intros Ho Hsz Hd. rewrite <- as_i_as_u by lia.
  apply (encodes_imm (mkX86 sz 0 0x81 true None e (reg_u8 d) S32 v) 4
           (fun v => Bin (w64 sz) o (reg_u8 d) (Imm (as_i 32 v)))); [|done|apply emit_imm32|].
  { by destruct Hsz as [-> | ->]. }
  intros rest. repeat (apply elem_of_cons in Ho as [[= -> ->]|Ho]; [by_cases Hsz Hd|]).
  by apply elem_of_nil in Ho.
Qed.

Lemma test_imm_encodes sz d v :
  wide sz -> gpr d ->
  encodes (mkX86 sz 0 0xf7 true None 0 (reg_u8 d) S32 v) (Bin (w64 sz) TEST (reg_u8 d) (Imm (as_i 32 v))).
Proof.
  intros Hsz Hd. rewrite <- as_i_as_u by lia.
  apply (encodes_imm (mkX86 sz 0 0xf7 true None 0 (reg_u8 d) S32 v) 4
           (fun v => Bin (w64 sz) TEST (reg_u8 d) (Imm (as_i 32 v)))); [|done|apply emit_imm32|].
  { by destruct Hsz as [-> | ->]. }
  intros rest. by_cases Hsz Hd.
Qed.

Lemma shift_imm_encodes sz e o d v :
  (e, o) ∈ [(4, SHL); (5, SHR); (7, SAR)] -> wide sz -> gpr d ->
  encodes (mkX86 sz 0 0xc1 true None e (reg_u8 d) S8 v) (Shift (w64 sz) o (reg_u8 d) (Imm (as_u 8 v))).
Proof.
  intros Ho Hsz Hd.
  apply (encodes_imm (mkX86 sz 0 0xc1 true None e (reg_u8 d) S8 v) 1
           (fun v => Shift (w64 sz) o (reg_u8 d) (Imm v))); [|done|apply emit_imm8|].
  { by destruct Hsz as [-> | ->]. }
  intros rest. repeat (apply elem_of_cons in Ho as [[= -> ->]|Ho]; [by_cases Hsz Hd|]).
  by apply elem_of_nil in Ho.
Qed.

(** [load_immediate] picks one of three forms; each moves the 64-bit value. *)
Definition loads (d v : Z) (x : instruction) : Prop :=
  exists w v', x = Bin w MOV d (Imm v') /\ as_u (width w) v' = as_u 64 v.

Lemma load_immediate_encodes d v :
  is_i 64 v -> gpr d -> exists x, loads (reg_u8 d) v x /\ encodes (load_immediate d v) x.
Proof.
  intros Hv Hd. unfold load_immediate.
  assert (Hshort : forall sz, wide sz ->
    encodes (mkX86 sz 0 (Z.lor 0xb8 (Z.land (reg_u8 d) 7)) false None 0 (reg_u8 d) sz v)
      (Bin (w64 sz) MOV (reg_u8 d) (Imm (as_u (8 * Z.of_nat (if w64 sz then 8 else 4)) v)))).
  { intros sz Hsz.
    apply (encodes_imm (mkX86 sz 0 (Z.lor 0xb8 (Z.land (reg_u8 d) 7)) false None 0 (reg_u8 d) sz v)
             (if w64 sz then 8%nat else 4%nat) (fun v => Bin (w64 sz) MOV (reg_u8 d) (Imm v)));
      [by destruct Hsz as [-> | ->]|done| |].
    - destruct Hsz as [-> | ->]; [apply emit_imm32|apply emit_imm64].
    - intros rest. by_cases Hsz Hd. }
  assert (Hlong : encodes (mkX86 S64 0 (Z.lor 0xb8 (Z.land (reg_u8 d) 7)) false None 0 (reg_u8 d) S64 v)
                    (Bin true MOV (reg_u8 d) (Imm (as_u 64 v)))).
  { apply (Hshort S64). by right. }
  assert (Hloads : loads (reg_u8 d) v (Bin true MOV (reg_u8 d) (Imm (as_u 64 v)))).
  { exists true, (as_u 64 v). split; [done|]. apply as_u_as_u. simpl. lia. }
  unfold is_i in Hv. destruct (Z.leb_spec 0 v); [|destruct (Z.leb_spec i32_min v)].
  - destruct (Z.leb_spec v u32_max); [|by eauto]. eexists. split; [|apply (Hshort S32); by left].
    exists false, (as_u 32 v). split; [done|]. unfold u32_max in *. simpl width.
    rewrite as_u_as_u by lia. rewrite !as_u_small by (unfold is_u; lia). done.
  - eexists. split; [exists true, (as_i 32 v); split; [reflexivity|]|].
    { simpl width. unfold i32_min in *. by rewrite as_i_small by (unfold is_i; lia). }
    rewrite <- as_i_as_u by lia.
    apply (encodes_imm (mkX86 S64 0 0xc7 true None 0 (reg_u8 d) S32 v) 4
             (fun v => Bin true MOV (reg_u8 d) (Imm (as_i 32 v)))); [done|done|apply emit_imm32|].
    intros rest.
    destruct P as [[]]; repeat (apply elem_of_cons in Hd as [->|Hd]; [with_strategy opaque [field] reflexivity|]);
      by apply elem_of_nil in Hd.
  - by eauto.
Qed.

(** Jumps. *)
Lemma decode_jmp d rest : is_i 32 d -> decode ([0xe9] ++ le_bytes 4 d ++ rest) = Some (Jmp d, rest).
Proof.
  intros Hd. cbn -[field le_bytes]. rewrite field_le_bytes. cbn [mbind option_bind].
  by rewrite as_i_as_u, as_i_small by (done || lia).
Qed.
End Emitted.
