(* ===== verification/JitSim.v ===== *)
(** * The compiled code computes what its source means

    A reference semantics of [JitInstruction] on the eleven sBPF registers, and
    the relation between those registers and the processor of [X86Isa].

    A forward simulation: the bytes [Jit.compile] produces, decoded and run by
    the processor of [X86Isa], do to the mapped registers what [jit_step] does
    to the sBPF registers, instruction by instruction, until [Return]. *)

From stdpp Require Import gmap.
From S2P Require Import Prelude Ebpf X86 Jit JitLayout MemoryRegion MappingFacts X86Isa X86Decode.

(** ** Reference semantics *)
Definition bits (sz : OperandSize) : Z := width (w64 sz).

Definition alu_value (n : Z) (op : AluOperation) (a b : Z) : Z :=
  as_u n (match op with
          | Add => a + b
          | Subtract => a - b
          | Or => Z.lor a b
          | And => Z.land a b
          | Xor => Z.lxor a b
          end).

Definition shift_value (n : Z) (op : ShiftOperation) (a c : Z) : Z :=
  as_u n (match op with
          | Left => Z.shiftl a (c mod n)
          | Right => Z.shiftr (as_u n a) (c mod n)
          | ArithmeticRight => Z.shiftr (as_i n a) (c mod n)
          end).

Definition compare (n : Z) (c : JumpCondition) (a b : Z) : bool :=
  match c with
  | Equal => as_u n a =? as_u n b
  | NotEqual => negb (as_u n a =? as_u n b)
  | Greater => as_u n b <? as_u n a
  | GreaterOrEqual => as_u n b <=? as_u n a
  | Less => as_u n a <? as_u n b
  | LessOrEqual => as_u n a <=? as_u n b
  | SignedGreater => as_i n b <? as_i n a
  | SignedGreaterOrEqual => as_i n b <=? as_i n a
  | SignedLess => as_i n a <? as_i n b
  | SignedLessOrEqual => as_i n a <=? as_i n b
  end.

Definition bits_common (n a b : Z) : bool := negb (Z.land (as_u n a) (as_u n b) =? 0).

(** Where control goes after an instruction. *)
Inductive next := Fall | Goto (t : Z) | Finish.

Definition branch_if (b : bool) (t : Z) : next := if b then Goto t else Fall.

(** The registers after one instruction and where control goes; [None] on a
    register that does not exist. *)
Definition jit_step (i : JitInstruction) (r : list Z) : option (list Z * next) :=
  match i with
  | LoadImmediate sz d v => (fun r => (r, Fall)) <$> set r d (as_u (bits sz) v)
  | MoveRegister sz s d => x ← get r s; (fun r => (r, Fall)) <$> set r d (as_u (bits sz) x)
  | AluImmediate sz op d v =>
      a ← get r d; (fun r => (r, Fall)) <$> set r d (alu_value (bits sz) op a v)
  | AluRegister sz op s d =>
      a ← get r d; b ← get r s; (fun r => (r, Fall)) <$> set r d (alu_value (bits sz) op a b)
  | ShiftImmediate sz op d n =>
      a ← get r d; (fun r => (r, Fall)) <$> set r d (shift_value (bits sz) op a n)
  | ShiftRegister sz op s d =>
      a ← get r d; b ← get r s; (fun r => (r, Fall)) <$> set r d (shift_value (bits sz) op a b)
  | Jump t => Some (r, Goto t)
  | JumpImmediate sz c d v t => a ← get r d; Some (r, branch_if (compare (bits sz) c a v) t)
  | JumpRegister sz c s d t =>
      a ← get r d; b ← get r s; Some (r, branch_if (compare (bits sz) c a b) t)
  | JumpTestImmediate sz d v t => a ← get r d; Some (r, branch_if (bits_common (bits sz) a v) t)
  | JumpTestRegister sz s d t =>
      a ← get r d; b ← get r s; Some (r, branch_if (bits_common (bits sz) a b) t)
  | Return => Some (r, Finish)
  end.

(** Execution from [pc] until [Return], with the registers it returns. *)
Fixpoint jit_run (fuel : nat) (program : list JitInstruction) (pc : Z) (r : list Z)
    : option (list Z) :=
  match fuel with
  | O => None
  | S fuel =>
      i ← get program pc;
      '(r, nx) ← jit_step i r;
      match nx with
      | Fall => jit_run fuel program (pc + 1) r
      | Goto t => jit_run fuel program t r
      | Finish => Some r
      end
  end.

(** The instructions the semantics speaks of: 32-bit and 64-bit operands,
    immediates of their Rust type, and comparisons whose immediate fits the 32
    bits of the encoding. *)
Definition supported (i : JitInstruction) : Prop :=
  match i with
  | LoadImmediate sz _ v | AluImmediate sz _ _ v => wide sz /\ is_i 64 v
  | MoveRegister sz _ _ | AluRegister sz _ _ _ | ShiftRegister sz _ _ _
  | JumpRegister sz _ _ _ _ | JumpTestRegister sz _ _ _ => wide sz
  | ShiftImmediate sz _ _ n => wide sz /\ is_u 8 n
  | JumpImmediate sz _ _ v _ | JumpTestImmediate sz _ v _ => wide sz /\ is_i 32 v
  | Jump _ | Return => True
  end.

(** ** The register map *)
Lemma mapped_cases d g :
  mapped_register d = Ok g ->
  (d, g) ∈ [(0, RAX); (1, RSI); (2, RDX); (3, RCX); (4, R8); (5, R9); (6, RBX); (7, R12);
            (8, R13); (9, R14); (10, R15)].
Proof.
  unfold mapped_register. destruct (get REGISTER_MAP d) as [x|] eqn:Hg; [|done]. intros [= ->].
  pose proof (get_Some_lt _ _ _ Hg) as Hd. simpl in Hd.
  assert (d = 0 \/ d = 1 \/ d = 2 \/ d = 3 \/ d = 4 \/ d = 5 \/ d = 6 \/ d = 7 \/ d = 8 \/ d = 9 \/ d = 10)
    as Hcase by lia.
  repeat destruct Hcase as [->|Hcase]; [..|subst]; vm_compute in Hg; injection Hg as <-;
    repeat (apply list_elem_of_here || apply list_elem_of_further).
Qed.

Ltac each_mapped H :=
  apply mapped_cases in H; repeat (apply elem_of_cons in H as [[= -> ->]|H]; [|]);
  [..|by apply elem_of_nil in H].

Lemma mapped_range d g : mapped_register d = Ok g -> 0 <= d < 11.
Proof. intros H. each_mapped H; lia. Qed.

Lemma mapped_gpr d g : mapped_register d = Ok g -> gpr g.
Proof.
  intros H. unfold gpr. each_mapped H; repeat (apply list_elem_of_here || apply list_elem_of_further).
Qed.

Lemma mapped_not_rsp d g : mapped_register d = Ok g -> reg_u8 g <> RSP_ /\ reg_u8 g <> 11.
Proof. intros H. by each_mapped H. Qed.

Lemma mapped_inj d d' g g' :
  mapped_register d = Ok g -> mapped_register d' = Ok g' -> reg_u8 g = reg_u8 g' -> d = d' /\ g = g'.
Proof. intros H H'. each_mapped H; by each_mapped H'. Qed.

(** ** Registers and stack of the processor

    The processor runs on a stack whose pointer is [sp] between instructions;
    the compiled code may use the eight bytes below it and leaves the rest of
    memory as it found it ([m0]). *)
Section Relation.
Variables (sp : Z) (m0 : HostMemory).

Record related (r : list Z) (s : machine) : Prop := {
  related_len : length r = 11%nat;
  related_u64 : Forall (is_u 64) r;
  related_regs : forall d g x, mapped_register d = Ok g -> get r d = Some x -> xr s (reg_u8 g) = x;
  related_sp : xr s RSP_ = sp;
  related_mem : forall a, a < sp - 8 \/ sp <= a -> mem s !! a = m0 !! a;
  related_room : backed (mem s) (sp - 8) 8
}.

Lemma related_get r s d g :
  related r s -> mapped_register d = Ok g ->
  exists x, get r d = Some x /\ xr s (reg_u8 g) = x /\ is_u 64 x.
Proof.
  intros Hr Hg. pose proof (mapped_range _ _ Hg) as Hd.
  destruct (get_Some r d) as [x Hx]; [rewrite (related_len _ _ Hr); lia|].
  exists x. split_and!; [done|by eapply related_regs|].
  unfold get in Hx. destruct (d <? 0); [done|].
  by eapply (Forall_lookup_1 (is_u 64)), Hx; apply related_u64 in Hr.
Qed.

(** Writing one sBPF register: the other mapped registers and the stack pointer
    keep their values, memory outside the scratch slot too. *)
Lemma related_write r s s' d g v :
  related r s -> mapped_register d = Ok g -> is_u 64 v ->
  xr s' (reg_u8 g) = v ->
  (forall d' g', mapped_register d' = Ok g' -> d' <> d -> xr s' (reg_u8 g') = xr s (reg_u8 g')) ->
  xr s' RSP_ = sp ->
  (forall a, a < sp - 8 \/ sp <= a -> mem s' !! a = mem s !! a) ->
  backed (mem s') (sp - 8) 8 ->
  exists r', set r d v = Some r' /\ related r' s'.
Proof.
  intros Hr Hg Hv Hd Hother Hsp Hm Hb. pose proof (mapped_range _ _ Hg) as Hrange.
  rewrite set_Some by (rewrite (related_len _ _ Hr); lia). eexists. split; [done|]. split.
  - rewrite length_insert. by apply related_len in Hr.
  - apply Forall_insert; [by apply related_u64 in Hr|done].
  - intros d' g' x Hg' Hx. destruct (decide (d' = d)) as [->|Hne].
    + unfold get in Hx. destruct (Z.ltb_spec d 0); [lia|].
      rewrite list_lookup_insert_eq in Hx by (rewrite (related_len _ _ Hr); lia).
      injection Hx as <-. assert (g' = g) as -> by congruence. done.
    + rewrite (Hother d' g') by done. eapply related_regs; [done..|]. unfold get in *.
      pose proof (mapped_range _ _ Hg'). destruct (Z.ltb_spec d' 0); [lia|].
      rewrite list_lookup_insert_ne in Hx by lia. done.
  - done.
  - intros a Ha. rewrite Hm by done. by eapply related_mem.
  - done.
Qed.

(** A step that changes flags and unmapped registers only. *)
Lemma related_same r s s' :
  related r s -> (forall q, q <> 11 -> xr s' q = xr s q) -> mem s' = mem s -> related r s'.
Proof.
  intros [] Hq Hm. split; try done.
  - intros d g x Hg Hx. rewrite Hq; [eauto|]. by eapply mapped_not_rsp.
  - by rewrite Hq.
  - by rewrite Hm.
  - by rewrite Hm.
Qed.
End Relation.

(** ** Flags and conditions *)
Lemma sign_bit_spec n v : 0 < n -> is_u n v -> sign_bit n v = (2 ^ (n - 1) <=? v).
Proof.
  intros Hn Hv. unfold sign_bit, is_u in *. pose proof (pow2_pred n Hn).
  rewrite Z.testbit_odd, Z.shiftr_div_pow2 by lia.
  destruct (Z.leb_spec (2 ^ (n - 1)) v).
  - assert (v / 2 ^ (n - 1) = 1) as ->; [|done]. symmetry. apply (Z.div_unique_pos _ _ 1 (v - 2 ^ (n - 1))); lia.
  - by rewrite Z.div_small by lia.
Qed.

Lemma as_u_sub n a b : is_u n a -> is_u n b -> as_u n (a - b) = if b <=? a then a - b else a - b + 2 ^ n.
Proof.
  unfold is_u, as_u. intros. destruct (Z.leb_spec b a).
  - apply Z.mod_small. lia.
  - symmetry. apply (Z.mod_unique_pos _ _ (-1)); lia.
Qed.

Lemma as_i_u n a : 0 < n -> is_u n a -> as_i n a = if a <? 2 ^ (n - 1) then a else a - 2 ^ n.
Proof. intros Hn Ha. unfold as_i. by rewrite Z.mod_small. Qed.

(** After a comparison, the condition the compiler picks decides the test. *)
Lemma condition_compare n c a b :
  0 < n -> condition (jump_opcode c) (sub_flags n (as_u n a) (as_u n b)) = Some (compare n c a b).
Proof.
  intros Hn. pose proof (as_u_range n a ltac:(lia)) as Ha. pose proof (as_u_range n b ltac:(lia)) as Hb.
  assert (Hab : is_u n (as_u n (as_u n a - as_u n b))) by (apply as_u_range; lia).
  unfold compare. rewrite <- (as_i_as_u n a), <- (as_i_as_u n b) by done.
  unfold sub_flags. rewrite (sign_bit_spec n _ Hn Hab).
  revert Hab. rewrite (as_u_sub n _ _ Ha Hb), (as_i_u n _ Hn Ha), (as_i_u n _ Hn Hb). unfold outside.
  pose proof (pow2_pred n Hn) as Hp. pose proof (pow2_pos (n - 1) ltac:(lia)). unfold is_u in *.
  generalize dependent (as_u n a). generalize dependent (as_u n b). intros y Hy x Hx Hab.
  generalize dependent (2 ^ (n - 1)). intros p Hp Hpos. rewrite Hp in *. clear Hp.
  destruct (Z.ltb_spec x p), (Z.ltb_spec y p), (Z.leb_spec y x); destruct c; cbn; f_equal;
    repeat match goal with
    | |- context [?a <=? ?b] => destruct (Z.leb_spec a b)
    | |- context [?a <? ?b] => destruct (Z.ltb_spec a b)
    | |- context [?a =? ?b] => destruct (Z.eqb_spec a b)
    end; simpl; try reflexivity; lia.
Qed.

Lemma condition_test n a b :
  condition (jump_opcode NotEqual) (logic_flags n (Z.land (as_u n a) (as_u n b))) = Some (bits_common n a b).
Proof. reflexivity. Qed.

(** ** Values *)
Lemma as_u_bits n a i : 0 <= n -> 0 <= i -> Z.testbit (as_u n a) i = (i <? n) && Z.testbit a i.
Proof.
  intros Hn Hi. unfold as_u. destruct (Z.ltb_spec i n).
  - by rewrite Z.mod_pow2_bits_low by lia.
  - by rewrite Z.mod_pow2_bits_high by lia.
Qed.

Ltac by_bits n := intros Hn; apply Z.bits_inj'; intros i Hi;
  rewrite !as_u_bits, ?Z.lor_spec, ?Z.land_spec, ?Z.lxor_spec, ?as_u_bits by done;
  destruct (i <? n); simpl; done || by rewrite ?andb_false_r.

Lemma as_u_lor n a b : 0 <= n -> as_u n (Z.lor (as_u n a) (as_u n b)) = as_u n (Z.lor a b).
Proof. by_bits n. Qed.
Lemma as_u_land n a b : 0 <= n -> as_u n (Z.land (as_u n a) (as_u n b)) = as_u n (Z.land a b).
Proof. by_bits n. Qed.
Lemma as_u_lxor n a b : 0 <= n -> as_u n (Z.lxor (as_u n a) (as_u n b)) = as_u n (Z.lxor a b).
Proof. by_bits n. Qed.

Lemma as_u_add n a b : 0 <= n -> as_u n (as_u n a + as_u n b) = as_u n (a + b).
Proof. intros. unfold as_u. symmetry. apply Zplus_mod. Qed.
Lemma as_u_sub_idem n a b : 0 <= n -> as_u n (as_u n a - as_u n b) = as_u n (a - b).
Proof. intros. unfold as_u. symmetry. apply Zminus_mod. Qed.
Lemma as_u_idem n a : 0 <= n -> as_u n (as_u n a) = as_u n a.
Proof. intros. apply as_u_as_u. lia. Qed.

Lemma width_pos w : 0 < width w <= 64.
Proof. by destruct w. Qed.

(** The operation an ALU opcode and its extension stand for. *)
Definition alu_binop (op : AluOperation) : binop :=
  match op with Add => ADD | Subtract => SUB | Or => OR | And => AND | Xor => XOR end.
Definition shift_shiftop (op : ShiftOperation) : shiftop :=
  match op with Left => SHL | Right => SHR | ArithmeticRight => SAR end.

Lemma binop_alu n op a b :
  0 <= n -> exists v, (binop_result n (alu_binop op) (as_u n a) (as_u n b)).1 = Some v /\
    as_u n v = alu_value n op a b.
Proof.
  intros Hn. unfold alu_value.
  destruct op; eexists; (split; [reflexivity|]); rewrite ?as_u_idem by done;
    auto using as_u_add, as_u_sub_idem, as_u_lor, as_u_land, as_u_lxor.
Qed.

(** The processor's count is the low byte masked to the width. *)
Lemma count_mask w c : (as_u (width w) c mod 256) mod width w = c mod width w.
Proof.
  unfold as_u. rewrite !Z.mod_mod_divide; [done|..]; destruct w; simpl; apply Z.mod_divide; done.
Qed.

Lemma shiftop_shift w op a c :
  as_u (width w) (shift_result (width w) (shift_shiftop op) (as_u (width w) a) (as_u (width w) c)) =
    shift_value (width w) op a c.
Proof.
  unfold shift_result, shift_value. rewrite count_mask. pose proof (width_pos w).
  pose proof (Z.mod_pos_bound c (width w) ltac:(lia)).
  destruct op; simpl; rewrite ?as_u_idem by lia; rewrite ?as_i_as_u by lia; try done.
  rewrite !Z.shiftl_mul_pow2 by lia. unfold as_u. by rewrite Z.mul_mod_idemp_l by lia.
Qed.

(** Only the low bits of the operands matter. *)
Lemma shift_value_low n op a c :
  n = 32 \/ n = 64 -> shift_value n op (as_u n a) (as_u n c) = shift_value n op a c.
Proof.
  intros Hn. pose proof (shiftop_shift (n =? 64) op a c) as H.
  pose proof (shiftop_shift (n =? 64) op (as_u n a) (as_u n c)) as H'.
  assert (Hw : width (n =? 64) = n) by (destruct Hn as [-> | ->]; done). rewrite Hw in *.
  rewrite !as_u_idem in H' by lia. by rewrite <- H, <- H'.
Qed.

(** ** Straight-line code *)
Fixpoint exec_all (l : list instruction) (s : machine) : option machine :=
  match l with [] => Some s | i :: l => exec i s ≫= exec_all l end.

Definition straight (i : instruction) : bool :=
  match i with Jmp _ | Jcc _ _ | Ret => false | _ => true end.

Lemma exec_with_rip i a s : straight i = true -> exec i (with_rip a s) = with_rip a <$> exec i s.
Proof.
  destruct i; try done; intros _; cbn [exec]; try done.
  - unfold value. simpl. destruct (binop_result _ _ _ _) as [[] []]; done.
  - unfold push_value. cbn -[write_host le_bytes]. by destruct (write_host (mem s) _ _).
  - unfold pop_value. cbn -[read_host le_val]. by destruct (read_host (mem s) _ _).
Qed.

Lemma exec_all_with_rip l a s :
  Forall (fun x => straight x = true) l -> exec_all l (with_rip a s) = with_rip a <$> exec_all l s.
Proof.
  intros Hl. revert s. induction Hl as [|i l Hi _ IH]; intros s; simpl; [done|].
  rewrite exec_with_rip by done. by destruct (exec i s); simpl.
Qed.

Section Text.
Context {P : Profile}.
Variables (base : Z) (text : list byte).
Abbreviation encodes := (encodes (E := JitModelError)).

Lemma cpu_step_at pre bs post x s :
  text = pre ++ bs ++ post -> (forall rest, decode (bs ++ rest) = Some (x, rest)) ->
  rip s = base + Z.of_nat (length pre) ->
  cpu_step base text s = exec x (with_rip (base + Z.of_nat (length pre) + Z.of_nat (length bs)) s).
Proof.
  intros Ht Hd Hrip. unfold cpu_step. rewrite Hrip.
  assert (bs <> []) as Hbs by (intros ->; specialize (Hd []); done).
  assert (0 < length bs)%nat by (destruct bs; [done|simpl; lia]).
  rewrite Ht, !length_app.
  destruct (Z.leb_spec base (base + Z.of_nat (length pre))); [|lia].
  destruct (Z.ltb_spec (base + Z.of_nat (length pre))
              (base + Z.of_nat (length pre + (length bs + length post)))); [|lia]. simpl.
  replace (Z.to_nat (base + Z.of_nat (length pre) - base)) with (length pre) by lia.
  rewrite drop_app_length, Hd. simpl. do 2 f_equal. lia.
Qed.

Lemma cpu_steps_all ins xs bs pre post s s' :
  Forall2 encodes ins xs -> encode_all ins = Ok bs -> Forall (fun x => straight x = true) xs ->
  text = pre ++ bs ++ post -> rip s = base + Z.of_nat (length pre) -> exec_all xs s = Some s' ->
  exists n, cpu_steps base text n s =
    Some (with_rip (base + Z.of_nat (length pre) + Z.of_nat (length bs)) s').
Proof.
  intros His. revert bs pre s s'. induction His as [|i x ins xs (b & Hb & Hd) _ IH];
    intros bs pre s s' Hbs Hx Ht Hrip Hexec; simpl in *.
  - injection Hbs as <-. injection Hexec as <-. exists O. simpl. f_equal. rewrite Z.add_0_r, <- Hrip. by destruct s.
  - rewrite Hb in Hbs. simpl in Hbs. destruct (encode_all ins) as [bs'| |] eqn:Hbs'; [|done..].
    injection Hbs as <-. apply Forall_cons in Hx as [Hx Hxs].
    apply bind_Some in Hexec as (s1 & Hs1 & Hexec).
    assert (Hstep := cpu_step_at pre b (bs' ++ post) x s ltac:(by rewrite Ht, <- !app_assoc) Hd Hrip).
    rewrite exec_with_rip, Hs1 in Hstep by done. simpl in Hstep.
    destruct (IH bs' (pre ++ b) (with_rip (base + Z.of_nat (length (pre ++ b))) s1)
                (with_rip (base + Z.of_nat (length (pre ++ b))) s')) as [n Hn]; try done.
    { by rewrite Ht, <- !app_assoc. }
    { rewrite exec_all_with_rip, Hexec by done. reflexivity. }
    exists (S n). simpl. rewrite Hstep. simpl. rewrite length_app, Nat2Z.inj_add, Z.add_assoc in Hn.
    rewrite Hn. f_equal. unfold with_rip. simpl. f_equal. rewrite length_app. lia.
Qed.
End Text.

(** ** Effects on the related state *)
Section Effects.
Variables (sp : Z) (m0 : HostMemory).
Hypothesis sp_range : 8 <= sp < 2 ^ 64 - 8.
Abbreviation related := (related sp m0).

Lemma as_u_width_64 w v : is_u 64 (as_u (width w) v).
Proof. apply (is_u_mono (width w)); [destruct w; simpl; lia|]. apply as_u_range. destruct w; simpl; lia. Qed.

(** Writing a mapped register at width [w]. *)
Lemma related_update r s s' d g w v :
  related r s -> mapped_register d = Ok g ->
  xr s' = upd (reg_u8 g) (as_u (width w) v) (xr s) -> mem s' = mem s ->
  exists r', set r d (as_u (width w) v) = Some r' /\ related r' s'.
Proof.
  intros Hr Hg Hx Hm. destruct (mapped_not_rsp _ _ Hg).
  apply (related_write sp m0 r s s' d g); try done; rewrite ?Hx, ?Hm; unfold upd.
  - apply as_u_width_64.
  - by rewrite Z.eqb_refl.
  - intros d' g' Hg' Hne. destruct (Z.eqb_spec (reg_u8 g') (reg_u8 g)) as [He|]; [|done].
    by destruct (mapped_inj _ _ _ _ Hg' Hg He).
  - destruct (Z.eqb_spec RSP_ (reg_u8 g)); [congruence|]. by apply related_sp in Hr.
  - done.
  - by apply related_room in Hr.
Qed.

Lemma bin_write r s d g w op o v :
  related r s -> mapped_register d = Ok g ->
  (binop_result (width w) op (value w s (Reg (reg_u8 g))) (value w s o)).1 = Some v ->
  exists s' r', exec (Bin w op (reg_u8 g) o) s = Some s' /\
    set r d (as_u (width w) v) = Some r' /\ related r' s'.
Proof.
  intros Hr Hg Hv. cbn [exec]. destruct (binop_result _ _ _ _) as [v' f]. simpl in Hv. subst v'.
  set (s' := match f with Some _ => _ | None => _ end).
  destruct (related_update r s s' d g w v) as (r' & Hset & Hr'); [done|done|by destruct f..|eauto].
Qed.

(** Instructions that only set flags. *)
Lemma bin_flags r s g w op o :
  related r s -> op = CMP \/ op = TEST ->
  exists s' f, exec (Bin w op g o) s = Some s' /\ flags s' = Some f /\
    (binop_result (width w) op (value w s (Reg g)) (value w s o)).2 = Some f /\ related r s'.
Proof.
  intros Hr [-> | ->]; cbn [exec binop_result]; do 2 eexists; (split_and!; [done..|]);
    by apply (related_same sp m0 r s).
Qed.

Lemma shift_write r s d g w op o :
  related r s -> mapped_register d = Ok g ->
  exists s' r', exec (Shift w op (reg_u8 g) o) s = Some s' /\
    set r d (as_u (width w) (shift_result (width w) op (value w s (Reg (reg_u8 g))) (value w s o))) = Some r' /\
    related r' s'.
Proof.
  intros Hr Hg. cbn [exec]. set (s' := with_flags _ _).
  edestruct (related_update r s s' d g w) as (r' & Hset & Hr'); [done|done|done|done|eauto].
Qed.

(** ** Push and pop *)
Lemma exec_push r s q :
  related r s ->
  exists m, exec (Push q) s = Some (with_mem m (with_xr (upd RSP_ (sp - 8) (xr s)) s)) /\
    read_host m (sp - 8) 8 = Some (le_bytes 8 (xr s q)) /\ backed m (sp - 8) 8 /\
    forall a, a < sp - 8 \/ sp <= a -> m !! a = mem s !! a.
Proof.
  intros Hr. cbn [exec]. unfold push_value. rewrite (related_sp _ _ _ _ Hr).
  rewrite as_u_small by (unfold is_u; lia).
  pose proof (related_room _ _ _ _ Hr) as Hroom.
  assert (Hb : backed (mem s) (sp - 8) (Z.of_nat (length (le_bytes 8 (xr s q))))) by by rewrite length_le_bytes.
  destruct (write_host_ok _ _ _ Hb) as (m & Hm & _ & Hout). rewrite Hm. cbn [mbind option_bind].
  exists m. split_and!; [done| | |].
  - rewrite <- (length_le_bytes 8 (xr s q)) at 1. by apply (read_write (mem s)).
  - intros a Ha. apply (write_host_frame _ _ _ _ Hb Hm). auto.
  - intros a Ha. apply Hout. rewrite length_le_bytes. lia.
Qed.

Lemma exec_pop s q v :
  xr s RSP_ = sp - 8 -> read_host (mem s) (sp - 8) 8 = Some (le_bytes 8 v) -> is_u 64 v ->
  exec (Pop q) s = Some (with_xr (upd q v (upd RSP_ sp (xr s))) s).
Proof.
  intros Hsp Hread Hv. cbn [exec]. unfold pop_value. rewrite Hsp, Hread. cbn [mbind option_bind].
  rewrite le_val_le_bytes. change (_ mod _) with (as_u 64 v). rewrite (as_u_small 64 v) by done.
  replace (sp - 8 + 8) with sp by lia. by rewrite (as_u_small 64 sp) by (unfold is_u; lia).
Qed.

(** ** Shifts by a register

    The count must be in CL: the code borrows RCX, saving it on the stack. *)
Definition shift_code (w : bool) (op : shiftop) (s d : X86Register) : list instruction :=
  if decide (s = RCX) then [Shift w op (reg_u8 d) (Reg 1)]
  else if decide (d = RCX) then
    [Push (reg_u8 s); Xchg true 1 (reg_u8 s); Shift w op (reg_u8 s) (Reg 1);
     Bin true MOV 1 (Reg (reg_u8 s)); Pop (reg_u8 s)]
  else [Push 1; Bin true MOV 1 (Reg (reg_u8 s)); Shift w op (reg_u8 d) (Reg 1); Pop 1].

Lemma upd_eq q v f : upd q v f q = v.
Proof. unfold upd. by rewrite Z.eqb_refl. Qed.
Lemma upd_ne q q' v f : q' <> q -> upd q v f q' = f q'.
Proof. intros. unfold upd. by destruct (Z.eqb_spec q' q). Qed.

Lemma rcx_code g : reg_u8 g = 1 -> g = RCX.
Proof. by destruct g. Qed.

Lemma exec_shift w op x y s :
  exec (Shift w (shift_shiftop op) x (Reg y)) s =
    Some (with_flags None (with_xr (upd x (shift_value (width w) op (xr s x) (xr s y)) (xr s)) s)).
Proof. cbn [exec]. unfold write, value. by rewrite shiftop_shift. Qed.

Lemma exec_mov64 x y s :
  is_u 64 (xr s y) -> exec (Bin true MOV x (Reg y)) s = Some (with_xr (upd x (xr s y) (xr s)) s).
Proof. intros. cbn [exec binop_result]. unfold write, value. simpl width. by rewrite as_u_idem, as_u_small. Qed.

Lemma exec_xchg64 x y s :
  is_u 64 (xr s x) -> is_u 64 (xr s y) ->
  exec (Xchg true x y) s = Some (with_xr (upd y (xr s x) (upd x (xr s y) (xr s))) s).
Proof.
  intros. cbn [exec]. unfold write, value. simpl width. simpl xr. simpl with_xr.
  by rewrite !as_u_idem, !as_u_small.
Qed.

Lemma shift_borrow r st s d gs gd w op a b :
  related r st -> mapped_register s = Ok gs -> mapped_register d = Ok gd ->
  gs <> RCX -> gd <> RCX -> get r d = Some a -> get r s = Some b ->
  exists st' r',
    exec_all [Push 1; Bin true MOV 1 (Reg (reg_u8 gs)); Shift w (shift_shiftop op) (reg_u8 gd) (Reg 1); Pop 1] st
      = Some st' /\ set r d (shift_value (width w) op a b) = Some r' /\ related r' st'.
Proof.
  intros Hr Hgs Hgd Hs1 Hd1 Ha Hb.
  assert (Hrcx : mapped_register 3 = Ok RCX) by done.
  destruct (related_get _ _ _ _ _ _ Hr Hrcx) as (c & _ & Hc & Hcu).
  destruct (related_get _ _ _ _ _ _ Hr Hgs) as (b' & Hb' & Hxs & Hbu).
  destruct (related_get _ _ _ _ _ _ Hr Hgd) as (a' & Ha' & Hxd & _).
  assert (b' = b) as -> by congruence. assert (a' = a) as -> by congruence. clear Ha' Hb'.
  destruct (mapped_not_rsp _ _ Hgs) as [Hs4 _]. destruct (mapped_not_rsp _ _ Hgd) as [Hd4 _].
  assert (reg_u8 gs <> 1) by (intros ?%rcx_code; done).
  assert (reg_u8 gd <> 1) by (intros ?%rcx_code; done).
  simpl in Hc. destruct (exec_push r st 1 Hr) as (m & Hpush & Hread & Hroom & Hout). rewrite Hc in Hread.
  cbn [exec_all]. rewrite Hpush. cbn [mbind option_bind]. set (s1 := with_mem m _).
  rewrite exec_mov64 by (simpl; by rewrite upd_ne, Hxs).
  cbn [mbind option_bind]. rewrite exec_shift. cbn [mbind option_bind]. set (s3 := with_flags _ _).
  rewrite (exec_pop s3 1 c); [|by simpl; rewrite !upd_ne, upd_eq by done|done|done].
  simpl. rewrite !upd_eq. rewrite !upd_ne by done. rewrite Hxs, Hxd.
  set (s4 := with_xr _ s3).
  destruct (related_write sp m0 r st s4 d gd (shift_value (width w) op a b))
    as (r' & Hset & Hr'); [done|done|apply as_u_width_64| | | | |done|by eauto].
  - simpl. by rewrite !upd_ne, upd_eq by done.
  - intros d' g' Hg' Hne. destruct (mapped_not_rsp _ _ Hg') as [H4 _].
    assert (reg_u8 g' <> reg_u8 gd) by (intros He; by destruct (mapped_inj _ _ _ _ Hg' Hgd He)).
    simpl. destruct (decide (reg_u8 g' = 1)) as [E1|E1]; [by rewrite E1, upd_eq|].
    by rewrite !upd_ne by done.
  - simpl. by rewrite upd_ne, upd_eq by done.
  - done.
Qed.

Lemma shift_swap r st s d gs gd w op a b :
  related r st -> mapped_register s = Ok gs -> mapped_register d = Ok gd ->
  gs <> RCX -> gd = RCX -> get r d = Some a -> get r s = Some b ->
  exists st' r',
    exec_all [Push (reg_u8 gs); Xchg true 1 (reg_u8 gs); Shift w (shift_shiftop op) (reg_u8 gs) (Reg 1);
              Bin true MOV 1 (Reg (reg_u8 gs)); Pop (reg_u8 gs)] st
      = Some st' /\ set r d (shift_value (width w) op a b) = Some r' /\ related r' st'.
Proof.
  intros Hr Hgs Hgd Hs1 Hd1 Ha Hb.
  destruct (related_get _ _ _ _ _ _ Hr Hgs) as (b' & Hb' & Hxs & Hbu).
  destruct (related_get _ _ _ _ _ _ Hr Hgd) as (a' & Ha' & Hxd & Hau).
  assert (b' = b) as -> by congruence. assert (a' = a) as -> by congruence. clear Ha' Hb'.
  destruct (mapped_not_rsp _ _ Hgs) as [Hs4 _].
  assert (Hd : reg_u8 gd = 1) by by rewrite Hd1. rewrite Hd in Hxd.
  assert (Hs : reg_u8 gs <> 1) by (intros ?%rcx_code; done).
  assert (H1s : 1 <> reg_u8 gs) by congruence.
  destruct (exec_push r st (reg_u8 gs) Hr) as (m & Hpush & Hread & Hroom & Hout). rewrite Hxs in Hread.
  cbn [exec_all]. rewrite Hpush. cbn [mbind option_bind]. set (s1 := with_mem m _).
  rewrite exec_xchg64 by (simpl; by rewrite upd_ne, ?Hxs, ?Hxd by done).
  cbn [mbind option_bind]. rewrite exec_shift. cbn [mbind option_bind].
  rewrite exec_mov64 by (simpl; rewrite upd_eq; apply as_u_width_64).
  cbn [mbind option_bind]. set (s4 := with_xr (upd 1 _ _) _).
  rewrite (exec_pop s4 (reg_u8 gs) b); [|by simpl; rewrite !upd_ne, upd_eq by done|done|done].
  set (s5 := with_xr _ s4).
  destruct (related_write sp m0 r st s5 d gd (shift_value (width w) op a b))
    as (r' & Hset & Hr'); [done|done|apply as_u_width_64| | | | |done|by eauto].
  - rewrite Hd. simpl. rewrite upd_ne, upd_ne, upd_eq by done. rewrite !upd_eq.
    rewrite (upd_ne (reg_u8 gs) 1), upd_eq, !upd_ne by done. by rewrite Hxs, Hxd.
  - intros d' g' Hg' Hne. destruct (mapped_not_rsp _ _ Hg') as [H4 _].
    assert (reg_u8 g' <> 1) by (rewrite <- Hd; intros He; by destruct (mapped_inj _ _ _ _ Hg' Hgd He)).
    simpl. destruct (decide (reg_u8 g' = reg_u8 gs)) as [E1|E1]; [by rewrite E1, upd_eq, Hxs|].
    by rewrite !upd_ne by done.
  - simpl. by rewrite upd_ne, upd_eq by congruence.
  - done.
Qed.

Lemma shift_code_exec r st s d gs gd w op a b :
  related r st -> mapped_register s = Ok gs -> mapped_register d = Ok gd ->
  get r d = Some a -> get r s = Some b ->
  exists st' r', exec_all (shift_code w (shift_shiftop op) gs gd) st = Some st' /\
    set r d (shift_value (width w) op a b) = Some r' /\ related r' st'.
Proof.
  intros Hr Hgs Hgd Ha Hb. unfold shift_code. destruct (decide (gs = RCX)) as [E1|E1].
  - destruct (related_get _ _ _ _ _ _ Hr Hgs) as (b' & Hb' & Hxs & _).
    destruct (related_get _ _ _ _ _ _ Hr Hgd) as (a' & Ha' & Hxd & _).
    assert (b' = b) as -> by congruence. assert (a' = a) as -> by congruence.
    rewrite E1 in Hxs. simpl in Hxs. cbn [exec_all]. rewrite exec_shift. cbn [mbind option_bind].
    rewrite Hxs, Hxd. set (s1 := with_flags _ _).
    destruct (related_update r st s1 d gd w (shift_value (width w) op a b)) as (r' & Hset & Hr');
      [done|done| |done|].
    { unfold shift_value. pose proof (width_pos w). by rewrite as_u_idem by lia. }
    exists s1, r'. split_and!; [done| |done]. unfold shift_value in *. pose proof (width_pos w).
    by rewrite as_u_idem in Hset by lia.
  - destruct (decide (gd = RCX)); [eapply shift_swap; eauto|eapply shift_borrow; eauto].
Qed.
End Effects.

(** ** Instruction selection realises the semantics *)
Ltac in_list := repeat (apply list_elem_of_here || apply list_elem_of_further).

Section Selection.
Context {P : Profile}.
Variables (sp : Z) (m0 : HostMemory).
Hypothesis sp_range : 8 <= sp < 2 ^ 64 - 8.
Abbreviation related := (related sp m0).
Abbreviation encodes := (encodes (E := JitModelError)).

Lemma wide_ok {E} sz : wide sz ->
  exclude_operand_sizes (E := E) sz [S0; S8; S16] = Ok tt /\ exclude_operand_sizes (E := E) sz [S0] = Ok tt.
Proof. intros [-> | ->]; unfold exclude_operand_sizes, debug_assert; simpl; by rewrite andb_false_r. Qed.

(** What the branch at the end of a selection does after the code before it
    left the flags of [s]. *)
Definition branch_next (b : option (option JumpCondition * Z)) (s : machine) (nx : next) : Prop :=
  match b with
  | None => nx = Fall
  | Some (None, t) => nx = Goto t
  | Some (Some c, t) => exists f b, flags s = Some f /\ condition (jump_opcode c) f = Some b /\ nx = branch_if b t
  end.

Definition realises (i : JitInstruction) (sel : list X86Instruction * option (option JumpCondition * Z))
    (r : list Z) (s : machine) : Prop :=
  exists xs s' r' nx,
    Forall2 encodes sel.1 xs /\ Forall (fun x => straight x = true) xs /\ exec_all xs s = Some s' /\
    jit_step i r = Some (r', nx) /\ related r' s' /\ branch_next sel.2 s' nx.

Lemma exec_loads d v x s : loads d v x -> straight x = true /\ exec x s = Some (with_xr (upd d (as_u 64 v) (xr s)) s).
Proof.
  intros (w & v' & -> & Hv). split; [done|]. cbn [exec binop_result]. unfold write, value.
  pose proof (width_pos w). by rewrite as_u_idem, Hv by lia.
Qed.

(** A single instruction that writes its destination. *)
Lemma realises_write i x y d g r s v s' r' :
  encodes x y -> straight y = true -> exec y s = Some s' ->
  mapped_register d = Ok g -> set r d v = Some r' -> related r' s' ->
  jit_step i r = (fun r => (r, Fall)) <$> set r d v -> realises i ([x], None) r s.
Proof.
  intros Hx Hy Hexec Hg Hset Hr' Hj. exists [y], s', r', Fall.
  split_and!; [by repeat constructor|by repeat constructor|simpl; by rewrite Hexec| |done|done].
  by rewrite Hj, Hset.
Qed.

Lemma realises_load sz d v sel r s :
  wide sz -> is_i 64 v -> select (LoadImmediate sz d v) = Ok sel -> related r s ->
  realises (LoadImmediate sz d v) sel r s.
Proof.
  intros Hsz Hv Hsel Hr. simpl in Hsel. destruct (mapped_register d) as [g| |] eqn:Hg; [|done..]. simpl in Hsel.
  set (u := if w64 sz then v else as_u 32 v).
  assert (Hu : is_i 64 u /\ as_u 64 u = as_u (bits sz) v /\ sel = ([load_immediate g u], None)).
  { unfold u. destruct Hsz as [-> | ->]; simpl in *; injection Hsel as <-; split_and!; try done.
    - pose proof (as_u_range 32 v ltac:(lia)) as Hr32. unfold is_u, is_i in *. lia.
    - apply as_u_small. apply (is_u_mono 32 64); [lia|]. by apply as_u_range. }
  destruct Hu as (Hu & Hval & ->).
  destruct (load_immediate_encodes (E := JitModelError) g u Hu (mapped_gpr _ _ Hg)) as (x & Hl & Hx).
  destruct (exec_loads _ _ _ s Hl) as [Hstr Hexec].
  assert (Hup := related_update sp m0 r s (with_xr (upd (reg_u8 g) (as_u 64 u) (xr s)) s) d g (w64 sz) v Hr Hg).
  destruct Hup as (r' & Hset & Hr'); [simpl; by rewrite Hval|done|].
  by eapply realises_write.
Qed.

Lemma realises_move sz sr d sel r s :
  wide sz -> select (MoveRegister sz sr d) = Ok sel -> related r s ->
  realises (MoveRegister sz sr d) sel r s.
Proof.
  intros Hsz Hsel Hr. simpl in Hsel. destruct (mapped_register sr) as [gs| |] eqn:Hgs; [|done..].
  destruct (mapped_register d) as [g| |] eqn:Hg; [|done..]. simpl in Hsel.
  unfold mov in Hsel. rewrite (proj1 (wide_ok sz Hsz)) in Hsel. simpl in Hsel. injection Hsel as <-.
  destruct (related_get _ _ _ _ _ _ Hr Hgs) as (b & Hb & Hxs & _).
  destruct (bin_write sp m0 r s d g (w64 sz) MOV (Reg (reg_u8 gs)) _ Hr Hg eq_refl) as (s' & r' & Hexec & Hset & Hr').
  assert (Henc : encodes (rr sz 0x89 gs g) (Bin (w64 sz) MOV (reg_u8 g) (Reg (reg_u8 gs)))).
  { apply rr_encodes; [in_list|done|by eapply mapped_gpr..]. }
  eapply (realises_write _ _ _ d g); [exact Henc|done|done|done|exact Hset|done|].
  simpl. rewrite Hb. simpl. unfold value. rewrite Hxs, as_u_idem; [done|]. pose proof (width_pos (w64 sz)). lia.
Qed.

(** An ALU instruction of either form. *)
Lemma realises_alu i x op d g o r s a b sz :
  encodes x (Bin (w64 sz) (alu_binop op) (reg_u8 g) o) -> mapped_register d = Ok g -> related r s ->
  get r d = Some a -> value (w64 sz) s o = as_u (bits sz) b ->
  jit_step i r = (fun r => (r, Fall)) <$> set r d (alu_value (bits sz) op a b) ->
  realises i ([x], None) r s.
Proof.
  intros Hx Hg Hr Ha Hb Hj. pose proof (width_pos (w64 sz)) as Hw.
  destruct (related_get _ _ _ _ _ _ Hr Hg) as (a' & Ha' & Hxd & _). assert (a' = a) as -> by congruence.
  destruct (binop_alu (bits sz) op a b ltac:(unfold bits; lia)) as (v & Hv & Hval).
  assert (Hbin : (binop_result (width (w64 sz)) (alu_binop op) (value (w64 sz) s (Reg (reg_u8 g)))
                    (value (w64 sz) s o)).1 = Some v).
  { rewrite Hb. unfold value. by rewrite Hxd. }
  destruct (bin_write sp m0 r s d g (w64 sz) (alu_binop op) o v Hr Hg Hbin) as (s' & r' & Hexec & Hset & Hr').
  eapply (realises_write _ _ _ d g); [exact Hx|done|exact Hexec|done|exact Hset|done|].
  rewrite Hj. unfold bits in Hval. by rewrite Hval.
Qed.

Lemma alu_rr_encodes sz op gs g :
  wide sz -> gpr gs -> gpr g ->
  encodes (rr sz (alu_encoding op).1 gs g) (Bin (w64 sz) (alu_binop op) (reg_u8 g) (Reg (reg_u8 gs))).
Proof. intros. apply rr_encodes; [|done..]. destruct op; in_list. Qed.

Lemma realises_alu_reg sz op sr d sel r s :
  wide sz -> select (AluRegister sz op sr d) = Ok sel -> related r s ->
  realises (AluRegister sz op sr d) sel r s.
Proof.
  intros Hsz Hsel Hr. simpl in Hsel. destruct (mapped_register sr) as [gs| |] eqn:Hgs; [|done..].
  destruct (mapped_register d) as [g| |] eqn:Hg; [|done..]. simpl in Hsel.
  unfold alu, alu_escaped in Hsel. rewrite (proj1 (wide_ok sz Hsz)) in Hsel. simpl in Hsel. injection Hsel as <-.
  destruct (related_get _ _ _ _ _ _ Hr Hgs) as (b & Hb & Hxs & _).
  destruct (related_get _ _ _ _ _ _ Hr Hg) as (a & Ha & _ & _).
  eapply (realises_alu _ _ op d g (Reg (reg_u8 gs)) r s a b sz); try done.
  - by apply alu_rr_encodes; [|eapply mapped_gpr..].
  - unfold value. by rewrite Hxs.
  - simpl. by rewrite Ha, Hb.
Qed.

Lemma realises_alu_imm sz op d v sel r s :
  wide sz -> is_i 64 v -> select (AluImmediate sz op d v) = Ok sel -> related r s ->
  realises (AluImmediate sz op d v) sel r s.
Proof.
  intros Hsz Hv Hsel Hr. simpl in Hsel. destruct (mapped_register d) as [g| |] eqn:Hg; [|done..].
  simpl in Hsel. destruct (related_get _ _ _ _ _ _ Hr Hg) as (a & Ha & Hxd & _).
  assert (Hj : forall r, get r d = Some a -> jit_step (AluImmediate sz op d v) r =
                 (fun r => (r, Fall)) <$> set r d (alu_value (bits sz) op a v)).
  { intros ? Ha'. simpl. by rewrite Ha'. }
  destruct (Z.leb_spec i32_min v), (Z.leb_spec v i32_max); simpl in Hsel.
  1: {
    unfold alu_immediate, alu_immediate_escaped in Hsel. rewrite (proj1 (wide_ok sz Hsz)) in Hsel.
    simpl in Hsel. injection Hsel as <-.
    eapply (realises_alu _ _ op d g (Imm v) r s a v sz); eauto.
    rewrite <- (as_i_small 32 v) at 2 by (unfold is_i, i32_min, i32_max in *; lia).
    apply alu_imm_encodes; [destruct op; in_list|done|by eapply mapped_gpr]. }
  all: unfold alu, alu_escaped in Hsel; rewrite (proj1 (wide_ok sz Hsz)) in Hsel; simpl in Hsel; injection Hsel as <-.
  all: destruct (load_immediate_encodes (E := JitModelError) R11 v Hv ltac:(unfold gpr; in_list)) as (x & Hl & Hx).
  all: destruct (exec_loads _ _ _ s Hl) as [Hstr Hexec].
  all: set (s1 := with_xr (upd (reg_u8 R11) (as_u 64 v) (xr s)) s) in Hexec.
  all: assert (Hr1 : related r s1) by (apply (related_same sp m0 r s); [done| |done]; intros q Hq; simpl; by rewrite upd_ne).
  all: destruct (realises_alu (AluImmediate sz op d v) (rr sz (alu_encoding op).1 R11 g) op d g (Reg 11) r s1 a v sz)
         as (xs & s' & r' & nx & Henc & Hs' & Hexec' & Hj' & Hr' & Hnx);
         [apply (alu_rr_encodes sz op R11 g); [done|unfold gpr; in_list|by eapply mapped_gpr]|done|done|done| |by eauto|].
  2, 4, 6: exists (x :: xs), s', r', nx; split_and!; [by constructor|by constructor| |done|done|done];
     simpl; by rewrite Hexec.
  all: unfold value, s1; simpl; unfold upd; simpl; unfold bits; apply as_u_as_u; pose proof (width_pos (w64 sz)); lia.
Qed.

Lemma realises_shift_imm sz op d n sel r s :
  wide sz -> is_u 8 n -> select (ShiftImmediate sz op d n) = Ok sel -> related r s ->
  realises (ShiftImmediate sz op d n) sel r s.
Proof.
  intros Hsz Hn Hsel Hr. simpl in Hsel. destruct (mapped_register d) as [g| |] eqn:Hg; [|done..].
  simpl in Hsel. unfold alu_immediate, alu_immediate_escaped in Hsel.
  rewrite (proj1 (wide_ok sz Hsz)) in Hsel. simpl in Hsel. injection Hsel as <-.
  destruct (related_get _ _ _ _ _ _ Hr Hg) as (a & Ha & Hxd & _).
  assert (Henc : encodes (mkX86 sz 0 0xc1 true None (shift_opcode_extension op) (reg_u8 g) S8 n)
            (Shift (w64 sz) (shift_shiftop op) (reg_u8 g) (Imm n))).
  { rewrite <- (as_u_small 8 n) at 2 by done.
    apply shift_imm_encodes; [destruct op; in_list|done|by eapply mapped_gpr]. }
  destruct (shift_write sp m0 r s d g (w64 sz) (shift_shiftop op) (Imm n) Hr Hg) as (s' & r' & Hexec & Hset & Hr').
  eapply (realises_write _ _ _ d g); [exact Henc|done|exact Hexec|done|exact Hset|done|].
  simpl. rewrite Ha. simpl. unfold value. by rewrite Hxd, shiftop_shift.
Qed.

(** The body of a shift by a register encodes [shift_code]. *)
Lemma shift_body_encodes sz op gs g l :
  wide sz -> gpr gs -> gpr g ->
  select_shift sz op gs g = Ok l ->
  exists ys, Forall2 encodes l ((if w64 sz then [] else [Bin false MOV (reg_u8 g) (Reg (reg_u8 g))]) ++ ys) /\
    ys = shift_code (w64 sz) (shift_shiftop op) gs g.
Proof.
  intros Hsz Hgs Hg Hl. eexists. split; [|done]. unfold select_shift in Hl.
  assert (Hrcx : gpr RCX) by (unfold gpr; in_list). assert (Hw : wide S64) by by right.
  assert (Hcl : forall g', gpr g' -> encodes (mkX86 sz 0 0xd3 true None (shift_opcode_extension op) (reg_u8 g') S0 0)
            (Shift (w64 sz) (shift_shiftop op) (reg_u8 g') (Reg 1))).
  { intros g' Hg'. apply shift_cl_encodes; [destruct op; in_list|done|done]. }
  assert (Hmov : forall sz a b, wide sz -> gpr a -> gpr b ->
            encodes (rr sz 0x89 a b) (Bin (w64 sz) MOV (reg_u8 b) (Reg (reg_u8 a)))).
  { intros. apply rr_encodes; [in_list|done..]. }
  assert (Hpre : forall l', (if size_eqb sz S32 then i ← mov (E := JitModelError) sz g g; Ok [i] else Ok []) = Ok l' ->
    Forall2 encodes l' (if w64 sz then [] else [Bin false MOV (reg_u8 g) (Reg (reg_u8 g))])).
  { intros l'. unfold mov. rewrite (proj1 (wide_ok (E := JitModelError) sz Hsz)). destruct Hsz as [-> | ->]; intros [= <-];
      [constructor; [|constructor]; apply (Hmov S32); auto; by left|constructor]. }
  destruct (if size_eqb sz S32 then _ else _) as [l1| |]; [|done..]. simpl in Hl.
  specialize (Hpre l1 eq_refl). unfold shift_code, mov, xchg, alu_immediate, alu_immediate_escaped in *.
  rewrite (proj1 (wide_ok sz Hsz)), (proj1 (wide_ok S64 Hw)) in Hl.
  replace (exclude_operand_sizes S64 [S0; S8; S16; S32]) with (Ok (E := JitModelError) tt) in Hl
    by (unfold exclude_operand_sizes, debug_assert; simpl; by rewrite andb_false_r).
  destruct (decide (gs = RCX)); [|destruct (decide (g = RCX))]; simpl in Hl; injection Hl as <-;
    apply Forall2_app; try done; repeat constructor; subst;
    first [by apply Hcl | by apply (push_encodes gs) | by apply (push_encodes RCX) | by apply (pop_encodes gs)
          | by apply (pop_encodes RCX) | by apply (xchg_encodes S64 gs RCX) | by apply (Hmov S64 gs RCX)].
Qed.

Lemma shift_code_straight w op gs g : Forall (fun x => straight x = true) (shift_code w op gs g).
Proof. unfold shift_code. repeat case_decide; repeat constructor. Qed.

Lemma set_set {A} (r r1 : list A) d u v : set r d u = Some r1 -> set r1 d v = set r d v.
Proof.
  unfold set. destruct (_ && _) eqn:Hd; [|done]. intros [= <-].
  by rewrite length_insert, Hd, list_insert_insert_eq.
Qed.

Lemma get_set {A} (r r1 : list A) d d' u :
  set r d u = Some r1 -> get r1 d' = if decide (d' = d) then Some u else get r d'.
Proof.
  unfold set, get. destruct (Z.leb_spec 0 d), (Z.ltb_spec d (Z.of_nat (length r))); simpl; try done.
  intros [= <-]. case_decide; subst.
  - destruct (Z.ltb_spec d 0); [lia|]. apply list_lookup_insert_eq. lia.
  - destruct (Z.ltb_spec d' 0); [done|]. apply list_lookup_insert_ne. lia.
Qed.

Lemma realises_shift_reg sz op sr d sel r s :
  wide sz -> select (ShiftRegister sz op sr d) = Ok sel -> related r s ->
  realises (ShiftRegister sz op sr d) sel r s.
Proof.
  intros Hsz Hsel Hr. simpl in Hsel. destruct (mapped_register sr) as [gs| |] eqn:Hgs; [|done..].
  destruct (mapped_register d) as [g| |] eqn:Hg; [|done..]. simpl in Hsel.
  destruct (select_shift sz op gs g) as [l| |] eqn:Hl; [|done..]. injection Hsel as <-.
  destruct (related_get _ _ _ _ _ _ Hr Hgs) as (b & Hb & Hxs & _).
  destruct (related_get _ _ _ _ _ _ Hr Hg) as (a & Ha & Hxd & _).
  destruct (shift_body_encodes sz op gs g l Hsz (mapped_gpr _ _ Hgs) (mapped_gpr _ _ Hg) Hl) as (ys & Henc & ->).
  assert (Hj : jit_step (ShiftRegister sz op sr d) r =
            (fun r => (r, Fall)) <$> set r d (shift_value (bits sz) op a b)).
  { simpl. by rewrite Ha, Hb. }
  pose proof (shift_code_straight (w64 sz) (shift_shiftop op) gs g) as Hstr.
  destruct Hsz as [-> | ->]; cbn [w64] in *.
  - destruct (bin_write sp m0 r s d g false MOV (Reg (reg_u8 g)) _ Hr Hg eq_refl) as (s1 & r1 & Hexec & Hset & Hr1).
    unfold value in Hset. rewrite Hxd, as_u_idem in Hset by done. cbn [width] in Hset.
    destruct (shift_code_exec sp m0 sp_range r1 s1 sr d gs g false op (as_u 32 a)
                (if decide (sr = d) then as_u 32 a else b) Hr1 Hgs Hg) as (s' & r' & Hexec' & Hset' & Hr').
    { rewrite (get_set _ _ _ _ _ Hset). by rewrite decide_True. }
    { rewrite (get_set _ _ _ _ _ Hset). by case_decide. }
    rewrite (set_set _ _ _ _ _ Hset) in Hset'.
    assert (Hval : shift_value 32 op (as_u 32 a) (if decide (sr = d) then as_u 32 a else b) = shift_value 32 op a b).
    { rewrite <- (shift_value_low 32 op a b), <- (shift_value_low 32 op (as_u 32 a)), as_u_idem by (done || by left).
      f_equal. case_decide; [|done]. subst. rewrite as_u_idem by done. congruence. }
    cbn [width] in Hset'. rewrite Hval in Hset'.
    eexists _, s', r', Fall. split_and!; [exact Henc|by constructor| | |done|done].
    + change (exec (Bin false MOV (reg_u8 g) (Reg (reg_u8 g))) s ≫=
                exec_all (shift_code false (shift_shiftop op) gs g) = Some s').
      rewrite Hexec. exact Hexec'.
    + rewrite Hj. change (bits S32) with 32. by rewrite Hset'.
  - destruct (shift_code_exec sp m0 sp_range r s sr d gs g true op a b Hr Hgs Hg Ha Hb)
      as (s' & r' & Hexec & Hset & Hr').
    eexists _, s', r', Fall. split_and!; [exact Henc|done|done| |done|done].
    rewrite Hj. change (bits S64) with (width true). by rewrite Hset.
Qed.

(** A comparison or test followed by a conditional jump. *)
Lemma realises_branch i x op d g o r s sz c t a b test :
  encodes x (Bin (w64 sz) op (reg_u8 g) o) -> op = CMP \/ op = TEST ->
  mapped_register d = Ok g -> related r s -> get r d = Some a -> value (w64 sz) s o = as_u (bits sz) b ->
  (forall f, (binop_result (bits sz) op (as_u (bits sz) a) (as_u (bits sz) b)).2 = Some f ->
     condition (jump_opcode c) f = Some test) ->
  jit_step i r = Some (r, branch_if test t) -> realises i ([x], Some (Some c, t)) r s.
Proof.
  intros Hx Hop Hg Hr Ha Hb Htest Hj.
  destruct (related_get _ _ _ _ _ _ Hr Hg) as (a' & Ha' & Hxd & _). assert (a' = a) as -> by congruence.
  destruct (bin_flags sp m0 r s (reg_u8 g) (w64 sz) op o Hr Hop) as (s' & f & Hexec & Hf & Hbin & Hr').
  rewrite Hb in Hbin. unfold value in Hbin. rewrite Hxd in Hbin.
  exists [Bin (w64 sz) op (reg_u8 g) o], s', r, (branch_if test t).
  split_and!; [by repeat constructor|by repeat constructor|cbn [exec_all]; by rewrite Hexec|done|done|].
  exists f, test. split_and!; [done|by apply Htest|done].
Qed.

Lemma cmp_condition n c a b f :
  0 < n -> (binop_result n CMP (as_u n a) (as_u n b)).2 = Some f ->
  condition (jump_opcode c) f = Some (compare n c a b).
Proof. intros Hn [= <-]. by apply condition_compare. Qed.

Lemma test_condition n a b f :
  (binop_result n TEST (as_u n a) (as_u n b)).2 = Some f ->
  condition (jump_opcode NotEqual) f = Some (bits_common n a b).
Proof. intros [= <-]. by apply condition_test. Qed.

Lemma bits_pos sz : 0 < bits sz.
Proof. apply width_pos. Qed.

Lemma wide_not_8 sz : wide sz -> size_eqb sz S8 = false /\ imm_size sz = S32.
Proof. by intros [-> | ->]. Qed.

Ltac mapped_regs Hsel :=
  repeat match type of Hsel with
  | context [mapped_register ?d] =>
      let g := fresh "g" in let Hg := fresh "Hg" in
      destruct (mapped_register d) as [g| |] eqn:Hg; [|done..]; simpl in Hsel
  end.

Lemma realises_jump_imm sz c d v t sel r s :
  wide sz -> is_i 32 v -> select (JumpImmediate sz c d v t) = Ok sel -> related r s ->
  realises (JumpImmediate sz c d v t) sel r s.
Proof.
  intros Hsz Hv Hsel Hr. simpl in Hsel. mapped_regs Hsel. unfold cmp_immediate in Hsel.
  destruct (wide_not_8 sz Hsz) as [H8 Hisz].
  rewrite (proj2 (wide_ok sz Hsz)), H8, Hisz in Hsel. simpl in Hsel. injection Hsel as <-.
  destruct (related_get _ _ _ _ _ _ Hr Hg) as (a & Ha & _ & _).
  eapply (realises_branch _ _ CMP d g (Imm v) r s sz c t a v); eauto using cmp_condition, bits_pos.
  - rewrite <- (as_i_small 32 v) at 2 by done. apply alu_imm_encodes; [in_list|done|by eapply mapped_gpr].
  - simpl. by rewrite Ha.
Qed.

Lemma realises_test_imm sz d v t sel r s :
  wide sz -> is_i 32 v -> select (JumpTestImmediate sz d v t) = Ok sel -> related r s ->
  realises (JumpTestImmediate sz d v t) sel r s.
Proof.
  intros Hsz Hv Hsel Hr. simpl in Hsel. mapped_regs Hsel. unfold test_immediate in Hsel.
  destruct (wide_not_8 sz Hsz) as [H8 Hisz].
  rewrite (proj2 (wide_ok sz Hsz)), H8, Hisz in Hsel. simpl in Hsel. injection Hsel as <-.
  destruct (related_get _ _ _ _ _ _ Hr Hg) as (a & Ha & _ & _).
  eapply (realises_branch _ _ TEST d g (Imm v) r s sz NotEqual t a v); eauto using test_condition.
  - rewrite <- (as_i_small 32 v) at 2 by done. apply test_imm_encodes; [done|by eapply mapped_gpr].
  - simpl. by rewrite Ha.
Qed.

Lemma realises_jump_reg sz c sr d t sel r s :
  wide sz -> select (JumpRegister sz c sr d t) = Ok sel -> related r s ->
  realises (JumpRegister sz c sr d t) sel r s.
Proof.
  intros Hsz Hsel Hr. simpl in Hsel. mapped_regs Hsel. unfold cmp in Hsel.
  rewrite (proj2 (wide_ok sz Hsz)), (proj1 (wide_not_8 sz Hsz)) in Hsel. simpl in Hsel. injection Hsel as <-.
  destruct (related_get _ _ _ _ _ _ Hr Hg) as (b & Hb & Hxs & _).
  destruct (related_get _ _ _ _ _ _ Hr Hg0) as (a & Ha & _ & _).
  eapply (realises_branch _ _ CMP d g0 (Reg (reg_u8 g)) r s sz c t a b); eauto using cmp_condition, bits_pos.
  - apply (rr_encodes sz 0x39 CMP g g0); [in_list|done|by eapply mapped_gpr..].
  - unfold value. by rewrite Hxs.
  - simpl. by rewrite Ha, Hb.
Qed.

Lemma realises_test_reg sz sr d t sel r s :
  wide sz -> select (JumpTestRegister sz sr d t) = Ok sel -> related r s ->
  realises (JumpTestRegister sz sr d t) sel r s.
Proof.
  intros Hsz Hsel Hr. simpl in Hsel. mapped_regs Hsel. unfold test in Hsel.
  rewrite (proj2 (wide_ok sz Hsz)), (proj1 (wide_not_8 sz Hsz)) in Hsel. simpl in Hsel. injection Hsel as <-.
  destruct (related_get _ _ _ _ _ _ Hr Hg) as (b & Hb & Hxs & _).
  destruct (related_get _ _ _ _ _ _ Hr Hg0) as (a & Ha & _ & _).
  eapply (realises_branch _ _ TEST d g0 (Reg (reg_u8 g)) r s sz NotEqual t a b); eauto using test_condition.
  - apply (rr_encodes sz 0x85 TEST g g0); [in_list|done|by eapply mapped_gpr..].
  - unfold value. by rewrite Hxs.
  - simpl. by rewrite Ha, Hb.
Qed.

(** Every instruction but [Return]. *)
Lemma select_realises i sel r s :
  supported i -> i <> Return -> select i = Ok sel -> related r s -> realises i sel r s.
Proof.
  intros Hs Hret Hsel Hr. destruct i; simpl in Hs; repeat match type of Hs with _ /\ _ => destruct Hs as [Hs ?] end.
  - by apply realises_load.
  - by apply realises_move.
  - by apply realises_alu_imm.
  - by apply realises_alu_reg.
  - by apply realises_shift_imm.
  - by apply realises_shift_reg.
  - injection Hsel as <-. by exists [], s, r, (Goto target_pc).
  - by apply realises_jump_imm.
  - by apply realises_jump_reg.
  - by apply realises_test_imm.
  - by apply realises_test_reg.
  - done.
Qed.
End Selection.
