(* ===== verification/JitCorrect.v ===== *)
(** * Whole programs: compiled code against the reference semantics

    The simulation of [JitSim] lifted to the text of a program: the processor,
    started at the first byte with the sBPF registers in their places, reaches
    the return address with the registers [JitSim.jit_run] returns. *)

From stdpp Require Import gmap.
From S2P Require Import Prelude Ebpf X86 Jit JitLayout MemoryRegion MappingFacts X86Isa X86Decode JitSim.

Lemma decode_branch c d rest :
  is_i 32 d ->
  decode ((branch_head c ++ le_bytes 4 d) ++ rest) =
    Some (match c with None => Jmp d | Some c => Jcc (jump_opcode c) d end, rest).
Proof.
  intros Hd. rewrite <- app_assoc. destruct c as [c|]; [|by apply decode_jmp].
  assert (Hj : decode (branch_head (Some c) ++ le_bytes 4 d ++ rest) =
            '(v, bs) ← field 4 (le_bytes 4 d ++ rest); Some (Jcc (jump_opcode c) (as_i 32 v), bs)).
  { destruct c; with_strategy opaque [field] reflexivity. }
  rewrite Hj, field_le_bytes. cbn [mbind option_bind]. by rewrite as_i_as_u, as_i_small by (done || lia).
Qed.

(** The state in which compiled code is entered: stack pointer [sp] with the
    return address on top and eight free bytes below. *)
Record entry_ok (base sp ret : Z) (m0 : HostMemory) (len : Z) : Prop := {
  entry_base : 0 <= base;
  entry_end : base + len < 2 ^ 64;
  entry_sp : 8 <= sp < 2 ^ 64 - 8;
  entry_ret : read_host m0 sp 8 = Some (le_bytes 8 ret);
  entry_ret_u64 : is_u 64 ret
}.

(** The state after compiled code returned [r]. *)
Record returned (sp ret : Z) (m0 : HostMemory) (r : list Z) (s : machine) : Prop := {
  returned_rip : rip s = ret;
  returned_regs : forall d g x, mapped_register d = Ok g -> get r d = Some x -> xr s (reg_u8 g) = x;
  returned_sp : xr s RSP_ = sp + 8;
  returned_mem : forall a, a < sp - 8 \/ sp <= a -> mem s !! a = m0 !! a
}.

Section Program.
Context {P : Profile} {I : Type} (lower : Z -> I -> result JitModelError JitInstruction).
Context (program : list I) (cs : list chunk) (base sp ret : Z) (m0 : HostMemory).
Hypothesis program_selected : selected lower program cs.
Hypothesis program_branches : forall k c, cs !! k = Some c -> branch_ok cs k c.
Hypothesis entry : entry_ok base sp ret m0 (Z.of_nat (length (ref_text cs))).
Abbreviation text := (ref_text cs).
Abbreviation related := (related sp m0).
Abbreviation returned := (returned sp ret m0).

Definition at_pc (k : nat) (r : list Z) (s : machine) : Prop :=
  related r s /\ rip s = base + offset cs k.

Lemma related_with_rip r s a : related r s -> related r (with_rip a s).
Proof. intros Hr. by apply (related_same sp m0 r s). Qed.

Lemma offset_le k : (k <= length cs)%nat -> offset cs k <= Z.of_nat (length text).
Proof.
  intros Hk. unfold ref_text. generalize (final_disp cs). intros d.
  replace (chunks_text d 0 cs) with (chunks_text d 0 (take k cs ++ drop k cs)) by by rewrite take_drop.
  rewrite chunks_text_app, length_app, Nat2Z.inj_add, length_text_take. lia.
Qed.

(** Reading the return address. *)
Lemma sim_return r s pre post bs :
  text = pre ++ bs ++ post -> (forall rest, decode (bs ++ rest) = Some (Ret, rest)) ->
  related r s -> rip s = base + Z.of_nat (length pre) ->
  exists s', cpu_steps base text 1 s = Some s' /\ returned r s'.
Proof.
  intros Ht Hd Hr Hrip. cbn [cpu_steps]. rewrite (cpu_step_at _ _ _ _ _ _ _ Ht Hd Hrip).
  cbn [exec]. unfold pop_value. change (xr (with_rip _ s)) with (xr s). change (mem (with_rip _ s)) with (mem s).
  rewrite (related_sp _ _ _ _ Hr).
  assert (Hread : read_host (mem s) sp 8 = Some (le_bytes 8 ret)).
  { rewrite <- (entry_ret _ _ _ _ _ entry). unfold read_host. apply mapM_ext. intros i.
    eapply related_mem; [done|lia]. }
  rewrite Hread. cbn [mbind option_bind]. eexists. split; [done|]. destruct entry. split; simpl.
  - rewrite le_val_le_bytes. by apply Z.mod_small.
  - intros d g x Hg Hx. destruct (mapped_not_rsp _ _ Hg). rewrite upd_ne by done. by eapply related_regs.
  - rewrite upd_eq. apply as_u_small. unfold is_u. lia.
  - intros a Ha. by eapply related_mem.
Qed.

(** One branch at the end of chunk [k], after the code before it ran. *)
Lemma sim_branch k c bc t r s nx pre post :
  cs !! k = Some c -> target c = Some t ->
  text = pre ++ (branch_head bc ++ le_bytes 4 (final_disp cs k)) ++ post ->
  Z.of_nat (length pre) + Z.of_nat (length (branch_head bc ++ le_bytes 4 (final_disp cs k))) = offset cs (S k) ->
  related r s -> rip s = base + Z.of_nat (length pre) -> branch_next (Some (bc, t)) s nx ->
  exists s', cpu_steps base text 1 s = Some s' /\
    ((nx = Goto t /\ 0 <= t < Z.of_nat (length cs) /\ at_pc (Z.to_nat t) r s') \/
     (nx = Fall /\ at_pc (S k) r s')).
Proof.
  intros Hc Ht Htext Hlen Hr Hrip Hnx.
  pose proof (program_branches k c Hc) as Hb. unfold branch_ok in Hb. rewrite Ht in Hb.
  destruct Hb as (Htr & _ & Hd).
  assert (Hfd : final_disp cs k = disp cs k t) by (unfold final_disp; by rewrite Hc, Ht).
  rewrite <- Hfd in Hd. set (d := final_disp cs k) in *.
  cbn [cpu_steps]. rewrite (cpu_step_at _ _ _ _ _ _ _ Htext (fun rest => decode_branch bc d rest Hd) Hrip).
  replace (base + Z.of_nat (length pre) + Z.of_nat (length (branch_head bc ++ le_bytes 4 d)))
    with (base + offset cs (S k)) by lia.
  assert (Hdest : as_u 64 (base + offset cs (S k) + d) = base + offset cs (Z.to_nat t)).
  { pose proof (offset_le (Z.to_nat t) ltac:(lia)). pose proof (offset_nonneg cs (Z.to_nat t)).
    destruct entry. rewrite Hfd. unfold disp.
    replace (base + offset cs (S k) + (offset cs (Z.to_nat t) - offset cs (S k)))
      with (base + offset cs (Z.to_nat t)) by lia.
    apply as_u_small. unfold is_u. lia. }
  destruct bc as [cc|]; simpl in Hnx.
  - destruct Hnx as (f & b & Hf & Hcond & ->). cbn [exec]. change (flags (with_rip _ s)) with (flags s).
    rewrite Hf. cbn [mbind option_bind]. rewrite Hcond. cbn [fmap option_fmap option_map mbind option_bind].
    eexists. split; [done|]. destruct b; cbn [branch_if].
    + left. split; [done|]. split; [lia|]. split; [by apply (related_same sp m0 r s)|done].
    + right. split; [done|]. split; [by apply (related_same sp m0 r s)|done].
  - subst nx. cbn [exec mbind option_bind]. eexists. split; [done|].
    left. split; [done|]. split; [lia|]. split; [by apply (related_same sp m0 r s)|done].
Qed.

(** One instruction of the program. *)
Lemma sim_step k i j r s :
  program !! k = Some i -> lower (Z.of_nat k) i = Ok j -> supported j -> at_pc k r s ->
  exists n s' r' nx, cpu_steps base text n s = Some s' /\ jit_step j r = Some (r', nx) /\
    match nx with
    | Fall => at_pc (S k) r' s'
    | Goto t => 0 <= t < Z.of_nat (length cs) /\ at_pc (Z.to_nat t) r' s'
    | Finish => returned r' s'
    end.
Proof.
  intros Hi Hj Hsup [Hr Hrip]. destruct program_selected as [Hlen Hsel].
  destruct (lookup_lt_is_Some_2 cs k) as [c Hc]; [rewrite Hlen; by eapply lookup_lt_Some|].
  destruct (Hsel k i c Hi Hc) as (j' & Hj' & Hchunk). assert (j' = j) as -> by congruence.
  unfold chunk_of in Hchunk. destruct (select j) as [sel| |] eqn:Hsj; [|done..]. simpl in Hchunk.
  unfold assemble in Hchunk. destruct (encode_all sel.1) as [bs| |] eqn:Hbs; [|done..]. simpl in Hchunk.
  pose proof (chunks_text_split (final_disp cs) cs k c Hc) as Htext. fold text in Htext.
  set (pre := chunks_text (final_disp cs) 0 (take k cs)) in *.
  set (post := chunks_text (final_disp cs) (S k) (drop (S k) cs)) in *.
  assert (Hpre : Z.of_nat (length pre) = offset cs k) by apply length_text_take. rewrite <- Hpre in Hrip.
  assert (Hnext := offset_S cs k c Hc).
  destruct (decide (j = Return)) as [->|Hret].
  { injection Hsj as <-. simpl in Hchunk. injection Hchunk as <-. simpl in Hbs.
    destruct (ret_encodes (E := JitModelError)) as (b & Hb & Hd). rewrite Hb in Hbs. injection Hbs as <-.
    destruct (sim_return r s pre post (b ++ []) ) as (s' & Hs' & Hret'); try done.
    { rewrite Htext. unfold chunk_bytes. simpl. by rewrite !app_nil_r. }
    { intros rest. by rewrite <- app_assoc, Hd. }
    exists 1%nat, s', r, Finish. by split_and!. }
  destruct (select_realises sp m0 (entry_sp _ _ _ _ _ entry) j sel r s Hsup Hret Hsj Hr)
    as (xs & s1 & r' & nx & Henc & Hstr & Hexec & Hstep & Hr1 & Hnx).
  destruct (cpu_steps_all base text sel.1 xs bs pre
              (match sel.2 with Some (bc, _) => branch_head bc ++ le_bytes 4 (final_disp cs k) | None => [] end ++ post)
              s s1 Henc Hbs Hstr) as [n Hn]; [|done|done|].
  { rewrite Htext. f_equal. destruct sel.2 as [[bc t]|]; injection Hchunk as <-; unfold chunk_bytes; simpl.
    - by rewrite <- !app_assoc.
    - by rewrite app_nil_r. }
  apply (related_with_rip _ _ (base + Z.of_nat (length pre) + Z.of_nat (length bs))) in Hr1.
  set (s2 := with_rip _ s1) in *.
  destruct sel.2 as [[bc t]|]; injection Hchunk as <-; unfold chunk_bytes, chunk_len in *; simpl in *.
  - destruct (sim_branch k (mkChunk (bs ++ branch_head bc) (Some t)) bc t r' s2 nx (pre ++ bs) post)
      as (s3 & Hs3 & Hcase); try done.
    { rewrite Htext. by rewrite <- !app_assoc. }
    { rewrite !length_app, length_le_bytes in *. lia. }
    { simpl. rewrite length_app. lia. }
    exists (n + 1)%nat, s3, r', nx. split_and!; [by eapply cpu_steps_add|done|].
    by destruct Hcase as [(-> & Ht & Hat)|[-> Hat]].
  - simpl in Hnx. subst nx. exists n, s2, r', Fall. split_and!; [done|done|].
    split; [done|]. simpl. lia.
Qed.
End Program.

(** ** Programs of the compiler model *)
Section Model.
Context {P : Profile}.
Variables (base sp ret : Z) (m0 : HostMemory).

Lemma sim_run program cs fuel k r s r' :
  selected (fun _ i => Ok i) program cs -> (forall k c, cs !! k = Some c -> branch_ok cs k c) ->
  entry_ok base sp ret m0 (Z.of_nat (length (ref_text cs))) -> Forall supported program ->
  at_pc cs base sp m0 k r s -> jit_run fuel program (Z.of_nat k) r = Some r' ->
  exists n s', cpu_steps base (ref_text cs) n s = Some s' /\ returned sp ret m0 r' s'.
Proof.
  intros Hsel Hbr Hentry Hsup. revert k r s. induction fuel as [|fuel IH]; intros k r s Hat Hrun; [done|].
  cbn [jit_run] in Hrun. rewrite get_lookup in Hrun.
  destruct (program !! k) as [i|] eqn:Hi; [|done]. cbn [mbind option_bind] in Hrun.
  destruct (sim_step (fun _ i => Ok i) program cs base sp ret m0 Hsel Hbr Hentry k i i r s Hi eq_refl)
    as (n & s1 & r1 & nx & Hn & Hstep & Hnx); [by eapply Forall_lookup_1|done|].
  rewrite Hstep in Hrun. simpl in Hrun.
  assert (Hrest : forall k', at_pc cs base sp m0 k' r1 s1 -> jit_run fuel program (Z.of_nat k') r1 = Some r' ->
    exists n s', cpu_steps base (ref_text cs) n s = Some s' /\ returned sp ret m0 r' s').
  { intros k' Hat' Hrun'. destruct (IH _ _ _ Hat' Hrun') as (n' & s' & Hn' & Hret).
    exists (n + n')%nat, s'. split; [by eapply cpu_steps_add|done]. }
  destruct nx as [|t|].
  - apply (Hrest (S k) Hnx). by rewrite Nat2Z.inj_succ.
  - destruct Hnx as [Ht Hat']. apply (Hrest (Z.to_nat t) Hat'). by rewrite Z2Nat.id by lia.
  - injection Hrun as <-. eauto.
Qed.

(** C19: Compiled code computes what the program means, for programs of 32-bit
    and 64-bit operations whose compared immediates fit the 32 bits of the
    encoding: entered with the sBPF registers in their places, where the
    reference semantics returns, it runs to the return address with the registers
    the semantics returns, the stack pointer popped and memory untouched outside
    the eight bytes below the stack. *)
Theorem compile_correct program text fuel r r' s :
  compile program = Ok text -> Forall supported program ->
  entry_ok base sp ret m0 (Z.of_nat (length text)) -> related sp m0 r s -> rip s = base ->
  jit_run fuel program 0 r = Some r' ->
  exists n s', cpu_steps base text n s = Some s' /\ returned sp ret m0 r' s'.
Proof.
  intros Hc Hsup Hentry Hr Hrip Hrun.
  apply (compile_with_ok (fun _ i => Ok i)) in Hc as (cs & Hsel & Hbr & ->).
  apply (sim_run program cs fuel 0 r s r'); try done. split; [done|]. rewrite Hrip. unfold offset. simpl. lia.
Qed.
End Model.
