(* ===== verification/JitInterp.v ===== *)
(** * Compiled code against the interpreter

    On the instructions where the safe compiler follows the version of the
    program, one step of [Interpreter.step] is one step of the reference
    semantics [JitSim.jit_step] of the instruction the compiler lowers it to.
    With [JitCorrect] this makes the compiled code compute the result the
    interpreter computes. *)

From stdpp Require Import gmap strings.
From S2P Require Import Prelude Ebpf Program X86 Jit JitLayout MemoryRegion MappingFacts X86Isa X86Decode.
From S2P Require Import JitSim JitCorrect Verifier Error Vm Interpreter.

(** ** The instructions on which both agree

    [add32], [sub32] sign-extend their result unless the version extends
    explicitly, [sub imm] swaps its operands and [mov32 reg] sign-extends where
    it does; the compiler does none of this, so those are left to the versions
    where they coincide. *)
Definition agreeing (v : SBPFVersion) : list Z :=
  [MOV32_IMM; MOV64_IMM; MOV64_REG; ADD64_IMM; ADD64_REG; SUB64_REG;
   OR32_IMM; OR32_REG; OR64_IMM; OR64_REG; AND32_IMM; AND32_REG; AND64_IMM; AND64_REG;
   XOR32_IMM; XOR32_REG; XOR64_IMM; XOR64_REG;
   LSH32_IMM; LSH32_REG; LSH64_IMM; LSH64_REG; RSH32_IMM; RSH32_REG; RSH64_IMM; RSH64_REG;
   ARSH32_IMM; ARSH32_REG; ARSH64_IMM; ARSH64_REG;
   JA; JEQ64_IMM; JEQ64_REG; JNE64_IMM; JNE64_REG; JSET64_IMM; JSET64_REG;
   JGT64_IMM; JGT64_REG; JGE64_IMM; JGE64_REG; JLT64_IMM; JLT64_REG; JLE64_IMM; JLE64_REG;
   JSGT64_IMM; JSGT64_REG; JSGE64_IMM; JSGE64_REG; JSLT64_IMM; JSLT64_REG; JSLE64_IMM; JSLE64_REG;
   EXIT] ++
  (if explicit_sign_extension_of_results v then [ADD32_IMM; ADD32_REG; SUB32_REG] else [MOV32_REG]) ++
  (if swap_sub_reg_imm_operands v then [] else [SUB64_IMM]) ++
  (if enable_jmp32 v then
     [JEQ32_IMM; JEQ32_REG; JNE32_IMM; JNE32_REG; JSET32_IMM; JSET32_REG;
      JGT32_IMM; JGT32_REG; JGE32_IMM; JGE32_REG; JLT32_IMM; JLT32_REG; JLE32_IMM; JLE32_REG;
      JSGT32_IMM; JSGT32_REG; JSGE32_IMM; JSGE32_REG; JSLT32_IMM; JSLT32_REG; JSLE32_IMM; JSLE32_REG]
   else []).

(** ** Values *)
Lemma lor_as_u n a b : 0 <= n -> Z.lor (as_u n a) (as_u n b) = as_u n (Z.lor a b).
Proof. by_bits n. Qed.
Lemma land_as_u n a b : 0 <= n -> Z.land (as_u n a) (as_u n b) = as_u n (Z.land a b).
Proof. by_bits n. Qed.
Lemma lxor_as_u n a b : 0 <= n -> Z.lxor (as_u n a) (as_u n b) = as_u n (Z.lxor a b).
Proof. by_bits n. Qed.

Section Values.
Variables (a b : Z).

Lemma or32_value : or32 a b = alu_value 32 Or a b.
Proof. by apply lor_as_u. Qed.
Lemma and32_value : and32 a b = alu_value 32 And a b.
Proof. by apply land_as_u. Qed.
Lemma xor32_value : xor32 a b = alu_value 32 Xor a b.
Proof. by apply lxor_as_u. Qed.
Lemma add32_value v : explicit_sign_extension_of_results v = true -> add32 v a b = alu_value 32 Add a b.
Proof.
  intros Hv. unfold add32, sign_extension, wrapping_i32, alu_value. rewrite Hv, as_u_as_i by lia.
  rewrite <- as_u_add, !as_u_as_i, as_u_add by lia. done.
Qed.
Lemma sub32_value v : explicit_sign_extension_of_results v = true -> sub32 v a b = alu_value 32 Subtract a b.
Proof.
  intros Hv. unfold sub32, sign_extension, wrapping_i32, alu_value. rewrite Hv, as_u_as_i by lia.
  rewrite <- as_u_sub_idem, !as_u_as_i, as_u_sub_idem by lia. done.
Qed.

Hypothesis a_u64 : is_u 64 a.

Lemma add64_value : add64 a b = alu_value 64 Add a b.
Proof. unfold add64, alu_value. rewrite <- as_u_add, as_u_idem, as_u_add by lia. done. Qed.
Lemma sub64_value : sub64 a b = alu_value 64 Subtract a b.
Proof. unfold sub64, alu_value. by rewrite as_u_sub_idem by lia. Qed.
Lemma or64_value : or64 a b = alu_value 64 Or a b.
Proof. unfold or64, alu_value. rewrite <- lor_as_u by lia. by rewrite (as_u_small 64 a). Qed.
Lemma and64_value : and64 a b = alu_value 64 And a b.
Proof. unfold and64, alu_value. rewrite <- land_as_u by lia. by rewrite (as_u_small 64 a). Qed.
Lemma xor64_value : xor64 a b = alu_value 64 Xor a b.
Proof. unfold xor64, alu_value. rewrite <- lxor_as_u by lia. by rewrite (as_u_small 64 a). Qed.

(** A count taken from a wider integer. *)
Lemma count_mod n m c : 0 < n -> (n | 2 ^ m) -> as_u m c mod n = c mod n.
Proof. intros. unfold as_u. by apply Z.mod_mod_divide. Qed.

Lemma divides_pow2 n m : 0 <= n <= m -> (2 ^ n | 2 ^ m).
Proof. intros. exists (2 ^ (m - n)). rewrite <- Z.pow_add_r by lia. f_equal. lia. Qed.

Lemma count32 m c : 5 <= m -> as_u m c mod 32 = c mod 32.
Proof. intros. apply count_mod; [lia|]. apply (divides_pow2 5). lia. Qed.
Lemma count64 m c : 6 <= m -> as_u m c mod 64 = c mod 64.
Proof. intros. apply count_mod; [lia|]. apply (divides_pow2 6). lia. Qed.

Lemma shr_small n k z : 0 <= n -> 0 <= k -> is_u n z -> as_u n (Z.shiftr z k) = Z.shiftr z k.
Proof.
  intros Hn Hk Hz. apply as_u_small. unfold is_u in *. rewrite Z.shiftr_div_pow2 by done.
  split; [apply Z.div_pos; lia|]. apply Z.div_lt_upper_bound; [lia|].
  pose proof (Z.pow_pos_nonneg 2 k ltac:(lia) Hk). nia.
Qed.

Lemma lsh32_value : lsh32 a b = shift_value 32 Left a b.
Proof.
  unfold lsh32, wrapping_shl, shift_value. rewrite count32 by lia.
  rewrite !Z.shiftl_mul_pow2 by (apply Z.mod_pos_bound; lia). unfold as_u. by rewrite Z.mul_mod_idemp_l by lia.
Qed.
Lemma rsh32_value : rsh32 a b = shift_value 32 Right a b.
Proof.
  unfold rsh32, wrapping_shr, shift_value. rewrite count32, shr_small; try lia; try done.
  - by apply Z.mod_pos_bound.
  - by apply as_u_range.
Qed.
Lemma arsh32_value : arsh32 a b = shift_value 32 ArithmeticRight a b.
Proof. unfold arsh32, wrapping_shr, shift_value. by rewrite count32 by lia. Qed.
Lemma lsh64_value : lsh64 a b = shift_value 64 Left a b.
Proof. unfold lsh64, wrapping_shl, shift_value. by rewrite count64 by lia. Qed.
Lemma rsh64_value : rsh64 a b = shift_value 64 Right a b.
Proof.
  unfold rsh64, wrapping_shr, shift_value. rewrite count64, (as_u_small 64 a), shr_small; try lia; try done.
  by apply Z.mod_pos_bound.
Qed.
Lemma arsh64_value : arsh64 a b = shift_value 64 ArithmeticRight a b.
Proof. unfold arsh64, wrapping_shr, shift_value. by rewrite count64 by lia. Qed.

(** The immediate of a shift is cut to a byte by the lowering. *)
Lemma shift_imm32 op : shift_value 32 op a (as_u 8 b) = shift_value 32 op a b.
Proof. unfold shift_value. by rewrite count32 by lia. Qed.
Lemma shift_imm64 op : shift_value 64 op a (as_u 8 b) = shift_value 64 op a b.
Proof. unfold shift_value. by rewrite count64 by lia. Qed.
End Values.

(** ** One instruction on the registers alone *)

(** The shapes of the arms the agreeing opcodes select. *)
Inductive shape :=
| OnImm (f : Z -> Z -> Z)
| OnReg (f : Z -> Z -> Z)
| SetImm (f : Z -> Z)
| SetReg (f : Z -> Z)
| JumpAlways
| JumpOnImm (test : Z -> Z -> bool)
| JumpOnReg (test : Z -> Z -> bool)
| ExitShape.

Section Shapes.
Context {V C : Type} {P : Profile} `{ByteOrder, ContextObject C, VmMemory C, Builtins V C}.
Variables (v : SBPFVersion) (config : Config) (insn : Insn) (next_pc : Z).

Definition shape_body (sh : shape) : @interp V C Z :=
  match sh with
  | OnImm f => dst_imm insn next_pc f
  | OnReg f => dst_src insn next_pc f
  | SetImm f => _ ← wr (dst insn) (f (imm insn)); mret next_pc
  | SetReg f => b ← rd (src insn); _ ← wr (dst insn) (f b); mret next_pc
  | JumpAlways => jump_if insn next_pc true
  | JumpOnImm test => jump_imm insn next_pc test
  | JumpOnReg test => jump_src insn next_pc test
  | ExitShape => exit config
  end.

(** What a shape does to the registers, and where control goes. *)
Definition shape_step (sh : shape) (t : Z) (r : list Z) : option (list Z * next) :=
  match sh with
  | OnImm f => a ← get r (dst insn); (fun r => (r, Fall)) <$> set r (dst insn) (f a (imm insn))
  | OnReg f =>
      a ← get r (dst insn); b ← get r (src insn); (fun r => (r, Fall)) <$> set r (dst insn) (f a b)
  | SetImm f => (fun r => (r, Fall)) <$> set r (dst insn) (f (imm insn))
  | SetReg f => b ← get r (src insn); (fun r => (r, Fall)) <$> set r (dst insn) (f b)
  | JumpAlways => Some (r, Goto t)
  | JumpOnImm test => a ← get r (dst insn); Some (r, branch_if (test a (imm insn)) t)
  | JumpOnReg test => a ← get r (dst insn); b ← get r (src insn); Some (r, branch_if (test a b) t)
  | ExitShape => Some (r, Finish)
  end.
End Shapes.

Definition shapes (v : SBPFVersion) : list (Z * shape) :=
  [(MOV32_IMM, SetImm (as_u 32)); (MOV64_IMM, SetImm (as_u 64)); (MOV64_REG, SetReg id);
   (ADD64_IMM, OnImm add64); (ADD64_REG, OnReg add64); (SUB64_REG, OnReg sub64);
   (OR32_IMM, OnImm or32); (OR32_REG, OnReg or32); (OR64_IMM, OnImm or64); (OR64_REG, OnReg or64);
   (AND32_IMM, OnImm and32); (AND32_REG, OnReg and32); (AND64_IMM, OnImm and64); (AND64_REG, OnReg and64);
   (XOR32_IMM, OnImm xor32); (XOR32_REG, OnReg xor32); (XOR64_IMM, OnImm xor64); (XOR64_REG, OnReg xor64);
   (LSH32_IMM, OnImm lsh32); (LSH32_REG, OnReg lsh32); (LSH64_IMM, OnImm lsh64); (LSH64_REG, OnReg lsh64);
   (RSH32_IMM, OnImm rsh32); (RSH32_REG, OnReg rsh32); (RSH64_IMM, OnImm rsh64); (RSH64_REG, OnReg rsh64);
   (ARSH32_IMM, OnImm arsh32); (ARSH32_REG, OnReg arsh32);
   (ARSH64_IMM, OnImm arsh64); (ARSH64_REG, OnReg arsh64);
   (JA, JumpAlways);
   (JEQ64_IMM, JumpOnImm (u64_test Z.eqb)); (JEQ64_REG, JumpOnReg (u64_test Z.eqb));
   (JNE64_IMM, JumpOnImm (u64_test differ)); (JNE64_REG, JumpOnReg (u64_test differ));
   (JSET64_IMM, JumpOnImm (u64_test is_set)); (JSET64_REG, JumpOnReg (u64_test is_set));
   (JGT64_IMM, JumpOnImm (u64_test Z.gtb)); (JGT64_REG, JumpOnReg (u64_test Z.gtb));
   (JGE64_IMM, JumpOnImm (u64_test Z.geb)); (JGE64_REG, JumpOnReg (u64_test Z.geb));
   (JLT64_IMM, JumpOnImm (u64_test Z.ltb)); (JLT64_REG, JumpOnReg (u64_test Z.ltb));
   (JLE64_IMM, JumpOnImm (u64_test Z.leb)); (JLE64_REG, JumpOnReg (u64_test Z.leb));
   (JSGT64_IMM, JumpOnImm (i64_test Z.gtb)); (JSGT64_REG, JumpOnReg (i64_test Z.gtb));
   (JSGE64_IMM, JumpOnImm (i64_test Z.geb)); (JSGE64_REG, JumpOnReg (i64_test Z.geb));
   (JSLT64_IMM, JumpOnImm (i64_test Z.ltb)); (JSLT64_REG, JumpOnReg (i64_test Z.ltb));
   (JSLE64_IMM, JumpOnImm (i64_test Z.leb)); (JSLE64_REG, JumpOnReg (i64_test Z.leb));
   (EXIT, ExitShape)] ++
  (if explicit_sign_extension_of_results v
   then [(ADD32_IMM, OnImm (add32 v)); (ADD32_REG, OnReg (add32 v)); (SUB32_REG, OnReg (sub32 v))]
   else [(MOV32_REG, SetReg (as_u 32))]) ++
  (if swap_sub_reg_imm_operands v then [] else [(SUB64_IMM, OnImm sub64)]) ++
  (if enable_jmp32 v then
     [(JEQ32_IMM, JumpOnImm (u32_test Z.eqb)); (JEQ32_REG, JumpOnReg (u32_test Z.eqb));
      (JNE32_IMM, JumpOnImm (u32_test differ)); (JNE32_REG, JumpOnReg (u32_test differ));
      (JSET32_IMM, JumpOnImm (u32_test is_set)); (JSET32_REG, JumpOnReg (u32_test is_set));
      (JGT32_IMM, JumpOnImm (u32_test Z.gtb)); (JGT32_REG, JumpOnReg (u32_test Z.gtb));
      (JGE32_IMM, JumpOnImm (u32_test Z.geb)); (JGE32_REG, JumpOnReg (u32_test Z.geb));
      (JLT32_IMM, JumpOnImm (u32_test Z.ltb)); (JLT32_REG, JumpOnReg (u32_test Z.ltb));
      (JLE32_IMM, JumpOnImm (u32_test Z.leb)); (JLE32_REG, JumpOnReg (u32_test Z.leb));
      (JSGT32_IMM, JumpOnImm (i32_test Z.gtb)); (JSGT32_REG, JumpOnReg (i32_test Z.gtb));
      (JSGE32_IMM, JumpOnImm (i32_test Z.geb)); (JSGE32_REG, JumpOnReg (i32_test Z.geb));
      (JSLT32_IMM, JumpOnImm (i32_test Z.ltb)); (JSLT32_REG, JumpOnReg (i32_test Z.ltb));
      (JSLE32_IMM, JumpOnImm (i32_test Z.leb)); (JSLE32_REG, JumpOnReg (i32_test Z.leb))]
   else []).

Lemma agreeing_shapes v : agreeing v = (shapes v).*1.
Proof. by destruct v. Qed.

(** The interpreter's arm for an agreeing opcode has the shape of the table. *)
Section Tables.
Context {V C : Type} {P : Profile} `{ByteOrder, ContextObject C, VmMemory C, Builtins V C}.

Lemma arm_shape v config insn next_pc o sh d :
  (o, sh) ∈ shapes v -> opc insn = o ->
  match_opc (opc insn) (step_arms (V := V) (C := C) v config insn next_pc) d =
    shape_body config insn next_pc sh.
Proof.
  intros Hsh ->. destruct v; simpl in Hsh;
    repeat (apply elem_of_cons in Hsh as [[= -> ->]|Hsh]; [reflexivity|]); by apply elem_of_nil in Hsh.
Qed.

Lemma get_u64 r d a : Forall (is_u 64) r -> get r d = Some a -> is_u 64 a.
Proof.
  unfold get. intros Hr. destruct (d <? 0); [done|]. intros Ha. by eapply (Forall_lookup_1 (is_u 64)).
Qed.

Lemma branch_target_eq pc o t : branch_target pc o = Ok t -> t = pc + o + 1 /\ is_u 64 t.
Proof.
  unfold branch_target, u64_max, is_u. destruct (Z.ltb_spec (pc + o + 1) 0), (Z.ltb_spec (2 ^ 64 - 1) (pc + o + 1));
    simpl; intros [= <-]; split; lia.
Qed.

Lemma is_i_32_64 z : is_i 32 z -> is_i 64 z.
Proof. unfold is_i. lia. Qed.

Lemma u64_test_value test a b : is_u 64 a -> u64_test test a b = test (as_u 64 a) (as_u 64 b).
Proof. intros. unfold u64_test. by rewrite (as_u_small 64 a). Qed.

(** Equality of two register operations given the values they read. *)
Ltac value_eq :=
  rewrite ?add64_value, ?sub64_value, ?or64_value, ?and64_value, ?xor64_value, ?or32_value, ?and32_value,
    ?xor32_value, ?lsh32_value, ?rsh32_value, ?arsh32_value, ?lsh64_value, ?rsh64_value, ?arsh64_value,
    ?add32_value, ?sub32_value, ?shift_imm32, ?shift_imm64, ?u64_test_value, ?as_u_small by done;
  unfold u32_test, i32_test, i64_test, differ, is_set;
  rewrite ?Z.gtb_ltb, ?Z.geb_leb; try reflexivity.

Ltac read_reg Hr :=
  match goal with
  | |- context [get ?r ?d] =>
      let H := fresh "Hget" in destruct (get r d) eqn:H; [apply (get_u64 _ _ _ Hr) in H|reflexivity]
  end.

(** One opcode: compute the lowering, then compare the two operations. *)
Ltac lowered Ho Hl Hr :=
  clear Ho; cbn -[branch_target as_u] in Hl;
  try (match type of Hl with context [branch_target ?pc ?o] =>
         let t := fresh "t" in let Ht := fresh "Ht" in
         destruct (branch_target pc o) as [t| |] eqn:Ht; [|done..];
         apply branch_target_eq in Ht as [-> ?]; cbn -[as_u] in Hl end);
  injection Hl as <-; split; [try done|];
  cbn [jit_step shape_step]; repeat read_reg Hr; cbn [mbind option_bind];
  change (bits S32) with 32; change (bits S64) with 64; unfold compare, bits_common; value_eq.

Lemma lowered_shape v insn o sh pc j r :
  (o, sh) ∈ shapes v -> opc insn = o -> wf_insn insn -> lower_sbpf_instruction pc insn = Ok j ->
  Forall (is_u 64) r ->
  supported j /\ jit_step j r = shape_step insn sh (pc + off insn + 1) r.
Proof.
  intros Hsh Ho Hwf Hl Hr. unfold lower_sbpf_instruction, lower_alu_instruction, lower_jump_instruction in Hl.
  rewrite Ho in Hl. pose proof (wf_imm _ Hwf) as Himm. pose proof (is_i_32_64 _ Himm).
  assert (is_u 8 (as_u 8 (imm insn))) by (apply as_u_range; lia).
  assert (wide S32) by by left. assert (wide S64) by by right.
  unfold shapes in Hsh. rewrite !elem_of_app in Hsh.
  destruct Hsh as [Hsh|[Hsh|[Hsh|Hsh]]]; [|destruct (explicit_sign_extension_of_results v) eqn:Hv
    |destruct (swap_sub_reg_imm_operands v)|destruct (enable_jmp32 v)].
  all: repeat (apply elem_of_cons in Hsh as [[= -> ->]|Hsh]; [by lowered Ho Hl Hr|]).
  all: by apply elem_of_nil in Hsh.
Qed.
End Tables.
