(* ===== verification/JitInterpRun.v ===== *)
(** * Compiled code returns what the interpreter returns

    The interpreter's run of a program of agreeing instructions, followed slot
    by slot by the processor on the compiled text. *)

From stdpp Require Import gmap strings.
From S2P Require Import Prelude Ebpf Program X86 Jit JitLayout MemoryRegion MappingFacts X86Isa X86Decode.
From S2P Require Import JitSim JitCorrect Verifier VerifierFacts Error Vm Interpreter JitInterp.

(** ** The interpreter's step on an agreeing instruction *)
Section Step.
Context {V C : Type} {P : Profile} {B : ByteOrder} `{!ByteOrderLaws}.
Context `{CO : ContextObject C, M : VmMemory C, BF : Builtins V C}.

Definition with_reg (r : list Z) (s : Interpreter V C) : Interpreter V C :=
  mkInterp (vm s) (executable s) (program s) (program_vm_addr s) (call_frames s) r.

Lemma get_snoc (r : list Z) p d a : get r d = Some a -> get (r ++ [p]) d = Some a.
Proof. unfold get. destruct (d <? 0); [done|]. apply lookup_app_l_Some. Qed.

Lemma set_snoc (r r' : list Z) p d a : set r d a = Some r' -> set (r ++ [p]) d a = Some (r' ++ [p]).
Proof.
  unfold set. rewrite length_app. destruct (Z.leb_spec 0 d), (Z.ltb_spec d (Z.of_nat (length r))); simpl; try done.
  intros [= <-]. destruct (Z.ltb_spec d (Z.of_nat (length r + 1))); [|lia].
  f_equal. apply insert_app_l. lia.
Qed.

Lemma rd_snoc (s : Interpreter V C) r p d a : reg s = r ++ [p] -> get r d = Some a -> rd d s = (Next a, s).
Proof. intros Hs Ha. unfold rd. by rewrite Hs, (get_snoc _ _ _ _ Ha). Qed.

Lemma wr_snoc (s : Interpreter V C) r r' p d a :
  reg s = r ++ [p] -> set r d a = Some r' -> wr d a s = (Next tt, with_reg (r' ++ [p]) s).
Proof. intros Hs Ha. unfold wr. by rewrite Hs, (set_snoc _ _ _ _ _ Ha). Qed.

Lemma jump_if_run insn k t c s :
  0 <= k < 2 ^ 60 -> t = k + off insn + 1 -> (c = true -> is_u 64 t) -> is_i 16 (off insn) ->
  jump_if (V := V) (C := C) insn (k + 1) c s = (Next (if c then t else k + 1), s).
Proof.
  intros Hk -> Ht Ho. unfold jump_if, is_i in *. destruct c; [|done]. specialize (Ht eq_refl). unfold is_u in Ht.
  rewrite as_i_small by (unfold is_i; lia). rewrite arith_i64_ok by (unfold is_i; lia).
  unfold mbind, interp_bind, lift, mret, interp_ret. rewrite as_u_small by (unfold is_u; lia).
  do 2 f_equal. lia.
Qed.

(** Where control goes from slot [k]. *)
Definition next_slot (k : Z) (nx : next) : Z := match nx with Goto t => t | _ => k + 1 end.

Lemma shape_run config insn k sh r r' nx s p t :
  reg s = r ++ [p] -> 0 <= k < 2 ^ 60 -> is_i 16 (off insn) -> t = k + off insn + 1 ->
  shape_step insn sh t r = Some (r', nx) -> (forall t', nx = Goto t' -> is_u 64 t') ->
  shape_body (V := V) (C := C) config insn (k + 1) sh s =
    match nx with
    | Finish => exit config s
    | _ => (Next (next_slot k nx), with_reg (r' ++ [p]) s)
    end.
Proof.
  intros Hs Hk Ho Ht Hstep Hgoto.
  assert (Hreg : with_reg (r ++ [p]) s = s) by (rewrite <- Hs; by destruct s).
  assert (Hjump : forall c, nx = branch_if c t -> (c = true -> is_u 64 t)) by (intros [] -> ?; [by apply Hgoto|done]).
  destruct sh; cbn [shape_step] in Hstep; cbn [shape_body];
    unfold dst_imm, dst_src, jump_imm, jump_src, mbind, interp_bind, mret, interp_ret;
    repeat (apply bind_Some in Hstep as (? & Hget & Hstep); rewrite (rd_snoc _ _ _ _ _ Hs Hget); clear Hget);
    try (apply fmap_Some in Hstep as (r1 & Hset & [= -> ->]); by rewrite (wr_snoc _ _ _ _ _ _ Hs Hset)).
  1: rewrite (jump_if_run _ _ t true); auto; [|by apply (Hjump true); injection Hstep].
  2, 3: injection Hstep as <- <-; rewrite (jump_if_run _ _ t) by eauto; by destruct (test _ _); simpl; rewrite Hreg.
  2: by injection Hstep as <- <-.
  injection Hstep as <- <-. simpl. by rewrite Hreg.
Qed.

Lemma throw_run {A} err (s : Interpreter V C) r k :
  length r = 11%nat -> reg s = r ++ [k] ->
  exists s', throw_error (A := A) err s = (Return false, s') /\ program_result (vm s') = StErr err.
Proof.
  intros Hl Hs. unfold throw_error, mbind, interp_bind, rd. rewrite Hs.
  assert (Hg : get (r ++ [k]) 11 = Some k).
  { unfold get. simpl. by rewrite lookup_app_r, Hl by lia. }
  rewrite Hg. simpl. eauto.
Qed.

(** The interpreter stands at slot [k] of [prog], outside any call. *)
Record at_slot (e : Executable V) (prog : list byte) (k : Z) (r : list Z) (s : Interpreter V C) : Prop := {
  slot_executable : executable s = e;
  slot_program : program s = prog;
  slot_reg : reg s = r ++ [k];
  slot_depth : call_depth (vm s) = 0
}.

Lemma at_slot_vm e prog k r s m' :
  at_slot e prog k r s -> call_depth m' = 0 ->
  at_slot e prog k r (mkInterp m' (executable s) (program s) (program_vm_addr s) (call_frames s) (reg s)).
Proof. by intros [] ?. Qed.

Variables (cfg : Config) (e : Executable V) (prog : list byte).
Hypothesis exec_config : config (exec_loader e) = Some cfg.
Hypothesis prog_length : Z.of_nat (length prog) < 2 ^ 63.

(** How a step can end: with an error, with a panic of the checked build (the
    instruction counter overflows), or as the semantics says. *)
Definition fails (o : flow bool * Interpreter V C) : Prop :=
  o.1 = Unwind \/ exists err, o.1 = Return false /\ program_result (vm o.2) = StErr err.

Lemma exit_run s r k :
  at_slot e prog k r s -> length r = 11%nat ->
  exists s', exit cfg s = (Return false, s') /\
    ((exists err, program_result (vm s') = StErr err) \/
     (exists x, get r 0 = Some x /\ program_result (vm s') = StOk x)).
Proof.
  intros Hs Hl. unfold exit, mbind, interp_bind, gets. rewrite (slot_depth _ _ _ _ _ Hs). simpl (0 =? 0).
  cbn [negb]. destruct (_ && _).
  - destruct (throw_run (A := unit) ExceededMaxInstructions s r k Hl (slot_reg _ _ _ _ _ Hs)) as (s' & Hs' & Hr).
    rewrite Hs'. eexists. split; [done|]. left. eauto.
  - destruct (get_Some r 0) as [x Hx]; [lia|]. unfold mret, interp_ret.
    rewrite (rd_snoc s r k 0 x (slot_reg _ _ _ _ _ Hs) Hx). simpl.
    eexists. split; [done|]. right. eauto.
Qed.

Lemma jit_step_length j r r' nx : jit_step j r = Some (r', nx) -> length r' = length r.
Proof.
  assert (Hset : forall d v (r r' : list Z), set r d v = Some r' -> length r' = length r).
  { intros d v r0 r1. unfold set. destruct (_ && _); intros [= <-]. apply length_insert. }
  destruct j; cbn [jit_step]; intros Hj;
    repeat (apply bind_Some in Hj as (? & ? & Hj)); simplify_eq; eauto.
Qed.

Lemma jit_step_finish j r r' : jit_step j r = Some (r', Finish) -> r' = r.
Proof.
  destruct j; cbn [jit_step]; intros Hj; repeat (apply bind_Some in Hj as (? & ? & Hj)); simplify_eq; try done;
    unfold branch_if in *; case_match; naive_solver.
Qed.

Lemma bind_next {A A'} (m : @interp V C A) (f : A -> @interp V C A') s a s' :
  m s = (Next a, s') -> (m ≫= f) s = f a s'.
Proof. intros H0. unfold mbind, interp_bind. by rewrite H0. Qed.
Lemma bind_return {A A'} (m : @interp V C A) (f : A -> @interp V C A') s b s' :
  m s = (Return b, s') -> (m ≫= f) s = (Return b, s').
Proof. intros H0. unfold mbind, interp_bind. by rewrite H0. Qed.
Lemma bind_unwind {A A'} (m : @interp V C A) (f : A -> @interp V C A') s s' :
  m s = (Unwind, s') -> (m ≫= f) s = (Unwind, s').
Proof. intros H0. unfold mbind, interp_bind. by rewrite H0. Qed.

Lemma lift_ok_run {A} (r : result False A) a (s : Interpreter V C) : r = Ok a -> Interpreter.lift r s = (Next a, s).
Proof. by intros ->. Qed.

Lemma step_agreeing k j r r' nx s :
  0 <= k < slots prog -> is_bytes prog -> opc (slot prog k) ∈ agreeing (sbpf_version e) ->
  lower_sbpf_instruction k (slot prog k) = Ok j -> jit_step j r = Some (r', nx) ->
  (forall t, nx = Goto t -> is_u 64 t) -> length r = 11%nat -> Forall (is_u 64) r ->
  at_slot e prog k r s ->
  fails (step s) \/
  match nx with
  | Finish => exists s' x, step s = (Return false, s') /\ get r 0 = Some x /\ program_result (vm s') = StOk x
  | _ => exists s', step s = (Next true, s') /\ at_slot e prog (next_slot k nx) r' s'
  end.
Proof.
  intros Hk Hb Hop Hlow Hstep Hgoto Hl Hu Hs.
  rewrite agreeing_shapes in Hop. apply list_elem_of_fmap in Hop as ([o sh] & Ho & Hsh). cbn [fst] in Ho.
  assert (Hwf : wf_insn (slot prog k)) by by apply slot_well_formed.
  destruct (lowered_shape _ _ _ _ _ _ r Hsh Ho Hwf Hlow Hu) as [_ Heq]. rewrite Hstep in Heq.
  pose proof (slots_bound prog) as Hslots.
  assert (Hfetch : get_insn_unchecked (E := False) prog k = Ok (slot prog k)) by (apply slot_get_unchecked; [done|lia]).
  generalize dependent (slot prog k). intros insn Ho Hlow Hwf Heq Hfetch.
  unfold step. erewrite bind_next by reflexivity. rewrite (slot_executable _ _ _ _ _ Hs).
  erewrite bind_next by (apply lift_ok_run; unfold get_config; by rewrite exec_config).
  erewrite bind_next by reflexivity. set (m := vm s).
  destruct (_ && _).
  { destruct (throw_run (A := unit) ExceededMaxInstructions s r k Hl (slot_reg _ _ _ _ _ Hs)) as (s' & Ht & Hr).
    left. right. rewrite (bind_return _ _ _ _ _ Ht). simpl. eauto. }
  erewrite bind_next by reflexivity.
  destruct (arith_u64 (E := False) (due_insn_count m + 1)) as [due|[]|].
  2: { left. left. by erewrite bind_unwind by reflexivity. }
  erewrite bind_next by reflexivity. erewrite bind_next by reflexivity.
  set (s1 := mkInterp _ _ _ _ _ _).
  assert (Hs1 : at_slot e prog k r s1) by (apply (at_slot_vm _ _ _ _ s); [done|apply Hs]).
  clearbody s1. subst m. clear s Hs. rename s1 into s. rename Hs1 into Hs.
  assert (Hrd : rd 11 s = (Next k, s)).
  { unfold rd. rewrite (slot_reg _ _ _ _ _ Hs). unfold get. simpl. by rewrite lookup_app_r, Hl by lia. }
  rewrite (bind_next _ _ _ _ _ Hrd). erewrite bind_next by reflexivity. rewrite (slot_program _ _ _ _ _ Hs).
  unfold INSN_SIZE. erewrite bind_next by (apply lift_ok_run, arith_u64_ok; unfold is_u; lia).
  rewrite (proj2 (Z.leb_gt _ _)) by lia. erewrite bind_next by reflexivity.
  erewrite bind_next by (apply lift_ok_run, arith_u64_ok; unfold is_u; lia).
  erewrite bind_next by (apply lift_ok_run; exact Hfetch). erewrite bind_next by reflexivity.
  assert (Htrace : exists s2, (if enable_register_tracing cfg then put_vm (push_trace (reg s)) else mret ()) s =
            (Next tt, s2) /\ at_slot e prog k r s2).
  { destruct (enable_register_tracing cfg); [|by exists s]. eexists. split; [done|].
    apply (at_slot_vm _ _ _ _ s); [done|]. apply Hs. }
  destruct Htrace as (s2 & Htr & Hs2). rewrite (bind_next _ _ _ _ _ Htr).
  rewrite (arm_shape _ cfg insn (k + 1) o sh _ Hsh Ho).
  pose proof (shape_run cfg insn k sh r r' nx s2 k _ (slot_reg _ _ _ _ _ Hs2) ltac:(lia) (wf_off _ Hwf)
                eq_refl (eq_sym Heq) Hgoto) as Hrun.
  pose proof (jit_step_length _ _ _ _ Hstep) as Hl'.
  assert (Hgo : forall t, shape_body cfg insn (k + 1) sh s2 = (Next t, with_reg (r' ++ [k]) s2) ->
    exists s', (shape_body cfg insn (k + 1) sh ≫= fun next_pc => _ ← wr 11 next_pc; mret true) s2 = (Next true, s') /\
      at_slot e prog t r' s').
  { intros t Ht. rewrite (bind_next _ _ _ _ _ Ht).
    assert (Hwr : wr 11 t (with_reg (r' ++ [k]) s2) = (Next tt, with_reg (r' ++ [t]) s2)).
    { unfold wr, set. simpl. rewrite length_app, Hl', Hl. simpl.
      change (Pos.to_nat 11) with 11%nat. rewrite insert_app_r_alt by lia. by rewrite Hl', Hl. }
    rewrite (bind_next _ _ _ _ _ Hwr). eexists. split; [done|]. by destruct Hs2. }
  destruct nx as [|t|]; [right; by apply Hgo|right; by apply Hgo|].
  destruct (exit_run s2 r k Hs2 Hl) as (s' & Hex & Hcase). rewrite Hex in Hrun.
  rewrite (bind_return _ _ _ _ _ Hrun). destruct Hcase as [Herr|(x & Hx & Hr)].
  - left. right. destruct Herr as [err Herr]. simpl. eauto.
  - right. eauto.
Qed.

(** At the end of the text the interpreter reports an overrun. *)
Lemma step_overrun r s :
  Z.of_nat (length prog) = 8 * slots prog -> length r = 11%nat -> at_slot e prog (slots prog) r s -> fails (step s).
Proof.
  intros Halign Hl Hs. unfold step. pose proof (slots_bound prog).
  erewrite bind_next by reflexivity. rewrite (slot_executable _ _ _ _ _ Hs).
  erewrite bind_next by (apply lift_ok_run; unfold get_config; by rewrite exec_config).
  erewrite bind_next by reflexivity. set (m := vm s).
  destruct (_ && _).
  { destruct (throw_run (A := unit) ExceededMaxInstructions s r _ Hl (slot_reg _ _ _ _ _ Hs)) as (s' & Ht & Hr).
    right. rewrite (bind_return _ _ _ _ _ Ht). simpl. eauto. }
  erewrite bind_next by reflexivity.
  destruct (arith_u64 (E := False) (due_insn_count m + 1)) as [due|[]|].
  2: { left. by erewrite bind_unwind by reflexivity. }
  erewrite bind_next by reflexivity. erewrite bind_next by reflexivity.
  set (s1 := mkInterp _ _ _ _ _ _).
  assert (Hs1 : at_slot e prog (slots prog) r s1) by (apply (at_slot_vm _ _ _ _ s); [done|apply Hs]).
  assert (Hrd : rd 11 s1 = (Next (slots prog), s1)).
  { unfold rd. rewrite (slot_reg _ _ _ _ _ Hs1). unfold get. simpl. by rewrite lookup_app_r, Hl by lia. }
  rewrite (bind_next _ _ _ _ _ Hrd). erewrite bind_next by reflexivity. rewrite (slot_program _ _ _ _ _ Hs1).
  unfold INSN_SIZE. erewrite bind_next by (apply lift_ok_run, arith_u64_ok; unfold is_u; lia).
  rewrite (proj2 (Z.leb_le _ _)) by lia.
  destruct (throw_run (A := unit) ExecutionOverrun s1 r _ Hl (slot_reg _ _ _ _ _ Hs1)) as (s' & Ht & Hr).
  right. rewrite (bind_return _ _ _ _ _ Ht). simpl. eauto.
Qed.

(** A failing step ends the run without a result. *)
Lemma fails_no_result fuel s s' x :
  fails (step s) -> run_interpreter fuel s = Some (Ok s') -> program_result (vm s') <> StOk x.
Proof.
  intros Hf. destruct fuel as [|fuel]; [done|]. cbn [run_interpreter]. unfold call.
  destruct (step s) as [o s1]. destruct Hf as [Ho|(err & Ho & Hr)]; simpl in Ho; subst o; simpl; [done|].
  intros [= <-]. simpl in Hr. by rewrite Hr.
Qed.

(** The program as the compiler receives it. *)
Definition decode_program : list Insn := (fun k => slot prog (Z.of_nat k)) <$> seq 0 (length prog / 8).

Lemma decode_lookup k : 0 <= k < slots prog -> decode_program !! Z.to_nat k = Some (slot prog k).
Proof.
  intros Hk. unfold decode_program. rewrite list_lookup_fmap, lookup_seq_lt.
  - simpl. by rewrite Z2Nat.id by lia.
  - unfold slots in Hk. pose proof (Nat2Z.inj_div (length prog) 8). simpl in *. lia.
Qed.

Lemma length_decode : Z.of_nat (length decode_program) = slots prog.
Proof. unfold decode_program, slots. rewrite length_fmap, length_seq, Nat2Z.inj_div. done. Qed.
End Step.

(** ** Runs *)
Section Run.
Context {V C : Type} {P : Profile} {B : ByteOrder} `{!ByteOrderLaws}.
Context `{CO : ContextObject C, M : VmMemory C, BF : Builtins V C}.
Variables (cfg : Config) (e : Executable V) (prog : list byte).

(** The programs the comparison is about: whole slots of agreeing opcodes. *)
Record comparable : Prop := {
  cmp_config : config (exec_loader e) = Some cfg;
  cmp_bytes : is_bytes prog;
  cmp_length : Z.of_nat (length prog) < 2 ^ 63;
  cmp_aligned : Z.of_nat (length prog) = 8 * slots prog;
  cmp_opcodes : Forall (fun i => opc i ∈ agreeing (sbpf_version e)) (decode_program prog)
}.

Variables (base sp ret : Z) (m0 : HostMemory).

Lemma run_agreeing cs fuel k r s s' x ms :
  comparable -> selected lower_sbpf_instruction (decode_program prog) cs ->
  (forall k c, cs !! k = Some c -> branch_ok cs k c) ->
  entry_ok base sp ret m0 (Z.of_nat (length (ref_text cs))) ->
  0 <= k <= slots prog -> at_slot (V := V) (C := C) e prog k r s -> at_pc cs base sp m0 (Z.to_nat k) r ms ->
  run_interpreter fuel s = Some (Ok s') -> program_result (vm s') = StOk x ->
  exists n ms' r', cpu_steps base (ref_text cs) n ms = Some ms' /\ returned sp ret m0 r' ms' /\ get r' 0 = Some x.
Proof.
  intros [Hcfg Hb Hlen Halign Hops] Hsel Hbr Hentry. revert k r s ms.
  induction fuel as [|fuel IH]; intros k r s ms Hk Hs Hat Hrun Hres; [done|].
  destruct Hat as [Hrel Hrip]. pose proof (related_len _ _ _ _ Hrel) as Hl. pose proof (related_u64 _ _ _ _ Hrel) as Hu.
  destruct (decide (k = slots prog)) as [->|Hne].
  { exfalso. by eapply fails_no_result; [eapply step_overrun|exact Hrun|]. }
  assert (Hk' : 0 <= k < slots prog) by lia. pose proof (decode_lookup prog k Hk') as Hi.
  pose proof (Forall_lookup_1 _ _ _ _ Hops Hi) as Hop.
  destruct Hsel as [Hcs Hsel]. pose proof (length_decode prog) as Hdec.
  destruct (lookup_lt_is_Some_2 cs (Z.to_nat k)) as [c Hc]; [lia|].
  destruct (Hsel _ _ _ Hi Hc) as (j & Hj & _). rewrite Z2Nat.id in Hj by lia.
  pose proof Hop as Hop'. rewrite agreeing_shapes in Hop'. apply list_elem_of_fmap in Hop' as ([o sh] & Ho & Hsh).
  destruct (lowered_shape _ _ _ _ _ _ r Hsh Ho (slot_well_formed prog Hb k Hk') Hj Hu) as [Hsup _].
  destruct (sim_step lower_sbpf_instruction (decode_program prog) cs base sp ret m0 (conj Hcs Hsel) Hbr Hentry
              (Z.to_nat k) _ j r ms Hi) as (n & ms1 & r1 & nx & Hn & Hstep & Hnx); [by rewrite Z2Nat.id by lia|done|done|].
  assert (Hgoto : forall t, nx = Goto t -> is_u 64 t) by (intros t ->; unfold is_u; lia).
  destruct (step_agreeing cfg e prog Hcfg Hlen k j r r1 nx s Hk' Hb Hop Hj Hstep Hgoto Hl Hu Hs) as [Hf|Hgo].
  { exfalso. by eapply fails_no_result. }
  assert (Hrest : forall k' s1, 0 <= k' <= slots prog -> step s = (Next true, s1) -> at_slot e prog k' r1 s1 ->
    at_pc cs base sp m0 (Z.to_nat k') r1 ms1 ->
    exists n ms' r', cpu_steps base (ref_text cs) n ms = Some ms' /\ returned sp ret m0 r' ms' /\ get r' 0 = Some x).
  { intros k' s1 Hk1 Hs1 Hat1 Hpc1. cbn [run_interpreter] in Hrun. unfold call in Hrun. rewrite Hs1 in Hrun.
    destruct (IH k' r1 s1 ms1 Hk1 Hat1 Hpc1 Hrun Hres) as (n' & ms' & r' & Hn' & Hret & Hx).
    exists (n + n')%nat, ms', r'. split_and!; [by eapply cpu_steps_add|done|done]. }
  destruct nx as [|t|].
  - destruct Hgo as (s1 & Hs1 & Hat1). apply (Hrest (k + 1) s1); [lia|done|done|].
    by rewrite Z2Nat.inj_add, Nat.add_1_r by lia.
  - destruct Hgo as (s1 & Hs1 & Hat1). destruct Hnx as [Ht Hpc1]. apply (Hrest t s1); [lia|done..].
  - destruct Hgo as (s1 & y & Hs1 & Hy & Hr). cbn [run_interpreter] in Hrun. unfold call in Hrun.
    rewrite Hs1 in Hrun. injection Hrun as <-. rewrite Hr in Hres. injection Hres as ->.
    exists n, ms1, r1. split_and!; [done|done|]. by rewrite (jit_step_finish _ _ _ Hstep).
Qed.

(** C1: compiled code computes the interpreter's result: when [execute_program]
    runs a program of agreeing opcodes to the value [x], the text the compiler
    makes of it, entered with the same registers, runs to the return address
    with [x] in RAX, the stack pointer popped and memory untouched outside the
    eight bytes below the stack. *)
Theorem compile_sbpf_matches_interpreter vaddr text fuel compiled (m : EbpfVm V C) frames count x mode m' ms :
  comparable -> get_text_bytes (E := False) e = Ok (vaddr, prog) -> entry_pc e = 0 ->
  length (registers m) = 12%nat -> call_depth m = 0 ->
  execute_program fuel compiled m e Interpreted frames = Some (Ok (count, StOk x, mode, m')) ->
  compile_sbpf (decode_program prog) = Ok text ->
  entry_ok base sp ret m0 (Z.of_nat (length text)) ->
  related sp m0 (take 11 (registers m)) ms -> rip ms = base ->
  exists n ms', cpu_steps base text n ms = Some ms' /\ rip ms' = ret /\ xr ms' (reg_u8 RAX) = x /\
    xr ms' RSP_ = sp + 8 /\ forall a, a < sp - 8 \/ sp <= a -> mem ms' !! a = m0 !! a.
Proof.
  intros Hcmp Htext Hentry Hregs Hdepth Hexec Hcomp Hstart Hrel Hrip.
  apply (compile_with_ok lower_sbpf_instruction) in Hcomp as (cs & Hsel & Hbr & ->).
  pose proof (slots_bound prog) as [Hslots _].
  unfold execute_program in Hexec. unfold get_config in Hexec. rewrite (cmp_config Hcmp) in Hexec. simpl in Hexec.
  unfold interpreter_new, get_config in Hexec. simpl in Hexec. rewrite Htext, (cmp_config Hcmp) in Hexec.
  simpl in Hexec. destruct (max_call_depth cfg <=? Z.of_nat (length frames)); [|done].
  set (s0 := mkInterp _ _ _ _ _ _) in Hexec.
  destruct (run_interpreter fuel s0) as [[s'|[]|]|] eqn:Hrun; try done.
  assert (Hres : program_result (vm s') = StOk x).
  { destruct (enable_instruction_meter cfg); simpl in Hexec; injection Hexec; congruence. }
  destruct (run_agreeing cs fuel 0 (take 11 (registers m)) s0 s' x ms) as (n & ms' & r' & Hn & Hret & Hx); try done.
  { split; [done|done| |done]. simpl. rewrite Hentry.
    rewrite <- (take_drop 11 (registers m)) at 1. rewrite insert_app_r_alt by (rewrite length_take; lia).
    rewrite length_take, Hregs. f_equal. simpl.
    destruct (drop 11 (registers m)) as [|y l] eqn:Hd; [|destruct l]; try done;
      apply (f_equal length) in Hd; rewrite length_drop in Hd; simpl in Hd; lia. }
  { split; [done|]. rewrite Hrip. unfold offset. simpl. lia. }
  exists n, ms'. destruct Hret as [Hr1 Hr2 Hr3 Hr4]. split_and!; [done|done| |done|done].
  by apply (Hr2 0 RAX).
Qed.
End Run.
