(* ===== verification/TestContext.v ===== *)
(** * A context object: [src/casestudy/sbpf/test_utils/src/lib.rs]

    [TestContextObject] owns a meter and a [MemoryMapping]; together with the
    host memory the mapping points to it implements the interfaces of [Vm] with
    the code of [MemoryRegion], and satisfies their laws. *)

From stdpp Require Import gmap strings.
From S2P Require Import Prelude Ebpf Program Verifier Error Vm MemoryRegion MappingFacts.

Record TestContextObject := mkContext {
  remaining : Z;
  memory_mapping : MemoryMapping;
  host_memory : HostMemory
}.

Section Instances.
Context `{P : Profile, AH : AccessViolationHandler}.

#[global] Instance test_context_object : ContextObject TestContextObject := {|
  consume c amount :=
    mkContext (saturating_sub_u64 (remaining c) amount) (memory_mapping c) (host_memory c);
  get_remaining := remaining
|}.

#[global] Instance test_memory : VmMemory TestContextObject := {|
  mem_load n a c :=
    let (r, m) := mm_load n a (memory_mapping c) (host_memory c) in
    (r, mkContext (remaining c) m (host_memory c));
  mem_store n x a c :=
    let '(r, (m, h)) := mm_store n x a (memory_mapping c) (host_memory c) in
    (r, mkContext (remaining c) m h)
|}.

Definition test_context_valid (c : TestContextObject) : Prop :=
  is_u 64 (remaining c) /\ mapping_ok (memory_mapping c) (host_memory c) /\ host_bytes (host_memory c).

#[global] Instance test_context_laws : ContextObjectLaws TestContextObject.
Proof.
  refine {| context_valid := test_context_valid |}.
  - by intros c [Hr _].
  - intros c n Hn (Hr & Hm). split; [|done]. simpl. unfold is_u, saturating_sub_u64 in *. lia.
  - intros c n Hn _. simpl. lia.
Defined.

Lemma access_size n : n ∈ [1; 2; 4; 8]%nat -> (n <= 8)%nat.
Proof. intros Hn. repeat (apply elem_of_cons in Hn as [->|Hn]; [lia|]). by apply elem_of_nil in Hn. Qed.

Context `{!AccessViolationHandlerLaws}.

(** The mapping keeps what the VM requires of its memory. *)
#[global] Instance test_memory_laws : VmMemoryLaws TestContextObject.
Proof.
  split; simpl.
  - intros n a c. by destruct (mm_load _ _ _ _).
  - intros n x a c. by destruct (mm_store _ _ _ _ _) as [? [??]].
  - intros n a c (Hr & Hm & Hh) Hn%access_size Ha. pose proof (mm_load_ok n a _ _ Hm Hh Ha Hn) as Hok.
    destruct (mm_load _ _ _ _) as [[]?]; simpl; try done; split_and!; naive_solver.
  - intros n x a c (Hr & Hm & Hh) Hn%access_size Ha. pose proof (mm_store_ok n x a _ _ Hm Hh Ha Hn) as Hok.
    destruct (mm_store _ _ _ _ _) as [[][??]]; unfold test_context_valid; simpl; naive_solver.
  - intros n a c x (Hr & Hm & Hh) Hn%access_size Ha. pose proof (mm_load_ok n a _ _ Hm Hh Ha Hn) as Hok.
    destruct (mm_load _ _ _ _) as [[]?]; simpl; naive_solver.
  - intros n a c (Hr & Hm & Hh) Hn%access_size Ha. pose proof (mm_load_ok n a _ _ Hm Hh Ha Hn) as Hok.
    by destruct (mm_load _ _ _ _) as [[]?].
  - intros n x a c (Hr & Hm & Hh) Hn%access_size Ha. pose proof (mm_store_ok n x a _ _ Hm Hh Ha Hn) as Hok.
    by destruct (mm_store _ _ _ _ _) as [[][??]].
Qed.
End Instances.
