(* ===== verification/JitWitnesses.v ===== *)
(** * Compiled programs, run, and where the code departs from its purpose

    A loop that sums 5 + 4 + 3 + 2 + 1 and shifts the sum by a register, as
    model instructions and as sBPF bytes: the theorems of [JitCorrect] and
    [JitInterpRun] at these inputs, and the programs on which the compiler does
    not follow the interpreter.  Then concrete behaviours the model shows: a
    stale lookup after a mapping is initialised again, an access that reaches
    into a stack gap, and x86 byte sequences that are not the instruction asked
    for. *)

From stdpp Require Import gmap strings.
From S2P Require Import Prelude Ebpf Program X86 Jit JitLayout Verifier VerifierFacts Error Vm.
From S2P Require Import Interpreter MemoryRegion MappingFacts X86Isa X86Decode JitSim.
From S2P Require Import JitCorrect JitInterp JitInterpRun TestContext.

#[local] Instance checked : Profile := {| debug_assertions := true |}.
#[local] Existing Instance le_reader.
#[local] Existing Instance le_reader_laws.
#[local] Existing Instance default_access_violation_handler.
#[local] Instance no_builtins : Builtins unit TestContextObject := {| rust _ c _ _ _ _ _ := (Ok 0, c) |}.

(** ** Entering compiled code *)
Definition code_base : Z := 0x400000.
Definition stack_top : Z := 0x8000.
(** Sixteen bytes of stack: a scratch slot and the return address, zero. *)
Definition stack : HostMemory := zeroed 0x7ff8 16.
Definition enter (r : list Z) : machine :=
  mkMachine (fun q => if q =? RSP_ then stack_top
                      else match list_find (fun g => reg_u8 g = q) REGISTER_MAP with
                           | Some (d, _) => default 0 (r !! d)
                           | None => 0
                           end) None code_base stack.

Lemma enter_related r : length r = 11%nat -> Forall (is_u 64) r -> related stack_top stack r (enter r).
Proof.
  intros Hl Hr. split; [done|done| |done|done|].
  2: { intros i Hi. apply (zeroed_backed 0x7ff8 16 i). unfold stack_top in Hi. lia. }
  intros d g x Hg Hx. each_mapped Hg; exact (f_equal (default 0) Hx).
Qed.

Lemma entry_valid len : code_base + len < 2 ^ 64 -> entry_ok code_base stack_top 0 stack len.
Proof. intros. split; try done. Qed.

Definition zero_regs : list Z := replicate 11 0.

(** ** A program of the model *)
Definition summation : list JitInstruction :=
  [LoadImmediate S64 0 0; LoadImmediate S64 2 5; AluRegister S64 Add 2 0; AluImmediate S64 Subtract 2 1;
   JumpImmediate S64 NotEqual 2 0 2; LoadImmediate S32 3 2; ShiftRegister S64 Left 3 0; Jit.Return].

Definition summation_text : list byte := Eval vm_compute in
  match compile summation with Ok t => t | _ => [] end.

Definition result_regs : list Z := [60; 0; 0; 2; 0; 0; 0; 0; 0; 0; 0].

Lemma compile_correct_witness :
  exists n s', cpu_steps code_base summation_text n (enter zero_regs) = Some s' /\
    returned stack_top 0 stack result_regs s'.
Proof.
  apply (compile_correct code_base stack_top 0 stack summation summation_text 40 zero_regs result_regs);
    [vm_compute; reflexivity| |apply entry_valid; done| |reflexivity|vm_compute; reflexivity].
  - repeat (apply List.Forall_cons || apply List.Forall_nil); cbn; unfold wide, is_i; naive_solver lia.
  - apply enter_related; [done|]. repeat (apply List.Forall_cons || apply List.Forall_nil); done.
Defined.

(** ** The same program as sBPF, compared with the interpreter *)
Definition insn (o d s f i : Z) : list byte := to_array (mkInsn 0 o d s f i).
Definition summation_bytes : list byte :=
  insn MOV64_IMM 0 0 0 0 ++ insn MOV64_IMM 2 0 0 5 ++ insn ADD64_REG 0 2 0 0 ++ insn SUB64_IMM 2 0 0 1 ++
  insn JNE64_IMM 2 0 (-3) 0 ++ insn MOV32_IMM 3 0 0 2 ++ insn LSH64_REG 0 3 0 0 ++ insn EXIT 0 0 0 0.

Definition loader : BuiltinProgram unit := new_mock.
Definition executable_of (v : SBPFVersion) (bytes : list byte) : Executable unit :=
  let n := Z.of_nat (length bytes) in
  mkExecutable bytes v (Borrowed MM_BYTECODE_START (0, n)) MM_BYTECODE_START (0, n) 0 registry_default loader.
Definition no_memory : MemoryMapping := mkMapping 64 4096 false V4 true (Aligned (mkAligned [] true)).
Definition machine_of (regs : list Z) : EbpfVm unit TestContextObject :=
  mkVm 0 (mkContext 100 no_memory ∅) 0 0 (regs ++ [0]) (StOk 0) loader [].

(** The value a program returns in the interpreter. *)
Definition interpreted (v : SBPFVersion) (bytes : list byte) : option Z :=
  match execute_program 101 None (machine_of zero_regs) (executable_of v bytes) Interpreted
          (replicate 64 CallFrame_default) with
  | Some (Ok (_, StOk x, _, _)) => Some x
  | _ => None
  end.

(** The value its compiled code leaves in RAX after [n] processor steps, at the
    return address. *)
Definition compiled_result (n : nat) (bytes : list byte) : option Z :=
  match compile_sbpf (decode_program bytes) with
  | Ok text =>
      s ← cpu_steps code_base text n (enter zero_regs);
      if rip s =? 0 then Some (xr s 0) else None
  | _ => None
  end.

Definition sbpf_text : list byte := Eval vm_compute in
  match compile_sbpf (decode_program summation_bytes) with Ok t => t | _ => [] end.

Lemma summation_comparable : comparable Config_default (executable_of V0 summation_bytes) summation_bytes.
Proof.
  split; [reflexivity|apply is_bytes_compute; vm_compute; reflexivity|reflexivity|reflexivity|].
  assert (Hops : forallb (fun i => bool_decide (opc i ∈ agreeing V0)) (decode_program summation_bytes) = true)
    by (vm_compute; reflexivity).
  rewrite forallb_forall in Hops. apply List.Forall_forall. intros i Hi.
  exact (proj1 (bool_decide_eq_true _) (Hops i Hi)).
Qed.

Definition summation_end : EbpfVm unit TestContextObject := Eval vm_compute in
  match execute_program 101 None (machine_of zero_regs) (executable_of V0 summation_bytes) Interpreted
          (replicate 64 CallFrame_default) with
  | Some (Ok (_, _, _, m)) => m
  | _ => machine_of zero_regs
  end.

Lemma compile_sbpf_matches_interpreter_witness :
  exists n ms', cpu_steps code_base sbpf_text n (enter zero_regs) = Some ms' /\ rip ms' = 0 /\
    xr ms' (reg_u8 RAX) = 60 /\ xr ms' RSP_ = stack_top + 8 /\
    forall a, a < stack_top - 8 \/ stack_top <= a -> mem ms' !! a = stack !! a.
Proof.
  apply (compile_sbpf_matches_interpreter Config_default (executable_of V0 summation_bytes) summation_bytes
           code_base stack_top 0 stack MM_BYTECODE_START sbpf_text 101 None (machine_of zero_regs)
           (replicate 64 CallFrame_default) 20 60 Interpreted summation_end);
    [exact summation_comparable|reflexivity|reflexivity|reflexivity|reflexivity|vm_compute; reflexivity
    |vm_compute; reflexivity|apply entry_valid; reflexivity| |reflexivity].
  apply enter_related; [reflexivity|]. repeat (apply List.Forall_cons || apply List.Forall_nil); done.
Defined.

(** ** Stale lookups

    [get_regions_mut] followed by [initialize] rebuilds the search tree but keeps
    the [MappingCache]. *)
Definition two_regions (n b : Z) : list MemoryRegion :=
  [mkRegion 0x1000 0x100000000 n 63 true None; mkRegion 0x2000 b 16 63 true None].

(** [find_region], then the regions changed through [get_regions_mut], then
    [initialize], then [find_region] at the same address. *)
Definition find_after_initialize (before after : list MemoryRegion) (a : Z)
    : result False (option nat) :=
  let m := (u_initialize (u_new_uninitialized before)).2 in
  let m := (u_find_region m a).2 in
  let m := mkUnaligned after (region_addresses m) (region_index_lookup m) (cache m) in
  match u_initialize m with
  | (Ok _, m) => match (u_find_region m a).1 with Ok r => Ok (fst <$> r) | _ => Panic end
  | _ => Panic
  end.

(** The first region is shrunk and the second moved down to cover the address:
    a fresh mapping finds the second region, the re-initialised one still
    answers with the first, which no longer contains the address. *)
Example initialize_keeps_cache :
  let before := two_regions 16 0x100000020 in
  let after := two_regions 4 0x100000004 in
  find_after_initialize before after 0x100000008 = Ok (Some 0%nat) /\
  find_after_initialize after after 0x100000008 = Ok (Some 1%nat).
Proof. vm_compute. auto. Qed.

(** ** Accesses into a stack gap *)

(** With 64-byte frames an 8-byte store at offset 60 of frame 0 is translated
    although its last four bytes lie in gap 0; on the host it overwrites the
    start of frame 1. *)
Example access_into_gap_translated :
  let stack := mkRegion 0x1000 0x200000000 128 6 true None in
  vm_to_host stack Store 0x20000003c 8 = Some 0x103c /\
  vm_to_host stack Store 0x200000040 1 = None /\
  vm_to_host stack Store 0x200000080 4 = Some 0x1040.
Proof. vm_compute. auto. Qed.

(** ** x86 encodings *)
Section Encodings.

(** Every instruction of the [0F 38] and [0F 3A] maps is emitted with the two
    escape bytes in the wrong order. *)
Lemma escape_bytes_reversed :
  escape_bytes 2 = [0x38; 0x0f] /\ escape_bytes 3 = [0x3a; 0x0f].
Proof. done. Qed.

(** [\[rax + rax * 1\]]: ModRM announces a SIB byte, and none is emitted
    because its value is zero. *)
Lemma zero_sib_omitted :
  (i ← load S64 RAX RCX (OffsetIndexShift 0 RAX 0); encode (E := unit) i) =
    Ok [0x48; 0x8b; 0x4c; 0x00].
Proof. reflexivity. Qed.

(** A comparison with an immediate that does not fit 32 bits is compiled as a
    comparison with its low half: both programs give the same text. *)
Lemma jump_immediate_truncated :
  compile [Jit.JumpImmediate S64 Equal 0 (2 ^ 32) 0] = compile [JumpImmediate S64 Equal 0 0 0].
Proof. vm_compute. reflexivity. Qed.
End Encodings.

(** ** The feature table of the README

    The table lists explicit sign extension for v3; the code enables it for v2
    alone. *)
Example sign_extension_only_in_v2 :
  explicit_sign_extension_of_results <$> [V0; V1; V2; V3; V4] = [false; false; true; false; false].
Proof. reflexivity. Qed.

(** ** The compiler does not know the version of the program *)

(** the safe compiler ignores the version: under V0 it does not sign-extend
    the result of [add32], under V2 it does not swap the operands of [sub imm]
    nor sign-extend [mov32 reg], so compiled code returns another value than the
    interpreter. *)
Example compiler_ignores_version :
  let add32 := insn MOV32_IMM 0 0 0 0x7fffffff ++ insn ADD32_IMM 0 0 0 1 ++ insn EXIT 0 0 0 0 in
  let sub := insn MOV64_IMM 0 0 0 5 ++ insn SUB64_IMM 0 0 0 7 ++ insn EXIT 0 0 0 0 in
  let mov32 := insn MOV64_IMM 1 0 0 (-1) ++ insn MOV32_REG 0 1 0 0 ++ insn EXIT 0 0 0 0 in
  interpreted V0 add32 = Some 0xffffffff80000000 /\ compiled_result 3 add32 = Some 0x80000000 /\
  interpreted V2 sub = Some 2 /\ compiled_result 3 sub = Some (2 ^ 64 - 2) /\
  interpreted V2 mov32 = Some (2 ^ 64 - 1) /\ compiled_result 3 mov32 = Some (2 ^ 32 - 1).
Proof. vm_compute. auto 10. Qed.

(** An opcode that is no instruction ([exit] with the register bit) compiles to
    a return. *)
Example non_opcode_compiles :
  let exit_x := insn 0x9d 0 0 0 0 in
  interpreted V0 exit_x = None /\ compiled_result 1 exit_x = Some 0.
Proof. vm_compute. auto. Qed.
