(* ===== verification/Witnesses.v ===== *)
(** * Concrete instances of the theorems

    Each lemma applies one theorem of the development at a concrete input where
    its hypotheses hold. *)

From stdpp Require Import gmap strings.
From S2P Require Import Prelude Ebpf Program Verifier VerifierFacts Error Vm Interpreter.
From S2P Require Import InterpreterFacts MemoryRegion Eytzinger MemoryFacts MappingFacts TestContext.

#[local] Instance checked : Profile := {| debug_assertions := true |}.
#[local] Existing Instance le_reader.
#[local] Existing Instance le_reader_laws.
#[local] Existing Instance default_access_violation_handler.
#[local] Existing Instance default_handler_laws.

Ltac by_bytes := apply is_bytes_compute; vm_compute; reflexivity.

(** ** Instruction words *)
Definition mov_r0 (n : Z) : Insn := mkInsn 0 MOV64_IMM 0 0 0 n.
Definition exit_insn : Insn := mkInsn 0 EXIT 0 0 0 0.

Lemma mov_r0_wf n : is_i 32 n -> wf_insn (mov_r0 n).
Proof. intros Hn. split; simpl; try done. Qed.

Lemma get_insn_to_array_witness :
  get_insn (E := unit) (to_array exit_insn ++ to_array (mov_r0 (-7)) ++ []) 1 = Ok (with_ptr (mov_r0 (-7)) 1).
Proof.
  apply (get_insn_to_array (mov_r0 (-7)) (to_array exit_insn) [] 1); [|lia|reflexivity|reflexivity].
  split; simpl; done.
Defined.

Lemma get_insn_in_program_witness :
  exists i, get_insn (E := unit) (to_array (mov_r0 5) ++ to_array exit_insn) 1 = Ok i /\ wf_insn i /\ ptr i = 1 /\
    to_array i = take 8 (drop (Z.to_nat (8 * 1)) (to_array (mov_r0 5) ++ to_array exit_insn)).
Proof.
  apply (get_insn_in_program (to_array (mov_r0 5) ++ to_array exit_insn) 1);
    [by_bytes|lia|reflexivity|reflexivity].
Defined.

Lemma augment_lddw_merges_witness :
  augment_lddw_unchecked (E := unit)
    (to_array (mkInsn 0 LD_DW_IMM 3 0 0 (-1)) ++ to_array (mkInsn 0 0 0 0 0 7) ++ [])
    (mkInsn 0 LD_DW_IMM 3 0 0 (-1)) = Ok (with_imm (mkInsn 0 LD_DW_IMM 3 0 0 (-1)) 0x7ffffffff).
Proof.
  apply (augment_lddw_merges (mkInsn 0 LD_DW_IMM 3 0 0 (-1)) (mkInsn 0 0 0 0 0 7) [] []);
    try reflexivity; try (split; simpl; done).
Defined.

(** ** Registries *)
#[local] Instance sum_hash : Murmur3 := {| murmur3_hash l := as_u 32 (foldr Z.add 0 l) |}.

Lemma register_function_hashed_legacy_witness :
  let r := mkRegistry (<[3 := (entrypoint_name, 3)]> ∅) in
  (exists n, lookup_by_key r 3 = Some (n, 3)) /\
  (forall k, k <> 3 -> lookup_by_key r k = lookup_by_key registry_default k) /\
  3 = as_u 32 (id 3).
Proof.
  apply (register_function_hashed_legacy_spec (V := unit) (T := Z) id registry_default
           (mkRegistry (<[3 := (entrypoint_name, 3)]> ∅)) new_mock false entrypoint_name 3 3).
  reflexivity.
Defined.

(** ** A verified program *)
Definition sample : list byte :=
  to_array (mov_r0 5) ++ to_array (mkInsn 0 LD_DW_IMM 3 0 0 (-1)) ++ to_array (mkInsn 0 0 0 0 0 7) ++
  to_array (mkInsn 0 ST_DW_REG 1 3 0 0) ++ to_array exit_insn.

Lemma sample_bytes : is_bytes sample.
Proof. by_bytes. Qed.

Lemma verify_total_witness : verify sample V0 <> Panic.
Proof. apply (verify_total sample V0); [exact sample_bytes|reflexivity]. Defined.

Lemma verify_sound_witness : program_safe sample V0.
Proof. apply (verify_sound sample V0); [exact sample_bytes|reflexivity|vm_compute; reflexivity]. Defined.

(** ** Memory *)
Definition buffer : MemoryRegion := mkRegion 4096 0x400000000 16 63 true None.
Definition frames : MemoryRegion := mkRegion 8192 0x200000000 8192 12 true None.
Definition host : HostMemory := zeroed 4096 16.

Lemma buffer_wf : region_wf buffer.
Proof. split; vm_compute; intuition discriminate. Qed.
Lemma frames_wf : region_wf frames.
Proof. split; vm_compute; intuition discriminate. Qed.
Lemma buffer_valid : region_valid host buffer.
Proof. split; [apply buffer_wf|apply (zeroed_backed 4096 16)]. Qed.

(** Byte 1 of the second 4096-byte frame of a gapped region. *)
Lemma vm_to_host_spec_witness :
  vm_to_host frames Load 0x200002001 8 = Some 12289 <->
  allowed frames Load /\ forall i, 0 <= i < 8 -> mapped frames (0x200002001 + i) (12289 + i).
Proof.
  apply (vm_to_host_spec frames Load 0x200002001 8 12289);
    [exact frames_wf|vm_compute; intuition discriminate|lia|right; vm_compute; discriminate].
Defined.

Lemma vm_to_host_safe_injective_witness :
  0x200002001 = 0x200002001 /\ host_addr frames <= 12289 /\ 12289 + 8 <= host_addr frames + len frames.
Proof.
  apply (vm_to_host_safe_injective frames Load Store 0x200002001 0x200002001 8 1 12289);
    [exact frames_wf|vm_compute; intuition discriminate..|vm_compute; reflexivity|vm_compute; reflexivity].
Defined.

Definition fresh_mapping : MemoryMapping :=
  mkMapping 64 4096 false V0 false (Unaligned (u_new_uninitialized [buffer])).
Definition mapping : MemoryMapping := Eval vm_compute in (mm_initialize 0 fresh_mapping).2.

Lemma mapping_valid : mapping_ok mapping host.
Proof.
  pose proof (mm_new_ok 0 ltac:(done) [buffer] Config_default V0 host eq_refl) as H.
  assert (Hv : Forall (region_valid host) [buffer]) by (constructor; [exact buffer_valid|constructor]).
  specialize (H Hv). assert (E : mm_new 0 [buffer] Config_default V0 = Ok mapping)
    by (vm_compute; reflexivity).
  by rewrite E in H.
Qed.

Lemma mm_new_valid_witness :
  match mm_new 0 [buffer] Config_default V4 with
  | Ok m => mapping_ok m host | Err _ => True | Panic => False
  end.
Proof.
  apply (mm_new_valid 0 ltac:(done) [buffer] Config_default V4 host); [reflexivity|].
  constructor; [exact buffer_valid|constructor].
Defined.

Definition unaligned : UnalignedMemoryMapping :=
  match ty mapping with Unaligned u => u | Aligned _ => u_new_uninitialized [] end.

Lemma u_find_region_spec_witness :
  exists i m', region_before (u_regions unaligned) 0x400000004 i /\
    u_find_region unaligned 0x400000004 =
      (Ok (i ≫= fun i => pair i <$> u_regions unaligned !! i), m') /\
    unaligned_ok m' /\ u_regions m' = u_regions unaligned.
Proof. apply (u_find_region_spec unaligned 0x400000004). exact (ok_type _ _ mapping_valid). Defined.

Lemma a_initialize_spec_witness :
  match a_initialize 0 (mkAligned [buffer] true) with
  | (Ok _, m') =>
      aligned_ok (a_regions m') /\ (forall r, r ∈ [buffer] -> r ∈ a_regions m') /\
      forall a i r, is_u 64 a -> a_find_region m' a = Some (i, r) ->
        a_regions m' !! i = Some r /\ region_number (vm_addr r) = region_number a
  | (Err _, _) => True
  | (Panic, _) => False
  end.
Proof.
  apply (a_initialize_spec 0 (mkAligned [buffer] true)).
  constructor; [vm_compute; intuition discriminate|constructor].
Defined.

Lemma mm_load_safe_witness :
  match mm_load 4 0x400000002 mapping host with
  | (Ok x, m') => mapping_ok m' host /\ is_u (8 * Z.of_nat 4) x
  | (Err _, m') => mapping_ok m' host
  | (Panic, _) => False
  end.
Proof.
  apply (mm_load_safe 4 0x400000002 mapping host);
    [exact mapping_valid|apply zeroed_bytes|vm_compute; intuition discriminate|lia].
Defined.

Lemma mm_store_safe_witness :
  match mm_store 4 0x11223344 0x400000002 mapping host with
  | (Ok hst, (m', h')) =>
      mapping_ok m' h' /\
      (forall i, i < hst \/ hst + Z.of_nat 4 <= i -> h' !! i = host !! i) /\
      exists r, r ∈ get_regions m' /\ writable r = true /\
        host_addr r <= hst /\ hst + Z.of_nat 4 <= host_addr r + len r
  | (Err _, (m', h')) => mapping_ok m' host /\ h' = host
  | (Panic, _) => False
  end.
Proof.
  apply (mm_store_safe 4 0x11223344 0x400000002 mapping host);
    [exact mapping_valid|apply zeroed_bytes|vm_compute; intuition discriminate|lia].
Defined.

Definition stored : result EbpfError Z * (MemoryMapping * HostMemory) :=
  mm_store 4 0x11223344 0x400000002 mapping host.

Lemma load_after_store_witness :
  (mm_load 4 0x400000002 stored.2.1 stored.2.2).1 = Ok 0x11223344.
Proof.
  apply (load_after_store 4 0x11223344 0x400000002 mapping host 4098 stored.2.1 stored.2.2);
    [exact mapping_valid|apply zeroed_bytes|vm_compute; intuition discriminate|lia|vm_compute; reflexivity].
Defined.

(** ** Execution *)
#[local] Instance no_builtins : Builtins unit TestContextObject := {|
  rust _ c _ _ _ _ _ := (Ok 0, c)
|}.
#[local] Instance no_builtins_laws : BuiltinsLaws unit TestContextObject.
Proof. split; simpl; intros; try done. by simplify_eq. Qed.

Definition loader : BuiltinProgram unit := new_mock.
Definition sample_executable : Executable unit :=
  mkExecutable sample V0 (Borrowed MM_BYTECODE_START (0, 40)) MM_BYTECODE_START (0, 40) 0
    registry_default loader.
Definition context : TestContextObject := mkContext 100 mapping host.

Lemma context_ok : context_valid context.
Proof.
  split; [vm_compute; intuition discriminate|]. split; [exact mapping_valid|apply zeroed_bytes].
Qed.

Lemma sample_runnable : runnable Config_default sample_executable MM_BYTECODE_START sample.
Proof.
  split.
  - reflexivity.
  - reflexivity.
  - split; vm_compute; discriminate.
  - split; [reflexivity|vm_compute; discriminate].
  - vm_compute. reflexivity.
  - exact sample_bytes.
  - reflexivity.
  - vm_compute. reflexivity.
  - intros key name target H. unfold lookup_by_key in H. simpl in H. by rewrite lookup_empty in H.
  - split; vm_compute; discriminate.
Qed.

Definition sample_vm : EbpfVm unit TestContextObject :=
  mkVm 0 context 0 0 [0; 0; 0; 0; 0; 0; 0; 0; 0; 0; 0x200001000; 0] (StOk 0) loader [].

Lemma execute_program_terminates_witness :
  exists count r m',
    execute_program (S (Z.to_nat (get_remaining context))) None sample_vm sample_executable Interpreted
      (replicate 64 CallFrame_default) = Some (Ok (count, r, Interpreted, m')) /\
    0 <= count <= get_remaining context /\
    match r with StOk x => is_u 64 x | StErr _ => True end.
Proof.
  apply (execute_program_terminates Config_default sample_executable MM_BYTECODE_START sample context 0
           (replicate 64 CallFrame_default) sample_vm None);
    [exact sample_runnable|exact context_ok|lia|vm_compute; discriminate|vm_compute; reflexivity].
Defined.

Definition sample_state : Interpreter unit TestContextObject :=
  mkInterp (set_previous_meter 100 sample_vm) sample_executable sample MM_BYTECODE_START
    (replicate 64 CallFrame_default) [0; 0; 0; 0; 0; 0; 0; 0; 0; 0; 0x200001000; 0].

Lemma sample_inv : inv Config_default sample_executable sample 100 sample_state.
Proof.
  split; [reflexivity|reflexivity|reflexivity| | | | | |].
  - repeat (apply List.Forall_cons || apply List.Forall_nil); unfold is_u; lia.
  - exists 0. split; [reflexivity|split; vm_compute; discriminate].
  - split; [vm_compute; discriminate|reflexivity].
  - vm_compute. discriminate.
  - intros i f Hi. simpl in Hi. lia.
  - split; [reflexivity|reflexivity|reflexivity| |exact context_ok|vm_compute; discriminate].
    split; vm_compute; discriminate.
Qed.

Lemma step_safe_witness :
  match step sample_state with
  | (Next b, s') => b = true /\ inv Config_default sample_executable sample 99 s'
  | (Return b, s') => b = false /\ stopped Config_default sample_executable sample 100 s'
  | (Unwind, _) => False
  end.
Proof.
  apply (step_safe Config_default sample_executable MM_BYTECODE_START sample 100 sample_state);
    [exact sample_runnable|exact sample_inv].
Defined.

(** ** The example in the documentation of [EbpfVm]

    [add64 r0, 0; exit] under SBPFv4 with a budget of two instructions runs two
    instructions and returns zero. *)
Definition doc_program : list byte := [0x07; 0; 0; 0; 0; 0; 0; 0; 0x95; 0; 0; 0; 0; 0; 0; 0].
Definition doc_mapping : MemoryMapping :=
  mkMapping 64 4096 false V4 true (Aligned (mkAligned [] true)).

Example vm_documentation_example :
  verify doc_program V4 = Ok tt /\
  match new_from_text_bytes doc_program loader V4 registry_default with
  | Ok e =>
      match vm_new (E := False) loader V4 (mkContext 2 doc_mapping ∅) 4096 with
      | Ok m => match execute_program 3 None m e Interpreted (replicate 64 CallFrame_default) with
                | Some (Ok (count, r, _, _)) => count = 2 /\ r = StOk 0
                | _ => False
                end
      | _ => False
      end
  | _ => False
  end.
Proof. vm_compute. auto. Qed.
