(* ===== verification/ElfWitnesses.v ===== *)
(** * Concrete ELF files

    Two small files, one for each loader, on which the theorems about the
    parser, the loader and aligned memory are applied, and two files on
    which the loader or its accessors panic. *)

From stdpp Require Import gmap strings.
From S2P Require Import Prelude Ebpf Program Verifier VerifierFacts Error MemoryRegion.
From S2P Require Import AlignedMemory ElfParser ElfParserFacts Text Vm Elf ElfFacts ElfLoadFacts.
From S2P Require Import Interpreter InterpreterFacts MappingFacts TestContext Witnesses.

#[local] Instance checked : Profile := {| debug_assertions := true |}.
#[local] Existing Instance le_reader.
#[local] Existing Instance le_reader_laws.
#[local] Existing Instance default_access_violation_handler.
#[local] Existing Instance default_handler_laws.
#[local] Existing Instance no_builtins.
#[local] Existing Instance no_builtins_laws.

(** ** Parameters *)
#[local] Instance le_unsigned : ByteOrderUnsigned := {|
  read_u32 v := if (4 <=? length v)%nat then Some (le_val (take 4 v)) else None;
  write_u32 v x := if (4 <=? length v)%nat then Some (le_bytes 4 x ++ drop 4 v) else None;
  write_u64 v x := if (8 <=? length v)%nat then Some (le_bytes 8 x ++ drop 8 v) else None
|}.
#[local] Instance le_unsigned_laws : ByteOrderUnsignedLaws.
Proof.
  split; intros; cbn [read_u32 write_u32 write_u64 le_unsigned]; by rewrite (proj2 (Nat.leb_le _ _)).
Qed.

#[local] Instance sum_hash : Murmur3 := {| murmur3_hash l := as_u 32 (foldr (fun b a => b + 31 * a) 7 l) |}.
#[local] Instance sum_hash_laws : Murmur3Laws.
Proof. split. intros l. by apply as_u_range. Qed.

(** One aligned address for every block. *)
#[local] Instance bump : Allocator := {| alloc _ align := if 0 <? align then Some (4096 * align) else None |}.
#[local] Instance bump_laws : AllocatorLaws.
Proof.
  split. intros size align p H. simpl in H. destruct (Z.ltb_spec 0 align); [|done]. injection H as <-.
  split; [lia|]. by apply Z.mod_mul, Z.neq_sym, Z.lt_neq.
Qed.

(** ** Headers as bytes *)
Definition ehdr_bytes (flags entry phoff phnum shoff shnum shstrndx : Z) : list byte :=
  [0x7f; 0x45; 0x4c; 0x46; 2; 1; 1; 0] ++ replicate 8 0 ++ le_bytes 2 ET_DYN ++ le_bytes 2 EM_BPF ++
  le_bytes 4 1 ++ le_bytes 8 entry ++ le_bytes 8 phoff ++ le_bytes 8 shoff ++ le_bytes 4 flags ++
  le_bytes 2 64 ++ le_bytes 2 56 ++ le_bytes 2 phnum ++ le_bytes 2 64 ++ le_bytes 2 shnum ++
  le_bytes 2 shstrndx.
Definition phdr_bytes (type flags offset vaddr size : Z) : list byte :=
  le_bytes 4 type ++ le_bytes 4 flags ++ le_bytes 8 offset ++ le_bytes 8 vaddr ++ le_bytes 8 vaddr ++
  le_bytes 8 size ++ le_bytes 8 size ++ le_bytes 8 0.
Definition shdr_bytes (name type addr offset size : Z) : list byte :=
  le_bytes 4 name ++ le_bytes 4 type ++ le_bytes 8 0 ++ le_bytes 8 addr ++ le_bytes 8 offset ++
  le_bytes 8 size ++ le_bytes 8 0 ++ le_bytes 8 0 ++ le_bytes 8 0.
Definition names_bytes (l : list string) : list byte :=
  [0] ++ concat ((fun s => bytes_of_string s ++ [0]) <$> l).

(** ** A file for the strict loader: its text, [mov64 r0, 5; exit] *)
Definition strict_text_bytes : list byte := to_array (mov_r0 5) ++ to_array exit_insn.
Definition strict_file : list byte :=
  ehdr_bytes 3 MM_BYTECODE_START 64 1 0 0 0 ++
  phdr_bytes PT_LOAD PF_X 120 MM_BYTECODE_START 16 ++ strict_text_bytes.

(** ** A file for the lenient loader

    [lddw r1, 96] with a relocation, [call +0], [exit]; read-only data, a
    dynamic section with one relocation and an empty symbol. *)
Definition lenient_text_bytes : list byte :=
  to_array (mkInsn 0 LD_DW_IMM 1 0 0 96) ++ to_array (mkInsn 0 0 0 0 0 0) ++
  to_array (mkInsn 0 CALL_IMM 0 1 0 0) ++ to_array exit_insn.
Definition lenient_names : list byte :=
  names_bytes [".text"; ".rodata"; ".dynstr"; ".dynsym"; ".rel.dyn"; ".dynamic"; ".shstrtab"]%string.
Definition lenient_file : list byte :=
  ehdr_bytes 0 64 64 0 296 8 7 ++ lenient_text_bytes ++                       (* 64 .. 96 *)
  [1; 2; 3; 4; 5; 6; 7; 8] ++                                                 (* 96 .. 104 *)
  [0; 97; 98; 99; 0; 0; 0; 0] ++                                              (* 104 .. 112 *)
  replicate 24 0 ++                                                           (* 112 .. 136 *)
  (le_bytes 8 64 ++ le_bytes 8 8) ++                                          (* 136 .. 152 *)
  (le_bytes 8 DT_REL ++ le_bytes 8 136 ++ le_bytes 8 DT_RELSZ ++ le_bytes 8 16 ++
   le_bytes 8 DT_RELENT ++ le_bytes 8 16 ++ le_bytes 8 DT_SYMTAB ++ le_bytes 8 112 ++
   replicate 16 0) ++                                                         (* 152 .. 232 *)
  lenient_names ++ replicate (64 - length lenient_names) 0 ++                 (* 232 .. 296 *)
  replicate 64 0 ++ shdr_bytes 1 1 64 64 32 ++ shdr_bytes 7 1 96 96 8 ++ shdr_bytes 15 SHT_STRTAB 104 104 8 ++
  shdr_bytes 23 SHT_DYNSYM 112 112 24 ++ shdr_bytes 31 9 136 136 16 ++ shdr_bytes 40 SHT_DYNAMIC 152 152 80 ++
  shdr_bytes 49 SHT_STRTAB 0 232 64.

Definition file_loader (c : Config) : BuiltinProgram unit := new_loader c.
Definition default_loader : BuiltinProgram unit := file_loader Config_default.

Lemma lenient_file_bytes : is_bytes lenient_file.
Proof. by_bytes. Qed.
Lemma strict_file_bytes : is_bytes strict_file.
Proof. by_bytes. Qed.

(** The executable that loading returns. *)
Definition loaded (bytes : list byte) (c : Config) : option (Executable unit) :=
  match load 0 bytes (file_loader c) with Ok e => Some e | _ => None end.
Definition no_executable : Executable unit :=
  mkExecutable [] V0 (Borrowed 0 (0, 0)) 0 (0, 0) 0 registry_default default_loader.
Definition strict_executable : Executable unit := default no_executable (loaded strict_file Config_default).
Definition lenient_executable : Executable unit := default no_executable (loaded lenient_file Config_default).

Lemma strict_loaded : load 0 strict_file default_loader = Ok strict_executable.
Proof. vm_compute. reflexivity. Qed.
Lemma lenient_loaded : load 0 lenient_file default_loader = Ok lenient_executable.
Proof. vm_compute. reflexivity. Qed.

(** ** Applications *)
Lemma parse_sound_witness :
  match parse 0 lenient_file with
  | Ok p => headers_valid 0 lenient_file p /\ layout_valid p /\ (exists names, names_valid p names) /\
      dynamic_valid 0 p
  | _ => False
  end.
Proof.
  pose proof (parse_sound 0 lenient_file lenient_file_bytes) as [_ Hok].
  destruct (parse 0 lenient_file) as [p|e|] eqn:Hp.
  - destruct (Hok p eq_refl) as (? & ? & ? & ? & _). auto.
  - exfalso. vm_compute in Hp. discriminate.
  - exfalso. vm_compute in Hp. discriminate.
Defined.

Lemma aligned_memory_refines_witness :
  exists m m', build (E := unit) 16 (WithCapacityZeroed 8) = Ok m /\
    run_ops m [FillWrite 2 0; Write [7; 8; 9]; FillWrite 9 1; FillWrite 3 5; Write [1]] = Ok m' /\
    am_as_slice (E := unit) m' = Ok [0; 0; 7; 8; 9; 5; 5; 5].
Proof.
  set (ops := [FillWrite 2 0; Write [7; 8; 9]; FillWrite 9 1; FillWrite 3 5; Write [1]]).
  destruct (build (E := unit) 16 (WithCapacityZeroed 8)) as [m|e|] eqn:Hm;
    [|vm_compute in Hm; discriminate..].
  destruct (aligned_memory_refines (E := unit) 16 (WithCapacityZeroed 8) ops m) as (m' & Hr & Hs & _);
    [done| |exact Hm|].
  - unfold ops. repeat (apply List.Forall_cons || apply List.Forall_nil); simpl; try done; unfold is_u; lia.
  - exists m, m'. split; [done|]. split; [exact Hr|]. exact Hs.
Defined.

Lemma relocate_calls_resolved_witness :
  exists r' text', relocate_calls default_loader Config_default 4 4 0 registry_default lenient_text_bytes
      = Ok (r', text') /\
    forall pc, 0 <= pc < 4 -> slot_relocated 4 lenient_text_bytes text' r' pc.
Proof.
  destruct (relocate_calls default_loader Config_default 4 4 0 registry_default lenient_text_bytes)
    as [[r' text']|e|] eqn:H; [|vm_compute in H; discriminate..].
  exists r', text'. split; [done|].
  apply (relocate_calls_resolved default_loader Config_default registry_default lenient_text_bytes r' text');
    [reflexivity|split; [by_bytes|vm_compute; discriminate]|apply targets_ok_default|exact H].
Defined.

Definition lenient_text_header : Elf64Shdr := mkShdr 1 1 0 64 64 32 0 0 0 0.
Lemma relocate_relative_lddw_witness :
  exists bytes', relocate_64_relative lenient_text_header (mkRel 64 8) lenient_file = Ok bytes' /\
    lddw_address bytes' 64 = 96 + MM_REGION_SIZE.
Proof.
  destruct (relocate_relative_lddw lenient_text_header (mkRel 64 8) lenient_file) as (b & Hb & Ha & _);
    [split; [exact lenient_file_bytes|vm_compute; discriminate]|simpl; lia|vm_compute; discriminate
    |reflexivity|vm_compute; discriminate|].
  exists b. split; [exact Hb|]. exact Ha.
Defined.

Lemma load_strict_sound_witness :
  elf_bytes strict_executable = strict_file /\
  get_text_bytes (E := False) strict_executable = Ok (MM_BYTECODE_START, strict_text_bytes).
Proof.
  destruct (load_strict_sound 0 strict_file default_loader strict_executable V3) as (_ & Hb & ro & _ & _ & Ht & _);
    [exact strict_file_bytes|vm_compute; reflexivity|reflexivity|exact strict_loaded|].
  split; [exact Hb|]. rewrite Ht. vm_compute. reflexivity.
Defined.

Lemma load_lenient_sound_witness :
  exists elf text prog, get_section elf name_text = Ok text /\
    get_text_bytes (E := False) lenient_executable = Ok (MM_REGION_SIZE + 64, prog) /\
    Z.of_nat (length prog) = section_length text /\ e_entry (file_header elf) = sh_addr text + 0 * INSN_SIZE.
Proof.
  destruct (load_lenient_sound 0 lenient_file default_loader lenient_executable V0)
    as (_ & _ & addr & elf & text & r & prog & data & _ & Hs & _ & _ & Ht & Hl & _ & He & _);
    [exact lenient_file_bytes|vm_compute; reflexivity|reflexivity|exact lenient_loaded|vm_compute; reflexivity|].
  exists elf, text, prog. split_and!; [exact Hs|exact Ht|exact Hl|exact He].
Defined.

Lemma load_no_panic_witness : load 3 lenient_file default_loader <> Panic.
Proof.
  apply (load_no_panic 3 lenient_file default_loader Config_default);
    [exact lenient_file_bytes|reflexivity|split; vm_compute; discriminate|discriminate].
Defined.

Lemma loaded_program_returns_witness :
  exists count r m',
    execute_program (S (Z.to_nat (get_remaining context))) None sample_vm lenient_executable Interpreted
      (replicate 64 CallFrame_default) = Some (Ok (count, r, Interpreted, m')) /\
    0 <= count <= get_remaining context /\
    match r with StOk x => is_u 64 x | StErr _ => True end.
Proof.
  apply (loaded_program_returns 0 lenient_file default_loader lenient_executable Config_default context 0
           (replicate 64 CallFrame_default) sample_vm None);
    [exact lenient_file_bytes|exact lenient_loaded|vm_compute; reflexivity|reflexivity|reflexivity
    |split; vm_compute; discriminate|split; [reflexivity|vm_compute; discriminate]|exact context_ok|lia
    |vm_compute; discriminate|vm_compute; reflexivity].
Defined.

(** ** Files on which the loader goes wrong *)

(** A file whose text section has the address 0x100000000. *)
Definition high_text_names : list byte := names_bytes [".text"; ".shstrtab"]%string.
Definition high_text_file : list byte :=
  ehdr_bytes 0 MM_REGION_SIZE 64 0 96 3 2 ++ to_array exit_insn ++
  high_text_names ++ replicate (24 - length high_text_names) 0 ++
  replicate 64 0 ++ shdr_bytes 1 1 MM_REGION_SIZE 64 8 ++ shdr_bytes 7 SHT_STRTAB 0 72 24.

(** A text section at the start of the first memory region passes every
    check of the loader, but the executable is unusable: its text is looked
    for one region too high and [get_text_bytes], which verification,
    execution and compilation call, panics. *)
Example high_text_panics :
  exists e, load 0 high_text_file default_loader = Ok e /\
    get_text_bytes (E := EbpfError) e = Panic /\ executable_verify e = Panic.
Proof. eexists. split; [vm_compute; reflexivity|]. split; vm_compute; reflexivity. Qed.

(** A stripped file without section headers is accepted by the strict
    loader, and the loader panics on the same file when it is asked for labels. *)
Example stripped_file_panics :
  (exists e, load 0 strict_file default_loader = Ok e) /\
  load 0 strict_file (file_loader (mkConfig 64 4096 true true 10000 true false true false 256 true true true
                                     false (V0, V4))) = Panic.
Proof. split; [eexists|]; vm_compute; reflexivity. Qed.
