(* ===== verification/AsmWitnesses.v ===== *)
(** * Programs assembled and disassembled

    The example of the documentation of [assemble], a program with labels,
    calls and a 64-bit load, and the instances of the theorems on them; then
    behaviours worth knowing: a negative [fill] count moves the labels after it,
    a call assembled for the first versions prints as a syscall, a block that
    starts a function has no edge to the block it falls into, and a call after a
    64-bit load is not resolved by the analysis. *)

From Stdlib Require Import String.
From stdpp Require Import gmap strings.
From S2P Require Import Prelude Ebpf Program Verifier Error Text Vm Disassembler.
From S2P Require Import BTree StaticAnalysis StaticFacts.
From S2P Require Import Assembler AssemblerFacts DisassemblerFacts.

#[local] Instance debug : Profile := {| debug_assertions := true |}.
#[local] Instance byte_sum : Murmur3 := {| murmur3_hash := fun l => as_u 32 (foldr Z.add 0 l) |}.
#[local] Existing Instance le_reader.
#[local] Existing Instance le_reader_laws.

(** ** The documented example *)
Definition doc_statements : list Statement :=
  [Instruction "add64" [Register 1; Integer 0x605];
   Instruction "mov64" [Register 2; Integer 0x32];
   Instruction "mov64" [Register 1; Register 0];
   Instruction "be16" [Register 0];
   Instruction "neg64" [Register 2];
   Instruction "exit" []].

Example doc_example :
  exists e, assemble (V := unit) (fun _ => Ok doc_statements) "" new_mock = Ok e /\
    elf_bytes e =
      [0x07; 0x01; 0x00; 0x00; 0x05; 0x06; 0x00; 0x00;
       0xb7; 0x02; 0x00; 0x00; 0x32; 0x00; 0x00; 0x00;
       0xbf; 0x01; 0x00; 0x00; 0x00; 0x00; 0x00; 0x00;
       0xdc; 0x00; 0x00; 0x00; 0x10; 0x00; 0x00; 0x00;
       0x87; 0x02; 0x00; 0x00; 0x00; 0x00; 0x00; 0x00;
       0x95; 0x00; 0x00; 0x00; 0x00; 0x00; 0x00; 0x00].
Proof. eexists. split; vm_compute; reflexivity. Qed.

(** ** A program with labels *)
Definition loop_statements : list Statement :=
  [LabelStatement "entrypoint";
   Instruction "lddw" [Register 1; Integer (-0x123456789)];
   LabelStatement "loop";
   Instruction "call" [Label "function_foo"];
   Instruction "jslt" [Register 1; Integer (-7); Label "loop"];
   Instruction "exit" [];
   Directive "fill" [Integer 2; Integer 0x95];
   LabelStatement "function_foo";
   Instruction "ja" [Label "loop"]].

Definition loop_assembled (v : SBPFVersion) : SecondPass :=
  match assemble_statements v loop_statements with
  | Ok s => s
  | _ => mkSecondPass 0 registry_default []
  end.

Lemma loop_fits : fits loop_statements.
Proof. split; [repeat constructor; vm_compute; congruence|vm_compute; reflexivity]. Qed.

Lemma loop_declares : LabelStatement "function_foo" ∈ loop_statements.
Proof. unfold loop_statements. repeat (apply list_elem_of_here || apply list_elem_of_further). Qed.


Definition loop_executable : Executable unit :=
  match assemble (V := unit) (fun _ => Ok loop_statements) "" new_mock with
  | Ok e => e
  | _ => mkExecutable [] V4 (Borrowed 0 (0, 0)) 0 (0, 0) 0 registry_default new_mock
  end.

Lemma assembled_text_decodes_witness :
  get_insn (E := unit) (elf_bytes loop_executable) 3 = Ok (mkInsn 3 JSLT64_IMM 1 0 (-2) (-7)) /\
  Z.of_nat (length (elf_bytes loop_executable)) = 64.
Proof.
  destruct (assembled_text_decodes (E := unit) (fun _ => Ok loop_statements) "" new_mock
    loop_executable ltac:(vm_compute; reflexivity)) as (c & l & s & Hc & Hl & Hs & _ & _ & Hd).
  injection Hc as <-. injection Hl as <-. vm_compute in Hs. injection Hs as <-.
  destruct (Hd loop_fits ltac:(vm_compute; reflexivity)) as [Hlen Hget]. split; [|exact Hlen].
  exact (proj2 (Hget 3%nat _ eq_refl)).
Defined.

(** ** The jump of that program, disassembled *)
Definition loop_node : CfgNode :=
  mkCfgNode "loop" [] [] (0, 0) TopologicalIndex_default 0 [].
Definition loop_nodes : gmap Z CfgNode := {[ 2 := loop_node ]}.
Definition loop_labels : gmap string Z := {[ "loop" := 2 ]}.
Definition loop_jump : Insn := mkInsn 3 JSLT64_IMM 1 0 (-2) (-7).

Lemma loop_agreement :
  Agreement loop_labels loop_nodes registry_default (new_mock : BuiltinProgram unit).
Proof.
  split.
  - unfold loop_nodes. intros t node [<- <-]%lookup_singleton_Some. split; vm_compute; reflexivity.
  - intros k n t Hk. vm_compute in Hk. destruct k; discriminate Hk.
  - intros k n t Hk. vm_compute in Hk. destruct k; discriminate Hk.
  - intros k n t Hk. vm_compute in Hk. destruct k; discriminate Hk.
Qed.

Lemma disassembly_reassembles_witness :
  exists text,
    disassemble_instruction (E := unit) loop_jump 3 loop_nodes registry_default
      (new_mock : BuiltinProgram unit) V3 = Ok text /\
    text = "jslt r1, -7, loop" /\
    reassembles V3 loop_labels (mkSecondPass 3 registry_default []) loop_jump text.
Proof.
  destruct (disassembly_reassembles V3 loop_labels loop_nodes registry_default
    (new_mock : BuiltinProgram unit) loop_agreement (E := unit)
    (mkSecondPass 3 registry_default []) loop_jump) as (text & Ht & Hr);
    [vm_compute; intuition congruence|vm_compute; eauto|..].
  - intros k n t Hk. vm_compute in Hk. destruct k; discriminate Hk.
  - reflexivity.
  - split; vm_compute; congruence.
  - split; vm_compute; congruence.
  - split; vm_compute; congruence.
  - split; vm_compute; congruence.
  - exists text. split; [exact Ht|]. split; [|exact Hr]. vm_compute in Ht. congruence.
Defined.

(** ** Its control-flow graph *)
Definition analysed (e : Executable unit) (v : SBPFVersion) : result unit (Analysis unit) :=
  a ← analysis_new e; split_into_basic_blocks a false v.

Definition summary (a : Analysis unit) : list (Z * ((Z * Z) * list Z * list Z)) :=
  (fun b => (b.1, (node_instructions b.2, destinations b.2, sources b.2))) <$> bindings (cfg_nodes a).

Lemma analysis_graph_witness :
  exists a, analysed loop_executable V0 = Ok a /\
    basic_blocks V0 (function_registry loop_executable) (functions a) (instructions a) 0 (bindings (cfg_nodes a)) /\
    summary a =
      [(0, ((0, 1), [], [])); (2, ((1, 3), [4; 2], [2; 7])); (4, ((3, 4), [], [2]));
       (5, ((4, 5), [], [])); (6, ((5, 6), [], [])); (7, ((6, 7), [2], []))].
Proof.
  destruct (analysis_graph (E := unit) loop_executable V0 MM_BYTECODE_START (elf_bytes loop_executable)
    ltac:(apply (bool_decide_unpack _); vm_compute; exact I)
    ltac:(vm_compute; reflexivity) ltac:(vm_compute; reflexivity) ltac:(vm_compute; reflexivity))
    as (a & a' & Ha & Hs & He & _ & Hg).
  exists a'. assert (Hrun : analysed loop_executable V0 = Ok a').
  { unfold analysed. rewrite Ha. exact Hs. }
  split; [exact Hrun|]. split.
  - pose proof (cfg_blocks _ _ Hg) as Hblocks. rewrite He in Hblocks. apply Hblocks. intros Hv. discriminate Hv.
  - vm_compute in Hrun. injection Hrun as <-. vm_compute. reflexivity.
Defined.

(** ** Divergences *)

(** Without overflow checks, the first pass takes a [fill] of -1 as one slot
    back while the second emits nothing: the jump to the label that follows
    lands one instruction early. *)
Definition negative_fill (count : Z) : list Statement :=
  [Instruction "exit" []; Directive "fill" [Integer count; Integer 0];
   LabelStatement "self"; Instruction "ja" [Label "self"]].

Example negative_fill_moves_labels :
  let release := {| debug_assertions := false |} in
  (exists s, assemble_statements (H := release) V4 (negative_fill 0) = Ok s /\
     insns s = [mkInsn 0 EXIT 0 0 0 0; mkInsn 1 JA 0 0 (-1) 0]) /\
  (exists s, assemble_statements (H := release) V4 (negative_fill (-1)) = Ok s /\
     insns s = [mkInsn 0 EXIT 0 0 0 0; mkInsn 1 JA 0 0 (-2) 0]) /\
  assemble_statements (H := debug) V4 (negative_fill (-1)) = Panic.
Proof. split; [|split]; [eexists; split; vm_compute; reflexivity..|vm_compute; reflexivity]. Qed.

(** The call of [loop_statements], assembled for two versions and disassembled
    with the registry the assembler filled. *)
Definition disassembled_call (v : SBPFVersion) : result unit string :=
  i ← or_panic (insns (loop_assembled v) !! 2%nat);
  disassemble_instruction i 2 ∅ (registry (loop_assembled v)) (new_mock : BuiltinProgram unit) v.

Example assembled_call_prints_syscall :
  disassembled_call V3 = Ok "call function_foo" /\ disassembled_call V0 = Ok "syscall 7".
Proof. split; vm_compute; reflexivity. Qed.

(** The entry block falls into the loop, but as the start of a function it gets
    no edge to it: the loop is left without a source outside itself. *)
Definition fallthrough_statements : list Statement :=
  [LabelStatement "entrypoint";
   Instruction "mov64" [Register 1; Integer 3];
   LabelStatement "loop";
   Instruction "add64" [Register 1; Integer (-1)];
   Instruction "jne" [Register 1; Integer 0; Label "loop"];
   Instruction "exit" []].

(** A call by distance behind a 64-bit load. *)
Definition late_call_statements : list Statement :=
  [LabelStatement "entrypoint";
   Instruction "lddw" [Register 1; Integer 3];
   Instruction "call" [Label "function_foo"];
   Instruction "exit" [];
   LabelStatement "function_foo";
   Instruction "exit" []].

Definition edges_of (statements : list Statement) : result AsmError (list (Z * (Z * Z) * list Z)) :=
  e ← assemble (V := unit) (fun _ => Ok statements) "" new_mock;
  match analysed e V4 with
  | Ok a => Ok ((fun b => (b.1, node_instructions b.2, destinations b.2)) <$> bindings (cfg_nodes a))
  | _ => Panic
  end.

Example function_block_has_no_fallthrough :
  edges_of fallthrough_statements = Ok [(0, (0, 1), []); (1, (1, 3), [3; 1]); (3, (3, 4), [])].
Proof. vm_compute. reflexivity. Qed.

(** The index of the call in the list is one less than its address, so its
    target is looked up one slot early and the block does not end at the call. *)
Example call_after_lddw_unresolved :
  edges_of late_call_statements = Ok [(0, (0, 3), []); (4, (3, 4), [])].
Proof. vm_compute. reflexivity. Qed.
