(* ===== verification/PageAllocator.v ===== *)
(** * Page allocation: [src/casestudy/sbpf/src/memory_management.rs]

    The pages of a compiled program: the calls of the operating system with
    their retry loop, the rounding to pages, and the process-wide pool of
    blocks, one free list per power-of-two size.  The operating system is a
    parameter ([Libc], the functions the file imports from the [libc] crate)
    that acts on a world [W]; [LibcLaws] says what the code relies on.  The
    variants for Windows are not modelled.  A [Mutex] guards every free list,
    so an operation on a list is one step. *)

From stdpp Require Import strings.
From S2P Require Import Prelude Error Text.

(** ** The operating system *)
Class Libc (W : Type) := {
  page_size_of_system : Z;
  PROT_READ : Z;
  PROT_WRITE : Z;
  PROT_EXEC : Z;
  MAP_ANONYMOUS : Z;
  MAP_PRIVATE : Z;
  MADV_DONTNEED : Z;
  MAP_FAILED : Z;
  mmap : Z -> Z -> Z -> Z -> Z -> Z -> W -> Z * W;
  munmap : Z -> Z -> W -> Z * W;
  mprotect : Z -> Z -> Z -> W -> Z * W;
  madvise : Z -> Z -> Z -> W -> Z * W;
  errno : W -> Z
}.

(** Two blocks, each an address and a length, share no byte. *)
Definition apart (a b : Z * Z) : Prop := a.1 + a.2 <= b.1 \/ b.1 + b.2 <= a.1.
Definition pairwise_apart (l : list (Z * Z)) : Prop := List.ForallOrdPairs apart l.

(** [mapped w]: the blocks [w] has mapped.  A successful [mmap] maps a block
    that shares no byte with those; changing protection or advice maps and
    unmaps nothing. *)
Class LibcLaws (W : Type) `{Libc W} := {
  mapped : W -> list (Z * Z);
  page_size_range : 0 < page_size_of_system < 2 ^ 31;
  mmap_spec hint size prot flags fd off w a w' :
    mmap hint size prot flags fd off w = (a, w') -> a <> MAP_FAILED ->
    0 < a /\ a + size < 2 ^ 63 /\ mapped w' = (a, size) :: mapped w /\ Forall (apart (a, size)) (mapped w);
  mmap_failed hint size prot flags fd off w w' :
    mmap hint size prot flags fd off w = (MAP_FAILED, w') -> mapped w' = mapped w;
  mprotect_mapped a size prot w : mapped (mprotect a size prot w).2 = mapped w;
  madvise_mapped a size advice w : mapped (madvise a size advice w).2 = mapped w
}.

(** ** Calls *)
Section Calls.
Context {W : Type} `{Libc W}.

(** [format!("{:?}", p)] of a pointer. *)
Definition debug_pointer (p : Z) : string := "0x" +:+ hex p.

Definition RETRY_COUNT : nat := 3.

(** [libc_error_guard!]: the call is repeated until it succeeds, at most
    [RETRY_COUNT] times; [s] is the state it works on. *)
Fixpoint retry {S} (n : nat) (call : S -> bool * S) (s : S) : bool * S :=
  match n with
  | O => (false, s)
  | Datatypes.S n => let (ok, s) := call s in if ok then (true, s) else retry n call s
  end.

Definition get_system_page_size : Z := page_size_of_system.

Definition round_to_page_size {E} (value page_size : Z) : result E Z :=
  let n := saturating_sub_u64 (saturating_add_u64 value page_size) 1 in
  if page_size =? 0 then Panic else Ok (saturating_mul_u64 (n / page_size) page_size).

(** The address is in-out: a retry passes on what the failed call returned. *)
Definition allocate_pages (size_in_bytes : Z) (w : W) : result EbpfError Z * W :=
  let prot := Z.lor PROT_READ PROT_WRITE in
  let flags := Z.lor MAP_ANONYMOUS MAP_PRIVATE in
  let call '(raw, w) :=
    let (raw, w) := mmap raw size_in_bytes prot flags (-1) 0 w in (negb (raw =? MAP_FAILED), (raw, w)) in
  match retry RETRY_COUNT call (0, w) with
  | (true, (raw, w)) => (Ok raw, w)
  | (false, (raw, w)) =>
      (Err (LibcInvocationFailed "mmap"
              [debug_pointer raw; decimal size_in_bytes; signed_decimal prot; signed_decimal flags;
               signed_decimal (-1); signed_decimal 0] (errno w)), w)
  end.

(** The other calls succeed when they return zero. *)
Definition guarded (name : string) (args : list string) (call : W -> Z * W) (w : W)
    : result EbpfError unit * W :=
  match retry RETRY_COUNT (fun w => let (r, w) := call w in (r =? 0, w)) w with
  | (true, w) => (Ok tt, w)
  | (false, w) => (Err (LibcInvocationFailed name args (errno w)), w)
  end.

Definition free_pages (raw size_in_bytes : Z) (w : W) : result EbpfError unit * W :=
  guarded "munmap" [debug_pointer raw; decimal size_in_bytes] (munmap raw size_in_bytes) w.

Inductive PagePermissions := Read | ReadWrite | ReadExecute.

Definition protect_pages (raw size_in_bytes : Z) (permissions : PagePermissions) (w : W)
    : result EbpfError unit * W :=
  let prot :=
    match permissions with
    | Read => PROT_READ
    | ReadWrite => Z.lor PROT_READ PROT_WRITE
    | ReadExecute => Z.lor PROT_READ PROT_EXEC
    end in
  guarded "mprotect" [debug_pointer raw; decimal size_in_bytes; signed_decimal prot]
    (mprotect raw size_in_bytes prot) w.

Inductive Advice := DontNeed.

Definition madvise_pages (raw size_in_bytes : Z) (advice : Advice) (w : W) : result EbpfError unit * W :=
  let advice := match advice with DontNeed => MADV_DONTNEED end in
  guarded "madvise" [debug_pointer raw; decimal size_in_bytes; signed_decimal advice]
    (madvise raw size_in_bytes advice) w.
End Calls.

(** ** Free lists *)
Module FreeList.
Record t := mk { mem : list Z; size : Z }.

Definition new (size : Z) : t := mk [] size.

Section Ops.
Context {E W : Type} `{Libc W}.

(** [r.expect(...)] *)
Definition expect {A} (r : result EbpfError A) : result E A :=
  match r with Ok a => Ok a | _ => Panic end.

(** The block and its size, and the list without it.  [Vec::pop] takes the
    last element. *)
Definition alloc (l : t) (w : W) : result E (Z * Z * t) * W :=
  match last (mem l) with
  | Some ptr => (Ok (ptr, size l, mk (removelast (mem l)) (size l)), w)
  | None =>
      let (r, w) := allocate_pages (size l) w in
      (ptr ← expect r; Ok (ptr, size l, l), w)
  end.

Definition MADV_DONTNEED_THRESHOLD : Z := 1024 * 1024 * 128.

(** An error of [madvise] is logged. *)
Definition free (l : t) (ptr size' : Z) (w : W) : result E t * W :=
  if negb (size' =? size l) then (Panic, w)
  else
    let (r, w) := protect_pages ptr (size l) ReadWrite w in
    match r with
    | Ok _ =>
        let w := if MADV_DONTNEED_THRESHOLD <=? size l then (madvise_pages ptr (size l) DontNeed w).2 else w in
        (Ok (mk (mem l ++ [ptr]) (size l)), w)
    | _ => (Panic, w)
    end.

(** An error of [free_pages] is logged. *)
Definition drop (l : t) (w : W) : W :=
  foldl (fun w ptr => (free_pages ptr (size l) w).2) w (mem l).
End Ops.
End FreeList.

(** ** The pool *)
Definition BUCKET_MIN : Z := 1024 * 128.
Definition BUCKET_MAX : Z := 1024 * 1024 * 256.
Definition trailing_zeros (z : Z) : Z := Z.log2 (Z.land z (- z)).
Definition BUCKET_COUNT : Z := trailing_zeros BUCKET_MAX - trailing_zeros BUCKET_MIN + 1.

Definition BucketedFreeList : Type := list FreeList.t.

Definition pool_new : BucketedFreeList :=
  (fun i => FreeList.new (BUCKET_MIN * Z.shiftl 1 (Z.of_nat i))) <$> seq 0 (Z.to_nat BUCKET_COUNT).

(** [x.leading_zeros()] of a [usize]. *)
Definition leading_zeros (x : Z) : Z := if x =? 0 then 64 else 63 - Z.log2 x.

Definition bucket_idx (size : Z) : Z :=
  64 - leading_zeros (Z.max size BUCKET_MIN - 1) - trailing_zeros BUCKET_MIN.

Section Pool.
Context {E W : Type} `{Libc W}.

(** [self.buckets[idx]] panics past the last bucket. *)
Definition pool_alloc (p : BucketedFreeList) (size : Z) (w : W)
    : result E (Z * Z * BucketedFreeList) * W :=
  match get p (bucket_idx size) with
  | None => (Panic, w)
  | Some l =>
      let (r, w) := FreeList.alloc l w in
      ('(ptr, sz, l) ← r; Ok (ptr, sz, <[Z.to_nat (bucket_idx size) := l]> p), w)
  end.

Definition pool_free (p : BucketedFreeList) (ptr size : Z) (w : W) : result E BucketedFreeList * W :=
  match get p (bucket_idx size) with
  | None => (Panic, w)
  | Some l =>
      let (r, w) := FreeList.free l ptr size w in
      (l ← r; Ok (<[Z.to_nat (bucket_idx size) := l]> p), w)
  end.

(** The global [ALLOCATOR] is threaded through its users. *)
Definition allocate_pages_pooled (size : Z) (p : BucketedFreeList) (w : W)
    : result E (Z * Z * BucketedFreeList) * W := pool_alloc p size w.
Definition free_pages_pooled (ptr size : Z) (p : BucketedFreeList) (w : W)
    : result E BucketedFreeList * W := pool_free p ptr size w.
End Pool.
