(* ===== verification/PageFacts.v ===== *)
(** * Page allocation: rounding, and the exclusiveness of pooled blocks

    [round_to_page_size] is the least multiple of the page size; a block of the
    pool is at least as large as requested; in every state reachable by
    allocating and freeing, the blocks handed out share no byte with each other
    and none with the blocks the pool keeps. *)

From stdpp Require Import strings relations.
From S2P Require Import Prelude Error Text PageAllocator.

(** ** Rounding *)
Lemma round_to_page_size_ok {E} v ps :
  0 < ps -> 0 <= v -> v + ps <= u64_max ->
  exists r, round_to_page_size (E := E) v ps = Ok r /\ r mod ps = 0 /\ v <= r < v + ps /\
    r = (v + ps - 1) / ps * ps.
Proof.
  intros Hp Hv Hr. unfold round_to_page_size, saturating_add_u64, saturating_sub_u64, saturating_mul_u64.
  rewrite (Z.min_l (v + ps)) by lia. rewrite Z.max_l by lia. rewrite (proj2 (Z.eqb_neq ps 0)) by lia.
  pose proof (Z.div_mod (v + ps - 1) ps ltac:(lia)) as Hd.
  pose proof (Z.mod_pos_bound (v + ps - 1) ps Hp) as Hm.
  rewrite Z.min_l by nia. eexists. split; [done|]. split_and!; [apply Z.mod_mul; lia|nia|nia|done].
Qed.

Lemma round_exact v ps : 0 < ps -> v mod ps = 0 -> (v + ps - 1) / ps * ps = v.
Proof.
  intros Hp Hm. pose proof (Z.div_mod v ps ltac:(lia)) as Hd. rewrite Hm in Hd.
  rewrite Hd at 1. replace (ps * (v / ps) + 0 + ps - 1) with (v / ps * ps + (ps - 1)) by lia.
  rewrite Z.div_add_l, (Z.div_small (ps - 1)) by lia. lia.
Qed.

(** ** Blocks that share no byte *)
Lemma apart_sym a b : apart a b -> apart b a.
Proof. unfold apart. lia. Qed.

Lemma pairwise_perm l l' : l ≡ₚ l' -> pairwise_apart l -> pairwise_apart l'.
Proof.
  unfold pairwise_apart. induction 1 as [|x l l' Hp IH|x y l|l l1 l2 _ IH1 _ IH2]; [done| | |auto].
  - inversion_clear 1 as [|? ? Hx Hl]. constructor; [by rewrite <- Hp|auto].
  - inversion_clear 1 as [|? ? Hx Hl]. inversion_clear Hl as [|? ? Hy Hl'].
    inversion_clear Hx as [|? ? Hyx Hx']. constructor; [|by constructor]. constructor; [by apply apart_sym|done].
Qed.

#[global] Instance pairwise_apart_proper : Proper ((≡ₚ) ==> iff) pairwise_apart.
Proof. intros l l' Hp. split; apply pairwise_perm; [done|by symmetry]. Qed.

Lemma pairwise_cons x l : pairwise_apart (x :: l) <-> Forall (apart x) l /\ pairwise_apart l.
Proof. unfold pairwise_apart. split; [by inversion 1|intros []; by constructor]. Qed.

(** ** The pool *)
Definition blocks (l : FreeList.t) : list (Z * Z) := (fun ptr => (ptr, FreeList.size l)) <$> FreeList.mem l.
Definition pooled (p : list FreeList.t) : list (Z * Z) := p ≫= blocks.

Lemma pooled_insert (p : list FreeList.t) i l l' bs :
  p !! i = Some l -> blocks l ≡ₚ bs ++ blocks l' -> pooled p ≡ₚ bs ++ pooled (<[i := l']> p).
Proof.
  intros Hi Hb. pose proof (lookup_lt_Some _ _ _ Hi). unfold pooled.
  rewrite insert_take_drop by done. rewrite <- (take_drop_middle p i l Hi) at 1.
  rewrite !bind_app. simpl. rewrite Hb. solve_Permutation.
Qed.

(** The sizes of the buckets. *)
Definition pool_sizes (p : list FreeList.t) : Prop :=
  length p = 12%nat /\ forall i l, p !! i = Some l -> FreeList.size l = 2 ^ (17 + Z.of_nat i).

Lemma pool_sizes_new : pool_sizes pool_new.
Proof.
  split; [done|]. intros i l Hi. do 12 (destruct i as [|i]; [by injection Hi as <-|]). done.
Qed.

Lemma pool_sizes_insert (p : list FreeList.t) i l l' :
  pool_sizes p -> p !! i = Some l -> FreeList.size l' = FreeList.size l -> pool_sizes (<[i := l']> p).
Proof.
  intros [Hl Hs] Hi He. split; [by rewrite length_insert|]. intros j k Hj.
  destruct (decide (i = j)) as [<-|].
  - rewrite list_lookup_insert_eq in Hj by (by eapply lookup_lt_Some). injection Hj as <-. rewrite He. by apply Hs.
  - rewrite list_lookup_insert_ne in Hj by done. by apply Hs.
Qed.

(** The bucket of a size is the first whose blocks are large enough. *)
Lemma bucket_idx_spec size :
  0 <= size -> 0 <= bucket_idx size /\ size <= 2 ^ (17 + bucket_idx size) /\
    (0 < bucket_idx size -> 2 ^ (16 + bucket_idx size) < size).
Proof.
  intros Hs. unfold bucket_idx, leading_zeros. change (trailing_zeros BUCKET_MIN) with 17.
  unfold BUCKET_MIN. set (m := Z.max size (1024 * 128) - 1).
  assert (Hm : 131071 <= m) by (unfold m; lia). rewrite (proj2 (Z.eqb_neq m 0)) by lia.
  pose proof (Z.log2_spec m ltac:(lia)) as [Hlo Hhi]. pose proof (Z.log2_le_mono 131071 m Hm) as H16.
  change (Z.log2 131071) with 16 in H16. replace (64 - (63 - Z.log2 m) - 17) with (Z.log2 m - 16) by lia.
  replace (17 + (Z.log2 m - 16)) with (Z.succ (Z.log2 m)) by lia.
  replace (16 + (Z.log2 m - 16)) with (Z.log2 m) by lia.
  split_and!; [lia|lia|]. intros Hp.
  assert (size <= 1024 * 128 \/ m = size - 1) as [Hle|He] by lia; [|lia].
  exfalso. assert (m = 131071) as -> by lia. done.
Qed.

(** ** Reachable states *)
Section Reachable.
Context {W : Type} `{LibcLaws W}.
Implicit Types (p : list FreeList.t) (w : W) (live : list (Z * Z)).

(** The pool, the world, and the blocks that were handed out and not returned. *)
Definition pool_state : Type := list FreeList.t * W * list (Z * Z).

Inductive pool_step : pool_state -> pool_state -> Prop :=
| step_alloc p w live size ptr sz p' w' :
    0 <= size -> allocate_pages_pooled (E := EbpfError) size p w = (Ok (ptr, sz, p'), w') ->
    pool_step (p, w, live) (p', w', (ptr, sz) :: live)
| step_free p w live live' ptr sz p' w' :
    live ≡ₚ (ptr, sz) :: live' -> free_pages_pooled (E := EbpfError) ptr sz p w = (Ok p', w') ->
    pool_step (p, w, live) (p', w', live').

Record pool_ok (st : pool_state) : Prop := {
  pool_ok_sizes : pool_sizes st.1.1;
  pool_ok_apart : pairwise_apart (st.2 ++ pooled st.1.1);
  pool_ok_mapped : st.2 ++ pooled st.1.1 ⊆ mapped st.1.2;
  pool_ok_range : Forall (fun b => 0 < b.1 /\ b.1 + b.2 < 2 ^ 63) (st.2 ++ pooled st.1.1)
}.

Lemma retry_mapped n (call : W -> bool * W) w :
  (forall w, mapped (call w).2 = mapped w) -> mapped (retry n call w).2 = mapped w.
Proof.
  intros Hc. revert w. induction n as [|n IH]; intros w; simpl; [done|].
  specialize (Hc w). destruct (call w) as [[] w1]; simpl in *; [done|]. by rewrite IH.
Qed.

Lemma guarded_mapped name args call w :
  (forall w, mapped (call w).2 = mapped w) -> mapped (guarded name args call w).2 = mapped w.
Proof.
  intros Hc. unfold guarded. pose proof (retry_mapped RETRY_COUNT
    (fun w => let (r, w) := call w in (r =? 0, w)) w) as Hr.
  destruct (retry _ _ _) as [[] w1]; simpl in *; apply Hr; intros w2; specialize (Hc w2); by destruct (call w2).
Qed.

Lemma protect_mapped a n perm w : mapped (protect_pages a n perm w).2 = mapped w.
Proof. apply guarded_mapped. intros. apply mprotect_mapped. Qed.
Lemma madvise_pages_mapped a n adv w : mapped (madvise_pages a n adv w).2 = mapped w.
Proof. apply guarded_mapped. intros. apply madvise_mapped. Qed.

(** A fresh block shares no byte with any block that was mapped. *)
Lemma allocate_pages_fresh size w a w' :
  allocate_pages size w = (Ok a, w') ->
  0 < a /\ a + size < 2 ^ 63 /\ mapped w' = (a, size) :: mapped w /\ Forall (apart (a, size)) (mapped w).
Proof.
  unfold allocate_pages.
  assert (Hgen : forall n hint w, retry n (fun '(raw, w) =>
    let (raw, w) := mmap raw size (Z.lor PROT_READ PROT_WRITE) (Z.lor MAP_ANONYMOUS MAP_PRIVATE) (-1) 0 w in
      (negb (raw =? MAP_FAILED), (raw, w))) (hint, w) = (true, (a, w')) ->
    0 < a /\ a + size < 2 ^ 63 /\ mapped w' = (a, size) :: mapped w /\ Forall (apart (a, size)) (mapped w)).
  { clear. induction n as [|n IH]; intros hint w; simpl; [done|].
    destruct (mmap hint _ _ _ _ _ w) as [b w1] eqn:Hm. destruct (Z.eqb_spec b MAP_FAILED) as [->|Hb]; simpl.
    - intros Hr%IH. by rewrite (mmap_failed _ _ _ _ _ _ _ _ Hm) in Hr.
    - intros [= -> ->]. by eapply mmap_spec. }
  destruct (retry _ _ _) as [[] [b w1]] eqn:Hr; [|done]. intros [= -> ->]. exact (Hgen _ _ _ Hr).
Qed.

(** A block of the pool goes out with the size of its bucket. *)
Lemma pool_alloc_cases {E} p size w ptr sz p' w' :
  pool_alloc (E := E) p size w = (Ok (ptr, sz, p'), w') ->
  exists l l', p !! Z.to_nat (bucket_idx size) = Some l /\ 0 <= bucket_idx size /\ sz = FreeList.size l /\
    FreeList.size l' = sz /\ p' = <[Z.to_nat (bucket_idx size) := l']> p /\
    ((w' = w /\ blocks l ≡ₚ [(ptr, sz)] ++ blocks l') \/
     (blocks l ≡ₚ [] ++ blocks l' /\ allocate_pages sz w = (Ok ptr, w'))).
Proof.
  unfold pool_alloc, get. destruct (Z.ltb_spec (bucket_idx size) 0); [done|].
  destruct (p !! _) as [l|] eqn:Hl; [|done]. unfold FreeList.alloc.
  destruct (last (FreeList.mem l)) as [q|] eqn:Hlast; simpl.
  - intros [= <- <- <- <-]. exists l, (FreeList.mk (removelast (FreeList.mem l)) (FreeList.size l)).
    split_and!; [done..|]. left. split; [done|].
    apply last_Some in Hlast as [m Hm]. unfold blocks. simpl. rewrite Hm, removelast_last, fmap_app. simpl.
    solve_Permutation.
  - destruct (allocate_pages _ w) as [[q| |] w1] eqn:Ha; simpl; [|done..].
    intros [= <- <- <- <-]. exists l, l. split_and!; [done..|]. by right.
Qed.

Lemma pool_free_cases {E} p ptr sz w p' w' :
  pool_free (E := E) p ptr sz w = (Ok p', w') ->
  exists l l', p !! Z.to_nat (bucket_idx sz) = Some l /\ FreeList.size l = sz /\ FreeList.size l' = sz /\
    p' = <[Z.to_nat (bucket_idx sz) := l']> p /\ blocks l' ≡ₚ (ptr, sz) :: blocks l /\ mapped w' = mapped w.
Proof.
  unfold pool_free, get. destruct (Z.ltb_spec (bucket_idx sz) 0); [done|].
  destruct (p !! _) as [l|] eqn:Hl; [|done]. unfold FreeList.free.
  destruct (Z.eqb_spec sz (FreeList.size l)) as [->|]; simpl; [|done].
  pose proof (protect_mapped ptr (FreeList.size l) ReadWrite w) as Hm.
  destruct (protect_pages _ _ _ w) as [[[]| |] w1]; simpl; [|done..].
  intros [= <- <-]. exists l, (FreeList.mk (FreeList.mem l ++ [ptr]) (FreeList.size l)). split_and!; try done.
  - unfold blocks. simpl. rewrite fmap_app. simpl. solve_Permutation.
  - simpl in Hm. destruct (_ <=? _); [by rewrite madvise_pages_mapped|done].
Qed.

Lemma pool_ok_perm p w live live' p' w' :
  pool_sizes p' -> live' ++ pooled p' ≡ₚ live ++ pooled p -> mapped w' = mapped w ->
  pool_ok (p, w, live) -> pool_ok (p', w', live').
Proof.
  intros Hs Hp Hm [_ Ha Hin Hr]. constructor; simpl in *; [done|..].
  - by rewrite Hp.
  - by rewrite Hm, Hp.
  - by rewrite Hp.
Qed.

Lemma pool_step_ok st st' : pool_ok st -> pool_step st st' -> pool_ok st'.
Proof.
  intros Hok Hst. revert Hok.
  destruct Hst as [p w live size ptr sz p' w' Hsz Ha|p w live live' ptr sz p' w' Hl Hf]; intros Hok.
  - apply pool_alloc_cases in Ha as (l & l' & Hi & _ & -> & Hsl & -> & [[-> Hb]|[Hb Hal]]);
      pose proof (pooled_insert p _ l l' _ Hi Hb) as Hp;
      pose proof (pool_sizes_insert p _ l l' (pool_ok_sizes _ Hok) Hi Hsl) as Hs.
    + eapply pool_ok_perm; [done| |done|exact Hok]. rewrite Hp. simpl. solve_Permutation.
    + destruct Hok as [_ Hap Hin Hr]. simpl in *.
      apply allocate_pages_fresh in Hal as (H1' & H2' & Hm & Hfresh). constructor; simpl in *; [done|..].
      * rewrite <- Hp. apply pairwise_cons. split; [|done]. apply Forall_forall. intros b Hb'.
        by apply (proj1 (Forall_forall _ _) Hfresh), Hin.
      * rewrite Hm, <- Hp. intros b [->|Hb']%elem_of_cons; [by left|]. right. by apply Hin.
      * constructor; [done|]. by rewrite <- Hp.
  - apply pool_free_cases in Hf as (l & l' & Hi & <- & Hsl & -> & Hb & Hm).
    pose proof (pool_sizes_insert p _ l l' (pool_ok_sizes _ Hok) Hi Hsl) as Hs.
    eapply pool_ok_perm; [done| |done|exact Hok]. rewrite Hl.
    pose proof (pooled_insert (<[Z.to_nat (bucket_idx (FreeList.size l)) := l']> p) (Z.to_nat (bucket_idx (FreeList.size l)))
      l' l [(ptr, FreeList.size l)]) as Hp. rewrite list_insert_insert_eq, (list_insert_id p _ l Hi) in Hp.
    rewrite Hp; [solve_Permutation| |by simpl]. apply list_lookup_insert_eq. by eapply lookup_lt_Some.
Qed.

Lemma pool_ok_new w : pool_ok (pool_new, w, []).
Proof.
  constructor; cbn [fst snd app]; [apply pool_sizes_new|..]; change (pooled pool_new) with (@nil (Z * Z));
    [apply List.FOP_nil|intros b Hb; by apply elem_of_nil in Hb|apply Forall_nil_2].
Qed.

Lemma pool_reachable_ok w st : rtc pool_step (pool_new, w, []) st -> pool_ok st.
Proof.
  intros Hr. pose proof (pool_ok_new w) as Hok. induction Hr as [|x y z Hs _ IH]; [done|].
  by eapply IH, pool_step_ok.
Qed.

(** What a client of the pool gets. *)
Lemma pool_alloc_ok {E} p w live size ptr sz p' w' :
  pool_ok (p, w, live) -> 0 <= size -> allocate_pages_pooled (E := E) size p w = (Ok (ptr, sz, p'), w') ->
  size <= sz <= BUCKET_MAX /\ (BUCKET_MIN < size -> sz < 2 * size) /\ 0 < ptr /\ ptr + sz < 2 ^ 63 /\
  Forall (apart (ptr, sz)) live /\ pool_ok (p', w', (ptr, sz) :: live).
Proof.
  intros Hok Hsz Ha.
  assert (Hst : pool_step (p, w, live) (p', w', (ptr, sz) :: live)).
  { apply (step_alloc p w live size ptr sz p' w' Hsz). revert Ha. unfold allocate_pages_pooled, pool_alloc.
    destruct (get p _) as [l|]; [|done]. unfold FreeList.alloc. destruct (last _); simpl; [by intros [= <- <- <- <-]|].
    destruct (allocate_pages _ w) as [[]?]; simpl; [by intros [= <- <- <- <-]|done..]. }
  pose proof (pool_step_ok _ _ Hok Hst) as Hok'. pose proof Hok' as [Hs Hap Hm Hr].
  apply pool_alloc_cases in Ha as (l & l' & Hi & Hb0 & -> & _). destruct Hok as [[Hl Hsizes] _ _ _].
  cbn [fst snd app] in *. pose proof (lookup_lt_Some _ _ _ Hi) as Hlt.
  destruct (bucket_idx_spec size Hsz) as (_ & Hle & Hlow). apply pairwise_cons in Hap as [Hap _].
  apply Forall_app in Hap as [Hap _]. apply Forall_cons in Hr as [[Hr1 Hr2] _]. simpl in Hr1, Hr2.
  pose proof (Hsizes _ _ Hi) as Hsl. rewrite Z2Nat.id in Hsl by done.
  assert (Hmax : 2 ^ (17 + bucket_idx size) <= 2 ^ 28) by (apply Z.pow_le_mono_r; lia).
  split_and!; try done; unfold BUCKET_MAX, BUCKET_MIN; rewrite Hsl; [lia..|].
  intros Hbig. assert (0 < bucket_idx size) as Hpos.
  { destruct (Z.eq_dec (bucket_idx size) 0) as [E0|]; [|lia]. rewrite E0 in Hle. simpl in Hle. lia. }
  specialize (Hlow Hpos). replace (17 + bucket_idx size) with (Z.succ (16 + bucket_idx size)) by lia.
  rewrite Z.pow_succ_r by lia. lia.
Qed.

(** A request above the largest bucket does not return an error: it panics. *)
Lemma pool_alloc_too_large {E} p w size :
  pool_sizes p -> BUCKET_MAX < size -> allocate_pages_pooled (E := E) size p w = (Panic, w).
Proof.
  intros [Hl _] Hs. unfold allocate_pages_pooled, pool_alloc, get. unfold BUCKET_MAX in Hs.
  destruct (bucket_idx_spec size ltac:(lia)) as (H0' & Hle & _).
  assert (12 <= bucket_idx size).
  { destruct (Z.le_gt_cases 12 (bucket_idx size)) as [|Hlt]; [done|].
    assert (2 ^ (17 + bucket_idx size) <= 2 ^ 28) by (apply Z.pow_le_mono_r; lia). lia. }
  rewrite (proj2 (Z.ltb_ge _ _)), (proj2 (lookup_ge_None _ _)) by lia. done.
Qed.

(** C24: Blocks of the pool are exclusive: whatever sequence of allocations and
    frees came before, with blocks reused and new ones mapped, the block handed
    out shares no byte with any block still in use, and none of those with each
    other; it is at least as large as requested, at most twice as large above
    the smallest bucket, and never above the largest. *)
Theorem pool_exclusive w0 p w live size ptr sz p' w' :
  rtc pool_step (pool_new, w0, []) (p, w, live) -> 0 <= size ->
  allocate_pages_pooled (E := EbpfError) size p w = (Ok (ptr, sz, p'), w') ->
  size <= sz <= BUCKET_MAX /\ (BUCKET_MIN < size -> sz < 2 * size) /\ pairwise_apart ((ptr, sz) :: live).
Proof.
  intros Hr%pool_reachable_ok Hs Ha. pose proof (pool_alloc_ok _ _ _ _ _ _ _ _ Hr Hs Ha) as (H1' & H2' & _ & _ & H3' & _).
  split_and!; try done; try lia. apply pairwise_cons. split; [done|].
  pose proof (pool_ok_apart _ Hr) as Hap. simpl in Hap. clear -Hap.
  induction live as [|b live IH]; [constructor|]. apply pairwise_cons in Hap as [Hb Hl].
  apply pairwise_cons. split; [by apply Forall_app in Hb as [Hb _]|auto].
Qed.
End Reachable.
