(* ===== verification/JitProgram.v ===== *)
(** * The production JIT compiler, 1: its state and its output buffer

    [src/casestudy/sbpf/src/jit.rs]: [JitProgram] with its allocation and
    sealing, the fields of [JitCompiler], and the writes into the text section.
    The compiler writes through raw pointers.  An access outside the section
    the pointer was made for is undefined behaviour in Rust and the outcome
    [Undefined] here, in every build profile; [Fails] is a returned error and
    [OutOfFuel] that the main loop did not end.  Pointers are host addresses. *)

From stdpp Require Import strings.
From S2P Require Import Prelude Ebpf Program Error Vm X86 PageAllocator.

Definition MAX_EMPTY_PROGRAM_MACHINE_CODE_LENGTH : Z := 4096.
Definition MAX_MACHINE_CODE_LENGTH_PER_INSTRUCTION : Z := 110.
Definition MACHINE_CODE_PER_INSTRUCTION_METER_CHECKPOINT : Z := 24.
Definition MAX_START_PADDING_LENGTH : Z := 256.

Definition ANCHOR_TRACE : Z := 0.
Definition ANCHOR_THROW_EXCEEDED_MAX_INSTRUCTIONS : Z := 1.
Definition ANCHOR_EPILOGUE : Z := 2.
Definition ANCHOR_THROW_EXCEPTION_UNCHECKED : Z := 3.
Definition ANCHOR_EXIT : Z := 4.
Definition ANCHOR_THROW_EXCEPTION : Z := 5.
Definition ANCHOR_CALL_DEPTH_EXCEEDED : Z := 6.
Definition ANCHOR_CALL_REG_OUTSIDE_TEXT_SEGMENT : Z := 7.
Definition ANCHOR_DIV_BY_ZERO : Z := 8.
Definition ANCHOR_DIV_OVERFLOW : Z := 9.
Definition ANCHOR_CALL_REG_UNSUPPORTED_INSTRUCTION : Z := 10.
Definition ANCHOR_CALL_UNSUPPORTED_INSTRUCTION : Z := 11.
Definition ANCHOR_EXTERNAL_FUNCTION_CALL : Z := 12.
Definition ANCHOR_INTERNAL_FUNCTION_CALL_PROLOGUE : Z := 13.
Definition ANCHOR_INTERNAL_FUNCTION_CALL_REG : Z := 14.
Definition ANCHOR_TRANSLATE_MEMORY_ADDRESS : Z := 21.
Definition ANCHOR_COUNT : Z := 34.

Definition REGISTER_MAP : list X86Register :=
  [RAX; RSI; RDX; RCX; R8; R9; RBX; R12; R13; R14; R15].
Definition REGISTER_PTR_TO_VM : X86Register := RDI.
Definition REGISTER_INSTRUCTION_METER : X86Register := R10.
Definition REGISTER_SCRATCH : X86Register := R11.

(** How a method of the compiler stops early. *)
Inductive Stop :=
| Fails (e : EbpfError)
| Undefined
| OutOfFuel.

(** ** [JitProgram] *)

(** [pc_section_ptr] and [text_section_ptr] are what [as_ptr] returns. *)
Record JitProgram := mkJitProgram {
  page_size : Z;
  allocation_size : Z;
  pc_section_ptr : Z;
  pc_section : list Z;
  text_section_ptr : Z;
  text_section : list byte
}.

Section Program.
Context {W : Type} `{Profile, Libc W}.

(** [memory a] is the byte the allocated block has at address [a]: blocks of
    the pool come with what their last owner left in them. *)
Definition JitProgram_new (pc code_size : Z) (memory : Z -> byte) (pool : BucketedFreeList) (w : W)
    : result Stop (JitProgram * BucketedFreeList) * W :=
  let page_size := get_system_page_size in
  match (n ← arith_u64 (pc * 4);
         pc_loc_table_size ← round_to_page_size n page_size;
         over_allocated_code_size ← round_to_page_size code_size page_size;
         total ← arith_u64 (pc_loc_table_size + over_allocated_code_size);
         Ok (pc_loc_table_size, over_allocated_code_size, total)) with
  | Ok (pc_loc_table_size, over_allocated_code_size, total) =>
      let (r, w) := allocate_pages_pooled total pool w in
      ('(raw, allocation_size, pool) ← r;
       if (allocation_size <? pc_loc_table_size + over_allocated_code_size)
          || (allocation_size <? 4 * pc)
       then Err Undefined
       else
         Ok (mkJitProgram page_size allocation_size raw (replicate (Z.to_nat pc) 0)
               (raw + pc_loc_table_size)
               (memory <$> seqZ (raw + pc_loc_table_size) over_allocated_code_size), pool), w)
  | Err e => (Err e, w)
  | Panic => (Panic, w)
  end.

(** A returned error of a system call. *)
Definition stop_error {A} (r : result EbpfError A) : result Stop A := map_error Fails r.

(** The bytes up to the end of the last page become debugger traps. *)
Definition seal (p : JitProgram) (text_section_usage : Z) (w : W) : result Stop JitProgram * W :=
  if page_size p =? 0 then (Ok p, w)
  else
    match (n ← round_to_page_size (4 * Z.of_nat (length (pc_section p))) (page_size p);
           code_size ← round_to_page_size text_section_usage (page_size p);
           fill ← arith_u64 (code_size - text_section_usage);
           if (Z.of_nat (length (text_section p)) <? text_section_usage + fill)
              || negb (text_section_ptr p =? pc_section_ptr p + n)
           then Err Undefined
           else Ok (n, code_size, splice (text_section p) (Z.to_nat text_section_usage)
                                    (replicate (Z.to_nat fill) 0xcc))) with
    | Ok (pc_loc_table_size, code_size, text) =>
        let (r, w) := protect_pages (pc_section_ptr p) pc_loc_table_size Read w in
        match r with
        | Ok _ =>
            let (r, w) := protect_pages (text_section_ptr p) code_size ReadExecute w in
            (_ ← stop_error r;
             Ok (mkJitProgram (page_size p) (allocation_size p) (pc_section_ptr p) (pc_section p)
                   (text_section_ptr p) (take (Z.to_nat text_section_usage) text)), w)
        | Err e => (Err (Fails e), w)
        | Panic => (Panic, w)
        end
    | Err e => (Err e, w)
    | Panic => (Panic, w)
    end.

Definition machine_code_length (p : JitProgram) : Z := Z.of_nat (length (text_section p)).
Definition mem_size (p : JitProgram) : Z := allocation_size p.

(** [Drop for JitProgram] *)
Definition JitProgram_drop (p : JitProgram) (pool : BucketedFreeList) (w : W)
    : result Stop BucketedFreeList * W :=
  free_pages_pooled (pc_section_ptr p) (allocation_size p) pool w.
End Program.

(** ** What the compiler takes from outside *)

(** [SmallRng] of the [rand] crate: [gen::<i64>()], [gen_range(0..n)] and
    sampling [Uniform::new_inclusive(low, high)]. *)
Class SmallRng (G : Type) := {
  gen_i64 : G -> Z * G;
  gen_range : Z -> G -> Z * G;
  sample_inclusive : Z -> Z -> G -> Z * G
}.
Class SmallRngLaws (G : Type) `{SmallRng G} := {
  gen_i64_range g : is_i 64 (gen_i64 g).1;
  gen_range_range n g : 0 < n -> 0 <= (gen_range n g).1 < n;
  sample_range low high g : low <= high -> low <= (sample_inclusive low high g).1 <= high
}.

Inductive RuntimeEnvironmentSlot :=
| Slot_HostStackPointer
| Slot_CallDepth
| Slot_ContextObjectPointer
| Slot_PreviousInstructionMeter
| Slot_DueInsnCount
| Slot_StopwatchNumerator
| Slot_StopwatchDenominator
| Slot_Registers
| Slot_ProgramResult
| Slot_MemoryMapping
| Slot_RegisterTrace.

(** What the Rust compiler and linker choose: the field offsets of [EbpfVm]
    and the addresses of the functions the machine code calls.  [vm_address]
    is the address of [BuiltinFunctionDefinition::vm] of a native function,
    [load_address n] that of [MemoryMapping::load] for [n] bytes. *)
Class Host (V : Type) := {
  slot_offset : RuntimeEnvironmentSlot -> Z;
  vm_address : V -> Z;
  load_address : Z -> Z;
  store_address : Z -> Z;
  trace_push_address : Z;
  stopwatch_result_address : Z
}.
Class HostLaws (V : Type) `{Host V} := {
  slot_offset_range s : 0 <= slot_offset s < 2 ^ 16;
  vm_address_range f : is_i 64 (vm_address f);
  load_address_range n : is_i 64 (load_address n);
  store_address_range n : is_i 64 (store_address n);
  trace_push_range : is_i 64 trace_push_address;
  stopwatch_result_range : is_i 64 stopwatch_result_address
}.

(** ** [JitCompiler] *)

(** [location] is the host address of the displacement to fill in. *)
Record Jump := mkJump { location : Z; target_pc : Z }.

(** The fields that are fixed once the compiler is constructed ... *)
Record JitEnv (V : Type) := mkJitEnv {
  executable : Executable V;
  program : list byte;
  program_vm_addr : Z;
  jit_config : Config;
  noop_range : Z * Z;
  runtime_environment_key : Z;
  immediate_value_key : Z
}.
Arguments mkJitEnv {V} _ _ _ _ _ _ _.
Arguments executable {V} _.
Arguments program {V} _.
Arguments program_vm_addr {V} _.
Arguments jit_config {V} _.
Arguments noop_range {V} _.
Arguments runtime_environment_key {V} _.
Arguments immediate_value_key {V} _.

(** ... and those that its methods change. A null anchor is [0]. *)
Record JitCompiler (G : Type) := mkJitCompiler {
  jit_result : JitProgram;
  text_section_jumps : list Jump;
  anchors : list Z;
  offset_in_text_section : Z;
  jit_pc : Z;
  last_instruction_meter_validation_pc : Z;
  next_noop_insertion : Z;
  diversification_rng : G;
  stopwatch_is_active : bool
}.
Arguments mkJitCompiler {G} _ _ _ _ _ _ _ _ _.
Arguments jit_result {G} _.
Arguments text_section_jumps {G} _.
Arguments anchors {G} _.
Arguments offset_in_text_section {G} _.
Arguments jit_pc {G} _.
Arguments last_instruction_meter_validation_pc {G} _.
Arguments next_noop_insertion {G} _.
Arguments diversification_rng {G} _.
Arguments stopwatch_is_active {G} _.

Section Setters.
Context {G : Type}.
Implicit Types s : JitCompiler G.

Definition set_text (t : list byte) (offset : Z) s : JitCompiler G :=
  let p := jit_result s in
  mkJitCompiler (mkJitProgram (page_size p) (allocation_size p) (pc_section_ptr p) (pc_section p)
                   (text_section_ptr p) t)
    (text_section_jumps s) (anchors s) offset (jit_pc s)
    (last_instruction_meter_validation_pc s) (next_noop_insertion s) (diversification_rng s)
    (stopwatch_is_active s).
Definition set_pc_section (l : list Z) s : JitCompiler G :=
  let p := jit_result s in
  mkJitCompiler (mkJitProgram (page_size p) (allocation_size p) (pc_section_ptr p) l
                   (text_section_ptr p) (text_section p))
    (text_section_jumps s) (anchors s) (offset_in_text_section s) (jit_pc s)
    (last_instruction_meter_validation_pc s) (next_noop_insertion s) (diversification_rng s)
    (stopwatch_is_active s).
Definition set_jumps (l : list Jump) s : JitCompiler G :=
  mkJitCompiler (jit_result s) l (anchors s) (offset_in_text_section s) (jit_pc s)
    (last_instruction_meter_validation_pc s) (next_noop_insertion s) (diversification_rng s)
    (stopwatch_is_active s).
Definition set_anchors (l : list Z) s : JitCompiler G :=
  mkJitCompiler (jit_result s) (text_section_jumps s) l (offset_in_text_section s) (jit_pc s)
    (last_instruction_meter_validation_pc s) (next_noop_insertion s) (diversification_rng s)
    (stopwatch_is_active s).
Definition set_jit_pc (pc : Z) s : JitCompiler G :=
  mkJitCompiler (jit_result s) (text_section_jumps s) (anchors s) (offset_in_text_section s) pc
    (last_instruction_meter_validation_pc s) (next_noop_insertion s) (diversification_rng s)
    (stopwatch_is_active s).
Definition set_validation_pc (pc : Z) s : JitCompiler G :=
  mkJitCompiler (jit_result s) (text_section_jumps s) (anchors s) (offset_in_text_section s)
    (jit_pc s) pc (next_noop_insertion s) (diversification_rng s) (stopwatch_is_active s).
Definition set_noop (n : Z) (g : G) s : JitCompiler G :=
  mkJitCompiler (jit_result s) (text_section_jumps s) (anchors s) (offset_in_text_section s)
    (jit_pc s) (last_instruction_meter_validation_pc s) n g (stopwatch_is_active s).
Definition set_stopwatch (b : bool) s : JitCompiler G :=
  mkJitCompiler (jit_result s) (text_section_jumps s) (anchors s) (offset_in_text_section s)
    (jit_pc s) (last_instruction_meter_validation_pc s) (next_noop_insertion s)
    (diversification_rng s) b.
End Setters.

(** ** Methods on [&mut self] *)
Section Monad.
Context {G : Type}.

Definition jit (A : Type) : Type := JitCompiler G -> result Stop (A * JitCompiler G).

#[global] Instance jit_ret : MRet jit := fun A a s => Ok (a, s).
#[global] Instance jit_bind : MBind jit := fun A B f m s =>
  match m s with Ok (a, s) => f a s | Err e => Err e | Panic => Panic end.

Definition gets {A} (f : JitCompiler G -> A) : jit A := fun s => Ok (f s, s).
Definition modify (f : JitCompiler G -> JitCompiler G) : jit unit := fun s => Ok (tt, f s).
Definition lift {A} (r : result Stop A) : jit A := fun s =>
  match r with Ok a => Ok (a, s) | Err e => Err e | Panic => Panic end.
(** [return Err(e)] *)
Definition fails {A} (e : EbpfError) : jit A := fun _ => Err (Fails e).

(** [for x in l { f(x) }] *)
Fixpoint for_each {A} (f : A -> jit unit) (l : list A) : jit unit :=
  match l with
  | [] => mret tt
  | x :: l => _ ← f x; for_each f l
  end.

(** The number of bytes of the text section. *)
Definition text_len (s : JitCompiler G) : Z := Z.of_nat (length (text_section (jit_result s))).

(** [ptr::write_unaligned] of [bytes] at [offset] of the text section. *)
Definition write_text (offset : Z) (bytes : list byte) (s : JitCompiler G)
    : result Stop (list byte) :=
  if (0 <=? offset) && (offset + Z.of_nat (length bytes) <=? text_len s)
  then Ok (splice (text_section (jit_result s)) (Z.to_nat offset) bytes)
  else Err Undefined.

(** [emit::<T>(data)] for an unsigned [T] of [n] bytes. *)
Definition emit (n : nat) (data : Z) : jit unit := fun s =>
  text ← write_text (offset_in_text_section s) (le_bytes n data) s;
  Ok (tt, set_text text (offset_in_text_section s + Z.of_nat n) s).

Definition emit_variable_length (size : OperandSize) (data : Z) : jit unit :=
  match size with
  | S0 => mret tt
  | S8 => emit 1 (as_u 8 data)
  | S16 => emit 2 (as_u 16 data)
  | S32 => emit 4 (as_u 32 data)
  | S64 => emit 8 data
  end.
End Monad.
Arguments jit G A : clear implicits.
