(* ===== verification/X86Emit.v ===== *)
(** * The production x86-64 encoder: [src/casestudy/sbpf/src/x86.rs]

    The constructors of [X86Instruction] and [emit], which writes an
    instruction into the text section of a compiler.  The types are those of
    [X86]: the two encoders of the program declare the same ones. *)

From S2P Require Import Prelude X86 PageAllocator JitProgram.

(** [exclude_operand_sizes!] *)
Definition exclude_operand_sizes {E} `{Profile} (sz : OperandSize) (l : list OperandSize)
    : result E unit :=
  debug_assert (negb (bool_decide (sz ∈ l))).

(** ** Emission *)
Section Emit.
Context {G : Type} `{Profile}.

(** [self.indirect] decides the addressing bytes: the [ModRM] mode and [m]
    field, the [SIB] byte with its [REX.x] bit, and the displacement. *)
Definition addressing (i : X86Instruction)
    : result Stop (Z * Z * bool * X86Sib * OperandSize * Z) :=
  let m := Z.land (second_operand i) 7 in
  if negb (modrm i) then Ok (0, m, false, mkSib 0 0 0, S0, 0)
  else
    match indirect i with
    | Some (Offset offset) =>
        _ ← debug_assert (negb (m =? 4));
        let short := ((-128 <=? offset) && (offset <=? 127)) || ((offset =? 0) && (m =? 5)) in
        Ok (if short then 1 else 2, m, false, mkSib 0 0 0, if short then S8 else S32, offset)
    | Some (OffsetIndexShift offset index shift) =>
        let short := (-128 <=? offset) && (offset <=? 127) in
        Ok (if short then 1 else 2, 4, negb (Z.land (reg_u8 index) 8 =? 0),
            mkSib (Z.land shift 3) (Z.land (reg_u8 index) 7) m, if short then S8 else S32, offset)
    | None => Ok (3, m, false, mkSib 0 0 0, S0, 0)
    end.

Definition emit_instruction (i : X86Instruction) : jit G unit :=
  _ ← lift (debug_assert (negb (size_eqb (size i) S0)));
  '(mode, m, x, sib, displacement_size, displacement) ← lift (addressing i);
  _ ← (if size_eqb (size i) S16 then emit 1 0x66 else mret tt);
  let rex :=
    Z.lor (Z.lor (Z.lor (Z.shiftl (bool_u8 (size_eqb (size i) S64)) 3)
                        (Z.shiftl (bool_u8 (negb (Z.land (first_operand i) 8 =? 0))) 2))
                 (Z.shiftl (bool_u8 x) 1))
          (bool_u8 (negb (Z.land (second_operand i) 8 =? 0))) in
  _ ← (if negb (rex =? 0) then emit 1 (Z.lor 0x40 rex) else mret tt);
  _ ← (if opcode_escape_sequence i =? 1 then emit 1 0x0f
       else if opcode_escape_sequence i =? 2 then emit 2 0x0f38
       else if opcode_escape_sequence i =? 3 then emit 2 0x0f3a
       else mret tt);
  _ ← emit 1 (opcode i);
  _ ← (if modrm i then
         _ ← emit 1 (Z.lor (Z.lor (Z.shiftl mode 6) (Z.shiftl (Z.land (first_operand i) 7) 3)) m);
         let sib := Z.lor (Z.lor (Z.shiftl (sib_scale sib) 6) (Z.shiftl (sib_index sib) 3)) (sib_base sib) in
         _ ← (if negb (sib =? 0) then emit 1 sib else mret tt);
         emit_variable_length displacement_size (as_u 64 displacement)
       else mret tt);
  emit_variable_length (immediate_size i) (as_u 64 (immediate i)).
End Emit.

(** ** Constructors *)
Section Constructors.
Context {E : Type} `{Profile}.
Abbreviation R := (result E X86Instruction).

(** [Self { size, opcode, first_operand, second_operand, ..DEFAULT }] *)
Definition two_operands (sz : OperandSize) (op first second : Z) : X86Instruction := {|
  size := sz; opcode_escape_sequence := opcode_escape_sequence DEFAULT; opcode := op;
  modrm := modrm DEFAULT; indirect := indirect DEFAULT; first_operand := first;
  second_operand := second; immediate_size := immediate_size DEFAULT;
  immediate := immediate DEFAULT |}.

(** Struct update of one field. *)
Definition with_escape (e : Z) (i : X86Instruction) : X86Instruction := {|
  size := size i; opcode_escape_sequence := e; opcode := opcode i; modrm := modrm i;
  indirect := indirect i; first_operand := first_operand i; second_operand := second_operand i;
  immediate_size := immediate_size i; immediate := immediate i |}.
Definition without_modrm (i : X86Instruction) : X86Instruction := {|
  size := size i; opcode_escape_sequence := opcode_escape_sequence i; opcode := opcode i;
  modrm := false; indirect := indirect i; first_operand := first_operand i;
  second_operand := second_operand i; immediate_size := immediate_size i;
  immediate := immediate i |}.
Definition with_indirect (ind : option X86IndirectAccess) (i : X86Instruction) : X86Instruction := {|
  size := size i; opcode_escape_sequence := opcode_escape_sequence i; opcode := opcode i;
  modrm := modrm i; indirect := ind; first_operand := first_operand i;
  second_operand := second_operand i; immediate_size := immediate_size i;
  immediate := immediate i |}.
Definition with_immediate (isz : OperandSize) (imm : Z) (i : X86Instruction) : X86Instruction := {|
  size := size i; opcode_escape_sequence := opcode_escape_sequence i; opcode := opcode i;
  modrm := modrm i; indirect := indirect i; first_operand := first_operand i;
  second_operand := second_operand i; immediate_size := isz; immediate := imm |}.

Definition alu_escaped (sz : OperandSize) (opcode_escape_sequence opcode : Z)
    (source destination : X86Register) (indirect : option X86IndirectAccess) : R :=
  _ ← exclude_operand_sizes sz [S0; S8; S16];
  Ok (with_escape opcode_escape_sequence (with_indirect indirect
        (two_operands sz opcode (reg_u8 source) (reg_u8 destination)))).

Definition alu_immediate_escaped (sz : OperandSize) (opcode_escape_sequence opcode opcode_extension : Z)
    (destination : X86Register) (immediate : Z) (indirect : option X86IndirectAccess) : R :=
  _ ← exclude_operand_sizes sz [S0; S8; S16];
  let immediate_size :=
    if opcode =? 0xc1 then S8
    else if opcode =? 0x81 then S32
    else if (opcode =? 0xf7) && (opcode_extension =? 0) then S32
    else S0 in
  Ok (with_escape opcode_escape_sequence (with_immediate immediate_size immediate
        (with_indirect indirect (two_operands sz opcode opcode_extension (reg_u8 destination))))).

Definition alu (sz : OperandSize) (opcode : Z) (source destination : X86Register)
    (indirect : option X86IndirectAccess) : R :=
  alu_escaped sz 0 opcode source destination indirect.

Definition alu_immediate (sz : OperandSize) (opcode opcode_extension : Z)
    (destination : X86Register) (immediate : Z) (indirect : option X86IndirectAccess) : R :=
  alu_immediate_escaped sz 0 opcode opcode_extension destination immediate indirect.

Definition mov (sz : OperandSize) (source destination : X86Register) : R :=
  _ ← exclude_operand_sizes sz [S0; S8; S16];
  Ok (two_operands sz 0x89 (reg_u8 source) (reg_u8 destination)).

Definition mov_with_sign_extension (sz : OperandSize) (source destination : X86Register) : R :=
  _ ← exclude_operand_sizes sz [S0; S8; S16];
  Ok (two_operands sz 0x63 (reg_u8 destination) (reg_u8 source)).

Definition mov_mmx (sz : OperandSize) (source destination : X86Register) : R :=
  _ ← exclude_operand_sizes sz [S0; S8; S16; S32];
  if negb (Z.land (reg_u8 destination) 16 =? 0)
  then Ok (with_escape 1 (two_operands sz (if negb (Z.land (reg_u8 source) 16 =? 0) then 0x6f else 0x6e)
             (Z.land (reg_u8 destination) 0xf) (Z.land (reg_u8 source) 0xf)))
  else Ok (with_escape 1 (two_operands sz 0x7e
             (Z.land (reg_u8 source) 0xf) (Z.land (reg_u8 destination) 0xf))).

Definition cmov (sz : OperandSize) (condition : Z) (source destination : X86Register) : R :=
  _ ← exclude_operand_sizes sz [S0; S8; S16];
  Ok (with_escape 1 (two_operands sz condition (reg_u8 destination) (reg_u8 source))).

Definition xchg (sz : OperandSize) (source destination : X86Register)
    (indirect : option X86IndirectAccess) : R :=
  _ ← exclude_operand_sizes sz [S0; S8; S16; S32];
  Ok (with_indirect indirect (two_operands sz 0x87 (reg_u8 source) (reg_u8 destination))).

(** [unimplemented!()] for the other sizes. *)
Definition bswap (sz : OperandSize) (destination : X86Register) : R :=
  _ ← exclude_operand_sizes sz [S0; S8];
  match sz with
  | S16 => Ok (with_immediate S8 8 (two_operands sz 0xc1 0 (reg_u8 destination)))
  | S32 | S64 =>
      Ok (without_modrm (with_escape 1
            (two_operands sz (Z.lor 0xc8 (Z.land (reg_u8 destination) 7)) 0 (reg_u8 destination))))
  | _ => Panic
  end.

Definition test (sz : OperandSize) (source destination : X86Register)
    (indirect : option X86IndirectAccess) : R :=
  _ ← exclude_operand_sizes sz [S0];
  Ok (with_indirect indirect (two_operands sz (match sz with S8 => 0x84 | _ => 0x85 end)
        (reg_u8 source) (reg_u8 destination))).

(** The size of the immediate: 32 bits for a 64-bit operation. *)
Definition immediate_size_of (sz : OperandSize) : OperandSize :=
  match sz with S64 => S32 | _ => sz end.

Definition test_immediate (sz : OperandSize) (destination : X86Register) (immediate : Z)
    (indirect : option X86IndirectAccess) : R :=
  _ ← exclude_operand_sizes sz [S0];
  Ok (with_immediate (immediate_size_of sz) immediate (with_indirect indirect
        (two_operands sz (match sz with S8 => 0xf6 | _ => 0xf7 end) 0 (reg_u8 destination)))).

Definition cmp (sz : OperandSize) (source destination : X86Register)
    (indirect : option X86IndirectAccess) : R :=
  _ ← exclude_operand_sizes sz [S0];
  Ok (with_indirect indirect (two_operands sz (match sz with S8 => 0x38 | _ => 0x39 end)
        (reg_u8 source) (reg_u8 destination))).

Definition cmp_immediate (sz : OperandSize) (destination : X86Register) (immediate : Z)
    (indirect : option X86IndirectAccess) : R :=
  _ ← exclude_operand_sizes sz [S0];
  Ok (with_immediate (immediate_size_of sz) immediate (with_indirect indirect
        (two_operands sz (match sz with S8 => 0x80 | _ => 0x81 end) 7 (reg_u8 destination)))).

Definition lea (sz : OperandSize) (source destination : X86Register)
    (indirect : option X86IndirectAccess) : R :=
  _ ← exclude_operand_sizes sz [S0; S8; S16; S32];
  Ok (with_indirect indirect (two_operands sz 0x8d (reg_u8 destination) (reg_u8 source))).

Definition sign_extend_rax_rdx (sz : OperandSize) : R :=
  _ ← exclude_operand_sizes sz [S0; S8; S16];
  Ok (without_modrm (two_operands sz 0x99 0 0)).

Definition load (sz : OperandSize) (source destination : X86Register)
    (indirect : X86IndirectAccess) : R :=
  _ ← exclude_operand_sizes sz [S0];
  Ok (with_escape (match sz with S8 | S16 => 1 | _ => 0 end) (with_indirect (Some indirect)
        (two_operands (match sz with S64 => S64 | _ => S32 end)
           (match sz with S8 => 0xb6 | S16 => 0xb7 | _ => 0x8b end)
           (reg_u8 destination) (reg_u8 source)))).

Definition store (sz : OperandSize) (source destination : X86Register)
    (indirect : X86IndirectAccess) : R :=
  _ ← exclude_operand_sizes sz [S0];
  Ok (with_indirect (Some indirect) (two_operands sz (match sz with S8 => 0x88 | _ => 0x89 end)
        (reg_u8 source) (reg_u8 destination))).

Definition load_immediate (destination : X86Register) (immediate : Z) : X86Instruction :=
  let full size :=
    without_modrm (with_immediate size immediate
      (two_operands size (Z.lor 0xb8 (Z.land (reg_u8 destination) 7)) 0 (reg_u8 destination))) in
  if 0 <=? immediate then full (if immediate <=? u32_max then S32 else S64)
  else if i32_min <=? immediate then
    with_immediate S32 immediate (two_operands S64 0xc7 0 (reg_u8 destination))
  else full S64.

Definition store_immediate (sz : OperandSize) (destination : X86Register)
    (indirect : X86IndirectAccess) (immediate : Z) : R :=
  _ ← exclude_operand_sizes sz [S0];
  Ok (with_immediate (immediate_size_of sz) immediate (with_indirect (Some indirect)
        (two_operands sz (match sz with S8 => 0xc6 | _ => 0xc7 end) 0 (reg_u8 destination)))).

Definition push_immediate (sz : OperandSize) (immediate : Z) : R :=
  _ ← exclude_operand_sizes sz [S0; S16];
  Ok (without_modrm (with_immediate (immediate_size_of sz) immediate
        (two_operands sz (match sz with S8 => 0x6a | _ => 0x68 end) 0 0))).

Definition push (source : X86Register) (indirect : option X86IndirectAccess) : X86Instruction :=
  match indirect with
  | None => without_modrm (two_operands S32 (Z.lor 0x50 (Z.land (reg_u8 source) 7)) 0 (reg_u8 source))
  | Some _ => with_indirect indirect (two_operands S64 0xff 6 (reg_u8 source))
  end.

Definition pop (destination : X86Register) : X86Instruction :=
  without_modrm (two_operands S32 (Z.lor 0x58 (Z.land (reg_u8 destination) 7)) 0 (reg_u8 destination)).

Definition conditional_jump_immediate (opcode relative_destination : Z) : X86Instruction :=
  without_modrm (with_escape 1 (with_immediate S32 relative_destination (two_operands S32 opcode 0 0))).

Definition jump_immediate (relative_destination : Z) : X86Instruction :=
  without_modrm (with_immediate S32 relative_destination (two_operands S32 0xe9 0 0)).

Definition jump_reg (destination : X86Register) (indirect : option X86IndirectAccess) : X86Instruction :=
  with_indirect indirect (two_operands S64 0xff 4 (reg_u8 destination)).

Definition call_immediate (relative_destination : Z) : X86Instruction :=
  without_modrm (with_immediate S32 relative_destination (two_operands S32 0xe8 0 0)).

Definition call_reg (destination : X86Register) (indirect : option X86IndirectAccess) : X86Instruction :=
  with_indirect indirect (two_operands S64 0xff 2 (reg_u8 destination)).

Definition return_near : X86Instruction := without_modrm (two_operands S32 0xc3 0 0).
Definition noop : X86Instruction := without_modrm (two_operands S32 0x90 0 0).

Definition interrupt (immediate : Z) : X86Instruction :=
  if immediate =? 3 then without_modrm (two_operands S32 0xcc 0 0)
  else without_modrm (with_immediate S8 immediate (two_operands S32 0xcd 0 0)).

Definition cycle_count : X86Instruction := without_modrm (with_escape 1 (two_operands S32 0x31 0 0)).
Definition fence (fence_type : FenceType) : X86Instruction :=
  with_escape 1 (two_operands S32 0xae (fence_u8 fence_type) 0).
End Constructors.
