(* ===== verification/X86EmitFacts.v ===== *)
(** * The production encoder writes what the safe-mode encoder returns

    [emit_instruction] writes the bytes [X86.encode] returns at the current
    offset, in one piece, or stops; the constructors of the two encoders build
    the same instructions.  [writes] describes a computation that does nothing
    but append given bytes to the machine code. *)

From S2P Require Import Prelude X86 PageAllocator JitProgram X86Emit.

Section Writes.
Context {G : Type}.
Implicit Types s : JitCompiler G.

(** The state after [bs] was written at the current offset. *)
Definition append (bs : list byte) s : JitCompiler G :=
  set_text (splice (text_section (jit_result s)) (Z.to_nat (offset_in_text_section s)) bs)
    (offset_in_text_section s + Z.of_nat (length bs)) s.

(** The offset is inside the text section or at its end. *)
Definition offset_ok s : Prop := 0 <= offset_in_text_section s <= text_len s.

Definition writes (bs : list byte) (m : jit G unit) : Prop :=
  forall s, offset_ok s ->
    m s = if offset_in_text_section s + Z.of_nat (length bs) <=? text_len s
          then Ok (tt, append bs s) else Err Undefined.

Lemma text_len_append bs s :
  offset_ok s -> offset_in_text_section s + Z.of_nat (length bs) <= text_len s ->
  text_len (append bs s) = text_len s.
Proof. unfold offset_ok, text_len, append. simpl. intros. rewrite length_splice; lia. Qed.

Lemma text_append_nil s : offset_ok s -> append [] s = s.
Proof.
  intros H. unfold append, splice. simpl. rewrite Nat.add_0_r, take_drop, Z.add_0_r.
  by destruct s as [[] ? ? ? ? ? ? ? ?].
Qed.

Lemma splice_splice (t a b : list byte) (i : nat) :
  (i + length a + length b <= length t)%nat ->
  splice (splice t i a) (i + length a) b = splice t i (a ++ b).
Proof.
  intros H. unfold splice at 1 3. rewrite length_app, Nat.add_assoc.
  assert (Ht : take (i + length a) (splice t i a) = take i t ++ a).
  { unfold splice. rewrite app_assoc. apply take_app_length'. rewrite length_app, length_take. lia. }
  assert (Hd : drop (i + length a + length b) (splice t i a) = drop (i + length a + length b) t).
  { unfold splice. rewrite app_assoc, drop_app_ge by (rewrite length_app, length_take; lia).
    rewrite drop_drop. f_equal. rewrite length_app, length_take. lia. }
  rewrite Ht, Hd. by rewrite <- !app_assoc.
Qed.

Lemma text_append_append a b s :
  offset_ok s -> offset_in_text_section s + Z.of_nat (length (a ++ b)) <= text_len s ->
  append b (append a s) = append (a ++ b) s.
Proof.
  unfold offset_ok, text_len, append, set_text. rewrite length_app. simpl. intros H1 H2.
  replace (Z.to_nat (offset_in_text_section s + Z.of_nat (length a)))
    with (Z.to_nat (offset_in_text_section s) + length a)%nat by lia.
  rewrite splice_splice, Nat2Z.inj_add, Z.add_assoc by lia. done.
Qed.

Lemma writes_ret : writes [] (mret tt).
Proof.
  intros s H. simpl. rewrite Z.add_0_r, text_append_nil by done. unfold offset_ok in H.
  by destruct (Z.leb_spec (offset_in_text_section s) (text_len s)); [|lia].
Qed.

Lemma writes_bind a b (m k : jit G unit) : writes a m -> writes b k -> writes (a ++ b) (m ≫= fun _ => k).
Proof.
  intros Hm Hk s Hs. unfold mbind, jit_bind. rewrite (Hm s Hs).
  pose proof (length_app a b) as Hl.
  destruct (Z.leb_spec (offset_in_text_section s + Z.of_nat (length a)) (text_len s)) as [Ha|Ha].
  - pose proof (text_len_append a s Hs Ha) as Ht.
    rewrite (Hk (append a s)), Ht by (unfold offset_ok; rewrite Ht; simpl; unfold offset_ok in Hs; lia).
    cbn [append set_text offset_in_text_section]. fold (append a s).
    replace (offset_in_text_section s + Z.of_nat (length a) + Z.of_nat (length b))
      with (offset_in_text_section s + Z.of_nat (length (a ++ b))) by lia.
    destruct (Z.leb_spec (offset_in_text_section s + Z.of_nat (length (a ++ b))) (text_len s)); [|done].
    by rewrite text_append_append.
  - by destruct (Z.leb_spec (offset_in_text_section s + Z.of_nat (length (a ++ b))) (text_len s)); [lia|].
Qed.

Lemma writes_lift {A} (a : A) (f : A -> jit G unit) bs : writes bs (f a) -> writes bs (lift (Ok a) ≫= f).
Proof. exact id. Qed.

Lemma writes_if (b : bool) x y (m k : jit G unit) :
  writes x m -> writes y k -> writes (if b then x else y) (if b then m else k).
Proof. by destruct b. Qed.

Lemma writes_emit n data : writes (le_bytes n data) (emit n data).
Proof.
  intros s [Hs _]. unfold emit, write_text, append. rewrite length_le_bytes.
  rewrite (proj2 (Z.leb_le _ _) Hs). simpl.
  by destruct (offset_in_text_section s + Z.of_nat n <=? text_len s).
Qed.

Lemma writes_emit_byte b : is_u 8 b -> writes [b] (emit 1 b).
Proof.
  intros Hb. pose proof (writes_emit 1 b) as H. change (le_bytes 1 b) with [b mod 256] in H.
  by rewrite Z.mod_small in H.
Qed.

Lemma le_bytes_as_u n w z : 8 * Z.of_nat n <= w -> le_bytes n (as_u w z) = le_bytes n z.
Proof.
  intros Hn. apply le_bytes_congr. apply (as_u_as_u (8 * Z.of_nat n) w). lia.
Qed.

Lemma writes_variable_length sz data :
  writes (X86.emit_variable_length sz data) (emit_variable_length sz data).
Proof.
  unfold X86.emit_variable_length, emit_variable_length.
  rewrite !take_le_bytes by lia.
  destruct sz; [apply writes_ret| | | |apply writes_emit].
  - rewrite <- (le_bytes_as_u 1 8) by lia. apply writes_emit.
  - rewrite <- (le_bytes_as_u 2 16) by lia. apply writes_emit.
  - rewrite <- (le_bytes_as_u 4 32) by lia. apply writes_emit.
Qed.
End Writes.

(** ** The bytes of an instruction *)
Lemma fields_u8 a b c :
  is_u 2 a -> is_u 3 b -> is_u 3 c -> is_u 8 (Z.lor (Z.lor (Z.shiftl a 6) (Z.shiftl b 3)) c).
Proof.
  intros Ha Hb Hc.
  assert (H : forall x n k, is_u n x -> 0 <= n -> 0 <= k -> n + k <= 8 -> is_u 8 (Z.shiftl x k)).
  { intros x n k Hx Hn Hk Hnk. rewrite Z.shiftl_mul_pow2 by lia. unfold is_u in *.
    pose proof (Z.pow_le_mono_r 2 (n + k) 8 ltac:(lia) Hnk). rewrite Z.pow_add_r in H by lia.
    pose proof (pow2_pos k Hk). nia. }
  apply lor_is_u; [lia|apply lor_is_u; [lia|eapply H..]|eapply is_u_mono; [|done]; lia]; try done; lia.
Qed.

Lemma land_ones_u z n : 0 <= n -> is_u n (Z.land z (2 ^ n - 1)).
Proof. intros. rewrite land_ones_mod by done. by apply as_u_range. Qed.

Lemma rex_u8 w r x b : is_u 8 (Z.lor 0x40 (rex_byte (mkRex w r x b))).
Proof. destruct w, r, x, b; done. Qed.

Section Emission.
Context {G : Type} `{Profile}.

(** What [addressing] computes is what [encode_operands] does. *)
Lemma addressing_encode i :
  encode_operands (E := Stop) i =
    '(mode, m, x, sib, dsz, d) ← addressing i;
    Ok (mkRex (size_eqb (size i) S64) (negb (Z.land (first_operand i) 8 =? 0)) x
          (negb (Z.land (second_operand i) 8 =? 0)),
        mkModRm mode (Z.land (first_operand i) 7) m, sib, dsz, d).
Proof.
  unfold encode_operands, addressing. destruct (modrm i); [|done]. simpl.
  destruct (indirect i) as [[o|o r sh]|]; [| |done].
  - unfold debug_assert. destruct (debug_assertions && _); [done|]. simpl.
    by destruct (((-128 <=? o) && (o <=? 127)) || ((o =? 0) && (Z.land (second_operand i) 7 =? 5))).
  - by destruct ((-128 <=? o) && (o <=? 127)).
Qed.

Lemma addressing_fields i mode m x sib dsz d :
  addressing i = Ok (mode, m, x, sib, dsz, d) ->
  is_u 2 mode /\ is_u 3 m /\ is_u 2 (sib_scale sib) /\ is_u 3 (sib_index sib) /\ is_u 3 (sib_base sib).
Proof.
  pose proof (land_ones_u (second_operand i) 3 ltac:(lia)) as H7.
  change (2 ^ 3 - 1) with 7 in H7. unfold addressing. intros Ha. repeat case_match; result_inv;
    simplify_eq/=; repeat split; try done; try (apply (land_ones_u _ 3); lia); try (apply (land_ones_u _ 2); lia);
    try (apply H7); repeat case_match; lia.
Qed.

(** The bytes [encode] returns are written in one piece. *)
Lemma writes_instruction i bs :
  is_u 8 (opcode i) -> encode (E := Stop) i = Ok bs -> writes bs (emit_instruction (G := G) i).
Proof.
  intros Hop He. unfold encode in He. rewrite addressing_encode in He.
  unfold emit_instruction. unfold debug_assert in *.
  destruct (debug_assertions && _) eqn:Hd; [done|]. simpl in He.
  destruct (addressing i) as [[[[[[mode m] x] sib] dsz] d]| |] eqn:Ha; try done. simpl in He.
  injection He as <-. destruct (addressing_fields _ _ _ _ _ _ _ Ha) as (Hmode & Hm & Hss & Hsi & Hsb).
  apply writes_lift, writes_lift. apply writes_bind; [apply writes_if; [by apply writes_emit_byte|apply writes_ret]|].
  apply writes_bind.
  { rewrite <- (negb_involutive (_ =? 0)), <- if_negb. rewrite negb_involutive.
    apply writes_if; [by apply writes_emit_byte, rex_u8|apply writes_ret]. }
  apply writes_bind; [unfold escape_bytes; repeat apply writes_if; try apply writes_emit; apply writes_ret|].
  apply (writes_bind [opcode i]); [by apply writes_emit_byte|].
  apply writes_bind; [|apply writes_variable_length].
  apply writes_if; [|apply writes_ret].
  eapply (writes_bind [_]); [apply writes_emit_byte, fields_u8; [done|apply (land_ones_u _ 3); lia|done]|].
  apply writes_bind; [|apply writes_variable_length].
  rewrite <- (negb_involutive (_ =? 0)), <- if_negb, negb_involutive.
  apply writes_if; [by apply writes_emit_byte, fields_u8|apply writes_ret].
Qed.

(** C23: The production encoder is the safe-mode encoder with another output: in
    a compiler whose offset is inside its text section, [emit_instruction]
    writes exactly the bytes [X86.encode] returns, at the offset and advancing
    it, changes nothing else, and panics when [X86.encode] does; without room
    for all the bytes the raw write is undefined behaviour. *)
Theorem emit_equals_encode (i : X86Instruction) (s : JitCompiler G) :
  is_u 8 (opcode i) -> offset_ok s ->
  emit_instruction i s =
    match encode (E := Stop) i with
    | Ok bs => if offset_in_text_section s + Z.of_nat (length bs) <=? text_len s
               then Ok (tt, append bs s) else Err Undefined
    | Err e => Err e
    | Panic => Panic
    end.
Proof.
  intros Hop Hs. destruct (encode i) as [bs|e|] eqn:He; [by apply writes_instruction|..];
    unfold encode in He; rewrite addressing_encode in He; unfold emit_instruction, debug_assert in *;
    destruct (debug_assertions && _); try done; simpl in *;
    destruct (addressing i) as [[[[[[? ?] ?] ?] ?] ?]| |]; try done; simpl in *; by simplify_eq.
Qed.
End Emission.

(** ** Constructors *)
Section Constructors.
Context {E : Type} `{Profile}.
Abbreviation same f g := (f = g :> result E X86Instruction).

(** The constructors of the safe-mode encoder mirror those of the
    production encoder: for all arguments they build the same instruction, and
    panic for the same operand sizes. *)
Theorem constructors_mirror (sz : OperandSize) (esc op ext imm : Z) (a b : X86Register)
    (ind : option X86IndirectAccess) (acc : X86IndirectAccess) (f : FenceType) :
  same (alu_escaped sz esc op a b ind) (X86.alu_escaped sz esc op a b ind) /\
  same (alu_immediate_escaped sz esc op ext a imm ind) (X86.alu_immediate_escaped sz esc op ext a imm ind) /\
  same (alu sz op a b ind) (X86.alu sz op a b ind) /\
  same (alu_immediate sz op ext a imm ind) (X86.alu_immediate sz op ext a imm ind) /\
  same (mov sz a b) (X86.mov sz a b) /\
  same (mov_with_sign_extension sz a b) (X86.mov_with_sign_extension sz a b) /\
  same (mov_mmx sz a b) (X86.mov_mmx sz a b) /\
  same (cmov sz op a b) (X86.cmov sz op a b) /\
  same (xchg sz a b ind) (X86.xchg sz a b ind) /\
  same (bswap sz a) (X86.bswap sz a) /\
  same (test sz a b ind) (X86.test sz a b ind) /\
  same (test_immediate sz a imm ind) (X86.test_immediate sz a imm ind) /\
  same (cmp sz a b ind) (X86.cmp sz a b ind) /\
  same (cmp_immediate sz a imm ind) (X86.cmp_immediate sz a imm ind) /\
  same (lea sz a b ind) (X86.lea sz a b ind) /\
  same (sign_extend_rax_rdx sz) (X86.sign_extend_rax_rdx sz) /\
  same (load sz a b acc) (X86.load sz a b acc) /\
  same (store sz a b acc) (X86.store sz a b acc) /\
  load_immediate a imm = X86.load_immediate a imm /\
  same (store_immediate sz a acc imm) (X86.store_immediate sz a acc imm) /\
  same (push_immediate sz imm) (X86.push_immediate sz imm) /\
  push a ind = X86.push a ind /\
  pop a = X86.pop a /\
  conditional_jump_immediate op imm = X86.conditional_jump_immediate op imm /\
  jump_immediate imm = X86.jump_immediate imm /\
  jump_reg a ind = X86.jump_reg a ind /\
  call_immediate imm = X86.call_immediate imm /\
  call_reg a ind = X86.call_reg a ind /\
  return_near = X86.return_near /\
  noop = X86.noop /\
  interrupt imm = X86.interrupt imm /\
  cycle_count = X86.cycle_count /\
  fence f = X86.fence f.
Proof.
  repeat apply conj; try done; try (by destruct sz); try (by destruct ind);
    first [by unfold load_immediate, X86.load_immediate; repeat case_match
          |by unfold interrupt, X86.interrupt; case_match|idtac].
Qed.
End Constructors.
