(* ===== verification/JitCompiler.v ===== *)
(** * The production JIT compiler, 2: code generation

    [src/casestudy/sbpf/src/jit.rs]: the methods of [JitCompiler] that generate
    machine code, in source order where possible: jumps and anchors, constant
    sanitisation, the instruction meter, calls, memory accesses, the
    subroutines, and [compile] with its [match insn.opc] as a table of arms
    ([Verifier.match_opc]).  Instructions are the production encoder's
    ([X86Emit]).  A native function is registered with a hook that generates
    the code of its calls: the class [Codegen], with the trait's default as an
    instance.  [JitProgram::invoke], which enters the machine code through
    inline assembly, is not modelled. *)

From stdpp Require Import strings.
From S2P Require Import Prelude Ebpf Program Verifier Error Vm X86 PageAllocator JitProgram X86Emit.

(** [a - b], [a + b] on [i32] and [u32]. *)
Definition arith_i32 {E} `{Profile} (z : Z) : result E Z :=
  if (i32_min <=? z) && (z <=? i32_max) then Ok z
  else if debug_assertions then Panic else Ok (as_i 32 z).
Definition arith_u32 {E} `{Profile} (z : Z) : result E Z :=
  if (0 <=? z) && (z <=? u32_max) then Ok z
  else if debug_assertions then Panic else Ok (as_u 32 z).

(** [value.rotate_right(32)] on [i64]. *)
Definition rotate_right_32 (z : Z) : Z :=
  let u := as_u 64 z in as_i 64 (Z.lor (Z.shiftr u 32) (as_u 64 (Z.shiftl u 32))).

(** The first word of an [EbpfError], which is [repr(u64)]. *)
Definition error_kind (e : EbpfError) : Z :=
  match e with
  | ElfErr _ => 0 | FunctionAlreadyRegistered _ => 1 | CallDepthExceeded => 2
  | ExitRootCallFrame => 3 | DivideByZero => 4 | DivideOverflow => 5 | ExecutionOverrun => 6
  | CallOutsideTextSegment => 7 | ExceededMaxInstructions => 8 | JitNotCompiled => 9
  | InvalidMemoryRegion _ => 10 | AccessViolation _ _ _ _ => 11 | StackAccessViolation _ _ _ _ => 12
  | InvalidInstruction => 13 | UnsupportedInstruction => 14 | ExhaustedTextSegment _ => 15
  | LibcInvocationFailed _ _ _ => 16 | VerifierErr _ => 17 | SyscallError _ => 18
  end.

Inductive Value :=
| Register (reg : X86Register)
| RegisterIndirect (reg : X86Register) (offset : Z) (user_provided : bool)
| RegisterPlusConstant32 (reg : X86Register) (offset : Z) (user_provided : bool)
| RegisterPlusConstant64 (reg : X86Register) (offset : Z) (user_provided : bool)
| Constant64 (value : Z) (user_provided : bool).

Record Argument := mkArgument { index : Z; argument_value : Value }.

(** [BuiltinCodegen]: the hook a native function is registered with. *)
Class Codegen (V G : Type) := { codegen : JitEnv V -> V -> jit G unit }.

Section Compiler.
Context {V G : Type} `{Profile, ByteOrder, SmallRng G, Host V} (cx : JitEnv V).

Abbreviation cfg := (jit_config cx).
Abbreviation version := (sbpf_version (executable cx)).
Abbreviation J := (jit G).

(** [debug_assert!(b)]; [unreachable!()] that only debug builds contain. *)
Definition asserts (b : bool) : J unit := lift (debug_assert b).
Definition debug_unreachable : J unit := asserts false.

(** ** Jumps and anchors *)

(** [text_section.as_ptr().add(n)]: inside the section or one past its end. *)
Definition text_add (s : JitCompiler G) (n : Z) : result Stop Z :=
  if (0 <=? n) && (n <=? text_len s) then Ok (text_section_ptr (jit_result s) + n) else Err Undefined.

(** [a.offset_from(b)]: both point into the section. *)
Definition offset_from (s : JitCompiler G) (a b : Z) : result Stop Z :=
  let base := text_section_ptr (jit_result s) in
  if (base <=? a) && (a <=? base + text_len s) && (base <=? b) && (b <=? base + text_len s)
  then Ok (a - b) else Err Undefined.

Definition set_anchor (anchor : Z) : J unit := fun s =>
  destination ← text_add s (offset_in_text_section s);
  l ← or_panic (set (anchors s) anchor destination);
  Ok (tt, set_anchors l s).

Definition relative_to_anchor (anchor instruction_length : Z) : J Z := fun s =>
  instruction_end ← text_add s (offset_in_text_section s + instruction_length);
  destination ← or_panic (get (anchors s) anchor);
  _ ← debug_assert (negb (destination =? 0));
  d ← offset_from s destination instruction_end;
  Ok (as_i 32 d, s).

(** [&self.result.text_section[entry as usize & i32::MAX as usize] as *const u8] *)
Definition code_address (s : JitCompiler G) (entry : Z) : result Stop Z :=
  let i := Z.land entry i32_max in
  _ ← or_panic (get (text_section (jit_result s)) i);
  Ok (text_section_ptr (jit_result s) + i).

Definition relative_to_target_pc (target_pc instruction_length : Z) : J Z := fun s =>
  instruction_end ← text_add s (offset_in_text_section s + instruction_length);
  entry ← or_panic (get (pc_section (jit_result s)) target_pc);
  if negb (entry =? 0) then
    destination ← code_address s entry;
    d ← offset_from s destination instruction_end;
    Ok (as_i 32 d, s)
  else
    Ok (0, set_jumps (text_section_jumps s ++ [mkJump (instruction_end - 4) target_pc]) s).

Definition resolve_jump (jump : Jump) : J unit := fun s =>
  entry ← or_panic (get (pc_section (jit_result s)) (JitProgram.target_pc jump));
  destination ← code_address s entry;
  d ← offset_from s destination (location jump);
  offset_value ← arith_i32 (as_i 32 d - 4);
  text ← write_text (location jump - text_section_ptr (jit_result s)) (le_bytes 4 offset_value) s;
  Ok (tt, set_text text (offset_in_text_section s) s).

Definition resolve_jumps : J unit := fun s => for_each resolve_jump (text_section_jumps s) s.

(** ** Instructions *)
Definition slot_in_vm (slot : RuntimeEnvironmentSlot) : J Z :=
  lift (arith_i32 (slot_offset slot - runtime_environment_key cx)).

(** The constructor of the instruction may panic. *)
Definition emit_ins (ins : result Stop X86Instruction) : J unit :=
  instruction ← lift ins;
  _ ← emit_instruction instruction;
  n ← gets next_noop_insertion;
  if n =? 0 then
    g ← gets diversification_rng;
    let (n, g) := sample_inclusive (noop_range cx).1 (noop_range cx).2 g in
    _ ← modify (set_noop n g);
    emit 1 0x90
  else modify (fun s => set_noop (n - 1) (diversification_rng s) s).

Definition should_sanitize_constant (value : Z) : bool :=
  if negb (sanitize_user_provided_values cfg) then false
  else
    let v := as_u 64 value in
    if bool_decide (v ∈ [0xFFFF; 0xFFFFFF; 0xFFFFFFFF; 0xFFFFFFFFFF; 0xFFFFFFFFFFFF;
                         0xFFFFFFFFFFFFFF; 0xFFFFFFFFFFFFFFFF]) then false
    else if v <=? 0xFF then false
    else if u64_max - v <=? 0xFF then false
    else true.

Definition lower_key : Z := as_i 32 (immediate_value_key cx).
Definition upper_key : Z := as_i 32 (Z.shiftr (immediate_value_key cx) 32).
Definition wrapping_sub_i64 (a b : Z) : Z := as_i 64 (a - b).

Definition emit_sanitized_load_immediate (destination : X86Register) (value : Z) : J unit :=
  if (i32_min <=? value) && (value <=? i32_max) then
    _ ← emit_ins (Ok (load_immediate destination (wrapping_sub_i64 value lower_key)));
    emit_ins (alu_immediate S64 0x81 0 destination lower_key None)
  else if Z.land (as_u 64 value) u32_max =? 0 then
    _ ← emit_ins (Ok (load_immediate destination (wrapping_sub_i64 (rotate_right_32 value) lower_key)));
    _ ← emit_ins (alu_immediate S64 0x81 0 destination lower_key None);
    emit_ins (alu_immediate S64 0xc1 4 destination 32 None)
  else if negb (bool_decide (destination = REGISTER_SCRATCH)) then
    _ ← emit_ins (Ok (load_immediate destination (wrapping_sub_i64 value (immediate_value_key cx))));
    _ ← emit_ins (Ok (load_immediate REGISTER_SCRATCH (immediate_value_key cx)));
    emit_ins (alu S64 0x01 REGISTER_SCRATCH destination None)
  else
    _ ← emit_ins (Ok (load_immediate destination
                        (wrapping_sub_i64 (rotate_right_32 (wrapping_sub_i64 value lower_key)) upper_key)));
    _ ← emit_ins (alu_immediate S64 0x81 0 destination upper_key None);
    _ ← emit_ins (alu_immediate S64 0xc1 1 destination 32 None);
    emit_ins (alu_immediate S64 0x81 0 destination lower_key None).

(** [if self.should_sanitize_constant(x) { emit_sanitized_load_immediate } else { load_immediate }] *)
Definition emit_load_constant (destination : X86Register) (tested value : Z) : J unit :=
  if should_sanitize_constant tested then emit_sanitized_load_immediate destination value
  else emit_ins (Ok (load_immediate destination value)).

Definition emit_sanitized_alu (size : OperandSize) (opcode opcode_extension : Z)
    (destination : X86Register) (immediate : Z) : J unit :=
  if should_sanitize_constant immediate then
    _ ← emit_sanitized_load_immediate REGISTER_SCRATCH immediate;
    emit_ins (alu size opcode REGISTER_SCRATCH destination None)
  else if (i32_min <=? immediate) && (immediate <=? i32_max) then
    emit_ins (alu_immediate size 0x81 opcode_extension destination immediate None)
  else
    _ ← emit_ins (Ok (load_immediate REGISTER_SCRATCH immediate));
    emit_ins (alu size opcode REGISTER_SCRATCH destination None).

Definition emit_stopwatch (begin : bool) : J unit :=
  _ ← modify (set_stopwatch true);
  _ ← emit_ins (Ok (push RDX None));
  _ ← emit_ins (Ok (push RAX None));
  _ ← emit_ins (Ok (fence Fence_Load));
  _ ← emit_ins (Ok cycle_count);
  _ ← emit_ins (Ok (fence Fence_Load));
  _ ← emit_ins (alu_immediate S64 0xc1 4 RDX 32 None);
  _ ← emit_ins (alu S64 0x09 RDX RAX None);
  numerator ← slot_in_vm Slot_StopwatchNumerator;
  _ ← (if begin then emit_ins (alu S64 0x29 RAX REGISTER_PTR_TO_VM (Some (Offset numerator)))
       else
         _ ← emit_ins (alu S64 0x01 RAX REGISTER_PTR_TO_VM (Some (Offset numerator)));
         denominator ← slot_in_vm Slot_StopwatchDenominator;
         emit_ins (alu_immediate S64 0x81 0 REGISTER_PTR_TO_VM 1 (Some (Offset denominator))));
  _ ← emit_ins (Ok (pop RAX));
  emit_ins (Ok (pop RDX)).

(** [emit_ins(X86Instruction::f(self.relative_to_anchor(anchor, length)))] for
    a call, a jump and a conditional jump. *)
Definition emit_call_anchor (anchor : Z) : J unit :=
  d ← relative_to_anchor anchor 5; emit_ins (Ok (call_immediate d)).
Definition emit_jump_anchor (anchor : Z) : J unit :=
  d ← relative_to_anchor anchor 5; emit_ins (Ok (jump_immediate d)).
Definition emit_branch_anchor (op anchor : Z) : J unit :=
  d ← relative_to_anchor anchor 6; emit_ins (Ok (conditional_jump_immediate op d)).

(** [self.emit_ins(X86Instruction::load_immediate(REGISTER_SCRATCH, self.pc as i64))] *)
Definition emit_load_pc : J unit :=
  pc ← gets jit_pc; emit_ins (Ok (load_immediate REGISTER_SCRATCH (as_i 64 pc))).

(** ** Instruction meter *)
Definition emit_validate_instruction_count (pc : option Z) : J unit :=
  if negb (enable_instruction_meter cfg) then mret tt
  else
    _ ← (match pc with
         | Some pc =>
             _ ← modify (set_validation_pc pc);
             emit_sanitized_load_immediate REGISTER_SCRATCH (as_i 64 pc)
         | None => mret tt
         end);
    _ ← emit_ins (cmp S64 REGISTER_SCRATCH REGISTER_INSTRUCTION_METER None);
    emit_branch_anchor 0x86 ANCHOR_THROW_EXCEEDED_MAX_INSTRUCTIONS.

Definition emit_profile_instruction_count (target_pc : Z) : J unit :=
  if negb (enable_instruction_meter cfg) then mret tt
  else
    pc ← gets jit_pc;
    a ← lift (arith_i64 (as_i 64 target_pc - as_i 64 pc));
    b ← lift (arith_i64 (a - 1));
    emit_sanitized_alu S64 0x01 0 REGISTER_INSTRUCTION_METER b.

Definition emit_undo_profile_instruction_count (target_pc : Z) : J unit :=
  if enable_instruction_meter cfg then
    pc ← gets jit_pc;
    a ← lift (arith_i64 (as_i 64 pc + 1));
    b ← lift (arith_i64 (a - as_i 64 target_pc));
    emit_sanitized_alu S64 0x01 0 REGISTER_INSTRUCTION_METER b
  else mret tt.

Definition emit_validate_and_profile_instruction_count (target_pc : Z) : J unit :=
  pc ← gets jit_pc;
  _ ← emit_validate_instruction_count (Some pc);
  emit_profile_instruction_count target_pc.

(** ** Calls *)
Definition emit_argument (argument : Argument) : J unit :=
  let is_stack_argument := Z.of_nat (length ARGUMENT_REGISTERS) <=? index argument in
  dst ← (if is_stack_argument then mret RSP
         else lift (or_panic (get ARGUMENT_REGISTERS (index argument))));
  match argument_value argument with
  | Register reg =>
      if is_stack_argument then emit_ins (Ok (push reg None))
      else if negb (bool_decide (reg = dst)) then emit_ins (mov S64 reg dst)
      else mret tt
  | RegisterIndirect reg offset user_provided =>
      _ ← asserts (negb user_provided);
      if is_stack_argument then
        _ ← asserts (negb (bool_decide (reg = RSP)));
        emit_ins (Ok (push reg (Some (Offset offset))))
      else if bool_decide (reg = RSP) then
        emit_ins (load S64 RSP dst (OffsetIndexShift offset RSP 0))
      else emit_ins (load S64 reg dst (Offset offset))
  | RegisterPlusConstant32 reg offset user_provided =>
      _ ← asserts (negb user_provided);
      if is_stack_argument then
        _ ← emit_ins (Ok (push reg None));
        emit_ins (alu_immediate S64 0x81 0 RSP offset (Some (OffsetIndexShift 0 RSP 0)))
      else if bool_decide (reg = RSP) then
        emit_ins (lea S64 RSP dst (Some (OffsetIndexShift offset RSP 0)))
      else emit_ins (lea S64 reg dst (Some (Offset offset)))
  | RegisterPlusConstant64 reg offset user_provided =>
      _ ← asserts (negb user_provided);
      if is_stack_argument then
        _ ← emit_ins (Ok (push reg None));
        emit_ins (alu_immediate S64 0x81 0 RSP offset (Some (OffsetIndexShift 0 RSP 0)))
      else
        _ ← emit_ins (Ok (load_immediate dst offset));
        emit_ins (alu S64 0x01 reg dst None)
  | Constant64 value user_provided =>
      _ ← asserts (negb user_provided && negb is_stack_argument);
      emit_ins (Ok (load_immediate dst value))
  end.

(** [saved_registers.remove(position)] of the first occurrence. *)
Fixpoint remove_first (reg : X86Register) (l : list X86Register) : list X86Register :=
  match l with
  | [] => []
  | x :: l => if bool_decide (x = reg) then l else x :: remove_first reg l
  end.

Definition emit_rust_call (target : Value) (arguments : list Argument)
    (result_reg : option X86Register) : J unit :=
  let saved_registers :=
    match result_reg with
    | Some reg => remove_first reg CALLER_SAVED_REGISTERS
    | None => CALLER_SAVED_REGISTERS
    end in
  _ ← for_each (fun reg => emit_ins (Ok (push reg None))) saved_registers;
  let stack_arguments :=
    saturating_sub_u64 (Z.of_nat (length arguments)) (Z.of_nat (length ARGUMENT_REGISTERS)) in
  _ ← (if negb (Z.rem stack_arguments 2 =? 0) then emit_ins (alu_immediate S64 0x81 5 RSP 8 None)
       else mret tt);
  _ ← for_each emit_argument arguments;
  _ ← (match target with
       | Register reg => emit_ins (Ok (call_reg reg None))
       | Constant64 value user_provided =>
           _ ← asserts (negb user_provided);
           _ ← emit_ins (Ok (load_immediate RAX value));
           emit_ins (Ok (call_reg RAX None))
       | _ => debug_unreachable
       end);
  _ ← (match result_reg with
       | Some reg => emit_ins (mov S64 RAX reg)
       | None => mret tt
       end);
  _ ← emit_ins (alu_immediate S64 0x81 0 RSP
                  ((if negb (Z.rem stack_arguments 2 =? 0) then stack_arguments + 1 else stack_arguments) * 8)
                  None);
  for_each (fun reg => emit_ins (Ok (pop reg))) (rev saved_registers).

(** [REGISTER_MAP[FRAME_PTR_REG]] and the registers a call saves. *)
Definition FRAME_POINTER : X86Register := R15.
Definition scratch_registers : list X86Register :=
  take (Z.to_nat SCRATCH_REGS) (drop (Z.to_nat FIRST_SCRATCH_REG) REGISTER_MAP).

Definition emit_internal_call (dst : Value) : J unit :=
  _ ← emit_load_pc;
  _ ← modify (fun s => set_validation_pc (jit_pc s) s);
  _ ← emit_call_anchor ANCHOR_INTERNAL_FUNCTION_CALL_PROLOGUE;
  _ ← (match dst with
       | Register reg =>
           _ ← emit_ins (store S64 REGISTER_SCRATCH RSP (OffsetIndexShift (-24) RSP 0));
           _ ← emit_ins (mov S64 reg REGISTER_SCRATCH);
           emit_call_anchor ANCHOR_INTERNAL_FUNCTION_CALL_REG
       | Constant64 target_pc user_provided =>
           _ ← asserts user_provided;
           _ ← emit_profile_instruction_count (as_u 64 target_pc);
           _ ← (if user_provided && should_sanitize_constant target_pc
                then emit_sanitized_load_immediate REGISTER_SCRATCH target_pc
                else emit_ins (Ok (load_immediate REGISTER_SCRATCH target_pc)));
           jump_offset ← relative_to_target_pc (as_u 64 target_pc) 5;
           emit_ins (Ok (call_immediate jump_offset))
       | _ => debug_unreachable
       end);
  _ ← emit_undo_profile_instruction_count 0;
  _ ← emit_ins (Ok (pop FRAME_POINTER));
  for_each (fun reg => emit_ins (Ok (pop reg))) (rev scratch_registers).

Definition emit_external_call (function : Z) : J unit :=
  _ ← emit_validate_and_profile_instruction_count 0;
  _ ← emit_ins (Ok (load_immediate REGISTER_SCRATCH function));
  _ ← emit_call_anchor ANCHOR_EXTERNAL_FUNCTION_CALL;
  emit_undo_profile_instruction_count 0.

(** The default [BuiltinFunctionDefinition::codegen]. *)
Definition default_codegen (f : V) : J unit := emit_external_call (vm_address f).

(** ** Memory accesses *)
Definition stack_slot_of_value_to_store : X86IndirectAccess := OffsetIndexShift (-96) RSP 0.

Definition operand_size_of_len (len : Z) : option OperandSize :=
  if len =? 1 then Some S8 else if len =? 2 then Some S16
  else if len =? 4 then Some S32 else if len =? 8 then Some S64 else None.

Definition emit_address_translation (dst : option X86Register) (vm_addr : Value) (len : Z)
    (value : option Value) : J unit :=
  _ ← asserts (xorb (bool_decide (is_Some dst)) (bool_decide (is_Some value)));
  _ ← (match value with
       | Some (Register reg) => emit_ins (store S64 reg RSP stack_slot_of_value_to_store)
       | Some (Constant64 constant user_provided) =>
           _ ← asserts user_provided;
           _ ← emit_ins (Ok (load_immediate REGISTER_SCRATCH (wrapping_sub_i64 constant lower_key)));
           emit_ins (store S64 REGISTER_SCRATCH RSP stack_slot_of_value_to_store)
       | _ => mret tt
       end);
  _ ← (match vm_addr with
       | RegisterPlusConstant64 reg constant user_provided =>
           _ ← (if user_provided && should_sanitize_constant constant
                then emit_sanitized_load_immediate REGISTER_SCRATCH constant
                else emit_ins (Ok (load_immediate REGISTER_SCRATCH constant)));
           emit_ins (alu S64 0x01 reg REGISTER_SCRATCH None)
       | _ => debug_unreachable
       end);
  if enable_address_translation cfg then
    let anchor_base :=
      match value with
      | Some (Register _) => 4
      | Some (Constant64 _ _) => 8
      | _ => 0
      end in
    let anchor := ANCHOR_TRANSLATE_MEMORY_ADDRESS + anchor_base + trailing_zeros len in
    pc ← gets jit_pc;
    _ ← emit_ins (store_immediate S64 RSP (OffsetIndexShift (-16) RSP 0) (as_i 64 pc));
    _ ← emit_call_anchor anchor;
    match dst with
    | Some dst => emit_ins (mov S64 REGISTER_SCRATCH dst)
    | None => mret tt
    end
  else
    size ← lift (or_panic (operand_size_of_len len));
    match dst with
    | Some dst => emit_ins (load size REGISTER_SCRATCH dst (Offset 0))
    | None =>
        _ ← emit_ins (xchg S64 RSP RAX (Some stack_slot_of_value_to_store));
        _ ← emit_ins (store size RAX REGISTER_SCRATCH (Offset 0));
        emit_ins (xchg S64 RSP RAX (Some stack_slot_of_value_to_store))
    end.

(** ** Branches *)

(** [let jump_offset = self.relative_to_target_pc(target_pc, 6); ...] *)
Definition emit_conditional_jump (op target_pc : Z) : J unit :=
  jump_offset ← relative_to_target_pc target_pc 6;
  emit_ins (Ok (conditional_jump_immediate op jump_offset)).

Definition emit_conditional_branch_reg (size : OperandSize) (op : Z) (bitwise : bool)
    (first_operand second_operand : X86Register) (target_pc : Z) : J unit :=
  _ ← emit_validate_and_profile_instruction_count target_pc;
  _ ← (if bitwise then emit_ins (test size first_operand second_operand None)
       else emit_ins (cmp size first_operand second_operand None));
  _ ← emit_conditional_jump op target_pc;
  emit_undo_profile_instruction_count target_pc.

Definition emit_conditional_branch_imm (size : OperandSize) (op : Z) (bitwise : bool)
    (immediate : Z) (second_operand : X86Register) (target_pc : Z) : J unit :=
  _ ← emit_validate_and_profile_instruction_count target_pc;
  _ ← (if should_sanitize_constant immediate then
         _ ← emit_sanitized_load_immediate REGISTER_SCRATCH immediate;
         if bitwise then emit_ins (test size REGISTER_SCRATCH second_operand None)
         else emit_ins (cmp size REGISTER_SCRATCH second_operand None)
       else if bitwise then emit_ins (test_immediate size second_operand immediate None)
       else emit_ins (cmp_immediate size second_operand immediate None));
  _ ← emit_conditional_jump op target_pc;
  emit_undo_profile_instruction_count target_pc.

(** ** Shifts, products, quotients and remainders *)
Definition emit_shift (size : OperandSize) (opcode_extension : Z) (source destination : X86Register)
    (immediate : option Z) : J unit :=
  match immediate with
  | Some immediate => emit_ins (alu_immediate size 0xc1 opcode_extension destination immediate None)
  | None =>
      _ ← (match size with S32 => emit_ins (mov S32 destination destination) | _ => mret tt end);
      if bool_decide (source = RCX) then
        emit_ins (alu_immediate size 0xd3 opcode_extension destination 0 None)
      else if bool_decide (destination = RCX) then
        _ ← emit_ins (Ok (push source None));
        _ ← emit_ins (xchg S64 source RCX None);
        _ ← emit_ins (alu_immediate size 0xd3 opcode_extension source 0 None);
        _ ← emit_ins (mov S64 source RCX);
        emit_ins (Ok (pop source))
      else
        _ ← emit_ins (Ok (push RCX None));
        _ ← emit_ins (mov S64 source RCX);
        _ ← emit_ins (alu_immediate size 0xd3 opcode_extension destination 0 None);
        emit_ins (Ok (pop RCX))
  end.

Definition sign_extend (dst : X86Register) : J unit := emit_ins (alu S64 0x63 dst dst None).

(** The checks in front of a division. *)
Definition emit_division_checks (size : OperandSize) (signed : bool) (src dst : X86Register)
    (imm : option Z) : J unit :=
  _ ← (if bool_decide (imm = None) then
         _ ← emit_load_pc;
         _ ← emit_ins (test size src src None);
         emit_branch_anchor 0x84 ANCHOR_DIV_BY_ZERO
       else mret tt);
  if signed && (default (-1) imm =? -1) then
    _ ← emit_ins (Ok (load_immediate REGISTER_SCRATCH (match size with S64 => i64_min | _ => i32_min end)));
    _ ← emit_ins (cmp size dst REGISTER_SCRATCH None);
    _ ← (if bool_decide (imm = None) then
           _ ← emit_ins (Ok (load_immediate REGISTER_SCRATCH 0));
           _ ← emit_ins (cmov size 0x45 src REGISTER_SCRATCH);
           _ ← emit_ins (cmp_immediate size src (-1) None);
           _ ← emit_ins (cmov size 0x45 src REGISTER_SCRATCH);
           emit_ins (test size REGISTER_SCRATCH REGISTER_SCRATCH None)
         else mret tt);
    _ ← emit_load_pc;
    emit_branch_anchor 0x84 ANCHOR_DIV_OVERFLOW
  else mret tt.

Definition emit_product_quotient_remainder (size : OperandSize) (alt_dst division signed : bool)
    (src dst : X86Register) (imm : option Z) : J unit :=
  _ ← (if division then emit_division_checks size signed src dst imm else mret tt);
  _ ← (match imm with
       | Some imm => emit_load_constant REGISTER_SCRATCH imm imm
       | None => emit_ins (mov S64 src REGISTER_SCRATCH)
       end);
  _ ← (if negb (bool_decide (dst = RAX)) then
         _ ← emit_ins (Ok (push RAX None));
         emit_ins (mov S64 dst RAX)
       else mret tt);
  _ ← (if negb (bool_decide (dst = RDX)) then emit_ins (Ok (push RDX None)) else mret tt);
  _ ← (if division then
         if signed then emit_ins (sign_extend_rax_rdx size)
         else emit_ins (alu size 0x31 RDX RDX None)
       else mret tt);
  _ ← emit_ins (alu_immediate size 0xf7
                  (Z.lor (Z.lor 0x4 (Z.shiftl (bool_u8 division) 1)) (bool_u8 signed))
                  REGISTER_SCRATCH 0 None);
  _ ← (if negb (bool_decide (dst = RDX)) then
         _ ← (if alt_dst then emit_ins (mov S64 RDX dst) else mret tt);
         emit_ins (Ok (pop RDX))
       else mret tt);
  _ ← (if negb (bool_decide (dst = RAX)) then
         _ ← (if negb alt_dst then emit_ins (mov S64 RAX dst) else mret tt);
         emit_ins (Ok (pop RAX))
       else mret tt);
  match size with
  | S32 => if signed && negb (explicit_sign_extension_of_results version) then sign_extend dst else mret tt
  | _ => mret tt
  end.

(** ** Subroutines *)
Definition emit_set_exception_kind (err : EbpfError) : J unit :=
  let err_kind := error_kind err in
  let err_discriminant := Stable.discriminant (StErr err : ProgramResult) in
  o ← slot_in_vm Slot_ProgramResult;
  _ ← emit_ins (lea S64 REGISTER_PTR_TO_VM RAX (Some (Offset o)));
  _ ← emit_ins (store_immediate S64 RAX (Offset 0) err_discriminant);
  emit_ins (store_immediate S64 RAX (Offset 8) err_kind).

Definition emit_result_is_err (destination : X86Register) : J unit :=
  let ok_discriminant := Stable.discriminant (StOk 0 : ProgramResult) in
  o ← slot_in_vm Slot_ProgramResult;
  _ ← emit_ins (lea S64 REGISTER_PTR_TO_VM destination (Some (Offset o)));
  emit_ins (cmp_immediate S64 destination ok_discriminant (Some (Offset 0))).

Definition emit_trace_routine : J unit :=
  if enable_register_tracing cfg then
    _ ← set_anchor ANCHOR_TRACE;
    _ ← emit_ins (Ok (push REGISTER_SCRATCH None));
    _ ← for_each (fun reg => emit_ins (Ok (push reg None))) (rev REGISTER_MAP);
    _ ← emit_ins (mov S64 RSP RAX);
    _ ← emit_ins (alu_immediate S64 0x81 0 RSP (-8 * 3) None);
    o ← slot_in_vm Slot_RegisterTrace;
    _ ← emit_rust_call (Constant64 trace_push_address false)
          [mkArgument 1 (Register RAX);
           mkArgument 0 (RegisterPlusConstant32 REGISTER_PTR_TO_VM o false)] None;
    _ ← emit_ins (alu_immediate S64 0x81 0 RSP (8 * 3) None);
    _ ← emit_ins (Ok (pop RAX));
    _ ← emit_ins (alu_immediate S64 0x81 0 RSP (8 * (Z.of_nat (length REGISTER_MAP) - 1)) None);
    _ ← emit_ins (Ok (pop REGISTER_SCRATCH));
    emit_ins (Ok return_near)
  else mret tt.

Definition emit_epilogue : J unit :=
  _ ← set_anchor ANCHOR_EPILOGUE;
  _ ← (if enable_instruction_meter cfg then
         _ ← emit_ins (alu_immediate S64 0x81 5 REGISTER_INSTRUCTION_METER 1 None);
         _ ← emit_ins (alu S64 0x29 REGISTER_SCRATCH REGISTER_INSTRUCTION_METER None);
         o ← slot_in_vm Slot_PreviousInstructionMeter;
         _ ← emit_ins (alu S64 0x2b REGISTER_INSTRUCTION_METER REGISTER_PTR_TO_VM (Some (Offset o)));
         _ ← emit_ins (alu_immediate S64 0xf7 3 REGISTER_INSTRUCTION_METER 0 None);
         o ← slot_in_vm Slot_DueInsnCount;
         emit_ins (store S64 REGISTER_INSTRUCTION_METER REGISTER_PTR_TO_VM (Offset o))
       else mret tt);
  active ← gets stopwatch_is_active;
  _ ← (if active : bool then
         denominator ← slot_in_vm Slot_StopwatchDenominator;
         numerator ← slot_in_vm Slot_StopwatchNumerator;
         emit_rust_call (Constant64 stopwatch_result_address false)
           [mkArgument 1 (RegisterIndirect REGISTER_PTR_TO_VM denominator false);
            mkArgument 0 (RegisterIndirect REGISTER_PTR_TO_VM numerator false)] None
       else mret tt);
  o ← slot_in_vm Slot_HostStackPointer;
  _ ← emit_ins (load S64 REGISTER_PTR_TO_VM RSP (Offset o));
  emit_ins (Ok return_near).

(** From the handler of [ExceededMaxInstructions] to [ANCHOR_THROW_EXCEPTION]. *)
Definition emit_exits : J unit :=
  _ ← set_anchor ANCHOR_THROW_EXCEEDED_MAX_INSTRUCTIONS;
  _ ← emit_set_exception_kind ExceededMaxInstructions;
  _ ← emit_ins (mov S64 REGISTER_INSTRUCTION_METER REGISTER_SCRATCH);
  _ ← set_anchor ANCHOR_THROW_EXCEPTION_UNCHECKED;
  o ← slot_in_vm Slot_Registers;
  o ← lift (arith_i32 (o + 11 * 8));
  _ ← emit_ins (store S64 REGISTER_SCRATCH REGISTER_PTR_TO_VM (Offset o));
  _ ← emit_jump_anchor ANCHOR_EPILOGUE;
  _ ← set_anchor ANCHOR_EXIT;
  _ ← (if enable_instruction_meter cfg then
         emit_ins (alu_immediate S64 0x81 0 REGISTER_INSTRUCTION_METER 1 None)
       else mret tt);
  o ← slot_in_vm Slot_ProgramResult;
  _ ← emit_ins (lea S64 REGISTER_PTR_TO_VM REGISTER_SCRATCH (Some (Offset o)));
  _ ← emit_ins (store S64 RAX REGISTER_SCRATCH (Offset 8));
  _ ← emit_ins (alu S64 0x31 REGISTER_SCRATCH REGISTER_SCRATCH None);
  _ ← emit_jump_anchor ANCHOR_EPILOGUE;
  _ ← set_anchor ANCHOR_THROW_EXCEPTION;
  _ ← emit_validate_instruction_count None;
  emit_jump_anchor ANCHOR_THROW_EXCEPTION_UNCHECKED.

(** The handler of an error that is thrown as it is. *)
Definition emit_handler (anchor : Z) (err : EbpfError) : J unit :=
  _ ← set_anchor anchor;
  _ ← emit_set_exception_kind err;
  emit_jump_anchor ANCHOR_THROW_EXCEPTION.

Definition emit_handlers : J unit :=
  _ ← emit_handler ANCHOR_CALL_DEPTH_EXCEEDED CallDepthExceeded;
  _ ← set_anchor ANCHOR_CALL_REG_OUTSIDE_TEXT_SEGMENT;
  _ ← emit_set_exception_kind CallOutsideTextSegment;
  _ ← emit_ins (load S64 RSP REGISTER_SCRATCH (OffsetIndexShift (-8) RSP 0));
  _ ← emit_jump_anchor ANCHOR_THROW_EXCEPTION;
  _ ← emit_handler ANCHOR_DIV_BY_ZERO DivideByZero;
  _ ← emit_handler ANCHOR_DIV_OVERFLOW DivideOverflow;
  _ ← set_anchor ANCHOR_CALL_REG_UNSUPPORTED_INSTRUCTION;
  _ ← emit_ins (load S64 RSP REGISTER_SCRATCH (OffsetIndexShift (-8) RSP 0));
  _ ← emit_ins (Ok (pop RAX));
  _ ← set_anchor ANCHOR_CALL_UNSUPPORTED_INSTRUCTION;
  _ ← (if enable_register_tracing cfg then emit_call_anchor ANCHOR_TRACE else mret tt);
  _ ← emit_set_exception_kind UnsupportedInstruction;
  emit_jump_anchor ANCHOR_THROW_EXCEPTION.

Definition emit_external_call_routine : J unit :=
  _ ← set_anchor ANCHOR_EXTERNAL_FUNCTION_CALL;
  _ ← emit_ins (push_immediate S64 (-1));
  _ ← (if enable_instruction_meter cfg then
         o ← slot_in_vm Slot_DueInsnCount;
         emit_ins (store S64 REGISTER_INSTRUCTION_METER REGISTER_PTR_TO_VM (Offset o))
       else mret tt);
  _ ← emit_rust_call (Register REGISTER_SCRATCH)
        [mkArgument 5 (Register R9); mkArgument 4 (Register R8); mkArgument 3 (Register RCX);
         mkArgument 2 (Register RDX); mkArgument 1 (Register RSI);
         mkArgument 0 (Register REGISTER_PTR_TO_VM)] None;
  _ ← (if enable_instruction_meter cfg then
         o ← slot_in_vm Slot_PreviousInstructionMeter;
         emit_ins (load S64 REGISTER_PTR_TO_VM REGISTER_INSTRUCTION_METER (Offset o))
       else mret tt);
  _ ← emit_result_is_err REGISTER_SCRATCH;
  _ ← emit_ins (Ok (pop REGISTER_SCRATCH));
  _ ← emit_branch_anchor 0x85 ANCHOR_EPILOGUE;
  o ← slot_in_vm Slot_ProgramResult;
  _ ← emit_ins (lea S64 REGISTER_PTR_TO_VM REGISTER_SCRATCH (Some (Offset o)));
  _ ← emit_ins (load S64 REGISTER_SCRATCH RAX (Offset 8));
  emit_ins (Ok return_near).

(** [enumerate()] *)
Fixpoint enumerate {A} (i : Z) (l : list A) : list (Z * A) :=
  match l with [] => [] | x :: l => (i, x) :: enumerate (i + 1) l end.

Definition emit_internal_call_prologue : J unit :=
  _ ← set_anchor ANCHOR_INTERNAL_FUNCTION_CALL_PROLOGUE;
  _ ← emit_validate_instruction_count None;
  _ ← emit_ins (alu_immediate S64 0x81 5 RSP (8 * (SCRATCH_REGS + 1)) None);
  _ ← emit_ins (store S64 REGISTER_SCRATCH RSP (OffsetIndexShift 0 RSP 0));
  _ ← emit_ins (load S64 RSP REGISTER_SCRATCH (OffsetIndexShift (8 * (SCRATCH_REGS + 1)) RSP 0));
  _ ← for_each (fun '(i, reg) =>
                  emit_ins (store S64 reg RSP (OffsetIndexShift (8 * (SCRATCH_REGS - i + 1)) RSP 0)))
        (enumerate 0 scratch_registers);
  _ ← emit_ins (store S64 FRAME_POINTER RSP (OffsetIndexShift 8 RSP 0));
  _ ← emit_ins (xchg S64 REGISTER_SCRATCH RSP (Some (OffsetIndexShift 0 RSP 0)));
  o ← slot_in_vm Slot_CallDepth;
  _ ← emit_ins (alu_immediate S64 0x81 0 REGISTER_PTR_TO_VM 1 (Some (Offset o)));
  _ ← emit_ins (cmp_immediate S32 REGISTER_PTR_TO_VM (as_i 64 (max_call_depth cfg)) (Some (Offset o)));
  _ ← emit_branch_anchor 0x83 ANCHOR_CALL_DEPTH_EXCEEDED;
  _ ← (if negb (manual_stack_frame_bump version) then
         let num_frames := if stack_frame_gaps version && enable_stack_frame_gaps cfg then 2 else 1 in
         stack_frame_size ← lift (arith_i64 (as_i 64 (stack_frame_size cfg) * num_frames));
         emit_ins (alu_immediate S64 0x81 0 FRAME_POINTER stack_frame_size None)
       else mret tt);
  emit_ins (Ok return_near).

Definition emit_internal_call_reg : J unit :=
  _ ← set_anchor ANCHOR_INTERNAL_FUNCTION_CALL_REG;
  _ ← emit_ins (Ok (push RAX None));
  _ ← emit_ins (Ok (load_immediate RAX (as_i 64 (program_vm_addr cx))));
  _ ← emit_ins (alu S64 0x29 RAX REGISTER_SCRATCH None);
  _ ← emit_ins (alu_immediate S64 0x81 4 REGISTER_SCRATCH (Z.lnot (INSN_SIZE - 1)) None);
  number_of_instructions ← gets (fun s => Z.of_nat (length (pc_section (jit_result s))));
  n ← lift (arith_u64 (number_of_instructions * INSN_SIZE));
  _ ← emit_ins (cmp_immediate S64 REGISTER_SCRATCH (as_i 64 n) None);
  _ ← emit_branch_anchor 0x83 ANCHOR_CALL_REG_OUTSIDE_TEXT_SEGMENT;
  let shift_amount := trailing_zeros INSN_SIZE in
  _ ← asserts (INSN_SIZE =? Z.shiftl 1 shift_amount);
  _ ← emit_ins (alu_immediate S64 0xc1 5 REGISTER_SCRATCH shift_amount None);
  pcs ← gets (fun s => pc_section_ptr (jit_result s));
  _ ← emit_ins (Ok (load_immediate RAX (as_i 64 pcs)));
  _ ← emit_ins (load S32 RAX RAX (OffsetIndexShift 0 REGISTER_SCRATCH 2));
  _ ← emit_ins (test_immediate S32 RAX (Z.shiftl 1 31) None);
  _ ← emit_branch_anchor 0x85 ANCHOR_CALL_REG_UNSUPPORTED_INSTRUCTION;
  _ ← emit_ins (alu_immediate S32 0x81 4 RAX i32_max None);
  _ ← emit_ins (alu S64 0x2b REGISTER_INSTRUCTION_METER RSP (Some (OffsetIndexShift (-8) RSP 0)));
  _ ← emit_ins (alu_immediate S64 0x81 5 REGISTER_INSTRUCTION_METER 1 None);
  _ ← emit_ins (alu S64 0x01 REGISTER_SCRATCH REGISTER_INSTRUCTION_METER None);
  _ ← emit_ins (mov_mmx S64 REGISTER_SCRATCH MM0);
  text ← gets (fun s => text_section_ptr (jit_result s));
  _ ← emit_ins (Ok (load_immediate REGISTER_SCRATCH (as_i 64 text)));
  _ ← emit_ins (alu S64 0x01 REGISTER_SCRATCH RAX None);
  _ ← emit_ins (mov_mmx S64 MM0 REGISTER_SCRATCH);
  _ ← emit_ins (xchg S64 RAX RSP (Some (OffsetIndexShift 0 RSP 0)));
  emit_ins (Ok return_near).

(** One iteration of the loop over [(anchor_base, len)]. *)
Definition emit_translate_routine '((anchor_base, len) : Z * Z) : J unit :=
  let target_offset := anchor_base + trailing_zeros len in
  _ ← set_anchor (ANCHOR_TRANSLATE_MEMORY_ADDRESS + target_offset);
  _ ← emit_ins (alu_immediate S64 0x81 5 RSP 8 None);
  _ ← (if anchor_base =? 0 then
         mapping ← slot_in_vm Slot_MemoryMapping;
         result ← slot_in_vm Slot_ProgramResult;
         emit_rust_call (Constant64 (load_address len) false)
           [mkArgument 2 (Register REGISTER_SCRATCH);
            mkArgument 3 (Constant64 0 false);
            mkArgument 1 (RegisterIndirect REGISTER_PTR_TO_VM mapping false);
            mkArgument 0 (RegisterPlusConstant32 REGISTER_PTR_TO_VM result false)] None
       else
         _ ← (if anchor_base =? 8 then
                emit_ins (alu_immediate S64 0x81 0 RSP lower_key (Some (OffsetIndexShift (-80) RSP 0)))
              else mret tt);
         mapping ← slot_in_vm Slot_MemoryMapping;
         result ← slot_in_vm Slot_ProgramResult;
         emit_rust_call (Constant64 (store_address len) false)
           [mkArgument 3 (Register REGISTER_SCRATCH);
            mkArgument 2 (RegisterIndirect RSP (-8) false);
            mkArgument 4 (Constant64 0 false);
            mkArgument 1 (RegisterIndirect REGISTER_PTR_TO_VM mapping false);
            mkArgument 0 (RegisterPlusConstant32 REGISTER_PTR_TO_VM result false)] None);
  _ ← emit_result_is_err REGISTER_SCRATCH;
  _ ← emit_ins (Ok (pop REGISTER_SCRATCH));
  _ ← emit_branch_anchor 0x85 ANCHOR_THROW_EXCEPTION;
  _ ← (if anchor_base =? 0 then
         o ← slot_in_vm Slot_ProgramResult;
         o ← lift (arith_i32 (o + 8));
         emit_ins (load S64 REGISTER_PTR_TO_VM REGISTER_SCRATCH (Offset o))
       else mret tt);
  emit_ins (Ok return_near).

Definition translate_routines : list (Z * Z) :=
  [(0, 1); (0, 2); (0, 4); (0, 8); (4, 1); (4, 2); (4, 4); (4, 8); (8, 1); (8, 2); (8, 4); (8, 8)].

Definition emit_subroutines : J unit :=
  _ ← emit_trace_routine;
  _ ← emit_epilogue;
  _ ← emit_exits;
  _ ← emit_handlers;
  _ ← emit_external_call_routine;
  _ ← emit_internal_call_prologue;
  _ ← emit_internal_call_reg;
  for_each emit_translate_routine translate_routines.

(** ** The arms of [match insn.opc] *)
Context `{Codegen V G}.

Section Arms.
Context (insn : Insn) (dst src : X86Register) (target_pc : Z).

Definition on (opcode : Z) (body : J unit) : arm (J unit) := mkArm [opcode] true body.
Definition on_if (opcode : Z) (guard : bool) (body : J unit) : arm (J unit) := mkArm [opcode] guard body.

(** [self.emit_address_translation(...)] of a load, of a store of the
    immediate and of a store of a register, each of [len] bytes. *)
Definition emit_load (len : Z) : J unit :=
  emit_address_translation (Some dst) (RegisterPlusConstant64 src (off insn) true) len None.
Definition emit_store_imm (len : Z) : J unit :=
  emit_address_translation None (RegisterPlusConstant64 dst (off insn) true) len
    (Some (Constant64 (imm insn) true)).
Definition emit_store_reg (len : Z) : J unit :=
  emit_address_translation None (RegisterPlusConstant64 dst (off insn) true) len (Some (Register src)).

(** [self.result.pc_section[pc] = entry] *)
Definition set_pc_entry (pc entry : Z) : J unit := fun s =>
  l ← or_panic (set (pc_section (jit_result s)) pc entry);
  Ok (tt, set_pc_section l s).

(** [self.pc += 1] *)
Definition advance : J unit :=
  pc ← gets jit_pc; pc ← lift (arith_u64 (pc + 1)); modify (set_jit_pc pc).

Definition lddw : J unit :=
  pc ← gets jit_pc;
  next ← lift (arith_u64 (pc + 2));
  _ ← emit_validate_and_profile_instruction_count next;
  _ ← advance;
  pc ← gets jit_pc;
  entry ← (fun s =>
             a ← or_panic (get (anchors s) ANCHOR_CALL_UNSUPPORTED_INSTRUCTION);
             d ← offset_from s a (text_section_ptr (jit_result s));
             Ok (as_u 32 d, s));
  _ ← set_pc_entry pc entry;
  insn ← lift (augment_lddw_unchecked (program cx) insn);
  emit_load_constant dst (imm insn) (imm insn).

Definition memory_arms : list (arm (J unit)) :=
  let g := negb (move_memory_instruction_classes version) in [
  on_if LD_DW_IMM (negb (disable_lddw version)) lddw;
  on_if LD_B_REG g (emit_load 1);
  on_if LD_H_REG g (emit_load 2);
  on_if LD_W_REG g (emit_load 4);
  on_if LD_DW_REG g (emit_load 8);
  on_if ST_B_IMM g (emit_store_imm 1);
  on_if ST_H_IMM g (emit_store_imm 2);
  on_if ST_W_IMM g (emit_store_imm 4);
  on_if ST_DW_IMM g (emit_store_imm 8);
  on_if ST_B_REG g (emit_store_reg 1);
  on_if ST_H_REG g (emit_store_reg 2);
  on_if ST_W_REG g (emit_store_reg 4);
  on_if ST_DW_REG g (emit_store_reg 8)].

(** [if !explicit_sign_extension_of_results() { sign extend i32 to i64 }] *)
Definition sign_extend_result : J unit :=
  if negb (explicit_sign_extension_of_results version) then sign_extend dst else mret tt.

(** [dst = imm - dst] by negation. *)
Definition emit_swapped_sub (size : OperandSize) : J unit :=
  _ ← emit_ins (alu_immediate size 0xf7 3 dst 0 None);
  if negb (imm insn =? 0) then emit_sanitized_alu size 0x01 0 dst (imm insn) else mret tt.

Definition emit_sub_imm (size : OperandSize) : J unit :=
  if swap_sub_reg_imm_operands version then emit_swapped_sub size
  else emit_sanitized_alu size 0x29 5 dst (imm insn).

Definition emit_mul_imm (size : OperandSize) : J unit :=
  _ ← emit_load_constant REGISTER_SCRATCH (imm insn) (imm insn);
  emit_ins (alu_escaped size 1 0xaf dst REGISTER_SCRATCH None).

(** [DIV] and [MOD] of the legacy classes. *)
Definition emit_legacy_division (size : OperandSize) (src : X86Register) (imm : option Z) : J unit :=
  let operation := Z.land (opc insn) BPF_ALU_OP_MASK in
  emit_product_quotient_remainder size (operation =? BPF_MOD) (negb (operation =? BPF_MUL))
    (operation =? BPF_MUL) src dst imm.

Definition alu32_arms : list (arm (J unit)) :=
  let moved := move_memory_instruction_classes version in
  let legacy := negb (enable_pqr version) in [
  on ADD32_IMM (_ ← emit_sanitized_alu S32 0x01 0 dst (imm insn); sign_extend_result);
  on ADD32_REG (_ ← emit_ins (alu S32 0x01 src dst None); sign_extend_result);
  on SUB32_IMM (_ ← emit_sub_imm S32; sign_extend_result);
  on SUB32_REG (_ ← emit_ins (alu S32 0x29 src dst None); sign_extend_result);
  on_if MUL32_IMM legacy (_ ← emit_mul_imm S32; sign_extend_result);
  mkArm [DIV32_IMM; MOD32_IMM] legacy (emit_legacy_division S32 dst (Some (imm insn)));
  on_if LD_1B_REG moved (emit_load 1);
  on_if MUL32_REG legacy (_ ← emit_ins (alu_escaped S32 1 0xaf dst src None); sign_extend_result);
  mkArm [DIV32_REG; MOD32_REG] legacy (emit_legacy_division S32 src None);
  on_if LD_2B_REG moved (emit_load 2);
  on OR32_IMM (emit_sanitized_alu S32 0x09 1 dst (imm insn));
  on OR32_REG (emit_ins (alu S32 0x09 src dst None));
  on AND32_IMM (emit_sanitized_alu S32 0x21 4 dst (imm insn));
  on AND32_REG (emit_ins (alu S32 0x21 src dst None));
  on LSH32_IMM (emit_shift S32 4 REGISTER_SCRATCH dst (Some (imm insn)));
  on LSH32_REG (emit_shift S32 4 src dst None);
  on RSH32_IMM (emit_shift S32 5 REGISTER_SCRATCH dst (Some (imm insn)));
  on RSH32_REG (emit_shift S32 5 src dst None);
  on_if NEG32 (negb (disable_neg version)) (emit_ins (alu_immediate S32 0xf7 3 dst 0 None));
  on_if LD_4B_REG moved (emit_load 4);
  on_if LD_8B_REG moved (emit_load 8);
  on XOR32_IMM (emit_sanitized_alu S32 0x31 6 dst (imm insn));
  on XOR32_REG (emit_ins (alu S32 0x31 src dst None));
  on MOV32_IMM (emit_load_constant dst (imm insn) (as_u 32 (imm insn)));
  on MOV32_REG (if explicit_sign_extension_of_results version
                then emit_ins (mov_with_sign_extension S64 src dst)
                else emit_ins (mov S32 src dst));
  on ARSH32_IMM (emit_shift S32 7 REGISTER_SCRATCH dst (Some (imm insn)));
  on ARSH32_REG (emit_shift S32 7 src dst None);
  on_if LE (negb (disable_le version))
    (if imm insn =? 16 then emit_ins (alu_immediate S32 0x81 4 dst 0xffff None)
     else if imm insn =? 32 then emit_ins (alu_immediate S32 0x81 4 dst (-1) None)
     else if imm insn =? 64 then mret tt
     else fails InvalidInstruction);
  on BE
    (if imm insn =? 16 then
       _ ← emit_ins (bswap S16 dst);
       emit_ins (alu_immediate S32 0x81 4 dst 0xffff None)
     else if imm insn =? 32 then emit_ins (bswap S32 dst)
     else if imm insn =? 64 then emit_ins (bswap S64 dst)
     else fails InvalidInstruction)].

Definition alu64_arms : list (arm (J unit)) :=
  let moved := move_memory_instruction_classes version in
  let legacy := negb (enable_pqr version) in [
  on ADD64_IMM (emit_sanitized_alu S64 0x01 0 dst (imm insn));
  on ADD64_REG (emit_ins (alu S64 0x01 src dst None));
  on SUB64_IMM (emit_sub_imm S64);
  on SUB64_REG (emit_ins (alu S64 0x29 src dst None));
  on_if MUL64_IMM legacy (emit_mul_imm S64);
  mkArm [DIV64_IMM; MOD64_IMM] legacy (emit_legacy_division S64 dst (Some (imm insn)));
  on_if ST_1B_IMM moved (emit_store_imm 1);
  on_if ST_2B_IMM moved (emit_store_imm 2);
  on_if MUL64_REG legacy (emit_ins (alu_escaped S64 1 0xaf dst src None));
  mkArm [DIV64_REG; MOD64_REG] legacy (emit_legacy_division S64 src None);
  on_if ST_1B_REG moved (emit_store_reg 1);
  on_if ST_2B_REG moved (emit_store_reg 2);
  on OR64_IMM (emit_sanitized_alu S64 0x09 1 dst (imm insn));
  on OR64_REG (emit_ins (alu S64 0x09 src dst None));
  on AND64_IMM (emit_sanitized_alu S64 0x21 4 dst (imm insn));
  on AND64_REG (emit_ins (alu S64 0x21 src dst None));
  on LSH64_IMM (emit_shift S64 4 REGISTER_SCRATCH dst (Some (imm insn)));
  on LSH64_REG (emit_shift S64 4 src dst None);
  on RSH64_IMM (emit_shift S64 5 REGISTER_SCRATCH dst (Some (imm insn)));
  on RSH64_REG (emit_shift S64 5 src dst None);
  on_if ST_4B_IMM moved (emit_store_imm 4);
  on_if NEG64 (negb (disable_neg version)) (emit_ins (alu_immediate S64 0xf7 3 dst 0 None));
  on_if ST_4B_REG moved (emit_store_reg 4);
  on_if ST_8B_IMM moved (emit_store_imm 8);
  on_if ST_8B_REG moved (emit_store_reg 8);
  on XOR64_IMM (emit_sanitized_alu S64 0x31 6 dst (imm insn));
  on XOR64_REG (emit_ins (alu S64 0x31 src dst None));
  on MOV64_IMM (emit_load_constant dst (imm insn) (imm insn));
  on MOV64_REG (emit_ins (mov S64 src dst));
  on ARSH64_IMM (emit_shift S64 7 REGISTER_SCRATCH dst (Some (imm insn)));
  on ARSH64_REG (emit_shift S64 7 src dst None);
  on_if HOR64_IMM (disable_lddw version)
    (emit_sanitized_alu S64 0x09 1 dst (as_i 64 (wrapping_shl 64 (as_u 64 (imm insn)) 32)))].

(** The operation is in the bits of the opcode. *)
Definition emit_pqr (src : X86Register) (imm : option Z) : J unit :=
  emit_product_quotient_remainder
    (if negb (Z.land (opc insn) (Z.shiftl 1 4) =? 0) then S64 else S32)
    (negb (Z.land (opc insn) (Z.shiftl 1 5) =? 0))
    (negb (Z.land (opc insn) (Z.shiftl 1 6) =? 0))
    (negb (Z.land (opc insn) (Z.shiftl 1 7) =? 0)) src dst imm.

Definition pqr_arms : list (arm (J unit)) := [
  mkArm [LMUL32_IMM; LMUL64_IMM; UHMUL64_IMM; SHMUL64_IMM; UDIV32_IMM; UDIV64_IMM; UREM32_IMM;
         UREM64_IMM; SDIV32_IMM; SDIV64_IMM; SREM32_IMM; SREM64_IMM] (enable_pqr version)
    (let signed := negb (Z.land (opc insn) (Z.shiftl 1 7) =? 0) in
     emit_pqr dst (Some (if negb signed then Z.land (imm insn) u32_max else imm insn)));
  mkArm [LMUL32_REG; LMUL64_REG; UHMUL64_REG; SHMUL64_REG; UDIV32_REG; UDIV64_REG; UREM32_REG;
         UREM64_REG; SDIV32_REG; SDIV64_REG; SREM32_REG; SREM64_REG] (enable_pqr version)
    (emit_pqr src None)].

Definition branch_imm (size : OperandSize) (op : Z) (bitwise : bool) : J unit :=
  emit_conditional_branch_imm size op bitwise (imm insn) dst target_pc.
Definition branch_reg (size : OperandSize) (op : Z) (bitwise : bool) : J unit :=
  emit_conditional_branch_reg size op bitwise src dst target_pc.

Definition jmp32_arms : list (arm (J unit)) :=
  let g := enable_jmp32 version in [
  on_if JEQ32_IMM g (branch_imm S32 0x84 false);
  on_if JEQ32_REG g (branch_reg S32 0x84 false);
  on_if JGT32_IMM g (branch_imm S32 0x87 false);
  on_if JGT32_REG g (branch_reg S32 0x87 false);
  on_if JGE32_IMM g (branch_imm S32 0x83 false);
  on_if JGE32_REG g (branch_reg S32 0x83 false);
  on_if JLT32_IMM g (branch_imm S32 0x82 false);
  on_if JLT32_REG g (branch_reg S32 0x82 false);
  on_if JLE32_IMM g (branch_imm S32 0x86 false);
  on_if JLE32_REG g (branch_reg S32 0x86 false);
  on_if JSET32_IMM g (branch_imm S32 0x85 true);
  on_if JSET32_REG g (branch_reg S32 0x85 true);
  on_if JNE32_IMM g (branch_imm S32 0x85 false);
  on_if JNE32_REG g (branch_reg S32 0x85 false);
  on_if JSGT32_IMM g (branch_imm S32 0x8f false);
  on_if JSGT32_REG g (branch_reg S32 0x8f false);
  on_if JSGE32_IMM g (branch_imm S32 0x8d false);
  on_if JSGE32_REG g (branch_reg S32 0x8d false);
  on_if JSLT32_IMM g (branch_imm S32 0x8c false);
  on_if JSLT32_REG g (branch_reg S32 0x8c false);
  on_if JSLE32_IMM g (branch_imm S32 0x8e false);
  on_if JSLE32_REG g (branch_reg S32 0x8e false)].

Definition jmp64_arms : list (arm (J unit)) := [
  on JA
    (_ ← emit_validate_and_profile_instruction_count target_pc;
     jump_offset ← relative_to_target_pc target_pc 5;
     emit_ins (Ok (jump_immediate jump_offset)));
  on JEQ64_IMM (branch_imm S64 0x84 false);
  on JEQ64_REG (branch_reg S64 0x84 false);
  on JGT64_IMM (branch_imm S64 0x87 false);
  on JGT64_REG (branch_reg S64 0x87 false);
  on JGE64_IMM (branch_imm S64 0x83 false);
  on JGE64_REG (branch_reg S64 0x83 false);
  on JLT64_IMM (branch_imm S64 0x82 false);
  on JLT64_REG (branch_reg S64 0x82 false);
  on JLE64_IMM (branch_imm S64 0x86 false);
  on JLE64_REG (branch_reg S64 0x86 false);
  on JSET64_IMM (branch_imm S64 0x85 true);
  on JSET64_REG (branch_reg S64 0x85 true);
  on JNE64_IMM (branch_imm S64 0x85 false);
  on JNE64_REG (branch_reg S64 0x85 false);
  on JSGT64_IMM (branch_imm S64 0x8f false);
  on JSGT64_REG (branch_reg S64 0x8f false);
  on JSGE64_IMM (branch_imm S64 0x8d false);
  on JSGE64_REG (branch_reg S64 0x8d false);
  on JSLT64_IMM (branch_imm S64 0x8c false);
  on JSLT64_REG (branch_reg S64 0x8c false);
  on JSLE64_IMM (branch_imm S64 0x8e false);
  on JSLE64_REG (branch_reg S64 0x8e false)].


(** [CALL_IMM]: whether a native function was called ... *)
Definition emit_call_external : J bool :=
  if negb (static_syscalls version) || (Ebpf.src insn =? 0) then
    match lookup_by_key (sparse_registry (exec_loader (executable cx))) (as_u 32 (imm insn)) with
    | Some (_, callback) => _ ← codegen cx callback; mret true
    | None => mret false
    end
  else mret false.

(** ... and whether an internal function was. *)
Definition emit_call_internal : J bool :=
  if static_syscalls version then
    pc ← gets jit_pc;
    let target_pc := saturating_i64 (saturating_i64 (as_i 64 pc + imm insn) + 1) in
    if is_pc_in_program (program cx) (as_u 64 target_pc) && (Ebpf.src insn =? 1) then
      _ ← emit_internal_call (Constant64 target_pc true); mret true
    else mret false
  else
    match lookup_by_key (function_registry (executable cx)) (as_u 32 (imm insn)) with
    | Some (_, target_pc) =>
        _ ← emit_internal_call (Constant64 (as_i 64 target_pc) true); mret true
    | None => mret false
    end.

Definition emit_call_imm : J unit :=
  external ← emit_call_external;
  internal ← emit_call_internal;
  if negb (external || internal) then
    _ ← emit_load_pc;
    emit_jump_anchor ANCHOR_CALL_UNSUPPORTED_INSTRUCTION
  else mret tt.

Definition emit_call_reg : J unit :=
  target_pc ← (if callx_uses_src_reg version then mret src
               else if callx_uses_dst_reg version then mret dst
               else lift (or_panic (get REGISTER_MAP (as_u 64 (imm insn)))));
  emit_internal_call (Register target_pc).

Definition emit_exit : J unit :=
  _ ← emit_validate_and_profile_instruction_count 0;
  o ← slot_in_vm Slot_CallDepth;
  _ ← emit_ins (cmp_immediate S32 REGISTER_PTR_TO_VM 0 (Some (Offset o)));
  _ ← emit_branch_anchor 0x84 ANCHOR_EXIT;
  _ ← emit_ins (alu_immediate S64 0x81 5 REGISTER_PTR_TO_VM 1 (Some (Offset o)));
  emit_ins (Ok return_near).

Definition call_arms : list (arm (J unit)) :=
  [on CALL_IMM emit_call_imm; on CALL_REG emit_call_reg; on EXIT emit_exit].

Definition compile_arms : list (arm (J unit)) :=
  memory_arms ++ alu32_arms ++ alu64_arms ++ pqr_arms ++ jmp32_arms ++ jmp64_arms ++ call_arms.
End Arms.

(** ** [compile] *)
Definition emit_padding : J unit :=
  if negb (noop_instruction_rate cfg =? 0) then
    g ← gets diversification_rng;
    let (n, g) := gen_range MAX_START_PADDING_LENGTH g in
    _ ← modify (fun s => set_noop (next_noop_insertion s) g s);
    for_each (fun _ => emit 1 0x90) (replicate (Z.to_nat n) tt)
  else mret tt.

(** [if offset + MAX_MACHINE_CODE_LENGTH_PER_INSTRUCTION * 2 >= text_section.len() { return Err }] *)
Definition check_capacity : J unit := fun s =>
  if text_len s <=? offset_in_text_section s + MAX_MACHINE_CODE_LENGTH_PER_INSTRUCTION * 2
  then Err (Fails (ExhaustedTextSegment (jit_pc s))) else Ok (tt, s).

Definition emit_checkpoint : J unit :=
  pc ← gets jit_pc;
  last ← gets last_instruction_meter_validation_pc;
  limit ← lift (arith_u64 (last + instruction_meter_checkpoint_distance cfg));
  if limit <=? pc then emit_validate_instruction_count (Some pc) else mret tt.

Definition emit_tracing : J unit :=
  if enable_register_tracing cfg then
    _ ← emit_load_pc;
    _ ← emit_call_anchor ANCHOR_TRACE;
    emit_ins (Ok (load_immediate REGISTER_SCRATCH 0))
  else mret tt.

(** [match insn.opc { ... }] *)
Definition emit_opcode (insn : Insn) (dst src : X86Register) (target_pc : Z) : J unit :=
  match_opc (opc insn) (compile_arms insn dst src target_pc) (fails UnsupportedInstruction).

(** The body of the main loop. *)
Definition compile_instruction : J unit :=
  _ ← check_capacity;
  pc ← gets jit_pc;
  insn ← lift (get_insn_unchecked (program cx) pc);
  offset ← gets offset_in_text_section;
  _ ← set_pc_entry pc (as_u 32 offset);
  _ ← emit_checkpoint;
  _ ← emit_tracing;
  dst ← lift (or_panic (get REGISTER_MAP (Ebpf.dst insn)));
  src ← lift (or_panic (get REGISTER_MAP (Ebpf.src insn)));
  next ← lift (arith_i64 (as_i 64 pc + off insn));
  next ← lift (arith_i64 (next + 1));
  _ ← emit_opcode insn dst src (as_u 64 next);
  advance.

(** [while self.pc * INSN_SIZE < self.program.len()] *)
Fixpoint compile_loop (fuel : nat) : J unit :=
  match fuel with
  | O => fun _ => Err OutOfFuel
  | S fuel =>
      pc ← gets jit_pc;
      n ← lift (arith_u64 (pc * INSN_SIZE));
      if n <? Z.of_nat (length (program cx)) then _ ← compile_instruction; compile_loop fuel
      else mret tt
  end.

Definition emit_bumper : J unit :=
  _ ← check_capacity;
  pc ← gets jit_pc;
  next ← lift (arith_u64 (pc + 1));
  _ ← emit_validate_and_profile_instruction_count next;
  _ ← emit_load_pc;
  _ ← emit_set_exception_kind ExecutionOverrun;
  emit_jump_anchor ANCHOR_THROW_EXCEPTION.

(** The machine code before the forward jumps are filled in. *)
Definition generate : J unit :=
  _ ← emit_padding;
  _ ← emit_subroutines;
  _ ← compile_loop (S (length (program cx)));
  emit_bumper.

Definition compile {W} `{Libc W} (s : JitCompiler G) (w : W) : result Stop JitProgram * W :=
  match (_ ← generate; resolve_jumps) s with
  | Ok (_, s) => seal (jit_result s) (offset_in_text_section s) w
  | Err e => (Err e, w)
  | Panic => (Panic, w)
  end.
End Compiler.

(** Native functions that keep the default hook. *)
Definition default_hooks {V G} `{Profile, ByteOrder, SmallRng G, Host V} : Codegen V G :=
  {| codegen cx f := default_codegen cx f |}.

(** ** Construction *)

(** [get_runtime_environment_key]: [random] is the [i32] it draws. *)
Definition get_runtime_environment_key (random : Z) : Z := Z.shiftr random 1.

Section New.
Context {V G W : Type} `{Profile, ByteOrder, SmallRng G, Libc W}.

(** [while (pc + 1) * INSN_SIZE <= program.len()] *)
Fixpoint count_loop (fuel : nat) (program : list byte) (pc : Z) : result Stop Z :=
  match fuel with
  | O => Err OutOfFuel
  | S fuel =>
      n ← arith_u64 (pc + 1);
      n ← arith_u64 (n * INSN_SIZE);
      if n <=? Z.of_nat (length program) then
        insn ← get_insn_unchecked program pc;
        pc ← arith_u64 (pc + if opc insn =? LD_DW_IMM then 2 else 1);
        count_loop fuel program pc
      else Ok pc
  end.

Definition count_instructions (v : SBPFVersion) (program : list byte) : result Stop Z :=
  if negb (disable_lddw v) then count_loop (S (length program)) program 0
  else Ok (Z.of_nat (length program) / INSN_SIZE).

Definition code_length_estimate (cfg : Config) (pc : Z) : result Stop Z :=
  n ← arith_u64 (MAX_MACHINE_CODE_LENGTH_PER_INSTRUCTION * pc);
  n ← arith_u64 (MAX_EMPTY_PROGRAM_MACHINE_CODE_LENGTH + MAX_START_PADDING_LENGTH + n);
  n ← (if negb (noop_instruction_rate cfg =? 0)
       then arith_u64 (n + n / noop_instruction_rate cfg) else Ok n);
  n ← (if instruction_meter_checkpoint_distance cfg =? 0 then Ok n
       else
         q ← arith_u64 (pc / instruction_meter_checkpoint_distance cfg
                        * MACHINE_CODE_PER_INSTRUCTION_METER_CHECKPOINT);
         arith_u64 (n + q));
  _ ← debug_assert (n <? i32_max);
  Ok n.

(** [executable.get_config()] panics without one.  [rng] is what
    [SmallRng::from_rng(thread_rng())] returns, [random] the number behind the
    runtime environment key and [memory] what the allocated block contains. *)
Definition JitCompiler_new (e : Executable V) (rng : option G) (random : Z) (memory : Z -> byte)
    (pool : BucketedFreeList) (w : W)
    : result Stop (JitEnv V * JitCompiler G * BucketedFreeList) * W :=
  match (cfg ← or_panic (config (exec_loader e));
         '(program_vm_addr, program) ← get_text_bytes e;
         pc ← count_instructions (sbpf_version e) program;
         n ← code_length_estimate cfg pc;
         rng ← ok_or rng (Fails JitNotCompiled);
         Ok (cfg, program_vm_addr, program, pc, n, rng)) with
  | Ok (cfg, program_vm_addr, program, pc, n, rng) =>
      let (immediate_value_key, rng) := gen_i64 rng in
      let (r, w) := JitProgram_new pc n memory pool w in
      ('(p, pool) ← r;
       '(next_noop_insertion, rng) ←
         (if noop_instruction_rate cfg =? 0 then Ok (u32_max, rng)
          else high ← arith_u32 (noop_instruction_rate cfg * 2);
               if high =? 0 then Panic else Ok (gen_range high rng));
       high ← arith_u32 (noop_instruction_rate cfg * 2);
       Ok (mkJitEnv e program program_vm_addr cfg (0, high) (get_runtime_environment_key random)
             immediate_value_key,
           mkJitCompiler p [] (replicate (Z.to_nat ANCHOR_COUNT) 0) 0 0 0 next_noop_insertion rng false,
           pool), w)
  | Err e => (Err e, w)
  | Panic => (Panic, w)
  end.

(** [Executable::jit_compile]: the compiled program to keep.  A compiler that
    stops early drops its program. *)
Definition jit_compile `{Host V, Codegen V G} (e : Executable V) (rng : option G) (random : Z) (memory : Z -> byte)
    (pool : BucketedFreeList) (w : W) : result Stop JitProgram * BucketedFreeList * W :=
  match JitCompiler_new e rng random memory pool w with
  | (Ok (cx, s, pool), w) =>
      match compile cx s w with
      | (Ok p, w) => (Ok p, pool, w)
      | (r, w) =>
          match JitProgram_drop (jit_result s) pool w with
          | (Ok pool, w) => (r, pool, w)
          | (_, w) => (Panic, pool, w)
          end
      end
  | (Err e, w) => (Err e, pool, w)
  | (Panic, w) => (Panic, pool, w)
  end.
End New.
