(* ===== verification/JitEmitFacts.v ===== *)
(** * A program logic for the production JIT compiler

    [codes ins k]: an instruction that the encoder accepts and encodes in at
    most [k] bytes.  [emits A n m Q B]: started in a well-formed compiler that
    has the anchors [A] and room for [n] bytes, [m] writes at most [n] bytes,
    all of them inside the text section, keeps what was written before, leaves
    the compiler well formed with the anchors [B], and returns a value in [Q].
    It may only panic or return an error when [strict] is false.  The rules
    follow the structure of the code; the hints of [emits] apply them. *)

From stdpp Require Import strings.
From S2P Require Import Prelude Ebpf Program Verifier Error Vm X86 PageAllocator JitProgram.
From S2P Require Import X86Emit X86EmitFacts JitCompiler.

(** ** Lengths of instructions *)
Section Lengths.
Context `{Profile}.

Definition size_bytes (sz : OperandSize) : Z :=
  match sz with S0 => 0 | S8 => 1 | S16 => 2 | S32 => 4 | S64 => 8 end.

Definition rex_bound (i : X86Instruction) : Z :=
  if negb (size_eqb (size i) S64) && (first_operand i =? 0) && (second_operand i =? 0)
     && bool_decide (indirect i = None) then 0 else 1.

Definition operand_bound (i : X86Instruction) : Z :=
  if modrm i then
    match indirect i with
    | None => 1
    | Some (Offset _) => 5
    | Some (OffsetIndexShift _ _ _) => 6
    end
  else 0.

Definition encoded_bound (i : X86Instruction) : Z :=
  (if size_eqb (size i) S16 then 1 else 0) + rex_bound i
  + (if opcode_escape_sequence i =? 0 then 0 else if opcode_escape_sequence i =? 1 then 1 else 2)
  + 1 + operand_bound i + size_bytes (immediate_size i).

(** [RSP] and [R12] need a [SIB] byte when they are the base of an access. *)
Definition base_ok (i : X86Instruction) : bool :=
  match indirect i with
  | Some (Offset _) => negb (Z.land (second_operand i) 7 =? 4)
  | _ => true
  end.

Definition codes (ins : result Stop X86Instruction) (k : Z) : Prop :=
  exists i bs, ins = Ok i /\ is_u 8 (opcode i) /\ encode (E := Stop) i = Ok bs /\ Z.of_nat (length bs) <= k.

Lemma length_variable sz data : Z.of_nat (length (X86.emit_variable_length sz data)) = size_bytes sz.
Proof. destruct sz; done. Qed.

Lemma encode_operands_bound i rex mrm sib dsz d :
  encode_operands (E := Stop) i = Ok (rex, mrm, sib, dsz, d) ->
  (rex_byte rex = 0 \/ rex_bound i = 1) /\
  (if modrm i then 1 + (if Z.lor (Z.lor (Z.shiftl (sib_scale sib) 6) (Z.shiftl (sib_index sib) 3)) (sib_base sib) =? 0
                        then 0 else 1) + size_bytes dsz else 0) <= operand_bound i.
Proof.
  unfold encode_operands, rex_bound, operand_bound. intros He.
  split.
  - destruct (_ && _) eqn:Hb; [|by right]. left.
    apply andb_prop in Hb as [[[Hs Hf]%andb_prop Hg]%andb_prop Hi%bool_decide_eq_true].
    rewrite Hi in He. apply Z.eqb_eq in Hf, Hg. rewrite Hf, Hg in He. apply negb_true_iff in Hs.
    rewrite Hs in He. destruct (modrm i); by simplify_eq/=.
  - destruct (modrm i); [|lia]. destruct (indirect i) as [[o|o r sh]|]; result_inv; simplify_eq/=;
      repeat case_match; simpl; lia.
Qed.

Lemma length_encode i bs : encode (E := Stop) i = Ok bs -> Z.of_nat (length bs) <= encoded_bound i.
Proof.
  unfold encode. intros He. apply result_bind_ok in He as (? & _ & He).
  apply result_bind_ok in He as ([[[[rex mrm] sib] dsz] d] & Ho & He). injection He as <-.
  apply encode_operands_bound in Ho as [Hr Hm].
  assert (H1 : Z.of_nat (length (if rex_byte rex =? 0 then [] else [Z.lor 0x40 (rex_byte rex)])) <= rex_bound i).
  { destruct (Z.eqb_spec (rex_byte rex) 0); simpl; [|destruct Hr; lia].
    unfold rex_bound. by destruct (_ && _). }
  assert (H2 : Z.of_nat (length (escape_bytes (opcode_escape_sequence i))) <=
               if opcode_escape_sequence i =? 0 then 0 else if opcode_escape_sequence i =? 1 then 1 else 2).
  { unfold escape_bytes.
    destruct (Z.eqb_spec (opcode_escape_sequence i) 0) as [->|]; [done|].
    destruct (_ =? 1); [simpl; lia|]. destruct (_ =? 2); [done|]. by destruct (_ =? 3). }
  assert (H3 : Z.of_nat (length (if size_eqb (size i) S16 then [102] else [] : list byte)) =
               if size_eqb (size i) S16 then 1 else 0) by (by destruct (size_eqb (size i) S16)).
  unfold encoded_bound. rewrite !length_app, length_cons, !length_app, !Nat2Z.inj_add, Nat2Z.inj_succ.
  rewrite !Nat2Z.inj_add, H3, length_variable.
  match goal with |- context [length (if modrm i then ?l else [])] =>
    assert (H4 : Z.of_nat (length (if modrm i then l else [])) <= operand_bound i) end.
  { destruct (modrm i); [|simpl; lia].
    rewrite length_cons, !length_app, Nat2Z.inj_succ, !Nat2Z.inj_add, length_variable.
    destruct (Z.lor _ _ =? 0); simpl in *; lia. }
  lia.
Qed.

Lemma codes_intro ins i k :
  ins = Ok i -> is_u 8 (opcode i) -> size_eqb (size i) S0 = false -> base_ok i = true ->
  encoded_bound i <= k -> codes ins k.
Proof.
  intros -> Hop Hs Hb Hk.
  assert (He : exists bs, encode (E := Stop) i = Ok bs).
  { assert (Ht : forall b, b = true -> debug_assert (E := Stop) b = Ok tt).
    { intros b ->. unfold debug_assert. by rewrite andb_false_r. }
    assert (Ho : exists o, encode_operands (E := Stop) i = Ok o).
    { unfold encode_operands, base_ok in *. destruct (modrm i); [|eauto].
      destruct (indirect i) as [[o|o r sh]|]; [rewrite (Ht _ Hb)|..]; simpl; [destruct (_ || _)|destruct (_ && _)|]; eauto. }
    destruct Ho as [[[[[rex mrm] sib] dsz] d] Ho]. unfold encode. rewrite Hs, (Ht (negb false) eq_refl), Ho. simpl. eauto. }
  destruct He as [bs He]. exists i, bs. pose proof (length_encode i bs He). split_and!; [done..|lia].
Qed.

Lemma codes_mono ins j k : codes ins j -> j <= k -> codes ins k.
Proof. intros (i & bs & ? & ? & ? & ?) ?. exists i, bs. split_and!; [done..|lia]. Qed.

(** All but the [REX] prefix. *)
Definition rest_bound (i : X86Instruction) : Z :=
  (if size_eqb (size i) S16 then 1 else 0)
  + (if opcode_escape_sequence i =? 0 then 0 else if opcode_escape_sequence i =? 1 then 1 else 2)
  + 1 + operand_bound i + size_bytes (immediate_size i).

Lemma rest_bound_le i k : (rest_bound i + 1 <=? k) = true -> encoded_bound i <= k.
Proof.
  intros Hk%Z.leb_le. unfold rest_bound in Hk. unfold encoded_bound, rex_bound. destruct (_ && _); lia.
Qed.

Lemma exclude_ok {E} sz l : bool_decide (sz ∈ l) = false -> exclude_operand_sizes (E := E) sz l = Ok tt.
Proof. intros H0. unfold exclude_operand_sizes, debug_assert. rewrite H0. by rewrite andb_false_r. Qed.

Lemma opcode_reg_u8 k r : is_u 8 k -> is_u 8 (Z.lor k (Z.land (reg_u8 r) 7)).
Proof. intros. apply lor_is_u; [lia|done|]. apply (is_u_mono 3 8); [lia|]. by apply (land_ones_u _ 3). Qed.
End Lengths.

Ltac solve_bound :=
  first [apply Z.leb_le; vm_compute; reflexivity | apply rest_bound_le; vm_compute; reflexivity].
Ltac solve_codes :=
  eapply codes_intro;
    [ unfold alu, alu_escaped, alu_immediate, alu_immediate_escaped, mov, mov_with_sign_extension, mov_mmx,
        cmov, xchg, bswap, test, test_immediate, cmp, cmp_immediate, lea, sign_extend_rax_rdx, load, store,
        store_immediate, push_immediate;
      rewrite ?exclude_ok by reflexivity; reflexivity
    | first [done | by apply opcode_reg_u8] | reflexivity | first [reflexivity | assumption] | solve_bound ].

Create HintDb codes.

(** The operand sizes the compiler uses for arithmetic. *)
Definition wide (sz : OperandSize) : Prop := sz = S32 \/ sz = S64.
Lemma wide_32 : wide S32. Proof. by left. Qed.
Lemma wide_64 : wide S64. Proof. by right. Qed.
#[export] Hint Resolve wide_32 wide_64 : codes.

Section Codes.
Context `{Profile}.
Implicit Types (sz : OperandSize) (a b : X86Register) (o imm : Z).

(** The base of an [Offset] access. *)
Definition plain_base (r : X86Register) : Prop := negb (Z.land (reg_u8 r) 7 =? 4) = true.

Lemma codes_alu sz op a b : wide sz -> is_u 8 op -> codes (alu sz op a b None) 3.
Proof. intros [-> | ->] Hop; solve_codes. Qed.
Lemma codes_alu_offset op a b o : is_u 8 op -> plain_base b -> codes (alu S64 op a b (Some (Offset o))) 7.
Proof. intros Hop Hb. solve_codes. Qed.
Lemma codes_alu_sib op a b o r sh :
  is_u 8 op -> codes (alu S64 op a b (Some (OffsetIndexShift o r sh))) 8.
Proof. intros Hop. solve_codes. Qed.
Lemma codes_alu_escaped sz op a b : wide sz -> is_u 8 op -> codes (alu_escaped sz 1 op a b None) 4.
Proof. intros [-> | ->] Hop; solve_codes. Qed.
Lemma codes_alu_81 sz ext a imm : wide sz -> codes (alu_immediate sz 0x81 ext a imm None) 7.
Proof. intros [-> | ->]; solve_codes. Qed.
Lemma codes_alu_81_offset ext a imm o :
  plain_base a -> codes (alu_immediate S64 0x81 ext a imm (Some (Offset o))) 11.
Proof. intros Ha. solve_codes. Qed.
Lemma codes_alu_81_sib ext a imm o r sh :
  codes (alu_immediate S64 0x81 ext a imm (Some (OffsetIndexShift o r sh))) 12.
Proof. solve_codes. Qed.
Lemma codes_alu_c1 sz ext a imm : wide sz -> codes (alu_immediate sz 0xc1 ext a imm None) 4.
Proof. intros [-> | ->]; solve_codes. Qed.
Lemma codes_alu_d3 sz ext a imm : wide sz -> codes (alu_immediate sz 0xd3 ext a imm None) 3.
Proof. intros [-> | ->]; solve_codes. Qed.
Lemma codes_alu_f7 sz ext a imm : wide sz -> (ext =? 0) = false -> codes (alu_immediate sz 0xf7 ext a imm None) 3.
Proof.
  intros [-> | ->] Hx; unfold alu_immediate, alu_immediate_escaped; rewrite exclude_ok by done;
    cbn -[with_escape]; rewrite Hx; (eapply codes_intro; [reflexivity|done|reflexivity|reflexivity|solve_bound]).
Qed.
Lemma codes_mov sz a b : wide sz -> codes (mov sz a b) 3.
Proof. intros [-> | ->]; solve_codes. Qed.
Lemma codes_mov_sx a b : codes (mov_with_sign_extension S64 a b) 3.
Proof. solve_codes. Qed.
Lemma codes_mov_mmx a b : codes (mov_mmx S64 a b) 4.
Proof.
  unfold mov_mmx. rewrite exclude_ok by done. cbn -[with_escape two_operands Z.land].
  destruct (negb (Z.land (reg_u8 b) 16 =? 0)); [destruct (negb (Z.land (reg_u8 a) 16 =? 0))|]; solve_codes.
Qed.
Lemma codes_cmov sz op a b : wide sz -> is_u 8 op -> codes (cmov sz op a b) 4.
Proof. intros [-> | ->] ?; solve_codes. Qed.
Lemma codes_xchg a b : codes (xchg S64 a b None) 3.
Proof. solve_codes. Qed.
Lemma codes_xchg_sib a b o r sh : codes (xchg S64 a b (Some (OffsetIndexShift o r sh))) 8.
Proof. solve_codes. Qed.
Lemma codes_bswap_16 a : codes (bswap S16 a) 5.
Proof. solve_codes. Qed.
Lemma codes_bswap sz a : wide sz -> codes (bswap sz a) 3.
Proof. intros [-> | ->]; solve_codes. Qed.
Lemma codes_test sz a b : wide sz -> codes (test sz a b None) 3.
Proof. intros [-> | ->]; solve_codes. Qed.
Lemma codes_test_imm sz a imm : wide sz -> codes (test_immediate sz a imm None) 7.
Proof. intros [-> | ->]; solve_codes. Qed.
Lemma codes_cmp sz a b : wide sz -> codes (cmp sz a b None) 3.
Proof. intros [-> | ->]; solve_codes. Qed.
Lemma codes_cmp_imm sz a imm : wide sz -> codes (cmp_immediate sz a imm None) 7.
Proof. intros [-> | ->]; solve_codes. Qed.
Lemma codes_cmp_imm_offset sz a imm o :
  wide sz -> plain_base a -> codes (cmp_immediate sz a imm (Some (Offset o))) 11.
Proof. intros [-> | ->] Ha; solve_codes. Qed.
Lemma codes_lea_offset a b o : plain_base a -> codes (lea S64 a b (Some (Offset o))) 7.
Proof. intros Ha. solve_codes. Qed.
Lemma codes_lea_sib a b o r sh : codes (lea S64 a b (Some (OffsetIndexShift o r sh))) 8.
Proof. solve_codes. Qed.
Lemma codes_sign_extend sz : wide sz -> codes (sign_extend_rax_rdx sz) 2.
Proof. intros [-> | ->]; solve_codes. Qed.
Lemma codes_load_offset sz a b o : sz <> S0 -> plain_base a -> codes (load sz a b (Offset o)) 8.
Proof. intros Hs Ha. destruct sz; [done|solve_codes..]. Qed.
Lemma codes_load_sib sz a b o r sh : sz <> S0 -> codes (load sz a b (OffsetIndexShift o r sh)) 9.
Proof. intros Hs. destruct sz; [done|solve_codes..]. Qed.
Lemma codes_store_offset sz a b o : sz <> S0 -> plain_base b -> codes (store sz a b (Offset o)) 8.
Proof. intros Hs Hb. destruct sz; [done|solve_codes..]. Qed.
Lemma codes_store_sib sz a b o r sh : sz <> S0 -> codes (store sz a b (OffsetIndexShift o r sh)) 9.
Proof. intros Hs. destruct sz; [done|solve_codes..]. Qed.
Lemma codes_load_immediate a imm : codes (Ok (load_immediate a imm)) 10.
Proof.
  unfold load_immediate. destruct (0 <=? imm); [destruct (imm <=? u32_max)|destruct (i32_min <=? imm)]; solve_codes.
Qed.
Lemma codes_store_imm_offset a o imm : plain_base a -> codes (store_immediate S64 a (Offset o) imm) 11.
Proof. intros Ha. solve_codes. Qed.
Lemma codes_store_imm_sib a o r sh imm : codes (store_immediate S64 a (OffsetIndexShift o r sh) imm) 12.
Proof. solve_codes. Qed.
Lemma codes_push_imm imm : codes (push_immediate S64 imm) 6.
Proof. solve_codes. Qed.
Lemma codes_push a : codes (Ok (push a None)) 2.
Proof. solve_codes. Qed.
Lemma codes_pop a : codes (Ok (pop a)) 2.
Proof. solve_codes. Qed.
Lemma codes_jcc op d : is_u 8 op -> codes (Ok (conditional_jump_immediate op d)) 6.
Proof. intros Hop. solve_codes. Qed.
Lemma codes_jump d : codes (Ok (jump_immediate d)) 5.
Proof. solve_codes. Qed.
Lemma codes_call d : codes (Ok (call_immediate d)) 5.
Proof. solve_codes. Qed.
Lemma codes_call_reg a : codes (Ok (call_reg a None)) 3.
Proof. solve_codes. Qed.
Lemma codes_return : codes (Ok return_near) 1.
Proof. solve_codes. Qed.
End Codes.

#[export] Hint Resolve codes_alu codes_alu_offset codes_alu_sib codes_alu_escaped codes_alu_81
  codes_alu_81_offset codes_alu_81_sib codes_alu_c1 codes_alu_d3 codes_alu_f7 codes_mov codes_mov_sx
  codes_mov_mmx codes_cmov codes_xchg codes_xchg_sib codes_bswap_16 codes_bswap codes_test codes_test_imm
  codes_cmp codes_cmp_imm codes_cmp_imm_offset codes_lea_offset codes_lea_sib codes_sign_extend
  codes_load_offset codes_load_sib codes_store_offset codes_store_sib codes_load_immediate
  codes_store_imm_offset codes_store_imm_sib codes_push_imm codes_push codes_pop codes_jcc codes_jump
  codes_call codes_call_reg codes_return : codes.
#[export] Hint Extern 2 (is_u 8 _) => done : codes.
#[export] Hint Extern 2 (plain_base _) => done : codes.
#[export] Hint Extern 2 (_ <> S0) => done : codes.
#[export] Hint Extern 2 ((_ =? 0) = false) => reflexivity : codes.

(** ** The logic *)

(** Jumps whose displacements lie one after the other between two addresses. *)
Fixpoint jumps_in (lo hi : Z) (js : list Jump) : Prop :=
  match js with
  | [] => lo <= hi
  | j :: js => lo <= location j /\ jumps_in (location j + 4) hi js
  end.

Lemma jumps_in_le lo hi js : jumps_in lo hi js -> lo <= hi.
Proof. revert lo. induction js as [|j js IH]; intros lo; simpl; [done|]. intros [? ?%IH]. lia. Qed.
Lemma jumps_in_app lo mid hi js ks :
  jumps_in lo mid js -> jumps_in mid hi ks -> jumps_in lo hi (js ++ ks).
Proof.
  revert lo. induction js as [|j js IH]; intros lo; simpl; [|naive_solver].
  intros Hl. revert Hl. destruct ks as [|k ks]; simpl; [lia|]. intros ? [? ?]. split; [lia|done].
Qed.
Lemma jumps_in_mono lo hi hi' js : jumps_in lo hi js -> hi <= hi' -> jumps_in lo hi' js.
Proof. intros Hj Hle. rewrite <- (app_nil_r js). by eapply jumps_in_app. Qed.

Section Logic.
Context {V G : Type} `{Profile, ByteOrder, SmallRng G, Host V} (cx : JitEnv V).
(** Lengths of the text and pc sections, the address of the former, the block
    they are in, and whether panics and errors are excluded. *)
Context (L N T : Z) (P : Z * Z * Z) (strict : bool).
Implicit Types (s : JitCompiler G) (A B : list Z).

Record wf s : Prop := {
  wf_text : text_len s = L;
  wf_offset : 0 <= offset_in_text_section s <= L;
  wf_text_ptr : text_section_ptr (jit_result s) = T;
  wf_block : (pc_section_ptr (jit_result s), page_size (jit_result s), allocation_size (jit_result s)) = P;
  wf_pcs : Z.of_nat (length (pc_section (jit_result s))) = N;
  wf_entries : Forall (fun e => 0 <= e <= offset_in_text_section s) (pc_section (jit_result s));
  wf_pc : 0 <= jit_pc s <= N;
  wf_validation : 0 <= last_instruction_meter_validation_pc s <= N;
  wf_anchors : Z.of_nat (length (anchors s)) = ANCHOR_COUNT;
  wf_jumps : jumps_in T (T + offset_in_text_section s) (text_section_jumps s);
  wf_targets : Forall (fun j => 0 <= JitProgram.target_pc j < N) (text_section_jumps s)
}.

(** The anchors [A] are set, to addresses of emitted code. *)
Definition has A s : Prop :=
  Forall (fun a => exists d, get (anchors s) a = Some d /\ T <= d <= T + offset_in_text_section s) A.

Lemma has_later A s s' :
  has A s -> anchors s' = anchors s -> offset_in_text_section s <= offset_in_text_section s' -> has A s'.
Proof.
  intros Ha He Ho. eapply Forall_impl; [exact Ha|]. intros a (d & Hd & Hr). exists d. rewrite He. split; [done|lia].
Qed.

(** From [s] to [s'] at most [n] bytes were appended; what was there before is
    unchanged, and so are the pc and its table. *)
Record step (n : Z) s s' : Prop := {
  step_offset : offset_in_text_section s <= offset_in_text_section s' <= offset_in_text_section s + n;
  step_text : take (Z.to_nat (offset_in_text_section s)) (text_section (jit_result s')) =
              take (Z.to_nat (offset_in_text_section s)) (text_section (jit_result s));
  step_pc : jit_pc s' = jit_pc s;
  step_entries : pc_section (jit_result s') = pc_section (jit_result s)
}.

Lemma step_refl n s : 0 <= n -> step n s s.
Proof. intros. constructor; [lia|done..]. Qed.

Lemma step_trans n k s s' s'' :
  0 <= offset_in_text_section s -> step n s s' -> step k s' s'' -> step (n + k) s s''.
Proof.
  intros Hz [Ho Ht Hp He] [Ho' Ht' Hp' He']. constructor; [lia| |by etransitivity..].
  apply (f_equal (take (Z.to_nat (offset_in_text_section s)))) in Ht'.
  rewrite !take_take, !Nat.min_l in Ht' by lia. by rewrite Ht'.
Qed.

Lemma step_mono n k s s' : n <= k -> step n s s' -> step k s s'.
Proof. intros ? []. constructor; try done; lia. Qed.

Definition emits A (n : Z) {X} (m : jit G X) (Q : X -> Prop) B : Prop :=
  forall s, wf s -> has A s -> offset_in_text_section s + n <= L ->
    match m s with
    | Ok (x, s') => wf s' /\ has B s' /\ step n s s' /\ Q x
    | Err (Fails _) | Panic => strict = false
    | Err _ => False
    end.

(** Unit-valued code that sets no anchor. *)
Abbreviation plain A n m := (emits A n m (fun _ : unit => True) A).

Lemma emits_mono A n n' {X} (m : jit G X) (Q Q' : X -> Prop) B :
  n <= n' -> (forall x, Q x -> Q' x) -> emits A n m Q B -> emits A n' m Q' B.
Proof.
  intros Hn HQ Hm s Hs Ha Hr. specialize (Hm s Hs Ha ltac:(lia)).
  destruct (m s) as [[x s']|[]|]; try done. destruct Hm as (? & ? & ? & ?).
  split_and!; [done..|by eapply step_mono|by apply HQ].
Qed.

Lemma emits_le A n n' {X} (m : jit G X) (Q : X -> Prop) B : emits A n m Q B -> n <= n' -> emits A n' m Q B.
Proof. intros. by eapply emits_mono. Qed.

Lemma emits_bind A B C n k {X Y} (m : jit G X) (f : X -> jit G Y) Q R :
  0 <= k -> emits A n m Q B -> (forall x, Q x -> emits B k (f x) R C) -> emits A (n + k) (m ≫= f) R C.
Proof.
  intros Hk Hm Hf s Hs Ha Hr. specialize (Hm s Hs Ha ltac:(lia)). unfold mbind, jit_bind.
  destruct (m s) as [[x s']|[]|]; try done. destruct Hm as (Hs' & Ha' & Hst & HQ).
  specialize (Hf x HQ s' Hs' Ha' ltac:(destruct Hst; lia)).
  destruct (f x s') as [[y s'']|[]|]; try done. destruct Hf as (? & ? & ? & ?).
  split_and!; [done..| |done]. eapply step_trans; [apply Hs|done..].
Qed.

(** A computation that only reads. *)
Lemma emits_read A n {X Y} (m : jit G X) (f : X -> jit G Y) R B :
  (forall s, wf s -> has A s -> offset_in_text_section s + n <= L ->
     match m s with
     | Ok (x, s') => s' = s /\ emits A n (f x) R B
     | Err (Fails _) | Panic => strict = false
     | Err _ => False
     end) ->
  emits A n (m ≫= f) R B.
Proof.
  intros Hm s Hs Ha Hr. specialize (Hm s Hs Ha Hr). unfold mbind, jit_bind.
  destruct (m s) as [[x s']|[]|]; try done. destruct Hm as [-> Hf]. by apply Hf.
Qed.

Lemma emits_ret A n {X} (x : X) (Q : X -> Prop) : 0 <= n -> Q x -> emits A n (mret x) Q A.
Proof. intros ? ? s ? ? ?. simpl. split_and!; [done..|by apply step_refl|done]. Qed.

Lemma emits_fails A n e Q B : strict = false -> emits A n (fails e : jit G unit) Q B.
Proof. by intros ? s ? ? ?. Qed.

Lemma emits_lift A n {X Y} (r : result Stop X) (f : X -> jit G Y) R B x :
  r = Ok x -> emits A n (f x) R B -> emits A n (lift r ≫= f) R B.
Proof. intros -> Hf. by apply emits_read. Qed.

Lemma emits_gets A n {X Y} (g : JitCompiler G -> X) (f : X -> jit G Y) R B :
  (forall s, wf s -> emits A n (f (g s)) R B) -> emits A n (gets g ≫= f) R B.
Proof. intros Hf. apply emits_read. intros s Hs _ _. split; [done|by apply Hf]. Qed.

Lemma emits_if A n {X} (b : bool) (m k : jit G X) Q B :
  (b = true -> emits A n m Q B) -> (b = false -> emits A n k Q B) -> emits A n (if b then m else k) Q B.
Proof. destruct b; auto. Qed.

Lemma emits_asserts A n {Y} b (f : unit -> jit G Y) R B :
  b = true -> emits A n (f tt) R B -> emits A n (asserts b ≫= f) R B.
Proof. intros -> Hf. unfold asserts, debug_assert. rewrite andb_false_r. by apply emits_read. Qed.

Lemma emits_for_each A k {X} (f : X -> jit G unit) (l : list X) :
  0 <= k -> Forall (fun x => plain A k (f x)) l -> plain A (k * Z.of_nat (length l)) (for_each f l).
Proof.
  intros Hk. induction 1 as [|x l Hx Hl IH]; simpl; [apply emits_ret; [lia|done]|].
  eapply emits_le; [eapply emits_bind; [|apply Hx|intros; apply IH]|]; lia.
Qed.

Lemma emits_ext A n {X} (m k : jit G X) Q B : (forall s, k s = m s) -> emits A n m Q B -> emits A n k Q B.
Proof. intros Hk Hm s Hs Ha Hr. rewrite Hk. by apply Hm. Qed.

(** ** Writes *)
Lemma wf_append bs s :
  wf s -> offset_in_text_section s + Z.of_nat (length bs) <= L -> wf (append bs s).
Proof.
  intros Hs Hr. destruct Hs. constructor; simpl; try done.
  - rewrite text_len_append; [done|unfold offset_ok; lia|lia].
  - lia.
  - eapply Forall_impl; [done|]. simpl. lia.
  - eapply jumps_in_mono; [done|lia].
Qed.

Lemma step_append bs s :
  wf s -> offset_in_text_section s + Z.of_nat (length bs) <= L ->
  step (Z.of_nat (length bs)) s (append bs s).
Proof.
  intros Hs Hr. destruct Hs. constructor; simpl; [lia| |done..].
  unfold splice. rewrite take_app_le, take_take; [f_equal; lia|]. unfold text_len in *. rewrite length_take. lia.
Qed.

Lemma emits_writes A n bs (m : jit G unit) : writes bs m -> Z.of_nat (length bs) <= n -> plain A n m.
Proof.
  intros Hm Hn s Hs Ha Hr. rewrite (Hm s); [|destruct Hs; unfold offset_ok; lia].
  rewrite (proj2 (Z.leb_le _ _)) by (destruct Hs; lia).
  split_and!; [apply wf_append; [done|lia]|eapply has_later; simpl; [done..|lia]| |done].
  eapply step_mono; [|apply step_append]; [done..|lia].
Qed.

(** One instruction, and perhaps a noop. *)
Lemma emit_ins_result i bs s :
  is_u 8 (opcode i) -> encode (E := Stop) i = Ok bs -> offset_ok s ->
  offset_in_text_section s + Z.of_nat (length bs) + 1 <= text_len s ->
  exists tail z g, (length tail <= 1)%nat /\
    emit_ins cx (Ok i) s = Ok (tt, set_noop z g (append (bs ++ tail) s)).
Proof.
  intros Hop He Hs Hr. unfold emit_ins, mbind, jit_bind, lift, gets, modify.
  rewrite (writes_instruction i bs Hop He s Hs), (proj2 (Z.leb_le _ _)) by lia.
  assert (Hs' : offset_ok (append bs s)).
  { unfold offset_ok in *. rewrite text_len_append by (unfold offset_ok; lia). simpl. lia. }
  destruct (next_noop_insertion (append bs s) =? 0).
  - destruct (sample_inclusive _ _ _) as [z g]. exists [0x90], z, g. split; [simpl; lia|].
    rewrite (writes_emit_byte 0x90 ltac:(done)) by done.
    change (text_len (set_noop z g (append bs s))) with (text_len (append bs s)).
    rewrite text_len_append, (proj2 (Z.leb_le _ _)) by (simpl; done || lia).
    change (append [144] (set_noop z g (append bs s))) with (set_noop z g (append [144] (append bs s))).
    rewrite text_append_append; [done..|]. rewrite length_app. simpl. lia.
  - eexists [], _, _. rewrite app_nil_r. split; [simpl; lia|done].
Qed.

Lemma emits_ins A ins k : 0 <= k -> codes ins k -> plain A (k + 1) (emit_ins cx ins).
Proof.
  intros Hk (i & bs & -> & Hop & He & Hb) s Hs Ha Hr.
  destruct (emit_ins_result i bs s) as (tail & z & g & Ht & ->); try done;
    [destruct Hs; unfold offset_ok; lia|destruct Hs; lia|].
  assert (Hl : Z.of_nat (length (bs ++ tail)) <= k + 1) by (rewrite length_app; lia).
  pose proof (wf_append (bs ++ tail) s Hs ltac:(lia)) as Hw.
  pose proof (step_append (bs ++ tail) s Hs ltac:(lia)) as Hst.
  split_and!; [destruct Hw; by constructor|eapply has_later; simpl; [done..|lia]| |done].
  apply (step_mono _ (k + 1)) in Hst; [|done]. destruct Hst. by constructor.
Qed.

(** [emit_ins] followed by more code. *)
Lemma emits_ins_bind A B ins k n {Y} (f : unit -> jit G Y) R :
  0 <= k -> codes ins k -> emits A n (f tt) R B -> 0 <= n -> emits A (k + 1 + n) (emit_ins cx ins ≫= f) R B.
Proof. intros. eapply emits_bind; [done|by apply emits_ins|by intros []]. Qed.

(** ** Anchors *)
Lemma has_weaken A B s : has A s -> Forall (.∈ A) B -> has B s.
Proof. unfold has. rewrite !Forall_forall. intros Ha HB a Hab. by apply Ha, HB. Qed.

Lemma emits_relative_to_anchor A n k {Y} a (f : Z -> jit G Y) R B :
  0 < T -> 0 <= k <= n -> a ∈ A -> (forall d, emits A n (f d) R B) ->
  emits A n (relative_to_anchor a k ≫= f) R B.
Proof.
  intros HT Hk Hin Hf. apply emits_read. intros s Hs Ha Hr. destruct Hs as [Ht Ho Hp].
  unfold relative_to_anchor, text_add. rewrite Ht.
  rewrite (proj2 (Z.leb_le 0 _)), (proj2 (Z.leb_le _ L)) by lia. simpl.
  apply (proj1 (Forall_forall _ _) Ha) in Hin as (d & -> & Hd). simpl.
  unfold debug_assert. rewrite (proj2 (Z.eqb_neq d 0)), andb_false_r by lia. simpl.
  unfold offset_from. rewrite Ht, Hp, !(proj2 (Z.leb_le _ _)) by lia. simpl. split; [done|apply Hf].
Qed.

Lemma emits_set_anchor A n {Y} a (f : unit -> jit G Y) R B :
  0 <= a < ANCHOR_COUNT -> 1 <= n -> emits (a :: A) n (f tt) R B -> emits A n (set_anchor a ≫= f) R B.
Proof.
  intros Hrange Hn Hf s Hs Ha Hr. unfold mbind, jit_bind, set_anchor, text_add.
  pose proof Hs as Hw. destruct Hw as [Ht Ho Hp].
  rewrite Ht, Hp, !(proj2 (Z.leb_le _ _)) by lia. simpl.
  unfold set at 1. rewrite (proj2 (Z.leb_le 0 _)), (proj2 (Z.ltb_lt _ _)) by (rewrite ?wf_anchors0; lia). simpl.
  match goal with |- context [f tt ?k] => specialize (Hf k) end.
  match type of Hf with wf ?k -> has _ ?k -> _ => assert (Hw : wf k); [|assert (Ha' : has (a :: A) k)] end.
  - constructor; simpl; try done. by rewrite length_insert.
  - constructor.
    + exists (T + offset_in_text_section s). split; [|simpl; lia]. unfold get. simpl.
      rewrite (proj2 (Z.ltb_ge _ _)) by lia. apply list_lookup_insert_eq. lia.
    + eapply Forall_impl; [exact Ha|]. intros b (d & Hd & Hrd). unfold get in *. simpl.
      destruct (b <? 0); [done|]. destruct (decide (Z.to_nat a = Z.to_nat b)) as [E|E].
      * rewrite <- E, list_lookup_insert_eq by lia. exists (T + offset_in_text_section s). split; [done|lia].
      * rewrite list_lookup_insert_ne by done. eauto.
  - specialize (Hf Hw Ha' Hr). destruct (f tt _) as [[x s']|[]|]; try done.
    destruct Hf as (? & ? & [] & ?). split_and!; [done..|by constructor|done].
Qed.

(** ** Jumps to guest instructions *)
Lemma get_entry t s :
  wf s -> 0 <= t < N -> exists e, get (pc_section (jit_result s)) t = Some e /\ 0 <= e <= offset_in_text_section s.
Proof.
  intros [] Ht. destruct (get_Some (pc_section (jit_result s)) t) as [e He]; [lia|].
  exists e. split; [done|]. unfold get in He. destruct (t <? 0); [done|]. exact (Forall_lookup_1 _ _ _ _ wf_entries0 He).
Qed.

Lemma code_address_ok s e : wf s -> L <= 2 ^ 31 -> 0 <= e < L -> code_address s e = Ok (T + e).
Proof.
  intros [] HL He. unfold code_address.
  replace (Z.land e i32_max) with e
    by (change i32_max with (2 ^ 31 - 1); rewrite land_ones_mod, Z.mod_small by lia; done).
  destruct (get_Some (text_section (jit_result s)) e) as [x ->]; [unfold text_len in *; lia|].
  simpl. by rewrite wf_text_ptr0.
Qed.

Lemma wf_set_jump s tail t ilen :
  wf s -> 4 <= ilen <= Z.of_nat (length tail) -> 0 <= t < N ->
  offset_in_text_section s + Z.of_nat (length tail) <= L ->
  wf (set_jumps (text_section_jumps s ++ [mkJump (T + (offset_in_text_section s + ilen) - 4) t]) (append tail s)).
Proof.
  intros Hs Hi Ht Hr. pose proof (wf_append tail s Hs Hr) as Hw. destruct Hs, Hw. constructor; try done; simpl in *.
  - eapply jumps_in_app; [exact wf_jumps0|]. simpl. lia.
  - apply Forall_app. split; [done|]. by apply Forall_singleton.
Qed.

(** The displacement of a jump of [ilen] bytes is computed or, for a target
    that has no code yet, noted for [resolve_jumps]. *)
Lemma emits_target A t ilen (mk : Z -> X86Instruction) :
  L <= 2 ^ 31 -> 4 <= ilen -> (strict = true -> 0 <= t < N) ->
  (forall d, is_u 8 (opcode (mk d)) /\
     exists bs, encode (E := Stop) (mk d) = Ok bs /\ Z.of_nat (length bs) = ilen) ->
  plain A (ilen + 1) (relative_to_target_pc t ilen ≫= fun d => emit_ins cx (Ok (mk d))).
Proof.
  intros HL Hi Ht Hmk s Hs Ha Hr. unfold mbind, jit_bind, relative_to_target_pc, text_add.
  pose proof Hs as Hw. destruct Hw as [Htl Ho Hp].
  rewrite Htl, Hp, !(proj2 (Z.leb_le _ _)) by lia. simpl.
  destruct (get (pc_section (jit_result s)) t) as [e|] eqn:He; simpl.
  2:{ destruct strict; [|done]. destruct (get_entry t s Hs (Ht eq_refl)) as (? & ? & _). congruence. }
  assert (Htr : 0 <= t < N) by (apply get_Some_lt in He; lia).
  destruct (get_entry t s Hs Htr) as (e' & He' & Hel). simplify_eq.
  destruct (Z.eqb_spec e 0) as [->|Hne]; simpl.
  - destruct (Hmk 0) as [Hop (bs & Henc & Hlen)].
    destruct (emit_ins_result (mk 0) bs (set_jumps (text_section_jumps s ++
        [mkJump (T + (offset_in_text_section s + ilen) - 4) t]) s))
      as (tail & z & g & Htail & ->); [done|done|unfold offset_ok|..];
      try (change (text_len (set_jumps _ s)) with (text_len s); simpl; lia).
    assert (Hl : Z.of_nat (length (bs ++ tail)) <= ilen + 1) by (rewrite length_app; lia).
    pose proof (step_append (bs ++ tail) s Hs ltac:(lia)) as Hst.
    pose proof (wf_set_jump s (bs ++ tail) t ilen Hs ltac:(rewrite length_app; lia) Htr ltac:(lia)) as Hw.
    split_and!; [destruct Hw; by constructor|eapply has_later; simpl; [done..|lia]| |done].
    apply (step_mono _ (ilen + 1)) in Hst; [|done]. destruct Hst. by constructor.
  - rewrite (code_address_ok s e) by (done || lia). simpl. unfold offset_from.
    rewrite Htl, !(proj2 (Z.leb_le _ _)) by lia. simpl.
    destruct (Hmk (as_i 32 (T + e -
       (T + (offset_in_text_section s + ilen))))) as [Hop (bs & Henc & Hlen)].
    eapply (emits_ins A _ ilen); [lia| |done|done|done]. eexists _, bs. split_and!; [done..|lia].
Qed.
End Logic.
