(* ===== verification/JitMethodFacts.v ===== *)
(** * What each method of the production JIT compiler emits

    For every method that generates code, the number of bytes it may write and
    the anchors it needs, in the logic of [JitEmitFacts].  Noops between the
    instructions are counted: an instruction of [k] bytes takes [k + 1]. *)

From stdpp Require Import strings.
From S2P Require Import Prelude Ebpf Program Verifier Error Vm X86 PageAllocator JitProgram.
From S2P Require Import X86Emit X86EmitFacts JitCompiler JitEmitFacts.

Lemma is_i_32 z : is_i 32 z <-> i32_min <= z <= i32_max.
Proof. unfold is_i, i32_min, i32_max. change (32 - 1) with 31. lia. Qed.

Create HintDb emits.
#[export] Hint Constants Opaque : emits.

Section Methods.
Context {V G : Type} `{Profile, ByteOrder, SmallRng G, HostLaws V} (cx : JitEnv V).
Context (L N T : Z) (P : Z * Z * Z) (strict : bool).
Implicit Types (A B : list Z).

(** The sections are small enough for 32-bit displacements and pcs, and the
    key leaves room for the slots. *)
Context (HT : 0 < T) (HL : L <= 2 ^ 31) (HN : 0 <= N < 2 ^ 31).
Context (Hkey : is_i 31 (runtime_environment_key cx)).

Abbreviation emits := (JitEmitFacts.emits (G := G) L N T P strict).
Abbreviation plain A n m := (emits A n m (fun _ : unit => True) A).
Abbreviation wf := (JitEmitFacts.wf (G := G) L N T P).

(** ** Rules that count down *)
Lemma emits_seq A n k {Y} (m : jit G unit) (f : unit -> jit G Y) R B :
  plain A k m -> k <= n -> emits A (n - k) (f tt) R B -> emits A n (m ≫= f) R B.
Proof.
  intros Hm Hk Hf. replace n with (k + (n - k)) by lia.
  eapply emits_bind; [lia|exact Hm|by intros []].
Qed.

Lemma emits_seq_ins A n k {Y} ins (f : unit -> jit G Y) R B :
  codes ins k -> 0 <= k -> k + 1 <= n -> emits A (n - (k + 1)) (f tt) R B ->
  emits A n (emit_ins cx ins ≫= f) R B.
Proof. intros Hi Hk Hn Hf. eapply emits_seq; [by apply emits_ins|done..]. Qed.

Lemma emits_last_ins A n k ins : codes ins k -> 0 <= k -> k + 1 <= n -> plain A n (emit_ins cx ins).
Proof. intros Hi Hk Hn. eapply emits_le; [by apply emits_ins|done]. Qed.

Lemma emits_slot A n {Y} slot (f : Z -> jit G Y) R B :
  (forall o, - 2 ^ 30 <= o <= 2 ^ 30 + 2 ^ 16 -> emits A n (f o) R B) ->
  emits A n (slot_in_vm cx slot ≫= f) R B.
Proof.
  intros Hf. unfold slot_in_vm. pose proof (slot_offset_range slot) as Hr.
  unfold is_i in Hkey. change (31 - 1) with 30 in Hkey.
  eapply emits_lift; [|apply (Hf (slot_offset slot - runtime_environment_key cx)); lia].
  unfold arith_i32, i32_min, i32_max. rewrite !(proj2 (Z.leb_le _ _)) by lia. done.
Qed.

(** A checked operation that may panic unless [strict]. *)
Lemma emits_arith A n {Y} z (f : Z -> jit G Y) R B :
  (strict = true -> is_i 64 z) -> (forall x, (strict = true -> x = z) -> emits A n (f x) R B) ->
  emits A n (lift (arith_i64 z) ≫= f) R B.
Proof.
  intros Hz Hf. apply emits_read. intros s Hs _ _. unfold lift.
  destruct (arith_i64 (E := Stop) z) as [x|e|] eqn:Ha.
  - split; [done|]. apply Hf. intros Hst. rewrite arith_i64_ok in Ha by auto. by simplify_eq.
  - unfold arith_i64 in Ha. repeat case_match; done.
  - destruct strict; [|done]. rewrite arith_i64_ok in Ha by auto. done.
Qed.
Lemma emits_arith_u A n {Y} z (f : Z -> jit G Y) R B :
  (strict = true -> is_u 64 z) -> (forall x, (strict = true -> x = z) -> emits A n (f x) R B) ->
  emits A n (lift (arith_u64 z) ≫= f) R B.
Proof.
  intros Hz Hf. apply emits_read. intros s Hs _ _. unfold lift.
  destruct (arith_u64 (E := Stop) z) as [x|e|] eqn:Ha.
  - split; [done|]. apply Hf. intros Hst. rewrite arith_u64_ok in Ha by auto. by simplify_eq.
  - unfold arith_u64 in Ha. repeat case_match; done.
  - destruct strict; [|done]. rewrite arith_u64_ok in Ha by auto. done.
Qed.

Lemma emits_validation A n {Y} (g : JitCompiler G -> Z) (f : unit -> jit G Y) R B :
  (forall s, wf s -> 0 <= g s <= N) -> emits A n (f tt) R B ->
  emits A n (modify (fun s => set_validation_pc (g s) s) ≫= f) R B.
Proof.
  intros Hpc Hf s Hs Ha Hr. unfold mbind, jit_bind, modify. specialize (Hpc s Hs).
  specialize (Hf (set_validation_pc (g s) s)).
  assert (Hs' : wf (set_validation_pc (g s) s)) by (destruct Hs; by constructor).
  specialize (Hf Hs' Ha Hr). destruct (f tt _) as [[x s']|[]|]; try done.
  destruct Hf as (? & ? & [] & ?). split_and!; [done..|by constructor|done].
Qed.
End Methods.

(** Normalises the count of the goal. *)
Ltac emits_norm :=
  match goal with
  | |- JitEmitFacts.emits _ _ _ _ _ _ ?n _ _ _ => let n' := eval vm_compute in n in change n with n'
  end.
(** One step of the code: an instruction, a known method, a read. *)
Ltac emits_step :=
  lazymatch goal with
  | |- JitEmitFacts.emits _ _ _ _ _ _ _ (emit_ins _ _ ≫= _) _ _ =>
      eapply emits_seq_ins; [solve [eauto with codes]|done|done|emits_norm]
  | |- JitEmitFacts.emits _ _ _ _ _ _ _ (emit_ins _ _) _ _ =>
      eapply emits_last_ins; [solve [eauto with codes]|done|done]
  | |- JitEmitFacts.emits _ _ _ _ _ _ _ (set_anchor _ ≫= _) _ _ =>
      eapply emits_set_anchor; [split; done|done|]
  | |- JitEmitFacts.emits _ _ _ _ _ _ _ (slot_in_vm _ _ ≫= _) _ _ =>
      apply emits_slot; [done|intros ? ?]
  | |- JitEmitFacts.emits _ _ _ _ _ _ _ (asserts _ ≫= _) _ _ => apply emits_asserts; [done|]
  | |- JitEmitFacts.emits _ _ _ _ _ _ _ (gets _ ≫= _) _ _ =>
      apply emits_gets; let s := fresh "s" in let Hs := fresh "Hs" in intros s Hs
  | |- JitEmitFacts.emits _ _ _ _ _ _ _ (mret _) _ _ => apply emits_ret; done
  | |- JitEmitFacts.emits _ _ _ _ _ _ _ (if _ then _ else _) _ _ => apply emits_if; intros ?
  | |- JitEmitFacts.emits _ _ _ _ _ _ _ (_ ≫= _) _ _ =>
      eapply emits_seq; [solve [eauto with emits]|done|emits_norm]
  | |- JitEmitFacts.emits _ _ _ _ _ _ _ _ _ _ => eapply emits_le; [solve [eauto with emits]|done]
  end.
Ltac emits_tac := repeat emits_step.
(** A block of at most [k] bytes in front of more code. *)
Ltac emits_block k := eapply (emits_seq _ _ _ _ _ _ _ k); [|done|emits_norm].

(** The jumps have exactly the length their displacements are computed for. *)
Lemma encode_exact `{Profile} (i : X86Instruction) (n : nat) :
  size_eqb (size i) S0 = false -> modrm i = false ->
  length (default [] (match encode (E := Stop) (H := {| debug_assertions := false |}) i with Ok bs => Some bs | _ => None end)) = n ->
  exists bs, encode (E := Stop) i = Ok bs /\ Z.of_nat (length bs) = Z.of_nat n.
Proof.
  intros Hs Hm Hl. unfold encode, encode_operands, debug_assert in *. rewrite Hs, Hm in *.
  cbn [negb] in *. rewrite andb_false_r. cbn in *. eexists. split; [reflexivity|]. by f_equal.
Qed.

(** An anchor among those known to be set. *)
Ltac solve_anchor :=
  solve [repeat first [assumption | apply list_elem_of_here | apply list_elem_of_further]].

Section Emitters.
Context {V G : Type} `{Profile, ByteOrder, SmallRng G, HostLaws V} (cx : JitEnv V).
Context (L N T : Z) (P : Z * Z * Z) (strict : bool).
Context (HT : 0 < T) (HL : L <= 2 ^ 31) (HN : 0 <= N < 2 ^ 31).
Context (Hkey : is_i 31 (runtime_environment_key cx)).
Implicit Types (A B : list Z) (sz : OperandSize) (r : X86Register).

Abbreviation emits := (JitEmitFacts.emits (G := G) L N T P strict).
Abbreviation plain A n m := (emits A n m (fun _ : unit => True) A).

(** ** Constants *)
Lemma emits_sanitized_load_i32 A r v :
  is_i 32 v -> plain A 19 (emit_sanitized_load_immediate cx r v).
Proof.
  intros [Hlo%Z.leb_le Hhi%Z.leb_le]%is_i_32. unfold emit_sanitized_load_immediate.
  rewrite Hlo, Hhi. cbn [andb]. emits_tac.
Qed.
Lemma emits_sanitized_load A r v : plain A 32 (emit_sanitized_load_immediate cx r v).
Proof. unfold emit_sanitized_load_immediate. emits_tac. Qed.
#[local] Hint Resolve emits_sanitized_load emits_sanitized_load_i32 : emits.

Lemma emits_load_constant A r x v : plain A 32 (emit_load_constant cx r x v).
Proof. unfold emit_load_constant. emits_tac. Qed.
#[local] Hint Resolve emits_load_constant : emits.

Lemma emits_sanitized_alu A sz op ext r v :
  wide sz -> is_u 8 op -> plain A 36 (emit_sanitized_alu cx sz op ext r v).
Proof. intros Hsz Hop. unfold emit_sanitized_alu. emits_tac. Qed.

(** ** Anchors *)
Lemma emits_call_anchor A a : a ∈ A -> plain A 6 (emit_call_anchor cx a).
Proof.
  intros Ha. apply emits_relative_to_anchor; [done|lia|done|]. intros d. emits_tac.
Qed.
Lemma emits_jump_anchor A a : a ∈ A -> plain A 6 (emit_jump_anchor cx a).
Proof.
  intros Ha. apply emits_relative_to_anchor; [done|lia|done|]. intros d. emits_tac.
Qed.
Lemma emits_branch_anchor A op a : a ∈ A -> is_u 8 op -> plain A 7 (emit_branch_anchor cx op a).
Proof.
  intros Ha Hop. apply emits_relative_to_anchor; [done|lia|done|]. intros d. emits_tac.
Qed.
Lemma emits_load_pc A : plain A 11 (emit_load_pc cx).
Proof. unfold emit_load_pc. emits_tac. Qed.


(** ** Jumps *)
Lemma emits_jcc_target A op t :
  is_u 8 op -> (strict = true -> 0 <= t < N) -> plain A 7 (emit_conditional_jump cx op t).
Proof.
  intros Hop Ht. apply (emits_target cx L N T P strict A t 6); [done|lia|done|].
  intros d. split; [done|]. by apply (encode_exact _ 6).
Qed.
Lemma emits_jump_target A t :
  (strict = true -> 0 <= t < N) ->
  plain A 6 (jump_offset ← relative_to_target_pc t 5; emit_ins cx (Ok (jump_immediate jump_offset))).
Proof.
  intros Ht. apply (emits_target cx L N T P strict A t 5 jump_immediate); [done|lia|done|].
  intros d. split; [done|]. by apply (encode_exact _ 5).
Qed.
Lemma emits_call_target A t :
  (strict = true -> 0 <= t < N) ->
  plain A 6 (jump_offset ← relative_to_target_pc t 5; emit_ins cx (Ok (call_immediate jump_offset))).
Proof.
  intros Ht. apply (emits_target cx L N T P strict A t 5 call_immediate); [done|lia|done|].
  intros d. split; [done|]. by apply (encode_exact _ 5).
Qed.
#[local] Hint Resolve emits_sanitized_alu emits_call_anchor emits_jump_anchor emits_branch_anchor
  emits_load_pc emits_jcc_target emits_jump_target emits_call_target : emits.
#[local] Hint Resolve wide_32 wide_64 : emits.
#[local] Hint Extern 2 (is_u 8 _) => done : emits.
#[local] Hint Extern 3 (_ ∈ _) => solve_anchor : emits.

(** ** Instruction meter *)
Lemma emits_validate A pc :
  ANCHOR_THROW_EXCEEDED_MAX_INSTRUCTIONS ∈ A -> 0 <= pc <= N ->
  plain A 30 (emit_validate_instruction_count cx (Some pc)).
Proof.
  intros Ha Hpc. unfold emit_validate_instruction_count. emits_step; [emits_tac|].
  emits_block 19; [|emits_tac].
  apply (emits_validation L N T P strict A _ (fun _ => pc)); [done|].
  apply emits_sanitized_load_i32. rewrite as_i_small; [|done|]; unfold is_i; change (2 ^ (32 - 1)) with (2 ^ 31); lia.
Qed.
Lemma emits_validate_none A :
  ANCHOR_THROW_EXCEEDED_MAX_INSTRUCTIONS ∈ A -> plain A 11 (emit_validate_instruction_count cx None).
Proof.
  intros Ha. unfold emit_validate_instruction_count. emits_step; [emits_tac|].
  emits_block 0; emits_tac.
Qed.
Lemma emits_profile A t :
  (strict = true -> 0 <= t <= N + 1) -> plain A 36 (emit_profile_instruction_count cx t).
Proof.
  intros Ht. unfold emit_profile_instruction_count. emits_step; [emits_tac|]. emits_step.
  destruct Hs as [_ _ _ _ _ _ Hpc _ _ _ _].
  apply emits_arith.
  { intros Hst. specialize (Ht Hst). rewrite !as_i_small; unfold is_i; try lia. }
  intros x Hx. apply emits_arith; [|intros; emits_tac].
  intros Hst. specialize (Ht Hst). rewrite (Hx Hst), !as_i_small; unfold is_i; lia.
Qed.
Lemma emits_undo_profile A t :
  (strict = true -> 0 <= t <= N) -> plain A 36 (emit_undo_profile_instruction_count cx t).
Proof.
  intros Ht. unfold emit_undo_profile_instruction_count. emits_step; [|emits_tac]. emits_step.
  destruct Hs as [_ _ _ _ _ _ Hpc _ _ _ _].
  apply emits_arith.
  { intros Hst. rewrite !as_i_small; unfold is_i; lia. }
  intros x Hx. apply emits_arith; [|intros; emits_tac].
  intros Hst. specialize (Ht Hst). rewrite (Hx Hst), !as_i_small; unfold is_i; lia.
Qed.
#[local] Hint Resolve emits_validate emits_validate_none emits_profile emits_undo_profile : emits.

Lemma emits_validate_and_profile A t :
  ANCHOR_THROW_EXCEEDED_MAX_INSTRUCTIONS ∈ A -> (strict = true -> 0 <= t <= N + 1) ->
  plain A 66 (emit_validate_and_profile_instruction_count cx t).
Proof.
  intros Ha Ht. unfold emit_validate_and_profile_instruction_count. emits_step.
  pose proof (wf_pc _ _ _ _ _ Hs). emits_tac.
Qed.
#[local] Hint Resolve emits_validate_and_profile : emits.

(** ** Calls *)

(** The arguments the compiler passes: in registers, and not from the user. *)
Definition argument_ok (a : Argument) : Prop :=
  0 <= index a < 6 /\
  match argument_value a with
  | Register _ => True
  | RegisterIndirect r _ u | RegisterPlusConstant32 r _ u => u = false /\ (r = RSP \/ plain_base r)
  | RegisterPlusConstant64 _ _ u | Constant64 _ u => u = false
  end.

Lemma emits_argument A a : argument_ok a -> plain A 15 (emit_argument cx a).
Proof.
  intros [Hi Hv]. unfold emit_argument. change (Z.of_nat (length ARGUMENT_REGISTERS)) with 6.
  rewrite (proj2 (Z.leb_gt 6 (index a))) by lia.
  destruct (get_Some ARGUMENT_REGISTERS (index a)) as [d Hd]; [done|].
  eapply emits_lift; [by rewrite Hd|].
  destruct (argument_value a) as [r|r o u|r o u|r o u|v u]; [emits_tac|..].
  - destruct Hv as [-> Hr]. emits_step. destruct (bool_decide (r = RSP)) eqn:E.
    + apply bool_decide_eq_true in E as ->. emits_tac.
    + apply bool_decide_eq_false in E. destruct Hr; [done|]. emits_tac.
  - destruct Hv as [-> Hr]. emits_step. destruct (bool_decide (r = RSP)) eqn:E.
    + apply bool_decide_eq_true in E as ->. emits_tac.
    + apply bool_decide_eq_false in E. destruct Hr; [done|]. emits_tac.
  - subst u. emits_tac.
  - subst u. emits_tac.
Qed.

Lemma emits_pushes A l : plain A (3 * Z.of_nat (length l)) (for_each (fun r => emit_ins cx (Ok (push r None))) l).
Proof. apply emits_for_each; [done|]. apply Forall_true. intros r. emits_tac. Qed.
Lemma emits_pops A l : plain A (3 * Z.of_nat (length l)) (for_each (fun r => emit_ins cx (Ok (pop r))) l).
Proof. apply emits_for_each; [done|]. apply Forall_true. intros r. emits_tac. Qed.

(** At most six arguments, called through a register or a fixed address. *)
Lemma emits_rust_call A target arguments n :
  (match target with Register _ => True | Constant64 _ u => u = false | _ => False end) ->
  (length arguments <= 6)%nat -> Forall argument_ok arguments ->
  77 + 15 * Z.of_nat (length arguments) <= n ->
  plain A n (emit_rust_call cx target arguments None).
Proof.
  intros Ht Hl Ha Hn. eapply emits_le; [|exact Hn]. clear n Hn.
  unfold emit_rust_call. change (Z.of_nat (length ARGUMENT_REGISTERS)) with 6.
  assert (Hz : saturating_sub_u64 (Z.of_nat (length arguments)) 6 = 0) by (unfold saturating_sub_u64; lia).
  rewrite Hz. clear Hz.
  eapply emits_seq; [apply (emits_pushes A CALLER_SAVED_REGISTERS)|simpl; lia|].
  eapply (emits_seq _ _ _ _ _ _ _ 0); [emits_tac|simpl; lia|].
  eapply emits_seq; [apply (emits_for_each _ _ _ _ _ A 15); [done|]|simpl; lia|].
  { eapply Forall_impl; [exact Ha|]. intros a. apply emits_argument. }
  match goal with |- JitEmitFacts.emits _ _ _ _ _ _ ?n _ _ _ => replace n with 50 by (simpl; lia) end.
  emits_block 15; [destruct target; try done; [emits_tac|subst; emits_tac]|].
  emits_block 0; [emits_tac|].
  emits_step. eapply emits_le; [apply (emits_pops A (rev CALLER_SAVED_REGISTERS))|done].
Qed.

Lemma emits_internal_call A dst :
  ANCHOR_INTERNAL_FUNCTION_CALL_PROLOGUE ∈ A -> ANCHOR_INTERNAL_FUNCTION_CALL_REG ∈ A ->
  (match dst with
   | Register _ => True
   | Constant64 t u => u = true /\ (strict = true -> 0 <= as_u 64 t < N)
   | _ => False
   end) ->
  plain A 142 (emit_internal_call cx dst).
Proof.
  intros Ha Hr Hd. unfold emit_internal_call. emits_step.
  apply (emits_validation L N T P strict A _ (fun s => jit_pc s)); [intros s Hs; apply Hs|].
  emits_step. emits_block 74.
  - destruct dst as [r| | | |t u]; try done; [emits_tac|].
    destruct Hd as [-> Hd]. emits_step.
    eapply emits_seq; [apply emits_profile; intros Hst; specialize (Hd Hst); lia|done|emits_norm].
    emits_block 32; [emits_tac|]. by apply emits_call_target.
  - eapply emits_seq; [apply emits_undo_profile; lia|done|emits_norm].
    emits_step. eapply emits_le; [apply (emits_pops A (rev scratch_registers))|done].
Qed.
#[local] Hint Resolve emits_internal_call : emits.

Lemma emits_external_call A function :
  ANCHOR_THROW_EXCEEDED_MAX_INSTRUCTIONS ∈ A -> ANCHOR_EXTERNAL_FUNCTION_CALL ∈ A ->
  plain A 119 (emit_external_call cx function).
Proof.
  intros Ha He. unfold emit_external_call.
  eapply emits_seq; [apply emits_validate_and_profile; [done|lia]|done|emits_norm].
  do 2 emits_step. apply emits_undo_profile. lia.
Qed.

(** ** Memory accesses *)
Definition len_ok (len : Z) : Prop := len ∈ [1; 2; 4; 8].

Lemma emits_address_translation A dst r off len value :
  len_ok len ->
  (match value with
   | None => bool_decide (is_Some dst) = true
   | Some (Register _) | Some (Constant64 _ true) => dst = None
   | _ => False
   end) ->
  ANCHOR_TRANSLATE_MEMORY_ADDRESS +
    match value with Some (Register _) => 4 | Some (Constant64 _ _) => 8 | _ => 0 end + trailing_zeros len ∈ A ->
  plain A 84 (emit_address_translation cx dst (RegisterPlusConstant64 r off true) len value).
Proof.
  intros Hlen Hv Ha. unfold emit_address_translation, stack_slot_of_value_to_store.
  apply emits_asserts.
  { destruct value as [[]|], dst; try done; by destruct user_provided. }
  emits_block 21.
  { destruct value as [[| | | |c u]|]; try done; [emits_tac| |emits_tac].
    destruct u; [|done]. emits_tac. }
  emits_block 36; [emits_block 32; emits_tac|].
  emits_step.
  - emits_step. emits_step. emits_step. destruct dst; emits_tac.
  - assert (Hsz : exists sz, operand_size_of_len len = Some sz /\ sz <> S0).
    { unfold len_ok in Hlen. repeat (apply elem_of_cons in Hlen as [->|Hlen]; [by eexists|]).
      by apply elem_of_nil in Hlen. }
    destruct Hsz as (sz & Hsz & Hne). eapply emits_lift; [by rewrite Hsz|].
    destruct dst; emits_tac.
Qed.

(** ** Branches *)
Lemma emits_branch_reg A sz op bitwise a b t :
  ANCHOR_THROW_EXCEEDED_MAX_INSTRUCTIONS ∈ A -> wide sz -> is_u 8 op -> (strict = true -> 0 <= t < N) ->
  plain A 113 (emit_conditional_branch_reg cx sz op bitwise a b t).
Proof.
  intros Ha Hsz Hop Ht. unfold emit_conditional_branch_reg.
  assert (Ht' : strict = true -> 0 <= t <= N) by (intros Hst; specialize (Ht Hst); lia).
  assert (Ht'' : strict = true -> 0 <= t <= N + 1) by (intros Hst; specialize (Ht Hst); lia).
  emits_step. emits_block 4; emits_tac.
Qed.
Lemma emits_branch_imm A sz op bitwise v b t :
  ANCHOR_THROW_EXCEEDED_MAX_INSTRUCTIONS ∈ A -> wide sz -> is_u 8 op -> (strict = true -> 0 <= t < N) ->
  plain A 145 (emit_conditional_branch_imm cx sz op bitwise v b t).
Proof.
  intros Ha Hsz Hop Ht. unfold emit_conditional_branch_imm.
  assert (Ht' : strict = true -> 0 <= t <= N) by (intros Hst; specialize (Ht Hst); lia).
  assert (Ht'' : strict = true -> 0 <= t <= N + 1) by (intros Hst; specialize (Ht Hst); lia).
  emits_step. emits_block 36; emits_tac.
Qed.

(** ** Shifts, products, quotients and remainders *)
Lemma emits_shift A sz ext a b v : wide sz -> plain A 22 (emit_shift cx sz ext a b v).
Proof.
  intros Hsz. unfold emit_shift. destruct v; [emits_tac|].
  emits_block 4; [destruct Hsz as [-> | ->]|]; emits_tac.
Qed.

Lemma emits_division_checks A sz signed a b v :
  ANCHOR_DIV_BY_ZERO ∈ A -> ANCHOR_DIV_OVERFLOW ∈ A -> wide sz ->
  plain A 88 (emit_division_checks cx sz signed a b v).
Proof.
  intros Hz Ho Hsz. unfold emit_division_checks. emits_block 22; [emits_tac|].
  emits_step; [|emits_tac]. do 2 emits_step. emits_block 33; emits_tac.
Qed.
#[local] Hint Resolve emits_division_checks : emits.

Lemma emits_pqr A sz alt division signed a b v :
  ANCHOR_DIV_BY_ZERO ∈ A -> ANCHOR_DIV_OVERFLOW ∈ A -> wide sz ->
  plain A 159 (emit_product_quotient_remainder cx sz alt division signed a b v).
Proof.
  intros Hz Ho Hsz. unfold emit_product_quotient_remainder.
  emits_block 88; [emits_tac|].
  emits_block 32; [destruct v; emits_tac|].
  emits_block 7; [emits_tac|].
  emits_block 3; [emits_tac|].
  emits_block 4; [emits_tac|].
  emits_block 4; [eapply emits_last_ins; [apply codes_alu_f7; [done|by destruct division, signed]|done..]|].
  emits_block 7; [emits_step; [emits_block 4|]; emits_tac|].
  emits_block 7; [emits_step; [emits_block 4|]; emits_tac|].
  unfold sign_extend. destruct Hsz as [-> | ->]; emits_tac.
Qed.

(** ** Subroutines *)
Lemma emits_set_exception A e : plain A 32 (emit_set_exception_kind cx e).
Proof. unfold emit_set_exception_kind. emits_tac. Qed.
Lemma emits_result_is_err A : plain A 20 (emit_result_is_err cx REGISTER_SCRATCH).
Proof. unfold emit_result_is_err. emits_tac. Qed.
#[local] Hint Resolve emits_set_exception emits_result_is_err : emits.

(** The anchor of the tracing routine exists when registers are traced. *)
Definition trace_anchor : list Z :=
  if enable_register_tracing (jit_config cx) then [ANCHOR_TRACE] else [].

Ltac solve_arguments :=
  repeat (apply Forall_cons; split); try apply Forall_nil; repeat split; simpl; try done; first [by left | by right].
Ltac rust_call :=
  eapply emits_rust_call; [done|simpl; lia|solve_arguments|simpl; lia].

Lemma emits_trace_routine A :
  emits A 180 (emit_trace_routine cx) (fun _ => True) (trace_anchor ++ A).
Proof.
  unfold emit_trace_routine, trace_anchor. destruct (enable_register_tracing _); [|emits_tac].
  do 2 emits_step. emits_block 33; [apply (emits_pushes _ (rev REGISTER_MAP))|].
  do 3 emits_step. emits_block 107; [rust_call|]. emits_tac.
Qed.

Lemma emits_epilogue A : emits A 151 (emit_epilogue cx) (fun _ => True) (ANCHOR_EPILOGUE :: A).
Proof.
  unfold emit_epilogue. emits_step. emits_block 33; [emits_tac|]. emits_step.
  emits_block 107; [emits_step; [do 2 emits_step; rust_call|emits_tac]|]. emits_tac.
Qed.

Lemma emits_exits A :
  ANCHOR_EPILOGUE ∈ A ->
  emits A 103 (emit_exits cx) (fun _ => True)
    (ANCHOR_THROW_EXCEPTION :: ANCHOR_EXIT :: ANCHOR_THROW_EXCEPTION_UNCHECKED
     :: ANCHOR_THROW_EXCEEDED_MAX_INSTRUCTIONS :: A).
Proof.
  intros Ha. unfold emit_exits. do 5 emits_step.
  eapply emits_lift; [unfold arith_i32, i32_min, i32_max; rewrite !(proj2 (Z.leb_le _ _)) by lia; done|].
  do 3 emits_step. emits_block 8; emits_tac.
Qed.

Lemma emits_handler A a e :
  0 <= a < ANCHOR_COUNT -> ANCHOR_THROW_EXCEPTION ∈ A ->
  emits A 38 (emit_handler cx a e) (fun _ => True) (a :: A).
Proof.
  intros Hr Ha. unfold emit_handler. eapply emits_set_anchor; [done..|]. emits_tac.
Qed.

(** Code that sets anchors, followed by more. *)
Lemma emits_seq_to A B C n k {Y} (m : jit G unit) (f : unit -> jit G Y) R :
  emits A k m (fun _ => True) B -> k <= n -> emits B (n - k) (f tt) R C -> emits A n (m ≫= f) R C.
Proof.
  intros Hm Hk Hf. replace n with (k + (n - k)) by lia.
  eapply emits_bind; [lia|exact Hm|by intros []].
Qed.
Ltac emits_to lem := eapply emits_seq_to; [eapply lem; first [done | solve_anchor]|done|emits_norm].

Lemma emits_handlers A :
  ANCHOR_THROW_EXCEPTION ∈ A -> (enable_register_tracing (jit_config cx) = true -> ANCHOR_TRACE ∈ A) ->
  emits A 219 (emit_handlers cx) (fun _ => True)
    (ANCHOR_CALL_UNSUPPORTED_INSTRUCTION :: ANCHOR_CALL_REG_UNSUPPORTED_INSTRUCTION
     :: ANCHOR_DIV_OVERFLOW :: ANCHOR_DIV_BY_ZERO :: ANCHOR_CALL_REG_OUTSIDE_TEXT_SEGMENT
     :: ANCHOR_CALL_DEPTH_EXCEEDED :: A).
Proof.
  intros Ha Htr. unfold emit_handlers. emits_to emits_handler. do 4 emits_step.
  do 2 emits_to emits_handler. do 4 emits_step.
  emits_block 6; [|emits_tac]. emits_step; [|emits_tac]. apply emits_call_anchor.
  do 6 apply list_elem_of_further. auto.
Qed.

Lemma emits_external_routine A :
  ANCHOR_EPILOGUE ∈ A ->
  emits A 244 (emit_external_call_routine cx) (fun _ => True) (ANCHOR_EXTERNAL_FUNCTION_CALL :: A).
Proof.
  intros Ha. unfold emit_external_call_routine. do 2 emits_step. emits_block 9; [emits_tac|].
  emits_block 167; [rust_call|]. emits_block 9; emits_tac.
Qed.

Lemma emits_prologue_routine A :
  ANCHOR_THROW_EXCEEDED_MAX_INSTRUCTIONS ∈ A -> ANCHOR_CALL_DEPTH_EXCEEDED ∈ A ->
  (strict = true -> is_i 62 (as_i 64 (stack_frame_size (jit_config cx)))) ->
  emits A 145 (emit_internal_call_prologue cx) (fun _ => True)
    (ANCHOR_INTERNAL_FUNCTION_CALL_PROLOGUE :: A).
Proof.
  intros Ha Hd Hf. unfold emit_internal_call_prologue. do 5 emits_step.
  emits_block 40.
  { apply (emits_for_each _ _ _ _ _ _ 10 _ (enumerate 0 scratch_registers)); [done|].
    apply Forall_true. intros [i r]. emits_tac. }
  do 6 emits_step. emits_block 8; [|emits_tac]. emits_step; [|emits_tac].
  apply emits_arith; [|intros; emits_tac].
  intros Hst. specialize (Hf Hst). unfold is_i in *. destruct (_ && _); lia.
Qed.

Lemma emits_call_reg_routine A :
  ANCHOR_CALL_REG_OUTSIDE_TEXT_SEGMENT ∈ A -> ANCHOR_CALL_REG_UNSUPPORTED_INSTRUCTION ∈ A ->
  emits A 150 (emit_internal_call_reg cx) (fun _ => True) (ANCHOR_INTERNAL_FUNCTION_CALL_REG :: A).
Proof.
  intros Ho Hu. unfold emit_internal_call_reg. do 6 emits_step.
  pose proof (wf_pcs _ _ _ _ _ Hs) as Hn. rewrite Hn.
  apply emits_arith_u; [intros _; unfold is_u, INSN_SIZE; lia|]. intros x _. emits_tac.
Qed.

(** The routine for an access of [len] bytes of the kind [base]. *)
Lemma emits_translate_routine A base len :
  ANCHOR_THROW_EXCEPTION ∈ A -> 0 <= base + trailing_zeros len < 13 ->
  emits A 214 (emit_translate_routine cx (base, len)) (fun _ => True)
    (ANCHOR_TRANSLATE_MEMORY_ADDRESS + (base + trailing_zeros len) :: A).
Proof.
  intros Ha Hr. unfold emit_translate_routine. eapply emits_set_anchor; [|done|].
  { unfold ANCHOR_TRANSLATE_MEMORY_ADDRESS, ANCHOR_COUNT. lia. }
  emits_step. emits_block 165.
  { emits_step; [do 2 emits_step; rust_call|]. emits_block 13; [emits_tac|]. do 2 emits_step. rust_call. }
  do 3 emits_step. emits_block 9; [|emits_tac]. emits_step; [|emits_tac]. emits_step.
  eapply emits_lift; [unfold arith_i32, i32_min, i32_max; rewrite !(proj2 (Z.leb_le _ _)) by lia; done|]. emits_tac.
Qed.
End Emitters.
