(* ===== verification/JitCompilerFacts.v ===== *)
(** * The production JIT compiler stays inside its buffer

    The logic of [JitEmitFacts] applied to the subroutines, to every arm of the
    main loop and to [compile]: with the capacity check in front of each guest
    instruction no write leaves the text section. *)

From stdpp Require Import strings.
From S2P Require Import Prelude Ebpf Program Verifier VerifierFacts Error Vm X86 PageAllocator.
From S2P Require Import JitProgram X86Emit X86EmitFacts JitCompiler JitEmitFacts JitMethodFacts.

(** The anchors the main loop uses, apart from that of the tracing routine. *)
Definition main_anchors : list Z :=
  [ANCHOR_THROW_EXCEEDED_MAX_INSTRUCTIONS; ANCHOR_EXIT; ANCHOR_THROW_EXCEPTION; ANCHOR_DIV_BY_ZERO;
   ANCHOR_DIV_OVERFLOW; ANCHOR_CALL_UNSUPPORTED_INSTRUCTION; ANCHOR_EXTERNAL_FUNCTION_CALL;
   ANCHOR_INTERNAL_FUNCTION_CALL_PROLOGUE; ANCHOR_INTERNAL_FUNCTION_CALL_REG;
   21; 22; 23; 24; 25; 26; 27; 28; 29; 30; 31; 32].

(** Where calls are resolved by key, a key names a native function or an
    internal one, not both. *)
Definition registries_disjoint {V} (e : Executable V) : Prop :=
  static_syscalls (sbpf_version e) = false ->
  forall key, is_Some (lookup_by_key (sparse_registry (exec_loader e)) key) ->
    lookup_by_key (function_registry e) key = None.

(** What the compiler requires of a code generation hook: that it uses the
    compiler the way its own methods do, and not more room than the default. *)
Class CodegenLaws (V G : Type) `{Profile, ByteOrder, SmallRng G, HostLaws V, HC : Codegen V G} := {
  codegen_fits (cx : JitEnv V) L N T P strict A f :
    0 < T -> L <= 2 ^ 31 -> 0 <= N < 2 ^ 31 -> is_i 31 (runtime_environment_key cx) ->
    Forall (.∈ A) main_anchors ->
    JitEmitFacts.emits L N T P strict A 119 (codegen cx f) (fun _ => True) A
}.

Lemma default_hooks_laws {V G} `{Profile, ByteOrder, SmallRng G, HostLaws V} : CodegenLaws V G (HC := default_hooks).
Proof.
  constructor. intros cx L N T P strict A f HT HL HN Hkey HA. rewrite Forall_forall in HA.
  apply emits_external_call; try assumption; apply HA, (bool_decide_unpack _); exact I.
Qed.

(** Whether a [match] has an arm for the opcode. *)
Definition handles {X} (o : Z) (arms : list (arm X)) : bool :=
  existsb (fun a => existsb (Z.eqb o) (arm_opcodes a) && arm_guard a) arms.

Section Compile.
Context {V G : Type} `{Profile, ByteOrder, SmallRng G, HostLaws V, !Codegen V G, !CodegenLaws V G} (cx : JitEnv V).
Context (L N T : Z) (P : Z * Z * Z) (strict : bool).
Context (HT : 0 < T) (HL : L <= 2 ^ 31) (HN : 0 <= N < 2 ^ 31).
Context (Hkey : is_i 31 (runtime_environment_key cx)).
Implicit Types (A B : list Z) (s : JitCompiler G).

Abbreviation version := (sbpf_version (executable cx)).
Abbreviation emits := (JitEmitFacts.emits (G := G) L N T P strict).
Abbreviation plain A n m := (emits A n m (fun _ : unit => True) A).

(** ** Subroutines *)
Tactic Notation "emits_to" uconstr(lem) :=
  eapply emits_seq_to; [eapply lem; first [eassumption | done | solve_anchor | idtac]|done|emits_norm].

Lemma emits_subroutines :
  (strict = true -> is_i 62 (as_i 64 (stack_frame_size (jit_config cx)))) ->
  exists A, Forall (.∈ A) main_anchors /\
    (enable_register_tracing (jit_config cx) = true -> ANCHOR_TRACE ∈ A) /\
    emits [] 4096 (emit_subroutines cx) (fun _ => True) A.
Proof.
  intros Hf. eexists. split_and!; cycle 2.
  - unfold emit_subroutines. emits_to emits_trace_routine. emits_to emits_epilogue. emits_to emits_exits.
    emits_to emits_handlers.
    { intros Htr. unfold trace_anchor. rewrite Htr. solve_anchor. }
    emits_to emits_external_routine. emits_to emits_prologue_routine. emits_to emits_call_reg_routine.
    unfold translate_routines. cbn [for_each].
    do 11 (emits_to emits_translate_routine).
    emits_to emits_translate_routine. by apply emits_ret.
  - vm_compute. repeat (apply List.Forall_cons; [solve_anchor|]). apply List.Forall_nil.
  - intros Htr. unfold trace_anchor. rewrite Htr. vm_compute. solve_anchor.
Qed.

(** ** The arms of the main loop *)
Section Arms.
Context (A : list Z) (HA : Forall (.∈ A) main_anchors)
  (Htrace : enable_register_tracing (jit_config cx) = true -> ANCHOR_TRACE ∈ A).

Lemma in_main a : bool_decide (a ∈ main_anchors) = true -> a ∈ A.
Proof. intros Ha%bool_decide_eq_true. by apply (proj1 (Forall_forall _ _) HA). Qed.
#[local] Hint Extern 3 (_ ∈ _) => apply in_main; reflexivity : emits.

Context (insn : Insn) (dst src : X86Register) (target_pc : Z).
(** What the verifier guarantees, where errors are excluded. *)
Context (Hjump : strict = true -> opc insn ∈ jump_opcodes version -> 0 <= target_pc < N).
Context (Hendian : strict = true ->
  opc insn = BE \/ (opc insn = LE /\ disable_le version = false) -> imm insn ∈ [16; 32; 64]).
Context (Hcallx : strict = true -> opc insn = CALL_REG ->
  callx_uses_src_reg version = false -> callx_uses_dst_reg version = false -> 0 <= imm insn < 11).
Context (Hpcs : forall pc, is_pc_in_program (program cx) pc = true -> pc < N).
Context (Hfunctions : strict = true -> static_syscalls version = false -> forall key name t,
  lookup_by_key (function_registry (executable cx)) key = Some (name, t) -> 0 <= t < N).

#[local] Hint Resolve wide_32 wide_64 : emits.
#[local] Hint Extern 2 (is_u 8 _) => done : emits.
#[local] Hint Extern 4 => assumption : emits.
#[local] Hint Resolve emits_sanitized_load emits_load_constant emits_sanitized_alu emits_call_anchor
  emits_jump_anchor emits_branch_anchor emits_load_pc emits_shift emits_pqr emits_validate
  emits_validate_and_profile emits_undo_profile emits_external_call : emits.

Lemma emits_load len : len_ok len -> ANCHOR_TRANSLATE_MEMORY_ADDRESS + 0 + trailing_zeros len ∈ A ->
  plain A 84 (emit_load cx insn dst src len).
Proof. intros. by apply emits_address_translation. Qed.
Lemma emits_store_imm len : len_ok len -> ANCHOR_TRANSLATE_MEMORY_ADDRESS + 8 + trailing_zeros len ∈ A ->
  plain A 84 (emit_store_imm cx insn dst len).
Proof. intros. by apply emits_address_translation. Qed.
Lemma emits_store_reg len : len_ok len -> ANCHOR_TRANSLATE_MEMORY_ADDRESS + 4 + trailing_zeros len ∈ A ->
  plain A 84 (emit_store_reg cx insn dst src len).
Proof. intros. by apply emits_address_translation. Qed.
#[local] Hint Extern 2 (len_ok _) => apply (bool_decide_unpack _); exact I : emits.
#[local] Hint Resolve emits_load emits_store_imm emits_store_reg : emits.

Lemma emits_sign_extend_result : plain A 4 (sign_extend_result cx dst).
Proof. unfold sign_extend_result, sign_extend. emits_tac. Qed.
Lemma emits_sub_imm sz : wide sz -> plain A 40 (emit_sub_imm cx insn dst sz).
Proof. intros Hsz. unfold emit_sub_imm, emit_swapped_sub. emits_tac. Qed.
Lemma emits_mul_imm sz : wide sz -> plain A 37 (emit_mul_imm cx insn dst sz).
Proof. intros Hsz. unfold emit_mul_imm. emits_tac. Qed.
#[local] Hint Resolve emits_sign_extend_result emits_sub_imm emits_mul_imm : emits.

Lemma emits_call_internal : emits A 142 (emit_call_internal cx insn) (fun _ => True) A.
Proof.
  unfold emit_call_internal. destruct (static_syscalls version) eqn:Hv.
  - apply emits_gets. intros s Hs.
    destruct (is_pc_in_program _ _) eqn:Hp; [|by apply emits_ret].
    destruct (_ =? 1); [|by apply emits_ret]. simpl.
    eapply emits_seq; [apply emits_internal_call|done|by apply emits_ret]; try assumption;
      try (apply in_main; reflexivity).
    split; [done|]. intros _. apply Hpcs in Hp. split; [|done]. apply (as_u_range 64). lia.
  - destruct (lookup_by_key _ _) as [[name t]|] eqn:Hl; [|by apply emits_ret].
    eapply emits_seq; [apply emits_internal_call|done|by apply emits_ret]; try assumption;
      try (apply in_main; reflexivity).
    split; [done|]. intros Hst. apply (Hfunctions Hst eq_refl) in Hl.
    rewrite as_u_as_i, as_u_small by (unfold is_u; lia). done.
Qed.

Lemma emits_call_imm : registries_disjoint (executable cx) -> plain A 159 (emit_call_imm cx insn).
Proof.
  intros Hd. unfold emit_call_imm, emit_call_external.
  assert (Hint : forall ext : bool, plain A 159
    (internal ← emit_call_internal cx insn;
     if negb (ext || internal) then _ ← emit_load_pc cx; emit_jump_anchor cx ANCHOR_CALL_UNSUPPORTED_INSTRUCTION
     else mret tt)).
  { intros ext. change 159 with (142 + 17). eapply emits_bind; [done|apply emits_call_internal|].
    intros internal _. emits_tac. }
  destruct (negb (static_syscalls version) || (Ebpf.src insn =? 0)) eqn:Hs; [|exact (Hint false)].
  destruct (lookup_by_key _ _) as [[name f]|] eqn:Hl; [|exact (Hint false)].
  assert (Hno : forall k, emit_call_internal (G := G) cx insn k = Ok (false, k)).
  { intros k. unfold emit_call_internal. destruct (static_syscalls version) eqn:Hv.
    - unfold mbind, jit_bind, gets. simpl in Hs. apply Z.eqb_eq in Hs. rewrite Hs. by rewrite andb_false_r.
    - by rewrite (Hd Hv _ (ex_intro _ _ Hl)). }
  eapply emits_ext; [|apply (emits_seq L N T P strict A 159 119 (codegen cx f) (fun _ => mret tt));
    [by apply codegen_fits|done|by apply emits_ret]].
  intros k. unfold mbind, jit_bind. destruct (codegen cx f k) as [[? s]| |]; try done.
  simpl. by rewrite Hno.
Qed.

Lemma emits_call_reg : opc insn = CALL_REG -> plain A 142 (emit_call_reg cx insn dst src).
Proof.
  intros Hop. unfold emit_call_reg. apply (emits_read L N T P strict A 142). intros s Hs Ha Hr.
  assert (Hc : forall r, plain A 142 (emit_internal_call cx (Register r))).
  { intros r. apply emits_internal_call; try assumption; try done; apply in_main; reflexivity. }
  destruct (callx_uses_src_reg version) eqn:E1; [split; [done|apply Hc]|].
  destruct (callx_uses_dst_reg version) eqn:E2; [split; [done|apply Hc]|].
  destruct (get REGISTER_MAP (as_u 64 (imm insn))) eqn:Hg; [split; [done|apply Hc]|]. simpl.
  destruct strict eqn:Hst; [|done]. specialize (Hcallx eq_refl Hop eq_refl eq_refl).
  destruct (get_Some REGISTER_MAP (as_u 64 (imm insn))) as [r Hr'];
    [rewrite as_u_small by (unfold is_u; lia); done|congruence].
Qed.

Lemma emits_exit : plain A 99 (emit_exit cx).
Proof.
  unfold emit_exit. eapply (emits_seq _ _ _ _ _ _ _ 66).
  { apply emits_validate_and_profile; [assumption..|apply in_main; reflexivity|lia]. }
  { done. }
  emits_tac.
Qed.

(** ** All arms but [lddw] *)
Definition plain_arm (a : arm (jit G unit)) : Prop :=
  opc insn ∈ arm_opcodes a -> arm_guard a = true -> plain A 163 (arm_body a).

Lemma in_jumps o : opc insn ∈ [o] -> bool_decide (o ∈ jump_opcodes version) = true -> opc insn ∈ jump_opcodes version.
Proof. intros ->%list_elem_of_singleton. apply bool_decide_eq_true_1. Qed.

Ltac arms :=
  repeat (apply List.Forall_cons || apply List.Forall_nil); unfold plain_arm, on, on_if;
  cbn [arm_opcodes arm_guard arm_body].

Lemma memory_arms_plain : Forall plain_arm (tail (memory_arms cx insn dst src)).
Proof. unfold memory_arms. cbn [tail]. arms; intros _ _; emits_tac. Qed.

Lemma alu64_arms_plain : Forall plain_arm (alu64_arms cx insn dst src).
Proof. unfold alu64_arms, emit_legacy_division. arms; intros _ _; emits_tac. Qed.

(** An arm that ends in [InvalidInstruction] for other operand sizes. *)
Lemma endian_sizes (m16 m32 m64 : jit G unit) n :
  (strict = true -> imm insn ∈ [16; 32; 64]) -> plain A n m16 -> plain A n m32 -> plain A n m64 ->
  plain A n (if imm insn =? 16 then m16 else if imm insn =? 32 then m32
             else if imm insn =? 64 then m64 else fails InvalidInstruction).
Proof.
  intros He H16 H32 H64. repeat (apply emits_if; [done|intros ?%Z.eqb_neq]).
  apply emits_fails. destruct strict; [|done]. specialize (He eq_refl).
  repeat (apply elem_of_cons in He as [He|He]; [done|]). by apply elem_of_nil in He.
Qed.

Lemma alu32_arms_plain : Forall plain_arm (alu32_arms cx insn dst src).
Proof.
  unfold alu32_arms, emit_legacy_division. arms;
    lazymatch goal with
    | |- _ ∈ [LE] -> _ => intros Ho%list_elem_of_singleton Hg%negb_true_iff; apply endian_sizes;
        [intros Hst; apply Hendian; tauto|emits_tac..]
    | |- _ ∈ [BE] -> _ => intros Ho%list_elem_of_singleton _; apply endian_sizes;
        [intros Hst; apply Hendian; tauto|emits_tac..]
    | |- _ => intros _ _; emits_tac
    end.
Qed.

Lemma pqr_arms_plain : Forall plain_arm (pqr_arms cx insn dst src).
Proof.
  unfold pqr_arms, emit_pqr. arms; intros _ _;
    (eapply emits_le; [apply emits_pqr; try assumption; try (apply in_main; reflexivity)|done]);
    destruct (negb _); auto using wide_32, wide_64.
Qed.

Lemma emits_jump o op sz bitwise :
  opc insn ∈ [o] -> bool_decide (o ∈ jump_opcodes version) = true -> wide sz -> is_u 8 op ->
  plain A 163 (branch_imm cx insn dst target_pc sz op bitwise) /\
  plain A 163 (branch_reg cx dst src target_pc sz op bitwise).
Proof.
  intros Ho Hj Hsz Hop. pose proof (in_jumps o Ho Hj) as Hin.
  split; (eapply emits_le;
    [first [apply emits_branch_imm|apply emits_branch_reg]; try assumption;
      [apply in_main; reflexivity|auto]|done]).
Qed.

Lemma jmp32_arms_plain : Forall plain_arm (jmp32_arms cx insn dst src target_pc).
Proof.
  unfold jmp32_arms.
  arms; (intros Ho Hg; eapply emits_jump; [exact Ho|unfold jump_opcodes; rewrite Hg; done|done || by left|done]).
Qed.

Lemma jmp64_arms_plain : Forall plain_arm (jmp64_arms cx insn dst src target_pc).
Proof.
  assert (Hin : forall o, bool_decide (o ∈ jump_opcodes V0) = true -> bool_decide (o ∈ jump_opcodes version) = true).
  { intros o. unfold jump_opcodes. cbn [enable_jmp32 app].
    rewrite !bool_decide_eq_true. intros. apply elem_of_app. by right. }
  unfold jmp64_arms. arms.
  { intros Ho _. pose proof (in_jumps JA Ho (Hin JA eq_refl)) as Hj.
    eapply (emits_seq _ _ _ _ _ _ _ 66);
      [apply emits_validate_and_profile; try assumption; [apply in_main; reflexivity|]|done|].
    { intros Hst. specialize (Hjump Hst Hj). lia. }
    eapply emits_le; [apply emits_jump_target; auto|done]. }
  all: intros Ho _; eapply emits_jump; [exact Ho|by apply Hin|by right|done].
Qed.

Lemma call_arms_plain : registries_disjoint (executable cx) -> Forall plain_arm (call_arms cx insn dst src).
Proof.
  intros Hd. unfold call_arms. arms.
  - intros _ _. by eapply emits_le; [apply emits_call_imm|].
  - intros Ho%list_elem_of_singleton _. by eapply emits_le; [apply emits_call_reg|].
  - intros _ _. by eapply emits_le; [apply emits_exit|].
Qed.

(** ** One guest instruction *)

(** The arms after the first, which is [lddw]. *)
Definition other_arms : list (arm (jit G unit)) :=
  tail (memory_arms cx insn dst src) ++ alu32_arms cx insn dst src ++ alu64_arms cx insn dst src ++
  pqr_arms cx insn dst src ++ jmp32_arms cx insn dst src target_pc ++
  jmp64_arms cx insn dst src target_pc ++ call_arms cx insn dst src.

Definition is_lddw : bool := (opc insn =? LD_DW_IMM) && negb (disable_lddw version).

Lemma emit_opcode_eq :
  emit_opcode cx insn dst src target_pc =
    if is_lddw then lddw cx insn dst
    else match_opc (opc insn) other_arms (fails UnsupportedInstruction).
Proof.
  unfold emit_opcode, is_lddw.
  change (compile_arms cx insn dst src target_pc)
    with (mkArm [LD_DW_IMM] (negb (disable_lddw version)) (lddw (G := G) cx insn dst) :: other_arms).
  unfold match_opc at 1. fold (match_opc (opc insn) other_arms (fails (G := G) (A := unit) UnsupportedInstruction)).
  cbn [arm_opcodes arm_guard arm_body existsb]. by rewrite orb_false_r.
Qed.

(** From [s] to [s'] at most [n] bytes were appended, the pc moved by [k], and
    the entries up to the old pc are unchanged. *)
Record moved (n k : Z) (s s' : JitCompiler G) : Prop := {
  moved_offset : offset_in_text_section s <= offset_in_text_section s' <= offset_in_text_section s + n;
  moved_text : take (Z.to_nat (offset_in_text_section s)) (text_section (jit_result s')) =
               take (Z.to_nat (offset_in_text_section s)) (text_section (jit_result s));
  moved_pc : jit_pc s' = jit_pc s + k;
  moved_entries i : i <= jit_pc s ->
    get (pc_section (jit_result s')) i = get (pc_section (jit_result s)) i;
  moved_inside : jit_pc s < N -> jit_pc s' < N
}.

Lemma step_moved n s s' : step n s s' -> moved n 0 s s'.
Proof. intros []. constructor; [done..|lia| |lia]. intros i _. congruence. Qed.

Lemma moved_trans n k j l s s' s'' :
  0 <= offset_in_text_section s -> 0 <= j -> moved n j s s' -> moved k l s' s'' -> moved (n + k) (j + l) s s''.
Proof.
  intros Hz Hj [Ho Ht Hp He Hi] [Ho' Ht' Hp' He' Hi']. constructor; [lia| |lia| |auto].
  - apply (f_equal (take (Z.to_nat (offset_in_text_section s)))) in Ht'.
    rewrite !take_take, !Nat.min_l in Ht' by lia. by rewrite Ht'.
  - intros i Hle. rewrite He' by lia. by apply He.
Qed.

Definition outcome (n k : Z) (m : jit G unit) (s : JitCompiler G) : Prop :=
  match m s with
  | Ok (_, s') => wf L N T P s' /\ has T A s' /\ moved n k s s'
  | Err (Fails _) | Panic => strict = false
  | Err _ => False
  end.

Lemma emits_outcome n m s :
  plain A n m -> wf L N T P s -> has T A s -> offset_in_text_section s + n <= L -> outcome n 0 m s.
Proof.
  intros Hm Hs Ha Hr. unfold outcome. specialize (Hm s Hs Ha Hr).
  destruct (m s) as [[x s']|[]|]; try done. destruct Hm as (? & ? & ? & _).
  split_and!; [done..|by apply step_moved].
Qed.

Lemma outcome_bind n k j l m (f : unit -> jit G unit) s :
  0 <= offset_in_text_section s -> 0 <= j -> outcome n j m s ->
  (forall s', wf L N T P s' -> has T A s' -> moved n j s s' -> outcome k l (f tt) s') ->
  outcome (n + k) (j + l) (m ≫= f) s.
Proof.
  unfold outcome, mbind, jit_bind. intros Hz Hj Hm Hf.
  destruct (m s) as [[[] s']|[]|]; try done. destruct Hm as (Hs & Ha & Hmv).
  specialize (Hf s' Hs Ha Hmv). destruct (f tt s') as [[x s'']|[]|]; try done.
  destruct Hf as (? & ? & ?). split_and!; [done..|by eapply moved_trans].
Qed.

Lemma outcome_mono n n' k m s : n <= n' -> outcome n k m s -> outcome n' k m s.
Proof.
  unfold outcome. intros Hn. destruct (m s) as [[x s']|[]|]; try done.
  intros (? & ? & []). split_and!; [done..|]. constructor; try done; lia.
Qed.

(** [self.pc += 1] *)
Lemma advance_eq s : wf L N T P s -> advance s = Ok (tt, set_jit_pc (jit_pc s + 1) s).
Proof.
  intros Hs. unfold advance, mbind, jit_bind, gets, lift. pose proof (wf_pc _ _ _ _ _ Hs).
  rewrite arith_u64_ok by (unfold is_u; lia). done.
Qed.

(** Setting the entry of a pc to an offset of the section. *)
Lemma set_pc_entry_outcome pc e s :
  wf L N T P s -> has T A s -> jit_pc s = pc -> 0 <= e <= offset_in_text_section s -> (strict = true -> pc < N) ->
  match set_pc_entry pc e s with
  | Ok (_, s') => wf L N T P s' /\ has T A s' /\ pc < N /\
      offset_in_text_section s' = offset_in_text_section s /\
      text_section (jit_result s') = text_section (jit_result s) /\ jit_pc s' = jit_pc s /\
      get (pc_section (jit_result s')) pc = Some e /\
      (forall i, i <> pc -> get (pc_section (jit_result s')) i = get (pc_section (jit_result s)) i)
  | Panic => strict = false
  | Err _ => False
  end.
Proof.
  intros Hs Ha Hpc He Hst. unfold set_pc_entry, set. pose proof Hs as Hw. destruct Hw.
  rewrite (proj2 (Z.leb_le 0 pc)) by lia. simpl. rewrite wf_pcs.
  destruct (Z.ltb_spec pc N) as [|Hge]; simpl; [|clear - Hst Hge; destruct strict; [specialize (Hst eq_refl); lia|done]].
  split_and!; try done.
  - constructor; simpl; try done; [by rewrite length_insert|]. by apply Forall_insert.
  - unfold get. rewrite (proj2 (Z.ltb_ge _ _)) by lia. apply list_lookup_insert_eq. lia.
  - intros i Hi. unfold get. destruct (Z.ltb_spec i 0); [done|]. apply list_lookup_insert_ne. lia.
Qed.

Lemma augment_no_err e : augment_lddw_unchecked (program cx) insn <> Err (e : Stop).
Proof.
  unfold augment_lddw_unchecked, arith_u64, or_panic. intros He.
  repeat (match type of He with context [match ?x with _ => _ end] => destruct x end; try done; simpl in He).
Qed.

(** The entry of the second slot leads to the handler of unsupported
    instructions. *)
Definition lddw_entry : jit G Z := fun s =>
  a ← or_panic (get (anchors s) ANCHOR_CALL_UNSUPPORTED_INSTRUCTION);
  d ← offset_from s a (text_section_ptr (jit_result s));
  Ok (as_u 32 d, s).

Lemma lddw_entry_ok s : wf L N T P s -> has T A s -> exists e, lddw_entry s = Ok (e, s) /\ 0 <= e <= offset_in_text_section s.
Proof.
  intros [] Ha. unfold lddw_entry, offset_from.
  assert (Hin : ANCHOR_CALL_UNSUPPORTED_INSTRUCTION ∈ A) by (by apply in_main).
  apply (proj1 (Forall_forall _ _) Ha) in Hin as (d & -> & Hd). simpl.
  rewrite wf_text_ptr, wf_text, !(proj2 (Z.leb_le _ _)) by lia. simpl.
  exists (d - T). rewrite as_u_small by (unfold is_u; lia). split; [done|lia].
Qed.

Lemma outcome_reads {X} n k (m : jit G X) (f : X -> jit G unit) x s :
  m s = Ok (x, s) -> outcome n k (f x) s -> outcome n k (m ≫= f) s.
Proof. intros Hm. unfold outcome, mbind, jit_bind. by rewrite Hm. Qed.

Lemma outcome_stops {X} n k (r : result Stop X) (f : X -> jit G unit) s :
  (forall e, r <> Err e) -> (strict = true -> exists x, r = Ok x) ->
  (forall x, r = Ok x -> outcome n k (f x) s) -> outcome n k (lift r ≫= f) s.
Proof.
  intros He Hst Hf. unfold outcome, mbind, jit_bind, lift. destruct r as [x|e|]; [by apply Hf|by destruct (He e)|].
  clear -Hst. destruct strict; [|done]. by destruct (Hst eq_refl) as [x ?].
Qed.

(** The second slot of an [lddw]. *)
Definition skip_slot : jit G unit :=
  _ ← advance; pc ← gets jit_pc; entry ← lddw_entry; set_pc_entry pc entry.

Lemma wf_set_pc pc s : wf L N T P s -> 0 <= pc <= N -> wf L N T P (set_jit_pc pc s).
Proof. intros [] Hpc. by constructor. Qed.

Lemma skip_slot_outcome s :
  wf L N T P s -> has T A s -> jit_pc s < N -> (strict = true -> jit_pc s + 1 < N) ->
  outcome 0 1 skip_slot s.
Proof.
  intros Hs Ha Hpc Hst. pose proof (wf_pc _ _ _ _ _ Hs) as Hp0.
  pose proof (wf_set_pc (jit_pc s + 1) s Hs ltac:(lia)) as Hs1. set (s1 := set_jit_pc (jit_pc s + 1) s) in *.
  unfold outcome, skip_slot, mbind, jit_bind, gets. rewrite (advance_eq s Hs). fold s1.
  destruct (lddw_entry_ok s1 Hs1 Ha) as (e & -> & He).
  pose proof (set_pc_entry_outcome (jit_pc s1) e s1 Hs1 Ha eq_refl He Hst) as Hse.
  destruct (set_pc_entry (jit_pc s1) e s1) as [[x s2]|[]|]; try done.
  destruct Hse as (Hs2 & Ha2 & Hlt & Ho & Ht & Hp & _ & Hent). split_and!; [done..|].
  constructor; [rewrite Ho; simpl; lia|by rewrite Ht|by rewrite Hp| |by rewrite Hp].
  intros i Hi. rewrite Hent; [done|]. simpl. lia.
Qed.

Lemma lddw_outcome s :
  wf L N T P s -> has T A s -> offset_in_text_section s + 163 <= L -> jit_pc s < N ->
  (strict = true -> jit_pc s + 1 < N /\ exists i, augment_lddw_unchecked (E := Stop) (program cx) insn = Ok i) ->
  outcome 163 1 (lddw cx insn dst) s.
Proof.
  intros Hs Ha Hr Hpc Hst. pose proof (wf_pc _ _ _ _ _ Hs) as Hp0. pose proof (wf_offset _ _ _ _ _ Hs) as Ho0.
  eapply outcome_reads; [done|]. eapply outcome_reads.
  { unfold lift. rewrite arith_u64_ok by (unfold is_u; lia). done. }
  apply (outcome_bind 66 97 0 1); [lia|done|apply emits_outcome; [|done|done|lia]|].
  { apply emits_validate_and_profile; try assumption; [apply in_main; reflexivity|].
    intros Hs0. destruct (Hst Hs0). lia. }
  intros s1 Hs1 Ha1 [Ho1 _ Hp1 _ _].
  assert (Heq : forall f s, outcome 97 1 (skip_slot ≫= f) s -> outcome 97 1
    (_ ← advance; pc ← gets jit_pc; entry ← lddw_entry; x ← set_pc_entry pc entry; f x) s).
  { intros f t. unfold outcome, skip_slot, mbind, jit_bind. by destruct (advance t) as [[? t1]| |];
      [destruct (gets jit_pc t1) as [[? t2]| |]; [destruct (lddw_entry t2) as [[? t3]| |]|..]|..]. }
  apply Heq. clear Heq. apply (outcome_bind 0 97 1 0); [lia|done|apply skip_slot_outcome; try done; [lia|]|].
  { intros Hs0. destruct (Hst Hs0). lia. }
  intros s2 Hs2 Ha2 [Ho2 _ _ _ _].
  apply outcome_stops; [apply augment_no_err|by intros Hs0; destruct (Hst Hs0)|].
  intros i _. eapply outcome_mono; [|apply emits_outcome; [apply emits_load_constant|done..|]]; lia.
Qed.

(** ** Opcodes *)
Lemma match_opc_handled {X} (Q : X -> Prop) o arms d :
  Forall (fun a => o ∈ arm_opcodes a -> arm_guard a = true -> Q (arm_body a)) arms ->
  (handles o arms = false -> Q d) -> Q (match_opc o arms d).
Proof.
  induction 1 as [|a arms Ha _ IH]; simpl; [by intros Hd; apply Hd|].
  destruct (existsb _ _ && arm_guard a) eqn:He; simpl; [|done]. intros _.
  apply andb_prop in He as [(p & Ho & <-%Z.eqb_eq)%existsb_exists Hg]. apply Ha; [by apply list_elem_of_In|done].
Qed.

Lemma verified_opcode_handled prog n pc o :
  is_u 8 o -> handles o (verify_arms prog version n insn pc) = true -> handles o (compile_arms cx insn dst src target_pc) = true.
Proof.
  intros Ho Hv.
  assert (Hall : forallb (fun o => implb (handles o (verify_arms prog version n insn pc))
    (handles o (compile_arms cx insn dst src target_pc))) (seqZ 0 256) = true).
  { clear. destruct cx as [[elf v]]. cbn [executable Vm.sbpf_version].
    unfold verify_arms, verify_alu64_arms.
    generalize (Ebpf.dst insn =? FRAME_PTR_REG). destruct v; intros []; vm_compute; reflexivity. }
  rewrite forallb_forall in Hall. specialize (Hall o ltac:(apply list_elem_of_In, elem_of_seqZ; unfold is_u in Ho; lia)).
  by rewrite Hv in Hall.
Qed.

Lemma other_arms_plain : registries_disjoint (executable cx) -> Forall plain_arm other_arms.
Proof.
  intros Hd. unfold other_arms. repeat apply Forall_app_2; auto using memory_arms_plain, alu32_arms_plain,
    alu64_arms_plain, pqr_arms_plain, jmp32_arms_plain, jmp64_arms_plain, call_arms_plain.
Qed.

(** What the second slot must be for [lddw] not to panic. *)
Definition lddw_complete (pc : Z) : Prop :=
  is_lddw = true ->
  pc + 1 < N /\ exists i, augment_lddw_unchecked (E := Stop) (program cx) insn = Ok i.

Lemma emit_opcode_outcome s :
  registries_disjoint (executable cx) -> wf L N T P s -> has T A s -> offset_in_text_section s + 163 <= L -> jit_pc s < N ->
  (strict = true -> handles (opc insn) (compile_arms cx insn dst src target_pc) = true /\ lddw_complete (jit_pc s)) ->
  outcome 163 (if is_lddw then 1 else 0) (emit_opcode cx insn dst src target_pc) s.
Proof.
  intros Hd Hs Ha Hr Hpc Hst. rewrite emit_opcode_eq. destruct is_lddw eqn:Hl.
  - apply lddw_outcome; [done..|]. intros Hs0. by apply (Hst Hs0).
  - apply emits_outcome; [|done..]. apply match_opc_handled; [by apply other_arms_plain|].
    intros Hh. apply emits_fails. destruct strict; [|done]. destruct (Hst eq_refl) as [Hc _].
    change (((opc insn =? LD_DW_IMM) || false) && negb (disable_lddw version)
            || handles (opc insn) other_arms = true) in Hc.
    rewrite orb_false_r in Hc. fold is_lddw in Hc. by rewrite Hl, Hh in Hc.
Qed.
End Arms.
End Compile.
