(* ===== verification/JitSafety.v ===== *)
(** * The production JIT compiler: the whole compilation

    A jump to an instruction that has no code yet leaves its displacement to
    [resolve_jumps].  The slots of these jumps do not overlap, every one of
    them ends up with the distance to the code of its target, and no other
    byte changes.

    From one guest instruction to [compile]: the capacity check before each
    instruction leaves room for its code, the main loop ends, forward jumps are
    filled in, and the accepted program is sealed. *)

From stdpp Require Import strings.
From S2P Require Import Prelude Ebpf Program X86 Verifier VerifierFacts Error Vm PageAllocator.
From S2P Require Import JitProgram X86Emit X86EmitFacts JitCompiler JitEmitFacts JitMethodFacts.
From S2P Require Import JitCompilerFacts.

Section Jumps.
Context {V G : Type} `{Profile}.
Context (L N T P : Z) (HL : L <= 2 ^ 31).
Implicit Types (s : JitCompiler G) (t : list byte) (js : list Jump).

(** Where in the text section the displacement of a jump is. *)
Definition jump_slot (j : Jump) : nat := Z.to_nat (location j - T).

(** The displacement of [j] leads to the entry of its target. *)
Definition resolved (entries : list Z) t (j : Jump) : Prop :=
  exists e, get entries (JitProgram.target_pc j) = Some e /\
    take 4 (drop (jump_slot j) t) = le_bytes 4 (T + e - (location j + 4)).

(** Positions that no jump of [js] covers. *)
Definition uncovered js (i : nat) : Prop :=
  Forall (fun j => (i < jump_slot j \/ jump_slot j + 4 <= i)%nat) js.

(** The state [resolve_jumps] runs in: every target has code. *)
Record resolvable lo js s : Prop := {
  res_text : text_len s = L;
  res_ptr : text_section_ptr (jit_result s) = T;
  res_lo : T <= lo;
  res_jumps : jumps_in lo (T + L) js;
  res_targets : Forall (fun j => exists e,
    get (pc_section (jit_result s)) (JitProgram.target_pc j) = Some e /\ 0 <= e < L) js
}.

Lemma resolve_jump_eq lo hi j s e :
  text_len s = L -> text_section_ptr (jit_result s) = T -> T <= lo -> lo <= location j -> location j + 4 <= hi -> hi <= T + L ->
  get (pc_section (jit_result s)) (JitProgram.target_pc j) = Some e -> 0 <= e < L ->
  resolve_jump j s = Ok (tt, set_text (splice (text_section (jit_result s)) (jump_slot j)
    (le_bytes 4 (T + e - (location j + 4)))) (offset_in_text_section s) s).
Proof.
  intros Htl Hp Hlo Hj Hhi Hr He Hel. unfold resolve_jump, code_address. rewrite He. simpl.
  replace (Z.land e i32_max) with e
    by (change i32_max with (2 ^ 31 - 1); rewrite land_ones_mod, Z.mod_small by lia; done).
  destruct (get_Some (text_section (jit_result s)) e) as [x ->]; [unfold text_len in *; lia|]. simpl.
  unfold offset_from. rewrite Hp, Htl, !(proj2 (Z.leb_le _ _)) by lia. simpl.
  rewrite as_i_small by (done || (unfold is_i; change (2 ^ (32 - 1)) with (2 ^ 31); lia)).
  unfold arith_i32, i32_min, i32_max. rewrite !(proj2 (Z.leb_le _ _)) by lia. simpl.
  unfold write_text. rewrite length_le_bytes, Htl, !(proj2 (Z.leb_le _ _)) by lia. simpl.
  unfold jump_slot. do 5 f_equal. lia.
Qed.

Lemma later_uncovered js lo hi i :
  jumps_in lo hi js -> T <= lo -> (i < Z.to_nat (lo - T))%nat -> uncovered js i.
Proof.
  revert lo. induction js as [|j js IH]; intros lo; simpl; [by constructor|].
  intros [Hj Hjs] Hlo Hi. constructor; [left; unfold jump_slot; lia|]. apply (IH (location j + 4)); [done|lia..].
Qed.

Lemma take_drop_eq (t u : list byte) i n :
  (forall k, (k < n)%nat -> t !! (i + k)%nat = u !! (i + k)%nat) -> take n (drop i t) = take n (drop i u).
Proof.
  intros Hk. apply list_eq. intros k. destruct (decide (k < n)%nat).
  - rewrite !lookup_take_lt, !lookup_drop by done. by apply Hk.
  - by rewrite !lookup_take_ge by lia.
Qed.

Lemma resolve_all js lo s :
  resolvable lo js s ->
  exists t, for_each resolve_jump js s = Ok (tt, set_text t (offset_in_text_section s) s) /\
    length t = length (text_section (jit_result s)) /\
    Forall (resolved (pc_section (jit_result s)) t) js /\
    (forall i, uncovered js i -> t !! i = text_section (jit_result s) !! i).
Proof.
  revert lo s. induction js as [|j js IH]; intros lo s [Htl Hp Hlo Hj Ht]; simpl in *.
  { exists (text_section (jit_result s)). destruct s as [[]]. split_and!; done. }
  apply Forall_cons in Ht as [(e & He & Hel) Ht]. destruct Hj as [Hj0 Hj1].
  pose proof (jumps_in_le _ _ _ Hj1) as Hj2. unfold mbind, jit_bind.
  rewrite (resolve_jump_eq lo (T + L) j s e) by (done || lia).
  set (d := le_bytes 4 _). set (s1 := set_text _ _ s).
  assert (Hlen : (jump_slot j + length d <= length (text_section (jit_result s)))%nat).
  { unfold d, jump_slot, text_len in *. rewrite length_le_bytes. lia. }
  destruct (IH (location j + 4) s1) as (t & -> & Hl & Hall & Hun).
  { constructor; simpl; try done; [|lia]. unfold text_len. simpl. by rewrite length_splice. }
  exists t. split; [by destruct s as [[]]|]. simpl in Hl, Hun. rewrite length_splice in Hl by done.
  split_and!; [done| |].
  - constructor; [|done]. exists e. split; [done|]. fold d.
    change 4%nat with (length d). rewrite <- (take_drop_splice (text_section (jit_result s)) (jump_slot j) d) at 2 by done.
    apply take_drop_eq. intros k Hk. apply Hun. eapply later_uncovered; [exact Hj1|lia|].
    unfold d in Hk. rewrite length_le_bytes in Hk. unfold jump_slot. lia.
  - intros i [Hi Hjs]%Forall_cons. rewrite Hun by done. apply lookup_splice_outside; [done|].
    unfold d. by rewrite length_le_bytes.
Qed.
End Jumps.

(** Case analysis on the results of nested calls, innermost first. *)
Ltac split_results :=
  repeat first [done | match goal with |- context [match ?m with Ok _ => _ | Err _ => _ | Panic => _ end] =>
    lazymatch m with
    | context [match _ with _ => _ end] => fail
    | _ => first [destruct m as [[? ?]| |] | destruct m as [?| |]]
    end end].

Section Safety.
Context {V G : Type} `{Profile, ByteOrder, SmallRng G, HostLaws V, !Codegen V G, !CodegenLaws V G} (cx : JitEnv V).
Context (L N T : Z) (P : Z * Z * Z) (strict : bool).
Context (HT : 0 < T) (HL : L <= 2 ^ 31) (HN : 0 <= N < 2 ^ 31).
Context (Hkey : is_i 31 (runtime_environment_key cx)).
Context (A : list Z) (HA : Forall (.∈ A) main_anchors)
  (Htrace : enable_register_tracing (jit_config cx) = true -> ANCHOR_TRACE ∈ A).
Context (Hdisjoint : registries_disjoint (executable cx)).
Context (Hpcs : forall pc, is_pc_in_program (program cx) pc = true -> pc < N).
Implicit Types s : JitCompiler G.

Abbreviation version := (sbpf_version (executable cx)).
Abbreviation emits := (JitEmitFacts.emits (G := G) L N T P strict).
Abbreviation plain n m := (emits A n m (fun _ : unit => True) A).
Abbreviation wf := (wf (G := G) L N T P).
Abbreviation has := (has (G := G) T A).
Abbreviation outcome := (outcome (G := G) L N T P strict A).

Lemma in_anchors a : bool_decide (a ∈ main_anchors) = true -> a ∈ A.
Proof. by apply in_main. Qed.

(** ** Before the instruction *)
Lemma emits_checkpoint :
  (strict = true -> 0 <= instruction_meter_checkpoint_distance (jit_config cx) < 2 ^ 63) ->
  plain 30 (emit_checkpoint cx).
Proof.
  intros Hd. unfold emit_checkpoint. apply emits_gets. intros s Hs. apply emits_gets. intros s' Hs'.
  pose proof (wf_pc _ _ _ _ _ Hs). pose proof (wf_validation _ _ _ _ _ Hs').
  assert (Hif : forall b : bool, plain 30 (if b then emit_validate_instruction_count cx (Some (jit_pc s)) else mret tt)).
  { intros []; [|by apply emits_ret]. by apply emits_validate; [..|apply in_anchors|]. }
  apply emits_read. intros t _ _ _. unfold lift. destruct (arith_u64 _) as [z|e|] eqn:Ha.
  - split; [done|]. apply Hif.
  - unfold arith_u64 in Ha. repeat case_match; done.
  - destruct strict; [|done]. specialize (Hd eq_refl). rewrite arith_u64_ok in Ha by (unfold is_u; lia). done.
Qed.

Lemma emits_tracing : plain 28 (emit_tracing cx).
Proof.
  unfold emit_tracing. destruct (enable_register_tracing _) eqn:Ht; [|by apply emits_ret].
  eapply (emits_seq _ _ _ _ _ _ _ 11); [apply emits_load_pc|done|].
  eapply (emits_seq _ _ _ _ _ _ _ 6); [apply emits_call_anchor; auto|done|].
  eapply emits_le; [apply (emits_ins _ _ _ _ _ _ _ _ 10); [done|apply codes_load_immediate]|done].
Qed.

(** ** One instruction *)

(** What the instruction at [pc] must satisfy where errors are excluded. *)
Record insn_ok (pc : Z) (i : Insn) : Prop := {
  ok_dst : 0 <= Ebpf.dst i <= 10;
  ok_src : 0 <= Ebpf.src i <= 10;
  ok_off : is_i 16 (off i);
  ok_handled dst src t : handles (opc i) (compile_arms (G := G) cx i dst src t) = true;
  ok_jump : opc i ∈ jump_opcodes version -> 0 <= pc + off i + 1 < N;
  ok_endian : opc i = BE \/ (opc i = LE /\ disable_le version = false) -> imm i ∈ [16; 32; 64];
  ok_callx : opc i = CALL_REG -> callx_uses_src_reg version = false -> callx_uses_dst_reg version = false ->
    0 <= imm i < 11;
  ok_lddw : lddw_complete cx N i pc
}.

(** What must hold of the configuration and of the functions. *)
Record setup_ok : Prop := {
  ok_distance : 0 <= instruction_meter_checkpoint_distance (jit_config cx) < 2 ^ 63;
  ok_functions : static_syscalls version = false -> forall key name t,
    lookup_by_key (function_registry (executable cx)) key = Some (name, t) -> 0 <= t < N
}.
Context (Hsetup : strict = true -> setup_ok).

Definition emit_instruction_body (pc : Z) (insn : Insn) : jit G unit :=
  _ ← emit_checkpoint cx;
  _ ← emit_tracing cx;
  dst ← lift (or_panic (get REGISTER_MAP (Ebpf.dst insn)));
  src ← lift (or_panic (get REGISTER_MAP (Ebpf.src insn)));
  next ← lift (arith_i64 (as_i 64 pc + off insn));
  next ← lift (arith_i64 (next + 1));
  emit_opcode cx insn dst src (as_u 64 next).

Lemma or_panic_no_err {X} (o : option X) (e : Stop) : or_panic o <> Err e.
Proof. by destruct o. Qed.
Lemma arith_i64_no_err z (e : Stop) : arith_i64 z <> Err e.
Proof. unfold arith_i64. by repeat case_match. Qed.
Lemma register_of r : 0 <= r <= 10 -> exists x, or_panic (E := Stop) (get REGISTER_MAP r) = Ok x.
Proof. intros Hr. destruct (get_Some REGISTER_MAP r) as [x ->]; [simpl; lia|by exists x]. Qed.

(** The code of an instruction, from a room of 221 bytes. *)
Lemma body_outcome insn s :
  wf s -> has s -> offset_in_text_section s + 221 <= L -> jit_pc s < N ->
  (strict = true -> insn_ok (jit_pc s) insn) ->
  outcome 221 (if is_lddw cx insn then 1 else 0) (emit_instruction_body (jit_pc s) insn) s.
Proof.
  intros Hs Ha Hr Hpc Hst. pose proof (wf_offset _ _ _ _ _ Hs). pose proof (wf_pc _ _ _ _ _ Hs).
  apply (outcome_bind _ _ _ _ _ _ 30 191 0); [lia|done|apply emits_outcome; [|done|done|lia]|].
  { apply emits_checkpoint. intros Hs0. by destruct (Hsetup Hs0). }
  intros s1 Hs1 Ha1 [Ho1 _ Hp1 _ _].
  apply (outcome_bind _ _ _ _ _ _ 28 163 0); [lia|done|apply emits_outcome; [apply emits_tracing|done|done|lia]|].
  intros s2 Hs2 Ha2 [Ho2 _ Hp2 _ _].
  apply outcome_stops; [apply or_panic_no_err|intros Hs0; apply register_of, (Hst Hs0)|]. intros dst _.
  apply outcome_stops; [apply or_panic_no_err|intros Hs0; apply register_of, (Hst Hs0)|]. intros src _.
  assert (Hnext : strict = true ->
    arith_i64 (E := Stop) (as_i 64 (jit_pc s) + off insn) = Ok (jit_pc s + off insn) /\
    arith_i64 (E := Stop) (jit_pc s + off insn + 1) = Ok (jit_pc s + off insn + 1)).
  { intros Hs0. pose proof (ok_off _ _ (Hst Hs0)) as Hoff. unfold is_i in Hoff.
    rewrite as_i_small, !arith_i64_ok by (unfold is_i; lia). done. }
  apply outcome_stops; [apply arith_i64_no_err|intros Hs0; destruct (Hnext Hs0); eauto|]. intros n1 Hn1.
  apply outcome_stops; [apply arith_i64_no_err| |].
  { intros Hs0. destruct (Hnext Hs0) as [E1 E2]. rewrite E1 in Hn1. injection Hn1 as <-. eauto. }
  intros n2 Hn2. apply emit_opcode_outcome; try done; try lia.
  - intros Hs0 Hj%(ok_jump _ _ (Hst Hs0)). destruct (Hnext Hs0) as [E1 E2].
    rewrite E1 in Hn1. injection Hn1 as <-. rewrite E2 in Hn2. injection Hn2 as <-.
    rewrite as_u_small by (unfold is_u; lia). lia.
  - intros Hs0. apply (ok_endian _ _ (Hst Hs0)).
  - intros Hs0. apply (ok_callx _ _ (Hst Hs0)).
  - intros Hs0. apply (ok_functions (Hsetup Hs0)).
  - intros Hs0. split; [apply (ok_handled _ _ (Hst Hs0))|]. replace (jit_pc s2) with (jit_pc s) by lia.
    apply (ok_lddw _ _ (Hst Hs0)).
Qed.

(** How far the pc moves over an instruction. *)
Definition insn_slots (i : Insn) : Z := if is_lddw cx i then 2 else 1.

(** [s'] continues [s]: code was appended, and the entries before the pc kept. *)
Record extends s s' : Prop := {
  ext_offset : offset_in_text_section s <= offset_in_text_section s';
  ext_text : take (Z.to_nat (offset_in_text_section s)) (text_section (jit_result s')) =
             take (Z.to_nat (offset_in_text_section s)) (text_section (jit_result s));
  ext_entries i : i < jit_pc s -> get (pc_section (jit_result s')) i = get (pc_section (jit_result s)) i
}.

(** How a part of the compilation may stop. *)
Definition stops {X} (r : result Stop X) (good : X -> Prop) : Prop :=
  match r with
  | Ok x => good x
  | Err (Fails e) => strict = false \/ exists pc, e = ExhaustedTextSegment pc
  | Err _ => False
  | Panic => strict = false
  end.

Lemma compile_instruction_eq s :
  offset_in_text_section s + 221 <= text_len s ->
  compile_instruction cx s =
    (insn ← lift (get_insn_unchecked (program cx) (jit_pc s));
     _ ← set_pc_entry (jit_pc s) (as_u 32 (offset_in_text_section s));
     _ ← emit_instruction_body (jit_pc s) insn;
     advance) s.
Proof.
  intros Hr. unfold compile_instruction, emit_instruction_body, mbind, jit_bind, check_capacity, gets, lift.
  rewrite (proj2 (Z.leb_gt _ _)) by (unfold MAX_MACHINE_CODE_LENGTH_PER_INSTRUCTION; lia).
  destruct (get_insn_unchecked _ _); [|done..].
  split_results.
Qed.

Lemma get_insn_no_err pc (e : Stop) : get_insn_unchecked (program cx) pc <> Err e.
Proof.
  unfold get_insn_unchecked, arith_u64, or_panic. intros He.
  repeat (match type of He with context [match ?x with _ => _ end] => destruct x end; try done; simpl in He).
Qed.

Lemma compile_instruction_outcome s :
  wf s -> has s ->
  (strict = true -> jit_pc s < N /\
     exists i, get_insn_unchecked (E := Stop) (program cx) (jit_pc s) = Ok i /\ insn_ok (jit_pc s) i) ->
  stops (compile_instruction cx s) (fun '(_, s') =>
    wf s' /\ has s' /\ extends s s' /\
    get (pc_section (jit_result s')) (jit_pc s) = Some (offset_in_text_section s) /\
    exists i, get_insn_unchecked (E := Stop) (program cx) (jit_pc s) = Ok i /\
      jit_pc s' = jit_pc s + insn_slots i).
Proof.
  intros Hs Ha Hst. pose proof Hs as Hw. destruct Hw as [Htl Ho _ _ _ _ Hp _ _ _ _].
  destruct (Z.leb_spec (text_len s) (offset_in_text_section s + 220)) as [Hle|Hgt].
  { unfold compile_instruction, mbind, jit_bind, check_capacity.
    rewrite (proj2 (Z.leb_le _ _)) by done. simpl. right. by eexists. }
  rewrite compile_instruction_eq by lia. unfold mbind, jit_bind, lift.
  destruct (get_insn_unchecked _ _) as [i|e|] eqn:Hi; [|by apply get_insn_no_err in Hi|].
  2:{ simpl. destruct strict; [|done]. destruct (Hst eq_refl) as (_ & ? & ? & _). congruence. }
  rewrite as_u_small by (unfold is_u; lia).
  pose proof (set_pc_entry_outcome L N T P strict A (jit_pc s) (offset_in_text_section s) s Hs Ha eq_refl
    ltac:(lia) ltac:(intros E; by destruct (Hst E))) as Hse.
  destruct (set_pc_entry _ _ s) as [[x s1]|[]|]; try done.
  destruct Hse as (Hs1 & Ha1 & Hlt & Ho1 & Ht1 & Hp1 & He1 & Hrest).
  rewrite <- Hp1. assert (Hb : outcome 221 (if is_lddw cx i then 1 else 0) (emit_instruction_body (jit_pc s1) i) s1).
  { apply body_outcome; try done; try lia. intros Hs0. destruct (Hst Hs0) as (_ & j & Hj & Hok).
    rewrite Hp1. congruence. }
  unfold JitCompilerFacts.outcome in Hb. destruct (emit_instruction_body _ i s1) as [[y s2]|[]|]; try done; [|by left].
  destruct Hb as (Hs2 & Ha2 & [Ho2 Ht2 Hp2 He2 Hin]). rewrite (advance_eq L N T P) by done. simpl.
  specialize (Hin ltac:(lia)). pose proof (wf_pc _ _ _ _ _ Hs2).
  split_and!; [apply wf_set_pc; [done|lia]|done| |by rewrite He2 by lia; rewrite Hp1|].
  - constructor; simpl; [lia|rewrite <- Ho1, Ht2; by rewrite Ht1|].
    intros k Hk. rewrite He2 by lia. apply Hrest. lia.
  - exists i. split; [congruence|]. unfold insn_slots. rewrite Hp2, Hp1. destruct (is_lddw _ _); lia.
Qed.

(** ** The main loop *)

(** The pcs the loop visits, where errors are excluded. *)
Context (visited : Z -> Prop) (Hfirst : visited 0).
Context (Hvisited : strict = true -> forall pc, visited pc -> 0 <= pc -> pc * 8 < Z.of_nat (length (program cx)) ->
  pc < N /\ exists i, get_insn_unchecked (E := Stop) (program cx) pc = Ok i /\ insn_ok pc i /\
    visited (pc + insn_slots i)).

Lemma extends_refl s : extends s s.
Proof. by constructor. Qed.

Lemma extends_trans s s' s'' :
  0 <= offset_in_text_section s -> jit_pc s <= jit_pc s' -> extends s s' -> extends s' s'' -> extends s s''.
Proof.
  intros Hz Hp [Ho Ht He] [Ho' Ht' He']. constructor; [lia| |].
  - apply (f_equal (take (Z.to_nat (offset_in_text_section s)))) in Ht'.
    rewrite !take_take, !Nat.min_l in Ht' by lia. by rewrite Ht'.
  - intros i Hi. rewrite He' by lia. by apply He.
Qed.

Lemma stops_mono {X} (r : result Stop X) (P0 Q0 : X -> Prop) : (forall x, P0 x -> Q0 x) -> stops r P0 -> stops r Q0.
Proof. intros HPQ. destruct r as [x|[]|]; simpl; auto. Qed.

Lemma compile_loop_outcome fuel s :
  wf s -> has s -> (strict = true -> visited (jit_pc s)) ->
  (0 < fuel)%nat -> Z.of_nat (length (program cx)) <= jit_pc s * 8 + (Z.of_nat fuel - 1) * 8 ->
  stops (compile_loop cx fuel s) (fun '(_, s') =>
    wf s' /\ has s' /\ extends s s' /\ jit_pc s <= jit_pc s' /\
    Z.of_nat (length (program cx)) <= jit_pc s' * 8 /\ (strict = true -> visited (jit_pc s'))).
Proof.
  revert s. induction fuel as [|fuel IH]; intros s Hs Ha Hv Hpos Hf; simpl; [lia|].
  pose proof (wf_pc _ _ _ _ _ Hs) as Hp. unfold mbind, jit_bind, gets, lift, INSN_SIZE.
  rewrite arith_u64_ok by (unfold is_u; lia).
  destruct (Z.ltb_spec (jit_pc s * 8) (Z.of_nat (length (program cx)))) as [Hlt|Hge].
  2:{ simpl. split_and!; [done|done|apply extends_refl|lia|lia|done]. }
  assert (Hst : strict = true -> jit_pc s < N /\ exists i, get_insn_unchecked (E := Stop) (program cx) (jit_pc s) = Ok i
     /\ insn_ok (jit_pc s) i).
  { intros Hs0. destruct (Hvisited Hs0 _ (Hv Hs0)) as (? & i & ? & ? & _); [lia..|]. eauto. }
  pose proof (compile_instruction_outcome s Hs Ha Hst) as Hc.
  destruct (compile_instruction cx s) as [[[] s1]|[]|]; try done.
  destruct Hc as (Hs1 & Ha1 & Hx & _ & i & Hi & Hp1).
  assert (Hslots : 1 <= insn_slots i) by (unfold insn_slots; by destruct (is_lddw _ _)).
  eapply stops_mono; [|apply IH; try done; try lia].
  - intros [[] s2] (? & ? & ? & ? & ? & ?). split_and!; try done; [|lia].
    eapply extends_trans; [apply (wf_offset _ _ _ _ _ Hs)| |done..]. lia.
  - intros Hs0. destruct (Hvisited Hs0 _ (Hv Hs0)) as (_ & j & Hj & _ & Hn); [lia..|].
    rewrite Hp1. congruence.
Qed.

(** ** The end of the code *)
Lemma encode_nonempty i bs : encode (E := Stop) i = Ok bs -> (0 < length bs)%nat.
Proof.
  unfold encode. intros He. apply result_bind_ok in He as (? & _ & He).
  apply result_bind_ok in He as ([[[[rex mrm] sib] dsz] d] & _ & He). injection He as <-.
  rewrite !length_app, length_cons. lia.
Qed.

Lemma jump_anchor_grows a s :
  wf s -> has s -> a ∈ A -> offset_in_text_section s + 6 <= L ->
  exists s', emit_jump_anchor cx a s = Ok (tt, s') /\ offset_in_text_section s < offset_in_text_section s'.
Proof.
  intros Hs Ha Hin Hr. destruct Hs as [Htl Ho Hp].
  unfold emit_jump_anchor, mbind, jit_bind, relative_to_anchor, text_add.
  rewrite Htl, !(proj2 (Z.leb_le _ _)) by lia. simpl.
  apply (proj1 (Forall_forall _ _) Ha) in Hin as (d & -> & Hd). simpl.
  unfold debug_assert. rewrite (proj2 (Z.eqb_neq d 0)), andb_false_r by lia. simpl.
  unfold offset_from. rewrite Htl, Hp, !(proj2 (Z.leb_le _ _)) by lia. simpl.
  match goal with |- context [jump_immediate ?z] =>
    destruct (codes_jump z) as (i & bs & Hi & Hop & He & Hl); injection Hi as <-;
    destruct (emit_ins_result cx (jump_immediate z) bs s) as (tail & n & g & _ & ->) end;
    [done|done|unfold offset_ok; lia|lia|].
  eexists. split; [done|]. simpl. pose proof (encode_nonempty _ _ He). rewrite length_app. lia.
Qed.

Definition bumper_start : jit G unit :=
  pc ← gets jit_pc;
  next ← lift (arith_u64 (pc + 1));
  _ ← emit_validate_and_profile_instruction_count cx next;
  _ ← emit_load_pc cx;
  emit_set_exception_kind cx ExecutionOverrun.

Lemma emits_bumper_start : plain 109 bumper_start.
Proof.
  unfold bumper_start. apply emits_gets. intros s Hs. pose proof (wf_pc _ _ _ _ _ Hs).
  eapply emits_lift; [apply arith_u64_ok; unfold is_u; lia|].
  eapply (emits_seq _ _ _ _ _ _ _ 66); [apply emits_validate_and_profile; try done; [by apply in_anchors|lia]|done|].
  eapply (emits_seq _ _ _ _ _ _ _ 11); [apply emits_load_pc|done|]. by apply emits_set_exception.
Qed.

Lemma bumper_outcome s :
  wf s -> has s -> stops (emit_bumper cx s) (fun '(_, s') =>
    wf s' /\ offset_in_text_section s < offset_in_text_section s' /\ jit_pc s' = jit_pc s /\
    pc_section (jit_result s') = pc_section (jit_result s)).
Proof.
  intros Hs Ha. pose proof Hs as Hw. destruct Hw as [Htl Ho _ _ _ _ Hp _ _ _ _].
  assert (Heq : emit_bumper cx s =
    (_ ← check_capacity; _ ← bumper_start; emit_jump_anchor cx ANCHOR_THROW_EXCEPTION) s).
  { unfold emit_bumper, bumper_start, mbind, jit_bind, check_capacity, gets, lift.
    destruct (text_len s <=? _); split_results. }
  rewrite Heq. clear Heq. unfold mbind at 1, jit_bind at 1, check_capacity.
  destruct (Z.leb_spec (text_len s) (offset_in_text_section s + MAX_MACHINE_CODE_LENGTH_PER_INSTRUCTION * 2))
    as [Hle|Hgt]; [by right; eexists|]. unfold MAX_MACHINE_CODE_LENGTH_PER_INSTRUCTION in Hgt.
  pose proof (emits_bumper_start s Hs Ha ltac:(lia)) as Hb. unfold mbind, jit_bind.
  destruct (bumper_start s) as [[[] s1]|[]|]; try done; [|by left].
  destruct Hb as (Hs1 & Ha1 & [Ho1 Ht1 Hp1 He1] & _).
  assert (Hin : ANCHOR_THROW_EXCEPTION ∈ A) by (by apply in_anchors).
  destruct (jump_anchor_grows ANCHOR_THROW_EXCEPTION s1 Hs1 Ha1 Hin ltac:(lia)) as (s2 & Hs2 & Hlt).
  pose proof (emits_jump_anchor cx L N T P strict HT A _ Hin s1 Hs1 Ha1 ltac:(lia)) as Hj. rewrite Hs2 in Hj |- *.
  destruct Hj as (Hw2 & _ & [_ _ Hp2 He2] & _). simpl. split_and!; [done|lia|congruence..].
Qed.

(** ** The code before its forward jumps are resolved *)
Context (Hrng : SmallRngLaws G).
Context (Hsub : emits [] 4096 (emit_subroutines cx) (fun _ => True) A).
Context (Hroom : MAX_EMPTY_PROGRAM_MACHINE_CODE_LENGTH + MAX_START_PADDING_LENGTH <= L).

Lemma emits_padding : emits [] 255 (emit_padding cx) (fun _ => True) [].
Proof.
  unfold emit_padding. destruct (negb _); [|by apply emits_ret].
  intros s Hs Ha Hr. unfold mbind, jit_bind, gets, modify.
  pose proof (gen_range_range MAX_START_PADDING_LENGTH (diversification_rng s) ltac:(done)) as Hg.
  destruct (gen_range _ _) as [n g]. simpl in Hg. unfold MAX_START_PADDING_LENGTH in Hg.
  set (s1 := set_noop _ g s).
  assert (Hs1 : wf s1) by (by destruct Hs; constructor).
  assert (Hn : emits [] (1 * Z.of_nat (length (replicate (Z.to_nat n) tt)))
    (for_each (fun _ : unit => emit 1 0x90) (replicate (Z.to_nat n) tt)) (fun _ => True) []).
  { apply emits_for_each; [done|]. apply Forall_forall. intros [] _.
    by apply (emits_writes _ _ _ _ _ _ _ [0x90]); [apply writes_emit_byte|]. }
  specialize (Hn s1 Hs1 Ha). rewrite length_replicate in Hn. specialize (Hn ltac:(simpl; lia)).
  destruct (for_each _ _ s1) as [[x s2]|[]|]; try done. destruct Hn as (? & ? & [] & ?).
  split_and!; try done. constructor; try done. simpl in *. lia.
Qed.

(** Code for every instruction, and entries that lie in it. *)
Record generated s : Prop := {
  gen_wf : wf s;
  gen_entries : Forall (fun e => 0 <= e < offset_in_text_section s) (pc_section (jit_result s))
}.

Lemma generate_outcome s :
  wf s -> offset_in_text_section s = 0 -> jit_pc s = 0 ->
  stops (generate cx s) (fun '(_, s') => generated s').
Proof.
  intros Hs Ho Hp. unfold MAX_EMPTY_PROGRAM_MACHINE_CODE_LENGTH, MAX_START_PADDING_LENGTH in Hroom.
  unfold generate.
  pose proof (emits_padding s Hs ltac:(constructor) ltac:(lia)) as H1'. unfold mbind, jit_bind.
  destruct (emit_padding cx s) as [[[] s1]|[]|]; try done; [|by left].
  destruct H1' as (Hs1 & Ha1 & [Ho1 _ Hp1 _] & _).
  pose proof (Hsub s1 Hs1 Ha1 ltac:(lia)) as H2'.
  destruct (emit_subroutines cx s1) as [[[] s2]|[]|]; try done; [|by left].
  destruct H2' as (Hs2 & Ha2 & [Ho2 _ Hp2 _] & _).
  pose proof (compile_loop_outcome (S (length (program cx))) s2 Hs2 Ha2) as H3'.
  assert (Hz : jit_pc s2 = 0) by congruence. rewrite Hz in H3'. specialize (H3' (fun _ => Hfirst) ltac:(lia) ltac:(lia)).
  destruct (compile_loop cx _ s2) as [[[] s3]|[]|]; try done.
  destruct H3' as (Hs3 & Ha3 & _ & _ & _ & _).
  eapply stops_mono; [|by apply (bumper_outcome s3)].
  intros [[] s4] (Hs4 & Hlt & _ & He). constructor; [done|]. rewrite He.
  eapply Forall_impl; [apply (wf_entries _ _ _ _ _ Hs3)|]. simpl. lia.
Qed.
End Safety.
