(* ===== verification/JitCompileFacts.v ===== *)
(** * The production JIT compiler: from construction to the sealed program

    What [JitCompiler::new] establishes, what [seal] needs, and the theorems
    about [compile] for every executable and for verified ones. *)

From stdpp Require Import strings.
From S2P Require Import Prelude Ebpf Program Verifier VerifierFacts Error Vm X86 PageAllocator PageFacts.
From S2P Require Import JitProgram X86Emit X86EmitFacts JitCompiler JitEmitFacts JitMethodFacts JitCompilerFacts.
From S2P Require Import JitSafety.

(** ** Counting instructions *)
Section Count.
Context `{Profile, ByteOrder}.
Implicit Types prog : list byte.

Lemma get_insn_result prog pc (e : Stop) : get_insn_unchecked prog pc <> Err e.
Proof.
  unfold get_insn_unchecked, arith_u64, or_panic. intros He.
  repeat (match type of He with context [match ?x with _ => _ end] => destruct x end; try done; simpl in He).
Qed.

(** The number of instructions covers every pc of the program. *)
Definition counted prog (n : Z) : Prop :=
  0 <= n /\ Z.of_nat (length prog) / 8 <= n <= Z.of_nat (length prog) / 8 + 1.

Lemma div_8 x : 8 * (x / 8) <= x < 8 * (x / 8) + 8.
Proof. pose proof (Z.div_mod x 8 ltac:(done)). pose proof (Z.mod_pos_bound x 8 ltac:(done)). lia. Qed.

Lemma count_loop_outcome fuel prog pc :
  Z.of_nat (length prog) < 2 ^ 47 -> 0 <= pc <= Z.of_nat (length prog) / 8 + 1 ->
  Z.of_nat (length prog) / 8 < pc + Z.of_nat fuel -> (0 < fuel)%nat ->
  match count_loop fuel prog pc with
  | Ok n => counted prog n
  | Err _ => False
  | Panic => True
  end.
Proof.
  intros Hl. pose proof (div_8 (Z.of_nat (length prog))) as Hdiv.
  revert pc. induction fuel as [|fuel IH]; intros pc Hpc Hf Hpos; simpl; [lia|]. unfold INSN_SIZE.
  rewrite arith_u64_ok by (unfold is_u; lia). simpl. rewrite arith_u64_ok by (unfold is_u; lia). simpl.
  destruct (Z.leb_spec ((pc + 1) * 8) (Z.of_nat (length prog))) as [Hle|Hgt]; [|unfold counted; lia].
  destruct (get_insn_unchecked prog pc) as [i|e|] eqn:Hi; [|by apply get_insn_result in Hi|done]. simpl.
  assert (Hd : 1 <= (if opc i =? LD_DW_IMM then 2 else 1) <= 2) by (destruct (opc i =? LD_DW_IMM); lia).
  rewrite arith_u64_ok by (unfold is_u; lia). simpl. apply IH; lia.
Qed.

Lemma count_outcome v prog :
  Z.of_nat (length prog) < 2 ^ 47 ->
  match count_instructions v prog with
  | Ok n => counted prog n
  | Err _ => False
  | Panic => True
  end.
Proof.
  intros Hl. pose proof (div_8 (Z.of_nat (length prog))) as Hdiv. unfold count_instructions. destruct (negb _).
  - apply count_loop_outcome; lia.
  - unfold counted, INSN_SIZE. lia.
Qed.

Lemma counted_pcs prog n pc :
  Z.of_nat (length prog) < 2 ^ 47 -> counted prog n -> is_pc_in_program prog pc = true -> pc < n.
Proof.
  intros Hl [Hn Hc]. pose proof (div_8 (Z.of_nat (length prog))) as Hdiv. unfold is_pc_in_program, saturating_mul_u64, saturating_add_u64, INSN_SIZE, u64_max.
  intros Hle%Z.leb_le. destruct (Z.lt_ge_cases pc 0); [lia|].
  destruct (Z.le_gt_cases (pc + 1) (2 ^ 64 - 1)); [rewrite (Z.min_l (pc + 1)) in Hle by done; lia|].
  rewrite (Z.min_r (pc + 1)) in Hle by lia. lia.
Qed.

(** The estimate has room for the subroutines and the padding. *)
Lemma estimate_outcome cfg pc :
  0 <= pc < 2 ^ 45 -> 0 <= noop_instruction_rate cfg -> 0 <= instruction_meter_checkpoint_distance cfg ->
  match code_length_estimate cfg pc with
  | Ok n => MAX_EMPTY_PROGRAM_MACHINE_CODE_LENGTH + MAX_START_PADDING_LENGTH <= n < 2 ^ 60
  | Err _ => False
  | Panic => True
  end.
Proof.
  intros Hpc Hr Hd. unfold code_length_estimate, MAX_EMPTY_PROGRAM_MACHINE_CODE_LENGTH, MAX_START_PADDING_LENGTH,
    MAX_MACHINE_CODE_LENGTH_PER_INSTRUCTION, MACHINE_CODE_PER_INSTRUCTION_METER_CHECKPOINT.
  rewrite (arith_u64_ok (110 * pc)) by (unfold is_u; lia). cbn [mbind result_bind].
  rewrite (arith_u64_ok (4096 + 256 + 110 * pc)) by (unfold is_u; lia). cbn [mbind result_bind].
  set (n := 4096 + 256 + 110 * pc). assert (Hn : 4352 <= n < 2 ^ 53) by (unfold n; lia).
  assert (Hq : forall a b, 0 <= a -> 0 < b -> 0 <= a / b <= a)
    by (intros; split; [apply Z.div_pos; lia|apply Z.div_le_upper_bound; nia]).
  assert (H1' : exists m, (if negb (noop_instruction_rate cfg =? 0)
       then arith_u64 (n + n / noop_instruction_rate cfg) else Ok n) = Ok (E := Stop) m /\ 4352 <= m < 2 ^ 54).
  { destruct (Z.eqb_spec (noop_instruction_rate cfg) 0); simpl; [exists n; split; [done|lia]|].
    specialize (Hq n (noop_instruction_rate cfg) ltac:(lia) ltac:(lia)).
    rewrite arith_u64_ok by (unfold is_u; lia). eexists. split; [done|lia]. }
  destruct H1' as (m & -> & Hm). simpl.
  assert (H2' : exists k, (if instruction_meter_checkpoint_distance cfg =? 0 then Ok m
       else q ← arith_u64 (pc / instruction_meter_checkpoint_distance cfg * 24); arith_u64 (m + q)) = Ok (E := Stop) k
       /\ 4352 <= k < 2 ^ 60).
  { destruct (Z.eqb_spec (instruction_meter_checkpoint_distance cfg) 0); [exists m; split; [done|lia]|].
    specialize (Hq pc (instruction_meter_checkpoint_distance cfg) ltac:(lia) ltac:(lia)).
    rewrite arith_u64_ok by (unfold is_u; lia). simpl. rewrite arith_u64_ok by (unfold is_u; lia).
    eexists. split; [done|lia]. }
  destruct H2' as (k & -> & Hk). simpl. unfold debug_assert. by destruct (_ && _).
Qed.
End Count.

(** ** Allocation and sealing *)
Section Pages.
Context {W : Type} `{Profile, LibcLaws W}.
Implicit Types (p : JitProgram) (w : W).

(** [v] rounded up to whole pages. *)
Definition in_pages (v : Z) : Z := (v + page_size_of_system - 1) / page_size_of_system * page_size_of_system.

Lemma in_pages_ok {E} v :
  0 <= v < 2 ^ 63 -> round_to_page_size (E := E) v page_size_of_system = Ok (in_pages v) /\
    v <= in_pages v < v + page_size_of_system /\ in_pages v mod page_size_of_system = 0.
Proof.
  intros Hv. pose proof page_size_range as Hp.
  destruct (round_to_page_size_ok (E := E) v page_size_of_system) as (r & -> & Hm & Hr & ->);
    [lia|lia|unfold u64_max; lia|]. done.
Qed.

Lemma in_pages_le v n : 0 <= v <= n -> n mod page_size_of_system = 0 -> in_pages v <= n.
Proof.
  intros Hv Hn. pose proof page_size_range as Hp. rewrite <- (round_exact n page_size_of_system) by (done || lia).
  unfold in_pages. apply Z.mul_le_mono_nonneg_r; [lia|]. apply Z.div_le_mono; lia.
Qed.

(** A program as [JitProgram::new] leaves it: [n] entries, the code right after
    the pages of the table, and both inside one block. *)
Record laid_out p (n L : Z) : Prop := {
  lay_page : page_size p = page_size_of_system;
  lay_entries : Z.of_nat (length (pc_section p)) = n;
  lay_text : Z.of_nat (length (text_section p)) = L;
  lay_ptr : text_section_ptr p = pc_section_ptr p + in_pages (4 * n);
  lay_pos : 0 < pc_section_ptr p;
  lay_whole : L mod page_size_of_system = 0;
  lay_size : in_pages (4 * n) + L <= allocation_size p <= BUCKET_MAX
}.

Lemma new_program_outcome pc n memory pool w live :
  pool_ok (pool, w, live) -> 0 <= pc < 2 ^ 60 -> 0 <= n < 2 ^ 60 ->
  match JitProgram_new pc n memory pool w with
  | (Ok (p, pool'), w') =>
      laid_out p pc (in_pages n) /\ pc_section p = replicate (Z.to_nat pc) 0 /\
      pool_ok (pool', w', (pc_section_ptr p, allocation_size p) :: live) /\
      Forall (apart (pc_section_ptr p, allocation_size p)) live
  | (Err _, _) => False
  | (Panic, _) => True
  end.
Proof.
  intros Hok Hpc Hn. pose proof page_size_range as Hp. unfold JitProgram_new, get_system_page_size.
  rewrite (arith_u64_ok (pc * 4)) by (unfold is_u; lia). cbn [mbind result_bind].
  replace (pc * 4) with (4 * pc) by lia.
  destruct (in_pages_ok (E := Stop) (4 * pc)) as (-> & Hr1 & Hm1); [lia|]. cbn [mbind result_bind].
  destruct (in_pages_ok (E := Stop) n) as (-> & Hr2 & Hm2); [lia|]. cbn [mbind result_bind].
  rewrite arith_u64_ok by (unfold is_u; lia). cbn [mbind result_bind].
  destruct (allocate_pages_pooled _ pool w) as [[[[raw size] pool']|e|] w'] eqn:Ha; cbn [mbind result_bind].
  - apply (pool_alloc_ok _ _ live) in Ha as (Hsz & _ & Hraw & Hend & Hap & Hok'); [|done|lia].
    rewrite !(proj2 (Z.ltb_ge _ _)) by lia. cbn [orb]. split_and!; [|done|done|done].
    constructor; cbn; [done| |..]; try done; try lia.
    + rewrite length_replicate. lia.
    + rewrite length_fmap, length_seqZ. lia.
  - unfold allocate_pages_pooled, pool_alloc in Ha. destruct (get pool _); [|done].
    unfold FreeList.alloc in Ha. destruct (last _); [done|]. destruct (allocate_pages _ w) as [[] ?]; done.
  - done.
Qed.

(** An error that an operating system call returned. *)
Definition libc_error (e : EbpfError) : Prop := exists name args no, e = LibcInvocationFailed name args no.

Lemma protect_result a n perm w :
  exists w', protect_pages a n perm w = (Ok tt, w') \/
    exists e, protect_pages a n perm w = (Err e, w') /\ libc_error e.
Proof.
  unfold protect_pages, guarded. destruct (retry _ _ _) as [[] w']; exists w'; [by left|right].
  eexists. split; [done|]. by do 3 eexists.
Qed.

Lemma in_pages_ge v : v <= in_pages v.
Proof.
  pose proof page_size_range as Hp. unfold in_pages. generalize dependent (page_size_of_system (W := W)). intros ps Hp.
  pose proof (Z.div_mod (v + ps - 1) ps ltac:(lia)). pose proof (Z.mod_pos_bound (v + ps - 1) ps ltac:(lia)). nia.
Qed.

Lemma seal_outcome p n L usage w :
  laid_out p n L -> 0 <= n -> 0 <= usage <= L ->
  match (seal p usage w).1 with
  | Ok q => pc_section q = pc_section p /\ text_section q = take (Z.to_nat usage) (text_section p) /\
      pc_section_ptr q = pc_section_ptr p /\ text_section_ptr q = text_section_ptr p
  | Err (Fails e) => libc_error e
  | _ => False
  end.
Proof.
  intros [Hpage He Hl Hptr Hpos Hw Hsz] Hn Hu. pose proof page_size_range as Hp. unfold BUCKET_MAX in Hsz.
  unfold seal. rewrite Hpage, (proj2 (Z.eqb_neq page_size_of_system 0)), He by lia.
  pose proof (in_pages_ge (4 * n)).
  destruct (in_pages_ok (E := Stop) (4 * n)) as (-> & Hr1 & Hm1); [lia|]. cbn [mbind result_bind].
  destruct (in_pages_ok (E := Stop) usage) as (-> & Hr2 & Hm2); [lia|]. cbn [mbind result_bind].
  pose proof (in_pages_le usage L Hu Hw) as Hle.
  rewrite arith_u64_ok by (unfold is_u; lia). cbn [mbind result_bind].
  rewrite Hl, Hptr, Z.eqb_refl, (proj2 (Z.ltb_ge _ _)) by lia. cbn [orb negb].
  destruct (protect_result (pc_section_ptr p) (in_pages (4 * n)) Read w) as (w1 & [->|(e & -> & Hlibc)]); [|done].
  match goal with |- context [protect_pages ?a ?b ?c w1] =>
    destruct (protect_result a b c w1) as (w2 & [->|(e & -> & Hlibc)]) end; [|done].
  cbn. split_and!; try done. unfold splice. rewrite take_app_le, take_take; [f_equal; lia|]. rewrite length_take. lia.
Qed.
End Pages.

(** ** Construction *)
Section Construct.
Context {V G W : Type} `{Profile, ByteOrder, SmallRng G, LibcLaws W}.

(** What the types of the fields guarantee, and an address space of 47 bits. *)
Record executable_typed (e : Executable V) : Prop := {
  typed_text a prog : get_text_bytes (E := Stop) e = Ok (a, prog) -> Z.of_nat (length prog) < 2 ^ 47;
  typed_config cfg : config (exec_loader e) = Some cfg ->
    0 <= noop_instruction_rate cfg /\ 0 <= instruction_meter_checkpoint_distance cfg
}.

(** A compiler that has not emitted anything. *)
Record ready (e : Executable V) (cx : JitEnv V) (s : JitCompiler G) (L N : Z) : Prop := {
  rdy_executable : executable cx = e;
  rdy_config : config (exec_loader e) = Some (jit_config cx);
  rdy_program : get_text_bytes (E := Stop) e = Ok (program_vm_addr cx, program cx);
  rdy_count : count_instructions (sbpf_version e) (program cx) = Ok N;
  rdy_key : is_i 31 (runtime_environment_key cx);
  rdy_laid : laid_out (W := W) (jit_result s) N L;
  rdy_room : MAX_EMPTY_PROGRAM_MACHINE_CODE_LENGTH + MAX_START_PADDING_LENGTH <= L;
  rdy_entries : pc_section (jit_result s) = replicate (Z.to_nat N) 0;
  rdy_jumps : text_section_jumps s = [];
  rdy_anchors : Z.of_nat (length (anchors s)) = ANCHOR_COUNT;
  rdy_offset : offset_in_text_section s = 0;
  rdy_pc : jit_pc s = 0;
  rdy_validation : last_instruction_meter_validation_pc s = 0
}.

Lemma get_text_bytes_result (e : Executable V) (x : Stop) : get_text_bytes e <> Err x.
Proof.
  unfold get_text_bytes, arith_u64, or_panic. intros He.
  repeat (match type of He with context [match ?x with _ => _ end] => destruct x end; try done; simpl in He).
Qed.

Lemma arith_u32_result z (x : Stop) : arith_u32 z <> Err x.
Proof. unfold arith_u32. by repeat case_match. Qed.

Lemma key_range random : is_i 32 random -> is_i 31 (get_runtime_environment_key random).
Proof.
  unfold is_i, get_runtime_environment_key. change (2 ^ (32 - 1)) with (2 ^ 31). change (2 ^ (31 - 1)) with (2 ^ 30).
  intros Hr. rewrite Z.shiftr_div_pow2 by done. change (2 ^ 1) with 2.
  split; [apply Z.div_le_lower_bound; lia|apply Z.div_lt_upper_bound; lia].
Qed.

Lemma new_outcome e rng random memory pool w live :
  executable_typed e -> is_i 32 random -> pool_ok (pool, w, live) ->
  match JitCompiler_new (G := G) e rng random memory pool w with
  | (Ok (cx, s, pool'), w') => (exists L N, ready e cx s L N) /\
      pool_ok (pool', w', (pc_section_ptr (jit_result s), allocation_size (jit_result s)) :: live)
  | (Err (Fails x), _) => x = JitNotCompiled /\ rng = None
  | (Err _, _) => False
  | (Panic, _) => True
  end.
Proof.
  intros [Htext Hcfg] Hrand Hok. unfold JitCompiler_new.
  destruct (config (exec_loader e)) as [cfg|] eqn:Hc; [|done]. cbn [or_panic mbind result_bind].
  destruct (Hcfg cfg eq_refl) as [Hrate Hdist].
  destruct (get_text_bytes e) as [[a prog]|x|] eqn:Ht; [|by apply get_text_bytes_result in Ht|done].
  specialize (Htext a prog eq_refl). cbn [mbind result_bind].
  pose proof (count_outcome (sbpf_version e) prog Htext) as Hcount.
  destruct (count_instructions _ prog) as [N|x|] eqn:Hn; [|done..]. destruct Hcount as [Hn0 Hn1].
  pose proof (div_8 (Z.of_nat (length prog))) as Hdiv. cbn [mbind result_bind].
  pose proof (estimate_outcome cfg N ltac:(lia) Hrate Hdist) as Hest.
  destruct (code_length_estimate cfg N) as [n|x|]; [|done..]. cbn [mbind result_bind].
  destruct rng as [g|]; [|done]. cbn [ok_or mbind result_bind].
  destruct (gen_i64 g) as [ivk g1].
  unfold MAX_EMPTY_PROGRAM_MACHINE_CODE_LENGTH, MAX_START_PADDING_LENGTH in Hest.
  pose proof (new_program_outcome N n memory pool w live Hok ltac:(lia) ltac:(lia)) as Hnew.
  destruct (JitProgram_new N n memory pool w) as [[[p pool']|x|] w']; [|done..].
  destruct Hnew as (Hlay & Hent & Hok' & _). cbn [mbind result_bind].
  assert (Hnoop : forall (x : Stop), (if noop_instruction_rate cfg =? 0 then Ok (u32_max, g1)
    else high ← arith_u32 (noop_instruction_rate cfg * 2); if high =? 0 then Panic else Ok (gen_range high g1)) <> Err x).
  { intros x Hx. destruct (_ =? 0); [done|]. destruct (arith_u32 _) eqn:Hu; [|by apply arith_u32_result in Hu|done].
    simpl in Hx. by destruct (_ =? 0). }
  destruct (if noop_instruction_rate cfg =? 0 then _ else _) as [[z g2]|x|]; [|by destruct (Hnoop x)|done].
  cbn [mbind result_bind].
  destruct (arith_u32 _) as [high|x|] eqn:Hu; [|by apply arith_u32_result in Hu|done]. cbn [mbind result_bind].
  split; [|done]. exists (in_pages n), N.
  pose proof (in_pages_ge n). constructor; cbn; try done; [by apply key_range|].
  unfold MAX_EMPTY_PROGRAM_MACHINE_CODE_LENGTH, MAX_START_PADDING_LENGTH. lia.
Qed.

(** Where a program lies. *)
Definition block_of (s : JitCompiler G) : Z * Z * Z :=
  (pc_section_ptr (jit_result s), page_size (jit_result s), allocation_size (jit_result s)).

Lemma ready_wf e cx s L N :
  executable_typed e -> ready e cx s L N ->
  wf L N (text_section_ptr (jit_result s)) (block_of s) s /\
  0 <= N < 2 ^ 31 /\ L <= 2 ^ 31 /\ 0 < text_section_ptr (jit_result s).
Proof.
  intros Hty []. destruct rdy_laid0. pose proof (in_pages_ge (4 * N)). unfold BUCKET_MAX in *.
  pose proof page_size_range as Hps.
  assert (Hn : 0 <= N) by lia. assert (Hl : 0 <= L) by lia.
  split_and!; [|lia..]. constructor; rewrite ?rdy_offset0, ?rdy_pc0, ?rdy_validation0, ?rdy_jumps0; try done; try lia.
  - rewrite rdy_entries0. apply Forall_replicate. lia.
  - simpl. lia.
Qed.
End Construct.

(** ** [compile] *)
Section Compile.
Context {V G W : Type} `{Profile, ByteOrder, SmallRngLaws G, HostLaws V, !Codegen V G, !CodegenLaws V G, LibcLaws W}.
Context (e : Executable V) (cx : JitEnv V) (s : JitCompiler G) (L N : Z).
Context (Htyped : executable_typed e) (Hready : ready (W := W) e cx s L N) (Hdisjoint : registries_disjoint (executable cx)).

Abbreviation T := (text_section_ptr (jit_result s)).
Abbreviation P := (block_of s).

(** What a compiled program is: the code that was generated, every entry of
    the pc table inside it, and every forward jump leading to the entry of its
    target. *)
Record compiled (s1 : JitCompiler G) (p : JitProgram) : Prop := {
  com_length : machine_code_length p = offset_in_text_section s1;
  com_pcs : pc_section p = pc_section (jit_result s1) /\ Z.of_nat (length (pc_section p)) = N;
  com_entries : Forall (fun entry => 0 <= entry < machine_code_length p) (pc_section p);
  com_jumps : Forall (resolved T (pc_section p) (text_section p)) (text_section_jumps s1);
  com_rest i : (i < length (text_section p))%nat -> uncovered T (text_section_jumps s1) i ->
    text_section p !! i = text_section (jit_result s1) !! i
}.

Lemma jumps_below lo hi js : jumps_in lo hi js -> T <= lo -> Forall (fun j => Z.of_nat (jump_slot T j) + 4 <= hi - T) js.
Proof.
  revert lo. induction js as [|j js IH]; intros lo; simpl; [by constructor|]. intros [Hj Hjs] Hlo.
  pose proof (jumps_in_le _ _ _ Hjs). constructor; [unfold jump_slot; lia|]. apply (IH (location j + 4)); [done|lia].
Qed.

Lemma resolved_take entries t j n :
  (jump_slot T j + 4 <= n)%nat -> resolved T entries t j -> resolved T entries (take n t) j.
Proof.
  intros Hn (entry & He & Ht). exists entry. split; [done|]. rewrite <- Ht. apply take_drop_eq.
  intros k Hk. apply lookup_take_lt. lia.
Qed.

(** From generated code to the sealed program. *)
Lemma finish_outcome s1 w :
  L <= 2 ^ 31 -> 0 <= N -> generated (G := G) L N T P s1 ->
  match resolve_jumps s1 with
  | Ok (_, s2) =>
      match (seal (jit_result s2) (offset_in_text_section s2) w).1 with
      | Ok p => compiled s1 p
      | Err (Fails x) => libc_error x
      | _ => False
      end
  | _ => False
  end.
Proof.
  intros HL HN [Hwf Hent]. destruct Hwf as [Htl Ho HT HP Hpcs _ _ _ _ Hj Htg].
  injection HP as HP1 HP2 HP3.
  assert (Hres : resolvable L T T (text_section_jumps s1) s1).
  { constructor; [done..|lia|eapply jumps_in_mono; [done|lia]|]. eapply Forall_impl; [exact Htg|].
    intros j Hr. simpl in Hr. destruct (get_Some (pc_section (jit_result s1)) (JitProgram.target_pc j)) as [x Hx]; [lia|].
    exists x. split; [done|]. unfold get in Hx. destruct (_ <? 0); [done|].
    pose proof (Forall_lookup_1 _ _ _ _ Hent Hx). simpl in *. lia. }
  unfold resolve_jumps. destruct (resolve_all L T HL _ _ _ Hres) as (t & -> & Hlen & Hall & Hun).
  assert (Hlay2 : laid_out (W := W) (jit_result (set_text t (offset_in_text_section s1) s1)) N L).
  { destruct (rdy_laid _ _ _ _ _ Hready). constructor; simpl; rewrite ?HT, ?HP1, ?HP2, ?HP3, ?Hlen; done. }
  pose proof (seal_outcome _ N L (offset_in_text_section s1) w Hlay2 HN Ho) as Hseal.
  simpl in *. destruct (seal _ _ w).1 as [p|[]|]; try done.
  destruct Hseal as (Hpc & Htext & _ & _). unfold text_len in Htl.
  assert (Hml : machine_code_length p = offset_in_text_section s1).
  { unfold machine_code_length. rewrite Htext, length_take. lia. }
  constructor; rewrite ?Hml, ?Hpc, ?Htext; try done.
  - pose proof (jumps_below _ _ _ Hj ltac:(lia)) as Hb.
    apply Forall_forall. intros j Hin. rewrite Forall_forall in Hb, Hall. specialize (Hb j Hin). specialize (Hall j Hin).
    apply resolved_take; [lia|done].
  - intros i Hi Hu. rewrite length_take in Hi. rewrite lookup_take_lt by lia. by apply Hun.
Qed.

Lemma compile_outcome (strict : bool) (visited : Z -> Prop) w :
  (strict = true -> setup_ok cx N /\ is_i 62 (as_i 64 (stack_frame_size (jit_config cx)))) -> visited 0 ->
  (strict = true -> forall pc, visited pc -> 0 <= pc -> pc * 8 < Z.of_nat (length (program cx)) ->
    pc < N /\ exists i, get_insn_unchecked (E := Stop) (program cx) pc = Ok i /\ insn_ok (G := G) cx N pc i /\
      visited (pc + insn_slots cx i)) ->
  match (compile cx s w).1 with
  | Ok p => exists s1, generate cx s = Ok (tt, s1) /\ compiled s1 p
  | Err (Fails x) => strict = false \/ (exists pc, x = ExhaustedTextSegment pc) \/ libc_error x
  | Err _ => False
  | Panic => strict = false
  end.
Proof.
  intros Hsetup Hfirst Hvisited. destruct (ready_wf e cx s L N Htyped Hready) as (Hwf & HN & HL & HT).
  pose proof Hready as [Hex Hcf Hprog Hcount Hkey Hlay Hroom Hent Hjs Han Ho Hp Hv].
  pose proof (typed_text _ Htyped _ _ Hprog) as Hlen.
  pose proof (count_outcome (sbpf_version e) (program cx) Hlen) as Hc. rewrite Hcount in Hc.
  destruct (emits_subroutines (G := G) cx L N T P strict HT HN Hkey) as (A & HA & Htrace & Hsub).
  { intros Hs0. by destruct (Hsetup Hs0). }
  assert (Hgen : stops strict (generate cx s) (fun '(_, s1) => generated L N T P s1)).
  { refine (generate_outcome cx L N T P strict HT HL HN Hkey A HA Htrace Hdisjoint _ _ visited Hfirst Hvisited _ Hsub Hroom s Hwf Ho Hp).
    - intros pc. by apply counted_pcs.
    - intros Hs0. by destruct (Hsetup Hs0). }
  unfold compile, mbind, jit_bind. destruct (generate cx s) as [[[] s1]|[]|]; try done.
  - pose proof (finish_outcome s1 w HL ltac:(lia) Hgen) as Hfin.
    destruct (resolve_jumps s1) as [[[] s2]|[]|]; try done.
    destruct (seal _ _ w).1 as [p|[]|]; try done; eauto.
  - simpl. destruct Hgen; auto.
Qed.
End Compile.
