(* ===== verification/JitVerified.v ===== *)
(** * The production JIT compiler: its guarantees

    For every executable in which no key names a native and an internal function,
    no access of the compiler leaves its buffers; a file that loads and that
    the verifier accepts is compiled without a panic, and its code leads where
    its jumps point. *)

From stdpp Require Import strings relations.
From S2P Require Import Prelude Ebpf Program Verifier VerifierFacts Error Vm X86 PageAllocator PageFacts.
From S2P Require Import JitProgram X86Emit X86EmitFacts JitCompiler JitEmitFacts JitMethodFacts JitCompilerFacts.
From S2P Require Import JitSafety JitCompileFacts AlignedMemory ElfParser ElfParserFacts Elf ElfFacts ElfLoadFacts.

Lemma match_opc_default {X} o (arms : list (arm X)) d : handles o arms = false -> match_opc o arms d = d.
Proof. unfold handles. induction arms as [|a arms IH]; simpl; [done|]. by destruct (existsb _ _ && arm_guard a). Qed.

(** ** Verified programs *)
Section Accepted.
Context {V G : Type} `{Profile, ByteOrderLaws, SmallRng G, Host V, !Codegen V G} (cx : JitEnv V) (N : Z).
Abbreviation prog := (program cx).
Abbreviation version := (sbpf_version (executable cx)).
Context (Hbytes : is_bytes prog) (Hlen : Z.of_nat (length prog) < 2 ^ 47).
Context (Haccept : verify prog version = Ok tt) (HN : slots prog <= N).

(** The loop never starts on the second half of an [lddw]. *)
Definition head (pc : Z) : Prop := pc = 0 \/ ~ lddw_at prog version (pc - 1).

Lemma accepted_aligned : Z.of_nat (length prog) = 8 * slots prog.
Proof. by apply (safe_aligned _ _ (verify_safe prog version Hbytes ltac:(lia) Haccept)). Qed.

Lemma accepted_slot pc : 0 <= pc < slots prog -> head pc -> slot_accepted prog version pc.
Proof.
  intros Hpc Hh. pose proof accepted_aligned as Ha. revert Haccept. unfold verify.
  destruct (check_prog_len prog); [|done..]. cbn [mbind result_bind]. intros Hv.
  destruct (verify_loop_sound prog version Hbytes ltac:(lia) Ha _ 0 ltac:(lia) Hv pc ltac:(lia))
    as [Hs|(Hp & Hd & Hs)]; [done|]. destruct Hh as [Hh|Hh]; [exfalso; clear - Hp Hh; lia|by contradiction Hh].
Qed.

(** An opcode the verifier accepts has an arm in the compiler. *)
Lemma accepted_handled pc dst src t :
  0 <= pc < slots prog -> slot_accepted prog version pc ->
  handles (opc (slot prog pc)) (compile_arms (G := G) cx (slot prog pc) dst src t) = true.
Proof.
  intros Hpc [p Hp]. pose proof accepted_aligned as Ha.
  rewrite (verify_insn_eq prog version Hbytes ltac:(lia) Ha) in Hp by done.
  apply (verified_opcode_handled cx (slot prog pc) dst src t prog (slots prog) pc).
  - apply (wf_opc _ (slot_well_formed prog Hbytes pc Hpc)).
  - destruct (handles (opc (slot prog pc)) (verify_arms _ _ _ _ _)) eqn:Hh; [done|]. exfalso.
    unfold verdict_at, arms_at in Hp. by rewrite match_opc_default in Hp by exact Hh.
Qed.

Lemma accepted_insn pc :
  head pc -> 0 <= pc -> pc * 8 < Z.of_nat (length prog) ->
  pc < N /\ exists i, get_insn_unchecked (E := Stop) prog pc = Ok i /\ insn_ok (G := G) cx N pc i /\
    head (pc + insn_slots cx i).
Proof.
  intros Hh Hpc Hlt. pose proof accepted_aligned as Ha. assert (Hr : 0 <= pc < slots prog) by lia.
  split; [lia|]. exists (slot prog pc).
  pose proof (accepted_slot pc Hr Hh) as Hacc.
  pose proof (slot_accepted_safe prog version Hbytes ltac:(lia) Ha pc Hr Hacc) as Hsafe.
  pose proof (slot_well_formed prog Hbytes pc Hr) as Hwf.
  assert (Hdw : is_lddw cx (slot prog pc) = true -> lddw_at prog version pc).
  { unfold is_lddw. intros [Ho%Z.eqb_eq Hd%negb_true_iff]%andb_prop. by apply (safe_lddw _ _ _ Hsafe). }
  split_and!.
  - apply get_insn_slot; lia.
  - destruct Hsafe. constructor; try done.
    + apply Hwf.
    + intros dst src t. by apply accepted_handled.
    + intros Hj. destruct (safe_jump Hj) as [Ht _]. unfold jump_target in Ht. lia.
    + intros Hc Hs Hd. specialize (safe_callx Hc). unfold callx_register in safe_callx. rewrite Hs, Hd in safe_callx. lia.
    + intros Hl. destruct (Hdw Hl) as (_ & _ & Hn & _). split; [lia|].
      destruct (augment_lddw_ok (E := Stop) prog (slot prog pc)) as [z Hz]; [simpl; lia..|]. by eexists.
  - right. unfold insn_slots. destruct (is_lddw cx (slot prog pc)) eqn:Hl.
    + destruct (Hdw eq_refl) as (_ & _ & _ & H0'). intros (_ & Ho & _).
      replace (pc + 2 - 1) with (pc + 1) in Ho by lia. rewrite H0' in Ho. done.
    + replace (pc + 1 - 1) with pc by lia. intros (Hd & Ho & _). unfold is_lddw in Hl. rewrite Ho, Hd in Hl. done.
Qed.
End Accepted.

(** ** Every executable *)
Section Guarantees.
Context {V G W : Type} `{Profile, ByteOrder, SmallRngLaws G, HostLaws V, !Codegen V G, !CodegenLaws V G, LibcLaws W}.
Implicit Types (e : Executable V) (w : W).

(** C3: The compiler never reads or writes outside its buffers and always
    ends, for every executable in which no key that resolves calls names both a
    native and an internal function, even one the verifier would reject,
    whatever the random numbers, the placement of noops and the state of the
    page pool, with native functions whose hooks generate no more code than the
    default one: all raw-pointer writes of the generated code, of the padding,
    of the forward jumps and of the traps that seal the program lie inside the
    text section. *)
Theorem jit_compile_in_bounds e rng random memory w0 pool w live :
  executable_typed e -> registries_disjoint e -> is_i 32 random ->
  rtc pool_step (pool_new, w0, []) (pool, w, live) ->
  (jit_compile (G := G) e rng random memory pool w).1.1 <> Err Undefined /\
  (jit_compile (G := G) e rng random memory pool w).1.1 <> Err OutOfFuel.
Proof.
  intros Hty Hd Hr Hok%pool_reachable_ok. unfold jit_compile.
  pose proof (new_outcome (G := G) e rng random memory pool w live Hty Hr Hok) as Hnew.
  destruct (JitCompiler_new _ _ _ _ _ _) as [[[[cx s] pool']|[]|] w']; try done.
  destruct Hnew as [(L & N & Hready) _].
  assert (Hd' : registries_disjoint (executable cx)) by (by rewrite (rdy_executable _ _ _ _ _ Hready)).
  pose proof (compile_outcome e cx s L N Hty Hready Hd' false (fun _ => True) w' ltac:(done) I ltac:(done)) as Hc.
  destruct (compile cx s w') as [[p|x|] w1]; simpl in Hc |- *; [done| |].
  - destruct (JitProgram_drop _ _ w1) as [[]?]; destruct x; done.
  - destruct (JitProgram_drop _ _ w1) as [[]?]; done.
Qed.

(** C5: In the compiled program of an executable in which no key that resolves
    calls names both a native and an internal function, every entry of the pc table, which indirect calls
    go through, points into the machine code, and every forward jump of the
    generated code has the distance to the entry of its target as its
    displacement, with no other byte of the code changed. *)
Theorem compile_resolves_jumps e rng random memory w0 pool w live cx s pool' w' p w'' :
  executable_typed e -> registries_disjoint e -> is_i 32 random ->
  rtc pool_step (pool_new, w0, []) (pool, w, live) ->
  JitCompiler_new (G := G) e rng random memory pool w = (Ok (cx, s, pool'), w') ->
  compile cx s w' = (Ok p, w'') ->
  exists s1 N, generate cx s = Ok (tt, s1) /\ count_instructions (sbpf_version e) (program cx) = Ok N /\
    compiled s N s1 p.
Proof.
  intros Hty Hd Hr Hok%pool_reachable_ok Hnew Hc.
  pose proof (new_outcome (G := G) e rng random memory pool w live Hty Hr Hok) as Hn. rewrite Hnew in Hn.
  destruct Hn as [(L & N & Hready) _].
  assert (Hd' : registries_disjoint (executable cx)) by (by rewrite (rdy_executable _ _ _ _ _ Hready)).
  pose proof (compile_outcome e cx s L N Hty Hready Hd' false (fun _ => True) w' ltac:(done) I ltac:(done)) as Hout.
  rewrite Hc in Hout. destruct Hout as (s1 & Hg & Hcom). exists s1, N. split_and!; [done|apply Hready|done].
Qed.
End Guarantees.

Section Verified.
Context {V G W : Type} `{Profile, ByteOrderLaws, SmallRngLaws G, HostLaws V, !Codegen V G, !CodegenLaws V G, LibcLaws W}.
Implicit Types (e : Executable V) (w : W).

(** What the configuration guarantees: sizes within the address space. *)
Record config_typed (cfg : Config) : Prop := {
  cfg_rate : 0 <= noop_instruction_rate cfg;
  cfg_distance : 0 <= instruction_meter_checkpoint_distance cfg < 2 ^ 63;
  cfg_frame : is_i 62 (stack_frame_size cfg)
}.

(** Where calls are resolved by key, internal functions lie in the program. *)
Definition functions_in e (prog : list byte) : Prop :=
  static_syscalls (sbpf_version e) = false -> forall key name t,
    lookup_by_key (function_registry e) key = Some (name, t) -> 0 <= t < slots prog.

Lemma verified_compiles e cfg rng random memory w0 pool w live cx s pool' w' :
  executable_typed e -> registries_disjoint e -> is_i 32 random ->
  rtc pool_step (pool_new, w0, []) (pool, w, live) ->
  JitCompiler_new (G := G) e rng random memory pool w = (Ok (cx, s, pool'), w') ->
  config (exec_loader e) = Some cfg -> config_typed cfg ->
  is_bytes (program cx) -> functions_in e (program cx) -> verify (program cx) (sbpf_version e) = Ok tt ->
  match (compile cx s w').1 with
  | Ok p => exists s1 N, compiled s N s1 p
  | Err (Fails x) => (exists pc, x = ExhaustedTextSegment pc) \/ libc_error x
  | _ => False
  end.
Proof.
  intros Hty Hd Hr Hok%pool_reachable_ok Hnew Hcfg [_ Hdist Hfs] Hb Hf Hv.
  pose proof (new_outcome (G := G) e rng random memory pool w live Hty Hr Hok) as Hn. rewrite Hnew in Hn.
  destruct Hn as [(L & N & Hready) _]. pose proof Hready as [Hex Hcf Hprog Hcount _ _ _ _ _ _ _ _ _].
  assert (Hd' : registries_disjoint (executable cx)) by (by rewrite Hex).
  pose proof (typed_text _ Hty _ _ Hprog) as Hlen. rewrite Hcfg in Hcf. injection Hcf as ->.
  pose proof (count_outcome (sbpf_version e) (program cx) Hlen) as Hn. rewrite Hcount in Hn.
  assert (HN : slots (program cx) <= N) by (unfold slots; destruct Hn; lia).
  unshelve epose proof (compile_outcome e cx s L N Hty Hready Hd' true (head cx) w' _ _ _) as Hout.
  - intros _. split; [constructor; [lia|]|].
    + rewrite Hex. intros Hst key name t Hk. pose proof (Hf Hst _ _ _ Hk). lia.
    + rewrite as_i_small; [done|done|]. revert Hfs. unfold is_i. change (2 ^ (62 - 1)) with (2 ^ 61).
      change (2 ^ (64 - 1)) with (2 ^ 63). lia.
  - by left.
  - intros _ pc Hh Hpc Hlt. rewrite <- Hex in Hv. exact (accepted_insn cx N Hb Hlen Hv HN pc Hh Hpc Hlt).
  - destruct (compile cx s w').1 as [p|[]|]; try done; [|by destruct Hout as [|]].
    destruct Hout as (s1 & _ & Hcom). by exists s1, N.
Qed.
End Verified.

(** ** Loaded files *)
Section Loaded.
Context {V : Type} {P : Profile} {B : ByteOrder} {BL : ByteOrderLaws}.
Context {U : ByteOrderUnsigned} {UL : ByteOrderUnsignedLaws} {M : Murmur3} {ML : Murmur3Laws}.
Context {A : Allocator} {AL : AllocatorLaws}.
Implicit Types (loader : BuiltinProgram V) (e : Executable V).

Lemma strict_is_static v : enable_stricter_elf_headers v = static_syscalls v.
Proof. done. Qed.

(** What the compiler needs of an executable is what both loaders establish. *)
Lemma load_compilable bytes_addr bytes loader e :
  is_bytes bytes -> load bytes_addr bytes loader = Ok e ->
  exec_loader e = loader /\ registries_disjoint e /\
  forall base prog, get_text_bytes (E := Stop) e = Ok (base, prog) ->
    is_bytes prog /\ Z.of_nat (length prog) <= Z.of_nat (length bytes) /\
    (Z.of_nat (length prog) = 8 * slots prog -> prog <> [] -> functions_in e prog).
Proof.
  intros Hb Hload. pose proof (load_loaded_ok _ _ _ _ Hb Hload) as [Hl _ _ Htext].
  apply load_inv in Hload as (v & e' & _ & -> & He').
  change (exec_loader (set_sbpf_version v e')) with (exec_loader e') in *. split; [done|].
  unfold registries_disjoint, functions_in. change (sbpf_version (set_sbpf_version v e')) with v.
  rewrite <- strict_is_static. destruct (enable_stricter_elf_headers v).
  - apply load_strict_ok in He' as Hok; [|done]. split; [done|]. intros base prog Hp.
    destruct (Htext base prog (get_text_bytes_any _ _ Hp)) as (Hpb & _). split_and!; [done| |done].
    change (get_text_bytes (E := Stop) e' = Ok (base, prog)) in Hp. rewrite (strict_text _ _ _ Hok) in Hp.
    injection Hp as <- <-. unfold file_bytes. rewrite length_take, length_drop. lia.
  - apply load_lenient_ok in He' as (elf & text & Hok & Hfrom); [|done].
    pose proof (lo_registered _ _ _ _ Hok) as Hreg. change (exec_loader (set_sbpf_version v e')) with (exec_loader e'). rewrite Hl. split.
    + intros _ key [x Hx]. destruct (lookup_by_key (function_registry _) key) as [[name t]|] eqn:Hk; [|done].
      apply Hreg in Hk as [_ Hk]. congruence.
    + intros base prog Hp. change (get_text_bytes (E := Stop) e' = Ok (base, prog)) in Hp.
      destruct (lenient_text_bytes _ _ _ _ _ _ Hok Hp) as [Hpb Hpl].
      destruct (text_range_ok _ _ _ _ Hok) as (Hr & H0 & H1 & H2). rewrite (lo_length _ _ _ _ Hok) in H1.
      split_and!; [done|lia|]. intros Hwhole Hne _ key name t Hk. apply Hreg in Hk as [Hk _].
      pose proof (file_length _ (lo_file _ _ _ _ Hok)) as Hfl. rewrite (lo_length _ _ _ _ Hok) in Hfl.
      unfold section_length in Hpl. rewrite (section_in_range _ _ Hfl (lo_text _ _ _ _ Hok)) in Hpl.
      destruct (sh_type text =? SHT_NOBITS); simpl in Hpl; [by destruct prog|].
      assert (Hs : slots_of text = slots prog); [|lia].
      unfold slots_of, INSN_SIZE. replace (sh_size text) with (8 * slots prog) by lia.
      rewrite Z.mul_comm, Z.div_add_l by done. by rewrite Z.add_0_r.
Qed.
End Loaded.

Section LoadedVerified.
Context {V G W : Type} `{Profile, ByteOrderLaws, SmallRngLaws G, HostLaws V, !Codegen V G, !CodegenLaws V G, LibcLaws W}.
Context {U : ByteOrderUnsigned} {UL : ByteOrderUnsignedLaws} {M : Murmur3} {ML : Murmur3Laws}.
Context {A : Allocator} {AL : AllocatorLaws}.
Implicit Types (loader : BuiltinProgram V) (e : Executable V) (w : W).

(** C4: A file that either loader accepts and the verifier passes compiles, once
    the compiler has its buffers: no assertion, index or arithmetic operation
    of the compiler panics, no instruction is refused, and the only errors are
    a text section that turned out too small and a failed system call. *)
Theorem loaded_program_compiles bytes_addr bytes loader e cfg rng random memory w0 pool w live cx s pool' w' :
  is_bytes bytes -> Z.of_nat (length bytes) < 2 ^ 47 ->
  load bytes_addr bytes loader = Ok e -> executable_verify e = Ok tt ->
  config loader = Some cfg -> config_typed cfg -> is_i 32 random ->
  rtc pool_step (pool_new, w0, []) (pool, w, live) ->
  JitCompiler_new (G := G) e rng random memory pool w = (Ok (cx, s, pool'), w') ->
  match (compile cx s w').1 with
  | Ok p => exists s1 N, compiled s N s1 p
  | Err (Fails x) => (exists pc, x = ExhaustedTextSegment pc) \/ libc_error x
  | _ => False
  end.
Proof.
  intros Hb Hlen Hload Hver Hcfg Hct Hr Hpool Hnew.
  destruct (load_compilable _ _ _ _ Hb Hload) as (Hl & Hd & Htext).
  destruct (executable_verify_ok _ _ Hver) as (base & prog & Ht%(get_text_bytes_any (F := Stop)) & Hv).
  destruct (Htext _ _ Ht) as (Hpb & Hpl & Hf).
  assert (Hty : executable_typed e).
  { split; [|rewrite Hl, Hcfg; intros c [= <-]; destruct Hct; lia].
    intros a p Hp. destruct (Htext _ _ Hp) as (_ & ? & _). lia. }
  pose proof (new_outcome (G := G) e rng random memory pool w live Hty Hr (pool_reachable_ok _ _ Hpool)) as Hn.
  rewrite Hnew in Hn. destruct Hn as [(L & N & Hready) _]. pose proof (rdy_program _ _ _ _ _ Hready) as Hprog.
  rewrite Ht in Hprog. injection Hprog as _ ->. rewrite <- Hl in Hcfg.
  eapply verified_compiles; try done. apply Hf.
  - by apply (safe_aligned _ _ (verify_safe _ _ Hpb ltac:(lia) Hv)).
  - intros He. rewrite He in Hv. by vm_compute in Hv.
Qed.
End LoadedVerified.
