(* ===== verification/CompilerWitnesses.v ===== *)
(** * The production JIT compiler, run

    A small operating system, a random number generator and a host that satisfy
    the laws of the development, and the theorems of [PageFacts], [X86EmitFacts]
    and [JitVerified] on programs that are compiled there. *)

From stdpp Require Import strings relations.
From S2P Require Import Prelude Ebpf Program Verifier VerifierFacts Error Vm X86 PageAllocator PageFacts.
From S2P Require Import AlignedMemory ElfParser Elf ElfWitnesses.
From S2P Require Import JitProgram X86Emit X86EmitFacts JitCompiler JitCompilerFacts JitCompileFacts JitVerified.

#[local] Instance checked : Profile := {| debug_assertions := true |}.
#[local] Existing Instance le_reader.
#[local] Existing Instance le_reader_laws.
#[local] Existing Instance le_unsigned.
#[local] Existing Instance le_unsigned_laws.
#[local] Instance small_hash : Murmur3 := {| murmur3_hash l := foldr Z.add 0 l mod 1024 |}.
#[local] Instance small_hash_laws : Murmur3Laws.
Proof. split. intros l. simpl. pose proof (Z.mod_pos_bound (foldr Z.add 0 l) 1024 ltac:(done)). unfold is_u. lia. Qed.
#[local] Existing Instance bump.
#[local] Existing Instance bump_laws.

(** ** The environment *)

(** The world is the list of mapped blocks; [mmap] places a block above all
    others, and fails when that leaves the address space. *)
Definition end_of (blocks : list (Z * Z)) : Z := foldr (fun b m => Z.max (b.1 + b.2) m) 0 blocks.
Definition place (size : Z) (w : list (Z * Z)) : Z * list (Z * Z) :=
  let a := (end_of w / 4096 + 1) * 4096 in
  if a + size <? 2 ^ 62 then (a, (a, size) :: w) else (-1, w).
#[local] Instance small_system : Libc (list (Z * Z)) := {|
  page_size_of_system := 256; PROT_READ := 1; PROT_WRITE := 2; PROT_EXEC := 4; MAP_ANONYMOUS := 32;
  MAP_PRIVATE := 2; MADV_DONTNEED := 4; MAP_FAILED := -1;
  mmap _ size _ _ _ _ w := place size w;
  munmap a size w := (0, filter (fun b => b <> (a, size)) w);
  mprotect _ _ _ w := (0, w); madvise _ _ _ w := (0, w); errno _ := 0
|}.

Lemma end_of_ge (w : list (Z * Z)) : 0 <= end_of w /\ Forall (fun b => b.1 + b.2 <= end_of w) w.
Proof.
  induction w as [|b w [IH0 IH]]; simpl; [done|]. split; [lia|]. constructor; [lia|].
  eapply Forall_impl; [exact IH|]. simpl. lia.
Qed.

#[local] Instance small_system_laws : LibcLaws (list (Z * Z)).
Proof.
  refine {| mapped w := w |}; [done|..]; try done; cbn [mmap MAP_FAILED small_system]; unfold place;
    intros hint size _ _ _ _ w; pose proof (end_of_ge w) as [He Hall]; cbv zeta;
    pose proof (Z.div_mod (end_of w) 4096 ltac:(done)); pose proof (Z.mod_pos_bound (end_of w) 4096 ltac:(done)).
  - intros a w'. destruct (Z.ltb_spec ((end_of w / 4096 + 1) * 4096 + size) (2 ^ 62)); intros [= <- <-] Hne; [|done].
    split_and!; [lia|lia|done|]. eapply Forall_impl; [exact Hall|]. intros b Hb. right. simpl in *. lia.
  - intros w'. destruct (Z.ltb_spec ((end_of w / 4096 + 1) * 4096 + size) (2 ^ 62)); intros Heq; [injection Heq as Ha _; lia|by injection Heq as <-].
Qed.

(** A generator that always draws the largest number. *)
#[local] Instance largest : SmallRng unit := {|
  gen_i64 g := (0x1234567811223344, g);
  gen_range n g := (n - 1, g);
  sample_inclusive low high g := (high, g)
|}.
#[local] Instance largest_laws : SmallRngLaws unit.
Proof. split; simpl; intros; [done|lia|lia]. Qed.

#[local] Instance host : Host unit := {|
  slot_offset _ := 64; vm_address _ := 0x7f0011223344; load_address _ := 0x7f0011223344;
  store_address _ := 0x7f0011223344; trace_push_address := 0x7f0011223344;
  stopwatch_result_address := 0x7f0011223344
|}.
#[local] Instance host_laws : HostLaws unit.
Proof. by split. Qed.
#[local] Instance hooks : Codegen unit unit := default_hooks.
#[local] Instance hooks_laws : CodegenLaws unit unit := default_hooks_laws.

(** ** A program with a forward jump *)
Definition bytes_of (o d s f i : Z) : list byte := to_array (mkInsn 0 o d s f i).
Definition skipping : list byte :=
  bytes_of MOV64_IMM 0 0 0 5 ++ bytes_of JA 0 0 1 0 ++ bytes_of MOV64_IMM 0 0 0 0 ++ bytes_of EXIT 0 0 0 0.
(** Without noops, to keep the evaluation short. *)
Definition plain_config : Config := {|
  max_call_depth := 64; stack_frame_size := 4096; enable_address_translation := true;
  enable_stack_frame_gaps := true; instruction_meter_checkpoint_distance := 10000;
  enable_instruction_meter := true; enable_register_tracing := false;
  enable_symbol_and_section_labels := false; reject_broken_elfs := false; noop_instruction_rate := 0;
  sanitize_user_provided_values := true; optimize_rodata := true; allow_memory_region_zero := true;
  aligned_memory_mapping := true; enabled_sbpf_versions := (V0, V3)
|}.
Definition skipping_executable : Executable unit :=
  mkExecutable skipping V0 (Borrowed MM_BYTECODE_START (0, 32)) MM_BYTECODE_START (0, 32) 0
    registry_default (new_loader plain_config).

Lemma skipping_typed : executable_typed skipping_executable.
Proof.
  split.
  - intros a prog Ht. vm_compute in Ht. injection Ht as <- <-. simpl. lia.
  - intros cfg [= <-]. done.
Qed.

Lemma skipping_disjoint : registries_disjoint skipping_executable.
Proof. by intros _ key [x Hx]. Qed.

(** ** The theorems *)
Definition no_bytes (_ : Z) : byte := 0.
Definition returns {E A} (r : result E A) : bool := match r with Ok _ => true | _ => false end.

Lemma random_typed : is_i 32 12345.
Proof. vm_compute. intuition discriminate. Qed.

Lemma jit_compile_in_bounds_witness :
  let r := (jit_compile (G := unit) skipping_executable (Some tt) 12345 no_bytes pool_new []).1.1 in
  r <> Err Undefined /\ r <> Err OutOfFuel.
Proof.
  exact (jit_compile_in_bounds skipping_executable (Some tt) 12345 no_bytes [] pool_new [] []
    skipping_typed skipping_disjoint random_typed (rtc_refl _ _)).
Defined.

(** The compiler of the program, and what it makes of it. *)
Lemma skipping_compiles :
  match JitCompiler_new (G := unit) skipping_executable (Some tt) 12345 no_bytes pool_new [] with
  | (Ok (cx, s, _), w) =>
      bool_decide (program cx = skipping) &&
      match generate cx s with
      | Ok (_, s1) => bool_decide (length (text_section_jumps s1) = 1%nat) &&
          match resolve_jumps s1 with
          | Ok (_, s2) => returns (seal (jit_result s2) (offset_in_text_section s2) w).1
          | _ => false
          end
      | _ => false
      end
  | _ => false
  end = true.
Proof. vm_cast_no_check (eq_refl true). Qed.

(** A compiler that ran to its end. *)
Lemma skipping_compiled :
  exists cx s pool w p w1 s1,
    JitCompiler_new (G := unit) skipping_executable (Some tt) 12345 no_bytes pool_new [] = (Ok (cx, s, pool), w) /\
    program cx = skipping /\ compile cx s w = (Ok p, w1) /\ generate cx s = Ok (tt, s1) /\
    length (text_section_jumps s1) = 1%nat.
Proof.
  pose proof skipping_compiles as Hc.
  destruct (JitCompiler_new _ _ _ _ _ _) as [[[[cx s] pool]|?|] w] eqn:Hn; [|discriminate Hc..].
  apply andb_prop in Hc as [Hp%bool_decide_eq_true Hc].
  destruct (generate cx s) as [[[] s1]|?|] eqn:Hg; [|discriminate Hc..].
  apply andb_prop in Hc as [Hj%bool_decide_eq_true Hc].
  destruct (resolve_jumps s1) as [[[] s2]|?|] eqn:Hr; [|discriminate Hc..].
  destruct (seal _ _ w) as [[p|?|] w1] eqn:Hs; [|discriminate Hc..].
  exists cx, s, pool, w, p, w1, s1. split_and!; try done.
  unfold compile, mbind, jit_bind. rewrite Hg, Hr. exact Hs.
Qed.

Lemma compile_resolves_jumps_witness :
  exists cx (s : JitCompiler unit) p s1 N,
    generate cx s = Ok (tt, s1) /\ length (text_section_jumps s1) = 1%nat /\ compiled s N s1 p.
Proof.
  destruct skipping_compiled as (cx & s & pool & w & p & w1 & s1 & Hn & _ & Hcomp & Hg & Hj).
  destruct (compile_resolves_jumps skipping_executable (Some tt) 12345 no_bytes [] pool_new [] [] cx s pool w p w1
    skipping_typed skipping_disjoint random_typed (rtc_refl _ _) Hn Hcomp) as (s1' & N & Hg' & _ & Hcom).
  rewrite Hg in Hg'. injection Hg' as <-. exists cx, s, p, s1, N. auto.
Defined.

(** The file of [ElfWitnesses] for the lenient loader, with a call. *)
Definition file_executable : Executable unit :=
  match Elf.load 0 lenient_file (new_loader plain_config) with Ok e => e | _ => skipping_executable end.
Lemma file_loaded : Elf.load 0 lenient_file (new_loader plain_config) = Ok file_executable.
Proof. vm_compute. reflexivity. Qed.

Lemma plain_config_typed : config_typed plain_config.
Proof. split; vm_compute; intuition discriminate. Qed.

Lemma file_compiles :
  match JitCompiler_new (G := unit) file_executable (Some tt) 12345 no_bytes pool_new [] with
  | (Ok (cx, s, _), w) => returns (compile cx s w).1
  | _ => false
  end = true.
Proof. vm_cast_no_check (eq_refl true). Qed.

Lemma loaded_program_compiles_witness :
  exists cx (s : JitCompiler unit) p s1 N w,
    executable_verify file_executable = Ok tt /\ (compile cx s w).1 = Ok p /\ compiled s N s1 p.
Proof.
  pose proof file_compiles as Hc.
  destruct (JitCompiler_new file_executable (Some tt) 12345 no_bytes pool_new []) as [[[[cx s] pool]|e|] w] eqn:Hn;
    [|discriminate Hc..].
  assert (Hv : executable_verify file_executable = Ok tt) by (vm_compute; reflexivity).
  pose proof (loaded_program_compiles 0 lenient_file (new_loader plain_config) file_executable plain_config
    (Some tt) 12345 no_bytes [] pool_new [] [] cx s pool w lenient_file_bytes ltac:(vm_compute; reflexivity) file_loaded Hv
    eq_refl plain_config_typed random_typed (rtc_refl _ _) Hn) as Hout.
  destruct (compile cx s w).1 as [p| |] eqn:Hp; [|discriminate Hc..].
  destruct Hout as (s1 & N & Hcom). exists cx, s, p, s1, N, w. auto.
Defined.

(** Two blocks from the same bucket. *)
Lemma pool_exclusive_witness :
  exists a b, a <> b /\ pairwise_apart [(b, BUCKET_MIN); (a, BUCKET_MIN)] /\ 5000 <= BUCKET_MIN.
Proof.
  pose proof (pool_exclusive [] pool_new [(4096, BUCKET_MIN)] [(4096, BUCKET_MIN)] 5000 139264 BUCKET_MIN
    pool_new [(139264, BUCKET_MIN); (4096, BUCKET_MIN)]) as Hp.
  destruct Hp as (Hsz & _ & Hap); [|done|vm_compute; reflexivity|].
  - apply rtc_once. apply (step_alloc _ _ _ 3000); [done|vm_compute; reflexivity].
  - exists 4096, 139264. split_and!; [done|exact Hap|apply Hsz].
Defined.

(** One instruction into a section of sixteen bytes. *)
Definition blank : JitCompiler unit :=
  mkJitCompiler (mkJitProgram 4096 4096 0x1000 [] 0x2000 (replicate 16 0)) [] (replicate 34 0) 3 0 0 0 tt false.

Lemma emit_equals_encode_witness :
  emit_instruction (jump_immediate 0x1234) blank = Ok (tt, append [0xe9; 0x34; 0x12; 0; 0] blank).
Proof.
  rewrite (emit_equals_encode (jump_immediate 0x1234) blank); [reflexivity|vm_compute; intuition discriminate|].
  split; vm_compute; discriminate.
Defined.
