(* ===== verification/Components.v ===== *)
(** * Strongly connected components: [control_flow_graph_tarjan] of
    [src/casestudy/sbpf/src/static_analysis.rs]

    The depth-first search with its two explicit stacks, the topological order
    and the node [super_root] that leads to every component without a
    predecessor.  A [Vec] used as a stack is a list, last pushed first; an index
    into a [Vec] and a count of its elements is a [nat]. *)

From Stdlib Require Import String.
From stdpp Require Import gmap strings.
From S2P Require Import Prelude Ebpf Program Verifier Error Text Vm BTree Disassembler StaticAnalysis.

(** [Ord for TopologicalIndex] *)
Definition topo_cmp (a b : TopologicalIndex) : comparison :=
  match Z.compare (scc_id a) (scc_id b) with
  | Eq => Z.compare (discovery a) (discovery b)
  | c => c
  end.

Definition set_topo_index (n : CfgNode) (t : TopologicalIndex) : CfgNode :=
  mkCfgNode (label n) (sources n) (destinations n) (node_instructions n) t (dominator_parent n)
    (dominated_children n).

(** The local struct of the search. *)
Record NodeState := mkNodeState {
  cfg_node : Z;
  state_discovery : Z;
  lowlink : Z;
  state_scc_id : Z;
  is_on_scc_stack : bool
}.

Definition set_lowlink (n : NodeState) (l : Z) : NodeState :=
  mkNodeState (cfg_node n) (state_discovery n) l (state_scc_id n) (is_on_scc_stack n).

(** The variables of the loop ['dfs]. *)
Record Dfs := mkDfs {
  states : list NodeState;
  next_scc_id : Z;
  scc_stack : list nat;
  discovered : Z;
  next_v : nat;
  recursion_stack : list (nat * nat)
}.

Section Components.
Context {E V : Type} `{Profile, Murmur3}.

(** ** Set-up *)
(** The index of every node is written into its [topo_index]. *)
Definition index_nodes (l : list (Z * CfgNode)) : list (Z * CfgNode) :=
  imap (fun v b => (b.1, set_topo_index b.2
    (mkTopologicalIndex (Z.of_nat v) (discovery (topo_index b.2))))) l.

Definition initial_state (key : Z) : NodeState := mkNodeState key u64_max u64_max u64_max false.

(** ** The search *)
(** The loop over the edges of [v] from the [j]-th on.  It returns the position
    after an edge to an undiscovered node, with that node. *)
Fixpoint visit_edges (cfg : gmap Z CfgNode) (v j : nat) (l : list Z) (nodes : list NodeState)
    : result E (list NodeState * option (nat * nat)) :=
  match l with
  | [] => Ok (nodes, None)
  | d :: l =>
      target ← or_panic (cfg !! d);
      let w := Z.to_nat (scc_id (topo_index target)) in
      node_w ← or_panic (nodes !! w);
      if state_discovery node_w =? u64_max then Ok (nodes, Some (S j, w))
      else if is_on_scc_stack node_w then
        node_v ← or_panic (nodes !! v);
        visit_edges cfg v (S j) l
          (<[v := set_lowlink node_v (Z.min (lowlink node_v) (state_discovery node_w))]> nodes)
      else visit_edges cfg v (S j) l nodes
  end.

(** The loop that takes the component of [v] from the stack. *)
Fixpoint pop_component (v : nat) (id index_in_scc : Z) (stack : list nat) (nodes : list NodeState)
    : result E (list nat * list NodeState) :=
  match stack with
  | [] => Ok ([], nodes)
  | w :: stack =>
      node ← or_panic (nodes !! w);
      let nodes := <[w := mkNodeState (cfg_node node) index_in_scc (lowlink node) id false]> nodes in
      index_in_scc ← arith_u64 (index_in_scc + 1);
      if Nat.eqb w v then Ok (stack, nodes) else pop_component v id index_in_scc stack nodes
  end.

(** The inner [loop] that looks for the next undiscovered node from [next_v]
    on; [l] is the rest of the [len] nodes. *)
Fixpoint next_root (len next_v : nat) (l : list NodeState) : result E (option nat) :=
  match l with
  | [] => if Nat.eqb next_v len then Ok None else Panic
  | node :: l => if state_discovery node =? u64_max then Ok (Some next_v) else next_root len (S next_v) l
  end.

(** One turn of ['dfs] at [(v, edge_index)]: the first visit of [v] discovers it, *)
Definition start_visit (v edge_index : nat) (s : Dfs) : result E (list NodeState * list nat * Z) :=
  if Nat.eqb edge_index 0 then
    node ← or_panic (states s !! v);
    count ← arith_u64 (discovered s + 1);
    Ok (<[v := mkNodeState (cfg_node node) (discovered s) (discovered s) (state_scc_id node) true]>
          (states s), v :: scc_stack s, count)
  else Ok (states s, scc_stack s, discovered s).

(** after the last edge a complete component is taken from the stack, *)
Definition end_component (v : nat) (nodes : list NodeState) (stack : list nat) (id : Z)
    : result E (list NodeState * list nat * Z) :=
  node ← or_panic (nodes !! v);
  if state_discovery node =? lowlink node then
    '(stack, nodes) ← pop_component v id 0 stack nodes;
    id ← arith_u64 (id + 1);
    Ok (nodes, stack, id)
  else Ok (nodes, stack, id).

(** and the search goes on in the node below on the recursion stack, or from a
    new root; the flag says whether it does. *)
Definition continue_search (v : nat) (rest : list (nat * nat)) (nodes : list NodeState)
    (stack : list nat) (id count : Z) (next : nat) : result E (bool * Dfs) :=
  match rest with
  | (w, _) :: _ =>
      node_w ← or_panic (nodes !! w);
      node_v ← or_panic (nodes !! v);
      Ok (true, mkDfs (<[w := set_lowlink node_w (Z.min (lowlink node_w) (lowlink node_v))]> nodes)
                  id stack count next rest)
  | [] =>
      root ← next_root (length nodes) next (drop next nodes);
      Ok match root with
         | Some r => (true, mkDfs nodes id stack count (S r) [(r, 0%nat)])
         | None => (false, mkDfs nodes id stack count (length nodes) [])
         end
  end.

Definition dfs_turn (cfg : gmap Z CfgNode) (v edge_index : nat) (rest : list (nat * nat)) (s : Dfs)
    : result E (bool * Dfs) :=
  '(nodes, stack, count) ← start_visit v edge_index s;
  node ← or_panic (nodes !! v);
  block ← or_panic (cfg !! cfg_node node);
  '(nodes, descend) ← visit_edges cfg v edge_index (drop edge_index (destinations block)) nodes;
  match descend with
  | Some (j, w) =>
      Ok (true, mkDfs nodes (next_scc_id s) stack count (next_v s) ((w, 0%nat) :: (v, j) :: rest))
  | None =>
      '(nodes, stack, id) ← end_component v nodes stack (next_scc_id s);
      continue_search v rest nodes stack id count (next_v s)
  end.

(** The loop: a node is taken from the stack once when it is discovered and once
    after each node discovered from it. *)
Fixpoint dfs (fuel : nat) (cfg : gmap Z CfgNode) (s : Dfs) : result E Dfs :=
  match fuel with
  | O => Panic
  | S fuel =>
      match recursion_stack s with
      | [] => Ok s
      | (v, edge_index) :: rest =>
          '(again, s) ← dfs_turn cfg v edge_index rest s;
          if again : bool then dfs fuel cfg s else Ok s
      end
  end.

(** The ids and orders found are written into the graph. *)
Fixpoint write_back (nodes : list NodeState) (cfg : gmap Z CfgNode) : result E (gmap Z CfgNode) :=
  match nodes with
  | [] => Ok cfg
  | node :: nodes =>
      block ← or_panic (cfg !! cfg_node node);
      write_back nodes (<[cfg_node node := set_topo_index block
        (mkTopologicalIndex (state_scc_id node) (state_discovery node))]> cfg)
  end.

(** ** Topological order *)
(** The comparison handed to [sort_by] puts [a] before [b]. *)
Definition topo_before (a b : Z * CfgNode) : Prop :=
  topo_cmp (topo_index b.2) (topo_index a.2) <> Gt.
#[global] Instance topo_before_dec a b : Decision (topo_before a b).
Proof. unfold topo_before. apply not_dec. unfold Decision. decide equality. Defined.

Definition sort_nodes (cfg : gmap Z CfgNode) : list Z := (merge_sort topo_before (bindings cfg)).*1.

(** ** The super root *)
Fixpoint any_external (cfg : gmap Z CfgNode) (id : Z) (l : list Z) : result E bool :=
  match l with
  | [] => Ok false
  | s :: l =>
      node ← or_panic (cfg !! s);
      if negb (scc_id (topo_index node) =? id) then Ok true else any_external cfg id l
  end.

Fixpoint entry_nodes (cfg : gmap Z CfgNode) (super_root : Z) (order : list Z) (first_node : option Z)
    (has_external_source : bool) (acc : list Z) : result E (list Z) :=
  match order with
  | [] => Ok acc
  | v :: rest =>
      node ← or_panic (cfg !! v);
      external ← any_external cfg (scc_id (topo_index node)) (sources node);
      let has_external_source := has_external_source || external in
      last_of_component ← (match rest with
                           | [] => Ok true
                           | next :: _ =>
                               next_node ← or_panic (cfg !! next);
                               Ok (negb (scc_id (topo_index next_node) =? scc_id (topo_index node)))
                           end);
      if last_of_component : bool then
        acc ← (if negb has_external_source && bool_decide (first_node <> Some super_root)
               then first ← or_panic first_node; Ok (acc ++ [first])
               else Ok acc);
        entry_nodes cfg super_root rest (head rest) false acc
      else entry_nodes cfg super_root rest first_node has_external_source acc
  end.

Fixpoint link_entries (super_root : Z) (l : list Z) (cfg : gmap Z CfgNode) (functions : gmap Z (Z * string))
    : result E (gmap Z CfgNode * gmap Z (Z * string)) :=
  match l with
  | [] => Ok (cfg, functions)
  | v :: l =>
      node ← or_panic (cfg !! v);
      let name := ("function_" +:+ decimal v)%string in
      link_entries super_root l (<[v := push_source node super_root]> cfg)
        match functions !! v with
        | Some _ => functions
        | None => <[v := (hash_symbol_name (bytes_of_string name), name)]> functions
        end
  end.

Definition super_root_node (instructions : list Insn) (entries : list Z) : CfgNode :=
  mkCfgNode "" [] entries (Z.of_nat (length instructions), Z.of_nat (length instructions))
    TopologicalIndex_default u64_max [].

Definition set_order (a : Analysis V) (f : gmap Z (Z * string)) (n : gmap Z CfgNode) (order : list Z)
    : Analysis V :=
  mkAnalysis (executable a) (instructions a) f n order (entrypoint a) (super_root a)
    (dfg_forward_edges a) (dfg_reverse_edges a).

Definition control_flow_graph_tarjan (a : Analysis V) : result E (Analysis V) :=
  if bool_decide (cfg_nodes a = ∅) then Ok a else
  let indexed := index_nodes (bindings (cfg_nodes a)) in
  let cfg : gmap Z CfgNode := list_to_map indexed in
  s ← dfs (S (2 * length indexed)) cfg
       (mkDfs (initial_state <$> indexed.*1) 0 [] 0 1 [(0%nat, 0%nat)]);
  cfg ← write_back (states s) cfg;
  let order := sort_nodes cfg in
  entries ← entry_nodes cfg (super_root a) order (head order) false [];
  '(cfg, functions) ← link_entries (super_root a) entries cfg (functions a);
  Ok (set_order a functions
        (<[super_root a := super_root_node (instructions a) entries]> cfg) order).
End Components.
