(* ===== verification/ComponentsInv.v ===== *)
(** * The invariant of the component search

    The search of [Components], abstractly: a graph is the list [dests v] of
    the successors of every node [v] below [n], the marks of the nodes are the
    functions of a [Marks], and the search moves by four transitions, [enter],
    [advance], [leave] and [close].  [search_inv] holds initially and is kept
    by each; at the end it says that the ids are those of the strongly connected
    components, in reverse topological order. *)

From stdpp Require Import relations sorting functions.
From S2P Require Import Prelude.

(** ** Graphs *)
Section Graph.
Context (n : nat) (dests : nat -> list nat).

Definition edge (u v : nat) : Prop := (u < n)%nat /\ v ∈ dests u.
Definition reach : nat -> nat -> Prop := rtc edge.

(** What leaves a closed set is in it. *)
Lemma reach_closed (P : nat -> Prop) u v :
  (forall x y, P x -> edge x y -> P y) -> reach u v -> P u -> P v.
Proof. intros Hc Hr. induction Hr as [|x y z Hxy _ IH]; [done|]. eauto. Qed.

(** The search may start over at [r]: what was found before is closed and
    contains every node below [r], but not [r]. *)
Definition fresh_root (r : nat) : Prop :=
  exists P : nat -> Prop, (forall x y, P x -> edge x y -> P y) /\ (forall x, (x < r)%nat -> P x) /\ ~ P r.
End Graph.

Lemma StronglySorted_mono {A} (R R' : relation A) l :
  (forall x y, x ∈ l -> y ∈ l -> R x y -> R' x y) -> StronglySorted R l -> StronglySorted R' l.
Proof.
  intros Hm Hs. induction Hs as [|x l Hs IH Hf]; constructor.
  - apply IH. intros. apply Hm; [by right..|done].
  - rewrite Forall_forall in *. intros y Hy. apply Hm; [left|by right|auto].
Qed.

Lemma StronglySorted_lookup_lt {A} (R : relation A) l i j x y :
  StronglySorted R l -> l !! i = Some x -> l !! j = Some y -> (i < j)%nat -> R x y.
Proof.
  intros Hs. revert i j. induction Hs as [|z l Hs IH Hf]; intros [|i] [|j] Hi Hj Hlt; try done; try lia.
  - cbn in *. simplify_eq. rewrite Forall_forall in Hf. apply Hf. by eapply list_elem_of_lookup_2.
  - apply (IH i j); [done..|lia].
Qed.

(** ** Marks *)
Record Marks := mkMarks { disc : nat -> Z; low : nat -> Z; sid : nat -> Z; on : nat -> bool }.

Definition seen (m : Marks) (x : nat) : Prop := disc m x <> u64_max.
Definition finished (m : Marks) (x : nat) : Prop := seen m x /\ on m x = false.

Definition set_low (m : Marks) (v : nat) (l : Z) : Marks :=
  mkMarks (disc m) (<[v := l]> (low m)) (sid m) (on m).
Definition discover (m : Marks) (w : nat) (d : Z) : Marks :=
  mkMarks (<[w := d]> (disc m)) (<[w := d]> (low m)) (sid m) (<[w := true]> (on m)).
(** The nodes of [l] get the id [c] and count up from [i]. *)
Fixpoint close_component (m : Marks) (c i : Z) (l : list nat) : Marks :=
  match l with
  | [] => m
  | w :: l => close_component
      (mkMarks (<[w := i]> (disc m)) (low m) (<[w := c]> (sid m)) (<[w := false]> (on m))) c (i + 1) l
  end.

Section Search.
Context (n : nat) (dests : nat -> list nat).
Hypothesis dests_lt : forall v w, (v < n)%nat -> w ∈ dests v -> (w < n)%nat.
Hypothesis n_small : Z.of_nat n < u64_max.
Abbreviation edge := (edge n dests).
Abbreviation reach := (reach n dests).

(** The end of an edge, seen from a node with lowlink [l]. *)
Definition covered (m : Marks) (l : Z) (y : nat) : Prop :=
  seen m y /\ (on m y = true -> l <= disc m y).

(** [p] comes before [x] in the final order. *)
Definition above (m : Marks) (p x : nat) : Prop :=
  match on m p, on m x with
  | true, true => disc m p < disc m x
  | true, false => seen m x
  | false, true => False
  | false, false => seen m p /\ seen m x /\
      (sid m x < sid m p \/ (sid m x = sid m p /\ disc m x < disc m p))
  end.

(** The nodes being visited, innermost first, each with the number of edges
    looked at; the last of these leads to the next node on the path, except for
    the innermost, whose discovery bounds [lim]. *)
Fixpoint path_ok (m : Marks) (lim : Z) (child : option nat) (path : list (nat * nat)) : Prop :=
  match path with
  | [] => True
  | (g, j) :: path =>
      on m g = true /\ disc m g < lim /\ (j <= length (dests g))%nat /\
      match child with Some w => (0 < j)%nat /\ dests g !! (j - 1)%nat = Some w | None => True end /\
      (forall x, on m x = true -> disc m g < disc m x < lim ->
         forall y, y ∈ dests x -> covered m (low m g) y) /\
      (forall k y, (k < j - (match child with Some _ => 1 | None => 0 end))%nat -> dests g !! k = Some y ->
         covered m (low m g) y) /\
      path_ok m (disc m g) (Some g) path
  end.

Record search_inv (m : Marks) (path : list (nat * nat)) (stack : list nat) (c d : Z) (found : list nat)
    : Prop := {
  inv_found : NoDup found /\ (forall x, seen m x <-> x ∈ found) /\ d = Z.of_nat (length found) /\
    (forall x, x ∈ found -> (x < n)%nat);
  inv_stack : StronglySorted (fun x y => disc m y < disc m x) stack /\
    (forall x, on m x = true <-> x ∈ stack);
  inv_count : 0 <= c /\ c + Z.of_nat (length stack) <= d;
  inv_disc : forall x, seen m x -> 0 <= disc m x < Z.of_nat n /\ (on m x = true -> disc m x < d);
  inv_on : forall x, on m x = true -> seen m x;
  inv_path : path_ok m u64_max None path;
  inv_down : forall g x, g ∈ path.*1 -> on m x = true -> disc m g <= disc m x -> reach g x;
  inv_bottom : forall x, on m x = true -> exists g, g ∈ path.*1 /\ disc m g <= disc m x;
  inv_low : forall x, on m x = true ->
    low m x <= disc m x /\ exists y, on m y = true /\ low m x = disc m y /\ reach x y;
  inv_back : forall x, on m x = true -> x ∉ path.*1 ->
    exists y, on m y = true /\ disc m y < disc m x /\ reach x y;
  inv_finished : forall x, finished m x -> 0 <= sid m x < c /\
    forall y, y ∈ dests x -> finished m y /\ sid m y <= sid m x;
  inv_same : forall x y, finished m x -> finished m y -> sid m x = sid m y ->
    reach x y /\ (disc m x = disc m y -> x = y);
  inv_parent : forall x, seen m x -> fresh_root n dests x \/ exists p, edge p x /\ above m p x
}.

Arguments inv_found {m path stack c d found} _.
Arguments inv_stack {m path stack c d found} _.
Arguments inv_count {m path stack c d found} _.
Arguments inv_disc {m path stack c d found} _.
Arguments inv_on {m path stack c d found} _.
Arguments inv_path {m path stack c d found} _.
Arguments inv_down {m path stack c d found} _.
Arguments inv_bottom {m path stack c d found} _.
Arguments inv_low {m path stack c d found} _.
Arguments inv_back {m path stack c d found} _.
Arguments inv_finished {m path stack c d found} _.
Arguments inv_same {m path stack c d found} _.
Arguments inv_parent {m path stack c d found} _.

(** ** Consequences *)
Section Consequences.
Context {m : Marks} {path : list (nat * nat)} {stack : list nat} {c d : Z} {found : list nat}.
Hypothesis Hinv : search_inv m path stack c d found.

Lemma seen_lt x : seen m x -> (x < n)%nat.
Proof. intros Hx. destruct (inv_found Hinv) as (_ & Hs & _ & Hlt). apply Hlt, Hs, Hx. Qed.

Lemma found_length : (length found <= n)%nat.
Proof.
  destruct (inv_found Hinv) as (Hnd & _ & _ & Hlt).
  rewrite <- (length_seq n 0). apply submseteq_length, NoDup_submseteq; [done|].
  intros x Hx. apply elem_of_seq. split; [lia|]. apply Hlt, Hx.
Qed.

Lemma count_bound : 0 <= c <= d /\ d <= Z.of_nat n /\ Z.of_nat (length stack) <= d.
Proof.
  pose proof found_length. destruct (inv_count Hinv).
  destruct (inv_found Hinv) as (_ & _ & Hd & _). lia.
Qed.

Lemma unseen_bound x : ~ seen m x -> (x < n)%nat -> d < Z.of_nat n.
Proof.
  destruct (inv_found Hinv) as (Hnd & Hs & Hd & Hlt). intros Hx Hxn.
  assert (Hx' : x ∉ found) by (by rewrite <- Hs).
  assert (length (x :: found) <= length (seq 0 n))%nat; [|rewrite length_seq in *; cbn in *; lia].
  apply submseteq_length, NoDup_submseteq; [by constructor|].
  intros y [->|Hy]%elem_of_cons; apply elem_of_seq; [lia|]. split; [lia|]. apply Hlt, Hy.
Qed.

(** What is reached from a finished node is finished, with no larger an id. *)
Lemma finished_reach x y : reach x y -> finished m x -> finished m y /\ sid m y <= sid m x.
Proof.
  intros Hr. induction Hr as [|x y z Hxy _ IH]; [done|]. intros Hx.
  destruct (inv_finished Hinv x Hx) as [_ Hd]. destruct (Hd y) as [Hy Hle]; [by destruct Hxy|].
  destruct (IH Hy). split; [done|lia].
Qed.

(** The ids are those of the strongly connected components. *)
Lemma same_component x y : finished m x -> finished m y ->
  sid m x = sid m y <-> reach x y /\ reach y x.
Proof.
  intros Hx Hy. split.
  - intros Heq. split; [by apply (inv_same Hinv)|].
    symmetry in Heq. by apply (inv_same Hinv).
  - intros [Hxy Hyx]. apply finished_reach in Hxy as [_ ?]; [|done].
    apply finished_reach in Hyx as [_ ?]; [lia|done].
Qed.
End Consequences.

(** ** Framing *)
Lemma path_ok_frame m m' lim child path :
  (forall x, on m' x = true -> disc m' x < lim -> on m x = true /\ disc m x = disc m' x) ->
  (forall g, g ∈ path.*1 -> on m g = true -> disc m g < lim ->
     on m' g = true /\ disc m' g = disc m g /\ low m' g = low m g) ->
  (forall y, seen m y -> seen m' y /\ (on m' y = true -> on m y = true /\ disc m y = disc m' y)) ->
  path_ok m lim child path -> path_ok m' lim child path.
Proof.
  revert lim child. induction path as [|[g j] path IH]; intros lim child Hx Hg Hy Hp; [done|].
  cbn [path_ok] in *. destruct Hp as (Hon & Hlim & Hj & Hc & Hcov & Hk & Hp).
  destruct (Hg g ltac:(left) Hon Hlim) as (Hon' & Hd' & Hl').
  assert (Hcv : forall y, covered m (low m g) y -> covered m' (low m' g) y).
  { intros y [Hs Ho]. destruct (Hy y Hs) as [Hs' Ho']. split; [done|]. intros H'.
    destruct (Ho' H') as [? <-]. rewrite Hl'. auto. }
  rewrite Hd'. split_and!; [done|done|done|done|..].
  - intros x Hon1 Hr y Hyd. destruct (Hx x Hon1) as [? Heq]; [lia|]. apply Hcv, (Hcov x); [done|lia|done].
  - intros k y Hlt Hky. eapply Hcv, Hk; eauto.
  - apply IH; [..|done].
    + intros x Hon1 Hr. apply Hx; [done|lia].
    + intros g' Hin Hon1 Hr. apply Hg; [by right|done|lia].
    + done.
Qed.

(** Every node of the path is on the stack; the innermost was found last. *)
Lemma path_on m lim child path g : path_ok m lim child path -> g ∈ path.*1 ->
  on m g = true /\ disc m g < lim.
Proof.
  revert lim child. induction path as [|[h j] path IH]; intros lim child Hp Hin;
    [by apply not_elem_of_nil in Hin|].
  cbn in Hp. destruct Hp as (Hon & Hlim & _ & _ & _ & _ & Hp).
  apply elem_of_cons in Hin as [->|Hin]; [done|]. destruct (IH _ _ Hp Hin). split; [done|lia].
Qed.

Lemma path_lt m path stack c d found g : search_inv m path stack c d found -> g ∈ path.*1 ->
  on m g = true /\ (g < n)%nat.
Proof.
  intros Hinv Hg. destruct (path_on _ _ _ _ _ (inv_path Hinv) Hg) as [Ho _].
  split; [done|]. by apply (seen_lt Hinv), (inv_on Hinv).
Qed.

(** ** Transitions *)
(** An edge to a node seen before. *)
Definition advanced (m : Marks) (v w : nat) : Marks :=
  if on m w then set_low m v (Z.min (low m v) (disc m w)) else m.

Lemma advance m v j path stack c d found w :
  search_inv m ((v, j) :: path) stack c d found -> dests v !! j = Some w -> seen m w ->
  search_inv (advanced m v w) ((v, S j) :: path) stack c d found.
Proof.
  intros Hinv Hw Hs. assert (Hvw : reach v w).
  { apply rtc_once. split; [|by eapply list_elem_of_lookup_2].
    apply (seen_lt Hinv), (inv_on Hinv), (path_on _ _ _ _ _ (inv_path Hinv)). left. }
  pose proof (inv_path Hinv) as Hp. pose proof (inv_low Hinv) as Hl. cbn [path_ok] in Hp.
  destruct Hp as (Hon & Hlim & Hj & _ & Hcov & Hk & Hp).
  assert (Hp' : path_ok (advanced m v w) u64_max None ((v, S j) :: path) /\
    forall x, on m x = true -> low (advanced m v w) x <= disc m x /\
      exists y, on m y = true /\ low (advanced m v w) x = disc m y /\ reach x y).
  { unfold advanced. destruct (on m w) eqn:Hwon; cbn [path_ok].
    - split.
      + assert (Hcv : forall y, covered m (low m v) y ->
          covered (set_low m v (Z.min (low m v) (disc m w))) (Z.min (low m v) (disc m w)) y).
        { intros y [Hys Hyo]. split; [done|]. cbn. intros Hy. specialize (Hyo Hy). lia. }
        cbn [set_low on disc low]. rewrite fn_lookup_insert.
        split_and!; [done|done|by apply lookup_lt_Some in Hw|done|..].
        * intros x Hx Hr y Hy. exact (Hcv _ (Hcov x Hx Hr y Hy)).
        * intros k y Hlt Hky. rewrite Nat.sub_0_r in Hlt.
          destruct (decide (k = j)) as [->|]; [|exact (Hcv _ (Hk k y ltac:(lia) Hky))].
          simplify_eq. split; [done|]. cbn. lia.
        * apply (path_ok_frame m); [done| |done|exact Hp]. intros g _ ? Hg. cbn.
          rewrite fn_lookup_insert_ne; [done|]. intros ->. lia.
      + intros x Hx. cbn [set_low low]. destruct (decide (v = x)) as [<-|].
        * rewrite fn_lookup_insert. destruct (Hl v Hx) as (Hle & y & Hy & Heq & Hr). split; [lia|].
          destruct (Z.min_spec (low m v) (disc m w)) as [[_ ->]|[_ ->]]; eauto.
        * rewrite fn_lookup_insert_ne by done. auto.
    - split; [|done]. split_and!; [done|done|by apply lookup_lt_Some in Hw|done|done| |done].
      intros k y Hlt Hky. rewrite Nat.sub_0_r in Hlt.
      destruct (decide (k = j)) as [->|]; [|eapply Hk; [|done]; lia].
      simplify_eq. split; [done|]. by rewrite Hwon. }
  destruct Hp' as [Hp' Hl']. destruct Hinv. unfold advanced in *. destruct (on m w); split; done.
Qed.

(** A node seen for the first time. *)
Lemma discover_same m w d :
  disc (discover m w d) w = d /\ low (discover m w d) w = d /\ on (discover m w d) w = true.
Proof. cbn. by rewrite !fn_lookup_insert. Qed.

Lemma discover_other m w d x : x <> w ->
  disc (discover m w d) x = disc m x /\ low (discover m w d) x = low m x /\
  on (discover m w d) x = on m x.
Proof. intros. cbn. by rewrite !fn_lookup_insert_ne. Qed.

Definition descend (path : list (nat * nat)) : list (nat * nat) :=
  match path with [] => [] | (v, j) :: p => (v, S j) :: p end.
Lemma path_cases (path : list (nat * nat)) : path = [] \/ exists v j p, path = (v, j) :: p.
Proof. destruct path as [|[v j] p]; eauto 6. Qed.
Lemma descend_nodes path : (descend path).*1 = path.*1.
Proof. by destruct path as [|[v j] p]. Qed.

(** The nodes found are closed under edges between searches. *)
Lemma seen_closed m stack c d found x y :
  search_inv m [] stack c d found -> seen m x -> edge x y -> seen m y.
Proof.
  intros Hinv Hx [_ Hxy]. assert (Hf : finished m x).
  { split; [done|]. destruct (on m x) eqn:Hon; [|done].
    destruct (inv_bottom Hinv x Hon) as (g & Hg & _). by apply not_elem_of_nil in Hg. }
  destruct (inv_finished Hinv x Hf) as [_ Hd]. by destruct (Hd y Hxy) as [[? _] _].
Qed.

Section Enter.
Context {m : Marks} {path : list (nat * nat)} {stack : list nat} {c d : Z} {found : list nat} (w : nat).
Hypothesis Hinv : search_inv m path stack c d found.
Hypothesis Hw : ~ seen m w.
Hypothesis Hwn : (w < n)%nat.
Hypothesis Htop : match path with
                  | [] => forall x, (x < w)%nat -> seen m x
                  | (v, j) :: _ => dests v !! j = Some w
                  end.
Abbreviation m' := (discover m w d).

#[local] Lemma d_small : 0 <= d < u64_max.
Proof. pose proof (unseen_bound Hinv w Hw Hwn). pose proof (count_bound Hinv). lia. Qed.

#[local] Lemma enter_other x : seen m x ->
  x <> w /\ disc m' x = disc m x /\ low m' x = low m x /\ on m' x = on m x /\ sid m' x = sid m x.
Proof.
  intros Hx. assert (x <> w) as Hne by (by intros ->).
  destruct (discover_other m w d x Hne) as (-> & -> & ->). done.
Qed.

#[local] Lemma enter_seen x : seen m' x <-> x = w \/ seen m x.
Proof.
  destruct (decide (x = w)) as [->|Hne]; unfold seen.
  - destruct (discover_same m w d) as (-> & _). pose proof d_small. split; [auto|lia].
  - destruct (discover_other m w d x Hne) as (-> & _). split; [auto|]. by intros [?|?].
Qed.

#[local] Lemma enter_on x : on m' x = true -> x = w \/ (on m x = true /\ disc m' x = disc m x).
Proof.
  intros Hx. destruct (decide (x = w)) as [->|Hne]; [by left|right].
  destruct (discover_other m w d x Hne) as (Hd & _ & Ho). by rewrite <- Ho, <- Hd.
Qed.

#[local] Lemma enter_top v j p : path = (v, j) :: p ->
  edge v w /\ dests v !! j = Some w /\ on m v = true /\ disc m v < d.
Proof.
  intros Heq. pose proof Htop as Ht. rewrite Heq in Ht.
  assert (on m v = true) as Hv by (apply (path_on _ _ _ _ _ (inv_path Hinv)); rewrite Heq; left).
  pose proof (inv_on Hinv v Hv) as Hs. split_and!; [|done|done|].
  - split; [by apply (seen_lt Hinv)|by eapply list_elem_of_lookup_2].
  - by apply (inv_disc Hinv).
Qed.

#[local] Lemma enter_path : path_ok m' u64_max None ((w, 0%nat) :: descend path).
Proof.
  destruct (discover_same m w d) as (Hd & Hl & Ho). pose proof d_small as Hds.
  pose proof (inv_path Hinv) as Hp. cbn [path_ok]. rewrite Hd, Ho. split_and!; [done|lia|lia|done|..].
  - intros x Hx Hr. exfalso. destruct (enter_on x Hx) as [->|[Hx' Hdx]]; [lia|].
    pose proof (inv_disc Hinv x (inv_on Hinv x Hx')) as [_ Hlt]. specialize (Hlt Hx'). lia.
  - lia.
  - destruct (path_cases path) as [->|(v & j & p & Heq)]; [done|]. rewrite Heq in Hp |- *.
    cbn [descend path_ok] in *. destruct (enter_top v j p Heq) as (_ & Ht & Hv & Hvd). destruct Hp as (_ & _ & Hj & _ & Hcov & Hk & Hp).
    destruct (enter_other v (inv_on Hinv v Hv)) as (_ & Hvd' & Hvl & Hvo & _).
    assert (Hcv : forall y, covered m (low m v) y -> covered m' (low m v) y).
    { intros y [Hs Hy]. destruct (enter_other y Hs) as (_ & Hyd & _ & Hyo & _).
      split; [apply enter_seen; auto|]. rewrite Hyd, Hyo. auto. }
    rewrite Hvo, Hvd', Hvl. split_and!; [done|done|by apply lookup_lt_Some in Ht|lia| | |..].
    + cbn. by rewrite Nat.sub_0_r.
    + intros x Hx Hr y Hy. destruct (enter_on x Hx) as [->|[Hx' Hdx]]; [lia|].
      apply Hcv, (Hcov x); [done|lia|done].
    + intros k y Hlt Hky. apply Hcv, (Hk k); [lia|done].
    + apply (path_ok_frame m); [..|done].
      * intros x Hx Hr. destruct (enter_on x Hx) as [->|[? ?]]; [lia|done].
      * intros g _ Hg _. by destruct (enter_other g (inv_on Hinv g Hg)) as (_ & -> & -> & -> & _).
      * intros y Hy. destruct (enter_other y Hy) as (_ & -> & _ & -> & _). split; [|done].
        apply enter_seen. auto.
Qed.

#[local] Lemma enter_down g x : g ∈ w :: path.*1 -> on m' x = true -> disc m' g <= disc m' x -> reach g x.
Proof.
  destruct (discover_same m w d) as (Hd & _ & _). intros Hg Hx Hle. apply elem_of_cons in Hg as [->|Hg].
  - rewrite Hd in Hle. destruct (enter_on x Hx) as [->|[Hx' Hdx]]; [apply rtc_refl|].
    pose proof (inv_disc Hinv x (inv_on Hinv x Hx')) as [_ Hlt]. specialize (Hlt Hx'). lia.
  - destruct (path_on _ _ _ _ _ (inv_path Hinv) Hg) as [Hgo _].
    destruct (enter_other g (inv_on Hinv g Hgo)) as (_ & Hgd & _). rewrite Hgd in Hle.
    destruct (enter_on x Hx) as [->|[Hx' Hdx]]; [|apply (inv_down Hinv); [done|done|lia]].
    destruct (path_cases path) as [Heq|(v & j & p & Heq)]; [by rewrite Heq in Hg; apply not_elem_of_nil in Hg|].
    destruct (enter_top v j p Heq) as (He & _ & Hv & _). eapply rtc_r; [|exact He].
    apply (inv_down Hinv); [done|done|]. pose proof (inv_path Hinv) as Hp. rewrite Heq in Hg, Hp.
    cbn [path_ok] in Hp.
    apply elem_of_cons in Hg as [->|Hg]; [done|]. destruct Hp as (_ & _ & _ & _ & _ & _ & Hp).
    apply (path_on _ _ _ _ _ Hp) in Hg. lia.
Qed.

#[local] Lemma enter_parent x : seen m' x -> fresh_root n dests x \/ exists p, edge p x /\ above m' p x.
Proof.
  intros [->|Hx]%enter_seen.
  - destruct (path_cases path) as [Heq|(v & j & p & Heq)].
    + left. pose proof Hinv as Hi. pose proof Htop as Ht. rewrite Heq in Hi, Ht. exists (seen m).
      split_and!; [|done|done]. intros x y. by apply (seen_closed _ _ _ _ _ _ _ Hi).
    + right. destruct (enter_top v j p Heq) as (He & _ & Hv & Hvd). exists v. split; [done|].
      destruct (enter_other v (inv_on Hinv v Hv)) as (_ & Hvd' & _ & Hvo & _).
      destruct (discover_same m w d) as (Hd & _ & Ho). unfold above. by rewrite Hvo, Ho, Hv, Hd, Hvd'.
  - destruct (inv_parent Hinv x Hx) as [|(p & He & Ha)]; [by left|right]. exists p. split; [done|].
    assert (Hps : seen m p).
    { unfold above in Ha. destruct (on m p) eqn:Hp; [by apply (inv_on Hinv)|].
      destruct (on m x); [done|]. by destruct Ha. }
    destruct (enter_other p Hps) as (_ & Hpd & _ & Hpo & Hpi).
    destruct (enter_other x Hx) as (_ & Hxd & _ & Hxo & Hxi).
    unfold above, seen in *. by rewrite Hpd, Hpo, Hpi, Hxd, Hxo, Hxi.
Qed.

Lemma enter : search_inv m' ((w, 0%nat) :: descend path) (w :: stack) c (d + 1) (w :: found).
Proof.
  destruct (discover_same m w d) as (Hd & Hl & Ho). pose proof d_small as Hds.
  assert (Hfin : forall x, finished m' x -> finished m x /\ disc m' x = disc m x /\ sid m' x = sid m x).
  { intros x [Hx Hon]. apply enter_seen in Hx as [->|Hx]; [congruence|].
    destruct (enter_other x Hx) as (_ & -> & _ & Hxo & ->). rewrite Hxo in Hon. done. }
  assert (Hold : forall x, on m x = true -> disc m' x = disc m x /\ low m' x = low m x /\ on m' x = true).
  { intros x Hx. by destruct (enter_other x (inv_on Hinv x Hx)) as (_ & -> & -> & -> & _). }
  split; rewrite ?fmap_cons, ?descend_nodes; cbn [fst].
  - destruct (inv_found Hinv) as (Hnd & Hs & Hdl & Hlt). split_and!.
    + constructor; [by rewrite <- Hs|done].
    + intros x. by rewrite enter_seen, elem_of_cons, Hs.
    + cbn. lia.
    + intros x [->|Hx]%elem_of_cons; auto.
  - destruct (inv_stack Hinv) as [Hs Hon]. split.
    + constructor.
      * eapply StronglySorted_mono; [|exact Hs]. cbn beta. intros x y Hx%Hon Hy%Hon.
        destruct (Hold x Hx) as (-> & _), (Hold y Hy) as (-> & _). done.
      * rewrite Forall_forall. intros x Hx%Hon. destruct (Hold x Hx) as (-> & _). rewrite Hd.
        by apply (inv_disc Hinv x (inv_on Hinv x Hx)).
    + intros x. rewrite elem_of_cons, <- Hon. split.
      * intros Hx. destruct (enter_on x Hx) as [->|[? _]]; auto.
      * intros [->|Hx]; [done|]. by apply Hold.
  - destruct (inv_count Hinv). cbn. lia.
  - intros x [->|Hx]%enter_seen.
    + rewrite Hd. pose proof (unseen_bound Hinv w Hw Hwn). lia.
    + destruct (enter_other x Hx) as (_ & -> & _ & -> & _). destruct (inv_disc Hinv x Hx) as [? Hlt].
      split; [done|]. intros Hx'. specialize (Hlt Hx'). lia.
  - intros x Hx. apply enter_seen. destruct (enter_on x Hx) as [->|[? _]]; [by left|right].
    by apply (inv_on Hinv).
  - apply enter_path.
  - apply enter_down.
  - intros x Hx. destruct (enter_on x Hx) as [->|[Hx' Hdx]].
    + exists w. split; [by left|done].
    + destruct (inv_bottom Hinv x Hx') as (g & Hg & Hle). exists g. split; [by right|].
      destruct (path_on _ _ _ _ _ (inv_path Hinv) Hg) as [Hgo _]. destruct (Hold g Hgo). lia.
  - intros x Hx. destruct (enter_on x Hx) as [->|[Hx' Hdx]].
    + rewrite Hl, Hd. split; [done|]. exists w. rewrite Hd. split_and!; [done|done|apply rtc_refl].
    + destruct (inv_low Hinv x Hx') as (Hle & y & Hy & Heq & Hr). destruct (Hold x Hx') as (-> & -> & _).
      split; [done|]. exists y. by destruct (Hold y Hy) as (-> & _ & ->).
  - intros x Hx Hnot. destruct (enter_on x Hx) as [->|[Hx' Hdx]]; [by destruct Hnot; left|].
    destruct (inv_back Hinv x Hx') as (y & Hy & Hlt & Hr); [by intros ?; apply Hnot; right|].
    exists y. destruct (Hold y Hy) as (-> & _ & ->). rewrite Hdx. done.
  - intros x Hx. destruct (Hfin x Hx) as (Hx' & _ & ->). destruct (inv_finished Hinv x Hx') as [Hc Hds'].
    split; [done|]. intros y Hy. destruct (Hds' y Hy) as [[Hys Hyo] Hle].
    destruct (enter_other y Hys) as (_ & _ & _ & Hyo' & ->). split; [|done].
    split; [apply enter_seen; auto|by rewrite Hyo'].
  - intros x y Hx Hy. destruct (Hfin x Hx) as (Hx' & -> & ->), (Hfin y Hy) as (Hy' & -> & ->).
    by apply (inv_same Hinv).
  - apply enter_parent.
Qed.
End Enter.

(** Discovery orders the stack. *)
Lemma disc_inj m path stack c d found x y : search_inv m path stack c d found ->
  on m x = true -> on m y = true -> disc m x = disc m y -> x = y.
Proof.
  intros Hinv Hx Hy Heq. destruct (inv_stack Hinv) as [Hs Hon]. apply Hon in Hx, Hy.
  clear Hinv Hon. induction Hs as [|z l Hs IH Hf]; [by apply not_elem_of_nil in Hx|].
  rewrite Forall_forall in Hf. apply elem_of_cons in Hx as [->|Hx], Hy as [->|Hy]; [done| | |auto].
  - apply Hf in Hy. lia.
  - apply Hf in Hx. lia.
Qed.

(** The innermost node has no edges left and leads further back. *)
Lemma leave_path m v g i path stack c d found :
  search_inv m ((v, length (dests v)) :: (g, i) :: path) stack c d found ->
  path_ok (set_low m g (Z.min (low m g) (low m v))) u64_max None ((g, i) :: path).
Proof.
  intros Hinv. pose proof (inv_path Hinv) as Hp. cbn [path_ok] in Hp.
  destruct Hp as (Hv & Hvl & _ & _ & Hcv & Hkv & Hg & Hgl & Hi & [Hi0 Hiv] & Hcg & Hkg & Hp).
  set (l := Z.min (low m g) (low m v)).
  assert (Hcov : forall a y, l <= a -> covered m a y -> covered (set_low m g l) l y).
  { intros a y Hle [Hys Hyo]. split; [done|]. cbn. intros Hy. specialize (Hyo Hy). lia. }
  cbn [path_ok set_low on disc low]. rewrite fn_lookup_insert. split_and!; [done|lia|done|done|..].
  - intros x Hx Hr y Hy. destruct (Z.lt_trichotomy (disc m x) (disc m v)) as [Hlt|[Heq|Hgt]].
    + apply (Hcov (low m g)); [lia|]. apply (Hcg x); [done|lia|done].
    + assert (x = v) as -> by (by eapply disc_inj). apply (Hcov (low m v)); [lia|].
      apply list_elem_of_lookup in Hy as [k Hk]. eapply Hkv; [|exact Hk].
      apply lookup_lt_Some in Hk. lia.
    + apply (Hcov (low m v)); [lia|]. apply (Hcv x); [done|lia|done].
  - intros k y Hk Hky. destruct (decide (k = i - 1)%nat) as [->|].
    + assert (y = v) as -> by congruence. split; [by apply (inv_on Hinv)|]. cbn. intros _.
      destruct (inv_low Hinv v Hv). lia.
    + apply (Hcov (low m g)); [lia|]. apply (Hkg k); [lia|done].
  - apply (path_ok_frame m); [done| |done|exact Hp]. intros h _ ? Hh. cbn.
    rewrite fn_lookup_insert_ne; [done|]. intros ->. lia.
Qed.

Lemma leave m v g i path stack c d found :
  search_inv m ((v, length (dests v)) :: (g, i) :: path) stack c d found -> disc m v <> low m v ->
  search_inv (set_low m g (Z.min (low m g) (low m v))) ((g, i) :: path) stack c d found.
Proof.
  intros Hinv Hne. pose proof (leave_path _ _ _ _ _ _ _ _ _ Hinv) as Hp'.
  pose proof (inv_path Hinv) as Hp. cbn [path_ok] in Hp. destruct Hp as (Hv & _ & _ & _ & _ & _ & Hg & Hgl & _).
  destruct (inv_low Hinv v Hv) as (Hle & z & Hz & Hlz & Hvz).
  assert (Hgv : reach g v) by (apply (inv_down Hinv); [right; left|done|lia]).
  pose proof (inv_down Hinv) as Hdown. pose proof (inv_bottom Hinv) as Hbot.
  pose proof (inv_low Hinv) as Hlow. pose proof (inv_back Hinv) as Hback.
  split; try (by destruct Hinv); cbn [set_low on disc low].
  - intros h x Hh. apply Hdown. by right.
  - intros x Hx. destruct (Hbot x Hx) as (h & Hh & Hhx). rewrite fmap_cons in Hh.
    apply elem_of_cons in Hh as [->|Hh]; [|by exists h]. exists g. split; [left|]. cbn in Hhx. lia.
  - intros x Hx. destruct (Hlow x Hx) as (Hlx & y & Hy & Hly & Hxy).
    destruct (decide (g = x)) as [<-|]; [|rewrite fn_lookup_insert_ne by done; eauto].
    rewrite fn_lookup_insert. split; [lia|].
    destruct (Z.min_spec (low m g) (low m v)) as [[_ ->]|[_ ->]]; [eauto|].
    exists z. split_and!; [done|done|]. by transitivity v.
  - intros x Hx Hnot. destruct (decide (x = v)) as [->|Hxv].
    + exists z. split_and!; [done|lia|done].
    + apply Hback; [done|]. rewrite fmap_cons, not_elem_of_cons. by split.
Qed.

(** ** A component is complete *)
Lemma close_low m c i l : low (close_component m c i l) = low m.
Proof. revert m i. induction l as [|w l IH]; intros m i; cbn; [done|]. by rewrite IH. Qed.

Lemma close_other m c i l x : x ∉ l ->
  disc (close_component m c i l) x = disc m x /\ sid (close_component m c i l) x = sid m x /\
  on (close_component m c i l) x = on m x.
Proof.
  revert m i. induction l as [|w l IH]; intros m i Hx; cbn; [done|].
  apply not_elem_of_cons in Hx as [Hne Hx]. destruct (IH (mkMarks (<[w := i]> (disc m)) (low m)
    (<[w := c]> (sid m)) (<[w := false]> (on m))) (i + 1) Hx) as (-> & -> & ->).
  cbn. by rewrite !fn_lookup_insert_ne.
Qed.

Lemma close_member m c i l k x : NoDup l -> l !! k = Some x ->
  disc (close_component m c i l) x = i + Z.of_nat k /\ sid (close_component m c i l) x = c /\
  on (close_component m c i l) x = false.
Proof.
  revert m i k. induction l as [|w l IH]; intros m i k Hnd Hk; [done|]. apply NoDup_cons in Hnd as [Hw Hnd].
  cbn [close_component]. destruct k as [|k]; cbn in Hk.
  - simplify_eq. destruct (close_other (mkMarks (<[x := i]> (disc m)) (low m)
    (<[x := c]> (sid m)) (<[x := false]> (on m))) c (i + 1) l x Hw) as (-> & -> & ->).
    cbn. rewrite !fn_lookup_insert. split; [lia|done].
  - edestruct IH as (-> & -> & ->); [done|exact Hk|]. split; [lia|done].
Qed.

Section Close.
Context {m : Marks} {path : list (nat * nat)} {above_v below_v : list nat} {c d : Z} {found : list nat} (v : nat).
Hypothesis Hinv : search_inv m ((v, length (dests v)) :: path) (above_v ++ v :: below_v) c d found.
Hypothesis Hlow : disc m v = low m v.
Abbreviation comp := (above_v ++ [v]).
Abbreviation m' := (close_component m c 0 comp).

#[local] Lemma close_v : on m v = true.
Proof. apply (path_on _ _ _ _ _ (inv_path Hinv)). left. Qed.

#[local] Lemma close_path_tail : path_ok m (disc m v) (Some v) path.
Proof. pose proof (inv_path Hinv) as Hp. cbn [path_ok] in Hp. by destruct Hp as (_ & _ & _ & _ & _ & _ & Hp). Qed.

#[local] Lemma close_sorted :
  StronglySorted (fun x y => disc m y < disc m x) comp /\
  StronglySorted (fun x y => disc m y < disc m x) below_v /\
  (forall x, x ∈ comp -> disc m v <= disc m x) /\ (forall x, x ∈ below_v -> disc m x < disc m v).
Proof.
  destruct (inv_stack Hinv) as [Hs _]. apply StronglySorted_app in Hs as (Hab & Hs1 & Hs2).
  apply StronglySorted_cons in Hs2 as [Hv Hs2]. rewrite Forall_forall in Hv. split_and!; [|done| |done].
  - apply StronglySorted_app. split_and!; [|done|by repeat constructor].
    intros x y Hx Hy. apply Hab; [done|]. apply list_elem_of_singleton in Hy as ->. left.
  - intros x [Hx|Hx]%elem_of_app; [|apply list_elem_of_singleton in Hx as ->; lia].
    specialize (Hab x v Hx ltac:(left)). lia.
Qed.

#[local] Lemma elem_of_comp x : x ∈ comp <-> on m x = true /\ disc m v <= disc m x.
Proof.
  destruct (inv_stack Hinv) as [_ Hon]. destruct close_sorted as (_ & _ & Hge & Hlt). split.
  - intros Hx. split; [|auto]. apply Hon. rewrite elem_of_app in *. rewrite elem_of_cons.
    destruct Hx as [?|?%list_elem_of_singleton]; auto.
  - intros [Hx Hd]. apply Hon in Hx. rewrite elem_of_app, elem_of_cons in Hx.
    rewrite elem_of_app, list_elem_of_singleton.
    destruct Hx as [?|[?|Hx]]; [auto..|]. apply Hlt in Hx. lia.
Qed.

#[local] Lemma elem_of_below x : x ∈ below_v <-> on m x = true /\ disc m x < disc m v.
Proof.
  destruct (inv_stack Hinv) as [_ Hon]. destruct close_sorted as (_ & _ & Hge & Hlt). split.
  - intros Hx. split; [|auto]. apply Hon. rewrite elem_of_app, elem_of_cons. auto.
  - intros [Hx Hd]. apply Hon in Hx. rewrite elem_of_app, elem_of_cons in Hx.
    destruct Hx as [Hx|[->|Hx]]; [|lia|done]. specialize (Hge x). rewrite elem_of_app in Hge.
    specialize (Hge (or_introl Hx)). lia.
Qed.

#[local] Lemma comp_NoDup : NoDup comp.
Proof.
  destruct close_sorted as (Hs & _). clear -Hs. induction Hs as [|x l Hs IH Hf]; constructor; [|done].
  intros Hx. rewrite Forall_forall in Hf. apply Hf in Hx. lia.
Qed.

#[local] Lemma close_in x : x ∈ comp -> exists k, comp !! k = Some x /\
  disc m' x = Z.of_nat k /\ sid m' x = c /\ on m' x = false.
Proof.
  intros [k Hk]%list_elem_of_lookup. exists k. split; [done|].
  destruct (close_member m c 0 comp k x comp_NoDup Hk) as (-> & -> & ->). split; [lia|done].
Qed.

#[local] Lemma close_out x : x ∉ comp -> disc m' x = disc m x /\ sid m' x = sid m x /\ on m' x = on m x.
Proof. apply close_other. Qed.

Lemma comp_length : (length comp <= n)%nat /\ Z.of_nat (length comp) + c + Z.of_nat (length below_v) <= d.
Proof.
  destruct (inv_count Hinv) as [Hc Hl]. pose proof (count_bound Hinv) as (_ & Hd & _).
  rewrite !length_app in *. cbn in *. lia.
Qed.

#[local] Lemma close_disc x : x ∈ comp -> 0 <= disc m' x < Z.of_nat n.
Proof.
  intros Hx. destruct (close_in x Hx) as (k & Hk & -> & _). apply lookup_lt_Some in Hk.
  pose proof comp_length. lia.
Qed.

Lemma close_seen x : seen m' x <-> seen m x.
Proof.
  destruct (decide (x ∈ comp)) as [Hx|Hx].
  - pose proof (close_disc x Hx). apply elem_of_comp in Hx as [Hx _]. apply (inv_on Hinv) in Hx.
    unfold seen. split; [done|lia].
  - unfold seen. by destruct (close_out x Hx) as (-> & _).
Qed.

#[local] Lemma close_on x : on m' x = true <-> on m x = true /\ disc m x < disc m v.
Proof.
  destruct (decide (x ∈ comp)) as [Hx|Hx].
  - destruct (close_in x Hx) as (k & _ & _ & _ & ->). apply elem_of_comp in Hx. split; [done|lia].
  - destruct (close_out x Hx) as (_ & _ & ->). rewrite elem_of_comp in Hx. split; [|tauto].
    intros Ho. split; [done|]. destruct (Z.lt_ge_cases (disc m x) (disc m v)); [done|tauto].
Qed.

#[local] Lemma close_keep x : on m' x = true -> disc m' x = disc m x.
Proof. intros [_ Hx]%close_on. apply close_out. rewrite elem_of_comp. lia. Qed.

(** Edges stay in the component or lead to finished nodes. *)
#[local] Lemma comp_edges x y : x ∈ comp -> y ∈ dests x -> y ∈ comp \/ finished m y.
Proof.
  intros [Hx Hd]%elem_of_comp Hy. pose proof (inv_path Hinv) as Hp. cbn [path_ok] in Hp.
  destruct Hp as (_ & _ & _ & _ & Hcov & Hk & _).
  assert (Hc : covered m (low m v) y).
  { destruct (decide (x = v)) as [->|Hne].
    - apply list_elem_of_lookup in Hy as [k Hky]. eapply Hk; [|exact Hky]. apply lookup_lt_Some in Hky. lia.
    - apply (Hcov x); [done| |done]. assert (disc m x <> disc m v).
      { intros Heq. apply Hne. by eapply disc_inj; [exact Hinv|..|exact Heq]; [|apply close_v]. }
      pose proof (inv_disc Hinv x (inv_on Hinv x Hx)). lia. }
  destruct Hc as [Hs Ho]. destruct (on m y) eqn:Hyo; [|right; by split].
  left. apply elem_of_comp. rewrite Hlow. auto.
Qed.

#[local] Lemma comp_reach_closed x y : reach x y -> x ∈ comp -> y ∈ comp \/ finished m y.
Proof.
  intros Hr Hx. apply (reach_closed n dests (fun z => z ∈ comp \/ finished m z) x y); [|done|by left].
  intros a b [Ha|Ha] [_ Hab]; [by eapply comp_edges|]. right.
  destruct (inv_finished Hinv a Ha) as [_ Hd]. by destruct (Hd b Hab).
Qed.

(** The component is strongly connected. *)
#[local] Lemma comp_to_v x : x ∈ comp -> reach x v.
Proof.
  intros Hx. assert (Hdx : 0 <= disc m x).
  { apply elem_of_comp in Hx as [Hx _]. by apply (inv_disc Hinv x (inv_on Hinv x Hx)). }
  remember (Z.to_nat (disc m x)) as k eqn:Hk. revert x Hx Hdx Hk.
  induction k as [k IH] using lt_wf_ind. intros x Hx Hdx Hk. pose proof Hx as Hx'.
  apply elem_of_comp in Hx' as [Hon Hge]. destruct (decide (x = v)) as [->|Hne]; [apply rtc_refl|].
  destruct (inv_back Hinv x Hon) as (y & Hy & Hlt & Hr).
  - rewrite fmap_cons, not_elem_of_cons. split; [done|]. intros Hin.
    apply (path_on _ _ _ _ _ close_path_tail) in Hin. lia.
  - destruct (comp_reach_closed x y Hr Hx) as [Hyc|[_ Hyf]]; [|congruence].
    pose proof (inv_disc Hinv y (inv_on Hinv y Hy)). transitivity y; [done|].
    apply (IH (Z.to_nat (disc m y))); [lia|done|lia|done].
Qed.

#[local] Lemma comp_connected x y : x ∈ comp -> y ∈ comp -> reach x y.
Proof.
  intros Hx Hy. transitivity v; [by apply comp_to_v|]. apply elem_of_comp in Hy as [Hy Hd].
  apply (inv_down Hinv); [left|done|done].
Qed.

(** The node before [v] on the path has nothing to learn from it. *)
Lemma close_low_le g j p : path = (g, j) :: p -> low m g <= low m v.
Proof.
  intros Heq. pose proof close_path_tail as Hp. rewrite Heq in Hp. cbn [path_ok] in Hp.
  destruct Hp as (Hg & Hd & _). destruct (inv_low Hinv g Hg). lia.
Qed.

#[local] Lemma close_covered l y : covered m l y -> covered m' l y.
Proof.
  intros [Hs Ho]. split; [by apply close_seen|]. intros Hy. rewrite (close_keep y Hy).
  apply Ho. by apply close_on in Hy as [? _].
Qed.

#[local] Lemma close_path : path_ok m' u64_max None path.
Proof.
  pose proof close_path_tail as Hp. destruct (path_cases path) as [->|(g & j & p & Heq)]; [done|].
  rewrite Heq in Hp |- *. cbn [path_ok] in *. destruct Hp as (Hg & Hgl & Hj & [Hj0 Hjv] & Hcov & Hk & Hp).
  assert (Hg' : on m' g = true) by (by apply close_on). rewrite (close_keep g Hg'), close_low.
  pose proof (inv_disc Hinv v (inv_on Hinv v close_v)). split_and!; [done|lia|done|done|..].
  - intros x Hx Hr y Hy. rewrite (close_keep x Hx) in Hr. apply close_on in Hx as [Hx Hxv].
    apply close_covered, (Hcov x); [done|lia|done].
  - intros k y Hlt Hky. destruct (decide (k = j - 1)%nat) as [->|].
    + assert (y = v) as -> by congruence. split; [by apply close_seen, (inv_on Hinv), close_v|].
      intros [_ Hv]%close_on. lia.
    + apply close_covered, (Hk k); [lia|done].
  - apply (path_ok_frame m); [..|exact Hp].
    + intros x Hx _. rewrite (close_keep x Hx). by apply close_on in Hx as [? _].
    + intros h _ Hh Hhl. assert (Hh' : on m' h = true) by (apply close_on; split; [done|lia]).
      by rewrite (close_keep h Hh'), close_low.
    + intros y Hy. split; [by apply close_seen|]. intros Hy'. rewrite (close_keep y Hy').
      by apply close_on in Hy' as [? _].
Qed.

#[local] Lemma close_finished x : finished m' x <-> x ∈ comp \/ finished m x.
Proof.
  unfold finished. rewrite close_seen. destruct (decide (x ∈ comp)) as [Hx|Hx].
  - destruct (close_in x Hx) as (k & _ & _ & _ & ->). apply elem_of_comp in Hx as Hx'.
    split; [auto|]. split; [|done]. apply (inv_on Hinv). tauto.
  - destruct (close_out x Hx) as (_ & _ & ->). tauto.
Qed.

#[local] Lemma finished_out x : finished m x -> x ∉ comp.
Proof. intros [_ Hx]. rewrite elem_of_comp, Hx. by intros []. Qed.

#[local] Lemma close_inv_finished x : finished m' x -> 0 <= sid m' x < c + 1 /\
  forall y, y ∈ dests x -> finished m' y /\ sid m' y <= sid m' x.
Proof.
  destruct (inv_count Hinv) as [Hc _].
  intros [Hx|Hx]%close_finished.
  - destruct (close_in x Hx) as (k & _ & _ & -> & _). split; [lia|]. intros y Hy.
    destruct (comp_edges x y Hx Hy) as [Hyc|Hyf]; (split; [apply close_finished; auto|]).
    + destruct (close_in y Hyc) as (k' & _ & _ & -> & _). lia.
    + destruct (close_out y (finished_out y Hyf)) as (_ & -> & _).
      destruct (inv_finished Hinv y Hyf). lia.
  - destruct (close_out x (finished_out x Hx)) as (_ & -> & _).
    destruct (inv_finished Hinv x Hx) as [Hr Hd]. split; [lia|]. intros y Hy.
    destruct (Hd y Hy) as [Hyf Hle]. destruct (close_out y (finished_out y Hyf)) as (_ & -> & _).
    split; [apply close_finished; auto|done].
Qed.

#[local] Lemma close_inv_same x y : finished m' x -> finished m' y -> sid m' x = sid m' y ->
  reach x y /\ (disc m' x = disc m' y -> x = y).
Proof.
  intros [Hx|Hx]%close_finished [Hy|Hy]%close_finished.
  - destruct (close_in x Hx) as (k & Hk & -> & -> & _), (close_in y Hy) as (k' & Hk' & -> & -> & _).
    intros _. split; [by apply comp_connected|]. intros ->%Nat2Z.inj. congruence.
  - destruct (close_in x Hx) as (k & _ & _ & -> & _).
    destruct (close_out y (finished_out y Hy)) as (_ & -> & _). destruct (inv_finished Hinv y Hy). lia.
  - destruct (close_in y Hy) as (k & _ & _ & -> & _).
    destruct (close_out x (finished_out x Hx)) as (_ & -> & _). destruct (inv_finished Hinv x Hx). lia.
  - destruct (close_out x (finished_out x Hx)) as (-> & -> & _).
    destruct (close_out y (finished_out y Hy)) as (-> & -> & _). by apply (inv_same Hinv).
Qed.

#[local] Lemma comp_order p x k l : comp !! k = Some p -> comp !! l = Some x -> disc m p < disc m x -> (l < k)%nat.
Proof.
  intros Hk Hl Hlt. destruct close_sorted as (Hs & _).
  destruct (Nat.lt_trichotomy l k) as [|[->|Hkl]]; [done|simplify_eq; lia|].
  exfalso. pose proof (StronglySorted_lookup_lt _ _ _ _ _ _ Hs Hk Hl Hkl). cbn in *. lia.
Qed.

#[local] Lemma close_above p x : above m p x -> above m' p x.
Proof.
  unfold above. intros Ha. destruct (on m p) eqn:Hp.
  - destruct (decide (p ∈ comp)) as [Hpc|Hpc].
    + destruct (close_in p Hpc) as (k & Hk & Hpd & Hps & Hpo). rewrite Hpo, Hpd, Hps.
      assert (Hps' : seen m' p) by (apply close_seen, (inv_on Hinv p Hp)).
      destruct (on m x) eqn:Hx.
      * assert (Hxc : x ∈ comp) by (apply elem_of_comp in Hpc; apply elem_of_comp; split; [done|lia]).
        destruct (close_in x Hxc) as (l & Hl & Hxd & Hxs & Hxo). rewrite Hxo, Hxd, Hxs.
        split_and!; [done|apply close_seen, (inv_on Hinv x Hx)|right]. split; [done|].
        pose proof (comp_order p x k l Hk Hl Ha). lia.
      * assert (Hxf : finished m x) by done. destruct (close_out x (finished_out x Hxf)) as (_ & -> & ->).
        rewrite Hx. split_and!; [done|by apply close_seen|left]. by apply (inv_finished Hinv).
    + destruct (close_out p Hpc) as (-> & _ & ->). rewrite Hp.
      destruct (decide (x ∈ comp)) as [Hxc|Hxc].
      * destruct (close_in x Hxc) as (l & _ & _ & _ & ->). apply close_seen, (inv_on Hinv).
        by apply elem_of_comp in Hxc as [? _].
      * destruct (close_out x Hxc) as (-> & _ & ->). destruct (on m x); [done|by apply close_seen].
  - destruct (on m x) eqn:Hx; [done|]. destruct Ha as (Hps & Hxs & Ha).
    destruct (close_out p (finished_out p (conj Hps Hp))) as (Hpd & -> & ->).
    destruct (close_out x (finished_out x (conj Hxs Hx))) as (Hxd & -> & ->).
    rewrite Hp, Hx, Hpd, Hxd, !close_seen. done.
Qed.

Lemma close : search_inv m' path below_v (c + 1) d found.
Proof.
  destruct close_sorted as (_ & Hsb & _ & _). split.
  - destruct (inv_found Hinv) as (Hnd & Hs & Hd & Hlt). split_and!; [done| |done|done].
    intros x. by rewrite close_seen.
  - split; [|intros x; by rewrite close_on, elem_of_below].
    eapply StronglySorted_mono; [|exact Hsb]. cbn beta. intros x y Hx Hy.
    apply elem_of_below in Hx, Hy. rewrite !close_keep by (by apply close_on). done.
  - pose proof comp_length as [_ Hl]. destruct (inv_count Hinv). rewrite length_app in Hl. cbn in Hl. lia.
  - intros x Hx%close_seen. destruct (decide (x ∈ comp)) as [Hxc|Hxc].
    + split; [by apply close_disc|]. by destruct (close_in x Hxc) as (k & _ & _ & _ & ->).
    + destruct (close_out x Hxc) as (-> & _ & ->). by apply (inv_disc Hinv).
  - intros x [Hx _]%close_on. by apply close_seen, (inv_on Hinv).
  - apply close_path.
  - intros g x Hg Hx. rewrite (close_keep x Hx). apply close_on in Hx as [Hx Hxv].
    assert (Hg' : on m' g = true) by (apply close_on, (path_on _ _ _ _ _ close_path_tail Hg)).
    rewrite (close_keep g Hg'). apply (inv_down Hinv); [by right|done].
  - intros x Hx. rewrite (close_keep x Hx). apply close_on in Hx as [Hx Hxv].
    destruct (inv_bottom Hinv x Hx) as (g & Hg & Hle). rewrite fmap_cons in Hg.
    apply elem_of_cons in Hg as [->|Hg]; [cbn in Hle; lia|]. exists g. split; [done|].
    rewrite close_keep; [done|]. by apply close_on, (path_on _ _ _ _ _ close_path_tail Hg).
  - intros x Hx. rewrite (close_keep x Hx), close_low. apply close_on in Hx as [Hx Hxv].
    destruct (inv_low Hinv x Hx) as (Hle & y & Hy & Heq & Hr). split; [done|]. exists y.
    assert (Hy' : on m' y = true) by (apply close_on; split; [done|lia]). by rewrite (close_keep y Hy').
  - intros x Hx Hnot. rewrite (close_keep x Hx). apply close_on in Hx as [Hx Hxv].
    destruct (inv_back Hinv x Hx) as (y & Hy & Hlt & Hr).
    + rewrite fmap_cons, not_elem_of_cons. split; [|done]. intros ->. cbn in Hxv. lia.
    + exists y. assert (Hy' : on m' y = true) by (apply close_on; split; [done|lia]).
      by rewrite (close_keep y Hy').
  - apply close_inv_finished.
  - apply close_inv_same.
  - intros x Hx%close_seen. destruct (inv_parent Hinv x Hx) as [|(p & He & Ha)]; [by left|right].
    exists p. split; [done|]. by apply close_above.
Qed.
End Close.

(** Marks that agree everywhere satisfy the same invariant. *)
Lemma search_inv_low m l path stack c d found :
  (forall x, l x = low m x) -> search_inv m path stack c d found ->
  search_inv (mkMarks (disc m) l (sid m) (on m)) path stack c d found.
Proof.
  intros Hl Hinv. destruct Hinv as [H1 H2 H3 H4 H5 H6 H7 H8 H9 H10 H11 H12 H13].
  split; try done.
  - eapply path_ok_frame; [..|exact H6]; [done| |done]. intros g _ Hg _. cbn. by rewrite Hl.
  - intros x Hx. cbn. rewrite Hl. by apply H9.
Qed.

(** ** Start *)
Lemma search_start m : (forall x, disc m x = u64_max /\ on m x = false) -> search_inv m [] [] 0 0 [].
Proof.
  intros Hm. assert (Hs : forall x, ~ seen m x) by (intros x Hx; by destruct (Hm x)).
  assert (Ho : forall x, on m x <> true) by (intros x; destruct (Hm x) as [_ ->]; done).
  split; try (by intros x Hx; by apply Hs in Hx); try (by intros x Hx; by apply Ho in Hx).
  - split_and!; [constructor| |done|intros x Hx; by apply not_elem_of_nil in Hx].
    intros x. split; [by intros ?%Hs|by intros ?%not_elem_of_nil].
  - split; [constructor|]. intros x. split; [by intros ?%Ho|by intros ?%not_elem_of_nil].
  - done.
  - done.
  - intros g x Hg. by apply not_elem_of_nil in Hg.
  - intros x [Hx _]. by apply Hs in Hx.
  - intros x y [Hx _]. by apply Hs in Hx.
Qed.
End Search.
Arguments inv_found {n dests m path stack c d found} _.
Arguments inv_stack {n dests m path stack c d found} _.
Arguments inv_count {n dests m path stack c d found} _.
Arguments inv_disc {n dests m path stack c d found} _.
Arguments inv_on {n dests m path stack c d found} _.
Arguments inv_path {n dests m path stack c d found} _.
Arguments inv_down {n dests m path stack c d found} _.
Arguments inv_bottom {n dests m path stack c d found} _.
Arguments inv_low {n dests m path stack c d found} _.
Arguments inv_back {n dests m path stack c d found} _.
Arguments inv_finished {n dests m path stack c d found} _.
Arguments inv_same {n dests m path stack c d found} _.
Arguments inv_parent {n dests m path stack c d found} _.
