(* ===== verification/ComponentsFacts.v ===== *)
(** * The components found by the static analysis

    [dfs] implements the abstract search of [ComponentsInv]: it returns within
    its fuel, and what it writes are the marks of a finished search. *)

From Stdlib Require Import String.
From stdpp Require Import gmap strings relations sorting functions.
From S2P Require Import Prelude Ebpf Program Verifier Error Text Vm BTree Disassembler StaticAnalysis.
From S2P Require Import Components ComponentsInv.

Section Search.
Context {E : Type} `{Profile}.
Context (keys : list Z) (cfg : gmap Z CfgNode).

(** The node a key stands for, and the graph on indices. *)
Definition index_of (d : Z) : nat :=
  match cfg !! d with Some node => Z.to_nat (scc_id (topo_index node)) | None => 0%nat end.
Definition key_of (v : nat) : Z := default 0 (keys !! v).
Definition successors (v : nat) : list nat :=
  match cfg !! key_of v with Some node => index_of <$> destinations node | None => [] end.

Record indexed_graph : Prop := {
  ig_small : Z.of_nat (length keys) < u64_max;
  ig_index : forall v k, keys !! v = Some k -> exists node, cfg !! k = Some node /\
    scc_id (topo_index node) = Z.of_nat v;
  ig_closed : forall k node d, cfg !! k = Some node -> d ∈ destinations node -> d ∈ keys
}.
Hypothesis Hg : indexed_graph.
Abbreviation n := (length keys).

Lemma index_of_key v k : keys !! v = Some k -> index_of k = v.
Proof.
  intros Hk. destruct (ig_index Hg v k Hk) as (node & Hn & Hi). unfold index_of. rewrite Hn, Hi. lia.
Qed.

Lemma successors_lt v w : (v < n)%nat -> w ∈ successors v -> (w < n)%nat.
Proof.
  intros Hv Hw. unfold successors in Hw. destruct (cfg !! key_of v) as [node|] eqn:Hn;
    [|by apply not_elem_of_nil in Hw].
  apply list_elem_of_fmap in Hw as (d & -> & Hd). apply (ig_closed Hg _ _ _ Hn) in Hd.
  apply list_elem_of_lookup in Hd as [u Hu]. rewrite (index_of_key u d Hu). by apply lookup_lt_Some in Hu.
Qed.

Lemma key_block v : (v < n)%nat -> exists node, cfg !! key_of v = Some node /\
  successors v = index_of <$> destinations node.
Proof.
  intros [k Hk]%lookup_lt_is_Some. destruct (ig_index Hg v k Hk) as (node & Hn & _).
  unfold successors, key_of. rewrite Hk. cbn. rewrite Hn. eauto.
Qed.

(** ** States *)
Definition state_of (m : Marks) (v : nat) : NodeState :=
  mkNodeState (key_of v) (disc m v) (low m v) (sid m v) (on m v).
Definition represents (nodes : list NodeState) (m : Marks) : Prop :=
  length nodes = n /\ forall v, (v < n)%nat -> nodes !! v = Some (state_of m v).

Lemma represents_lookup nodes m v : represents nodes m -> (v < n)%nat -> nodes !! v = Some (state_of m v).
Proof. intros [_ Hr]. auto. Qed.

(** Writing the state of one node. *)
Lemma represents_insert nodes m m' v : represents nodes m -> (v < n)%nat ->
  (forall x, x <> v -> state_of m' x = state_of m x) ->
  represents (<[v := state_of m' v]> nodes) m'.
Proof.
  intros [Hl Hr] Hv Ho. split; [by rewrite length_insert|]. intros x Hx.
  destruct (decide (x = v)) as [->|Hne].
  - by rewrite list_lookup_insert_eq by lia.
  - rewrite list_lookup_insert_ne by done. rewrite (Ho x Hne). auto.
Qed.

Lemma state_set_low m v l x : x <> v -> state_of (set_low m v l) x = state_of m x.
Proof. intros. unfold state_of, set_low. cbn. by rewrite fn_lookup_insert_ne. Qed.

Lemma represents_set_low nodes m v l : represents nodes m -> (v < n)%nat ->
  represents (<[v := set_lowlink (state_of m v) l]> nodes) (set_low m v l).
Proof.
  intros Hr Hv. replace (set_lowlink (state_of m v) l) with (state_of (set_low m v l) v).
  - apply (represents_insert _ m); [done|done|]. intros x. apply state_set_low.
  - unfold state_of, set_low, set_lowlink. cbn. by rewrite fn_lookup_insert.
Qed.

Abbreviation search_inv := (search_inv n successors).

(** ** The edges of a node *)
Lemma visit_edges_spec l : forall v j path stack c d found m nodes block,
  search_inv m ((v, j) :: path) stack c d found -> represents nodes m ->
  cfg !! key_of v = Some block -> l = drop j (destinations block) ->
  exists nodes' m', represents nodes' m' /\
    ((visit_edges (E := E) cfg v j l nodes = Ok (nodes', None) /\
      search_inv m' ((v, length (successors v)) :: path) stack c d found) \/
     (exists j' w, visit_edges (E := E) cfg v j l nodes = Ok (nodes', Some (S j', w)) /\
      search_inv m' ((v, j') :: path) stack c d found /\
      successors v !! j' = Some w /\ ~ seen m' w)).
Proof.
  induction l as [|d l IH]; intros v j path stack c dd found m nodes block Hinv Hr Hb Hl.
  - exists nodes, m. split; [done|left]. split; [done|].
    assert (Hj : j = length (successors v)); [|by rewrite <- Hj].
    pose proof (inv_path Hinv) as Hp. cbn [path_ok] in Hp. destruct Hp as (_ & _ & Hj & _).
    apply (f_equal length) in Hl. rewrite length_drop in Hl. cbn in Hl.
    unfold successors in *. rewrite Hb, length_fmap in *. lia.
  - assert (Hd : destinations block !! j = Some d)
      by (rewrite <- (Nat.add_0_r j), <- lookup_drop, <- Hl; done).
    assert (Hl' : l = drop (S j) (destinations block))
      by (rewrite (drop_S _ _ _ Hd) in Hl; by simplify_eq).
    assert (Hs : successors v !! j = Some (index_of d)).
    { unfold successors. by rewrite Hb, list_lookup_fmap, Hd. }
    assert (Hv : (v < n)%nat) by (eapply path_lt; [exact Hinv|left]).
    assert (Hw : (index_of d < n)%nat).
    { apply (successors_lt v); [done|]. by eapply list_elem_of_lookup_2. }
    assert (Hdk : d ∈ keys) by (eapply (ig_closed Hg); [exact Hb|by eapply list_elem_of_lookup_2]).
    apply list_elem_of_lookup in Hdk as [u Hu]. destruct (ig_index Hg u d Hu) as (t & Ht & Hti).
    assert (Hi : Z.to_nat (scc_id (topo_index t)) = index_of d)
      by (unfold index_of; by rewrite Ht).
    cbn [visit_edges]. rewrite Ht. cbn [or_panic mbind result_bind]. rewrite Hi.
    rewrite (represents_lookup _ _ _ Hr Hw). cbn [or_panic mbind result_bind state_of state_discovery is_on_scc_stack].
    destruct (Z.eqb_spec (disc m (index_of d)) u64_max) as [Hun|Hse].
    + exists nodes, m. split; [done|right]. exists j, (index_of d). split_and!; [done|done|done|]. by intros [].
    + pose proof (advance n successors _ _ _ _ _ _ _ _ _ Hinv Hs Hse) as Hadv. unfold advanced in Hadv.
      destruct (on m (index_of d)) eqn:Hon.
      * rewrite (represents_lookup _ _ _ Hr Hv). cbn [or_panic mbind result_bind].
        eapply IH; [exact Hadv| |exact Hb|exact Hl']. by apply represents_set_low.
      * eapply IH; [exact Hadv|exact Hr|exact Hb|exact Hl'].
Qed.

(** ** Taking a component from the stack *)
Lemma pop_component_spec v c above_v : forall below_v i m nodes,
  represents nodes m -> (forall x, x ∈ above_v ++ [v] -> (x < n)%nat) -> v ∉ above_v ->
  0 <= i -> i + Z.of_nat (length (above_v ++ [v])) <= Z.of_nat n ->
  exists nodes', pop_component (E := E) v c i (above_v ++ v :: below_v) nodes = Ok (below_v, nodes') /\
    represents nodes' (close_component m c i (above_v ++ [v])).
Proof.
  pose proof (ig_small Hg) as Hsmall.
  induction above_v as [|w l IH]; intros below_v i m nodes Hr Hlt Hv Hi Hn;
    cbn [app pop_component close_component length] in *.
  - assert (Hvn : (v < n)%nat) by (apply Hlt; left). rewrite (represents_lookup _ _ _ Hr Hvn).
    cbn [or_panic mbind result_bind state_of cfg_node lowlink].
    rewrite (arith_u64_ok (i + 1)) by (unfold is_u, u64_max in *; lia). cbn [mbind result_bind].
    rewrite Nat.eqb_refl. eexists. split; [done|].
    set (m' := mkMarks _ _ _ _). replace (mkNodeState (key_of v) i (low m v) c false) with (state_of m' v).
    + apply (represents_insert _ m); [done|done|]. intros x Hx. unfold state_of, m'. cbn.
      by rewrite !fn_lookup_insert_ne.
    + unfold state_of, m'. cbn. by rewrite !fn_lookup_insert.
  - apply not_elem_of_cons in Hv as [Hvw Hv]. assert (Hwn : (w < n)%nat) by (apply Hlt; left).
    rewrite (represents_lookup _ _ _ Hr Hwn). cbn [or_panic mbind result_bind state_of cfg_node lowlink].
    rewrite (arith_u64_ok (i + 1)) by (unfold is_u, u64_max in *; lia). cbn [mbind result_bind].
    rewrite (proj2 (Nat.eqb_neq w v)) by done. set (m' := mkMarks _ _ _ _). apply IH; [|auto..|lia|lia].
    + replace (mkNodeState (key_of w) i (low m w) c false) with (state_of m' w).
      * apply (represents_insert _ m); [done|done|]. intros x Hx. unfold state_of, m'. cbn.
        by rewrite !fn_lookup_insert_ne.
      * unfold state_of, m'. cbn. by rewrite !fn_lookup_insert.
    + intros x Hx. apply Hlt. by right.
Qed.

Lemma next_root_spec m nodes : represents nodes m -> forall next, (next <= n)%nat ->
  (next_root (E := E) n next (drop next nodes) = Ok None /\
     (forall x, (next <= x < n)%nat -> seen m x)) \/
  (exists r, next_root (E := E) n next (drop next nodes) = Ok (Some r) /\ (next <= r < n)%nat /\
     ~ seen m r /\ forall x, (next <= x < r)%nat -> seen m x).
Proof.
  intros Hr next Hle. remember (n - next)%nat as k eqn:Hk. revert next Hle Hk.
  induction k as [|k IH]; intros next Hle Hk.
  - left. assert (next = n) as -> by lia. rewrite drop_ge by (destruct Hr; lia). cbn.
    rewrite Nat.eqb_refl. split; [done|lia].
  - assert (Hn : (next < n)%nat) by lia. rewrite (drop_S _ _ _ (represents_lookup _ _ _ Hr Hn)).
    cbn [next_root state_of state_discovery].
    destruct (Z.eqb_spec (disc m next) u64_max) as [Hun|Hse].
    + right. exists next. split_and!; [done|lia|lia|by intros []|lia].
    + destruct (IH (S next)) as [[Heq Hall]|(r & Heq & Hlt & Hun & Hall)]; [lia|lia|..].
      * left. split; [done|]. intros x Hx. destruct (decide (x = next)) as [->|]; [done|]. apply Hall. lia.
      * right. exists r. split_and!; [done|lia|lia|done|]. intros x Hx.
        destruct (decide (x = next)) as [->|]; [done|]. apply Hall. lia.
Qed.

(** ** One turn *)
(** The states of the loop: a node [w] about to be discovered from the innermost
    node of [path], or the innermost node with edges looked at.  The bound
    counts the turns left. *)
Inductive at_head (s : Dfs) (bound : nat) : Prop :=
| at_new m path found w :
    represents (states s) m -> recursion_stack s = (w, 0%nat) :: descend path ->
    search_inv m path (scc_stack s) (next_scc_id s) (discovered s) found ->
    ~ seen m w -> (w < n)%nat -> (next_v s <= n)%nat ->
    match path with
    | [] => next_v s = S w /\ forall x, (x < w)%nat -> seen m x
    | (v, j) :: _ => successors v !! j = Some w /\ forall x, (x < next_v s)%nat -> seen m x
    end ->
    (2 * (n - length found) + length path <= S bound)%nat -> at_head s bound
| at_old m path found v j :
    represents (states s) m -> recursion_stack s = (v, S j) :: path ->
    search_inv m ((v, S j) :: path) (scc_stack s) (next_scc_id s) (discovered s) found ->
    (next_v s <= n)%nat -> (forall x, (x < next_v s)%nat -> seen m x) ->
    (2 * (n - length found) + S (length path) <= bound)%nat -> at_head s bound.

(** A search that is over. *)
Definition searched (s : Dfs) : Prop :=
  exists m found, represents (states s) m /\
    search_inv m [] (scc_stack s) (next_scc_id s) (discovered s) found /\
    forall x, (x < n)%nat -> finished m x.

Lemma searched_all m stack c d found :
  search_inv m [] stack c d found -> (forall x, (x < n)%nat -> seen m x) ->
  forall x, (x < n)%nat -> finished m x.
Proof.
  intros Hinv Hall x Hx. split; [auto|]. destruct (on m x) eqn:Hon; [|done].
  destruct (inv_bottom Hinv x Hon) as (g & Hin & _). by apply not_elem_of_nil in Hin.
Qed.

(** The innermost node when the last of its edges has been looked at. *)
Lemma end_component_spec v path stack c d found m nodes :
  search_inv m ((v, length (successors v)) :: path) stack c d found -> represents nodes m ->
  exists nodes' stack' c' m',
    end_component (E := E) v nodes stack c = Ok (nodes', stack', c') /\ represents nodes' m' /\
    match path with
    | [] => search_inv m' [] stack' c' d found
    | (g, i) :: _ => search_inv (set_low m' g (Z.min (low m' g) (low m' v))) path stack' c' d found
    end /\ (forall x, seen m x <-> seen m' x) /\ (v < n)%nat.
Proof.
  intros Hinv Hr. pose proof (ig_small Hg) as Hsmall. destruct (path_lt _ _ _ _ _ _ _ _ v Hinv) as [Hvo Hv]; [left|].
  unfold end_component. rewrite (represents_lookup _ _ _ Hr Hv).
  cbn [or_panic mbind result_bind state_of state_discovery lowlink].
  destruct (Z.eqb_spec (disc m v) (low m v)) as [Heq|Hne].
  - apply (inv_stack Hinv) in Hvo as Hvs. apply list_elem_of_split in Hvs as (a & b & ->).
    pose proof (close n successors Hsmall v Hinv Heq) as Hc.
    pose proof (comp_length n successors v Hinv) as [Hl1 Hl2].
    destruct (pop_component_spec v c a b 0 m nodes) as (nodes' & -> & Hr'); [done|..|lia|lia|].
    + intros x Hx. apply (seen_lt _ _ Hinv), (inv_on Hinv), (inv_stack Hinv).
      rewrite elem_of_app in *. rewrite elem_of_cons. destruct Hx as [?|?%list_elem_of_singleton]; auto.
    + intros Hva. destruct (inv_stack Hinv) as [Hs _]. apply StronglySorted_app in Hs as (Hab & _).
      specialize (Hab v v Hva ltac:(left)). cbn in Hab. lia.
    + cbn [mbind result_bind]. pose proof (count_bound _ _ Hinv).
      rewrite arith_u64_ok by (unfold is_u, u64_max in *; lia). cbn [mbind result_bind].
      do 4 eexists. split_and!; [done|exact Hr'| |intros x; symmetry; by apply (close_seen n successors Hsmall v Hinv)|done].
      destruct path as [|[g i] p]; [exact Hc|]. rewrite close_low.
      rewrite Z.min_l by (by eapply (close_low_le n successors v Hinv Heq)).
      apply search_inv_low; [|exact Hc]. intros x. rewrite close_low.
      destruct (decide (x = g)) as [->|]; [by rewrite fn_lookup_insert|by rewrite fn_lookup_insert_ne].
  - do 4 eexists. split_and!; [done|exact Hr| |done|done]. destruct path as [|[g i] p].
    + exfalso. destruct (inv_low Hinv v Hvo) as (Hle & y & Hy & Hly & _).
      destruct (inv_bottom Hinv y Hy) as (g & Hin & Hgy). cbn in Hin.
      apply list_elem_of_singleton in Hin as ->. lia.
    + by apply leave.
Qed.

Lemma continue_search_spec v path found m nodes stack c d next bound :
  represents nodes m -> (v < n)%nat -> (next <= n)%nat -> (forall x, (x < next)%nat -> seen m x) ->
  match path with
  | [] => search_inv m [] stack c d found
  | (g, i) :: _ => search_inv (set_low m g (Z.min (low m g) (low m v))) path stack c d found /\ (0 < i)%nat
  end ->
  (2 * (n - length found) + length path <= bound)%nat ->
  exists again s', continue_search (E := E) v path nodes stack c d next = Ok (again, s') /\
    if again : bool then at_head s' bound else searched s'.
Proof.
  intros Hr Hv Hnext Hseen Hinv Hb. pose proof Hr as [Hlen _].
  destruct path as [|[g i] p]; cbn [continue_search].
  - rewrite Hlen. destruct (next_root_spec m nodes Hr next Hnext)
      as [[-> Hall]|(r & -> & Hlt & Hun & Hall)]; cbn [mbind result_bind]; do 2 eexists; (split; [done|]).
    + exists m, found. split_and!; [done|done|]. eapply searched_all; [exact Hinv|]. intros x Hx.
      destruct (decide (x < next)%nat); [auto|]. apply Hall. lia.
    + eapply (at_new _ _ m [] found r); cbn; [done|done|done|done|lia|lia| |lia].
      split; [done|]. intros x Hx. destruct (decide (x < next)%nat); [auto|]. apply Hall. lia.
  - destruct Hinv as [Hinv Hi]. destruct (path_lt _ _ _ _ _ _ _ _ g Hinv) as [_ Hgn]; [left|].
    rewrite (represents_lookup _ _ _ Hr Hgn), (represents_lookup _ _ _ Hr Hv).
    cbn [or_panic mbind result_bind state_of lowlink]. do 2 eexists. split; [done|].
    destruct i as [|i]; [lia|].
    eapply (at_old _ _ _ p found g i); cbn; [by apply represents_set_low|done|done|done|done|].
    cbn in Hb. lia.
Qed.

Lemma same_found {m m' path path' stack stack' c c' d d' found} :
  search_inv m path stack c d found -> search_inv m' path' stack' c' d' found ->
  forall x, seen m x <-> seen m' x.
Proof.
  intros Hinv Hinv' x. destruct (inv_found Hinv) as (_ & -> & _). by destruct (inv_found Hinv') as (_ & -> & _).
Qed.

(** From the innermost node at one of its edges on. *)
Lemma visit_spec v j path found m nodes stack c d next bound :
  search_inv m ((v, j) :: path) stack c d found -> represents nodes m ->
  (next <= n)%nat -> (forall x, (x < next)%nat -> seen m x) ->
  (2 * (n - length found) + length path <= bound)%nat ->
  exists again s', (
    node ← or_panic (nodes !! v);
    block ← or_panic (cfg !! cfg_node node);
    '(nodes, descend) ← visit_edges cfg v j (drop j (destinations block)) nodes;
    match descend with
    | Some (j, w) => Ok (true, mkDfs nodes c stack d next ((w, 0%nat) :: (v, j) :: path))
    | None =>
        '(nodes, stack, id) ← end_component v nodes stack c;
        continue_search v path nodes stack id d next
    end) = @Ok E _ (again, s') /\ if again : bool then at_head s' bound else searched s'.
Proof.
  intros Hinv Hr Hnext Hseen Hb. destruct (path_lt _ _ _ _ _ _ _ _ v Hinv) as [_ Hv]; [left|].
  rewrite (represents_lookup _ _ _ Hr Hv). cbn [or_panic mbind result_bind state_of cfg_node].
  destruct (key_block v Hv) as (block & Hblock & _). rewrite Hblock. cbn [or_panic mbind result_bind].
  destruct (visit_edges_spec _ v j path stack c d found m nodes block Hinv Hr Hblock eq_refl)
    as (nodes' & m' & Hr' & [[-> Hinv']|(j' & w & -> & Hinv' & Hjw & Hun)]); cbn [mbind result_bind].
  - destruct (end_component_spec v path stack c d found m' nodes' Hinv' Hr')
      as (nodes2 & stack2 & c2 & m2 & -> & Hr2 & Hinv2 & Hs2 & _). cbn [mbind result_bind].
    eapply continue_search_spec; [exact Hr2|done|done| | |exact Hb].
    + intros x Hx. apply Hs2, (same_found Hinv Hinv'). auto.
    + destruct path as [|[g i] p]; [done|]. split; [done|].
      pose proof (inv_path Hinv') as Hp. cbn [path_ok] in Hp.
      by destruct Hp as (_ & _ & _ & _ & _ & _ & _ & _ & _ & [? _] & _).
  - do 2 eexists. split; [done|]. eapply (at_new _ _ m' ((v, j') :: path) found w); cbn; try done.
    + apply (successors_lt v); [done|]. by eapply list_elem_of_lookup_2.
    + split; [done|]. intros x Hx. apply (same_found Hinv Hinv'). auto.
    + cbn. lia.
Qed.

Lemma dfs_turn_spec s bound : at_head s bound -> exists v j rest, recursion_stack s = (v, j) :: rest /\
  exists again s', dfs_turn (E := E) cfg v j rest s = Ok (again, s') /\ (0 < bound)%nat /\
    if again : bool then at_head s' (bound - 1) else searched s'.
Proof.
  pose proof (ig_small Hg) as Hsmall.
  intros [m path found w Hr Hrs Hinv Hun Hw Hnext Htop Hb|m path found v j Hr Hrs Hinv Hnext Hseen Hb].
  - exists w, 0%nat, (descend path). split; [done|]. unfold dfs_turn, start_visit. cbn [Nat.eqb].
    rewrite (represents_lookup _ _ _ Hr Hw). cbn [or_panic mbind result_bind state_of cfg_node state_scc_id].
    pose proof (unseen_bound _ _ Hinv w Hun Hw) as Hdn. pose proof (count_bound _ _ Hinv) as Hcb.
    rewrite (arith_u64_ok (discovered s + 1)) by (unfold is_u, u64_max in *; lia). cbn [mbind result_bind].
    destruct (inv_found Hinv) as (_ & Hs & Hd & _).
    assert (Htop' : match path with [] => forall x, (x < w)%nat -> seen m x
                    | (v, j) :: _ => successors v !! j = Some w end)
      by (destruct path as [|[v j] p]; by destruct Htop).
    pose proof (enter n successors Hsmall w Hinv Hun Hw Htop') as Hinv'.
    set (m' := discover m w (discovered s)) in *.
    assert (Hr' : represents (<[w := mkNodeState (key_of w) (discovered s) (discovered s) (sid m w) true]>
      (states s)) m').
    { replace (mkNodeState _ _ _ _ _) with (state_of m' w).
      - apply (represents_insert _ m); [done|done|]. intros x Hx. unfold state_of, m'. cbn.
        by rewrite !fn_lookup_insert_ne.
      - unfold state_of, m'. cbn. by rewrite !fn_lookup_insert. }
    assert (Hlen : length (descend path) = length path) by (by destruct path as [|[v j] p]).
    destruct (visit_spec w 0 (descend path) (w :: found) m' _ (w :: scc_stack s) (next_scc_id s)
      (discovered s + 1) (next_v s) (bound - 1) Hinv' Hr' Hnext) as (again & s' & Heq & Hres).
    + intros x Hx. destruct (inv_found Hinv') as (_ & -> & _). rewrite elem_of_cons, <- Hs.
      destruct path as [|[v j] p]; [|right; by apply Htop]. destruct Htop as [Hnv Hall].
      destruct (decide (x = w)) as [|]; [by left|right]. apply Hall. lia.
    + cbn [length]. rewrite Hlen. lia.
    + exists again, s'. split_and!; [exact Heq|lia|done].
  - exists v, (S j), path. split; [done|]. unfold dfs_turn, start_visit. cbn [Nat.eqb mbind result_bind].
    destruct (visit_spec v (S j) path found m _ _ _ _ (next_v s) (bound - 1) Hinv Hr Hnext Hseen)
      as (again & s' & Heq & Hres); [lia|].
    exists again, s'. split_and!; [exact Heq|lia|done].
Qed.

Lemma dfs_spec fuel : forall s bound, at_head s bound -> (bound < fuel)%nat ->
  exists s', dfs (E := E) fuel cfg s = Ok s' /\ searched s'.
Proof.
  induction fuel as [|fuel IH]; intros s bound Hs Hlt; [lia|].
  destruct (dfs_turn_spec s bound Hs) as (v & j & rest & Hrs & again & s' & Ht & Hb & Hres).
  cbn [dfs]. rewrite Hrs, Ht. cbn [mbind result_bind]. destruct again; [|eauto].
  eapply IH; [exact Hres|lia].
Qed.

Lemma initial_head : (0 < n)%nat ->
  at_head (mkDfs (initial_state <$> keys) 0 [] 0 1 [(0%nat, 0%nat)]) (2 * n).
Proof.
  intros Hn. set (m := mkMarks (fun _ => u64_max) (fun _ => u64_max) (fun _ => u64_max) (fun _ => false)).
  apply (at_new _ _ m [] [] 0); cbn.
  - split; [by rewrite length_fmap|]. intros v [k Hk]%lookup_lt_is_Some.
    rewrite list_lookup_fmap, Hk. cbn. unfold state_of, key_of. by rewrite Hk.
  - done.
  - by apply search_start.
  - by intros [].
  - done.
  - lia.
  - split; [done|lia].
  - lia.
Qed.
End Search.
