(* ===== verification/ComponentsSpec.v ===== *)
(** * Components and topological order of a control-flow graph

    What [control_flow_graph_tarjan] does to the graph of an analysis: the ids
    it writes are those of the strongly connected components, its order puts
    every edge between components forwards, and its [super_root] leads to every
    block. *)

From Stdlib Require Import String.
From stdpp Require Import gmap strings relations sorting functions.
From S2P Require Import Prelude Ebpf Program Verifier Error Text Vm BTree Disassembler StaticAnalysis.
From S2P Require Import StaticFacts Components ComponentsInv ComponentsFacts.

(** ** Graphs of blocks *)
Definition cfg_edge (nodes : gmap Z CfgNode) (u v : Z) : Prop :=
  exists node, nodes !! u = Some node /\ v ∈ destinations node.
Definition cfg_reach (nodes : gmap Z CfgNode) : Z -> Z -> Prop := rtc (cfg_edge nodes).

Record well_linked (nodes : gmap Z CfgNode) (super_root : Z) : Prop := {
  wl_closed : forall u v, cfg_edge nodes u v -> is_Some (nodes !! v);
  wl_sources : forall u v node, nodes !! v = Some node -> u ∈ sources node <-> cfg_edge nodes u v;
  wl_super_root : nodes !! super_root = None;
  wl_small : Z.of_nat (length (bindings nodes)) < u64_max
}.

Definition block_scc (nodes : gmap Z CfgNode) (k : Z) : Z :=
  match nodes !! k with Some node => scc_id (topo_index node) | None => u64_max end.

(** ** Writing the marks back *)
Section WriteBack.
Context {E : Type}.

Lemma write_back_spec l : forall cfg : gmap Z CfgNode,
  NoDup (cfg_node <$> l) -> (forall st, st ∈ l -> is_Some (cfg !! cfg_node st)) ->
  exists cfg', write_back (E := E) l cfg = Ok cfg' /\
    (forall st b, st ∈ l -> cfg !! cfg_node st = Some b ->
       cfg' !! cfg_node st =
       Some (set_topo_index b (mkTopologicalIndex (state_scc_id st) (state_discovery st)))) /\
    (forall k, k ∉ cfg_node <$> l -> cfg' !! k = cfg !! k).
Proof.
  induction l as [|st l IH]; intros cfg Hnd Hin; [by exists cfg; split_and!; [|intros ?? ?%not_elem_of_nil|]|].
  rewrite fmap_cons in Hnd. apply NoDup_cons in Hnd as [Hst Hnd]. cbn [write_back].
  destruct (Hin st ltac:(left)) as [b Hb]. rewrite Hb. cbn [or_panic mbind result_bind].
  destruct (IH (<[cfg_node st := set_topo_index b (mkTopologicalIndex (state_scc_id st) (state_discovery st))]> cfg))
    as (cfg' & Hw & Hl & Ho); [done| |].
  { intros st' Hst'. destruct (Hin st' ltac:(by right)) as [b' Hb'].
    destruct (decide (cfg_node st' = cfg_node st)) as [->|]; [rewrite lookup_insert_eq|rewrite lookup_insert_ne]; eauto. }
  exists cfg'. split_and!; [done| |].
  - intros st' b' [->|Hst']%elem_of_cons Hb'.
    + simplify_eq. by rewrite (Ho _ Hst), lookup_insert_eq.
    + apply Hl; [done|]. rewrite lookup_insert_ne; [done|]. intros Heq. apply Hst. rewrite Heq.
      by apply list_elem_of_fmap_2.
  - intros k [Hk Hkl]%not_elem_of_cons. rewrite (Ho k Hkl). by rewrite lookup_insert_ne.
Qed.
End WriteBack.

(** ** The search on an analysis *)
Section Marks.
Context {E : Type} `{Profile} (nodes : gmap Z CfgNode) (super_root : Z).
Hypothesis Hwl : well_linked nodes super_root.
Hypothesis Hne : nodes <> ∅.
Definition node_keys : list Z := (bindings nodes).*1.
Definition indexed : gmap Z CfgNode := list_to_map (index_nodes (bindings nodes)).

Lemma indexed_keys : (index_nodes (bindings nodes)).*1 = node_keys.
Proof.
  unfold index_nodes, node_keys. apply list_eq. intros i.
  rewrite !list_lookup_fmap, list_lookup_imap. by destruct (bindings nodes !! i) as [[k b]|].
Qed.

Lemma node_keys_NoDup : NoDup node_keys.
Proof. apply bindings_NoDup. Qed.

Lemma elem_of_node_keys k : k ∈ node_keys <-> is_Some (nodes !! k).
Proof. apply elem_of_binding_keys. Qed.

Lemma indexed_lookup v k b : bindings nodes !! v = Some (k, b) ->
  indexed !! k = Some (set_topo_index b (mkTopologicalIndex (Z.of_nat v) (discovery (topo_index b)))).
Proof.
  intros Hv. unfold indexed. apply elem_of_list_to_map.
  - rewrite indexed_keys. apply node_keys_NoDup.
  - apply list_elem_of_lookup. exists v. unfold index_nodes. by rewrite list_lookup_imap, Hv.
Qed.

Lemma indexed_inv k b : indexed !! k = Some b -> exists v b0, bindings nodes !! v = Some (k, b0) /\
  nodes !! k = Some b0 /\
  b = set_topo_index b0 (mkTopologicalIndex (Z.of_nat v) (discovery (topo_index b0))).
Proof.
  intros Hk. unfold indexed in Hk. apply elem_of_list_to_map in Hk; [|rewrite indexed_keys; apply node_keys_NoDup].
  apply list_elem_of_lookup in Hk as [v Hv]. unfold index_nodes in Hv. rewrite list_lookup_imap in Hv.
  destruct (bindings nodes !! v) as [[k0 b0]|] eqn:Hb; [|done]. cbn in Hv. simplify_eq.
  exists v, b0. split_and!; [done| |done]. apply elem_of_bindings. by eapply list_elem_of_lookup_2.
Qed.

Lemma node_keys_lookup v k : node_keys !! v = Some k -> exists b, bindings nodes !! v = Some (k, b) /\ nodes !! k = Some b.
Proof.
  unfold node_keys. rewrite list_lookup_fmap. destruct (bindings nodes !! v) as [[k0 b]|] eqn:Hb; [|done].
  cbn. intros [= ->]. exists b. split; [done|]. apply elem_of_bindings. by eapply list_elem_of_lookup_2.
Qed.

Lemma indexed_is_graph : indexed_graph node_keys indexed.
Proof.
  split.
  - unfold node_keys. rewrite length_fmap. apply (wl_small _ _ Hwl).
  - intros v k Hk. destruct (node_keys_lookup v k Hk) as (b & Hb & _).
    eexists. split; [by apply indexed_lookup|]. done.
  - intros k b d Hk Hd. destruct (indexed_inv k b Hk) as (v & b0 & _ & Hb0 & ->).
    apply elem_of_node_keys, (wl_closed _ _ Hwl k). exists b0. by split.
Qed.
Abbreviation n := (length node_keys).
Abbreviation successors := (successors node_keys indexed).
Abbreviation key_of := (key_of node_keys).

Lemma key_of_lookup v k : node_keys !! v = Some k -> key_of v = k.
Proof. intros Hk. unfold ComponentsFacts.key_of. by rewrite Hk. Qed.

Lemma key_of_inj u v : (u < n)%nat -> (v < n)%nat -> key_of u = key_of v -> u = v.
Proof.
  intros [k Hk]%lookup_lt_is_Some [k' Hk']%lookup_lt_is_Some.
  rewrite (key_of_lookup _ _ Hk), (key_of_lookup _ _ Hk'). intros ->.
  by eapply NoDup_lookup; [apply node_keys_NoDup|exact Hk|exact Hk'].
Qed.

(** Edges between indices are edges between blocks. *)
Lemma index_edge u w : (u < n)%nat -> (w < n)%nat ->
  edge n successors u w <-> cfg_edge nodes (key_of u) (key_of w).
Proof.
  intros Hu Hw. pose proof Hu as [k Hk]%lookup_lt_is_Some. pose proof Hw as [k' Hk']%lookup_lt_is_Some.
  rewrite (key_of_lookup _ _ Hk'). destruct (node_keys_lookup u k Hk) as (b & Hb & Hnb).
  unfold edge, ComponentsFacts.successors. rewrite (key_of_lookup _ _ Hk), (indexed_lookup u k b Hb).
  cbn [set_topo_index destinations]. split.
  - intros [_ (d & Heq & Hd)%list_elem_of_fmap]. exists b. split; [done|].
    assert (Hdk : d ∈ node_keys) by (apply elem_of_node_keys, (wl_closed _ _ Hwl k); exists b; done).
    apply list_elem_of_lookup in Hdk as [x Hx]. rewrite (index_of_key _ _ indexed_is_graph x d Hx) in Heq.
    subst x. congruence.
  - intros (b' & Hb' & Hd). assert (b' = b) as -> by congruence. split; [done|].
    apply list_elem_of_fmap. exists k'. split; [|done].
    by rewrite (index_of_key _ _ indexed_is_graph w k' Hk').
Qed.

Lemma index_reach u w : (u < n)%nat -> (w < n)%nat ->
  reach n successors u w <-> cfg_reach nodes (key_of u) (key_of w).
Proof.
  intros Hu Hw. split.
  - intros Hr. revert Hu. induction Hr as [|x y z Hxy _ IH]; intros Hx; [apply rtc_refl|].
    assert (Hy : (y < n)%nat) by (eapply (successors_lt _ _ indexed_is_graph x); [done|by destruct Hxy]).
    eapply rtc_l; [apply index_edge; [exact Hx|exact Hy|done]|by apply IH].
  - intros Hr. remember (key_of u) as ku eqn:Hku. remember (key_of w) as kw eqn:Hkw.
    revert u Hu Hku. induction Hr as [x|x y z Hxy _ IH]; intros u Hu Hku.
    + subst. assert (u = w) as -> by (by apply key_of_inj). apply rtc_refl.
    + destruct (wl_closed _ _ Hwl x y Hxy) as [b Hb].
      assert (Hy : y ∈ node_keys) by (apply elem_of_node_keys; eauto).
      apply list_elem_of_lookup in Hy as [v Hv]. pose proof (lookup_lt_Some _ _ _ Hv) as Hvn.
      eapply rtc_l; [apply (index_edge u v); [done|done|]|apply IH; [done|done|]].
      * rewrite (key_of_lookup _ _ Hv), <- Hku. done.
      * by rewrite (key_of_lookup _ _ Hv).
Qed.

(** ** The marks of the blocks *)
Definition topo_lt (a b : TopologicalIndex) : Prop :=
  scc_id a < scc_id b \/ (scc_id a = scc_id b /\ discovery a < discovery b).

(** A search may have started at [k]: all earlier blocks lead elsewhere. *)
Definition cfg_fresh (k : Z) : Prop :=
  exists P : Z -> Prop, (forall x y, P x -> cfg_edge nodes x y -> P y) /\
    (forall x, x ∈ node_keys -> x < k -> P x) /\ ~ P k.

Record marked (topo : Z -> TopologicalIndex) : Prop := {
  mk_range : forall k, k ∈ node_keys ->
    0 <= scc_id (topo k) < u64_max /\ 0 <= discovery (topo k) < u64_max;
  mk_scc : forall u v, u ∈ node_keys -> v ∈ node_keys ->
    scc_id (topo u) = scc_id (topo v) <-> cfg_reach nodes u v /\ cfg_reach nodes v u;
  mk_edge : forall u v, cfg_edge nodes u v -> scc_id (topo v) <= scc_id (topo u);
  mk_inj : forall u v, u ∈ node_keys -> v ∈ node_keys -> topo u = topo v -> u = v;
  mk_parent : forall v, v ∈ node_keys ->
    cfg_fresh v \/ exists p, cfg_edge nodes p v /\ topo_lt (topo v) (topo p)
}.

Lemma node_keys_order u v : (u < n)%nat -> (v < n)%nat -> key_of u < key_of v -> (u < v)%nat.
Proof.
  intros [k Hk]%lookup_lt_is_Some [k' Hk']%lookup_lt_is_Some.
  rewrite (key_of_lookup _ _ Hk), (key_of_lookup _ _ Hk'). intros Hlt.
  destruct (Nat.lt_trichotomy u v) as [|[->|Hvu]]; [done|simplify_eq; lia|].
  pose proof (StronglySorted_lookup_lt _ _ _ _ _ _ (bindings_sorted nodes) Hk' Hk Hvu). lia.
Qed.

Lemma key_index k : k ∈ node_keys -> exists v, (v < n)%nat /\ node_keys !! v = Some k /\
  index_of indexed k = v /\ key_of v = k.
Proof.
  intros [v Hv]%list_elem_of_lookup. exists v. split_and!; [by apply lookup_lt_Some in Hv|done| |].
  - by apply (index_of_key _ _ indexed_is_graph).
  - by apply key_of_lookup.
Qed.

Lemma fresh_key v : (v < n)%nat -> fresh_root n successors v -> cfg_fresh (key_of v).
Proof.
  intros Hv (P & Hc & Hlt & Hnot).
  exists (fun k => exists u, (u < n)%nat /\ key_of u = k /\ P u). split_and!.
  - intros x y (u & Hu & <- & HP) Hxy. destruct (wl_closed _ _ Hwl _ _ Hxy) as [b Hb].
    destruct (key_index y) as (w & Hw & _ & _ & <-); [apply elem_of_node_keys; eauto|].
    exists w. split_and!; [done|done|]. apply (Hc u); [done|]. by apply index_edge.
  - intros x Hx Hxv. destruct (key_index x Hx) as (u & Hu & _ & _ & <-).
    exists u. split_and!; [done|done|]. apply Hlt. by apply node_keys_order.
  - intros (u & Hu & Heq & HP). apply key_of_inj in Heq as ->; [done|done|done].
Qed.

Definition topo_of (m : Marks) (k : Z) : TopologicalIndex :=
  mkTopologicalIndex (sid m (index_of indexed k)) (disc m (index_of indexed k)).

Lemma marks_marked m stack c d found :
  search_inv n successors m [] stack c d found -> (forall x, (x < n)%nat -> finished m x) ->
  marked (topo_of m).
Proof.
  intros Hinv Hall. pose proof (count_bound _ _ Hinv) as Hcb. pose proof (ig_small _ _ indexed_is_graph) as Hsm.
  split; unfold topo_of; cbn [scc_id discovery].
  - intros k Hk. destruct (key_index k Hk) as (v & Hv & _ & -> & _).
    destruct (Hall v Hv) as [Hs _]. destruct (inv_disc Hinv v Hs) as [Hd _].
    destruct (inv_finished Hinv v (Hall v Hv)) as [Hc _]. lia.
  - intros u v Hu Hv. destruct (key_index u Hu) as (x & Hx & _ & -> & <-).
    destruct (key_index v Hv) as (y & Hy & _ & -> & <-). rewrite <- !index_reach by done.
    by apply (same_component _ _ Hinv); apply Hall.
  - intros u v He. pose proof (wl_closed _ _ Hwl _ _ He) as Hv%elem_of_node_keys.
    assert (Hu : u ∈ node_keys) by (destruct He as (b & Hb & _); apply elem_of_node_keys; eauto).
    destruct (key_index u Hu) as (x & Hx & _ & -> & <-). destruct (key_index v Hv) as (y & Hy & _ & -> & <-).
    apply index_edge in He as [_ He]; [|done|done].
    destruct (inv_finished Hinv x (Hall x Hx)) as [_ Hd]. by destruct (Hd y He).
  - intros u v Hu Hv [= Hs Hd]. destruct (key_index u Hu) as (x & Hx & _ & Hix & <-).
    destruct (key_index v Hv) as (y & Hy & _ & Hiy & <-). rewrite Hix, Hiy in *. f_equal.
    by apply (inv_same Hinv x y (Hall x Hx) (Hall y Hy) Hs).
  - intros v Hv. destruct (key_index v Hv) as (x & Hx & _ & Hix & <-).
    destruct (Hall x Hx) as [Hs Ho]. destruct (inv_parent Hinv x Hs) as [Hf|(p & He & Ha)].
    + left. by apply fresh_key.
    + right. destruct He as [Hp He]. exists (key_of p). split; [by apply index_edge|].
      assert (Hip : index_of indexed (key_of p) = p).
      { pose proof Hp as [k Hk]%lookup_lt_is_Some. rewrite (key_of_lookup _ _ Hk).
        by apply (index_of_key _ _ indexed_is_graph). }
      unfold topo_lt. rewrite Hip, Hix. cbn. destruct (Hall p Hp) as [_ Hpo]. unfold above in Ha.
      rewrite Ho, Hpo in Ha. by destruct Ha as (_ & _ & Ha).
Qed.

(** The search returns and its marks are written into the blocks. *)
Lemma search_returns : exists s cfg topo,
  dfs (E := E) (S (2 * length (index_nodes (bindings nodes)))) indexed
    (mkDfs (initial_state <$> (index_nodes (bindings nodes)).*1) 0 [] 0 1 [(0%nat, 0%nat)]) = Ok s /\
  write_back (E := E) (states s) indexed = Ok cfg /\ marked topo /\
  (forall k, cfg !! k = (fun b => set_topo_index b (topo k)) <$> nodes !! k).
Proof.
  assert (Hlen : length (index_nodes (bindings nodes)) = n)
    by (rewrite <- indexed_keys, length_fmap; done).
  rewrite Hlen, indexed_keys. assert (Hn : (0 < n)%nat).
  { destruct (map_choose nodes Hne) as (k & b & Hb).
    destruct (key_index k) as (v & Hv & _); [apply elem_of_node_keys; eauto|]. lia. }
  destruct (dfs_spec (E := E) _ _ indexed_is_graph _ _ _ (initial_head _ _ Hn) (Nat.lt_succ_diag_r _))
    as (s & Hdfs & m & found & Hr & Hinv & Hall).
  assert (Hst : states s = state_of node_keys m <$> seq 0 n).
  { destruct Hr as [Hl Hr]. apply list_eq. intros i. rewrite list_lookup_fmap.
    destruct (decide (i < n)%nat) as [Hi|Hi].
    - rewrite (Hr i Hi), lookup_seq_lt by done. done.
    - rewrite (lookup_ge_None_2 (states s)) by lia. by rewrite lookup_ge_None_2 by (rewrite length_seq; lia). }
  assert (Hks : cfg_node <$> states s = node_keys).
  { rewrite Hst, <- list_fmap_compose. apply list_eq. intros i. rewrite list_lookup_fmap.
    destruct (decide (i < n)%nat) as [Hi|Hi].
    - rewrite lookup_seq_lt by done. cbn. pose proof Hi as [k Hk]%lookup_lt_is_Some.
      by rewrite Hk, (key_of_lookup _ _ Hk).
    - rewrite (lookup_ge_None_2 node_keys) by lia. by rewrite lookup_ge_None_2 by (rewrite length_seq; lia). }
  destruct (write_back_spec (E := E) (states s) indexed) as (cfg & Hw & Hin & Hout).
  { rewrite Hks. apply node_keys_NoDup. }
  { intros st Hst'. apply (list_elem_of_fmap_2 cfg_node) in Hst'. rewrite Hks in Hst'.
    apply list_elem_of_lookup in Hst' as [v Hv]. destruct (node_keys_lookup v _ Hv) as (b & Hb & _).
    rewrite (indexed_lookup _ _ _ Hb). eauto. }
  exists s, cfg, (topo_of m). split_and!; [done|done|by eapply marks_marked|].
  intros k. destruct (nodes !! k) as [b|] eqn:Hk; cbn.
  - destruct (key_index k) as (v & Hv & Hvk & Hi & Hkk); [apply elem_of_node_keys; eauto|].
    destruct (node_keys_lookup v k Hvk) as (b' & Hb & Hb'). assert (b' = b) as -> by congruence.
    pose proof (indexed_lookup _ _ _ Hb) as Hib.
    specialize (Hin (state_of node_keys m v) (set_topo_index b (mkTopologicalIndex (Z.of_nat v) (discovery (topo_index b))))).
    cbn [state_of cfg_node] in Hin. rewrite (key_of_lookup _ _ Hvk) in Hin. rewrite Hin; [|..|done].
    + unfold topo_of. rewrite (index_of_key _ _ indexed_is_graph v _ Hvk). done.
    + rewrite Hst. apply list_elem_of_fmap_2, elem_of_seq. lia.
  - assert (Hnk : k ∉ node_keys) by (rewrite elem_of_node_keys, Hk; by intros []).
    rewrite Hout by (by rewrite Hks). apply not_elem_of_list_to_map. by rewrite indexed_keys.
Qed.

(** ** The order *)
Section Order.
Context (topo : Z -> TopologicalIndex) (cfg : gmap Z CfgNode).
Hypothesis Hm : marked topo.
Hypothesis Hcfg : forall k, cfg !! k = (fun b => set_topo_index b (topo k)) <$> nodes !! k.

Definition precedes (u v : Z) : Prop := topo_lt (topo v) (topo u).

Lemma cfg_bindings : (bindings cfg).*1 = node_keys.
Proof. rewrite (bindings_map _ _ _ Hcfg), <- list_fmap_compose. done. Qed.

Lemma topo_cmp_spec a b : CompareSpec (a = b) (topo_lt a b) (topo_lt b a) (topo_cmp a b).
Proof.
  destruct a as [s d], b as [s' d']. unfold topo_cmp, topo_lt. cbn.
  destruct (Z.compare_spec s s'); [|constructor; lia..].
  destruct (Z.compare_spec d d'); constructor; [by subst|lia|lia].
Qed.

#[local] Instance topo_before_trans : Transitive topo_before.
Proof.
  intros x y z. unfold topo_before.
  destruct (topo_cmp_spec (topo_index y.2) (topo_index x.2)), (topo_cmp_spec (topo_index z.2) (topo_index y.2)),
    (topo_cmp_spec (topo_index z.2) (topo_index x.2)); try done; unfold topo_lt in *; try congruence; try lia;
    try (exfalso; rewrite <- ?H0, <- ?H1, ?H0, ?H1 in *; lia).
Qed.
#[local] Instance topo_before_total : Total topo_before.
Proof.
  intros x y. unfold topo_before.
  destruct (topo_cmp_spec (topo_index y.2) (topo_index x.2)), (topo_cmp_spec (topo_index x.2) (topo_index y.2));
    try (by left); try (by right); unfold topo_lt in *; lia.
Qed.

Lemma sort_nodes_perm : sort_nodes cfg ≡ₚ node_keys.
Proof. unfold sort_nodes. by rewrite merge_sort_Permutation, cfg_bindings. Qed.

Lemma elem_of_order k : k ∈ sort_nodes cfg <-> k ∈ node_keys.
Proof. by rewrite sort_nodes_perm. Qed.

Lemma order_NoDup : NoDup (sort_nodes cfg).
Proof. rewrite sort_nodes_perm. apply node_keys_NoDup. Qed.

(** The order is strictly descending in the index. *)
Lemma order_sorted : StronglySorted precedes (sort_nodes cfg).
Proof.
  assert (Hs : StronglySorted topo_before (merge_sort topo_before (bindings cfg)))
    by (apply StronglySorted_merge_sort; apply _).
  pose proof order_NoDup as Hnd. unfold sort_nodes in *.
  assert (Hin : forall p, p ∈ merge_sort topo_before (bindings cfg) -> topo_index p.2 = topo p.1 /\ p.1 ∈ node_keys).
  { intros [k b] Hp. rewrite merge_sort_Permutation, elem_of_bindings, Hcfg in Hp.
    apply fmap_Some in Hp as (b0 & Hb0 & ->). split; [done|]. apply elem_of_node_keys. by exists b0. }
  induction Hs as [|x l Hs IH Hf]; [constructor|]. rewrite fmap_cons in *.
  apply NoDup_cons in Hnd as [Hx Hnd]. constructor; [apply IH; [done|]; intros p Hp; apply Hin; by right|].
  rewrite Forall_forall in Hf. apply Forall_forall. intros k Hk.
  apply list_elem_of_fmap in Hk as (y & -> & Hy). specialize (Hf y Hy). unfold topo_before in Hf.
  destruct (Hin x ltac:(left)) as [Htx Hkx], (Hin y ltac:(by right)) as [Hty Hky]. rewrite Htx, Hty in Hf.
  unfold precedes. destruct (topo_cmp_spec (topo y.1) (topo x.1)) as [Heq| |]; [|done|done].
  exfalso. apply (mk_inj _ Hm) in Heq; [|done|done]. apply Hx. rewrite <- Heq. by apply list_elem_of_fmap_2.
Qed.

(** ** Entries *)
Definition block_id (k : Z) : Z := scc_id (topo k).
Definition external (k : Z) : bool :=
  match nodes !! k with
  | Some b => existsb (fun s => negb (block_id s =? block_id k)) (sources b)
  | None => false
  end.

Lemma any_external_spec id l : (forall s, s ∈ l -> s ∈ node_keys) ->
  any_external (E := E) cfg id l = Ok (existsb (fun s => negb (block_id s =? id)) l).
Proof.
  induction l as [|s l IH]; intros Hl; [done|]. cbn [any_external existsb].
  destruct (proj1 (elem_of_node_keys s) (Hl s ltac:(left))) as [b Hb]. rewrite Hcfg, Hb.
  cbn [fmap option_fmap option_map or_panic mbind result_bind set_topo_index topo_index].
  fold (block_id s). destruct (negb _); [done|]. apply IH. intros x Hx. apply Hl. by right.
Qed.

(** The rest of a component, then the components after it. *)
Lemma entry_nodes_group x g : forall ext acc rest,
  (forall y, y ∈ g ++ rest -> y ∈ node_keys) -> g <> [] ->
  (forall y, y ∈ g -> block_id y = block_id x) -> (forall y, y ∈ rest -> block_id y <> block_id x) ->
  x <> super_root ->
  entry_nodes (E := E) cfg super_root (g ++ rest) (Some x) ext acc =
  entry_nodes cfg super_root rest (head rest) false
    (acc ++ if ext || existsb external g then [] else [x]).
Proof.
  induction g as [|y g IH]; intros ext acc rest Hk Hg Hid Hrest Hx; [done|]. cbn [app entry_nodes].
  destruct (proj1 (elem_of_node_keys y) (Hk y ltac:(left))) as [b Hb]. rewrite (Hcfg y), Hb.
  cbn [fmap option_fmap option_map or_panic mbind result_bind set_topo_index topo_index sources].
  rewrite any_external_spec.
  2: { intros s Hs. apply (wl_sources _ _ Hwl s y b Hb) in Hs as (b' & Hb' & _). apply elem_of_node_keys. eauto. }
  cbn [mbind result_bind]. cbn [existsb]. replace (external y) with
    (existsb (fun s => negb (block_id s =? scc_id (topo y))) (sources b)) by (unfold external; by rewrite Hb).
  destruct g as [|z g]; cbn [app].
  - assert (Hlast : (match rest with [] => Ok true | next :: _ =>
        next_node ← or_panic (cfg !! next);
        Ok (negb (scc_id (topo_index next_node) =? scc_id (topo y))) end : result E bool) = Ok true).
    { destruct rest as [|z rest]; [done|]. destruct (proj1 (elem_of_node_keys z) (Hk z ltac:(right; left))) as [b' Hb'].
      rewrite (Hcfg z), Hb'. cbn. f_equal. apply negb_true_iff, Z.eqb_neq. fold (block_id z) (block_id y).
      rewrite (Hid y) by left. apply Hrest. left. }
    rewrite Hlast. cbn [mbind result_bind]. rewrite bool_decide_true by congruence. rewrite andb_true_r.
    cbn [existsb]. rewrite orb_false_r.
    destruct (ext || _); cbn [negb or_panic mbind result_bind]; [by rewrite app_nil_r|done].
  - destruct (proj1 (elem_of_node_keys z) (Hk z ltac:(right; left))) as [b' Hb'].
    rewrite (Hcfg z), Hb'. cbn [fmap option_fmap option_map or_panic mbind result_bind set_topo_index topo_index].
    rewrite (proj2 (Z.eqb_eq _ _)).
    2: { fold (block_id z) (block_id y). rewrite (Hid z) by (right; left). rewrite (Hid y) by left. done. }
    cbn [negb]. rewrite (IH _ acc rest); [by rewrite orb_assoc|..|done|done].
    + intros w Hw. apply Hk. by right.
    + done.
    + intros w Hw. apply Hid. by right.
Qed.

(** The first block of its component, when no edge enters the component. *)
Definition entry_of (l : list Z) (x : Z) : Prop :=
  exists l1 l2, l = l1 ++ x :: l2 /\ (forall y, y ∈ l1 -> block_id y <> block_id x) /\
    forall y, y ∈ l -> block_id y = block_id x -> external y = false.

Lemma component_prefix x l : StronglySorted (fun u v => block_id v <= block_id u) (x :: l) ->
  exists g rest, x :: l = (x :: g) ++ rest /\ (forall y, y ∈ x :: g -> block_id y = block_id x) /\
    (forall y, y ∈ rest -> block_id y < block_id x).
Proof.
  revert x. induction l as [|z l IH]; intros x Hs.
  { exists [], []. split_and!; [done| |by intros ? ?%not_elem_of_nil]. by intros y ->%list_elem_of_singleton. }
  apply StronglySorted_cons in Hs as [Hx Hs]. rewrite Forall_forall in Hx.
  pose proof (Hx z ltac:(left)) as Hzx. destruct (decide (block_id z = block_id x)) as [Heq|Hzne].
  - destruct (IH z Hs) as (g & rest & Hl & Hg & Hr). exists (z :: g), rest. split_and!.
    + cbn in *. by rewrite Hl.
    + intros y [->|Hy]%elem_of_cons; [done|]. by rewrite <- Heq, Hg.
    + intros y Hy. rewrite <- Heq. auto.
  - exists [], (z :: l). split_and!; [done|by intros y ->%list_elem_of_singleton|].
    apply StronglySorted_cons in Hs as [Hz _]. rewrite Forall_forall in Hz.
    intros y [->|Hy]%elem_of_cons; [lia|]. specialize (Hz y Hy). cbn in Hz. lia.
Qed.

Lemma entry_of_component x g rest z :
  (forall y, y ∈ x :: g -> block_id y = block_id x) -> (forall y, y ∈ rest -> block_id y < block_id x) ->
  entry_of ((x :: g) ++ rest) z <-> (z = x /\ existsb external (x :: g) = false) \/ entry_of rest z.
Proof.
  intros Hg Hr. split.
  - intros (l1 & l2 & Hl & H1 & H2). destruct (decide (block_id z = block_id x)) as [Hzx|Hzx].
    + left. destruct l1 as [|y l1]; cbn in Hl; [|injection Hl as <- Hl; by destruct (H1 x ltac:(left))].
      simplify_eq. split; [done|]. apply not_true_iff_false. intros (y & Hy & Hye)%existsb_exists.
      apply list_elem_of_In in Hy. rewrite H2 in Hye; [done|apply elem_of_app; by left|by apply Hg].
    + right. assert (Hzr : z ∉ x :: g) by (intros Hz; by apply Hzx, Hg).
      apply app_eq_inv in Hl as [(k & Hl1 & Hl2)|(k & Hl1 & Hl2)].
      * destruct k as [|y k]; cbn in Hl2.
        -- exists [], l2. split_and!; [done|by intros ? ?%not_elem_of_nil|].
           intros y Hy. apply H2, elem_of_app. by right.
        -- simplify_eq. destruct Hzr. rewrite Hl1. apply elem_of_app. right. left.
      * exists k, l2. split_and!; [done| |].
        -- intros y Hy. apply H1. rewrite Hl1. apply elem_of_app. by right.
        -- intros y Hy. apply H2, elem_of_app. by right.
  - intros [[-> He]|(l1 & l2 & -> & H1 & H2)].
    + exists [], (g ++ rest). split_and!; [done|by intros ? ?%not_elem_of_nil|].
      intros y Hy Hid. apply elem_of_app in Hy as [Hy|Hy]; [|apply Hr in Hy; lia].
      destruct (external y) eqn:Hye; [|done]. rewrite <- He. symmetry.
      apply existsb_exists. exists y. split; [by apply list_elem_of_In|done].
    + exists ((x :: g) ++ l1), l2.
      assert (block_id z < block_id x) by (apply Hr, elem_of_app; right; left). split_and!.
      * by rewrite <- app_assoc.
      * intros y [Hy|Hy]%elem_of_app; [|auto]. rewrite (Hg y Hy). lia.
      * intros y [Hy|Hy]%elem_of_app Hid; [|auto]. rewrite (Hg y Hy) in Hid. lia.
Qed.

Lemma entry_nodes_spec l : StronglySorted (fun u v => block_id v <= block_id u) l ->
  (forall y, y ∈ l -> y ∈ node_keys) -> forall acc,
  exists res, entry_nodes (E := E) cfg super_root l (head l) false acc = Ok (acc ++ res) /\
    forall x, x ∈ res <-> entry_of l x.
Proof.
  remember (length l) as k eqn:Hk. revert l Hk. induction k as [k IH] using lt_wf_ind.
  intros [|x l] Hk Hs Hin acc.
  { exists []. cbn. rewrite app_nil_r. split; [done|]. intros x. split; [by intros ?%not_elem_of_nil|].
    intros (l1 & l2 & Heq & _). by destruct l1. }
  destruct (component_prefix x l Hs) as (g & rest & Heq & Hg & Hr). rewrite Heq in Hs, Hin |- *.
  apply StronglySorted_app in Hs as (_ & _ & Hs). cbn [head app].
  change (x :: g ++ rest) with ((x :: g) ++ rest).
  rewrite (entry_nodes_group x (x :: g) false acc rest); [|done|done|done|..].
  2: { intros y Hy. apply Hr in Hy. lia. }
  2: { intros ->. assert (Hsr : super_root ∈ node_keys) by (apply Hin; left).
       apply elem_of_node_keys in Hsr as [b Hb]. by rewrite (wl_super_root _ _ Hwl) in Hb. }
  destruct (IH (length rest)) with (l := rest) (acc := acc ++ (if false || existsb external (x :: g) then [] else [x]))
    as (res & -> & Hres); [|done|done|intros y Hy; apply Hin, elem_of_app; by right|].
  { apply (f_equal length) in Heq. rewrite length_app in Heq. cbn in *. lia. }
  eexists. split; [by rewrite <- app_assoc|]. intros z.
  rewrite elem_of_app, Hres, (entry_of_component x g rest z Hg Hr). cbn [orb].
  destruct (existsb external (x :: g)).
  - rewrite elem_of_nil. naive_solver.
  - rewrite list_elem_of_singleton. naive_solver.
Qed.

(** ** The super root *)
(** [super_root] once per mention of [k]. *)
Definition root_sources (l : list Z) (k : Z) : list Z := (fun _ => super_root) <$> filter (fun x => x = k) l.

Lemma elem_of_root_sources l k s : s ∈ root_sources l k <-> s = super_root /\ k ∈ l.
Proof.
  unfold root_sources. rewrite list_elem_of_fmap. split.
  - by intros (x & -> & [-> Hx]%list_elem_of_filter).
  - intros [-> Hk]. exists k. split; [done|]. by apply list_elem_of_filter.
Qed.
End Order.

Section Link.
Context `{Murmur3}.

Lemma link_entries_spec l : forall (cfg : gmap Z CfgNode) fns, (forall x, x ∈ l -> is_Some (cfg !! x)) ->
  exists cfg' fns', link_entries (E := E) super_root l cfg fns = Ok (cfg', fns') /\
    (forall k, cfg' !! k = (fun b => add_sources b (root_sources l k)) <$> cfg !! k).
Proof.
  induction l as [|x l IH]; intros cfg fns Hl.
  { exists cfg, fns. split; [done|]. intros k. destruct (cfg !! k) as [[]|]; [|done]. cbn.
    unfold add_sources, root_sources. cbn. by rewrite app_nil_r. }
  cbn [link_entries]. destruct (Hl x ltac:(left)) as [b Hb]. rewrite Hb. cbn [or_panic mbind result_bind].
  edestruct (IH (<[x := push_source b super_root]> cfg)) as (cfg' & fns' & -> & Hk).
  { intros y Hy. destruct (decide (y = x)) as [->|]; [rewrite lookup_insert_eq; eauto|].
    rewrite lookup_insert_ne by done. apply Hl. by right. }
  exists cfg', fns'. split; [done|]. intros k. rewrite Hk. unfold root_sources.
  destruct (decide (x = k)) as [<-|Hxk].
  - rewrite lookup_insert_eq, filter_cons_True, fmap_cons, Hb by done. cbn. unfold add_sources, push_source.
    cbn. by rewrite <- app_assoc.
  - by rewrite lookup_insert_ne, filter_cons_False by done.
Qed.
End Link.
End Marks.

(** ** The pass *)
Section Tarjan.
Context {E V : Type} `{Profile, Murmur3}.

Record componentised (a a' : Analysis V) (topo : Z -> TopologicalIndex) (entries : list Z) : Prop := {
  co_marked : marked (cfg_nodes a) topo;
  co_order : topological_order a' ≡ₚ node_keys (cfg_nodes a);
  co_sorted : StronglySorted (precedes topo) (topological_order a');
  co_entries : forall x, x ∈ entries <-> entry_of (cfg_nodes a) topo (topological_order a') x;
  co_blocks : forall k, k <> super_root a -> cfg_nodes a' !! k =
    (fun b => add_sources (set_topo_index b (topo k)) (root_sources (super_root a) entries k))
      <$> cfg_nodes a !! k;
  co_root : cfg_nodes a' !! super_root a = Some (super_root_node (instructions a) entries);
  co_rest : executable a' = executable a /\ instructions a' = instructions a /\
    super_root a' = super_root a /\ entrypoint a' = entrypoint a /\
    dfg_reverse_edges a' = dfg_reverse_edges a
}.

Lemma tarjan_returns (a : Analysis V) :
  well_linked (cfg_nodes a) (super_root a) -> cfg_nodes a <> ∅ ->
  exists a' topo entries, control_flow_graph_tarjan (E := E) a = Ok a' /\ componentised a a' topo entries.
Proof.
  intros Hwl Hne. unfold control_flow_graph_tarjan. rewrite bool_decide_false by done.
  fold (indexed (cfg_nodes a)).
  destruct (search_returns (E := E) _ _ Hwl Hne) as (s & cfg & topo & -> & Hw & Hm & Hcfg).
  cbn [mbind result_bind]. rewrite Hw. cbn [mbind result_bind].
  pose proof (order_sorted _ _ _ Hm Hcfg) as Hs.
  destruct (entry_nodes_spec (E := E) _ _ Hwl Hne topo cfg Hcfg (sort_nodes cfg)) with (acc := @nil Z)
    as (entries & -> & Hent).
  { eapply StronglySorted_mono; [|exact Hs]. unfold precedes, topo_lt, block_id. intros. lia. }
  { intros y. by apply (elem_of_order _ topo cfg Hcfg). }
  cbn [mbind result_bind app].
  destruct (link_entries_spec (E := E) (super_root a) entries cfg (functions a)) as (cfg' & fns' & -> & Hlink).
  { intros x (l1 & l2 & Heq & _)%Hent. rewrite Hcfg, fmap_is_Some.
    apply elem_of_node_keys, (elem_of_order _ topo cfg Hcfg). rewrite Heq, elem_of_app. right. left. }
  cbn [mbind result_bind]. exists (set_order a fns' (<[super_root a := super_root_node (instructions a) entries]> cfg')
    (sort_nodes cfg)), topo, entries. split; [done|].
  split; cbn [set_order topological_order cfg_nodes super_root executable instructions entrypoint]; try done.
  - by apply (sort_nodes_perm _ topo).
  - intros k Hk. by rewrite lookup_insert_ne, Hlink, Hcfg, <- option_fmap_compose by done.
  - by rewrite lookup_insert_eq.
Qed.

Section Componentised.
Context {a a' : Analysis V} {topo : Z -> TopologicalIndex} {entries : list Z}.
Hypothesis Hwl : well_linked (cfg_nodes a) (super_root a).
Hypothesis Hco : componentised a a' topo entries.
Abbreviation nodes := (cfg_nodes a).
Abbreviation keys := (node_keys nodes).

Lemma key_not_root k : k ∈ keys -> k <> super_root a.
Proof. intros [b Hb]%elem_of_node_keys ->. by rewrite (wl_super_root _ _ Hwl) in Hb. Qed.

Lemma entry_key x : x ∈ entries -> x ∈ keys.
Proof.
  intros (l1 & l2 & Heq & _)%(co_entries _ _ _ _ Hco). rewrite <- (co_order _ _ _ _ Hco), Heq, elem_of_app.
  right. left.
Qed.

(** The edges of the new graph. *)
Lemma co_edge u v : cfg_edge (cfg_nodes a') u v <->
  cfg_edge nodes u v \/ (u = super_root a /\ v ∈ entries).
Proof.
  unfold cfg_edge. destruct (decide (u = super_root a)) as [->|Hu].
  - rewrite (co_root _ _ _ _ Hco), (wl_super_root _ _ Hwl). naive_solver.
  - rewrite (co_blocks _ _ _ _ Hco u Hu). destruct (nodes !! u) as [b|]; cbn; [|naive_solver].
    split; [|intros [(b' & [= <-] & Hd)|[? _]]; [eauto|done]]. intros (b' & [= <-] & Hd). left. eauto.
Qed.

Lemma co_sources u v node : v <> super_root a -> cfg_nodes a' !! v = Some node ->
  u ∈ sources node <-> cfg_edge (cfg_nodes a') u v.
Proof.
  intros Hv Hn. rewrite (co_blocks _ _ _ _ Hco v Hv) in Hn. apply fmap_Some in Hn as (b & Hb & ->).
  cbn [add_sources set_topo_index sources]. rewrite elem_of_app, (wl_sources _ _ Hwl u v b Hb), co_edge.
  by rewrite elem_of_root_sources.
Qed.

(** [u] is first in a component that no edge enters, or something else is in it. *)
Lemma external_edge x : x ∈ keys -> external nodes topo x = true ->
  exists u, cfg_edge nodes u x /\ u ∈ keys /\ scc_id (topo x) < scc_id (topo u).
Proof.
  intros [b Hb]%elem_of_node_keys Hx. unfold external in Hx. rewrite Hb in Hx.
  apply existsb_exists in Hx as (u & Hu & Hne). apply list_elem_of_In in Hu.
  apply (wl_sources _ _ Hwl u x b Hb) in Hu. exists u. split_and!; [done| |].
  - destruct Hu as (b' & Hb' & _). apply elem_of_node_keys. eauto.
  - pose proof (mk_edge _ _ (co_marked _ _ _ _ Hco) u x Hu). unfold block_id in Hne.
    apply negb_true_iff, Z.eqb_neq in Hne. lia.
Qed.

Lemma order_elem k : k ∈ topological_order a' <-> k ∈ keys.
Proof. by rewrite (co_order _ _ _ _ Hco). Qed.

(** The first block of the component of [k]. *)
Lemma component_first k : k ∈ keys -> exists f l1 l2, topological_order a' = l1 ++ f :: l2 /\
  block_id topo f = block_id topo k /\ forall y, y ∈ l1 -> block_id topo y <> block_id topo k.
Proof.
  rewrite <- order_elem. generalize (topological_order a') as l. induction l as [|x l IH]; intros Hk;
    [by apply not_elem_of_nil in Hk|].
  destruct (decide (block_id topo x = block_id topo k)) as [Heq|Hne].
  - exists x, [], l. split_and!; [done|done|by intros ? ?%not_elem_of_nil].
  - apply elem_of_cons in Hk as [->|Hk]; [done|]. destruct (IH Hk) as (f & l1 & l2 & -> & Hf & Hl).
    exists f, (x :: l1), l2. split_and!; [done|done|]. intros y [->|Hy]%elem_of_cons; auto.
Qed.

(** A component is entered from another one, or its first block is an entry. *)
Lemma component_entered k : k ∈ keys ->
  (exists u x, cfg_edge nodes u x /\ u ∈ keys /\ x ∈ keys /\ block_id topo x = block_id topo k /\
     scc_id (topo x) < scc_id (topo u)) \/
  (exists f, f ∈ entries /\ f ∈ keys /\ block_id topo f = block_id topo k).
Proof.
  intros Hk. destruct (existsb (fun y => (block_id topo y =? block_id topo k) && external nodes topo y)
    (topological_order a')) eqn:He.
  - left. apply existsb_exists in He as (x & Hx & [Hid%Z.eqb_eq Hex]%andb_true_iff).
    apply list_elem_of_In, order_elem in Hx. destruct (external_edge x Hx Hex) as (u & Hu & Huk & Hlt).
    exists u, x. done.
  - right. destruct (component_first k Hk) as (f & l1 & l2 & Heq & Hf & Hl1). exists f.
    assert (Hent : f ∈ entries).
    { apply (co_entries _ _ _ _ Hco). exists l1, l2. split_and!; [done|by rewrite Hf|].
      intros y Hy Hid. rewrite Hf in Hid. destruct (external nodes topo y) eqn:Hey; [|done].
      rewrite <- He. symmetry. apply existsb_exists. exists y. split; [by apply list_elem_of_In|].
      by rewrite Hid, Z.eqb_refl, Hey. }
    split_and!; [done|by apply entry_key|done].
Qed.

Lemma connected u v : u ∈ keys -> v ∈ keys -> block_id topo u = block_id topo v -> cfg_reach nodes u v.
Proof. intros Hu Hv Hid. by apply (mk_scc _ _ (co_marked _ _ _ _ Hco)) in Hid as [? _]. Qed.

Lemma reach_mono u v : cfg_reach nodes u v -> cfg_reach (cfg_nodes a') u v.
Proof. apply rtc_congruence with (f := id). intros. apply co_edge. by left. Qed.

(** The super root leads to every block. *)
Lemma super_root_reaches k : k ∈ keys -> cfg_reach (cfg_nodes a') (super_root a) k.
Proof.
  intros Hk. remember (Z.to_nat (u64_max - scc_id (topo k))) as d eqn:Hd. revert k Hk Hd.
  induction d as [d IH] using lt_wf_ind. intros k Hk Hd.
  destruct (component_entered k Hk) as [(u & x & Hux & Hu & Hx & Hid & Hlt)|(f & Hf & Hfk & Hid)].
  - pose proof (mk_range _ _ (co_marked _ _ _ _ Hco) u Hu). unfold block_id in Hid.
    etransitivity; [apply (IH (Z.to_nat (u64_max - scc_id (topo u)))) with (k := u); [lia|done|done]|].
    eapply rtc_l; [apply co_edge; by left|]. apply reach_mono. by apply connected.
  - eapply rtc_l; [apply co_edge; right; by split|]. apply reach_mono. by apply connected.
Qed.
End Componentised.

(** C32: The components pass returns for every well-linked graph. The ids it writes are
    equal exactly for the blocks of one strongly connected component, every edge
    into another component leads to a later block of the topological order,
    which lists every block once, and the super root it adds leads to every
    block. *)
Theorem components_spec (a : Analysis V) :
  well_linked (cfg_nodes a) (super_root a) -> cfg_nodes a <> ∅ ->
  exists a', control_flow_graph_tarjan (E := E) a = Ok a' /\
    NoDup (topological_order a') /\
    (forall k, k ∈ topological_order a' <-> is_Some (cfg_nodes a !! k)) /\
    (forall u v, is_Some (cfg_nodes a !! u) -> is_Some (cfg_nodes a !! v) ->
       block_scc (cfg_nodes a') u = block_scc (cfg_nodes a') v <->
       cfg_reach (cfg_nodes a) u v /\ cfg_reach (cfg_nodes a) v u) /\
    (forall i j u v, topological_order a' !! i = Some u -> topological_order a' !! j = Some v ->
       cfg_edge (cfg_nodes a) u v -> block_scc (cfg_nodes a') u <> block_scc (cfg_nodes a') v ->
       (i < j)%nat) /\
    (forall k, is_Some (cfg_nodes a !! k) -> cfg_reach (cfg_nodes a') (super_root a') k).
Proof.
  intros Hwl Hne. destruct (tarjan_returns a Hwl Hne) as (a' & topo & entries & Ht & Hco).
  assert (Hid : forall k, is_Some (cfg_nodes a !! k) -> block_scc (cfg_nodes a') k = scc_id (topo k)).
  { intros k Hk. pose proof (key_not_root Hwl k (proj2 (elem_of_node_keys _ k) Hk)) as Hkr.
    unfold block_scc. rewrite (co_blocks _ _ _ _ Hco k Hkr). by destruct Hk as [b ->]. }
  exists a'. split_and!; [done|..].
  - rewrite (co_order _ _ _ _ Hco). apply node_keys_NoDup.
  - intros k. rewrite (order_elem Hco). apply elem_of_node_keys.
  - intros u v Hu Hv. rewrite !Hid by done. apply (mk_scc _ _ (co_marked _ _ _ _ Hco)); by apply elem_of_node_keys.
  - intros i j u v Hi Hj Huv. assert (Hk : forall k l, topological_order a' !! l = Some k -> is_Some (cfg_nodes a !! k)).
    { intros k l Hl. apply elem_of_node_keys, (order_elem Hco). by eapply list_elem_of_lookup_2. }
    rewrite !Hid by eauto. intros Hne'. pose proof (mk_edge _ _ (co_marked _ _ _ _ Hco) u v Huv).
    destruct (Nat.lt_trichotomy i j) as [|[->|Hji]]; [done|simplify_eq|].
    pose proof (StronglySorted_lookup_lt _ _ _ _ _ _ (co_sorted _ _ _ _ Hco) Hj Hi Hji) as Hp.
    unfold precedes, topo_lt in Hp. lia.
  - intros k Hk%elem_of_node_keys. destruct (co_rest _ _ _ _ Hco) as (_ & _ & -> & _).
    by apply (super_root_reaches Hwl Hco).
Qed.
End Tarjan.
