(* ===== verification/Dominance.v ===== *)
(** * Dominators: [control_flow_graph_dominance_hierarchy] of
    [src/casestudy/sbpf/src/static_analysis.rs]

    The passes over the topological order that intersect the dominators of the
    predecessors until nothing changes, and the children they leave.  An
    intersection runs on one unit of fuel per block it may climb and one more,
    the passes on one unit for every rank every parent may rise and one more.

    Then the theory of the passes.  A graph is a root, the other nodes in an
    order in which every node has a predecessor before it, and the predecessors
    of every node.  The passes keep a tree: [dom y] is the parent of [y], always
    earlier in the order.  They only ever lose ancestors, keep every dominator
    among them, and when a pass changes nothing the ancestors are the
    dominators. *)

From Stdlib Require Import String.
From stdpp Require Import relations sorting functions gmap strings.
From S2P Require Import Prelude Ebpf Program Verifier Error Vm Text Disassembler BTree.
From S2P Require Import StaticAnalysis Components.

Definition set_dominator_parent (n : CfgNode) (p : Z) : CfgNode :=
  mkCfgNode (label n) (sources n) (destinations n) (node_instructions n) (topo_index n) p
    (dominated_children n).
Definition push_dominated (n : CfgNode) (b : Z) : CfgNode :=
  mkCfgNode (label n) (sources n) (destinations n) (node_instructions n) (topo_index n)
    (dominator_parent n) (dominated_children n ++ [b]).

Section Dominance.
Context {E V : Type}.

(** [control_flow_graph_dominance_intersect] *)
Fixpoint dominance_intersect (fuel : nat) (cfg : gmap Z CfgNode) (a b : Z) : result E Z :=
  match fuel with
  | O => Panic
  | S fuel =>
      if a =? b then Ok b else
      node_a ← or_panic (cfg !! a);
      node_b ← or_panic (cfg !! b);
      match topo_cmp (topo_index node_a) (topo_index node_b) with
      | Gt => dominance_intersect fuel cfg a (dominator_parent node_b)
      | Lt => dominance_intersect fuel cfg (dominator_parent node_a) b
      | Eq => Panic
      end
  end.

(** The loop over the predecessors of a block. *)
Fixpoint common_dominator (fuel : nat) (cfg : gmap Z CfgNode) (l : list Z) (parent : Z) : result E Z :=
  match l with
  | [] => Ok parent
  | p :: l =>
      node ← or_panic (cfg !! p);
      if dominator_parent node =? u64_max then common_dominator fuel cfg l parent
      else
        parent ← (if parent =? u64_max then Ok p else dominance_intersect fuel cfg p parent);
        common_dominator fuel cfg l parent
  end.

(** One pass over the blocks; the flag is [terminate]. *)
Fixpoint dominance_pass (fuel : nat) (order : list Z) (cfg : gmap Z CfgNode) (terminate : bool)
    : result E (gmap Z CfgNode * bool) :=
  match order with
  | [] => Ok (cfg, terminate)
  | b :: order =>
      node ← or_panic (cfg !! b);
      parent ← common_dominator fuel cfg (sources node) u64_max;
      if negb (dominator_parent node =? parent)
      then dominance_pass fuel order (<[b := set_dominator_parent node parent]> cfg) false
      else dominance_pass fuel order cfg terminate
  end.

Fixpoint dominance_loop (passes fuel : nat) (order : list Z) (cfg : gmap Z CfgNode)
    : result E (gmap Z CfgNode) :=
  match passes with
  | O => Panic
  | S passes =>
      '(cfg, terminate) ← dominance_pass fuel order cfg true;
      if terminate : bool then Ok cfg else dominance_loop passes fuel order cfg
  end.

Fixpoint collect_children (order : list Z) (cfg : gmap Z CfgNode) : result E (gmap Z CfgNode) :=
  match order with
  | [] => Ok cfg
  | b :: order =>
      node ← or_panic (cfg !! b);
      if dominator_parent node =? u64_max then Panic
      else if b =? dominator_parent node then collect_children order cfg
      else
        parent ← or_panic (cfg !! dominator_parent node);
        collect_children order (<[dominator_parent node := push_dominated parent b]> cfg)
  end.

Definition control_flow_graph_dominance_hierarchy (a : Analysis V) : result E (Analysis V) :=
  if bool_decide (cfg_nodes a = ∅) then Ok a else
  root ← or_panic (cfg_nodes a !! super_root a);
  let order := topological_order a in
  let n := length order in
  cfg ← dominance_loop (S (n * S n)) (S (2 * n)) order
          (<[super_root a := set_dominator_parent root (super_root a)]> (cfg_nodes a));
  cfg ← collect_children order cfg;
  Ok (set_cfg a (functions a) cfg).
End Dominance.

Section Dominators.
Context (root : Z) (order : list Z) (preds : Z -> list Z).
Abbreviation nodes := (root :: order).
Hypothesis nodes_NoDup : NoDup nodes.
Hypothesis nodes_small : forall x, x ∈ nodes -> x <> u64_max.
Hypothesis preds_in : forall y p, y ∈ order -> p ∈ preds y -> p ∈ nodes.

(** ** Reference *)
(** A walk from the root to [y] that does not touch [x]. *)
Inductive avoids (x : Z) : Z -> Prop :=
| avoids_root : x <> root -> avoids x root
| avoids_step p y : avoids x p -> y ∈ order -> p ∈ preds y -> y <> x -> avoids x y.

Definition dominates (x y : Z) : Prop := ~ avoids x y.

(** ** Ranks *)
Fixpoint position (x : Z) (l : list Z) : nat :=
  match l with [] => 0 | y :: l => if decide (x = y) then 0 else S (position x l) end.
Definition rank (x : Z) : nat := position x nodes.

Lemma position_lookup x l : x ∈ l -> l !! position x l = Some x.
Proof.
  induction l as [|y l IH]; intros Hx; [by apply not_elem_of_nil in Hx|]. cbn.
  destruct (decide (x = y)) as [->|Hne]; [done|]. apply elem_of_cons in Hx as [|Hx]; [done|]. cbn. auto.
Qed.

Lemma rank_lookup x : x ∈ nodes -> nodes !! rank x = Some x.
Proof. apply position_lookup. Qed.

Lemma rank_of i x : nodes !! i = Some x -> rank x = i.
Proof.
  intros Hi. eapply NoDup_lookup; [exact nodes_NoDup| |exact Hi].
  apply rank_lookup. by eapply list_elem_of_lookup_2.
Qed.

Lemma rank_inj x y : x ∈ nodes -> y ∈ nodes -> rank x = rank y -> x = y.
Proof. intros Hx%rank_lookup Hy%rank_lookup Heq. rewrite Heq in Hx. congruence. Qed.

Lemma rank_root : rank root = 0%nat.
Proof. unfold rank. cbn. by rewrite decide_True. Qed.

Lemma rank_lt x : x ∈ nodes -> (rank x <= length order)%nat.
Proof. intros Hx%rank_lookup%lookup_lt_Some. cbn [length] in Hx. lia. Qed.

Lemma root_notin : root ∉ order.
Proof. by apply NoDup_cons in nodes_NoDup as [? _]. Qed.

Lemma order_rank x : x ∈ order -> (0 < rank x)%nat.
Proof.
  intros Hx. destruct (rank x) eqn:Hr; [|lia]. rewrite <- rank_root in Hr.
  apply rank_inj in Hr; [|by right|left]. subst. by apply root_notin in Hx.
Qed.

(** ** Trees *)
Implicit Type dom : Z -> Z.
Definition placed dom (x : Z) : Prop := dom x <> u64_max.

Definition tree dom : Prop :=
  dom root = root /\
  forall b, b ∈ order -> placed dom b ->
    dom b ∈ nodes /\ placed dom (dom b) /\ (rank (dom b) < rank b)%nat.

Inductive anc dom (x : Z) : Z -> Prop :=
| anc_refl : anc dom x x
| anc_step y : y ∈ order -> anc dom x (dom y) -> anc dom x y.

Lemma placed_root dom : tree dom -> placed dom root.
Proof. intros [Hr _]. unfold placed. rewrite Hr. apply nodes_small. left. Qed.

Section Tree.
Context {dom : Z -> Z}.
Hypothesis Ht : tree dom.

Lemma anc_trans x y z : anc dom x y -> anc dom y z -> anc dom x z.
Proof. intros Hxy Hyz. induction Hyz; [done|]. by constructor. Qed.

(** Ancestors are placed nodes, no later than the node. *)
Lemma anc_rank x y : y ∈ nodes -> placed dom y -> anc dom x y ->
  x ∈ nodes /\ placed dom x /\ (rank x <= rank y)%nat.
Proof.
  intros Hy Hp Hxy. induction Hxy as [|y Hyo _ IH]; [done|].
  destruct Ht as [_ Ht']. destruct (Ht' y Hyo Hp) as (Hd & Hdp & Hlt).
  destruct (IH Hd Hdp) as (? & ? & ?). split_and!; [done|done|lia].
Qed.

Lemma anc_rank_le x y : y ∈ nodes -> placed dom y -> anc dom x y -> (rank x <= rank y)%nat.
Proof. intros Hy Hp Hxy. by destruct (anc_rank x y Hy Hp Hxy) as (_ & _ & ?). Qed.

Lemma anc_root y : y ∈ nodes -> placed dom y -> anc dom root y.
Proof.
  remember (rank y) as k eqn:Hk. revert y Hk. induction k as [k IH] using lt_wf_ind. intros y Hk Hy Hp.
  apply elem_of_cons in Hy as [->|Hy]; [constructor|]. destruct Ht as [_ Ht'].
  destruct (Ht' y Hy Hp) as (Hd & Hdp & Hlt). constructor; [done|]. eapply IH; [|done|done|done]. lia.
Qed.

(** The ancestors of a node are a chain. *)
Lemma anc_chain x y z : z ∈ nodes -> placed dom z -> anc dom x z -> anc dom y z ->
  (rank x <= rank y)%nat -> anc dom x y.
Proof.
  intros Hz Hp Hx. revert y. induction Hx as [|z Hzo Hx IH]; intros y Hy Hle.
  - destruct (anc_rank y x Hz Hp Hy) as (Hyn & _ & Hr).
    assert (x = y) as -> by (apply rank_inj; [done|done|lia]). constructor.
  - destruct Ht as [_ Ht']. destruct (Ht' z Hzo Hp) as (Hd & Hdp & Hlt).
    inversion Hy as [|? _ Hy']; subst; [by constructor|]. by apply IH.
Qed.

Lemma anc_parent x y : y ∈ order -> anc dom x y -> x <> y -> anc dom x (dom y).
Proof. intros Hy Hx Hne. by inversion Hx. Qed.
End Tree.

(** Changing parents off the path from [y] up to [z]. *)
Lemma anc_change dom dom' z y :
  anc dom z y -> (forall w, w ∈ order -> anc dom z (dom w) -> anc dom w y -> dom' w = dom w) ->
  anc dom' z y.
Proof.
  intros Hzy. induction Hzy as [|y Hy Hzy IH]; intros Hw; [constructor|].
  constructor; [done|]. rewrite (Hw y Hy Hzy (anc_refl _ _)). apply IH.
  intros w Hwo Hzw Hwy. apply Hw; [done|done|]. by constructor.
Qed.

Lemma anc_dec dom x y : tree dom -> y ∈ nodes -> placed dom y -> anc dom x y \/ ~ anc dom x y.
Proof.
  intros Ht. remember (rank y) as k eqn:Hk. revert y Hk. induction k as [k IH] using lt_wf_ind. intros y Hk Hy Hp.
  destruct (decide (x = y)) as [->|Hne]; [left; constructor|].
  apply elem_of_cons in Hy as [->|Hy].
  - right. intros Hx. inversion Hx as [|? Hr]; subst; [done|]. by apply root_notin in Hr.
  - destruct Ht as [Hr Ht']. destruct (Ht' y Hy Hp) as (Hd & Hdp & Hlt).
    destruct (IH (rank (dom y)) ltac:(lia) (dom y) eq_refl Hd Hdp) as [Ha|Ha].
    + left. by constructor.
    + right. intros Hx. apply Ha. by apply anc_parent.
Qed.

(** ** Dominators *)
Lemma dominates_pred x y p : dominates x y -> y ∈ order -> p ∈ preds y -> x <> y -> dominates x p.
Proof. intros Hd Hy Hp Hne Ha. apply Hd. by econstructor. Qed.

(** The nearest common ancestor of the placed nodes of [l]. *)
Record nearest dom (l : list Z) (d : Z) : Prop := {
  ne_in : d ∈ nodes;
  ne_placed : placed dom d;
  ne_anc : forall p, p ∈ l -> placed dom p -> anc dom d p;
  ne_best : forall c, (forall p, p ∈ l -> placed dom p -> anc dom c p) -> anc dom c d
}.

(** ** The invariant of a pass
    The nodes of a rank below [i] have been looked at in this pass. *)
Hypothesis preds_before : forall y, y ∈ order -> exists q, q ∈ preds y /\ (rank q < rank y)%nat.

Record dom_inv (i : nat) dom : Prop := {
  di_tree : tree dom;
  di_first : forall x, x ∈ nodes -> (rank x < i)%nat -> placed dom x;
  di_down : forall x y, x ∈ nodes -> y ∈ nodes -> placed dom y -> (rank x <= rank y)%nat -> placed dom x;
  di_over : forall x y, y ∈ nodes -> placed dom y -> dominates x y -> anc dom x y;
  di_fwd : forall y q z, y ∈ order -> placed dom y -> q ∈ preds y -> (rank q < rank y)%nat ->
    (rank y < i \/ i <= rank z)%nat -> anc dom z (dom y) -> anc dom z q;
  di_max : forall y c, y ∈ order -> placed dom y ->
    (forall p, p ∈ preds y -> placed dom p -> anc dom c p) -> anc dom c (dom y)
}.

Lemma anc_ext dom dom' x y : (forall z, dom' z = dom z) -> anc dom x y <-> anc dom' x y.
Proof.
  intros He. split; intros Ha.
  - apply (anc_change dom); [done|]. intros. apply He.
  - apply (anc_change dom'); [done|]. intros. by rewrite He.
Qed.

Lemma dom_inv_ext i dom dom' : (forall z, dom' z = dom z) -> dom_inv i dom' -> dom_inv i dom.
Proof.
  intros He [Ht Hf Hdn Ho Hfw Hm].
  assert (Hp : forall x, placed dom x <-> placed dom' x) by (intros x; unfold placed; by rewrite He).
  assert (Ha : forall x y, anc dom x y <-> anc dom' x y) by (intros; by apply anc_ext).
  split.
  - destruct Ht as [Hr Ht]. split; [by rewrite <- He|]. intros b Hb Hpb. rewrite <- He, Hp. by apply Ht, Hp.
  - intros x Hx Hlt. by apply Hp, Hf.
  - intros x y Hx Hy Hy' Hle. by apply Hp, (Hdn x y), Hle; [| |apply Hp].
  - intros x y Hy Hy' Hd. by apply Ha, Ho; [|apply Hp|].
  - intros y q z Hy Hy' Hq Hlt Hor. rewrite <- He, !Ha. by apply (Hfw y); [|apply Hp|..].
  - intros y c Hy Hy' Hc. rewrite <- He, Ha. apply Hm; [done|by apply Hp|].
    intros p Hp1 Hp2. apply Ha, Hc; [done|by apply Hp].
Qed.

Section Update.
Context {dom : Z -> Z} {i : nat} (b d : Z).
Hypothesis Hinv : dom_inv i dom.
Hypothesis Hb : b ∈ order.
Hypothesis Hi : rank b = i.
Hypothesis Hd : nearest dom (preds b) d.
Abbreviation dom' := (<[b := d]> dom).

Let Ht : tree dom := di_tree _ _ Hinv.

#[local] Lemma upd_same : dom' b = d.
Proof. apply fn_lookup_insert. Qed.
#[local] Lemma upd_other x : x <> b -> dom' x = dom x.
Proof. intros. by apply fn_lookup_insert_ne. Qed.

#[local] Lemma upd_placed x : placed dom' x <-> x = b \/ placed dom x.
Proof.
  unfold placed. destruct (decide (x = b)) as [->|Hne].
  - rewrite upd_same. split; [auto|]. intros _. apply nodes_small, (ne_in _ _ _ Hd).
  - rewrite upd_other by done. naive_solver.
Qed.

#[local] Lemma pred_placed q : q ∈ preds b -> (rank q < rank b)%nat -> placed dom q.
Proof. intros Hq Hlt. apply (di_first _ _ Hinv); [by eapply preds_in|lia]. Qed.

Lemma nearest_rank : (rank d < rank b)%nat.
Proof.
  destruct (preds_before b Hb) as (q & Hq & Hlt). pose proof (pred_placed q Hq Hlt) as Hqp.
  pose proof (anc_rank_le Ht d q (preds_in b q Hb Hq) Hqp (ne_anc _ _ _ Hd q Hq Hqp)). lia.
Qed.

(** A parent that is replaced moves up. *)
Lemma nearest_above : placed dom b -> anc dom d (dom b).
Proof. intros Hp. apply (di_max _ _ Hinv); [done|done|]. apply (ne_anc _ _ _ Hd). Qed.

#[local] Lemma upd_tree : tree dom'.
Proof.
  split.
  - rewrite upd_other; [apply Ht|]. intros <-. by apply root_notin in Hb.
  - intros x Hx Hp. destruct (decide (x = b)) as [->|Hne].
    + rewrite upd_same. split_and!; [apply (ne_in _ _ _ Hd)| |apply nearest_rank].
      apply upd_placed. right. apply (ne_placed _ _ _ Hd).
    + rewrite upd_other by done. apply upd_placed in Hp as [|Hp]; [done|].
      destruct (proj2 Ht x Hx Hp) as (? & ? & ?). split_and!; [done|apply upd_placed; auto|done].
Qed.

(** Ancestors at or after [b], and those of nodes before [b], are unchanged. *)
#[local] Lemma upd_low z y : y ∈ nodes -> placed dom y -> (rank b <= rank z)%nat ->
  anc dom z y -> anc dom' z y.
Proof.
  intros Hy Hp Hle Hzy. apply (anc_change dom); [done|]. intros w Hw Hzw Hwy. apply upd_other.
  intros ->. destruct (anc_rank Ht b y Hy Hp Hwy) as (_ & Hbp & _).
  destruct (proj2 Ht b Hb Hbp) as (Hdn & Hdp & Hlt). pose proof (anc_rank_le Ht z _ Hdn Hdp Hzw). lia.
Qed.

#[local] Lemma upd_low_inv z y : y ∈ nodes -> placed dom' y -> (rank b <= rank z)%nat ->
  anc dom' z y -> anc dom z y.
Proof.
  intros Hy Hp Hle Hzy. apply (anc_change dom'); [done|]. intros w Hw Hzw Hwy. symmetry. apply upd_other.
  intros ->. destruct (anc_rank upd_tree b y Hy Hp Hwy) as (_ & Hbp & _).
  destruct (proj2 upd_tree b Hb Hbp) as (Hdn & Hdp & Hlt). pose proof (anc_rank_le upd_tree z _ Hdn Hdp Hzw). lia.
Qed.

#[local] Lemma upd_high z y : y ∈ nodes -> placed dom y -> (rank y < rank b)%nat ->
  anc dom z y <-> anc dom' z y.
Proof.
  intros Hy Hp Hlt. split; intros Hzy.
  - apply (anc_change dom); [done|]. intros w Hw _ Hwy. apply upd_other. intros ->.
    pose proof (anc_rank_le Ht b y Hy Hp Hwy). lia.
  - apply (anc_change dom'); [done|]. intros w Hw _ Hwy. symmetry. apply upd_other. intros ->.
    pose proof (anc_rank_le upd_tree b y Hy ltac:(apply upd_placed; auto) Hwy). lia.
Qed.

#[local] Lemma nearest_high z : anc dom z d <-> anc dom' z d.
Proof. apply upd_high; [apply (ne_in _ _ _ Hd)|apply (ne_placed _ _ _ Hd)|apply nearest_rank]. Qed.

(** Ancestors are only lost. *)
#[local] Lemma upd_shrinks x y : y ∈ nodes -> placed dom y -> anc dom' x y -> anc dom x y.
Proof.
  intros Hy Hp Hxy. induction Hxy as [|y Hyo Hxy IH]; [constructor|].
  destruct (decide (y = b)) as [->|Hne].
  - rewrite upd_same in Hxy. apply nearest_high in Hxy. constructor; [done|].
    eapply anc_trans; [exact Hxy|by apply nearest_above].
  - rewrite upd_other in Hxy, IH by done. destruct (proj2 Ht y Hyo Hp) as (Hdn & Hdp & _).
    constructor; [done|]. by apply IH.
Qed.

(** A node below [b] keeps the ancestors it shares with a predecessor. *)
#[local] Lemma upd_through x y q : y ∈ nodes -> placed dom y -> q ∈ nodes -> placed dom q ->
  (rank x < rank b)%nat -> anc dom x y -> (anc dom b y -> anc dom b q /\ anc dom' x q) -> anc dom' x y.
Proof.
  intros Hy Hyp Hq Hqp Hlt Hxy Hb'. destruct (anc_dec dom b y Ht Hy Hyp) as [Hby|Hby].
  - destruct (Hb' Hby) as [Hbq Hxq]. apply (anc_trans _ b); [|by apply upd_low].
    apply (anc_chain upd_tree _ _ q); [done|apply upd_placed; auto|done|by apply upd_low|lia].
  - apply (anc_change dom); [done|]. intros w Hw _ Hwy. apply upd_other. by intros ->.
Qed.

#[local] Lemma forward_pred y : y ∈ order -> placed dom y -> exists q, q ∈ preds y /\ q ∈ nodes /\
  placed dom q /\ (rank q < rank y)%nat /\ (anc dom b (dom y) -> anc dom b q).
Proof.
  intros Hy Hyp. destruct (preds_before y Hy) as (q & Hq & Hlt). pose proof (preds_in y q Hy Hq) as Hqn.
  exists q. split_and!; [done|done| |done|].
  - apply (di_down _ _ Hinv q y); [done|by right|done|lia].
  - apply (di_fwd _ _ Hinv); [done|done|done|done|]. right. lia.
Qed.

#[local] Lemma upd_over x y : y ∈ nodes -> placed dom' y -> dominates x y -> anc dom' x y.
Proof.
  remember (rank y) as k eqn:Hk. revert y Hk. induction k as [k IH] using lt_wf_ind. intros y Hk Hy Hp Hdom.
  destruct (decide (y = b)) as [->|Hne].
  - destruct (decide (x = b)) as [->|Hxb]; [constructor|]. constructor; [done|]. rewrite upd_same.
    apply nearest_high, (ne_best _ _ _ Hd). intros p Hpp Hpl. apply (di_over _ _ Hinv); [by eapply preds_in|done|].
    by eapply dominates_pred.
  - apply upd_placed in Hp as [|Hp]; [done|]. pose proof (di_over _ _ Hinv x y Hy Hp Hdom) as Hxy.
    destruct (decide (rank y < rank b)%nat); [by apply upd_high|].
    destruct (decide (rank b <= rank x)%nat); [by apply upd_low|].
    apply elem_of_cons in Hy as Hyo. destruct Hyo as [->|Hyo]; [rewrite rank_root in *; lia|].
    destruct (forward_pred y Hyo Hp) as (q & Hq & Hqn & Hqp & Hqy & Hbq).
    apply (upd_through x y q); [done|done|done|done|lia|done|]. intros Hby. split.
    + apply Hbq. by apply anc_parent.
    + eapply (IH (rank q)); [lia|done|done|apply upd_placed; auto|]. eapply dominates_pred; [done|done|done|].
      intros ->. lia.
Qed.

#[local] Lemma upd_fwd y q z : y ∈ order -> placed dom' y -> q ∈ preds y -> (rank q < rank y)%nat ->
  (rank y < S i \/ S i <= rank z)%nat -> anc dom' z (dom' y) -> anc dom' z q.
Proof.
  intros Hy Hp Hq Hlt Hor Hz. pose proof (preds_in y q Hy Hq) as Hqn.
  destruct (decide (y = b)) as [->|Hne].
  - rewrite upd_same in Hz. pose proof (pred_placed q Hq Hlt) as Hqp. apply (upd_high z q); [done|done|done|].
    apply nearest_high in Hz. eapply anc_trans; [exact Hz|]. by apply (ne_anc _ _ _ Hd).
  - rewrite upd_other in Hz by done. apply upd_placed in Hp as [|Hp]; [done|].
    destruct (proj2 Ht y Hy Hp) as (Hdn & Hdp & Hdl).
    assert (Hqp : placed dom q) by (apply (di_down _ _ Hinv q y); [done|by right|done|lia]).
    assert (rank y <> rank b) by (intros Heq; apply Hne, rank_inj; [by right|by right|done]).
    destruct Hor as [Hyi|Hzi].
    + apply (upd_high z q); [done|done|lia|]. apply (di_fwd _ _ Hinv y); [done|done|done|done|left; lia|].
      apply (upd_high z (dom y)); [done|done|lia|done].
    + apply upd_low; [done|done|lia|]. apply (di_fwd _ _ Hinv y); [done|done|done|done|right; lia|].
      apply upd_low_inv; [done|apply upd_placed; auto|lia|done].
Qed.

#[local] Lemma upd_max y c : y ∈ order -> placed dom' y ->
  (forall p, p ∈ preds y -> placed dom' p -> anc dom' c p) -> anc dom' c (dom' y).
Proof.
  intros Hy Hp Hc. assert (Hc' : forall p, p ∈ preds y -> placed dom p -> anc dom c p).
  { intros p Hpp Hpl. apply upd_shrinks; [by eapply preds_in|done|]. apply Hc; [done|apply upd_placed; auto]. }
  destruct (decide (y = b)) as [->|Hne].
  - rewrite upd_same. by apply nearest_high, (ne_best _ _ _ Hd).
  - rewrite upd_other by done. apply upd_placed in Hp as [|Hp]; [done|].
    pose proof (di_max _ _ Hinv y c Hy Hp Hc') as Hcy. destruct (proj2 Ht y Hy Hp) as (Hdn & Hdp & Hdl).
    destruct (decide (rank (dom y) < rank b)%nat); [by apply upd_high|].
    destruct (decide (rank b <= rank c)%nat); [by apply upd_low|].
    destruct (forward_pred y Hy Hp) as (q & Hq & Hqn & Hqp & Hqy & Hbq).
    apply (upd_through c (dom y) q); [done|done|done|done|lia|done|]. intros Hby. split; [auto|].
    apply Hc; [done|apply upd_placed; auto].
Qed.

Lemma update : dom_inv (S i) dom'.
Proof.
  split; [apply upd_tree|..|apply upd_over|apply upd_fwd|apply upd_max].
  - intros x Hx Hlt. apply upd_placed. destruct (decide (rank x < i)%nat); [right; by apply (di_first _ _ Hinv)|].
    left. apply rank_inj; [done|by right|lia].
  - intros x y Hx Hy Hp Hle. apply upd_placed. apply upd_placed in Hp as [->|Hp].
    + destruct (decide (x = b)) as [|Hne]; [by left|right]. apply (di_first _ _ Hinv); [done|].
      assert (rank x <> rank b) by (intros Heq; apply Hne, rank_inj; [done|by right|done]). lia.
    + right. by apply (di_down _ _ Hinv x y).
Qed.
End Update.

(** ** From pass to pass *)
Lemma first_pass dom : dom root = root -> (forall x, x ∈ order -> dom x = u64_max) -> dom_inv 1 dom.
Proof.
  intros Hr Ho. assert (Hroot : forall x, x ∈ nodes -> placed dom x -> x = root).
  { intros x [->|Hx]%elem_of_cons Hp; [done|]. by apply Ho in Hx. }
  assert (Hnone : forall x, x ∈ order -> ~ placed dom x) by (intros x Hx Hp; by apply Hp, Ho).
  assert (Hrp : placed dom root) by (unfold placed; rewrite Hr; apply nodes_small; left).
  split.
  - split; [done|]. intros b Hb Hp. by apply Hnone in Hp.
  - intros x [->|Hx]%elem_of_cons Hlt; [done|]. apply order_rank in Hx. lia.
  - intros x y Hx Hy Hp Hle. rewrite (Hroot y Hy Hp), rank_root in Hle.
    apply elem_of_cons in Hx as [->|Hx]; [done|]. apply order_rank in Hx. lia.
  - intros x y Hy Hp Hd. rewrite (Hroot y Hy Hp) in *. destruct (decide (x = root)) as [->|Hne]; [constructor|].
    destruct Hd. by constructor.
  - intros y q z Hy Hp. by apply Hnone in Hp.
  - intros y c Hy Hp. by apply Hnone in Hp.
Qed.

Lemma next_pass dom : dom_inv (S (length order)) dom -> dom_inv 1 dom.
Proof.
  intros Hinv. destruct Hinv as [Ht Hf Hdn Ho Hfw Hm]. split; [done| |done|done| |done].
  - intros x Hx _. apply Hf; [done|]. pose proof (rank_lt x Hx). lia.
  - intros y q z Hy Hp Hq Hlt _. apply Hfw; [done|done|done|done|left].
    pose proof (rank_lt y ltac:(by right)). lia.
Qed.

(** ** The end: ancestors are dominators *)
Lemma ancestors_dominate dom x y :
  (forall b, b ∈ order -> nearest dom (preds b) (dom b)) -> (forall b, b ∈ nodes -> placed dom b) ->
  anc dom x y -> dominates x y.
Proof.
  intros Hn Hp Hxy Ha. revert Hxy. induction Ha as [Hne|p y Ha IH Hy Hpy Hne]; intros Hxy.
  - inversion Hxy as [|? Hr]; subst; [done|]. by apply root_notin in Hr.
  - apply IH. apply (anc_trans _ (dom y)); [apply anc_parent; [done|done|congruence]|].
    apply (ne_anc _ _ _ (Hn y Hy)); [done|]. apply Hp. by eapply preds_in.
Qed.

Lemma dominators_found dom :
  dom_inv (S (length order)) dom -> (forall b, b ∈ order -> nearest dom (preds b) (dom b)) ->
  forall x y, y ∈ nodes -> anc dom x y <-> dominates x y.
Proof.
  intros Hinv Hn x y Hy. assert (Hp : forall b, b ∈ nodes -> placed dom b).
  { intros b Hb. apply (di_first _ _ Hinv); [done|]. pose proof (rank_lt b Hb). lia. }
  split; [by apply ancestors_dominate|]. intros Hd. by apply (di_over _ _ Hinv); [|apply Hp|].
Qed.

(** ** How far the parents can rise *)
Definition height (d : Z) : nat := if decide (d = u64_max) then S (length order) else rank d.
Definition slack dom : nat := sum_list_with (fun x => height (dom x)) order.

Lemma height_bound d : d = u64_max \/ d ∈ nodes -> (height d <= S (length order))%nat.
Proof.
  unfold height. intros Hd. case_decide as Hm; [lia|]. destruct Hd as [|Hd]; [done|].
  pose proof (rank_lt d Hd). lia.
Qed.

Lemma sum_change (f g : Z -> nat) l b : NoDup l -> b ∈ l -> (forall x, x <> b -> g x = f x) ->
  (g b < f b)%nat -> (sum_list_with g l < sum_list_with f l)%nat.
Proof.
  intros Hnd Hb Ho Hlt. induction l as [|x l IH]; [by apply not_elem_of_nil in Hb|].
  apply NoDup_cons in Hnd as [Hx Hnd]. cbn. apply elem_of_cons in Hb as [->|Hb].
  - assert (sum_list_with g l = sum_list_with f l) as ->; [|lia].
    clear -Hx Ho. induction l as [|y l IH]; [done|]. apply not_elem_of_cons in Hx as [Hne Hx]. cbn.
    rewrite IH by done. rewrite Ho by done. done.
  - rewrite (Ho x) by (by intros ->). specialize (IH Hnd Hb). lia.
Qed.

Lemma slack_decreases dom i b d : dom_inv i dom -> b ∈ order -> rank b = i -> nearest dom (preds b) d ->
  dom b <> d -> (slack (<[b := d]> dom) < slack dom)%nat.
Proof.
  intros Hinv Hb Hi Hd Hne. pose proof (ne_in _ _ _ Hd) as Hdn. unfold slack.
  apply sum_change with b; [by apply NoDup_cons in nodes_NoDup as [_ ?]|done| |].
  - intros x Hx. by rewrite fn_lookup_insert_ne.
  - rewrite fn_lookup_insert. unfold height. rewrite (decide_False (P := d = u64_max)) by (by apply nodes_small).
    pose proof (rank_lt d Hdn). case_decide as Hm; [lia|].
    pose proof (nearest_above b d Hinv Hb Hd Hm) as Ha.
    destruct (proj2 (di_tree _ _ Hinv) b Hb Hm) as (Hbn & Hbp & _).
    pose proof (anc_rank_le (di_tree _ _ Hinv) d _ Hbn Hbp Ha).
    assert (rank d <> rank (dom b)); [|lia]. intros Heq. apply Hne. symmetry. by apply rank_inj.
Qed.

Lemma slack_bound dom : (forall x, x ∈ order -> dom x = u64_max \/ dom x ∈ nodes) ->
  (slack dom <= length order * S (length order))%nat.
Proof.
  intros Hd. unfold slack. assert (Hl : forall l, (forall x, x ∈ l -> x ∈ order) ->
    (sum_list_with (fun x => height (dom x)) l <= length l * S (length order))%nat).
  { induction l as [|x l IH]; intros Hl; [cbn; lia|]. cbn [sum_list_with length].
    pose proof (height_bound (dom x) (Hd x (Hl x ltac:(left)))).
    specialize (IH ltac:(intros y Hy; apply Hl; by right)). lia. }
  by apply Hl.
Qed.
End Dominators.
