(* ===== verification/DominanceFacts.v ===== *)
(** * The dominators found by the static analysis

    The passes of [Dominance] follow the theory beside them: an
    intersection is the nearest common ancestor, a pass keeps the invariant, the
    loop ends within its fuel, and the parents it leaves are the immediate
    dominators. *)

From Stdlib Require Import String.
From stdpp Require Import gmap strings relations sorting functions.
From S2P Require Import Prelude Ebpf Program Verifier Error Text Vm BTree Disassembler StaticAnalysis.
From S2P Require Import StaticFacts Components ComponentsInv ComponentsFacts ComponentsSpec Dominance.

Section Passes.
Context {E : Type} (cfg0 : gmap Z CfgNode) (root : Z) (order : list Z).
Abbreviation nodes := (root :: order).
Abbreviation rank := (rank root order).

Definition preds (k : Z) : list Z := match cfg0 !! k with Some b => sources b | None => [] end.
Definition topo_at (k : Z) : TopologicalIndex :=
  match cfg0 !! k with Some b => topo_index b | None => TopologicalIndex_default end.

(** A rooted graph whose blocks are listed so that each has a predecessor
    before it, in the order of the comparison. *)
Record ordered_graph : Prop := {
  og_NoDup : NoDup nodes;
  og_small : forall x, x ∈ nodes -> x <> u64_max;
  og_block : forall x, x ∈ nodes -> is_Some (cfg0 !! x);
  og_preds : forall y p, y ∈ order -> p ∈ preds y -> p ∈ nodes;
  og_before : forall y, y ∈ order -> exists q, q ∈ preds y /\ (rank q < rank y)%nat;
  og_cmp : forall x y, x ∈ nodes -> y ∈ nodes -> (rank x < rank y)%nat -> topo_lt (topo_at y) (topo_at x)
}.
Hypothesis Hog : ordered_graph.

Abbreviation anc := (anc order).
Abbreviation tree := (tree root order).
Abbreviation nearest := (nearest root order).
Abbreviation dom_inv := (dom_inv root order preds).

(** The blocks with the parents of [dom]. *)
Definition has_parents (cfg : gmap Z CfgNode) (dom : Z -> Z) : Prop :=
  forall k, cfg !! k = (fun b => set_dominator_parent b (dom k)) <$> cfg0 !! k.

Lemma block_lookup cfg dom x : has_parents cfg dom -> x ∈ nodes -> exists b, cfg !! x = Some b /\
  dominator_parent b = dom x /\ topo_index b = topo_at x /\ sources b = preds x.
Proof.
  intros Hr Hx. destruct (og_block Hog x Hx) as [b Hb]. rewrite (Hr x), Hb. cbn. eexists.
  split; [done|]. unfold topo_at, preds. by rewrite Hb.
Qed.

(** ** Intersection *)
Lemma dominance_intersect_spec cfg dom fuel : has_parents cfg dom -> tree dom -> forall a b,
  a ∈ nodes -> b ∈ nodes -> placed dom a -> placed dom b -> (rank a + rank b < fuel)%nat ->
  exists c, dominance_intersect (E := E) fuel cfg a b = Ok c /\ c ∈ nodes /\ placed dom c /\
    anc dom c a /\ anc dom c b /\ forall x, anc dom x a -> anc dom x b -> anc dom x c.
Proof.
  intros Hr Ht. induction fuel as [|fuel IH]; intros a b Ha Hb Hpa Hpb Hlt; [lia|]. cbn [dominance_intersect].
  destruct (Z.eqb_spec a b) as [<-|Hne].
  { exists a. split_and!; [done|done|done|constructor|constructor|auto]. }
  destruct (block_lookup _ _ a Hr Ha) as (na & -> & Hda & Hta & _).
  destruct (block_lookup _ _ b Hr Hb) as (nb & -> & Hdb & Htb & _). cbn [or_panic mbind result_bind].
  rewrite Hta, Htb, Hda, Hdb.
  assert (Hstep : forall x y, x ∈ nodes -> y ∈ nodes -> (rank x < rank y)%nat ->
    y ∈ order /\ (placed dom y -> dom y ∈ nodes /\ placed dom (dom y) /\ (rank (dom y) < rank y)%nat)).
  { intros x y Hx Hy Hxy. apply elem_of_cons in Hy as [->|Hy]; [rewrite rank_root in Hxy; lia|].
    split; [done|]. by apply Ht. }
  assert (Hnot : forall x y, x ∈ nodes -> placed dom x -> (rank x < rank y)%nat -> ~ anc dom y x).
  { intros x y Hx Hp Hxy Hyx. pose proof (anc_rank_le _ _ Ht y x Hx Hp Hyx). lia. }
  destruct (Nat.lt_trichotomy (rank a) (rank b)) as [Hab|[Heq|Hba]].
  - pose proof (og_cmp Hog a b Ha Hb Hab) as Hc.
    destruct (topo_cmp_spec (topo_at a) (topo_at b)) as [He| |];
      [rewrite He in Hc; unfold topo_lt in Hc; lia|unfold topo_lt in *; lia|].
    destruct (Hstep a b Ha Hb Hab) as [Hbo Hbd]. destruct (Hbd Hpb) as (Hbn & Hbp & Hbr).
    destruct (IH a (dom b) Ha Hbn Hpa Hbp ltac:(lia)) as (c & -> & Hcn & Hcp & Hca & Hcb & Hcx).
    exists c. split_and!; [done|done|done|done|by constructor|]. intros x Hxa Hxb. apply Hcx; [done|].
    apply anc_parent; [done|done|]. intros ->. by apply (Hnot a b) in Hxa.
  - apply (rank_inj root order) in Heq; done.
  - pose proof (og_cmp Hog b a Hb Ha Hba) as Hc.
    destruct (topo_cmp_spec (topo_at a) (topo_at b)) as [He| |];
      [rewrite He in Hc; unfold topo_lt in Hc; lia| |unfold topo_lt in *; lia].
    destruct (Hstep b a Hb Ha Hba) as [Hao Had]. destruct (Had Hpa) as (Han & Hap & Har).
    destruct (IH (dom a) b Han Hb Hap Hpb ltac:(lia)) as (c & -> & Hcn & Hcp & Hca & Hcb & Hcx).
    exists c. split_and!; [done|done|done|by constructor|done|]. intros x Hxa Hxb. apply Hcx; [|done].
    apply anc_parent; [done|done|]. intros ->. by apply (Hnot b a) in Hxb.
Qed.

(** ** The predecessors of a block *)
Definition so_far (dom : Z -> Z) (l : list Z) (parent : Z) : Prop :=
  (parent = u64_max /\ forall p, p ∈ l -> ~ placed dom p) \/ nearest dom l parent.

Lemma so_far_skip dom l p parent : ~ placed dom p -> so_far dom l parent -> so_far dom (l ++ [p]) parent.
Proof.
  intros Hp [[-> Hl]|[Hin Hpl Ha Hb]]; [left|right].
  - split; [done|]. intros q [Hq|Hq]%elem_of_app; [auto|]. by apply list_elem_of_singleton in Hq as ->.
  - split; [done|done|..].
    + intros q [Hq|Hq]%elem_of_app; [auto|]. by apply list_elem_of_singleton in Hq as ->.
    + intros c Hc. apply Hb. intros q Hq. apply Hc. apply elem_of_app. by left.
Qed.

Lemma nearest_first dom l p : (forall q, q ∈ l -> ~ placed dom q) -> p ∈ nodes -> placed dom p ->
  nearest dom (l ++ [p]) p.
Proof.
  intros Hl Hp Hpl. split; [done|done|..].
  - intros q [Hq|Hq]%elem_of_app Hqp; [by apply Hl in Hq|]. apply list_elem_of_singleton in Hq as ->. constructor.
  - intros c Hc. apply Hc; [|done]. apply elem_of_app. right. left.
Qed.

Lemma nearest_next dom l p d c : nearest dom l d -> c ∈ nodes -> placed dom c -> anc dom c p ->
  anc dom c d -> (forall x, anc dom x p -> anc dom x d -> anc dom x c) -> placed dom p ->
  nearest dom (l ++ [p]) c.
Proof.
  intros [Hin Hpl Ha Hb] Hc Hcp Hap Had Hbest Hpp. split; [done|done|..].
  - intros q [Hq|Hq]%elem_of_app Hqp; [|by apply list_elem_of_singleton in Hq as ->].
    eapply anc_trans; [exact Had|auto].
  - intros x Hx. apply Hbest; [apply Hx; [apply elem_of_app; right; left|done]|].
    apply Hb. intros q Hq. apply Hx. apply elem_of_app. by left.
Qed.

Lemma common_dominator_spec cfg dom fuel : has_parents cfg dom -> tree dom ->
  (2 * length order < fuel)%nat -> forall l done parent,
  (forall p, p ∈ l -> p ∈ nodes) -> so_far dom done parent ->
  exists parent', common_dominator (E := E) fuel cfg l parent = Ok parent' /\ so_far dom (done ++ l) parent'.
Proof.
  intros Hr Ht Hfuel. induction l as [|p l IH]; intros done parent Hl Hs.
  { exists parent. by rewrite app_nil_r. }
  cbn [common_dominator]. pose proof (Hl p ltac:(left)) as Hp. pose proof (rank_lt _ _ p Hp) as Hpr.
  destruct (block_lookup _ _ p Hr Hp) as (np & -> & Hdp & _ & _). cbn [or_panic mbind result_bind]. rewrite Hdp.
  assert (Hl' : forall q, q ∈ l -> q ∈ nodes) by (intros q Hq; apply Hl; by right).
  replace (done ++ p :: l) with ((done ++ [p]) ++ l) by (by rewrite <- app_assoc).
  destruct (Z.eqb_spec (dom p) u64_max) as [Hm|Hm]; [apply IH; [done|]; apply so_far_skip; [by intros []|done]|].
  destruct Hs as [[-> Hnone]|Hn].
  - rewrite Z.eqb_refl. cbn [mbind result_bind]. apply IH; [done|right]. by apply nearest_first.
  - pose proof (og_small Hog parent (ne_in _ _ _ _ _ Hn)) as Hpm. rewrite (proj2 (Z.eqb_neq _ _) Hpm).
    pose proof (rank_lt _ _ parent (ne_in _ _ _ _ _ Hn)).
    destruct (dominance_intersect_spec cfg dom fuel Hr Ht p parent) as (c & -> & Hcn & Hcp & Hca & Hcb & Hcx);
      [done|apply (ne_in _ _ _ _ _ Hn)|done|apply (ne_placed _ _ _ _ _ Hn)|lia|].
    cbn [mbind result_bind]. apply IH; [done|right]. by eapply nearest_next.
Qed.

(** ** A pass *)
Lemma block_parent cfg dom i b fuel : has_parents cfg dom -> dom_inv i dom -> b ∈ order -> rank b = i ->
  (2 * length order < fuel)%nat ->
  exists d, common_dominator (E := E) fuel cfg (preds b) u64_max = Ok d /\ nearest dom (preds b) d.
Proof.
  intros Hr Hinv Hb Hi Hfuel.
  destruct (common_dominator_spec cfg dom fuel Hr (di_tree _ _ _ _ _ Hinv) Hfuel (preds b) [] u64_max)
    as (d & Hd & [[-> Hnone]|Hn]); [intros p; by apply (og_preds Hog)|left; split; [done|by intros ? ?%not_elem_of_nil]| |eauto].
  destruct (og_before Hog b Hb) as (q & Hq & Hlt). destruct (Hnone q Hq).
  apply (di_first _ _ _ _ _ Hinv); [by apply (og_preds Hog b)|lia].
Qed.

Lemma has_parents_update cfg dom b nb d : has_parents cfg dom -> cfg !! b = Some nb ->
  has_parents (<[b := set_dominator_parent nb d]> cfg) (<[b := d]> dom).
Proof.
  intros Hr Hb k. destruct (decide (k = b)) as [->|Hne].
  - rewrite lookup_insert_eq, fn_lookup_insert. specialize (Hr b). rewrite Hb in Hr. symmetry in Hr.
    apply fmap_Some in Hr as (b0 & -> & ->). done.
  - rewrite lookup_insert_ne, fn_lookup_insert_ne by done. apply Hr.
Qed.

Lemma dominance_pass_spec fuel : (2 * length order < fuel)%nat -> forall rest done cfg dom t,
  order = done ++ rest -> dom_inv (S (length done)) dom -> has_parents cfg dom ->
  exists cfg' dom' t', dominance_pass (E := E) fuel rest cfg t = Ok (cfg', t') /\ has_parents cfg' dom' /\
    dom_inv (S (length order)) dom' /\ (slack root order dom' <= slack root order dom)%nat /\
    if t' then t = true /\ (forall b, b ∈ rest -> nearest dom (preds b) (dom b)) /\ dom' = dom
    else t = false \/ (slack root order dom' < slack root order dom)%nat.
Proof.
  intros Hfuel. induction rest as [|b rest IH]; intros done cfg dom t Hord Hinv Hr.
  { exists cfg, dom, t. rewrite app_nil_r in Hord. subst done. split_and!; [done|done|done|lia|].
    destruct t; [|by left]. split_and!; [done|by intros ? ?%not_elem_of_nil|done]. }
  assert (Hb : b ∈ order) by (rewrite Hord; apply elem_of_app; right; left).
  assert (Hi : rank b = S (length done)).
  { apply rank_of; [apply (og_NoDup Hog)|]. rewrite Hord.
    change ((done ++ b :: rest) !! length done = Some b). by apply list_lookup_middle. }
  destruct (block_lookup _ _ b Hr ltac:(by right)) as (nb & Hnb & Hdb & _ & Hsb).
  destruct (block_parent cfg dom _ b fuel Hr Hinv Hb Hi Hfuel) as (d & Hd & Hn).
  cbn [dominance_pass]. rewrite Hnb. cbn [or_panic mbind result_bind]. rewrite Hsb, Hd, Hdb. cbn [mbind result_bind].
  pose proof (update root order preds (og_NoDup Hog) (og_small Hog) (og_preds Hog) (og_before Hog) b d Hinv Hb Hi Hn) as Hinv'.
  assert (Hord' : order = (done ++ [b]) ++ rest) by (by rewrite <- app_assoc).
  assert (Hlen : S (S (length done)) = S (length (done ++ [b]))) by (rewrite length_app; cbn; lia).
  rewrite Hlen in Hinv'. destruct (Z.eqb_spec (dom b) d) as [Heq|Hne]; cbn [negb].
  - apply dom_inv_ext with (dom := dom) in Hinv'.
    2: { intros z. destruct (decide (z = b)) as [->|]; [by rewrite fn_lookup_insert|by rewrite fn_lookup_insert_ne]. }
    destruct (IH (done ++ [b]) cfg dom t Hord' Hinv' Hr) as (cfg' & dom' & t' & Hp & Hr' & Hi' & Hs & Hfin).
    exists cfg', dom', t'. split_and!; [done|done|done|done|]. destruct t'; [|done].
    destruct Hfin as (-> & Hall & ->). split_and!; [done| |done].
    intros x [->|Hx]%elem_of_cons; [by rewrite Heq|auto].
  - pose proof (slack_decreases root order preds (og_NoDup Hog) (og_small Hog) dom _ b d Hinv Hb Hi Hn Hne) as Hsl.
    destruct (IH (done ++ [b]) _ _ false Hord' Hinv' (has_parents_update cfg dom b nb d Hr Hnb))
      as (cfg' & dom' & t' & Hp & Hr' & Hi' & Hs & Hfin).
    exists cfg', dom', t'. split_and!; [done|done|done|lia|]. destruct t'; [by destruct Hfin|right; lia].
Qed.

(** ** The loop *)
Lemma dominance_loop_spec fuel passes : (2 * length order < fuel)%nat -> forall cfg dom,
  dom_inv 1 dom -> has_parents cfg dom -> (slack root order dom < passes)%nat ->
  exists cfg' dom', dominance_loop (E := E) passes fuel order cfg = Ok cfg' /\ has_parents cfg' dom' /\
    dom_inv (S (length order)) dom' /\ forall b, b ∈ order -> nearest dom' (preds b) (dom' b).
Proof.
  intros Hfuel. induction passes as [|passes IH]; intros cfg dom Hinv Hr Hlt; [lia|]. cbn [dominance_loop].
  destruct (dominance_pass_spec fuel Hfuel order [] cfg dom true eq_refl Hinv Hr)
    as (cfg' & dom' & t' & -> & Hr' & Hi' & Hs & Hfin). cbn [mbind result_bind]. destruct t'.
  - destruct Hfin as (_ & Hall & ->). exists cfg', dom. done.
  - destruct Hfin as [|Hfin]; [done|]. apply (IH cfg' dom'); [|done|lia].
    by apply next_pass.
Qed.

(** ** Children *)
Definition add_children (n : CfgNode) (l : list Z) : CfgNode :=
  mkCfgNode (label n) (sources n) (destinations n) (node_instructions n) (topo_index n)
    (dominator_parent n) (dominated_children n ++ l).

Lemma collect_children_spec dom l : forall cfg,
  (forall x, x ∈ l -> x ∈ order) -> tree dom -> (forall x, x ∈ nodes -> placed dom x) ->
  (forall x, x ∈ nodes -> exists b, cfg !! x = Some b /\ dominator_parent b = dom x) ->
  exists cfg', collect_children (E := E) l cfg = Ok cfg' /\
    forall k, cfg' !! k = (fun n => add_children n (filter (fun b => dom b = k) l)) <$> cfg !! k.
Proof.
  induction l as [|b l IH]; intros cfg Hl Ht Hp Hcfg.
  { exists cfg. split; [done|]. intros k. destruct (cfg !! k) as [[]|]; [|done].
    unfold add_children. cbn. by rewrite app_nil_r. }
  pose proof (Hl b ltac:(left)) as Hb. destruct (proj2 Ht b Hb (Hp b ltac:(by right))) as (Hd & _ & Hlt).
  cbn [collect_children]. destruct (Hcfg b ltac:(by right)) as (nb & -> & Hnb). cbn [or_panic mbind result_bind].
  rewrite Hnb. rewrite (proj2 (Z.eqb_neq _ _) (Hp b ltac:(by right))).
  rewrite (proj2 (Z.eqb_neq b (dom b))) by (intros Heq; rewrite <- Heq in Hlt; lia).
  destruct (Hcfg (dom b) Hd) as (nd & Hnd & Hndp). rewrite Hnd. cbn [or_panic mbind result_bind].
  destruct (IH (<[dom b := push_dominated nd b]> cfg)) as (cfg' & -> & Hk).
  - intros x Hx. apply Hl. by right.
  - done.
  - done.
  - intros x Hx. destruct (decide (x = dom b)) as [->|Hne].
    + rewrite lookup_insert_eq. eexists. split; [done|]. done.
    + rewrite lookup_insert_ne by done. by apply Hcfg.
  - exists cfg'. split; [done|]. intros k. rewrite Hk. destruct (decide (dom b = k)) as [<-|Hne].
    + rewrite lookup_insert_eq, filter_cons_True, Hnd by done. cbn. unfold add_children, push_dominated. cbn.
      by rewrite <- app_assoc.
    + by rewrite lookup_insert_ne, filter_cons_False by done.
Qed.
End Passes.

(** ** Dominance in a graph of blocks *)
(** A walk from [root] to [y] that does not touch [x]. *)
Inductive walk_avoiding (nodes : gmap Z CfgNode) (root x : Z) : Z -> Prop :=
| walk_root : x <> root -> walk_avoiding nodes root x root
| walk_step p y : walk_avoiding nodes root x p -> cfg_edge nodes p y -> y <> x ->
    walk_avoiding nodes root x y.

Definition block_dominates (nodes : gmap Z CfgNode) (root x y : Z) : Prop :=
  ~ walk_avoiding nodes root x y.

Definition immediate_dominator (nodes : gmap Z CfgNode) (root d b : Z) : Prop :=
  block_dominates nodes root d b /\ d <> b /\
  forall x, block_dominates nodes root x b -> x <> b -> block_dominates nodes root x d.

(** [v] is reached from a block [e] that starts no later, in a component that
    no edge enters. *)
Definition entered_below (nodes : gmap Z CfgNode) (v : Z) : Prop :=
  exists e, e <= v /\ is_Some (nodes !! e) /\ cfg_reach nodes e v /\
    forall u x, cfg_edge nodes u x -> cfg_reach nodes e x -> cfg_reach nodes x e -> cfg_reach nodes e u.

(** Blocks the passes have not touched. *)
Definition undominated (nodes : gmap Z CfgNode) : Prop :=
  forall k b, nodes !! k = Some b -> k <> u64_max /\ dominator_parent b = u64_max /\ dominated_children b = [].

Section Analysis.
Context {E V : Type} `{Profile, Murmur3}.

Section Ordered.
Context {a a' : Analysis V} {topo : Z -> TopologicalIndex} {entries : list Z}.
Hypothesis Hwl : well_linked (cfg_nodes a) (super_root a).
Hypothesis Hco : componentised a a' topo entries.
Hypothesis Hent : forall v, is_Some (cfg_nodes a !! v) -> entered_below (cfg_nodes a) v.
Abbreviation nodes := (cfg_nodes a).
Abbreviation keys := (node_keys nodes).
Abbreviation root := (super_root a).
Abbreviation order := (topological_order a').

#[local] Lemma source_key u v : cfg_edge nodes u v -> u ∈ keys.
Proof. intros (b & Hb & _). apply elem_of_node_keys. eauto. Qed.

(** A block where the search started over is first in a component of its own. *)
Lemma fresh_entry v : v ∈ keys -> cfg_fresh nodes v -> v ∈ entries.
Proof.
  intros Hv (P & HPc & HPlt & HPv). pose proof (co_marked _ _ _ _ Hco) as Hm.
  destruct (Hent v ltac:(by apply elem_of_node_keys)) as (e & Hev & He & Hreach & Hclosed).
  assert (HP : forall x y, P x -> cfg_reach nodes x y -> P y).
  { intros x y HPx Hxy. revert HPx. induction Hxy as [|x y z Hxy _ IH]; [done|]. eauto. }
  assert (e = v) as ->.
  { destruct (decide (e = v)) as [|Hne]; [done|]. destruct HPv. apply (HP e); [|done].
    apply HPlt; [by apply elem_of_node_keys|lia]. }
  assert (Hin : forall u x, cfg_edge nodes u x -> x ∈ keys -> block_id topo x = block_id topo v ->
    block_id topo u = block_id topo v).
  { intros u x Hux Hx Hid. apply (mk_scc _ _ Hm) in Hid as [Hxv Hvx]; [|done|done].
    apply (mk_scc _ _ Hm); [by eapply source_key|done|]. split; [by eapply rtc_l|by eapply Hclosed]. }
  destruct (component_entered Hwl Hco v Hv) as [(u & x & Hux & Hu & Hx & Hid & Hlt)|(f & Hf & Hfk & Hid)].
  { specialize (Hin u x Hux Hx Hid). unfold block_id in *. lia. }
  assert (f = v) as <-; [|done]. pose proof Hf as (l1 & l2 & Heq & Hl1 & _)%(co_entries _ _ _ _ Hco).
  destruct (mk_parent _ _ Hm f Hfk) as [(P' & HPc' & HPlt' & HPf)|(p & Hpf & Hlt)].
  - apply (mk_scc _ _ Hm) in Hid as [Hfv Hvf]; [|done|done].
    destruct (Z.lt_trichotomy f v) as [Hfl|[|Hvl]]; [|done|].
    + destruct HPv. apply (HP f); [by apply HPlt|done].
    + destruct HPf. assert (P' v) as HPv' by (by apply HPlt'). clear -HPc' HPv' Hvf.
      revert HPv'. induction Hvf as [|x y z Hxy _ IH]; [done|]. eauto.
  - exfalso. pose proof (Hin p f Hpf Hfk Hid) as Hidp. pose proof (source_key p f Hpf) as Hpk.
    apply (order_elem Hco) in Hpk. rewrite Heq in Hpk. apply elem_of_app in Hpk as [Hp|Hp].
    { apply (Hl1 p Hp). by rewrite Hidp. }
    pose proof (co_sorted _ _ _ _ Hco) as Hs. rewrite Heq in Hs. apply StronglySorted_app in Hs as (_ & _ & Hs).
    apply StronglySorted_cons in Hs as [Hfa _]. rewrite Forall_forall in Hfa.
    apply elem_of_cons in Hp as [->|Hp]; [unfold topo_lt in Hlt; lia|].
    specialize (Hfa p Hp). unfold precedes, topo_lt in *. lia.
Qed.

(** Every block has a predecessor before it in the order. *)
Lemma preceded v : v ∈ keys -> exists p, cfg_edge (cfg_nodes a') p v /\
  (p = root \/ (p ∈ keys /\ precedes topo p v)).
Proof.
  intros Hv. destruct (mk_parent _ _ (co_marked _ _ _ _ Hco) v Hv) as [Hf|(p & Hp & Hlt)].
  - exists root. split; [|by left]. apply (co_edge Hwl Hco). right. split; [done|]. by apply fresh_entry.
  - exists p. split; [apply (co_edge Hwl Hco); by left|right]. split; [by eapply source_key|done].
Qed.

Hypothesis Hun : undominated nodes.

Lemma order_ranked x y : x ∈ order -> y ∈ order -> (rank root order x < rank root order y)%nat ->
  precedes topo x y.
Proof.
  intros Hx Hy Hlt.
  assert (Hpos : forall z, z ∈ order -> order !! (rank root order z - 1)%nat = Some z).
  { intros z Hz. pose proof (rank_lookup root order z ltac:(by right)) as Hl.
    assert (Hnd : NoDup (root :: order)).
    { constructor; [|rewrite (co_order _ _ _ _ Hco); apply node_keys_NoDup].
      rewrite (order_elem Hco). intros Hr. by apply (key_not_root Hwl) in Hr. }
    pose proof (order_rank root order Hnd z Hz). destruct (rank root order z) as [|r]; [lia|].
    cbn. by rewrite Nat.sub_0_r. }
  eapply StronglySorted_lookup_lt; [apply (co_sorted _ _ _ _ Hco)|by apply Hpos|by apply Hpos|].
  assert (Hnz : (0 < rank root order x)%nat); [|lia].
  destruct (rank root order x) eqn:Hr; [|lia]. specialize (Hpos x Hx). rewrite Hr in Hpos. cbn in Hpos.
  pose proof (rank_lookup root order x ltac:(by right)) as Hl. rewrite Hr in Hl. cbn in Hl. simplify_eq.
  exfalso. apply (order_elem Hco) in Hx. by apply (key_not_root Hwl) in Hx.
Qed.

Hypothesis Hroot : root <> u64_max.

#[local] Lemma all_NoDup : NoDup (root :: order).
Proof.
  constructor; [|rewrite (co_order _ _ _ _ Hco); apply node_keys_NoDup].
  rewrite (order_elem Hco). intros Hr. by apply (key_not_root Hwl) in Hr.
Qed.

(** A block of the new graph. *)
#[local] Lemma new_block x : x ∈ order -> exists b, cfg_nodes a' !! x = Some b /\ topo_index b = topo x /\
  x <> u64_max /\ dominator_parent b = u64_max /\ dominated_children b = [] /\
  (forall u, u ∈ sources b <-> cfg_edge (cfg_nodes a') u x).
Proof.
  intros Hx%(order_elem Hco). pose proof (key_not_root Hwl x Hx) as Hxr.
  apply elem_of_node_keys in Hx as [b Hb]. destruct (Hun x b Hb) as (Hxm & Hdp & Hdc).
  pose proof (co_blocks _ _ _ _ Hco x Hxr) as Hx'. rewrite Hb in Hx'. cbn in Hx'.
  eexists. split; [exact Hx'|]. split_and!; [done|done|done|done|]. intros u. by apply (co_sources Hwl Hco).
Qed.

#[local] Lemma edge_source u v : cfg_edge (cfg_nodes a') u v -> u ∈ root :: order.
Proof.
  intros [Hu|[-> _]]%(co_edge Hwl Hco); [right|left]. apply (order_elem Hco). by eapply source_key.
Qed.

#[local] Lemma edge_target u v : cfg_edge (cfg_nodes a') u v -> v ∈ order.
Proof.
  intros [Hu|[_ Hv]]%(co_edge Hwl Hco); apply (order_elem Hco); [|by apply (entry_key Hco)].
  apply elem_of_node_keys. by eapply (wl_closed _ _ Hwl).
Qed.

#[local] Lemma new_preds x u : x ∈ order -> u ∈ preds (cfg_nodes a') x <-> cfg_edge (cfg_nodes a') u x.
Proof. intros Hx. unfold preds. by destruct (new_block x Hx) as (b & -> & _ & _ & _ & _ & Hs). Qed.

Lemma analysis_ordered : ordered_graph (cfg_nodes a') root order.
Proof.
  split.
  - apply all_NoDup.
  - intros x [->|Hx]%elem_of_cons; [done|]. by destruct (new_block x Hx) as (b & _ & _ & ? & _).
  - intros x [->|Hx]%elem_of_cons; [rewrite (co_root _ _ _ _ Hco); eauto|].
    destruct (new_block x Hx) as (b & -> & _). eauto.
  - intros y p Hy Hp%new_preds; [|done]. by eapply edge_source.
  - intros y Hy. destruct (preceded y) as (p & Hpy & Hor); [by apply (order_elem Hco)|].
    exists p. split; [by apply new_preds|]. destruct Hor as [->|[Hpk Hlt]].
    + rewrite rank_root. by apply (order_rank _ _ all_NoDup).
    + assert (Hp : p ∈ order) by (by apply (order_elem Hco)).
      destruct (Nat.lt_trichotomy (rank root order p) (rank root order y)) as [|[Heq|Hgt]]; [done|..].
      * apply rank_inj in Heq; [|by right|by right]. subst. unfold precedes, topo_lt in Hlt. lia.
      * pose proof (order_ranked y p Hy Hp Hgt). unfold precedes, topo_lt in *. lia.
  - intros x y Hx Hy Hlt. apply elem_of_cons in Hy as [->|Hy]; [rewrite rank_root in Hlt; lia|].
    destruct (new_block y Hy) as (b & Hb & Hbt & _). unfold topo_at. rewrite Hb, Hbt.
    apply elem_of_cons in Hx as [->|Hx].
    + rewrite (co_root _ _ _ _ Hco). cbn. destruct (mk_range _ _ (co_marked _ _ _ _ Hco) y) as [? ?];
        [by apply (order_elem Hco)|]. unfold topo_lt. cbn. lia.
    + destruct (new_block x Hx) as (bx & Hbx & Hbxt & _). rewrite Hbx, Hbxt. by apply order_ranked.
Qed.

(** The two notions of dominance agree on the blocks. *)
#[local] Lemma dominates_iff x y : dominates root order (preds (cfg_nodes a')) x y <->
  block_dominates (cfg_nodes a') root x y.
Proof.
  unfold dominates, block_dominates. split; intros Hd Ha; apply Hd; clear Hd.
  - induction Ha as [|p y Hp IH Hpy Hne]; [by constructor|]. econstructor; [exact IH|by eapply edge_target| |done].
    apply new_preds; [by eapply edge_target|done].
  - induction Ha as [|p y Hp IH Hy Hpy Hne]; [by constructor|]. econstructor; [exact IH| |done].
    by apply new_preds.
Qed.

Lemma parents_are_dominators cfg dom :
  dom_inv root order (preds (cfg_nodes a')) (S (length order)) dom ->
  (forall b, b ∈ order -> nearest root order dom (preds (cfg_nodes a') b) (dom b)) ->
  has_parents (cfg_nodes a') cfg dom -> forall b, b ∈ order ->
  immediate_dominator (cfg_nodes a') root (dom b) b.
Proof.
  intros Hinv Hn Hr b Hb. pose proof analysis_ordered as Hog.
  pose proof (dominators_found root order _ (og_NoDup _ _ _ Hog) (og_preds _ _ _ Hog) dom Hinv Hn) as Hdom.
  pose proof (di_tree _ _ _ _ _ Hinv) as Ht.
  assert (Hp : forall x, x ∈ root :: order -> placed dom x).
  { intros x Hx. apply (di_first _ _ _ _ _ Hinv); [done|]. pose proof (rank_lt root order x Hx). lia. }
  destruct (proj2 Ht b Hb (Hp b ltac:(by right))) as (Hd & _ & Hlt). split_and!.
  - apply dominates_iff, Hdom; [by right|]. constructor; [done|constructor].
  - intros Heq. rewrite Heq in Hlt. lia.
  - intros x Hx Hne. apply dominates_iff, Hdom; [done|]. apply anc_parent; [done| |done].
    apply Hdom; [by right|]. by apply dominates_iff.
Qed.

Lemma dominance_returns : exists a'', control_flow_graph_dominance_hierarchy (E := E) a' = Ok a'' /\
  executable a'' = executable a' /\ instructions a'' = instructions a' /\ super_root a'' = super_root a' /\
  functions a'' = functions a' /\ topological_order a'' = order /\
  (forall k, is_Some (cfg_nodes a'' !! k) <-> is_Some (cfg_nodes a' !! k)) /\
  (forall k n'', cfg_nodes a'' !! k = Some n'' -> exists n', cfg_nodes a' !! k = Some n' /\
     sources n'' = sources n' /\ destinations n'' = destinations n' /\
     node_instructions n'' = node_instructions n' /\ topo_index n'' = topo_index n' /\
     (k <> root -> immediate_dominator (cfg_nodes a') root (dominator_parent n'') k) /\
     (forall b, b ∈ dominated_children n'' <-> b ∈ order /\
        exists nb, cfg_nodes a'' !! b = Some nb /\ dominator_parent nb = k)) /\
  dfg_reverse_edges a'' = dfg_reverse_edges a'.
Proof.
  pose proof analysis_ordered as Hog. destruct (co_rest _ _ _ _ Hco) as (_ & _ & Hsr & _).
  unfold control_flow_graph_dominance_hierarchy. rewrite Hsr, (co_root _ _ _ _ Hco).
  rewrite bool_decide_false by (intros He; pose proof (co_root _ _ _ _ Hco) as Hr; by rewrite He in Hr).
  cbn [or_panic mbind result_bind].
  set (cfg0 := <[root := _]> (cfg_nodes a')). set (dom0 := <[root := root]> (fun _ : Z => u64_max)).
  assert (Hr0 : has_parents (cfg_nodes a') cfg0 dom0).
  { intros k. unfold cfg0, dom0. destruct (decide (k = root)) as [->|Hne].
    - by rewrite lookup_insert_eq, fn_lookup_insert, (co_root _ _ _ _ Hco).
    - rewrite lookup_insert_ne, fn_lookup_insert_ne by done. destruct (cfg_nodes a' !! k) as [b|] eqn:Hb; [|done].
      destruct (new_block k) as (b' & Hb' & _ & _ & Hdp & _).
      { apply (order_elem Hco), elem_of_node_keys. rewrite (co_blocks _ _ _ _ Hco k Hne) in Hb.
        apply fmap_Some in Hb as (b0 & Hb0 & _). eauto. }
      cbn. f_equal. simplify_eq. destruct b. cbn in *. by subst. }
  destruct (dominance_loop_spec (E := E) _ _ _ Hog (S (2 * length order)) (S (length order * S (length order)))
    ltac:(lia) cfg0 dom0) as (cfg & dom & -> & Hr & Hinv & Hn); [|done| |].
  { apply first_pass; [apply all_NoDup|apply (og_small _ _ _ Hog)|by apply fn_lookup_insert|].
    intros x Hx. apply fn_lookup_insert_ne. intros <-. by apply (root_notin _ _ all_NoDup) in Hx. }
  { apply Nat.lt_succ_r, slack_bound. intros x Hx. left. apply fn_lookup_insert_ne.
    intros <-. by apply (root_notin _ _ all_NoDup) in Hx. }
  cbn [mbind result_bind]. pose proof (di_tree _ _ _ _ _ Hinv) as Ht.
  destruct (collect_children_spec (E := E) root order dom order cfg) as (cfg' & -> & Hk); [done|done|..].
  { intros x Hx. apply (di_first _ _ _ _ _ Hinv); [done|]. pose proof (rank_lt root order x Hx). lia. }
  { intros x Hx. destruct (block_lookup _ _ _ Hog cfg dom x Hr Hx) as (b & -> & Hb & _). eauto. }
  cbn [mbind result_bind]. eexists. split; [done|].
  cbn [set_cfg executable instructions super_root functions topological_order cfg_nodes].
  split_and!; [done|done|by rewrite Hsr|done|done|..|done].
  - intros k. by rewrite Hk, Hr, !fmap_is_Some.
  - intros k n'' Hn''. rewrite Hk, Hr in Hn''. apply fmap_Some in Hn'' as (n1 & Hn1 & ->).
    apply fmap_Some in Hn1 as (n' & Hn' & ->). exists n'. split; [done|]. cbn. split_and!; [done|done|done|done|..].
    + intros Hne. apply (parents_are_dominators cfg); [done|done|done|].
      apply (order_elem Hco), elem_of_node_keys. rewrite (co_blocks _ _ _ _ Hco k Hne) in Hn'.
      apply fmap_Some in Hn' as (b0 & Hb0 & _). eauto.
    + assert (Hnil : dominated_children n' = []).
      { destruct (decide (k = root)) as [->|Hne]; [rewrite (co_root _ _ _ _ Hco) in Hn'; by simplify_eq|].
        destruct (new_block k) as (b' & Hb' & _ & _ & _ & Hdc & _); [|congruence].
        apply (order_elem Hco), elem_of_node_keys. rewrite (co_blocks _ _ _ _ Hco k Hne) in Hn'.
        apply fmap_Some in Hn' as (b0 & Hb0 & _). eauto. }
      rewrite Hnil. cbn [app]. intros b. rewrite list_elem_of_filter. split.
      * intros [Hbk Hb]. split; [done|]. destruct (og_block _ _ _ Hog b ltac:(by right)) as [nb Hnb].
        rewrite Hk, Hr, Hnb. cbn. eauto.
      * intros [Hb (nb & Hnb & Hbk)]. split; [|done]. rewrite Hk, Hr in Hnb.
        apply fmap_Some in Hnb as (n1 & Hn1 & ->). apply fmap_Some in Hn1 as (n2 & _ & ->). done.
Qed.
End Ordered.

(** C33: The dominance pass after the components pass: for a well-linked graph whose
    blocks are each reached from an entry that does not come after them, both passes return
    and the parent of every block is its immediate dominator, seen from the super
    root; the children of a block are the blocks it is the parent of. *)
Theorem dominance_spec (a : Analysis V) :
  well_linked (cfg_nodes a) (super_root a) -> cfg_nodes a <> ∅ -> undominated (cfg_nodes a) ->
  super_root a <> u64_max -> (forall v, is_Some (cfg_nodes a !! v) -> entered_below (cfg_nodes a) v) ->
  exists a' a'', control_flow_graph_tarjan (E := E) a = Ok a' /\
    control_flow_graph_dominance_hierarchy (E := E) a' = Ok a'' /\
    forall k node, cfg_nodes a'' !! k = Some node ->
      (k <> super_root a -> immediate_dominator (cfg_nodes a') (super_root a) (dominator_parent node) k) /\
      (forall b, b ∈ dominated_children node <-> is_Some (cfg_nodes a !! b) /\
         exists nb, cfg_nodes a'' !! b = Some nb /\ dominator_parent nb = k).
Proof.
  intros Hwl Hne Hun Hroot Hent. destruct (tarjan_returns (E := E) a Hwl Hne) as (a' & topo & entries & Ht & Hco).
  destruct (dominance_returns Hwl Hco Hent Hun Hroot) as (a'' & Hd & _ & _ & _ & _ & _ & _ & Hk & _).
  exists a', a''. split_and!; [done|done|]. intros k node Hn.
  destruct (Hk k node Hn) as (n' & _ & _ & _ & _ & _ & Hdom & Hch). split; [done|].
  intros b. by rewrite Hch, (order_elem Hco), elem_of_node_keys.
Qed.
End Analysis.
