(* ===== verification/DataFlow.v ===== *)
(** * The data-flow graph of the static analysis:
    [intra_basic_block_data_flow] and [inter_basic_block_data_flow] of
    [src/casestudy/sbpf/src/static_analysis.rs]

    A [BTreeMap] or [HashMap] is a [gmap], a [BTreeSet] a [gset]; the loops over
    sets insert into sets, so their order does not matter.  The propagation
    runs on one unit of fuel for every edge every node may get and one more. *)

From Stdlib Require Import String.
From stdpp Require Import gmap strings.
From S2P Require Import Prelude Ebpf Program Verifier Error Text Vm BTree Disassembler StaticAnalysis.
From S2P Require Import Components Dominance.

(** ** Inside a block *)
(** The block, the edges and the last writer of each resource in the block. *)
Record FlowState := mkFlowState {
  flow_block : Z;
  flow_edges : gmap DfgNode (gset DfgEdge);
  flow_writers : gmap DataResource Z
}.

(** [map.entry(k).or_default().insert(e)] *)
Definition insert_edge (k : DfgNode) (e : DfgEdge) (m : gmap DfgNode (gset DfgEdge))
    : gmap DfgNode (gset DfgEdge) := <[k := {[e]} ∪ default ∅ (m !! k)]> m.

(** The local function [bind]. *)
Definition bind (state : FlowState) (insn : Insn) (is_output : bool) (resource : DataResource) : FlowState :=
  let kind := if is_output then Empty else Filled in
  let source := match flow_writers state !! resource with
                | Some source => InstructionNode source
                | None => PhiNode (flow_block state)
                end in
  let destination := InstructionNode (ptr insn) in
  mkFlowState (flow_block state)
    (insert_edge source (mkDfgEdge source destination kind resource) (flow_edges state))
    (if is_output then <[resource := ptr insn]> (flow_writers state) else flow_writers state).

Definition jmp32_imm_opcodes : list Z :=
  [JEQ32_IMM; JGT32_IMM; JGE32_IMM; JLT32_IMM; JLE32_IMM; JSET32_IMM; JNE32_IMM; JSGT32_IMM; JSGE32_IMM;
   JSLT32_IMM; JSLE32_IMM].
Definition jmp32_reg_opcodes : list Z :=
  [JEQ32_REG; JGT32_REG; JGE32_REG; JLT32_REG; JLE32_REG; JSET32_REG; JNE32_REG; JSGT32_REG; JSGE32_REG;
   JSLT32_REG; JSLE32_REG].
Definition jmp64_imm_opcodes : list Z :=
  [JEQ64_IMM; JGT64_IMM; JGE64_IMM; JLT64_IMM; JLE64_IMM; JSET64_IMM; JNE64_IMM; JSGT64_IMM; JSGE64_IMM;
   JSLT64_IMM; JSLE64_IMM].
Definition jmp64_reg_opcodes : list Z :=
  [JEQ64_REG; JGT64_REG; JGE64_REG; JLT64_REG; JLE64_REG; JSET64_REG; JNE64_REG; JSGT64_REG; JSGE64_REG;
   JSLT64_REG; JSLE64_REG].
Definition alu_unary_opcodes : list Z :=
  [ADD32_IMM; SUB32_IMM; MUL32_IMM; DIV32_IMM; SDIV32_IMM; OR32_IMM; AND32_IMM; LSH32_IMM; RSH32_IMM;
   MOD32_IMM; XOR32_IMM; ARSH32_IMM; ADD64_IMM; SUB64_IMM; MUL64_IMM; DIV64_IMM; SDIV64_IMM; OR64_IMM;
   AND64_IMM; LSH64_IMM; RSH64_IMM; MOD64_IMM; XOR64_IMM; ARSH64_IMM; HOR64_IMM; NEG32; NEG64; LE; BE].
Definition alu_binary_opcodes : list Z :=
  [ADD32_REG; SUB32_REG; MUL32_REG; DIV32_REG; SDIV32_REG; OR32_REG; AND32_REG; LSH32_REG; RSH32_REG;
   MOD32_REG; XOR32_REG; ARSH32_REG; ADD64_REG; SUB64_REG; MUL64_REG; DIV64_REG; SDIV64_REG; OR64_REG;
   AND64_REG; LSH64_REG; RSH64_REG; MOD64_REG; XOR64_REG; ARSH64_REG].

(** [(0..FIRST_SCRATCH_REG).chain([10])] *)
Definition call_registers : list Z := [0; 1; 2; 3; 4; 5; 10].

(** The calls of [bind] an arm makes, in order: reads and writes. *)
Definition reads (r : DataResource) : bool * DataResource := (false, r).
Definition writes (r : DataResource) : bool * DataResource := (true, r).

Definition is_opcode (i : Insn) (l : list Z) : bool := existsb (Z.eqb (opc i)) l.

Definition accesses (v : SBPFVersion) (i : Insn) : list (bool * DataResource) :=
  let rd := Register (dst i) in
  let rs := Register (src i) in
  if is_opcode i jmp32_imm_opcodes && enable_jmp32 v then [reads rd]
  else if is_opcode i jmp32_reg_opcodes && enable_jmp32 v then [reads rs; reads rd]
  else if is_opcode i jmp64_imm_opcodes then [reads rd]
  else if is_opcode i jmp64_reg_opcodes then [reads rs; reads rd]
  else if is_opcode i [CALL_REG; CALL_IMM] then
    let target := as_u 64 (imm i) in
    (if (opc i =? CALL_REG) && negb ((FIRST_SCRATCH_REG <=? target) && (target <? FIRST_SCRATCH_REG + SCRATCH_REGS))
     then [reads (Register (as_u 8 (imm i)))] else [])
    ++ [reads Memory; writes Memory]
    ++ (r ← call_registers; [reads (Register r); writes (Register r)])
  else if opc i =? EXIT then reads Memory :: ((fun r => reads (Register r)) <$> call_registers)
  else if opc i =? LD_DW_IMM then [writes rd]
  else if is_opcode i [LD_B_REG; LD_H_REG; LD_W_REG; LD_DW_REG] then [reads Memory; reads rs; writes rd]
  else if is_opcode i [ST_B_IMM; ST_H_IMM; ST_W_IMM; ST_DW_IMM] then [reads rd; writes Memory]
  else if is_opcode i [ST_B_REG; ST_H_REG; ST_W_REG; ST_DW_REG] then [reads rs; reads rd; writes Memory]
  else if is_opcode i alu_unary_opcodes then [reads rd; writes rd]
  else if is_opcode i [MOV32_IMM; MOV64_IMM] then [writes rd]
  else if is_opcode i alu_binary_opcodes then [reads rs; reads rd; writes rd]
  else if is_opcode i [MOV32_REG; MOV64_REG] then [reads rs; writes rd]
  else [].

Definition bind_insn (v : SBPFVersion) (state : FlowState) (insn : Insn) : FlowState :=
  foldl (fun state '(is_output, resource) => bind state insn is_output resource) state (accesses v insn).

Section DataFlow.
Context {E V : Type}.

(** [self.instructions[range]] *)
Definition block_insns (insns : list Insn) (range : Z * Z) : result E (list Insn) :=
  if (range.1 <=? range.2) && (range.2 <=? Z.of_nat (length insns))
  then Ok (take (Z.to_nat (range.2 - range.1)) (drop (Z.to_nat range.1) insns)) else Panic.

(** The closure mapped over the blocks: the edges, and the last writers by block. *)
Fixpoint flow_blocks (v : SBPFVersion) (insns : list Insn) (blocks : list (Z * CfgNode))
    (edges : gmap DfgNode (gset DfgEdge)) (outputs : gmap Z (gmap DataResource Z))
    : result E (gmap DfgNode (gset DfgEdge) * gmap Z (gmap DataResource Z)) :=
  match blocks with
  | [] => Ok (edges, outputs)
  | (start, block) :: blocks =>
      l ← block_insns insns (node_instructions block);
      let state := foldl (bind_insn v) (mkFlowState start edges ∅) l in
      flow_blocks v insns blocks (flow_edges state) (<[start := flow_writers state]> outputs)
  end.

Definition set_edges (a : Analysis V) (forward reverse : gmap DfgNode (gset DfgEdge)) : Analysis V :=
  mkAnalysis (executable a) (instructions a) (functions a) (cfg_nodes a) (topological_order a)
    (entrypoint a) (super_root a) forward reverse.

Definition intra_basic_block_data_flow (a : Analysis V) (v : SBPFVersion)
    : result E (Analysis V * gmap Z (gmap DataResource Z)) :=
  '(edges, data_dependencies) ← flow_blocks v (instructions a) (bindings (cfg_nodes a)) ∅ ∅;
  Ok (set_edges a edges (dfg_reverse_edges a), data_dependencies).

(** ** Between blocks *)
(** Where an edge into [block] comes from when control comes from
    [predecessor], and whether that is a Φ node. *)
Definition edge_source (provided_outputs : gmap DataResource Z) (predecessor : Z) (r : DataResource)
    : DfgNode * bool :=
  match provided_outputs !! r with
  | Some source => (InstructionNode source, false)
  | None => (PhiNode predecessor, true)
  end.

Definition redirect (block : Z) (sources : list Z) (e : DfgEdge) : DfgEdge :=
  if Nat.eqb (length sources) 1 then e
  else mkDfgEdge (source e) (PhiNode block) (kind e) (resource e).

(** The innermost loop; the flag is [continue_propagation]. *)
Fixpoint propagate_edges (block : Z) (sources : list Z) (provided : gmap DataResource Z) (predecessor : Z)
    (l : list DfgEdge) (forward : gmap DfgNode (gset DfgEdge)) (again : bool)
    : gmap DfgNode (gset DfgEdge) * bool :=
  match l with
  | [] => (forward, again)
  | e :: l =>
      let '(source, source_is_a_phi_node) := edge_source provided predecessor (resource e) in
      let edge := redirect block sources e in
      let inserted := bool_decide (edge ∉ default ∅ (forward !! source)) in
      propagate_edges block sources provided predecessor l (insert_edge source edge forward)
        (again || (inserted && source_is_a_phi_node && bool_decide (source <> PhiNode block)))
  end.

Fixpoint propagate_preds (block : Z) (sources : list Z) (outputs : gmap Z (gmap DataResource Z))
    (preds : list Z) (edges : gset DfgEdge) (forward : gmap DfgNode (gset DfgEdge)) (again : bool)
    : result E (gmap DfgNode (gset DfgEdge) * bool) :=
  match preds with
  | [] => Ok (forward, again)
  | p :: preds =>
      provided ← or_panic (outputs !! p);
      let '(forward, again) := propagate_edges block sources provided p (elements edges) forward again in
      propagate_preds block sources outputs preds edges forward again
  end.

(** One turn of the loop over the blocks.  The edges of the block are taken out
    of the map, and put back with those the block passed to itself. *)
Definition propagate_block (cfg : gmap Z CfgNode) (outputs : gmap Z (gmap DataResource Z)) (block : Z)
    (forward : gmap DfgNode (gset DfgEdge)) (again : bool)
    : result E (gmap DfgNode (gset DfgEdge) * bool) :=
  match forward !! PhiNode block with
  | None => Ok (forward, again)
  | Some edges =>
      node ← or_panic (cfg !! block);
      '(forward, again) ← propagate_preds block (sources node) outputs (sources node) edges
         (<[PhiNode block := ∅]> forward) again;
      reflective ← or_panic (forward !! PhiNode block);
      Ok (<[PhiNode block := edges ∪ reflective]> forward,
          again || negb (bool_decide (reflective ⊆ edges)))
  end.

Fixpoint propagate_pass (cfg : gmap Z CfgNode) (outputs : gmap Z (gmap DataResource Z)) (order : list Z)
    (forward : gmap DfgNode (gset DfgEdge)) (again : bool)
    : result E (gmap DfgNode (gset DfgEdge) * bool) :=
  match order with
  | [] => Ok (forward, again)
  | b :: order =>
      '(forward, again) ← propagate_block cfg outputs b forward again;
      propagate_pass cfg outputs order forward again
  end.

Fixpoint propagate (fuel : nat) (cfg : gmap Z CfgNode) (outputs : gmap Z (gmap DataResource Z))
    (order : list Z) (forward : gmap DfgNode (gset DfgEdge)) : result E (gmap DfgNode (gset DfgEdge)) :=
  match fuel with
  | O => Panic
  | S fuel =>
      '(forward, again) ← propagate_pass cfg outputs order forward false;
      if again : bool then propagate fuel cfg outputs order forward else Ok forward
  end.

(** Φ nodes of blocks with one predecessor are dropped. *)
Definition drop_trivial (cfg : gmap Z CfgNode) (forward : gmap DfgNode (gset DfgEdge))
    : gmap DfgNode (gset DfgEdge) :=
  foldl (fun m b => if Nat.eqb (length (sources b.2)) 1 then delete (PhiNode b.1) m else m)
    forward (bindings cfg).

Definition reverse_edges (forward reverse : gmap DfgNode (gset DfgEdge)) : gmap DfgNode (gset DfgEdge) :=
  foldl (fun m e => insert_edge (destination e) e m) reverse
    (kes ← map_to_list forward; elements kes.2).

Definition total_edges (m : gmap DfgNode (gset DfgEdge)) : nat :=
  sum_list_with (fun kes => size kes.2) (map_to_list m).

Definition inter_basic_block_data_flow (a : Analysis V) (basic_block_outputs : gmap Z (gmap DataResource Z))
    : result E (Analysis V) :=
  let n := S (length (topological_order a)) in
  forward ← propagate (S (n * (total_edges (dfg_forward_edges a) * S n))) (cfg_nodes a) basic_block_outputs
              (rev (topological_order a)) (dfg_forward_edges a);
  let forward := drop_trivial (cfg_nodes a) forward in
  Ok (set_edges a forward (reverse_edges forward (dfg_reverse_edges a))).
End DataFlow.

(** ** The whole analysis *)
Section FromExecutable.
Context {E V : Type} `{Profile, ByteOrder, Murmur3, Demangle}.

Definition from_executable (executable : Executable V) : result E (Analysis V) :=
  a ← analysis_new executable;
  a ← split_into_basic_blocks a false (sbpf_version executable);
  a ← control_flow_graph_tarjan a;
  a ← control_flow_graph_dominance_hierarchy a;
  let a := label_basic_blocks a in
  '(a, basic_block_outputs) ← intra_basic_block_data_flow a (sbpf_version executable);
  inter_basic_block_data_flow a basic_block_outputs.
End FromExecutable.
