(* ===== verification/DataFlowFacts.v ===== *)
(** * The data-flow graph: what its edges are

    Inside a block the edge of an access comes from the last instruction before
    it that writes the resource, or from the Φ node of the block.  Between blocks
    the propagation returns the least set of edges closed under handing the edges
    of a Φ node to the predecessors of its block. *)

From Stdlib Require Import String.
From stdpp Require Import gmap strings.
From S2P Require Import Prelude Ebpf Program Verifier Error Text Vm BTree Disassembler StaticAnalysis.
From S2P Require Import StaticFacts Components ComponentsInv ComponentsSpec Dominance DominanceFacts DataFlow.

Abbreviation Edges := (gmap DfgNode (gset DfgEdge)).
Definition edges_of (m : Edges) (k : DfgNode) : gset DfgEdge := default ∅ (m !! k).

Lemma edges_of_insert k e (m : Edges) j x :
  x ∈ edges_of (insert_edge k e m) j <-> x ∈ edges_of m j \/ (j = k /\ x = e).
Proof.
  unfold edges_of, insert_edge. destruct (decide (j = k)) as [->|Hne].
  - rewrite lookup_insert_eq. cbn. set_solver.
  - rewrite lookup_insert_ne by done. set_solver.
Qed.

Lemma insert_edge_key k e (m : Edges) j : is_Some (m !! j) -> is_Some (insert_edge k e m !! j).
Proof.
  intros Hj. unfold insert_edge. destruct (decide (j = k)) as [->|Hne];
    [rewrite lookup_insert_eq; eauto|by rewrite lookup_insert_ne].
Qed.

Lemma elem_of_rev {A} (x : A) l : x ∈ rev l <-> x ∈ l.
Proof. by rewrite !list_elem_of_In, <- in_rev. Qed.

(** The edges filed under any node. *)
Definition all_edges (m : Edges) : list DfgEdge := kes ← map_to_list m; elements kes.2.

Lemma elem_of_all_edges m x : x ∈ all_edges m <-> exists k, x ∈ edges_of m k.
Proof.
  unfold all_edges, edges_of. rewrite list_elem_of_bind. split.
  - intros ([k s] & Hx & Hin). apply elem_of_map_to_list in Hin. exists k. rewrite Hin. cbn.
    by apply elem_of_elements in Hx.
  - intros [k Hx]. destruct (m !! k) as [s|] eqn:Hs; cbn in Hx; [|set_solver]. exists (k, s). split.
    + by apply elem_of_elements.
    + by apply elem_of_map_to_list.
Qed.

Lemma length_all_edges m : length (all_edges m) = total_edges m.
Proof.
  unfold all_edges, total_edges. induction (map_to_list m) as [|[k s] l IH]; [done|].
  cbn. rewrite length_app. cbn in IH. by rewrite IH.
Qed.

(** ** Between blocks *)
Section Propagation.
Context {E : Type} (cfg : gmap Z CfgNode) (outputs : gmap Z (gmap DataResource Z)).

Definition source_of (p : Z) (r : DataResource) : DfgNode :=
  (edge_source (default ∅ (outputs !! p)) p r).1.
Definition block_sources (b : Z) : list Z := match cfg !! b with Some n => sources n | None => [] end.

(** Some Φ node has got an edge. *)
Definition phi_grew (m m' : Edges) : Prop :=
  exists p x, x ∈ edges_of m' (PhiNode p) /\ x ∉ edges_of m (PhiNode p).
Definition other_phi_grew (block : Z) (m m' : Edges) : Prop :=
  exists p x, p <> block /\ x ∈ edges_of m' (PhiNode p) /\ x ∉ edges_of m (PhiNode p).
Definition grows (m m' : Edges) : Prop := forall k x, x ∈ edges_of m k -> x ∈ edges_of m' k.

Lemma grew_trans (P : Z -> Prop) (m m1 m2 : Edges) : grows m m1 -> grows m1 m2 ->
  ((exists p x, P p /\ x ∈ edges_of m2 (PhiNode p) /\ x ∉ edges_of m (PhiNode p)) <->
   (exists p x, P p /\ x ∈ edges_of m1 (PhiNode p) /\ x ∉ edges_of m (PhiNode p)) \/
   (exists p x, P p /\ x ∈ edges_of m2 (PhiNode p) /\ x ∉ edges_of m1 (PhiNode p))).
Proof.
  intros H1 H2. split.
  - intros (p & x & Hp & Hx & Hn). destruct (decide (x ∈ edges_of m1 (PhiNode p))); [left|right]; eauto 6.
  - intros [(p & x & Hp & Hx & Hn)|(p & x & Hp & Hx & Hn)]; exists p, x; split_and!; [done|auto|done|done|done|].
    intros Hm. by apply Hn, H1.
Qed.

Lemma propagate_edges_spec block srcs provided p l : forall m again m' again',
  propagate_edges block srcs provided p l m again = (m', again') ->
  (forall k x, x ∈ edges_of m' k <-> x ∈ edges_of m k \/
     exists e, e ∈ l /\ (edge_source provided p (resource e)).1 = k /\ x = redirect block srcs e) /\
  (again' = true <-> again = true \/ other_phi_grew block m m') /\
  (forall k, is_Some (m !! k) -> is_Some (m' !! k)).
Proof.
  induction l as [|e l IH]; intros m again m' again' Heq; cbn [propagate_edges] in Heq.
  { simplify_eq. split_and!; [|split; [by left|intros [?|(q & x & _ & ? & ?)]; done]|done].
    intros k x. split; [by left|]. intros [?|(e & He & _)]; [done|by apply not_elem_of_nil in He]. }
  destruct (edge_source provided p (resource e)) as [s phi] eqn:Hs.
  destruct (IH _ _ _ _ Heq) as (Hx & Ha & Hk). set (m1 := insert_edge s (redirect block srcs e) m) in *.
  assert (Hg1 : grows m m1) by (intros k x Hkx; apply edges_of_insert; by left).
  assert (Hg2 : grows m1 m') by (intros k x Hkx; apply Hx; by left).
  split_and!.
  - intros k x. rewrite Hx. unfold m1. rewrite edges_of_insert. setoid_rewrite elem_of_cons. split.
    + intros [[?|[-> ->]]|(e' & He' & ?)]; [by left|right; exists e; rewrite Hs; auto|right; eauto].
    + intros [?|(e' & [->|He'] & Hk' & ->)]; [auto|rewrite Hs in Hk'; auto|right; eauto].
  - enough (Hstep : bool_decide (redirect block srcs e ∉ default ∅ (m !! s)) && phi &&
      bool_decide (s <> PhiNode block) = true <-> other_phi_grew block m m1).
    { unfold other_phi_grew in *. rewrite Ha, (grew_trans (fun p => p <> block) m m1 m' Hg1 Hg2), orb_true_iff, Hstep. tauto. }
    rewrite !andb_true_iff, !bool_decide_eq_true. split.
    + intros [[Hn Hphi] Hne]. unfold edge_source in Hs. destruct (provided !! resource e); simplify_eq.
      exists p, (redirect block srcs e). split_and!; [congruence|apply edges_of_insert; auto|done].
    + intros (q & x & Hq & Hin & Hn). unfold m1 in Hin. apply edges_of_insert in Hin as [|[<- ->]]; [done|].
      unfold edge_source in Hs. destruct (provided !! resource e); simplify_eq. split_and!; [done|done|congruence].
  - intros k Hm. apply Hk. by apply insert_edge_key.
Qed.

Lemma propagate_preds_spec block srcs edges l : forall m again,
  (forall p, p ∈ l -> is_Some (outputs !! p)) ->
  exists m' again', propagate_preds (E := E) block srcs outputs l edges m again = Ok (m', again') /\
  (forall k x, x ∈ edges_of m' k <-> x ∈ edges_of m k \/
     exists p e, p ∈ l /\ e ∈ edges /\ source_of p (resource e) = k /\ x = redirect block srcs e) /\
  (again' = true <-> again = true \/ other_phi_grew block m m') /\
  (forall k, is_Some (m !! k) -> is_Some (m' !! k)).
Proof.
  induction l as [|p l IH]; intros m again Hl; cbn [propagate_preds].
  { exists m, again. split_and!; [done| |split; [by left|intros [?|(q & x & _ & ? & ?)]; done]|done].
    intros k x. split; [by left|]. intros [?|(p & e & Hp & _)]; [done|by apply not_elem_of_nil in Hp]. }
  destruct (Hl p ltac:(left)) as [provided Hp]. rewrite Hp. cbn [or_panic mbind result_bind].
  destruct (propagate_edges block srcs provided p (elements edges) m again) as [m1 again1] eqn:H1.
  destruct (propagate_edges_spec _ _ _ _ _ _ _ _ _ H1) as (Hx1 & Ha1 & Hk1).
  destruct (IH m1 again1) as (m' & again' & -> & Hx & Ha & Hk); [intros q Hq; apply Hl; by right|].
  exists m', again'. split; [done|].
  assert (Hsrc : forall e, source_of p (resource e) = (edge_source provided p (resource e)).1)
    by (intros e; unfold source_of; by rewrite Hp).
  assert (Hg1 : grows m m1) by (intros k x Hkx; apply Hx1; by left).
  assert (Hg2 : grows m1 m') by (intros k x Hkx; apply Hx; by left).
  split_and!.
  - intros k x. rewrite Hx, Hx1. setoid_rewrite elem_of_cons. setoid_rewrite elem_of_elements. split.
    + intros [[?|(e & He & Hk' & ->)]|(q & e & Hq & ?)]; [by left|right; exists p, e; rewrite Hsrc; auto|right; eauto 6].
    + intros [?|(q & e & [->|Hq] & He & Hk' & ->)]; [auto|rewrite Hsrc in Hk'; left; right; eauto|right; eauto 7].
  - unfold other_phi_grew in *. rewrite Ha, Ha1, (grew_trans (fun p => p <> block) m m1 m' Hg1 Hg2). tauto.
  - auto.
Qed.

(** The edges of the Φ node of [b] are handed to its predecessors. *)
Definition handed (b : Z) (m : Edges) (k : DfgNode) (x : DfgEdge) : Prop :=
  exists p e, p ∈ block_sources b /\ e ∈ edges_of m (PhiNode b) /\
    source_of p (resource e) = k /\ x = redirect b (block_sources b) e.

Lemma propagate_block_spec b m again :
  is_Some (cfg !! b) -> (forall p, p ∈ block_sources b -> is_Some (outputs !! p)) ->
  exists m' again', propagate_block (E := E) cfg outputs b m again = Ok (m', again') /\
  (forall k x, x ∈ edges_of m' k <-> x ∈ edges_of m k \/ handed b m k x) /\
  (again' = true <-> again = true \/ phi_grew m m').
Proof.
  intros [node Hn] Hp. unfold propagate_block. destruct (m !! PhiNode b) as [edges|] eqn:Hm.
  2: { exists m, again. assert (Hnone : edges_of m (PhiNode b) = ∅) by (unfold edges_of; by rewrite Hm).
       split_and!; [done| |split; [by left|intros [?|(q & x & ? & ?)]; done]].
       intros k x. split; [by left|]. intros [?|(p & e & _ & He & _)]; [done|]. rewrite Hnone in He. set_solver. }
  unfold block_sources in *. unfold handed, block_sources. rewrite Hn in *. cbn [or_panic mbind result_bind].
  destruct (propagate_preds_spec b (sources node) edges (sources node) (<[PhiNode b := ∅]> m) again Hp)
    as (m1 & again1 & -> & Hx & Ha & Hk). cbn [mbind result_bind].
  destruct (Hk (PhiNode b)) as [reflective Hr]; [rewrite lookup_insert_eq; eauto|]. rewrite Hr.
  cbn [or_panic mbind result_bind]. do 2 eexists. split; [done|].
  assert (Hold : edges_of m (PhiNode b) = edges) by (unfold edges_of; by rewrite Hm). rewrite Hold.
  assert (Hrefl : forall x, x ∈ reflective <-> exists p e, p ∈ sources node /\ e ∈ edges /\
    source_of p (resource e) = PhiNode b /\ x = redirect b (sources node) e).
  { intros x. specialize (Hx (PhiNode b) x). unfold edges_of in Hx. rewrite Hr, lookup_insert_eq in Hx. cbn in Hx.
    rewrite Hx. set_solver. }
  assert (Hin : forall k x, x ∈ edges_of (<[PhiNode b := edges ∪ reflective]> m1) k <->
    x ∈ edges_of m k \/ exists p e, p ∈ sources node /\ e ∈ edges /\
      source_of p (resource e) = k /\ x = redirect b (sources node) e).
  { intros k x. destruct (decide (k = PhiNode b)) as [->|Hne].
    - unfold edges_of at 1. rewrite lookup_insert_eq, Hold. cbn. by rewrite elem_of_union, Hrefl.
    - unfold edges_of. rewrite !lookup_insert_ne by done. specialize (Hx k x). unfold edges_of in Hx.
      by rewrite lookup_insert_ne in Hx. }
  split; [done|].
  rewrite orb_true_iff, negb_true_iff, bool_decide_eq_false, Ha.
  enough (Hgrew : other_phi_grew b (<[PhiNode b := ∅]> m) m1 \/ ~ reflective ⊆ edges <->
    phi_grew m (<[PhiNode b := edges ∪ reflective]> m1)) by (rewrite <- Hgrew; tauto).
  split.
  - intros [(p & x & Hpb & Hxp & Hxn)|Hsub].
    + exists p, x. assert (PhiNode p <> PhiNode b) by congruence. unfold edges_of in *.
      rewrite lookup_insert_ne in Hxn by done. by rewrite lookup_insert_ne.
    + destruct (decide (set_Exists (fun x => x ∉ edges) reflective)) as [(x & Hx1 & Hx2)|Hno].
      * exists b, x. rewrite Hold. split; [|done]. unfold edges_of. rewrite lookup_insert_eq. cbn. set_solver.
      * destruct Hsub. intros x Hx'. destruct (decide (x ∈ edges)); [done|]. destruct Hno. by exists x.
  - intros (p & x & Hxp & Hxn). destruct (decide (p = b)) as [->|Hpb].
    + right. intros Hsub. rewrite Hold in Hxn. unfold edges_of in Hxp. rewrite lookup_insert_eq in Hxp.
      cbn in Hxp. set_solver.
    + left. exists p, x. assert (PhiNode p <> PhiNode b) by congruence. unfold edges_of in *.
      rewrite lookup_insert_ne in Hxp by done. by rewrite lookup_insert_ne.
Qed.

(** ** Passes *)
Context (order : list Z).
Hypothesis Hcfg : forall b, b ∈ order -> is_Some (cfg !! b).
Hypothesis Hout : forall b p, b ∈ order -> p ∈ block_sources b -> is_Some (outputs !! p).

(** Sets of edges closed under handing over. *)
Definition closed_under (P : DfgNode -> DfgEdge -> Prop) : Prop :=
  forall b p e, b ∈ order -> p ∈ block_sources b -> P (PhiNode b) e ->
    P (source_of p (resource e)) (redirect b (block_sources b) e).

Lemma propagate_pass_spec l : forall m again, (forall b, b ∈ l -> b ∈ order) ->
  exists m' again', propagate_pass (E := E) cfg outputs l m again = Ok (m', again') /\ grows m m' /\
    (forall P, closed_under P -> (forall k x, x ∈ edges_of m k -> P k x) -> forall k x, x ∈ edges_of m' k -> P k x) /\
    (again' = true <-> again = true \/ phi_grew m m') /\
    (~ phi_grew m m' -> forall b k x, b ∈ l -> handed b m k x -> x ∈ edges_of m' k).
Proof.
  induction l as [|b l IH]; intros m again Hl; cbn [propagate_pass].
  { exists m, again. split_and!; [done|by intros k x|auto| |].
    - split; [by left|]. intros [?|(p & x & ? & ?)]; done.
    - intros _ b k x Hb. by apply not_elem_of_nil in Hb. }
  pose proof (Hl b ltac:(left)) as Hb.
  destruct (propagate_block_spec b m again (Hcfg b Hb) (fun p => Hout b p Hb)) as (m1 & again1 & -> & Hx1 & Ha1).
  cbn [mbind result_bind].
  destruct (IH m1 again1) as (m' & again' & -> & Hg & HP & Ha & Hc); [intros c Hc; apply Hl; by right|].
  assert (Hg1 : grows m m1) by (intros k x Hkx; apply Hx1; by left).
  assert (Hsplit : phi_grew m m' <-> phi_grew m m1 \/ phi_grew m1 m').
  { pose proof (grew_trans (fun _ => True) m m1 m' Hg1 Hg) as Ht. unfold phi_grew. split.
    - intros (p & x & ? & ?). destruct (proj1 Ht) as [(q & y & _ & ?)|(q & y & _ & ?)]; [eauto|left|right]; eauto.
    - intros Hor. destruct (proj2 Ht) as (q & y & _ & ?); [|eauto].
      destruct Hor as [(q & y & ?)|(q & y & ?)]; [left|right]; eauto. }
  exists m', again'. split_and!; [done|intros k x Hkx; auto| |rewrite Ha, Ha1, Hsplit; tauto|].
  - intros P Hcl Hm. apply HP; [done|]. intros k x [?|(p & e & Hp & He & <- & ->)]%Hx1; auto.
  - intros Hno c k x [->|Hc']%elem_of_cons Hh; [apply Hg, Hx1; by right|].
    apply (Hc ltac:(tauto) c k x Hc'). destruct Hh as (p & e & Hp & He & Hk & Hx). exists p, e. auto.
Qed.

(** ** The loop *)
(** The least set of edges closed under handing over. *)
Inductive flows (m0 : Edges) : DfgNode -> DfgEdge -> Prop :=
| flow_local k e : e ∈ edges_of m0 k -> flows m0 k e
| flow_handed b p e : b ∈ order -> p ∈ block_sources b -> flows m0 (PhiNode b) e ->
    flows m0 (source_of p (resource e)) (redirect b (block_sources b) e).

Section Loop.
Context (universe : gset DfgEdge) (phis : list Z).
Hypothesis Huniv : forall b e, b ∈ order -> e ∈ universe -> redirect b (block_sources b) e ∈ universe.
Hypothesis Hphis : forall b p, b ∈ order -> p ∈ block_sources b -> p ∈ phis.

Definition missing (m : Edges) : nat :=
  sum_list_with (fun p => size (universe ∖ edges_of m (PhiNode p))) phis.

(** What is in the universe, and at a Φ node of a block or there from the start. *)
Definition bounded (m0 : Edges) (k : DfgNode) (x : DfgEdge) : Prop :=
  x ∈ universe /\ (x ∈ edges_of m0 k \/ match k with PhiNode p => p ∈ phis | InstructionNode _ => True end).

Lemma bounded_closed m0 : closed_under (bounded m0).
Proof.
  intros b p e Hb Hp [He _]. split; [by apply Huniv|right]. unfold source_of, edge_source.
  destruct (default ∅ (outputs !! p) !! resource e); cbn; [done|by eapply Hphis].
Qed.

Lemma missing_decreases m0 m m' : grows m0 m -> grows m m' -> (forall k x, x ∈ edges_of m' k -> bounded m0 k x) ->
  phi_grew m m' -> (missing m' < missing m)%nat.
Proof.
  intros Hg0 Hg Hb (p & x & Hx & Hn). destruct (Hb _ _ Hx) as [Hu [Hold|Hp]]; [by apply Hg0 in Hold|].
  unfold missing. assert (Hle : forall q, (size (universe ∖ edges_of m' (PhiNode q)) <=
    size (universe ∖ edges_of m (PhiNode q)))%nat).
  { intros q. apply subseteq_size. intros y. rewrite !elem_of_difference. intros [? Hy]. split; [done|].
    intros Hm. by apply Hy, Hg. }
  clear Hb Hphis. revert Hp. induction phis as [|q l IH]; intros Hp; [by apply not_elem_of_nil in Hp|]. cbn.
  apply elem_of_cons in Hp as [->|Hp].
  - assert (size (universe ∖ edges_of m' (PhiNode q)) < size (universe ∖ edges_of m (PhiNode q)))%nat.
    { apply subset_size. split.
      - intros y. rewrite !elem_of_difference. intros [? Hy]. split; [done|]. intros Hm. by apply Hy, Hg.
      - intros Hsub. specialize (Hsub x). rewrite !elem_of_difference in Hsub. tauto. }
    assert (sum_list_with (fun p => size (universe ∖ edges_of m' (PhiNode p))) l <=
      sum_list_with (fun p => size (universe ∖ edges_of m (PhiNode p))) l)%nat; [|lia].
    clear -Hle. induction l as [|r l IH]; cbn; [lia|]. specialize (Hle r). lia.
  - specialize (IH Hp). specialize (Hle q). lia.
Qed.

Lemma propagate_loop fuel m0 : (forall k x, x ∈ edges_of m0 k -> x ∈ universe) -> forall m,
  grows m0 m -> (forall k x, x ∈ edges_of m k -> flows m0 k x) ->
  (forall k x, x ∈ edges_of m k -> bounded m0 k x) -> (missing m < fuel)%nat ->
  exists m', propagate (E := E) fuel cfg outputs (rev order) m = Ok m' /\
    forall k x, x ∈ edges_of m' k <-> flows m0 k x.
Proof.
  intros Hu. induction fuel as [|fuel IH]; intros m Hg0 Hfl Hbd Hlt; [lia|]. cbn [propagate].
  destruct (propagate_pass_spec (rev order) m false) as (m' & again & -> & Hg & HP & Ha & Hc).
  { intros b. by rewrite elem_of_rev. }
  cbn [mbind result_bind].
  assert (Hfl' : forall k x, x ∈ edges_of m' k -> flows m0 k x).
  { apply HP; [|done]. intros b p e Hb Hp He. by constructor. }
  assert (Hbd' : forall k x, x ∈ edges_of m' k -> bounded m0 k x) by (apply HP; [apply bounded_closed|done]).
  assert (Hg' : grows m0 m') by (intros k x Hx; by apply Hg, Hg0).
  destruct again.
  - destruct (proj1 Ha eq_refl) as [|Hgrew]; [done|].
    apply IH; [done|done|done|]. pose proof (missing_decreases m0 m m' Hg0 Hg Hbd' Hgrew). lia.
  - assert (Hno : ~ phi_grew m m') by (intros Hgrew; by pose proof (proj2 Ha (or_intror Hgrew))).
    exists m'. split; [done|]. intros k x. split; [apply Hfl'|]. intros Hx.
    induction Hx as [k e He|b p e Hb Hp _ IHe]; [by apply Hg'|].
    apply (Hc Hno b); [by apply elem_of_rev|].
    exists p, e. split_and!; [done| |done|done].
    destruct (decide (e ∈ edges_of m (PhiNode b))) as [|Hn]; [done|]. destruct Hno. by exists b, e.
Qed.
End Loop.

(** ** Enough fuel *)
Definition retargeted (e : DfgEdge) : list DfgEdge :=
  e :: ((fun b => mkDfgEdge (source e) (PhiNode b) (kind e) (resource e)) <$> order).
Definition possible_edges (m : Edges) : gset DfgEdge := list_to_set (e ← all_edges m; retargeted e).

Lemma possible_edges_size m : (size (possible_edges m) <= total_edges m * S (length order))%nat.
Proof.
  rewrite <- length_all_edges. unfold possible_edges.
  assert (Hl : forall l : list DfgEdge, (size (list_to_set (C := gset DfgEdge) l) <= length l)%nat).
  { induction l as [|x l IH]; [by rewrite list_to_set_nil, size_empty|]. rewrite list_to_set_cons.
    rewrite size_union_alt. cbn. pose proof (size_singleton (C := gset DfgEdge) x).
    assert (size (list_to_set (C := gset DfgEdge) l ∖ {[x]}) <= size (list_to_set (C := gset DfgEdge) l))%nat
      by (apply subseteq_size; set_solver). lia. }
  etransitivity; [apply Hl|]. induction (all_edges m) as [|e l IH]; [done|]. cbn.
  rewrite length_app, length_fmap. cbn in IH. lia.
Qed.

Lemma possible_edges_redirect m b e : b ∈ order -> e ∈ possible_edges m ->
  redirect b (block_sources b) e ∈ possible_edges m.
Proof.
  unfold possible_edges. rewrite !elem_of_list_to_set, !list_elem_of_bind. intros Hb (x & He & Hx).
  exists x. split; [|done]. unfold redirect. destruct (Nat.eqb _ 1); [done|]. unfold retargeted in *.
  right. apply list_elem_of_fmap. exists b. split; [|done].
  apply elem_of_cons in He as [->|He]; [done|]. by apply list_elem_of_fmap in He as (c & -> & _).
Qed.

(** The propagation returns, and the edges are exactly those that flow. *)
Lemma propagate_returns m root : (forall b p, b ∈ order -> p ∈ block_sources b -> p ∈ root :: order) ->
  let n := S (length order) in
  exists m', propagate (E := E) (S (n * (total_edges m * S n))) cfg outputs (rev order) m = Ok m' /\
    forall k x, x ∈ edges_of m' k <-> flows m k x.
Proof.
  intros Hps n. apply (propagate_loop (possible_edges m) (root :: order)).
  - intros b e. apply possible_edges_redirect.
  - exact Hps.
  - intros k x Hx. unfold possible_edges. rewrite elem_of_list_to_set, list_elem_of_bind. exists x.
    split; [left|]. apply elem_of_all_edges. eauto.
  - by intros k x.
  - intros k x Hx. by constructor.
  - intros k x Hx. split; [|by left]. unfold possible_edges. rewrite elem_of_list_to_set, list_elem_of_bind.
    exists x. split; [left|]. apply elem_of_all_edges. eauto.
  - pose proof (possible_edges_size m) as Hs. unfold missing.
    assert (Hl : forall l : list Z, (sum_list_with (fun p => size (possible_edges m ∖ edges_of m (PhiNode p))) l <=
      length l * (total_edges m * S (length order)))%nat).
    { induction l as [|p l IH]; [cbn; lia|]. cbn [sum_list_with length].
      assert (size (possible_edges m ∖ edges_of m (PhiNode p)) <= size (possible_edges m))%nat
        by (apply subseteq_size; set_solver). lia. }
    specialize (Hl (root :: order)). cbn [length] in Hl. fold n in Hl.
    assert (n * (total_edges m * n) <= n * (total_edges m * S n))%nat by nia. lia.
Qed.
End Propagation.

(** ** Inside a block *)
(** The accesses of a list of instructions, in order. *)
Definition events (v : SBPFVersion) (l : list Insn) : list (Insn * bool * DataResource) :=
  i ← l; (fun a => (i, a.1, a.2)) <$> accesses v i.

(** The last instruction that writes [r]. *)
Definition last_writer (l : list (Insn * bool * DataResource)) (r : DataResource) : option Z :=
  last ((fun e => ptr e.1.1) <$> filter (fun e => e.1.2 = true /\ e.2 = r) l).

Definition writer_node (block : Z) (l : list (Insn * bool * DataResource)) (r : DataResource) : DfgNode :=
  match last_writer l r with Some p => InstructionNode p | None => PhiNode block end.

(** The edge of an access, after the accesses [pre] of the block. *)
Definition access_edge (block : Z) (pre : list (Insn * bool * DataResource)) (i : Insn) (is_output : bool)
    (r : DataResource) : DfgEdge :=
  mkDfgEdge (writer_node block pre r) (InstructionNode (ptr i)) (if is_output then Empty else Filled) r.

Definition access_of (block : Z) (l : list (Insn * bool * DataResource)) (k : DfgNode) (x : DfgEdge) : Prop :=
  exists pre i o r post, l = pre ++ (i, o, r) :: post /\ k = writer_node block pre r /\
    x = access_edge block pre i o r.

Definition bind_event (s : FlowState) (e : Insn * bool * DataResource) : FlowState :=
  bind s e.1.1 e.1.2 e.2.

Lemma bind_insns_events v l s : foldl (bind_insn v) s l = foldl bind_event s (events v l).
Proof.
  revert s. induction l as [|i l IH]; intros s; [done|]. cbn [foldl events mbind list_bind].
  rewrite foldl_app. unfold events in IH. rewrite IH. f_equal. unfold bind_insn.
  generalize (accesses v i) as acc. intros acc. revert s. induction acc as [|[o r] acc IHa]; intros s; [done|].
  cbn. apply IHa.
Qed.

Lemma last_writer_snoc l i o r r' : last_writer (l ++ [(i, o, r)]) r' =
  if decide (o = true /\ r = r') then Some (ptr i) else last_writer l r'.
Proof.
  unfold last_writer. rewrite filter_app, filter_cons, filter_nil. cbn [fst snd].
  destruct (decide _); [|by rewrite app_nil_r]. rewrite fmap_app. cbn. by rewrite last_snoc.
Qed.

Lemma access_of_snoc block l i o r k x : access_of block (l ++ [(i, o, r)]) k x <->
  access_of block l k x \/ (k = writer_node block l r /\ x = access_edge block l i o r).
Proof.
  split.
  - intros (pre & i' & o' & r' & post & Heq & Hk & Hx).
    destruct post as [|e post _] using rev_ind.
    + apply app_inj_tail in Heq as [-> [= -> -> ->]]. by right.
    + left. exists pre, i', o', r', post. rewrite app_comm_cons, app_assoc in Heq.
      by apply app_inj_tail in Heq as [-> _].
  - intros [(pre & i' & o' & r' & post & -> & Hk & Hx)|[-> ->]].
    + exists pre, i', o', r', (post ++ [(i, o, r)]). by rewrite <- app_assoc.
    + by exists l, i, o, r, [].
Qed.

Lemma bind_events_spec block edges0 l : forall s, s = foldl bind_event (mkFlowState block edges0 ∅) l ->
  flow_block s = block /\ (forall r, flow_writers s !! r = last_writer l r) /\
  (forall k x, x ∈ edges_of (flow_edges s) k <-> x ∈ edges_of edges0 k \/ access_of block l k x).
Proof.
  induction l as [|[[i o] r] l IH] using rev_ind; intros s ->.
  { split_and!; [done|by intros r|]. intros k x. split; [by left|]. intros [?|(pre & ? & ? & ? & ? & Heq & _)]; [done|].
    by destruct pre. }
  rewrite foldl_app. destruct (IH _ eq_refl) as (Hb & Hw & He). set (s := foldl bind_event _ l) in *.
  cbn [foldl bind_event bind fst snd]. unfold bind_event, bind. cbn [fst snd flow_block flow_writers flow_edges].
  split_and!; [done| |].
  - intros r'. rewrite last_writer_snoc. destruct o; [|rewrite decide_False by (by intros []); apply Hw].
    destruct (decide (r = r')) as [<-|Hne].
    + by rewrite lookup_insert_eq, decide_True.
    + rewrite lookup_insert_ne by done. rewrite decide_False by (by intros []). apply Hw.
  - intros k x. rewrite edges_of_insert, He, access_of_snoc, Hb, Hw. unfold access_edge, writer_node. tauto.
Qed.

Section Intra.
Context {E V : Type}.

Lemma block_insns_spec insns range : 0 <= range.1 <= range.2 -> range.2 <= Z.of_nat (length insns) ->
  block_insns (E := E) insns range = Ok (take (Z.to_nat (range.2 - range.1)) (drop (Z.to_nat range.1) insns)).
Proof.
  intros H1 H2. unfold block_insns. rewrite (proj2 (Z.leb_le _ _)) by lia. by rewrite (proj2 (Z.leb_le _ _)).
Qed.

Definition block_slice (insns : list Insn) (b : CfgNode) : list Insn :=
  take (Z.to_nat ((node_instructions b).2 - (node_instructions b).1)) (drop (Z.to_nat (node_instructions b).1) insns).

Definition range_ok (insns : list Insn) (b : CfgNode) : Prop :=
  0 <= (node_instructions b).1 <= (node_instructions b).2 /\ (node_instructions b).2 <= Z.of_nat (length insns).

#[global] Instance range_ok_dec insns b : Decision (range_ok insns b).
Proof. unfold range_ok. apply _. Defined.

Lemma flow_blocks_spec v insns blocks : forall edges outputs,
  NoDup blocks.*1 -> (forall k b, (k, b) ∈ blocks -> range_ok insns b) ->
  exists edges' outputs', flow_blocks (E := E) v insns blocks edges outputs = Ok (edges', outputs') /\
    (forall k x, x ∈ edges_of edges' k <-> x ∈ edges_of edges k \/
       exists s b, (s, b) ∈ blocks /\ access_of s (events v (block_slice insns b)) k x) /\
    (forall s b, (s, b) ∈ blocks -> exists w, outputs' !! s = Some w /\
       forall r, w !! r = last_writer (events v (block_slice insns b)) r) /\
    (forall s, s ∉ blocks.*1 -> outputs' !! s = outputs !! s).
Proof.
  induction blocks as [|[s b] blocks IH]; intros edges outputs Hnd Hr.
  { exists edges, outputs. split_and!; [done| |by intros ?? ?%not_elem_of_nil|done].
    intros k x. split; [by left|]. intros [?|(s & b & Hin & _)]; [done|by apply not_elem_of_nil in Hin]. }
  cbn [flow_blocks]. destruct (Hr s b ltac:(left)) as [H1 H2].
  rewrite block_insns_spec by done. cbn [mbind result_bind]. fold (block_slice insns b).
  rewrite bind_insns_events. apply NoDup_cons in Hnd as [Hs Hnd].
  destruct (bind_events_spec s edges (events v (block_slice insns b)) _ eq_refl) as (_ & Hw & He).
  set (st := foldl bind_event _ _) in *.
  destruct (IH (flow_edges st) (<[s := flow_writers st]> outputs) Hnd) as (edges' & outputs' & -> & Hx & Ho & Hk).
  { intros k b' Hin. apply (Hr k). by right. }
  exists edges', outputs'. split_and!; [done|..].
  - intros k x. rewrite Hx, He. setoid_rewrite elem_of_cons. split.
    + intros [[?|?]|(s' & b' & ? & ?)]; [by left|right; eauto|right; eauto].
    + intros [?|(s' & b' & [[= -> ->]|?] & ?)]; [auto|auto|right; eauto].
  - intros s' b' [[= -> ->]|Hin]%elem_of_cons; [|by apply Ho].
    exists (flow_writers st). split; [|done]. rewrite Hk by done. by rewrite lookup_insert_eq.
  - intros s' [Hne Hns]%not_elem_of_cons. rewrite Hk by done. by rewrite lookup_insert_ne.
Qed.

Lemma intra_block_returns (a : Analysis V) v :
  (forall k b, cfg_nodes a !! k = Some b -> range_ok (instructions a) b) ->
  exists a' outputs, intra_basic_block_data_flow (E := E) a v = Ok (a', outputs) /\
    cfg_nodes a' = cfg_nodes a /\ topological_order a' = topological_order a /\
    super_root a' = super_root a /\ dfg_reverse_edges a' = dfg_reverse_edges a /\
    (forall k x, x ∈ edges_of (dfg_forward_edges a') k <-> exists s b, cfg_nodes a !! s = Some b /\
       access_of s (events v (block_slice (instructions a) b)) k x) /\
    (forall s b, cfg_nodes a !! s = Some b -> exists w, outputs !! s = Some w /\
       forall r, w !! r = last_writer (events v (block_slice (instructions a) b)) r).
Proof.
  intros Hr. unfold intra_basic_block_data_flow.
  destruct (flow_blocks_spec v (instructions a) (bindings (cfg_nodes a)) ∅ ∅) as (edges & outputs & -> & Hx & Ho & _).
  { apply bindings_NoDup. }
  { intros k b Hin%elem_of_bindings. eauto. }
  cbn [mbind result_bind]. do 2 eexists. split; [done|]. cbn. split_and!; [done..| |].
  - intros k x. rewrite Hx. setoid_rewrite elem_of_bindings. split; [|by right].
    intros [Hin|?]; [|done]. unfold edges_of in Hin. rewrite lookup_empty in Hin. cbn in Hin. set_solver.
  - intros s b Hb. apply Ho. by apply elem_of_bindings.
Qed.

(** The first data-flow pass returns for a graph whose blocks are ranges of the
    instructions.  Each access of a resource gets exactly one edge, from the last
    instruction before it in its block that writes the resource or from the Φ
    node of the block, filed under that node; the outputs of a block are the last
    writers in it. *)
Theorem intra_block_edges (a : Analysis V) v :
  (forall k b, cfg_nodes a !! k = Some b -> range_ok (instructions a) b) ->
  exists a' outputs, intra_basic_block_data_flow (E := E) a v = Ok (a', outputs) /\
    cfg_nodes a' = cfg_nodes a /\ topological_order a' = topological_order a /\
    super_root a' = super_root a /\ dfg_reverse_edges a' = dfg_reverse_edges a /\
    (forall k x, x ∈ edges_of (dfg_forward_edges a') k <-> exists s b, cfg_nodes a !! s = Some b /\
       access_of s (events v (block_slice (instructions a) b)) k x) /\
    (forall s b, cfg_nodes a !! s = Some b -> exists w, outputs !! s = Some w /\
       forall r, w !! r = last_writer (events v (block_slice (instructions a) b)) r).
Proof. apply intra_block_returns. Qed.
End Intra.

(** ** The whole of the second pass *)
(** The Φ node of a block with one predecessor. *)
Definition trivial_phi (cfg : gmap Z CfgNode) (k : DfgNode) : Prop :=
  exists b n, k = PhiNode b /\ cfg !! b = Some n /\ length (sources n) = 1%nat.

Lemma edges_of_delete k (m : Edges) j x : x ∈ edges_of (delete k m) j <-> j <> k /\ x ∈ edges_of m j.
Proof.
  unfold edges_of. destruct (decide (j = k)) as [->|Hne].
  - rewrite lookup_delete_eq. cbn. set_solver.
  - rewrite lookup_delete_ne by done. set_solver.
Qed.

Lemma drop_trivial_spec cfg m k x :
  x ∈ edges_of (drop_trivial cfg m) k <-> x ∈ edges_of m k /\ ~ trivial_phi cfg k.
Proof.
  unfold drop_trivial.
  assert (Hgen : forall l m, x ∈ edges_of (foldl (fun m b =>
      if Nat.eqb (length (sources b.2)) 1 then delete (PhiNode b.1) m else m) m l) k <->
    x ∈ edges_of m k /\ ~ exists b n, k = PhiNode b /\ (b, n) ∈ l /\ length (sources n) = 1%nat).
  { clear. induction l as [|[b n] l IH]; intros m; cbn [foldl fst snd].
    { split; [|by intros [? _]]. intros Hx. split; [done|]. by intros (b & n & _ & Hin%not_elem_of_nil & _). }
    rewrite IH. setoid_rewrite elem_of_cons. destruct (Nat.eqb_spec (length (sources n)) 1) as [H1|H1].
    - rewrite edges_of_delete. split.
      + intros [[Hk Hx] Hno]. split; [done|]. intros (b' & n' & Hk' & [[= -> ->]|Hin] & Hl); [done|].
        apply Hno. eauto.
      + intros [Hx Hno]. split; [split; [|done]|].
        * intros ->. apply Hno. exists b, n. auto.
        * intros (b' & n' & Hk & Hin & Hl). apply Hno. eauto 6.
    - split; intros [Hx Hno]; (split; [done|]); intros (b' & n' & Hk & Hin & Hl); apply Hno.
      + destruct Hin as [[= -> ->]|Hin]; [done|]. eauto.
      + eauto 6. }
  rewrite Hgen. unfold trivial_phi. setoid_rewrite elem_of_bindings. done.
Qed.

Lemma reverse_edges_spec forward reverse k x :
  x ∈ edges_of (reverse_edges forward reverse) k <->
  x ∈ edges_of reverse k \/ (destination x = k /\ exists j, x ∈ edges_of forward j).
Proof.
  unfold reverse_edges. fold (all_edges forward). rewrite <- elem_of_all_edges.
  generalize (all_edges forward) as l. intros l. revert reverse.
  induction l as [|e l IH]; intros reverse; cbn [foldl].
  { split; [by left|]. intros [?|[_ Hin]]; [done|by apply not_elem_of_nil in Hin]. }
  rewrite IH, edges_of_insert, elem_of_cons. naive_solver.
Qed.

(** ** Edges by the node they are filed under *)
(** An edge with a destination, a kind and a resource, whatever its source field says. *)
Definition filed (m : Edges) (k d : DfgNode) (kd : DfgEdgeKind) (r : DataResource) : Prop :=
  exists s, mkDfgEdge s d kd r ∈ edges_of m k.

(** Where data that enters a block arrives. *)
Definition arrives (cfg : gmap Z CfgNode) (b : Z) (d : DfgNode) : DfgNode :=
  if Nat.eqb (length (block_sources cfg b)) 1 then d else PhiNode b.

Lemma redirect_arrives cfg b x : redirect b (block_sources cfg b) x =
  mkDfgEdge (source x) (arrives cfg b (destination x)) (kind x) (resource x).
Proof. unfold redirect, arrives. destruct x. by destruct (Nat.eqb _ _). Qed.

Lemma source_of_outputs outputs p r : source_of outputs p r =
  match outputs !! p ≫= fun w => w !! r with Some q => InstructionNode q | None => PhiNode p end.
Proof.
  unfold source_of, edge_source. destruct (outputs !! p) as [w|]; cbn; [|by rewrite lookup_empty].
  by destruct (w !! r).
Qed.

(** What is read before it is written in a block comes from its predecessors. *)
Inductive carried (cfg : gmap Z CfgNode) (outputs : gmap Z (gmap DataResource Z)) (order : list Z) (m : Edges)
    : DfgNode -> DfgNode -> DfgEdgeKind -> DataResource -> Prop :=
| carried_local k d kd r : filed m k d kd r -> carried cfg outputs order m k d kd r
| carried_written b p q d kd r : b ∈ order -> p ∈ block_sources cfg b ->
    (outputs !! p ≫= fun w => w !! r) = Some q -> carried cfg outputs order m (PhiNode b) d kd r ->
    carried cfg outputs order m (InstructionNode q) (arrives cfg b d) kd r
| carried_through b p d kd r : b ∈ order -> p ∈ block_sources cfg b ->
    (outputs !! p ≫= fun w => w !! r) = None -> carried cfg outputs order m (PhiNode b) d kd r ->
    carried cfg outputs order m (PhiNode p) (arrives cfg b d) kd r.

Lemma carried_flows cfg outputs order m k d kd r :
  carried cfg outputs order m k d kd r <-> exists s, flows cfg outputs order m k (mkDfgEdge s d kd r).
Proof.
  split.
  - induction 1 as [k d kd r [s Hs]|b p q d kd r Hb Hp Hq _ [s IH]|b p d kd r Hb Hp Hq _ [s IH]]; exists s.
    1: by apply flow_local.
    all: pose proof (flow_handed _ _ _ _ b p _ Hb Hp IH) as Hh; rewrite redirect_arrives in Hh; cbn in Hh.
    all: by rewrite source_of_outputs, Hq in Hh.
  - intros [s Hs]. remember (mkDfgEdge s d kd r) as x eqn:Hx. revert s d kd r Hx.
    induction Hs as [k x Hs|b p x Hb Hp _ IH]; intros s d kd r Hx; [subst; apply carried_local; by exists s|].
    destruct x as [s0 d0 kd0 r0]. rewrite redirect_arrives in Hx. cbn in Hx |- *. injection Hx as <- <- <- <-.
    specialize (IH _ _ _ _ eq_refl). rewrite source_of_outputs.
    destruct (outputs !! p ≫= _) as [q|] eqn:Hq; [by eapply carried_written|by eapply carried_through].
Qed.

Section Inter.
Context {E V : Type}.

Lemma inter_block_returns (a : Analysis V) outputs :
  let order := topological_order a in
  (forall b, b ∈ order -> is_Some (cfg_nodes a !! b)) ->
  (forall b p, b ∈ order -> p ∈ block_sources (cfg_nodes a) b ->
     p ∈ super_root a :: order /\ is_Some (outputs !! p)) ->
  exists a', inter_basic_block_data_flow (E := E) a outputs = Ok a' /\
    cfg_nodes a' = cfg_nodes a /\ super_root a' = super_root a /\
    (forall k x, x ∈ edges_of (dfg_forward_edges a') k <->
       flows (cfg_nodes a) outputs order (dfg_forward_edges a) k x /\ ~ trivial_phi (cfg_nodes a) k) /\
    (forall k x, x ∈ edges_of (dfg_reverse_edges a') k <->
       x ∈ edges_of (dfg_reverse_edges a) k \/
       (destination x = k /\ exists j, x ∈ edges_of (dfg_forward_edges a') j)).
Proof.
  intros order Hcfg Hp. unfold inter_basic_block_data_flow.
  destruct (propagate_returns (E := E) (cfg_nodes a) outputs order Hcfg (fun b p Hb Hpb => proj2 (Hp b p Hb Hpb))
    (dfg_forward_edges a) (super_root a) (fun b p Hb Hpb => proj1 (Hp b p Hb Hpb))) as (m & Hm & Hfl).
  fold order. rewrite Hm. cbn [mbind result_bind]. eexists. split; [done|]. cbn. split_and!; [done|done|..].
  - intros k x. by rewrite drop_trivial_spec, Hfl.
  - intros k x. by rewrite reverse_edges_spec.
Qed.

(** C35: The second data-flow pass returns.  Read by the node they are filed
    under, which the forward map documents as the source, by destination, kind
    and resource, its edges are exactly these, less those at Φ nodes of blocks
    with one predecessor, which are dropped: the edges of the first pass, and,
    for every edge at the Φ node of a block and every predecessor of the block,
    an edge from the last writer of the resource in the predecessor, or else from
    the Φ node of the predecessor, to the Φ node of the block, or straight to the
    destination where the block has no other predecessor.  The reverse map holds
    the same edges by destination.  The source field of a handed edge is left
    open. *)
Theorem inter_block_edges (a : Analysis V) outputs :
  let order := topological_order a in
  (forall b, b ∈ order -> is_Some (cfg_nodes a !! b)) ->
  (forall b p, b ∈ order -> p ∈ block_sources (cfg_nodes a) b ->
     p ∈ super_root a :: order /\ is_Some (outputs !! p)) ->
  exists a', inter_basic_block_data_flow (E := E) a outputs = Ok a' /\
    (forall k d kd r, filed (dfg_forward_edges a') k d kd r <->
       carried (cfg_nodes a) outputs order (dfg_forward_edges a) k d kd r /\ ~ trivial_phi (cfg_nodes a) k) /\
    (forall k d kd r, filed (dfg_reverse_edges a') k d kd r <->
       filed (dfg_reverse_edges a) k d kd r \/ (d = k /\ exists j, filed (dfg_forward_edges a') j d kd r)).
Proof.
  intros order Hcfg Hp. destruct (inter_block_returns a outputs Hcfg Hp) as (a' & Ha & _ & _ & Hf & Hr).
  exists a'. split_and!; [done| |].
  - intros k d kd r. rewrite carried_flows. unfold filed. setoid_rewrite Hf. naive_solver.
  - intros k d kd r. unfold filed. setoid_rewrite Hr. cbn. naive_solver.
Qed.
End Inter.
