(* ===== verification/AnalysisFacts.v ===== *)
(** * The whole static analysis: [Analysis::from_executable]

    The graph that splitting leaves satisfies what the later passes ask for, so
    the analysis of an executable returns. *)

From Stdlib Require Import String.
From stdpp Require Import gmap strings relations.
From S2P Require Import Prelude Ebpf Program Verifier Error Text Vm BTree Disassembler StaticAnalysis.
From S2P Require Import StaticFacts Components ComponentsInv ComponentsSpec Dominance DominanceFacts DataFlow.
From S2P Require Import DataFlowFacts.

(** ** Blocks no dominance pass has touched *)
Definition untouched (b : CfgNode) : Prop := dominator_parent b = u64_max /\ dominated_children b = [].

Section Untouched.
Context {E : Type} `{Profile}.

Lemma assign_blocks_untouched insns fns nodes : forall edges index blocks,
  assign_blocks (E := E) insns fns nodes edges index = Ok blocks ->
  Forall (fun b => untouched b.2) nodes -> Forall (fun b => untouched b.2) blocks.
Proof.
  induction nodes as [|[start node] rest IH]; intros edges index blocks Ha Hn; cbn [assign_blocks] in Ha.
  { by simplify_eq. }
  apply Forall_cons in Hn as [Hnode Hrest]. apply result_bind_ok in Ha as (b & _ & Ha).
  set (fin := if Nat.eqb _ 0 then _ else _) in Ha. clearbody fin.
  set (fall := match rest with (next, _) :: _ => _ | [] => _ end) in Ha.
  assert (Hf : untouched fall) by (unfold fall; destruct rest as [|[next n] rest']; [done|]; by destruct (bool_decide _)).
  clearbody fall. destruct edges as [|[edge [o targets]] edges'].
  - apply result_bind_ok in Ha as (bl & Hbl & [= <-]). constructor; [done|]. by eapply IH.
  - destruct (edge <=? b); apply result_bind_ok in Ha as (bl & Hbl & [= <-]); (constructor; [done|]); by eapply IH.
Qed.

Lemma link_destinations_untouched source l : forall nodes nodes',
  link_destinations (E := E) nodes source l = Ok nodes' ->
  (forall k b, nodes !! k = Some b -> untouched b) -> forall k b, nodes' !! k = Some b -> untouched b.
Proof.
  induction l as [|d l IH]; intros nodes nodes' Hl Hn; cbn [link_destinations] in Hl; [by simplify_eq|].
  apply result_bind_ok in Hl as (node & Hnode & Hl). destruct (nodes !! d) as [nd|] eqn:Hd; [|done].
  cbn in Hnode. simplify_eq. eapply IH; [exact Hl|].
  intros k b [[<- <-]|[_ Hb]]%lookup_insert_Some; [|eauto]. exact (Hn d _ Hd).
Qed.

Lemma link_cfg_edges_untouched edges : forall nodes nodes',
  link_cfg_edges (E := E) nodes edges false = Ok nodes' ->
  (forall k b, nodes !! k = Some b -> untouched b) -> forall k b, nodes' !! k = Some b -> untouched b.
Proof.
  induction edges as [|[s t] edges IH]; intros nodes nodes' Hl Hn; cbn [link_cfg_edges] in Hl; [by simplify_eq|].
  cbn [mbind result_bind] in Hl. apply result_bind_ok in Hl as (nodes1 & H1 & Hl).
  eapply IH; [exact Hl|]. by eapply link_destinations_untouched.
Qed.
End Untouched.

(** ** The split graph *)
Section Split.
Context {E V : Type} `{Profile}.

Lemma split_untouched (a a' : Analysis V) v :
  laid_out 0 (instructions a) -> Forall (fun i => ptr i < 2 ^ 62) (instructions a) -> cfg_nodes a = ∅ ->
  split_into_basic_blocks (E := E) a false v = Ok a' ->
  super_root a' = super_root a /\ topological_order a' = topological_order a /\
  dfg_reverse_edges a' = dfg_reverse_edges a /\ forall k b, cfg_nodes a' !! k = Some b -> untouched b.
Proof.
  intros Hl Hsmall Hempty Hs. unfold split_into_basic_blocks in Hs. apply result_bind_ok in Hs as ([all edges] & Hscan & Hs).
  apply result_bind_ok in Hs as (blocks & Hb & Hs). apply result_bind_ok in Hs as (nodes & Hn & Hs).
  cbn [mbind result_bind] in Hs. injection Hs as <-. split_and!; [done..|]. cbn [set_cfg cfg_nodes].
  eapply link_cfg_edges_untouched; [exact Hn|].
  assert (Hall : all_default all).
  { destruct (initial_nodes_spec (functions a)) as (Hid & _).
    destruct (scan_spec (E := E) v (function_registry (executable a)) (super_root a) 0 (instructions a) 0
      (initial_nodes (cfg_nodes a) (functions a), ∅)) as (g & Hg & Hd & _);
      [done|lia|done|intros j e He; cbn in He; by rewrite lookup_empty in He|].
    rewrite Hscan in Hg. injection Hg as <-. apply Hd. by rewrite Hempty. }
  assert (Hbl : Forall (fun b => untouched b.2) blocks).
  { eapply assign_blocks_untouched; [exact Hb|]. apply Forall_forall. intros [k n] Hin%elem_of_bindings.
    apply map_lookup_filter_Some in Hin as [Hk _]. by rewrite (Hall k n Hk). }
  intros k b Hk. apply elem_of_list_to_map_2 in Hk. rewrite Forall_forall in Hbl. by apply (Hbl _ Hk).
Qed.

(** Blocks partition the instructions. *)
Lemma blocks_ok_ranges insns transfer tg blocks : forall index,
  blocks_ok insns transfer tg index blocks ->
  (index + length blocks <= length insns)%nat /\
  forall s b, (s, b) ∈ blocks -> range_ok insns b /\ exists j i, insns !! j = Some i /\ ptr i = s.
Proof.
  induction blocks as [|[s b] rest IH]; intros index Hok; cbn [blocks_ok length] in *.
  { split; [lia|]. by intros ?? ?%not_elem_of_nil. }
  destruct Hok as (fin & fi & li & Hni & Hlt & Hfi & Hs & Hli & _ & _ & Hrest).
  destruct (IH fin Hrest) as [Hlen Hin]. apply lookup_lt_Some in Hli as Hfin. split; [lia|].
  intros s' b' [[= -> ->]|Hin']%elem_of_cons; [|auto]. split; [|eauto].
  unfold range_ok. rewrite Hni. cbn. lia.
Qed.

Lemma split_linked v (a : Analysis V) q l : graph_ok v a -> instructions a = l -> super_root a = q ->
  Forall (fun i => ptr i < q) l -> laid_out 0 l -> Z.of_nat (length l) <= q < 2 ^ 62 ->
  (forall k b, cfg_nodes a !! k = Some b -> untouched b) ->
  well_linked (cfg_nodes a) (super_root a) /\ undominated (cfg_nodes a) /\ super_root a <> u64_max /\
  forall k b, cfg_nodes a !! k = Some b -> range_ok (instructions a) b.
Proof.
  intros Hg <- <- Hq Hl Hlen Hun. destruct (blocks_ok_ranges _ _ _ _ _ (graph_blocks _ _ Hg)) as [Hn Hin].
  assert (Hkey : forall k b, cfg_nodes a !! k = Some b -> range_ok (instructions a) b /\ 0 <= k < super_root a).
  { intros k b Hb. apply elem_of_bindings in Hb. destruct (Hin k b Hb) as (Hr & j & i & Hj & <-).
    split; [done|]. pose proof (laid_out_ge _ _ _ _ Hl Hj). rewrite Forall_lookup in Hq.
    specialize (Hq j i Hj). cbn in Hq. lia. }
  split_and!.
  - split.
    + intros u w (n & Hn' & Hw). by eapply (graph_closed _ _ Hg).
    + intros u w n Hw. exact (graph_sources _ _ Hg u w n Hw).
    + destruct (cfg_nodes a !! super_root a) as [b|] eqn:Hb; [|done]. destruct (Hkey _ _ Hb). lia.
    + unfold u64_max. lia.
  - intros k b Hb. destruct (Hkey k b Hb), (Hun k b Hb). split; [unfold u64_max; lia|done].
  - unfold u64_max. lia.
  - intros k b Hb. by destruct (Hkey k b Hb).
Qed.
End Split.

(** ** Labels *)
Section Labels.
Context {V : Type} `{Demangle}.

Lemma label_blocks (a : Analysis V) : super_root (label_basic_blocks a) = super_root a /\
  topological_order (label_basic_blocks a) = topological_order a /\
  instructions (label_basic_blocks a) = instructions a /\
  dfg_forward_edges (label_basic_blocks a) = dfg_forward_edges a /\
  dfg_reverse_edges (label_basic_blocks a) = dfg_reverse_edges a /\
  forall k, exists text, cfg_nodes (label_basic_blocks a) !! k = (fun n => set_label n text) <$> cfg_nodes a !! k.
Proof.
  split_and!; [done..|]. intros k. unfold label_basic_blocks. cbn [set_cfg cfg_nodes].
  set (f := fun pc node => _). assert (Hf : map_imap f (cfg_nodes a) !! k = cfg_nodes a !! k ≫= f k)
    by apply map_lookup_imap. destruct (map_imap f (cfg_nodes a) !! super_root a) as [r|] eqn:Hr.
  - destruct (decide (k = super_root a)) as [->|Hne].
    + exists "super_root". rewrite lookup_insert_eq. rewrite Hf in Hr.
      destruct (cfg_nodes a !! super_root a); [|done]. cbn in *. unfold f in Hr. by simplify_eq.
    + rewrite lookup_insert_ne, Hf by done. destruct (cfg_nodes a !! k); [|by exists ""]. cbn. eauto.
  - rewrite Hf. destruct (cfg_nodes a !! k); [|by exists ""]. cbn. eauto.
Qed.
End Labels.

(** ** Graphs with the same edges *)
Definition same_edges (m m' : gmap Z CfgNode) : Prop :=
  forall k, destinations <$> m !! k = destinations <$> m' !! k.

Lemma same_edges_edge m m' u v : same_edges m m' -> cfg_edge m u v <-> cfg_edge m' u v.
Proof.
  intros Hs. unfold cfg_edge. specialize (Hs u). destruct (m !! u), (m' !! u); cbn in Hs; simplify_eq; [|done].
  split; intros (n & [= <-] & Hd); eexists; (split; [done|]); congruence.
Qed.

Lemma same_edges_walk m m' root x y : same_edges m m' -> walk_avoiding m root x y -> walk_avoiding m' root x y.
Proof.
  intros Hs Hw. induction Hw as [|p y Hp IH Hpy Hne]; [by constructor|].
  econstructor; [exact IH|by apply (same_edges_edge m m')|done].
Qed.

Lemma same_edges_sym m m' : same_edges m m' -> same_edges m' m.
Proof. intros Hs k. by rewrite Hs. Qed.

Lemma same_edges_dominates m m' root x y : same_edges m m' ->
  block_dominates m root x y <-> block_dominates m' root x y.
Proof.
  intros Hs. unfold block_dominates. split; intros Hd Hw; apply Hd; eapply same_edges_walk; try exact Hw.
  - by apply same_edges_sym.
  - done.
Qed.

Lemma same_edges_immediate m m' root d b : same_edges m m' ->
  immediate_dominator m root d b -> immediate_dominator m' root d b.
Proof.
  intros Hs (Hd & Hne & Hall). split_and!; [by apply (same_edges_dominates m m')|done|].
  intros x Hx Hxb. apply (same_edges_dominates m m'); [done|]. apply Hall; [|done].
  by apply (same_edges_dominates m m').
Qed.

Lemma same_edges_reach m m' u v : same_edges m m' -> cfg_reach m u v -> cfg_reach m' u v.
Proof.
  intros Hs Hr. induction Hr as [|x y z Hxy _ IH]; [apply rtc_refl|]. eapply rtc_l; [|exact IH].
  by apply (same_edges_edge m m').
Qed.

(** ** What the search for dominators keeps *)
(** The edges and the instructions of a block. *)
Definition same_links (n n' : CfgNode) : Prop :=
  sources n' = sources n /\ destinations n' = destinations n /\ node_instructions n' = node_instructions n.
Definition keeps_links (m m' : gmap Z CfgNode) : Prop := forall k, option_Forall2 same_links (m !! k) (m' !! k).

#[export] Instance same_links_preorder : PreOrder same_links.
Proof. split; [done|]. intros x y z (? & ? & ?) (? & ? & ?). split_and!; congruence. Qed.

#[export] Instance keeps_links_preorder : PreOrder keeps_links.
Proof.
  split; [intros m k; reflexivity|]. intros m m' m'' H1 H2 k. etransitivity; [apply H1|apply H2].
Qed.

Lemma keeps_insert m k n n' : m !! k = Some n -> same_links n n' -> keeps_links m (<[k := n']> m).
Proof.
  intros Hn Hs j. destruct (decide (j = k)) as [->|Hj]; [|by rewrite lookup_insert_ne].
  rewrite Hn, lookup_insert_eq. by constructor.
Qed.

Lemma keeps_is_Some m m' k : keeps_links m m' -> is_Some (m' !! k) <-> is_Some (m !! k).
Proof. intros Hm. specialize (Hm k). inversion Hm; [|done]. split; eauto. Qed.

Lemma keeps_lookup m m' k n' : keeps_links m m' -> m' !! k = Some n' -> exists n, m !! k = Some n /\ same_links n n'.
Proof. intros Hm Hn. specialize (Hm k). rewrite Hn in Hm. inversion Hm. eauto. Qed.

Lemma dominance_pass_keeps {E} fuel order : forall cfg t cfg' t',
  dominance_pass (E := E) fuel order cfg t = Ok (cfg', t') -> keeps_links cfg cfg'.
Proof.
  induction order as [|b order IH]; intros cfg t cfg' t'; cbn [dominance_pass]; [by intros [= -> _]|].
  intros (node & Hn%or_panic_ok & (parent & _ & Hp)%result_bind_ok)%result_bind_ok.
  destruct (negb _); [|by eapply IH]. etransitivity; [|by eapply IH]. by eapply keeps_insert; [exact Hn|repeat split].
Qed.

Lemma dominance_loop_keeps {E} passes fuel order : forall cfg cfg',
  dominance_loop (E := E) passes fuel order cfg = Ok cfg' -> keeps_links cfg cfg'.
Proof.
  induction passes as [|passes IH]; intros cfg cfg'; cbn [dominance_loop]; [done|].
  intros ([cfg1 t] & Hp%dominance_pass_keeps & Hr)%result_bind_ok. destruct t; [by simplify_eq|].
  etransitivity; [exact Hp|by apply IH].
Qed.

Lemma collect_children_keeps {E} order : forall cfg cfg',
  collect_children (E := E) order cfg = Ok cfg' -> keeps_links cfg cfg'.
Proof.
  induction order as [|b order IH]; intros cfg cfg'; cbn [collect_children]; [by intros [= ->]|].
  intros (node & _ & Hp)%result_bind_ok. destruct (_ =? u64_max); [done|]. destruct (b =? _); [by apply IH|].
  apply result_bind_ok in Hp as (parent & Hn%or_panic_ok & Hp).
  etransitivity; [|by eapply IH]. by eapply keeps_insert; [exact Hn|repeat split].
Qed.

Lemma dominance_keeps {E V} (a a' : Analysis V) :
  control_flow_graph_dominance_hierarchy (E := E) a = Ok a' ->
  keeps_links (cfg_nodes a) (cfg_nodes a') /\ instructions a' = instructions a /\
  super_root a' = super_root a /\ topological_order a' = topological_order a /\
  dfg_reverse_edges a' = dfg_reverse_edges a.
Proof.
  unfold control_flow_graph_dominance_hierarchy. destruct (bool_decide _); [by intros [= ->]|].
  intros (root & Hroot%or_panic_ok & (cfg & Hl%dominance_loop_keeps & (cfg' & Hc%collect_children_keeps & [= <-])
    %result_bind_ok)%result_bind_ok)%result_bind_ok.
  split_and!; [|done..]. etransitivity; [|exact Hc]. etransitivity; [|exact Hl].
  by eapply keeps_insert; [exact Hroot|repeat split].
Qed.

(** ** Well-formed data flow *)
(** A node of the data-flow graph is an instruction of the program or a block. *)
Definition node_of (insns : list Insn) (cfg : gmap Z CfgNode) (k : DfgNode) : Prop :=
  match k with
  | InstructionNode p => exists i, i ∈ insns /\ ptr i = p
  | PhiNode b => is_Some (cfg !! b)
  end.
Definition well_formed_edge (insns : list Insn) (cfg : gmap Z CfgNode) (k : DfgNode) (x : DfgEdge) : Prop :=
  node_of insns cfg k /\ node_of insns cfg (source x) /\ node_of insns cfg (destination x).

Lemma event_insn v insns b i o r : (i, o, r) ∈ events v (block_slice insns b) -> i ∈ insns.
Proof.
  unfold events. intros (i' & Hin & Hi)%list_elem_of_bind. apply list_elem_of_fmap in Hin as (a & [= -> _ _] & _).
  by apply subseteq_take, subseteq_drop in Hi.
Qed.

(** The last writer in part of a block is an instruction. *)
Lemma last_writer_insn v insns b pre post r p : events v (block_slice insns b) = pre ++ post ->
  last_writer pre r = Some p -> exists i, i ∈ insns /\ ptr i = p.
Proof.
  intros He Hp. unfold last_writer in Hp. apply last_Some_elem_of in Hp.
  apply list_elem_of_fmap in Hp as ([[i o] r'] & -> & [_ Hin]%list_elem_of_filter). exists i. split; [|done].
  eapply (event_insn v insns b i o r'). rewrite He. apply elem_of_app. by left.
Qed.

Lemma access_well_formed v insns cfg s b k x : cfg !! s = Some b ->
  access_of s (events v (block_slice insns b)) k x -> well_formed_edge insns cfg k x.
Proof.
  intros Hb (pre & i & o & r & post & He & -> & ->).
  assert (Hk : node_of insns cfg (writer_node s pre r)).
  { unfold writer_node. destruct (last_writer pre r) as [p|] eqn:Hp; cbn; [|eauto].
    exact (last_writer_insn v insns b pre _ r p He Hp). }
  split_and!; [done|done|]. exists i. split; [|done]. apply (event_insn v insns b i o r). rewrite He.
  apply elem_of_app. right. by left.
Qed.

(** Handing edges to predecessors keeps them well formed. *)
Lemma flows_well_formed insns cfg outputs order m :
  (forall k x, x ∈ edges_of m k -> well_formed_edge insns cfg k x) ->
  (forall b p, b ∈ order -> p ∈ block_sources cfg b -> is_Some (cfg !! p)) ->
  (forall b, b ∈ order -> is_Some (cfg !! b)) ->
  (forall p w r q, is_Some (cfg !! p) -> outputs !! p = Some w -> w !! r = Some q ->
     exists i, i ∈ insns /\ ptr i = q) ->
  forall k x, flows cfg outputs order m k x -> well_formed_edge insns cfg k x.
Proof.
  intros Hm Hsrc Ho Hw k x Hf. induction Hf as [k x Hx|b p e Hb Hp _ (_ & Hs & Hd)]; [auto|].
  assert (Hkey : node_of insns cfg (source_of outputs p (resource e))).
  { pose proof (Hsrc b p Hb Hp) as Hpc. unfold source_of, edge_source.
    destruct (outputs !! p) as [w|] eqn:Hout; cbn [default from_option]; [|by rewrite lookup_empty].
    unfold id. destruct (w !! resource e) as [q|] eqn:Hq; cbn; [|done]. exact (Hw p w _ q Hpc Hout Hq). }
  split; [done|]. unfold redirect. destruct (Nat.eqb _ _); cbn; [done|]. split; [done|]. exact (Ho b Hb).
Qed.

(** ** The analysis *)
Section FromExecutable.
Context {E V : Type} {P : Profile} {B : ByteOrder} {BL : ByteOrderLaws} {M : Murmur3} {D : Demangle}.

(** What the passes on the control flow leave for those on the data flow. *)
Record flow_ready (a : Analysis V) : Prop := {
  fr_ranges : forall k b, cfg_nodes a !! k = Some b -> range_ok (instructions a) b;
  fr_order : forall b, b ∈ topological_order a -> is_Some (cfg_nodes a !! b);
  fr_sources : forall b p, b ∈ topological_order a -> p ∈ block_sources (cfg_nodes a) b ->
    p ∈ super_root a :: topological_order a /\ is_Some (cfg_nodes a !! p)
}.

Lemma intra_keeps (a a' : Analysis V) v outputs :
  intra_basic_block_data_flow (E := E) a v = Ok (a', outputs) -> instructions a' = instructions a.
Proof. unfold intra_basic_block_data_flow. by intros ([edges deps] & _ & [= <- _])%result_bind_ok. Qed.

Lemma inter_keeps (a a' : Analysis V) outputs :
  inter_basic_block_data_flow (E := E) a outputs = Ok a' -> instructions a' = instructions a.
Proof. unfold inter_basic_block_data_flow. by intros (forward & _ & [= <-])%result_bind_ok. Qed.

Lemma data_flow_returns (a : Analysis V) v : flow_ready a -> dfg_reverse_edges a = ∅ ->
  exists a', (r ← intra_basic_block_data_flow (E := E) a v; inter_basic_block_data_flow r.1 r.2) = Ok a' /\
    cfg_nodes a' = cfg_nodes a /\ super_root a' = super_root a /\ instructions a' = instructions a /\
    (forall k x, x ∈ edges_of (dfg_reverse_edges a') k <->
      destination x = k /\ exists j, x ∈ edges_of (dfg_forward_edges a') j) /\
    (forall k x, x ∈ edges_of (dfg_forward_edges a') k -> well_formed_edge (instructions a) (cfg_nodes a) k x).
Proof.
  intros Hf Hrev. destruct (intra_block_returns (E := E) a v (fr_ranges _ Hf))
    as (a1 & outputs & Hi1 & Hc & Ho & Hs & Hr & He & Hw). pose proof (intra_keeps _ _ _ _ Hi1) as Hin1.
  rewrite Hi1. cbn [mbind result_bind fst snd].
  destruct (inter_block_returns (E := E) a1 outputs) as (a2 & Hi & Hc2 & Hs2 & Hfw & Hrv).
  - intros b. rewrite Ho, Hc. apply (fr_order _ Hf).
  - intros b p. rewrite Ho, Hc, Hs. intros Hb Hp. destruct (fr_sources _ Hf b p Hb Hp) as [Hin [n Hn]].
    split; [done|]. destruct (Hw p n Hn) as (w & -> & _). eauto.
  - exists a2. split_and!; [done|by rewrite Hc2|by rewrite Hs2|by rewrite (inter_keeps _ _ _ Hi)| |].
    + intros k x. rewrite Hrv, Hr, Hrev. unfold edges_of at 1. rewrite lookup_empty. cbn. set_solver.
    + intros k x [Hfl _]%Hfw. rewrite Hc, Ho in Hfl. revert k x Hfl. apply flows_well_formed.
      * intros k x (s & b & Hb & Hx)%He. by eapply access_well_formed.
      * intros b p Hb Hp. exact (proj2 (fr_sources _ Hf b p Hb Hp)).
      * exact (fr_order _ Hf).
      * intros p w r q [n Hn] Hp Hq. destruct (Hw p n Hn) as (w' & Hw' & Hlast). rewrite Hp in Hw'.
        injection Hw' as <-. rewrite Hlast in Hq.
        exact (last_writer_insn v (instructions a) n _ [] r q (eq_sym (app_nil_r _)) Hq).
Qed.

(** Labels do not matter to the passes on the data flow. *)
Lemma label_flow_ready (a : Analysis V) : flow_ready a -> flow_ready (label_basic_blocks a).
Proof.
  intros [Hr Ho Hs]. destruct (label_blocks a) as (Hsr & Hto & Hin & _ & _ & Hl).
  assert (Hlk : forall k b, cfg_nodes (label_basic_blocks a) !! k = Some b -> exists b0 text,
    cfg_nodes a !! k = Some b0 /\ b = set_label b0 text).
  { intros k b Hb. destruct (Hl k) as [text Ht]. rewrite Ht in Hb. apply fmap_Some in Hb as (b0 & Hb0 & ->). eauto. }
  assert (His : forall k, is_Some (cfg_nodes (label_basic_blocks a) !! k) <-> is_Some (cfg_nodes a !! k)).
  { intros k. destruct (Hl k) as [text ->]. apply fmap_is_Some. }
  split.
  - intros k b Hb. destruct (Hlk k b Hb) as (b0 & text & Hb0 & ->). rewrite Hin. exact (Hr k b0 Hb0).
  - intros b. rewrite Hto, His. apply Ho.
  - intros b p Hb Hp. rewrite Hto, Hsr, His. rewrite Hto in Hb. apply (Hs b p Hb).
    unfold block_sources in *. destruct (Hl b) as [text Ht]. rewrite Ht in Hp. by destruct (cfg_nodes a !! b).
Qed.

(** The blocks after the search for components are the blocks and the super root. *)
Lemma components_keys {a a1 : Analysis V} {topo entries k} : well_linked (cfg_nodes a) (super_root a) ->
  componentised a a1 topo entries ->
  is_Some (cfg_nodes a1 !! k) <-> k = super_root a \/ is_Some (cfg_nodes a !! k).
Proof.
  intros Hwl Hco. destruct (decide (k = super_root a)) as [->|Hne'].
  - rewrite (co_root _ _ _ _ Hco). split; [by left|eauto].
  - rewrite (co_blocks _ _ _ _ Hco k Hne'), fmap_is_Some. naive_solver.
Qed.

(** After the passes on the control flow those on the data flow can run. *)
Lemma control_flow_ready (a a1 a2 : Analysis V) :
  well_linked (cfg_nodes a) (super_root a) ->
  (forall k b, cfg_nodes a !! k = Some b -> range_ok (instructions a) b) -> topological_order a = [] ->
  dfg_reverse_edges a = ∅ ->
  control_flow_graph_tarjan (E := E) a = Ok a1 -> control_flow_graph_dominance_hierarchy (E := E) a1 = Ok a2 ->
  flow_ready a2 /\ dfg_reverse_edges a2 = ∅.
Proof.
  intros Hwl Hr Hto Hrev Ht Hd. destruct (dominance_keeps _ _ Hd) as (Hk & Hin & Hs2 & Hto2 & Hrv2).
  destruct (decide (cfg_nodes a = ∅)) as [He|Hne].
  { unfold control_flow_graph_tarjan in Ht. rewrite bool_decide_true in Ht by done. simplify_eq. rewrite Hrv2.
    split; [|done]. split; [|by rewrite Hto2, Hto; intros ? ?%not_elem_of_nil|
      by rewrite Hto2, Hto; intros ?? ?%not_elem_of_nil].
    intros k b (n & Hn & _)%(keeps_lookup _ _ _ _ Hk). by rewrite He, lookup_empty in Hn. }
  destruct (tarjan_returns (E := E) a Hwl Hne) as (a1' & topo & entries & Ht' & Hco). rewrite Ht in Ht'. simplify_eq.
  destruct (co_rest _ _ _ _ Hco) as (_ & Hin1 & Hs1 & _ & Hrv1). split; [|by rewrite Hrv2, Hrv1].
  assert (Hblocks : forall k, is_Some (cfg_nodes a2 !! k) <-> k = super_root a \/ is_Some (cfg_nodes a !! k))
    by (intros k; rewrite (keeps_is_Some _ _ k Hk); apply (components_keys Hwl Hco)).
  split.
  - intros k b (n1 & Hn1 & _ & _ & Hni)%(keeps_lookup _ _ _ _ Hk). unfold range_ok. rewrite Hni, Hin, Hin1.
    destruct (decide (k = super_root a)) as [->|Hne'].
    + rewrite (co_root _ _ _ _ Hco) in Hn1. simplify_eq. cbn. lia.
    + rewrite (co_blocks _ _ _ _ Hco k Hne') in Hn1. apply fmap_Some in Hn1 as (b0 & Hb0 & ->).
      exact (Hr k b0 Hb0).
  - intros b Hb. rewrite Hto2, (order_elem Hco), elem_of_node_keys in Hb. apply Hblocks. by right.
  - intros b p Hb Hp. rewrite Hto2 in Hb |- *. rewrite Hs2, Hs1.
    pose proof (proj1 (order_elem Hco b) Hb) as Hbk. pose proof (key_not_root Hwl b Hbk) as Hbr.
    unfold block_sources in Hp. destruct (cfg_nodes a2 !! b) as [nb|] eqn:Hnb; [|by apply not_elem_of_nil in Hp].
    destruct (keeps_lookup _ _ _ _ Hk Hnb) as (n1 & Hn1 & Hsrc & _). rewrite Hsrc in Hp.
    apply (co_sources Hwl Hco p b n1 Hbr Hn1), (co_edge Hwl Hco) in Hp.
    rewrite elem_of_cons, (order_elem Hco), elem_of_node_keys, Hblocks.
    destruct Hp as [(n & Hn' & _)|[-> _]]; [split; right; eauto|split; by left].
Qed.

(** The passes on the control flow. *)
Lemma control_flow_returns (a : Analysis V) :
  well_linked (cfg_nodes a) (super_root a) -> undominated (cfg_nodes a) -> super_root a <> u64_max ->
  (forall k b, cfg_nodes a !! k = Some b -> range_ok (instructions a) b) -> topological_order a = [] ->
  dfg_reverse_edges a = ∅ ->
  (forall v, is_Some (cfg_nodes a !! v) -> entered_below (cfg_nodes a) v) ->
  exists a', (r ← control_flow_graph_tarjan (E := E) a; control_flow_graph_dominance_hierarchy r) = Ok a' /\
    flow_ready a' /\ dfg_reverse_edges a' = ∅ /\
    (forall k node, cfg_nodes a' !! k = Some node -> k <> super_root a' ->
       immediate_dominator (cfg_nodes a') (super_root a') (dominator_parent node) k) /\
    (forall k, is_Some (cfg_nodes a' !! k) -> cfg_reach (cfg_nodes a') (super_root a') k).
Proof.
  intros Hwl Hun Hsr Hr Hto Hrev Hent. destruct (decide (cfg_nodes a = ∅)) as [He|Hne].
  { exists a. unfold control_flow_graph_tarjan, control_flow_graph_dominance_hierarchy.
    rewrite bool_decide_true by done. cbn [mbind result_bind]. rewrite bool_decide_true by done.
    assert (Hno : forall k b, cfg_nodes a !! k <> Some b) by (intros k b; by rewrite He, lookup_empty).
    split_and!; [done| |done| |].
    - split; [by intros k b Hb%Hno|by rewrite Hto; intros ? ?%not_elem_of_nil|
        by rewrite Hto; intros ?? ?%not_elem_of_nil].
    - by intros k node Hb%Hno.
    - by intros k [b Hb%Hno]. }
  destruct (tarjan_returns (E := E) a Hwl Hne) as (a1 & topo & entries & Ht & Hco).
  rewrite Ht. cbn [mbind result_bind].
  destruct (dominance_returns (E := E) Hwl Hco Hent Hun Hsr)
    as (a2 & Hd & _ & _ & Hs2 & _ & _ & Hk & Hn & _).
  destruct (co_rest _ _ _ _ Hco) as (_ & _ & Hs1 & _).
  assert (Hse : same_edges (cfg_nodes a1) (cfg_nodes a2)).
  { intros k. specialize (Hk k). destruct (cfg_nodes a2 !! k) as [n2|] eqn:Hn2.
    - destruct (Hn k n2 Hn2) as (n1 & -> & _ & Hdst & _). cbn. by rewrite Hdst.
    - destruct (cfg_nodes a1 !! k); [|done]. by destruct (proj2 Hk ltac:(eauto)). }
  destruct (control_flow_ready a a1 a2 Hwl Hr Hto Hrev Ht Hd) as [Hfr Hrv].
  exists a2. rewrite Hs2, Hs1. split_and!; [done|done|done| |].
  - intros k node Hnode Hkr. destruct (Hn k node Hnode) as (n1 & _ & _ & _ & _ & _ & Himm & _).
    eapply same_edges_immediate; [exact Hse|auto].
  - intros k. rewrite Hk. intros [->|Hkk]%(components_keys Hwl Hco); [apply rtc_refl|]. eapply same_edges_reach; [exact Hse|].
    apply (super_root_reaches Hwl Hco). by apply elem_of_node_keys.
Qed.

(** The blocks of an executable, ready for the passes on the control flow. *)
Lemma split_returns (e : Executable V) vaddr program :
  get_text_bytes (E := E) e = Ok (vaddr, program) ->
  Z.of_nat (length program) mod 8 = 0 -> Z.of_nat (length program) < 2 ^ 62 ->
  exists a0 a1, analysis_new (E := E) e = Ok a0 /\
    split_into_basic_blocks (E := E) a0 false (sbpf_version e) = Ok a1 /\
    well_linked (cfg_nodes a1) (super_root a1) /\ undominated (cfg_nodes a1) /\ super_root a1 <> u64_max /\
    (forall k b, cfg_nodes a1 !! k = Some b -> range_ok (instructions a1) b) /\ topological_order a1 = [] /\
    dfg_reverse_edges a1 = ∅.
Proof.
  intros Ht Hmod Hlen.
  destruct (analysis_new_returns (E := E) e vaddr program Ht Hmod Hlen) as (l & q & Hnew & _ & Hl & Hsm & Hq & Hfq).
  set (a0 := mkAnalysis e l _ _ _ _ _ _ _) in *.
  destruct (split_graph (E := E) a0 (sbpf_version e) Hl Hsm eq_refl) as (a1 & Hsp & Hi1 & _ & Hg).
  destruct (split_untouched (E := E) a0 a1 _ Hl Hsm eq_refl Hsp) as (Hs1 & Hto1 & Hrv1 & Hun).
  destruct (split_linked _ a1 q l Hg Hi1 Hs1 Hfq Hl Hq Hun) as (Hwl & Hund & Hsr & Hr).
  exists a0, a1. by split_and!.
Qed.

(** The passes on the data flow of an executable whose control flow was analysed. *)
Lemma from_executable_flow (e : Executable V) a1 a2 a3 :
  (a0 ← analysis_new (E := E) e; split_into_basic_blocks a0 false (sbpf_version e)) = Ok a1 ->
  control_flow_graph_tarjan (E := E) a1 = Ok a2 -> control_flow_graph_dominance_hierarchy (E := E) a2 = Ok a3 ->
  from_executable (E := E) e =
    (r ← intra_basic_block_data_flow (E := E) (label_basic_blocks a3) (sbpf_version e);
     inter_basic_block_data_flow r.1 r.2).
Proof.
  intros (a0 & Hnew & Hsp)%result_bind_ok Ht Hd. unfold from_executable. rewrite Hnew. cbn [mbind result_bind].
  rewrite Hsp. cbn [mbind result_bind]. rewrite Ht. cbn [mbind result_bind]. rewrite Hd. cbn [mbind result_bind].
  by destruct (intra_basic_block_data_flow _ _) as [[? ?]| |].
Qed.

(** C34: The static analysis of an executable whose text is whole instructions
    and whose blocks are each reached from an entry that does not come after
    them returns without a panic.  Every block is reached from the super root,
    the parent of every other block is its immediate dominator, and the reverse
    data-flow edges are the forward ones by destination. *)
Theorem analysis_returns (e : Executable V) vaddr program :
  get_text_bytes (E := E) e = Ok (vaddr, program) ->
  Z.of_nat (length program) mod 8 = 0 -> Z.of_nat (length program) < 2 ^ 62 ->
  (forall a a', analysis_new (E := E) e = Ok a ->
     split_into_basic_blocks (E := E) a false (sbpf_version e) = Ok a' ->
     forall v, is_Some (cfg_nodes a' !! v) -> entered_below (cfg_nodes a') v) ->
  exists a, from_executable (E := E) e = Ok a /\
    (forall k, is_Some (cfg_nodes a !! k) -> cfg_reach (cfg_nodes a) (super_root a) k) /\
    (forall k node, cfg_nodes a !! k = Some node -> k <> super_root a ->
       immediate_dominator (cfg_nodes a) (super_root a) (dominator_parent node) k) /\
    (forall k x, x ∈ edges_of (dfg_reverse_edges a) k <->
       destination x = k /\ exists j, x ∈ edges_of (dfg_forward_edges a) j).
Proof.
  intros Ht Hmod Hlen Hent.
  destruct (split_returns e vaddr program Ht Hmod Hlen)
    as (a0 & a1 & Hnew & Hsp & Hwl & Hund & Hsr & Hr & Hto & Hrv).
  destruct (control_flow_returns a1 Hwl Hund Hsr Hr Hto Hrv (Hent a0 a1 Hnew Hsp))
    as (a3 & (a2 & Hta & Hd)%result_bind_ok & Hfr & Hrv3 & Himm & Hreach).
  destruct (label_blocks a3) as (Hls & _ & _ & _ & Hlr & Hlk).
  destruct (data_flow_returns (label_basic_blocks a3) (sbpf_version e) (label_flow_ready a3 Hfr))
    as (a4 & Hdf & Hc & Hs & _ & Hrev & _); [by rewrite Hlr|].
  assert (Hse : same_edges (cfg_nodes a3) (cfg_nodes a4)).
  { intros k. rewrite Hc. destruct (Hlk k) as [text ->]. by destruct (cfg_nodes a3 !! k). }
  exists a4. split_and!; [| | |done].
  - rewrite (from_executable_flow e a1 a2 a3); [exact Hdf| |done|done]. by rewrite Hnew.
  - intros k. rewrite Hs, Hls, Hc. destruct (Hlk k) as [text Ht']. rewrite Ht', fmap_is_Some. intros Hk.
    rewrite <- Hc. eapply same_edges_reach; [exact Hse|auto].
  - intros k node. rewrite Hs, Hls, Hc. destruct (Hlk k) as [text Ht']. rewrite Ht'.
    intros (n & Hn & ->)%fmap_Some Hk. rewrite <- Hc. eapply same_edges_immediate; [exact Hse|]. exact (Himm k n Hn Hk).
Qed.

(** C36: The data-flow graph of an analysed executable is well formed: whenever
    the analysis of an executable of whole instructions returns, every edge of
    both edge maps, with the node it is filed under, leads between instructions
    of the program and blocks of the control-flow graph, and the reverse edges
    are the forward ones by destination. *)
Theorem data_flow_well_formed (e : Executable V) vaddr program a :
  get_text_bytes (E := E) e = Ok (vaddr, program) ->
  Z.of_nat (length program) mod 8 = 0 -> Z.of_nat (length program) < 2 ^ 62 ->
  from_executable (E := E) e = Ok a ->
  (forall k x, x ∈ edges_of (dfg_forward_edges a) k -> well_formed_edge (instructions a) (cfg_nodes a) k x) /\
  (forall k x, x ∈ edges_of (dfg_reverse_edges a) k -> well_formed_edge (instructions a) (cfg_nodes a) k x) /\
  (forall k x, x ∈ edges_of (dfg_reverse_edges a) k <->
     destination x = k /\ exists j, x ∈ edges_of (dfg_forward_edges a) j).
Proof.
  intros Ht Hmod Hlen Ha.
  destruct (split_returns e vaddr program Ht Hmod Hlen) as (a0 & a1 & Hnew & Hsp & Hwl & _ & _ & Hr & Hto & Hrv).
  pose proof Ha as Hflow. unfold from_executable in Hflow. rewrite Hnew in Hflow. cbn [mbind result_bind] in Hflow.
  rewrite Hsp in Hflow. cbn [mbind result_bind] in Hflow.
  apply result_bind_ok in Hflow as (a2 & Hta & (a3 & Hd & _)%result_bind_ok).
  destruct (control_flow_ready a1 a2 a3 Hwl Hr Hto Hrv Hta Hd) as [Hfr Hrv3].
  destruct (label_blocks a3) as (_ & _ & _ & _ & Hlr & _).
  destruct (data_flow_returns (label_basic_blocks a3) (sbpf_version e) (label_flow_ready a3 Hfr))
    as (a4 & Hdf & Hc & _ & Hin & Hrev & Hwf); [by rewrite Hlr|].
  rewrite (from_executable_flow e a1 a2 a3) in Ha; [|by rewrite Hnew|done|done].
  rewrite Hdf in Ha. simplify_eq. rewrite <- Hin, <- Hc in Hwf. split_and!; [done| |done].
  intros k x (<- & j & Hj)%Hrev. destruct (Hwf j x Hj) as (_ & Hs & Hdst). by split_and!.
Qed.
End FromExecutable.
