(* ===== verification/Aarch64.v ===== *)
(** * The AArch64 encoder: [src/casestudy/sbpf/src/aarch64.rs]

    The instruction formats, the constructors and [emit].  Registers are the
    numbers the source names them by; a field keeps the name it has in the
    source behind a prefix for its format. *)

From stdpp Require Import strings.
From S2P Require Import Prelude Ebpf Program Error Vm X86 PageAllocator JitProgram.

Definition X0 : Z := 0.
Definition X1 : Z := 1.
Definition X2 : Z := 2.
Definition X3 : Z := 3.
Definition X4 : Z := 4.
Definition X5 : Z := 5.
Definition X6 : Z := 6.
Definition X7 : Z := 7.
Definition X8 : Z := 8.
Definition XR : Z := X8.
Definition X9 : Z := 9.
Definition X10 : Z := 10.
Definition X11 : Z := 11.
Definition X12 : Z := 12.
Definition X13 : Z := 13.
Definition X14 : Z := 14.
Definition X15 : Z := 15.
Definition X19 : Z := 19.
Definition X20 : Z := 20.
Definition X21 : Z := 21.
Definition X22 : Z := 22.
Definition X23 : Z := 23.
Definition X24 : Z := 24.
Definition X25 : Z := 25.
Definition X26 : Z := 26.
Definition X27 : Z := 27.
Definition X28 : Z := 28.
Definition FP : Z := 29.
Definition LR : Z := 30.
Definition SP_XZR : Z := 31.

Definition ARGUMENT_REGISTERS : list Z := [X0; X1; X2; X3; X4; X5; X6; X7].
Definition CALLER_SAVED_REGISTERS : list Z := [X9; X10; X11; X12; X13; X14; X15].
Definition CALLEE_SAVED_REGISTERS : list Z := [X19; X20; X21; X22; X23; X24; X25; X26; X27; X28; LR; FP].

Inductive ShiftType := LSL.
Definition shift_type_u32 (s : ShiftType) : Z := match s with LSL => 0 end.

Inductive Condition := EQ | NE | CS | CC | HI | LS | GE | LT | GT | LE.
Definition condition_u8 (c : Condition) : Z :=
  match c with
  | EQ => 0 | NE => 1 | CS => 2 | CC => 3 | HI => 8 | LS => 9 | GE => 10 | LT => 11 | GT => 12 | LE => 13
  end.
Definition HS : Condition := CS.
Definition LO : Condition := CC.

Record ARM64BitwiseImm := mkBitwiseImm { bw_immr : Z; bw_imms : Z; bw_n : Z }.
Definition ONE : ARM64BitwiseImm := mkBitwiseImm 0 0 1.

Inductive ARM64MemoryOperand :=
| OffsetScaled (imm12 : Z)
| Offset (imm9 : Z)
| OffsetPreIndex (imm9 : Z)
| OffsetPostIndex (imm9 : Z)
| OffsetIndexShift (idx_reg : Z) (should_shift : bool).

Record ARM64InstructionLogicalShiftedRegister := mkShiftedRegister {
  sr_size : OperandSize;
  sr_opcode : Z;
  sr_n : Z;
  sr_shift_type : ShiftType;
  sr_dest : Z;
  sr_src1 : Z;
  sr_src2 : Z;
  sr_imm6 : Z
}.

Record ARM64InstructionDataProcessing := mkDataProcessing {
  dp_size : OperandSize;
  dp_opcode : Z;
  dp_dest : Z;
  dp_src1 : Z;
  dp_src2 : Z;
  dp_src3 : Z;
  dp_o0 : Z
}.

Record ARM64InstructionAddSubImm := mkAddSubImm {
  as_size : OperandSize;
  as_opcode : Z;
  as_sets_flags : Z;
  as_shift_mode : Z;
  as_dest : Z;
  as_src : Z;
  as_imm12 : Z
}.

Record ARM64InstructionLogicalImm := mkLogicalImm {
  li_size : OperandSize;
  li_opcode : Z;
  li_n : Z;
  li_dest : Z;
  li_src : Z;
  li_immr : Z;
  li_imms : Z
}.

Record ARM64InstructionWideImm := mkWideImm {
  wi_size : OperandSize;
  wi_opcode : Z;
  wi_hw : Z;
  wi_dest : Z;
  wi_imm16 : Z
}.

Record ARM64InstructionConditionalBranch := mkConditionalBranch { cb_cond : Z; cb_imm19 : Z }.
Record ARM64InstructionImm26 := mkImm26 { br_opcode : Z; br_imm26 : Z }.
Record ARM64InstructionBLR := mkBLR { blr_target : Z }.

Record ARM64InstructionLoadStore := mkLoadStore {
  ls_size : OperandSize;
  ls_data : Z;
  ls_base : Z;
  ls_mem : ARM64MemoryOperand
}.

Inductive ARM64Instruction :=
| LogicalRegister (s : ARM64InstructionLogicalShiftedRegister)
| AddSubRegister (s : ARM64InstructionLogicalShiftedRegister)
| AddSubImm (s : ARM64InstructionAddSubImm)
| ConditionalBranch (s : ARM64InstructionConditionalBranch)
| LogicalImm (s : ARM64InstructionLogicalImm)
| BitfieldImm (s : ARM64InstructionLogicalImm)
| MovWideImm (s : ARM64InstructionWideImm)
| DataProcessing1Src (s : ARM64InstructionDataProcessing)
| DataProcessing2Src (s : ARM64InstructionDataProcessing)
| DataProcessing3Src (s : ARM64InstructionDataProcessing)
| BranchImm26 (s : ARM64InstructionImm26)
| BLR (s : ARM64InstructionBLR)
| Load (s : ARM64InstructionLoadStore)
| Store (s : ARM64InstructionLoadStore)
| RET.

(** ** The word of an instruction *)
(** [((value & (1 << bits) - 1) as u32) << position] *)
Definition place (value bits position : Z) : Z := Z.shiftl (Z.land value (Z.ones bits)) position.
(** A number placed at a bit, as [u32]. *)
Definition at_bit (value position : Z) : Z := as_u 32 (Z.shiftl value position).

(** The width bit [sf]. *)
Definition sf (size : OperandSize) : Z := if size_eqb size S64 then 1 else 0.

(** [ins |= ...] *)
Definition lor_all (l : list Z) : Z := foldl Z.lor 0 l.

Definition shifted_register_word (add_sub : bool) (s : ARM64InstructionLogicalShiftedRegister) : Z :=
  lor_all [place (sr_dest s) 5 0; place (sr_src1 s) 5 5; place (sr_src2 s) 5 16; place (sr_imm6 s) 6 10;
    place (sr_n s) 1 21; at_bit (shift_type_u32 (sr_shift_type s)) 22; place (sr_opcode s) 2 29;
    at_bit (if add_sub then 0xb else 0xa) 24; at_bit (sf (sr_size s)) 31].

Definition data_processing_word (one_source : bool) (s : ARM64InstructionDataProcessing) : Z :=
  lor_all [place (dp_dest s) 5 0; place (dp_src1 s) 5 5; place (dp_src2 s) 5 16; place (dp_opcode s) 6 10;
    if one_source then at_bit 1 30 else 0; at_bit 0xd6 21; at_bit (sf (dp_size s)) 31].

Definition three_source_word (s : ARM64InstructionDataProcessing) : Z :=
  lor_all [place (dp_dest s) 5 0; place (dp_src1 s) 5 5; place (dp_src2 s) 5 16; place (dp_src3 s) 5 10;
    place (dp_opcode s) 3 21; place (dp_o0 s) 1 15; at_bit 0x1b 24; at_bit (sf (dp_size s)) 31].

Definition add_sub_imm_word (s : ARM64InstructionAddSubImm) : Z :=
  lor_all [place (as_dest s) 5 0; place (as_src s) 5 5; place (as_imm12 s) 12 10;
    at_bit (as_shift_mode s) 22; place (as_sets_flags s) 1 29; place (as_opcode s) 1 30;
    at_bit 0x11 24; at_bit (sf (as_size s)) 31].

Definition logical_imm_word (bitfield : bool) (s : ARM64InstructionLogicalImm) : Z :=
  lor_all [place (li_dest s) 5 0; place (li_src s) 5 5; place (li_imms s) 6 10; place (li_immr s) 6 16;
    place (li_n s) 1 22; place (li_opcode s) 2 29; at_bit (if bitfield then 0x26 else 0x24) 23;
    at_bit (sf (li_size s)) 31].

Definition mov_wide_word (s : ARM64InstructionWideImm) : Z :=
  lor_all [place (wi_dest s) 5 0; at_bit (wi_imm16 s) 5; place (wi_hw s) 2 21; place (wi_opcode s) 2 29;
    at_bit 0x25 23; at_bit (sf (wi_size s)) 31].

Definition conditional_branch_word (s : ARM64InstructionConditionalBranch) : Z :=
  lor_all [place (cb_cond s) 4 0; place (as_u 32 (cb_imm19 s)) 19 5; at_bit 0x54 24].

Definition branch_imm26_word (s : ARM64InstructionImm26) : Z :=
  lor_all [place (as_u 32 (br_imm26 s)) 26 0; at_bit (br_opcode s) 26].

Definition blr_word (s : ARM64InstructionBLR) : Z :=
  lor_all [0xd63f0000; place (blr_target s) 5 5].

Definition ret_word : Z := 0xd65f03c0.

(** The parts of a load or store: mode, operand, opcode, size. *)
Definition access_mode (m : ARM64MemoryOperand) : Z :=
  match m with
  | OffsetPreIndex _ => 0x3
  | OffsetPostIndex _ => 0x1
  | OffsetScaled _ => 0x0
  | OffsetIndexShift _ _ => 0x2
  | Offset _ => 0x0
  end.

Definition access_operand (m : ARM64MemoryOperand) : Z :=
  match m with
  | OffsetPreIndex imm9 | OffsetPostIndex imm9 | Offset imm9 => place imm9 9 12
  | OffsetScaled imm12 => place imm12 12 10
  | OffsetIndexShift idx_reg should_shift =>
      lor_all [if should_shift then at_bit 1 12 else 0; at_bit 0x3 13; place idx_reg 5 16]
  end.

Definition access_opcode (load : bool) (m : ARM64MemoryOperand) : Z :=
  match m with
  | OffsetPreIndex _ | OffsetPostIndex _ | Offset _ => at_bit (if load then 0x1c2 else 0x1c0) 21
  | OffsetScaled _ => at_bit (if load then 0xe5 else 0xe4) 22
  | OffsetIndexShift _ _ => at_bit (if load then 0x1c3 else 0x1c1) 21
  end.

Section Encoder.
Context {E : Type}.

Definition access_size (size : OperandSize) : result E Z :=
  match size with
  | S64 => Ok 0x3
  | S32 => Ok 0x2
  | S16 => Ok 0x1
  | S8 => Ok 0x0
  | S0 => Panic
  end.

Definition load_store_word (load : bool) (s : ARM64InstructionLoadStore) : result E Z :=
  size ← access_size (ls_size s);
  Ok (lor_all [place (ls_data s) 5 0; place (ls_base s) 5 5; at_bit (access_mode (ls_mem s)) 10;
        access_operand (ls_mem s); access_opcode load (ls_mem s); at_bit size 30]).

(** The match of [emit]. *)
Definition word (i : ARM64Instruction) : result E Z :=
  match i with
  | LogicalRegister s => Ok (shifted_register_word false s)
  | AddSubRegister s => Ok (shifted_register_word true s)
  | DataProcessing2Src s => Ok (data_processing_word false s)
  | DataProcessing1Src s => Ok (data_processing_word true s)
  | DataProcessing3Src s => Ok (three_source_word s)
  | AddSubImm s => Ok (add_sub_imm_word s)
  | LogicalImm s => Ok (logical_imm_word false s)
  | BitfieldImm s => Ok (logical_imm_word true s)
  | MovWideImm s => Ok (mov_wide_word s)
  | ConditionalBranch s => Ok (conditional_branch_word s)
  | BranchImm26 s => Ok (branch_imm26_word s)
  | BLR s => Ok (blr_word s)
  | RET => Ok ret_word
  | Load s => load_store_word true s
  | Store s => load_store_word false s
  end.
End Encoder.

(** [ARM64Instruction::emit] *)
Definition emit {G} (i : ARM64Instruction) : jit G unit := fun s =>
  ins ← word i;
  JitProgram.emit 4 ins s.

(** ** Constructors *)
(** [..Default::default()] leaves the fields a constructor does not set. *)
Definition shifted_register_default : ARM64InstructionLogicalShiftedRegister :=
  mkShiftedRegister S64 0 0 LSL 0 0 0 0.
Definition data_processing_default : ARM64InstructionDataProcessing := mkDataProcessing S64 0 0 0 0 0 0.
Definition add_sub_imm_default : ARM64InstructionAddSubImm := mkAddSubImm S64 0 0 0 0 0 0.
Definition logical_imm_default : ARM64InstructionLogicalImm := mkLogicalImm S64 0 0 0 0 0 0.
Definition wide_imm_default : ARM64InstructionWideImm := mkWideImm S64 0 0 0 0.
Definition load_store_default : ARM64InstructionLoadStore := mkLoadStore S64 0 0 (Offset 0).

(** The fields the constructors of a format set. *)
Definition shifted_register (size : OperandSize) (opcode n dest src1 src2 : Z)
    : ARM64InstructionLogicalShiftedRegister :=
  mkShiftedRegister size opcode n (sr_shift_type shifted_register_default) dest src1 src2
    (sr_imm6 shifted_register_default).
Definition data_processing (size : OperandSize) (opcode dest src1 src2 : Z) : ARM64InstructionDataProcessing :=
  mkDataProcessing size opcode dest src1 src2 (dp_src3 data_processing_default) (dp_o0 data_processing_default).

Definition mov (size : OperandSize) (source destination : Z) : ARM64Instruction :=
  LogicalRegister (shifted_register size 1 0 destination SP_XZR source).
Definition orr (size : OperandSize) (source destination : Z) : ARM64Instruction :=
  LogicalRegister (shifted_register size 1 0 destination destination source).
Definition and (size : OperandSize) (src1 src2 destination : Z) : ARM64Instruction :=
  LogicalRegister (shifted_register size 0 0 destination src1 src2).
Definition eor (size : OperandSize) (source destination : Z) : ARM64Instruction :=
  LogicalRegister (shifted_register size 2 0 destination destination source).
Definition tst (size : OperandSize) (source destination : Z) : ARM64Instruction :=
  LogicalRegister (shifted_register size 3 0 SP_XZR destination source).
Definition tst_imm (source : Z) (imm : ARM64BitwiseImm) : ARM64Instruction :=
  LogicalImm (mkLogicalImm S64 3 (bw_n imm) SP_XZR source (bw_immr imm) (bw_imms imm)).

Definition add (size : OperandSize) (src1 src2 destination : Z) : ARM64Instruction :=
  AddSubRegister (shifted_register size 0 0 destination src1 src2).
Definition sub (size : OperandSize) (src1 src2 destination : Z) : ARM64Instruction :=
  AddSubRegister (shifted_register size 2 0 destination src1 src2).
Definition cmp (size : OperandSize) (source destination : Z) : ARM64Instruction :=
  AddSubRegister (shifted_register size 3 0 SP_XZR destination source).
Definition mvn (size : OperandSize) (source destination : Z) : ARM64Instruction :=
  LogicalRegister (shifted_register size 1 1 destination SP_XZR source).

Definition lsl_reg (size : OperandSize) (src shift destination : Z) : ARM64Instruction :=
  DataProcessing2Src (data_processing size 0x8 destination src shift).
Definition lsr_reg (size : OperandSize) (src shift destination : Z) : ARM64Instruction :=
  DataProcessing2Src (data_processing size 0x9 destination src shift).
Definition asr_reg (size : OperandSize) (src shift destination : Z) : ARM64Instruction :=
  DataProcessing2Src (data_processing size 0xa destination src shift).
Definition udiv (size : OperandSize) (src1 src2 destination : Z) : ARM64Instruction :=
  DataProcessing2Src (data_processing size 0x2 destination src1 src2).
Definition sdiv (size : OperandSize) (src1 src2 destination : Z) : ARM64Instruction :=
  DataProcessing2Src (data_processing size 0x3 destination src1 src2).
Definition madd (size : OperandSize) (src1 src2 src3 destination : Z) : ARM64Instruction :=
  DataProcessing3Src (mkDataProcessing size 0x0 destination src1 src2 src3 (dp_o0 data_processing_default)).
Definition msub (size : OperandSize) (src1 src2 src3 destination : Z) : ARM64Instruction :=
  DataProcessing3Src (mkDataProcessing size 0x0 destination src1 src2 src3 1).

Definition b_cond (cond : Condition) (imm19 : Z) : ARM64Instruction :=
  ConditionalBranch (mkConditionalBranch (condition_u8 cond) imm19).
Definition bl (imm26 : Z) : ARM64Instruction := BranchImm26 (mkImm26 0x25 imm26).
Definition blr (target : Z) : ARM64Instruction := BLR (mkBLR target).
Definition b (imm26 : Z) : ARM64Instruction := BranchImm26 (mkImm26 0x05 imm26).
Definition ret : ARM64Instruction := RET.

Section Checked.
Context {E : Type} `{Profile}.
Abbreviation R := (result E ARM64Instruction).

(** A [u8] or [i8] operation that overflows panics in a checked build. *)
Definition arith_u8 (z : Z) : result E Z :=
  if bool_decide (is_u 8 z) then Ok z else if debug_assertions then Panic else Ok (as_u 8 z).
Definition arith_i8 (z : Z) : result E Z :=
  if bool_decide (is_i 8 z) then Ok z else if debug_assertions then Panic else Ok (as_i 8 z).

Definition add_imm (size : OperandSize) (src imm12 destination : Z) : R :=
  _ ← debug_assert (imm12 <? Z.shiftl 1 12);
  Ok (AddSubImm (mkAddSubImm size 0 (as_sets_flags add_sub_imm_default) (as_shift_mode add_sub_imm_default)
    destination src imm12)).
Definition sub_imm (size : OperandSize) (src imm12 destination : Z) : R :=
  _ ← debug_assert (imm12 <? Z.shiftl 1 12);
  Ok (AddSubImm (mkAddSubImm size 1 (as_sets_flags add_sub_imm_default) (as_shift_mode add_sub_imm_default)
    destination src imm12)).
Definition cmp_imm (size : OperandSize) (src imm12 : Z) : R :=
  _ ← debug_assert (imm12 <? Z.shiftl 1 12);
  Ok (AddSubImm (mkAddSubImm size 1 1 (as_shift_mode add_sub_imm_default) SP_XZR src imm12)).

Definition zero_extend_to_u64 (from_size : OperandSize) (source destination : Z) : R :=
  match from_size with
  | S8 => Ok (BitfieldImm (mkLogicalImm S32 2 (li_n logical_imm_default) destination source 0 7))
  | S16 => Ok (BitfieldImm (mkLogicalImm S32 2 (li_n logical_imm_default) destination source 0 15))
  | S32 => Ok (mov S32 source destination)
  | S0 | S64 => Panic
  end.

Definition sign_extend_to_i64 (from_size : OperandSize) (source destination : Z) : R :=
  match from_size with
  | S8 => Ok (BitfieldImm (mkLogicalImm S64 0 1 destination source 0 7))
  | S16 => Ok (BitfieldImm (mkLogicalImm S64 0 1 destination source 0 15))
  | S32 => Ok (BitfieldImm (mkLogicalImm S64 0 1 destination source 0 31))
  | S0 | S64 => Panic
  end.

Definition lsl_imm (source shift_imm destination : Z) : R :=
  _ ← debug_assert ((0 <? shift_imm) && (shift_imm <? 64));
  negated ← arith_i8 (- as_i 8 shift_imm);
  imms ← arith_u8 (63 - shift_imm);
  Ok (BitfieldImm (mkLogicalImm S64 2 1 destination source (negated mod 64) imms)).
Definition lsr_imm (source shift_imm destination : Z) : R :=
  _ ← debug_assert ((0 <? shift_imm) && (shift_imm <? 64));
  Ok (BitfieldImm (mkLogicalImm S64 2 1 destination source shift_imm 0x3f)).

Definition rev (size : OperandSize) (src destination : Z) : R :=
  opcode ← match size with
           | S16 => Ok 0x1
           | S32 => Ok 0x2
           | S64 => Ok 0x3
           | _ => Panic
           end;
  Ok (DataProcessing1Src (data_processing size opcode destination src 0)).

Definition movk (destination shift_16 immediate : Z) : R :=
  _ ← debug_assert ((0 <=? shift_16) && (shift_16 <? 4));
  Ok (MovWideImm (mkWideImm S64 3 shift_16 destination immediate)).
Definition movn (destination shift_16 immediate : Z) : R :=
  _ ← debug_assert ((0 <=? shift_16) && (shift_16 <? 4));
  Ok (MovWideImm (mkWideImm S64 0 shift_16 destination immediate)).

(** An access that writes its base back must not transfer it. *)
Definition check_writeback (indirect : ARM64MemoryOperand) (source data : Z) : result E unit :=
  match indirect with
  | OffsetPreIndex _ | OffsetPostIndex _ => debug_assert (negb (source =? data))
  | _ => Ok tt
  end.

Definition load (size : OperandSize) (source : Z) (indirect : ARM64MemoryOperand) (data : Z) : R :=
  _ ← exclude_operand_sizes size [S0];
  _ ← check_writeback indirect source data;
  Ok (Load (mkLoadStore size data source indirect)).
Definition store (size : OperandSize) (data source : Z) (indirect : ARM64MemoryOperand) : R :=
  _ ← exclude_operand_sizes size [S0];
  _ ← check_writeback indirect source data;
  Ok (Store (mkLoadStore size data source indirect)).

Definition push64 (reg : Z) : R :=
  _ ← debug_assert (negb (SP_XZR =? reg));
  Ok (Store (mkLoadStore S64 reg SP_XZR (OffsetPreIndex (-16)))).
Definition pop64 (reg : Z) : R :=
  _ ← debug_assert (negb (SP_XZR =? reg));
  Ok (Load (mkLoadStore S64 reg SP_XZR (OffsetPostIndex 16))).
End Checked.
