(* ===== verification/A64Isa.v ===== *)
(** * A reference for the A64 instructions the AArch64 encoder knows

    An executable reading of the architecture, independent of the encoder: the
    decoding of a word by its bit fields, with the encodings that are
    unallocated, and what each instruction does to registers, flags, memory and
    program counter.  Register 31 is the zero register or the stack pointer, as
    the instruction says. *)

From stdpp Require Import strings.
From S2P Require Import Prelude.

(** ** Instructions *)
Inductive shift_kind := ShLSL | ShLSR | ShASR | ShROR.
Inductive logical_op := LAnd | LOrr | LEor | LAnds.
Inductive wide_op := MOVN | MOVZ | MOVK.
Inductive bitfield_op := SBFM | BFM | UBFM.
Inductive unary_op := RBIT | REV16 | REV32 | REV | CLZ | CLS.
Inductive binary_op := UDIV | SDIV | LSLV | LSRV | ASRV | RORV.

(** How an access finds its address. *)
Inductive access_form :=
| BaseImm (offset : Z)
| PreIndex (offset : Z)
| PostIndex (offset : Z)
| BaseRegister (rm amount : Z).

(** [wide] says that the operation is on 64 bits. *)
Inductive a64 :=
| Logical (wide : bool) (op : logical_op) (invert : bool) (sh : shift_kind) (amount rd rn rm : Z)
| LogicalImmediate (wide : bool) (op : logical_op) (mask rd rn : Z)
| AddSub (wide sub flags : bool) (sh : shift_kind) (amount rd rn rm : Z)
| AddSubImmediate (wide sub flags : bool) (imm rd rn : Z)
| MoveWide (wide : bool) (op : wide_op) (shift imm rd : Z)
| Bitfield (wide : bool) (op : bitfield_op) (immr imms rd rn : Z)
| Unary (wide : bool) (op : unary_op) (rd rn : Z)
| Binary (wide : bool) (op : binary_op) (rd rn rm : Z)
| MulAdd (wide sub : bool) (rd rn rm ra : Z)
| BranchCond (cond offset : Z)
| Branch (link : bool) (offset : Z)
| BranchRegister (link : bool) (rn : Z)
| Return (rn : Z)
| Access (is_load : bool) (bytes : Z) (rt rn : Z) (a : access_form).

(** ** Decoding *)
(** The [len] bits of [w] from bit [lo] on. *)
Definition field (w lo len : Z) : Z := Z.land (Z.shiftr w lo) (Z.ones len).
Definition bit (w k : Z) : bool := Z.testbit w k.
(** A field as a two's complement number. *)
Definition signed_field (w lo len : Z) : Z := as_i len (field w lo len).

Definition shift_of (f : Z) : shift_kind :=
  if f =? 0 then ShLSL else if f =? 1 then ShLSR else if f =? 2 then ShASR else ShROR.
Definition logical_of (f : Z) : logical_op :=
  if f =? 0 then LAnd else if f =? 1 then LOrr else if f =? 2 then LEor else LAnds.

(** The repeating pattern a logical immediate stands for: [imms] and [immr]
    give the ones and the rotation of an element whose size is the position of
    the highest zero of [imms], below [n]. *)
Definition ror (width x r : Z) : Z :=
  Z.lor (Z.shiftr x (r mod width)) (Z.land (Z.shiftl x ((width - r) mod width)) (Z.ones width)).
Fixpoint replicate_bits (count : nat) (esize x : Z) : Z :=
  match count with O => 0 | S count => Z.lor x (Z.shiftl (replicate_bits count esize x) esize) end.
Definition element_length (n imms : Z) : Z := Z.log2 (Z.lor (Z.shiftl n 6) (Z.lxor imms 63)).
Definition bit_mask (wide : bool) (n immr imms : Z) : option Z :=
  if negb wide && (n =? 1) then None else
  let len := element_length n imms in
  if len <? 1 then None else
  let esize := Z.shiftl 1 len in
  let ones := Z.land imms (Z.ones len) in
  if ones =? Z.ones len then None else
  let element := ror esize (Z.ones (ones + 1)) (Z.land immr (Z.ones len)) in
  Some (replicate_bits (Z.to_nat ((if wide then 64 else 32) / esize)) esize element).

Definition unary_of (wide : bool) (f : Z) : option unary_op :=
  if f =? 0 then Some RBIT else if f =? 1 then Some REV16
  else if f =? 2 then Some (if wide then REV32 else REV)
  else if f =? 3 then (if wide then Some REV else None)
  else if f =? 4 then Some CLZ else if f =? 5 then Some CLS else None.
Definition binary_of (f : Z) : option binary_op :=
  if f =? 2 then Some UDIV else if f =? 3 then Some SDIV else if f =? 8 then Some LSLV
  else if f =? 9 then Some LSRV else if f =? 10 then Some ASRV else if f =? 11 then Some RORV else None.

Section Classes.
Variable w : Z.
Abbreviation rd := (field w 0 5).
Abbreviation rn := (field w 5 5).
Abbreviation rm := (field w 16 5).
Abbreviation wide := (bit w 31).

(** An amount that a 32-bit operation has no room for. *)
Definition amount_ok (f : Z) : bool := wide || (f <? 32).

Definition decode_immediate : option a64 :=
  let op := field w 29 2 in
  if field w 23 6 =? 0x22 then
    Some (AddSubImmediate wide (bit w 30) (bit w 29) (Z.shiftl (field w 10 12) (if bit w 22 then 12 else 0)) rd rn)
  else if field w 23 6 =? 0x24 then
    mask ← bit_mask wide (field w 22 1) (field w 16 6) (field w 10 6);
    Some (LogicalImmediate wide (logical_of op) mask rd rn)
  else if field w 23 6 =? 0x25 then
    let hw := field w 21 2 in
    if (op =? 1) || (negb wide && (2 <=? hw)) then None
    else Some (MoveWide wide (if op =? 0 then MOVN else if op =? 2 then MOVZ else MOVK) (16 * hw) (field w 5 16) rd)
  else if field w 23 6 =? 0x26 then
    let immr := field w 16 6 in
    let imms := field w 10 6 in
    if (op =? 3) || negb (eqb (bit w 22) wide) || negb (amount_ok immr && amount_ok imms) then None
    else Some (Bitfield wide (if op =? 0 then SBFM else if op =? 1 then BFM else UBFM) immr imms rd rn)
  else None.

Definition decode_register : option a64 :=
  let imm6 := field w 10 6 in
  if field w 24 5 =? 0x0a then
    if amount_ok imm6 then
      Some (Logical wide (logical_of (field w 29 2)) (bit w 21) (shift_of (field w 22 2)) imm6 rd rn rm)
    else None
  else if field w 24 5 =? 0x0b then
    if amount_ok imm6 && negb (bit w 21) && negb (field w 22 2 =? 3) then
      Some (AddSub wide (bit w 30) (bit w 29) (shift_of (field w 22 2)) imm6 rd rn rm)
    else None
  else if field w 24 5 =? 0x1a then
    if bit w 29 || negb (field w 21 3 =? 6) then None
    else if bit w 30 then
      if rm =? 0 then op ← unary_of wide imm6; Some (Unary wide op rd rn) else None
    else op ← binary_of imm6; Some (Binary wide op rd rn rm)
  else if (field w 24 5 =? 0x1b) && (field w 29 2 =? 0) && (field w 21 3 =? 0) then
    Some (MulAdd wide (bit w 15) rd rn rm (field w 10 5))
  else None.

Definition decode_branch : option a64 :=
  if field w 26 5 =? 0x05 then Some (Branch wide (4 * signed_field w 0 26))
  else if (field w 24 8 =? 0x54) && negb (bit w 4) then Some (BranchCond (field w 0 4) (4 * signed_field w 5 19))
  else if (field w 25 7 =? 0x6b) && (field w 10 11 =? 0x7c0) && (field w 0 5 =? 0) then
    if field w 21 4 =? 0 then Some (BranchRegister false rn)
    else if field w 21 4 =? 1 then Some (BranchRegister true rn)
    else if field w 21 4 =? 2 then Some (Return rn) else None
  else None.

Definition decode_access : option a64 :=
  let size := field w 30 2 in
  let bytes := Z.shiftl 1 size in
  if negb (field w 27 3 =? 7) || bit w 26 || bit w 23 then None
  else if field w 24 2 =? 1 then
    Some (Access (bit w 22) bytes rd rn (BaseImm (Z.shiftl (field w 10 12) size)))
  else if field w 24 2 =? 0 then
    let offset := signed_field w 12 9 in
    if bit w 21 then
      if (field w 10 2 =? 2) && (field w 13 3 =? 3)
      then Some (Access (bit w 22) bytes rd rn (BaseRegister rm (if bit w 12 then size else 0)))
      else None
    else
      if field w 10 2 =? 0 then Some (Access (bit w 22) bytes rd rn (BaseImm offset))
      else if field w 10 2 =? 1 then Some (Access (bit w 22) bytes rd rn (PostIndex offset))
      else if field w 10 2 =? 3 then Some (Access (bit w 22) bytes rd rn (PreIndex offset))
      else None
  else None.

(** The classes by bits 28 to 25. *)
Definition decode : option a64 :=
  if field w 26 3 =? 4 then decode_immediate
  else if field w 26 3 =? 5 then decode_branch
  else if field w 25 3 =? 5 then decode_register
  else if bit w 27 && negb (bit w 25) then decode_access
  else None.
End Classes.

(** ** Meaning *)
Record flags := mkFlags { flag_n : bool; flag_z : bool; flag_c : bool; flag_v : bool }.
Record machine := mkMachine {
  regs : Z -> Z;
  sp : Z;
  pc : Z;
  nzcv : flags;
  mem : Z -> byte
}.

Definition set_pc (m : machine) (a : Z) : machine := mkMachine (regs m) (sp m) (as_u 64 a) (nzcv m) (mem m).
Definition set_flags (m : machine) (f : flags) : machine := mkMachine (regs m) (sp m) (pc m) f (mem m).
Definition next (m : machine) : machine := set_pc m (pc m + 4).

Definition width (wide : bool) : Z := if wide then 64 else 32.
Definition set_reg (m : machine) (r v : Z) : machine :=
  mkMachine (fun k => if k =? r then v else regs m k) (sp m) (pc m) (nzcv m) (mem m).
Definition set_sp (m : machine) (v : Z) : machine := mkMachine (regs m) v (pc m) (nzcv m) (mem m).

(** Register 31 reads as zero and ignores writes, *)
Definition get (wide : bool) (m : machine) (r : Z) : Z := if r =? 31 then 0 else as_u (width wide) (regs m r).
Definition put (m : machine) (r v : Z) : machine := if r =? 31 then m else set_reg m r v.
(** or is the stack pointer. *)
Definition get_or_sp (wide : bool) (m : machine) (r : Z) : Z :=
  as_u (width wide) (if r =? 31 then sp m else regs m r).
Definition put_or_sp (m : machine) (r v : Z) : machine := if r =? 31 then set_sp m v else set_reg m r v.

Definition shift_value (n : Z) (sh : shift_kind) (x amount : Z) : Z :=
  match sh with
  | ShLSL => as_u n (Z.shiftl x amount)
  | ShLSR => Z.shiftr x amount
  | ShASR => as_u n (Z.shiftr (as_i n x) amount)
  | ShROR => ror n x amount
  end.

(** Sum with carry of two [n]-bit numbers, and the flags it sets. *)
Definition add_with_carry (n x y carry : Z) : Z * flags :=
  let sum := x + y + carry in
  let result := as_u n sum in
  (result, mkFlags (Z.testbit result (n - 1)) (result =? 0) (negb (result =? sum))
             (negb (as_i n result =? as_i n x + as_i n y + carry))).
Definition add_sub (n : Z) (sub : bool) (x y : Z) : Z * flags :=
  if sub then add_with_carry n x (as_u n (Z.lnot y)) 1 else add_with_carry n x y 0.

Definition logical_flags (n v : Z) : flags := mkFlags (Z.testbit v (n - 1)) (v =? 0) false false.
Definition logical_value (op : logical_op) (x y : Z) : Z :=
  match op with LAnd | LAnds => Z.land x y | LOrr => Z.lor x y | LEor => Z.lxor x y end.

(** The condition codes: the even ones, and their negations. *)
Definition holds (cond : Z) (f : flags) : bool :=
  let base := match cond / 2 with
              | 0 => flag_z f
              | 1 => flag_c f
              | 2 => flag_n f
              | 3 => flag_v f
              | 4 => flag_c f && negb (flag_z f)
              | 5 => eqb (flag_n f) (flag_v f)
              | 6 => eqb (flag_n f) (flag_v f) && negb (flag_z f)
              | _ => true
              end in
  if Z.odd cond && negb (cond =? 15) then negb base else base.

Definition move_wide (n : Z) (op : wide_op) (shift imm old : Z) : Z :=
  match op with
  | MOVN => as_u n (Z.lnot (Z.shiftl imm shift))
  | MOVZ => Z.shiftl imm shift
  | MOVK => Z.lor (Z.ldiff old (Z.shiftl (Z.ones 16) shift)) (Z.shiftl imm shift)
  end.

(** The masks of a bit-field move and its value: the bits rotated into place,
    below sign bits, zeros or the bits of the destination. *)
Definition bitfield (n : Z) (op : bitfield_op) (immr imms src old : Z) : Z :=
  let wmask := ror n (Z.ones (imms + 1)) immr in
  let tmask := Z.ones ((imms - immr) mod n + 1) in
  let bot := match op with
             | BFM => Z.lor (Z.ldiff old wmask) (Z.land (ror n src immr) wmask)
             | _ => Z.land (ror n src immr) wmask
             end in
  let top := match op with
             | SBFM => if Z.testbit src imms then Z.ones n else 0
             | BFM => old
             | UBFM => 0
             end in
  Z.lor (Z.ldiff top tmask) (Z.land bot tmask).

(** The bytes of a number reversed inside pieces of [size] bytes. *)
Definition rev_pieces (bytes size : nat) (x : Z) : Z :=
  le_val (mjoin ((fun i => rev (take size (drop (size * i) (le_bytes bytes x)))) <$> seq 0 (bytes / size))).
Fixpoint reverse_bits (n : nat) (x : Z) : Z :=
  match n with O => 0 | S k => Z.lor (Z.shiftl (Z.land x 1) (Z.of_nat k)) (reverse_bits k (Z.shiftr x 1)) end.
Definition leading_zeros (n x : Z) : Z := if x =? 0 then n else n - 1 - Z.log2 x.
Definition unary (n : Z) (op : unary_op) (x : Z) : Z :=
  match op with
  | RBIT => reverse_bits (Z.to_nat n) x
  | REV16 => rev_pieces (Z.to_nat (n / 8)) 2 x
  | REV32 => rev_pieces (Z.to_nat (n / 8)) 4 x
  | REV => rev_pieces (Z.to_nat (n / 8)) (Z.to_nat (n / 8)) x
  | CLZ => leading_zeros n x
  | CLS => leading_zeros (n - 1) (Z.lxor (Z.shiftr x 1) (Z.land x (Z.ones (n - 1))))
  end.

Definition binary (n : Z) (op : binary_op) (x y : Z) : Z :=
  match op with
  | UDIV => if y =? 0 then 0 else x / y
  | SDIV => if y =? 0 then 0 else as_u n (Z.quot (as_i n x) (as_i n y))
  | LSLV => shift_value n ShLSL x (y mod n)
  | LSRV => shift_value n ShLSR x (y mod n)
  | ASRV => shift_value n ShASR x (y mod n)
  | RORV => shift_value n ShROR x (y mod n)
  end.

Definition read_mem (m : machine) (a bytes : Z) : Z :=
  le_val ((fun k => mem m (as_u 64 (a + k))) <$> seqZ 0 bytes).
Definition write_mem (m : machine) (a bytes v : Z) : machine :=
  mkMachine (regs m) (sp m) (pc m) (nzcv m)
    (fun k => let i := as_u 64 (k - a) in
              if i <? bytes then default 0 (le_bytes (Z.to_nat bytes) v !! Z.to_nat i) else mem m k).

(** The address of an access and the machine with the base written back; an
    access relative to a misaligned stack pointer faults, and one that
    transfers the base it writes back has no defined result. *)
Definition access_address (m : machine) (rt rn : Z) (a : access_form) : option (Z * machine) :=
  let base := get_or_sp true m rn in
  let writes_back offset := put_or_sp m rn (as_u 64 (base + offset)) in
  if (rn =? 31) && negb (base mod 16 =? 0) then None
  else match a with
       | BaseImm offset => Some (as_u 64 (base + offset), m)
       | BaseRegister rm amount => Some (as_u 64 (base + Z.shiftl (get true m rm) amount), m)
       | PreIndex offset =>
           if (rt =? rn) && negb (rn =? 31) then None else Some (as_u 64 (base + offset), writes_back offset)
       | PostIndex offset =>
           if (rt =? rn) && negb (rn =? 31) then None else Some (base, writes_back offset)
       end.

Definition exec (i : a64) (m : machine) : option machine :=
  match i with
  | Logical wide op invert sh amount rd rn rm =>
      let n := width wide in
      let y := shift_value n sh (get wide m rm) amount in
      let v := logical_value op (get wide m rn) (if invert then as_u n (Z.lnot y) else y) in
      let m := put m rd v in
      Some (next match op with LAnds => set_flags m (logical_flags n v) | _ => m end)
  | LogicalImmediate wide op mask rd rn =>
      let v := logical_value op (get wide m rn) mask in
      Some (next match op with LAnds => set_flags (put m rd v) (logical_flags (width wide) v) | _ => put_or_sp m rd v end)
  | AddSub wide sub flags sh amount rd rn rm =>
      let n := width wide in
      let (v, f) := add_sub n sub (get wide m rn) (shift_value n sh (get wide m rm) amount) in
      let m := put m rd v in
      Some (next (if flags then set_flags m f else m))
  | AddSubImmediate wide sub flags imm rd rn =>
      let (v, f) := add_sub (width wide) sub (get_or_sp wide m rn) imm in
      Some (next (if flags then set_flags (put m rd v) f else put_or_sp m rd v))
  | MoveWide wide op shift imm rd => Some (next (put m rd (move_wide (width wide) op shift imm (get wide m rd))))
  | Bitfield wide op immr imms rd rn =>
      Some (next (put m rd (bitfield (width wide) op immr imms (get wide m rn) (get wide m rd))))
  | Unary wide op rd rn => Some (next (put m rd (unary (width wide) op (get wide m rn))))
  | Binary wide op rd rn rm => Some (next (put m rd (binary (width wide) op (get wide m rn) (get wide m rm))))
  | MulAdd wide sub rd rn rm ra =>
      let product := get wide m rn * get wide m rm in
      Some (next (put m rd (as_u (width wide) (get wide m ra + (if sub then - product else product)))))
  | BranchCond cond offset => Some (if holds cond (nzcv m) then set_pc m (pc m + offset) else next m)
  | Branch link offset =>
      Some (set_pc (if link then set_reg m 30 (as_u 64 (pc m + 4)) else m) (pc m + offset))
  | BranchRegister link rn =>
      Some (set_pc (if link then set_reg m 30 (as_u 64 (pc m + 4)) else m) (get true m rn))
  | Return rn => Some (set_pc m (get true m rn))
  | Access is_load bytes rt rn a =>
      '(address, m') ← access_address m rt rn a;
      Some (next (if is_load then put m' rt (read_mem m address bytes)
                  else write_mem m' address bytes (as_u (8 * bytes) (get true m rt))))
  end.

(** One word executed. *)
Definition run_word (w : Z) (m : machine) : option machine := i ← decode w; exec i m.
