(* ===== verification/A64Encode.v ===== *)
(** * The AArch64 encoder writes the instructions of the architecture

    Every word [Aarch64.word] makes decodes, by the reference decoder of
    [A64Isa], to the instruction its fields name, [names], for fields in the
    ranges the formats document.  The fields of a word are read back piece by
    piece: each piece is placed where one field is read, and away from every
    other; [cut_fields] is what they read as, in range or not. *)

From stdpp Require Import strings.
From S2P Require Import Prelude Ebpf Program Error Vm X86 PageAllocator JitProgram Aarch64 A64Isa.

(** ** Fields of a word made of pieces *)
Definition low (bits value : Z) : Z := Z.land value (Z.ones bits).

Lemma field_lor a b lo len : field (Z.lor a b) lo len = Z.lor (field a lo len) (field b lo len).
Proof. unfold field. by rewrite Z.shiftr_lor, Z.land_lor_distr_l. Qed.

Lemma field_place v bits lo : 0 <= bits -> 0 <= lo -> field (place v bits lo) lo bits = low bits v.
Proof.
  intros. unfold field, place, low. rewrite Z.shiftr_shiftl_l, Z.sub_diag, Z.shiftl_0_r by lia.
  by rewrite <- Z.land_assoc, Z.land_diag.
Qed.

Lemma field_apart v bits p lo len : 0 <= bits -> 0 <= p -> 0 <= lo -> 0 <= len ->
  p + bits <= lo \/ lo + len <= p -> field (place v bits p) lo len = 0.
Proof.
  intros. unfold field, place. apply Z.bits_inj'. intros k Hk.
  rewrite Z.bits_0, Z.land_spec, Z.shiftr_spec, Z.shiftl_spec, Z.land_spec by lia.
  rewrite !Z.testbit_ones by lia. destruct (Z.testbit v _), (0 <=? k), (k <? len) eqn:?; cbn; try done;
    rewrite ?andb_true_r, ?andb_false_r; try done; lia.
Qed.

Lemma bit_lor a b k : bit (Z.lor a b) k = bit a k || bit b k.
Proof. apply Z.lor_spec. Qed.

Lemma bit_place v bits p k : 0 <= p <= k -> k < p + bits -> bit (place v bits p) k = Z.testbit v (k - p).
Proof.
  intros. unfold bit, place. rewrite Z.shiftl_spec, Z.land_spec, Z.testbit_ones by lia.
  destruct (0 <=? k - p) eqn:?, (k - p <? bits) eqn:?; cbn; rewrite ?andb_true_r; lia || done.
Qed.

Lemma bit_apart v bits p k : 0 <= bits -> 0 <= p -> 0 <= k -> k < p \/ p + bits <= k -> bit (place v bits p) k = false.
Proof.
  intros. unfold bit, place. rewrite Z.shiftl_spec by lia. destruct (decide (k < p)).
  - by rewrite Z.testbit_neg_r by lia.
  - rewrite Z.land_spec, Z.testbit_ones by lia. destruct (0 <=? k - p) eqn:?, (k - p <? bits) eqn:?; cbn;
      rewrite ?andb_false_r; lia || done.
Qed.

(** An unmasked piece that fits is a masked one. *)
Lemma at_bit_place v bits p : 0 <= p -> 0 <= bits -> p + bits <= 32 -> is_u bits v -> at_bit v p = place v bits p.
Proof.
  intros Hp Hb H32 Hv. unfold at_bit, place. rewrite Z.land_ones, (Z.mod_small v) by (unfold is_u in Hv; lia).
  apply as_u_small. unfold is_u in *. rewrite Z.shiftl_mul_pow2 by lia. split; [nia|].
  apply Z.lt_le_trans with (2 ^ bits * 2 ^ p); [nia|]. rewrite <- Z.pow_add_r by lia. apply Z.pow_le_mono_r; lia.
Qed.

(** The pieces of a word evaluated in a goal. *)
Ltac closed_z t := lazymatch t with Z0 => idtac | Zpos _ => idtac | Zneg _ => idtac end.
Ltac evaluate t := let v := eval vm_compute in t in change t with v.
Ltac read_pieces :=
  repeat match goal with
  | |- context [field (Z.lor ?a ?b) ?lo ?len] => rewrite (field_lor a b lo len)
  | |- context [field (place ?v ?bits ?p) ?lo ?len] =>
      first [unify p lo; unify bits len; rewrite (field_place v bits lo) by lia
            |rewrite (field_apart v bits p lo len) by lia]
  | |- context [field (at_bit ?c ?p) ?lo ?len] => evaluate (field (at_bit c p) lo len)
  | |- context [bit (Z.lor ?a ?b) ?k] => rewrite (bit_lor a b k)
  | |- context [bit (place ?v ?bits ?p) ?k] =>
      first [rewrite (bit_apart v bits p k) by lia
            |rewrite (bit_place v bits p k) by lia; evaluate (k - p)]
  | |- context [bit (at_bit ?c ?p) ?k] => evaluate (bit (at_bit c p) k)
  | |- context [field ?c ?lo ?len] => closed_z c; evaluate (field c lo len)
  | |- context [bit ?c ?k] => closed_z c; evaluate (bit c k)
  end;
  rewrite ?Z.lor_0_l, ?Z.lor_0_r, ?orb_false_r, ?orb_false_l.
(** Each field is read in a goal of its own. *)
Ltac read_fields :=
  repeat match goal with
  | |- context [field ?w ?lo ?len] =>
      let H := fresh in eassert (H : field w lo len = _); [read_pieces; reflexivity|rewrite H; clear H]
  | |- context [bit ?w ?k] =>
      let H := fresh in eassert (H : bit w k = _); [read_pieces; reflexivity|rewrite H; clear H]
  | |- context [?x =? ?y] => closed_z x; closed_z y; evaluate (x =? y)
  end; cbn [orb andb negb].

(** What the fields of a format read as once each is cut to its width; [None]
    where the word is unallocated. *)
Definition wide_size (size : OperandSize) : bool := size_eqb size S64.

Definition cut_fields (i : ARM64Instruction) : option a64 :=
  match i with
  | LogicalRegister s =>
      let wide := wide_size (sr_size s) in
      if wide || (low 6 (sr_imm6 s) <? 32) then
        Some (Logical wide (logical_of (low 2 (sr_opcode s))) (Z.testbit (sr_n s) 0) ShLSL (low 6 (sr_imm6 s))
          (low 5 (sr_dest s)) (low 5 (sr_src1 s)) (low 5 (sr_src2 s)))
      else None
  | AddSubRegister s =>
      let wide := wide_size (sr_size s) in
      if (wide || (low 6 (sr_imm6 s) <? 32)) && negb (Z.testbit (sr_n s) 0) then
        Some (AddSub wide (Z.testbit (sr_opcode s) 1) (Z.testbit (sr_opcode s) 0) ShLSL (low 6 (sr_imm6 s))
          (low 5 (sr_dest s)) (low 5 (sr_src1 s)) (low 5 (sr_src2 s)))
      else None
  | AddSubImm s =>
      Some (AddSubImmediate (wide_size (as_size s)) (Z.testbit (as_opcode s) 0) (Z.testbit (as_sets_flags s) 0)
        (Z.shiftl (low 12 (as_imm12 s)) (12 * as_shift_mode s)) (low 5 (as_dest s)) (low 5 (as_src s)))
  | ConditionalBranch s => Some (BranchCond (low 4 (cb_cond s)) (4 * as_i 19 (cb_imm19 s)))
  | LogicalImm s =>
      mask ← bit_mask (wide_size (li_size s)) (low 1 (li_n s)) (low 6 (li_immr s)) (low 6 (li_imms s));
      Some (LogicalImmediate (wide_size (li_size s)) (logical_of (low 2 (li_opcode s))) mask
        (low 5 (li_dest s)) (low 5 (li_src s)))
  | BitfieldImm s =>
      let wide := wide_size (li_size s) in
      let op := low 2 (li_opcode s) in
      if (op =? 3) || negb (eqb (Z.testbit (li_n s) 0) wide)
         || negb ((wide || (low 6 (li_immr s) <? 32)) && (wide || (low 6 (li_imms s) <? 32))) then None
      else Some (Bitfield wide (if op =? 0 then SBFM else if op =? 1 then BFM else UBFM)
             (low 6 (li_immr s)) (low 6 (li_imms s)) (low 5 (li_dest s)) (low 5 (li_src s)))
  | MovWideImm s =>
      let op := low 2 (wi_opcode s) in
      if (op =? 1) || (negb (wide_size (wi_size s)) && (2 <=? low 2 (wi_hw s))) then None
      else Some (MoveWide (wide_size (wi_size s)) (if op =? 0 then MOVN else if op =? 2 then MOVZ else MOVK)
             (16 * low 2 (wi_hw s)) (wi_imm16 s) (low 5 (wi_dest s)))
  | DataProcessing1Src s =>
      let wide := wide_size (dp_size s) in
      if low 5 (dp_src2 s) =? 0 then
        op ← unary_of wide (low 6 (dp_opcode s));
        Some (Unary wide op (low 5 (dp_dest s)) (low 5 (dp_src1 s)))
      else None
  | DataProcessing2Src s =>
      op ← binary_of (low 6 (dp_opcode s));
      Some (Binary (wide_size (dp_size s)) op (low 5 (dp_dest s)) (low 5 (dp_src1 s)) (low 5 (dp_src2 s)))
  | DataProcessing3Src s =>
      if low 3 (dp_opcode s) =? 0 then
        Some (MulAdd (wide_size (dp_size s)) (Z.testbit (dp_o0 s) 0) (low 5 (dp_dest s)) (low 5 (dp_src1 s))
          (low 5 (dp_src2 s)) (low 5 (dp_src3 s)))
      else None
  | BranchImm26 s => Some (Branch (br_opcode s =? 0x25) (4 * as_i 26 (br_imm26 s)))
  | BLR s => Some (BranchRegister true (low 5 (blr_target s)))
  | RET => Some (Return LR)
  | Load s | Store s =>
      size ← match ls_size s with S64 => Some 3 | S32 => Some 2 | S16 => Some 1 | S8 => Some 0 | S0 => None end;
      Some (Access (match i with Load _ => true | _ => false end) (Z.shiftl 1 size)
        (low 5 (ls_data s)) (low 5 (ls_base s))
        match ls_mem s with
        | OffsetScaled imm12 => BaseImm (Z.shiftl (low 12 imm12) size)
        | Offset imm9 => BaseImm (as_i 9 imm9)
        | OffsetPreIndex imm9 => PreIndex (as_i 9 imm9)
        | OffsetPostIndex imm9 => PostIndex (as_i 9 imm9)
        | OffsetIndexShift idx shift => BaseRegister (low 5 idx) (if shift then size else 0)
        end)
  end.

(** ** The formats *)
Ltac open_word :=
  cbv [cut_fields word shifted_register_word data_processing_word three_source_word add_sub_imm_word logical_imm_word
    mov_wide_word conditional_branch_word branch_imm26_word blr_word ret_word lor_all foldl shift_type_u32
    wide_size sf amount_ok];
  cbn [sr_size sr_opcode sr_n sr_shift_type sr_dest sr_src1 sr_src2 sr_imm6 dp_size dp_opcode dp_dest dp_src1 dp_src2
    dp_src3 dp_o0 as_size as_opcode as_sets_flags as_shift_mode as_dest as_src as_imm12 li_size li_opcode li_n
    li_dest li_src li_immr li_imms wi_size wi_opcode wi_hw wi_dest wi_imm16 cb_cond cb_imm19 br_opcode br_imm26
    blr_target].

Lemma shifted_register_decodes add_sub s :
  decode (shifted_register_word add_sub s) = cut_fields (if add_sub then AddSubRegister s else LogicalRegister s).
Proof.
  destruct s as [size op n [] d s1 s2 imm6]. destruct add_sub; open_word; destruct (size_eqb size S64);
    unfold decode; read_fields; unfold decode_register; unfold amount_ok; read_fields.
  all: by rewrite ?andb_true_r.
Qed.

Lemma data_processing_decodes one_source s :
  decode (data_processing_word one_source s) =
    cut_fields (if one_source then DataProcessing1Src s else DataProcessing2Src s).
Proof.
  destruct s as [size op d s1 s2 s3 o0]. destruct one_source; open_word; destruct (size_eqb size S64);
    unfold decode; read_fields; unfold decode_register; read_fields; done.
Qed.

Lemma three_source_decodes s : decode (three_source_word s) = cut_fields (DataProcessing3Src s).
Proof.
  destruct s as [size op d s1 s2 s3 o0]. open_word. destruct (size_eqb size S64);
    unfold decode; read_fields; unfold decode_register; read_fields; done.
Qed.

Lemma add_sub_imm_decodes s : as_shift_mode s = 0 \/ as_shift_mode s = 1 ->
  decode (add_sub_imm_word s) = cut_fields (AddSubImm s).
Proof.
  destruct s as [size op flags mode d s imm]. cbn [as_shift_mode]. intros [-> | ->]; open_word;
    destruct (size_eqb size S64); unfold decode; read_fields; unfold decode_immediate; read_fields; done.
Qed.

Lemma logical_imm_decodes bitfield s :
  decode (logical_imm_word bitfield s) = cut_fields (if bitfield then BitfieldImm s else LogicalImm s).
Proof.
  destruct s as [size op n d s immr imms]. destruct bitfield; open_word; destruct (size_eqb size S64);
    unfold decode; read_fields; unfold decode_immediate, amount_ok; read_fields; done.
Qed.

Lemma mov_wide_decodes s : is_u 16 (wi_imm16 s) -> decode (mov_wide_word s) = cut_fields (MovWideImm s).
Proof.
  destruct s as [size op hw d imm]. cbn [wi_imm16]. intros Himm. open_word.
  rewrite (at_bit_place imm 16 5) by (done || lia).
  assert (Hlow : low 16 imm = imm) by (unfold low; rewrite Z.land_ones by lia; by apply Z.mod_small).
  destruct (size_eqb size S64); unfold decode; read_fields; unfold decode_immediate; read_fields; by rewrite Hlow.
Qed.

Lemma as_i_low n w z : 0 < n <= w -> as_i n (low n (as_u w z)) = as_i n z.
Proof.
  intros Hn. apply as_i_congr. unfold low. rewrite Z.land_ones by lia. change (?x mod 2 ^ n) with (as_u n x).
  by rewrite !as_u_as_u by lia.
Qed.

Lemma conditional_branch_decodes s : decode (conditional_branch_word s) = cut_fields (ConditionalBranch s).
Proof.
  destruct s as [cond imm]. open_word. unfold decode; read_fields; unfold decode_branch, signed_field; read_fields.
  by rewrite as_i_low by lia.
Qed.

Lemma branch_imm26_decodes s : br_opcode s = 0x05 \/ br_opcode s = 0x25 ->
  decode (branch_imm26_word s) = cut_fields (BranchImm26 s).
Proof.
  destruct s as [op imm]. cbn [br_opcode]. intros [-> | ->]; open_word; unfold decode; read_fields;
    unfold decode_branch, signed_field; read_fields; by rewrite as_i_low by lia.
Qed.

Lemma blr_decodes s : decode (blr_word s) = cut_fields (BLR s).
Proof. destruct s as [t]. open_word. unfold decode; read_fields; unfold decode_branch; read_fields; done. Qed.

(** A size is one of the four a load or store has. *)
Lemma access_size_cases {E} size z : access_size (E := E) size = Ok z ->
  match size with S64 => Some 3 | S32 => Some 2 | S16 => Some 1 | S8 => Some 0 | S0 => None end = Some z /\
  is_u 2 z.
Proof. destruct size; intros [=]; subst; done. Qed.

Lemma as_i_low_id n z : 0 < n -> as_i n (low n z) = as_i n z.
Proof.
  intros Hn. apply as_i_congr. unfold low. rewrite Z.land_ones by lia. change (z mod 2 ^ n) with (as_u n z).
  by rewrite as_u_as_u by lia.
Qed.

Ltac read_access :=
  cbv [lor_all foldl access_mode access_operand access_opcode]; unfold decode; read_fields;
  unfold decode_access, signed_field; read_fields.

Lemma load_store_decodes {E} is_load s w : load_store_word (E := E) is_load s = Ok w ->
  decode w = cut_fields (if is_load then Load s else Store s).
Proof.
  destruct s as [size d base m]. unfold load_store_word. cbn [ls_size ls_data ls_base ls_mem].
  intros (z & [Hz Hcases]%access_size_cases & [= <-])%result_bind_ok.
  transitivity (z ← match size with S64 => Some 3 | S32 => Some 2 | S16 => Some 1 | S8 => Some 0 | S0 => None end;
    Some (Access is_load (Z.shiftl 1 z) (low 5 d) (low 5 base) match m with
      | OffsetScaled imm12 => BaseImm (Z.shiftl (low 12 imm12) z)
      | Offset imm9 => BaseImm (as_i 9 imm9)
      | OffsetPreIndex imm9 => PreIndex (as_i 9 imm9)
      | OffsetPostIndex imm9 => PostIndex (as_i 9 imm9)
      | OffsetIndexShift idx shift => BaseRegister (low 5 idx) (if shift then z else 0)
      end)); [|by destruct is_load].
  rewrite Hz. cbn [mbind option_bind]. clear Hz. rewrite (at_bit_place z 2 30) by (done || lia).
  assert (Hlow : low 2 z = z) by (unfold low; rewrite Z.land_ones by lia; by apply Z.mod_small).
  destruct m as [imm|imm|imm|imm|idx []], is_load; read_access; rewrite ?Hlow; rewrite ?as_i_low_id by lia; done.
Qed.

(** Fields the encoder does not mask. *)
Definition encodable (i : ARM64Instruction) : Prop :=
  match i with
  | AddSubImm s => as_shift_mode s = 0 \/ as_shift_mode s = 1
  | MovWideImm s => is_u 16 (wi_imm16 s)
  | BranchImm26 s => br_opcode s = 0x05 \/ br_opcode s = 0x25
  | _ => True
  end.

Lemma word_decode {E} i w : encodable i -> word (E := E) i = Ok w -> decode w = cut_fields i.
Proof.
  intros Hi Hw. destruct i; cbn [word] in Hw; try (injection Hw as <-).
  - apply (shifted_register_decodes false).
  - apply (shifted_register_decodes true).
  - by apply add_sub_imm_decodes.
  - apply conditional_branch_decodes.
  - apply (logical_imm_decodes false).
  - apply (logical_imm_decodes true).
  - by apply mov_wide_decodes.
  - apply (data_processing_decodes true).
  - apply (data_processing_decodes false).
  - apply three_source_decodes.
  - by apply branch_imm26_decodes.
  - apply blr_decodes.
  - exact (load_store_decodes true _ _ Hw).
  - exact (load_store_decodes false _ _ Hw).
  - vm_compute. reflexivity.
Qed.

(** ** The bytes *)
Lemma place_is_u v bits p : 0 <= bits -> 0 <= p -> bits + p <= 32 -> is_u 32 (place v bits p).
Proof.
  intros. apply (is_u_mono (bits + p)); [lia|]. unfold place, is_u. rewrite Z.land_ones, Z.shiftl_mul_pow2 by lia.
  pose proof (Z.mod_pos_bound v (2 ^ bits) ltac:(lia)). rewrite Z.pow_add_r by lia. nia.
Qed.

Lemma lor_all_is_u l : Forall (is_u 32) l -> is_u 32 (lor_all l).
Proof.
  unfold lor_all. assert (Hacc : forall acc, is_u 32 acc -> Forall (is_u 32) l -> is_u 32 (foldl Z.lor acc l)).
  { induction l as [|x l IH]; intros acc Hacc Hl; [done|]. apply Forall_cons in Hl as [Hx Hl].
    apply IH; [|done]. by apply lor_is_u. }
  by apply Hacc.
Qed.

Ltac word_bound :=
  repeat first [apply lor_all_is_u | apply Forall_cons_2 | apply Forall_nil_2 | apply place_is_u; lia
               | apply as_u_range; lia | done | case_match].

Lemma word_is_u {E} i w : word (E := E) i = Ok w -> is_u 32 w.
Proof.
  destruct i; cbn [word]; try (intros [= <-];
    unfold shifted_register_word, data_processing_word, three_source_word, add_sub_imm_word, logical_imm_word,
      mov_wide_word, conditional_branch_word, branch_imm26_word, blr_word, at_bit; word_bound).
  all: intros (z & _ & [= <-])%result_bind_ok; unfold access_operand, access_opcode, at_bit; word_bound.
Qed.

(** An instruction that has no size to load or store. *)
Definition sizeless (i : ARM64Instruction) : bool :=
  match i with Load s | Store s => size_eqb (ls_size s) S0 | _ => false end.

Lemma word_defined {E} i : sizeless i = false -> exists w, word (E := E) i = Ok w.
Proof. destruct i as [| | | | | | | | | | | |[[] ? ? ?]|[[] ? ? ?]|]; cbn; intros; simplify_eq; eauto. Qed.

(** ** The instruction the fields name *)
(** The operand size of an operation on 64 or 32 bits, and that of an access. *)
Definition size_of (wide : bool) : OperandSize := if wide then S64 else S32.
Definition bytes_of (size : OperandSize) : Z :=
  match size with S64 => 8 | S32 => 4 | S16 => 2 | S8 => 1 | S0 => 0 end.

(** The operations by the numbers of the architecture. *)
Definition logical_code (op : logical_op) : Z := match op with LAnd => 0 | LOrr => 1 | LEor => 2 | LAnds => 3 end.
Definition bitfield_code (op : bitfield_op) : Z := match op with SBFM => 0 | BFM => 1 | UBFM => 2 end.
Definition wide_code (op : wide_op) : Z := match op with MOVN => 0 | MOVZ => 2 | MOVK => 3 end.

(** A memory operand in range: a scaled offset counts accesses, an index is
    shifted by three bits, which the architecture has for accesses of 64 bits. *)
Inductive names_operand (size : OperandSize) : ARM64MemoryOperand -> access_form -> Prop :=
| names_scaled imm12 : is_u 12 imm12 -> names_operand size (OffsetScaled imm12) (BaseImm (imm12 * bytes_of size))
| names_offset imm9 : is_i 9 imm9 -> names_operand size (Offset imm9) (BaseImm imm9)
| names_pre imm9 : is_i 9 imm9 -> names_operand size (OffsetPreIndex imm9) (PreIndex imm9)
| names_post imm9 : is_i 9 imm9 -> names_operand size (OffsetPostIndex imm9) (PostIndex imm9)
| names_index r : is_u 5 r -> names_operand size (OffsetIndexShift r false) (BaseRegister r 0)
| names_shifted r : is_u 5 r -> size = S64 -> names_operand size (OffsetIndexShift r true) (BaseRegister r 3).

Inductive names : ARM64Instruction -> a64 -> Prop :=
| names_logical wide op invert amount d a b : is_u 5 d -> is_u 5 a -> is_u 5 b -> 0 <= amount < width wide ->
    names (LogicalRegister (mkShiftedRegister (size_of wide) (logical_code op) (Z.b2z invert) LSL d a b amount))
      (Logical wide op invert ShLSL amount d a b)
| names_add_sub wide sub flags amount d a b : is_u 5 d -> is_u 5 a -> is_u 5 b -> 0 <= amount < width wide ->
    names (AddSubRegister (mkShiftedRegister (size_of wide) (2 * Z.b2z sub + Z.b2z flags) 0 LSL d a b amount))
      (AddSub wide sub flags ShLSL amount d a b)
| names_add_sub_imm wide sub flags high d a imm12 : is_u 5 d -> is_u 5 a -> is_u 12 imm12 ->
    names (AddSubImm (mkAddSubImm (size_of wide) (Z.b2z sub) (Z.b2z flags) (Z.b2z high) d a imm12))
      (AddSubImmediate wide sub flags (if high then imm12 * 2 ^ 12 else imm12) d a)
| names_logical_imm wide op n immr imms mask d a : is_u 5 d -> is_u 5 a -> is_u 1 n -> is_u 6 immr -> is_u 6 imms ->
    bit_mask wide n immr imms = Some mask ->
    names (LogicalImm (mkLogicalImm (size_of wide) (logical_code op) n d a immr imms))
      (LogicalImmediate wide op mask d a)
| names_bitfield wide op immr imms d a : is_u 5 d -> is_u 5 a -> 0 <= immr < width wide -> 0 <= imms < width wide ->
    names (BitfieldImm (mkLogicalImm (size_of wide) (bitfield_code op) (Z.b2z wide) d a immr imms))
      (Bitfield wide op immr imms d a)
| names_wide wide op hw d imm16 : is_u 5 d -> is_u 16 imm16 -> 0 <= 16 * hw < width wide ->
    names (MovWideImm (mkWideImm (size_of wide) (wide_code op) hw d imm16)) (MoveWide wide op (16 * hw) imm16 d)
| names_unary wide f op d a c o0 : is_u 5 d -> is_u 5 a -> is_u 6 f -> unary_of wide f = Some op ->
    names (DataProcessing1Src (mkDataProcessing (size_of wide) f d a 0 c o0)) (Unary wide op d a)
| names_binary wide f op d a b c o0 : is_u 5 d -> is_u 5 a -> is_u 5 b -> is_u 6 f -> binary_of f = Some op ->
    names (DataProcessing2Src (mkDataProcessing (size_of wide) f d a b c o0)) (Binary wide op d a b)
| names_mul_add wide sub d a b c : is_u 5 d -> is_u 5 a -> is_u 5 b -> is_u 5 c ->
    names (DataProcessing3Src (mkDataProcessing (size_of wide) 0 d a b c (Z.b2z sub))) (MulAdd wide sub d a b c)
| names_branch_cond cond imm19 : is_u 4 cond -> is_i 19 imm19 ->
    names (ConditionalBranch (mkConditionalBranch cond imm19)) (BranchCond cond (4 * imm19))
| names_branch (link : bool) imm26 : is_i 26 imm26 ->
    names (BranchImm26 (mkImm26 (if link then 0x25 else 0x05) imm26)) (Branch link (4 * imm26))
| names_blr r : is_u 5 r -> names (BLR (mkBLR r)) (BranchRegister true r)
| names_ret : names RET (Return 30)
| names_access (is_load : bool) size t n operand form : is_u 5 t -> is_u 5 n -> size <> S0 ->
    names_operand size operand form ->
    names ((if is_load then Load else Store) (mkLoadStore size t n operand)) (Access is_load (bytes_of size) t n form).

Lemma low_small n v : 0 <= n -> is_u n v -> low n v = v.
Proof. intros Hn Hv. unfold low. rewrite Z.land_ones by lia. by apply Z.mod_small. Qed.

Lemma amount_fits (wide : bool) z : 0 <= z < width wide -> is_u 6 z /\ (wide || (z <? 32)) = true.
Proof. unfold is_u. destruct wide; cbn; lia. Qed.

(** Fields in range are not cut. *)
Ltac uncut :=
  repeat match goal with
  | H : 0 <= ?z < width ?w |- _ => let Hu := fresh in let Hw := fresh in destruct (amount_fits w z H) as [Hu Hw]; clear H
  | H : is_u ?n ?z |- context [low ?n ?z] => rewrite (low_small n z) by (lia || exact H)
  | H : is_i ?n ?z |- context [as_i ?n ?z] => rewrite (as_i_small n z) by (lia || exact H)
  | H : (_ || _) = true |- _ => rewrite H
  end.

Lemma names_operand_cut size z operand form :
  names_operand size operand form ->
  match size with S64 => Some 3 | S32 => Some 2 | S16 => Some 1 | S8 => Some 0 | S0 => None end = Some z ->
  form = match operand with
    | OffsetScaled imm12 => BaseImm (Z.shiftl (low 12 imm12) z)
    | Offset imm9 => BaseImm (as_i 9 imm9)
    | OffsetPreIndex imm9 => PreIndex (as_i 9 imm9)
    | OffsetPostIndex imm9 => PostIndex (as_i 9 imm9)
    | OffsetIndexShift idx shift => BaseRegister (low 5 idx) (if shift then z else 0)
    end.
Proof.
  intros Ho Hz. destruct Ho as [imm12| | | | |]; uncut; [|done..|by simplify_eq].
  destruct size; simplify_eq; rewrite Z.shiftl_mul_pow2 by lia; done.
Qed.

Lemma wide_size_of wide : wide_size (size_of wide) = wide.
Proof. by destruct wide. Qed.

Lemma hw_fits (wide : bool) hw : 0 <= 16 * hw < width wide -> is_u 2 hw /\ negb wide && (2 <=? hw) = false.
Proof. unfold is_u. destruct wide; cbn; lia. Qed.

(** The goal with the fields of the format in place. *)
Ltac with_fields :=
  cbn [cut_fields sr_size sr_opcode sr_n sr_dest sr_src1 sr_src2 sr_imm6 dp_size dp_opcode dp_dest dp_src1 dp_src2
    dp_src3 dp_o0 as_size as_opcode as_sets_flags as_shift_mode as_dest as_src as_imm12 li_size li_opcode li_n
    li_dest li_src li_immr li_imms wi_size wi_opcode wi_hw wi_dest wi_imm16 cb_cond cb_imm19 br_opcode br_imm26
    blr_target ls_size ls_data ls_base ls_mem]; rewrite ?wide_size_of; uncut.

Lemma names_cut i a : names i a -> encodable i /\ sizeless i = false /\ cut_fields i = Some a.
Proof.
  destruct 1 as [wide op inv| |wide sub flags high| |wide op|wide op hw d imm16 Hd Hi Hhw|wide f op|wide f op|wide sub| |
    link| | |is_load size t n operand form Ht Hn Hs Ho].
  - split_and!; [done..|]. with_fields. by destruct op, inv.
  - split_and!; [done..|]. with_fields. by destruct sub, flags.
  - split_and!; [by destruct high; [right|left]|done|]. with_fields.
    destruct sub, flags, high; cbn [Z.b2z]; rewrite Z.shiftl_mul_pow2 by lia; f_equal; f_equal; lia.
  - split_and!; [done..|]. with_fields. by destruct op; cbn; simplify_option_eq.
  - split_and!; [done..|]. with_fields. by destruct op, wide.
  - split_and!; [done..|]. destruct (hw_fits wide hw Hhw) as [Hu Hw]. with_fields. rewrite Hw. by destruct op.
  - split_and!; [done..|]. with_fields. by simplify_option_eq.
  - split_and!; [done..|]. with_fields. by simplify_option_eq.
  - split_and!; [done..|]. with_fields. by destruct sub.
  - split_and!; [done..|]. by with_fields.
  - split_and!; [by destruct link; [right|left]|done|]. with_fields. by destruct link.
  - split_and!; [done..|]. by with_fields.
  - done.
  - destruct size, is_load; try done; (split_and!; [done..|]); with_fields; cbn [mbind option_bind];
      by rewrite (names_operand_cut _ _ operand form Ho eq_refl).
Qed.

