(* ===== verification/A64Facts.v ===== *)
(** * What the instructions of the AArch64 encoder compute

    The words of the constructors, decoded and executed by [A64Isa]: moves,
    arithmetic, extensions and shifts compute what their names say, a comparison
    followed by a conditional branch jumps on the relation the condition is
    documented with, and what is pushed is popped.  Then the theorems at
    concrete registers, and encodings the encoder makes of values it does not
    check. *)

From stdpp Require Import strings.
From S2P Require Import Prelude Ebpf Program X86 Error Vm PageAllocator JitProgram Aarch64 A64Isa.
From S2P Require Import A64Encode.

(** A register that is neither the stack pointer nor the zero register. *)
Definition general (r : Z) : Prop := 0 <= r < 31.

(** The word of an instruction takes [m] to [m']. *)
Definition executes {E} (r : result E ARM64Instruction) (m m' : machine) : Prop :=
  exists i w, r = Ok i /\ word (E := E) i = Ok w /\ run_word w m = Some m'.

Lemma executes_intro {E} (i : ARM64Instruction) m m' :
  encodable i -> sizeless i = false -> (cut_fields i ≫= fun a => exec a m) = Some m' ->
  executes (E := E) (Ok i) m m'.
Proof.
  intros Hi Hs Hm. destruct (word_defined (E := E) i Hs) as [w Hw]. exists i, w. split_and!; [done..|].
  unfold run_word. by rewrite (word_decode i w Hi Hw).
Qed.

Lemma low_general r : general r -> low 5 r = r.
Proof. intros Hr. apply low_small; [lia|]. unfold is_u, general in *. lia. Qed.

Lemma general_31 r : general r -> (r =? 31) = false.
Proof. unfold general. lia. Qed.

(** The operand size of an instruction on registers. *)
Definition bits (size : OperandSize) : Z := width (wide_size size).
(** The operand in a register. *)
Definition value (size : OperandSize) (m : machine) (r : Z) : Z := as_u (bits size) (regs m r).
(** One register set, and the next instruction. *)
Definition result_in (m : machine) (r v : Z) : machine := next (set_reg m r v).

Lemma bits_cases size : bits size = 64 \/ bits size = 32.
Proof. unfold bits. destruct (wide_size size); auto. Qed.

Lemma value_range size m r : is_u (bits size) (value size m r).
Proof. apply as_u_range. destruct (bits_cases size); lia. Qed.
#[local] Hint Resolve value_range : core.

Lemma shift_by_zero n x : is_u n x -> shift_value n ShLSL x 0 = x.
Proof. intros. cbn. rewrite Z.shiftl_0_r. by apply as_u_small. Qed.

(** Reading and writing general registers. *)
Ltac registers :=
  repeat match goal with
  | |- context [low ?n ?c] => closed_z c; evaluate (low n c)
  | H : general ?r |- context [low 5 ?r] => rewrite (low_general r H)
  | H : general ?r |- context [?r =? 31] => rewrite (general_31 r H)
  end.
Ltac run_constructor :=
  apply executes_intro; [first [done | left; done | right; done]|done|]; cbv [cut_fields mov orr and eor tst add sub cmp mvn lsl_reg lsr_reg asr_reg
    udiv sdiv madd msub shifted_register data_processing sr_size sr_opcode sr_n sr_dest sr_src1 sr_src2 sr_imm6
    sr_shift_type dp_size dp_opcode dp_dest dp_src1 dp_src2 dp_src3 dp_o0 shifted_register_default
    data_processing_default SP_XZR].

(** The two-operand constructors on registers: each sets its destination to the
    value its name says, of the operands at the operand size, and nothing else
    but the program counter. *)
Lemma logical_constructors {E} size (m : machine) (a b d : Z) : general a -> general b -> general d ->
  let x := value size m in
  executes (E := E) (Ok (mov size a d)) m (result_in m d (x a)) /\
  executes (E := E) (Ok (orr size a d)) m (result_in m d (Z.lor (x d) (x a))) /\
  executes (E := E) (Ok (and size a b d)) m (result_in m d (Z.land (x a) (x b))) /\
  executes (E := E) (Ok (eor size a d)) m (result_in m d (Z.lxor (x d) (x a))) /\
  executes (E := E) (Ok (mvn size a d)) m (result_in m d (as_u (bits size) (Z.lnot (x a)))).
Proof.
  intros Ha Hb Hd x. split_and!; run_constructor; change (low 6 0) with 0;
    rewrite orb_true_r; cbn [mbind option_bind exec]; fold (bits size); unfold get, put; registers;
    change (as_u (width (wide_size size)) (regs m ?r)) with (value size m r);
    rewrite ?shift_by_zero by done; unfold result_in; cbn; rewrite ?Z.lor_0_l; done.
Qed.

Lemma sub_value n x y : 0 < n -> (add_sub n true x y).1 = as_u n (x - y).
Proof.
  intros Hn. cbn. unfold as_u. rewrite <- Z.add_assoc, Z.add_comm, <- Z.add_assoc, Z.add_mod_idemp_l by lia.
  f_equal. unfold Z.lnot. lia.
Qed.
Lemma add_value n x y : (add_sub n false x y).1 = as_u n (x + y).
Proof. cbn. by rewrite Z.add_0_r. Qed.

Lemma exec_add_sub wide sub rd rn rm m : general rd -> general rn -> general rm ->
  exec (AddSub wide sub false ShLSL 0 rd rn rm) m =
  Some (result_in m rd (as_u (width wide) (if sub then get wide m rn - get wide m rm else get wide m rn + get wide m rm))).
Proof.
  intros Hd Hn Hm. cbn [exec]. rewrite shift_by_zero.
  2:{ unfold get. rewrite (general_31 rm Hm). apply as_u_range. destruct wide; cbn; lia. }
  destruct (add_sub _ _ _ _) as [v f] eqn:Hv. apply (f_equal fst) in Hv.
  unfold put. rewrite (general_31 rd Hd). destruct sub.
  - rewrite sub_value in Hv by (destruct wide; cbn; lia). cbn in Hv. by subst v.
  - rewrite add_value in Hv. cbn in Hv. by subst v.
Qed.

Lemma value_get size m r : general r -> get (wide_size size) m r = value size m r.
Proof. intros Hr. unfold get. by rewrite (general_31 r Hr). Qed.

(** The arithmetic constructors on registers.  A division by zero gives zero, a
    shift counts modulo the operand size. *)
Lemma arithmetic_constructors {E} size (m : machine) (a b c d : Z) : general a -> general b -> general c -> general d ->
  let n := bits size in let x := value size m in
  executes (E := E) (Ok (add size a b d)) m (result_in m d (as_u n (x a + x b))) /\
  executes (E := E) (Ok (sub size a b d)) m (result_in m d (as_u n (x a - x b))) /\
  executes (E := E) (Ok (madd size a b c d)) m (result_in m d (as_u n (x c + x a * x b))) /\
  executes (E := E) (Ok (msub size a b c d)) m (result_in m d (as_u n (x c - x a * x b))) /\
  executes (E := E) (Ok (udiv size a b d)) m (result_in m d (if x b =? 0 then 0 else x a / x b)) /\
  executes (E := E) (Ok (sdiv size a b d)) m
    (result_in m d (if x b =? 0 then 0 else as_u n (Z.quot (as_i n (x a)) (as_i n (x b))))) /\
  executes (E := E) (Ok (lsl_reg size a b d)) m (result_in m d (as_u n (Z.shiftl (x a) (x b mod n)))) /\
  executes (E := E) (Ok (lsr_reg size a b d)) m (result_in m d (Z.shiftr (x a) (x b mod n))) /\
  executes (E := E) (Ok (asr_reg size a b d)) m (result_in m d (as_u n (Z.shiftr (as_i n (x a)) (x b mod n)))).
Proof.
  intros Ha Hb Hc Hd n x. split_and!; run_constructor.
  1,2: change (low 6 0) with 0; rewrite orb_true_r; registers; cbn -[exec];
    rewrite exec_add_sub by done; by rewrite !value_get.
  all: registers; cbn -[get as_u Z.sub]; unfold put; registers; rewrite ?value_get by done; done.
Qed.

(** ** Bit-field moves *)
(** The bits of a rotation. *)
Lemma ror_bits n x r i : 0 < n -> is_u n x -> 0 <= r < n -> 0 <= i < n ->
  Z.testbit (ror n x r) i = Z.testbit x (if i + r <? n then i + r else i + r - n).
Proof.
  intros Hn Hx Hr Hi. unfold ror. rewrite (Z.mod_small r) by lia.
  rewrite Z.lor_spec, Z.shiftr_spec, Z.land_spec, Z.testbit_ones by lia.
  replace ((0 <=? i) && (i <? n)) with true by lia. rewrite andb_true_r.
  destruct (decide (r = 0)) as [->|Hr0].
  - rewrite Z.sub_0_r, Z.mod_same, Z.shiftl_0_r, Z.add_0_r, orb_diag by lia.
    by replace (i <? n) with true by lia.
  - rewrite (Z.mod_small (n - r)), Z.shiftl_spec by lia. replace (i - (n - r)) with (i + r - n) by lia.
    destruct (i + r <? n) eqn:Hc.
    + rewrite (Z.testbit_neg_r x (i + r - n)) by lia. apply orb_false_r.
    + by rewrite (testbit_is_u n x (i + r)) by (done || lia).
Qed.

Lemma bits_inj_u n a b : is_u n a -> is_u n b -> (forall i, 0 <= i < n -> Z.testbit a i = Z.testbit b i) -> a = b.
Proof.
  intros Ha Hb Hi. apply Z.bits_inj'. intros i Hi0. destruct (decide (i < n)); [auto|].
  by rewrite (testbit_is_u n a), (testbit_is_u n b) by (done || lia).
Qed.

Lemma ones_is_u k n : 0 <= k <= n -> is_u n (Z.ones k).
Proof.
  intros Hk. apply (is_u_mono k); [lia|]. unfold is_u. rewrite Z.ones_equiv. lia.
Qed.

(** The bits a zero-filling move takes: those up to [imms], rotated. *)
Lemma ubfm_bits n immr imms x old : 0 < n -> is_u n x -> 0 <= immr < n -> 0 <= imms < n ->
  is_u n (bitfield n UBFM immr imms x old) /\
  forall i, 0 <= i < n -> Z.testbit (bitfield n UBFM immr imms x old) i =
    let j := if i + immr <? n then i + immr else i + immr - n in
    Z.testbit x j && (j <=? imms) && (i <=? (imms - immr) mod n).
Proof.
  intros Hn Hx Hr Hs. pose proof (Z.mod_pos_bound (imms - immr) n Hn) as Hm.
  assert (Hbit : forall i, 0 <= i -> Z.testbit (bitfield n UBFM immr imms x old) i =
    Z.testbit (ror n x immr) i && Z.testbit (ror n (Z.ones (imms + 1)) immr) i && (i <=? (imms - immr) mod n)).
  { intros i Hi. unfold bitfield; cbn zeta iota. rewrite Z.lor_spec, Z.ldiff_spec, Z.bits_0, !Z.land_spec, Z.testbit_ones by lia.
    cbn [andb orb]. f_equal. lia. }
  split.
  - apply is_u_testbit; [lia| |].
    + unfold bitfield; cbn zeta iota. rewrite Z.ldiff_0_l, Z.lor_0_l. apply Z.land_nonneg. right.
      apply (ones_is_u _ n); lia.
    + intros k Hk. rewrite Hbit by lia. replace (k <=? _) with false by lia. apply andb_false_r.
  - intros i Hi. rewrite Hbit by lia. rewrite !ror_bits by (done || lia || apply ones_is_u; lia).
    cbn zeta. rewrite Z.testbit_ones by lia. f_equal. f_equal. destruct (i + immr <? n) eqn:?; lia.
Qed.

(** A move of the low bits, a shift right and a shift left. *)
Lemma ubfm_extract n k x old : 0 < k <= n -> is_u n x -> bitfield n UBFM 0 (k - 1) x old = as_u k x.
Proof.
  intros Hk Hx. destruct (ubfm_bits n 0 (k - 1) x old) as [Hu Hb]; [lia|done|lia|lia|].
  apply (bits_inj_u n); [done|apply (is_u_mono k); [lia|apply as_u_range; lia]|]. intros i Hi.
  rewrite Hb by done. cbn zeta. rewrite Z.add_0_r, Z.sub_0_r, (Z.mod_small (k - 1)) by lia.
  replace (i <? n) with true by lia. unfold as_u. destruct (decide (i < k)).
  - rewrite Z.mod_pow2_bits_low by lia. replace (i <=? k - 1) with true by lia. by rewrite !andb_true_r.
  - rewrite Z.mod_pow2_bits_high by lia. replace (i <=? k - 1) with false by lia. apply andb_false_r.
Qed.

Lemma ubfm_shift_right n k x old : 0 <= k < n -> is_u n x -> bitfield n UBFM k (n - 1) x old = Z.shiftr x k.
Proof.
  intros Hk Hx. destruct (ubfm_bits n k (n - 1) x old) as [Hu Hb]; [lia|done|lia|lia|].
  apply (bits_inj_u n); [done| |].
  { unfold is_u in *. rewrite Z.shiftr_div_pow2 by lia. split; [apply Z.div_pos; lia|].
    apply Z.le_lt_trans with x; [|lia]. apply Z.div_le_upper_bound; [lia|]. nia. }
  intros i Hi. rewrite Hb, Z.shiftr_spec by lia. cbn zeta. rewrite (Z.mod_small (n - 1 - k)) by lia.
  destruct (i + k <? n) eqn:Hc.
  - replace (i + k <=? n - 1) with true by lia. replace (i <=? n - 1 - k) with true by lia. by rewrite !andb_true_r.
  - replace (i <=? n - 1 - k) with false by lia. by rewrite andb_false_r, (testbit_is_u n x) by (done || lia).
Qed.

Lemma ubfm_shift_left n k x old : 0 < k < n -> is_u n x ->
  bitfield n UBFM (n - k) (n - 1 - k) x old = as_u n (Z.shiftl x k).
Proof.
  intros Hk Hx. destruct (ubfm_bits n (n - k) (n - 1 - k) x old) as [Hu Hb]; [lia|done|lia|lia|].
  apply (bits_inj_u n); [done|apply as_u_range; lia|]. intros i Hi.
  rewrite Hb by done. cbn zeta. replace ((n - 1 - k - (n - k)) mod n) with (n - 1).
  2:{ replace (n - 1 - k - (n - k)) with (n - 1 + (-1) * n) by lia. rewrite Z.mod_add, Z.mod_small by lia. lia. }
  unfold as_u. rewrite Z.mod_pow2_bits_low, Z.shiftl_spec by lia. replace (i <=? n - 1) with true by lia.
  rewrite andb_true_r. destruct (i + (n - k) <? n) eqn:Hc.
  - rewrite (Z.testbit_neg_r x (i - k)) by lia. replace (i + (n - k) <=? n - 1 - k) with false by lia.
    apply andb_false_r.
  - replace (i + (n - k) - n) with (i - k) by lia. replace (i - k <=? n - 1 - k) with true by lia.
    apply andb_true_r.
Qed.

(** A move of the low bits below their sign. *)
Lemma sbfm_extract n k x old : 0 < k <= n -> is_u n x -> bitfield n SBFM 0 (k - 1) x old = as_u n (as_i k x).
Proof.
  intros Hk Hx. transitivity (Z.lor (Z.ldiff (if Z.testbit x (k - 1) then Z.ones n else 0) (Z.ones k))
    (bitfield n UBFM 0 (k - 1) x old)).
  { unfold bitfield; cbn zeta iota. rewrite Z.ldiff_0_l, Z.lor_0_l. rewrite Z.sub_0_r, (Z.mod_small (k - 1)) by lia.
    by replace (k - 1 + 1) with k by lia. }
  rewrite ubfm_extract by done. pose proof (as_u_range k x ltac:(lia)) as Hu. unfold is_u in Hu.
  assert (Hi : as_i k x = if Z.testbit x (k - 1) then as_u k x - 2 ^ k else as_u k x).
  { unfold as_i. fold (as_u k x). pose proof (pow2_pred k ltac:(lia)) as Hp.
    assert (Ht : Z.testbit x (k - 1) = (2 ^ (k - 1) <=? as_u k x)).
    { rewrite <- (Z.mod_pow2_bits_low x k) by lia. fold (as_u k x). rewrite Z.testbit_eqb by lia.
      assert (Hd : as_u k x / 2 ^ (k - 1) = if 2 ^ (k - 1) <=? as_u k x then 1 else 0).
      { destruct (2 ^ (k - 1) <=? as_u k x) eqn:?; symmetry; [apply (Z.div_unique _ _ 1 (as_u k x - 2 ^ (k - 1)))|
          apply (Z.div_unique _ _ 0 (as_u k x))]; lia. }
      rewrite Hd. by destruct (_ <=? _). }
    rewrite Ht. destruct (as_u k x <? 2 ^ (k - 1)) eqn:?, (2 ^ (k - 1) <=? as_u k x) eqn:?; lia. }
  rewrite Hi. pose proof (Z.pow_le_mono_r 2 k n ltac:(lia) ltac:(lia)) as Hpow. destruct (Z.testbit x (k - 1)).
  - assert (Hd : Z.ldiff (Z.ones n) (Z.ones k) = (2 ^ (n - k) - 1) * 2 ^ k).
    { rewrite Z.ldiff_ones_r by lia. rewrite Z.shiftl_mul_pow2, Z.shiftr_div_pow2 by lia. f_equal.
      rewrite Z.ones_equiv. replace n with ((n - k) + k) at 1 by lia. rewrite Z.pow_add_r by lia.
      symmetry. apply (Z.div_unique _ _ _ (2 ^ k - 1)); lia. }
    rewrite Hd, lor_disjoint_add by lia. rewrite <- (as_u_small n) at 1; [|unfold is_u].
    2:{ assert (2 ^ n = 2 ^ (n - k) * 2 ^ k) by (rewrite <- Z.pow_add_r by lia; f_equal; lia). nia. }
    assert (Hn : (2 ^ (n - k) - 1) * 2 ^ k + as_u k x = as_u k x - 2 ^ k + 1 * 2 ^ n).
    { assert (2 ^ n = 2 ^ (n - k) * 2 ^ k) by (rewrite <- Z.pow_add_r by lia; f_equal; lia). nia. }
    rewrite Hn. apply as_u_add_mul. lia.
  - rewrite Z.ldiff_0_l, Z.lor_0_l. symmetry. apply as_u_small. unfold is_u. lia.
Qed.

(** ** Constructors with an immediate *)
Ltac fixed_size := change (wide_size S32) with false; change (wide_size S64) with true.
Section Immediate.
Context {E : Type} `{Profile}.

Lemma asserted (b : bool) (r : result E ARM64Instruction) m m' :
  b = true -> executes r m m' -> executes (_ ← debug_assert b; r) m m'.
Proof. intros -> Hr. unfold debug_assert. by rewrite andb_false_r. Qed.

Lemma exec_bitfield wide op immr imms d s m v : general d -> general s ->
  bitfield (width wide) op immr imms (as_u (width wide) (regs m s)) (get wide m d) = v ->
  exec (Bitfield wide op immr imms d s) m = Some (result_in m d v).
Proof. intros Hd Hs <-. cbn [exec]. unfold put. registers. unfold get at 1. by registers. Qed.

(** The bits an operand of a size has in a register. *)
Definition operand_bits (size : OperandSize) : Z :=
  match size with S0 => 0 | S8 => 8 | S16 => 16 | S32 => 32 | S64 => 64 end.

Lemma extension_constructors size (m : machine) (s d : Z) : size = S8 \/ size = S16 \/ size = S32 ->
  general s -> general d ->
  executes (E := E) (zero_extend_to_u64 size s d) m (result_in m d (as_u (operand_bits size) (regs m s))) /\
  executes (E := E) (sign_extend_to_i64 size s d) m
    (result_in m d (as_u 64 (as_i (operand_bits size) (regs m s)))).
Proof.
  intros Hsize Hs Hd. assert (Hr : forall n, 0 <= n -> is_u n (as_u n (regs m s))) by (intros; by apply as_u_range).
  split.
  - destruct Hsize as [->|[->| ->]]; unfold zero_extend_to_u64.
    3: exact (proj1 (logical_constructors S32 m s s d Hs Hs Hd)).
    all: apply executes_intro; [done|done|]; cbn -[low as_u]; registers; fixed_size; cbn -[exec as_u]; apply exec_bitfield; [done..|];
      cbn [width]; first [rewrite (ubfm_extract 32 8) by (lia || apply Hr; lia)
        |rewrite (ubfm_extract 32 16) by (lia || apply Hr; lia)]; by rewrite as_u_as_u by lia.
  - destruct Hsize as [->|[->| ->]]; unfold sign_extend_to_i64; apply executes_intro; [done|done| |done|done| |done|done|];
      cbn -[low as_u]; registers; fixed_size; cbn -[exec as_u]; apply exec_bitfield; try done; cbn [width operand_bits].
    + rewrite (sbfm_extract 64 8) by (lia || apply Hr; lia). f_equal. apply as_i_congr. by rewrite as_u_as_u by lia.
    + rewrite (sbfm_extract 64 16) by (lia || apply Hr; lia). f_equal. apply as_i_congr. by rewrite as_u_as_u by lia.
    + rewrite (sbfm_extract 64 32) by (lia || apply Hr; lia). f_equal. apply as_i_congr. by rewrite as_u_as_u by lia.
Qed.

Lemma shift_constructors (m : machine) (s k d : Z) : general s -> general d -> 0 < k < 64 ->
  executes (E := E) (lsl_imm s k d) m (result_in m d (as_u 64 (Z.shiftl (value S64 m s) k))) /\
  executes (E := E) (lsr_imm s k d) m (result_in m d (Z.shiftr (value S64 m s) k)).
Proof.
  intros Hs Hd Hk. split; apply asserted; try lia.
  - unfold arith_i8, arith_u8. rewrite (as_i_small 8 k) by (lia || unfold is_i; cbn; lia).
    rewrite !bool_decide_true by (unfold is_i, is_u; lia). cbn [mbind result_bind].
    replace ((- k) mod 64) with (64 - k).
    2:{ apply (Z.mod_unique _ _ (-1)); lia. }
    apply executes_intro; [done|done|]. cbn -[low as_u]. rewrite (low_small 6 (64 - k)), (low_small 6 (63 - k)) by (unfold is_u; lia).
    registers. fixed_size. cbn -[exec as_u Z.sub]. apply exec_bitfield; [done..|]. cbn [width].
    replace (63 - k) with (64 - 1 - k) by lia. by apply ubfm_shift_left; [lia|apply as_u_range].
  - apply executes_intro; [done|done|]. cbn -[low as_u]. rewrite (low_small 6 k) by (unfold is_u; lia).
    registers. fixed_size. cbn -[exec as_u]. apply exec_bitfield; [done..|]. cbn [width].
    by apply (ubfm_shift_right 64 k); [lia|apply as_u_range].
Qed.
End Immediate.

(** ** Comparisons and branches *)
(** The relation a condition is documented with. *)
Definition related (c : Condition) (n x y : Z) : bool :=
  match c with
  | EQ => x =? y
  | NE => negb (x =? y)
  | CS => y <=? x
  | CC => x <? y
  | HI => y <? x
  | LS => x <=? y
  | GE => as_i n y <=? as_i n x
  | LT => as_i n x <? as_i n y
  | GT => as_i n y <? as_i n x
  | LE => as_i n x <=? as_i n y
  end.

Lemma testbit_sign n v : 0 < n -> is_u n v -> Z.testbit v (n - 1) = (as_i n v <? 0).
Proof.
  intros Hn Hv. unfold as_i, is_u in *. cbn zeta. rewrite (Z.mod_small v) by lia. pose proof (pow2_pred n Hn) as Hp.
  rewrite Z.testbit_eqb by lia. assert (Hd : v / 2 ^ (n - 1) = if v <? 2 ^ (n - 1) then 0 else 1).
  { destruct (v <? 2 ^ (n - 1)) eqn:?; symmetry; [apply (Z.div_unique _ _ 0 v)|apply (Z.div_unique _ _ 1 (v - 2 ^ (n - 1)))]; lia. }
  rewrite Hd. destruct (v <? 2 ^ (n - 1)) eqn:?; [change (0 mod 2) with 0|change (1 mod 2) with 1]; lia.
Qed.

Lemma as_i_value n v : 0 < n -> is_u n v -> as_i n v = if v <? 2 ^ (n - 1) then v else v - 2 ^ n.
Proof. intros Hn Hv. unfold as_i, is_u in *. by rewrite (Z.mod_small v) by lia. Qed.

Lemma lnot_value n y : 0 < n -> is_u n y -> as_u n (Z.lnot y) = 2 ^ n - 1 - y.
Proof.
  intros Hn Hy. unfold as_u, is_u, Z.lnot in *. symmetry. apply (Z.mod_unique _ _ (-1)); lia.
Qed.

(** The flags a subtraction leaves. *)
Lemma compare_flags n x y : 0 < n -> is_u n x -> is_u n y ->
  let f := (add_sub n true x y).2 in
  flag_z f = (x =? y) /\ flag_c f = (y <=? x) /\ eqb (flag_n f) (flag_v f) = (as_i n y <=? as_i n x).
Proof.
  intros Hn Hx Hy. cbn. rewrite (lnot_value n y) by done. pose proof (pow2_pred n Hn) as Hp.
  set (r := as_u n (x + (2 ^ n - 1 - y) + 1)). assert (Hr : is_u n r) by (apply as_u_range; lia).
  assert (Hrv : r = if y <=? x then x - y else x - y + 2 ^ n).
  { unfold r, as_u. unfold is_u in *. destruct (y <=? x) eqn:?; symmetry; [apply (Z.mod_unique _ _ 1)|apply (Z.mod_unique _ _ 0)]; lia. }
  rewrite testbit_sign by done. rewrite (as_i_value n r), (as_i_value n x), (as_i_value n y), (as_i_value n (2 ^ n - 1 - y)) by
    (done || unfold is_u in *; lia).
  unfold is_u in *. clearbody r. subst r. split_and!.
  - destruct (y <=? x) eqn:?; lia.
  - destruct (y <=? x) eqn:?; lia.
  - destruct (y <=? x) eqn:?; repeat match goal with |- context [if ?a <? ?b then _ else _] => destruct (a <? b) eqn:? end;
      match goal with |- eqb ?a ?b = ?c => destruct a eqn:?, b eqn:?, c eqn:?; cbn; lia end.
Qed.

Lemma condition_holds c n x y f : flag_z f = (x =? y) -> flag_c f = (y <=? x) ->
  eqb (flag_n f) (flag_v f) = (as_i n y <=? as_i n x) -> (as_i n x = as_i n y <-> x = y) ->
  holds (condition_u8 c) f = related c n x y.
Proof.
  intros Hz Hc Hs Hinj. destruct c; cbn; rewrite ?Hz, ?Hc, ?Hs; try done.
  all: repeat match goal with |- context [?a =? ?b] => destruct (Z.eqb_spec a b) | |- context [?a <=? ?b] => destruct (Z.leb_spec a b)
    | |- context [?a <? ?b] => destruct (Z.ltb_spec a b) end; cbn; try done; lia.
Qed.

Lemma as_i_injective n x y : 0 < n -> is_u n x -> is_u n y -> as_i n x = as_i n y <-> x = y.
Proof.
  intros Hn Hx Hy. split; [|by intros ->]. intros He. apply (f_equal (as_u n)) in He.
  rewrite !as_u_as_i in He by done. by rewrite !as_u_small in He.
Qed.

Lemma subtraction_holds c n x y : 0 < n -> is_u n x -> is_u n y ->
  holds (condition_u8 c) (add_sub n true x y).2 = related c n x y.
Proof.
  intros Hn Hx Hy. destruct (compare_flags n x y Hn Hx Hy) as (Hz & Hc & Hs).
  apply condition_holds; try done. by apply as_i_injective.
Qed.

(** A comparison sets the flags of a subtraction and moves on. *)
Lemma compares {E} size (s d : Z) m : general s -> general d ->
  executes (E := E) (Ok (cmp size s d)) m
    (next (set_flags m (add_sub (bits size) true (value size m d) (value size m s)).2)).
Proof.
  intros Hs Hd. run_constructor. change (low 6 0) with 0. rewrite orb_true_r. registers. cbn -[exec add_sub].
  cbn [exec]. fold (bits size). rewrite !value_get, shift_by_zero by done. by destruct (add_sub _ _ _ _).
Qed.

Lemma compares_imm {E} `{Profile} size (s imm : Z) m : general s -> is_u 12 imm ->
  executes (E := E) (cmp_imm size s imm) m (next (set_flags m (add_sub (bits size) true (value size m s) imm).2)).
Proof.
  intros Hs Himm. apply asserted; [unfold is_u in Himm; change (Z.shiftl 1 12) with 4096; lia|].
  apply executes_intro; [by left|done|]. cbn -[low exec Z.shiftl add_sub]. registers.
  cbn [exec]. unfold get_or_sp, put. registers. rewrite low_small, Z.shiftl_0_r by (done || lia).
  fold (value size m s). fold (bits size). by destruct (add_sub _ _ _ _).
Qed.

Lemma branches {E} c imm m : is_i 19 imm ->
  executes (E := E) (Ok (b_cond c imm)) m
    (if holds (condition_u8 c) (nzcv m) then set_pc m (pc m + 4 * imm) else next m).
Proof.
  intros Himm. apply executes_intro; [done|done|]. cbn -[low exec Z.mul]. rewrite as_i_small by (done || lia).
  assert (Hc : low 4 (condition_u8 c) = condition_u8 c) by (by destruct c). by rewrite Hc.
Qed.

(** C39: A comparison of two registers, or of a register and an immediate, and a
    conditional branch: the branch is taken exactly when the relation its
    condition is documented with holds between the operands, signed or unsigned. *)
Theorem compare_and_branch {E} `{Profile} size c (s d imm k : Z) m :
  general s -> general d -> is_i 19 imm -> is_u 12 k -> is_u 64 (pc m) -> pc m + 8 < 2 ^ 64 ->
  let goes (b : bool) := if b then as_u 64 (pc m + 4 + 4 * imm) else pc m + 8 in
  (exists m1 m2, executes (E := E) (Ok (cmp size s d)) m m1 /\ executes (E := E) (Ok (b_cond c imm)) m1 m2 /\
     regs m2 = regs m /\ mem m2 = mem m /\ sp m2 = sp m /\
     pc m2 = goes (related c (bits size) (value size m d) (value size m s))) /\
  (exists m1 m2, executes (E := E) (cmp_imm size d k) m m1 /\ executes (E := E) (Ok (b_cond c imm)) m1 m2 /\
     regs m2 = regs m /\ mem m2 = mem m /\ sp m2 = sp m /\
     pc m2 = goes (related c (bits size) (value size m d) k)).
Proof.
  intros Hs Hd Himm Hk Hpc Hroom goes. unfold is_u in Hpc.
  assert (Hbits : 0 < bits size) by (destruct (bits_cases size); lia).
  assert (Hpc4 : as_u 64 (pc m + 4) = pc m + 4) by (apply as_u_small; unfold is_u; lia).
  assert (Hk' : is_u (bits size) k) by (apply (is_u_mono 12); [destruct (bits_cases size); lia|done]).
  assert (Hfinal : forall f b, holds (condition_u8 c) f = b -> exists m2,
    executes (E := E) (Ok (b_cond c imm)) (next (set_flags m f)) m2 /\ regs m2 = regs m /\ mem m2 = mem m /\
    sp m2 = sp m /\ pc m2 = goes b).
  { intros f b Hb. eexists. split; [by apply branches|]. unfold next, set_pc, set_flags. cbn. rewrite Hb, Hpc4.
    destruct b; (split_and!; [done..|]); cbn; [done|]. rewrite as_u_small by (unfold is_u; lia). lia. }
  split.
  - destruct (Hfinal _ _ (subtraction_holds c (bits size) (value size m d) (value size m s) Hbits
      (value_range _ _ _) (value_range _ _ _))) as (m2 & Hm2 & Hrest).
    eexists _, m2. split; [by apply compares|]. by split.
  - destruct (Hfinal _ _ (subtraction_holds c (bits size) (value size m d) k Hbits (value_range _ _ _) Hk'))
      as (m2 & Hm2 & Hrest).
    eexists _, m2. split; [by apply compares_imm|]. by split.
Qed.

(** ** Immediates, bytes and the stack *)
Section More.
Context {E : Type} `{Profile}.

Lemma exec_add_sub_imm wide sub imm d s m : general d -> general s ->
  exec (AddSubImmediate wide sub false imm d s) m =
  Some (result_in m d (as_u (width wide) (if sub then as_u (width wide) (regs m s) - imm
                                          else as_u (width wide) (regs m s) + imm))).
Proof.
  intros Hd Hs. cbn [exec]. unfold get_or_sp. registers.
  destruct (add_sub _ _ _ _) as [v f] eqn:Hv. apply (f_equal fst) in Hv. unfold put_or_sp. registers. destruct sub.
  - rewrite sub_value in Hv by (destruct wide; cbn; lia). cbn in Hv. by subst v.
  - rewrite add_value in Hv. cbn in Hv. by subst v.
Qed.

(** The sixteen bits of a register at a lane, replaced or left over ones. *)
Lemma immediate_constructors size (m : machine) (s d imm lane k : Z) :
  general s -> general d -> is_u 12 imm -> 0 <= lane < 4 -> is_u 16 k ->
  executes (E := E) (add_imm size s imm d) m (result_in m d (as_u (bits size) (value size m s + imm))) /\
  executes (E := E) (sub_imm size s imm d) m (result_in m d (as_u (bits size) (value size m s - imm))) /\
  executes (E := E) (movn d lane k) m (result_in m d (as_u 64 (Z.lnot (Z.shiftl k (16 * lane))))) /\
  executes (E := E) (movk d lane k) m
    (result_in m d (Z.lor (Z.ldiff (value S64 m d) (Z.shiftl (Z.ones 16) (16 * lane))) (Z.shiftl k (16 * lane)))).
Proof.
  intros Hs Hd Himm Hl Hk. split_and!; (apply asserted; [unfold is_u in *; change (Z.shiftl 1 12) with 4096; lia|]).
  1,2: apply executes_intro; [by left|done|]; cbn -[low exec Z.shiftl add_sub]; registers;
    rewrite low_small, Z.shiftl_0_r by (done || lia); by rewrite exec_add_sub_imm.
  all: apply executes_intro; [done|done|]; cbn -[low exec Z.mul]; registers;
    rewrite (low_small 2 lane) by (unfold is_u; lia); fixed_size; cbn -[get exec]; cbn [exec]; unfold put;
    registers; unfold get; by registers.
Qed.

(** Bytes reversed: in halfwords for 16 bits, in the whole operand otherwise. *)
Lemma reverse_constructors (m : machine) (s d : Z) : general s -> general d ->
  executes (E := E) (Aarch64.rev S16 s d) m (result_in m d (rev_pieces 4 2 (value S16 m s))) /\
  executes (E := E) (Aarch64.rev S32 s d) m (result_in m d (rev_pieces 4 4 (value S32 m s))) /\
  executes (E := E) (Aarch64.rev S64 s d) m (result_in m d (rev_pieces 8 8 (value S64 m s))).
Proof.
  intros Hs Hd. split_and!; (apply executes_intro; [done|done|]); cbn -[low exec]; registers;
    change (wide_size S16) with false; fixed_size; cbn -[exec]; cbn [exec]; unfold put; registers; unfold get; by registers.
Qed.

(** A test leaves the zero flag of the conjunction. *)
Lemma tests size (s d : Z) m : general s -> general d ->
  executes (E := E) (Ok (tst size s d)) m
    (next (set_flags m (logical_flags (bits size) (Z.land (value size m d) (value size m s))))).
Proof.
  intros Hs Hd. run_constructor. registers. rewrite orb_true_r. cbn -[exec value]. cbn [exec]. fold (bits size).
  rewrite !value_get, shift_by_zero by done. done.
Qed.
End More.

(** A write of [n] bytes is read back, and leaves every byte away from it. *)
Lemma read_written m a n v : 0 <= n < 2 ^ 64 ->
  read_mem (write_mem m a n v) a n = v mod 2 ^ (8 * n).
Proof.
  intros Hn. unfold read_mem, write_mem. cbn [mem].
  assert (Hl : (fun k => (let i := as_u 64 (as_u 64 (a + k) - a) in
      if i <? n then default 0 (le_bytes (Z.to_nat n) v !! Z.to_nat i) else mem m (as_u 64 (a + k)))) <$> seqZ 0 n =
    le_bytes (Z.to_nat n) v).
  { apply list_eq. intros j. rewrite list_lookup_fmap. destruct (decide (j < Z.to_nat n)%nat) as [Hj|Hj].
    - rewrite lookup_seqZ_lt by lia. cbn. rewrite Z.add_0_l.
      replace (as_u 64 (as_u 64 (a + Z.of_nat j) - a)) with (Z.of_nat j).
      2:{ unfold as_u. rewrite Zminus_mod_idemp_l. replace (a + Z.of_nat j - a) with (Z.of_nat j) by lia.
          symmetry. apply Z.mod_small. lia. }
      replace (Z.of_nat j <? n) with true by lia. rewrite Nat2Z.id.
      destruct (lookup_lt_is_Some_2 (le_bytes (Z.to_nat n) v) j) as [x Hx]; [by rewrite length_le_bytes|].
      by rewrite Hx.
    - rewrite lookup_seqZ_ge by lia. symmetry. apply lookup_ge_None_2. rewrite length_le_bytes. lia. }
  transitivity (le_val (le_bytes (Z.to_nat n) v)); [exact (f_equal le_val Hl)|].
  rewrite le_val_le_bytes. by rewrite Z2Nat.id by lia.
Qed.

(** Pushing a register and popping into another, on an aligned stack: the value
    arrives, the stack pointer is back, and only the eight bytes written below it
    have changed. *)
Theorem push_pop {E} `{Profile} (r q : Z) m : general r -> general q -> is_u 64 (sp m) -> sp m mod 16 = 0 ->
  let slot := as_u 64 (sp m - 16) in
  exists m1 m2, executes (E := E) (push64 r) m m1 /\ executes (E := E) (pop64 q) m1 m2 /\
    sp m1 = slot /\ slot mod 16 = 0 /\ sp m2 = sp m /\ nzcv m2 = nzcv m /\
    (forall k, regs m2 k = if k =? q then value S64 m r else regs m k) /\
    (forall k, 8 <= as_u 64 (k - slot) -> mem m2 k = mem m k).
Proof.
  intros Hr Hq Hsp Hal slot. assert (Hslot : is_u 64 slot) by (by apply as_u_range).
  assert (Hslot16 : slot mod 16 = 0).
  { unfold slot, as_u. rewrite Z.mod_mod_divide by (by exists (2 ^ 60)).
    replace (sp m - 16) with (sp m + (-1) * 16) by lia. by rewrite Z.mod_add by lia. }
  assert (Hback : as_u 64 (slot + 16) = sp m).
  { unfold slot, as_u. rewrite Zplus_mod_idemp_l. replace (sp m - 16 + 16) with (sp m) by lia. by apply Z.mod_small. }
  set (m1 := next (write_mem (set_sp m slot) slot 8 (as_u 64 (get true m r)))).
  assert (Hread : read_mem m1 slot 8 = value S64 m r).
  { change (read_mem m1 slot 8) with (read_mem (write_mem (set_sp m slot) slot 8 (as_u 64 (get true m r))) slot 8).
    rewrite read_written by lia. unfold get. registers. change (?x mod 2 ^ (8 * 8)) with (as_u 64 x).
    by rewrite !as_u_as_u by (cbn; lia). }
  exists m1, (next (put (set_sp m1 (sp m)) q (value S64 m r))). split_and!; try done.
  - apply asserted; [unfold general, SP_XZR in *; lia|]. apply executes_intro; [done|done|].
    cbn -[low exec Z.shiftl as_i]. registers. change (as_i 9 (-16)) with (-16). cbn [exec]. change (low 5 SP_XZR) with 31.
    unfold access_address, get_or_sp. change (width true) with 64. change (31 =? 31) with true. cbn [andb]. rewrite (as_u_small 64 (sp m)) by done. rewrite Hal.
    change (negb (0 =? 0)) with false. registers. done.
  - apply asserted; [unfold general, SP_XZR in *; lia|]. apply executes_intro; [done|done|].
    cbn -[low exec Z.shiftl as_i]. registers. change (as_i 9 16) with 16. cbn [exec]. change (low 5 SP_XZR) with 31.
    unfold access_address, get_or_sp. change (width true) with 64. change (31 =? 31) with true. cbn [andb]. change (sp m1) with slot.
    rewrite (as_u_small 64 slot) by done. rewrite Hslot16. change (negb (0 =? 0)) with false. registers.
    cbn -[put read_mem m1]. unfold put_or_sp. change (31 =? 31) with true. rewrite Hback. change (Z.shiftl 1 3) with 8. by rewrite Hread.
  - unfold put. by registers.
  - unfold put. by registers.
  - intros k. unfold put. registers. done.
  - intros k Hk. unfold put. registers. cbn -[as_u slot]. apply Z.ltb_ge in Hk. by rewrite Hk.
Qed.

(** A call saves the address behind it, and the return goes there. *)
Lemma call_returns {E} (imm : Z) m : is_i 26 imm ->
  exists m1 m2, executes (E := E) (Ok (bl imm)) m m1 /\ pc m1 = as_u 64 (pc m + 4 * imm) /\
    executes (E := E) (Ok ret) m1 m2 /\ pc m2 = as_u 64 (pc m + 4).
Proof.
  intros Himm. eexists _, _. split.
  { apply executes_intro; [by right|done|]. cbn -[exec as_i Z.mul]. rewrite as_i_small by (done || lia). done. }
  split; [done|]. split; [by apply executes_intro|]. cbn. change (as_u ?w (as_u ?v ?x)) with (as_u 64 (as_u 64 x)).
  by rewrite !as_u_as_u by lia.
Qed.

(** C38: The constructors for moves, arithmetic, extensions, shifts and immediates:
    the word each makes, executed, sets the destination to the value the name
    says of the operands at their size, and changes nothing else but the program
    counter. *)
Theorem constructors_compute {E} `{Profile} size from (m : machine) (a b c d imm k lane imm16 : Z) :
  general a -> general b -> general c -> general d -> is_u 12 imm -> 0 < k < 64 -> 0 <= lane < 4 ->
  is_u 16 imm16 -> from = S8 \/ from = S16 \/ from = S32 ->
  let n := bits size in
  let x := value size m in
  let gives r v := executes (E := E) r m (result_in m d v) in
  (gives (Ok (mov size a d)) (x a) /\
   gives (Ok (orr size a d)) (Z.lor (x d) (x a)) /\
   gives (Ok (and size a b d)) (Z.land (x a) (x b)) /\
   gives (Ok (eor size a d)) (Z.lxor (x d) (x a)) /\
   gives (Ok (mvn size a d)) (as_u n (Z.lnot (x a)))) /\
  (gives (Ok (add size a b d)) (as_u n (x a + x b)) /\
   gives (Ok (sub size a b d)) (as_u n (x a - x b)) /\
   gives (Ok (madd size a b c d)) (as_u n (x c + x a * x b)) /\
   gives (Ok (msub size a b c d)) (as_u n (x c - x a * x b)) /\
   gives (Ok (udiv size a b d)) (if x b =? 0 then 0 else x a / x b) /\
   gives (Ok (sdiv size a b d)) (if x b =? 0 then 0 else as_u n (Z.quot (as_i n (x a)) (as_i n (x b)))) /\
   gives (Ok (lsl_reg size a b d)) (as_u n (Z.shiftl (x a) (x b mod n))) /\
   gives (Ok (lsr_reg size a b d)) (Z.shiftr (x a) (x b mod n)) /\
   gives (Ok (asr_reg size a b d)) (as_u n (Z.shiftr (as_i n (x a)) (x b mod n)))) /\
  (gives (zero_extend_to_u64 from a d) (as_u (operand_bits from) (regs m a)) /\
   gives (sign_extend_to_i64 from a d) (as_u 64 (as_i (operand_bits from) (regs m a)))) /\
  (gives (lsl_imm a k d) (as_u 64 (Z.shiftl (value S64 m a) k)) /\
   gives (lsr_imm a k d) (Z.shiftr (value S64 m a) k)) /\
  (gives (add_imm size a imm d) (as_u n (x a + imm)) /\
   gives (sub_imm size a imm d) (as_u n (x a - imm)) /\
   gives (movn d lane imm16) (as_u 64 (Z.lnot (Z.shiftl imm16 (16 * lane)))) /\
   gives (movk d lane imm16)
     (Z.lor (Z.ldiff (value S64 m d) (Z.shiftl (Z.ones 16) (16 * lane))) (Z.shiftl imm16 (16 * lane)))).
Proof.
  intros Ha Hb Hc Hd Himm Hk Hl H16 Hfrom n x gives. split; [by apply logical_constructors|].
  split; [by apply arithmetic_constructors|]. split; [by apply extension_constructors|].
  split; [by apply shift_constructors|]. by apply immediate_constructors.
Qed.

#[local] Instance release : Profile := {| debug_assertions := false |}.

(** A machine whose register [k] holds [k] times 1000. *)
Definition thousands : machine :=
  mkMachine (fun k => 1000 * k) 0x8000 0x400000 (mkFlags false false false false) (fun _ => 0).

(** A compiler with eight bytes of text, of which four are written. *)
Definition small_text : JitCompiler unit :=
  mkJitCompiler (mkJitProgram 0x1000 0x2000 0x10000 [] 0x11000 [1; 2; 3; 4; 0; 0; 0; 0]) [] [] 4 0 0 0 tt false.


Lemma constructors_compute_witness :
  executes (E := unit) (Ok (sub S32 1 2 0)) thousands (result_in thousands 0 (2 ^ 32 - 1000)) /\
  executes (E := unit) (zero_extend_to_u64 S8 1 0) thousands (result_in thousands 0 232).
Proof.
  destruct (constructors_compute (E := unit) S32 S8 thousands 1 2 3 0 5 6 1 7) as
    (_ & (_ & Hsub & _) & (Hz & _) & _); try (unfold general, is_u; lia); [left; reflexivity|].
  split; [exact Hsub|exact Hz].
Defined.

Lemma compare_and_branch_witness :
  exists m1 m2, executes (E := unit) (Ok (cmp S64 1 2)) thousands m1 /\
    executes (E := unit) (Ok (b_cond HI (-3))) m1 m2 /\ pc m2 = 0x3ffff8.
Proof.
  destruct (compare_and_branch (E := unit) S64 HI 1 2 (-3) 5 thousands) as ((m1 & m2 & Hc & Hb & _ & _ & _ & Hpc) & _);
    try (unfold general, is_u, is_i; cbn; lia).
  exists m1, m2. split; [exact Hc|]. split; [exact Hb|]. rewrite Hpc. vm_compute. reflexivity.
Defined.

Lemma push_pop_witness :
  exists m1 m2, executes (E := unit) (push64 3) thousands m1 /\ executes (E := unit) (pop64 4) m1 m2 /\
    regs m2 4 = 3000 /\ sp m2 = 0x8000.
Proof.
  destruct (push_pop (E := unit) 3 4 thousands) as (m1 & m2 & Hpush & Hpop & _ & _ & Hsp & _ & Hregs & _);
    try (unfold general, is_u; cbn; lia); [vm_compute; reflexivity|].
  exists m1, m2. split; [exact Hpush|]. split; [exact Hpop|]. split; [rewrite Hregs; vm_compute; reflexivity|exact Hsp].
Defined.

(** An unscaled offset of 256 does not fit its nine bits: without debug
    assertions and with them, the load constructor takes it and the word reads
    from 256 bytes below the base. *)
Example offset_truncated :
  exists i w, load (E := unit) S64 1 (Offset 256) 0 = Ok i /\ word (E := unit) i = Ok w /\
    decode w = Some (Access true 8 0 1 (BaseImm (-256))).
Proof. eexists _, _. split; [reflexivity|]. split; [reflexivity|]. vm_compute. reflexivity. Qed.

(** The comment on [OffsetIndexShift] says the index is shifted by three; the
    shift is by the size of the access. *)
Example index_shift_by_size :
  exists i w, load (E := unit) S32 1 (OffsetIndexShift 2 true) 0 = Ok i /\ word (E := unit) i = Ok w /\
    decode w = Some (Access true 4 0 1 (BaseRegister 2 2)).
Proof. eexists _, _. split; [reflexivity|]. split; [reflexivity|]. vm_compute. reflexivity. Qed.
