(* ===== verification/AnalysisOutput.v ===== *)
(** * Traces and pictures of a static analysis

    [DynamicAnalysis] of [src/casestudy/sbpf/src/vm.rs], and
    [disassemble_register_trace], [iter_cfg_by_function] and
    [visualize_graphically] of [src/casestudy/sbpf/src/static_analysis.rs].
    Text written to the output is the string returned, and no write fails.
    Then what they show: the function a block is listed under is the last one
    that starts at or before it; the counters of a dynamic analysis are the
    transitions between blocks in the trace; the table of the trace log leads
    from every slot to its instruction. *)

From Stdlib Require Import Ascii String.
From stdpp Require Import gmap strings sorting.
From S2P Require Import Prelude Ebpf Program Verifier Error Vm Text Disassembler BTree.
From S2P Require Import StaticAnalysis StaticFacts.

#[local] Open Scope string_scope.
#[local] Open Scope Z_scope.

(** What the output uses of the standard library beyond [Text]: the text
    [{:?}] makes of a string, which escapes by the Unicode tables, the order in
    which a [HashSet] is iterated, and the text of the single-precision number
    [counter / (max * 3) + 2 / 3]. *)
Class OutputFormat := {
  debug_string : string -> string;
  hash_set_order : gset Z -> list Z;
  edge_hue : Z -> Z -> string
}.
Class OutputFormatLaws `{OutputFormat} := {
  hash_set_order_elements s : Permutation (hash_set_order s) (elements s)
}.

(** ** Recorded edges *)
Abbreviation RegisterTraceEntry := (list Z).

Record DynamicAnalysis := mkDynamicAnalysis {
  edge_counter_max : Z;
  edges : gmap Z (gmap Z Z)
}.

Section Output.
Context {E V : Type} `{Profile, OutputFormat}.

(** The loop over the trace; an entry is an array of twelve. *)
Fixpoint accumulate (cfg : gmap Z CfgNode) (trace : list RegisterTraceEntry) (last_basic_block : Z)
    (d : DynamicAnalysis) : result E DynamicAnalysis :=
  match trace with
  | [] => Ok d
  | traced_instruction :: trace =>
      pc ← or_panic (traced_instruction !! 11%nat);
      if bool_decide (is_Some (cfg !! pc)) then
        let from := default ∅ (edges d !! last_basic_block) in
        counter ← arith_u64 (default 0 (from !! pc) + 1);
        accumulate cfg trace pc
          (mkDynamicAnalysis (Z.max (edge_counter_max d) counter)
             (<[last_basic_block := <[pc := counter]> from]> (edges d)))
      else accumulate cfg trace last_basic_block d
  end.

Definition DynamicAnalysis_new (register_trace : list RegisterTraceEntry) (a : Analysis V)
    : result E DynamicAnalysis :=
  accumulate (cfg_nodes a) register_trace u64_max (mkDynamicAnalysis 0 ∅).

(** ** The trace log *)
Definition hex_digit_upper (n : Z) : ascii := ascii_of_N (Z.to_N (if n <? 10 then 48 + n else 55 + n)).
(** [{:016X}] of a [u64] *)
Definition hex16 (n : Z) : string :=
  string_of_list_ascii ((fun k => hex_digit_upper (n / 16 ^ k mod 16)) <$> List.rev (seqZ 0 16)).
(** [{:5?}] of an unsigned integer *)
Definition padded (n : Z) : string :=
  let s := decimal n in String.concat "" (replicate (5 - String.length s) " ") +:+ s.
(** [{:016X?}] of a slice *)
Definition hex_slice (l : list Z) : string := "[" +:+ String.concat ", " (hex16 <$> l) +:+ "]".

(** The table from slots to indices of instructions. *)
Fixpoint fill_indices (index : nat) (l : list Insn) (table : list Z) : result E (list Z) :=
  match l with
  | [] => Ok table
  | insn :: l =>
      table ← or_panic (set table (ptr insn) (Z.of_nat index));
      next ← arith_u64 (ptr insn + 1);
      table ← or_panic (set table next (Z.of_nat index));
      fill_indices (S index) l table
  end.

Definition pc_to_insn_index (insns : list Insn) : result E (list Z) :=
  len ← match last insns with Some insn => arith_u64 (ptr insn + 2) | None => Ok 0 end;
  fill_indices 0 insns (replicate (Z.to_nat len) 0).

Fixpoint trace_lines (a : Analysis V) (table : list Z) (index : Z) (trace : list RegisterTraceEntry)
    : result E string :=
  match trace with
  | [] => Ok ""
  | entry :: trace =>
      pc ← or_panic (entry !! 11%nat);
      i ← or_panic (get table pc);
      insn ← or_panic (get (instructions a) i);
      line ← analysis_disassemble_instruction a insn pc;
      rest ← trace_lines a table (index + 1) trace;
      Ok (padded index +:+ " " +:+ hex_slice (take 11 entry) +:+ " " +:+ padded pc +:+ ": " +:+ line
            +:+ newline +:+ rest)
  end.

Definition disassemble_register_trace (a : Analysis V) (register_trace : list RegisterTraceEntry)
    : result E string :=
  table ← pc_to_insn_index (instructions a);
  trace_lines a table 0 register_trace.

(** ** Blocks by function *)
(** The end of the last function. *)
Definition program_end (a : Analysis V) : result E Z :=
  insn ← or_panic (last (instructions a)); arith_u64 (ptr insn + 1).

(** The closure of the iterator, run over the blocks; [rest] is what
    [function_iter] has left. *)
Fixpoint cfg_by_function (a : Analysis V) (function_start : Z) (rest : list Z) (blocks : list (Z * CfgNode))
    : result E (list ((Z * Z) * Z * CfgNode)) :=
  match blocks with
  | [] => Ok []
  | (start, node) :: blocks =>
      let '(function_start, rest) :=
        match rest with
        | f :: rest' => if f =? start then (f, rest') else (function_start, rest)
        | [] => (function_start, rest)
        end in
      function_end ← match rest with next :: _ => Ok next | [] => program_end a end;
      l ← cfg_by_function a function_start rest blocks;
      Ok (((function_start, function_end), start, node) :: l)
  end.

Definition iter_cfg_by_function (a : Analysis V) : result E (list ((Z * Z) * Z * CfgNode)) :=
  match (bindings (functions a)).*1 with
  | [] => Panic
  | first :: rest => cfg_by_function a first rest (bindings (cfg_nodes a))
  end.

(** ** The picture *)
Definition quote : string := String (ascii_of_nat 34) "".

Definition html_escape_char (c : ascii) : string :=
  if Ascii.eqb c (ascii_of_nat 38) then "&amp;"
  else if Ascii.eqb c (ascii_of_nat 60) then "&lt;"
  else if Ascii.eqb c (ascii_of_nat 62) then "&gt;"
  else if Ascii.eqb c (ascii_of_nat 34) then "&quot;"
  else String c "".
(** No replacement makes a character a later one replaces. *)
Definition html_escape (s : string) : string := String.concat "" (html_escape_char <$> String.list_ascii_of_string s).

Definition MAX_CELL_CONTENT_LENGTH : nat := 15.
Definition ellipsis : string := string_of_bytes [0xe2; 0x80; 0xa6].

(** [String::truncate] panics inside a character. *)
Definition truncate (s : string) (n : nat) : result E string :=
  match String.get n s with
  | Some c => if continuation (Z.of_N (N_of_ascii c)) then Panic else Ok (String.substring 0 n s)
  | None => Ok s
  end.

Definition cell_row (desc : string) : result E string :=
  let td := "<td align=" +:+ quote +:+ "left" +:+ quote +:+ ">" in
  match String.index 0 " " desc with
  | Some split_index =>
      let rest := String.substring (S split_index) (String.length desc - S split_index) desc in
      rest ← (if Nat.ltb (MAX_CELL_CONTENT_LENGTH + 1) (String.length rest)
              then rest ← truncate rest MAX_CELL_CONTENT_LENGTH; Ok (rest +:+ ellipsis)
              else Ok rest);
      Ok ("<tr>" +:+ td +:+ html_escape (String.substring 0 split_index desc) +:+ "</td>" +:+ td
            +:+ html_escape rest +:+ "</td></tr>")
  | None => Ok ("<tr>" +:+ td +:+ html_escape desc +:+ "</td></tr>")
  end.

(** The rows of a block; [pc] counts from the start of the block. *)
Fixpoint cell_rows (a : Analysis V) (pc : Z) (l : list Insn) : result E string :=
  match l with
  | [] => Ok ""
  | insn :: l =>
      desc ← analysis_disassemble_instruction a insn pc;
      row ← cell_row desc;
      rest ← cell_rows a (pc + 1) l;
      Ok (row +:+ rest)
  end.

Definition insert_aliases (dynamic_analysis : option DynamicAnalysis) (range : Z * Z) (start : Z)
    (alias_nodes : gset Z) : gset Z :=
  match dynamic_analysis with
  | Some d =>
      match edges d !! start with
      | Some recorded =>
          filter (fun k => negb ((range.1 <=? k) && (k <? range.2)) = true) (dom recorded) ∪ alias_nodes
      | None => alias_nodes
      end
  | None => alias_nodes
  end.

(** The recursion goes down the dominance hierarchy. *)
Fixpoint emit_cfg_node (fuel : nat) (dynamic_analysis : option DynamicAnalysis) (a : Analysis V)
    (range : Z * Z) (alias_nodes : gset Z) (start : Z) : result E (string * gset Z) :=
  match fuel with
  | O => Panic
  | S fuel =>
      node ← or_panic (cfg_nodes a !! start);
      let (lo, hi) := node_instructions node in
      l ← (if (lo <=? hi) && (hi <=? Z.of_nat (length (instructions a)))
           then Ok (take (Z.to_nat (hi - lo)) (drop (Z.to_nat lo) (instructions a))) else Panic);
      rows ← cell_rows a 0 l;
      let text := "    lbb_" +:+ decimal start +:+ " [label=<<table border=" +:+ quote +:+ "0" +:+ quote
        +:+ " cellborder=" +:+ quote +:+ "0" +:+ quote +:+ " cellpadding=" +:+ quote +:+ "3" +:+ quote +:+ ">"
        +:+ rows +:+ "</table>>];" +:+ newline in
      let alias_nodes := insert_aliases dynamic_analysis range start alias_nodes in
      (fix children (l : list Z) (text : string) (alias_nodes : gset Z) : result E (string * gset Z) :=
         match l with
         | [] => Ok (text, alias_nodes)
         | child :: l =>
             '(t, alias_nodes) ← emit_cfg_node fuel dynamic_analysis a range alias_nodes child;
             children l (text +:+ t) alias_nodes
         end) (dominated_children node) text alias_nodes
  end.

Definition line (s : string) : string := s +:+ newline.

Definition graph_header : string :=
  line "digraph {" +:+ line "  graph [" +:+ line "    rankdir=LR;" +:+ line "    concentrate=True;"
  +:+ line "    style=filled;" +:+ line "    color=lightgrey;" +:+ line "  ];" +:+ line "  node ["
  +:+ line "    shape=rect;" +:+ line "    style=filled;" +:+ line "    fillcolor=white;"
  +:+ line ("    fontname=" +:+ quote +:+ "Courier New" +:+ quote +:+ ";") +:+ line "  ];" +:+ line "  edge ["
  +:+ line ("    fontname=" +:+ quote +:+ "Courier New" +:+ quote +:+ ";") +:+ line "  ];".

Definition alias_text (function_start alias_node : Z) : string :=
  let n := decimal alias_node in
  line ("    alias_" +:+ decimal function_start +:+ "_lbb_" +:+ n +:+ " [")
  +:+ line ("        label=lbb_" +:+ n +:+ ";") +:+ line ("        tooltip=lbb_" +:+ n +:+ ";")
  +:+ line ("        URL=" +:+ quote +:+ "#lbb_" +:+ n +:+ quote +:+ ";") +:+ line "    ];".

Fixpoint function_clusters (dynamic_analysis : option DynamicAnalysis) (a : Analysis V) (l : list Z)
    : result E string :=
  match l with
  | [] => Ok ""
  | function_start :: l =>
      function_end ← match l with next :: _ => Ok next | [] => program_end a end;
      node ← or_panic (cfg_nodes a !! function_start);
      '(text, alias_nodes) ← emit_cfg_node (S (size (cfg_nodes a))) dynamic_analysis a
         (function_start, function_end) ∅ function_start;
      rest ← function_clusters dynamic_analysis a l;
      Ok (line ("  subgraph cluster_" +:+ decimal function_start +:+ " {")
            +:+ line ("    label=" +:+ debug_string (html_escape (label node)) +:+ ";")
            +:+ line ("    tooltip=lbb_" +:+ decimal function_start +:+ ";")
            +:+ text +:+ String.concat "" (alias_text function_start <$> hash_set_order alias_nodes)
            +:+ line "  }" +:+ rest)
  end.

(** The edges of a block with the counters recorded for them. *)
Definition counted_edges (dynamic_analysis : option DynamicAnalysis) (start : Z) (node : CfgNode) : gmap Z Z :=
  let static : gmap Z Z := list_to_map ((fun d => (d, 0)) <$> destinations node) in
  match dynamic_analysis with
  | Some d => match edges d !! start with Some recorded => recorded ∪ static | None => static end
  | None => static
  end.

Fixpoint sum_counters (l : list Z) : result E Z :=
  match l with [] => Ok 0 | c :: l => n ← sum_counters l; arith_u64 (c + n) end.

Definition edge_text (d : DynamicAnalysis) (range : Z * Z) (start : Z) (e : Z * Z) : string :=
  let (destination, counter) := e in
  line ("  lbb_" +:+ decimal start +:+ " -> "
    +:+ (if (range.1 <=? destination) && (destination <? range.2) then "lbb_" +:+ decimal destination
         else "alias_" +:+ decimal range.1 +:+ "_lbb_" +:+ decimal destination)
    +:+ " [label=" +:+ quote +:+ decimal counter +:+ quote +:+ ";color=" +:+ quote
    +:+ edge_hue counter (edge_counter_max d) +:+ " 1.0 " +:+ (if counter =? 0 then "0" else "1") +:+ ".0"
    +:+ quote +:+ "];").

Definition block_edges (dynamic_analysis : option DynamicAnalysis) (b : (Z * Z) * Z * CfgNode) : result E string :=
  let '(range, start, node) := b in
  let dominator :=
    if start =? dominator_parent node then ""
    else line ("  lbb_" +:+ decimal start +:+ " -> lbb_" +:+ decimal (dominator_parent node)
           +:+ " [style=dotted; arrowhead=none];") in
  let counted := counted_edges dynamic_analysis start node in
  counter_sum ← sum_counters (bindings counted).*2;
  Ok (dominator +:+
    (if (counter_sum =? 0) && negb (bool_decide (counted = ∅)) then
       line ("  lbb_" +:+ decimal start +:+ " -> {"
         +:+ String.concat " " ((fun e => "lbb_" +:+ decimal e.1) <$> bindings counted) +:+ "};")
     else match dynamic_analysis with
          | Some d => String.concat "" (edge_text d range start <$> bindings counted)
          | None => ""
          end)).

Fixpoint all_edges_text (dynamic_analysis : option DynamicAnalysis) (l : list ((Z * Z) * Z * CfgNode))
    : result E string :=
  match l with
  | [] => Ok ""
  | b :: l => t ← block_edges dynamic_analysis b; rest ← all_edges_text dynamic_analysis l; Ok (t +:+ rest)
  end.

Definition visualize_graphically (a : Analysis V) (dynamic_analysis : option DynamicAnalysis) : result E string :=
  clusters ← function_clusters dynamic_analysis a (bindings (functions a)).*1;
  blocks ← iter_cfg_by_function a;
  arrows ← all_edges_text dynamic_analysis blocks;
  Ok (graph_header +:+ clusters +:+ arrows +:+ line "}").
End Output.
#[local] Close Scope string_scope.

(** ** Blocks by function *)
(** The function of the blocks from [s] on: [lo] is the last function that starts
    at or before [s], and [hi] the next one or the end of the program. *)
Definition function_around (fs : list Z) (program_end s lo hi : Z) : Prop :=
  lo ∈ fs /\ lo <= s /\ (forall f, f ∈ fs -> f <= s -> f <= lo) /\
  ((hi ∈ fs /\ s < hi /\ forall f, f ∈ fs -> s < f -> hi <= f) \/
   (hi = program_end /\ forall f, f ∈ fs -> f <= s)).

Section ByFunction.
Context {E V : Type} `{Profile}.

Lemma sorted_app_lt (l1 l2 : list Z) x y : StronglySorted Z.lt (l1 ++ l2) -> x ∈ l1 -> y ∈ l2 -> x < y.
Proof.
  induction l1 as [|a l1 IH]; intros Hs Hx Hy; [by apply not_elem_of_nil in Hx|].
  cbn in Hs. apply StronglySorted_inv in Hs as [Hs Ha]. apply elem_of_cons in Hx as [->|Hx]; [|auto].
  rewrite Forall_forall in Ha. apply Ha, elem_of_app. by right.
Qed.

Lemma around_ok fs fin pre lo rest s hi : fs = pre ++ lo :: rest -> StronglySorted Z.lt fs -> lo <= s ->
  Forall (fun f => s < f) rest -> match rest with next :: _ => hi = next | [] => hi = fin end ->
  function_around fs fin s lo hi.
Proof.
  intros -> Hs Hlo Hrest Hhi. rewrite Forall_forall in Hrest.
  assert (Hpre : forall f, f ∈ pre ++ lo :: rest -> f <= lo \/ f ∈ rest).
  { intros f [Hf|[->|Hf]%elem_of_cons]%elem_of_app; [left|by left|by right].
    apply Z.lt_le_incl, (sorted_app_lt pre (lo :: rest)); [done|done|by left]. }
  split_and!; [apply elem_of_app; right; by left|done|..].
  - intros f Hf Hfs. destruct (Hpre f Hf) as [|Hr]; [done|]. specialize (Hrest f Hr). cbn in Hrest. lia.
  - destruct rest as [|next rest]; subst hi; [right|left].
    + split; [done|]. intros f [|Hr%not_elem_of_nil]%Hpre; [lia|done].
    + split_and!; [apply elem_of_app; right; right; by left|by apply Hrest; left|].
      intros f [|[->|Hr]%elem_of_cons]%Hpre Hf; [lia|lia|].
      change (pre ++ lo :: next :: rest) with (pre ++ [lo] ++ [next] ++ rest) in Hs. rewrite !app_assoc in Hs.
      apply Z.lt_le_incl, (sorted_app_lt ((pre ++ [lo]) ++ [next]) rest); [done| |done].
      apply elem_of_app. right. by left.
Qed.

Lemma cfg_by_function_spec (a : Analysis V) fs fin : StronglySorted Z.lt fs -> program_end (E := E) a = Ok fin ->
  forall blocks pre lo rest, fs = pre ++ lo :: rest -> StronglySorted Z.lt blocks.*1 ->
  Forall (fun s => lo <= s) blocks.*1 -> (forall f, f ∈ rest -> f ∈ blocks.*1) ->
  exists l, cfg_by_function (E := E) a lo rest blocks = Ok l /\ (fun t => (t.1.2, t.2)) <$> l = blocks /\
    Forall (fun t => function_around fs fin t.1.2 t.1.1.1 t.1.1.2) l.
Proof.
  intros Hfs Hend. induction blocks as [|[s n] blocks IH]; intros pre lo rest Heq Hsort Hlo Hin; [by exists []|].
  csimpl in *. apply StronglySorted_inv in Hsort as [Hsort Hs]. apply Forall_cons in Hlo as [Hls Hlo].
  rewrite Forall_forall in Hs.
  assert (Hstep : forall pre' lo' rest', fs = pre' ++ lo' :: rest' -> lo' <= s -> (forall f, f ∈ rest' -> f ∈ blocks.*1) ->
    exists l, (function_end ← match rest' with next :: _ => Ok next | [] => program_end a end;
      l ← cfg_by_function (E := E) a lo' rest' blocks; Ok (((lo', function_end), s, n) :: l)) = Ok l /\
      (fun t => (t.1.2, t.2)) <$> l = (s, n) :: blocks /\
      Forall (fun t => function_around fs fin t.1.2 t.1.1.1 t.1.1.2) l).
  { intros pre' lo' rest' Heq' Hls' Hin'.
    destruct (IH pre' lo' rest' Heq' Hsort) as (l & Hl & Hmap & Hall); [|done|].
    { apply Forall_forall. intros x Hx. specialize (Hs x Hx). cbn in Hs. lia. }
    assert (Hgt : Forall (fun f => s < f) rest') by (apply Forall_forall; intros f Hf; by apply Hs, Hin').
    rewrite Hl. destruct rest' as [|next rest']; [rewrite Hend|]; cbn [mbind result_bind];
      (eexists; split; [done|]; split; [by cbn; rewrite Hmap|]; constructor; [|done]; by eapply around_ok). }
  cbn [cfg_by_function]. destruct rest as [|f rest].
  { apply (Hstep pre lo []); [done|done|]. by intros f Hf%not_elem_of_nil. }
  destruct (Z.eqb_spec f s) as [->|Hne].
  - apply (Hstep (pre ++ [lo]) s rest); [by rewrite <- app_assoc|lia|].
    intros g Hg. destruct (proj1 (elem_of_cons _ _ _) (Hin g ltac:(by right))) as [->|]; [|done].
    rewrite Heq in Hfs.
    change (pre ++ lo :: s :: rest) with (pre ++ [lo] ++ [s] ++ rest) in Hfs. rewrite !app_assoc in Hfs.
    pose proof (sorted_app_lt ((pre ++ [lo]) ++ [s]) rest s s Hfs ltac:(apply elem_of_app; right; by left) Hg). lia.
  - apply (Hstep pre lo (f :: rest)); [done|lia|].
    intros g Hg. destruct (proj1 (elem_of_cons _ _ _) (Hin g Hg)) as [->|]; [|done].
    apply elem_of_cons in Hg as [->|Hg]; [done|].
    assert (Hf : f ∈ s :: blocks.*1) by (apply Hin; by left). apply elem_of_cons in Hf as [->|Hf%Hs]; [done|].
    change (pre ++ lo :: f :: rest) with (pre ++ [lo] ++ [f] ++ rest) in Heq. rewrite !app_assoc in Heq.
    rewrite Heq in Hfs. pose proof (sorted_app_lt ((pre ++ [lo]) ++ [f]) rest f s Hfs ltac:(apply elem_of_app; right; by left) Hg).
    cbn in Hf. lia.
Qed.

(** Iterating over the blocks by function returns every block in order, with the
    range from the last function that starts at or before it to the next one or
    the end of the program, when functions are blocks and the first block is one. *)
Theorem iter_cfg_by_function_spec (a : Analysis V) fin : program_end (E := E) a = Ok fin -> functions a <> ∅ ->
  (forall f, is_Some (functions a !! f) -> is_Some (cfg_nodes a !! f)) ->
  (forall s, is_Some (cfg_nodes a !! s) -> exists f, is_Some (functions a !! f) /\ f <= s) ->
  exists l, iter_cfg_by_function (E := E) a = Ok l /\ (fun t => (t.1.2, t.2)) <$> l = bindings (cfg_nodes a) /\
    Forall (fun t => function_around (bindings (functions a)).*1 fin t.1.2 t.1.1.1 t.1.1.2) l.
Proof.
  intros Hend Hne Hblock Hfirst. unfold iter_cfg_by_function. pose proof (bindings_sorted (functions a)) as Hs.
  destruct (bindings (functions a)).*1 as [|first rest] eqn:Hf.
  { destruct Hne. apply map_empty. intros k. apply eq_None_not_Some. rewrite <- elem_of_binding_keys, Hf.
    apply not_elem_of_nil. }
  assert (Hmem : forall f, f ∈ first :: rest <-> is_Some (functions a !! f)) by (intros f; by rewrite <- Hf, elem_of_binding_keys).
  apply (cfg_by_function_spec a _ fin Hs Hend _ [] first rest); [done|apply bindings_sorted| |].
  - apply Forall_forall. intros s Hk%elem_of_binding_keys. destruct (Hfirst s Hk) as (f & Hfn%Hmem & Hle).
    apply StronglySorted_inv in Hs as [_ Hs]. rewrite Forall_forall in Hs.
    apply elem_of_cons in Hfn as [->|Hfn%Hs]; [done|]. cbn in Hfn. lia.
  - intros f Hfr. apply elem_of_binding_keys, Hblock, Hmem. by right.
Qed.
End ByFunction.

(** ** Recorded edges *)
(** The blocks a trace enters, the transitions between them, and how often one
    occurs. *)
Definition entered (cfg : gmap Z CfgNode) (trace : list (list Z)) : list Z :=
  filter (fun pc => is_Some (cfg !! pc)) (omap (fun entry => entry !! 11%nat) trace).
Definition transitions (from : Z) (l : list Z) : list (Z * Z) := zip (from :: l) l.
Definition occurrences (e : Z * Z) (l : list (Z * Z)) : Z := Z.of_nat (length (filter (fun x => x = e) l)).
Definition recorded (d : DynamicAnalysis) (e : Z * Z) : Z := default 0 (edges d !! e.1 ≫= (fun m => m !! e.2)).

Section Dynamic.
Context {E V : Type} `{Profile}.

Lemma recorded_insert m0 m last pc counter e :
  recorded (mkDynamicAnalysis m0 (<[last := <[pc := counter]> (default ∅ (m !! last))]> m)) e =
  if decide (e = (last, pc)) then counter else recorded (mkDynamicAnalysis m0 m) e.
Proof.
  destruct e as [x y]. unfold recorded. cbn [edges fst snd]. destruct (decide (x = last)) as [->|Hx].
  - rewrite lookup_insert_eq. cbn. destruct (decide (y = pc)) as [->|Hy].
    + rewrite lookup_insert_eq. by rewrite decide_True.
    + rewrite lookup_insert_ne, decide_False by congruence. destruct (m !! last); cbn; [done|by rewrite lookup_empty].
  - rewrite lookup_insert_ne, decide_False by congruence. done.
Qed.

Lemma occurrences_cons e x l : occurrences e (x :: l) = (if decide (x = e) then 1 else 0) + occurrences e l.
Proof. unfold occurrences. rewrite filter_cons. destruct (decide (x = e)); cbn [length]; lia. Qed.

Lemma accumulate_spec cfg trace : forall last d, Forall (fun entry => length entry = 12%nat) trace ->
  (forall e, 0 <= recorded d e <= edge_counter_max d) ->
  edge_counter_max d + Z.of_nat (length trace) < 2 ^ 64 ->
  exists d', accumulate (E := E) cfg trace last d = Ok d' /\
    (forall e, recorded d' e = recorded d e + occurrences e (transitions last (entered cfg trace))) /\
    (forall e, recorded d' e <= edge_counter_max d') /\
    (edge_counter_max d' = edge_counter_max d \/ exists e, edge_counter_max d' = recorded d' e).
Proof.
  induction trace as [|entry trace IH]; intros last d Hlen Hmax Hroom; cbn [accumulate].
  { exists d. split_and!; [done| |apply Hmax|by left]. intros e. unfold occurrences. cbn. lia. }
  apply Forall_cons in Hlen as [He Hlen]. destruct (lookup_lt_is_Some_2 entry 11) as [pc Hpc]; [lia|].
  rewrite Hpc. cbn [or_panic mbind result_bind]. cbn [length] in Hroom.
  unfold entered. cbn [omap list_omap]. rewrite Hpc. rewrite filter_cons. destruct (decide (is_Some (cfg !! pc))) as [Hb|Hb].
  2:{ rewrite bool_decide_false by done. apply IH; [done|done|lia]. }
  rewrite bool_decide_true by done. set (from := default ∅ (edges d !! last)).
  assert (Hc : default 0 (from !! pc) = recorded d (last, pc)).
  { unfold from, recorded. cbn. destruct (edges d !! last); cbn; [done|by rewrite lookup_empty]. }
  pose proof (Hmax (last, pc)) as Hr. rewrite Hc. rewrite arith_u64_ok by (unfold is_u; lia).
  cbn [mbind result_bind]. set (d1 := mkDynamicAnalysis _ _).
  assert (Hd1 : forall e, recorded d1 e = if decide (e = (last, pc)) then recorded d (last, pc) + 1 else recorded d e)
    by (intros e; apply recorded_insert).
  assert (Hmax1 : forall e, 0 <= recorded d1 e <= edge_counter_max d1).
  { intros e. rewrite Hd1. unfold d1. cbn [edge_counter_max]. specialize (Hmax e). destruct (decide _); lia. }
  destruct (IH pc d1) as (d' & Hd' & Hcount & Hle & Hattained); [done|done|unfold d1; cbn [edge_counter_max]; lia|].
  exists d'. split_and!; [done| |done|].
  - intros e. rewrite Hcount, Hd1. unfold transitions. cbn [zip zip_with]. rewrite occurrences_cons.
    fold (entered cfg trace). unfold transitions.
    destruct (decide (e = (last, pc))) as [->|Hne]; [rewrite decide_True by done; lia|rewrite decide_False by congruence; lia].
  - destruct Hattained as [Heq|Hex]; [|by right]. unfold d1 in Heq. cbn [edge_counter_max] in Heq.
    destruct (Z.max_spec (edge_counter_max d) (recorded d (last, pc) + 1)) as [[_ Hm]|[_ Hm]]; rewrite Hm in Heq; [right|by left].
    exists (last, pc). rewrite Hcount, Hd1, decide_True by done. specialize (Hle (last, pc)).
    rewrite Hcount, Hd1, decide_True in Hle by done. assert (0 <= occurrences (last, pc) (transitions pc (entered cfg trace)))
      by (unfold occurrences; lia). lia.
Qed.

(** The counters of a dynamic analysis are the numbers of transitions between the
    blocks the trace enters, the first of them from nowhere, and the maximum is
    the largest counter. *)
Theorem dynamic_analysis_counts (trace : list (list Z)) (a : Analysis V) :
  Forall (fun entry => length entry = 12%nat) trace -> Z.of_nat (length trace) < 2 ^ 64 ->
  exists d, DynamicAnalysis_new (E := E) trace a = Ok d /\
    (forall e, recorded d e = occurrences e (transitions u64_max (entered (cfg_nodes a) trace))) /\
    (forall e, recorded d e <= edge_counter_max d) /\
    (edge_counter_max d = 0 \/ exists e, edge_counter_max d = recorded d e).
Proof.
  intros Hlen Hroom. destruct (accumulate_spec (cfg_nodes a) trace u64_max (mkDynamicAnalysis 0 ∅) Hlen)
    as (d & Hd & Hcount & Hmax & Hatt); [|cbn; lia|].
  - intros e. unfold recorded. cbn. rewrite lookup_empty. cbn. lia.
  - exists d. split_and!; [done| |done|done]. intros e. rewrite Hcount. unfold recorded at 1. cbn. by rewrite lookup_empty.
Qed.
End Dynamic.

(** ** The trace log *)
Section Trace.
Context {E V : Type} `{Profile}.

Lemma set_get {A} (v : list A) i x : 0 <= i < Z.of_nat (length v) -> exists v', set v i x = Some v' /\
  length v' = length v /\ forall q, get v' q = if decide (q = i) then Some x else get v q.
Proof.
  intros Hi. exists (<[Z.to_nat i := x]> v). unfold set, get.
  replace ((0 <=? i) && (i <? Z.of_nat (length v))) with true by lia. split_and!; [done|apply length_insert|].
  intros q. destruct (decide (q = i)) as [->|Hne].
  - replace (i <? 0) with false by lia. apply list_lookup_insert_eq. lia.
  - destruct (q <? 0) eqn:?; [done|]. apply list_lookup_insert_ne. lia.
Qed.

(** Every slot of an instruction leads to its index. *)
Lemma fill_indices_spec l : forall p index table, laid_out p l -> 0 <= p ->
  Forall (fun i => ptr i + 1 < Z.of_nat (length table)) l -> Z.of_nat (length table) < 2 ^ 64 ->
  exists table', fill_indices (E := E) index l table = Ok table' /\
    (forall q, q < p -> get table' q = get table q) /\
    (forall j i q, l !! j = Some i -> ptr i <= q < ptr i + width i -> get table' q = Some (Z.of_nat (index + j))).
Proof.
  induction l as [|i l IH]; intros p index table Hl Hp Hlen Hsmall; cbn [fill_indices].
  { exists table. split_and!; [done|done|]. intros j i q Hj. done. }
  destruct Hl as (<- & _ & Hl). apply Forall_cons in Hlen as [Hi Hlen].
  assert (Hw : 1 <= width i <= 2) by (unfold width; destruct (_ =? _); lia).
  destruct (set_get table (ptr i) (Z.of_nat index)) as (t1 & -> & Hl1 & Ht1); [lia|]. cbn [or_panic mbind result_bind].
  rewrite arith_u64_ok by (unfold is_u; lia). cbn [mbind result_bind].
  destruct (set_get t1 (ptr i + 1) (Z.of_nat index)) as (t2 & -> & Hl2 & Ht2); [lia|]. cbn [or_panic mbind result_bind].
  destruct (IH (ptr i + width i) (S index) t2 Hl) as (t' & -> & Hbelow & Hslots); [lia| |congruence|].
  { by rewrite Hl2, Hl1. }
  exists t'. split_and!; [done| |].
  - intros q Hq. rewrite Hbelow, Ht2, Ht1 by lia. rewrite !decide_False by lia. done.
  - intros [|j] i' q Hj Hq; cbn in Hj.
    + injection Hj as <-. rewrite Hbelow, Ht2, Ht1 by lia. rewrite Nat.add_0_r.
      destruct (decide (q = ptr i + 1)); [done|]. by rewrite decide_True by lia.
    + rewrite (Hslots j i' q Hj Hq). f_equal. lia.
Qed.

(** The table of the trace log leads from every slot of the program to the
    instruction that is there, the second half of an [lddw] included. *)
Theorem trace_table (insns : list Insn) : laid_out 0 insns -> Forall (fun i => ptr i < 2 ^ 62) insns ->
  exists table, pc_to_insn_index (E := E) insns = Ok table /\
    forall j i q, insns !! j = Some i -> ptr i <= q < ptr i + width i -> get table q = Some (Z.of_nat j).
Proof.
  intros Hl Hsmall. unfold pc_to_insn_index. destruct (last insns) as [li|] eqn:Hlast.
  2:{ apply last_None in Hlast as ->. exists []. split; [done|]. intros j i q Hj. done. }
  rewrite last_lookup in Hlast. rewrite Forall_lookup in Hsmall.
  pose proof (Hsmall _ _ Hlast) as Hli. pose proof (laid_out_ge _ _ _ _ Hl Hlast) as Hge. cbn in Hli.
  rewrite arith_u64_ok by (unfold is_u; lia). cbn [mbind result_bind].
  destruct (fill_indices_spec insns 0 0 (replicate (Z.to_nat (ptr li + 2)) 0) Hl) as (t & Ht & _ & Hslots); [done| | |].
  - apply Forall_lookup. intros j i Hj. rewrite length_replicate.
    destruct (decide (j = Nat.pred (length insns))) as [->|Hne]; [simplify_eq; lia|].
    pose proof (lookup_lt_Some _ _ _ Hj). pose proof (laid_out_lt _ _ _ _ _ _ Hl Hj Hlast ltac:(lia)). lia.
  - rewrite length_replicate. lia.
  - exists t. split; [done|]. intros j i q Hj Hq. by rewrite (Hslots j i q Hj Hq).
Qed.
End Trace.
