(* ===== verification/AnalysisWitnesses.v ===== *)
(** * Programs analysed

    A program with a branch and a loop, and the theorems on its graph; a
    program on which the parent found is not the immediate dominator; edges of
    the data-flow graph filed under a node that is not their source; accesses
    of the newest instruction set that are not recorded.  Then the output of
    the analysis: its theorems at the same program, a call the picture resolves
    from the wrong address, and a name on which drawing panics. *)

From Stdlib Require Import Ascii String.
From stdpp Require Import gmap strings relations.
From S2P Require Import Prelude Ebpf Program Verifier Error Vm Text Disassembler BTree.
From S2P Require Import StaticAnalysis StaticFacts Components ComponentsInv ComponentsSpec.
From S2P Require Import Dominance DominanceFacts DataFlow DataFlowFacts AnalysisFacts.
From S2P Require Import AnalysisOutput.

#[local] Instance debug : Profile := {| debug_assertions := true |}.
#[local] Instance byte_sum : Murmur3 := {| murmur3_hash := fun l => as_u 32 (foldr Z.add 0 l) |}.
#[local] Instance no_mangling : Demangle := {| demangle := id |}.
#[local] Existing Instance le_reader.
#[local] Existing Instance le_reader_laws.

Lemma result_ok_inj {A} {x y : A} : Ok (E := unit) x = Ok y -> x = y.
Proof. by intros [= ->]. Qed.

Definition executable_of (v : SBPFVersion) (l : list Insn) : Executable unit :=
  let text := mjoin (to_array <$> l) in
  let len := Z.of_nat (length text) in
  mkExecutable text v (Borrowed 0 (0, len)) 0 (0, len) 0 registry_default new_mock.

Definition split_of (e : Executable unit) : result unit (Analysis unit) :=
  a ← analysis_new e; split_into_basic_blocks a false (sbpf_version e).

Definition or_empty (r : result unit (Analysis unit)) : Analysis unit :=
  match r with
  | Ok a => a
  | _ => mkAnalysis (executable_of V3 []) [] ∅ ∅ [] 0 0 ∅ ∅
  end.

(** ** A branch and a loop *)
Definition branch_and_loop : Executable unit := executable_of V3
  [mkInsn 0 JEQ64_IMM 1 0 1 0; mkInsn 1 MOV64_IMM 2 0 0 5; mkInsn 2 ADD64_REG 2 1 0 0;
   mkInsn 3 JNE64_IMM 2 0 (-2) 0; mkInsn 4 EXIT 0 0 0 0].
Definition branch_split : Analysis unit := or_empty (split_of branch_and_loop).
Abbreviation blocks := (cfg_nodes branch_split).

Lemma branch_split_ok : split_of branch_and_loop = Ok branch_split.
Proof. vm_compute. reflexivity. Qed.

Lemma branch_keys k : is_Some (blocks !! k) -> k = 0 \/ k = 1 \/ k = 2 \/ k = 4.
Proof.
  intros Hk%elem_of_binding_keys. replace ((bindings blocks).*1) with [0; 1; 2; 4] in Hk by (vm_compute; reflexivity).
  apply list_elem_of_In in Hk. cbn in Hk. intuition lia.
Qed.

Definition is_edge (nodes : gmap Z CfgNode) (u v : Z) : bool :=
  match nodes !! u with Some n => bool_decide (v ∈ destinations n) | None => false end.

Lemma is_edge_ok nodes u v : is_edge nodes u v = true -> cfg_edge nodes u v.
Proof.
  unfold is_edge. destruct (nodes !! u) as [n|] eqn:Hn; [|done]. intros Hv%bool_decide_eq_true. by exists n.
Qed.

Lemma no_edge_ok nodes v : bool_decide (map_Forall (fun _ n => v ∉ destinations n) nodes) = true ->
  forall u, ~ cfg_edge nodes u v.
Proof. intros Hm%bool_decide_eq_true u (n & Hn & Hv). by apply (Hm u n Hn). Qed.

(** Every block is reached from the first one, which nothing leads to. *)
Lemma branch_entered v : is_Some (blocks !! v) -> entered_below blocks v.
Proof.
  intros Hv%branch_keys. pose proof (no_edge_ok blocks 0 ltac:(vm_compute; reflexivity)) as H0.
  assert (Hedge : forall u w, is_edge blocks u w = true -> cfg_edge blocks u w) by apply is_edge_ok.
  assert (Hr1 : cfg_reach blocks 0 1) by (apply rtc_once, Hedge; vm_compute; reflexivity).
  assert (Hr2 : cfg_reach blocks 0 2) by (apply rtc_once, Hedge; vm_compute; reflexivity).
  assert (Hr4 : cfg_reach blocks 0 4) by (eapply rtc_r; [exact Hr2|apply Hedge; vm_compute; reflexivity]).
  exists 0. split_and!; [|vm_compute; eauto| |].
  - lia.
  - destruct Hv as [->|[->|[->| ->]]]; [apply rtc_refl|exact Hr1|exact Hr2|exact Hr4].
  - intros u x Hux _ Hx0. apply rtc_inv_r in Hx0 as [->|(w & _ & Hw)]; [destruct (H0 u Hux)|destruct (H0 w Hw)].
Qed.

Lemma branch_linked : well_linked blocks (super_root branch_split) /\ undominated blocks /\
  super_root branch_split <> u64_max /\
  forall k b, blocks !! k = Some b -> range_ok (instructions branch_split) b.
Proof.
  pose proof branch_split_ok as Hs. unfold split_of in Hs. apply result_bind_ok in Hs as (a & Ha & Hs).
  destruct (analysis_new_returns (E := unit) branch_and_loop 0 (elf_bytes branch_and_loop)
    ltac:(vm_compute; reflexivity) ltac:(vm_compute; reflexivity) ltac:(vm_compute; reflexivity))
    as (l & q & Hn & _ & Hl & Hsm & Hq & Hf).
  rewrite Hn in Ha. set (a0 := mkAnalysis _ _ _ _ _ _ _ _ _) in *. assert (a = a0) as -> by congruence.
  destruct (split_graph (E := unit) a0 (sbpf_version branch_and_loop) Hl Hsm eq_refl) as (a' & Hs' & Hi & _ & Hg).
  assert (a' = branch_split) as -> by congruence.
  destruct (split_untouched (E := unit) a0 branch_split _ Hl Hsm eq_refl Hs) as (Hsr & _ & _ & Hun).
  exact (split_linked _ branch_split q l Hg Hi Hsr Hf Hl Hq Hun).
Qed.

Lemma branch_nonempty : blocks <> ∅.
Proof. intros He. apply (f_equal (fun m => bool_decide (m = ∅))) in He. vm_compute in He. discriminate He. Qed.

(** The components, the dominators and the data flow of the program: the loop is
    a component of its own, the block after the branch is dominated by the
    branch, and the addition reads what either arm left in [r2]. *)
Definition positions (a : Analysis unit) : list (Z * (Z * Z)) :=
  (fun b => (b.1, (scc_id (topo_index b.2), dominator_parent b.2))) <$> bindings (cfg_nodes a).

Lemma components_spec_witness :
  exists a', control_flow_graph_tarjan (E := unit) branch_split = Ok a' /\
    topological_order a' = [0; 1; 2; 4] /\
    (block_scc (cfg_nodes a') 1 = block_scc (cfg_nodes a') 2 <-> cfg_reach blocks 1 2 /\ cfg_reach blocks 2 1).
Proof.
  destruct (components_spec (E := unit) branch_split (proj1 branch_linked) branch_nonempty)
    as (a' & Ht & _ & _ & Hscc & _). exists a'. split; [exact Ht|]. split.
  - vm_compute in Ht. injection Ht as <-. vm_compute. reflexivity.
  - apply Hscc; vm_compute; eauto.
Defined.

Lemma dominance_spec_witness :
  exists a' a'', control_flow_graph_tarjan (E := unit) branch_split = Ok a' /\
    control_flow_graph_dominance_hierarchy (E := unit) a' = Ok a'' /\
    positions a'' = [(0, (3, 5)); (1, (2, 0)); (2, (1, 0)); (4, (0, 2)); (5, (u64_max, 5))] /\
    immediate_dominator (cfg_nodes a') 5 0 2.
Proof.
  destruct branch_linked as (Hwl & Hun & Hsr & _).
  destruct (dominance_spec (E := unit) branch_split Hwl branch_nonempty Hun Hsr branch_entered)
    as (a' & a'' & Ht & Hd & Hk). exists a', a''. split; [exact Ht|]. split; [exact Hd|].
  vm_compute in Ht. injection Ht as <-. vm_compute in Hd. injection Hd as <-. split; [vm_compute; reflexivity|].
  edestruct (Hk 2) as [Himm _]; [vm_compute; reflexivity|]. apply Himm. vm_compute. discriminate.
Defined.

Definition branch_labelled : Analysis unit := or_empty (
  a ← control_flow_graph_tarjan branch_split;
  a ← control_flow_graph_dominance_hierarchy a;
  Ok (label_basic_blocks a)).

Lemma branch_labelled_ranges k b : cfg_nodes branch_labelled !! k = Some b ->
  range_ok (instructions branch_labelled) b.
Proof.
  intros Hb. assert (Hall : map_Forall (fun _ b => range_ok (instructions branch_labelled) b) (cfg_nodes branch_labelled));
    [|exact (Hall k b Hb)].
  apply (bool_decide_unpack _). vm_compute. exact I.
Qed.

Lemma branch_outputs :
  match intra_basic_block_data_flow (E := unit) branch_labelled V3 with
  | Ok (_, outputs) => bool_decide (outputs !! 1 = Some {[Register 2 := 1]} /\ outputs !! 2 = Some {[Register 2 := 2]})
  | _ => false
  end = true.
Proof. vm_compute. reflexivity. Qed.

Lemma intra_block_edges_witness :
  exists a outputs, intra_basic_block_data_flow (E := unit) branch_labelled V3 = Ok (a, outputs) /\
    outputs !! 1 = Some {[Register 2 := 1]} /\ outputs !! 2 = Some {[Register 2 := 2]} /\
    access_of 2 (events V3 [mkInsn 2 ADD64_REG 2 1 0 0; mkInsn 3 JNE64_IMM 2 0 (-2) 0]) (InstructionNode 2)
      (mkDfgEdge (InstructionNode 2) (InstructionNode 3) Filled (Register 2)) /\
    mkDfgEdge (InstructionNode 2) (InstructionNode 3) Filled (Register 2) ∈
      edges_of (dfg_forward_edges a) (InstructionNode 2).
Proof.
  destruct (intra_block_edges (E := unit) branch_labelled V3 branch_labelled_ranges)
    as (a & outputs & Ha & _ & _ & _ & _ & He & _). exists a, outputs. split; [exact Ha|].
  assert (Hacc : access_of 2 (events V3 [mkInsn 2 ADD64_REG 2 1 0 0; mkInsn 3 JNE64_IMM 2 0 (-2) 0]) (InstructionNode 2)
    (mkDfgEdge (InstructionNode 2) (InstructionNode 3) Filled (Register 2))).
  { eexists [_; _; _], _, _, _, []. split; [vm_compute; reflexivity|]. split; vm_compute; reflexivity. }
  pose proof branch_outputs as Ho. rewrite Ha in Ho. apply bool_decide_eq_true in Ho as [Ho1 Ho2].
  split; [exact Ho1|]. split; [exact Ho2|]. split; [exact Hacc|]. apply He. eexists 2, _. split; [vm_compute; reflexivity|exact Hacc].
Defined.

(** ** The data flow between its blocks *)
Definition branch_flow : Analysis unit * gmap Z (gmap DataResource Z) :=
  match intra_basic_block_data_flow (E := unit) branch_labelled V3 with
  | Ok r => r
  | _ => (branch_labelled, ∅)
  end.

Lemma branch_flow_closed :
  (forall b, b ∈ topological_order branch_flow.1 -> is_Some (cfg_nodes branch_flow.1 !! b)) /\
  (forall b p, b ∈ topological_order branch_flow.1 -> p ∈ block_sources (cfg_nodes branch_flow.1) b ->
     p ∈ super_root branch_flow.1 :: topological_order branch_flow.1 /\ is_Some (branch_flow.2 !! p)).
Proof.
  assert (Hall : Forall (fun b => is_Some (cfg_nodes branch_flow.1 !! b) /\
    Forall (fun p => p ∈ super_root branch_flow.1 :: topological_order branch_flow.1 /\ is_Some (branch_flow.2 !! p))
      (block_sources (cfg_nodes branch_flow.1) b)) (topological_order branch_flow.1)).
  { apply (bool_decide_unpack _). vm_compute. exact I. }
  rewrite Forall_forall in Hall. split.
  - intros b Hb. exact (proj1 (Hall b Hb)).
  - intros b p Hb Hp. pose proof (proj2 (Hall b Hb)) as Hs. rewrite Forall_forall in Hs. exact (Hs p Hp).
Qed.

(** The Φ node of the loop gets [r2] from the instruction before the loop. *)
Lemma inter_block_edges_witness :
  exists a', inter_basic_block_data_flow (E := unit) branch_flow.1 branch_flow.2 = Ok a' /\
    filed (dfg_forward_edges a') (InstructionNode 1) (PhiNode 2) Filled (Register 2) /\
    filed (dfg_reverse_edges a') (PhiNode 2) (PhiNode 2) Filled (Register 2).
Proof.
  destruct (inter_block_edges (E := unit) branch_flow.1 branch_flow.2 (proj1 branch_flow_closed)
    (proj2 branch_flow_closed)) as (a' & Ha & Hf & Hr). exists a'. split; [exact Ha|].
  assert (Hin : filed (dfg_forward_edges a') (InstructionNode 1) (PhiNode 2) Filled (Register 2)).
  { apply Hf. split.
    - assert (Hd : arrives (cfg_nodes branch_flow.1) 2 (InstructionNode 2) = PhiNode 2) by (vm_compute; reflexivity).
      rewrite <- Hd. apply (carried_written _ _ _ _ 2 1 1 (InstructionNode 2)).
      + apply (bool_decide_unpack _). vm_compute. exact I.
      + apply (bool_decide_unpack _). vm_compute. exact I.
      + vm_compute. reflexivity.
      + apply carried_local. exists (PhiNode 2). apply (bool_decide_unpack _). vm_compute. exact I.
    - intros (b & n & Hk & _). discriminate Hk. }
  split; [exact Hin|]. apply Hr. right. split; [reflexivity|]. exists (InstructionNode 1). exact Hin.
Defined.

(** ** The whole analysis *)
Lemma branch_split_entered a a' : analysis_new (E := unit) branch_and_loop = Ok a ->
  split_into_basic_blocks (E := unit) a false V3 = Ok a' ->
  forall v, is_Some (cfg_nodes a' !! v) -> entered_below (cfg_nodes a') v.
Proof.
  intros Ha Hs. assert (a' = branch_split) as ->; [|exact branch_entered].
  pose proof branch_split_ok as Hb. unfold split_of in Hb. rewrite Ha in Hb. cbn [mbind result_bind] in Hb.
  change (sbpf_version branch_and_loop) with V3 in Hb. rewrite Hs in Hb. exact (result_ok_inj Hb).
Qed.

Lemma analysis_returns_witness :
  exists a, from_executable (E := unit) branch_and_loop = Ok a /\
    cfg_reach (cfg_nodes a) (super_root a) 4 /\
    forall node, cfg_nodes a !! 4 = Some node -> 4 <> super_root a ->
      immediate_dominator (cfg_nodes a) (super_root a) (dominator_parent node) 4.
Proof.
  destruct (analysis_returns (E := unit) branch_and_loop 0 (elf_bytes branch_and_loop)) as (a & Ha & Hr & Hi & _).
  - vm_compute. reflexivity.
  - vm_compute. reflexivity.
  - vm_compute. reflexivity.
  - exact branch_split_entered.
  - exists a. split; [exact Ha|]. split; [|intros node; exact (Hi 4 node)]. apply Hr.
    assert (Hk : match from_executable (E := unit) branch_and_loop with
      | Ok a => bool_decide (is_Some (cfg_nodes a !! 4)) | _ => false end = true) by (vm_compute; reflexivity).
    rewrite Ha in Hk. exact (bool_decide_eq_true_1 _ Hk).
Defined.

(** ** Dominators *)
(** The component of blocks 1 and 2 is entered at block 2, from block 4, but
    searched from block 1, the first of its blocks. *)
Definition entered_from_behind : Executable unit := executable_of V3
  [mkInsn 0 EXIT 0 0 0 0; mkInsn 1 JEQ64_IMM 1 0 3 0; mkInsn 2 JEQ64_IMM 1 0 (-2) 0; mkInsn 3 JA 0 0 1 0;
   mkInsn 4 JA 0 0 (-3) 0; mkInsn 5 EXIT 0 0 0 0].
Definition behind_result : Analysis unit := or_empty (from_executable entered_from_behind).
Abbreviation behind := (cfg_nodes behind_result).

Lemma or_empty_ok (r : result unit (Analysis unit)) :
  match r with Ok _ => true | _ => false end = true -> r = Ok (or_empty r).
Proof. by destruct r. Qed.

Lemma behind_ok : from_executable (E := unit) entered_from_behind = Ok behind_result.
Proof. apply or_empty_ok. vm_compute. reflexivity. Qed.

Lemma data_flow_well_formed_witness :
  from_executable (E := unit) entered_from_behind = Ok behind_result /\
  edges_of (dfg_reverse_edges behind_result) (PhiNode 2) <> ∅ /\
  forall x, x ∈ edges_of (dfg_reverse_edges behind_result) (PhiNode 2) ->
    well_formed_edge (instructions behind_result) behind (PhiNode 2) x.
Proof.
  split; [exact behind_ok|]. split.
  - apply (bool_decide_unpack _). vm_compute. exact I.
  - refine (fun x => proj1 (proj2 (data_flow_well_formed (E := unit) entered_from_behind 0
      (elf_bytes entered_from_behind) behind_result _ _ _ behind_ok)) (PhiNode 2) x); vm_compute; reflexivity.
Defined.

(** A set of blocks with the root that no edge leaves but to [x] holds every
    block reached without touching [x]. *)
Lemma walk_inside (nodes : gmap Z CfgNode) root x (s : list Z) :
  bool_decide (root ∈ s) && forallb (fun p => match nodes !! p with
    | Some n => forallb (fun d => bool_decide (d = x \/ d ∈ s)) (destinations n) | None => true end) s = true ->
  forall y, walk_avoiding nodes root x y -> y ∈ s.
Proof.
  intros [Hroot%bool_decide_eq_true Hall]%andb_prop y Hw. rewrite forallb_forall in Hall.
  induction Hw as [|p y Hp IH (n & Hn & Hd) Hne]; [done|]. specialize (Hall p). rewrite <- list_elem_of_In, Hn in Hall.
  specialize (Hall IH). rewrite forallb_forall in Hall. specialize (Hall y). rewrite <- list_elem_of_In in Hall.
  by apply Hall, bool_decide_eq_true in Hd as [?|?].
Qed.

(** The analysis files block 5 under block 4, but every walk from the super root
    to block 5 goes through block 2, and block 4 is reached without it: the
    parent is not the immediate dominator the field is documented to hold. *)
Theorem parent_not_immediate :
  from_executable (E := unit) entered_from_behind = Ok behind_result /\
  (dominator_parent <$> behind !! 5) = Some 4 /\ block_dominates behind 6 2 5 /\
  ~ block_dominates behind 6 2 4 /\ ~ immediate_dominator behind 6 4 5.
Proof.
  assert (Hdom : block_dominates behind 6 2 5).
  { intros Hw. apply (walk_inside behind 6 2 [6; 0; 4] ltac:(vm_compute; reflexivity)) in Hw.
    apply list_elem_of_In in Hw. cbn in Hw. intuition lia. }
  assert (Hnot : ~ block_dominates behind 6 2 4).
  { intros Hd. apply Hd. eapply (walk_step _ _ _ 6); [by constructor|apply is_edge_ok; vm_compute; reflexivity|done]. }
  split_and!; [exact behind_ok|vm_compute; reflexivity|exact Hdom|exact Hnot|]. intros (_ & _ & Hall). by apply Hnot, Hall.
Qed.

(** ** Edges under another node than their source *)
(** The keys of [dfg_forward_edges] are documented to be the sources of the
    edges.  The edge the second pass files under instruction 1 has the Φ node of
    block 2 as source: the loop changes the destination of the copy only. *)
Theorem filed_under_another_node : exists a,
  inter_basic_block_data_flow (E := unit) branch_flow.1 branch_flow.2 = Ok a /\
  exists x, x ∈ edges_of (dfg_forward_edges a) (InstructionNode 1) /\ source x = PhiNode 2.
Proof.
  set (x := mkDfgEdge (PhiNode 2) (PhiNode 2) Filled (Register 2)).
  assert (Hx : match inter_basic_block_data_flow (E := unit) branch_flow.1 branch_flow.2 with
    | Ok a => bool_decide (x ∈ edges_of (dfg_forward_edges a) (InstructionNode 1)) | _ => false end = true)
    by (vm_compute; reflexivity).
  destruct (inter_basic_block_data_flow branch_flow.1 branch_flow.2) as [a|e|]; [|done..].
  exists a. split; [done|]. exists x. split; [by apply bool_decide_eq_true in Hx|done].
Qed.

(** ** Accesses not recorded *)
(** In the second instruction set a load by its new opcode is taken for a
    multiplication, so the read of memory is lost, a division of its own has
    no accesses, and an indirect call reads the register the immediate names
    instead of the source register; in the third set it is the destination
    register that is lost. *)
Theorem accesses_lost (d s : Z) :
  (accesses V2 (mkInsn 0 LD_1B_REG d s 0 0) = accesses V2 (mkInsn 0 MUL32_REG d s 0 0)) /\
  (reads Memory ∉ accesses V2 (mkInsn 0 LD_1B_REG d s 0 0)) /\
  (accesses V2 (mkInsn 0 UDIV64_REG d s 0 0) = []) /\
  (reads (Register 7) ∉ accesses V2 (mkInsn 0 CALL_REG 0 7 0 0)) /\
  reads (Register 7) ∉ accesses V3 (mkInsn 0 CALL_REG 7 0 0 0).
Proof.
  split_and!; try (vm_compute; reflexivity).
  - vm_compute. by intros [[=]|[[=]|[[=]|?%not_elem_of_nil]%elem_of_cons]%elem_of_cons]%elem_of_cons.
  - apply (bool_decide_unpack _). vm_compute. exact I.
  - apply (bool_decide_unpack _). vm_compute. exact I.
Qed.

(** ** Traces and pictures *)

(** Names are quoted as they are, sets are iterated in the order of [elements]. *)
#[local] Instance plain_format : OutputFormat :=
  {| debug_string s := quote +:+ s +:+ quote; hash_set_order s := elements s; edge_hue _ _ := "0"%string |}.
#[local] Instance plain_format_laws : OutputFormatLaws.
Proof. split. done. Qed.

Definition analysed_branch : Analysis unit := or_empty (from_executable branch_and_loop).

Definition at_pc (pc : Z) : list Z := replicate 11 0 ++ [pc].
(** The run that takes the branch and goes round the loop twice. *)
Definition loop_trace : list (list Z) := at_pc <$> [0; 2; 3; 2; 3; 2; 3; 4].

Lemma dynamic_analysis_counts_witness :
  exists d, DynamicAnalysis_new (E := unit) loop_trace analysed_branch = Ok d /\
    recorded d (2, 2) = 2 /\ recorded d (2, 4) = 1 /\ edge_counter_max d = 2.
Proof.
  destruct (dynamic_analysis_counts (E := unit) loop_trace analysed_branch) as (d & Hd & Hc & _ & _).
  - repeat constructor.
  - vm_compute. reflexivity.
  - exists d. split; [exact Hd|]. rewrite !Hc. split; [vm_compute; reflexivity|]. split; [vm_compute; reflexivity|].
    assert (Hm : match DynamicAnalysis_new (E := unit) loop_trace analysed_branch with
      | Ok d => edge_counter_max d =? 2 | _ => false end = true) by (vm_compute; reflexivity).
    rewrite Hd in Hm. exact (proj1 (Z.eqb_eq _ _) Hm).
Defined.

Lemma branch_functions :
  bool_decide (map_Forall (fun f _ => is_Some (cfg_nodes analysed_branch !! f)) (functions analysed_branch)) &&
  bool_decide (map_Forall (fun s _ => 0 <= s) (cfg_nodes analysed_branch)) &&
  bool_decide (is_Some (functions analysed_branch !! 0)) = true.
Proof. vm_compute. reflexivity. Qed.

Lemma iter_cfg_by_function_witness :
  exists l, iter_cfg_by_function (E := unit) analysed_branch = Ok l /\
    (fun t => (t.1.1, t.1.2)) <$> l = [((0, 5), 0); ((0, 5), 1); ((0, 5), 2); ((0, 5), 4); ((0, 5), 5)].
Proof.
  pose proof branch_functions as Hb. apply andb_prop in Hb as [Hb H0]. apply andb_prop in Hb as [Hf Hs].
  apply bool_decide_eq_true in Hf, Hs, H0.
  destruct (iter_cfg_by_function_spec (E := unit) analysed_branch 5) as (l & Hl & _ & _).
  - vm_compute. reflexivity.
  - intros He. rewrite He, lookup_empty in H0. destruct H0 as [x Hx]. discriminate Hx.
  - intros f [x Hx]. exact (Hf f x Hx).
  - intros s [n Hn]. exists 0. split; [exact H0|exact (Hs s n Hn)].
  - exists l. split; [exact Hl|].
    assert (Hm : match iter_cfg_by_function (E := unit) analysed_branch with
      | Ok l => bool_decide ((fun t => (t.1.1, t.1.2)) <$> l = [((0, 5), 0); ((0, 5), 1); ((0, 5), 2); ((0, 5), 4); ((0, 5), 5)])
      | _ => false end = true) by (vm_compute; reflexivity).
    rewrite Hl in Hm. exact (bool_decide_eq_true_1 _ Hm).
Defined.

Lemma trace_table_witness :
  exists table, pc_to_insn_index (E := unit) [mkInsn 0 LD_DW_IMM 1 0 0 7; mkInsn 2 EXIT 0 0 0 0] = Ok table /\
    get table 1 = Some 0 /\ get table 2 = Some 1.
Proof.
  destruct (trace_table (E := unit) [mkInsn 0 LD_DW_IMM 1 0 0 7; mkInsn 2 EXIT 0 0 0 0]) as (t & Ht & Hs).
  - repeat split; vm_compute; congruence.
  - repeat constructor.
  - exists t. split; [exact Ht|]. split.
    + apply (Hs 0%nat _ 1 eq_refl). vm_compute. split; congruence.
    + apply (Hs 1%nat _ 2 eq_refl). vm_compute. split; congruence.
Defined.

(** ** The picture *)
Definition with_function (pc : Z) (name : list byte) (e : Executable unit) : Executable unit :=
  mkExecutable (elf_bytes e) (sbpf_version e) (ro_section e) (text_section_vaddr e) (text_section_range e)
    (entry_pc e) (mkRegistry {[pc := (name, pc)]}) (exec_loader e).

(** A call in the second block, of the function at slot 4. *)
Definition call_behind_branch : Executable unit := with_function 4 (bytes_of_string "callee") (executable_of V3
  [mkInsn 0 JEQ64_IMM 1 0 1 0; mkInsn 1 MOV64_IMM 2 0 0 5; mkInsn 2 CALL_IMM 0 1 0 1; mkInsn 3 EXIT 0 0 0 0;
   mkInsn 4 EXIT 0 0 0 0]).

(** The listing names the function the call goes to; the picture, which counts
    instructions from the start of the block, prints the distance. *)
Example picture_resolves_from_block :
  let a := or_empty (from_executable call_behind_branch) in
  analysis_disassemble_instruction (E := unit) a (mkInsn 2 CALL_IMM 0 1 0 1) 2 = Ok "call callee"%string /\
  exists rows, cell_rows (E := unit) a 0 [mkInsn 2 CALL_IMM 0 1 0 1] = Ok rows /\
    String.index 0 "callee" rows = None.
Proof. split; [vm_compute; reflexivity|]. eexists. split; vm_compute; reflexivity. Qed.

(** A name whose sixteenth byte is inside a character: cutting the text of the
    call after fifteen bytes panics. *)
Example picture_panics_on_name :
  cell_row (E := unit) ("call " +:+ string_of_bytes (replicate 14 97 ++ [0xc3; 0xa9; 98; 98])) = Panic.
Proof. vm_compute. reflexivity. Qed.
