(* ===== verification/TestUtils.v ===== *)
(** * The syscalls and the harness of the tests

    [src/casestudy/sbpf/test_utils/src/syscalls.rs]: native functions on the
    context of [TestContext].  What they print is not modelled.
    [SyscallGenericTest] is a loop without an exit and is left out.  A raw
    access outside the host memory is undefined behaviour and [Panic].

    [src/casestudy/sbpf/test_utils/src/lib.rs]: how the tests build a VM around
    an executable (the regions, the stack and the heap, the context) and run it
    in the interpreter.  An assertion that fails is [Panic]; what it prints is
    not modelled. *)

From Stdlib Require Import String.
From stdpp Require Import gmap strings.
From S2P Require Import Prelude Ebpf Program Verifier Error Vm Interpreter MemoryRegion.
From S2P Require Import MappingFacts AlignedMemory ElfParser Text Elf TestContext.

Inductive TestSyscall :=
| SyscallTracePrintf
| SyscallGatherBytes
| SyscallMemFrob
| SyscallStrCmp
| SyscallString
| SyscallU64.

#[export] Instance TestSyscall_eq_dec : EqDecision TestSyscall.
Proof. solve_decision. Defined.

(** What the functions use beyond the context: the message of an error, and
    [(x as f64).log(16.0).floor() as u64], a floating-point computation whose
    result is below 17 for every [u64]. *)
Class TestEnvironment := {
  display : EbpfError -> string;
  log16_floor : Z -> Z
}.
Class TestEnvironmentLaws `{TestEnvironment} := {
  log16_floor_range x : 0 <= log16_floor x <= 16
}.

Section Syscalls.
Context `{P : Profile, TE : TestEnvironment}.

Definition wrapping_shl_u64 (x n : Z) : Z := as_u 64 (Z.shiftl x (n mod 64)).

(** [context_object.memory_mapping.map(access, addr, len)] *)
Definition map_context (c : TestContextObject) (access : AccessType) (addr n : Z)
    : result EbpfError Z * TestContextObject :=
  let (r, m) := mm_map (memory_mapping c) access addr n in
  (r, mkContext (remaining c) m (host_memory c)).

Definition size_arg (x : Z) : result string Z := if x =? 0 then Ok 1 else arith_u64 (log16_floor x + 1).

(** The bytes of [bpf_trace_printf: 0x, 0x, 0x] and a newline. *)
Definition trace_prefix_len : Z := 29.

Definition syscall_trace_printf (c : TestContextObject) (arg3 arg4 arg5 : Z) : result string Z * TestContextObject :=
  (a ← size_arg arg3; n ← arith_u64 (trace_prefix_len + a);
   b ← size_arg arg4; n ← arith_u64 (n + b);
   d ← size_arg arg5; arith_u64 (n + d), c).

Definition syscall_gather_bytes (c : TestContextObject) (arg1 arg2 arg3 arg4 arg5 : Z)
    : result string Z * TestContextObject :=
  (Ok (Z.lor (Z.lor (Z.lor (Z.lor (wrapping_shl_u64 arg1 32) (wrapping_shl_u64 arg2 24)) (wrapping_shl_u64 arg3 16))
        (wrapping_shl_u64 arg4 8)) arg5), c).

(** [for i in 0..len { *(host_addr + i) ^= 0b101010 }], from [i] on. *)
Fixpoint frob (h : HostMemory) (host_addr i : Z) (n : nat) : result string HostMemory :=
  match n with
  | O => Ok h
  | S n =>
      p ← arith_u64 (host_addr + i);
      b ← or_panic (h !! p);
      frob (<[p := Z.lxor b 0x2a]> h) host_addr (i + 1) n
  end.

Definition syscall_mem_frob (c : TestContextObject) (vm_addr len : Z) : result string Z * TestContextObject :=
  if len =? 0 then (Ok 0, c)
  else
    let (r, c) := map_context c Store vm_addr len in
    match r with
    | Ok host_addr =>
        match frob (host_memory c) host_addr 0 (Z.to_nat len) with
        | Ok h => (Ok 0, mkContext (remaining c) (memory_mapping c) h)
        | Err e => (Err e, c)
        | Panic => (Panic, c)
        end
    | Err e => (Err (display e), c)
    | Panic => (Panic, c)
    end.

(** The loop of [strcmp] on raw pointers; [fuel] bounds the steps. *)
Fixpoint str_cmp (h : HostMemory) (fuel : nat) (a b : Z) : result string Z :=
  match fuel with
  | O => Panic
  | S fuel =>
      a_val ← or_panic (h !! a);
      b_val ← or_panic (h !! b);
      if (a_val =? b_val) && negb (a_val =? 0) && negb (b_val =? 0) then
        a ← arith_u64 (a + 1); b ← arith_u64 (b + 1); str_cmp h fuel a b
      else Ok (if b_val <=? a_val then a_val - b_val else b_val - a_val)
  end.

(** The loop stops at an address that is not host memory, if not before. *)
Definition syscall_str_cmp (c : TestContextObject) (arg1 arg2 : Z) : result string Z * TestContextObject :=
  if (arg1 =? 0) || (arg2 =? 0) then (Ok u64_max, c)
  else
    let (r, c) := map_context c Load arg1 1 in
    match r with
    | Ok a =>
        let (r, c) := map_context c Load arg2 1 in
        match r with
        | Ok b => (str_cmp (host_memory c) (S (size (host_memory c))) a b, c)
        | Err e => (Err (display e), c)
        | Panic => (Panic, c)
        end
    | Err e => (Err (display e), c)
    | Panic => (Panic, c)
    end.

(** The bytes up to the first zero are printed. *)
Definition syscall_string (c : TestContextObject) (vm_addr len : Z) : result string Z * TestContextObject :=
  if len =? 0 then (Ok 0, c)
  else
    let (r, c) := map_context c Load vm_addr len in
    match r with
    | Ok host_addr => (c_buf ← or_panic (read_host (host_memory c) host_addr (Z.to_nat len)); Ok 0, c)
    | Err e => (Err (display e), c)
    | Panic => (Panic, c)
    end.

#[global] Instance test_builtins : Builtins TestSyscall TestContextObject := {|
  rust f c a1 a2 a3 a4 a5 :=
    match f with
    | SyscallTracePrintf => syscall_trace_printf c a3 a4 a5
    | SyscallGatherBytes => syscall_gather_bytes c a1 a2 a3 a4 a5
    | SyscallMemFrob => syscall_mem_frob c a1 a2
    | SyscallStrCmp => syscall_str_cmp c a1 a2
    | SyscallString => syscall_string c a1 a2
    | SyscallU64 => (Ok 0, c)
    end
|}.
End Syscalls.

Definition unwrap_ok {E F A} (r : result E A) : result F A :=
  match r with Ok x => Ok x | _ => Panic end.

Definition compare_register_trace (interpreter jit : list (list Z)) : bool :=
  let jit := if (length interpreter <? length jit)%nat then take (length interpreter) jit else jit in
  bool_decide (interpreter = jit).

Definition INSTRUCTION_METER_BUDGET : Z := 1024.

(** The assertion on the meter: the program used the budget it was given. *)
Definition meter_as_expected (config : Config) (instruction_count expected : Z) : bool :=
  negb (enable_instruction_meter config) || (instruction_count =? expected).

Section TestUtils.
Context {V : Type} `{P : Profile, AH : AccessViolationHandler, AL : Allocator, BO : ByteOrder}.
Context `{BT : Builtins V TestContextObject}.
(** The addresses of an empty slice, of an owned section and of the file. *)
Context (empty_slice owned_addr elf_addr : Z).
Implicit Types (e : Executable V) (c : TestContextObject).

(** [TestContextObject::default] and [new] *)
Definition context_default {E} : result E TestContextObject :=
  m ← unwrap_ok (mm_new empty_slice [] Config_default Reserved);
  Ok (mkContext 0 m ∅).
Definition context_new {E} (remaining : Z) : result E TestContextObject :=
  c ← context_default; Ok (mkContext remaining (memory_mapping c) (host_memory c)).

(** The handler, if there is one, is the class argument of the VM. *)
Definition create_memory_mapping e (stack heap : AlignedMemory) (additional_regions : list MemoryRegion)
    : result EbpfError MemoryMapping :=
  config ← get_config (exec_loader e);
  let v := sbpf_version e in
  ro ← get_ro_region owned_addr elf_addr e;
  stack_region ← region_new_gapped (am_host_address stack) (am_byte_length stack) MM_STACK_START
                   (if stack_frame_gaps v && enable_stack_frame_gaps config then stack_frame_size config else 0) true;
  heap_region ← region_new (am_host_address heap) (am_byte_length heap) MM_HEAP_START true;
  mm_new empty_slice (ro :: stack_region :: heap_region :: additional_regions) config v.

(** [create_vm!]: the block of the stack joins the host memory. *)
Definition create_vm {E} e c (additional_regions : list MemoryRegion)
    : result E (EbpfVm V TestContextObject) :=
  config ← get_config (exec_loader e);
  n ← stack_size config;
  stack ← zero_filled HOST_ALIGN n;
  heap ← with_capacity HOST_ALIGN 0;
  let stack_len := am_len stack in
  m ← unwrap_ok (create_memory_mapping e stack heap additional_regions);
  let host := zeroed (am_host_address stack) (Z.to_nat stack_len) ∪ host_memory c in
  vm ← vm_new (exec_loader e) (sbpf_version e) (mkContext (remaining c) m host) stack_len;
  Ok (set_registers (<[1%nat := MM_INPUT_START]> (registers vm)) vm).

(** What [test_interpreter_and_jit!] does up to the compilation: the executable
    is verified, a VM is created around the input, which the host memory holds
    at the address [mem.1] in [mem.2] bytes, and the program is interpreted.
    The count, the result, the final program counter and the trace. *)
Definition test_interpreter (fuel : nat) (override_budget : bool) e (mem : Z * Z) c
    : option (result False (Z * ProgramResult * Z * list (list Z))) :=
  let c := if override_budget then mkContext INSTRUCTION_METER_BUDGET (memory_mapping c) (host_memory c) else c in
  match unwrap_ok (F := False) (executable_verify e), get_config (E := False) (exec_loader e) with
  | Ok _, Ok config =>
      match (mem_region ← region_new mem.1 mem.2 MM_INPUT_START true; create_vm (E := False) e c [mem_region]) with
      | Ok vm =>
          match execute_program fuel None vm e Interpreted
                  (replicate (Z.to_nat (max_call_depth config)) CallFrame_default) with
          | Some (Ok (count, r, _, vm)) =>
              Some (pc ← or_panic (get (registers vm) 11); Ok (count, r, pc, register_trace vm))
          | Some _ => Some Panic
          | None => None
          end
      | _ => Some Panic
      end
  | _, _ => Some Panic
  end.
End TestUtils.

(** ** Assembly sources *)
Definition TCP_SACK_ASM : string := "
    add64 r10, 0
    ldxb r2, [r1+12]
    ldxb r3, [r1+13]
    lsh r3, 0x8
    or r3, r2
    mov r0, 0x0
    jne r3, 0x8, +37
    ldxb r2, [r1+23]
    jne r2, 0x6, +35
    ldxb r2, [r1+14]
    add r1, 0xe
    and r2, 0xf
    lsh r2, 0x2
    add r1, r2
    mov r0, 0x0
    ldxh r4, [r1+12]
    add r1, 0x14
    rsh r4, 0x2
    and r4, 0x3c
    mov r2, r4
    add r2, -20
    mov r5, 0x15
    mov r3, 0x0
    jgt r5, r4, +20
    mov r5, r3
    lsh r5, 0x20
    arsh r5, 0x20
    mov r4, r1
    add r4, r5
    ldxb r5, [r4]
    jeq r5, 0x1, +4
    jeq r5, 0x0, +12
    mov r6, r3
    jeq r5, 0x5, +9
    ja +2
    add r3, 0x1
    mov r6, r3
    ldxb r3, [r4+1]
    add r3, r6
    lsh r3, 0x20
    arsh r3, 0x20
    jsgt r2, r3, -18
    ja +1
    mov r0, 0x1
    exit"%string.

Definition PROG_TCP_PORT_80 : string := "
    add64 r10, 0
    ldxb r2, [r1+0xc]
    ldxb r3, [r1+0xd]
    lsh64 r3, 0x8
    or64 r3, r2
    mov64 r0, 0x0
    jne r3, 0x8, +0xc
    ldxb r2, [r1+0x17]
    jne r2, 0x6, +0xa
    ldxb r2, [r1+0xe]
    add64 r1, 0xe
    and64 r2, 0xf
    lsh64 r2, 0x2
    add64 r1, r2
    ldxh r2, [r1+0x2]
    jeq r2, 0x5000, +0x2
    ldxh r1, [r1+0x0]
    jne r1, 0x5000, +0x1
    mov64 r0, 0x1
    exit"%string.

(** ** The program that looks for the SACK option of TCP, and two packets *)
Definition TCP_SACK_BIN : list byte :=
  [0x47; 0x00; 0x00; 0x00; 0x00; 0x00; 0x00; 0x00; 0x71; 0x12; 0x0c; 0x00; 0x00; 0x00; 0x00; 0x00;
   0x71; 0x13; 0x0d; 0x00; 0x00; 0x00; 0x00; 0x00; 0x67; 0x03; 0x00; 0x00; 0x08; 0x00; 0x00; 0x00;
   0x4f; 0x23; 0x00; 0x00; 0x00; 0x00; 0x00; 0x00; 0xb7; 0x00; 0x00; 0x00; 0x00; 0x00; 0x00; 0x00;
   0x55; 0x03; 0x25; 0x00; 0x08; 0x00; 0x00; 0x00; 0x71; 0x12; 0x17; 0x00; 0x00; 0x00; 0x00; 0x00;
   0x55; 0x02; 0x23; 0x00; 0x06; 0x00; 0x00; 0x00; 0x71; 0x12; 0x0e; 0x00; 0x00; 0x00; 0x00; 0x00;
   0x07; 0x01; 0x00; 0x00; 0x0e; 0x00; 0x00; 0x00; 0x57; 0x02; 0x00; 0x00; 0x0f; 0x00; 0x00; 0x00;
   0x67; 0x02; 0x00; 0x00; 0x02; 0x00; 0x00; 0x00; 0x0f; 0x21; 0x00; 0x00; 0x00; 0x00; 0x00; 0x00;
   0xb7; 0x00; 0x00; 0x00; 0x00; 0x00; 0x00; 0x00; 0x69; 0x14; 0x0c; 0x00; 0x00; 0x00; 0x00; 0x00;
   0x07; 0x01; 0x00; 0x00; 0x14; 0x00; 0x00; 0x00; 0x77; 0x04; 0x00; 0x00; 0x02; 0x00; 0x00; 0x00;
   0x57; 0x04; 0x00; 0x00; 0x3c; 0x00; 0x00; 0x00; 0xbf; 0x42; 0x00; 0x00; 0x00; 0x00; 0x00; 0x00;
   0x07; 0x02; 0x00; 0x00; 0xec; 0xff; 0xff; 0xff; 0xb7; 0x05; 0x00; 0x00; 0x15; 0x00; 0x00; 0x00;
   0xb7; 0x03; 0x00; 0x00; 0x00; 0x00; 0x00; 0x00; 0x2d; 0x45; 0x14; 0x00; 0x00; 0x00; 0x00; 0x00;
   0xbf; 0x35; 0x00; 0x00; 0x00; 0x00; 0x00; 0x00; 0x67; 0x05; 0x00; 0x00; 0x20; 0x00; 0x00; 0x00;
   0xc7; 0x05; 0x00; 0x00; 0x20; 0x00; 0x00; 0x00; 0xbf; 0x14; 0x00; 0x00; 0x00; 0x00; 0x00; 0x00;
   0x0f; 0x54; 0x00; 0x00; 0x00; 0x00; 0x00; 0x00; 0x71; 0x45; 0x00; 0x00; 0x00; 0x00; 0x00; 0x00;
   0x15; 0x05; 0x04; 0x00; 0x01; 0x00; 0x00; 0x00; 0x15; 0x05; 0x0c; 0x00; 0x00; 0x00; 0x00; 0x00;
   0xbf; 0x36; 0x00; 0x00; 0x00; 0x00; 0x00; 0x00; 0x15; 0x05; 0x09; 0x00; 0x05; 0x00; 0x00; 0x00;
   0x05; 0x00; 0x02; 0x00; 0x00; 0x00; 0x00; 0x00; 0x07; 0x03; 0x00; 0x00; 0x01; 0x00; 0x00; 0x00;
   0xbf; 0x36; 0x00; 0x00; 0x00; 0x00; 0x00; 0x00; 0x71; 0x43; 0x01; 0x00; 0x00; 0x00; 0x00; 0x00;
   0x0f; 0x63; 0x00; 0x00; 0x00; 0x00; 0x00; 0x00; 0x67; 0x03; 0x00; 0x00; 0x20; 0x00; 0x00; 0x00;
   0xc7; 0x03; 0x00; 0x00; 0x20; 0x00; 0x00; 0x00; 0x6d; 0x32; 0xee; 0xff; 0x00; 0x00; 0x00; 0x00;
   0x05; 0x00; 0x01; 0x00; 0x00; 0x00; 0x00; 0x00; 0xb7; 0x00; 0x00; 0x00; 0x01; 0x00; 0x00; 0x00;
   0x95; 0x00; 0x00; 0x00; 0x00; 0x00; 0x00; 0x00].

Definition TCP_SACK_MATCH : list byte :=
  [0x00; 0x26; 0x62; 0x2f; 0x47; 0x87; 0x00; 0x1d; 0x60; 0xb3; 0x01; 0x84; 0x08; 0x00; 0x45; 0x00;
   0x00; 0x40; 0xa8; 0xde; 0x40; 0x00; 0x40; 0x06; 0x9d; 0x58; 0xc0; 0xa8; 0x01; 0x03; 0x3f; 0x74;
   0xf3; 0x61; 0xe5; 0xc0; 0x00; 0x50; 0xe5; 0x94; 0x3f; 0x77; 0xa3; 0xc4; 0xc4; 0x80; 0xb0; 0x10;
   0x01; 0x3e; 0x34; 0xb6; 0x00; 0x00; 0x01; 0x01; 0x08; 0x0a; 0x00; 0x17; 0x95; 0x6f; 0x8d; 0x9d;
   0x9e; 0x27; 0x01; 0x01; 0x05; 0x0a; 0xa3; 0xc4; 0xca; 0x28; 0xa3; 0xc4; 0xcf; 0xd0].

Definition TCP_SACK_NOMATCH : list byte :=
  [0x00; 0x26; 0x62; 0x2f; 0x47; 0x87; 0x00; 0x1d; 0x60; 0xb3; 0x01; 0x84; 0x08; 0x00; 0x45; 0x00;
   0x00; 0x40; 0xa8; 0xde; 0x40; 0x00; 0x40; 0x06; 0x9d; 0x58; 0xc0; 0xa8; 0x01; 0x03; 0x3f; 0x74;
   0xf3; 0x61; 0xe5; 0xc0; 0x00; 0x50; 0xe5; 0x94; 0x3f; 0x77; 0xa3; 0xc4; 0xc4; 0x80; 0x80; 0x10;
   0x01; 0x3e; 0x34; 0xb6; 0x00; 0x00; 0x01; 0x01; 0x08; 0x0a; 0x00; 0x17; 0x95; 0x6f; 0x8d; 0x9d;
   0x9e; 0x27].
