(* ===== verification/TestUtilsFacts.v ===== *)
(** * Facts about the syscalls and the harness of the tests

    Every syscall but [SyscallStrCmp] stays inside the regions of the mapping:
    it satisfies the interface the interpreter requires of native functions,
    so a verified program may call them.  [SyscallStrCmp] maps one byte of each
    string and reads on from there, and can leave its region.

    The VM the tests build is valid: its mapping satisfies the invariant of
    [MappingFacts], so a verified program, with the syscalls that stay inside
    the mapping, runs in it to a result within its meter. *)

From Stdlib Require Import String.
From stdpp Require Import gmap strings.
From S2P Require Import Prelude Ebpf Program Verifier Error Vm Interpreter InterpreterFacts.
From S2P Require Import MemoryRegion MemoryFacts MappingFacts AlignedMemory ElfParser Text Elf.
From S2P Require Import ElfLoadFacts TestContext TestUtils.

Section SyscallFacts.
Context `{P : Profile, TE : TestEnvironment, !TestEnvironmentLaws}.
Context `{AH : AccessViolationHandler, !AccessViolationHandlerLaws}.
Implicit Types (c : TestContextObject) (h : HostMemory).

(** ** [map] *)
Lemma map_context_ok c access a n :
  test_context_valid c -> is_u 64 a -> 0 <= n ->
  match map_context c access a n with
  | (Ok p, c') => test_context_valid c' /\ remaining c' = remaining c /\ host_memory c' = host_memory c /\
      exists r, r ∈ get_regions (memory_mapping c') /\ allowed r access /\ region_valid (host_memory c) r /\
        host_addr r <= p /\ p + n <= host_addr r + len r
  | (Err _, c') => test_context_valid c' /\ remaining c' = remaining c /\ host_memory c' = host_memory c
  | (Panic, _) => False
  end.
Proof.
  intros (Hr & Hm & Hb) Ha Hn. unfold map_context, mm_map, debug_assert.
  rewrite (ok_initialized _ _ Hm), andb_false_r, (ok_translates _ _ Hm).
  destruct (mm_find_ok _ _ a Hm) as (o & m' & -> & Hf & Hm' & Hreg & Hsame).
  destruct o as [[i r]|]; [|done]. apply Hsame in Hf. pose proof (found_region _ _ _ _ Hf) as Hl.
  apply list_elem_of_lookup_2 in Hl.
  pose proof (proj1 (Forall_forall _ _) (ok_regions _ _ Hm') r Hl) as Hv.
  destruct (vm_to_host r access a n) as [p|] eqn:Hp; [|done]. simpl. split_and!; try done.
  exists r. destruct (vm_to_host_bounds _ _ _ _ _ (proj1 Hv) Ha Hn Hp) as [Hlo Hhi].
  split_and!; try done. by apply (vm_to_host_iff r access a n p (proj1 Hv) Ha Hn) in Hp as [? _].
Qed.

Lemma map_context_remaining c access a n : remaining (map_context c access a n).2 = remaining c.
Proof. unfold map_context. by destruct (mm_map _ _ _ _). Qed.

(** ** [memfrob] *)
Definition frobbed h h' (a n : Z) : Prop :=
  forall i, h' !! i = if decide (a <= i < a + n) then (Z.lxor 0x2a) <$> h !! i else h !! i.

Lemma frob_ok h a i n :
  0 <= a + i -> a + i + Z.of_nat n <= u64_max -> backed h (a + i) (Z.of_nat n) ->
  exists h', frob h a i n = Ok h' /\ frobbed h h' (a + i) (Z.of_nat n).
Proof.
  revert h i. induction n as [|n IH]; intros h i Hlo Hhi Hb; cbn [frob].
  { exists h. split; [done|]. intros j. rewrite decide_False by lia. done. }
  rewrite arith_u64_ok by (unfold is_u, u64_max in *; lia). cbn [mbind result_bind]. destruct (Hb (a + i)) as [b Hbi]; [lia|]. rewrite Hbi.
  cbn [or_panic mbind result_bind].
  destruct (IH (<[a + i := Z.lxor b 0x2a]> h) (i + 1)) as (h' & Hf & Hh'); [lia..| |].
  { intros j Hj. rewrite lookup_insert_is_Some. destruct (decide (a + i = j)); [by left|right].
    split; [done|]. apply Hb. lia. }
  exists h'. split; [done|]. intros j. rewrite (Hh' j).
  destruct (decide (a + i = j)) as [<-|Hne].
  - rewrite decide_False, decide_True by lia. rewrite lookup_insert_eq, Hbi. simpl. by rewrite Z.lxor_comm.
  - rewrite lookup_insert_ne by done. by repeat (case_decide; try lia).
Qed.

Lemma frobbed_dom h h' a n : frobbed h h' a n -> forall i, is_Some (h' !! i) <-> is_Some (h !! i).
Proof. intros Hf i. rewrite (Hf i). case_decide; [by rewrite fmap_is_Some|done]. Qed.

Lemma frobbed_bytes h h' a n : frobbed h h' a n -> host_bytes h -> host_bytes h'.
Proof.
  intros Hf Hb i b Hi. rewrite (Hf i) in Hi. case_decide; [|by apply Hb in Hi].
  apply fmap_Some in Hi as (x & Hx%Hb & ->). by apply lxor_is_u.
Qed.

Lemma frobbed_twice h h1 h2 a n : frobbed h h1 a n -> frobbed h1 h2 a n -> h2 = h.
Proof.
  intros H1 H2. apply map_eq. intros i. rewrite (H2 i), (H1 i). case_decide; [|done].
  destruct (h !! i) as [b|]; [|done]. simpl. f_equal.
  by rewrite <- Z.lxor_assoc, Z.lxor_nilpotent, Z.lxor_0_l.
Qed.

Lemma valid_host c h : (forall i, is_Some (h !! i) <-> is_Some (host_memory c !! i)) -> host_bytes h ->
  test_context_valid c -> test_context_valid (mkContext (remaining c) (memory_mapping c) h).
Proof. intros Hd Hb (Hr & Hm & _). split_and!; [done| |done]. by apply (mapping_ok_host _ (host_memory c)). Qed.

(** A call whose range is mapped flips it. *)
Lemma mem_frob_mapped c c' a n p :
  test_context_valid c -> is_u 64 a -> 0 < n -> map_context c Store a n = (Ok p, c') ->
  exists h', syscall_mem_frob c a n = (Ok 0, mkContext (remaining c') (memory_mapping c') h') /\
    frobbed (host_memory c) h' p n.
Proof.
  intros Hc Ha Hn Hm. pose proof (map_context_ok c Store a n Hc Ha ltac:(lia)) as Hmap.
  unfold syscall_mem_frob. destruct (Z.eqb_spec n 0); [lia|]. rewrite Hm in *.
  destruct Hmap as (_ & _ & Hh & r & _ & _ & [Hwf Hb] & Hlo & Hhi). pose proof (wf_host r Hwf) as [? ?].
  destruct (frob_ok (host_memory c) p 0 (Z.to_nat n)) as (h' & Hf & Hfr); [lia..| |].
  { intros i Hi. apply Hb. lia. }
  rewrite Z.add_0_r, Z2Nat.id in Hfr by lia. exists h'. by rewrite Hh, Hf.
Qed.

Lemma mem_frob_ok c a n :
  test_context_valid c -> is_u 64 a -> 0 < n ->
  match syscall_mem_frob c a n with
  | (Ok x, c') => x = 0 /\ test_context_valid c' /\ remaining c' = remaining c /\
      exists p r, (map_context c Store a n).1 = Ok p /\ r ∈ get_regions (memory_mapping c') /\ writable r = true /\
        host_addr r <= p /\ p + n <= host_addr r + len r /\
        memory_mapping c' = memory_mapping (map_context c Store a n).2 /\
        frobbed (host_memory c) (host_memory c') p n
  | (Err _, c') => test_context_valid c' /\ remaining c' = remaining c /\ host_memory c' = host_memory c
  | (Panic, _) => False
  end.
Proof.
  intros Hc Ha Hn. pose proof (map_context_ok c Store a n Hc Ha ltac:(lia)) as Hmap.
  destruct (map_context c Store a n) as [[p|e|] c'] eqn:Hm; [| |done].
  - destruct (mem_frob_mapped c c' a n p Hc Ha Hn Hm) as (h' & -> & Hf).
    destruct Hmap as (Hc' & Hr & Hh & r & Hin & Hall & _ & Hlo & Hhi). simpl. split; [done|].
    split; [|split; [done|]; exists p, r; split_and!; try done; by apply Hall].
    rewrite <- Hh in Hf. apply valid_host; [by eapply frobbed_dom|eapply frobbed_bytes; [done|apply Hc']|done].
  - unfold syscall_mem_frob. destruct (Z.eqb_spec n 0); [lia|]. by rewrite Hm.
Qed.

(** ** Mapping the same access again *)
Lemma map_again c access a n p h :
  test_context_valid c -> (map_context c access a n).1 = Ok p ->
  (forall i, is_Some (h !! i) <-> is_Some (host_memory c !! i)) ->
  (map_context (mkContext (remaining c) (memory_mapping (map_context c access a n).2) h) access a n).1 = Ok p.
Proof.
  intros (Hr & Hm & Hb) Hp Hd. unfold map_context, mm_map, debug_assert in *.
  rewrite (ok_initialized _ _ Hm), andb_false_r, (ok_translates _ _ Hm) in *.
  destruct (mm_find_ok _ _ a Hm) as (o & m' & Heq & Hf & Hm' & Hreg & Hsame). rewrite Heq in *.
  destruct o as [[i r]|]; [|done]. destruct (vm_to_host r access a n) as [q|] eqn:Hq; [|done].
  injection Hp as ->. cbn [memory_mapping snd]. pose proof (mapping_ok_host m' _ h Hd Hm') as Hm2.
  rewrite (ok_initialized _ _ Hm2), andb_false_r, (ok_translates _ _ Hm2).
  destruct (mm_find_ok _ _ a Hm2) as (o & m2 & -> & Hf2 & _). apply Hsame in Hf2.
  rewrite (found_unique _ _ _ _ Hf2 Hf), Hq. done.
Qed.
(** [SyscallMemFrob] is its own inverse: on a valid context a call that
    succeeds changes exactly the [n] bytes the address maps to, all inside one
    writable region, and calling it again with the same arguments succeeds and
    restores the memory. *)
Theorem mem_frob_twice c c1 a n :
  test_context_valid c -> is_u 64 a -> 0 < n -> syscall_mem_frob c a n = (Ok 0, c1) ->
  (exists p r, r ∈ get_regions (memory_mapping c1) /\ writable r = true /\
     host_addr r <= p /\ p + n <= host_addr r + len r /\ frobbed (host_memory c) (host_memory c1) p n) /\
  exists c2, syscall_mem_frob c1 a n = (Ok 0, c2) /\ host_memory c2 = host_memory c.
Proof.
  intros Hc Ha Hn H1. pose proof (mem_frob_ok c a n Hc Ha Hn) as Hok. rewrite H1 in Hok.
  destruct Hok as (_ & Hc1 & Hr & p & r & Hp & Hin & Hw & Hlo & Hhi & Hm & Hf).
  split; [eauto 10|].
  pose proof (map_again c Store a n p (host_memory c1) Hc Hp (frobbed_dom _ _ _ _ Hf)) as Hagain.
  rewrite <- Hm, <- Hr in Hagain. replace (mkContext _ _ _) with c1 in Hagain by (by destruct c1).
  destruct (map_context c1 Store a n) as [r1 c'] eqn:Hm1. simpl in Hagain. subst r1.
  destruct (mem_frob_mapped c1 c' a n p Hc1 Ha Hn Hm1) as (h' & -> & Hf2).
  eexists. split; [done|]. by eapply frobbed_twice.
Qed.

(** ** The interface of native functions *)
Lemma size_arg_ok x : exists n, size_arg x = Ok n /\ 1 <= n <= 17.
Proof.
  unfold size_arg. destruct (x =? 0); [by exists 1|]. pose proof (log16_floor_range x).
  rewrite arith_u64_ok by (unfold is_u; lia). eexists. split; [done|]. lia.
Qed.

Lemma trace_printf_ok c a b d : exists n, syscall_trace_printf c a b d = (Ok n, c) /\ 32 <= n <= 80.
Proof.
  unfold syscall_trace_printf, trace_prefix_len.
  destruct (size_arg_ok a) as (x & -> & Hx), (size_arg_ok b) as (y & -> & Hy), (size_arg_ok d) as (z & -> & Hz).
  cbn [mbind result_bind]. rewrite !arith_u64_ok by (unfold is_u; lia). cbn [mbind result_bind].
  rewrite !arith_u64_ok by (unfold is_u; lia). cbn [mbind result_bind].
  rewrite !arith_u64_ok by (unfold is_u; lia). eexists. split; [done|]. lia.
Qed.

Lemma string_ok c a n :
  test_context_valid c -> is_u 64 a -> 0 <= n ->
  match syscall_string c a n with
  | (Ok x, c') => x = 0 /\ test_context_valid c'
  | (Err _, c') => test_context_valid c'
  | (Panic, _) => False
  end.
Proof.
  intros Hc Ha Hn. unfold syscall_string. destruct (n =? 0); [done|].
  pose proof (map_context_ok c Load a n Hc Ha Hn) as Hmap.
  destruct (map_context c Load a n) as [[p|e|] c'] eqn:Hm; [|naive_solver|done].
  destruct Hmap as (Hc' & _ & Hh & r & _ & _ & [_ Hb] & Hlo & Hhi).
  destruct (read_host_ok (host_memory c') p (Z.to_nat n)) as (bs & -> & _); [|done].
  rewrite Hh. intros i Hi. apply Hb. lia.
Qed.

(** The syscalls that stay inside the mapping. *)
Definition bounded_syscall (f : TestSyscall) : bool := bool_decide (f <> SyscallStrCmp).
Definition BoundedSyscall : Type := { f : TestSyscall | bounded_syscall f = true }.

#[global] Instance bounded_builtins : Builtins BoundedSyscall TestContextObject := {| rust f := rust (`f) |}.

Lemma rust_ok (f : BoundedSyscall) c r1 r2 r3 r4 r5 :
  context_valid c -> Forall (is_u 64) [r1; r2; r3; r4; r5] ->
  match rust f c r1 r2 r3 r4 r5 with
  | (Ok x, c') => is_u 64 x /\ context_valid c'
  | (Err _, c') => context_valid c'
  | (Panic, _) => False
  end.
Proof.
  intros Hc [H1 [H2 [H3 [H4 [H5 _]%Forall_cons]%Forall_cons]%Forall_cons]%Forall_cons]%Forall_cons.
  assert (Hz : is_u 64 0) by done. destruct f as [[] Hf]; cbn [rust proj1_sig bounded_builtins test_builtins]; try done.
  - destruct (trace_printf_ok c r3 r4 r5) as (n & -> & Hn). split; [unfold is_u; lia|done].
  - split; [|done]. assert (forall x n, is_u 64 (wrapping_shl_u64 x n)) by (intros; apply as_u_is_u; lia).
    auto 8 with ranges.
  - destruct (Z.eq_dec r2 0) as [->|Hn]; [done|].
    pose proof (mem_frob_ok c r1 r2 Hc H1 ltac:(unfold is_u in H2; lia)) as Hok.
    destruct (syscall_mem_frob c r1 r2) as [[]?]; naive_solver.
  - pose proof (string_ok c r1 r2 Hc H1 ltac:(unfold is_u in H2; lia)) as Hok.
    destruct (syscall_string c r1 r2) as [[]?]; naive_solver.
Qed.

Lemma rust_meter (f : TestSyscall) c r1 r2 r3 r4 r5 : remaining (rust f c r1 r2 r3 r4 r5).2 = remaining c.
Proof.
  destruct f; simpl; try done; unfold syscall_mem_frob, syscall_str_cmp, syscall_string; case_match; try done;
    match goal with |- context [map_context c ?acc r1 ?n] =>
      pose proof (map_context_remaining c acc r1 n); destruct (map_context c acc r1 n) as [[]c'] end; simpl in *; try done.
  - by destruct (frob _ _ _ _).
  - pose proof (map_context_remaining c' Load r2 1) as Hr. destruct (map_context c' Load r2 1) as [[]?]; simpl in *; congruence.
Qed.

#[global] Instance bounded_builtins_laws : BuiltinsLaws BoundedSyscall TestContextObject.
Proof.
  split.
  - intros f c r1 r2 r3 r4 r5. apply Z.eq_le_incl, (rust_meter (`f)).
  - intros f c r1 r2 r3 r4 r5 Hc Hr. pose proof (rust_ok f c r1 r2 r3 r4 r5 Hc Hr) as Hok.
    destruct (rust f c r1 r2 r3 r4 r5) as [[]?]; naive_solver.
  - intros f c r1 r2 r3 r4 r5 x Hc Hr Hx. pose proof (rust_ok f c r1 r2 r3 r4 r5 Hc Hr) as Hok.
    destruct (rust f c r1 r2 r3 r4 r5) as [[]?]; naive_solver.
  - intros f c r1 r2 r3 r4 r5 Hc Hr Hx. pose proof (rust_ok f c r1 r2 r3 r4 r5 Hc Hr) as Hok.
    destruct (rust f c r1 r2 r3 r4 r5) as [[]?]; naive_solver.
Qed.
End SyscallFacts.

(** What else an allocator documents: a block does not wrap around. *)
Class AllocatorRange `{Allocator} := {
  alloc_range size align p : alloc size align = Some p -> 0 <= p /\ p + size <= u64_max
}.

(** A JIT trace may be longer than the trace of the interpreter. *)
Lemma compare_register_trace_iff interpreter jit :
  compare_register_trace interpreter jit = true <-> interpreter `prefix_of` jit.
Proof.
  unfold compare_register_trace. destruct (Nat.ltb_spec (length interpreter) (length jit)) as [Hl|Hl];
    rewrite bool_decide_eq_true.
  - split.
    + intros Heq. exists (drop (length interpreter) jit). rewrite Heq at 1. by rewrite take_drop.
    + intros [k ->]. by rewrite take_app_length.
  - split; [by intros ->|]. intros [k ->]. rewrite length_app in Hl.
    destruct k; [by rewrite app_nil_r|simpl in Hl; lia].
Qed.

Section TestUtilsFacts.
Context {V : Type} `{P : Profile, AH : AccessViolationHandler, !AccessViolationHandlerLaws}.
Context `{AL : Allocator, !AllocatorRange, BO : ByteOrder, !ByteOrderLaws}.
Context `{BT : Builtins V TestContextObject, !BuiltinsLaws V TestContextObject}.
Context (empty_slice owned_addr elf_addr : Z) (empty_slice_range : 0 <= empty_slice <= u64_max).
Implicit Types (e : Executable V) (c : TestContextObject).

Lemma context_new_ok n :
  is_u 64 n -> exists c, context_new (E := EbpfError) empty_slice n = Ok c /\ remaining c = n /\ test_context_valid c.
Proof.
  intros Hn. unfold context_new, context_default.
  pose proof (mm_new_ok empty_slice empty_slice_range [] Config_default Reserved ∅ eq_refl ltac:(constructor)) as Hok.
  assert (exists m, mm_new empty_slice [] Config_default Reserved = Ok m) as [m Hm] by (eexists; vm_compute; reflexivity).
  rewrite Hm in *. cbn [unwrap_ok mbind result_bind]. eexists. split; [done|]. split; [done|].
  split_and!; [done|done|]. apply map_Forall_empty.
Qed.

(** ** The regions of a new VM *)
Lemma new_internal_valid {E} h address n a gap w (r : MemoryRegion) :
  new_internal (E := E) address n a gap w = Ok r ->
  is_u 64 a -> 0 <= n -> 0 <= address -> address + n <= u64_max -> is_u 64 gap -> backed h address n ->
  region_valid h r.
Proof.
  unfold new_internal. intros (s & Hs & [= <-])%result_bind_ok Ha Hn Hlo Hhi Hg Hb. split; [|done].
  split; simpl; try done. destruct (0 <? gap); [|by injection Hs as <-].
  apply result_bind_ok in Hs as (_ & _ & [= <-]). unfold leading_zeros_u64.
  destruct (Z.eqb_spec gap 0); [lia|]. pose proof (Z.log2_nonneg gap). unfold is_u in Hg.
  assert (Z.log2 gap < 64) by (apply Z.log2_lt_pow2; lia). lia.
Qed.

Lemma zero_filled_block {E} n (s : AlignedMemory) :
  0 <= n -> zero_filled (E := E) HOST_ALIGN n = Ok s ->
  am_len s = n /\ 0 <= am_host_address s /\ am_host_address s + n <= u64_max.
Proof.
  intros Hn. unfold zero_filled, av_new, am_len, am_host_address.
  change (HOST_ALIGN =? 0) with false. cbn iota.
  intros (v & Hv & (w & Hw & [= <-])%result_bind_ok)%result_bind_ok. unfold av_set_len in Hw.
  result_inv; subst; simpl in *; (split; [done|]).
  - apply Z.eqb_eq in Heqb as ->. unfold av_empty, HOST_ALIGN, u64_max. simpl. lia.
  - by eapply alloc_range.
Qed.

(** The host memory of the test: the input, the executable, and the stack. *)
Lemma backed_union_l h h' a n : backed h a n -> backed (h ∪ h') a n.
Proof. intros Hb i Hi. apply lookup_union_is_Some. left. by apply Hb. Qed.
Lemma region_valid_union h h' r : region_valid h' r -> region_valid (h ∪ h') r.
Proof. intros [Hwf Hb]. split; [done|]. intros i Hi. apply lookup_union_is_Some. right. by apply Hb. Qed.
Lemma host_bytes_union h h' : host_bytes h -> host_bytes h' -> host_bytes (h ∪ h').
Proof. by apply map_Forall_union_2. Qed.

Context (cfg : Config) (e : Executable V).

(** What the caller of [create_vm!] provides: a meter, and the bytes of the
    executable and of the further regions in its memory. *)
Record inputs_valid c (regions : list MemoryRegion) : Prop := {
  in_meter : is_u 64 (remaining c);
  in_bytes : host_bytes (host_memory c);
  in_ro : forall ro, get_ro_region (E := EbpfError) owned_addr elf_addr e = Ok ro -> region_valid (host_memory c) ro;
  in_regions : Forall (region_valid (host_memory c)) regions
}.

(** The mapping of the regions, over the memory with the stack added. *)
Lemma create_memory_mapping_ok c stack heap regions h m :
  config (exec_loader e) = Some cfg -> enable_address_translation cfg = true -> is_u 64 (stack_frame_size cfg) ->
  inputs_valid c regions -> am_len heap = 0 -> 0 <= am_host_address heap <= u64_max ->
  0 <= am_len stack -> 0 <= am_host_address stack -> am_host_address stack + am_len stack <= u64_max ->
  backed h (am_host_address stack) (am_len stack) ->
  create_memory_mapping empty_slice owned_addr elf_addr e stack heap regions = Ok m ->
  mapping_ok m (h ∪ host_memory c).
Proof.
  intros Hc Ht Hf [_ _ Hro Hregs] Hhl Hha Hn Hlo Hhi Hb. unfold create_memory_mapping, get_config. rewrite Hc.
  cbn [or_panic mbind result_bind]. unfold region_new_gapped, region_new, am_byte_length. rewrite Hhl.
  intros (ro & Hr & (sr & Hs & (hr & Hh & Hm)%result_bind_ok)%result_bind_ok)%result_bind_ok.
  pose proof (mm_new_ok empty_slice empty_slice_range (ro :: sr :: hr :: regions) cfg (sbpf_version e)
                (h ∪ host_memory c) Ht) as Hok.
  rewrite Hm in Hok. apply Hok. constructor; [by apply region_valid_union, Hro|].
  constructor; [|constructor].
  - eapply new_internal_valid; [exact Hs|done|done|done|done| |by apply backed_union_l]. by destruct (_ && _).
  - eapply new_internal_valid; [exact Hh|done|lia|lia|lia|done|]. intros i Hi. lia.
  - eapply Forall_impl; [exact Hregs|]. intros r. apply region_valid_union.
Qed.

Lemma create_vm_fresh c regions base prog m :
  runnable cfg e base prog -> enable_address_translation cfg = true -> inputs_valid c regions ->
  create_vm (E := False) empty_slice owned_addr elf_addr e c regions = Ok m ->
  fresh_vm e m (context m) /\ test_context_valid (context m) /\ remaining (context m) = remaining c.
Proof.
  intros HR Ht Hin. pose proof (run_config _ _ _ _ HR) as Hc. pose proof (run_frame_size _ _ _ _ HR) as Hf.
  unfold create_vm, get_config at 1. rewrite Hc. cbn [or_panic mbind result_bind].
  intros (n & Hn & (stack & Hs & (heap & Hh & Hrest)%result_bind_ok)%result_bind_ok)%result_bind_ok.
  apply arith_u64_range in Hn.
  destruct (zero_filled_block n stack ltac:(unfold is_u in Hn; lia) Hs) as (Hl & Hlo & Hhi). rewrite Hl in *.
  injection Hh as <-. apply result_bind_ok in Hrest as (mm & Hmm & (vm & Hvm & [= <-])%result_bind_ok).
  destruct (create_memory_mapping _ _ _ _ _ _ _) as [mm'| |] eqn:Hcm; [|done|done]. injection Hmm as ->.
  pose proof (registers_of_new cfg e _ _ n _ ltac:(lia) ltac:(unfold is_u in Hn; lia) Hc Hvm)
    as (Hrl & Hrr & Hd & Hlo' & Hctx).
  cbn [context set_registers]. rewrite Hctx. split_and!.
  - split_and!; simpl; try done; [by rewrite length_insert|]. by apply Forall_insert.
  - split_and!; simpl.
    + apply Hin.
    + eapply create_memory_mapping_ok; [done|done| |done|..|exact Hcm]; try done; rewrite ?Hl; try lia.
      * unfold is_u, u64_max in *. lia.
      * unfold is_u in Hn. lia.
      * rewrite <- (Z2Nat.id n) at 2 by (unfold is_u in Hn; lia). apply zeroed_backed.
    + apply host_bytes_union; [apply zeroed_bytes|apply Hin].
  - done.
Qed.

Lemma runnable_verifies base prog : runnable cfg e base prog -> executable_verify e = Ok tt.
Proof.
  intros HR. unfold executable_verify, get_config.
  rewrite (get_text_bytes_any _ _ (run_text _ _ _ _ HR)), (run_config _ _ _ _ HR). cbn [or_panic mbind result_bind].
  by rewrite (run_verified _ _ _ _ HR).
Qed.

Lemma test_interpreter_returns c mem base prog m :
  runnable cfg e base prog -> enable_address_translation cfg = true ->
  let region := mkRegion mem.1 MM_INPUT_START mem.2 63 true None in
  inputs_valid c [region] ->
  create_vm (E := False) empty_slice owned_addr elf_addr e c [region] = Ok m ->
  exists count r pc trace,
    test_interpreter empty_slice owned_addr elf_addr (S (Z.to_nat (remaining c))) false e mem c =
      Some (Ok (count, r, pc, trace)) /\
    0 <= count <= remaining c /\ match r with StOk x => is_u 64 x | StErr _ => True end.
Proof.
  intros HR Ht region Hin Hm. destruct (create_vm_fresh c [region] base prog m HR Ht Hin Hm) as (Hf & Hv & Hrem).
  assert (Hv2 : context_valid (context m)) by exact Hv.
  destruct (fresh_vm_returns cfg e base prog (context m) (replicate (Z.to_nat (max_call_depth cfg)) CallFrame_default)
              m None HR Hv2) as (n & r & m' & Hx & Hn & Hr & Hl); [|exact Hf|].
  { rewrite length_replicate. pose proof (run_depth _ _ _ _ HR). lia. }
  unfold test_interpreter. rewrite (runnable_verifies base prog HR). cbn [unwrap_ok].
  unfold get_config. rewrite (run_config _ _ _ _ HR). cbn [or_panic].
  change (region_new mem.1 mem.2 MM_INPUT_START true ≫= ?f) with (f region). cbv beta. rewrite Hm.
  cbn [get_remaining test_context_object] in Hx, Hn. rewrite Hrem in Hx, Hn. rewrite Hx.
  destruct (get_Some (registers m') 11) as [pc Hpc]; [rewrite Hl; lia|]. rewrite Hpc.
  do 4 eexists. split; [reflexivity|]. done.
Qed.
End TestUtilsFacts.

(** C8: The test harness composes: for an executable whose text passed the
    verifier, with any of the syscalls of the tests but [SyscallStrCmp], and an
    input whose bytes the memory holds, the interpreter half of
    [test_interpreter_and_jit!] verifies, runs and returns a count within the
    meter and a 64-bit value or an error: no assertion fails, and no access
    leaves the executable, the stack, the heap and the input. *)
Theorem test_program_returns `{P : Profile, TE : TestEnvironment, !TestEnvironmentLaws,
    AH : AccessViolationHandler, !AccessViolationHandlerLaws, AL : Allocator, !AllocatorRange,
    BO : ByteOrder, !ByteOrderLaws}
    (empty_slice owned_addr elf_addr : Z) cfg (e : Executable BoundedSyscall) c mem base prog m :
  0 <= empty_slice <= u64_max ->
  runnable cfg e base prog -> enable_address_translation cfg = true ->
  let region := mkRegion mem.1 MM_INPUT_START mem.2 63 true None in
  inputs_valid owned_addr elf_addr e c [region] ->
  create_vm (E := False) empty_slice owned_addr elf_addr e c [region] = Ok m ->
  exists count r pc trace,
    test_interpreter empty_slice owned_addr elf_addr (S (Z.to_nat (remaining c))) false e mem c =
      Some (Ok (count, r, pc, trace)) /\
    0 <= count <= remaining c /\ match r with StOk x => is_u 64 x | StErr _ => True end.
Proof. intros He. by apply test_interpreter_returns. Qed.
