(* ===== verification/TestWitnesses.v ===== *)
(** * Instances of the theorems on the syscalls and the test harness

    The tests [test_tcp_sack_match] and [test_tcp_sack_nomatch] of
    [src/casestudy/sbpf/tests/execution.rs] run here in the model, with the
    results and the instruction counts the tests expect. *)

From Stdlib Require Import String.
From stdpp Require Import gmap strings.
From S2P Require Import Prelude Ebpf Program Verifier Error Vm Interpreter InterpreterFacts.
From S2P Require Import MemoryRegion MemoryFacts AlignedMemory MappingFacts ElfParser Text Elf TestContext.
From S2P Require Import TestUtils TestUtilsFacts.

#[local] Instance checked : Profile := {| debug_assertions := true |}.
#[local] Existing Instance le_reader.
#[local] Existing Instance le_reader_laws.
#[local] Existing Instance default_access_violation_handler.
#[local] Existing Instance default_handler_laws.
#[local] Instance decimal : TestEnvironment := {| display _ := EmptyString; log16_floor x := Z.min (Z.log2 x / 4) 15 |}.
#[local] Instance decimal_laws : TestEnvironmentLaws.
Proof. split. intros x. simpl. pose proof (Z.log2_nonneg x). pose proof (Z.div_pos (Z.log2 x) 4). lia. Qed.
#[local] Instance one_block : Allocator := {| alloc size align := if size <=? 0x10000 then Some 0x100000 else None |}.
#[local] Instance one_block_range : AllocatorRange.
Proof. split. intros size align p. simpl. destruct (Z.leb_spec size 0x10000); [|done]. intros [= <-]. unfold u64_max. lia. Qed.

(** ** [memfrob] on four bytes *)
Definition bytes_at (a : Z) (l : list byte) : HostMemory :=
  list_to_map (imap (fun i b => (a + Z.of_nat i, b)) l).
Definition frob_host : HostMemory := bytes_at 4096 [1; 2; 3; 4; 5; 6].
Definition frob_region : MemoryRegion := mkRegion 4096 MM_INPUT_START 6 63 true None.
Definition frob_mapping : MemoryMapping :=
  Eval vm_compute in match mm_new 0 [frob_region] Config_default V0 with Ok m => m | _ => mkMapping 0 0 true V0 true (Aligned (mkAligned [] true)) end.
Definition frob_context : TestContextObject := mkContext 10 frob_mapping frob_host.

(** A range of addresses is backed when each of them is. *)
Definition backedb (h : HostMemory) (a n : Z) : bool :=
  forallb (fun i => bool_decide (is_Some (h !! (a + Z.of_nat i)))) (seq 0 (Z.to_nat n)).
Lemma backedb_ok h a n : backedb h a n = true -> backed h a n.
Proof.
  intros Hb i Hi. unfold backedb in Hb. rewrite forallb_forall in Hb.
  specialize (Hb (Z.to_nat (i - a)) ltac:(apply in_seq; lia)). apply bool_decide_eq_true in Hb.
  by replace (a + Z.of_nat (Z.to_nat (i - a))) with i in Hb by lia.
Qed.

Definition host_bytesb (h : HostMemory) : bool := forallb (fun p => (0 <=? p.2) && (p.2 <? 256)) (map_to_list h).
Lemma host_bytesb_ok h : host_bytesb h = true -> host_bytes h.
Proof.
  intros Hb i b Hi%elem_of_map_to_list. unfold host_bytesb in Hb. rewrite forallb_forall in Hb.
  apply list_elem_of_In in Hi. specialize (Hb _ Hi). simpl in Hb. unfold is_u. lia.
Qed.

Lemma frob_context_valid : test_context_valid frob_context.
Proof.
  split_and!; [vm_compute; intuition discriminate| |apply host_bytesb_ok; vm_compute; reflexivity].
  pose proof (mm_new_ok 0 ltac:(done) [frob_region] Config_default V0 frob_host eq_refl) as Hok.
  assert (Heq : mm_new 0 [frob_region] Config_default V0 = Ok frob_mapping) by (vm_compute; reflexivity).
  rewrite Heq in Hok. apply Hok. constructor; [|constructor].
  split; [split; vm_compute; intuition discriminate|apply backedb_ok; vm_compute; reflexivity].
Qed.

Definition frobbed_context : TestContextObject :=
  Eval vm_compute in (syscall_mem_frob frob_context (MM_INPUT_START + 1) 4).2.

Lemma mem_frob_twice_witness :
  (exists p r, r ∈ get_regions (memory_mapping frobbed_context) /\ writable r = true /\
     host_addr r <= p /\ p + 4 <= host_addr r + len r /\
     frobbed (host_memory frob_context) (host_memory frobbed_context) p 4) /\
  exists c2, syscall_mem_frob frobbed_context (MM_INPUT_START + 1) 4 = (Ok 0, c2) /\
    host_memory c2 = host_memory frob_context.
Proof.
  apply (mem_frob_twice frob_context frobbed_context (MM_INPUT_START + 1) 4);
    [exact frob_context_valid|vm_compute; intuition discriminate|lia|vm_compute; reflexivity].
Defined.

(** ** [strcmp] leaves its region *)
Definition strings_mapping : MemoryMapping :=
  Eval vm_compute in
    match mm_new 0 [mkRegion 4096 MM_INPUT_START 2 63 true None; mkRegion 8192 MM_HEAP_START 3 63 true None]
            Config_default V0 with
    | Ok m => m | _ => frob_mapping end.
Definition strings_context (secret : byte) : TestContextObject :=
  mkContext 10 strings_mapping (bytes_at 4096 [97; 98; secret] ∪ bytes_at 8192 [97; 98; 0]).

(** Two memories that differ only in the byte at 4098, which no region
    contains: the guest program learns it, although the mapping is valid. *)
Lemma str_cmp_reads_outside :
  Forall (fun r => 4098 < host_addr r \/ host_addr r + len r <= 4098) (get_regions strings_mapping) /\
  (syscall_str_cmp (strings_context 7) MM_INPUT_START MM_HEAP_START).1 = Ok 7 /\
  (syscall_str_cmp (strings_context 9) MM_INPUT_START MM_HEAP_START).1 = Ok 9.
Proof.
  split; [|split; vm_compute; reflexivity].
  change (get_regions strings_mapping) with
    [mkRegion 8192 MM_HEAP_START 3 63 true None; mkRegion 4096 MM_INPUT_START 2 63 true None].
  constructor; [simpl; lia|]. constructor; [simpl; lia|constructor].
Qed.

(** ** The TCP programs *)
Definition test_config : Config := {|
  max_call_depth := 1; stack_frame_size := 256; enable_address_translation := true;
  enable_stack_frame_gaps := true; instruction_meter_checkpoint_distance := 10000;
  enable_instruction_meter := true; enable_register_tracing := true;
  enable_symbol_and_section_labels := false; reject_broken_elfs := false; noop_instruction_rate := 256;
  sanitize_user_provided_values := true; optimize_rodata := true; allow_memory_region_zero := true;
  aligned_memory_mapping := false; enabled_sbpf_versions := (V3, V3) |}.

(** The executable of the program, as [new_from_text_bytes] builds it. *)
Definition tcp_sack : Executable BoundedSyscall :=
  mkExecutable TCP_SACK_BIN V3 (Borrowed MM_RODATA_START (0, 360)) MM_BYTECODE_START (0, 360) 0
    registry_default (new_loader test_config).

(** The packet at [0x8000], the file at [0x4000]. *)
Definition packet_context (budget : Z) (packet : list byte) : TestContextObject :=
  mkContext budget frob_mapping (bytes_at 0x8000 packet ∪ bytes_at 0x4000 TCP_SACK_BIN).

Definition outcome (budget : Z) (packet : list byte) : option (Z * ProgramResult * nat) :=
  match test_interpreter 0 0 0x4000 (S (Z.to_nat budget)) false tcp_sack (0x8000, Z.of_nat (length packet))
          (packet_context budget packet) with
  | Some (Ok (count, r, _, trace)) => Some (count, r, length trace)
  | _ => None
  end.

(** [test_tcp_sack_match]: 80 instructions, 1.  [test_tcp_sack_nomatch]: 56, 0. *)
Example tcp_sack_match : outcome 80 TCP_SACK_MATCH = Some (80, StOk 1, 80%nat).
Proof. vm_compute. reflexivity. Qed.
Example tcp_sack_nomatch : outcome 56 TCP_SACK_NOMATCH = Some (56, StOk 0, 56%nat).
Proof. vm_compute. reflexivity. Qed.

Lemma tcp_sack_runnable : runnable test_config tcp_sack MM_BYTECODE_START TCP_SACK_BIN.
Proof.
  split.
  - reflexivity.
  - reflexivity.
  - split; vm_compute; discriminate.
  - split; [reflexivity|vm_compute; discriminate].
  - vm_compute. reflexivity.
  - apply is_bytes_compute. vm_compute. reflexivity.
  - reflexivity.
  - vm_compute. reflexivity.
  - intros key name target Hl. unfold lookup_by_key in Hl. simpl in Hl. by rewrite lookup_empty in Hl.
  - split; vm_compute; discriminate.
Qed.

Definition packet_region : MemoryRegion := mkRegion 0x8000 MM_INPUT_START 78 63 true None.

Lemma packet_inputs : inputs_valid 0 0x4000 tcp_sack (packet_context 80 TCP_SACK_MATCH) [packet_region].
Proof.
  split.
  - vm_compute. intuition discriminate.
  - apply host_bytesb_ok. vm_compute. reflexivity.
  - intros ro [= <-]. split; [split; vm_compute; intuition discriminate|apply backedb_ok; vm_compute; reflexivity].
  - constructor; [|constructor].
    split; [split; vm_compute; intuition discriminate|apply backedb_ok; vm_compute; reflexivity].
Qed.

Definition packet_vm : EbpfVm BoundedSyscall TestContextObject :=
  match create_vm (E := False) 0 0 0x4000 tcp_sack (packet_context 80 TCP_SACK_MATCH) [packet_region] with
  | Ok m => m
  | _ => mkVm 0 frob_context 0 0 [] (StOk 0) (exec_loader tcp_sack) []
  end.

Lemma packet_vm_created :
  create_vm (E := False) 0 0 0x4000 tcp_sack (packet_context 80 TCP_SACK_MATCH) [packet_region] = Ok packet_vm.
Proof.
  unfold packet_vm. destruct (create_vm _ _ _ _ _ _) as [m|[]|] eqn:Hm; [reflexivity|].
  assert (Hok : match create_vm (E := False) 0 0 0x4000 tcp_sack (packet_context 80 TCP_SACK_MATCH) [packet_region]
                with Ok _ => true | _ => false end = true) by (vm_compute; reflexivity).
  by rewrite Hm in Hok.
Qed.

Lemma test_program_returns_witness :
  exists count r pc trace,
    test_interpreter 0 0 0x4000 (S (Z.to_nat 80)) false tcp_sack (0x8000, 78) (packet_context 80 TCP_SACK_MATCH) =
      Some (Ok (count, r, pc, trace)) /\
    0 <= count <= 80 /\ match r with StOk x => is_u 64 x | StErr _ => True end.
Proof.
  apply (test_program_returns 0 0 0x4000 test_config tcp_sack (packet_context 80 TCP_SACK_MATCH) (0x8000, 78)
           MM_BYTECODE_START TCP_SACK_BIN packet_vm);
    [unfold u64_max; lia|exact tcp_sack_runnable|reflexivity|exact packet_inputs|exact packet_vm_created].
Defined.
