(* ===== verification/Debugger.v ===== *)
(** * The debugger: [src/casestudy/sbpf/src/debugger.rs]

    The interpreter as the target of a remote debugger: registers, memory,
    breakpoints and single steps as the client sees them, the description of
    the target, and the loop that alternates between the client and the
    program.  The protocol itself is the crate [gdbstub], a parameter: its
    state machine consumes bytes of the connection and calls the methods of the
    target modelled here.  Messages on the console are not modelled. *)

From Stdlib Require Import Ascii String.
From stdpp Require Import gmap strings.
From S2P Require Import Prelude Ebpf Program Verifier Error Vm Interpreter MemoryRegion TestContext.
Open Scope string_scope.
Open Scope Z_scope.

(** ** Types of [gdbstub] that appear in the methods *)
Inductive Signal := SIGINT | SIGSTOP | OtherSignal (number : Z).
Inductive StopReason :=
| DoneStep
| Exited (status : byte)
| Terminated (signal : Signal)
| SwBreak
| Interrupted (signal : Signal).
Inductive TargetError := NonFatal | Fatal (message : string).

(** ** [bpf_arch] *)
Inductive BpfBreakpointKind := BpfBpKindBrkpt.
Definition breakpoint_kind_from_usize (kind : Z) : option BpfBreakpointKind :=
  if kind =? 0 then Some BpfBpKindBrkpt else None.

Inductive BpfRegId := Gpr (i : Z) | Sp | Pc | InstructionCountRemaining.
#[export] Instance BpfRegId_eq_dec : EqDecision BpfRegId.
Proof. solve_decision. Defined.

(** [from_raw_id]: the register and its size in bytes. *)
Definition from_raw_id (id : Z) : option (BpfRegId * option Z) :=
  if (0 <=? id) && (id <=? 9) then Some (Gpr id, Some 8)
  else if id =? 10 then Some (Sp, Some 8)
  else if id =? 11 then Some (Pc, Some 8)
  else if id =? 12 then Some (InstructionCountRemaining, Some 8)
  else None.

Record BpfRegs := mkRegs { r : list Z; sp : Z; pc : Z }.
Definition BpfRegs_default : BpfRegs := mkRegs (replicate 10 0) 0 0.

Definition gdb_serialize (regs : BpfRegs) : list byte :=
  mjoin (le_bytes 8 <$> r regs) ++ le_bytes 8 (sp regs) ++ le_bytes 8 (pc regs).

(** [next_reg] *)
Definition next_reg (bytes : list byte) : option (Z * list byte) :=
  if (length bytes <? 8)%nat then None else Some (le_val (take 8 bytes), drop 8 bytes).

(** [for reg in self.r.iter_mut() { *reg = next_reg()? }] *)
Fixpoint read_gprs (regs : list Z) (bytes : list byte) : bool * list Z * list byte :=
  match regs with
  | [] => (true, [], bytes)
  | x :: regs =>
      match next_reg bytes with
      | None => (false, x :: regs, bytes)
      | Some (y, bytes) => let '(ok, regs, bytes) := read_gprs regs bytes in (ok, y :: regs, bytes)
      end
  end.

(** [self] is overwritten as the registers are read; [false] is [Err(())]. *)
Definition gdb_deserialize (self : BpfRegs) (bytes : list byte) : bool * BpfRegs :=
  if Z.of_nat (length bytes) <? 12 * 8 then (false, self)
  else
    let '(ok, rs, bytes) := read_gprs (r self) bytes in
    let self := mkRegs rs (sp self) (pc self) in
    if negb ok then (false, self)
    else match next_reg bytes with
         | None => (false, self)
         | Some (x, bytes) =>
             let self := mkRegs rs x (pc self) in
             match next_reg bytes with
             | None => (false, self)
             | Some (y, bytes) => (negb (bool_decide (is_Some (next_reg bytes))), mkRegs rs x y)
             end
         end.

(** ** The memory as the debugger reads it: [memory_mapping.map(Load, a, 1)],
    which may change the cache of the mapping, and the byte at a host address *)
Class DebugMemory (C : Type) := {
  map_byte : Z -> C -> result EbpfError Z * C;
  host_byte : C -> Z -> option byte
}.

#[export] Instance test_debug_memory `{Profile} : DebugMemory TestContextObject := {|
  map_byte a c :=
    let (x, m) := mm_map (memory_mapping c) Load a 1 in (x, mkContext (remaining c) m (host_memory c));
  host_byte c a := host_memory c !! a
|}.

(** ** The session: an interpreter with the fields of the debugger *)
Inductive DebugState := Step | Continue.
Record Session (V C : Type) := mkSession {
  interpreter : Interpreter V C;
  debug_state : DebugState;
  breakpoints : list Z
}.
Arguments mkSession {V C} _ _ _.
Arguments interpreter {V C} _.
Arguments debug_state {V C} _.
Arguments breakpoints {V C} _.

Section Target.
Context {V C : Type} `{P : Profile, DM : DebugMemory C}.
Implicit Types (s : Interpreter V C) (t : Session V C).

Definition session_new (s : Interpreter V C) : Session V C := mkSession s Continue [].
Definition with_interpreter s t : Session V C := mkSession s (debug_state t) (breakpoints t).
Definition with_reg (regs : list Z) t : Session V C :=
  let s := interpreter t in
  with_interpreter (mkInterp (vm s) (executable s) (program s) (program_vm_addr s) (call_frames s) regs) t.
Definition with_context (c : C) t : Session V C :=
  let s := interpreter t in
  with_interpreter (mkInterp (set_context c (vm s)) (executable s) (program s) (program_vm_addr s)
                      (call_frames s) (reg s)) t.

Definition get_text_section_offset (e : Executable V) : Z := (text_section_range e).1.

Definition get_dbg_pc {E} s : result E Z :=
  x ← or_panic (get (reg s) 11);
  o ← arith_u64 (x * INSN_SIZE);
  arith_u64 (o + get_text_section_offset (executable s)).

(** *** Registers *)
Definition read_registers t : result TargetError BpfRegs :=
  let s := interpreter t in
  rs ← mapM (fun i => or_panic (get (reg s) (Z.of_nat i))) (seq 0 10);
  f ← or_panic (get (reg s) FRAME_PTR_REG);
  p ← get_dbg_pc s;
  Ok (mkRegs rs f p).

Definition write_registers (regs : BpfRegs) t : result TargetError (Session V C) :=
  l ← foldl (fun l i => l ← l; x ← or_panic (get (r regs) (Z.of_nat i)); or_panic (set l (Z.of_nat i) x))
        (Ok (reg (interpreter t))) (seq 0 10);
  l ← or_panic (set l FRAME_PTR_REG (sp regs));
  l ← or_panic (set l 11 (pc regs));
  Ok (with_reg l t).

(** [read_register] into a buffer of [n] bytes; [copy_from_slice] panics unless
    the lengths agree. *)
Definition read_register (reg_id : BpfRegId) (n : nat) t : result TargetError (list byte) :=
  let s := interpreter t in
  x ← (match reg_id with
       | Gpr i => or_panic (get (reg s) i)
       | Sp => or_panic (get (reg s) FRAME_PTR_REG)
       | Pc => get_dbg_pc s
       | InstructionCountRemaining =>
           Ok (saturating_sub_u64 (previous_instruction_meter (vm s)) (due_insn_count (vm s)))
       end);
  if (n =? 8)%nat then Ok (le_bytes 8 x) else Panic.

Definition write_register (reg_id : BpfRegId) (val : list byte) t : result TargetError (Session V C) :=
  if negb (length val =? 8)%nat then Err (Fatal "invalid data")
  else
    let x := le_val val in
    let put i := l ← or_panic (set (reg (interpreter t)) i x); Ok (with_reg l t) in
    match reg_id with
    | Gpr i => put i
    | Sp => put FRAME_PTR_REG
    | Pc => put 11
    | InstructionCountRemaining => Ok t
    end.

(** *** Memory *)

(** [get_host_ptr]; the addition cannot overflow. *)
Definition get_host_ptr (vm_addr : Z) t : result EbpfError Z * Session V C :=
  let s := interpreter t in
  let vm_addr := if negb (enable_lower_rodata_vaddr (sbpf_version (executable s))) && (vm_addr <? MM_BYTECODE_START)
                 then vm_addr + MM_BYTECODE_START else vm_addr in
  let (x, c) := map_byte vm_addr (context (vm s)) in
  (x, with_context c t).

(** [Iterator::next] of [start_addr..]: the following value is computed too. *)
Definition next_address {E} (addr : Z) : result E Z := arith_u64 (addr + 1).

(** [for (vm_addr, val) in (start_addr..).zip(data.iter_mut())]; [zip] advances
    the addresses before it finds the data at their end. *)
Fixpoint read_addrs (start_addr : Z) (data : list byte) t : result TargetError (list byte * Session V C) :=
  next ← next_address start_addr;
  match data with
  | [] => Ok ([], t)
  | v :: data =>
      let (p, t) := get_host_ptr start_addr t in
      v ← (match p with
           | Ok p => or_panic (host_byte (context (vm (interpreter t))) p)
           | Err _ => Ok v
           | Panic => Panic
           end);
      '(rest, t) ← read_addrs next data t;
      Ok (v :: rest, t)
  end.

(** Writing memory is not supported: only the addresses are enumerated. *)
Fixpoint write_addrs (start_addr : Z) (data : list byte) t : result TargetError (Session V C) :=
  next ← next_address start_addr;
  match data with
  | [] => Ok t
  | _ :: data => write_addrs next data t
  end.

(** *** Resuming and breakpoints *)
Definition resume (signal : option Signal) t : result string (Session V C) :=
  match signal with
  | Some _ => Err "no support for continuing with signal"
  | None => Ok (mkSession (interpreter t) Continue (breakpoints t))
  end.
Definition single_step (signal : option Signal) t : result string (Session V C) :=
  match signal with
  | Some _ => Err "no support for stepping with signal"
  | None => Ok (mkSession (interpreter t) Step (breakpoints t))
  end.

Record Offsets := mkOffsets { offset_text : Z; offset_data : Z; offset_bss : option Z }.
Definition get_section_offsets : Offsets := mkOffsets 0 0 None.

Definition add_sw_breakpoint (addr : Z) (kind : BpfBreakpointKind) t : bool * Session V C :=
  (true, mkSession (interpreter t) (debug_state t) (breakpoints t ++ [addr])).
Definition remove_sw_breakpoint (addr : Z) (kind : BpfBreakpointKind) t : bool * Session V C :=
  match list_find (addr =.) (breakpoints t) with
  | None => (false, t)
  | Some (pos, _) => (true, mkSession (interpreter t) (debug_state t) (list_delete pos (breakpoints t)))
  end.
End Target.

(** ** Descriptions of the target *)
Inductive Generic := GenericSp | GenericPc.
Record Register := mkRegister {
  register_name : string; bitsize : Z; register_offset : Z; set_name : string; dwarf : option Z; generic : option Generic
}.

(** [lldb_register_info]; [None] is [reg_info.done()]. *)
Definition lldb_register_info {E} `{Profile} (reg_id : Z) : result E (option Register) :=
  match from_raw_id reg_id with
  | Some (_, None) | None => Ok None
  | Some (rg, Some size) =>
      let name :=
        match rg with
        | Gpr i =>
            match i with
            | 0 => "r0" | 1 => "r1" | 2 => "r2" | 3 => "r3" | 4 => "r4"
            | 5 => "r5" | 6 => "r6" | 7 => "r7" | 8 => "r8" | 9 => "r9"
            | _ => "unknown"
            end
        | Sp => "sp"
        | Pc => "pc"
        | InstructionCountRemaining => "remaining"
        end in
      bits ← arith_u64 (size * 8);
      offset ← arith_u64 (reg_id * size);
      Ok (Some (mkRegister name bits offset "General Purpose Registers" (Some reg_id)
                  (match rg with Sp => Some GenericSp | Pc => Some GenericPc | _ => None end)))
  end.

(** [Display] of [GdbStubArch] *)
Definition gdbstub_arch (v : SBPFVersion) : string :=
  match v with
  | V0 => "sbpf" | V1 => "sbpfv1" | V2 => "sbpfv2" | V3 => "sbpfv3" | V4 => "sbpfv4" | Reserved => "sbpfreserved"
  end.

(** Text in which the apostrophe stands for the quotation mark. *)
Fixpoint quoted (s : string) : list byte :=
  match s with
  | EmptyString => []
  | String a s => (let n := Z.of_nat (nat_of_ascii a) in if n =? 39 then 34 else n) :: quoted s
  end.

Definition feature_name : string := "org.gnu.gdb.sbpf.core".
Definition target_xml (v : SBPFVersion) : list byte :=
  quoted "<?xml version='1.0'?>
<!DOCTYPE target SYSTEM 'gdb-target.dtd'>
<target version='1.0'>
  <architecture>" ++
  quoted (gdbstub_arch v) ++
  quoted "</architecture>

  <feature name='" ++
  quoted feature_name ++
  quoted "'>

    <!-- General Purpose Registers R0–R9 -->
    <reg name='r0' bitsize='64' regnum='0' dwarf_regnum='0' type='uint64' encoding='uint' format='hex'/>
    <reg name='r1' bitsize='64' regnum='1' dwarf_regnum='1' type='uint64' encoding='uint' format='hex'/>
    <reg name='r2' bitsize='64' regnum='2' dwarf_regnum='2' type='uint64' encoding='uint' format='hex'/>
    <reg name='r3' bitsize='64' regnum='3' dwarf_regnum='3' type='uint64' encoding='uint' format='hex'/>
    <reg name='r4' bitsize='64' regnum='4' dwarf_regnum='4' type='uint64' encoding='uint' format='hex'/>
    <reg name='r5' bitsize='64' regnum='5' dwarf_regnum='5' type='uint64' encoding='uint' format='hex'/>
    <reg name='r6' bitsize='64' regnum='6' dwarf_regnum='6' type='uint64' encoding='uint' format='hex'/>
    <reg name='r7' bitsize='64' regnum='7' dwarf_regnum='7' type='uint64' encoding='uint' format='hex'/>
    <reg name='r8' bitsize='64' regnum='8' dwarf_regnum='8' type='uint64' encoding='uint' format='hex'/>
    <reg name='r9' bitsize='64' regnum='9' dwarf_regnum='9' type='uint64' encoding='uint' format='hex'/>

    <!-- Frame Pointer R10 -->
    <reg name='fp' bitsize='64' regnum='10' dwarf_regnum='10' type='data_ptr' encoding='uint' format='hex' generic='fp'/>

    <!-- Program Counter R11 -->
    <reg name='pc' bitsize='64' regnum='11' dwarf_regnum='11' type='code_ptr' encoding='uint' format='hex' generic='pc'/>

    <!-- Instruction Counter R12 -->
    <reg name='icount_remain' bitsize='64' regnum='12' type='uint64' encoding='uint' format='decimal'/>

  </feature>
</target>".

(** [str::trim] on text with no other white space at its ends. *)
Definition is_space (b : byte) : bool := (b =? 32) || ((9 <=? b) && (b <=? 13)).
Fixpoint trim_start (l : list byte) : list byte :=
  match l with b :: l' => if is_space b then trim_start l' else l | [] => [] end.
Definition trim (l : list byte) : list byte := rev (trim_start (rev (trim_start l))).

(** The number of bytes copied, and the buffer. *)
Definition target_description_xml `{Profile} (v : SBPFVersion) (annex : list byte) (offset length_ : Z)
    (buf : list byte) : result TargetError (Z * list byte) :=
  if bool_decide (annex = quoted "target.xml") then
    let data := trim (target_xml v) in
    let n := Z.of_nat (length data) in
    if n <? offset then Ok (0, buf)
    else
      fin ← arith_u64 (offset + length_);
      data ← or_panic (subslice data offset (Z.min fin n));
      let len := Nat.min (length buf) (length data) in
      Ok (Z.of_nat len, (take len data ++ drop len buf)%list)
  else Err NonFatal.

(** [handle_monitor_cmd]: what is printed. *)
Definition handle_monitor_cmd (debug_metadata : option string) (cmd : list byte) : string :=
  if bool_decide (cmd = quoted "metadata") then
    match debug_metadata with Some metadata => metadata | None => "no metadata present" end
  else "unknown monitor command".

(** ** The protocol, a parameter

    The states of [GdbStubStateMachine] carry values of the crate.  Each of its
    methods gets the target and may call the methods above; what [unwrap] would
    fail on is [Err]. *)
Inductive Machine (I K R : Type) := Idle (i : I) | Disconnected | CtrlCInterrupt (k : K) | Running (r : R).
Arguments Idle {I K R} _.
Arguments Disconnected {I K R}.
Arguments CtrlCInterrupt {I K R} _.
Arguments Running {I K R} _.

Class GdbStub (I K R T : Type) := {
  idle_incoming_data : I -> byte -> T -> result string (Machine I K R * T);
  running_incoming_data : R -> byte -> T -> result string (Machine I K R * T);
  interrupt_handled : K -> option StopReason -> T -> result string (Machine I K R * T);
  report_stop : R -> StopReason -> T -> result string (Machine I K R * T)
}.

Section Execute.
Context {V C : Type} `{P : Profile, BO : ByteOrder, CO : ContextObject C, VM : VmMemory C, BF : Builtins V C}.
Context {I K R : Type} `{GS : GdbStub I K R (Session V C)}.
Implicit Types (s : Interpreter V C) (t : Session V C).
Abbreviation machine := (Machine I K R).

(** What the client sends: at each poll a byte or nothing; past the end the
    connection stays open and silent. *)
Definition Input : Type := list (option byte).

(** [conn.read()]: waits for the next byte; [None] waits forever. *)
Fixpoint conn_read (input : Input) : option (byte * Input) :=
  match input with
  | [] => None
  | None :: input => conn_read input
  | Some b :: input => Some (b, input)
  end.
(** [conn.peek()] *)
Definition conn_peek (input : Input) : option byte * Input :=
  match input with
  | [] => (None, [])
  | None :: input => (None, input)
  | Some b :: _ => (Some b, input)
  end.

(** The reason reported when [step] returned [false]. *)
Definition exit_reason s : StopReason :=
  match program_result (vm s) with
  | StOk result => Exited (as_u 8 result)
  | StErr _ => Terminated SIGSTOP
  end.

Definition at_breakpoint {E} t : result E bool :=
  p ← get_dbg_pc (interpreter t); Ok (bool_decide (p ∈ breakpoints t)).

Definition unwrap_stub (x : result string (machine * Session V C)) (input : Input)
    : result False (machine * Session V C * Input) :=
  match x with Ok (m, t) => Ok (m, t, input) | _ => Panic end.

(** The arm [Running] in [DebugState::Step]. *)
Definition run_step (rs : R) t (input : Input) : result False (machine * Session V C * Input) :=
  let '(res, s) := call step (interpreter t) in
  let t := with_interpreter s t in
  stop_reason ← (match res with
                 | Next true => Ok DoneStep
                 | Next false | Return _ => Ok (exit_reason s)
                 | Unwind => Panic
                 end);
  b ← at_breakpoint t;
  unwrap_stub (report_stop rs (if b : bool then SwBreak else stop_reason) t) input.

(** The arm in [DebugState::Continue]; [None] when [fuel] steps were not
    enough. *)
Fixpoint run_continue (fuel : nat) (rs : R) t (input : Input)
    : option (result False (machine * Session V C * Input)) :=
  match fuel with
  | O => None
  | S fuel =>
      match conn_peek input with
      | (Some b, input) => Some (unwrap_stub (running_incoming_data rs b t) (tail input))
      | (None, input) =>
          let '(res, s) := call step (interpreter t) in
          let t := with_interpreter s t in
          match res with
          | Next true =>
              match at_breakpoint (E := False) t with
              | Ok true => Some (unwrap_stub (report_stop rs SwBreak t) input)
              | Ok false => run_continue fuel rs t input
              | _ => Some Panic
              end
          | Next false | Return _ => Some (unwrap_stub (report_stop rs (exit_reason s) t) input)
          | Unwind => Some Panic
          end
      end
  end.

(** One turn of the loop of [execute]; [None] when it does not end. *)
Definition turn (fuel : nat) (m : machine) t (input : Input)
    : option (result False (machine * Session V C * Input)) :=
  match m with
  | Idle i => '(b, input) ← conn_read input; Some (unwrap_stub (idle_incoming_data i b t) input)
  | Disconnected => Some (Ok (m, t, input))
  | CtrlCInterrupt k => Some (unwrap_stub (interrupt_handled k (Some (Interrupted SIGINT)) t) input)
  | Running rs =>
      match debug_state t with
      | Step => Some (run_step rs t input)
      | Continue => run_continue fuel rs t input
      end
  end.

(** [execute], from the machine [run_state_machine] starts: the session when
    the client disconnects, after at most [turns] turns. *)
Fixpoint execute (turns fuel : nat) (m : machine) t (input : Input) : option (result False (Session V C)) :=
  match m, turns with
  | Disconnected, _ => Some (Ok t)
  | _, O => None
  | _, S turns =>
      match turn fuel m t input with
      | Some (Ok (m, t, input)) => execute turns fuel m t input
      | Some _ => Some Panic
      | None => None
      end
  end.

(** [run_interpreter] of [vm.rs] with the feature [debugger]: with a port, the
    client that connects to it is in control, from the machine [m] of the
    protocol on. *)
Definition run_debuggable (debug_port : option Z) (turns fuel : nat) (m : machine) (input : Input) s
    : option (result False (Interpreter V C)) :=
  match debug_port with
  | Some _ => (fun r => t ← r; Ok (interpreter t)) <$> execute turns fuel m (session_new s) input
  | None => run_interpreter fuel s
  end.
End Execute.
