(* ===== verification/DebuggerFacts.v ===== *)
(** * Facts about the debugger

    The registers survive the wire format, the description of the target can
    be fetched piecewise, and continuing runs the program exactly to its first
    breakpoint or to its end.

    The methods the protocol calls on behalf of the client change the
    registers, the breakpoints and the mode, and nothing else; as long as the
    client keeps the program counter inside the text, the session keeps the
    invariant of the interpreter, so a turn of the debugger panics only when the protocol reports an error. *)

From Stdlib Require Import String.
From stdpp Require Import gmap strings relations.
From S2P Require Import Prelude Ebpf Program Verifier VerifierFacts Error Vm Interpreter.
From S2P Require Import InterpreterFacts MemoryRegion MemoryFacts MappingFacts TestContext.
From S2P Require Import TestUtils TestUtilsFacts Debugger.

(** ** The wire format of the registers *)
Lemma next_reg_app x rest : is_u 64 x -> next_reg (le_bytes 8 x ++ rest) = Some (x, rest).
Proof.
  intros Hx. unfold next_reg. rewrite length_app, length_le_bytes.
  destruct (Nat.ltb_spec (8 + length rest) 8); [lia|].
  rewrite take_app_length', drop_app_length' by (by rewrite length_le_bytes).
  rewrite le_val_le_bytes, Z.mod_small; [done|]. exact Hx.
Qed.

Lemma read_gprs_app old xs rest :
  length old = length xs -> Forall (is_u 64) xs ->
  read_gprs old (mjoin (le_bytes 8 <$> xs) ++ rest) = (true, xs, rest).
Proof.
  intros Hl Hx. revert old Hl. induction Hx as [|x xs Hx Hxs IH]; intros [|y old] [=]; [done|].
  cbn [read_gprs fmap list_fmap mjoin list_join]. rewrite <- app_assoc, next_reg_app by done. by rewrite IH.
Qed.

Lemma length_words xs : length (mjoin (le_bytes 8 <$> xs)) = (8 * length xs)%nat.
Proof.
  induction xs as [|x xs IH]; [done|].
  change (length (le_bytes 8 x ++ mjoin (le_bytes 8 <$> xs)) = (8 * S (length xs))%nat).
  rewrite length_app, length_le_bytes, IH. lia.
Qed.

(** Registers read back from the wire are the registers written, whatever
    [self] held. *)
Theorem gdb_registers_roundtrip self regs :
  length (r self) = 10%nat -> length (r regs) = 10%nat -> Forall (is_u 64) (sp regs :: pc regs :: r regs) ->
  gdb_deserialize self (gdb_serialize regs) = (true, regs).
Proof.
  intros Hs Hr [Hsp [Hpc Hx]%Forall_cons]%Forall_cons. unfold gdb_deserialize, gdb_serialize.
  rewrite !length_app, !length_le_bytes.
  pose proof (length_words (r regs)) as Hl. rewrite Hr in Hl.
  rewrite Hl. change (Z.of_nat (8 * 10 + (8 + 8)) <? 12 * 8) with false. cbn iota.
  rewrite read_gprs_app by congruence. cbn [negb]. rewrite next_reg_app by done.
  rewrite <- (app_nil_r (le_bytes 8 (pc regs))), next_reg_app by done. by destruct regs.
Qed.

(** ** Fetching the description of the target *)
Section Xml.
Context `{P : Profile} (v : SBPFVersion).

Definition target_annex : list byte := quoted "target.xml".
Definition document : list byte := trim (target_xml v).

Lemma document_length : (length document < 2000)%nat.
Proof. unfold document. destruct v; apply Nat.ltb_lt; vm_compute; reflexivity. Qed.

Lemma xml_chunk offset n buf :
  0 <= offset <= Z.of_nat (length document) -> 0 <= n -> n <= 2 ^ 63 ->
  target_description_xml v target_annex offset n buf =
    let len := Nat.min (length buf) (Nat.min (Z.to_nat n) (length document - Z.to_nat offset)) in
    Ok (Z.of_nat len, take len (drop (Z.to_nat offset) document) ++ drop len buf)%list.
Proof.
  intros Ho Hn Hbig. pose proof document_length as Hdl. unfold target_description_xml.
  rewrite bool_decide_true by done. fold document.
  destruct (Z.ltb_spec (Z.of_nat (length document)) offset); [lia|].
  rewrite arith_u64_ok by (unfold is_u; lia). cbn [mbind result_bind].
  unfold subslice. rewrite !(proj2 (Z.leb_le _ _)) by lia. cbn [andb or_panic mbind result_bind].
  rewrite length_take, length_drop.
  replace (Nat.min (Z.to_nat (Z.min (offset + n) (Z.of_nat (length document)) - offset))
             (length document - Z.to_nat offset))
    with (Nat.min (Z.to_nat n) (length document - Z.to_nat offset)) by lia.
  cbv zeta. set (len := Nat.min (length buf) _). rewrite take_take. do 4 f_equal. lia.
Qed.

(** A client that asks for [n] bytes at a time until it gets none. *)
Fixpoint fetch (fuel n : nat) (offset : Z) : option (list byte) :=
  match fuel with
  | O => None
  | S fuel =>
      match target_description_xml v target_annex offset (Z.of_nat n) (replicate n 0) with
      | Ok (0, _) => Some []
      | Ok (k, buf) => rest ← fetch fuel n (offset + k); Some (take (Z.to_nat k) buf ++ rest)%list
      | _ => None
      end
  end.

Lemma fetch_from fuel n offset :
  (0 < n)%nat -> Z.of_nat n <= 2 ^ 63 -> 0 <= offset <= Z.of_nat (length document) ->
  (length document - Z.to_nat offset < fuel)%nat ->
  fetch fuel n offset = Some (drop (Z.to_nat offset) document).
Proof.
  intros Hn Hbig. revert offset. induction fuel as [|fuel IH]; intros offset Ho Hf; [lia|].
  cbn [fetch]. rewrite xml_chunk by lia. cbv zeta. rewrite length_replicate, Nat2Z.id.
  set (len := Nat.min n _). destruct (Z.of_nat len) as [|q|q] eqn:Hlen; [| |lia].
  - rewrite drop_ge by lia. done.
  - rewrite <- Hlen, IH by lia. cbn [mbind option_bind]. f_equal.
    rewrite Nat2Z.id, take_app_le by (rewrite length_take, length_drop; lia).
    rewrite take_take, Nat.min_id, Z2Nat.inj_add, Nat2Z.id, <- drop_drop by lia. apply take_drop.
Qed.

(** Whatever the size of its requests, a client that asks for successive parts
    of the description until it gets an empty one has the whole document. *)
Theorem xml_transfer n :
  (0 < n)%nat -> Z.of_nat n <= 2 ^ 63 -> fetch (S (length document)) n 0 = Some document.
Proof. intros Hn Hbig. rewrite fetch_from by lia. done. Qed.
End Xml.

(** ** Continuing *)
Section Continue.
Context {V C : Type} `{P : Profile, BO : ByteOrder, !ByteOrderLaws, CO : ContextObject C, VM : VmMemory C,
  BF : Builtins V C, CL : !ContextObjectLaws C, !VmMemoryLaws C, !BuiltinsLaws V C}.
Context {I K R : Type} `{GS : GdbStub I K R (Session V C)}.
Variables (cfg : Config) (e : Executable V) (base : Z) (prog : list byte).
Hypothesis HR : runnable cfg e base prog.
(** The addresses the debugger uses for the text fit 64 bits. *)
Hypothesis Htext : 0 <= get_text_section_offset e /\ get_text_section_offset e + 8 * slots prog <= u64_max.
Implicit Types (s : Interpreter V C) (t : Session V C).

(** [n] steps that all continue. *)
Fixpoint stepped (n : nat) s : option (Interpreter V C) :=
  match n with
  | O => Some s
  | S n => match call step s with (Next true, s') => stepped n s' | _ => None end
  end.

Definition stands_at (addrs : list Z) s : Prop := exists p, get_dbg_pc (E := False) s = Ok p /\ p ∈ addrs.

Lemma placed_pc s : placed e prog s -> exists p, get_dbg_pc (E := False) s = Ok p.
Proof.
  intros [He (p & Hp & Hrange)]. unfold get_dbg_pc. rewrite Hp, He. cbn [or_panic mbind result_bind].
  assert (0 <= p * INSN_SIZE <= 8 * slots prog) by (unfold INSN_SIZE; lia).
  rewrite arith_u64_ok by (unfold is_u, u64_max in *; lia). cbn [mbind result_bind].
  rewrite arith_u64_ok by (unfold is_u, u64_max in *; lia). eauto.
Qed.

Lemma at_breakpoint_ok k t :
  inv cfg e prog k (interpreter t) ->
  exists b, at_breakpoint (E := False) t = Ok b /\ (b = true <-> stands_at (breakpoints t) (interpreter t)).
Proof.
  intros Hs. destruct (placed_pc _ (inv_placed _ _ _ _ _ Hs)) as [p Hp].
  unfold at_breakpoint, stands_at. rewrite Hp. cbn [mbind result_bind].
  eexists. split; [done|]. rewrite bool_decide_eq_true. naive_solver.
Qed.

(** How continuing ends: at the first state that stands at a breakpoint, or
    where the program itself ends. *)
Definition ends (t : Session V C) (reason : StopReason) (t' : Session V C) : Prop :=
  exists n s1, stepped n (interpreter t) = Some s1 /\
    (forall i si, (0 < i < n)%nat -> stepped i (interpreter t) = Some si -> ~ stands_at (breakpoints t) si) /\
    ((0 < n)%nat /\ stands_at (breakpoints t) s1 /\ reason = SwBreak /\ t' = with_interpreter s1 t \/
     ((0 < n)%nat -> ~ stands_at (breakpoints t) s1) /\
     exists s2, call step s1 = (Next false, s2) /\ reason = exit_reason s2 /\ t' = with_interpreter s2 t).

Lemma ends_step t s1 reason t' :
  call step (interpreter t) = (Next true, s1) -> ~ stands_at (breakpoints t) s1 ->
  ends (with_interpreter s1 t) reason t' -> ends t reason t'.
Proof.
  intros Hc Hb (n & s' & Hs & Hbefore & Hend). simpl in *. exists (S n), s'. cbn [stepped]. rewrite Hc.
  split; [done|]. split.
  - intros [|[|i]] si Hi; [lia|..]; cbn [stepped]; rewrite Hc; [by intros [= <-]|]. apply (Hbefore (S i)). lia.
  - destruct Hend as [(Hn & Ha & -> & ->)|(Hna & s2 & Hc2 & -> & ->)].
    + left. split_and!; [lia|done..].
    + right. split; [|by exists s2]. intros _. destruct n; [by injection Hs as <-|apply Hna; lia].
Qed.

Lemma run_continue_ends fuel k rs t :
  inv cfg e prog k (interpreter t) -> k < Z.of_nat fuel ->
  exists reason t', ends t reason t' /\
    run_continue fuel rs t [] = Some (unwrap_stub (report_stop rs reason t') []).
Proof.
  revert k t. induction fuel as [|fuel IH]; intros k t Hs Hk.
  { pose proof (inv_meter _ _ _ _ _ Hs) as []. lia. }
  cbn [run_continue conn_peek].
  pose proof (step_ok cfg e prog (runnable_setup _ _ _ _ HR) k _ Hs) as Hstep. unfold wp in Hstep.
  destruct (step (interpreter t)) as [[b|b|] s1] eqn:Hst; [| |done].
  - destruct Hstep as (-> & Hs1 & Hpos).
    assert (Hc : call step (interpreter t) = (Next true, s1)) by (unfold call; by rewrite Hst).
    rewrite Hc. destruct (at_breakpoint_ok (k - 1) (with_interpreter s1 t) Hs1) as (b & -> & Hb).
    destruct b.
    + exists SwBreak, (with_interpreter s1 t). split; [|done]. exists 1%nat, s1. cbn [stepped]. rewrite Hc.
      split; [done|]. split; [lia|]. left. split_and!; [lia|by apply Hb|done..].
    + destruct (IH (k - 1) (with_interpreter s1 t) Hs1) as (reason & t' & He & Hrun); [lia|].
      exists reason, t'. split; [|done]. eapply ends_step; [done| |done]. intros Hat. by apply Hb in Hat.
  - destruct Hstep as (-> & _).
    assert (Hc : call step (interpreter t) = (Next false, s1)) by (unfold call; by rewrite Hst).
    rewrite Hc. do 2 eexists. split; [|done]. exists 0%nat, (interpreter t).
    split; [done|]. split; [lia|]. right. split; [lia|]. by exists s1.
Qed.

(** Continuing a verified program while the client is silent: within as many
    steps as the meter allows, the debugger reports a stop, and it reports the
    state the program itself reaches, either the first one at a breakpoint or
    the one it ends in. *)
Theorem continue_stops k rs t :
  inv cfg e prog k (interpreter t) ->
  exists reason t', ends t reason t' /\
    run_continue (S (Z.to_nat k)) rs t [] = Some (unwrap_stub (report_stop rs reason t') []).
Proof.
  intros Hs. apply (run_continue_ends _ k); [done|]. pose proof (inv_meter _ _ _ _ _ Hs) as []. lia.
Qed.

Lemma run_follows fuel n s s1 s2 s' :
  stepped n s = Some s1 -> call step s1 = (Next false, s2) -> run_interpreter fuel s = Some (Ok s') -> s' = s2.
Proof.
  revert fuel s. induction n as [|n IH]; intros [|fuel] s Hn Hc Hrun; try done; cbn [stepped run_interpreter] in *.
  - injection Hn as <-. rewrite Hc in Hrun. by injection Hrun as <-.
  - destruct (call step s) as [[[]| |] s0]; [|done..]. by eapply IH.
Qed.

(** C9: Debugging does not change the program: without breakpoints the state the
    debugger reports is the one the interpreter ends in on its own, and the
    status it reports is the low byte of the program's result. *)
Theorem debugger_refines k rs t :
  inv cfg e prog k (interpreter t) -> breakpoints t = [] ->
  exists s', run_interpreter (S (Z.to_nat k)) (interpreter t) = Some (Ok s') /\
    run_continue (S (Z.to_nat k)) rs t [] =
      Some (unwrap_stub (report_stop rs (exit_reason s') (with_interpreter s' t)) []).
Proof.
  intros Hs Hnb. pose proof (inv_meter _ _ _ _ _ Hs) as [].
  destruct (run_continue_ends (S (Z.to_nat k)) k rs t Hs ltac:(lia)) as (reason & t' & He & ->).
  destruct (run_ok cfg e prog (runnable_setup _ _ _ _ HR) (S (Z.to_nat k)) k _ Hs ltac:(lia)) as (s' & Hrun & _).
  exists s'. split; [done|]. destruct He as (n & s1 & Hn & _ & [(_ & (p & _ & Hp) & _)|(_ & s2 & Hc & -> & ->)]).
  - rewrite Hnb in Hp. by apply elem_of_nil in Hp.
  - by rewrite (run_follows _ _ _ _ _ _ Hn Hc Hrun).
Qed.
End Continue.

(** Reading through the mapping changes neither the memory nor the meter, and
    what is mapped can be read. *)
Class DebugMemoryLaws (C : Type) `{ContextObjectLaws C, DebugMemory C} := {
  map_byte_host a c : host_byte (map_byte a c).2 = host_byte c;
  map_byte_remaining a c : get_remaining (map_byte a c).2 = get_remaining c;
  map_byte_valid a c : context_valid c -> is_u 64 a -> context_valid (map_byte a c).2;
  map_byte_no_panic a c : context_valid c -> is_u 64 a -> (map_byte a c).1 <> Panic;
  map_byte_mapped a c p : context_valid c -> is_u 64 a -> (map_byte a c).1 = Ok p -> is_Some (host_byte c p)
}.

#[export] Instance test_debug_memory_laws `{P : Profile, AH : AccessViolationHandler, !AccessViolationHandlerLaws} :
  DebugMemoryLaws TestContextObject.
Proof.
  assert (Hm : forall a c, map_byte a c = map_context c Load a 1) by done.
  split; intros a c; rewrite ?Hm.
  - unfold map_context. by destruct (mm_map _ _ _ _).
  - apply map_context_remaining.
  - intros Hc Ha. pose proof (map_context_ok c Load a 1 Hc Ha ltac:(lia)) as Hok.
    destruct (map_context c Load a 1) as [[]?]; naive_solver.
  - intros Hc Ha. pose proof (map_context_ok c Load a 1 Hc Ha ltac:(lia)) as Hok.
    destruct (map_context c Load a 1) as [[]?]; naive_solver.
  - intros p Hc Ha. pose proof (map_context_ok c Load a 1 Hc Ha ltac:(lia)) as Hok.
    destruct (map_context c Load a 1) as [[]?]; simpl; [|done..]. intros [= ->].
    destruct Hok as (_ & _ & _ & rg & _ & _ & [_ Hb] & Hlo & Hhi). apply Hb. lia.
Qed.

Section Client.
Context {V C : Type} `{P : Profile, CO : ContextObject C, CL : !ContextObjectLaws C, DM : DebugMemory C,
  !DebugMemoryLaws C}.
Implicit Types (s : Interpreter V C) (t : Session V C).

(** One call of a method of the target that changes the session. *)
Inductive client : Session V C -> Session V C -> Prop :=
| client_read_addrs t t' start old new : is_u 64 start -> read_addrs start old t = Ok (new, t') -> client t t'
| client_write_registers t t' regs : write_registers regs t = Ok t' -> client t t'
| client_write_register t t' id val : write_register id val t = Ok t' -> client t t'
| client_resume t t' signal : resume signal t = Ok t' -> client t t'
| client_single_step t t' signal : single_step signal t = Ok t' -> client t t'
| client_add t kind a : client t (add_sw_breakpoint a kind t).2
| client_remove t kind a : client t (remove_sw_breakpoint a kind t).2.

(** All of a session but the registers, the mode and the breakpoints. *)
Record same_program s s' : Prop := {
  same_executable : executable s' = executable s;
  same_text : program s' = program s;
  same_base : program_vm_addr s' = program_vm_addr s;
  same_frames : call_frames s' = call_frames s;
  same_depth : call_depth (vm s') = call_depth (vm s);
  same_previous : previous_instruction_meter (vm s') = previous_instruction_meter (vm s);
  same_due : due_insn_count (vm s') = due_insn_count (vm s);
  same_saved : registers (vm s') = registers (vm s);
  same_result : program_result (vm s') = program_result (vm s);
  same_loader : loader (vm s') = loader (vm s);
  same_trace : register_trace (vm s') = register_trace (vm s);
  same_remaining : get_remaining (context (vm s')) = get_remaining (context (vm s));
  same_memory : host_byte (context (vm s')) = host_byte (context (vm s))
}.

#[global] Instance same_program_preorder : PreOrder same_program.
Proof. split; [by intros s; split|]. intros s1 s2 s3 [] []. split; congruence. Qed.

Lemma get_host_ptr_same a t : same_program (interpreter t) (interpreter (get_host_ptr a t).2).
Proof.
  unfold get_host_ptr. match goal with |- context [map_byte ?x _] => set (a' := x) end.
  pose proof (map_byte_host a' (context (vm (interpreter t)))) as Hh.
  pose proof (map_byte_remaining a' (context (vm (interpreter t)))) as Hr.
  by destruct (map_byte a' (context (vm (interpreter t)))) as [x c].
Qed.

Lemma read_addrs_same data : forall start t data' t',
  read_addrs start data t = Ok (data', t') -> same_program (interpreter t) (interpreter t').
Proof.
  induction data as [|v data IH]; intros start t data' t' Hr; cbn [read_addrs] in Hr.
  { apply result_bind_ok in Hr as (? & _ & [= _ <-]). done. }
  apply result_bind_ok in Hr as (next & _ & Hr). pose proof (get_host_ptr_same start t) as Hs.
  destruct (get_host_ptr start t) as [p t1]. apply result_bind_ok in Hr as (x & _ & Hr).
  apply result_bind_ok in Hr as ([rest t2] & Hrec & [= _ <-]). etrans; [exact Hs|by eapply IH].
Qed.

Lemma write_registers_ok regs t t' :
  write_registers regs t = Ok t' -> exists l, t' = with_reg l t.
Proof. unfold write_registers. intros Hw. result_inv. eauto. Qed.

Lemma write_register_ok id val t t' :
  write_register id val t = Ok t' -> t' = t \/ exists l, t' = with_reg l t.
Proof. unfold write_register. destruct id; intros Hw; result_inv; eauto. Qed.

Lemma client_same t t' : client t t' -> same_program (interpreter t) (interpreter t').
Proof.
  destruct 1 as [t t' a old new _ Hr|t t' regs Hw|t t' id val Hw|t t' sg Hr|t t' sg Hr|t kind a|t kind a].
  - by eapply read_addrs_same.
  - by apply write_registers_ok in Hw as [l ->].
  - by apply write_register_ok in Hw as [->|[l ->]].
  - by destruct sg; [|injection Hr as <-].
  - by destruct sg; [|injection Hr as <-].
  - done.
  - unfold remove_sw_breakpoint. by destruct (list_find _ _) as [[]|].
Qed.

(** Whatever the client asks for, in whatever order, the executable, the text,
    the call frames and their number, the meter, the result, the trace and every
    byte of the memory are as they were. *)
Theorem client_keeps_program t t' : rtc client t t' -> same_program (interpreter t) (interpreter t').
Proof. induction 1 as [|t1 t2 t3 Hc%client_same _ IH]; [done|]. by etrans. Qed.
End Client.

(** ** The invariant of a session *)
Section Session.
Context {V C : Type} `{P : Profile, BO : ByteOrder, !ByteOrderLaws, CO : ContextObject C, VM : VmMemory C,
  BF : Builtins V C, CL : !ContextObjectLaws C, !VmMemoryLaws C, !BuiltinsLaws V C,
  DM : DebugMemory C, !DebugMemoryLaws C}.
Variables (cfg : Config) (e : Executable V) (base : Z) (prog : list byte).
Hypothesis HR : runnable cfg e base prog.
Hypothesis Htext : 0 <= get_text_section_offset e /\ get_text_section_offset e + 8 * slots prog <= u64_max.
Implicit Types (s : Interpreter V C) (t : Session V C).

(** Registers a client may write: [u64]s, and a program counter in the text. *)
Definition in_text (p : Z) : Prop := 0 <= p <= slots prog.
Definition regs_ok (regs : BpfRegs) : Prop :=
  length (r regs) = 10%nat /\ Forall (is_u 64) (r regs) /\ is_u 64 (sp regs) /\ in_text (pc regs).

Inductive careful : Session V C -> Session V C -> Prop :=
| careful_read_addrs t t' start old new : is_u 64 start -> read_addrs start old t = Ok (new, t') -> careful t t'
| careful_write_registers t t' regs : regs_ok regs -> write_registers regs t = Ok t' -> careful t t'
| careful_write_gpr t t' i val : 0 <= i <= 9 -> is_bytes val -> write_register (Gpr i) val t = Ok t' -> careful t t'
| careful_write_sp t t' val : is_bytes val -> write_register Sp val t = Ok t' -> careful t t'
| careful_write_pc t t' val : in_text (le_val val) -> write_register Pc val t = Ok t' -> careful t t'
| careful_write_remaining t t' val : write_register InstructionCountRemaining val t = Ok t' -> careful t t'
| careful_resume t t' signal : resume signal t = Ok t' -> careful t t'
| careful_single_step t t' signal : single_step signal t = Ok t' -> careful t t'
| careful_add t kind a : careful t (add_sw_breakpoint a kind t).2
| careful_remove t kind a : careful t (remove_sw_breakpoint a kind t).2.

Lemma inv_with_reg k t l p :
  inv cfg e prog k (interpreter t) -> length l = 12%nat -> Forall (is_u 64) l -> get l 11 = Some p -> in_text p ->
  inv cfg e prog k (interpreter (with_reg l t)).
Proof. intros [] Hl Hf Hp Ht. split; simpl; try done. eauto. Qed.

Lemma inv_with_context k t c :
  inv cfg e prog k (interpreter t) -> context_valid c ->
  get_remaining c = get_remaining (context (vm (interpreter t))) ->
  inv cfg e prog k (interpreter (with_context c t)).
Proof. intros [? ? ? ? ? ? ? ? []] Hc Hr. split; simpl; try done. split; simpl; try done. congruence. Qed.

Lemma get_host_ptr_inv k t a :
  inv cfg e prog k (interpreter t) -> is_u 64 a -> inv cfg e prog k (interpreter (get_host_ptr a t).2).
Proof.
  intros Hs Ha. unfold get_host_ptr. match goal with |- context [map_byte ?x _] => set (a' := x) end.
  assert (Ha' : is_u 64 a').
  { unfold a', is_u in *. change MM_BYTECODE_START with (2 ^ 32). destruct (negb _); [|done]. cbn [andb].
    destruct (Z.ltb_spec a (2 ^ 32)); lia. }
  pose proof (inv_meter _ _ _ _ _ Hs) as [_ _ _ _ Hv _].
  pose proof (map_byte_valid a' _ Hv Ha') as Hv'. pose proof (map_byte_remaining a' (context (vm (interpreter t)))) as Hr.
  destruct (map_byte a' (context (vm (interpreter t)))) as [x c]. by apply inv_with_context.
Qed.

Lemma arith_u64_u {E} (z x : Z) : arith_u64 (E := E) z = Ok x -> is_u 64 x.
Proof.
  unfold arith_u64. destruct (Z.leb_spec 0 z), (Z.leb_spec z u64_max); cbn [andb];
    try (destruct debug_assertions; [done|]; intros [= <-]; by apply as_u_range).
  intros [= <-]. unfold is_u, u64_max in *. lia.
Qed.

Lemma read_addrs_inv k data : forall start t data' t',
  inv cfg e prog k (interpreter t) -> is_u 64 start -> read_addrs start data t = Ok (data', t') ->
  inv cfg e prog k (interpreter t').
Proof.
  induction data as [|v data IH]; intros start t data' t' Hs Ha Hr; cbn [read_addrs] in Hr.
  { apply result_bind_ok in Hr as (? & _ & [= _ <-]). done. }
  apply result_bind_ok in Hr as (next & Hn%arith_u64_u & Hr). pose proof (get_host_ptr_inv k t start Hs Ha) as Hs1.
  destruct (get_host_ptr start t) as [p t1]. apply result_bind_ok in Hr as (x & _ & Hr).
  apply result_bind_ok in Hr as ([rest t2] & Hrec & [= _ <-]). by eapply IH.
Qed.

Lemma set_ok l i x l' :
  set l i x = Some l' -> Forall (is_u 64) l -> is_u 64 x ->
  length l' = length l /\ Forall (is_u 64) l' /\ get l' i = Some x /\ (forall j, j <> i -> get l' j = get l j).
Proof.
  unfold set. destruct (Z.leb_spec 0 i), (Z.ltb_spec i (Z.of_nat (length l))); cbn [andb]; try done.
  intros [= <-] Hl Hx. rewrite length_insert. split_and!; [done|by apply Forall_insert|..].
  - unfold get. destruct (Z.ltb_spec i 0); [lia|]. apply list_lookup_insert_eq. lia.
  - intros j Hj. unfold get. destruct (Z.ltb_spec j 0); [done|]. apply list_lookup_insert_ne. lia.
Qed.

Lemma get_Forall l i x : get l i = Some x -> Forall (is_u 64) l -> is_u 64 x.
Proof.
  unfold get. destruct (i <? 0); [done|]. intros Hi Hl. by apply (Forall_lookup_1 _ _ _ _ Hl Hi).
Qed.

(** The loop of [write_registers] over the indices [idx]. *)
Lemma write_gprs_ok rs idx l l' :
  foldl (fun l i => l ← l; x ← or_panic (get rs (Z.of_nat i)); or_panic (set l (Z.of_nat i) x))
    (Ok (E := TargetError) l) idx = Ok l' ->
  Forall (is_u 64) rs -> Forall (is_u 64) l -> length l' = length l /\ Forall (is_u 64) l'.
Proof.
  intros Hf Hrs. revert l Hf. induction idx as [|i idx IH]; intros l Hf Hl; [by injection Hf as <-|].
  cbn [foldl] in Hf. destruct (get rs (Z.of_nat i)) as [x|] eqn:Hx.
  2:{ exfalso. revert Hf. clear. cbn. induction idx; [done|by cbn]. }
  cbn [or_panic mbind result_bind] in Hf. destruct (set l (Z.of_nat i) x) as [l1|] eqn:Hs.
  2:{ exfalso. revert Hf. clear. cbn. induction idx; [done|by cbn]. }
  destruct (set_ok _ _ _ _ Hs Hl (get_Forall _ _ _ Hx Hrs)) as (Hlen & Hl1 & _).
  rewrite <- Hlen. by apply IH.
Qed.

Lemma write_registers_inv k regs t t' :
  inv cfg e prog k (interpreter t) -> regs_ok regs -> write_registers regs t = Ok t' ->
  inv cfg e prog k (interpreter t').
Proof.
  intros Hs (_ & Hrs & Hsp & Hpc). unfold write_registers.
  intros (l & Hl & (l1 & H1%or_panic_ok & (l2 & H2%or_panic_ok & [= <-])%result_bind_ok)%result_bind_ok)%result_bind_ok.
  destruct (write_gprs_ok _ _ _ _ Hl Hrs (inv_reg _ _ _ _ _ Hs)) as [Hlen Hf].
  destruct (set_ok _ _ _ _ H1 Hf Hsp) as (Hlen1 & Hf1 & _).
  pose proof (slots_small cfg e prog (runnable_setup _ _ _ _ HR)).
  assert (is_u 64 (pc regs)) by (unfold in_text, is_u in *; lia).
  destruct (set_ok _ _ _ _ H2 Hf1) as (Hlen2 & Hf2 & Hget & _); [done|].
  eapply inv_with_reg; [done| |done|done|done]. rewrite Hlen2, Hlen1, Hlen. apply (inv_reg_length _ _ _ _ _ Hs).
Qed.

(** Writing one register, not the program counter. *)
Lemma write_one_inv k i val t t' :
  inv cfg e prog k (interpreter t) -> i <> 11 -> is_bytes val -> length val = 8%nat ->
  (l ← or_panic (set (reg (interpreter t)) i (le_val val)); Ok (E := TargetError) (with_reg l t)) = Ok t' ->
  inv cfg e prog k (interpreter t').
Proof.
  intros Hs Hi Hb Hl (l & Hset%or_panic_ok & [= <-])%result_bind_ok.
  pose proof (le_val_bound val Hb) as Hv. rewrite Hl in Hv.
  destruct (set_ok _ _ _ _ Hset (inv_reg _ _ _ _ _ Hs)) as (Hlen & Hf & _ & Hother); [exact Hv|].
  destruct (inv_pc _ _ _ _ _ Hs) as (p & Hp & Hr).
  eapply inv_with_reg; [done| |done| |exact Hr]; [by rewrite Hlen, (inv_reg_length _ _ _ _ _ Hs)|].
  by rewrite Hother.
Qed.

Lemma careful_inv k t t' : careful t t' -> inv cfg e prog k (interpreter t) -> inv cfg e prog k (interpreter t').
Proof.
  destruct 1 as [t t' a old new Ha Hr|t t' regs Hok Hw|t t' i val Hi Hb Hw|t t' val Hb Hw|t t' val Hv Hw|t t' val Hw
                |t t' sg Hr|t t' sg Hr|t kind a|t kind a]; intros Hs.
  - by eapply read_addrs_inv.
  - by eapply write_registers_inv.
  - unfold write_register in Hw. destruct (Nat.eqb_spec (length val) 8); [|done]. simpl in Hw.
    eapply (write_one_inv k i val t); [done|lia|done..].
  - unfold write_register in Hw. destruct (Nat.eqb_spec (length val) 8); [|done]. simpl in Hw.
    eapply (write_one_inv k FRAME_PTR_REG val t); [done|done|done..].
  - unfold write_register in Hw. destruct (Nat.eqb_spec (length val) 8); [|done]. simpl in Hw.
    apply result_bind_ok in Hw as (l & Hset%or_panic_ok & [= <-]).
    pose proof (slots_small cfg e prog (runnable_setup _ _ _ _ HR)).
    destruct (set_ok _ _ _ _ Hset (inv_reg _ _ _ _ _ Hs)) as (Hlen & Hf & Hget & _);
      [unfold in_text, is_u in *; lia|].
    eapply inv_with_reg; [done| |done|done|done]. by rewrite Hlen, (inv_reg_length _ _ _ _ _ Hs).
  - unfold write_register in Hw. destruct (negb _); [done|]. by injection Hw as <-.
  - by destruct sg; [|injection Hr as <-].
  - by destruct sg; [|injection Hr as <-].
  - done.
  - unfold remove_sw_breakpoint. by destruct (list_find _ _) as [[]|].
Qed.

Lemma careful_rtc_inv k t t' :
  rtc careful t t' -> inv cfg e prog k (interpreter t) -> inv cfg e prog k (interpreter t').
Proof. induction 1 as [|t1 t2 t3 Hc _ IH]; [done|]. intros Hs. by apply IH, (careful_inv k t1). Qed.

(** ** Turns of the debugger *)
Context {I K R : Type} `{GS : GdbStub I K R (Session V C)}.

(** The calls into the protocol the loop makes in state [m], and their results. *)
Inductive asked t : Machine I K R -> result string (Machine I K R * Session V C) -> Prop :=
| asked_idle i b : asked t (Idle i) (idle_incoming_data i b t)
| asked_running rs b : asked t (Running rs) (running_incoming_data rs b t)
| asked_interrupt ks reason : asked t (CtrlCInterrupt ks) (interrupt_handled ks reason t)
| asked_report rs reason : asked t (Running rs) (report_stop rs reason t).

(** The protocol may fail at any time, but for a careful client it reaches the
    target through its methods only. *)
Definition careful_stub : Prop := forall t m m' t', asked t m (Ok (m', t')) -> rtc careful t t'.
Hypothesis HG : careful_stub.

(** Where a turn leads: to a session that keeps the invariant, with no more on
    the meter, or to the end of the program and what the client does then. *)
Definition kept k t : Prop := exists k', k' <= k /\ inv cfg e prog k' (interpreter t).
Definition ended k t t' : Prop := exists s2, stopped cfg e prog k s2 /\ rtc careful (with_interpreter s2 t) t'.

(** The protocol was called in such a session and did not succeed. *)
Definition refused k m : Prop :=
  exists t1 x, asked t1 m x /\ (kept k t1 \/ stopped cfg e prog k (interpreter t1)) /\ forall y, x <> Ok y.

(** How a turn ends: well, or in the [unwrap] of such a call. *)
Definition settled k m t (r : result False (Machine I K R * Session V C * Input)) : Prop :=
  match r with
  | Ok (_, t', _) => kept k t' \/ ended k t t'
  | Err _ => False
  | Panic => refused k m
  end.

Lemma settled_kept k m t t1 x input : asked t1 m x -> kept k t1 -> settled k m t (unwrap_stub x input).
Proof.
  intros Ha (k' & Hk & Hs). destruct x as [[m' t']|err|]; simpl.
  - left. exists k'. split; [done|]. by apply (careful_rtc_inv k' t1); [eapply HG|].
  - exists t1, (Err err). split_and!; [done|left; by exists k'|done].
  - exists t1, Panic. split_and!; [done|left; by exists k'|done].
Qed.

Lemma settled_ended k m t s2 x input :
  stopped cfg e prog k s2 -> asked (with_interpreter s2 t) m x -> settled k m t (unwrap_stub x input).
Proof.
  intros Hst Ha. destruct x as [[m' t']|err|]; simpl.
  - right. exists s2. split; [done|]. by eapply HG.
  - exists (with_interpreter s2 t), (Err err). split_and!; [done|by right|done].
  - exists (with_interpreter s2 t), Panic. split_and!; [done|by right|done].
Qed.

Lemma stopped_mono k k' s : k <= k' -> stopped cfg e prog k s -> stopped cfg e prog k' s.
Proof. intros Hk ([] & ? & ?). split; [|done]. split; try done. lia. Qed.

Lemma settled_mono k k' m t s1 r : k <= k' -> settled k m (with_interpreter s1 t) r -> settled k' m t r.
Proof.
  intros Hk. assert (Hkept : forall t1, kept k t1 -> kept k' t1) by (intros t1 (j & ? & ?); exists j; split; [lia|done]).
  destruct r as [[[m' t'] ?]|[]|]; simpl.
  - intros [Ht|(s2 & Hst & Hr)]; [left; auto|right]. exists s2. split; [by eapply stopped_mono|done].
  - intros (t1 & x & Ha & [Ht|Ht] & Hx); exists t1, x; split_and!; auto. right. by eapply stopped_mono.
Qed.

Lemma stopped_pc k s : stopped cfg e prog k s -> exists p, get_dbg_pc (E := False) s = Ok p.
Proof. intros (_ & _ & Hp). apply (placed_pc e prog Htext s Hp). Qed.

Lemma run_step_safe k rs t input :
  inv cfg e prog k (interpreter t) -> settled k (Running rs) t (run_step rs t input).
Proof.
  intros Hs. unfold run_step, call, at_breakpoint.
  pose proof (step_ok cfg e prog (runnable_setup _ _ _ _ HR) k _ Hs) as Hstep. unfold wp in Hstep.
  destruct (step (interpreter t)) as [[b|b|] s1]; [| |done].
  - destruct Hstep as (-> & Hs1 & _). cbn [mbind result_bind interpreter with_interpreter].
    destruct (placed_pc e prog Htext s1 (inv_placed _ _ _ _ _ Hs1)) as [p ->]. cbn [mbind result_bind].
    eapply settled_kept; [apply asked_report|]. exists (k - 1). split; [lia|done].
  - destruct Hstep as (-> & Hst). cbn [mbind result_bind interpreter with_interpreter].
    destruct (stopped_pc k s1 Hst) as [p ->]. cbn [mbind result_bind].
    eapply settled_ended; [done|apply asked_report].
Qed.

Lemma run_continue_safe fuel k rs t input :
  inv cfg e prog k (interpreter t) -> k < Z.of_nat fuel ->
  exists r, run_continue fuel rs t input = Some r /\ settled k (Running rs) t r.
Proof.
  revert k t input. induction fuel as [|fuel IH]; intros k t input Hs Hk.
  { pose proof (inv_meter _ _ _ _ _ Hs) as []. lia. }
  cbn [run_continue]. destruct (conn_peek input) as [[b|] rest].
  { eexists. split; [done|]. eapply settled_kept; [apply asked_running|]. exists k. split; [lia|done]. }
  unfold call. pose proof (step_ok cfg e prog (runnable_setup _ _ _ _ HR) k _ Hs) as Hstep. unfold wp in Hstep.
  destruct (step (interpreter t)) as [[b|b|] s1]; [| |done].
  - destruct Hstep as (-> & Hs1 & _).
    destruct (at_breakpoint_ok cfg e prog Htext (k - 1) (with_interpreter s1 t) Hs1) as ([] & -> & _).
    + eexists. split; [done|]. eapply settled_kept; [apply asked_report|]. exists (k - 1). split; [lia|done].
    + destruct (IH (k - 1) (with_interpreter s1 t) rest Hs1 ltac:(lia)) as (r & Hr & Hout).
      exists r. split; [done|]. eapply settled_mono; [|exact Hout]. lia.
  - destruct Hstep as (-> & Hst). eexists. split; [done|]. eapply settled_ended; [done|apply asked_report].
Qed.

(** C10: A turn of the debugger, in any state of the protocol and for any input of
    a client that keeps the program counter in the text: unless it waits for
    the client, it ends within the meter, in a session that keeps the invariant
    of the interpreter with no more on its meter, or at the end of the program.
    It panics only where the loop unwraps what a call into the protocol
    returned, when that call, made in such a session, did not succeed. *)
Theorem turn_safe fuel k m t input :
  inv cfg e prog k (interpreter t) -> k < Z.of_nat fuel ->
  (exists i, m = Idle i /\ conn_read input = None) \/
  exists r, turn fuel m t input = Some r /\
    match r with
    | Ok (_, t', _) => kept k t' \/ ended k t t'
    | Err _ => False
    | Panic => refused k m
    end.
Proof.
  intros Hs Hk. assert (Hkeep : kept k t) by (exists k; by split; [lia|]).
  destruct m as [i| |ks|rs]; cbn [turn].
  - destruct (conn_read input) as [[b rest]|] eqn:Hr; [right|left; eauto].
    cbn [mbind option_bind]. eexists. split; [done|]. by eapply settled_kept; [apply asked_idle|].
  - right. eexists. split; [done|]. by left.
  - right. eexists. split; [done|]. by eapply settled_kept; [apply asked_interrupt|].
  - right. destruct (debug_state t); [|by apply run_continue_safe].
    eexists. split; [done|]. by apply run_step_safe.
Qed.
End Session.
