(* ===== verification/DebuggerWitnesses.v ===== *)
(** * Instances of the theorems on the debugger, and where it surprises

    A small protocol of three commands stands for [gdbstub]. *)

From Stdlib Require Import String.
From stdpp Require Import gmap strings relations.
From S2P Require Import Prelude Ebpf Program Verifier VerifierFacts Error Vm Interpreter InterpreterFacts.
From S2P Require Import MemoryRegion MemoryFacts MappingFacts TestContext Witnesses.
From S2P Require Import Debugger DebuggerFacts.

#[local] Existing Instance checked.
#[local] Existing Instance le_reader.
#[local] Existing Instance le_reader_laws.
#[local] Existing Instance default_access_violation_handler.
#[local] Existing Instance default_handler_laws.
#[local] Existing Instance no_builtins.
#[local] Existing Instance no_builtins_laws.

(** ** A protocol: [c] continues, [s] steps, [q] leaves; while idle it keeps
    the last reason reported *)
Definition S0 : Type := Session unit TestContextObject.
#[local] Instance toy_stub : GdbStub (option StopReason) unit unit S0 := {|
  idle_incoming_data i b t :=
    if b =? 99 then t ← resume None t; Ok (Running tt, t)
    else if b =? 115 then t ← single_step None t; Ok (Running tt, t)
    else if b =? 113 then Ok (Disconnected, t)
    else Ok (Idle i, t);
  running_incoming_data _ _ t := Ok (CtrlCInterrupt tt, t);
  interrupt_handled _ reason t := Ok (Idle reason, t);
  report_stop _ reason t := Ok (Idle (Some reason), t)
|}.

Lemma toy_careful prog : careful_stub (V := unit) (C := TestContextObject) prog.
Proof.
  intros t m m' t' Ha. remember (Ok (m', t')) as x eqn:Hx. destruct Ha as [i b|rs b|ks reason|rs reason];
    cbn [idle_incoming_data running_incoming_data interrupt_handled report_stop toy_stub] in Hx;
    [|injection Hx as <- <-; apply rtc_refl..].
  destruct (b =? 99); [|destruct (b =? 115); [|destruct (b =? 113)]]; cbn in Hx; injection Hx as <- <-;
    try apply rtc_refl; apply rtc_once.
  - by eapply (careful_resume _ _ _ None).
  - by eapply (careful_single_step _ _ _ None).
Qed.

Definition sample_session : S0 := session_new sample_state.

Lemma sample_text : 0 <= get_text_section_offset sample_executable /\
  get_text_section_offset sample_executable + 8 * slots sample <= u64_max.
Proof. split; vm_compute; discriminate. Qed.

Lemma turn_safe_witness :
  (exists i, Running tt = Idle (I := option StopReason) (K := unit) (R := unit) i /\ conn_read [] = None) \/
  exists r, turn 101 (Running tt) sample_session [] = Some r /\
    match r with
    | Ok (_, t', _) => kept Config_default sample_executable sample 100 t' \/
        ended Config_default sample_executable sample 100 sample_session t'
    | Err _ => False
    | Panic => refused Config_default sample_executable sample 100 (Running tt)
    end.
Proof.
  apply (turn_safe Config_default sample_executable MM_BYTECODE_START sample sample_runnable sample_text
           (toy_careful sample) 101 100 (Running tt) sample_session []); [exact sample_inv|lia].
Defined.

Lemma continue_stops_witness :
  exists reason t', ends sample_session reason t' /\
    run_continue 101 tt sample_session [] = Some (unwrap_stub (report_stop tt reason t') []).
Proof.
  apply (continue_stops Config_default sample_executable MM_BYTECODE_START sample sample_runnable sample_text
           100 tt sample_session). exact sample_inv.
Defined.

Lemma debugger_refines_witness :
  exists s', run_interpreter 101 sample_state = Some (Ok s') /\
    run_continue 101 tt sample_session [] =
      Some (unwrap_stub (report_stop tt (exit_reason s') (with_interpreter s' sample_session)) []).
Proof.
  apply (debugger_refines Config_default sample_executable MM_BYTECODE_START sample sample_runnable sample_text
           100 tt sample_session); [exact sample_inv|reflexivity].
Defined.

Definition some_regs : BpfRegs := mkRegs [0; 1; 2; 3; 4; 5; 6; 7; 8; 0xffffffffffffffff] 0x200001000 0x78.
Lemma gdb_registers_roundtrip_witness : gdb_deserialize BpfRegs_default (gdb_serialize some_regs) = (true, some_regs).
Proof.
  apply (gdb_registers_roundtrip BpfRegs_default some_regs); [reflexivity|reflexivity|].
  repeat (apply List.Forall_cons || apply List.Forall_nil); unfold is_u; simpl; lia.
Defined.

Lemma xml_transfer_witness : fetch V3 (S (length (document V3))) 100 0 = Some (document V3).
Proof. apply (xml_transfer V3 100); lia. Defined.

(** Adding a breakpoint and writing a register, as a client may. *)
Definition touched : S0 :=
  match write_register (Gpr 3) (le_bytes 8 77) (add_sw_breakpoint 16 BpfBpKindBrkpt sample_session).2 with
  | Ok t => t | _ => sample_session end.
Lemma client_keeps_program_witness : same_program (interpreter sample_session) (interpreter touched).
Proof.
  apply (client_keeps_program sample_session touched).
  eapply rtc_l; [apply (client_add sample_session BpfBpKindBrkpt 16)|]. apply rtc_once.
  apply (client_write_register _ _ (Gpr 3) (le_bytes 8 77)). reflexivity.
Defined.

(** ** The program counter a client reads is not the one it writes

    [read_registers] reports an address in the file, [write_registers] stores
    an index of an instruction: a client that writes back the registers it has
    read moves the program. *)
Definition second_state : S0 := with_reg [5; 0; 0; 0; 0; 0; 0; 0; 0; 0; 0x200001000; 1] sample_session.
Definition written_back : S0 :=
  match read_registers second_state with
  | Ok regs => match write_registers regs second_state with Ok t => t | _ => second_state end
  | _ => second_state
  end.

Lemma written_pc_differs :
  get (reg (interpreter second_state)) 11 = Some 1 /\ get (reg (interpreter written_back)) 11 = Some 8 /\
  (call step (interpreter second_state)).1 = Next true /\
  (call step (interpreter written_back)).1 = Next false /\
  program_result (vm (call step (interpreter written_back)).2) = StErr ExecutionOverrun.
Proof. vm_compute. auto. Qed.

(** ** A breakpoint on the last instruction hides the end of the program

    Stepping over an [exit] that carries a breakpoint, the client is told
    [SwBreak] although the program has ended; continuing tells [Exited]. *)
Definition at_exit : S0 :=
  mkSession (interpreter (with_reg [5; 0; 0; 0; 0; 0; 0; 0; 0; 0; 0x200001000; 4] sample_session)) Step [32].

Definition reported (x : result False (Machine (option StopReason) unit unit * S0 * Input)) : option StopReason :=
  match x with Ok (Idle reason, _, _) => reason | _ => None end.

Lemma stepped_exit_hidden :
  (call step (interpreter at_exit)).1 = Next false /\
  reported (run_step tt at_exit []) = Some SwBreak /\
  option_map reported (run_continue 2 tt at_exit []) = Some (Some (Exited 5)).
Proof. vm_compute. auto. Qed.

(** ** A session: stop at a breakpoint, go on, leave *)
Definition with_breakpoint : S0 := mkSession sample_state Continue [24].
Example session_runs :
  match execute 10 101 (Idle None) with_breakpoint [Some 99; None; None; None; None; Some 99; None; None; None; Some 113] with
  | Some (Ok t) => program_result (vm (interpreter t))
  | _ => StOk 77
  end = StErr (AccessViolation Store 0 8 "unknown").
Proof. vm_compute. reflexivity. Qed.
