(* ===== verification/AsmParser.v ===== *)
(** * The parser of the assembly language: [src/casestudy/sbpf/src/asm_parser.rs]

    The grammar, written with the combinators of the crate [combine] as the
    source writes it.  The combinators are the parameter [Combine]; what the
    crate documents of them is [CombineLaws]: a parser succeeds or fails, having
    consumed input or not, [or] tries its second parser only when the first has
    consumed nothing, and [attempt] forgets what a failing parser consumed.
    Text is ASCII: a Rust [char] is one [ascii]. *)

From Stdlib Require Import Ascii String.
From stdpp Require Import strings.
From S2P Require Import Prelude Ebpf Program Verifier Error Text Vm Assembler.
Open Scope string_scope.
Open Scope Z_scope.

(** ** The combinators *)

(** The outcome of a parser on some input.  A closure given to [map] may panic,
    and the panic unwinds through every parser. *)
Inductive Reply (A : Type) :=
| ConsumedOk (a : A) (rest : string)
| EmptyOk (a : A) (rest : string)
| ConsumedErr
| EmptyErr
| Panicked.
Arguments ConsumedOk {A} _ _.
Arguments EmptyOk {A} _ _.
Arguments ConsumedErr {A}.
Arguments EmptyErr {A}.
Arguments Panicked {A}.

(** The errors of [combine::easy], and the position of the first of them. *)
Inductive Info := TokenInfo (c : ascii) | RangeInfo (s : string) | OwnedInfo (s : string) | BorrowedInfo (s : string).
Inductive ParserError := Unexpected (i : Info) | Expected (i : Info) | Message (i : Info) | Other (debug : string).
Record ParserErrors := mkErrors { line : Z; column : Z; errors : list ParserError }.

Class Combine := {
  Parser : Type -> Type;
  run {A} : Parser A -> string -> Reply A;
  char_ : ascii -> Parser ascii;
  one_of : list ascii -> Parser ascii;
  digit : Parser ascii;
  hex_digit_ : Parser ascii;
  alpha_num : Parser ascii;
  string_ : string -> Parser string;
  spaces : Parser unit;
  eof : Parser unit;
  map_ {A B} : (A -> result False B) -> Parser A -> Parser B;
  or_ {A} : Parser A -> Parser A -> Parser A;
  and_ {A B} : Parser A -> Parser B -> Parser (A * B);
  with_ {A B} : Parser A -> Parser B -> Parser B;
  skip {A B} : Parser A -> Parser B -> Parser A;
  attempt {A} : Parser A -> Parser A;
  optional {A} : Parser A -> Parser (option A);
  many {A} : Parser A -> Parser (list A);
  many1 {A} : Parser A -> Parser (list A);
  skip_many {A} : Parser A -> Parser unit;
  sep_by {A B} : Parser A -> Parser B -> Parser (list A);
  between_ {A B C} : Parser A -> Parser B -> Parser C -> Parser C;
  easy_parse {A} : Parser A -> string -> result ParserErrors (A * string)
}.

(** *** What the crate documents *)
Definition satisfied (test : ascii -> bool) (input : string) : Reply ascii :=
  match input with
  | String c rest => if test c then ConsumedOk c rest else EmptyErr
  | EmptyString => EmptyErr
  end.

(** [char::is_digit(radix)], and on ASCII [is_alphanumeric], [is_whitespace]. *)
Definition code (c : ascii) : Z := Z.of_nat (nat_of_ascii c).
Definition is_dec (c : ascii) : bool := between 48 57 (code c).
Definition is_hex (c : ascii) : bool := is_dec c || between 65 70 (code c) || between 97 102 (code c).
Definition is_alnum (c : ascii) : bool := is_dec c || between 65 90 (code c) || between 97 122 (code c).
Definition is_space (c : ascii) : bool := (code c =? 32) || between 9 13 (code c).
Definition is_ascii (c : ascii) : bool := code c <? 128.

(** One parser after another, from the reply of the first. *)
Definition continue {A B} (x : Reply A) (f : A -> string -> Reply B) : Reply B :=
  match x with
  | ConsumedOk a rest =>
      match f a rest with
      | ConsumedOk b rest | EmptyOk b rest => ConsumedOk b rest
      | ConsumedErr | EmptyErr => ConsumedErr
      | Panicked => Panicked
      end
  | EmptyOk a rest => f a rest
  | ConsumedErr => ConsumedErr
  | EmptyErr => EmptyErr
  | Panicked => Panicked
  end.

Definition mapped {A B} (f : A -> result False B) (x : Reply A) : Reply B :=
  continue x (fun a rest => match f a with Ok b => EmptyOk b rest | _ => Panicked end).

Class CombineLaws `{Combine} := {
  run_char c i : run (char_ c) i = satisfied (Ascii.eqb c) i;
  run_one_of l i : run (one_of l) i = satisfied (fun c => existsb (Ascii.eqb c) l) i;
  run_digit i : run digit i = satisfied is_dec i;
  run_hex_digit i : run hex_digit_ i = satisfied is_hex i;
  run_alpha_num i : (forall c rest, i = String c rest -> is_ascii c = true) ->
    run alpha_num i = satisfied is_alnum i;
  run_string c s i : run (string_ (String c s)) i =
    if String.prefix (String c s) i
    then ConsumedOk (String c s) (String.substring (String.length (String c s)) (String.length i) i)
    else match i with String d _ => if Ascii.eqb c d then ConsumedErr else EmptyErr | EmptyString => EmptyErr end;
  run_spaces_none i : (forall c rest, i = String c rest -> is_ascii c = true /\ is_space c = false) ->
    run spaces i = EmptyOk tt i;
  run_spaces_some c i : is_ascii c = true -> is_space c = true ->
    run spaces (String c i) = continue (ConsumedOk tt i) (fun _ rest => run spaces rest);
  run_eof i : run eof i = match i with EmptyString => EmptyOk tt EmptyString | _ => EmptyErr end;
  run_map {A B} (f : A -> result False B) p i : run (map_ f p) i = mapped f (run p i);
  run_or {A} (p q : Parser A) i : run (or_ p q) i = match run p i with EmptyErr => run q i | x => x end;
  run_and {A B} (p : Parser A) (q : Parser B) i :
    run (and_ p q) i = continue (run p i) (fun a rest => mapped (fun b => Ok (a, b)) (run q rest));
  run_with {A B} (p : Parser A) (q : Parser B) i : run (with_ p q) i = mapped (fun x => Ok x.2) (run (and_ p q) i);
  run_skip {A B} (p : Parser A) (q : Parser B) i : run (skip p q) i = mapped (fun x => Ok x.1) (run (and_ p q) i);
  run_attempt {A} (p : Parser A) i : run (attempt p) i = match run p i with ConsumedErr => EmptyErr | x => x end;
  run_optional {A} (p : Parser A) i :
    run (optional p) i = match run p i with EmptyErr => EmptyOk None i | x => mapped (fun a => Ok (Some a)) x end;
  run_many {A} (p : Parser A) i :
    (forall a rest, run p i <> EmptyOk a rest) ->
    run (many p) i =
      match run p i with
      | EmptyErr => EmptyOk [] i
      | x => continue x (fun a rest => mapped (fun l => Ok (a :: l)) (run (many p) rest))
      end;
  run_many1 {A} (p : Parser A) i : run (many1 p) i = mapped (fun x => Ok (x.1 :: x.2)) (run (and_ p (many p)) i);
  run_skip_many {A} (p : Parser A) i : run (skip_many p) i = mapped (fun _ => Ok tt) (run (many p) i);
  run_sep_by {A B} (p : Parser A) (s : Parser B) i :
    run (sep_by p s) i =
      match run (and_ p (many (with_ s p))) i with
      | EmptyErr => EmptyOk [] i
      | x => mapped (fun x => Ok (x.1 :: x.2)) x
      end;
  run_between {A B C} (o : Parser A) (c : Parser B) (p : Parser C) i :
    run (between_ o c p) i = run (skip (with_ o p) c) i;
  run_easy_parse {A} (p : Parser A) i :
    match run p i with
    | ConsumedOk a rest | EmptyOk a rest => easy_parse p i = Ok (a, rest)
    | ConsumedErr | EmptyErr => exists e, easy_parse p i = Err e
    | Panicked => easy_parse p i = Panic
    end
}.

(** ** The grammar *)
Section Grammar.
Context `{P : Profile, CB : Combine}.

(** A collected [String]. *)
Definition collect (l : list ascii) : string := string_of_list_ascii l.
Definition pure {A B} (f : A -> B) (x : A) : result False B := Ok (f x).

Definition ident : Parser string := map_ (pure collect) (many1 (or_ alpha_num (char_ "_"%char))).
Definition mnemonic : Parser string := map_ (pure collect) (many1 alpha_num).

(** The value of digits in a base. *)
Definition digit_value (c : ascii) : Z :=
  if code c <=? 57 then code c - 48 else if code c <=? 70 then code c - 55 else code c - 87.
Definition digits_value (base : Z) (l : list ascii) : Z :=
  foldl (fun n c => n * base + digit_value c) 0 l.

(** [u64::from_str_radix(&x, 16).unwrap_or(0) as i64] *)
Definition hex_value (l : list ascii) : Z :=
  let n := digits_value 16 l in as_i 64 (if n <=? u64_max then n else 0).
(** [x.parse::<i64>().unwrap_or(0)] *)
Definition dec_value (l : list ascii) : Z :=
  let n := digits_value 10 l in if n <=? i64_max then n else 0.

Definition blanks : Parser unit := skip_many (char_ " "%char).

(** The [let]s of [integer]: [sign], [hex] and [dec]. *)
Definition integer_sign : Parser Z :=
  map_ (pure (fun x => match x with Some c => if Ascii.eqb c "-"%char then -1 else 1 | None => 1 end))
    (optional (skip (one_of ["-"%char; "+"%char]) blanks)).
Definition integer_hex : Parser Z := map_ (pure hex_value) (with_ (string_ "0x") (many1 hex_digit_)).
Definition integer_dec : Parser Z := map_ (pure dec_value) (many1 digit).
Definition integer : Parser Z :=
  map_ (fun '(s, x) => arith_i64 (s * x)) (and_ integer_sign (or_ (attempt integer_hex) integer_dec)).

Definition register : Parser Z := map_ (pure dec_value) (with_ (char_ "r"%char) (many1 digit)).

(** The [let]s of [operand]: [register_operand], [immediate], [memory] and
    [label]. *)
Definition register_operand : Parser Operand := map_ (pure Register) register.
Definition immediate : Parser Operand := map_ (pure Integer) integer.
Definition memory : Parser Operand :=
  map_ (pure (fun t => Memory t.1 (default 0 t.2)))
    (between_ (char_ "["%char) (char_ "]"%char) (and_ (skip register blanks) (optional integer))).
Definition label_operand : Parser Operand := map_ (pure Label) ident.
Definition operand : Parser Operand := or_ (or_ (or_ register_operand immediate) memory) label_operand.

Definition operands : Parser (list Operand) := sep_by operand (skip (char_ ","%char) blanks).

Definition label : Parser Statement := map_ (pure (fun t => LabelStatement t.1)) (and_ ident (char_ ":"%char)).
Definition directive : Parser Statement :=
  map_ (pure (fun t => Directive t.1 t.2))
    (and_ (skip (map_ (pure collect) (with_ (char_ "."%char) (many1 alpha_num))) blanks) operands).
Definition instruction : Parser Statement :=
  map_ (pure (fun t => Instruction t.1 t.2)) (and_ (skip mnemonic blanks) operands).

(** ** Errors; [Debug] of a character and of a string are parameters *)
Context (debug_char : ascii -> string) (debug_str : string -> string).

Definition format_info (i : Info) : string :=
  match i with
  | TokenInfo x => debug_char x
  | RangeInfo x => debug_str x
  | OwnedInfo x => x
  | BorrowedInfo x => x
  end.
Definition format_error (e : ParserError) : string :=
  match e with
  | Unexpected x => "unexpected " +:+ format_info x
  | Expected x => "expected " +:+ format_info x
  | Message x => format_info x
  | Other x => x
  end.
Definition format_parse_error (e : ParserErrors) : string :=
  "Parse error at line " +:+ signed_decimal (line e) +:+ " column " +:+ signed_decimal (column e) +:+ ": " +:+
  String.concat ", " (format_error <$> errors e).

Definition statements : Parser (list Statement) :=
  skip (with_ spaces (many (skip (or_ (or_ (attempt label) directive) instruction) spaces))) eof.

Definition parse (input : string) : result AsmError (list Statement) :=
  match easy_parse statements input with
  | Ok (insts, _) => Ok insts
  | Err err => Err (ParseError (format_parse_error err))
  | Panic => Panic
  end.
End Grammar.
