(* ===== verification/AsmParserFacts.v ===== *)
(** * The parser reads what the disassembler prints

    From the documented behaviour of the combinators alone: the parser reads
    back every program of labels, directives and instructions printed one to a
    line, and the text of a disassembled instruction assembles to it again. *)

From Stdlib Require Import Ascii String.
From stdpp Require Import gmap strings pretty.
From S2P Require Import Prelude Ebpf Program Verifier Error Text Vm Assembler.
From S2P Require Import InsnBuilderFacts AssemblerFacts Disassembler DisassemblerFacts AsmParser.
Open Scope string_scope.
Open Scope Z_scope.

(** ** Characters and digits *)
Abbreviation chars := list_ascii_of_string.

Definition first_ascii (i : string) : Prop := match i with EmptyString => True | String c _ => is_ascii c = true end.

(** The text ends, or goes on with a character [test] refuses. *)
Definition stops (test : ascii -> bool) (i : string) : Prop :=
  match i with EmptyString => True | String c _ => is_ascii c = true /\ test c = false end.

Lemma stops_first test i : stops test i -> first_ascii i.
Proof. destruct i; [done|]. by intros []. Qed.

Lemma stops_impl (test test' : ascii -> bool) i : (forall c, test' c = true -> test c = true) -> stops test i -> stops test' i.
Proof. destruct i as [|c i]; [done|]. intros Hi [Ha Ht]. split; [done|]. specialize (Hi c). destruct (test' c); [|done]. by rewrite Hi in Ht. Qed.

Lemma alnum_ascii c : is_alnum c = true -> is_ascii c = true.
Proof. unfold is_alnum, is_dec, between, is_ascii. lia. Qed.
Lemma hex_alnum c : is_hex c = true -> is_alnum c = true.
Proof. unfold is_hex, is_alnum, is_dec, between. lia. Qed.
Lemma dec_hex c : is_dec c = true -> is_hex c = true.
Proof. unfold is_hex. intros ->. done. Qed.

(** [decimal] and [hex] print digits, and the digits have the value printed. *)
Record numeral (base : Z) (test : ascii -> bool) (n : Z) (s : string) : Prop := {
  num_some : s <> "";
  num_digits : Forall (fun c => test c = true) (chars s);
  num_value : digits_value base (chars s) = n
}.

Lemma digits_value_cons base c l :
  digits_value base (c :: l) = digit_value c * base ^ Z.of_nat (length l) + digits_value base l.
Proof.
  unfold digits_value. cbn [foldl]. rewrite Z.add_0_l.
  assert (H : forall a, foldl (fun n c => n * base + digit_value c) a l =
             a * base ^ Z.of_nat (length l) + foldl (fun n c => n * base + digit_value c) 0 l); [|apply H].
  induction l as [|d l IH]; intros a; cbn [foldl length].
  { change (Z.of_nat 0) with 0. rewrite Z.pow_0_r. lia. }
  rewrite IH, (IH (0 * base + _)), Nat2Z.inj_succ, Z.pow_succ_r by lia. ring.
Qed.

Lemma pretty_N_char_dec x : (x < 10)%N -> is_dec (pretty_N_char x) = true /\ digit_value (pretty_N_char x) = Z.of_N x.
Proof.
  intros Hx. assert (Hc : x = 0%N \/ x = 1%N \/ x = 2%N \/ x = 3%N \/ x = 4%N \/ x = 5%N \/ x = 6%N \/ x = 7%N \/ x = 8%N \/ x = 9%N) by lia.
  by destruct Hc as [->|[->|[->|[->|[->|[->|[->|[->|[->| ->]]]]]]]]].
Qed.

Lemma pretty_go_numeral x s :
  Forall (fun c => is_dec c = true) (chars s) ->
  Forall (fun c => is_dec c = true) (chars (pretty_N_go x s)) /\
  digits_value 10 (chars (pretty_N_go x s)) = Z.of_N x * 10 ^ Z.of_nat (length (chars s)) + digits_value 10 (chars s) /\
  (s <> "" \/ (0 < x)%N -> pretty_N_go x s <> "").
Proof.
  revert s. induction x as [x IH] using (well_founded_induction N.lt_wf_0). intros s Hs.
  destruct (decide (x = 0)%N) as [->|Hx].
  { rewrite pretty_N_go_0. split; [done|]. split; [lia|]. intros [|]; [done|lia]. }
  rewrite pretty_N_go_step by lia.
  destruct (pretty_N_char_dec (x mod 10)) as [Hd Hv]; [by apply N.mod_lt|].
  destruct (IH (x / 10)%N ltac:(apply N.div_lt; lia) (String (pretty_N_char (x mod 10)) s)) as (H1 & H2 & H3).
  { cbn [list_ascii_of_string]. by constructor. }
  split; [done|]. split; [|intros _; apply H3; by left].
  rewrite H2. cbn [list_ascii_of_string length]. rewrite digits_value_cons, Hv, Nat2Z.inj_succ, Z.pow_succ_r by lia.
  rewrite (N.div_mod x 10) at 3 by done. rewrite N2Z.inj_add, N2Z.inj_mul. change (Z.of_N 10) with 10. ring.
Qed.

Lemma decimal_numeral n : 0 <= n -> numeral 10 is_dec n (decimal n).
Proof.
  intros Hn. unfold decimal, pretty, pretty_N. case_decide as H0.
  { assert (n = 0) as -> by lia. split; [done|by constructor|reflexivity]. }
  destruct (pretty_go_numeral (Z.to_N n) "" ltac:(constructor)) as (H1 & H2 & H3).
  split; [apply H3; right; lia|done|]. rewrite H2. cbn [list_ascii_of_string length].
  change (Z.of_nat 0) with 0. rewrite Z.pow_0_r, Z2N.id by lia. change (digits_value 10 []) with 0. lia.
Qed.

Lemma hex_digit_hex n : 0 <= n < 16 -> is_hex (Text.hex_digit n) = true /\ digit_value (Text.hex_digit n) = n.
Proof.
  intros Hn. assert (Hall : Forall (fun k => is_hex (Text.hex_digit (Z.of_nat k)) = true /\
    digit_value (Text.hex_digit (Z.of_nat k)) = Z.of_nat k) (seq 0 16)) by (vm_compute; repeat constructor).
  rewrite Forall_forall in Hall. specialize (Hall (Z.to_nat n)). rewrite Z2Nat.id in Hall by lia.
  apply Hall, elem_of_seq. lia.
Qed.

Lemma hex_digits_numeral fuel n acc :
  0 <= n < 16 ^ Z.of_nat (S fuel) -> Forall (fun c => is_hex c = true) (chars acc) ->
  Forall (fun c => is_hex c = true) (chars (hex_digits (S fuel) n acc)) /\
  digits_value 16 (chars (hex_digits (S fuel) n acc)) = n * 16 ^ Z.of_nat (length (chars acc)) + digits_value 16 (chars acc) /\
  hex_digits (S fuel) n acc <> "".
Proof.
  revert n acc. induction fuel as [|fuel IH]; intros n acc Hn Hacc; cbn [hex_digits].
  - change (16 ^ Z.of_nat 1) with 16 in Hn. destruct (Z.ltb_spec n 16); [|lia].
    rewrite Z.mod_small by lia. destruct (hex_digit_hex n Hn) as [Hd Hv].
    cbn [list_ascii_of_string]. split; [by constructor|]. split; [|done]. by rewrite digits_value_cons, Hv.
  - destruct (hex_digit_hex (n mod 16) (Z.mod_pos_bound n 16 ltac:(lia))) as [Hd Hv].
    destruct (Z.ltb_spec n 16).
    + rewrite Z.mod_small in * by lia. cbn [list_ascii_of_string].
      split; [by constructor|]. split; [|done]. by rewrite digits_value_cons, Hv.
    + destruct (IH (n / 16) (String (Text.hex_digit (n mod 16)) acc)) as (H1 & H2 & H3).
      { rewrite Nat2Z.inj_succ, Z.pow_succ_r in Hn by lia. split; [apply Z.div_pos; lia|].
        apply Z.div_lt_upper_bound; lia. }
      { cbn [list_ascii_of_string]. by constructor. }
      split; [exact H1|]. split; [|exact H3]. cbn [hex_digits] in H2. rewrite H2.
      cbn [list_ascii_of_string length]. rewrite digits_value_cons, Hv, Nat2Z.inj_succ, Z.pow_succ_r by lia.
      rewrite (Z.div_mod n 16) at 3 by lia. ring.
Qed.

Lemma hex_numeral n : is_u 64 n -> numeral 16 is_hex n (hex n).
Proof.
  intros Hn. destruct (hex_digits_numeral 15 n "" Hn ltac:(constructor)) as (H1 & H2 & H3).
  split; [done|done|]. unfold hex. rewrite H2. cbn [list_ascii_of_string length].
  change (Z.of_nat 0) with 0. rewrite Z.pow_0_r. change (digits_value 16 []) with 0. lia.
Qed.

(** ** Parsers of one character and of many *)
Section Parse.
Context `{P : Profile, CB : Combine, !CombineLaws}.

Definition terminal (p : Parser ascii) (test : ascii -> bool) : Prop :=
  forall i, first_ascii i -> run p i = satisfied test i.

Lemma char_terminal c : terminal (char_ c) (Ascii.eqb c).
Proof. intros i _. apply run_char. Qed.
Lemma digit_terminal : terminal digit is_dec.
Proof. intros i _. apply run_digit. Qed.
Lemma hex_terminal : terminal hex_digit_ is_hex.
Proof. intros i _. apply run_hex_digit. Qed.
Lemma alnum_terminal : terminal alpha_num is_alnum.
Proof. intros i Hi. apply run_alpha_num. by intros c rest ->. Qed.
Lemma or_terminal p q t u : terminal p t -> terminal q u -> terminal (or_ p q) (fun c => t c || u c).
Proof.
  intros Hp Hq i Hi. rewrite run_or, (Hp i Hi), (Hq i Hi). unfold satisfied.
  destruct i as [|c i]; [done|]. by destruct (t c).
Qed.

Definition many_reply (l : list ascii) (rest : string) : Reply (list ascii) :=
  match l with [] => EmptyOk [] rest | _ => ConsumedOk l rest end.

Lemma many_terminal p test s rest :
  terminal p test -> Forall (fun c => test c = true /\ is_ascii c = true) (chars s) -> stops test rest ->
  run (many p) (s +:+ rest) = many_reply (chars s) rest.
Proof.
  intros Hp Hs Hr. induction s as [|c s IH]; cbn [list_ascii_of_string] in *.
  - change ("" +:+ rest) with rest.
    assert (Hrun : run p rest = EmptyErr).
    { rewrite Hp by (by eapply stops_first). destruct rest as [|d rest]; [done|]. destruct Hr as [_ Hr]. cbn. by rewrite Hr. }
    rewrite run_many by (intros; by rewrite Hrun). by rewrite Hrun.
  - apply Forall_cons in Hs as [[Hc Ha] Hs]. change (String c s +:+ rest) with (String c (s +:+ rest)).
    assert (Hrun : run p (String c (s +:+ rest)) = ConsumedOk c (s +:+ rest)) by (rewrite Hp by done; cbn; by rewrite Hc).
    rewrite run_many by (intros; by rewrite Hrun). rewrite Hrun. cbn [continue]. rewrite (IH Hs).
    by destruct (chars s).
Qed.

Lemma many1_terminal p test s rest :
  terminal p test -> s <> "" -> Forall (fun c => test c = true /\ is_ascii c = true) (chars s) -> stops test rest ->
  run (many1 p) (s +:+ rest) = ConsumedOk (chars s) rest.
Proof.
  intros Hp Hne Hs Hr. destruct s as [|c s]; [done|]. cbn [list_ascii_of_string] in *.
  apply Forall_cons in Hs as [[Hc Ha] Hs]. change (String c s +:+ rest) with (String c (s +:+ rest)).
  rewrite run_many1, run_and, Hp by done. cbn. rewrite Hc. cbn [continue].
  rewrite (many_terminal p test) by done. by destruct (chars s).
Qed.

Lemma many1_fails p test rest : terminal p test -> stops test rest -> run (many1 p) rest = EmptyErr.
Proof.
  intros Hp Hr. rewrite run_many1, run_and, Hp by (by eapply stops_first).
  destruct rest as [|c rest]; [done|]. destruct Hr as [_ Hr]. cbn. by rewrite Hr.
Qed.

(** ** Integers and registers *)

(** Whatever follows a word: the end, or no character of a word. *)
Definition is_wordc (c : ascii) : bool := is_alnum c || Ascii.eqb "_"%char c.
Abbreviation ends_word := (stops is_wordc).

Lemma ends_alnum i : ends_word i -> stops is_alnum i.
Proof. apply stops_impl. unfold is_wordc. intros c ->. done. Qed.
Lemma ends_hex i : ends_word i -> stops is_hex i.
Proof. intros Hi. eapply stops_impl; [|by apply ends_alnum]. apply hex_alnum. Qed.
Lemma ends_dec i : ends_word i -> stops is_dec i.
Proof. intros Hi. eapply stops_impl; [|by apply ends_hex]. apply dec_hex. Qed.

Lemma digits_ascii (test : ascii -> bool) s :
  (forall c, test c = true -> is_alnum c = true) -> Forall (fun c => test c = true) (chars s) ->
  Forall (fun c => test c = true /\ is_ascii c = true) (chars s).
Proof. intros Ht Hs. eapply Forall_impl; [exact Hs|]. intros c Hc. split; [done|]. by apply alnum_ascii, Ht. Qed.

Definition no_blank (i : string) : Prop := match i with String c _ => c <> " "%char | EmptyString => True end.

Lemma many_blanks i : no_blank i -> run (many (char_ " "%char)) i = EmptyOk [] i.
Proof.
  intros Hi. assert (Hrun : run (char_ " "%char) i = EmptyErr).
  { rewrite run_char. destruct i as [|c i]; [done|]. cbn -[Ascii.eqb]. simpl in Hi.
    destruct (Ascii.eqb_spec " " c); [by subst|done]. }
  rewrite run_many by (intros; by rewrite Hrun). by rewrite Hrun.
Qed.

Lemma blanks_none i : no_blank i -> run blanks i = EmptyOk tt i.
Proof. intros Hi. unfold blanks. by rewrite run_skip_many, many_blanks. Qed.

Lemma blanks_one i : no_blank i -> run blanks (String " " i) = ConsumedOk tt i.
Proof.
  intros Hi. unfold blanks. rewrite run_skip_many.
  assert (Hrun : run (char_ " "%char) (String " " i) = ConsumedOk " "%char i) by (by rewrite run_char).
  rewrite run_many by (intros; by rewrite Hrun). rewrite Hrun. cbn [continue]. by rewrite many_blanks.
Qed.

Lemma first_dec_no_blank s rest : s <> "" -> Forall (fun c => is_hex c = true) (chars s) -> no_blank (s +:+ rest).
Proof. destruct s as [|c s]; [done|]. intros _ [Hc _]%Forall_cons. cbn. by intros ->. Qed.

Lemma read_dec n rest :
  0 <= n <= i64_max -> ends_word rest -> run (many1 digit) (decimal n +:+ rest) = ConsumedOk (chars (decimal n)) rest.
Proof.
  intros Hn Hr. destruct (decimal_numeral n ltac:(lia)) as [Hne Hd _].
  apply (many1_terminal digit is_dec); [apply digit_terminal|done| |by apply ends_dec].
  apply digits_ascii; [|done]. intros c Hc. by apply hex_alnum, dec_hex.
Qed.

Lemma dec_value_decimal n : 0 <= n <= i64_max -> dec_value (chars (decimal n)) = n.
Proof.
  intros Hn. unfold dec_value. destruct (decimal_numeral n ltac:(lia)) as [_ _ ->].
  by rewrite (proj2 (Z.leb_le _ _)) by lia.
Qed.

Lemma register_reads n rest :
  0 <= n <= i64_max -> ends_word rest -> run register ("r" +:+ decimal n +:+ rest) = ConsumedOk n rest.
Proof.
  intros Hn Hr. unfold register. change ("r" +:+ decimal n +:+ rest) with (String "r" (decimal n +:+ rest)).
  rewrite run_map, run_with, run_and, run_char. cbn [satisfied Ascii.eqb Bool.eqb continue].
  rewrite read_dec by done. cbn [mapped continue pure snd]. by rewrite dec_value_decimal.
Qed.

Abbreviation magnitude := (or_ (attempt integer_hex) integer_dec).

Lemma substring_all s n : (String.length s <= n)%nat -> String.substring 0 n s = s.
Proof.
  revert n. induction s as [|c s IH]; intros [|n] Hn; cbn in *; try done; [lia|]. f_equal. apply IH. lia.
Qed.

(** A decimal number is not taken for the start of a hexadecimal one. *)
Lemma no_hex_prefix s rest :
  s <> "" -> Forall (fun c => is_dec c = true) (chars s) -> ends_word rest ->
  String.prefix "0x" (s +:+ rest) = false.
Proof.
  intros Hne Hs Hr. destruct s as [|c s]; [done|]. apply Forall_cons in Hs as [_ Hs].
  change (String c s +:+ rest) with (String c (s +:+ rest)). cbn [String.prefix].
  destruct (ascii_dec "0" c); [|done]. destruct s as [|d s]; cbn [list_ascii_of_string] in Hs.
  - change ("" +:+ rest) with rest. destruct rest as [|d rest]; [done|]. cbn [String.prefix].
    destruct (ascii_dec "x" d) as [<-|]; [|done]. by destruct Hr.
  - apply Forall_cons in Hs as [Hd _]. change (String d s +:+ rest) with (String d (s +:+ rest)). cbn [String.prefix].
    destruct (ascii_dec "x" d) as [<-|]; [done|done].
Qed.

Lemma magnitude_dec n rest :
  0 <= n <= i64_max -> ends_word rest -> run magnitude (decimal n +:+ rest) = ConsumedOk n rest.
Proof.
  intros Hn Hr. destruct (decimal_numeral n ltac:(lia)) as [Hne Hd _].
  assert (Hhex : run (attempt integer_hex) (decimal n +:+ rest) = EmptyErr).
  { unfold integer_hex. rewrite run_attempt, run_map, run_with, run_and, run_string, no_hex_prefix by done.
    destruct (decimal n +:+ rest) as [|c i]; [done|]. by destruct (Ascii.eqb "0" c). }
  rewrite run_or, Hhex. unfold integer_dec. rewrite run_map, read_dec by done. cbn [mapped continue pure].
  by rewrite dec_value_decimal.
Qed.

Lemma magnitude_hex n rest :
  is_u 64 n -> ends_word rest -> run magnitude ("0x" +:+ hex n +:+ rest) = ConsumedOk (as_i 64 n) rest.
Proof.
  intros Hn Hr. destruct (hex_numeral n Hn) as [Hne Hd Hv].
  rewrite run_or, run_attempt. unfold integer_hex. rewrite run_map, run_with, run_and, run_string.
  change ("0x" +:+ hex n +:+ rest) with (String "0" (String "x" (hex n +:+ rest))).
  cbn [String.prefix String.length String.substring]. destruct (ascii_dec "0" "0"), (ascii_dec "x" "x"); try done.
  rewrite substring_all by lia.
  replace (String.prefix "" (hex n +:+ rest)) with true by (by destruct (hex n +:+ rest)). cbn [continue].
  rewrite (many1_terminal hex_digit_ is_hex); [|apply hex_terminal|done| |by apply ends_hex].
  2:{ apply digits_ascii; [apply hex_alnum|done]. }
  cbn [mapped continue pure snd]. unfold hex_value. rewrite Hv.
  rewrite (proj2 (Z.leb_le _ _)); [done|]. unfold is_u, u64_max in *. lia.
Qed.

(** The first character of a numeral is no sign. *)
Definition unsigned (i : string) : Prop :=
  match i with String c _ => existsb (Ascii.eqb c) ["-"%char; "+"%char] = false | EmptyString => True end.

Lemma sign_none i : unsigned i -> run integer_sign i = EmptyOk 1 i.
Proof.
  intros Hi. unfold integer_sign. rewrite run_map, run_optional, run_skip, run_and, run_one_of.
  destruct i as [|c i]; [done|]. cbn [satisfied]. cbn [unsigned] in Hi. by rewrite Hi.
Qed.

Lemma sign_some c i :
  existsb (Ascii.eqb c) ["-"%char; "+"%char] = true -> no_blank i ->
  run integer_sign (String c i) = ConsumedOk (if Ascii.eqb c "-"%char then -1 else 1) i.
Proof.
  intros Hc Hi. unfold integer_sign. rewrite run_map, run_optional, run_skip, run_and, run_one_of.
  cbn [satisfied]. rewrite Hc. cbn [continue]. by rewrite blanks_none.
Qed.

Lemma integer_unsigned i x rest :
  unsigned i -> run magnitude i = ConsumedOk x rest -> is_i 64 x -> run integer i = ConsumedOk x rest.
Proof.
  intros Hi Hm Hx. unfold integer. rewrite run_map, run_and, sign_none by done. cbn [continue]. rewrite Hm.
  cbn [mapped continue]. rewrite Z.mul_1_l, arith_i64_ok by done. done.
Qed.

Lemma integer_signed c i x rest :
  existsb (Ascii.eqb c) ["-"%char; "+"%char] = true -> no_blank i -> run magnitude i = ConsumedOk x rest ->
  let y := (if Ascii.eqb c "-"%char then -1 else 1) * x in
  is_i 64 y -> run integer (String c i) = ConsumedOk y rest.
Proof.
  intros Hc Hi Hm y Hy. unfold integer. rewrite run_map, run_and, sign_some by done. cbn [continue]. rewrite Hm.
  cbn [mapped continue]. fold y. rewrite arith_i64_ok by done. done.
Qed.

Lemma integer_minus i x rest :
  no_blank i -> run magnitude i = ConsumedOk x rest -> is_i 64 (- x) ->
  run integer (String "-" i) = ConsumedOk (- x) rest.
Proof.
  intros Hi Hm Hx. pose proof (integer_signed "-" i x rest eq_refl Hi Hm) as Hs. cbv zeta in Hs.
  change (if Ascii.eqb "-" "-" then -1 else 1) with (-1) in Hs.
  replace (-1 * x) with (- x) in Hs by lia. by apply Hs.
Qed.
Lemma integer_plus i x rest :
  no_blank i -> run magnitude i = ConsumedOk x rest -> is_i 64 x -> run integer (String "+" i) = ConsumedOk x rest.
Proof.
  intros Hi Hm Hx. pose proof (integer_signed "+" i x rest eq_refl Hi Hm) as Hs. cbv zeta in Hs.
  change (if Ascii.eqb "+" "-" then -1 else 1) with 1 in Hs.
  replace (1 * x) with x in Hs by lia. by apply Hs.
Qed.

Lemma numeral_unsigned base n s rest : numeral base is_hex n s -> unsigned (s +:+ rest).
Proof.
  intros [Hne Hd _]. destruct s as [|c s]; [done|]. apply Forall_cons in Hd as [Hc _].
  change (existsb (Ascii.eqb c) ["-"%char; "+"%char] = false). apply not_true_iff_false.
  intros (d & Hin & ->%Ascii.eqb_eq)%existsb_exists. by destruct Hin as [<-|[<-|[]]].
Qed.

Lemma decimal_hex_numeral n : 0 <= n -> numeral 10 is_hex n (decimal n).
Proof.
  intros Hn. destruct (decimal_numeral n Hn) as [Hne Hd Hv]. split; [done| |done].
  eapply Forall_impl; [exact Hd|]. intros c. apply dec_hex.
Qed.

Lemma integer_decimal z rest :
  i64_min < z <= i64_max -> ends_word rest -> run integer (signed_decimal z +:+ rest) = ConsumedOk z rest.
Proof.
  intros Hz Hr. unfold i64_min, i64_max in Hz. unfold signed_decimal. destruct (Z.ltb_spec z 0).
  - change (String "-" (decimal (- z)) +:+ rest) with (String "-" (decimal (- z) +:+ rest)).
    pose proof (decimal_hex_numeral (- z) ltac:(lia)) as [Hne Hd _].
    rewrite <- (Z.opp_involutive z) at 2. apply integer_minus.
    + by apply first_dec_no_blank.
    + apply magnitude_dec; [unfold i64_max; lia|done].
    + unfold is_i. lia.
  - apply integer_unsigned; [by apply (numeral_unsigned 10 z), decimal_hex_numeral| |unfold is_i; lia].
    apply magnitude_dec; [unfold i64_max; lia|done].
Qed.

Lemma integer_hexadecimal n rest :
  is_u 64 n -> ends_word rest -> run integer ("0x" +:+ hex n +:+ rest) = ConsumedOk (as_i 64 n) rest.
Proof. intros Hn Hr. apply integer_unsigned; [done|by apply magnitude_hex|by apply as_i_range]. Qed.

Lemma integer_offset o rest :
  is_i 16 o -> ends_word rest -> run integer (signed_off_str o +:+ rest) = ConsumedOk o rest.
Proof.
  intros Ho Hr. unfold is_i in Ho. simpl in Ho. unfold signed_off_str. destruct (Z.ltb_spec o 0).
  - change (("-0x" +:+ hex (as_u 64 (- o))) +:+ rest) with (String "-" ("0x" +:+ hex (as_u 64 (- o)) +:+ rest)).
    rewrite (as_u_small 64) by (unfold is_u; lia).
    rewrite <- (Z.opp_involutive o) at 2. apply integer_minus; [done| |unfold is_i; lia].
    rewrite magnitude_hex by (done || unfold is_u; lia). by rewrite as_i_small by (unfold is_i; lia).
  - change (("+0x" +:+ hex (as_u 16 o)) +:+ rest) with (String "+" ("0x" +:+ hex (as_u 16 o) +:+ rest)).
    rewrite (as_u_small 16) by (unfold is_u; lia).
    apply integer_plus; [done| |unfold is_i; lia].
    rewrite magnitude_hex by (done || unfold is_u; lia). by rewrite as_i_small by (unfold is_i; lia).
Qed.

(** ** Operands *)
Definition not_head (c : ascii) (i : string) : Prop := match i with String d _ => c <> d | EmptyString => True end.

Lemma char_fails c i : not_head c i -> run (char_ c) i = EmptyErr.
Proof.
  intros Hi. rewrite run_char. destruct i as [|d i]; [done|]. cbn -[Ascii.eqb]. simpl in Hi.
  by destruct (Ascii.eqb_spec c d).
Qed.

Lemma register_fails i : not_head "r" i -> run register_operand i = EmptyErr.
Proof.
  intros Hi. unfold register_operand, register. by rewrite !run_map, run_with, run_and, char_fails.
Qed.

Lemma immediate_fails i : unsigned i -> stops is_dec i -> run immediate i = EmptyErr.
Proof.
  intros Hu Hi. unfold immediate, integer. rewrite !run_map, run_and, sign_none by done. cbn [continue].
  rewrite run_or, run_attempt. unfold integer_hex, integer_dec. rewrite !run_map, run_with, run_and, run_string.
  rewrite (many1_fails digit is_dec) by (done || apply digit_terminal).
  destruct i as [|c i]; [done|]. destruct Hi as [_ Hi]. cbn [String.prefix].
  destruct (ascii_dec "0" c) as [<-|]; [done|]. by destruct (Ascii.eqb_spec "0" c).
Qed.

Lemma memory_fails i : not_head "[" i -> run memory i = EmptyErr.
Proof.
  intros Hi. unfold memory. by rewrite run_map, run_between, run_skip, run_and, run_with, run_and, char_fails.
Qed.

Lemma ident_fails i : ends_word i -> run ident i = EmptyErr.
Proof.
  intros Hi. unfold ident. rewrite run_map, (many1_fails _ is_wordc); [done| |done].
  apply or_terminal; [apply alnum_terminal|apply char_terminal].
Qed.

Lemma ident_reads s rest :
  s <> "" -> Forall (fun c => is_wordc c = true) (chars s) -> ends_word rest ->
  run ident (s +:+ rest) = ConsumedOk s rest.
Proof.
  intros Hne Hs Hr. unfold ident. rewrite run_map, (many1_terminal _ is_wordc); try done.
  - cbn [mapped continue pure]. unfold collect. by rewrite string_of_list_ascii_of_string.
  - apply or_terminal; [apply alnum_terminal|apply char_terminal].
  - eapply Forall_impl; [exact Hs|]. intros c Hc. split; [done|]. revert Hc.
    by destruct c as [[] [] [] [] [] [] [] []].
Qed.

Lemma is_word_wordc c : is_word c = true -> is_wordc c = true.
Proof. by destruct c as [[] [] [] [] [] [] [] []]. Qed.
Lemma is_digit_dec c : is_digit c = is_dec c.
Proof. by destruct c as [[] [] [] [] [] [] [] []]. Qed.
Lemma wordc_heads c : is_wordc c = true -> c <> "["%char /\ is_ascii c = true /\ existsb (Ascii.eqb c) ["-"%char; "+"%char] = false.
Proof. by destruct c as [[] [] [] [] [] [] [] []]. Qed.

Lemma memory_reads n o rest :
  0 <= n <= i64_max -> is_i 16 o ->
  run memory ("[r" +:+ decimal n +:+ signed_off_str o +:+ "]" +:+ rest) = ConsumedOk (Memory n o) rest.
Proof.
  intros Hn Ho. unfold memory. rewrite run_map, run_between, run_skip, run_and, run_with, run_and, run_char.
  change ("[r" +:+ ?t) with (String "[" ("r" +:+ t)). cbn [satisfied Ascii.eqb Bool.eqb continue].
  assert (Hhead : exists c t, signed_off_str o +:+ "]" +:+ rest = String c t /\ (c = "-"%char \/ c = "+"%char)).
  { unfold signed_off_str. destruct (_ <? _); cbn; eauto. }
  rewrite run_and, run_skip, run_and, register_reads; [|done|].
  2:{ destruct Hhead as (c & t & -> & [-> | ->]); done. }
  cbn [continue]. rewrite blanks_none by (destruct Hhead as (c & t & -> & [-> | ->]); done).
  cbn [mapped continue fst]. rewrite run_optional, integer_offset by done. cbn [mapped continue snd].
  rewrite run_char. done.
Qed.

Lemma operand_reads op text rest :
  shows op text -> ends_word rest -> run operand (text +:+ rest) = ConsumedOk op rest.
Proof.
  intros Hs Hr. unfold operand. rewrite !run_or. destruct Hs as [n Hn|z Hz|z Hz|n o Hn Ho|l Hl].
  - unfold register_operand. rewrite append_assoc, run_map, register_reads by done. done.
  - assert (Hf : run register_operand (signed_decimal z +:+ rest) = EmptyErr).
    { apply register_fails. unfold signed_decimal. destruct (z <? 0) eqn:Hneg; [done|].
      destruct (decimal_numeral z ltac:(lia)) as [Hne Hd _]. destruct (decimal z) as [|c s]; [done|].
      apply Forall_cons in Hd as [Hc _]. intros <-. done. }
    rewrite Hf. unfold immediate. by rewrite run_map, integer_decimal.
  - rewrite append_assoc. rewrite register_fails by done. unfold immediate. by rewrite run_map, integer_hexadecimal.
  - rewrite !append_assoc. rewrite register_fails by done. rewrite immediate_fails by done. by rewrite memory_reads.
  - unfold is_label in Hl. destruct l as [|c l]; [done|].
    apply andb_true_iff in Hl as [[Hw Hd%negb_true_iff]%andb_true_iff Hc%negb_true_iff].
    assert (Hwc : Forall (fun c => is_wordc c = true) (chars (String c l))).
    { apply Forall_forall. intros d Hin%list_elem_of_In. rewrite forallb_forall in Hw. by apply is_word_wordc, Hw. }
    pose proof Hwc as [Hc1 _]%Forall_cons. destruct (wordc_heads c Hc1) as (Hb & Ha & Hsg).
    rewrite register_fails by (cbn; intros <-; by rewrite Ascii.eqb_refl in Hc).
    rewrite immediate_fails; [|done|split; [done|by rewrite <- is_digit_dec]].
    rewrite memory_fails by (cbn; by intros <-). unfold label_operand. rewrite run_map, ident_reads by done. done.
Qed.

(** Nothing is read where a line ends. *)
Lemma operand_none i :
  unsigned i -> ends_word i -> not_head "[" i -> run operand i = EmptyErr.
Proof.
  intros Hu Hw Hb. unfold operand. rewrite !run_or.
  rewrite register_fails; [|destruct i as [|c i]; [done|]; destruct Hw as [_ Hw]; cbn; by intros <-].
  rewrite immediate_fails by (done || by apply ends_dec). rewrite memory_fails by done.
  unfold label_operand. by rewrite run_map, ident_fails.
Qed.

(** ** Lists of operands *)

(** The words after the first, each with the separator before it. *)
Fixpoint separated (sep : string) (words : list string) : string :=
  match words with [] => "" | w :: words => sep +:+ w +:+ separated sep words end.

Lemma concat_separated sep w words : String.concat sep (w :: words) = w +:+ separated sep words.
Proof.
  revert w. induction words as [|x words IH]; intros w.
  - cbn [String.concat separated]. by rewrite append_nil_r.
  - change (String.concat sep (w :: x :: words)) with (w +:+ sep +:+ String.concat sep (x :: words)).
    by rewrite IH.
Qed.

Lemma shows_no_blank op text rest : shows op text -> no_blank (text +:+ rest).
Proof.
  destruct 1 as [n Hn|z Hz|z Hz|n o Hn Ho|l Hl]; try done.
  - unfold signed_decimal. destruct (z <? 0) eqn:Hneg; [done|].
    destruct (decimal_hex_numeral z ltac:(lia)) as [Hne Hd _]. by apply first_dec_no_blank.
  - destruct l as [|c l]; [done|]. cbn. intros ->. done.
Qed.

Abbreviation separator := (skip (char_ ","%char) blanks).

Lemma separated_ends words rest : ends_word rest -> ends_word (separated ", " words +:+ rest).
Proof. destruct words; [done|]. intros _. done. Qed.

Lemma separator_fails i : not_head "," i -> run (with_ separator operand) i = EmptyErr.
Proof. intros Hi. by rewrite run_with, run_and, run_skip, run_and, char_fails. Qed.

Lemma more_operands ops words rest :
  Forall2 shows ops words -> ends_word rest -> not_head "," rest ->
  run (many (with_ separator operand)) (separated ", " words +:+ rest) =
    match ops with [] => EmptyOk [] rest | _ => ConsumedOk ops rest end.
Proof.
  intros Hs Hr Hn. induction Hs as [|op w ops words Hop Hs IH]; cbn [separated].
  - change ("" +:+ rest) with rest. pose proof (separator_fails rest Hn) as Hf.
    rewrite run_many by (intros; by rewrite Hf). by rewrite Hf.
  - rewrite !append_assoc. change (", " +:+ ?t) with (String "," (String " " t)).
    assert (Hrun : run (with_ separator operand) (String "," (String " " (w +:+ separated ", " words +:+ rest))) =
                   ConsumedOk op (separated ", " words +:+ rest)).
    { rewrite run_with, run_and, run_skip, run_and, run_char. cbn [satisfied Ascii.eqb Bool.eqb continue].
      rewrite blanks_one by (by eapply shows_no_blank). cbn [mapped continue fst].
      rewrite (operand_reads op w) by (done || by apply separated_ends). done. }
    rewrite run_many by (intros; by rewrite Hrun). rewrite Hrun. cbn [continue]. rewrite IH. by destruct ops.
Qed.

(** Where a line ends: at the end of the text or at a line feed. *)
Definition line_end (i : string) : Prop := match i with EmptyString => True | String c _ => c = "010"%char end.

Lemma line_end_word i : line_end i -> ends_word i.
Proof. destruct i; [done|]. by intros ->. Qed.
Lemma line_end_head c i : line_end i -> c <> "010"%char -> not_head c i.
Proof. destruct i; [done|]. by intros ->. Qed.

Lemma operands_none i : line_end i -> run operands i = EmptyOk [] i.
Proof.
  intros Hi. unfold operands. rewrite run_sep_by, run_and, operand_none; [done| | |].
  - destruct i; [done|]. by rewrite Hi.
  - by apply line_end_word.
  - by apply line_end_head.
Qed.

Lemma operands_read ops words rest :
  Forall2 shows ops words -> words <> [] -> line_end rest ->
  run operands (String.concat ", " words +:+ rest) = ConsumedOk ops rest.
Proof.
  intros Hs Hne Hr. destruct Hs as [|op w ops words Hop Hs]; [done|].
  rewrite concat_separated, append_assoc. unfold operands. rewrite run_sep_by, run_and.
  rewrite (operand_reads op w) by (done || by apply separated_ends, line_end_word).
  cbn [continue]. rewrite (more_operands ops words) by (done || by apply line_end_word || by apply line_end_head).
  by destruct ops.
Qed.

(** ** Statements *)
Definition is_name (s : string) : Prop := s <> "" /\ Forall (fun c => is_alnum c = true) (chars s).

Lemma name_reads s rest : is_name s -> stops is_alnum rest -> run (many1 alpha_num) (s +:+ rest) = ConsumedOk (chars s) rest.
Proof.
  intros [Hne Hs] Hr. apply (many1_terminal alpha_num is_alnum); [apply alnum_terminal|done| |done].
  by apply digits_ascii.
Qed.

(** What follows a name: perhaps a blank, and the operands. *)
Definition succeeds {A} (x : Reply A) (a : A) (rest : string) : Prop := x = EmptyOk a rest \/ x = ConsumedOk a rest.

Lemma after_name ops words rest :
  Forall2 shows ops words -> line_end rest ->
  let tail := render "" words +:+ rest in
  stops is_wordc tail /\ not_head ":" tail /\
  exists t, succeeds (run blanks tail) tt t /\ succeeds (run operands t) ops rest.
Proof.
  intros Hs Hr. cbv zeta. destruct Hs as [|op w ops words Hop Hs]; cbn [render].
  - change ("" +:+ rest) with rest. split; [by apply line_end_word|]. split; [by apply line_end_head|].
    exists rest. split; left; [|by apply operands_none]. apply blanks_none. destruct rest; [done|]. by rewrite Hr.
  - change ("" +:+ " " +:+ ?t) with (String " " t). change (String " " ?t +:+ rest) with (String " " (t +:+ rest)).
    split; [done|]. split; [done|]. exists (String.concat ", " (w :: words) +:+ rest). split; right.
    + apply blanks_one. rewrite concat_separated, append_assoc. by eapply shows_no_blank.
    + apply operands_read; [by constructor|done|done].
Qed.

Lemma render_split name words rest : render name words +:+ rest = name +:+ render "" words +:+ rest.
Proof. destruct words; cbn [render]; [done|]. by rewrite !append_assoc. Qed.

Inductive shows_statement : Statement -> string -> Prop :=
| shows_label_statement name : name <> "" -> Forall (fun c => is_wordc c = true) (chars name) ->
    shows_statement (LabelStatement name) (name +:+ ":")
| shows_directive name ops words : is_name name -> Forall2 shows ops words ->
    shows_statement (Directive name ops) ("." +:+ render name words)
| shows_instruction name ops words : is_name name -> Forall2 shows ops words ->
    shows_statement (Instruction name ops) (render name words).

Abbreviation statement := (or_ (or_ (attempt label) directive) instruction).

Lemma name_word s : is_name s -> s <> "" /\ Forall (fun c => is_wordc c = true) (chars s).
Proof. intros [Hne Hs]. split; [done|]. eapply Forall_impl; [exact Hs|]. unfold is_wordc. by intros c ->. Qed.

Lemma label_reads name rest :
  name <> "" -> Forall (fun c => is_wordc c = true) (chars name) ->
  run label (name +:+ String ":" rest) = ConsumedOk (LabelStatement name) rest.
Proof. intros Hne Hw. unfold label. rewrite run_map, run_and, ident_reads by done. cbn [continue]. by rewrite run_char. Qed.

(** A name without a colon after it is no label. *)
Lemma label_refused name tail :
  is_name name -> ends_word tail -> not_head ":" tail -> run (attempt label) (name +:+ tail) = EmptyErr.
Proof.
  intros [Hne Hw]%name_word Ht Hc. unfold label. rewrite run_attempt, run_map, run_and, ident_reads by done.
  cbn [continue]. by rewrite char_fails.
Qed.

Lemma instruction_reads name ops words rest :
  is_name name -> Forall2 shows ops words -> line_end rest ->
  run instruction (render name words +:+ rest) = ConsumedOk (Instruction name ops) rest.
Proof.
  intros Hn Hs Hr. rewrite render_split. destruct (after_name ops words rest Hs Hr) as (Hw & _ & t & Hb & Ho).
  set (tail := render "" words +:+ rest) in *. unfold instruction, mnemonic.
  rewrite run_map, run_and, run_skip, run_and, run_map, name_reads by (done || by apply ends_alnum).
  cbn [mapped continue pure]. unfold collect. rewrite string_of_list_ascii_of_string.
  destruct Hb as [-> | ->], Ho as [Ho|Ho]; cbn [mapped continue fst]; by rewrite Ho.
Qed.

Lemma directive_reads name ops words rest :
  is_name name -> Forall2 shows ops words -> line_end rest ->
  run directive (String "." (render name words +:+ rest)) = ConsumedOk (Directive name ops) rest.
Proof.
  intros Hn Hs Hr. rewrite render_split. destruct (after_name ops words rest Hs Hr) as (Hw & _ & t & Hb & Ho).
  set (tail := render "" words +:+ rest) in *. unfold directive.
  rewrite run_map, run_and, run_skip, run_and, run_map, run_with, run_and, run_char.
  cbn [satisfied Ascii.eqb Bool.eqb continue]. rewrite name_reads by (done || by apply ends_alnum).
  cbn [mapped continue pure snd]. unfold collect. rewrite string_of_list_ascii_of_string.
  destruct Hb as [-> | ->], Ho as [Ho|Ho]; cbn [mapped continue fst]; by rewrite Ho.
Qed.

Lemma statement_reads st text rest :
  shows_statement st text -> line_end rest -> run statement (text +:+ rest) = ConsumedOk st rest.
Proof.
  intros Hs Hr. rewrite !run_or. destruct Hs as [name Hne Hw|name ops words Hn Hs|name ops words Hn Hs].
  - rewrite append_assoc. change (":" +:+ rest) with (String ":" rest). by rewrite run_attempt, label_reads.
  - rewrite append_assoc. change ("." +:+ ?t) with (String "." t).
    rewrite run_attempt. unfold label at 1. rewrite run_map, run_and, ident_fails by done. cbn [mapped continue].
    by rewrite (directive_reads name ops words).
  - destruct (after_name ops words rest Hs Hr) as (Hw & Hc & _).
    rewrite (instruction_reads name ops words) by done. rewrite render_split, label_refused by done.
    unfold directive. rewrite run_map, run_and, run_skip, run_and, run_map, run_with, run_and, char_fails; [done|].
    destruct Hn as [Hne Hn]. destruct name as [|c name]; [done|]. apply Forall_cons in Hn as [Hn _]. cbn. by intros <-.
Qed.

(** ** Programs, a statement to a line *)
Definition line_feed : string := String "010"%char "".

Lemma statement_head st text :
  shows_statement st text -> exists c t, text = String c t /\ is_ascii c = true /\ is_space c = false.
Proof.
  assert (Hw : forall c, is_wordc c = true -> is_ascii c = true /\ is_space c = false)
    by (intros c; by destruct c as [[] [] [] [] [] [] [] []]).
  destruct 1 as [name Hne Hs|name ops words _ _|name ops words [Hne Hs]%name_word _].
  - destruct name as [|c name]; [done|]. apply Forall_cons in Hs as [Hc _]. do 2 eexists. split; [done|]. by apply Hw.
  - by do 2 eexists.
  - destruct name as [|c name]; [done|]. apply Forall_cons in Hs as [Hc _].
    destruct words; cbn [render]; do 2 eexists; (split; [done|by apply Hw]).
Qed.

Lemma spaces_skip i : (forall c t, i = String c t -> is_ascii c = true /\ is_space c = false) ->
  run spaces (line_feed +:+ i) = ConsumedOk tt i.
Proof.
  intros Hi. change (line_feed +:+ i) with (String "010" i). rewrite run_spaces_some by done.
  cbn [continue]. by rewrite run_spaces_none.
Qed.

Lemma program_head sts lines rest :
  Forall2 shows_statement sts lines -> lines <> [] ->
  forall c t, String.concat line_feed lines +:+ rest = String c t -> is_ascii c = true /\ is_space c = false.
Proof.
  intros Hs Hne. destruct Hs as [|st l sts lines Hst _]; [done|]. rewrite concat_separated, append_assoc.
  destruct (statement_head st l Hst) as (d & t' & -> & Hd). by intros c t [= <- _].
Qed.

Abbreviation spaced := (skip statement spaces).

Lemma spaced_none : run spaced "" = EmptyErr.
Proof.
  rewrite run_skip, run_and, !run_or, run_attempt. unfold label, directive, instruction, mnemonic.
  rewrite !run_map, !run_and, ident_fails by done. rewrite !run_skip, !run_and, !run_map, run_with, run_and, char_fails by done.
  cbn [mapped continue]. by rewrite (many1_fails alpha_num is_alnum) by (done || apply alnum_terminal).
Qed.

(** A statement with the line feed after it. *)
Lemma spaced_reads st l sts lines :
  shows_statement st l -> Forall2 shows_statement sts lines ->
  run spaced (l +:+ separated line_feed lines) = ConsumedOk st (String.concat line_feed lines).
Proof.
  intros Hst Hs. rewrite run_skip, run_and, (statement_reads st l) by (done || by destruct lines).
  cbn [continue]. destruct Hs as [|st' l' sts lines Hst' Hs]; cbn [separated].
  - rewrite run_spaces_none by done. done.
  - rewrite <- concat_separated, spaces_skip; [done|].
    intros c t. rewrite <- (append_nil_r (String.concat _ _)). by apply (program_head (st' :: sts)); [constructor|].
Qed.

Lemma program_reads sts lines :
  Forall2 shows_statement sts lines ->
  run (many spaced) (String.concat line_feed lines) = match sts with [] => EmptyOk [] "" | _ => ConsumedOk sts "" end.
Proof.
  induction 1 as [|st l sts lines Hst Hs IH].
  - change (String.concat line_feed []) with "".
    rewrite run_many by (intros; by rewrite spaced_none). by rewrite spaced_none.
  - rewrite concat_separated. pose proof (spaced_reads st l sts lines Hst Hs) as Hrun.
    rewrite run_many by (intros; by rewrite Hrun). rewrite Hrun. cbn [continue]. rewrite IH. by destruct sts.
Qed.

Lemma parse_reads debug_char debug_str sts lines :
  Forall2 shows_statement sts lines -> parse debug_char debug_str (String.concat line_feed lines) = Ok sts.
Proof.
  intros Hs. assert (Hrun : succeeds (run statements (String.concat line_feed lines)) sts "").
  { unfold statements, succeeds. rewrite run_skip, run_and, run_with, run_and, run_spaces_none.
    - cbn [continue]. rewrite (program_reads sts) by done.
      destruct sts; cbn [mapped continue snd]; rewrite run_eof; cbn [mapped continue fst]; auto.
    - destruct lines as [|l lines]; [done|]. intros c t. rewrite <- (append_nil_r (String.concat _ _)).
      by apply (program_head sts). }
  unfold parse. pose proof (run_easy_parse statements (String.concat line_feed lines)) as He.
  destruct Hrun as [Hrun|Hrun]; rewrite Hrun in He; by rewrite He.
Qed.

(** C30: The parser reads back programs in print: labels, directives and
    instructions, a statement to a line, with registers, integers in decimal,
    less the smallest 64-bit one, or in hexadecimal, memory operands with 16-bit
    offsets, and label operands that start with neither a digit nor an r, as the
    disassembler writes them. *)
Theorem parse_print debug_char debug_str sts lines :
  Forall2 shows_statement sts lines -> parse debug_char debug_str (String.concat line_feed lines) = Ok sts.
Proof. apply parse_reads. Qed.
End Parse.

(** ** Disassembly, parsing and assembly *)
Definition name_check (s : string) : bool := match s with "" => false | _ => forallb is_alnum (chars s) end.

Lemma name_check_ok s : name_check s = true -> is_name s.
Proof.
  destruct s as [|c s]; [done|]. intros Hs. split; [done|]. apply Forall_forall. intros d Hd%list_elem_of_In.
  unfold name_check in Hs. rewrite forallb_forall in Hs. by apply Hs.
Qed.

Lemma mnemonics_named v : forallb (fun x => name_check x.1) (map_to_list (make_instruction_map v)) = true.
Proof. destruct v; vm_compute; reflexivity. Qed.

Lemma mnemonic_name v name x : make_instruction_map v !! name = Some x -> is_name name.
Proof.
  intros Hl%elem_of_map_to_list%list_elem_of_In. pose proof (mnemonics_named v) as Hn. rewrite forallb_forall in Hn.
  by apply name_check_ok, (Hn _ Hl).
Qed.

Section Roundtrip.
Context `{P : Profile, M : Murmur3, CB : Combine, !CombineLaws} (v : SBPFVersion) (lm : gmap string Z).
Context {V : Type} (cfg_nodes : gmap Z CfgNode) (functions : FunctionRegistry Z) (loader : BuiltinProgram V)
  (agree : Agreement lm cfg_nodes functions loader).
Context (debug_char : ascii -> string) (debug_str : string -> string).

(** C29: The tools agree: disassembling an instruction in the assembler's form gives
    a text that the parser reads as one instruction statement, and assembling
    that statement at the same address emits the instruction again, for every
    opcode and version. *)
Theorem disassembly_parses {E} (s : SecondPass) (i : Insn) :
  canonical v i -> target_known v cfg_nodes i -> registry_exact (registry s) ->
  insn_ptr s = ptr i -> 0 <= ptr i < 2 ^ 62 -> is_u 4 (dst i) -> is_u 4 (src i) -> is_i 16 (off i) ->
  exists text name operands s',
    disassemble_instruction (E := E) i (ptr i) cfg_nodes functions loader v = Ok text /\
    parse debug_char debug_str text = Ok [Instruction name operands] /\
    assemble_instruction v lm s name operands = Ok s' /\ insns s' = (insns s ++ slots i)%list.
Proof.
  intros Hc Ht Hr Hs Hp Hd Hsr Ho.
  destruct (disassembly_reassembles v lm cfg_nodes functions loader agree (E := E) s i Hc Ht Hr Hs Hp Hd Hsr Ho)
    as (text & Hdis & name & ops & words & s' & Hw & -> & Ha & Hi).
  exists (render name words), name, ops, s'. split; [done|]. split; [|done].
  assert (Hn : is_name name).
  { unfold assemble_instruction in Ha. destruct (make_instruction_map v !! name) eqn:Hm; [|done].
    by eapply mnemonic_name. }
  apply (parse_reads debug_char debug_str [Instruction name ops] [render name words]).
  constructor; [by constructor|constructor].
Qed.
End Roundtrip.
