(* ===== verification/ParserWitnesses.v ===== *)
(** * The parser on concrete texts

    First an implementation of the interface [Combine] of [AsmParser] that
    satisfies its laws.  A parser is a function from the input to a reply,
    together with the fact that it consumes what it says it consumes; [many]
    ends because every repetition shortens the input.  It shows that the laws
    can hold, and runs the grammar on concrete texts.

    Then tests of [src/casestudy/sbpf/src/asm_parser.rs] and of
    [src/casestudy/sbpf/tests/assembler.rs], instances of the theorems, and
    texts the parser treats in a surprising way. *)

From Stdlib Require Import Ascii String.
From stdpp Require Import strings gmap.
From S2P Require Import Prelude Ebpf Program InsnBuilderFacts Verifier Error Vm Text Assembler.
From S2P Require Import AssemblerFacts Disassembler DisassemblerFacts AsmWitnesses TestUtils.
From S2P Require Import AsmParser AsmParserFacts.
Open Scope string_scope.
Open Scope Z_scope.

Definition proper {A} (f : string -> Reply A) : Prop :=
  forall i, match f i with
            | ConsumedOk _ rest => (String.length rest < String.length i)%nat
            | EmptyOk _ rest => rest = i
            | _ => True
            end.
Record parser (A : Type) := mkParser { apply_parser : string -> Reply A; parser_proper : proper apply_parser }.
Arguments mkParser {A} _ _.
Arguments apply_parser {A} _ _.
Arguments parser_proper {A} _ _.

Lemma satisfied_proper test : proper (satisfied test).
Proof. intros [|c i]; [done|]. cbn. destruct (test c); [|done]. lia. Qed.
Definition satisfy (test : ascii -> bool) : parser ascii := mkParser _ (satisfied_proper test).

Definition string_reply (s i : string) : Reply string :=
  match s with
  | "" => EmptyOk "" i
  | String c _ =>
      if String.prefix s i then ConsumedOk s (String.substring (String.length s) (String.length i) i)
      else match i with String d _ => if Ascii.eqb c d then ConsumedErr else EmptyErr | EmptyString => EmptyErr end
  end.

Lemma substring_length n m i : (String.length (String.substring n m i) <= String.length i - n)%nat.
Proof.
  revert n m. induction i as [|c i IH]; intros [|n] m; cbn; [by destruct m..| |].
  - destruct m as [|m]; cbn; [lia|]. specialize (IH 0%nat m). lia.
  - apply IH.
Qed.

Lemma string_proper s : proper (string_reply s).
Proof.
  intros i. destruct s as [|c s]; [done|]. cbn -[String.prefix String.substring].
  destruct (String.prefix _ i) eqn:Hp.
  - pose proof (substring_length (S (String.length s)) (String.length i) i). destruct i; [done|]. cbn [String.length] in *. lia.
  - destruct i as [|d i]; [done|]. by destruct (c =? d)%char.
Qed.

Fixpoint skip_spaces (i : string) : string :=
  match i with String c rest => if is_space c then skip_spaces rest else i | EmptyString => i end.
Definition spaces_reply (i : string) : Reply unit :=
  match i with
  | String c rest => if is_space c then ConsumedOk tt (skip_spaces rest) else EmptyOk tt i
  | EmptyString => EmptyOk tt i
  end.
Lemma skip_spaces_length i : (String.length (skip_spaces i) <= String.length i)%nat.
Proof. induction i as [|c i IH]; cbn; [lia|]. destruct (is_space c); cbn; lia. Qed.
Lemma spaces_proper : proper spaces_reply.
Proof.
  intros [|c i]; [done|]. unfold spaces_reply. destruct (is_space c); [|done].
  pose proof (skip_spaces_length i). cbn. lia.
Qed.

Lemma eof_proper : proper (fun i => match i with EmptyString => EmptyOk tt "" | _ => EmptyErr end).
Proof. by intros []. Qed.

Lemma continue_proper {A B} (p : parser A) (f : A -> string -> Reply B) :
  (forall a, proper (f a)) -> proper (fun i => continue (apply_parser p i) f).
Proof.
  intros Hf i. pose proof (parser_proper p i) as Hp. destruct (apply_parser p i) as [a rest|a rest| | |]; cbn [continue]; try done.
  - pose proof (Hf a rest) as Hr. destruct (f a rest); try done; [lia|by subst].
  - subst rest. apply Hf.
Qed.

Definition map_parser {A B} (f : A -> result False B) (p : parser A) : parser B.
Proof.
  refine (mkParser (fun i => mapped f (apply_parser p i)) _). apply continue_proper.
  intros a i. by destruct (f a).
Defined.

Definition and_parser {A B} (p : parser A) (q : parser B) : parser (A * B).
Proof.
  refine (mkParser (fun i => continue (apply_parser p i) (fun a rest => mapped (fun b => Ok (a, b)) (apply_parser q rest))) _).
  apply continue_proper. intros a. apply (parser_proper (map_parser (fun b => Ok (a, b)) q)).
Defined.

Definition or_parser {A} (p q : parser A) : parser A.
Proof.
  refine (mkParser (fun i => match apply_parser p i with EmptyErr => apply_parser q i | x => x end) _).
  intros i. pose proof (parser_proper p i). pose proof (parser_proper q i). by destruct (apply_parser p i).
Defined.

Definition attempt_parser {A} (p : parser A) : parser A.
Proof.
  refine (mkParser (fun i => match apply_parser p i with ConsumedErr => EmptyErr | x => x end) _).
  intros i. pose proof (parser_proper p i). by destruct (apply_parser p i).
Defined.

Definition optional_parser {A} (p : parser A) : parser (option A).
Proof.
  refine (mkParser (fun i => match apply_parser p i with EmptyErr => EmptyOk None i
                             | x => mapped (fun a => Ok (Some a)) x end) _).
  intros i. pose proof (parser_proper (map_parser (fun a => Ok (Some a)) p) i) as Hm. cbn in Hm.
  by destruct (apply_parser p i).
Defined.

(** [fuel] counts the characters left; a parser that succeeds on nothing has no
    repetition. *)
Fixpoint many_loop {A} (p : parser A) (fuel : nat) (i : string) : Reply (list A) :=
  match fuel with
  | O => Panicked
  | S fuel =>
      match apply_parser p i with
      | EmptyErr => EmptyOk [] i
      | EmptyOk _ _ => Panicked
      | x => continue x (fun a rest => mapped (fun l => Ok (a :: l)) (many_loop p fuel rest))
      end
  end.

Lemma many_loop_proper {A} (p : parser A) fuel : proper (many_loop p fuel).
Proof.
  induction fuel as [|fuel IH]; [done|]. intros i. cbn [many_loop].
  assert (Hc : proper (fun i => continue (apply_parser p i) (fun a rest => mapped (fun l => Ok (a :: l)) (many_loop p fuel rest)))).
  { apply continue_proper. intros a. apply (parser_proper (map_parser (fun l => Ok (a :: l)) (mkParser _ IH))). }
  specialize (Hc i). cbn in Hc. by destruct (apply_parser p i).
Qed.

Lemma many_loop_fuel {A} (p : parser A) fuel i :
  (String.length i < fuel)%nat -> many_loop p fuel i = many_loop p (S (String.length i)) i.
Proof.
  revert i. induction fuel as [fuel IH] using lt_wf_ind. intros i Hi. destruct fuel as [|fuel]; [lia|].
  cbn [many_loop]. pose proof (parser_proper p i) as Hp.
  destruct (apply_parser p i) as [a rest|a rest| | |]; try done. cbn [continue].
  rewrite (IH fuel) by lia.
  destruct (String.length i) as [|n] eqn:Hn; [lia|]. by rewrite (IH (S n)) by lia.
Qed.

Definition many_parser {A} (p : parser A) : parser (list A).
Proof.
  refine (mkParser (fun i => many_loop p (S (String.length i)) i) _). intros i. apply (many_loop_proper p _ i).
Defined.

Definition sep_by_parser {A B} (p : parser A) (s : parser B) : parser (list A) :=
  map_parser (fun x => Ok (default [] x))
    (optional_parser (map_parser (fun x => Ok (x.1 :: x.2))
       (and_parser p (many_parser (map_parser (fun x => Ok x.2) (and_parser s p)))))).

#[export] Instance combinators : Combine := {|
  Parser := parser;
  run A p i := apply_parser p i;
  char_ c := satisfy (Ascii.eqb c);
  one_of l := satisfy (fun c => existsb (Ascii.eqb c) l);
  digit := satisfy is_dec;
  hex_digit_ := satisfy is_hex;
  alpha_num := satisfy is_alnum;
  string_ s := mkParser _ (string_proper s);
  spaces := mkParser _ spaces_proper;
  eof := mkParser _ eof_proper;
  map_ A B f p := map_parser f p;
  or_ A p q := or_parser p q;
  and_ A B p q := and_parser p q;
  with_ A B p q := map_parser (fun x => Ok x.2) (and_parser p q);
  skip A B p q := map_parser (fun x => Ok x.1) (and_parser p q);
  attempt A p := attempt_parser p;
  optional A p := optional_parser p;
  many A p := many_parser p;
  many1 A p := map_parser (fun x => Ok (x.1 :: x.2)) (and_parser p (many_parser p));
  skip_many A p := map_parser (fun _ => Ok tt) (many_parser p);
  sep_by A B p s := sep_by_parser p s;
  between_ A B C o c p := map_parser (fun x => Ok x.1) (and_parser (map_parser (fun x => Ok x.2) (and_parser o p)) c);
  easy_parse A p i :=
    match apply_parser p i with
    | ConsumedOk a rest | EmptyOk a rest => Ok (a, rest)
    | ConsumedErr | EmptyErr => Err (mkErrors 1 1 [])
    | Panicked => Panic
    end
|}.

#[export] Instance combinators_laws : CombineLaws.
Proof.
  split; try (intros; reflexivity); cbn.
  - intros [|c i] Hi; [done|]. destruct (Hi c i eq_refl) as [_ Hc]. unfold spaces_reply. by rewrite Hc.
  - intros c i _ Hc. unfold spaces_reply at 1. rewrite Hc. destruct i as [|d i]; [done|]. cbn.
    by destruct (is_space d).
  - intros A p i Hne. cbn [many_loop]. destruct (apply_parser p i) as [a rest|a rest| | |] eqn:Hp; try done; [|by destruct (Hne a rest)].
    cbn [continue]. pose proof (parser_proper p i) as Hpr. rewrite Hp in Hpr. by rewrite many_loop_fuel by lia.
  - intros A B p s i. unfold sep_by_parser. cbn.
    destruct (continue _ _) as [[a l] rest|[a l] rest| | |]; done.
  - intros A p i. destruct (apply_parser p i); eauto.
Qed.

#[local] Existing Instance AsmWitnesses.debug.
#[local] Existing Instance AsmWitnesses.byte_sum.
Definition quote_char (c : ascii) : string := String c "".
Definition parse_text : string -> result AsmError (list Statement) := parse quote_char id.

Example test_ident : run ident "exit:" = ConsumedOk "exit" ":" /\ run ident "lbb_1" = ConsumedOk "lbb_1" "".
Proof. vm_compute. auto. Qed.
Example test_mnemonic : run mnemonic "add32*" = ConsumedOk "add32" "*".
Proof. vm_compute. reflexivity. Qed.
Example test_integer :
  map (run integer) ["0"; "42"; "+42"; "-42"; "0x0"; "0x123456789abcdef0"; "-0x1f"] =
  map (fun z => ConsumedOk z "") [0; 42; 42; -42; 0; 0x123456789abcdef0; -31].
Proof. vm_compute. reflexivity. Qed.
Example test_operand :
  map (run operand) ["r0"; "r15"; "0"; "42"; "[r1]"; "[r3+5]"; "[r3+0x1f]"; "[r3-0x1f]"; "[r5 + 3]"; "[r11 - 0x30]"] =
  map (fun o => ConsumedOk o "")
    [Register 0; Register 15; Integer 0; Integer 42; Memory 1 0; Memory 3 5; Memory 3 31; Memory 3 (-31); Memory 5 3;
     Memory 11 (-48)].
Proof. vm_compute. reflexivity. Qed.
Example test_instruction :
  map (run instruction) ["exit"; "call 2"; "ldxb r2, [r1+12]"; "jne r3, 0x8, +37"; "jne r3,0x8,+37"] =
  map (fun s => ConsumedOk s "")
    [Instruction "exit" []; Instruction "call" [Integer 2]; Instruction "ldxb" [Register 2; Memory 1 12];
     Instruction "jne" [Register 3; Integer 8; Integer 37]; Instruction "jne" [Register 3; Integer 8; Integer 37]].
Proof. vm_compute. reflexivity. Qed.

(** ** The assembly source of the TCP tests *)
Definition v3_config : Config := {|
  max_call_depth := 64; stack_frame_size := 4096; enable_address_translation := true;
  enable_stack_frame_gaps := true; instruction_meter_checkpoint_distance := 10000;
  enable_instruction_meter := true; enable_register_tracing := false;
  enable_symbol_and_section_labels := false; reject_broken_elfs := false; noop_instruction_rate := 256;
  sanitize_user_provided_values := true; optimize_rodata := true; allow_memory_region_zero := true;
  aligned_memory_mapping := false; enabled_sbpf_versions := (V3, V3) |}.

(** [test_tcp_sack] of [tests/assembler.rs]: the source assembles to the binary. *)
Example test_tcp_sack :
  match assemble (V := unit) parse_text TCP_SACK_ASM (new_loader v3_config) with
  | Ok e => bool_decide (elf_bytes e = TCP_SACK_BIN)
  | _ => false
  end = true.
Proof. vm_compute. reflexivity. Qed.

Example test_tcp_port_80 :
  match parse_text PROG_TCP_PORT_80 with Ok l => length l | _ => 0%nat end = 20%nat.
Proof. vm_compute. reflexivity. Qed.

(** ** Instances *)
Definition short_program : list Statement :=
  [LabelStatement "entrypoint"; Instruction "mov64" [Register 0; Integer (-7)];
   Instruction "stxdw" [Memory 10 (-8); Register 0]; Directive "fill" [Integer 16; Integer (as_i 64 0x9500)];
   Instruction "ja" [Label "entrypoint"]; Instruction "exit" []].
Definition short_lines : list string :=
  ["entrypoint:"; "mov64 r0, -7"; "stxdw [r10-0x8], r0"; ".fill 16, 0x9500"; "ja entrypoint"; "exit"].

Lemma name_of s : name_check s = true -> is_name s.
Proof. apply name_check_ok. Qed.

Lemma short_shows : Forall2 shows_statement short_program short_lines.
Proof.
  constructor; [apply (shows_label_statement "entrypoint"); [done|by repeat constructor]|].
  constructor; [apply (shows_instruction "mov64" [Register 0; Integer (-7)] ["r0"; "-7"]); [by apply name_of|]|].
  { constructor; [by apply (shows_register 0)|]. constructor; [by apply (shows_decimal (-7))|constructor]. }
  constructor; [apply (shows_instruction "stxdw" [Memory 10 (-8); Register 0] ["[r10-0x8]"; "r0"]); [by apply name_of|]|].
  { constructor; [by apply (shows_memory 10 (-8))|]. constructor; [by apply (shows_register 0)|constructor]. }
  constructor; [apply (shows_directive "fill" [Integer 16; Integer (as_i 64 0x9500)] ["16"; "0x9500"]); [by apply name_of|]|].
  { constructor; [by apply (shows_decimal 16)|]. constructor; [by apply (shows_hex 0x9500)|constructor]. }
  constructor; [apply (shows_instruction "ja" [Label "entrypoint"] ["entrypoint"]); [by apply name_of|]|].
  { constructor; [by apply (shows_label "entrypoint")|constructor]. }
  constructor; [apply (shows_instruction "exit" [] []); [by apply name_of|constructor]|constructor].
Qed.

Lemma parse_print_witness : parse_text (String.concat line_feed short_lines) = Ok short_program.
Proof. apply (parse_print quote_char id short_program short_lines). exact short_shows. Defined.

Lemma disassembly_parses_witness :
  exists text name operands s',
    disassemble_instruction (E := unit) loop_jump 3 loop_nodes registry_default (new_mock : BuiltinProgram unit) V3 =
      Ok text /\
    parse quote_char id text = Ok [Instruction name operands] /\
    assemble_instruction V3 loop_labels (mkSecondPass 3 registry_default []) name operands = Ok s' /\
    insns s' = [loop_jump].
Proof.
  apply (disassembly_parses V3 loop_labels loop_nodes registry_default (new_mock : BuiltinProgram unit) loop_agreement
           quote_char id (E := unit) (mkSecondPass 3 registry_default []) loop_jump);
    [vm_compute; intuition congruence|vm_compute; eauto|..].
  - intros k n t Hk. vm_compute in Hk. destruct k; discriminate Hk.
  - reflexivity.
  - split; vm_compute; congruence.
  - split; vm_compute; congruence.
  - split; vm_compute; congruence.
  - split; vm_compute; congruence.
Defined.

(** ** Surprises *)

(** The smallest integer: its decimal digits overflow and become 0, its
    hexadecimal form overflows when it is negated and panics. *)
Lemma smallest_integer :
  run integer "-9223372036854775808" = ConsumedOk 0 "" /\ run integer "-9223372036854775807" = ConsumedOk (- (2 ^ 63 - 1)) "" /\
  run integer "-0x8000000000000000" = Panicked /\ parse_text "mov64 r0, -0x8000000000000000" = Panic.
Proof. vm_compute. auto. Qed.

(** A label that starts with [r] can be defined but not referred to: the operand
    parser takes the letter for a register and does not go back. *)
Lemma label_with_r :
  run label "return:" = ConsumedOk (LabelStatement "return") "" /\ run operand "return" = ConsumedErr /\
  parse_text "ja leave" = Ok [Instruction "ja" [Label "leave"]] /\
  (exists e, parse_text "ja return" = Err e).
Proof. vm_compute. eauto. Qed.
